(* ===== verification/_CoqProject ===== *)
-Q . S2P
Prelude.v
BTree.v
Varint.v
Pair.v
Common.v
Codes.v
TrackName.v
LocationFilter.v
RangeFilter.v
AuthorizationToken.v
Properties.v
MessageParameter.v
CombinedFilter.v
Subgroup.v
Datagram.v
FetchObject.v
ObjectForms.v
ControlParts.v
Control.v
SetupOption.v
DataStream.v
SeenObjects.v
TrackCache.v
Ssts.v
Backpressure.v
SwitchingSet.v
Controller.v
ControlStream.v
Namespaces.v
Streams.v
Subscription.v
Forwarding.v
Delivery.v
Connection.v
Tracks.v
Ingest.v
Relay.v
FetchRange.v
FetchDelivery.v
FetchTruth.v
FetchEnds.v
Parameters.v
TrackTable.v
Requests.v
RequestTables.v
RequestAnswers.v
RequestScenarios.v
Publishing.v
PublishingTables.v
RequestsCalm.v
PublishersTold.v
NewTracks.v
PublishScenarios.v
RequestStreams.v
Fills.v
FetchRequests.v
FetchesAnswered.v
FetchAnswers.v
FetchScenarios.v
