(* ===== verification/Prelude.v ===== *)
(** * MOQtail: the protocol library and the relay's core, verified

    MOQtail is an implementation of Media over QUIC Transport.  Publishers send
    tracks of objects, subscribers receive them, and a relay stands between
    them, caching and forwarding.  The protocol library ([libs/moqtail-rs])
    holds the wire format: control messages on request streams, and objects on
    subgroup streams, fetch streams and datagrams.  The relay ([apps/relay])
    keeps the state behind forwarding.  The sender-side switching library
    ([libs/moqtail-ssts]) decides which encoding of a track a subscriber gets.
    All paths below are under [src/].

    ** How the model corresponds to the code

    Integers are [Z] with their width stated ([is_u64] and the like); every
    unchecked [+], [-] and [*] of the code is [add_u64] and so on, which panics
    or wraps as the build does ([Target]).  A Rust call ends in an [outcome]:
    [Ok], [Err], [Panic], or [Diverge] for exhausted fuel, and the theorems show
    that [Diverge] never comes up and where [Panic] does.  A buffer being read
    is a list of bytes and a reader is a [parser], which gives back what is
    left.  Error values keep everything the code branches on and leave out the
    text meant for people.  Names are the source's, with the type in front
    where two types have a method of the same name.

    ** The files

    - [Prelude]: outcomes, parsers, loops, sorting; the three judgements every
      codec is proved with ([decodes]: a reader undoes a writer; [robust]: a
      reader never panics, consumes a prefix and gives values in range;
      [stable]: a reader does not care what comes later), their hint databases
      ([wire], [robust], [stable]) and the interface [Wire] of a codec.
    - [BTree]: ordered maps.
    - [Varint], [Pair], [Common], [Codes], [TrackName]: [model/common],
      [model/error], the code registries, and track names and aliases.
    - [LocationFilter], [RangeFilter], [AuthorizationToken], [Properties],
      [MessageParameter]: [model/parameter] and [model/property].
    - [CombinedFilter]: what all filters of a request add up to, and the filters
      the relay derives ([filter_constructor.rs], the pure part of [fill.rs]).
    - [Subgroup], [Datagram], [FetchObject], [ObjectForms]: [model/data].
    - [ControlParts], [Control], [SetupOption]: [model/control], the 18 control
      messages and their envelope.
    - [DataStream]: [transport/data_stream_handler.rs], writing a data stream
      and the task that reads one as it arrives.
    - [SeenObjects], [TrackCache]: the relay's duplicate detection and cache.
    - [Ssts], [Backpressure]: [libs/moqtail-ssts], the default bandwidth
      allocation and the back-pressure algorithm.
    - [SwitchingSet], [Controller]: [server/ssts], the sets of a connection, the
      decision loop, and the gate that each forwarded object passes.
    - [ControlStream]: [transport/control_stream_handler.rs], control messages
      over a stream, with deadlines and termination codes.
    - [Namespaces]: the registry of prefix subscriptions and the announcements
      ([track_manager.rs], [prefix_subscription.rs]) with the handlers of
      SUBSCRIBE_NAMESPACE, SUBSCRIBE_TRACKS and PUBLISH_NAMESPACE.
    - [Streams]: stream identifiers and priorities ([stream_id.rs], [utils.rs]).
    - [Subscription], [Forwarding]: the state of a subscription, and the task
      that forwards a track to its subscriber, with updates, switches and the
      stream map of the connection ([subscription.rs], [client.rs],
      [client/switch_context.rs]).  What the transport makes of the end of a stream, and
      whether the connection has the discard timeout of SSTS, is the class [Closing].  [Delivery] holds the theorem on what the
      subscriber reads, [Connection] those on all runs and on switches.
    - [Tracks]: a track, its publishers, upstream requests and subscribers, what it
      makes of an object, a datagram or the end of a stream, and the handler of a
      publisher's data stream ([track.rs], [subscription_manager.rs],
      [session.rs]).  [Ingest] holds the theorems on what a track keeps and sends.
    - [Relay]: publishers' streams, the track and a subscriber's task together, and
      the theorem on the whole way.
    - [FetchRange], [FetchDelivery]: the range of a FETCH, what an upstream response
      says of it, and the delivery, group by group, from the cache and from publishers
      ([message_handlers/fetch_handler.rs]).  [FetchTruth] holds the theorem on what
      the subscriber is told, [FetchEnds] that on the end of the delivery.
    - [FetchRequests]: FETCH requests up to their delivery: the range, the wait for a fill
      in flight and for the publisher's answer, the tasks of upstream requests, stops; and
      what deliveries, of FETCHes and of the fills of SUBSCRIBEs, claim and ask for at
      their gaps (the same file, with [fill.rs]).  [FetchesAnswered] holds the theorem on answers and claims,
      [FetchAnswers] that on what is passed on, [FetchScenarios] runs of both and of what
      the findings are about.
    - [Parameters], [TrackTable], [Requests]: the parameters passed on upstream and
      downstream, the relay's tables of tracks and aliases, and SUBSCRIBE requests with
      the exchanges that ask publishers ([message_handlers/parameters.rs],
      [track_manager.rs], [message_handlers/subscribe_handler.rs]).  [RequestTables]
      holds the invariant of the tables and that these operations keep it,
      [RequestAnswers] the theorem on the answers, [RequestScenarios] runs of both and
      of what they leave out.
    - [Publishing]: PUBLISH and PUBLISH_DONE, the PUBLISH pushed to subscribers of
      namespaces, updates of a subscription with what they ask of publishers,
      TRACK_STATUS, and the end of a session ([message_handlers/publish_handler.rs],
      [message_handlers/track_status_handler.rs], [session.rs]), on the state of
      [Requests].  [PublishingTables] holds the theorem on the tables over all these
      operations, [RequestsCalm] what SUBSCRIBE leaves as it was for a track that a
      PUBLISH made, [PublishersTold] the theorem that publishers are asked to send,
      [NewTracks] that on pushed tracks, [PublishScenarios] runs of these and of what
      they leave out.
    - [Fills]: the fills of a subscription, from their opening to their end ([fill.rs],
      with parts of [subscription.rs] and [client.rs]), and what fills of different
      requests have for themselves.
    - [RequestStreams]: a request stream from its acceptance to its end: the first
      message, the follow-ups, the limit on active requests ([request_stream.rs],
      [message_handlers/mod.rs]).

    ** What the theorems show

    For every codec: what is written is read back (round trips), and what is
    read from arbitrary bytes is in range, can be written again, and never makes
    the reader panic, except in the places the findings name, where the theorem
    states the exact condition.  For filters: the maps the program builds select
    exactly the objects the list of filters means.  For data streams: however
    the bytes are cut on arrival, the same objects come out (equivalence), and
    they are the ones sent (refinement).  For the relay's state: the duplicate
    index agrees with the full history within its bounds, the absent ranges are
    the set of absent Locations, the cache answers exactly when it can account
    for every Location, and no two fills overlap.  For the switching algorithms:
    what the default one serves is ordered, affordable and exact in its
    remainder, and the back-pressure one keeps its tiers and answers pressure
    and relief in a bounded number of observations (liveness).  For the
    relay's side of switching: the manager's maps are one table of held tracks
    (refinement), a decision covers every set and is final, and in every
    interleaving of the tasks a gate answers by a recorded decision, so that no
    two tracks of a set are forwarded for one group.  For control streams: the
    messages and the way reading ends do not depend on how the bytes are cut.
    For namespaces: over every run of the handlers, each taken as one step, the
    shared registry says what the connections' requests say, announcements reach
    the subscribers they concern once, and a subscriber knows what is announced.
    For forwarding: the events of a track go through the task and out on
    streams, and reading those streams back with the model of the receiving side
    gives exactly the objects of the feed that the subscription asked for; over
    every run of a connection streams only grow and end once; the two
    subscriptions of a switch never deliver objects of the same group on streams (the
    suspended one goes on with datagrams until the other delivers), and it ends
    the suspended one as it was asked to.  For tracks: a subscriber's channel
    gets what is new, once and in order, the Largest Object is the largest, and
    the cache answers from what came in.  For a FETCH: what the relay takes for absent
    is what the publisher's response says, exactly (equivalence); with a true cache and
    true publishers a finished stream never lets an Object that the subscriber asked
    for pass for absent, whatever else happens meanwhile (safety); the delivery
    ends in any environment (termination); each FETCH is answered once, or waits for
    something that comes, and no handlers and deliveries wait for each other's fills
    (liveness); and the publisher's
    answer is passed on as it is (equivalence).  For SUBSCRIBE and
    PUBLISH requests: over every run of subscribers, publishers, timeouts, closed streams
    and ended sessions the tables agree (a typing of the state), and a task panics only
    where a SUBSCRIBE is refused that nobody hears.  Save for the runs that [op_ok] and
    [usual] leave out, each SUBSCRIBE gets one answer or an exchange still waits for
    its publisher, and when someone wants a track's Objects each publisher that announced
    the track with FORWARD=0 has been asked to send (liveness).  A PUBLISH of a new track
    is pushed to exactly the connections whose prefix covers it, each with an alias and a
    subscription of its own.  The first theorem joins forwarding and tracks: from the items of the publishers'
    streams, in any interleaving, to the objects read back from the subscriber's
    streams.

    ** Fuel and bounds

    Loops over a buffer have one more than its bytes as fuel, since each turn
    takes at least one byte; nested parameters have one level of depth, since
    they may not nest again; the loop over cached objects has the number of
    absent ranges and objects; a FETCH
    delivery has two turns for each group of its range, one of them to wait for another
    FETCH.  Each bound is proved to be enough: no theorem
    allows [Diverge].

    ** Not modelled

    Sockets, QUIC and WebTransport sessions, timers, locks and channels, logs and
    configuration files: what they do is the operating system's and the libraries', and
    the model takes what they deliver as inputs (bytes, items, answers, timeouts, ends of
    streams) in any order.  Where the code holds a lock for the length of a call, calls
    are steps and the theorems hold of every sequence of them; a handler that takes
    several locks in turn is one step too, and the findings name the places where that
    hides a race.  The cache library ([moka]) may evict a group at any time.  In [FetchRequests] a
    track stays in the map when it turns out malformed, since the FETCHes hold on to it;
    a delivery has only its gaps there, which may be of any groups, and the whole of its
    turns in [FetchDelivery].  Waits are not timed: a timeout is a step that may
    come at any moment.  The command-line client, the catalog (derived JSON records),
    the bindings and the TypeScript library are programs of their own that use the
    protocol library or speak to the relay. *)
From stdpp Require Export base list numbers sorting strings.
From Stdlib Require Export ZArith Lia.

Open Scope Z_scope.

(** * Machine integers

    Every integer of the program is a [Z] with its range stated.  The literals
    are notations, so that [lia] sees the numbers. *)

Abbreviation U8 := 256.
Abbreviation U16 := 65536.
Abbreviation U32 := 4294967296.
Abbreviation U64 := 18446744073709551616.
Abbreviation U64_MAX := 18446744073709551615.
(** [isize::MAX] on a 64-bit target, the bound of every allocation. *)
Abbreviation ISIZE_MAX := 9223372036854775807.

Definition is_u8 (v : Z) : Prop := 0 <= v < U8.
Definition is_u64 (v : Z) : Prop := 0 <= v < U64.

#[export] Instance is_u8_dec v : Decision (is_u8 v).
Proof. unfold is_u8. apply _. Defined.
#[export] Instance is_u64_dec v : Decision (is_u64 v).
Proof. unfold is_u64. apply _. Defined.

(** * Outcomes

    What a call of a Rust function can end in: a value, an [Err], a panic
    (an index out of range, an arithmetic overflow in a build with overflow
    checks, a capacity overflow), or, for a loop modelled with fuel, running
    out of it.  The theorems show that the last never happens. *)

Inductive outcome (E A : Type) : Type :=
| Ok (a : A)
| Err (e : E)
| Panic
| Diverge.
Arguments Ok {E A} _.
Arguments Err {E A} _.
Arguments Panic {E A}.
Arguments Diverge {E A}.

Definition obind {E A B} (r : outcome E A) (k : A -> outcome E B) : outcome E B :=
  match r with
  | Ok a => k a
  | Err e => Err e
  | Panic => Panic
  | Diverge => Diverge
  end.

Definition omap_err {E F A} (f : E -> F) (r : outcome E A) : outcome F A :=
  match r with
  | Ok a => Ok a
  | Err e => Err (f e)
  | Panic => Panic
  | Diverge => Diverge
  end.

(** [Option::ok_or]. *)
Definition ok_or {E A} (o : option A) (e : E) : outcome E A :=
  match o with Some a => Ok a | None => Err e end.

Declare Scope moq_scope.
Delimit Scope moq_scope with moq.
Open Scope moq_scope.

(** [let? x := r in k] is Rust's [let x = r?; k]. *)
Notation "'let?' x ':=' r 'in' k" := (obind r (fun x => k))
  (at level 10, x name, r at level 100, k at level 200) : moq_scope.

Definition is_ok {E A} (r : outcome E A) : bool :=
  match r with Ok _ => true | _ => false end.

(** Neither a panic nor exhausted fuel. *)
Definition returns {E A} (r : outcome E A) : Prop :=
  match r with Ok _ | Err _ => True | _ => False end.

Lemma obind_Ok_inv {E A B} (r : outcome E A) (k : A -> outcome E B) b :
  obind r k = Ok b -> exists a, r = Ok a /\ k a = Ok b.
Proof. destruct r; simpl; try discriminate; eauto. Qed.

(** * The build

    [overflow_checks] is the flag of the build profile: on in a debug build,
    where [+], [-] and [*] panic when they leave the type, off in a release
    build, where they wrap.  The sizes are the layout rustc chooses for the
    types the program preallocates vectors of, which the language leaves
    unspecified; only their positivity and a generous bound are used. *)
Class Target := {
  overflow_checks : bool;
  size_of_MessageParameter : Z;
  size_of_KeyValuePair : Z;
  size_of_MessageParameter_range : 1 <= size_of_MessageParameter <= 4096;
  size_of_KeyValuePair_range : 1 <= size_of_KeyValuePair <= 4096
}.

(** Two builds, for the examples. *)
Definition debug_build : Target.
Proof. refine {| overflow_checks := true; size_of_MessageParameter := 72;
  size_of_KeyValuePair := 48 |}; lia. Defined.
Definition release_build : Target.
Proof. refine {| overflow_checks := false; size_of_MessageParameter := 72;
  size_of_KeyValuePair := 48 |}; lia. Defined.

(** [u64] arithmetic: the checked, the saturating and the plain operators. *)
Definition checked_add (a b : Z) : option Z := if a + b <? U64 then Some (a + b) else None.
Definition checked_sub (a b : Z) : option Z := if b <=? a then Some (a - b) else None.
Definition checked_mul (a b : Z) : option Z := if a * b <? U64 then Some (a * b) else None.
Definition saturating_add (a b : Z) : Z := Z.min (a + b) U64_MAX.
Definition saturating_sub (a b : Z) : Z := Z.max (a - b) 0.
Definition saturating_mul (a b : Z) : Z := Z.min (a * b) U64_MAX.

Definition wrap64 (v : Z) : Z := v mod U64.

Definition arith_u64 `{Target} {E} (v : Z) : outcome E Z :=
  if bool_decide (is_u64 v) then Ok v
  else if overflow_checks then Panic
  else Ok (wrap64 v).
Definition add_u64 `{Target} {E} (a b : Z) : outcome E Z := arith_u64 (a + b).
Definition sub_u64 `{Target} {E} (a b : Z) : outcome E Z := arith_u64 (a - b).

(** [Vec::with_capacity(count)] for elements of [size] bytes: asking for more
    than [isize::MAX] bytes panics with a capacity overflow. *)
Definition with_capacity {E} (size count : Z) : outcome E unit :=
  if count * size <=? ISIZE_MAX then Ok tt else Panic.

(** * Parse errors ([model/error/parse.rs])

    [details] strings, which only carry text for people, are left out;
    everything the program can branch on is kept. *)
Inductive ParseError : Type :=
| NotEnoughBytes (context : string) (needed available : Z)
| CastingError (context from_type to_type : string)
| LengthExceedsMax (context : string) (max len : Z)
| KeyValueFormattingError (context : string)
| InvalidType (context : string)
| InvalidUTF8 (context : string)
| ProtocolViolation (context : string)
| TrackNameError (context : string)
| TrackAliasError (context : string)
| Timeout (context : string)
| OtherError (context : string).

Abbreviation result := (outcome ParseError).
(** Functions that return or panic. *)
Abbreviation panics := (outcome Empty_set).
Definition lift_panics {E A} (r : panics A) : outcome E A :=
  match r with
  | Ok a => Ok a
  | Err e => match e with end
  | Panic => Panic
  | Diverge => Diverge
  end.

(** * Byte buffers

    A [Bytes] being read is the list of the bytes left in it.  A parser
    returns what is left also when it fails, as the [&mut Bytes] it stands for
    keeps what was consumed. *)
Abbreviation bytes := (list Z).
Definition bytes_ok (bs : bytes) : Prop := Forall is_u8 bs.
Definition blen (bs : bytes) : Z := Z.of_nat (length bs).

Definition parser (A : Type) : Type := bytes -> result A * bytes.

Definition pret {A} (a : A) : parser A := fun bs => (Ok a, bs).
Definition pfail {A} (e : ParseError) : parser A := fun bs => (Err e, bs).
Definition ppanic {A} : parser A := fun bs => (Panic, bs).
Definition lift {A} (r : result A) : parser A := fun bs => (r, bs).
Definition pbind {A B} (p : parser A) (k : A -> parser B) : parser B :=
  fun bs => match p bs with
            | (Ok a, r) => k a r
            | (Err e, r) => (Err e, r)
            | (Panic, r) => (Panic, r)
            | (Diverge, r) => (Diverge, r)
            end.
(** [Result::map_err] on a parser. *)
Definition pmap_err {A} (f : ParseError -> ParseError) (p : parser A) : parser A :=
  fun bs => (omap_err f (fst (p bs)), snd (p bs)).
(** Runs [p] on a buffer of its own, as the program does with a payload split
    off the main buffer; what [p] leaves of it is dropped. *)
Definition run_on {A} (p : parser A) (bs : bytes) : result A := fst (p bs).

Notation "'let!' x ':=' p 'in' k" := (pbind p (fun x => k))
  (at level 10, x name, p at level 100, k at level 200) : moq_scope.

(** [Buf::remaining], [has_remaining], [get_u8], [get_u16], [copy_to_bytes]. *)
Definition remaining : parser Z := fun bs => (Ok (blen bs), bs).
Definition has_remaining : parser bool := fun bs => (Ok (negb (blen bs =? 0)), bs).
Definition get_u8 : parser Z :=
  fun bs => match bs with b :: r => (Ok b, r) | [] => (Panic, []) end.
Definition get_u16 : parser Z :=
  fun bs => match bs with
            | hi :: lo :: r => (Ok (hi * 256 + lo), r)
            | _ => (Panic, bs)
            end.
Definition copy_to_bytes (n : Z) : parser bytes :=
  fun bs => if blen bs <? n then (Panic, bs)
            else (Ok (take (Z.to_nat n) bs), drop (Z.to_nat n) bs).

(** [if bytes.remaining() < n { return Err(NotEnoughBytes { .. }) }]. *)
Definition need (context : string) (n : Z) : parser unit :=
  fun bs => if blen bs <? n then (Err (NotEnoughBytes context n (blen bs)), bs)
            else (Ok tt, bs).

(** [u64::try_into::<usize>] on a 64-bit target. *)
Definition to_usize (context : string) (v : Z) : result Z :=
  if v <? U64 then Ok v else Err (CastingError context "u64" "usize").

(** [usize::try_into::<u16>] *)
Definition to_u16 (context : string) (v : Z) : result Z :=
  if v <? U16 then Ok v else Err (CastingError context "usize" "u16").

(** [BufMut::put_u16]. *)
Definition put_u16 (v : Z) : bytes := [Z.shiftr v 8; Z.land v 255].

(** * Loops

    [for _ in 0..count] and [while bytes.has_remaining()].  Each turn consumes
    at least a byte or fails, so one more than the bytes left bounds the
    number of turns of the first, and the bytes left those of the second. *)
Fixpoint ploop {S} (fuel : nat) (step : S -> parser S) (count : Z) (s : S) : parser S :=
  fun bs =>
    if count <=? 0 then (Ok s, bs)
    else match fuel with
         | O => (Diverge, bs)
         | Datatypes.S fuel => pbind (step s) (ploop fuel step (count - 1)) bs
         end.
Definition for_count {S} (count : Z) (step : S -> parser S) (s : S) : parser S :=
  fun bs => ploop (Datatypes.S (length bs)) step count s bs.

Fixpoint pwhile {S} (fuel : nat) (step : S -> parser S) (s : S) : parser S :=
  fun bs =>
    match bs with
    | [] => (Ok s, [])
    | _ => match fuel with
           | O => (Diverge, bs)
           | Datatypes.S fuel => pbind (step s) (pwhile fuel step) bs
           end
    end.
Definition while_remaining {S} (step : S -> parser S) (s : S) : parser S :=
  fun bs => pwhile (length bs) step s bs.

(** [for x in l], with the state the body changes. *)
Fixpoint for_each {A S} (l : list A) (body : S -> A -> panics S) (s : S) : panics S :=
  match l with
  | [] => Ok s
  | x :: l => let? s := body s x in for_each l body s
  end.

(** [Iterator::collect::<Result<Vec<_>, _>>]. *)
Fixpoint collect {E A} (l : list (outcome E A)) : outcome E (list A) :=
  match l with
  | [] => Ok []
  | r :: l => let? a := r in let? rest := collect l in Ok (a :: rest)
  end.

(** [slice::sort_by_key], which is stable. *)
Fixpoint insert_by {A} (key : A -> Z) (x : A) (l : list A) : list A :=
  match l with
  | [] => [x]
  | y :: l' => if key x <=? key y then x :: y :: l' else y :: insert_by key x l'
  end.
Definition sort_by_key {A} (key : A -> Z) (l : list A) : list A :=
  foldr (insert_by key) [] l.

(** Helpers for two shapes the program writes out in full each time: a checked
    read of [n] bytes, and a checked read of one byte. *)
Definition get_bytes (context : string) (n : Z) : parser bytes :=
  let! _ := need context n in copy_to_bytes n.
Definition get_u8_checked (context : string) : parser Z :=
  let! _ := need context 1 in get_u8.

(** * Tactics and hint databases *)

Create HintDb wire discriminated.
Create HintDb robust discriminated.

(** Linear arithmetic with the ranges and byte lengths unfolded. *)
Ltac ulia := unfold is_u64, is_u8, blen in *; simpl length in *; lia.

(** Reduces a parser applied to a known buffer. *)
Ltac punfold :=
  unfold pbind, pret, pfail, lift, need, get_u8, remaining, has_remaining in *.

Ltac case_if :=
  match goal with
  | |- context [if ?b then _ else _] => destruct b eqn:?
  | H : context [if ?b then _ else _] |- _ => destruct b eqn:?
  end.

(** Booleans of the source turned into the propositions they decide. *)
Ltac breflect :=
  repeat match goal with
  | H : (_ <? _) = true |- _ => apply Z.ltb_lt in H
  | H : (_ <? _) = false |- _ => apply Z.ltb_ge in H
  | H : (_ <=? _) = true |- _ => apply Z.leb_le in H
  | H : (_ <=? _) = false |- _ => apply Z.leb_gt in H
  | H : (_ =? _) = true |- _ => apply Z.eqb_eq in H
  | H : (_ =? _) = false |- _ => apply Z.eqb_neq in H
  | H : negb _ = true |- _ => apply negb_true_iff in H
  | H : negb _ = false |- _ => apply negb_false_iff in H
  | H : (_ && _) = true |- _ => apply andb_true_iff in H as [? ?]
  | H : (_ || _) = false |- _ => apply orb_false_iff in H as [? ?]
  end.

(** * Integers *)

Lemma checked_add_Some a b c : checked_add a b = Some c <-> c = a + b /\ a + b < U64.
Proof.
  unfold checked_add. destruct (Z.ltb_spec (a + b) U64); split; intros; simplify_eq; try tauto.
  - destruct_and!; subst; done.
  - lia.
Qed.

Lemma checked_sub_Some a b c : checked_sub a b = Some c <-> c = a - b /\ b <= a.
Proof.
  unfold checked_sub. destruct (Z.leb_spec b a); split; intros; simplify_eq; try tauto.
  - destruct_and!; subst; done.
  - lia.
Qed.

Lemma arith_u64_Ok `{Target} {E} v : is_u64 v -> arith_u64 (E:=E) v = Ok v.
Proof. intros. unfold arith_u64. by rewrite bool_decide_eq_true_2. Qed.

(** * Bytes *)

Lemma blen_app a b : blen (a ++ b) = blen a + blen b.
Proof. unfold blen. rewrite length_app. lia. Qed.

Lemma blen_nonneg a : 0 <= blen a.
Proof. unfold blen. lia. Qed.

Lemma take_blen_app a b : take (Z.to_nat (blen a)) (a ++ b) = a.
Proof. unfold blen. rewrite Nat2Z.id. apply take_app_length. Qed.

Lemma drop_blen_app a b : drop (Z.to_nat (blen a)) (a ++ b) = b.
Proof. unfold blen. rewrite Nat2Z.id. apply drop_app_length. Qed.

Lemma bytes_ok_app a b : bytes_ok (a ++ b) <-> bytes_ok a /\ bytes_ok b.
Proof. apply Forall_app. Qed.

Lemma bytes_ok_suffix (a b : bytes) : a `suffix_of` b -> bytes_ok b -> bytes_ok a.
Proof. intros [l ->] H. by apply bytes_ok_app in H as [_ ?]. Qed.

Lemma bytes_ok_nil : bytes_ok [].
Proof. constructor. Qed.
Lemma bytes_ok_byte b : is_u8 b -> bytes_ok [b].
Proof. intros. by apply Forall_singleton. Qed.
#[export] Hint Resolve bytes_ok_nil bytes_ok_byte : wire.

(** A decidable fact about a small number is checked by running it on each. *)
Lemma small_forall (n : nat) (P : Z -> bool) v :
  forallb P (map Z.of_nat (seq 0 n)) = true -> 0 <= v < Z.of_nat n -> P v = true.
Proof.
  intros H Hv. rewrite forallb_forall in H. apply H, in_map_iff.
  exists (Z.to_nat v). rewrite in_seq. lia.
Qed.

Lemma Forall_snoc {A} (P : A -> Prop) l x : Forall P l -> P x -> Forall P (l ++ [x]).
Proof. intros Hl Hx. apply Forall_app. split; [done|]. by constructor. Qed.

(** * Decoding what was encoded *)

(** [p] reads back exactly [bs] as [a], whatever follows. *)
Definition decodes {A} (p : parser A) (bs : bytes) (a : A) : Prop :=
  forall rest, p (bs ++ rest) = (Ok a, rest).

Lemma decodes_ret {A} (a : A) : decodes (pret a) [] a.
Proof. done. Qed.

Lemma decodes_lift {A} (a : A) : decodes (lift (Ok a)) [] a.
Proof. done. Qed.

Lemma decodes_bind {A B} (p : parser A) (k : A -> parser B) b1 b2 a c :
  decodes p b1 a -> decodes (k a) b2 c -> decodes (pbind p k) (b1 ++ b2) c.
Proof. intros H1 H2 rest. unfold pbind. rewrite <- app_assoc, H1. apply H2. Qed.

(** A step that consumes nothing. *)
Lemma decodes_bind_nil {A B} (p : parser A) (k : A -> parser B) b a c :
  decodes p [] a -> decodes (k a) b c -> decodes (pbind p k) b c.
Proof. intros H1 H2. by apply (decodes_bind p k [] b a c). Qed.

(** The last step of a parser. *)
Lemma decodes_bind_last {A B} (p : parser A) (k : A -> parser B) b a c :
  decodes p b a -> decodes (k a) [] c -> decodes (pbind p k) b c.
Proof. intros H1 H2. rewrite <- (app_nil_r b). by eapply decodes_bind. Qed.

Lemma decodes_map_err {A} f (p : parser A) bs a :
  decodes p bs a -> decodes (pmap_err f p) bs a.
Proof. intros H rest. unfold pmap_err. by rewrite H. Qed.

Lemma decodes_exact {A} (p : parser A) bs a : decodes p bs a -> p bs = (Ok a, []).
Proof. intros H. specialize (H []). by rewrite app_nil_r in H. Qed.

(** The same for a parser that reads to the end of its buffer. *)
Lemma decodes_step {A B} (p : parser A) (k : A -> parser B) b1 b2 a x :
  decodes p b1 a -> k a b2 = x -> pbind p k (b1 ++ b2) = x.
Proof. intros H <-. unfold pbind. by rewrite H. Qed.
Lemma decodes_step_nil {A B} (p : parser A) (k : A -> parser B) b a x :
  decodes p [] a -> k a b = x -> pbind p k b = x.
Proof. intros H <-. unfold pbind. by rewrite (H b : p b = _). Qed.

Lemma decodes_u8 b : decodes get_u8 [b] b.
Proof. done. Qed.

Lemma decodes_u8_checked ctx b : decodes (get_u8_checked ctx) [b] b.
Proof.
  intros rest. unfold get_u8_checked. punfold.
  destruct (Z.ltb_spec (blen ([b] ++ rest)) 1); [unfold blen in *; simpl in *; lia|done].
Qed.

Lemma decodes_get_bytes ctx (bs : bytes) : decodes (get_bytes ctx (blen bs)) bs bs.
Proof.
  intros rest. unfold get_bytes, copy_to_bytes. punfold.
  rewrite blen_app. pose proof (blen_nonneg rest).
  destruct (Z.ltb_spec (blen bs + blen rest) (blen bs)); [lia|].
  rewrite blen_app. destruct (Z.ltb_spec (blen bs + blen rest) (blen bs)); [lia|].
  by rewrite take_blen_app, drop_blen_app.
Qed.

#[export] Hint Resolve decodes_ret decodes_lift decodes_u8 decodes_u8_checked
  decodes_get_bytes decodes_map_err : wire.

(** Walks a parser along the bytes it should read.  The bytes are a
    right-nested concatenation, one piece per read. *)
Ltac decode :=
  repeat first
    [ progress (rewrite <- ?app_assoc; simpl app)
    | solve [eauto 3 with wire]
    | eapply decodes_bind_nil; [solve [eauto 3 with wire]|]
    | eapply decodes_bind; [solve [eauto 3 with wire]|]
    | eapply decodes_bind_last; [solve [eauto 3 with wire]|] ].

(** * Loops over a sequence of encodings *)

(** [step] reads the pieces [bss] one after the other, from state [s] to [s']. *)
Inductive runs {S} (step : S -> parser S) : S -> list bytes -> S -> Prop :=
| runs_nil s : runs step s [] s
| runs_cons s b s1 bss s2 :
    decodes (step s) b s1 -> b <> [] -> runs step s1 bss s2 ->
    runs step s (b :: bss) s2.

Lemma runs_length {S} (step : S -> parser S) s bss s' :
  runs step s bss s' -> (length bss <= length (concat bss))%nat.
Proof.
  induction 1 as [|s b s1 bss s2 Hd Hb Hr IH]; simpl; [done|].
  rewrite length_app. destruct b; [done|simpl; lia].
Qed.

Lemma ploop_runs {S} (step : S -> parser S) s bss s' :
  runs step s bss s' ->
  forall fuel, (length bss <= fuel)%nat ->
  decodes (ploop fuel step (Z.of_nat (length bss)) s) (concat bss) s'.
Proof.
  induction 1 as [s|s b s1 bss s2 Hb Hne Hr IH]; intros fuel Hf rest.
  - by destruct fuel.
  - destruct fuel as [|fuel]; [simpl in Hf; lia|].
    cbn [ploop]. destruct (Z.leb_spec (Z.of_nat (length (b :: bss))) 0); [simpl in *; lia|].
    simpl concat. rewrite <- app_assoc. unfold pbind. rewrite Hb.
    replace (Z.of_nat (length (b :: bss)) - 1) with (Z.of_nat (length bss)) by (simpl; lia).
    apply IH. simpl in Hf. lia.
Qed.

Lemma for_count_runs {S} (step : S -> parser S) s bss s' n :
  runs step s bss s' -> n = Z.of_nat (length bss) ->
  decodes (for_count n step s) (concat bss) s'.
Proof.
  intros H -> rest. unfold for_count. apply ploop_runs; [done|].
  rewrite length_app. pose proof (runs_length _ _ _ _ H). lia.
Qed.

Lemma while_remaining_runs {S} (step : S -> parser S) s bss s' :
  runs step s bss s' -> while_remaining step s (concat bss) = (Ok s', []).
Proof.
  intros H. unfold while_remaining.
  assert (forall fuel, (length (concat bss) <= fuel)%nat ->
    pwhile fuel step s (concat bss) = (Ok s', [])) as X; [|by apply X].
  induction H as [s|s b s1 bss s2 Hb Hne Hr IH]; intros fuel Hf; [by destruct fuel|].
  simpl concat in *. rewrite length_app in Hf.
  destruct b as [|b0 b']; [done|]. destruct fuel as [|fuel]; [simpl in Hf; lia|].
  simpl. unfold pbind. change (b0 :: b' ++ concat bss) with ((b0 :: b') ++ concat bss).
  rewrite Hb. apply IH. simpl in Hf. lia.
Qed.

(** * Parsers on arbitrary input *)

(** On any buffer [p] ends with a value or an error, never in a panic or
    without fuel; it only takes bytes off the front, at least [k] of them when
    it succeeds; and the values it gives satisfy [Q]. *)
Definition robust {A} (k : nat) (p : parser A) (Q : A -> Prop) : Prop :=
  forall bs, bytes_ok bs ->
  match p bs with
  | (Ok a, r) => r `suffix_of` bs /\ (length r + k <= length bs)%nat /\ Q a
  | (Err _, r) => r `suffix_of` bs
  | _ => False
  end.

Lemma robust_weaken {A} k k' (p : parser A) (Q Q' : A -> Prop) :
  robust k p Q -> (k' <= k)%nat -> (forall a, Q a -> Q' a) -> robust k' p Q'.
Proof.
  intros H Hk HQ bs Hbs. specialize (H bs Hbs).
  destruct (p bs) as [[a|e| |] r]; try done. destruct H as (?&?&?).
  repeat split; [done|lia|auto].
Qed.

Lemma robust_ret {A} (a : A) (Q : A -> Prop) : Q a -> robust 0 (pret a) Q.
Proof. intros HQ bs _. simpl. repeat split; [done|lia|done]. Qed.

Lemma robust_fail {A} e (Q : A -> Prop) : robust 0 (pfail e) Q.
Proof. intros bs _. simpl. reflexivity. Qed.

Lemma robust_lift {A} (r : result A) (Q : A -> Prop) :
  returns r -> (forall a, r = Ok a -> Q a) -> robust 0 (lift r) Q.
Proof.
  intros Hr HQ bs _. unfold lift. destruct r; simpl in Hr; try done.
  repeat split; [done|lia|auto].
Qed.

Lemma robust_bind {A B} k1 k2 (p : parser A) (f : A -> parser B) Q1 Q2 :
  robust k1 p Q1 -> (forall a, Q1 a -> robust k2 (f a) Q2) ->
  robust (k1 + k2) (pbind p f) Q2.
Proof.
  intros H1 H2 bs Hbs. specialize (H1 bs Hbs). unfold pbind.
  destruct (p bs) as [[a|e| |] r]; try done. destruct H1 as (Hs&Hl&Ha).
  specialize (H2 a Ha r (bytes_ok_suffix _ _ Hs Hbs)).
  destruct (f a r) as [[c|e| |] r']; try done.
  - destruct H2 as (?&?&?). repeat split; [by etrans|lia|done].
  - by etrans.
Qed.

(** The common use: the second part need not be counted. *)
Lemma robust_bind_l {A B} k (p : parser A) (f : A -> parser B) Q1 Q2 :
  robust k p Q1 -> (forall a, Q1 a -> robust 0 (f a) Q2) -> robust k (pbind p f) Q2.
Proof. intros H1 H2. rewrite <- (Nat.add_0_r k). by eapply robust_bind. Qed.

(** Any bound below what the first part consumes. *)
Lemma robust_bind_any {A B} k k1 (p : parser A) (f : A -> parser B) Q1 Q2 :
  robust k1 p Q1 -> (k <= k1)%nat -> (forall a, Q1 a -> robust 0 (f a) Q2) ->
  robust k (pbind p f) Q2.
Proof.
  intros H1 Hk H2. eapply robust_weaken; [by eapply robust_bind_l|done|auto].
Qed.

Lemma robust_any {A} k k1 (p : parser A) (Q1 Q : A -> Prop) :
  robust k1 p Q1 -> (k <= k1)%nat -> (forall a, Q1 a -> Q a) -> robust k p Q.
Proof. intros. by eapply robust_weaken. Qed.

Lemma robust_lift_Ok_bind {A B} k (a : A) (f : A -> parser B) Q :
  robust k (f a) Q -> robust k (pbind (lift (Ok a)) f) Q.
Proof. done. Qed.

Lemma robust_map_err {A} k f (p : parser A) Q : robust k p Q -> robust k (pmap_err f p) Q.
Proof.
  intros H bs Hbs. specialize (H bs Hbs). unfold pmap_err.
  by destruct (p bs) as [[a|e| |] r].
Qed.

Lemma robust_u8_checked ctx : robust 1 (get_u8_checked ctx) is_u8.
Proof.
  intros bs Hbs. unfold get_u8_checked. punfold.
  destruct (Z.ltb_spec (blen bs) 1); [done|].
  destruct bs as [|b r]; [unfold blen in *; simpl in *; lia|].
  inversion Hbs; subst. split; [by exists [b]|]. split; [simpl; lia|done].
Qed.

Lemma robust_get_bytes ctx n :
  robust (Z.to_nat n) (get_bytes ctx n) (fun b => bytes_ok b /\ blen b = Z.max n 0).
Proof.
  intros bs Hbs. unfold get_bytes, copy_to_bytes. punfold.
  destruct (Z.ltb_spec (blen bs) n); [done|].
  destruct (Z.ltb_spec (blen bs) n); [lia|].
  unfold blen in *. repeat split.
  - apply suffix_drop.
  - rewrite length_drop. lia.
  - by apply Forall_take.
  - rewrite length_take. lia.
Qed.

(** A test on the buffer that consumes nothing. *)
Lemma robust_remaining_bind {B} k (f : Z -> parser B) Q :
  (forall n, 0 <= n -> robust k (f n) Q) -> robust k (pbind remaining f) Q.
Proof. intros H bs Hbs. unfold pbind, remaining. apply H; [apply blen_nonneg|done]. Qed.

Lemma robust_has_remaining_bind {B} k (f : bool -> parser B) Q :
  (forall b, robust k (f b) Q) -> robust k (pbind has_remaining f) Q.
Proof. intros H bs Hbs. unfold pbind, has_remaining. by apply H. Qed.

(** [Q c] is what holds with [c] elements still to read.  There is always
    enough fuel: the loop over [count] elements ends. *)
Lemma for_count_robust_n {S} (step : S -> parser S) (Q : Z -> S -> Prop) count s :
  (forall c s, 0 < c -> Q c s -> robust 1 (step s) (Q (c - 1))) ->
  0 <= count -> Q count s -> robust 0 (for_count count step s) (Q 0).
Proof.
  intros Hstep Hc Hs bs Hbs. unfold for_count.
  assert (forall fuel count s bs, 0 <= count -> Q count s -> bytes_ok bs -> (length bs < fuel)%nat ->
    match ploop fuel step count s bs with
    | (Ok a, r) => r `suffix_of` bs /\ (length r + 0 <= length bs)%nat /\ Q 0 a
    | (Err _, r) => r `suffix_of` bs
    | _ => False
    end) as X; [|by apply X; auto].
  clear count s Hc Hs bs Hbs.
  induction fuel as [|fuel IH]; intros count s bs Hc Hs Hbs Hf; [lia|].
  cbn [ploop]. destruct (Z.leb_spec count 0).
  { replace count with 0 in Hs by lia. repeat split; [done|lia|done]. }
  unfold pbind. specialize (Hstep count s ltac:(lia) Hs bs Hbs).
  destruct (step s bs) as [[s1|e| |] r]; try done. destruct Hstep as (Hsuf&Hl&Hs1).
  specialize (IH (count - 1) s1 r ltac:(lia) Hs1 (bytes_ok_suffix _ _ Hsuf Hbs) ltac:(lia)).
  destruct (ploop fuel step (count - 1) s1 r) as [[s2|e| |] r2]; try done.
  - destruct IH as (?&?&?). repeat split; [by etrans|lia|done].
  - by etrans.
Qed.

Lemma for_count_robust {S} (step : S -> parser S) (Q : S -> Prop) count s :
  (forall s, Q s -> robust 1 (step s) Q) -> 0 <= count -> Q s ->
  robust 0 (for_count count step s) Q.
Proof. intros Hstep Hc Hs. apply (for_count_robust_n step (fun _ => Q)); auto. Qed.

Lemma while_remaining_robust {S} (step : S -> parser S) (Q : S -> Prop) s :
  (forall s, Q s -> robust 1 (step s) Q) -> Q s -> robust 0 (while_remaining step s) Q.
Proof.
  intros Hstep Hs bs Hbs. unfold while_remaining.
  assert (forall fuel s bs, Q s -> bytes_ok bs -> (length bs <= fuel)%nat ->
    match pwhile fuel step s bs with
    | (Ok a, r) => r `suffix_of` bs /\ (length r + 0 <= length bs)%nat /\ Q a
    | (Err _, r) => r `suffix_of` bs
    | _ => False
    end) as X; [|by apply X].
  clear s Hs bs Hbs. induction fuel as [|fuel IH]; intros s bs Hs Hbs Hf.
  - destruct bs; [|simpl in Hf; lia]. simpl. repeat split; [done|lia|done].
  - destruct bs as [|b bs]; [simpl; repeat split; [done|lia|done]|].
    cbn [pwhile]. unfold pbind. specialize (Hstep s Hs (b :: bs) Hbs).
    destruct (step s (b :: bs)) as [[s1|e| |] r]; try done.
    destruct Hstep as (Hsuf&Hl&Hs1). simpl length in *.
    specialize (IH s1 r Hs1 (bytes_ok_suffix _ _ Hsuf Hbs) ltac:(lia)).
    destruct (pwhile fuel step s1 r) as [[s2|e| |] r2]; try done.
    + destruct IH as (?&?&?). repeat split; [by etrans|lia|done].
    + by etrans.
Qed.

(** A parser run on a buffer of its own returns. *)
Lemma robust_run_on {A} k (p : parser A) Q bs :
  robust k p Q -> bytes_ok bs -> returns (run_on p bs) /\ forall a, run_on p bs = Ok a -> Q a.
Proof.
  intros H Hbs. specialize (H bs Hbs). unfold run_on.
  destruct (p bs) as [[a|e| |] r]; simpl in *; try done. split; [done|].
  intros ? [= ->]. tauto.
Qed.

#[export] Hint Resolve robust_fail robust_u8_checked robust_get_bytes : robust.

(** One step through a parser on arbitrary input: the reads are discharged by
    the database, the branches are split, and what is left are the facts about
    the values returned. *)
Ltac robust_step :=
  lazymatch goal with
  | |- robust _ (pret _) _ => apply robust_ret
  | |- robust _ (pfail _) _ => apply robust_fail
  | |- robust _ (pbind remaining _) _ => apply robust_remaining_bind; intros ? ?
  | |- robust _ (pbind has_remaining _) _ => apply robust_has_remaining_bind; intros ?
  | |- robust _ (pbind (if ?b then _ else _) _) _ => destruct b eqn:?; breflect
  | |- robust _ (pbind (pret _) _) _ => apply robust_lift_Ok_bind
  | |- robust _ (pbind (lift (Ok _)) _) _ => apply robust_lift_Ok_bind
  | |- robust _ (pbind _ _) _ =>
      eapply robust_bind_any; [solve [eauto 3 with robust]|lia|]; cbv beta; intros ? ?
  | |- robust _ (if ?b then _ else _) _ => destruct b eqn:?; breflect
  | |- robust _ (match ?x with _ => _ end) _ => destruct x eqn:?
  | |- robust _ _ _ => eapply robust_any; [solve [eauto 3 with robust]|lia|]; cbv beta; intros ? ?
  end.
Ltac robust_go := repeat robust_step.

(** ** Parsers that may panic

    As [robust], but the parser may panic on the buffers of [X], which has to
    hold of a buffer when it holds of what is left of it. *)
Definition guarded {A} (X : bytes -> Prop) (k : nat) (p : parser A) (Q : A -> Prop) : Prop :=
  forall bs, bytes_ok bs ->
  match p bs with
  | (Ok a, r) => r `suffix_of` bs /\ (length r + k <= length bs)%nat /\ Q a
  | (Err _, r) => r `suffix_of` bs
  | (Panic, _) => X bs
  | (Diverge, _) => False
  end.

Class SuffixClosed (X : bytes -> Prop) : Prop :=
  suffix_closed : forall r bs, r `suffix_of` bs -> X r -> X bs.

#[export] Instance SuffixClosed_const (P : Prop) : SuffixClosed (fun _ => P).
Proof. by intros ? ? ?. Qed.

Lemma robust_guarded {A} X k (p : parser A) Q : robust k p Q -> guarded X k p Q.
Proof. intros H bs Hbs. specialize (H bs Hbs). by destruct (p bs) as [[a|e| |] r]. Qed.

Lemma guarded_bind {A B} X `{!SuffixClosed X} k k1 k2 (p : parser A) (f : A -> parser B) Q1 Q2 :
  guarded X k1 p Q1 -> (forall a, Q1 a -> guarded X k2 (f a) Q2) -> (k <= k1 + k2)%nat ->
  guarded X k (pbind p f) Q2.
Proof.
  intros H1 H2 Hk bs Hbs. specialize (H1 bs Hbs). unfold pbind.
  destruct (p bs) as [[a|e| |] r]; try done. destruct H1 as (Hs&Hl&Ha).
  specialize (H2 a Ha r (bytes_ok_suffix _ _ Hs Hbs)).
  destruct (f a r) as [[c|e| |] r']; try done.
  - destruct H2 as (?&?&?). repeat split; [by etrans|lia|done].
  - by etrans.
  - by eapply suffix_closed.
Qed.

(** The common use: a first part that does not panic. *)
Lemma guarded_robust_bind {A B} X `{!SuffixClosed X} k k1 (p : parser A) (f : A -> parser B) Q1 Q2 :
  robust k1 p Q1 -> (k <= k1)%nat -> (forall a, Q1 a -> guarded X 0 (f a) Q2) ->
  guarded X k (pbind p f) Q2.
Proof.
  intros H1 Hk H2. eapply guarded_bind; [done|by apply robust_guarded|exact H2|lia].
Qed.

Lemma guarded_robust {A} k (p : parser A) Q : guarded (fun _ => False) k p Q -> robust k p Q.
Proof. intros H bs Hbs. specialize (H bs Hbs). by destruct (p bs) as [[a|e| |] r]. Qed.

(** * Reading a stream as it arrives

    [p] asks for more bytes with [NotEnoughBytes] and with nothing else: any
    other outcome on a buffer is the outcome on every longer one too.  This is
    what lets a stream be parsed again from the same point each time more of it
    has arrived. *)
Definition stable {A} (p : parser A) : Prop :=
  forall bs ext,
  match p bs with
  | (Err (NotEnoughBytes _ _ _), _) => True
  | (o, r) => p (bs ++ ext) = (o, r ++ ext)
  end.

Lemma stable_ret {A} (a : A) : stable (pret a).
Proof. done. Qed.
Lemma stable_fail {A} e : stable (pfail (A:=A) e).
Proof. intros bs ext. by destruct e. Qed.
Lemma stable_lift {A} (r : result A) : stable (lift r).
Proof. intros bs ext. by destruct r as [|[]| |]. Qed.

Lemma stable_bind {A B} (p : parser A) (k : A -> parser B) :
  stable p -> (forall a, stable (k a)) -> stable (pbind p k).
Proof.
  intros Hp Hk bs ext. specialize (Hp bs ext). unfold pbind.
  destruct (p bs) as [[a|e| |] r].
  - rewrite Hp. apply Hk.
  - destruct e; simpl; [done|by rewrite Hp..].
  - by rewrite Hp.
  - by rewrite Hp.
Qed.

Lemma stable_need ctx n : stable (need ctx n).
Proof.
  intros bs ext. unfold need. destruct (Z.ltb_spec (blen bs) n); [done|].
  rewrite blen_app. pose proof (blen_nonneg ext).
  by destruct (Z.ltb_spec (blen bs + blen ext) n); [lia|].
Qed.

Lemma stable_get_bytes ctx n : stable (get_bytes ctx n).
Proof.
  intros bs ext. unfold get_bytes, copy_to_bytes. punfold.
  destruct (Z.ltb_spec (blen bs) n); [done|].
  destruct (Z.ltb_spec (blen bs) n); [lia|]. rewrite blen_app. pose proof (blen_nonneg ext).
  destruct (Z.ltb_spec (blen bs + blen ext) n); [lia|].
  rewrite blen_app. destruct (Z.ltb_spec (blen bs + blen ext) n); [lia|].
  rewrite take_app_le, drop_app_le by (unfold blen in *; lia). done.
Qed.

Lemma stable_u8_checked ctx : stable (get_u8_checked ctx).
Proof.
  intros bs ext. unfold get_u8_checked, need. punfold.
  destruct bs as [|b r]; [done|]. simpl app.
  assert (forall l, (blen (b :: l) <? 1) = false) as H by (intros; apply Z.ltb_ge; ulia).
  by rewrite !H.
Qed.

(** A strict prefix of an encoding asks for more. *)
Lemma stable_prefix {A} (p : parser A) pre ext a :
  stable p -> decodes p (pre ++ ext) a -> ext <> [] ->
  exists ctx n m r, p pre = (Err (NotEnoughBytes ctx n m), r).
Proof.
  intros Hs Hd Hne. specialize (Hs pre ext). apply decodes_exact in Hd.
  destruct (p pre) as [[a'|e| |] r].
  - rewrite Hs in Hd. injection Hd as _ Hr. by apply app_eq_nil in Hr as [_ ?].
  - destruct e; [eauto|congruence..].
  - congruence.
  - congruence.
Qed.

Create HintDb stable discriminated.
#[export] Hint Resolve stable_ret stable_fail stable_lift stable_need stable_get_bytes
  stable_u8_checked : stable.

Ltac stable_go :=
  repeat lazymatch goal with
  | |- stable (pbind _ _) => apply stable_bind; [|intros ?]
  | |- stable (if ?b then _ else _) => destruct b
  | |- stable (match ?x with _ => _ end) => destruct x
  | |- stable _ => solve [eauto 2 with stable]
  end.

Lemma lift_panics_Ok {E A} (r : panics A) (a : A) : lift_panics (E := E) r = Ok a -> r = Ok a.
Proof. by destruct r as [?|[]| |]; simpl; intros [=]; subst. Qed.
Lemma for_each_app {A S} (l l' : list A) (body : S -> A -> panics S) s :
  for_each (l ++ l') body s = let? s' := for_each l body s in for_each l' body s'.
Proof. revert s. induction l as [|x l IH]; intros s; simpl; [done|]. destruct (body s x); simpl; auto. Qed.

Lemma for_each_inv {A S} (P : list A -> S -> Prop) (l : list A) (body : S -> A -> panics S) :
  (forall d x r s, l = d ++ x :: r -> P d s -> exists s', body s x = Ok s' /\ P (d ++ [x]) s') ->
  forall s, P [] s -> exists s', for_each l body s = Ok s' /\ P l s'.
Proof.
  intros Hstep. assert (forall r d s, l = d ++ r -> P d s ->
    exists s', for_each r body s = Ok s' /\ P (d ++ r) s') as Hgen.
  { induction r as [|x r IH]; intros d s El Hs; simpl.
    - exists s. by rewrite app_nil_r.
    - destruct (Hstep d x r s El Hs) as (s1&->&H1). simpl.
      destruct (IH (d ++ [x]) s1) as (s'&E&H'); [by rewrite <- app_assoc|done|].
      exists s'. split; [done|]. by rewrite <- app_assoc in H'. }
  intros s Hs. by apply (Hgen l [] s).
Qed.

(** * Filtering and sorting *)

Lemma filter_all_true {A} (p : A -> bool) l : (forall x, x ∈ l -> p x = true) -> List.filter p l = l.
Proof.
  induction l as [|x l IH]; intros H; simpl; [done|]. rewrite H by (by left). f_equal. apply IH.
  intros y Hy. apply H. by right.
Qed.
Lemma filter_all_false {A} (p : A -> bool) l : (forall x, x ∈ l -> p x = false) -> List.filter p l = [].
Proof.
  induction l as [|x l IH]; intros H; simpl; [done|]. rewrite H by (by left). apply IH.
  intros y Hy. apply H. by right.
Qed.

Lemma filter_sorted {A} (R : relation A) (p : A -> bool) l :
  StronglySorted R l -> StronglySorted R (List.filter p l).
Proof.
  induction 1 as [|x l Hl IH Hx]; simpl; [constructor|]. destruct (p x); [|done]. constructor; [done|].
  rewrite Forall_forall in Hx |- *. intros y [Hy _]%list_elem_of_In%filter_In. by apply Hx, list_elem_of_In.
Qed.

Section Sort.
Context {A : Type} (key : A -> Z).

Lemma insert_by_Permutation x l : insert_by key x l ≡ₚ x :: l.
Proof.
  induction l as [|y l IH]; simpl; [done|]. case_if; [done|].
  rewrite IH. apply Permutation_swap.
Qed.

Lemma sort_by_key_Permutation l : sort_by_key key l ≡ₚ l.
Proof. induction l as [|x l IH]; simpl; [done|]. by rewrite insert_by_Permutation, IH. Qed.

Definition key_le (x y : A) : Prop := key x <= key y.

Lemma insert_by_sorted x l :
  StronglySorted key_le l -> StronglySorted key_le (insert_by key x l).
Proof.
  induction 1 as [|y l Hs IH Hy]; simpl; [by repeat constructor|].
  case_if; breflect.
  - constructor; [by constructor|]. constructor; [done|].
    eapply Forall_impl; [done|]. unfold key_le. intros; lia.
  - constructor; [done|]. rewrite insert_by_Permutation. constructor; [unfold key_le; lia|done].
Qed.

Lemma sort_by_key_sorted l : StronglySorted key_le (sort_by_key key l).
Proof. induction l; simpl; [constructor|by apply insert_by_sorted]. Qed.

Lemma insert_by_min x l : Forall (key_le x) l -> insert_by key x l = x :: l.
Proof.
  destruct l as [|y l]; [done|]. inversion 1; subst. simpl.
  by rewrite (proj2 (Z.leb_le _ _)).
Qed.

Lemma sort_by_key_id l : StronglySorted key_le l -> sort_by_key key l = l.
Proof.
  induction 1 as [|x l Hs IH Hx]; [done|]. simpl. fold (sort_by_key key l).
  rewrite IH. by apply insert_by_min.
Qed.

Lemma insert_by_filter x l k :
  StronglySorted key_le l ->
  filter (fun y => key y = k) (insert_by key x l) =
  filter (fun y => key y = k) (x :: l).
Proof.
  induction 1 as [|y l Hs IH Hy]; [done|]. simpl insert_by.
  case_if; [done|]. breflect.
  rewrite (filter_cons _ y (insert_by key x l)), IH, !filter_cons.
  repeat case_decide; (done || lia).
Qed.

(** The sort is stable: elements of one key keep their order. *)
Lemma sort_by_key_stable l k :
  filter (fun y => key y = k) (sort_by_key key l) = filter (fun y => key y = k) l.
Proof.
  induction l as [|x l IH]; [done|]. simpl.
  rewrite insert_by_filter by apply sort_by_key_sorted.
  rewrite !filter_cons. fold (sort_by_key key l). by rewrite IH.
Qed.

Lemma sort_by_key_length l : length (sort_by_key key l) = length l.
Proof. by rewrite sort_by_key_Permutation. Qed.

Lemma sort_by_key_Forall (P : A -> Prop) l : Forall P (sort_by_key key l) <-> Forall P l.
Proof. by rewrite sort_by_key_Permutation. Qed.
End Sort.

(** Sorting related lists by related keys gives related lists. *)
Lemma sort_by_key_Forall2 {A B} (R : A -> B -> Prop) (ka : A -> Z) (kb : B -> Z) l l' :
  (forall a b, R a b -> ka a = kb b) -> Forall2 R l l' ->
  Forall2 R (sort_by_key ka l) (sort_by_key kb l').
Proof.
  intros HR H. assert (forall a b l l', R a b -> Forall2 R l l' ->
    Forall2 R (insert_by ka a l) (insert_by kb b l')) as Hi.
  { clear H l l'. intros a b l l' Hab H. induction H as [|a' b' l l' Hab' H IH]; simpl.
    - constructor; [done|constructor].
    - rewrite (HR _ _ Hab), (HR _ _ Hab'). case_if; auto using Forall2_cons_2. }
  induction H; simpl; [constructor|by apply Hi].
Qed.

(** * Collecting results *)

Lemma collect_Ok {E A} (l : list A) : collect (E:=E) (map Ok l) = Ok l.
Proof. induction l as [|a l IH]; [done|]. simpl. by rewrite IH. Qed.

Lemma collect_map_Ok {E A B} (f : A -> outcome E B) l l' :
  Forall2 (fun a b => f a = Ok b) l l' -> collect (map f l) = Ok l'.
Proof. induction 1 as [|a b l l' H _ IH]; [done|]. simpl. by rewrite H, IH. Qed.

Lemma collect_Ok_inv {E A B} (f : A -> outcome E B) l l' :
  collect (map f l) = Ok l' -> Forall2 (fun a b => f a = Ok b) l l'.
Proof.
  revert l'. induction l as [|a l IH]; simpl; intros l' H; [by inversion H|].
  apply obind_Ok_inv in H as (b&Hb&H). apply obind_Ok_inv in H as (bs&Hbs&H).
  inversion H; subst. constructor; auto.
Qed.

(** * The interface of a codec

    What one codec promises to those built on it: a well-formed value is
    always serialized, to proper bytes; those bytes are read back as the value,
    whatever follows; and on any buffer at all the parser returns, consumes at
    least a byte when it succeeds, and gives a well-formed value. *)
Class Wire {A} (wf : A -> Prop) (ser : A -> result bytes) (de : parser A) : Prop := {
  wire_ser a : wf a -> exists bs, ser a = Ok bs /\ bytes_ok bs /\ bs <> [];
  wire_decodes a bs : wf a -> ser a = Ok bs -> decodes de bs a;
  wire_robust : robust 1 de wf
}.

(** Serialization and reading back, in one statement. *)
Definition transmits {A} (ser : A -> result bytes) (de : parser A) (a : A) : Prop :=
  exists bs, ser a = Ok bs /\ bytes_ok bs /\ bs <> [] /\ decodes de bs a.

Lemma wire_transmits {A} (wf : A -> Prop) ser de `{!Wire wf ser de} a :
  wf a -> transmits ser de a.
Proof.
  intros H. destruct (wire_ser a H) as (bs&E&?&?). exists bs.
  repeat split; [done..|by apply wire_decodes].
Qed.

Lemma Wire_intro {A} (wf : A -> Prop) ser de :
  (forall a, wf a -> transmits ser de a) -> robust 1 de wf -> Wire wf ser de.
Proof.
  intros H1 H2. split; [| |done].
  - intros a Ha. destruct (H1 a Ha) as (bs&?&?&?&_). eauto.
  - intros a bs Ha E. destruct (H1 a Ha) as (bs'&E'&_&_&Hd). congruence.
Qed.

(** Two values with the same bytes are the same. *)
Lemma wire_injective {A} (wf : A -> Prop) ser de `{!Wire wf ser de} a b bs :
  wf a -> wf b -> ser a = Ok bs -> ser b = Ok bs -> a = b.
Proof.
  intros Ha Hb Ea Eb.
  pose proof (wire_decodes a bs Ha Ea []) as X. pose proof (wire_decodes b bs Hb Eb []) as Y.
  rewrite X in Y. by simplify_eq.
Qed.

#[export] Hint Extern 2 (decodes _ _ _) =>
  (eapply wire_decodes; [|eassumption]; [assumption]) : wire.
#[export] Hint Extern 2 (robust _ _ _) => (exact wire_robust) : robust.

(** Takes the serialization of a part apart: [ser a] becomes its bytes. *)
Ltac ser_step H :=
  let bs := fresh "bs" in let E := fresh "Es" in let Hok := fresh "Hok" in
  let Hne := fresh "Hne" in
  destruct (wire_ser _ H) as (bs & E & Hok & Hne); rewrite ?E; cbn [obind].

(** Takes the next part of a serializer apart, with its bytes and how they are
    read back. *)
Ltac ser_part :=
  match goal with
  | |- context [obind (?s ?a) _] =>
      let bs := fresh "bs" in let E := fresh "Es" in let Hok := fresh "Hok" in
      let Hne := fresh "Hne" in let Hd := fresh "Hd" in
      destruct (wire_transmits _ s _ a) as (bs & E & Hok & Hne & Hd);
        [solve [auto with wire]|rewrite E; cbn [obind]]
  end.
(** The bytes of a message made of known parts. *)
Ltac bytes_parts :=
  rewrite ?bytes_ok_app; repeat split; auto with wire.
