(* ===== verification/BTree.v ===== *)
(** [BTreeMap] with integer keys, as the list of its entries in ascending order
    of the keys.  The program iterates over these maps in that order; lookups,
    insertions and removals are by key. *)
From S2P Require Import Prelude.

Abbreviation btree A := (list (Z * A)).

Fixpoint bt_get {A} (k : Z) (m : btree A) : option A :=
  match m with
  | [] => None
  | (k', v) :: m => if k =? k' then Some v else bt_get k m
  end.

Fixpoint bt_insert {A} (k : Z) (v : A) (m : btree A) : btree A :=
  match m with
  | [] => [(k, v)]
  | (k', v') :: m' =>
      if k <? k' then (k, v) :: m
      else if k =? k' then (k, v) :: m'
      else (k', v') :: bt_insert k v m'
  end.

Definition bt_remove {A} (k : Z) (m : btree A) : btree A :=
  List.filter (fun e => negb (fst e =? k)) m.

Definition bt_values {A} (m : btree A) : list A := map snd m.
Definition bt_keys {A} (m : btree A) : list Z := map fst m.

(** [*map.entry(k).or_insert(d)], then the entry changed by [f]. *)
Definition bt_entry {A} (k : Z) (d : A) (f : A -> A) (m : btree A) : btree A :=
  bt_insert k (f match bt_get k m with Some v => v | None => d end) m.

Definition bt_ok {A} (m : btree A) : Prop := StronglySorted (fun a b => fst a < fst b) m.

Lemma bt_ok_nil {A} : bt_ok (@nil (Z * A)).
Proof. constructor. Qed.

Lemma bt_ok_cons {A} k (v : A) m : bt_ok ((k, v) :: m) <-> bt_ok m /\ Forall (fun e => k < fst e) m.
Proof. split; [by inversion 1|]. intros []. by constructor. Qed.

Lemma bt_get_lt {A} k (m : btree A) : Forall (fun e => k < fst e) m -> bt_get k m = None.
Proof.
  induction 1 as [|[k' v] m Hk _ IH]; simpl in *; [done|].
  destruct (Z.eqb_spec k k'); [lia|done].
Qed.

Lemma bt_get_insert {A} k k' (v : A) m :
  bt_get k (bt_insert k' v m) = if k =? k' then Some v else bt_get k m.
Proof.
  induction m as [|[k2 v2] m IH]; simpl; [done|].
  destruct (Z.ltb_spec k' k2); [done|].
  destruct (Z.eqb_spec k' k2) as [->|]; simpl; [by destruct (k =? k2)|].
  rewrite IH. destruct (Z.eqb_spec k k2), (Z.eqb_spec k k'); (done || lia).
Qed.

Lemma bt_insert_Forall {A} (P : Z * A -> Prop) k v m :
  P (k, v) -> Forall P m -> Forall P (bt_insert k v m).
Proof.
  intros Hk. induction 1 as [|[k' v'] m Hp Hm IH]; simpl; [by repeat constructor|].
  repeat case_if; auto.
Qed.

Lemma bt_insert_ok {A} k (v : A) m : bt_ok m -> bt_ok (bt_insert k v m).
Proof.
  induction m as [|[k' v'] m IH]; intros H; simpl; [by repeat constructor|].
  apply bt_ok_cons in H as [H Hf]. destruct (Z.ltb_spec k k').
  - apply bt_ok_cons. split; [by apply bt_ok_cons|]. constructor; [done|].
    eapply Forall_impl; [exact Hf|]. simpl. lia.
  - destruct (Z.eqb_spec k k') as [->|]; [by apply bt_ok_cons|].
    apply bt_ok_cons. split; [by apply IH|]. apply bt_insert_Forall; [simpl; lia|done].
Qed.

Lemma bt_remove_Forall {A} (P : Z * A -> Prop) k m : Forall P m -> Forall P (bt_remove k m).
Proof.
  unfold bt_remove. induction 1 as [|e m Hp Hm IH]; simpl; [constructor|]. case_if; auto.
Qed.

Lemma bt_remove_ok {A} k (m : btree A) : bt_ok m -> bt_ok (bt_remove k m).
Proof.
  unfold bt_remove. induction m as [|[k' v'] m IH]; intros H; simpl; [done|].
  apply bt_ok_cons in H as [H Hf]. case_if; [|by apply IH]. apply bt_ok_cons.
  split; [by apply IH|]. by apply bt_remove_Forall.
Qed.

Lemma bt_get_remove {A} k k' (m : btree A) :
  bt_get k (bt_remove k' m) = if k =? k' then None else bt_get k m.
Proof.
  unfold bt_remove. induction m as [|[k2 v2] m IH]; simpl; [by case_if|].
  destruct (Z.eqb_spec k2 k') as [->|]; simpl.
  - rewrite IH. by destruct (Z.eqb_spec k k').
  - rewrite IH. destruct (Z.eqb_spec k k2), (Z.eqb_spec k k'); (done || lia).
Qed.

Lemma bt_get_elem {A} k (v : A) m : bt_ok m -> bt_get k m = Some v <-> (k, v) ∈ m.
Proof.
  induction m as [|[k' v'] m IH]; intros H; simpl; [split; [done|by intros ?%elem_of_nil]|].
  apply bt_ok_cons in H as [H Hf]. rewrite elem_of_cons. destruct (Z.eqb_spec k k') as [->|Hne].
  - split; [by intros [= ->]; left|]. intros [[= ->]|Hin]; [done|].
    rewrite Forall_forall in Hf. specialize (Hf _ Hin). simpl in Hf. lia.
  - rewrite (IH H). split; [auto|]. intros [[= -> ->]|]; done.
Qed.

Lemma bt_get_nil {A} (m : btree A) : (forall k, bt_get k m = None) -> m = [].
Proof.
  destruct m as [|[k v] m]; [done|]. intros H. specialize (H k). simpl in H.
  by rewrite Z.eqb_refl in H.
Qed.

Lemma bt_get_entry {A} k k' (d : A) f m :
  bt_get k (bt_entry k' d f m) =
  if k =? k' then Some (f match bt_get k' m with Some v => v | None => d end) else bt_get k m.
Proof. apply bt_get_insert. Qed.
Lemma bt_entry_ok {A} k (d : A) f m : bt_ok m -> bt_ok (bt_entry k d f m).
Proof. apply bt_insert_ok. Qed.

Lemma bt_insert_nonempty {A} k (v : A) m : bt_insert k v m <> [].
Proof. destruct m as [|[]]; simpl; [done|]. by repeat case_if. Qed.

#[export] Hint Resolve bt_ok_nil bt_insert_ok bt_remove_ok bt_entry_ok : wire.
