(* ===== verification/Varint.v ===== *)
(** The variable-length integers of the wire format
    ([libs/moqtail-rs/src/model/common/varint.rs]).

    The number of leading one bits of the first byte is the number of bytes
    that follow it; the remaining bits of the first byte and the following
    bytes are the value, most significant first.  [get_vi] reads one off a
    buffer, [put_vi] writes the shortest encoding.  Every other codec of the
    library is built on these two. *)
From S2P Require Import Prelude.

(** [u8::leading_ones]. *)
Fixpoint leading_ones_from (k : nat) (b : Z) : nat :=
  match k with
  | O => O
  | S k => if Z.testbit b (Z.of_nat k) then S (leading_ones_from k b) else O
  end.
Definition leading_ones (b : Z) : nat := leading_ones_from 8 b.

(** The loop [for _ in 0..extra_bytes { val = (val << 8) | byte }]. *)
Fixpoint get_vi_bytes (extra_bytes : nat) (val : Z) : parser Z :=
  match extra_bytes with
  | O => pret val
  | S n => let! b := get_u8 in get_vi_bytes n (Z.lor (wrap64 (Z.shiftl val 8)) b)
  end.

Definition get_vi : parser Z :=
  let! rem := remaining in
  if rem =? 0 then pfail (NotEnoughBytes "varint first byte" 1 0)
  else
    let! first := get_u8 in
    let length := (leading_ones first + 1)%nat in
    let extra_bytes := (length - 1)%nat in
    let! rem := remaining in
    if rem <? Z.of_nat extra_bytes then
      pfail (NotEnoughBytes "varint continuation" (Z.of_nat length) (rem + 1))
    else
      let val :=
        if (length <=? 8)%nat
        then Z.land first (Z.shiftl 1 (8 - Z.of_nat length) - 1)
        else 0 in
      get_vi_bytes extra_bytes val.

Definition minimal_vi_length (v : Z) : nat :=
  if v <? 2 ^ 7 then 1
  else if v <? 2 ^ 14 then 2
  else if v <? 2 ^ 21 then 3
  else if v <? 2 ^ 28 then 4
  else if v <? 2 ^ 35 then 5
  else if v <? 2 ^ 42 then 6
  else if v <? 2 ^ 49 then 7
  else if v <? 2 ^ 56 then 8
  else 9.

(** The loop [for i in 0..length { out[length - 1 - i] = (v >> (8 * i)) as u8 }],
    which fills [out] from its end, and [u64::to_be_bytes] for [length = 8]. *)
Definition be_bytes (length : nat) (v : Z) : bytes :=
  rev (map (fun i => Z.land (Z.shiftr v (8 * Z.of_nat i)) 255) (seq 0 length)).

(** [(((1u16 << ones) - 1) << (8 - ones)) as u8]. *)
Definition vi_prefix (ones : nat) : Z :=
  Z.land (Z.shiftl (Z.shiftl 1 (Z.of_nat ones) - 1) (8 - Z.of_nat ones)) 255.

(** The bytes [put_vi] appends to the buffer for a [u64]. *)
Definition encode_vi (v : Z) : bytes :=
  let length := minimal_vi_length v in
  if (length =? 9)%nat then 255 :: be_bytes 8 v
  else
    let out := be_bytes length v in
    let ones := (length - 1)%nat in
    if (0 <? ones)%nat then
      match out with
      | out0 :: rest => Z.lor out0 (vi_prefix ones) :: rest
      | [] => []
      end
    else out.

(** [put_vi] first converts its argument, of any integer type, to a [u64]. *)
Definition put_vi (value : Z) : result bytes :=
  if bool_decide (is_u64 value) then Ok (encode_vi value)
  else Err (CastingError "varint put_vi" "T" "u64").

(** ** Big-endian values *)

Definition be_fold (acc : Z) (bs : bytes) : Z := fold_left (fun a b => a * 256 + b) bs acc.

Lemma be_fold_app acc b1 b2 : be_fold acc (b1 ++ b2) = be_fold (be_fold acc b1) b2.
Proof. apply fold_left_app. Qed.

Lemma be_fold_acc acc bs : be_fold acc bs = acc * 256 ^ Z.of_nat (length bs) + be_fold 0 bs.
Proof.
  revert acc. induction bs as [|b bs IH]; intros acc; [simpl; lia|].
  change (be_fold (acc * 256 + b) bs = acc * 256 ^ Z.of_nat (length (b :: bs)) + be_fold (0 * 256 + b) bs).
  rewrite IH, (IH (0 * 256 + b)). simpl length.
  rewrite Nat2Z.inj_succ, Z.pow_succ_r by lia. ring.
Qed.

Lemma be_fold_bound bs : bytes_ok bs -> 0 <= be_fold 0 bs < 256 ^ Z.of_nat (length bs).
Proof.
  induction 1 as [|b bs Hb Hbs IH]; [simpl; lia|].
  change (be_fold 0 (b :: bs)) with (be_fold (0 * 256 + b) bs). rewrite be_fold_acc.
  simpl length. rewrite Nat2Z.inj_succ, Z.pow_succ_r by lia. unfold is_u8 in *. nia.
Qed.

Lemma lor_byte a b : 0 <= b < 256 -> Z.lor (a * 256) b = a * 256 + b.
Proof.
  intros Hb. symmetry. rewrite Z.add_nocarry_lxor.
  - rewrite Z.lxor_lor; [done|]. apply Z.bits_inj'. intros n Hn.
    rewrite Z.land_spec, Z.bits_0. destruct (Z.lt_ge_cases n 8).
    + change 256 with (2 ^ 8). by rewrite Z.mul_pow2_bits_low.
    + replace b with (b mod 2 ^ 8) by (apply Z.mod_small; lia).
      rewrite Z.mod_pow2_bits_high by lia. apply andb_false_r.
  - apply Z.bits_inj'. intros n Hn.
    rewrite Z.land_spec, Z.bits_0. destruct (Z.lt_ge_cases n 8).
    + change 256 with (2 ^ 8). by rewrite Z.mul_pow2_bits_low.
    + replace b with (b mod 2 ^ 8) by (apply Z.mod_small; lia).
      rewrite Z.mod_pow2_bits_high by lia. apply andb_false_r.
Qed.

Lemma get_vi_bytes_spec bs : forall val,
  bytes_ok bs -> 0 <= val -> be_fold val bs < U64 ->
  decodes (get_vi_bytes (length bs) val) bs (be_fold val bs).
Proof.
  induction bs as [|b bs IH]; intros val Hbs Hval Hlt rest; [done|].
  inversion Hbs as [|? ? Hb Hbs']; subst. simpl. unfold pbind, get_u8. simpl.
  change (be_fold val (b :: bs)) with (be_fold (val * 256 + b) bs) in *.
  pose proof (be_fold_bound bs Hbs'). pose proof (be_fold_acc (val * 256 + b) bs).
  assert (0 < 256 ^ Z.of_nat (length bs)) by (apply Z.pow_pos_nonneg; lia).
  assert (wrap64 (Z.shiftl val 8) = val * 256) as ->.
  { unfold wrap64. rewrite Z.shiftl_mul_pow2 by lia. apply Z.mod_small.
    unfold is_u8 in *. nia. }
  rewrite lor_byte by (unfold is_u8 in *; lia).
  apply IH; [done| |done]. unfold is_u8 in *. lia.
Qed.

Lemma be_bytes_S n v : be_bytes (S n) v = be_bytes n (Z.shiftr v 8) ++ [Z.land v 255].
Proof.
  unfold be_bytes. cbn [seq map rev]. rewrite Z.shiftr_0_r. f_equal. f_equal.
  rewrite <- seq_shift, map_map. apply map_ext. intros i. f_equal.
  rewrite Z.shiftr_shiftr by lia. f_equal. lia.
Qed.

Lemma be_bytes_length n v : length (be_bytes n v) = n.
Proof. unfold be_bytes. by rewrite length_rev, length_map, length_seq. Qed.

Lemma land_255 v : Z.land v 255 = v mod 256.
Proof. change 255 with (Z.ones 8). by rewrite Z.land_ones. Qed.

Lemma be_bytes_ok n v : bytes_ok (be_bytes n v).
Proof.
  unfold be_bytes, bytes_ok. apply Forall_rev, Forall_map, Forall_true. intros i.
  simpl. rewrite land_255. unfold is_u8. apply Z.mod_pos_bound. lia.
Qed.

Lemma be_fold_be_bytes n : forall v, 0 <= v -> be_fold 0 (be_bytes n v) = v mod 256 ^ Z.of_nat n.
Proof.
  induction n as [|n IH]; intros v Hv; [simpl; by rewrite Z.mod_1_r|].
  rewrite be_bytes_S, be_fold_app, IH by (apply Z.shiftr_nonneg; lia).
  change (be_fold ?a [?b]) with (a * 256 + b).
  rewrite land_255, Z.shiftr_div_pow2 by lia. change (2 ^ 8) with 256.
  rewrite Nat2Z.inj_succ, Z.pow_succ_r by lia.
  assert (0 < 256 ^ Z.of_nat n) by (apply Z.pow_pos_nonneg; lia).
  rewrite Z.rem_mul_r by lia. lia.
Qed.

(** ** The first byte *)

(** What the first byte contributes to the value. *)
Definition vi_head (first : Z) : Z :=
  if (leading_ones first + 1 <=? 8)%nat
  then Z.land first (Z.shiftl 1 (8 - Z.of_nat (leading_ones first + 1)) - 1)
  else 0.

Lemma vi_head_bound first :
  is_u8 first ->
  (leading_ones first <= 8)%nat /\
  0 <= vi_head first /\
  vi_head first * 256 ^ Z.of_nat (leading_ones first) + 256 ^ Z.of_nat (leading_ones first)
    <= Z.max (2 ^ (7 * (Z.of_nat (leading_ones first) + 1))) (256 ^ 8 * Z.of_nat (leading_ones first / 8)).
Proof.
  intros H.
  pose proof (small_forall 256 (fun b =>
    (leading_ones b <=? 8)%nat && (0 <=? vi_head b) &&
    (vi_head b * 256 ^ Z.of_nat (leading_ones b) + 256 ^ Z.of_nat (leading_ones b) <=?
     Z.max (2 ^ (7 * (Z.of_nat (leading_ones b) + 1))) (256 ^ 8 * Z.of_nat (leading_ones b / 8))))
    first ltac:(vm_compute; reflexivity) H) as X.
  apply andb_true_iff in X as [X X3]. apply andb_true_iff in X as [X1 X2].
  apply Nat.leb_le in X1. breflect. auto.
Qed.

(** A prefix of [n - 1] ones over a head that leaves room for them. *)
Definition vi_first_ok (n : nat) (h : Z) : bool :=
  let f := Z.lor h (vi_prefix (n - 1)) in
  (leading_ones f =? n - 1)%nat && (vi_head f =? h) && (0 <=? f) && (f <? 256).

Lemma vi_first_spec n h :
  (1 <= n <= 8)%nat -> 0 <= h < 2 ^ (8 - Z.of_nat n) -> vi_first_ok n h = true.
Proof.
  intros Hn Hh.
  assert (forallb (fun n => forallb (vi_first_ok n) (map Z.of_nat (seq 0 (2 ^ (8 - n))))) (seq 1 8)
    = true) as X by (vm_compute; reflexivity).
  rewrite forallb_forall in X. specialize (X n ltac:(apply in_seq; lia)).
  eapply small_forall; [exact X|].
  replace (Z.of_nat (2 ^ (8 - n))) with (2 ^ (8 - Z.of_nat n)); [done|].
  rewrite Nat2Z.inj_pow. f_equal. lia.
Qed.

(** ** What [get_vi] does on any buffer *)

Lemma get_vi_value_bound first tail :
  is_u8 first -> bytes_ok tail -> length tail = leading_ones first ->
  0 <= be_fold (vi_head first) tail < U64.
Proof.
  intros Hf Ht Hl. destruct (vi_head_bound first Hf) as (H1&H2&H3).
  rewrite be_fold_acc, Hl. pose proof (be_fold_bound tail Ht) as Hb. rewrite Hl in Hb.
  assert (0 < 256 ^ Z.of_nat (leading_ones first)) by (apply Z.pow_pos_nonneg; lia).
  split; [nia|]. eapply Z.lt_le_trans; [apply Z.add_lt_mono_l, Hb|]. etrans; [exact H3|].
  clear H3 Hb Hl. revert H1. generalize (leading_ones first). intros n Hn.
  assert (X : forallb (fun n => Z.max (2 ^ (7 * (Z.of_nat n + 1))) (256 ^ 8 * Z.of_nat (n / 8)) <=? U64)
    (seq 0 9) = true) by (vm_compute; reflexivity).
  rewrite forallb_forall in X. apply Z.leb_le, X, in_seq. lia.
Qed.

Lemma get_vi_cons first r :
  get_vi (first :: r) =
  if blen r <? Z.of_nat (leading_ones first) then
    (Err (NotEnoughBytes "varint continuation" (Z.of_nat (leading_ones first + 1)) (blen r + 1)), r)
  else get_vi_bytes (leading_ones first) (vi_head first) r.
Proof.
  unfold get_vi, pbind, remaining, get_u8, pfail.
  assert ((blen (first :: r) =? 0) = false) as -> by (apply Z.eqb_neq; unfold blen; simpl; lia).
  cbv beta iota. rewrite Nat.add_sub. by destruct (blen r <? _).
Qed.

Lemma get_vi_decodes first tail :
  is_u8 first -> bytes_ok tail -> length tail = leading_ones first ->
  decodes get_vi (first :: tail) (be_fold (vi_head first) tail).
Proof.
  intros Hf Ht Hl rest. simpl app. rewrite get_vi_cons, <- Hl.
  destruct (Z.ltb_spec (blen (tail ++ rest)) (Z.of_nat (length tail))).
  { rewrite blen_app in *. unfold blen in *. lia. }
  pose proof (get_vi_value_bound first tail Hf Ht Hl).
  destruct (vi_head_bound first Hf) as (_&Hpos&_).
  apply get_vi_bytes_spec; [done|exact Hpos|lia].
Qed.

(** The three ways [get_vi] can end. *)
Lemma get_vi_cases bs :
  bytes_ok bs ->
  bs = [] /\ get_vi bs = (Err (NotEnoughBytes "varint first byte" 1 0), []) \/
  (exists first tail, bs = first :: tail /\ (length tail < leading_ones first)%nat /\
     get_vi bs = (Err (NotEnoughBytes "varint continuation"
                    (Z.of_nat (leading_ones first + 1)) (blen tail + 1)), tail)) \/
  (exists first tail rest, bs = (first :: tail) ++ rest /\ is_u8 first /\ bytes_ok tail /\
     length tail = leading_ones first /\
     get_vi bs = (Ok (be_fold (vi_head first) tail), rest)).
Proof.
  intros Hbs. destruct bs as [|first r]; [by left|right].
  inversion Hbs as [|? ? Hf Hr]; subst.
  destruct (le_lt_dec (leading_ones first) (length r)) as [Hle|Hlt].
  - right. exists first, (take (leading_ones first) r), (drop (leading_ones first) r).
    assert (length (take (leading_ones first) r) = leading_ones first)
      by (rewrite length_take; lia).
    assert (bytes_ok (take (leading_ones first) r)) by by apply Forall_take.
    split; [simpl; by rewrite take_drop|]. split; [done|]. split; [done|]. split; [done|].
    rewrite <- (take_drop (leading_ones first) r) at 1.
    by apply (get_vi_decodes first (take (leading_ones first) r)).
  - left. exists first, r. split; [done|]. split; [done|].
    rewrite get_vi_cons. destruct (Z.ltb_spec (blen r) (Z.of_nat (leading_ones first))); [done|].
    unfold blen in *; lia.
Qed.

Lemma get_vi_robust : robust 1 get_vi is_u64.
Proof.
  intros bs Hbs.
  destruct (get_vi_cases bs Hbs) as [[-> ->]|[(f&t&->&_&->)|(f&t&r&->&Hf&Ht&Hl&->)]].
  - done.
  - by exists [f].
  - split; [by exists (f :: t)|]. split; [rewrite length_app; simpl; lia|].
    by apply get_vi_value_bound.
Qed.
#[export] Hint Resolve get_vi_robust : robust.

Lemma get_vi_bytes_stable n : forall val r ext, (n <= length r)%nat ->
  exists v, get_vi_bytes n val r = (Ok v, drop n r) /\
    get_vi_bytes n val (r ++ ext) = (Ok v, drop n r ++ ext).
Proof.
  induction n as [|n IH]; intros val r ext Hn.
  - exists val. by rewrite drop_0.
  - destruct r as [|b r]; [simpl in Hn; lia|]. simpl. unfold pbind. simpl.
    apply IH. simpl in Hn. lia.
Qed.

Lemma get_vi_stable : stable get_vi.
Proof.
  intros [|first r] ext; [done|]. simpl app. rewrite !get_vi_cons, blen_app.
  destruct (Z.ltb_spec (blen r) (Z.of_nat (leading_ones first))); [done|].
  pose proof (blen_nonneg ext).
  destruct (Z.ltb_spec (blen r + blen ext) (Z.of_nat (leading_ones first))); [lia|].
  destruct (get_vi_bytes_stable (leading_ones first) (vi_head first) r ext) as (v&->&->);
    [unfold blen in *; lia|done].
Qed.
#[export] Hint Resolve get_vi_stable : stable.

(** ** Encoding *)

Lemma minimal_vi_length_spec v :
  is_u64 v ->
  (1 <= minimal_vi_length v <= 8)%nat /\ v < 2 ^ (7 * Z.of_nat (minimal_vi_length v)) \/
  minimal_vi_length v = 9%nat.
Proof.
  unfold is_u64, minimal_vi_length. intros Hv.
  repeat (case_if; breflect; [left; split; [lia|done]|]). by right.
Qed.

Lemma be_bytes_cons n v :
  exists rest, be_bytes (S n) v = Z.land (Z.shiftr v (8 * Z.of_nat n)) 255 :: rest.
Proof.
  unfold be_bytes. rewrite seq_S, map_app, rev_app_distr. simpl. eauto.
Qed.

(** The bytes written have the shape [get_vi] reads, and the same value. *)
Lemma encode_vi_shape v :
  is_u64 v ->
  exists first tail, encode_vi v = first :: tail /\ is_u8 first /\ bytes_ok tail /\
    length tail = leading_ones first /\ be_fold (vi_head first) tail = v /\
    length (first :: tail) = minimal_vi_length v.
Proof.
  intros Hv. unfold encode_vi. destruct (minimal_vi_length_spec v Hv) as [[Hn Hlt]| ->].
  - set (n := minimal_vi_length v) in *. clearbody n.
    destruct (Nat.eqb_spec n 9); [lia|].
    destruct n as [|n]; [lia|]. destruct (be_bytes_cons n v) as [rest Hrest].
    set (h := Z.land (Z.shiftr v (8 * Z.of_nat n)) 255) in *.
    assert (Hh : h = v / 2 ^ (8 * Z.of_nat n) /\ 0 <= h < 2 ^ (8 - Z.of_nat (S n))).
    { assert (0 <= v / 2 ^ (8 * Z.of_nat n) < 2 ^ (8 - Z.of_nat (S n))) as B.
      { split; [apply Z.div_pos; [unfold is_u64 in *; lia|apply Z.pow_pos_nonneg; lia]|].
        apply Z.div_lt_upper_bound; [apply Z.pow_pos_nonneg; lia|].
        rewrite <- Z.pow_add_r by lia. eapply Z.lt_le_trans; [exact Hlt|].
        apply Z.pow_le_mono_r; lia. }
      assert (2 ^ (8 - Z.of_nat (S n)) <= 2 ^ 7) by (apply Z.pow_le_mono_r; lia).
      unfold h. rewrite land_255, Z.shiftr_div_pow2 by lia.
      rewrite Z.mod_small by lia. auto. }
    pose proof (be_bytes_ok (S n) v) as Hok. rewrite Hrest in Hok.
    inversion Hok as [|? ? Hh8 Hrok]; subst.
    pose proof (be_bytes_length (S n) v) as Hlen. rewrite Hrest in Hlen. simpl in Hlen.
    assert (Hval : be_fold h rest = v).
    { pose proof (be_fold_be_bytes (S n) v ltac:(unfold is_u64 in *; lia)) as X.
      rewrite Hrest in X. change (be_fold 0 (h :: rest)) with (be_fold (0 * 256 + h) rest) in X.
      rewrite Z.add_0_l in X. rewrite X. apply Z.mod_small. unfold is_u64 in *.
      split; [lia|]. eapply Z.lt_le_trans; [exact Hlt|].
      change 256 with (2 ^ 8). rewrite <- Z.pow_mul_r by lia. apply Z.pow_le_mono_r; lia. }
    pose proof (vi_first_spec (S n) h Hn (proj2 Hh)) as F. unfold vi_first_ok in F.
    apply andb_true_iff in F as [F F4]. apply andb_true_iff in F as [F F3].
    apply andb_true_iff in F as [F1 F2]. apply Nat.eqb_eq in F1. breflect.
    rewrite Hrest. destruct (Nat.ltb_spec 0 (S n - 1)) as [Hpos|Hz].
    + exists (Z.lor h (vi_prefix (S n - 1))), rest.
      split; [done|]. split; [unfold is_u8; lia|]. split; [done|]. split; [lia|].
      split; [by rewrite F2|simpl; lia].
    + assert (n = 0%nat) as -> by lia. destruct rest; [|simpl in Hlen; lia].
      change (Z.lor h (vi_prefix (1 - 1))) with (Z.lor h 0) in *. rewrite Z.lor_0_r in *.
      exists h, []. split; [done|]. split; [unfold is_u8; lia|]. split; [constructor|].
      split; [simpl in *; lia|]. split; [by rewrite F2|done].
  - exists 255, (be_bytes 8 v). split; [done|]. split; [unfold is_u8; lia|].
    split; [apply be_bytes_ok|]. split; [by rewrite be_bytes_length|]. split.
    + change (vi_head 255) with 0. rewrite (be_fold_be_bytes 8 v) by (unfold is_u64 in *; lia).
      apply Z.mod_small. unfold is_u64 in *. simpl. lia.
    + cbn [length]. by rewrite be_bytes_length.
Qed.

Lemma encode_vi_decodes v : is_u64 v -> decodes get_vi (encode_vi v) v.
Proof.
  intros Hv. destruct (encode_vi_shape v Hv) as (f&t&->&Hf&Ht&Hl&Hval&_).
  rewrite <- Hval. by apply get_vi_decodes.
Qed.

Lemma encode_vi_length v : is_u64 v -> length (encode_vi v) = minimal_vi_length v.
Proof. intros Hv. by destruct (encode_vi_shape v Hv) as (f&t&->&_&_&_&_&?). Qed.

Lemma encode_vi_ok v : is_u64 v -> bytes_ok (encode_vi v).
Proof. intros Hv. destruct (encode_vi_shape v Hv) as (f&t&->&?&?&_). by constructor. Qed.

Lemma encode_vi_nonempty v : is_u64 v -> encode_vi v <> [].
Proof. intros Hv. by destruct (encode_vi_shape v Hv) as (f&t&->&_). Qed.

Lemma put_vi_Ok v : is_u64 v -> put_vi v = Ok (encode_vi v).
Proof. intros Hv. unfold put_vi. by rewrite bool_decide_eq_true_2. Qed.

Lemma put_vi_inv v bs : put_vi v = Ok bs -> is_u64 v /\ bs = encode_vi v.
Proof. unfold put_vi. case_bool_decide; [|discriminate]. by intros [= <-]. Qed.

Lemma minimal_vi_length_range v : is_u64 v -> (1 <= minimal_vi_length v <= 9)%nat.
Proof. intros Hv. destruct (minimal_vi_length_spec v Hv) as [[]|]; lia. Qed.

Lemma minimal_vi_length_le v n :
  (1 <= n)%nat -> v < 2 ^ (7 * Z.of_nat n) -> (minimal_vi_length v <= n)%nat.
Proof.
  intros Hn Hv. destruct (le_lt_dec 9 n) as [|Hlt].
  { unfold minimal_vi_length. repeat case_if; lia. }
  destruct n as [|[|[|[|[|[|[|[|[|n]]]]]]]]]; try lia;
    match type of Hv with _ < 2 ^ ?e =>
      let e' := eval vm_compute in e in change (2 ^ e) with (2 ^ e') in Hv end;
    unfold minimal_vi_length; repeat (case_if; breflect; [lia|]); lia.
Qed.

#[export] Hint Resolve encode_vi_decodes encode_vi_ok : wire.
#[export] Hint Extern 1 (is_u64 _) => assumption : wire.
#[export] Hint Extern 2 (is_u64 Z0) => (unfold is_u64; lia) : wire.
#[export] Hint Extern 2 (is_u64 (Zpos _)) => (unfold is_u64; lia) : wire.

#[export] Instance Wire_u64 : Wire is_u64 put_vi get_vi.
Proof.
  split.
  - intros v Hv. exists (encode_vi v).
    auto using put_vi_Ok, encode_vi_ok, encode_vi_nonempty.
  - intros v bs Hv E. apply put_vi_inv in E as [_ ->]. by apply encode_vi_decodes.
  - apply get_vi_robust.
Qed.

(** A length-prefixed byte string: [let len = get_vi()?], the cast to [usize],
    the check of what is left, [copy_to_bytes(len)]. *)
Definition get_len_bytes (cast_context context : string) : parser bytes :=
  let! len := get_vi in
  let! len := lift (to_usize cast_context len) in
  get_bytes context len.

(** [buf.put_vi(data.len())?; buf.extend_from_slice(data)]. *)
Definition put_len_bytes (data : bytes) : result bytes :=
  let? len := put_vi (blen data) in Ok (len ++ data).

Definition data_ok (data : bytes) : Prop := bytes_ok data /\ blen data < U64.

Lemma to_usize_Ok ctx v : is_u64 v -> to_usize ctx v = Ok v.
Proof. intros [_ ?]. unfold to_usize. by rewrite (proj2 (Z.ltb_lt _ _)). Qed.

Lemma decodes_to_usize ctx v : is_u64 v -> decodes (lift (to_usize ctx v)) [] v.
Proof. intros Hv. rewrite to_usize_Ok by done. apply decodes_lift. Qed.

Lemma robust_to_usize ctx v : is_u64 v -> robust 0 (lift (to_usize ctx v)) is_u64.
Proof.
  intros Hv. rewrite to_usize_Ok by done. apply robust_lift; [done|].
  by intros ? [= <-].
Qed.

Lemma blen_u64 data : data_ok data -> is_u64 (blen data).
Proof. intros [_ H]. split; [apply blen_nonneg|done]. Qed.
#[export] Hint Resolve decodes_to_usize blen_u64 : wire.
#[export] Hint Resolve robust_to_usize : robust.

Lemma put_len_bytes_Ok data :
  data_ok data -> put_len_bytes data = Ok (encode_vi (blen data) ++ data).
Proof. intros H. unfold put_len_bytes. by rewrite put_vi_Ok by auto with wire. Qed.

Lemma decodes_len_bytes c1 c2 data :
  data_ok data -> decodes (get_len_bytes c1 c2) (encode_vi (blen data) ++ data) data.
Proof. intros H. pose proof (blen_u64 _ H). unfold get_len_bytes. decode. Qed.

#[export] Instance Wire_len_bytes c1 c2 : Wire data_ok put_len_bytes (get_len_bytes c1 c2).
Proof.
  split.
  - intros d Hd. rewrite put_len_bytes_Ok by done. eexists. split; [done|]. split.
    + apply bytes_ok_app. split; [auto with wire|apply Hd].
    + intros [E _]%app_eq_nil. by eapply encode_vi_nonempty; [|exact E]; auto with wire.
  - intros d bs Hd E. rewrite put_len_bytes_Ok in E by done. inversion E.
    by apply decodes_len_bytes.
  - unfold get_len_bytes. eapply robust_bind_l; [apply get_vi_robust|]. intros n Hn.
    eapply (robust_bind_l 0); [by apply robust_to_usize|]. intros m Hm.
    eapply robust_weaken; [apply robust_get_bytes|lia|].
    intros b [Hb Hl]. split; [done|]. unfold is_u64 in *. lia.
Qed.

(** Serializers made of varints, byte strings and parts that are [Wire]. *)
Ltac ser :=
  repeat first
    [ progress cbn [obind]
    | rewrite put_vi_Ok by solve [auto with wire | ulia]
    | rewrite put_len_bytes_Ok by solve [auto with wire]
    | ser_part ].
(** A whole [transmits] goal: the bytes, their shape, and how they are read. *)
Lemma encode_vi_app_ne v bs : is_u64 v -> encode_vi v ++ bs <> [].
Proof. intros H [E _]%app_eq_nil. by eapply encode_vi_nonempty; [|exact E]. Qed.
Lemma app_ne_l (a b : bytes) : a <> [] -> a ++ b <> [].
Proof. intros H [? _]%app_eq_nil. done. Qed.
Lemma data_ok_bytes d : data_ok d -> bytes_ok d.
Proof. by intros [? _]. Qed.
#[export] Hint Resolve encode_vi_app_ne app_ne_l data_ok_bytes : wire.

(** Whatever bytes a value was read from, [put_vi] needs no more. *)
Lemma get_vi_minimal bs v rest :
  bytes_ok bs -> get_vi bs = (Ok v, rest) ->
  exists enc, put_vi v = Ok enc /\ (length enc + length rest <= length bs)%nat.
Proof.
  intros Hbs Hg.
  destruct (get_vi_cases bs Hbs) as [[_ E]|[(f&t&_&_&E)|(f&t&r&->&Hf&Ht&Hl&E)]];
    rewrite E in Hg; simplify_eq.
  pose proof (get_vi_value_bound f t Hf Ht Hl) as Hv.
  exists (encode_vi (be_fold (vi_head f) t)). rewrite put_vi_Ok, encode_vi_length by done.
  split; [done|]. rewrite length_app. simpl. rewrite Hl.
  enough (minimal_vi_length (be_fold (vi_head f) t) <= leading_ones f + 1)%nat by lia.
  destruct (vi_head_bound f Hf) as (H8&Hp&Hb).
  destruct (le_lt_dec 8 (leading_ones f)).
  { pose proof (minimal_vi_length_range _ Hv). lia. }
  apply minimal_vi_length_le; [lia|].
  rewrite Nat.div_small in Hb by lia. rewrite be_fold_acc, Hl.
  pose proof (be_fold_bound t Ht) as Ht'. rewrite Hl in Ht'.
  eapply Z.lt_le_trans; [apply Z.add_lt_mono_l, Ht'|].
  rewrite Nat2Z.inj_add. simpl in Hb. etrans; [exact Hb|].
  rewrite Z.max_l; [done|]. apply Z.pow_nonneg. lia.
Qed.

(** ** Properties *)

(** A [u64] written with [put_vi] is read back by [get_vi], which stops
    right after it, and takes [minimal_vi_length] bytes, at most nine. *)
Theorem put_vi_get_vi_roundtrip v rest :
  is_u64 v ->
  exists bs, put_vi v = Ok bs /\ get_vi (bs ++ rest) = (Ok v, rest) /\
    length bs = minimal_vi_length v /\ (1 <= length bs <= 9)%nat.
Proof.
  intros Hv. exists (encode_vi v). rewrite put_vi_Ok, encode_vi_length by done.
  split; [done|]. split; [by apply encode_vi_decodes|]. split; [done|].
  by apply minimal_vi_length_range.
Qed.

Lemma put_vi_get_vi_roundtrip_witness :
  is_u64 15293 /\
  exists bs, put_vi 15293 = Ok bs /\ get_vi (bs ++ [7]) = (Ok 15293, [7]) /\
    length bs = minimal_vi_length 15293 /\ (1 <= length bs <= 9)%nat.
Proof.
  split; [unfold is_u64; lia|].
  apply (put_vi_get_vi_roundtrip 15293 [7]). unfold is_u64; lia.
Defined.

(** The encoding is the shortest there is.  Whatever bytes [get_vi] reads a
    value from, minimal or not, [put_vi] writes that value in no more. *)
Theorem put_vi_minimal bs v rest :
  bytes_ok bs -> get_vi bs = (Ok v, rest) ->
  exists enc, put_vi v = Ok enc /\ (length enc + length rest <= length bs)%nat.
Proof. apply get_vi_minimal. Qed.

(** A two-byte encoding of 37, which fits in one. *)
Lemma put_vi_minimal_witness :
  get_vi [128; 37; 9] = (Ok 37, [9]) /\
  exists enc, put_vi 37 = Ok enc /\ (length enc + length [9] <= length [128; 37; 9])%nat.
Proof.
  split; [reflexivity|].
  apply (put_vi_minimal [128; 37; 9] 37 [9]); [repeat constructor; unfold is_u8; lia|reflexivity].
Defined.

(** On any buffer [get_vi] returns.  It gives a [u64] and consumes
    exactly the bytes the first byte announces; or it reports a buffer too
    short for them, naming how many were wanted and how many there were. *)
Theorem get_vi_total bs :
  bytes_ok bs ->
  match get_vi bs with
  | (Ok v, rest) => is_u64 v /\
      exists first tail, bs = (first :: tail) ++ rest /\ length tail = leading_ones first
  | (Err e, rest) => exists ctx needed, e = NotEnoughBytes ctx needed (blen bs) /\
      blen bs < needed <= 9 /\ rest = tail bs
  | _ => False
  end.
Proof.
  intros Hbs.
  destruct (get_vi_cases bs Hbs) as [[-> ->]|[(f&t&->&Hlt&->)|(f&t&r&->&Hf&Ht&Hl&->)]].
  - exists "varint first byte"%string, 1. split; [done|]. split; [unfold blen; simpl; lia|done].
  - inversion Hbs as [|? ? Hf _]; subst. destruct (vi_head_bound f Hf) as (H8&_).
    eexists _, _. split; [unfold blen; simpl; do 2 f_equal; lia|].
    split; [unfold blen; simpl; lia|done].
  - split; [by apply get_vi_value_bound|eauto].
Qed.

Lemma get_vi_total_witness :
  bytes_ok [192; 1] /\
  match get_vi [192; 1] with
  | (Ok v, rest) => is_u64 v /\
      exists first tail, [192; 1] = (first :: tail) ++ rest /\ length tail = leading_ones first
  | (Err e, rest) => exists ctx needed, e = NotEnoughBytes ctx needed (blen [192; 1]) /\
      blen [192; 1] < needed <= 9 /\ rest = tail [192; 1]
  | _ => False
  end.
Proof.
  assert (bytes_ok [192; 1]) as H by (repeat constructor; unfold is_u8; lia).
  split; [exact H|]. exact (get_vi_total [192; 1] H).
Defined.
