(* ===== verification/Pair.v ===== *)
(** Key-Value-Pairs and the delta-encoded lists of them
    ([libs/moqtail-rs/src/model/common/pair.rs]).

    Setup options, message parameters and properties travel as lists of pairs
    in which each Type is written as the difference from the one before.  An
    even Type carries a varint, an odd one a length-prefixed byte string.
    Serializing sorts the list; the theorems show that what is read back is the
    stable sort of what was written, and that what is read from any bytes can
    be written again and read as the same list. *)
From S2P Require Import Prelude Varint.

Definition MAX_VALUE_LENGTH : Z := 65535.

Inductive KeyValuePair : Type :=
| KvVarInt (type_value value : Z)
| KvBytes (type_value : Z) (value : bytes).

Definition get_type (kvp : KeyValuePair) : Z :=
  match kvp with
  | KvVarInt type_value _ => type_value
  | KvBytes type_value _ => type_value
  end.

Definition is_same_type (self other : KeyValuePair) : bool := get_type self =? get_type other.

(** [u64::is_multiple_of]. *)
Definition is_multiple_of (v d : Z) : bool := if d =? 0 then v =? 0 else v mod d =? 0.

Definition try_new_varint (type_value value : Z) : result KeyValuePair :=
  if negb (is_multiple_of type_value 2)
  then Err (KeyValueFormattingError "KeyValuePair::try_new_varint")
  else Ok (KvVarInt type_value value).

Definition new_bytes (type_value : Z) (value : bytes) : result KeyValuePair :=
  let len := blen value in
  if MAX_VALUE_LENGTH <? len
  then Err (LengthExceedsMax "KeyValuePair::new_bytes" MAX_VALUE_LENGTH len)
  else Ok (KvBytes type_value value).

Definition try_new_bytes (type_value : Z) (value : bytes) : result KeyValuePair :=
  if is_multiple_of type_value 2
  then Err (KeyValueFormattingError "KeyValuePair::try_new_bytes")
  else new_bytes type_value value.

Definition serialize_delta (self : KeyValuePair) (prev_type : Z) : result bytes :=
  let? delta_type := ok_or (checked_sub (get_type self) prev_type)
                       (ProtocolViolation "KeyValuePair::serialize_delta") in
  let? b1 := put_vi delta_type in
  match self with
  | KvVarInt _ value => let? b2 := put_vi value in Ok (b1 ++ b2)
  | KvBytes _ value => let? b2 := put_vi (blen value) in Ok (b1 ++ b2 ++ value)
  end.

Definition KeyValuePair_serialize (self : KeyValuePair) : result bytes := serialize_delta self 0.

Definition deserialize_bytes_value (type_value : Z) : parser KeyValuePair :=
  let! len_u64 := get_vi in
  let! len := lift (to_usize "KeyValuePair::deserialize length" len_u64) in
  if MAX_VALUE_LENGTH <? len
  then pfail (LengthExceedsMax "KeyValuePair::deserialize" MAX_VALUE_LENGTH len)
  else
    let! value := get_bytes "KeyValuePair::deserialize value" len in
    pret (KvBytes type_value value).

Definition deserialize_value (type_value : Z) : parser KeyValuePair :=
  if is_multiple_of type_value 2 then
    let! value := get_vi in pret (KvVarInt type_value value)
  else deserialize_bytes_value type_value.

Definition deserialize_delta (prev_type : Z) : parser KeyValuePair :=
  let! delta_type := get_vi in
  let! type_value := lift (ok_or (checked_add prev_type delta_type)
                             (ProtocolViolation "KeyValuePair::deserialize_delta")) in
  deserialize_value type_value.

Definition KeyValuePair_deserialize : parser KeyValuePair := deserialize_delta 0.

(** The loop of [serialize_kvp_list] over the sorted list. *)
Fixpoint serialize_kvps_from (prev_type : Z) (sorted : list KeyValuePair) : result bytes :=
  match sorted with
  | [] => Ok []
  | kvp :: rest =>
      let? b := serialize_delta kvp prev_type in
      let? bs := serialize_kvps_from (get_type kvp) rest in
      Ok (b ++ bs)
  end.

Definition serialize_kvp_list (items : list KeyValuePair) : result bytes :=
  serialize_kvps_from 0 (sort_by_key get_type items).

(** One turn of the reading loops; the state is the items so far and the Type
    of the last. *)
Definition kvp_step (s : list KeyValuePair * Z) : parser (list KeyValuePair * Z) :=
  let! kvp := deserialize_delta (snd s) in
  pret (fst s ++ [kvp], get_type kvp).

Definition deserialize_kvp_list `{Target} (count : Z) : parser (list KeyValuePair) :=
  let! _ := lift (with_capacity size_of_KeyValuePair count) in
  let! s := for_count count kvp_step ([], 0) in
  pret (fst s).

Definition deserialize_kvp_list_until_empty : parser (list KeyValuePair) :=
  let! s := while_remaining kvp_step ([], 0) in
  pret (fst s).

(** ** Well-formed pairs: what the fallible constructors build *)

Definition kvp_wf (kvp : KeyValuePair) : Prop :=
  match kvp with
  | KvVarInt t v => is_u64 t /\ is_multiple_of t 2 = true /\ is_u64 v
  | KvBytes t b => is_u64 t /\ is_multiple_of t 2 = false /\ bytes_ok b /\ blen b <= MAX_VALUE_LENGTH
  end.

Lemma kvp_wf_type kvp : kvp_wf kvp -> is_u64 (get_type kvp).
Proof. destruct kvp; simpl; tauto. Qed.

Lemma try_new_varint_wf t v kvp :
  is_u64 t -> is_u64 v -> try_new_varint t v = Ok kvp -> kvp_wf kvp.
Proof.
  unfold try_new_varint. intros ?? E. case_if; [discriminate|]. breflect. by inversion E.
Qed.

Lemma try_new_bytes_wf t b kvp :
  is_u64 t -> bytes_ok b -> try_new_bytes t b = Ok kvp -> kvp_wf kvp.
Proof.
  unfold try_new_bytes, new_bytes. intros ?? E. repeat case_if; try discriminate.
  breflect. by inversion E.
Qed.

(** ** One pair *)

Lemma data_ok_value b : bytes_ok b -> blen b <= MAX_VALUE_LENGTH -> data_ok b.
Proof. unfold MAX_VALUE_LENGTH. split; [done|lia]. Qed.

Lemma decodes_bytes_value t b :
  bytes_ok b -> blen b <= MAX_VALUE_LENGTH ->
  decodes (deserialize_bytes_value t) (encode_vi (blen b) ++ b) (KvBytes t b).
Proof.
  intros Hb Hl. pose proof (blen_u64 b (data_ok_value b Hb Hl)).
  unfold deserialize_bytes_value. decode.
  destruct (Z.ltb_spec MAX_VALUE_LENGTH (blen b)); [lia|]. decode.
Qed.

Lemma serialize_delta_spec kvp prev :
  kvp_wf kvp -> 0 <= prev <= get_type kvp ->
  exists bs, serialize_delta kvp prev = Ok bs /\ bytes_ok bs /\ bs <> [] /\
    decodes (deserialize_delta prev) bs kvp.
Proof.
  intros Hwf Hp. pose proof (kvp_wf_type _ Hwf) as Ht.
  assert (is_u64 (get_type kvp - prev)) as Hd by (unfold is_u64 in *; lia).
  assert (checked_sub (get_type kvp) prev = Some (get_type kvp - prev)) as E
    by (apply checked_sub_Some; lia).
  assert (checked_add prev (get_type kvp - prev) = Some (get_type kvp)) as E'
    by (apply checked_add_Some; unfold is_u64 in *; lia).
  unfold serialize_delta. rewrite E. cbn [ok_or obind]. rewrite put_vi_Ok by done. cbn [obind].
  destruct kvp as [t v|t b]; simpl in *.
  - destruct Hwf as (_&Heven&Hv). rewrite put_vi_Ok by done. cbn [obind].
    eexists. split; [done|]. split; [apply bytes_ok_app; auto with wire|].
    split; [intros [N _]%app_eq_nil; by eapply encode_vi_nonempty; [|exact N]|].
    unfold deserialize_delta. eapply decodes_bind; [by auto with wire|].
    rewrite E'. cbn [ok_or]. eapply decodes_bind_nil; [apply decodes_lift|].
    unfold deserialize_value. rewrite Heven. decode.
  - destruct Hwf as (_&Hodd&Hb&Hl). pose proof (data_ok_value b Hb Hl) as Hd'.
    rewrite put_vi_Ok by auto with wire. cbn [obind].
    eexists. split; [done|]. split; [rewrite !bytes_ok_app; auto with wire|].
    split; [intros [N _]%app_eq_nil; by eapply encode_vi_nonempty; [|exact N]|].
    unfold deserialize_delta. eapply decodes_bind; [by auto with wire|].
    rewrite E'. cbn [ok_or]. eapply decodes_bind_nil; [apply decodes_lift|].
    unfold deserialize_value. rewrite Hodd. by apply decodes_bytes_value.
Qed.

Lemma deserialize_bytes_value_robust t :
  robust 1 (deserialize_bytes_value t)
    (fun kvp => exists b, kvp = KvBytes t b /\ bytes_ok b /\ blen b <= MAX_VALUE_LENGTH).
Proof.
  unfold deserialize_bytes_value. eapply robust_bind_l; [apply get_vi_robust|]. intros n Hn.
  eapply (robust_bind_l 0); [by apply robust_to_usize|]. intros m Hm.
  case_if; [apply robust_fail|]. breflect.
  eapply robust_weaken; [eapply robust_bind_l; [apply robust_get_bytes|]| |intros ? H; exact H]; [|lia].
  intros b [Hb Hl]. apply robust_ret. exists b. unfold MAX_VALUE_LENGTH in *.
  split; [done|]. split; [done|lia].
Qed.

Lemma deserialize_delta_robust prev :
  is_u64 prev -> robust 1 (deserialize_delta prev) (fun kvp => kvp_wf kvp /\ prev <= get_type kvp).
Proof.
  intros Hp. unfold deserialize_delta. eapply robust_bind_l; [apply get_vi_robust|].
  intros d Hd. eapply (robust_bind_l 0).
  - apply (robust_lift _ (fun t => t = prev + d /\ is_u64 t)).
    + by destruct (checked_add prev d).
    + intros t Ht. destruct (checked_add prev d) eqn:E; inversion Ht; subst.
      apply checked_add_Some in E. unfold is_u64 in *. lia.
  - intros t [Et Ht]. unfold deserialize_value. destruct (is_multiple_of t 2) eqn:Em.
    + eapply robust_weaken; [eapply robust_bind_l; [apply get_vi_robust|]|lia|intros ? H; exact H].
      intros v Hv. apply robust_ret. simpl. unfold is_u64 in *. repeat split; (done || lia).
    + eapply robust_weaken; [apply deserialize_bytes_value_robust|lia|].
      intros kvp (b&->&Hb&Hl). simpl. unfold is_u64 in *. repeat split; (done || lia).
Qed.

(** ** Lists of pairs *)

Definition ascending : list KeyValuePair -> Prop := StronglySorted (key_le get_type).

Lemma serialize_kvps_runs l : forall prev acc,
  0 <= prev -> Forall kvp_wf l -> ascending l -> Forall (fun k => prev <= get_type k) l ->
  exists bss last, serialize_kvps_from prev l = Ok (concat bss) /\ bytes_ok (concat bss) /\
    length bss = length l /\ runs kvp_step (acc, prev) bss (acc ++ l, last).
Proof.
  induction l as [|k l IH]; intros prev acc Hp Hwf Hs Hge.
  - exists [], prev. rewrite app_nil_r. repeat split; constructor.
  - inversion Hwf as [|? ? Hk Hwf']; inversion Hs as [|? ? Hs' Hle]; subst.
    inversion Hge as [|? ? Hge1 _]; subst.
    destruct (serialize_delta_spec k prev Hk ltac:(lia)) as (b&Eb&Hbok&Hbne&Hbd).
    destruct (IH (get_type k) (acc ++ [k]) ltac:(lia) Hwf' Hs' Hle)
      as (bss&last&Ebs&Hok&Hlen&Hruns).
    exists (b :: bss), last. simpl. rewrite Eb. cbn [obind]. rewrite Ebs. cbn [obind].
    split; [done|]. split; [by apply bytes_ok_app|]. split; [by f_equal|].
    econstructor; [|done|].
    + unfold kvp_step. simpl fst; simpl snd. eapply decodes_bind_last; [done|apply decodes_ret].
    + replace (acc ++ k :: l) with ((acc ++ [k]) ++ l) by by rewrite <- app_assoc.
      exact Hruns.
Qed.

Lemma serialize_kvp_list_runs items :
  Forall kvp_wf items ->
  exists bss last, serialize_kvp_list items = Ok (concat bss) /\ bytes_ok (concat bss) /\
    length bss = length items /\
    runs kvp_step ([], 0) bss (sort_by_key get_type items, last).
Proof.
  intros Hwf. unfold serialize_kvp_list.
  assert (Forall kvp_wf (sort_by_key get_type items)) as Hwf' by by apply sort_by_key_Forall.
  destruct (serialize_kvps_runs (sort_by_key get_type items) 0 [] ltac:(lia) Hwf')
    as (bss&last&?&?&Hl&?).
  - apply sort_by_key_sorted.
  - eapply Forall_impl; [exact Hwf'|]. intros k Hk%kvp_wf_type. unfold is_u64 in *. lia.
  - exists bss, last. rewrite sort_by_key_length in Hl. auto.
Qed.

Lemma kvp_list_until_empty_decodes items bs :
  Forall kvp_wf items -> serialize_kvp_list items = Ok bs ->
  deserialize_kvp_list_until_empty bs = (Ok (sort_by_key get_type items), []) /\ bytes_ok bs.
Proof.
  intros Hwf E. destruct (serialize_kvp_list_runs items Hwf) as (bss&last&E'&Hok&_&Hr).
  rewrite E in E'. inversion E'; subst. split; [|done].
  unfold deserialize_kvp_list_until_empty, pbind.
  by rewrite (while_remaining_runs _ _ _ _ Hr).
Qed.

Lemma serialize_kvp_list_Ok items : Forall kvp_wf items -> exists bs, serialize_kvp_list items = Ok bs.
Proof. intros H. destruct (serialize_kvp_list_runs items H) as (?&?&->&_). eauto. Qed.

Lemma kvp_list_decodes `{Target} items bs :
  Forall kvp_wf items -> serialize_kvp_list items = Ok bs ->
  Z.of_nat (length items) * size_of_KeyValuePair <= ISIZE_MAX ->
  decodes (deserialize_kvp_list (Z.of_nat (length items))) bs (sort_by_key get_type items).
Proof.
  intros Hwf E Hcap. destruct (serialize_kvp_list_runs items Hwf) as (bss&last&E'&_&Hlen&Hr).
  rewrite E in E'. inversion E'; subst. unfold deserialize_kvp_list, with_capacity.
  rewrite (proj2 (Z.leb_le _ _)) by done.
  eapply decodes_bind_nil; [apply decodes_lift|].
  eapply decodes_bind_last; [eapply for_count_runs; [done|by rewrite Hlen]|]. apply decodes_ret.
Qed.

(** The invariant of the reading loops. *)
Definition kvps_read (s : list KeyValuePair * Z) : Prop :=
  Forall kvp_wf (fst s) /\ ascending (fst s) /\ is_u64 (snd s) /\
  Forall (fun k => get_type k <= snd s) (fst s).

Lemma ascending_snoc l k :
  ascending l -> Forall (fun k' => get_type k' <= get_type k) l -> ascending (l ++ [k]).
Proof.
  induction 1 as [|x l Hs IH Hx]; intros Hk; [by repeat constructor|].
  inversion Hk; subst. simpl. constructor; [by apply IH|]. apply Forall_app. split; [done|].
  by repeat constructor.
Qed.

Lemma kvp_step_robust s : kvps_read s -> robust 1 (kvp_step s) kvps_read.
Proof.
  intros (Hwf&Has&Hu&Hle). unfold kvp_step.
  eapply robust_bind_l; [by apply deserialize_delta_robust|]. intros k [Hk Hge].
  apply robust_ret. unfold kvps_read. simpl.
  assert (Forall (fun k' => get_type k' <= get_type k) (fst s)) as Hle'
    by (eapply Forall_impl; [exact Hle|]; simpl; intros; lia).
  split; [by apply Forall_snoc|].
  split; [by apply ascending_snoc|]. split; [by apply kvp_wf_type|].
  by apply Forall_snoc.
Qed.

Lemma kvps_read_init : kvps_read ([], 0).
Proof. unfold kvps_read, is_u64. simpl. split; [constructor|]. split; [constructor|]. split; [lia|constructor]. Qed.

Lemma kvp_list_until_empty_robust :
  robust 0 deserialize_kvp_list_until_empty (fun l => Forall kvp_wf l /\ ascending l).
Proof.
  unfold deserialize_kvp_list_until_empty. eapply robust_bind_l.
  - apply (while_remaining_robust kvp_step kvps_read);
      [apply kvp_step_robust|apply kvps_read_init].
  - intros s (H1&H2&_). by apply robust_ret.
Qed.

(** ** Forwarding never grows a list *)

Lemma pbind_Ok_inv {A B} (p : parser A) (f : A -> parser B) bs b r :
  pbind p f bs = (Ok b, r) -> exists a r1, p bs = (Ok a, r1) /\ f a r1 = (Ok b, r).
Proof. unfold pbind. destruct (p bs) as [[a|e| |] r1]; intros H; simplify_eq. eauto. Qed.

Lemma robust_Ok_inv {A} k (p : parser A) Q bs a r :
  robust k p Q -> bytes_ok bs -> p bs = (Ok a, r) -> bytes_ok r /\ Q a.
Proof.
  intros H Hb E. specialize (H bs Hb). rewrite E in H. destruct H as (Hs&_&HQ).
  split; [by eapply bytes_ok_suffix|done].
Qed.

Lemma deserialize_bytes_value_minimal t bs k r :
  bytes_ok bs -> deserialize_bytes_value t bs = (Ok k, r) ->
  exists v l, k = KvBytes t v /\ put_vi (blen v) = Ok l /\
    (length l + length v + length r <= length bs)%nat.
Proof.
  intros Hb (n&r1&E1&E)%pbind_Ok_inv. destruct (get_vi_minimal bs n r1 Hb E1) as (l&El&Hl).
  destruct (robust_Ok_inv _ _ _ _ _ _ get_vi_robust Hb E1) as [Hr1 Hn].
  apply pbind_Ok_inv in E as (m&r2&E2&E). unfold lift in E2. rewrite to_usize_Ok in E2 by done.
  simplify_eq. case_if; [done|]. apply pbind_Ok_inv in E as (v&r3&E3&E).
  unfold pret in E. simplify_eq. pose proof (robust_get_bytes "KeyValuePair::deserialize value" m _ Hr1) as Hg.
  rewrite E3 in Hg. destruct Hg as (_&Hlen&_&Hv). unfold is_u64 in Hn.
  exists v, l. split; [done|]. rewrite Hv, Z.max_l by lia. split; [done|]. unfold blen in Hv. lia.
Qed.

Lemma deserialize_delta_minimal prev bs k r :
  bytes_ok bs -> deserialize_delta prev bs = (Ok k, r) ->
  exists b, serialize_delta k prev = Ok b /\ (length b + length r <= length bs)%nat.
Proof.
  intros Hb (d&r1&E1&E)%pbind_Ok_inv. destruct (get_vi_minimal bs d r1 Hb E1) as (ed&Ed&Hed).
  destruct (robust_Ok_inv _ _ _ _ _ _ get_vi_robust Hb E1) as [Hr1 Hd].
  apply pbind_Ok_inv in E as (t&r2&E2&E). unfold lift in E2.
  destruct (checked_add prev d) as [t'|] eqn:Et; simplify_eq/=.
  apply checked_add_Some in Et as [-> Ht]. unfold is_u64 in Hd.
  assert (checked_sub (prev + d) prev = Some d) as Es by (apply checked_sub_Some; lia).
  unfold deserialize_value in E. destruct (is_multiple_of (prev + d) 2).
  - apply pbind_Ok_inv in E as (v&r3&E3&E). unfold pret in E. simplify_eq.
    destruct (get_vi_minimal r2 v r Hr1 E3) as (ev&Ev&Hev).
    unfold serialize_delta. simpl. rewrite Es. simpl. rewrite Ed. simpl. rewrite Ev. simpl.
    eexists. split; [done|]. rewrite length_app. lia.
  - destruct (deserialize_bytes_value_minimal _ _ _ _ Hr1 E) as (v&l&->&El&Hl).
    unfold serialize_delta. simpl. rewrite Es. simpl. rewrite Ed. simpl. rewrite El. simpl.
    eexists. split; [done|]. rewrite !length_app. lia.
Qed.

Lemma kvp_loop_minimal : forall fuel acc prev bs items last r,
  bytes_ok bs -> is_u64 prev -> pwhile fuel kvp_step (acc, prev) bs = (Ok (items, last), r) ->
  exists l b, items = acc ++ l /\ serialize_kvps_from prev l = Ok b /\
    (length b + length r <= length bs)%nat.
Proof.
  induction fuel as [|fuel IH]; intros acc prev bs items last r Hb Hp E.
  - destruct bs; simpl in E; simplify_eq. exists [], []. by rewrite app_nil_r.
  - destruct bs as [|c bs]; [simpl in E; simplify_eq; exists [], []; by rewrite app_nil_r|].
    cbn [pwhile] in E. apply pbind_Ok_inv in E as ([acc' prev']&r1&E1&E).
    apply pbind_Ok_inv in E1 as (k&r2&E1&E2). unfold pret in E2. simpl in *. simplify_eq.
    destruct (robust_Ok_inv _ _ _ _ _ _ (deserialize_delta_robust prev Hp) Hb E1) as [Hr1 [Hk _]].
    destruct (deserialize_delta_minimal _ _ _ _ Hb E1) as (b&Eb&Hlb).
    destruct (IH _ _ _ _ _ _ Hr1 (kvp_wf_type k Hk) E) as (l&b'&->&El&Hl).
    exists (k :: l), (b ++ b'). rewrite <- app_assoc. split; [done|]. simpl. rewrite Eb. simpl.
    rewrite El. split; [done|]. rewrite length_app. simpl in *. lia.
Qed.

(** A list that was read needs no more bytes to be written. *)
Lemma kvp_list_forward_length bs items r :
  bytes_ok bs -> deserialize_kvp_list_until_empty bs = (Ok items, r) ->
  exists bs', serialize_kvp_list items = Ok bs' /\ (length bs' <= length bs)%nat.
Proof.
  intros Hb E.
  destruct (robust_Ok_inv _ _ _ _ _ _ kvp_list_until_empty_robust Hb E) as [_ [_ Has]].
  apply pbind_Ok_inv in E as ([items' last]&r1&E&E'). unfold pret in E'. simplify_eq/=.
  destruct (kvp_loop_minimal (length bs) [] 0 bs _ _ _ Hb ltac:(unfold is_u64; lia) E) as (l&b&->&El&Hl).
  exists b. unfold serialize_kvp_list. simpl in *. rewrite sort_by_key_id by done.
  split; [done|lia].
Qed.

(** ** Properties *)

(** A list of pairs survives the wire up to order.  Serialization succeeds,
    and both readers give back the stable sort of the list by Type: the one
    that reads to the end of the buffer, and the one told the count, which
    stops there. *)
Theorem kvp_list_roundtrip `{Target} items rest :
  Forall kvp_wf items -> Z.of_nat (length items) <= U32 ->
  exists bs, serialize_kvp_list items = Ok bs /\
    deserialize_kvp_list_until_empty bs = (Ok (sort_by_key get_type items), []) /\
    deserialize_kvp_list (Z.of_nat (length items)) (bs ++ rest) =
      (Ok (sort_by_key get_type items), rest).
Proof.
  intros Hwf Hlen. destruct (serialize_kvp_list_Ok items Hwf) as [bs E]. exists bs.
  split; [done|]. split; [by eapply kvp_list_until_empty_decodes|].
  apply kvp_list_decodes; [done|done|]. pose proof size_of_KeyValuePair_range. nia.
Qed.

Lemma kvp_list_roundtrip_witness :
  Forall kvp_wf [KvVarInt 32 1; KvBytes 33 [120]; KvVarInt 16 2] /\
  exists bs, serialize_kvp_list [KvVarInt 32 1; KvBytes 33 [120]; KvVarInt 16 2] = Ok bs /\
    deserialize_kvp_list_until_empty bs =
      (Ok (sort_by_key get_type [KvVarInt 32 1; KvBytes 33 [120]; KvVarInt 16 2]), []) /\
    @deserialize_kvp_list debug_build (Z.of_nat 3) (bs ++ [5]) =
      (Ok (sort_by_key get_type [KvVarInt 32 1; KvBytes 33 [120]; KvVarInt 16 2]), [5]).
Proof.
  assert (Forall kvp_wf [KvVarInt 32 1; KvBytes 33 [120]; KvVarInt 16 2]) as H
    by (repeat constructor; unfold is_u64, is_u8; (lia || done)).
  split; [exact H|].
  apply (@kvp_list_roundtrip debug_build [KvVarInt 32 1; KvBytes 33 [120]; KvVarInt 16 2] [5]);
    [exact H|simpl; lia].
Defined.

(** Reading a property list to the end of a buffer always returns, on any
    bytes, and what it reads can be forwarded unchanged: the list is ascending
    and well formed, so writing it out and reading it again gives the same
    list. *)
Theorem kvp_list_forwardable bs :
  bytes_ok bs ->
  match deserialize_kvp_list_until_empty bs with
  | (Ok items, rest) => rest `suffix_of` bs /\
      exists bs', serialize_kvp_list items = Ok bs' /\
        deserialize_kvp_list_until_empty bs' = (Ok items, [])
  | (Err _, rest) => rest `suffix_of` bs
  | _ => False
  end.
Proof.
  intros Hbs. pose proof (kvp_list_until_empty_robust bs Hbs) as R.
  destruct (deserialize_kvp_list_until_empty bs) as [[items|e| |] rest]; try done.
  destruct R as (Hs&_&Hwf&Has). split; [done|].
  destruct (serialize_kvp_list_Ok items Hwf) as [bs' E]. exists bs'. split; [done|].
  rewrite (proj1 (kvp_list_until_empty_decodes items bs' Hwf E)).
  by rewrite sort_by_key_id.
Qed.

Lemma kvp_list_forwardable_witness :
  bytes_ok [2; 10; 1; 1; 7] /\
  match deserialize_kvp_list_until_empty [2; 10; 1; 1; 7] with
  | (Ok items, rest) => rest `suffix_of` [2; 10; 1; 1; 7] /\
      exists bs', serialize_kvp_list items = Ok bs' /\
        deserialize_kvp_list_until_empty bs' = (Ok items, [])
  | (Err _, rest) => rest `suffix_of` [2; 10; 1; 1; 7]
  | _ => False
  end.
Proof.
  assert (bytes_ok [2; 10; 1; 1; 7]) as H by (repeat constructor; unfold is_u8; lia).
  split; [exact H|]. exact (kvp_list_forwardable [2; 10; 1; 1; 7] H).
Defined.
