(* ===== verification/Common.v ===== *)
(** The building blocks of the messages ([libs/moqtail-rs/src/model/common/]):
    Locations, namespace tuples, track names, reason phrases, redirects and
    GREASE values.

    A [TupleField] is its bytes and a [Tuple] the list of its fields.  A Rust
    [String] is a byte string that is valid UTF-8. *)
From stdpp Require Import gmap.
From S2P Require Import Prelude Varint.

(** * Locations ([location.rs]) *)

Record Location := mkLocation { group : Z; object : Z }.

#[export] Instance Location_eq_dec : EqDecision Location.
Proof. solve_decision. Defined.
#[export] Instance Location_countable : Countable Location.
Proof.
  refine (inj_countable' (fun l => (group l, object l)) (fun p => mkLocation p.1 p.2) _).
  by intros [].
Defined.

(** The derived order: by Group, then by Object. *)
Definition Location_ltb (a b : Location) : bool :=
  (group a <? group b) || ((group a =? group b) && (object a <? object b)).
Definition Location_leb (a b : Location) : bool :=
  (group a <? group b) || ((group a =? group b) && (object a <=? object b)).
Definition Location_min (a b : Location) : Location := if Location_leb a b then a else b.
Definition Location_max (a b : Location) : Location := if Location_leb a b then b else a.

Definition Location_next (self : Location) : option Location :=
  match checked_add (object self) 1 with
  | Some object => Some (mkLocation (group self) object)
  | None =>
      match checked_add (group self) 1 with
      | Some g => Some (mkLocation g 0)
      | None => None
      end
  end.

Definition Location_prev (self : Location) : option Location :=
  match checked_sub (object self) 1 with
  | Some object => Some (mkLocation (group self) object)
  | None =>
      match checked_sub (group self) 1 with
      | Some g => Some (mkLocation g U64_MAX)
      | None => None
      end
  end.

Definition Location_serialize (self : Location) : result bytes :=
  let? b1 := put_vi (group self) in
  let? b2 := put_vi (object self) in
  Ok (b1 ++ b2).

Definition Location_deserialize : parser Location :=
  let! group := get_vi in
  let! object := get_vi in
  pret (mkLocation group object).

(** * Tuples ([tuple.rs]) *)

Abbreviation TupleField := bytes.
Abbreviation Tuple := (list (list Z)).

Definition TupleField_serialize (self : TupleField) : result bytes := put_len_bytes self.

Definition TupleField_deserialize : parser TupleField :=
  get_len_bytes "TupleField::decode" "TupleField::decode".

(** The loop of [Tuple::serialize] over the fields. *)
Fixpoint serialize_fields (fields : list TupleField) : result bytes :=
  match fields with
  | [] => Ok []
  | field :: rest =>
      let? b := TupleField_serialize field in
      let? bs := serialize_fields rest in
      Ok (b ++ bs)
  end.

Definition Tuple_serialize (self : Tuple) : result bytes :=
  let? count := put_vi (Z.of_nat (length self)) in
  let? fields := serialize_fields self in
  Ok (count ++ fields).

Definition Tuple_deserialize : parser Tuple :=
  let! count := get_vi in
  let! count_usize := lift (to_usize "Tuple::decode" count) in
  for_count count_usize
    (fun fields => let! field := TupleField_deserialize in pret (fields ++ [field])) [].

(** [self.fields[i].ne(&prefix.fields[i])] for each [i] of the prefix. *)
Definition starts_with (self prefix : Tuple) : bool :=
  if (length self <? length prefix)%nat then false
  else forallb (fun i => bool_decide (self !! i = prefix !! i)) (seq 0 (length prefix)).

Definition Tuple_suffix (self prefix : Tuple) : option Tuple :=
  if negb (starts_with self prefix) then None
  else Some (drop (length prefix) self).

(** [.] is byte 0x2e; the literal [.session]. *)
Definition DOT : Z := 46.
Definition SESSION : bytes := [46; 115; 101; 115; 115; 105; 111; 110].

Definition is_reserved_namespace (self : Tuple) : bool :=
  match self with
  | (b :: _) :: _ => b =? DOT
  | _ => false
  end.

Definition is_reserved_dot (self : Tuple) : bool :=
  match self with
  | f :: _ => bool_decide (f = [DOT])
  | [] => false
  end.

Definition is_session_namespace (self : Tuple) : bool :=
  match self with
  | f :: _ => bool_decide (f = SESSION)
  | [] => false
  end.

(** [path.split('/')], then the empty parts skipped. *)
Fixpoint split_slash (path : bytes) : list bytes :=
  match path with
  | [] => [[]]
  | b :: rest =>
      if b =? 47 then [] :: split_slash rest
      else match split_slash rest with
           | part :: parts => (b :: part) :: parts
           | [] => [[b]]
           end
  end.
Definition from_utf8_path (path : bytes) : Tuple :=
  List.filter (fun part => negb (blen part =? 0)) (split_slash path).

(** * Strings: [String::from_utf8] *)

Definition is_cont (b : Z) : bool := (128 <=? b) && (b <=? 191).
Definition in_range (lo hi b : Z) : bool := (lo <=? b) && (b <=? hi).

(** The well-formed byte sequences of the Unicode standard, table 3-7. *)
Fixpoint utf8_valid (bs : bytes) : bool :=
  match bs with
  | [] => true
  | b0 :: r0 =>
      if b0 <? 128 then utf8_valid r0
      else match r0 with
      | [] => false
      | b1 :: r1 =>
          if in_range 194 223 b0 then is_cont b1 && utf8_valid r1
          else match r1 with
          | [] => false
          | b2 :: r2 =>
              if b0 =? 224 then in_range 160 191 b1 && is_cont b2 && utf8_valid r2
              else if b0 =? 237 then in_range 128 159 b1 && is_cont b2 && utf8_valid r2
              else if in_range 225 239 b0 then is_cont b1 && is_cont b2 && utf8_valid r2
              else match r2 with
              | [] => false
              | b3 :: r3 =>
                  if b0 =? 240 then in_range 144 191 b1 && is_cont b2 && is_cont b3 && utf8_valid r3
                  else if b0 =? 244 then in_range 128 143 b1 && is_cont b2 && is_cont b3 && utf8_valid r3
                  else if in_range 241 243 b0 then is_cont b1 && is_cont b2 && is_cont b3 && utf8_valid r3
                  else false
              end
          end
      end
  end.

Definition from_utf8 (context : string) (raw : bytes) : result bytes :=
  if utf8_valid raw then Ok raw else Err (InvalidUTF8 context).

(** * Reason phrases ([reason_phrase.rs]) *)

Definition MAX_REASON_PHRASE_LEN : Z := 1024.

Record ReasonPhrase := mkReasonPhrase { phrase : bytes }.

Definition ReasonPhrase_try_new (phrase : bytes) : result ReasonPhrase :=
  let len := blen phrase in
  if MAX_REASON_PHRASE_LEN <? len
  then Err (LengthExceedsMax "ReasonPhrase::try_new" MAX_REASON_PHRASE_LEN len)
  else Ok (mkReasonPhrase phrase).

Definition ReasonPhrase_serialize (self : ReasonPhrase) : result bytes :=
  let data := phrase self in
  let? len := put_vi (blen data) in
  Ok (len ++ data).

Definition ReasonPhrase_deserialize : parser ReasonPhrase :=
  let! len_u64 := get_vi in
  let! len := lift (to_usize "ReasonPhrase::deserialize length" len_u64) in
  if MAX_REASON_PHRASE_LEN <? len
  then pfail (LengthExceedsMax "reason phrase try_new" MAX_REASON_PHRASE_LEN len)
  else
    let! raw := get_bytes "ReasonPhrase::value" len in
    let! phrase := lift (from_utf8 "ReasonPhrase::deserialize" raw) in
    pret (mkReasonPhrase phrase).

(** * Redirects ([redirect.rs]) *)

Record Redirect := mkRedirect {
  connect_uri : option bytes;
  redirect_namespace : Tuple;
  redirect_name : TupleField
}.

Definition Redirect_new (connect_uri : option bytes) (track_namespace : Tuple)
    (track_name : TupleField) : Redirect :=
  let connect_uri :=
    match connect_uri with
    | Some uri => if blen uri =? 0 then None else Some uri
    | None => None
    end in
  mkRedirect connect_uri track_namespace track_name.

Definition Redirect_serialize (self : Redirect) : result bytes :=
  let? uri := match connect_uri self with
              | Some uri => let? len := put_vi (blen uri) in Ok (len ++ uri)
              | None => put_vi 0
              end in
  let? namespace := Tuple_serialize (redirect_namespace self) in
  let? name_len := put_vi (blen (redirect_name self)) in
  Ok (uri ++ namespace ++ name_len ++ redirect_name self).

Definition Redirect_deserialize : parser Redirect :=
  let! uri_len_u64 := get_vi in
  let! uri_len := lift (to_usize "Redirect::deserialize(uri_len)" uri_len_u64) in
  let! connect_uri :=
    (if uri_len =? 0 then pret None
     else
       let! raw := get_bytes "Redirect::deserialize(connect_uri)" uri_len in
       let! uri := lift (from_utf8 "Redirect::deserialize(connect_uri)" raw) in
       pret (Some uri)) in
  let! track_namespace := Tuple_deserialize in
  let! track_name := get_len_bytes "Redirect::deserialize(name_len)" "Redirect::deserialize(track_name)" in
  pret (mkRedirect connect_uri track_namespace track_name).

(** * GREASE ([grease.rs]) *)

Definition GREASE_STEP : Z := 127.
Definition GREASE_BASE : Z := 157.

Definition is_grease (value : Z) : bool :=
  (GREASE_BASE <=? value) && ((value - GREASE_BASE) mod GREASE_STEP =? 0).

Definition grease_value (n : Z) : option Z :=
  match checked_mul GREASE_STEP n with
  | Some v => checked_add v GREASE_BASE
  | None => None
  end.

(** * Lemmas *)

(** ** Locations as positions of one line *)

Definition loc_ok (l : Location) : Prop := is_u64 (group l) /\ is_u64 (object l).

(** Locations in order are the numbers below [2^128]. *)
Definition pos (l : Location) : Z := group l * U64 + object l.

Lemma loc_ok_group l : loc_ok l -> is_u64 (group l).
Proof. by intros []. Qed.
Lemma loc_ok_object l : loc_ok l -> is_u64 (object l).
Proof. by intros []. Qed.
#[export] Hint Resolve loc_ok_group loc_ok_object : wire robust.

Ltac loc := unfold loc_ok, is_u64, pos in *; simpl in *.

Lemma Location_leb_pos a b : loc_ok a -> loc_ok b -> Location_leb a b = true <-> pos a <= pos b.
Proof.
  destruct a as [ga oa], b as [gb ob]. unfold Location_leb. loc. intros.
  rewrite orb_true_iff, andb_true_iff, Z.ltb_lt, Z.eqb_eq, Z.leb_le. nia.
Qed.

Lemma Location_ltb_pos a b : loc_ok a -> loc_ok b -> Location_ltb a b = true <-> pos a < pos b.
Proof.
  destruct a as [ga oa], b as [gb ob]. unfold Location_ltb. loc. intros.
  rewrite orb_true_iff, andb_true_iff, !Z.ltb_lt, Z.eqb_eq. nia.
Qed.

Lemma pos_inj a b : loc_ok a -> loc_ok b -> pos a = pos b -> a = b.
Proof. destruct a as [ga oa], b as [gb ob]. loc. intros. f_equal; nia. Qed.

Lemma pos_range l : loc_ok l -> 0 <= pos l < U64 * U64.
Proof. destruct l. loc. nia. Qed.

Lemma Location_next_Some l l' :
  loc_ok l -> Location_next l = Some l' -> loc_ok l' /\ pos l' = pos l + 1.
Proof.
  destruct l as [g o]. unfold Location_next, checked_add. loc. intros ?.
  repeat case_match; intros; simplify_eq; breflect; loc; lia.
Qed.

Lemma Location_next_None l : loc_ok l -> Location_next l = None -> pos l = U64 * U64 - 1.
Proof.
  destruct l as [g o]. unfold Location_next, checked_add. loc. intros ?.
  repeat case_match; intros; simplify_eq; breflect; lia.
Qed.

Lemma Location_prev_Some l l' :
  loc_ok l -> Location_prev l = Some l' -> loc_ok l' /\ pos l' = pos l - 1.
Proof.
  destruct l as [g o]. unfold Location_prev, checked_sub. loc. intros ?.
  repeat case_match; intros; simplify_eq; breflect; loc; lia.
Qed.

Lemma Location_prev_None l : loc_ok l -> Location_prev l = None -> pos l = 0.
Proof.
  destruct l as [g o]. unfold Location_prev, checked_sub. loc. intros ?.
  repeat case_match; intros; simplify_eq; breflect; lia.
Qed.

#[export] Instance Wire_Location : Wire loc_ok Location_serialize Location_deserialize.
Proof.
  split.
  - intros [g o] [Hg Ho]. unfold Location_serialize. simpl in *. ser_step Hg. ser_step Ho.
    eexists. split; [done|]. split; [by apply bytes_ok_app|]. by intros [? _]%app_eq_nil.
  - intros [g o] bs [Hg Ho] E. unfold Location_serialize in E. simpl in *.
    ser_step Hg. ser_step Ho. rewrite Es, Es0 in E. inversion E; subst.
    unfold Location_deserialize. decode.
  - unfold Location_deserialize. eapply robust_bind_l; [apply get_vi_robust|]. intros g Hg.
    eapply robust_weaken; [eapply robust_bind_l; [apply get_vi_robust|]|lia|intros ? X; exact X].
    intros o Ho. by apply robust_ret.
Qed.

(** ** Tuples *)

Definition tuple_ok (t : Tuple) : Prop := Forall data_ok t /\ Z.of_nat (length t) < U64.

#[export] Instance Wire_TupleField : Wire data_ok TupleField_serialize TupleField_deserialize.
Proof. apply Wire_len_bytes. Qed.

Definition field_step (fields : list TupleField) : parser (list TupleField) :=
  let! field := TupleField_deserialize in pret (fields ++ [field]).

Lemma serialize_fields_runs fields : forall acc,
  Forall data_ok fields ->
  exists bss, serialize_fields fields = Ok (concat bss) /\ bytes_ok (concat bss) /\
    length bss = length fields /\ runs field_step acc bss (acc ++ fields).
Proof.
  induction fields as [|f fields IH]; intros acc H.
  - exists []. rewrite app_nil_r. repeat split; constructor.
  - inversion H as [|? ? Hf Hfs]; subst. destruct (IH (acc ++ [f]) Hfs) as (bss&E&Hok&Hl&Hr).
    assert (exists b, TupleField_serialize f = Ok b /\ bytes_ok b /\ b <> [] /\
      decodes TupleField_deserialize b f) as (b&Eb&Hb&Hne&Hd).
    { destruct (wire_ser f Hf) as (b&Eb&?&?). exists b. do 3 (split; [done|]).
      by apply (wire_decodes (Wire := Wire_TupleField)). }
    exists (b :: bss). simpl. rewrite Eb. cbn [obind]. rewrite E. cbn [obind].
    split; [done|]. split; [by apply bytes_ok_app|]. split; [by f_equal|].
    econstructor; [|done|].
    + unfold field_step. eapply decodes_bind_last; [done|apply decodes_ret].
    + replace (acc ++ f :: fields) with ((acc ++ [f]) ++ fields) by by rewrite <- app_assoc.
      exact Hr.
Qed.

#[export] Instance Wire_Tuple : Wire tuple_ok Tuple_serialize Tuple_deserialize.
Proof.
  split.
  - intros t [Hf Hl]. unfold Tuple_serialize.
    assert (is_u64 (Z.of_nat (length t))) as Hn by (split; lia). ser_step Hn.
    destruct (serialize_fields_runs t [] Hf) as (bss&->&Hok'&_). cbn [obind].
    eexists. split; [done|]. split; [by apply bytes_ok_app|]. by intros [? _]%app_eq_nil.
  - intros t bs [Hf Hl] E. unfold Tuple_serialize in E.
    assert (is_u64 (Z.of_nat (length t))) as Hn by (split; lia).
    destruct (serialize_fields_runs t [] Hf) as (bss&E'&_&Hlen&Hr).
    rewrite put_vi_Ok, E' in E by done. cbn [obind] in E. inversion E; subst.
    unfold Tuple_deserialize. eapply decodes_bind; [by auto with wire|].
    eapply decodes_bind_nil; [by auto with wire|].
    eapply for_count_runs; [exact Hr|by rewrite Hlen].
  - unfold Tuple_deserialize. eapply robust_bind_l; [apply get_vi_robust|]. intros n Hn.
    eapply (robust_bind_l 0); [by apply robust_to_usize|]. intros m Hm.
    eapply robust_weaken.
    + apply (for_count_robust_n _ (fun c fs => Forall data_ok fs /\ Z.of_nat (length fs) = m - c)).
      * intros c fs Hc [Hfs Hl]. eapply robust_bind_l; [apply wire_robust|].
        intros f Hfd. apply robust_ret. rewrite length_app. simpl.
        split; [by apply Forall_snoc|lia].
      * unfold is_u64 in Hm. lia.
      * simpl. split; [constructor|lia].
    + lia.
    + intros fs [? Hl]. unfold is_u64 in Hm. split; [done|lia].
Qed.

Lemma starts_with_spec self prefix : starts_with self prefix = true <-> prefix `prefix_of` self.
Proof.
  unfold starts_with. destruct (Nat.ltb_spec (length self) (length prefix)) as [Hlt|Hge].
  - split; [discriminate|]. intros [k ->]. rewrite length_app in Hlt. lia.
  - rewrite forallb_forall. split.
    + intros H. exists (drop (length prefix) self). rewrite <- (take_drop (length prefix) self) at 1.
      f_equal. apply list_eq_same_length with (length prefix); [done|rewrite length_take; lia|].
      intros i x y Hi Hx Hy. rewrite lookup_take_lt in Hx by lia.
      specialize (H i). rewrite bool_decide_eq_true in H.
      rewrite H in Hx; [congruence|apply in_seq; lia].
    + intros [k ->] i Hi. rewrite in_seq in Hi. apply bool_decide_eq_true.
      rewrite lookup_app_l by lia. done.
Qed.

(** ** Strings *)

Lemma decodes_from_utf8 ctx raw : utf8_valid raw = true -> decodes (lift (from_utf8 ctx raw)) [] raw.
Proof. intros H. unfold from_utf8. rewrite H. apply decodes_lift. Qed.
#[export] Hint Resolve decodes_from_utf8 : wire.

Lemma robust_from_utf8 ctx raw :
  robust 0 (lift (from_utf8 ctx raw)) (fun s => s = raw /\ utf8_valid raw = true).
Proof.
  unfold from_utf8. destruct (utf8_valid raw) eqn:E; apply robust_lift; try done.
  by intros a [= <-].
Qed.

(** What [try_new] and [deserialize] build; the field is private. *)
Definition reason_ok (r : ReasonPhrase) : Prop :=
  bytes_ok (phrase r) /\ utf8_valid (phrase r) = true /\ blen (phrase r) <= MAX_REASON_PHRASE_LEN.

Lemma reason_data_ok r : reason_ok r -> data_ok (phrase r).
Proof. intros (?&_&?). unfold MAX_REASON_PHRASE_LEN in *. split; [done|lia]. Qed.

#[export] Instance Wire_ReasonPhrase : Wire reason_ok ReasonPhrase_serialize ReasonPhrase_deserialize.
Proof.
  split.
  - intros r Hr. apply reason_data_ok in Hr. apply (wire_ser (Wire := Wire_len_bytes "" "") _ Hr).
  - intros [p] bs Hr E. pose proof (reason_data_ok _ Hr) as Hd. destruct Hr as (Hb&Hu&Hl).
    unfold ReasonPhrase_serialize in E. simpl in *. rewrite put_vi_Ok in E by auto with wire.
    inversion E; subst. pose proof (blen_u64 _ Hd). unfold ReasonPhrase_deserialize. decode.
    destruct (Z.ltb_spec MAX_REASON_PHRASE_LEN (blen p)); [lia|]. decode.
  - unfold ReasonPhrase_deserialize. eapply robust_bind_l; [apply get_vi_robust|]. intros n Hn.
    eapply (robust_bind_l 0); [by apply robust_to_usize|]. intros m Hm.
    case_if; [apply robust_fail|]. breflect.
    eapply (robust_bind_l 0).
    { eapply robust_weaken; [apply robust_get_bytes|lia|intros ? X; exact X]. }
    intros raw [Hraw Hlen]. eapply (robust_bind_l 0); [apply robust_from_utf8|].
    intros s [-> Hs]. apply robust_ret. unfold reason_ok, MAX_REASON_PHRASE_LEN in *. simpl.
    split; [done|]. split; [done|lia].
Qed.

Definition redirect_ok (r : Redirect) : Prop :=
  match connect_uri r with
  | Some uri => data_ok uri /\ uri <> [] /\ utf8_valid uri = true
  | None => True
  end /\ tuple_ok (redirect_namespace r) /\ data_ok (redirect_name r).

Lemma blen_zero b : blen b = 0 <-> b = [].
Proof. unfold blen. destruct b; simpl; split; intros; (done || lia). Qed.

Lemma redirect_parts_ok r :
  redirect_ok r ->
  exists u n l, Redirect_serialize r = Ok (u ++ n ++ l ++ redirect_name r) /\
    Tuple_serialize (redirect_namespace r) = Ok n /\ l = encode_vi (blen (redirect_name r)) /\
    bytes_ok u /\ bytes_ok n /\ u <> [] /\
    match connect_uri r with
    | Some uri => u = encode_vi (blen uri) ++ uri
    | None => u = encode_vi 0
    end.
Proof.
  destruct r as [uri ns name]. intros (Hu&Hns&Hname). unfold Redirect_serialize. simpl in *.
  destruct (wire_ser ns Hns) as (n&En&Hn&_). rewrite En, (put_vi_Ok (blen name)) by auto with wire.
  assert (is_u64 0) as H0 by (unfold is_u64; lia).
  destruct uri as [uri|].
  - destruct Hu as (Hd&Hne&_). rewrite put_vi_Ok by auto with wire. cbn [obind].
    eexists _, _, _. split; [done|]. do 2 (split; [done|]).
    split; [apply bytes_ok_app; split; [auto with wire|apply Hd]|]. split; [done|].
    split; [|done]. by intros [_ ?]%app_eq_nil.
  - rewrite put_vi_Ok by done. cbn [obind]. eexists _, _, _. do 3 (split; [done|]).
    split; [auto with wire|]. split; [done|]. split; [by apply encode_vi_nonempty|done].
Qed.

#[export] Instance Wire_Redirect : Wire redirect_ok Redirect_serialize Redirect_deserialize.
Proof.
  split.
  - intros r Hr. destruct (redirect_parts_ok r Hr) as (u&n&l&->&_&->&Hu&Hn&Hne&_).
    destruct Hr as (_&_&Hname). eexists. split; [done|]. split.
    + rewrite !bytes_ok_app. split; [done|]. split; [done|]. split; [auto with wire|apply Hname].
    + by intros [? _]%app_eq_nil.
  - intros r bs Hr E. destruct (redirect_parts_ok r Hr) as (u&n&l&E'&En&->&_&_&_&Hu).
    rewrite E in E'. inversion E'; subst. destruct r as [uri ns name].
    destruct Hr as (Huri&Hns&Hname). simpl in *. unfold Redirect_deserialize.
    assert (decodes Tuple_deserialize n ns) as Hdn by (apply (wire_decodes (Wire := Wire_Tuple)); done).
    assert (decodes (get_len_bytes "Redirect::deserialize(name_len)" "Redirect::deserialize(track_name)")
      (encode_vi (blen name) ++ name) name) as Hdname by by apply decodes_len_bytes.
    destruct uri as [uri|]; subst u.
    + destruct Huri as (Hd&Hne&Hutf). pose proof (blen_u64 _ Hd). rewrite <- app_assoc.
      eapply decodes_bind; [by auto with wire|]. eapply decodes_bind_nil; [by auto with wire|].
      destruct (Z.eqb_spec (blen uri) 0) as [Hz|]; [by apply blen_zero in Hz|].
      eapply decodes_bind; [decode|]. eapply decodes_bind; [done|].
      eapply decodes_bind_last; [done|apply decodes_ret].
    + assert (is_u64 0) by (unfold is_u64; lia).
      eapply decodes_bind; [by auto with wire|]. eapply decodes_bind_nil; [by auto with wire|].
      eapply decodes_bind_nil; [apply decodes_ret|]. eapply decodes_bind; [done|].
      eapply decodes_bind_last; [done|apply decodes_ret].
  - unfold Redirect_deserialize. eapply robust_bind_l; [apply get_vi_robust|]. intros n Hn.
    eapply (robust_bind_l 0); [by apply robust_to_usize|]. intros m Hm.
    eapply (robust_bind_l 0 _ _ (fun o => match o with
      Some uri => data_ok uri /\ uri <> [] /\ utf8_valid uri = true | None => True end)).
    + destruct (Z.eqb_spec m 0); [by apply robust_ret|].
      eapply robust_bind_l; [eapply robust_weaken; [apply robust_get_bytes|lia|intros ? X; exact X]|].
      intros raw [Hraw Hlen]. eapply robust_bind_l; [apply robust_from_utf8|].
      intros s [-> Hs]. apply robust_ret. unfold is_u64 in *. split; [split; [done|lia]|].
      split; [|done]. intros ->. unfold blen in Hlen. simpl in Hlen. lia.
    + intros uri Huri. eapply robust_bind_l; [eapply robust_weaken; [apply wire_robust|lia|intros ? X; exact X]|].
      intros ns Hns. eapply robust_bind_l; [eapply robust_weaken; [apply (wire_robust (Wire := Wire_len_bytes _ _))|lia|intros ? X; exact X]|].
      intros name Hname. apply robust_ret. unfold redirect_ok. simpl. auto.
Qed.

(** ** Properties *)

(** [next] and [prev] step through the Locations in their order: [next] is
    the least Location above, [prev] the greatest below, each undoes the other,
    and they are absent exactly at the last and at the first Location. *)
Theorem Location_next_prev l :
  loc_ok l ->
  match Location_next l with
  | Some l' => loc_ok l' /\ Location_ltb l l' = true /\ Location_prev l' = Some l /\
      forall m, loc_ok m -> Location_ltb l m = true -> Location_leb l' m = true
  | None => forall m, loc_ok m -> Location_leb m l = true
  end /\
  match Location_prev l with
  | Some l' => loc_ok l' /\ Location_ltb l' l = true /\ Location_next l' = Some l /\
      forall m, loc_ok m -> Location_ltb m l = true -> Location_leb m l' = true
  | None => forall m, loc_ok m -> Location_leb l m = true
  end.
Proof.
  intros Hl. split.
  - destruct (Location_next l) as [l'|] eqn:E.
    + destruct (Location_next_Some l l' Hl E) as [Hl' Hp].
      split; [done|]. split; [apply Location_ltb_pos; auto; lia|]. split.
      * destruct (Location_prev l') as [l2|] eqn:E2.
        -- destruct (Location_prev_Some l' l2 Hl' E2). f_equal. apply pos_inj; auto; lia.
        -- apply Location_prev_None in E2; [|done]. pose proof (pos_range l Hl). lia.
      * intros m Hm. rewrite Location_ltb_pos, Location_leb_pos by done. lia.
    + intros m Hm. apply Location_leb_pos; auto. pose proof (pos_range m Hm).
      apply Location_next_None in E; [|done]. lia.
  - destruct (Location_prev l) as [l'|] eqn:E.
    + destruct (Location_prev_Some l l' Hl E) as [Hl' Hp].
      split; [done|]. split; [apply Location_ltb_pos; auto; lia|]. split.
      * destruct (Location_next l') as [l2|] eqn:E2.
        -- destruct (Location_next_Some l' l2 Hl' E2). f_equal. apply pos_inj; auto; lia.
        -- apply Location_next_None in E2; [|done]. pose proof (pos_range l Hl). lia.
      * intros m Hm. rewrite Location_ltb_pos, Location_leb_pos by done. lia.
    + intros m Hm. apply Location_leb_pos; auto. pose proof (pos_range m Hm).
      apply Location_prev_None in E; [|done]. lia.
Qed.

(** The end of a group: the next Location is the first of the next group. *)
Lemma Location_next_prev_witness :
  loc_ok (mkLocation 1 U64_MAX) /\
  Location_next (mkLocation 1 U64_MAX) = Some (mkLocation 2 0) /\
  match Location_next (mkLocation 1 U64_MAX) with
  | Some l' => loc_ok l' /\ Location_ltb (mkLocation 1 U64_MAX) l' = true /\
      Location_prev l' = Some (mkLocation 1 U64_MAX) /\
      forall m, loc_ok m -> Location_ltb (mkLocation 1 U64_MAX) m = true -> Location_leb l' m = true
  | None => forall m, loc_ok m -> Location_leb m (mkLocation 1 U64_MAX) = true
  end.
Proof.
  assert (loc_ok (mkLocation 1 U64_MAX)) as H by (unfold loc_ok, is_u64; simpl; lia).
  split; [exact H|]. split; [reflexivity|].
  exact (proj1 (Location_next_prev (mkLocation 1 U64_MAX) H)).
Defined.

(** The prefix test on namespaces is by whole fields, and [suffix] takes a
    prefix off: it gives the fields that remain when the namespace starts with
    the prefix, and nothing otherwise. *)
Theorem Tuple_suffix_correct (self prefix : Tuple) :
  (starts_with self prefix = true <-> exists rest, self = prefix ++ rest) /\
  (forall rest, Tuple_suffix self prefix = Some rest <-> self = prefix ++ rest).
Proof.
  split.
  - rewrite starts_with_spec. split; intros [k ->]; by exists k.
  - intros rest. unfold Tuple_suffix. destruct (starts_with self prefix) eqn:E; simpl.
    + apply starts_with_spec in E as [k ->]. rewrite drop_app_length. split.
      * by intros [= ->].
      * intros ?%app_inv_head. by subst.
    + split; [discriminate|]. intros ->.
      assert (starts_with (prefix ++ rest) prefix = true) by (apply starts_with_spec; by exists rest).
      congruence.
Qed.

(** The GREASE values are exactly those of the form [0x7f * n + 0x9d]. *)
Lemma is_grease_spec v : is_u64 v -> is_grease v = true <-> exists n, is_u64 n /\ grease_value n = Some v.
Proof.
  unfold is_grease, grease_value, checked_mul, checked_add, GREASE_BASE, GREASE_STEP, is_u64.
  intros Hv. rewrite andb_true_iff, Z.leb_le, Z.eqb_eq. split.
  - intros [Hge Hm]. apply Z.mod_divide in Hm as [n Hn]; [|lia]. exists n. split; [lia|].
    destruct (Z.ltb_spec (127 * n) U64); [|lia].
    destruct (Z.ltb_spec (127 * n + 157) U64); [f_equal; lia|lia].
  - intros (n&Hn&E). repeat case_match; simplify_eq. split; [lia|].
    replace (127 * n + 157 - 157) with (n * 127) by lia. by apply Z.mod_mul.
Qed.
