(* ===== verification/Codes.v ===== *)
(** The code registries of the protocol: the enumerations of
    [libs/moqtail-rs/src/model/{error,control,parameter,property,data}] that
    stand for numbers on the wire.

    Each is given twice in the source, as the discriminants of the enum (what
    [as u64] writes) and as the arms of [TryFrom] (what is accepted), and here
    too: [X_to_u64] and [X_try_from].  [registry_exact] is the statement that
    the two agree. *)
From S2P Require Import Prelude.

(** A [match value { k1 => Ok(c1), ..., _ => Err(InvalidType) }]. *)
Fixpoint try_from_table {C} (context : string) (table : list (Z * C)) (value : Z) : result C :=
  match table with
  | [] => Err (InvalidType context)
  | (k, c) :: table => if value =? k then Ok c else try_from_table context table value
  end.

(** * [error/request_error.rs] *)

Inductive RequestErrorCode : Type :=
| REC_InternalError
| REC_Unauthorized
| REC_Timeout
| REC_NotSupported
| REC_MalformedAuthToken
| REC_ExpiredAuthToken
| REC_GoingAway
| REC_ExcessiveLoad
| REC_DoesNotExist
| REC_InvalidRange
| REC_MalformedTrack
| REC_Uninterested
| REC_PrefixOverlap
| REC_NamespaceTooLarge
| REC_InvalidSwitch
| REC_UnsupportedExtension
| REC_Redirect
| REC_ConflictingFilters
| REC_InvalidFilter.

#[export] Instance RequestErrorCode_eq_dec : EqDecision RequestErrorCode.
Proof. solve_decision. Defined.

Definition RequestErrorCode_to_u64 (self : RequestErrorCode) : Z :=
  match self with
  | REC_InternalError => 0x0
  | REC_Unauthorized => 0x1
  | REC_Timeout => 0x2
  | REC_NotSupported => 0x3
  | REC_MalformedAuthToken => 0x4
  | REC_ExpiredAuthToken => 0x5
  | REC_GoingAway => 0x6
  | REC_ExcessiveLoad => 0x9
  | REC_DoesNotExist => 0x10
  | REC_InvalidRange => 0x11
  | REC_MalformedTrack => 0x12
  | REC_Uninterested => 0x20
  | REC_PrefixOverlap => 0x30
  | REC_NamespaceTooLarge => 0x31
  | REC_InvalidSwitch => 0x32
  | REC_UnsupportedExtension => 0x33
  | REC_Redirect => 0x34
  | REC_ConflictingFilters => 0x35
  | REC_InvalidFilter => 0x36
  end.

Definition RequestErrorCode_try_from (value : Z) : result RequestErrorCode :=
  try_from_table "RequestErrorCode::try_from(u64)"
    [(0x0, REC_InternalError);
     (0x1, REC_Unauthorized);
     (0x2, REC_Timeout);
     (0x3, REC_NotSupported);
     (0x4, REC_MalformedAuthToken);
     (0x5, REC_ExpiredAuthToken);
     (0x6, REC_GoingAway);
     (0x9, REC_ExcessiveLoad);
     (0x10, REC_DoesNotExist);
     (0x11, REC_InvalidRange);
     (0x12, REC_MalformedTrack);
     (0x20, REC_Uninterested);
     (0x30, REC_PrefixOverlap);
     (0x31, REC_NamespaceTooLarge);
     (0x32, REC_InvalidSwitch);
     (0x33, REC_UnsupportedExtension);
     (0x34, REC_Redirect);
     (0x35, REC_ConflictingFilters);
     (0x36, REC_InvalidFilter)]
    value.

Definition RequestErrorCode_from_wire (value : Z) : RequestErrorCode :=
  match RequestErrorCode_try_from value with Ok c => c | _ => REC_InternalError end.

(** * [error/stream_reset.rs] *)

Inductive StreamResetCode : Type :=
| SRC_InternalError
| SRC_Cancelled
| SRC_DeliveryTimeout
| SRC_SessionClosed
| SRC_GoingAway
| SRC_TooFarBehind
| SRC_UnknownObjectStatus
| SRC_ExpiredAuthToken
| SRC_ExcessiveLoad
| SRC_MalformedTrack.

#[export] Instance StreamResetCode_eq_dec : EqDecision StreamResetCode.
Proof. solve_decision. Defined.

Definition StreamResetCode_to_u64 (self : StreamResetCode) : Z :=
  match self with
  | SRC_InternalError => 0x0
  | SRC_Cancelled => 0x1
  | SRC_DeliveryTimeout => 0x2
  | SRC_SessionClosed => 0x3
  | SRC_GoingAway => 0x4
  | SRC_TooFarBehind => 0x5
  | SRC_UnknownObjectStatus => 0x6
  | SRC_ExpiredAuthToken => 0x7
  | SRC_ExcessiveLoad => 0x9
  | SRC_MalformedTrack => 0x12
  end.

Definition StreamResetCode_try_from (value : Z) : result StreamResetCode :=
  try_from_table "StreamResetCode::try_from(u64)"
    [(0x0, SRC_InternalError);
     (0x1, SRC_Cancelled);
     (0x2, SRC_DeliveryTimeout);
     (0x3, SRC_SessionClosed);
     (0x4, SRC_GoingAway);
     (0x5, SRC_TooFarBehind);
     (0x6, SRC_UnknownObjectStatus);
     (0x7, SRC_ExpiredAuthToken);
     (0x9, SRC_ExcessiveLoad);
     (0x12, SRC_MalformedTrack)]
    value.

(** * [error/termination.rs] *)

Inductive TerminationCode : Type :=
| TC_NoError
| TC_InternalError
| TC_Unauthorized
| TC_ProtocolViolation
| TC_InvalidRequestID
| TC_DuplicateTrackAlias
| TC_KeyValueFormattingError
| TC_InvalidPath
| TC_MalformedPath
| TC_GoawayTimeout
| TC_ControlMessageTimeout
| TC_DataStreamTimeout
| TC_AuthTokenCacheOverflow
| TC_DuplicateAuthTokenAlias
| TC_VersionNegotiationFailed
| TC_MalformedAuthToken
| TC_UnknownAuthTokenAlias
| TC_ExpiredAuthToken
| TC_InvalidAuthority
| TC_MalformedAuthority
| TC_TooManyRequestUpdates.

#[export] Instance TerminationCode_eq_dec : EqDecision TerminationCode.
Proof. solve_decision. Defined.

Definition TerminationCode_to_u32 (self : TerminationCode) : Z :=
  match self with
  | TC_NoError => 0x0
  | TC_InternalError => 0x1
  | TC_Unauthorized => 0x2
  | TC_ProtocolViolation => 0x3
  | TC_InvalidRequestID => 0x4
  | TC_DuplicateTrackAlias => 0x5
  | TC_KeyValueFormattingError => 0x6
  | TC_InvalidPath => 0x8
  | TC_MalformedPath => 0x9
  | TC_GoawayTimeout => 0x10
  | TC_ControlMessageTimeout => 0x11
  | TC_DataStreamTimeout => 0x12
  | TC_AuthTokenCacheOverflow => 0x13
  | TC_DuplicateAuthTokenAlias => 0x14
  | TC_VersionNegotiationFailed => 0x15
  | TC_MalformedAuthToken => 0x16
  | TC_UnknownAuthTokenAlias => 0x17
  | TC_ExpiredAuthToken => 0x18
  | TC_InvalidAuthority => 0x19
  | TC_MalformedAuthority => 0x1A
  | TC_TooManyRequestUpdates => 0x1B
  end.

(** * [control/constant.rs] *)

Inductive ControlMessageType : Type :=
| CMT_Setup
| CMT_GoAway
| CMT_Subscribe
| CMT_SubscribeOk
| CMT_RequestError
| CMT_RequestUpdate
| CMT_Fetch
| CMT_FetchOk
| CMT_TrackStatus
| CMT_PublishNamespace
| CMT_RequestOk
| CMT_Namespace
| CMT_NamespaceDone
| CMT_SubscribeNamespace
| CMT_SubscribeTracks
| CMT_Publish
| CMT_PublishDone
| CMT_PublishOk
| CMT_PublishSkipped.

#[export] Instance ControlMessageType_eq_dec : EqDecision ControlMessageType.
Proof. solve_decision. Defined.

Definition ControlMessageType_to_u64 (self : ControlMessageType) : Z :=
  match self with
  | CMT_Setup => 0x2F00
  | CMT_GoAway => 0x10
  | CMT_Subscribe => 0x03
  | CMT_SubscribeOk => 0x04
  | CMT_RequestError => 0x05
  | CMT_RequestUpdate => 0x02
  | CMT_Fetch => 0x16
  | CMT_FetchOk => 0x18
  | CMT_TrackStatus => 0x0D
  | CMT_PublishNamespace => 0x06
  | CMT_RequestOk => 0x07
  | CMT_Namespace => 0x08
  | CMT_NamespaceDone => 0x0E
  | CMT_SubscribeNamespace => 0x50
  | CMT_SubscribeTracks => 0x51
  | CMT_Publish => 0x1D
  | CMT_PublishDone => 0x0B
  | CMT_PublishOk => 0x1E
  | CMT_PublishSkipped => 0x0F
  end.

Definition ControlMessageType_try_from (value : Z) : result ControlMessageType :=
  try_from_table " ControlMessageType::try_from(u64)"
    [(0x2F00, CMT_Setup);
     (0x10, CMT_GoAway);
     (0x03, CMT_Subscribe);
     (0x04, CMT_SubscribeOk);
     (0x05, CMT_RequestError);
     (0x02, CMT_RequestUpdate);
     (0x0B, CMT_PublishDone);
     (0x16, CMT_Fetch);
     (0x18, CMT_FetchOk);
     (0x0D, CMT_TrackStatus);
     (0x06, CMT_PublishNamespace);
     (0x07, CMT_RequestOk);
     (0x08, CMT_Namespace);
     (0x0E, CMT_NamespaceDone);
     (0x50, CMT_SubscribeNamespace);
     (0x51, CMT_SubscribeTracks);
     (0x1D, CMT_Publish);
     (0x1E, CMT_PublishOk);
     (0x0F, CMT_PublishSkipped)]
    value.

Inductive LocationFilterType : Type :=
| LFT_None
| LFT_RelativeStart
| LFT_AbsoluteStart
| LFT_AbsoluteStartGroupEnd
| LFT_AbsoluteRange
| LFT_NextObject.

#[export] Instance LocationFilterType_eq_dec : EqDecision LocationFilterType.
Proof. solve_decision. Defined.

Definition LocationFilterType_to_u64 (self : LocationFilterType) : Z :=
  match self with
  | LFT_None => 0x0
  | LFT_RelativeStart => 0x1
  | LFT_AbsoluteStart => 0x2
  | LFT_AbsoluteStartGroupEnd => 0x3
  | LFT_AbsoluteRange => 0x4
  | LFT_NextObject => 0x5
  end.

Definition LocationFilterType_try_from (value : Z) : result LocationFilterType :=
  try_from_table "LocationFilterType::try_from(u64)"
    [(0x0, LFT_None);
     (0x1, LFT_RelativeStart);
     (0x2, LFT_AbsoluteStart);
     (0x3, LFT_AbsoluteStartGroupEnd);
     (0x4, LFT_AbsoluteRange);
     (0x5, LFT_NextObject)]
    value.

Inductive SwitchMode : Type :=
| SM_Hard
| SM_Soft.

#[export] Instance SwitchMode_eq_dec : EqDecision SwitchMode.
Proof. solve_decision. Defined.

Definition SwitchMode_to_u64 (self : SwitchMode) : Z :=
  match self with
  | SM_Hard => 0x0
  | SM_Soft => 0x1
  end.

Definition SwitchMode_try_from (value : Z) : result SwitchMode :=
  try_from_table "SwitchMode::try_from(u64)"
    [(0x0, SM_Hard);
     (0x1, SM_Soft)]
    value.

Inductive GroupOrder : Type :=
| GO_Original
| GO_Ascending
| GO_Descending.

#[export] Instance GroupOrder_eq_dec : EqDecision GroupOrder.
Proof. solve_decision. Defined.

Definition GroupOrder_to_u8 (self : GroupOrder) : Z :=
  match self with
  | GO_Original => 0x0
  | GO_Ascending => 0x1
  | GO_Descending => 0x2
  end.

Definition GroupOrder_try_from (value : Z) : result GroupOrder :=
  try_from_table "GroupOrder::try_from(u8)"
    [(0x0, GO_Original);
     (0x1, GO_Ascending);
     (0x2, GO_Descending)]
    value.

Inductive TrackStatusCode : Type :=
| TSC_InProgress
| TSC_DoesNotExist
| TSC_NotYetBegun
| TSC_Finished
| TSC_RelayUnavailable.

#[export] Instance TrackStatusCode_eq_dec : EqDecision TrackStatusCode.
Proof. solve_decision. Defined.

Definition TrackStatusCode_to_u64 (self : TrackStatusCode) : Z :=
  match self with
  | TSC_InProgress => 0x00
  | TSC_DoesNotExist => 0x01
  | TSC_NotYetBegun => 0x02
  | TSC_Finished => 0x03
  | TSC_RelayUnavailable => 0x04
  end.

Definition TrackStatusCode_try_from (value : Z) : result TrackStatusCode :=
  try_from_table "TrackStatusCode::try_from(u64)"
    [(0x00, TSC_InProgress);
     (0x01, TSC_DoesNotExist);
     (0x02, TSC_NotYetBegun);
     (0x03, TSC_Finished);
     (0x04, TSC_RelayUnavailable)]
    value.

Inductive PublishDoneStatusCode : Type :=
| PDS_InternalError
| PDS_Unauthorized
| PDS_TrackEnded
| PDS_GoingAway
| PDS_TooFarBehind
| PDS_Expired
| PDS_UpdateFailed
| PDS_ExcessiveLoad
| PDS_MalformedTrack.

#[export] Instance PublishDoneStatusCode_eq_dec : EqDecision PublishDoneStatusCode.
Proof. solve_decision. Defined.

Definition PublishDoneStatusCode_to_u64 (self : PublishDoneStatusCode) : Z :=
  match self with
  | PDS_InternalError => 0x0
  | PDS_Unauthorized => 0x1
  | PDS_TrackEnded => 0x2
  | PDS_GoingAway => 0x4
  | PDS_TooFarBehind => 0x5
  | PDS_Expired => 0x6
  | PDS_UpdateFailed => 0x8
  | PDS_ExcessiveLoad => 0x9
  | PDS_MalformedTrack => 0x12
  end.

Definition PublishDoneStatusCode_try_from (value : Z) : result PublishDoneStatusCode :=
  try_from_table "PublishDoneStatusCode::try_from(u64)"
    [(0x0, PDS_InternalError);
     (0x1, PDS_Unauthorized);
     (0x2, PDS_TrackEnded);
     (0x4, PDS_GoingAway);
     (0x5, PDS_TooFarBehind);
     (0x6, PDS_Expired);
     (0x8, PDS_UpdateFailed);
     (0x9, PDS_ExcessiveLoad);
     (0x12, PDS_MalformedTrack)]
    value.

Definition PublishDoneStatusCode_from_wire (value : Z) : PublishDoneStatusCode :=
  match PublishDoneStatusCode_try_from value with Ok c => c | _ => PDS_InternalError end.

(** * [parameter/constant.rs] *)

Inductive SetupOptionType : Type :=
| SOT_Path
| SOT_AuthorizationToken
| SOT_MaxAuthTokenCacheSize
| SOT_Authority
| SOT_MaxFilterRanges
| SOT_MoqtImplementation
| SOT_MaxRequestUpdates
| SOT_SstsAlgorithms.

#[export] Instance SetupOptionType_eq_dec : EqDecision SetupOptionType.
Proof. solve_decision. Defined.

Definition SetupOptionType_to_u64 (self : SetupOptionType) : Z :=
  match self with
  | SOT_Path => 0x01
  | SOT_AuthorizationToken => 0x03
  | SOT_MaxAuthTokenCacheSize => 0x04
  | SOT_Authority => 0x05
  | SOT_MaxFilterRanges => 0x06
  | SOT_MoqtImplementation => 0x07
  | SOT_MaxRequestUpdates => 0x08
  | SOT_SstsAlgorithms => 0x09
  end.

Definition SetupOptionType_try_from (value : Z) : result SetupOptionType :=
  try_from_table "SetupOptionType::try_from(u64)"
    [(0x01, SOT_Path);
     (0x03, SOT_AuthorizationToken);
     (0x04, SOT_MaxAuthTokenCacheSize);
     (0x05, SOT_Authority);
     (0x06, SOT_MaxFilterRanges);
     (0x07, SOT_MoqtImplementation);
     (0x08, SOT_MaxRequestUpdates);
     (0x09, SOT_SstsAlgorithms)]
    value.

Inductive MessageParameterType : Type :=
| MPT_ObjectDeliveryTimeout
| MPT_AuthorizationToken
| MPT_RendezvousTimeout
| MPT_SubgroupDeliveryTimeout
| MPT_Expires
| MPT_LargestObject
| MPT_FillTimeout
| MPT_Forward
| MPT_SubscriberPriority
| MPT_LocationFilter
| MPT_GroupOrder
| MPT_FillParameters
| MPT_SwitchFrom
| MPT_SubgroupFilter
| MPT_ObjectIdFilter
| MPT_PriorityFilter
| MPT_ObjectPropertyFilter
| MPT_TrackPropertyFilter
| MPT_NewGroupRequest
| MPT_TrackNamespacePrefix
| MPT_IncludeProperties
| MPT_SwitchingSetAssignment.

#[export] Instance MessageParameterType_eq_dec : EqDecision MessageParameterType.
Proof. solve_decision. Defined.

Definition MessageParameterType_to_u64 (self : MessageParameterType) : Z :=
  match self with
  | MPT_ObjectDeliveryTimeout => 0x02
  | MPT_AuthorizationToken => 0x03
  | MPT_RendezvousTimeout => 0x04
  | MPT_SubgroupDeliveryTimeout => 0x06
  | MPT_Expires => 0x08
  | MPT_LargestObject => 0x09
  | MPT_FillTimeout => 0x0A
  | MPT_Forward => 0x10
  | MPT_SubscriberPriority => 0x20
  | MPT_LocationFilter => 0x21
  | MPT_GroupOrder => 0x22
  | MPT_FillParameters => 0x23
  | MPT_SwitchFrom => 0x24
  | MPT_SubgroupFilter => 0x25
  | MPT_ObjectIdFilter => 0x26
  | MPT_PriorityFilter => 0x27
  | MPT_ObjectPropertyFilter => 0x28
  | MPT_TrackPropertyFilter => 0x29
  | MPT_NewGroupRequest => 0x32
  | MPT_TrackNamespacePrefix => 0x34
  | MPT_IncludeProperties => 0x35
  | MPT_SwitchingSetAssignment => 0x41
  end.

Definition MessageParameterType_try_from (value : Z) : result MessageParameterType :=
  try_from_table "MessageParameterType::try_from(u64)"
    [(0x02, MPT_ObjectDeliveryTimeout);
     (0x03, MPT_AuthorizationToken);
     (0x04, MPT_RendezvousTimeout);
     (0x06, MPT_SubgroupDeliveryTimeout);
     (0x08, MPT_Expires);
     (0x09, MPT_LargestObject);
     (0x0A, MPT_FillTimeout);
     (0x10, MPT_Forward);
     (0x20, MPT_SubscriberPriority);
     (0x21, MPT_LocationFilter);
     (0x22, MPT_GroupOrder);
     (0x23, MPT_FillParameters);
     (0x24, MPT_SwitchFrom);
     (0x25, MPT_SubgroupFilter);
     (0x26, MPT_ObjectIdFilter);
     (0x27, MPT_PriorityFilter);
     (0x28, MPT_ObjectPropertyFilter);
     (0x29, MPT_TrackPropertyFilter);
     (0x32, MPT_NewGroupRequest);
     (0x34, MPT_TrackNamespacePrefix);
     (0x35, MPT_IncludeProperties);
     (0x41, MPT_SwitchingSetAssignment)]
    value.

Inductive TokenAliasType : Type :=
| TAT_Delete
| TAT_Register
| TAT_UseAlias
| TAT_UseValue.

#[export] Instance TokenAliasType_eq_dec : EqDecision TokenAliasType.
Proof. solve_decision. Defined.

Definition TokenAliasType_to_u64 (self : TokenAliasType) : Z :=
  match self with
  | TAT_Delete => 0x0
  | TAT_Register => 0x1
  | TAT_UseAlias => 0x2
  | TAT_UseValue => 0x3
  end.

Definition TokenAliasType_try_from (value : Z) : result TokenAliasType :=
  try_from_table "TokenAliasType::try_from(u64)"
    [(0x0, TAT_Delete);
     (0x1, TAT_Register);
     (0x2, TAT_UseAlias);
     (0x3, TAT_UseValue)]
    value.

(** * [property/constant.rs] *)

Inductive LOCPropertyId : Type :=
| LOC_Timescale
| LOC_VideoFrameMarking
| LOC_AudioLevel
| LOC_VideoConfig
| LOC_AudioConfig
| LOC_Timestamp.

#[export] Instance LOCPropertyId_eq_dec : EqDecision LOCPropertyId.
Proof. solve_decision. Defined.

Definition LOCPropertyId_to_u64 (self : LOCPropertyId) : Z :=
  match self with
  | LOC_Timescale => 0x08
  | LOC_VideoFrameMarking => 0x09
  | LOC_AudioLevel => 0x0C
  | LOC_VideoConfig => 0x0D
  | LOC_AudioConfig => 0x0F
  | LOC_Timestamp => 0x10
  end.

Definition LOCPropertyId_try_from (value : Z) : result LOCPropertyId :=
  try_from_table "LOCPropertyId::try_from(u64)"
    [(0x08, LOC_Timescale);
     (0x09, LOC_VideoFrameMarking);
     (0x0C, LOC_AudioLevel);
     (0x0D, LOC_VideoConfig);
     (0x0F, LOC_AudioConfig);
     (0x10, LOC_Timestamp)]
    value.

Inductive TrackPropertyType : Type :=
| TPT_ObjectDeliveryTimeout
| TPT_MaxCacheDuration
| TPT_SubgroupDeliveryTimeout
| TPT_ImmutableProperties
| TPT_DefaultPublisherPriority
| TPT_DefaultPublisherGroupOrder
| TPT_DynamicGroups
| TPT_PriorGroupIdGap
| TPT_PriorObjectIdGap.

#[export] Instance TrackPropertyType_eq_dec : EqDecision TrackPropertyType.
Proof. solve_decision. Defined.

Definition TrackPropertyType_to_u64 (self : TrackPropertyType) : Z :=
  match self with
  | TPT_ObjectDeliveryTimeout => 0x02
  | TPT_MaxCacheDuration => 0x04
  | TPT_SubgroupDeliveryTimeout => 0x06
  | TPT_ImmutableProperties => 0x0B
  | TPT_DefaultPublisherPriority => 0x0E
  | TPT_DefaultPublisherGroupOrder => 0x22
  | TPT_DynamicGroups => 0x30
  | TPT_PriorGroupIdGap => 0x3C
  | TPT_PriorObjectIdGap => 0x3E
  end.

Definition TrackPropertyType_try_from (value : Z) : result TrackPropertyType :=
  try_from_table "TrackPropertyType::try_from(u64)"
    [(0x02, TPT_ObjectDeliveryTimeout);
     (0x04, TPT_MaxCacheDuration);
     (0x06, TPT_SubgroupDeliveryTimeout);
     (0x0B, TPT_ImmutableProperties);
     (0x0E, TPT_DefaultPublisherPriority);
     (0x22, TPT_DefaultPublisherGroupOrder);
     (0x30, TPT_DynamicGroups);
     (0x3C, TPT_PriorGroupIdGap);
     (0x3E, TPT_PriorObjectIdGap)]
    value.

(** * [data/constant.rs] *)

Inductive ObjectStatus : Type :=
| OS_Normal
| OS_EndOfGroup
| OS_EndOfTrack.

#[export] Instance ObjectStatus_eq_dec : EqDecision ObjectStatus.
Proof. solve_decision. Defined.

Definition ObjectStatus_to_u64 (self : ObjectStatus) : Z :=
  match self with
  | OS_Normal => 0x0
  | OS_EndOfGroup => 0x3
  | OS_EndOfTrack => 0x4
  end.

Definition ObjectStatus_try_from (value : Z) : result ObjectStatus :=
  try_from_table "ObjectStatus::try_from(u8)"
    [(0x0, OS_Normal);
     (0x3, OS_EndOfGroup);
     (0x4, OS_EndOfTrack)]
    value.

(** * Other constants *)

Definition is_first (self : ControlMessageType) : bool :=
  match self with
  | CMT_Subscribe | CMT_Fetch | CMT_TrackStatus | CMT_PublishNamespace
  | CMT_SubscribeNamespace | CMT_SubscribeTracks | CMT_Publish => true
  | _ => false
  end.

Inductive ObjectForwardingPreference : Type :=
| OFP_Subgroup
| OFP_Datagram.

#[export] Instance ObjectForwardingPreference_eq_dec : EqDecision ObjectForwardingPreference.
Proof. solve_decision. Defined.

(** [property_ranges]: types no registration is permitted for. *)
Definition is_application_specific (type_value : Z) : bool :=
  ((0x78 <=? type_value) && (type_value <=? 0x7f)) ||
  ((0x3800 <=? type_value) && (type_value <=? 0x3fff)).

(** * The two readings of a registry agree *)

(** Every code is accepted back as itself, and only its own number gives it. *)
Definition registry_exact {C} (to : C -> Z) (from : Z -> result C) : Prop :=
  (forall c, from (to c) = Ok c) /\ (forall v c, from v = Ok c -> v = to c).

Lemma try_from_table_In {C} ctx (table : list (Z * C)) v c :
  try_from_table ctx table v = Ok c -> In (v, c) table.
Proof.
  induction table as [|[k c'] table IH]; simpl; [discriminate|].
  destruct (Z.eqb_spec v k) as [->|]; [|auto]. intros [= ->]. auto.
Qed.

Lemma try_from_table_returns {C} ctx (table : list (Z * C)) v :
  returns (try_from_table ctx table v).
Proof. induction table as [|[k c'] table IH]; simpl; [done|]. by case_if. Qed.

Lemma registry_exact_table {C} (to : C -> Z) ctx (table : list (Z * C)) :
  (forall c, try_from_table ctx table (to c) = Ok c) ->
  forallb (fun p => fst p =? to (snd p)) table = true ->
  registry_exact to (try_from_table ctx table).
Proof.
  intros H1 H2. split; [done|]. intros v c H%try_from_table_In.
  rewrite forallb_forall in H2. specialize (H2 _ H). simpl in H2. lia.
Qed.

Ltac registry := apply registry_exact_table; [intros []; reflexivity|reflexivity].

Lemma ControlMessageType_exact :
  registry_exact ControlMessageType_to_u64 ControlMessageType_try_from.
Proof. registry. Qed.
Lemma LocationFilterType_exact :
  registry_exact LocationFilterType_to_u64 LocationFilterType_try_from.
Proof. registry. Qed.
Lemma SwitchMode_exact : registry_exact SwitchMode_to_u64 SwitchMode_try_from.
Proof. registry. Qed.
Lemma GroupOrder_exact : registry_exact GroupOrder_to_u8 GroupOrder_try_from.
Proof. registry. Qed.
Lemma MessageParameterType_exact :
  registry_exact MessageParameterType_to_u64 MessageParameterType_try_from.
Proof. registry. Qed.
Lemma TokenAliasType_exact : registry_exact TokenAliasType_to_u64 TokenAliasType_try_from.
Proof. registry. Qed.
Lemma TrackPropertyType_exact :
  registry_exact TrackPropertyType_to_u64 TrackPropertyType_try_from.
Proof. registry. Qed.
Lemma ObjectStatus_exact : registry_exact ObjectStatus_to_u64 ObjectStatus_try_from.
Proof. registry. Qed.
Lemma SetupOptionType_exact : registry_exact SetupOptionType_to_u64 SetupOptionType_try_from.
Proof. registry. Qed.
Lemma PublishDoneStatusCode_exact :
  registry_exact PublishDoneStatusCode_to_u64 PublishDoneStatusCode_try_from.
Proof. registry. Qed.
Lemma RequestErrorCode_exact : registry_exact RequestErrorCode_to_u64 RequestErrorCode_try_from.
Proof. registry. Qed.

(** A number is the number of one code, or of none and refused. *)
Lemma registry_cases {C} (to : C -> Z) ctx (table : list (Z * C)) :
  registry_exact to (try_from_table ctx table) ->
  forall v, (exists c, try_from_table ctx table v = Ok c /\ v = to c) \/
    ((exists e, try_from_table ctx table v = Err e) /\ forall c, v <> to c).
Proof.
  intros [H1 H2] v. pose proof (try_from_table_returns ctx table v) as R.
  destruct (try_from_table ctx table v) as [c|e| |] eqn:E; try done.
  - left. exists c. split; [done|]. by apply H2.
  - right. split; [eauto|]. intros c ->. by rewrite H1 in E.
Qed.

(** Reading a registry code from a parser never panics. *)
Lemma robust_registry {C} (to : C -> Z) ctx (table : list (Z * C)) v (Q : C -> Prop) :
  registry_exact to (try_from_table ctx table) -> (forall c, v = to c -> Q c) ->
  robust 0 (lift (try_from_table ctx table v)) Q.
Proof.
  intros [_ H] HQ. apply robust_lift; [apply try_from_table_returns|].
  intros c E. apply HQ. by apply H.
Qed.

(** [try_from(value).unwrap_or(default)]. *)
Lemma from_wire_table {C} (to : C -> Z) ctx (table : list (Z * C)) (default : C) :
  registry_exact to (try_from_table ctx table) ->
  forall v c, match try_from_table ctx table v with Ok c => c | _ => default end = c <->
    v = to c \/ c = default /\ forall c', v <> to c'.
Proof.
  intros [H1 H2] v c. pose proof (try_from_table_returns ctx table v) as R.
  destruct (try_from_table ctx table v) as [c'|e| |] eqn:E; try done.
  - apply H2 in E as ->. split; [by intros <-; left|].
    intros [Heq|[_ N]]; [|by destruct (N c')].
    apply (f_equal (try_from_table ctx table)) in Heq. rewrite !H1 in Heq. congruence.
  - split.
    + intros <-. right. split; [done|]. intros c' ->. by rewrite H1 in E.
    + intros [->|[-> _]]; [by rewrite H1 in E|done].
Qed.

(** ** Property *)

(** The registries are exact.  For each of the fourteen wire enumerations
    with a [TryFrom], the number a code is written as is read as that code and
    no other number is; and the two [from_wire] readers, for error codes a
    peer may have made up, give the code where there is one and
    [InternalError] everywhere else. *)
Theorem registries_exact :
  registry_exact RequestErrorCode_to_u64 RequestErrorCode_try_from /\
  registry_exact StreamResetCode_to_u64 StreamResetCode_try_from /\
  registry_exact ControlMessageType_to_u64 ControlMessageType_try_from /\
  registry_exact LocationFilterType_to_u64 LocationFilterType_try_from /\
  registry_exact SwitchMode_to_u64 SwitchMode_try_from /\
  registry_exact GroupOrder_to_u8 GroupOrder_try_from /\
  registry_exact TrackStatusCode_to_u64 TrackStatusCode_try_from /\
  registry_exact PublishDoneStatusCode_to_u64 PublishDoneStatusCode_try_from /\
  registry_exact SetupOptionType_to_u64 SetupOptionType_try_from /\
  registry_exact MessageParameterType_to_u64 MessageParameterType_try_from /\
  registry_exact TokenAliasType_to_u64 TokenAliasType_try_from /\
  registry_exact LOCPropertyId_to_u64 LOCPropertyId_try_from /\
  registry_exact TrackPropertyType_to_u64 TrackPropertyType_try_from /\
  registry_exact ObjectStatus_to_u64 ObjectStatus_try_from /\
  (forall v c, RequestErrorCode_from_wire v = c <->
     v = RequestErrorCode_to_u64 c \/
     c = REC_InternalError /\ forall c', v <> RequestErrorCode_to_u64 c') /\
  (forall v c, PublishDoneStatusCode_from_wire v = c <->
     v = PublishDoneStatusCode_to_u64 c \/
     c = PDS_InternalError /\ forall c', v <> PublishDoneStatusCode_to_u64 c').
Proof.
  do 14 (split; [registry|]).
  split; apply from_wire_table; [apply RequestErrorCode_exact|apply PublishDoneStatusCode_exact].
Qed.
