(* ===== verification/TrackName.v ===== *)
(** Full track names, the alias map and padding
    ([libs/moqtail-rs/src/model/data/{full_track_name,track_alias,padding}.rs]).

    [TrackAliasMap] keeps the aliases of a session in two hash maps, one each
    way.  Its contract is a finite one-to-one relation between aliases and
    names: [alias_spec] states it, and the refinement theorem shows that the two
    maps implement it under every sequence of calls. *)
From stdpp Require Import gmap.
From S2P Require Import Prelude Varint Common.

(** * Full track names *)

Definition MAX_NAMESPACE_TUPLE_COUNT : Z := 32.
Definition MAX_FULL_TRACK_NAME_LENGTH : Z := 4096.

Record FullTrackName := mkFullTrackName { ftn_namespace : Tuple; ftn_name : TupleField }.

#[export] Instance FullTrackName_eq_dec : EqDecision FullTrackName.
Proof. solve_decision. Defined.
#[export] Instance FullTrackName_countable : Countable FullTrackName.
Proof.
  refine (inj_countable' (fun n => (ftn_namespace n, ftn_name n))
            (fun p => mkFullTrackName p.1 p.2) _).
  by intros [].
Defined.

Definition namespace_length (namespace : Tuple) : result Z :=
  let? b := Tuple_serialize namespace in Ok (blen b).

(** The sum cannot overflow: both are lengths of buffers in memory. *)
Definition FullTrackName_new (namespace : Tuple) (name : TupleField) : result FullTrackName :=
  let ns_count := Z.of_nat (length namespace) in
  if MAX_NAMESPACE_TUPLE_COUNT <? ns_count
  then Err (TrackNameError "FullTrackName::new(ns_count)")
  else
    let? ns_len := namespace_length namespace in
    let total_len := ns_len + blen name in
    if MAX_FULL_TRACK_NAME_LENGTH <? total_len
    then Err (TrackNameError "FullTrackName::new(total_length)")
    else Ok (mkFullTrackName namespace name).

Definition FullTrackName_try_new (namespace name : bytes) : result FullTrackName :=
  FullTrackName_new (from_utf8_path namespace) name.

(** [buf.extend(self.namespace.serialize())] iterates over the [Result]: an
    error adds nothing. *)
Definition FullTrackName_serialize (self : FullTrackName) : result bytes :=
  let ns := match Tuple_serialize (ftn_namespace self) with Ok b => b | _ => [] end in
  let? len := put_vi (blen (ftn_name self)) in
  Ok (ns ++ len ++ ftn_name self).

(** [get_vi()? as usize] loses nothing on a 64-bit target. *)
Definition FullTrackName_deserialize : parser FullTrackName :=
  let! namespace := Tuple_deserialize in
  if MAX_NAMESPACE_TUPLE_COUNT <? Z.of_nat (length namespace)
  then pfail (TrackNameError "FullTrackName::deserialize(ns_count)")
  else
    let! name_len := get_vi in
    let! name := get_bytes "FullTrackName::deserialize(name_length)" name_len in
    let! ns_len := lift (namespace_length namespace) in
    let total_len := ns_len + blen name in
    if MAX_FULL_TRACK_NAME_LENGTH <? total_len
    then pfail (TrackNameError "FullTrackName::deserialize(total_length)")
    else pret (mkFullTrackName namespace name).

(** ** Text: [TupleField::as_str] and [Display]

    A byte outside [a-z A-Z 0-9 _] becomes a period and two hexadecimal
    digits.  Text is a list of ASCII codes. *)
Definition is_plain (b : Z) : bool :=
  ((97 <=? b) && (b <=? 122)) || ((65 <=? b) && (b <=? 90)) ||
  ((48 <=? b) && (b <=? 57)) || (b =? 95).
Definition hex_digit (d : Z) : Z := if d <? 10 then 48 + d else 97 + (d - 10).
Definition char_as_str (b : Z) : bytes :=
  if is_plain b then [b] else [46; hex_digit (b / 16); hex_digit (b mod 16)].
Definition TupleField_as_str (self : TupleField) : bytes := concat (map char_as_str self).

(** The fields with ['-'] between them. *)
Fixpoint join_dash (fields : list TupleField) : bytes :=
  match fields with
  | [] => []
  | [f] => TupleField_as_str f
  | f :: rest => TupleField_as_str f ++ 45 :: join_dash rest
  end.
Definition FullTrackName_display (self : FullTrackName) : bytes :=
  join_dash (ftn_namespace self) ++ [45; 45] ++ TupleField_as_str (ftn_name self).

(** * The alias map *)

Record TrackAliasMap := mkTrackAliasMap {
  alias_to_name : gmap Z FullTrackName;
  name_to_alias : gmap FullTrackName Z
}.

Definition TrackAliasMap_new : TrackAliasMap := mkTrackAliasMap ∅ ∅.

Definition add_mapping (self : TrackAliasMap) (alias : Z) (name : FullTrackName)
    : result unit * TrackAliasMap :=
  match alias_to_name self !! alias with
  | Some existing_name =>
      if decide (existing_name = name) then (Ok tt, self)
      else (Err (TrackAliasError "TrackAliasMap::add_mapping(existing_name)"), self)
  | None =>
      match name_to_alias self !! name with
      | Some existing_alias =>
          if decide (existing_alias = alias) then (Ok tt, self)
          else (Err (TrackAliasError "TrackAliasMap::add_mapping(existing_alias)"), self)
      | None =>
          (Ok tt, mkTrackAliasMap (<[alias := name]> (alias_to_name self))
                                  (<[name := alias]> (name_to_alias self)))
      end
  end.

Definition get_name_by_alias (self : TrackAliasMap) (alias : Z) : result FullTrackName :=
  ok_or (alias_to_name self !! alias) (TrackAliasError "TrackAliasMap::get_name_by_alias(alias)").

Definition get_alias_by_name (self : TrackAliasMap) (name : FullTrackName) : result Z :=
  ok_or (name_to_alias self !! name) (TrackAliasError "TrackAliasMap::get_alias_by_name(name)").

Definition remove_mapping_by_alias (self : TrackAliasMap) (alias : Z)
    : option FullTrackName * TrackAliasMap :=
  match alias_to_name self !! alias with
  | Some name => (Some name, mkTrackAliasMap (delete alias (alias_to_name self))
                                             (delete name (name_to_alias self)))
  | None => (None, self)
  end.

Definition remove_mapping_by_name (self : TrackAliasMap) (name : FullTrackName)
    : option Z * TrackAliasMap :=
  match name_to_alias self !! name with
  | Some alias => (Some alias, mkTrackAliasMap (delete alias (alias_to_name self))
                                               (delete name (name_to_alias self)))
  | None => (None, self)
  end.

Definition contains_alias (self : TrackAliasMap) (alias : Z) : bool :=
  bool_decide (is_Some (alias_to_name self !! alias)).
Definition contains_name (self : TrackAliasMap) (name : FullTrackName) : bool :=
  bool_decide (is_Some (name_to_alias self !! name)).

(** * Padding *)

Definition PADDING_STREAM_TYPE : Z := 0x132B3E28.
Definition PADDING_DATAGRAM_TYPE : Z := 0x132B3E29.

(** The structures are their [length]. *)
Definition PaddingStream_serialize (length : nat) : result bytes :=
  let? b := put_vi PADDING_STREAM_TYPE in Ok (b ++ replicate length 0).
Definition PaddingStream_deserialize : parser Z :=
  let! type_value := get_vi in
  if negb (type_value =? PADDING_STREAM_TYPE)
  then pfail (ProtocolViolation "PaddingStream::deserialize")
  else
    let! length := remaining in
    let! _ := copy_to_bytes length in
    pret length.

Definition PaddingDatagram_serialize (length : nat) : result bytes :=
  let? b := put_vi PADDING_DATAGRAM_TYPE in Ok (b ++ replicate length 0).
Definition PaddingDatagram_deserialize : parser Z :=
  let! type_value := get_vi in
  if negb (type_value =? PADDING_DATAGRAM_TYPE)
  then pfail (ProtocolViolation "PaddingDatagram::deserialize")
  else
    let! length := remaining in
    let! _ := copy_to_bytes length in
    pret length.

(** * Lemmas *)

(** ** The codec of full track names *)

(** The limits [new] and [deserialize] enforce. *)
Definition ftn_ok (n : FullTrackName) : Prop :=
  tuple_ok (ftn_namespace n) /\ data_ok (ftn_name n) /\
  Z.of_nat (length (ftn_namespace n)) <= MAX_NAMESPACE_TUPLE_COUNT /\
  forall b, Tuple_serialize (ftn_namespace n) = Ok b ->
    blen b + blen (ftn_name n) <= MAX_FULL_TRACK_NAME_LENGTH.

#[export] Instance Wire_FullTrackName :
  Wire ftn_ok FullTrackName_serialize FullTrackName_deserialize.
Proof.
  split.
  - intros [ns name] (Hns&Hname&_). unfold FullTrackName_serialize. simpl in *.
    ser_step Hns. pose proof (blen_u64 _ Hname) as Hn. ser_step Hn.
    eexists. split; [done|]. rewrite !bytes_ok_app. split; [split; [done|split; [done|apply Hname]]|].
    by intros [? _]%app_eq_nil.
  - intros [ns name] bs (Hns&Hname&Hc&Htot) E. unfold FullTrackName_serialize in E. simpl in *.
    ser_step Hns. rewrite Es in E, Htot. pose proof (blen_u64 _ Hname) as Hn.
    rewrite put_vi_Ok in E by done. simpl in E. inversion E; subst. specialize (Htot _ eq_refl).
    unfold FullTrackName_deserialize, namespace_length.
    eapply decodes_bind; [apply (wire_decodes (Wire := Wire_Tuple)); done|].
    rewrite (proj2 (Z.ltb_ge _ _)) by done. decode. rewrite Es. cbn [obind].
    eapply decodes_bind_nil; [apply decodes_lift|].
    rewrite (proj2 (Z.ltb_ge _ _)) by done. apply decodes_ret.
  - unfold FullTrackName_deserialize. eapply robust_bind_l; [apply wire_robust|]. intros ns Hns.
    case_if; [apply robust_fail|]. breflect.
    eapply robust_weaken; [eapply robust_bind_l; [apply get_vi_robust|]|lia|intros ? X; exact X].
    intros n Hn. eapply (robust_bind_l 0); [eapply robust_weaken; [apply robust_get_bytes|lia|intros ? X; exact X]|].
    intros name [Hb Hl]. destruct (wire_ser _ Hns) as (b&Eb&_). unfold namespace_length.
    rewrite Eb. cbn [obind]. eapply (robust_bind_l 0); [apply (robust_lift _ (eq (blen b))); [done|by intros ? [= ->]]|].
    intros ? <-. case_if; [apply robust_fail|]. breflect. apply robust_ret.
    unfold ftn_ok, data_ok. simpl. unfold is_u64 in *. split; [done|]. split; [split; [done|lia]|].
    split; [done|]. intros b' E'. congruence.
Qed.

(** [new] builds the names that can travel, and refuses exactly the others. *)
Lemma FullTrackName_new_spec ns name :
  tuple_ok ns -> data_ok name ->
  returns (FullTrackName_new ns name) /\
  forall n, FullTrackName_new ns name = Ok n <-> n = mkFullTrackName ns name /\ ftn_ok n.
Proof.
  intros Hns Hname. unfold FullTrackName_new, namespace_length, ftn_ok.
  destruct (wire_ser _ Hns) as (b&Eb&_). rewrite Eb. cbn [obind].
  destruct (Z.ltb_spec MAX_NAMESPACE_TUPLE_COUNT (Z.of_nat (length ns))).
  { split; [done|]. intros n. split; [discriminate|]. intros [-> (_&_&H'&_)]. simpl in H'. lia. }
  destruct (Z.ltb_spec MAX_FULL_TRACK_NAME_LENGTH (blen b + blen name)).
  - split; [done|]. intros n. split; [discriminate|]. intros [-> (_&_&_&H')].
    simpl in H'. specialize (H' b Eb). lia.
  - split; [done|]. intros n. split; [|by intros [-> _]]. intros [= <-]. simpl.
    split; [done|]. split; [done|]. split; [done|]. split; [lia|]. intros b' E'. congruence.
Qed.

(** ** Text *)

Lemma hex_digit_inj a b : 0 <= a < 16 -> 0 <= b < 16 -> hex_digit a = hex_digit b -> a = b.
Proof. unfold hex_digit. intros. repeat case_if; breflect; lia. Qed.

Lemma is_plain_not_mark b : is_plain b = true -> b <> 45 /\ b <> 46.
Proof. unfold is_plain. intros H. split; intros ->; discriminate. Qed.

Lemma char_as_str_no_dash b : is_u8 b -> 45 ∉ char_as_str b.
Proof.
  intros [H0 H1]. unfold char_as_str, hex_digit. destruct (is_plain b) eqn:E.
  - apply is_plain_not_mark in E. rewrite list_elem_of_singleton. lia.
  - pose proof (Z.div_pos b 16 H0 ltac:(lia)). pose proof (Z.mod_pos_bound b 16 ltac:(lia)).
    rewrite !elem_of_cons, elem_of_nil. repeat case_if; breflect; lia.
Qed.

Lemma as_str_no_dash f : bytes_ok f -> 45 ∉ TupleField_as_str f.
Proof.
  intros H. unfold TupleField_as_str. induction H as [|b f Hb _ IH]; simpl; [apply not_elem_of_nil|].
  rewrite elem_of_app. pose proof (char_as_str_no_dash b Hb). tauto.
Qed.

(** The encodings of bytes form a prefix code. *)
Lemma char_as_str_prefix a b x y :
  is_u8 a -> is_u8 b -> char_as_str a ++ x = char_as_str b ++ y -> a = b /\ x = y.
Proof.
  intros Ha Hb. unfold char_as_str.
  destruct (is_plain a) eqn:Ea; destruct (is_plain b) eqn:Eb; simpl; intros E; simplify_eq.
  - done.
  - unfold is_u8 in *.
    match goal with H1 : hex_digit (_ / _) = _, H2 : hex_digit (_ mod _) = _ |- _ =>
      apply hex_digit_inj in H1; [|split; [apply Z.div_pos|apply Z.div_lt_upper_bound]; lia..];
      apply hex_digit_inj in H2; [|apply Z.mod_pos_bound; lia..] end.
    split; [|done]. rewrite (Z.div_mod a 16), (Z.div_mod b 16) by lia. congruence.
Qed.

Lemma char_as_str_ne b : char_as_str b <> [].
Proof. unfold char_as_str. by destruct (is_plain b). Qed.

Lemma as_str_inj a b : bytes_ok a -> bytes_ok b -> TupleField_as_str a = TupleField_as_str b -> a = b.
Proof.
  unfold TupleField_as_str. intros Ha. revert b.
  induction Ha as [|x a Hx _ IH]; intros b Hb; destruct Hb as [|y b Hy Hb]; simpl; intros E.
  - done.
  - symmetry in E. by apply app_eq_nil in E as [?%char_as_str_ne _].
  - by apply app_eq_nil in E as [?%char_as_str_ne _].
  - apply char_as_str_prefix in E as [-> E]; [|done..]. f_equal. by apply IH.
Qed.

(** Text up to the first dash is determined. *)
Lemma split_dash (a b x y : bytes) :
  45 ∉ a -> 45 ∉ b -> a ++ 45 :: x = b ++ 45 :: y -> a = b /\ x = y.
Proof.
  revert b. induction a as [|c a IH]; intros [|d b] Ha Hb E; simpl in *.
  - by inversion E.
  - inversion E; subst. by destruct Hb; left.
  - inversion E; subst. by destruct Ha; left.
  - inversion E as [[Ec E']]. rewrite elem_of_cons in Ha, Hb.
    destruct (IH b) as [-> ->]; tauto.
Qed.

(** What follows the first field of a namespace in the text. *)
Definition after_field (rest : list TupleField) (name : TupleField) : bytes :=
  match rest with
  | [] => 45 :: TupleField_as_str name
  | _ => join_dash rest ++ [45; 45] ++ TupleField_as_str name
  end.

Lemma display_cons f rest name :
  FullTrackName_display (mkFullTrackName (f :: rest) name) =
  TupleField_as_str f ++ 45 :: after_field rest name.
Proof.
  unfold FullTrackName_display. simpl. destruct rest as [|g rest]; [done|].
  by rewrite <- app_assoc.
Qed.

Lemma after_field_display g rest name :
  after_field (g :: rest) name = TupleField_as_str g ++ 45 :: after_field rest name.
Proof. rewrite <- display_cons. done. Qed.

(** A lone name has no dash of its own: the end of the namespace is seen. *)
Lemma after_field_nil g rest n m :
  bytes_ok n -> bytes_ok g -> after_field [] n <> after_field (g :: rest) m.
Proof.
  intros Hn Hg E. rewrite after_field_display in E. simpl in E.
  destruct (TupleField_as_str g) as [|c s] eqn:Es; simpl in E; simplify_eq.
  - destruct rest as [|h rest]; [|rewrite after_field_display in E]; simpl in E;
      apply (as_str_no_dash n Hn); rewrite E; rewrite ?elem_of_app, ?elem_of_cons; tauto.
  - apply (as_str_no_dash g Hg). rewrite Es. left.
Qed.

Lemma after_field_inj a b n m :
  Forall bytes_ok a -> Forall bytes_ok b -> bytes_ok n -> bytes_ok m ->
  after_field a n = after_field b m -> a = b /\ n = m.
Proof.
  intros Ha. revert b. induction Ha as [|f a Hf Ha IH]; intros b Hb Hn Hm E;
    destruct Hb as [|g b Hg Hb].
  - simpl in E. simplify_eq. split; [done|]. by apply as_str_inj.
  - by apply after_field_nil in E.
  - symmetry in E. by apply after_field_nil in E.
  - rewrite !after_field_display in E.
    apply split_dash in E as [E1 E2]; [|by apply as_str_no_dash..].
    apply as_str_inj in E1 as ->; [|done..]. by destruct (IH b Hb Hn Hm E2) as [-> ->].
Qed.

Lemma display_inj n m :
  Forall bytes_ok (ftn_namespace n) -> Forall bytes_ok (ftn_namespace m) ->
  bytes_ok (ftn_name n) -> bytes_ok (ftn_name m) ->
  ftn_namespace n <> [] -> ftn_namespace m <> [] ->
  FullTrackName_display n = FullTrackName_display m -> n = m.
Proof.
  destruct n as [[|f a] n], m as [[|g b] m]; simpl; try done. intros Ha Hb Hn Hm _ _ E.
  rewrite !display_cons in E. inversion Ha; inversion Hb; subst.
  apply split_dash in E as [E1 E2]; [|by apply as_str_no_dash..].
  apply as_str_inj in E1 as ->; [|done..].
  by apply after_field_inj in E2 as [-> ->].
Qed.

(** The namespaces with no field and with one empty field read the same. *)
Example display_empty_namespace name :
  FullTrackName_display (mkFullTrackName [] name) = FullTrackName_display (mkFullTrackName [[]] name).
Proof. reflexivity. Qed.

(** ** The alias map *)

(** The two maps are each other's inverse. *)
Definition alias_map_ok (m : TrackAliasMap) : Prop :=
  forall alias name, alias_to_name m !! alias = Some name <-> name_to_alias m !! name = Some alias.

Inductive alias_op : Type :=
| OpAdd (alias : Z) (name : FullTrackName)
| OpGetName (alias : Z)
| OpGetAlias (name : FullTrackName)
| OpRemoveAlias (alias : Z)
| OpRemoveName (name : FullTrackName)
| OpContainsAlias (alias : Z)
| OpContainsName (name : FullTrackName).

Inductive alias_reply : Type :=
| RepUnit (r : result unit)
| RepName (r : result FullTrackName)
| RepAlias (r : result Z)
| RepRemovedName (o : option FullTrackName)
| RepRemovedAlias (o : option Z)
| RepBool (b : bool).

Definition alias_exec (m : TrackAliasMap) (op : alias_op) : alias_reply * TrackAliasMap :=
  match op with
  | OpAdd a n => let '(r, m') := add_mapping m a n in (RepUnit r, m')
  | OpGetName a => (RepName (get_name_by_alias m a), m)
  | OpGetAlias n => (RepAlias (get_alias_by_name m n), m)
  | OpRemoveAlias a => let '(r, m') := remove_mapping_by_alias m a in (RepRemovedName r, m')
  | OpRemoveName n => let '(r, m') := remove_mapping_by_name m n in (RepRemovedAlias r, m')
  | OpContainsAlias a => (RepBool (contains_alias m a), m)
  | OpContainsName n => (RepBool (contains_name m n), m)
  end.

Fixpoint alias_run (m : TrackAliasMap) (ops : list alias_op) : list alias_reply * TrackAliasMap :=
  match ops with
  | [] => ([], m)
  | op :: ops =>
      let '(r, m1) := alias_exec m op in
      let '(rs, m2) := alias_run m1 ops in (r :: rs, m2)
  end.

(** The contract: a finite set of pairs in which no alias and no name occurs
    twice.  [alias_spec P op r P'] holds when [op], called on the pairs [P],
    may reply [r] and leave the pairs [P']. *)
Abbreviation pairs := (gset (Z * FullTrackName)).

Definition one_to_one (P : pairs) : Prop :=
  forall a n a' n', (a, n) ∈ P -> (a', n') ∈ P -> (a = a' <-> n = n').

Inductive alias_spec (P : pairs) : alias_op -> alias_reply -> pairs -> Prop :=
| spec_add_again a n : (a, n) ∈ P -> alias_spec P (OpAdd a n) (RepUnit (Ok tt)) P
| spec_add_alias_taken a n n' e : (a, n') ∈ P -> n' <> n ->
    alias_spec P (OpAdd a n) (RepUnit (Err (TrackAliasError e))) P
| spec_add_name_taken a n a' e : (a', n) ∈ P -> a' <> a ->
    alias_spec P (OpAdd a n) (RepUnit (Err (TrackAliasError e))) P
| spec_add a n : (forall n', (a, n') ∉ P) -> (forall a', (a', n) ∉ P) ->
    alias_spec P (OpAdd a n) (RepUnit (Ok tt)) (P ∪ {[(a, n)]})
| spec_get_name a n : (a, n) ∈ P -> alias_spec P (OpGetName a) (RepName (Ok n)) P
| spec_no_name a e : (forall n, (a, n) ∉ P) ->
    alias_spec P (OpGetName a) (RepName (Err (TrackAliasError e))) P
| spec_get_alias a n : (a, n) ∈ P -> alias_spec P (OpGetAlias n) (RepAlias (Ok a)) P
| spec_no_alias n e : (forall a, (a, n) ∉ P) ->
    alias_spec P (OpGetAlias n) (RepAlias (Err (TrackAliasError e))) P
| spec_remove_alias a n : (a, n) ∈ P ->
    alias_spec P (OpRemoveAlias a) (RepRemovedName (Some n)) (P ∖ {[(a, n)]})
| spec_remove_no_alias a : (forall n, (a, n) ∉ P) ->
    alias_spec P (OpRemoveAlias a) (RepRemovedName None) P
| spec_remove_name a n : (a, n) ∈ P ->
    alias_spec P (OpRemoveName n) (RepRemovedAlias (Some a)) (P ∖ {[(a, n)]})
| spec_remove_no_name n : (forall a, (a, n) ∉ P) ->
    alias_spec P (OpRemoveName n) (RepRemovedAlias None) P
| spec_contains_alias a b : (b = true <-> exists n, (a, n) ∈ P) ->
    alias_spec P (OpContainsAlias a) (RepBool b) P
| spec_contains_name n b : (b = true <-> exists a, (a, n) ∈ P) ->
    alias_spec P (OpContainsName n) (RepBool b) P.

Inductive alias_spec_run (P : pairs) : list alias_op -> list alias_reply -> pairs -> Prop :=
| spec_run_nil : alias_spec_run P [] [] P
| spec_run_cons op r P1 ops rs P2 :
    alias_spec P op r P1 -> alias_spec_run P1 ops rs P2 ->
    alias_spec_run P (op :: ops) (r :: rs) P2.

(** The pairs a map stands for. *)
Definition alias_pairs (m : TrackAliasMap) : pairs := map_to_set pair (alias_to_name m).

Lemma elem_of_alias_pairs m a n : (a, n) ∈ alias_pairs m <-> alias_to_name m !! a = Some n.
Proof. apply elem_of_map_to_set_pair. Qed.

Lemma elem_of_alias_pairs' m a n :
  alias_map_ok m -> (a, n) ∈ alias_pairs m <-> name_to_alias m !! n = Some a.
Proof. intros H. rewrite elem_of_alias_pairs. apply H. Qed.

Lemma alias_pairs_one_to_one m : alias_map_ok m -> one_to_one (alias_pairs m).
Proof.
  intros H a n a' n' H1 H2. split; intros ->.
  - rewrite elem_of_alias_pairs in H1, H2. congruence.
  - rewrite elem_of_alias_pairs' in H1, H2 by done. congruence.
Qed.

Lemma alias_insert_ok m a n :
  alias_map_ok m -> alias_to_name m !! a = None -> name_to_alias m !! n = None ->
  alias_map_ok (mkTrackAliasMap (<[a := n]> (alias_to_name m)) (<[n := a]> (name_to_alias m))) /\
  alias_pairs (mkTrackAliasMap (<[a := n]> (alias_to_name m)) (<[n := a]> (name_to_alias m))) =
    alias_pairs m ∪ {[(a, n)]}.
Proof.
  intros H Ha Hn. split.
  - intros b k. simpl. rewrite !lookup_insert_Some. specialize (H b k). naive_solver.
  - apply set_eq. intros [b k]. rewrite elem_of_union, !elem_of_alias_pairs, elem_of_singleton.
    simpl. rewrite lookup_insert_Some. naive_solver.
Qed.

Lemma alias_delete_ok m a n :
  alias_map_ok m -> alias_to_name m !! a = Some n ->
  alias_map_ok (mkTrackAliasMap (delete a (alias_to_name m)) (delete n (name_to_alias m))) /\
  alias_pairs (mkTrackAliasMap (delete a (alias_to_name m)) (delete n (name_to_alias m))) =
    alias_pairs m ∖ {[(a, n)]}.
Proof.
  intros H Ha. pose proof (proj1 (H a n) Ha) as Hn. split.
  - intros b k. simpl. rewrite !lookup_delete_Some. specialize (H b k). naive_solver.
  - apply set_eq. intros [b k]. rewrite elem_of_difference, !elem_of_alias_pairs, elem_of_singleton.
    simpl. rewrite lookup_delete_Some. naive_solver.
Qed.

Lemma alias_absent_alias m a : alias_to_name m !! a = None -> forall n, (a, n) ∉ alias_pairs m.
Proof. intros H n. rewrite elem_of_alias_pairs. congruence. Qed.
Lemma alias_absent_name m n :
  alias_map_ok m -> name_to_alias m !! n = None -> forall a, (a, n) ∉ alias_pairs m.
Proof. intros Hok H a. rewrite elem_of_alias_pairs' by done. congruence. Qed.

Create HintDb alias discriminated.
#[export] Hint Constructors alias_spec : alias.
#[export] Hint Resolve alias_absent_alias alias_absent_name : alias.
#[export] Hint Resolve <- elem_of_alias_pairs elem_of_alias_pairs' : alias.

Lemma alias_add_refines m a n :
  alias_map_ok m ->
  alias_map_ok (snd (add_mapping m a n)) /\
  alias_spec (alias_pairs m) (OpAdd a n) (RepUnit (fst (add_mapping m a n)))
    (alias_pairs (snd (add_mapping m a n))).
Proof.
  intros H. unfold add_mapping. destruct (alias_to_name m !! a) as [n'|] eqn:Ea.
  - case_decide; subst; simpl; eauto with alias.
  - destruct (name_to_alias m !! n) as [a'|] eqn:En.
    + case_decide; subst; simpl; eauto with alias.
    + destruct (alias_insert_ok m a n H Ea En) as [Hok HP]. simpl. rewrite HP. eauto with alias.
Qed.

Lemma alias_exec_refines m op :
  alias_map_ok m ->
  alias_map_ok (snd (alias_exec m op)) /\
  alias_spec (alias_pairs m) op (fst (alias_exec m op)) (alias_pairs (snd (alias_exec m op))).
Proof.
  intros H. destruct op as [a n|a|n|a|n|a|n]; simpl.
  - pose proof (alias_add_refines m a n H). by destruct (add_mapping m a n).
  - unfold get_name_by_alias. destruct (alias_to_name m !! a) eqn:E; simpl; eauto with alias.
  - unfold get_alias_by_name. destruct (name_to_alias m !! n) eqn:E; simpl; eauto with alias.
  - unfold remove_mapping_by_alias. destruct (alias_to_name m !! a) as [n|] eqn:E; simpl;
      [|eauto with alias].
    destruct (alias_delete_ok m a n H E) as [Hok HP]. rewrite HP. eauto with alias.
  - unfold remove_mapping_by_name. destruct (name_to_alias m !! n) as [a|] eqn:E; simpl;
      [|eauto with alias].
    apply H in E. destruct (alias_delete_ok m a n H E) as [Hok HP]. rewrite HP. eauto with alias.
  - split; [done|]. constructor. unfold contains_alias. rewrite bool_decide_eq_true.
    split; intros [n Hn]; exists n; by apply elem_of_alias_pairs.
  - split; [done|]. constructor. unfold contains_name. rewrite bool_decide_eq_true.
    split; intros [a Ha]; exists a; by apply elem_of_alias_pairs'.
Qed.

Lemma alias_run_refines ops : forall m,
  alias_map_ok m ->
  alias_map_ok (snd (alias_run m ops)) /\
  alias_spec_run (alias_pairs m) ops (fst (alias_run m ops)) (alias_pairs (snd (alias_run m ops))).
Proof.
  induction ops as [|op ops IH]; intros m H; simpl; [by split; [|constructor]|].
  destruct (alias_exec_refines m op H) as [H1 S1]. destruct (alias_exec m op) as [r m1].
  destruct (IH m1 H1) as [H2 S2]. destruct (alias_run m1 ops) as [rs m2]. simpl in *.
  split; [done|]. by econstructor.
Qed.

(** * Properties *)

(** The alias map implements its contract.  Under every sequence of calls
    from the empty map, the replies are those of a set of pairs that holds no
    alias and no name twice: adding a pair again is accepted, an alias or a
    name already taken is refused and changes nothing, and lookups and removals
    in either direction see the same pairs. *)
Theorem TrackAliasMap_refines ops :
  alias_spec_run ∅ ops (fst (alias_run TrackAliasMap_new ops))
    (alias_pairs (snd (alias_run TrackAliasMap_new ops))) /\
  one_to_one (alias_pairs (snd (alias_run TrackAliasMap_new ops))).
Proof.
  assert (alias_map_ok TrackAliasMap_new) as H0 by by intros a n; simpl; rewrite !lookup_empty.
  assert (alias_pairs TrackAliasMap_new = ∅) as E0 by apply map_to_set_empty.
  destruct (alias_run_refines ops _ H0) as [H1 H2]. rewrite E0 in H2.
  split; [done|]. by apply alias_pairs_one_to_one.
Qed.

(** Full track names.  The constructor accepts exactly the names within
    the limits (32 namespace fields, 4096 bytes); every such name is serialized
    and read back from any buffer that starts with it; and the reader, on any
    bytes, returns and gives only names within the limits. *)
Theorem FullTrackName_roundtrip ns name rest bs :
  tuple_ok ns -> data_ok name -> bytes_ok bs ->
  match FullTrackName_new ns name with
  | Ok n => exists b, FullTrackName_serialize n = Ok b /\
      FullTrackName_deserialize (b ++ rest) = (Ok n, rest)
  | Err _ => ~ ftn_ok (mkFullTrackName ns name)
  | _ => False
  end /\
  match FullTrackName_deserialize bs with
  | (Ok n, _) => ftn_ok n
  | (Err _, _) => True
  | _ => False
  end.
Proof.
  intros Hns Hname Hbs. split.
  - destruct (FullTrackName_new_spec ns name Hns Hname) as [Hr Hspec].
    destruct (FullTrackName_new ns name) as [n|e| |] eqn:E; try done.
    + destruct (proj1 (Hspec n) eq_refl) as [_ Hn].
      destruct (wire_ser n Hn) as (b&Eb&_). exists b. split; [done|].
      by apply (wire_decodes (Wire := Wire_FullTrackName)).
    + intros Hn. pose proof (proj2 (Hspec _) (conj eq_refl Hn)). discriminate.
  - pose proof (wire_robust (Wire := Wire_FullTrackName) bs Hbs) as H.
    destruct (FullTrackName_deserialize bs) as [[]]; tauto.
Qed.

Lemma FullTrackName_roundtrip_witness :
  tuple_ok [[97]; [98]] /\ data_ok [118] /\
  (exists b, FullTrackName_serialize (mkFullTrackName [[97]; [98]] [118]) = Ok b /\
     FullTrackName_deserialize (b ++ [1]) = (Ok (mkFullTrackName [[97]; [98]] [118]), [1])).
Proof.
  assert (tuple_ok [[97]; [98]]) as H1 by (repeat constructor; unfold is_u8; simpl; lia).
  assert (data_ok [118]) as H2 by (repeat constructor; unfold is_u8; simpl; lia).
  split; [exact H1|]. split; [exact H2|].
  exact (proj1 (FullTrackName_roundtrip [[97]; [98]] [118] [1] [] H1 H2 (List.Forall_nil _))).
Defined.
