(* ===== verification/LocationFilter.v ===== *)
(** The Location Filter of subscriptions and fetches
    ([libs/moqtail-rs/src/model/parameter/location_filter.rs]).

    [lf_selects] says what each filter means, on unbounded integers; the
    theorems relate to it the two Locations the relay compares against
    ([start_location], [end_location]) and the range a fetch is served from
    ([fetch_range]). *)
From S2P Require Import Prelude Varint Common Codes.

Inductive LocationFilter : Type :=
| LF_None
| LF_RelativeStart (start_group : Z)
| LF_AbsoluteStart (start : Location)
| LF_AbsoluteStartGroupEnd (start : Location) (end_group : Z)
| LF_AbsoluteRange (start end_ : Location)
| LF_NextObject.

#[export] Instance LocationFilter_eq_dec : EqDecision LocationFilter.
Proof. solve_decision. Defined.

Definition filter_type (self : LocationFilter) : LocationFilterType :=
  match self with
  | LF_None => LFT_None
  | LF_RelativeStart _ => LFT_RelativeStart
  | LF_AbsoluteStart _ => LFT_AbsoluteStart
  | LF_AbsoluteStartGroupEnd _ _ => LFT_AbsoluteStartGroupEnd
  | LF_AbsoluteRange _ _ => LFT_AbsoluteRange
  | LF_NextObject => LFT_NextObject
  end.

(** The subtraction is on [u128], where nothing wraps. *)
Definition start_location (self : LocationFilter) (largest : option Location) : option Location :=
  match self with
  | LF_None => None
  | LF_RelativeStart start_group =>
      Some match largest with
           | Some largest =>
               let g := Z.max (group largest + 1 - start_group) 0 in
               mkLocation (Z.min g U64_MAX) 0
           | None => mkLocation 0 0
           end
  | LF_AbsoluteStart start
  | LF_AbsoluteStartGroupEnd start _
  | LF_AbsoluteRange start _ => Some start
  | LF_NextObject =>
      Some match largest with
           | Some largest => mkLocation (group largest) (saturating_add (object largest) 1)
           | None => mkLocation 0 0
           end
  end.

Definition end_location (self : LocationFilter) : option Location :=
  match self with
  | LF_AbsoluteStartGroupEnd _ end_group => Some (mkLocation end_group U64_MAX)
  | LF_AbsoluteRange _ end_ => Some end_
  | _ => None
  end.

Definition fetch_range (self : LocationFilter) (largest : option Location)
    : option (Location * Location) :=
  match largest with
  | None => None
  | Some largest =>
      let start := match start_location self (Some largest) with
                   | Some start => start
                   | None => mkLocation 0 0
                   end in
      let end_ := match end_location self with
                  | Some end_ => if Location_ltb end_ largest then end_ else largest
                  | None => largest
                  end in
      if Location_leb start end_ then Some (start, end_) else None
  end.

Definition end_group (start_group delta : Z) : result Z :=
  ok_or (checked_add start_group delta) (ProtocolViolation "LocationFilter::deserialize").

Definition end_group_delta (start_group end_group : Z) : result Z :=
  ok_or (checked_sub end_group start_group) (ProtocolViolation "LocationFilter::serialize").

Definition LocationFilter_serialize (self : LocationFilter) : result bytes :=
  let? ty := put_vi (LocationFilterType_to_u64 (filter_type self)) in
  match self with
  | LF_None | LF_NextObject => Ok ty
  | LF_RelativeStart start_group =>
      let? b := put_vi start_group in Ok (ty ++ b)
  | LF_AbsoluteStart start =>
      let? g := put_vi (group start) in
      let? o := put_vi (object start) in
      Ok (ty ++ g ++ o)
  | LF_AbsoluteStartGroupEnd start end_group =>
      let? g := put_vi (group start) in
      let? o := put_vi (object start) in
      let? delta := end_group_delta (group start) end_group in
      let? d := put_vi delta in
      Ok (ty ++ g ++ o ++ d)
  | LF_AbsoluteRange start end_ =>
      let? g := put_vi (group start) in
      let? o := put_vi (object start) in
      let? delta := end_group_delta (group start) (group end_) in
      let? d := put_vi delta in
      let? e := put_vi (object end_) in
      Ok (ty ++ g ++ o ++ d ++ e)
  end.

(** The [match] on the type in [deserialize]. *)
Definition filter_fields (filter_type : LocationFilterType) : parser LocationFilter :=
  match filter_type with
  | LFT_None => pret LF_None
  | LFT_RelativeStart => let! start_group := get_vi in pret (LF_RelativeStart start_group)
  | LFT_AbsoluteStart => let! start := Location_deserialize in pret (LF_AbsoluteStart start)
  | LFT_AbsoluteStartGroupEnd =>
      let! start := Location_deserialize in
      let! delta := get_vi in
      let! eg := lift (end_group (group start) delta) in
      pret (LF_AbsoluteStartGroupEnd start eg)
  | LFT_AbsoluteRange =>
      let! start := Location_deserialize in
      let! delta := get_vi in
      let! eg := lift (end_group (group start) delta) in
      let! eo := get_vi in
      pret (LF_AbsoluteRange start (mkLocation eg eo))
  | LFT_NextObject => pret LF_NextObject
  end.

Definition LocationFilter_deserialize : parser LocationFilter :=
  let! raw := get_vi in
  let! filter_type := lift (omap_err (fun _ => ProtocolViolation "LocationFilter::deserialize")
                              (LocationFilterType_try_from raw)) in
  filter_fields filter_type.

(** * Lemmas *)

(** The filters the wire can carry: a delta is unsigned, so the End Group is
    not before the Start Group. *)
Definition lf_ok (f : LocationFilter) : Prop :=
  match f with
  | LF_None | LF_NextObject => True
  | LF_RelativeStart g => is_u64 g
  | LF_AbsoluteStart s => loc_ok s
  | LF_AbsoluteStartGroupEnd s e => loc_ok s /\ is_u64 e /\ group s <= e
  | LF_AbsoluteRange s e => loc_ok s /\ loc_ok e /\ group s <= group e
  end.

Lemma LocationFilterType_u64 t : is_u64 (LocationFilterType_to_u64 t).
Proof. destruct t; unfold is_u64; simpl; lia. Qed.

Lemma decodes_filter_type f t :
  decodes (lift (omap_err f (LocationFilterType_try_from (LocationFilterType_to_u64 t)))) [] t.
Proof. rewrite (proj1 LocationFilterType_exact). apply decodes_lift. Qed.

Lemma decodes_end_group s e : is_u64 e -> s <= e -> decodes (lift (end_group s (e - s))) [] e.
Proof.
  intros He Hs. unfold end_group.
  assert (checked_add s (e - s) = Some e) as -> by (apply checked_add_Some; ulia).
  apply decodes_lift.
Qed.

Lemma end_group_delta_Ok s e : s <= e -> end_group_delta s e = Ok (e - s).
Proof.
  intros H. unfold end_group_delta.
  by assert (checked_sub e s = Some (e - s)) as -> by (apply checked_sub_Some; lia).
Qed.

Lemma decodes_location l : loc_ok l -> decodes Location_deserialize
  (encode_vi (group l) ++ encode_vi (object l)) l.
Proof. destruct l as [g o]. intros [Hg Ho]. unfold Location_deserialize. simpl in *. decode. Qed.

Lemma robust_end_group s d : is_u64 s -> is_u64 d ->
  robust 0 (lift (end_group s d)) (fun e => is_u64 e /\ s <= e).
Proof.
  intros Hs Hd. unfold end_group. apply robust_lift.
  - by destruct (checked_add s d).
  - intros e He. destruct (checked_add s d) eqn:E; inversion He; subst.
    apply checked_add_Some in E. ulia.
Qed.

Lemma robust_filter_type f v :
  robust 0 (lift (omap_err f (LocationFilterType_try_from v))) (fun _ => True).
Proof.
  apply robust_lift; [|done].
  pose proof (try_from_table_returns "LocationFilterType::try_from(u64)"
    [(0x0, LFT_None); (0x1, LFT_RelativeStart); (0x2, LFT_AbsoluteStart);
     (0x3, LFT_AbsoluteStartGroupEnd); (0x4, LFT_AbsoluteRange); (0x5, LFT_NextObject)] v).
  unfold LocationFilterType_try_from. by destruct (try_from_table _ _ _).
Qed.

#[export] Hint Resolve LocationFilterType_u64 decodes_filter_type decodes_location : wire.
#[export] Hint Resolve robust_end_group robust_filter_type : robust.

#[export] Instance Wire_LocationFilter :
  Wire lf_ok LocationFilter_serialize LocationFilter_deserialize.
Proof.
  apply Wire_intro.
  - intros f Hf. unfold transmits, LocationFilter_serialize.
    rewrite put_vi_Ok by auto with wire. cbn [obind].
    assert (forall rest, decodes (filter_fields (filter_type f)) rest f ->
      decodes LocationFilter_deserialize
        (encode_vi (LocationFilterType_to_u64 (filter_type f)) ++ rest) f) as Hd.
    { intros rest H. unfold LocationFilter_deserialize.
      eapply decodes_bind; [by auto with wire|]. by eapply decodes_bind_nil; [auto with wire|]. }
    destruct f as [|g|s|s e|s e|]; cbn [filter_type LocationFilterType_to_u64 lf_ok filter_fields] in Hf, Hd |- *.
    + eexists. split; [done|]. split; [by auto with wire|]. split; [by apply encode_vi_nonempty; auto with wire|].
      rewrite <- (app_nil_r (encode_vi _)). by apply Hd.
    + ser. eexists. split; [done|]. split; [bytes_parts|]. split; [by auto with wire|].
      apply Hd. decode.
    + pose proof Hf as [Hg Ho]. ser. eexists. split; [done|]. split; [bytes_parts|].
      split; [by auto with wire|]. apply Hd. decode.
    + destruct Hf as ([Hg Ho]&He&Hle). rewrite end_group_delta_Ok by done.
      assert (is_u64 (e - group s)) by ulia. ser. eexists. split; [done|]. split; [bytes_parts|].
      split; [by auto with wire|]. apply Hd. rewrite app_assoc.
      eapply decodes_bind; [by apply decodes_location|]. eapply decodes_bind_last; [by auto with wire|].
      eapply decodes_bind_nil; [by apply decodes_end_group|apply decodes_ret].
    + destruct Hf as ([Hg Ho]&[Heg Heo]&Hle). rewrite end_group_delta_Ok by done.
      assert (is_u64 (group e - group s)) by ulia. ser. eexists. split; [done|].
      split; [bytes_parts|]. split; [by auto with wire|]. apply Hd. rewrite app_assoc.
      eapply decodes_bind; [by apply decodes_location|]. eapply decodes_bind; [by auto with wire|].
      eapply decodes_bind_nil; [by apply decodes_end_group|].
      destruct e as [eg eo]. decode.
    + eexists. split; [done|]. split; [by auto with wire|]. split; [by apply encode_vi_nonempty; auto with wire|].
      rewrite <- (app_nil_r (encode_vi _)). by apply Hd.
  - unfold LocationFilter_deserialize, filter_fields. robust_go; simpl; try done.
    all: unfold loc_ok in *; simpl in *; tauto.
Qed.

(** ** What a filter means *)

(** The Locations [f] selects on a track whose Largest Object is [largest], as
    the comments of the source define it, on unbounded integers. *)
Definition lf_selects (f : LocationFilter) (largest : option Location) (l : Location) : Prop :=
  match f, largest with
  | LF_None, _ => True
  | LF_RelativeStart n, Some m => group m + 1 - n <= group l
  | LF_RelativeStart _, None => True
  | LF_AbsoluteStart s, _ => pos s <= pos l
  | LF_AbsoluteStartGroupEnd s e, _ => pos s <= pos l /\ group l <= e
  | LF_AbsoluteRange s e, _ => pos s <= pos l <= pos e
  | LF_NextObject, Some m => pos m < pos l
  | LF_NextObject, None => True
  end.

(** A Largest Object below which neither of its numbers saturates. *)
Definition largest_ok (largest : option Location) : Prop :=
  match largest with
  | Some m => loc_ok m /\ group m < U64_MAX /\ object m < U64_MAX
  | None => True
  end.

Definition in_bounds (start end_ : option Location) (l : Location) : bool :=
  match start with Some s => Location_leb s l | None => true end &&
  match end_ with Some e => Location_leb l e | None => true end.

Lemma start_location_spec f largest l :
  lf_ok f -> largest_ok largest -> loc_ok l ->
  match start_location f largest with
  | Some s => loc_ok s /\ (pos s <= pos l <->
      lf_selects match f with
                 | LF_AbsoluteStartGroupEnd s _ | LF_AbsoluteRange s _ => LF_AbsoluteStart s
                 | _ => f
                 end largest l)
  | None => f = LF_None
  end.
Proof.
  intros Hf Hm Hl. destruct f as [|n|s|s e|s e|]; simpl; simpl in Hf; try tauto.
  - destruct largest as [m|]; destruct l as [g o]; simpl in *.
    + destruct Hm as ([Hmg Hmo]&Hg&Ho). destruct Hl. unfold pos, loc_ok, is_u64 in *. simpl in *.
      split; [lia|]. nia.
    + destruct Hl. unfold pos, loc_ok, is_u64 in *. simpl in *. split; [lia|]. nia.
  - destruct largest as [m|]; destruct l as [g o]; simpl in *; destruct Hl.
    + destruct m as [mg mo]. destruct Hm as ([Hmg Hmo]&Hg&Ho).
      unfold pos, loc_ok, is_u64, saturating_add in *. simpl in *. split; lia.
    + unfold pos, loc_ok, is_u64 in *. simpl in *. split; [lia|]. nia.
Qed.

Lemma end_location_spec f l :
  lf_ok f -> loc_ok l ->
  match end_location f with
  | Some e => loc_ok e /\ (pos l <= pos e <->
      match f with
      | LF_AbsoluteStartGroupEnd _ e => group l <= e
      | LF_AbsoluteRange _ e => pos l <= pos e
      | _ => True
      end)
  | None => match f with
            | LF_AbsoluteStartGroupEnd _ _ | LF_AbsoluteRange _ _ => False
            | _ => True
            end
  end.
Proof.
  intros Hf Hl. destruct f as [|n|s|s e|s e|]; simpl; simpl in Hf; try tauto.
  destruct l as [g o]. destruct Hl. unfold pos, loc_ok, is_u64 in *. simpl in *. split; [lia|]. nia.
Qed.

Lemma in_bounds_selects f largest l :
  lf_ok f -> largest_ok largest -> loc_ok l ->
  in_bounds (start_location f largest) (end_location f) l = true <-> lf_selects f largest l.
Proof.
  intros Hf Hm Hl. pose proof (start_location_spec f largest l Hf Hm Hl) as Hs.
  pose proof (end_location_spec f l Hf Hl) as He. unfold in_bounds.
  rewrite andb_true_iff.
  destruct f as [|n|s|s e|s e|]; simpl in *;
    repeat match goal with H : loc_ok _ /\ _ |- _ => destruct H end;
    rewrite ?Location_leb_pos by done; try tauto.
Qed.

Lemma fetch_range_spec f m l :
  lf_ok f -> largest_ok (Some m) -> loc_ok l ->
  match fetch_range f (Some m) with
  | Some (s, e) => loc_ok s /\ loc_ok e /\ pos s <= pos e <= pos m /\
      (pos s <= pos l <= pos e <-> lf_selects f (Some m) l /\ pos l <= pos m)
  | None => ~ (lf_selects f (Some m) l /\ pos l <= pos m)
  end.
Proof.
  intros Hf Hm Hl. pose proof (in_bounds_selects f (Some m) l Hf Hm Hl) as Hsel.
  pose proof (start_location_spec f (Some m) l Hf Hm Hl) as Hs.
  pose proof (end_location_spec f l Hf Hl) as He.
  assert (loc_ok m) as Hmok by apply Hm. unfold fetch_range. unfold in_bounds in Hsel.
  set (s := match start_location f (Some m) with Some s => s | None => mkLocation 0 0 end).
  set (e := match end_location f with Some e => if Location_ltb e m then e else m | None => m end).
  assert (loc_ok s /\ (match start_location f (Some m) with Some s => Location_leb s l | None => true end
      = true <-> pos s <= pos l)) as [Hsok Hsl].
  { subst s. destruct (start_location f (Some m)).
    - destruct Hs. split; [done|]. by rewrite Location_leb_pos.
    - destruct l. split; loc; [|split]; nia. }
  assert (loc_ok e /\ pos e <= pos m /\
    ((match end_location f with Some e => Location_leb l e | None => true end = true /\ pos l <= pos m)
      <-> pos l <= pos e)) as (Heok&Hem&Hel).
  { subst e. destruct (end_location f) as [e|]; [|split; [done|split; [lia|tauto]]].
    destruct He as [He _]. rewrite Location_leb_pos by done.
    destruct (Location_ltb e m) eqn:E; [rewrite Location_ltb_pos in E by done|].
    - split; [done|]. split; lia.
    - apply not_true_iff_false in E. rewrite Location_ltb_pos in E by done.
      split; [done|]. split; lia. }
  rewrite andb_true_iff in Hsel. destruct (Location_leb s e) eqn:E.
  - rewrite Location_leb_pos in E by done. split; [done|]. split; [done|]. split; [done|]. tauto.
  - apply not_true_iff_false in E. rewrite Location_leb_pos in E by done. intros [H1 H2]. apply Hsel in H1 as [H1 H3]. apply Hsl in H1. pose proof (proj1 Hel (conj H3 H2)). lia.
Qed.

(** * Properties *)

(** A Location Filter selects what its definition says.  Away from the last
    group and object a number can name, an Object is between [start_location]
    and [end_location] exactly when the filter selects it; and [fetch_range]
    is the part of the selection that is not past the Largest Object, with no
    range when that part is empty. *)
Theorem location_filter_selects f largest l :
  lf_ok f -> largest_ok largest -> loc_ok l ->
  (in_bounds (start_location f largest) (end_location f) l = true <-> lf_selects f largest l) /\
  match fetch_range f largest with
  | Some (s, e) => Location_leb s l && Location_leb l e = true <->
      lf_selects f largest l /\ exists m, largest = Some m /\ Location_leb l m = true
  | None => ~ (lf_selects f largest l /\ exists m, largest = Some m /\ Location_leb l m = true)
  end.
Proof.
  intros Hf Hm Hl. split; [by apply in_bounds_selects|].
  destruct largest as [m|]; [|intros [_ (m&?&_)]; done].
  assert (loc_ok m) as Hmok by apply Hm.
  assert (forall P : Prop, P /\ (exists m', Some m = Some m' /\ Location_leb l m' = true) <->
    P /\ pos l <= pos m) as X.
  { intros P. rewrite <- Location_leb_pos by done. split.
    - intros (?&m'&[= <-]&?). done.
    - intros []. eauto. }
  pose proof (fetch_range_spec f m l Hf Hm Hl) as H.
  destruct (fetch_range f (Some m)) as [[s e]|]; rewrite X; [|done].
  destruct H as (Hs&He&_&H). rewrite andb_true_iff, (Location_leb_pos s l), (Location_leb_pos l e) by done. tauto.
Qed.

(** The last two groups of a track whose Largest Object is {7, 3}. *)
Lemma location_filter_selects_witness :
  fetch_range (LF_RelativeStart 2) (Some (mkLocation 7 3)) = Some (mkLocation 6 0, mkLocation 7 3) /\
  (in_bounds (start_location (LF_RelativeStart 2) (Some (mkLocation 7 3)))
     (end_location (LF_RelativeStart 2)) (mkLocation 6 9) = true <->
   lf_selects (LF_RelativeStart 2) (Some (mkLocation 7 3)) (mkLocation 6 9)).
Proof.
  split; [reflexivity|].
  refine (proj1 (location_filter_selects (LF_RelativeStart 2) (Some (mkLocation 7 3)) (mkLocation 6 9) _ _ _)).
  - unfold lf_ok, is_u64; lia.
  - unfold largest_ok, loc_ok, is_u64; simpl; lia.
  - unfold loc_ok, is_u64; simpl; lia.
Defined.

(** The edge: when the Largest Object is the last of its group, [NextObject]
    saturates to the Largest Object itself, and a fetch of it is not empty. *)
Lemma next_object_saturates g :
  is_u64 g ->
  fetch_range LF_NextObject (Some (mkLocation g U64_MAX)) =
    Some (mkLocation g U64_MAX, mkLocation g U64_MAX).
Proof.
  intros Hg. unfold fetch_range. simpl. unfold Location_leb. simpl.
  by rewrite Z.ltb_irrefl, Z.eqb_refl.
Qed.
