(* ===== verification/RangeFilter.v ===== *)
(** Range Filters: the values a subscription selects on
    ([libs/moqtail-rs/src/model/parameter/range_filter.rs]).

    A filter holds its ranges as the deltas the wire carries.  [ranges] adds
    them back and [validate] checks what a filter of each kind must satisfy. *)
From S2P Require Import Prelude Varint Codes.

Inductive RangeFilterKind : Type :=
| RFK_Subgroup
| RFK_ObjectId
| RFK_Priority
| RFK_ObjectProperty
| RFK_TrackProperty.

#[export] Instance RangeFilterKind_eq_dec : EqDecision RangeFilterKind.
Proof. solve_decision. Defined.

Definition RangeFilterKind_ALL : list RangeFilterKind :=
  [RFK_Subgroup; RFK_ObjectId; RFK_Priority; RFK_ObjectProperty; RFK_TrackProperty].

Definition parameter_type (self : RangeFilterKind) : MessageParameterType :=
  match self with
  | RFK_Subgroup => MPT_SubgroupFilter
  | RFK_ObjectId => MPT_ObjectIdFilter
  | RFK_Priority => MPT_PriorityFilter
  | RFK_ObjectProperty => MPT_ObjectPropertyFilter
  | RFK_TrackProperty => MPT_TrackPropertyFilter
  end.

Definition from_parameter_type (param_type : MessageParameterType) : option RangeFilterKind :=
  find (fun kind => bool_decide (parameter_type kind = param_type)) RangeFilterKind_ALL.

Definition has_property_type (self : RangeFilterKind) : bool :=
  match self with RFK_ObjectProperty | RFK_TrackProperty => true | _ => false end.

Record Range := mkRange { r_start : Z; r_end : option Z }.

#[export] Instance Range_eq_dec : EqDecision Range.
Proof. solve_decision. Defined.

(** [Option::is_none_or]. *)
Definition is_none_or {A} (o : option A) (f : A -> bool) : bool :=
  match o with Some a => f a | None => true end.

Definition Range_contains (self : Range) (value : Z) : bool :=
  (r_start self <=? value) && is_none_or (r_end self) (fun end_ => value <=? end_).

Inductive RangeFilterError : Type :=
| RFE_Overflow
| RFE_PriorityOutOfRange (value : Z)
| RFE_OddPropertyType (property_type : Z)
| RFE_PropertyTypeMismatch (kind : RangeFilterKind)
| RFE_Unordered
| RFE_Duplicate (kind : RangeFilterKind) (set_id : Z) (property_type : option Z)
| RFE_TrackFilterOnObjects
| RFE_TooManyRanges (count limit : Z).

Record RangeFilter := mkRangeFilter {
  set_id : Z;
  property_type : option Z;
  deltas : list (Z * option Z)
}.

#[export] Instance RangeFilter_eq_dec : EqDecision RangeFilter.
Proof. solve_decision. Defined.

(** The loop of [new]; a range without an End must be the last. *)
Fixpoint deltas_of (prior_end : Z) (ranges : list Range)
    : outcome RangeFilterError (list (Z * option Z)) :=
  match ranges with
  | [] => Ok []
  | range :: rest =>
      let? start := ok_or (checked_sub (r_start range) prior_end) RFE_Unordered in
      match r_end range with
      | Some end_ =>
          let? d := ok_or (checked_sub end_ (r_start range)) RFE_Unordered in
          let? ds := deltas_of end_ rest in
          Ok ((start, Some d) :: ds)
      | None =>
          match rest with
          | [] => Ok [(start, None)]
          | _ :: _ => Err RFE_Unordered
          end
      end
  end.

Definition RangeFilter_new (set_id : Z) (property_type : option Z) (ranges : list Range)
    : outcome RangeFilterError RangeFilter :=
  let? ds := deltas_of 0 ranges in
  Ok (mkRangeFilter set_id property_type ds).

Definition from_deltas (set_id : Z) (property_type : option Z) (deltas : list (Z * option Z))
    : RangeFilter := mkRangeFilter set_id property_type deltas.

Definition range_count (self : RangeFilter) : Z := Z.of_nat (length (deltas self)).

(** The loop of [ranges]. *)
Fixpoint ranges_of (prior_end : Z) (deltas : list (Z * option Z))
    : outcome RangeFilterError (list Range) :=
  match deltas with
  | [] => Ok []
  | (start_delta, end_delta) :: rest =>
      let? start := ok_or (checked_add prior_end start_delta) RFE_Overflow in
      match end_delta with
      | Some delta =>
          let? end_ := ok_or (checked_add start delta) RFE_Overflow in
          let? rs := ranges_of end_ rest in
          Ok (mkRange start (Some end_) :: rs)
      | None =>
          let? rs := ranges_of prior_end rest in
          Ok (mkRange start None :: rs)
      end
  end.

Definition RangeFilter_ranges (self : RangeFilter) : outcome RangeFilterError (list Range) :=
  ranges_of 0 (deltas self).

(** [flat_map(|r| [Some(r.start), r.end]).flatten()]. *)
Definition range_values (ranges : list Range) : list Z :=
  concat (map (fun r => r_start r :: match r_end r with Some e => [e] | None => [] end) ranges).

Definition validate (self : RangeFilter) (kind : RangeFilterKind)
    : outcome RangeFilterError (list Range) :=
  let? _ :=
    match has_property_type kind, property_type self with
    | true, Some pt => if negb (pt mod 2 =? 0) then Err (RFE_OddPropertyType pt) else Ok tt
    | false, None => Ok tt
    | _, _ => Err (RFE_PropertyTypeMismatch kind)
    end in
  let? ranges := RangeFilter_ranges self in
  match (if bool_decide (kind = RFK_Priority)
         then find (fun v => 255 <? v) (range_values ranges) else None) with
  | Some value => Err (RFE_PriorityOutOfRange value)
  | None => Ok ranges
  end.

(** The loop of [serialize] over the deltas. *)
Fixpoint serialize_deltas (deltas : list (Z * option Z)) : result bytes :=
  match deltas with
  | [] => Ok []
  | (start, end_) :: rest =>
      let? s := put_vi start in
      match end_ with
      | Some end_ =>
          let? e := put_vi end_ in
          let? bs := serialize_deltas rest in
          Ok (s ++ e ++ bs)
      | None =>
          match rest with
          | [] => Ok s
          | _ :: _ => Err (ProtocolViolation "RangeFilter::serialize")
          end
      end
  end.

Definition RangeFilter_serialize (self : RangeFilter) : result bytes :=
  let? pt := match property_type self with
             | Some property_type => put_vi property_type
             | None => Ok []
             end in
  let? ds := serialize_deltas (deltas self) in
  Ok (set_id self :: pt ++ ds).

(** One turn of the loop of [deserialize]. *)
Definition delta_step (deltas : list (Z * option Z)) : parser (list (Z * option Z)) :=
  let! start := get_vi in
  let! more := has_remaining in
  let! end_ := (if more then let! e := get_vi in pret (Some e) else pret None) in
  pret (deltas ++ [(start, end_)]).

Definition RangeFilter_deserialize (kind : RangeFilterKind) : parser RangeFilter :=
  let! set_id := get_u8_checked "RangeFilter::deserialize(SetID)" in
  let! property_type := (if has_property_type kind
                         then let! p := get_vi in pret (Some p) else pret None) in
  let! deltas := while_remaining delta_step [] in
  pret (mkRangeFilter set_id property_type deltas).

(** * Lemmas *)

(** ** Ranges and their deltas *)

(** Ascending from [prior], and only the last may be open. *)
Fixpoint ranges_ok (prior : Z) (rs : list Range) : Prop :=
  match rs with
  | [] => True
  | r :: rest => prior <= r_start r < U64 /\
      match r_end r with
      | Some e => r_start r <= e < U64 /\ ranges_ok e rest
      | None => rest = []
      end
  end.

Fixpoint deltas_ok (ds : list (Z * option Z)) : Prop :=
  match ds with
  | [] => True
  | (s, Some e) :: rest => is_u64 s /\ is_u64 e /\ deltas_ok rest
  | (s, None) :: rest => is_u64 s /\ rest = []
  end.

Lemma deltas_of_ok rs : forall prior,
  0 <= prior -> ranges_ok prior rs ->
  exists ds, deltas_of prior rs = Ok ds /\ deltas_ok ds /\ ranges_of prior ds = Ok rs.
Proof.
  induction rs as [|[s e] rs IH]; intros prior Hp H; [by exists []|].
  simpl in H. destruct H as [Hs He].
  assert (checked_sub s prior = Some (s - prior)) as E1 by (apply checked_sub_Some; lia).
  assert (checked_add prior (s - prior) = Some s) as E2 by (apply checked_add_Some; lia).
  simpl. rewrite E1. cbn [ok_or obind]. destruct e as [e|].
  - destruct He as [Hse Hr]. destruct (IH e ltac:(lia) Hr) as (ds&->&Hds&Er).
    assert (checked_sub e s = Some (e - s)) as -> by (apply checked_sub_Some; lia).
    assert (checked_add s (e - s) = Some e) as E3 by (apply checked_add_Some; lia).
    cbn [ok_or obind]. eexists. split; [done|]. split; [simpl; unfold is_u64; repeat split; try lia; done|].
    simpl. rewrite E2. cbn [ok_or obind]. rewrite E3. cbn [ok_or obind]. by rewrite Er.
  - subst rs. eexists. split; [done|]. split; [simpl; unfold is_u64; repeat split; lia|].
    simpl. by rewrite E2.
Qed.

Definition range_u64 (r : Range) : Prop :=
  is_u64 (r_start r) /\ match r_end r with Some e => is_u64 e | None => True end.

(** What is not ascending is refused as such. *)
Lemma deltas_of_unordered rs : forall prior,
  Forall range_u64 rs -> ~ ranges_ok prior rs -> deltas_of prior rs = Err RFE_Unordered.
Proof.
  induction rs as [|[s e] rs IH]; intros prior Hu H; [by destruct H|].
  inversion Hu as [|? ? [Hs He] Hu']; subst. simpl in *.
  destruct (checked_sub s prior) as [d|] eqn:E; [|done]. apply checked_sub_Some in E as [_ Hp].
  cbn [ok_or obind]. destruct e as [e|].
  - destruct (checked_sub e s) as [d'|] eqn:E'; [|done]. apply checked_sub_Some in E' as [_ Hse].
    cbn [ok_or obind]. rewrite IH; [done|done|]. intros Hr. apply H. unfold is_u64 in *.
    repeat split; (done || lia).
  - destruct rs; [|done]. destruct H. unfold is_u64 in *. repeat split; lia.
Qed.

Lemma ranges_of_ok ds : forall prior rs,
  0 <= prior -> deltas_ok ds -> ranges_of prior ds = Ok rs -> ranges_ok prior rs.
Proof.
  induction ds as [|[s e] ds IH]; intros prior rs Hp Hd E; simpl in *; [by simplify_eq|].
  apply obind_Ok_inv in E as (s'&Es&E). destruct (checked_add prior s) eqn:E1; simplify_eq/=.
  apply checked_add_Some in E1 as [-> H1]. destruct e as [e|].
  - destruct Hd as (Hs&He&Hd). unfold is_u64 in *.
    apply obind_Ok_inv in E as (e'&Ee&E). destruct (checked_add (prior + s) e) eqn:E2; simplify_eq/=.
    apply checked_add_Some in E2 as [-> H2]. apply obind_Ok_inv in E as (rs'&Er&E). simplify_eq.
    simpl. split; [lia|]. split; [lia|]. by apply IH with (prior := prior + s + e) in Er; [|lia|].
  - destruct Hd as (Hs&->). unfold is_u64 in *. simpl in E. simplify_eq. simpl. split; [lia|done].
Qed.

Lemma RangeFilter_ranges_returns f : returns (RangeFilter_ranges f).
Proof.
  unfold RangeFilter_ranges. generalize 0. induction (deltas f) as [|[s e] ds IH]; intros prior; [done|].
  simpl. destruct (checked_add prior s) as [s'|]; [|done]. cbn [ok_or obind]. destruct e as [e|].
  - destruct (checked_add s' e) as [e'|]; [|done]. cbn [ok_or obind]. specialize (IH e').
    by destruct (ranges_of e' ds).
  - specialize (IH prior). by destruct (ranges_of prior ds).
Qed.

(** ** The codec *)

(** What [deserialize] gives for a filter of this kind. *)
Definition rf_ok (kind : RangeFilterKind) (f : RangeFilter) : Prop :=
  is_u8 (set_id f) /\ deltas_ok (deltas f) /\
  match property_type f with
  | Some pt => has_property_type kind = true /\ is_u64 pt
  | None => has_property_type kind = false
  end.

Lemma delta_step_closed acc s e :
  is_u64 s -> is_u64 e ->
  decodes (delta_step acc) (encode_vi s ++ encode_vi e) (acc ++ [(s, Some e)]).
Proof.
  intros Hs He rest. unfold delta_step. rewrite <- app_assoc. unfold pbind at 1.
  rewrite encode_vi_decodes by done. unfold pbind at 1, has_remaining.
  destruct (Z.eqb_spec (blen (encode_vi e ++ rest)) 0) as [Hz|_].
  { exfalso. apply (encode_vi_app_ne e rest He). by apply length_zero_iff_nil; unfold blen in Hz; lia. }
  simpl. unfold pbind. by rewrite encode_vi_decodes.
Qed.

Lemma delta_step_open acc s :
  is_u64 s -> delta_step acc (encode_vi s) = (Ok (acc ++ [(s, None)]), []).
Proof.
  intros Hs. unfold delta_step, pbind.
  by rewrite (decodes_exact _ _ _ (encode_vi_decodes s Hs)).
Qed.

(** One more turn of a [while] on a buffer that is not empty. *)
Lemma pwhile_step {S} (step : S -> parser S) s bs s1 r fuel :
  bs <> [] -> step s bs = (Ok s1, r) -> pwhile (Datatypes.S fuel) step s bs = pwhile fuel step s1 r.
Proof. intros Hne E. destruct bs; [done|]. cbn [pwhile]. unfold pbind. by rewrite E. Qed.

Lemma serialize_deltas_read ds :
  deltas_ok ds ->
  exists bs, serialize_deltas ds = Ok bs /\ bytes_ok bs /\
    forall fuel acc, (length bs <= fuel)%nat -> pwhile fuel delta_step acc bs = (Ok (acc ++ ds), []).
Proof.
  induction ds as [|[s e] ds IH]; intros H.
  - exists []. split; [done|]. split; [constructor|]. intros [|] acc _; by rewrite app_nil_r.
  - simpl in *. destruct e as [e|].
    + destruct H as (Hs&He&Hd). destruct (IH Hd) as (bs&E&Hok&Hr). rewrite E. ser.
      eexists. split; [done|]. split; [bytes_parts|]. intros [|fuel] acc Hf.
      { exfalso. rewrite length_app in Hf. destruct (encode_vi s) eqn:N; [by eapply encode_vi_nonempty; [|exact N]|].
        simpl in Hf. lia. }
      rewrite app_assoc. erewrite pwhile_step; [|by rewrite <- app_assoc; auto with wire|].
      2:{ by apply delta_step_closed. }
      rewrite Hr; [by rewrite <- app_assoc|].
      rewrite !length_app in Hf. destruct (encode_vi s) eqn:N; [by exfalso; eapply encode_vi_nonempty; [|exact N]|].
      simpl in Hf. lia.
    + destruct H as (Hs&->). ser. eexists. split; [done|]. split; [by auto with wire|].
      intros [|fuel] acc Hf.
      { destruct (encode_vi s) eqn:N; [by exfalso; eapply encode_vi_nonempty; [|exact N]|]. simpl in Hf. lia. }
      erewrite pwhile_step; [|by apply encode_vi_nonempty|by apply delta_step_open].
      by destruct fuel.
Qed.

Lemma RangeFilter_reads kind f :
  rf_ok kind f ->
  exists bs, RangeFilter_serialize f = Ok bs /\ bytes_ok bs /\ bs <> [] /\
    RangeFilter_deserialize kind bs = (Ok f, []).
Proof.
  destruct f as [sid pt ds]. intros (Hsid&Hds&Hpt). simpl in *. unfold RangeFilter_serialize.
  destruct (serialize_deltas_read ds Hds) as (bs&E&Hok&Hr). simpl. rewrite E.
  assert (forall b (p : parser (option Z)), decodes p b pt ->
    (let! property_type := p in let! deltas := while_remaining delta_step [] in
     pret (mkRangeFilter sid property_type deltas)) (b ++ bs) = (Ok (mkRangeFilter sid pt ds), [])) as Hp.
  { intros b p Hp. unfold pbind at 1. rewrite Hp. unfold pbind, while_remaining. by rewrite Hr. }
  assert (forall k r, (let! s := get_u8_checked "RangeFilter::deserialize(SetID)" in k s) (sid :: r)
    = (k sid : parser RangeFilter) r) as H8.
  { intros k r. unfold pbind at 1. by rewrite (decodes_u8_checked _ sid r : _ (sid :: r) = _). }
  unfold RangeFilter_deserialize. destruct pt as [pt|].
  - destruct Hpt as [Hk Hp']. ser. eexists. split; [done|].
    split; [constructor; [done|bytes_parts]|]. split; [done|]. rewrite H8, Hk.
    apply Hp. decode.
  - cbn [obind]. eexists. split; [done|]. split; [by constructor|]. split; [done|].
    rewrite H8, Hpt. apply (Hp []). apply decodes_ret.
Qed.

Definition closed (ds : list (Z * option Z)) : Prop := Forall (fun d => is_Some (snd d)) ds.

Lemma deltas_ok_snoc ds s e : closed ds -> deltas_ok ds ->
  is_u64 s -> match e with Some e => is_u64 e | None => True end -> deltas_ok (ds ++ [(s, e)]).
Proof.
  induction ds as [|[s' e'] ds IH]; simpl; intros Hc Hd Hs He.
  - destruct e; auto.
  - inversion Hc as [|? ? Hx]; subst. simpl in Hx. destruct e' as [e'|].
    + destruct Hd as (?&?&?). auto.
    + by destruct Hx.
Qed.

(** A turn leaves the last range open only when the buffer is used up. *)
Lemma delta_step_robust ds bs :
  closed ds -> deltas_ok ds -> bytes_ok bs ->
  match delta_step ds bs with
  | (Ok ds', r) => r `suffix_of` bs /\ (length r + 1 <= length bs)%nat /\ deltas_ok ds' /\
      (r = [] \/ closed ds')
  | (Err _, r) => r `suffix_of` bs
  | _ => False
  end.
Proof.
  intros Hc Hd Hb. unfold delta_step, pbind at 1. pose proof (get_vi_robust bs Hb) as H1.
  destruct (get_vi bs) as [[s|e| |] r]; try done. destruct H1 as (Hsuf&Hl&Hs).
  pose proof (bytes_ok_suffix _ _ Hsuf Hb) as Hr.
  unfold pbind at 1, has_remaining. destruct (Z.eqb_spec (blen r) 0) as [Hz|Hz]; simpl.
  - assert (r = []) as -> by (destruct r; [done|unfold blen in Hz; simpl in Hz; lia]).
    split; [done|]. split; [done|]. split; [by apply deltas_ok_snoc|by left].
  - unfold pbind. pose proof (get_vi_robust r Hr) as H2.
    destruct (get_vi r) as [[e|e| |] r']; try done; [|by etrans].
    destruct H2 as (Hsuf2&Hl2&He). simpl. split; [by etrans|]. split; [lia|].
    split; [by apply deltas_ok_snoc|]. right. apply Forall_snoc; [done|by eexists].
Qed.

Lemma delta_loop_robust : forall fuel ds bs,
  closed ds \/ bs = [] -> deltas_ok ds -> bytes_ok bs -> (length bs <= fuel)%nat ->
  match pwhile fuel delta_step ds bs with
  | (Ok ds', r) => r `suffix_of` bs /\ deltas_ok ds'
  | (Err _, r) => r `suffix_of` bs
  | _ => False
  end.
Proof.
  induction fuel as [|fuel IH]; intros ds bs Hc Hd Hb Hf.
  - destruct bs; [done|simpl in Hf; lia].
  - destruct bs as [|b bs]; [done|]. destruct Hc as [Hc|]; [|done]. cbn [pwhile]. unfold pbind.
    pose proof (delta_step_robust ds (b :: bs) Hc Hd Hb) as H.
    destruct (delta_step ds (b :: bs)) as [[ds1|e| |] r]; try done.
    destruct H as (Hsuf&Hl&Hd1&Hc1). simpl length in *.
    specialize (IH ds1 r ltac:(tauto) Hd1 (bytes_ok_suffix _ _ Hsuf Hb) ltac:(lia)).
    destruct (pwhile fuel delta_step ds1 r) as [[ds'|e'| |] r2]; try done.
    + destruct IH. split; [by etrans|done].
    + by etrans.
Qed.

Lemma deltas_robust : robust 0 (while_remaining delta_step []) deltas_ok.
Proof.
  intros bs Hb. unfold while_remaining.
  pose proof (delta_loop_robust (length bs) [] bs ltac:(left; constructor) I Hb ltac:(lia)) as H.
  destruct (pwhile _ _ _ _) as [[ds|e| |] r]; try done. destruct H as [Hs Hd].
  split; [done|]. split; [|done]. apply suffix_length in Hs. lia.
Qed.
#[export] Hint Resolve deltas_robust : robust.

Lemma RangeFilter_robust kind : robust 1 (RangeFilter_deserialize kind) (rf_ok kind).
Proof.
  unfold RangeFilter_deserialize. robust_step. unfold rf_ok.
  eapply (robust_bind_any 0 0 _ _ (fun pt => match pt with
    | Some pt => has_property_type kind = true /\ is_u64 pt
    | None => has_property_type kind = false end)); [|lia|].
  - robust_go; auto.
  - intros pt Hpt. robust_go. auto.
Qed.
#[export] Hint Resolve RangeFilter_robust : robust.

(** [from_parameter_type] inverts [parameter_type]. *)
Lemma from_parameter_type_spec t k : from_parameter_type t = Some k <-> parameter_type k = t.
Proof. split; [by destruct t; intros [= <-]|]. intros <-. by destruct k. Qed.

(** ** Validation *)

Lemma find_none_Forall (p : Z -> bool) l : find p l = None <-> Forall (fun v => p v = false) l.
Proof.
  induction l as [|v l IH]; simpl; [by split|]. rewrite Forall_cons.
  destruct (p v); [split; [discriminate|by intros []]|tauto].
Qed.

(** What a filter of each kind must satisfy besides its ranges. *)
Definition kind_accepts (kind : RangeFilterKind) (f : RangeFilter) (rs : list Range) : Prop :=
  match property_type f with
  | Some pt => has_property_type kind = true /\ pt mod 2 = 0
  | None => has_property_type kind = false
  end /\
  (kind = RFK_Priority -> Forall (fun v => v <= 255) (range_values rs)).

Lemma validate_spec kind f rs :
  validate f kind = Ok rs <-> RangeFilter_ranges f = Ok rs /\ kind_accepts kind f rs.
Proof.
  unfold validate, kind_accepts.
  assert (forall rs, (match (if bool_decide (kind = RFK_Priority)
     then find (fun v => 255 <? v) (range_values rs) else None) with
     | Some value => Err (RFE_PriorityOutOfRange value) | None => Ok rs end = Ok rs <->
     (kind = RFK_Priority -> Forall (fun v => v <= 255) (range_values rs)))) as Hpr.
  { intros rs'. case_bool_decide as Hk; [|tauto].
    destruct (find _ _) eqn:E.
    - split; [discriminate|]. intros H. specialize (H Hk).
      assert (find (fun v => 255 <? v) (range_values rs') = None) as N; [|congruence].
      apply find_none_Forall. eapply Forall_impl; [exact H|]. cbv beta. intros v Hv. by apply Z.ltb_ge.
    - apply find_none_Forall in E. split; [|done]. intros _ _. eapply Forall_impl; [exact E|].
      cbv beta. intros v Hv. by apply Z.ltb_ge. }
  destruct (property_type f) as [pt|]; destruct (has_property_type kind) eqn:Ek; simpl.
  all: try (split; [discriminate|intros (_&X&_); first [discriminate X|destruct X; discriminate]]).
  - destruct (Z.eqb_spec (pt mod 2) 0); simpl; [|split; [discriminate|intros (_&[_ ?]&_); done]].
    split.
    + intros (rs'&E1&E2)%obind_Ok_inv. rewrite E1.
      assert (rs' = rs) as <- by (repeat case_match; simplify_eq; done). pose proof (proj1 (Hpr _) E2). by repeat split.
    + intros (E&_&H). rewrite E. cbn [obind]. by apply Hpr.
  - split.
    + intros (rs'&E1&E2)%obind_Ok_inv. rewrite E1.
      assert (rs' = rs) as <- by (repeat case_match; simplify_eq; done). pose proof (proj1 (Hpr _) E2). by repeat split.
    + intros (E&_&H). rewrite E. cbn [obind]. by apply Hpr.
Qed.

(** * Properties *)

(** A Range Filter carries its ranges.  Ranges that ascend, only the last
    open, are accepted and come back from [ranges], and the filter survives the
    wire; any other list is refused as [Unordered]. *)
Theorem range_filter_roundtrip kind sid pt rs :
  is_u8 sid -> Forall range_u64 rs ->
  match pt with
  | Some pt => has_property_type kind = true /\ is_u64 pt
  | None => has_property_type kind = false
  end ->
  match RangeFilter_new sid pt rs with
  | Ok f => ranges_ok 0 rs /\ RangeFilter_ranges f = Ok rs /\
      exists bs, RangeFilter_serialize f = Ok bs /\ RangeFilter_deserialize kind bs = (Ok f, [])
  | Err e => ~ ranges_ok 0 rs /\ e = RFE_Unordered
  | _ => False
  end.
Proof.
  intros Hs Hu Hpt. unfold RangeFilter_new.
  assert (ranges_ok 0 rs \/ ~ ranges_ok 0 rs) as [Hr|Hr].
  { destruct (deltas_of 0 rs) eqn:E.
    2-4: right; intros H; destruct (deltas_of_ok rs 0 ltac:(lia) H) as (?&?&_); congruence.
    assert (Decision (ranges_ok 0 rs)) as []; [|by left|by right].
    clear. generalize 0. induction rs as [|[s [e|]] rs IH]; intros p; simpl; [apply _| |apply _].
    specialize (IH e). apply _. }
  - destruct (deltas_of_ok rs 0 ltac:(lia) Hr) as (ds&E&Hds&Er). rewrite E. cbn [obind].
    split; [done|]. split; [done|].
    destruct (RangeFilter_reads kind (mkRangeFilter sid pt ds)) as (bs&Es&_&_&Ed); [by split|eauto].
  - rewrite deltas_of_unordered by done. by split.
Qed.

Lemma range_filter_roundtrip_witness :
  Forall range_u64 [mkRange 2 (Some 4); mkRange 9 None] /\
  match RangeFilter_new 1 None [mkRange 2 (Some 4); mkRange 9 None] with
  | Ok f => ranges_ok 0 [mkRange 2 (Some 4); mkRange 9 None] /\
      RangeFilter_ranges f = Ok [mkRange 2 (Some 4); mkRange 9 None] /\
      exists bs, RangeFilter_serialize f = Ok bs /\ RangeFilter_deserialize RFK_Subgroup bs = (Ok f, [])
  | Err e => ~ ranges_ok 0 [mkRange 2 (Some 4); mkRange 9 None] /\ e = RFE_Unordered
  | _ => False
  end.
Proof.
  assert (Forall range_u64 [mkRange 2 (Some 4); mkRange 9 None]) as H
    by (repeat constructor; unfold is_u64; simpl; lia).
  split; [exact H|].
  apply (range_filter_roundtrip RFK_Subgroup 1 None); [unfold is_u8; lia|exact H|reflexivity].
Defined.

(** On any bytes a Range Filter is read without panic, its ranges are
    added back or refused for overflow, and [validate] accepts exactly the
    filters of the right kind: a Property Type present just for the property
    kinds and even, and no priority above 255.  The ranges it gives ascend. *)
Theorem range_filter_validated kind bs :
  bytes_ok bs ->
  match RangeFilter_deserialize kind bs with
  | (Ok f, _) => returns (RangeFilter_ranges f) /\
      (forall rs, validate f kind = Ok rs <-> RangeFilter_ranges f = Ok rs /\ kind_accepts kind f rs) /\
      (forall rs, validate f kind = Ok rs -> ranges_ok 0 rs)
  | (Err _, _) => True
  | _ => False
  end.
Proof.
  intros Hb. pose proof (RangeFilter_robust kind bs Hb) as H.
  destruct (RangeFilter_deserialize kind bs) as [[f|e| |] r]; try done.
  destruct H as (_&_&_&Hd&_). split; [apply RangeFilter_ranges_returns|].
  split; [apply validate_spec|]. intros rs [E _]%validate_spec.
  by apply ranges_of_ok with (ds := deltas f).
Qed.

Lemma range_filter_validated_witness :
  match RangeFilter_deserialize RFK_Priority [3; 10; 5] with
  | (Ok f, _) => returns (RangeFilter_ranges f) /\
      (forall rs, validate f RFK_Priority = Ok rs <->
         RangeFilter_ranges f = Ok rs /\ kind_accepts RFK_Priority f rs) /\
      (forall rs, validate f RFK_Priority = Ok rs -> ranges_ok 0 rs)
  | (Err _, _) => True
  | _ => False
  end.
Proof.
  apply (range_filter_validated RFK_Priority [3; 10; 5]). repeat constructor; unfold is_u8; lia.
Defined.
