(* ===== verification/AuthorizationToken.v ===== *)
(** Authorization tokens
    ([libs/moqtail-rs/src/model/parameter/authorization_token.rs]). *)
From S2P Require Import Prelude Varint Codes.

Record AuthorizationToken := mkAuthorizationToken {
  alias_type : Z;
  token_alias : option Z;
  token_type : option Z;
  token_value : option bytes
}.

#[export] Instance AuthorizationToken_eq_dec : EqDecision AuthorizationToken.
Proof. solve_decision. Defined.

Definition new_delete (token_alias : Z) : AuthorizationToken :=
  mkAuthorizationToken (TokenAliasType_to_u64 TAT_Delete) (Some token_alias) None None.
Definition new_register (token_alias token_type : Z) (token_value : bytes) : AuthorizationToken :=
  mkAuthorizationToken (TokenAliasType_to_u64 TAT_Register) (Some token_alias) (Some token_type)
    (Some token_value).
Definition new_use_alias (token_alias : Z) : AuthorizationToken :=
  mkAuthorizationToken (TokenAliasType_to_u64 TAT_UseAlias) (Some token_alias) None None.
Definition new_use_value (token_type : Z) (token_value : bytes) : AuthorizationToken :=
  mkAuthorizationToken (TokenAliasType_to_u64 TAT_UseValue) None (Some token_type) (Some token_value).

(** A field its alias type calls for that is missing is left out silently. *)
Definition AuthorizationToken_serialize (self : AuthorizationToken) : result bytes :=
  let? ty := put_vi (alias_type self) in
  let x := alias_type self in
  if x =? TokenAliasType_to_u64 TAT_Delete then
    match token_alias self with
    | Some token_alias => let? a := put_vi token_alias in Ok (ty ++ a)
    | None => Ok ty
    end
  else if x =? TokenAliasType_to_u64 TAT_Register then
    match token_alias self, token_type self, token_value self with
    | Some token_alias, Some token_type, Some token_value =>
        let? a := put_vi token_alias in
        let? t := put_vi token_type in
        Ok (ty ++ a ++ t ++ token_value)
    | _, _, _ => Ok ty
    end
  else if x =? TokenAliasType_to_u64 TAT_UseAlias then
    match token_alias self with
    | Some token_alias => let? a := put_vi token_alias in Ok (ty ++ a)
    | None => Ok ty
    end
  else if x =? TokenAliasType_to_u64 TAT_UseValue then
    match token_type self, token_value self with
    | Some token_type, Some token_value =>
        let? t := put_vi token_type in
        Ok (ty ++ t ++ token_value)
    | _, _ => Ok ty
    end
  else Err (InvalidType "AuthorizationToken::serialize: unknown alias_type").

(** [buf.clone()]: what is left is the value, and it is left in the buffer. *)
Definition rest_of_buffer : parser bytes := fun bs => (Ok bs, bs).

Definition AuthorizationToken_deserialize : parser AuthorizationToken :=
  let! alias_type := get_vi in
  let! alias_type := lift (TokenAliasType_try_from alias_type) in
  match alias_type with
  | TAT_Delete => let! token_alias := get_vi in pret (new_delete token_alias)
  | TAT_Register =>
      let! token_alias := get_vi in
      let! token_type := get_vi in
      let! token_value := rest_of_buffer in
      pret (new_register token_alias token_type token_value)
  | TAT_UseAlias => let! token_alias := get_vi in pret (new_use_alias token_alias)
  | TAT_UseValue =>
      let! token_type := get_vi in
      let! token_value := rest_of_buffer in
      pret (new_use_value token_type token_value)
  end.

(** * Lemmas *)

(** The tokens the four constructors build. *)
Inductive token_ok : AuthorizationToken -> Prop :=
| token_ok_delete a : is_u64 a -> token_ok (new_delete a)
| token_ok_register a t v : is_u64 a -> is_u64 t -> bytes_ok v -> token_ok (new_register a t v)
| token_ok_use_alias a : is_u64 a -> token_ok (new_use_alias a)
| token_ok_use_value t v : is_u64 t -> bytes_ok v -> token_ok (new_use_value t v).

Lemma TokenAliasType_u64 t : is_u64 (TokenAliasType_to_u64 t).
Proof. destruct t; unfold is_u64; simpl; lia. Qed.
#[export] Hint Resolve TokenAliasType_u64 : wire.

Lemma robust_rest_bind {B} (f : bytes -> parser B) Q :
  (forall b, bytes_ok b -> robust 0 (f b) Q) -> robust 0 (pbind rest_of_buffer f) Q.
Proof. intros H bs Hbs. unfold pbind, rest_of_buffer. by apply H. Qed.

(** A token is read back from a buffer of its own. *)
Lemma AuthorizationToken_reads t :
  token_ok t ->
  exists bs, AuthorizationToken_serialize t = Ok bs /\ bytes_ok bs /\ bs <> [] /\
    run_on AuthorizationToken_deserialize bs = Ok t.
Proof.
  assert (forall k r x, run_on (match k with
      | TAT_Delete => let! token_alias := get_vi in pret (new_delete token_alias)
      | TAT_Register => let! token_alias := get_vi in let! token_type := get_vi in
          let! token_value := rest_of_buffer in pret (new_register token_alias token_type token_value)
      | TAT_UseAlias => let! token_alias := get_vi in pret (new_use_alias token_alias)
      | TAT_UseValue => let! token_type := get_vi in let! token_value := rest_of_buffer in
          pret (new_use_value token_type token_value) end) r = Ok x ->
    run_on AuthorizationToken_deserialize (encode_vi (TokenAliasType_to_u64 k) ++ r) = Ok x) as Hd.
  { intros k r x H. unfold run_on, AuthorizationToken_deserialize, pbind at 1.
    rewrite encode_vi_decodes by auto with wire. unfold pbind at 1, lift.
    by rewrite (proj1 TokenAliasType_exact). }
  assert (forall v r, is_u64 v -> get_vi (encode_vi v ++ r) = (Ok v, r)) as Hv
    by (intros; by apply encode_vi_decodes).
  assert (forall v, is_u64 v -> get_vi (encode_vi v) = (Ok v, [])) as Hv'
    by (intros; by apply decodes_exact, encode_vi_decodes).
  destruct 1; unfold AuthorizationToken_serialize; cbn -[put_vi encode_vi]; ser;
    (eexists; split; [done|]; split; [bytes_parts|]; split; [by auto with wire|]).
  - apply (Hd TAT_Delete). unfold run_on, pbind. by rewrite Hv'.
  - apply (Hd TAT_Register). unfold run_on, pbind. by rewrite !Hv.
  - apply (Hd TAT_UseAlias). unfold run_on, pbind. by rewrite Hv'.
  - apply (Hd TAT_UseValue). unfold run_on, pbind. by rewrite Hv.
Qed.

Lemma AuthorizationToken_robust : robust 1 AuthorizationToken_deserialize token_ok.
Proof.
  unfold AuthorizationToken_deserialize. robust_step.
  eapply (robust_bind_any 0 0); [|lia|].
  { apply (robust_registry TokenAliasType_to_u64 _ _ _ (fun _ => True)); [apply TokenAliasType_exact|done]. }
  intros [] _; repeat first [apply robust_rest_bind; intros ? ?|robust_step]; by constructor.
Qed.
#[export] Hint Resolve AuthorizationToken_robust : robust.
