(* ===== verification/Properties.v ===== *)
(** Object and track properties, and the media properties of LOC
    ([libs/moqtail-rs/src/model/property/{object_property,track_property,loc}.rs]).

    Each kind of property is a typed view of a Key-Value-Pair.  [KvpView] is
    what such a view promises; the results on lists of properties are proved
    once from it, and object and track properties are its two instances. *)
From S2P Require Import Prelude Varint Pair Codes.

(** The two private helpers each file has. *)
Definition kvp_varint_value (kvp : KeyValuePair) (context : string) : result Z :=
  match kvp with
  | KvVarInt _ value => Ok value
  | KvBytes _ _ => Err (ProtocolViolation context)
  end.

Definition kvp_bytes_value (kvp : KeyValuePair) (context : string) : result bytes :=
  match kvp with
  | KvBytes _ value => Ok value
  | KvVarInt _ _ => Err (ProtocolViolation context)
  end.

Definition TPT (t : TrackPropertyType) : Z := TrackPropertyType_to_u64 t.

(** [properties.iter().any(|inner| inner.get_type() == ImmutableProperties)]. *)
Definition nests_immutable (properties : list KeyValuePair) : bool :=
  existsb (fun inner => get_type inner =? TPT TPT_ImmutableProperties) properties.

(** * Object properties *)

Inductive ObjectProperty : Type :=
| OP_ImmutableProperties (properties : list KeyValuePair)
| OP_PriorGroupIdGap (gap : Z)
| OP_PriorObjectIdGap (gap : Z)
| OP_Unknown (kvp : KeyValuePair).

Definition ObjectProperty_type_value (self : ObjectProperty) : Z :=
  match self with
  | OP_ImmutableProperties _ => TPT TPT_ImmutableProperties
  | OP_PriorGroupIdGap _ => TPT TPT_PriorGroupIdGap
  | OP_PriorObjectIdGap _ => TPT TPT_PriorObjectIdGap
  | OP_Unknown kvp => get_type kvp
  end.

Definition ObjectProperty_try_into (self : ObjectProperty) : result KeyValuePair :=
  match self with
  | OP_ImmutableProperties properties =>
      let? b := serialize_kvp_list properties in
      try_new_bytes (TPT TPT_ImmutableProperties) b
  | OP_PriorGroupIdGap gap => try_new_varint (TPT TPT_PriorGroupIdGap) gap
  | OP_PriorObjectIdGap gap => try_new_varint (TPT TPT_PriorObjectIdGap) gap
  | OP_Unknown kvp => Ok kvp
  end.

Definition ObjectProperty_serialize (self : ObjectProperty) : result bytes :=
  let? kvp := ObjectProperty_try_into self in KeyValuePair_serialize kvp.

Definition ObjectProperty_deserialize (kvp : KeyValuePair) : result ObjectProperty :=
  match TrackPropertyType_try_from (get_type kvp) with
  | Ok TPT_ImmutableProperties =>
      let? buf := kvp_bytes_value kvp "ObjectProperty::deserialize(ImmutableProperties)" in
      let? properties := run_on deserialize_kvp_list_until_empty buf in
      if nests_immutable properties
      then Err (ProtocolViolation "ObjectProperty::deserialize(ImmutableProperties)")
      else Ok (OP_ImmutableProperties properties)
  | Ok TPT_PriorGroupIdGap =>
      let? value := kvp_varint_value kvp "ObjectProperty::deserialize(PriorGroupIdGap)" in
      Ok (OP_PriorGroupIdGap value)
  | Ok TPT_PriorObjectIdGap =>
      let? value := kvp_varint_value kvp "ObjectProperty::deserialize(PriorObjectIdGap)" in
      Ok (OP_PriorObjectIdGap value)
  | Ok _ => Ok (OP_Unknown kvp)
  | _ => Ok (OP_Unknown kvp)
  end.

Definition serialize_object_properties (exts : list ObjectProperty) : result bytes :=
  let? kvps := collect (map ObjectProperty_try_into exts) in
  serialize_kvp_list kvps.

Definition deserialize_object_properties : parser (list ObjectProperty) :=
  let! kvps := deserialize_kvp_list_until_empty in
  lift (collect (map ObjectProperty_deserialize kvps)).

(** The loop of [validate_prior_gaps]. *)
Fixpoint check_prior_gaps (group_id object_id : Z) (properties : list ObjectProperty) : result unit :=
  match properties with
  | [] => Ok tt
  | property :: rest =>
      match property with
      | OP_PriorGroupIdGap gap =>
          if group_id <? gap then Err (ProtocolViolation "validate_prior_gaps")
          else check_prior_gaps group_id object_id rest
      | OP_PriorObjectIdGap gap =>
          if object_id <? gap then Err (ProtocolViolation "validate_prior_gaps")
          else check_prior_gaps group_id object_id rest
      | _ => check_prior_gaps group_id object_id rest
      end
  end.

Definition validate_prior_gaps (group_id object_id : Z) (properties : option (list ObjectProperty))
    : result unit :=
  match properties with
  | None => Ok tt
  | Some properties => check_prior_gaps group_id object_id properties
  end.

(** * Track properties *)

Inductive TrackProperty : Type :=
| TP_ObjectDeliveryTimeout (timeout_ms : Z)
| TP_SubgroupDeliveryTimeout (timeout_ms : Z)
| TP_MaxCacheDuration (duration_ms : Z)
| TP_ImmutableProperties (properties : list KeyValuePair)
| TP_DefaultPublisherPriority (priority : Z)
| TP_DefaultPublisherGroupOrder (order : GroupOrder)
| TP_DynamicGroups (enabled : bool)
| TP_Unknown (kvp : KeyValuePair)
| TP_UnknownMandatory (kvp : KeyValuePair).

(** [MANDATORY_TRACK_PROPERTY_RANGE.contains(&v)]. *)
Definition in_mandatory_range (v : Z) : bool := (0x4000 <=? v) && (v <=? 0x7fff).

Definition has_unsupported_mandatory (properties : list TrackProperty) : bool :=
  existsb (fun p => match p with TP_UnknownMandatory _ => true | _ => false end) properties.

Definition TrackProperty_type_value (self : TrackProperty) : Z :=
  match self with
  | TP_ObjectDeliveryTimeout _ => TPT TPT_ObjectDeliveryTimeout
  | TP_SubgroupDeliveryTimeout _ => TPT TPT_SubgroupDeliveryTimeout
  | TP_MaxCacheDuration _ => TPT TPT_MaxCacheDuration
  | TP_ImmutableProperties _ => TPT TPT_ImmutableProperties
  | TP_DefaultPublisherPriority _ => TPT TPT_DefaultPublisherPriority
  | TP_DefaultPublisherGroupOrder _ => TPT TPT_DefaultPublisherGroupOrder
  | TP_DynamicGroups _ => TPT TPT_DynamicGroups
  | TP_Unknown kvp | TP_UnknownMandatory kvp => get_type kvp
  end.

Definition TrackProperty_try_into (self : TrackProperty) : result KeyValuePair :=
  match self with
  | TP_ObjectDeliveryTimeout timeout_ms => try_new_varint (TPT TPT_ObjectDeliveryTimeout) timeout_ms
  | TP_SubgroupDeliveryTimeout timeout_ms => try_new_varint (TPT TPT_SubgroupDeliveryTimeout) timeout_ms
  | TP_MaxCacheDuration duration_ms => try_new_varint (TPT TPT_MaxCacheDuration) duration_ms
  | TP_ImmutableProperties properties =>
      let? b := serialize_kvp_list properties in
      try_new_bytes (TPT TPT_ImmutableProperties) b
  | TP_DefaultPublisherPriority priority => try_new_varint (TPT TPT_DefaultPublisherPriority) priority
  | TP_DefaultPublisherGroupOrder order =>
      try_new_varint (TPT TPT_DefaultPublisherGroupOrder) (GroupOrder_to_u8 order)
  | TP_DynamicGroups enabled => try_new_varint (TPT TPT_DynamicGroups) (if enabled then 1 else 0)
  | TP_Unknown kvp | TP_UnknownMandatory kvp => Ok kvp
  end.

Definition TrackProperty_serialize (self : TrackProperty) : result bytes :=
  let? kvp := TrackProperty_try_into self in KeyValuePair_serialize kvp.

Definition TrackProperty_deserialize (kvp : KeyValuePair) : result TrackProperty :=
  match TrackPropertyType_try_from (get_type kvp) with
  | Ok TPT_ObjectDeliveryTimeout =>
      let? value := kvp_varint_value kvp "TrackProperty::deserialize(ObjectDeliveryTimeout)" in
      Ok (TP_ObjectDeliveryTimeout value)
  | Ok TPT_SubgroupDeliveryTimeout =>
      let? value := kvp_varint_value kvp "TrackProperty::deserialize(SubgroupDeliveryTimeout)" in
      Ok (TP_SubgroupDeliveryTimeout value)
  | Ok TPT_MaxCacheDuration =>
      let? value := kvp_varint_value kvp "TrackProperty::deserialize(MaxCacheDuration)" in
      Ok (TP_MaxCacheDuration value)
  | Ok TPT_ImmutableProperties =>
      let? buf := kvp_bytes_value kvp "TrackProperty::deserialize(ImmutableProperties)" in
      let? properties := run_on deserialize_kvp_list_until_empty buf in
      if nests_immutable properties
      then Err (ProtocolViolation "TrackProperty::deserialize(ImmutableProperties)")
      else Ok (TP_ImmutableProperties properties)
  | Ok TPT_DefaultPublisherPriority =>
      let? value := kvp_varint_value kvp "TrackProperty::deserialize(DefaultPublisherPriority)" in
      if 255 <? value
      then Err (ProtocolViolation "TrackProperty::deserialize(DefaultPublisherPriority)")
      else Ok (TP_DefaultPublisherPriority (value mod U8))
  | Ok TPT_DefaultPublisherGroupOrder =>
      let? value := kvp_varint_value kvp "TrackProperty::deserialize(DefaultPublisherGroupOrder)" in
      if value =? 1 then Ok (TP_DefaultPublisherGroupOrder GO_Ascending)
      else if value =? 2 then Ok (TP_DefaultPublisherGroupOrder GO_Descending)
      else Err (ProtocolViolation "TrackProperty::deserialize(DefaultPublisherGroupOrder)")
  | Ok TPT_DynamicGroups =>
      let? value := kvp_varint_value kvp "TrackProperty::deserialize(DynamicGroups)" in
      if value =? 0 then Ok (TP_DynamicGroups false)
      else if value =? 1 then Ok (TP_DynamicGroups true)
      else Err (ProtocolViolation "TrackProperty::deserialize(DynamicGroups)")
  | Ok _ => Ok (TP_Unknown kvp)
  | _ =>
      if in_mandatory_range (get_type kvp) then Ok (TP_UnknownMandatory kvp)
      else Ok (TP_Unknown kvp)
  end.

Definition serialize_track_properties (exts : list TrackProperty) : result bytes :=
  let? kvps := collect (map TrackProperty_try_into exts) in
  serialize_kvp_list kvps.

Definition deserialize_track_properties : parser (list TrackProperty) :=
  let! kvps := deserialize_kvp_list_until_empty in
  lift (collect (map TrackProperty_deserialize kvps)).

(** * LOC properties *)

Inductive LOCProperty : Type :=
| LP_Timestamp (value : Z)
| LP_Timescale (value : Z)
| LP_VideoFrameMarking (value : bytes)
| LP_AudioLevel (value : Z)
| LP_VideoConfig (value : bytes)
| LP_AudioConfig (value : bytes).

Definition LOCProperty_id (self : LOCProperty) : LOCPropertyId :=
  match self with
  | LP_Timestamp _ => LOC_Timestamp
  | LP_Timescale _ => LOC_Timescale
  | LP_VideoFrameMarking _ => LOC_VideoFrameMarking
  | LP_AudioLevel _ => LOC_AudioLevel
  | LP_VideoConfig _ => LOC_VideoConfig
  | LP_AudioConfig _ => LOC_AudioConfig
  end.

Definition LOCProperty_serialize (self : LOCProperty) : result bytes :=
  let? id := put_vi (LOCPropertyId_to_u64 (LOCProperty_id self)) in
  match self with
  | LP_Timestamp value | LP_Timescale value | LP_AudioLevel value =>
      let? v := put_vi value in Ok (id ++ v)
  | LP_VideoFrameMarking value | LP_VideoConfig value | LP_AudioConfig value =>
      let? len := put_vi (blen value) in Ok (id ++ len ++ value)
  end.

Definition is_independent_frame (self : LOCProperty) : bool :=
  match self with
  | LP_VideoFrameMarking (b :: _) => negb (Z.land b 0x20 =? 0)
  | _ => false
  end.

Definition LOCProperty_deserialize : parser LOCProperty :=
  let! id := get_vi in
  let! loc_property_id := lift (LOCPropertyId_try_from id) in
  let get_value := get_len_bytes "LOCProperty::deserialize(payload_length)"
                     "LOCProperty::deserialize(value)" in
  match loc_property_id with
  | LOC_VideoFrameMarking => let! value := get_value in pret (LP_VideoFrameMarking value)
  | LOC_AudioConfig => let! value := get_value in pret (LP_AudioConfig value)
  | LOC_VideoConfig => let! value := get_value in pret (LP_VideoConfig value)
  | LOC_AudioLevel => let! value := get_vi in pret (LP_AudioLevel value)
  | LOC_Timestamp => let! value := get_vi in pret (LP_Timestamp value)
  | LOC_Timescale => let! value := get_vi in pret (LP_Timescale value)
  end.

Definition LOCProperty_try_from (pair : KeyValuePair) : result LOCProperty :=
  match pair with
  | KvVarInt type_value value =>
      let? id := LOCPropertyId_try_from type_value in
      match id with
      | LOC_AudioLevel => Ok (LP_AudioLevel value)
      | LOC_Timestamp => Ok (LP_Timestamp value)
      | LOC_Timescale => Ok (LP_Timescale value)
      | _ => Err (InvalidType "LOCProperty::try_from(KeyValuePair::VarInt)")
      end
  | KvBytes type_value value =>
      let? id := LOCPropertyId_try_from type_value in
      match id with
      | LOC_VideoFrameMarking => Ok (LP_VideoFrameMarking value)
      | LOC_VideoConfig => Ok (LP_VideoConfig value)
      | LOC_AudioConfig => Ok (LP_AudioConfig value)
      | _ => Err (InvalidType "LOCProperty::try_from(KeyValuePair::Bytes)")
      end
  end.

(** * Typed views of pairs *)

(** What a view of pairs as properties promises: a property turns into a pair
    of its type that is viewed as the property again; and every well-formed
    pair is viewed as a well-formed property of its type, or refused. *)
Class KvpView {P} (wf : P -> Prop) (to_kvp : P -> result KeyValuePair)
    (of_kvp : KeyValuePair -> result P) (ty : P -> Z) : Prop := {
  view_to p : wf p -> exists k, to_kvp p = Ok k /\ kvp_wf k /\ get_type k = ty p /\ of_kvp k = Ok p;
  view_of k : kvp_wf k -> returns (of_kvp k) /\ forall p, of_kvp k = Ok p -> wf p /\ ty p = get_type k
}.

Section Views.
Context {P : Type} (wf : P -> Prop) (to_kvp : P -> result KeyValuePair)
  (of_kvp : KeyValuePair -> result P) (ty : P -> Z) `{!KvpView wf to_kvp of_kvp ty}.

(** [serialize_*_properties] and [deserialize_*_properties]. *)
Definition ser_properties (ps : list P) : result bytes :=
  let? kvps := collect (map to_kvp ps) in serialize_kvp_list kvps.
Definition de_properties : parser (list P) :=
  let! kvps := deserialize_kvp_list_until_empty in lift (collect (map of_kvp kvps)).

Definition viewed (k : KeyValuePair) (p : P) : Prop :=
  to_kvp p = Ok k /\ kvp_wf k /\ get_type k = ty p /\ of_kvp k = Ok p.

Lemma viewed_list ps : Forall wf ps -> exists ks, Forall2 viewed ks ps.
Proof.
  induction 1 as [|p ps Hp _ [ks IH]]; [by exists []|].
  destruct (view_to p Hp) as (k&?&?&?&?). exists (k :: ks). by constructor.
Qed.

Lemma viewed_to ks ps : Forall2 viewed ks ps -> collect (map to_kvp ps) = Ok ks.
Proof. intros H. apply collect_map_Ok. induction H as [|k p ks ps (?&_) _ IH]; by constructor. Qed.
Lemma viewed_of ks ps : Forall2 viewed ks ps -> collect (map of_kvp ks) = Ok ps.
Proof. intros H. apply collect_map_Ok. induction H as [|k p ks ps (_&_&_&?) _ IH]; by constructor. Qed.
Lemma viewed_wf ks ps : Forall2 viewed ks ps -> Forall kvp_wf ks.
Proof. induction 1 as [|k p ks ps (_&?&_) _ IH]; by constructor. Qed.

(** Sorting the pairs sorts the properties alike. *)
Lemma viewed_sort ks ps :
  Forall2 viewed ks ps -> Forall2 viewed (sort_by_key get_type ks) (sort_by_key ty ps).
Proof. apply sort_by_key_Forall2. by intros k p (_&_&?&_). Qed.

Lemma properties_roundtrip ps :
  Forall wf ps ->
  exists bs, ser_properties ps = Ok bs /\ bytes_ok bs /\ de_properties bs = (Ok (sort_by_key ty ps), []).
Proof.
  intros H. destruct (viewed_list ps H) as [ks Hks]. pose proof (viewed_wf _ _ Hks) as Hwf.
  unfold ser_properties. rewrite (viewed_to _ _ Hks). cbn [obind].
  destruct (serialize_kvp_list_Ok ks Hwf) as [bs E]. exists bs. split; [done|].
  destruct (kvp_list_until_empty_decodes ks bs Hwf E) as [Hd Hok]. split; [done|].
  unfold de_properties, pbind, lift. rewrite Hd. by rewrite (viewed_of _ _ (viewed_sort _ _ Hks)).
Qed.

Lemma collect_views ks :
  Forall kvp_wf ks -> returns (collect (map of_kvp ks)) /\
  forall ps, collect (map of_kvp ks) = Ok ps -> Forall wf ps /\ map ty ps = map get_type ks.
Proof.
  induction 1 as [|k ks Hk _ [IH1 IH2]]; simpl; [by split; [|intros ? [= <-]]|].
  destruct (view_of k Hk) as [H1 H2]. destruct (of_kvp k) as [p|e| |]; try done. simpl.
  destruct (collect (map of_kvp ks)) as [ps|e| |]; try done. simpl. split; [done|].
  intros ? [= <-]. destruct (IH2 ps eq_refl) as [? E]. destruct (H2 p eq_refl).
  split; [by constructor|]. simpl. congruence.
Qed.

Lemma sorted_map_key {A B} (f : A -> Z) (g : B -> Z) (l : list A) (l' : list B) :
  map f l = map g l' -> StronglySorted (key_le g) l' -> StronglySorted (key_le f) l.
Proof.
  revert l'. induction l as [|a l IH]; intros [|b l'] E H; simplify_eq/=; [constructor|].
  inversion H as [|? ? Hs Hb]; subst. constructor; [by eapply IH|].
  unfold key_le in *. apply Forall_forall. intros x Hx%list_elem_of_In.
  apply (in_map f) in Hx. rewrite H1 in Hx. apply in_map_iff in Hx as (y&Ey&Hy%list_elem_of_In).
  rewrite Forall_forall in Hb. specialize (Hb y Hy). lia.
Qed.

Lemma properties_robust :
  robust 0 de_properties (fun ps => Forall wf ps /\ StronglySorted (key_le ty) ps).
Proof.
  unfold de_properties. eapply robust_bind_l; [apply kvp_list_until_empty_robust|].
  intros ks [Hwf Has]. destruct (collect_views ks Hwf) as [H1 H2].
  apply robust_lift; [done|]. intros ps E. destruct (H2 ps E) as [? Em].
  split; [done|]. by eapply sorted_map_key.
Qed.

(** What was read is forwarded as it is. *)
Lemma properties_forwardable bs ps r :
  bytes_ok bs -> de_properties bs = (Ok ps, r) ->
  exists bs', ser_properties ps = Ok bs' /\ de_properties bs' = (Ok ps, []).
Proof.
  intros Hb E. destruct (robust_Ok_inv _ _ _ _ _ _ properties_robust Hb E) as [_ [Hwf Hs]].
  destruct (properties_roundtrip ps Hwf) as (bs'&Es&_&Ed). exists bs'. split; [done|].
  by rewrite (sort_by_key_id _ _ Hs) in Ed.
Qed.
End Views.

(** ** The nested list of immutable properties *)

Definition immutable_ok (l : list KeyValuePair) : Prop :=
  Forall kvp_wf l /\ ascending l /\ nests_immutable l = false /\
  forall b, serialize_kvp_list l = Ok b -> blen b <= MAX_VALUE_LENGTH.

Lemma immutable_to l :
  immutable_ok l ->
  exists b, (let? b := serialize_kvp_list l in try_new_bytes (TPT TPT_ImmutableProperties) b) =
    Ok (KvBytes (TPT TPT_ImmutableProperties) b) /\
    kvp_wf (KvBytes (TPT TPT_ImmutableProperties) b) /\
    run_on deserialize_kvp_list_until_empty b = Ok l.
Proof.
  intros (Hwf&Has&Hn&Hlen). destruct (serialize_kvp_list_Ok l Hwf) as [b E]. exists b.
  specialize (Hlen b E). destruct (kvp_list_until_empty_decodes l b Hwf E) as [Hd Hok].
  rewrite sort_by_key_id in Hd by done. rewrite E. cbn [obind].
  unfold try_new_bytes, new_bytes, run_on. rewrite Hd.
  replace (is_multiple_of (TPT TPT_ImmutableProperties) 2) with false by reflexivity.
  rewrite (proj2 (Z.ltb_ge _ _)) by done. split; [done|]. split; [|done].
  unfold TPT, is_u64. simpl. repeat split; try lia; done.
Qed.

Lemma immutable_of b l :
  bytes_ok b -> blen b <= MAX_VALUE_LENGTH -> run_on deserialize_kvp_list_until_empty b = Ok l ->
  nests_immutable l = false -> immutable_ok l.
Proof.
  intros Hb Hlen E Hn. unfold run_on in E.
  destruct (deserialize_kvp_list_until_empty b) as [o r] eqn:E'. simpl in E. subst o.
  destruct (robust_Ok_inv _ _ _ _ _ _ kvp_list_until_empty_robust Hb E') as [_ [Hwf Has]].
  destruct (kvp_list_forward_length _ _ _ Hb E') as (b'&Eb&Hl).
  split; [done|]. split; [done|]. split; [done|]. intros ? E2. unfold blen in *.
  rewrite Eb in E2. simplify_eq. lia.
Qed.

Lemma immutable_returns b : bytes_ok b -> returns (run_on deserialize_kvp_list_until_empty b).
Proof. intros Hb. by eapply (robust_run_on 0 _ _ _ kvp_list_until_empty_robust). Qed.

(** ** Object properties *)

Definition op_ok (p : ObjectProperty) : Prop :=
  match p with
  | OP_ImmutableProperties l => immutable_ok l
  | OP_PriorGroupIdGap gap | OP_PriorObjectIdGap gap => is_u64 gap
  | OP_Unknown k => kvp_wf k /\ Forall (fun t => get_type k <> TPT t)
      [TPT_ImmutableProperties; TPT_PriorGroupIdGap; TPT_PriorObjectIdGap]
  end.

Lemma TPT_try_from k :
  (exists t, TrackPropertyType_try_from (get_type k) = Ok t /\ get_type k = TPT t) \/
  ((exists e, TrackPropertyType_try_from (get_type k) = Err e) /\ forall t, get_type k <> TPT t).
Proof.
  apply (registry_cases TrackPropertyType_to_u64), TrackPropertyType_exact.
Qed.

(** A pair whose Type is even is a varint, one whose Type is odd is bytes. *)
Lemma kvp_wf_varint k t :
  kvp_wf k -> get_type k = t -> is_multiple_of t 2 = true -> exists v, k = KvVarInt t v /\ is_u64 v.
Proof. destruct k; simpl; intros H <- E; [|destruct H as (_&?&_); congruence]. destruct H as (_&_&?). eauto. Qed.
Lemma kvp_wf_bytes k t :
  kvp_wf k -> get_type k = t -> is_multiple_of t 2 = false ->
  exists v, k = KvBytes t v /\ bytes_ok v /\ blen v <= MAX_VALUE_LENGTH.
Proof. destruct k; simpl; intros H <- E; [destruct H as (_&?&_); congruence|]. destruct H as (_&_&?&?). eauto. Qed.

(** The view of a pair of a known varint Type. *)
Ltac varint_view Hk Et :=
  let v := fresh "v" in let Hv := fresh "Hv" in
  destruct (kvp_wf_varint _ _ Hk Et eq_refl) as (v&->&Hv); simpl.

#[export] Instance ObjectProperty_view :
  KvpView op_ok ObjectProperty_try_into ObjectProperty_deserialize ObjectProperty_type_value.
Proof.
  split.
  - intros [l|g|g|k] H; cbn [op_ok ObjectProperty_try_into ObjectProperty_type_value] in *.
    + destruct (immutable_to l H) as (b&E&Hw&Hr). rewrite E. eexists. do 3 (split; [done|]).
      unfold ObjectProperty_deserialize. cbn -[deserialize_kvp_list_until_empty].
      rewrite Hr. simpl. destruct H as (_&_&->&_). done.
    + eexists. split; [done|]. unfold TPT, is_u64 in *. simpl. repeat split; (done || lia).
    + eexists. split; [done|]. unfold TPT, is_u64 in *. simpl. repeat split; (done || lia).
    + destruct H as [Hk Hf]. rewrite !Forall_cons in Hf. destruct Hf as (H1&H2&H3&_).
      eexists. do 3 (split; [done|]). unfold ObjectProperty_deserialize.
      destruct (TPT_try_from k) as [(t&->&Et)|[(e&->) _]]; [|done]. by destruct t.
  - intros k Hk. unfold ObjectProperty_deserialize.
    destruct (TPT_try_from k) as [(t&->&Et)|[(e&->) Hno]].
    + destruct t; try (split; [done|]; intros ? [= <-]; simpl; split; [|done]; split; [done|];
        rewrite Et; by repeat constructor).
      * destruct (kvp_wf_bytes _ _ Hk Et eq_refl) as (b&->&Hb&Hl).
        cbn [kvp_bytes_value obind]. pose proof (immutable_returns b Hb).
        destruct (run_on deserialize_kvp_list_until_empty b) as [l|e| |] eqn:E; try done. simpl.
        destruct (nests_immutable l) eqn:En; [done|]. split; [done|]. intros ? [= <-].
        split; [by eapply immutable_of|done].
      * varint_view Hk Et. split; [done|]. intros ? [= <-]. done.
      * varint_view Hk Et. split; [done|]. intros ? [= <-]. done.
    + split; [done|]. intros ? [= <-]. simpl. split; [|done]. split; [done|]. by repeat constructor.
Qed.

(** ** Track properties *)

Definition tp_ok (p : TrackProperty) : Prop :=
  match p with
  | TP_ObjectDeliveryTimeout v | TP_SubgroupDeliveryTimeout v | TP_MaxCacheDuration v => is_u64 v
  | TP_ImmutableProperties l => immutable_ok l
  | TP_DefaultPublisherPriority v => is_u8 v
  | TP_DefaultPublisherGroupOrder o => o = GO_Ascending \/ o = GO_Descending
  | TP_DynamicGroups _ => True
  | TP_Unknown k => kvp_wf k /\
      (get_type k = TPT TPT_PriorGroupIdGap \/ get_type k = TPT TPT_PriorObjectIdGap \/
       (in_mandatory_range (get_type k) = false /\ forall t, get_type k <> TPT t))
  | TP_UnknownMandatory k => kvp_wf k /\ in_mandatory_range (get_type k) = true
  end.

Lemma mandatory_unknown k : in_mandatory_range (get_type k) = true -> forall t, get_type k <> TPT t.
Proof. intros H [] E; rewrite E in H; discriminate. Qed.

Lemma varint_view_to t v : is_u64 v -> is_u64 t -> is_multiple_of t 2 = true ->
  try_new_varint t v = Ok (KvVarInt t v) /\ kvp_wf (KvVarInt t v).
Proof. intros. unfold try_new_varint. rewrite H1. done. Qed.

Lemma tp_view_to p : tp_ok p ->
  exists k, TrackProperty_try_into p = Ok k /\ kvp_wf k /\ get_type k = TrackProperty_type_value p /\
    TrackProperty_deserialize k = Ok p.
Proof.
  assert (is_u64 0 /\ is_u64 1 /\ is_u64 2) as (H0&H1&H2) by (unfold is_u64; lia).
  destruct p as [v|v|v|l|v|o|e|k|k]; cbn [tp_ok TrackProperty_try_into TrackProperty_type_value].
  1-3: intros H; eexists; split; [done|]; by unfold TPT, is_u64 in *; simpl; repeat split; (done || lia).
  - intros H. destruct (immutable_to l H) as (b&E&Hw&Hr). rewrite E. eexists. do 3 (split; [done|]).
    unfold TrackProperty_deserialize. cbn -[deserialize_kvp_list_until_empty].
    rewrite Hr. simpl. destruct H as (_&_&->&_). done.
  - intros H. eexists. split; [done|]. split; [unfold TPT, is_u64, is_u8 in *; simpl; repeat split; (done || lia)|].
    split; [done|]. unfold TrackProperty_deserialize. simpl. unfold is_u8 in H.
    rewrite (proj2 (Z.ltb_ge _ _)) by lia. by rewrite Z.mod_small by lia.
  - intros [-> | ->]; (eexists; split; [reflexivity|]); by repeat split.
  - intros _. destruct e; (eexists; split; [reflexivity|]); by repeat split.
  - intros [Hk Ht]. eexists. do 3 (split; [done|]). unfold TrackProperty_deserialize.
    destruct Ht as [E|[E|[Hr Hno]]]; [by rewrite E..|].
    destruct (TPT_try_from k) as [(t&_&Et)|[(e&->) _]]; [by apply Hno in Et|]. by rewrite Hr.
  - intros [Hk Hr]. eexists. do 3 (split; [done|]). unfold TrackProperty_deserialize.
    destruct (TPT_try_from k) as [(t&_&Et)|[(e&->) _]]; [by apply mandatory_unknown with (t := t) in Hr|].
    by rewrite Hr.
Qed.

Lemma tp_view_of k : kvp_wf k ->
  returns (TrackProperty_deserialize k) /\
  forall p, TrackProperty_deserialize k = Ok p -> tp_ok p /\ TrackProperty_type_value p = get_type k.
Proof.
  intros Hk. unfold TrackProperty_deserialize.
  destruct (TPT_try_from k) as [(t&->&Et)|[(e&->) Hno]].
  - destruct t.
    all: try (varint_view Hk Et; split; [done|]; by intros ? [= <-]).
    + destruct (kvp_wf_bytes _ _ Hk Et eq_refl) as (b&->&Hb&Hl).
      cbn [kvp_bytes_value obind]. pose proof (immutable_returns b Hb).
      destruct (run_on deserialize_kvp_list_until_empty b) as [l|e| |] eqn:E; try done. simpl.
      destruct (nests_immutable l) eqn:En; [done|]. split; [done|]. intros ? [= <-].
      split; [by eapply immutable_of|done].
    + varint_view Hk Et. case_if; [done|]. breflect. split; [done|]. intros ? [= <-].
      unfold is_u64 in Hv. simpl. rewrite Z.mod_small by lia. split; [unfold is_u8; lia|done].
    + varint_view Hk Et. repeat case_if; (split; [done|]); intros ? [= <-]; simpl; auto.
    + varint_view Hk Et. repeat case_if; (split; [done|]); by intros ? [= <-].
    + split; [done|]. intros ? [= <-]. simpl. auto.
    + split; [done|]. intros ? [= <-]. simpl. auto.
  - destruct (in_mandatory_range (get_type k)) eqn:Hr; (split; [done|]); intros ? [= <-]; simpl; auto 10.
Qed.

#[export] Instance TrackProperty_view :
  KvpView tp_ok TrackProperty_try_into TrackProperty_deserialize TrackProperty_type_value.
Proof. split; [apply tp_view_to|apply tp_view_of]. Qed.

Lemma op_properties_robust : robust 0 deserialize_object_properties
  (fun ps => Forall op_ok ps /\ StronglySorted (key_le ObjectProperty_type_value) ps).
Proof. apply (properties_robust _ ObjectProperty_try_into). apply _. Qed.
Lemma tp_properties_robust : robust 0 deserialize_track_properties
  (fun ps => Forall tp_ok ps /\ StronglySorted (key_le TrackProperty_type_value) ps).
Proof. apply (properties_robust _ TrackProperty_try_into). apply _. Qed.
#[export] Hint Resolve op_properties_robust tp_properties_robust : robust.

Lemma op_properties_roundtrip ps : Forall op_ok ps ->
  exists bs, serialize_object_properties ps = Ok bs /\ bytes_ok bs /\
    deserialize_object_properties bs = (Ok (sort_by_key ObjectProperty_type_value ps), []).
Proof. apply (properties_roundtrip op_ok). apply _. Qed.
Lemma tp_properties_roundtrip ps : Forall tp_ok ps ->
  exists bs, serialize_track_properties ps = Ok bs /\ bytes_ok bs /\
    deserialize_track_properties bs = (Ok (sort_by_key TrackProperty_type_value ps), []).
Proof. apply (properties_roundtrip tp_ok). apply _. Qed.

(** Object properties that fit a length-prefixed block, and the block. *)
Definition op_list_ok (ps : list ObjectProperty) : Prop :=
  Forall op_ok ps /\ forall b, serialize_object_properties ps = Ok b -> blen b < U64.

Lemma op_list_block ps : op_list_ok ps ->
  exists b, serialize_object_properties ps = Ok b /\ data_ok b /\
    run_on deserialize_object_properties b = Ok (sort_by_key ObjectProperty_type_value ps).
Proof.
  intros [Hp Hl]. destruct (op_properties_roundtrip ps Hp) as (b&E&Hb&Hd).
  exists b. split; [done|]. split; [split; auto|]. unfold run_on. by rewrite Hd.
Qed.

(** What is read out of a block of [n] bytes. *)
Lemma op_block_read b e : bytes_ok b ->
  robust 0 (lift (omap_err (fun _ => e) (run_on deserialize_object_properties b)))
    (fun ps => Forall op_ok ps /\ StronglySorted (key_le ObjectProperty_type_value) ps).
Proof.
  intros Hb. destruct (robust_run_on _ _ _ b op_properties_robust Hb) as [R Q].
  apply robust_lift; destruct (run_on deserialize_object_properties b); simpl in *; try done.
Qed.
#[export] Hint Resolve op_block_read : robust.

(** ** Prior gaps *)

Definition gap_ok (group_id object_id : Z) (p : ObjectProperty) : Prop :=
  match p with
  | OP_PriorGroupIdGap gap => gap <= group_id
  | OP_PriorObjectIdGap gap => gap <= object_id
  | _ => True
  end.

Lemma validate_prior_gaps_spec g o ps :
  returns (validate_prior_gaps g o (Some ps)) /\
  (validate_prior_gaps g o (Some ps) = Ok tt <-> Forall (gap_ok g o) ps).
Proof.
  simpl. induction ps as [|p ps [IH1 IH2]]; simpl; [by split|]. rewrite Forall_cons.
  destruct p as [l|gap|gap|k]; simpl; try (split; [done|tauto]).
  - destruct (Z.ltb_spec g gap); [|split; [done|tauto]].
    split; [done|]. split; [discriminate|intros []; lia].
  - destruct (Z.ltb_spec o gap); [|split; [done|tauto]].
    split; [done|]. split; [discriminate|intros []; lia].
Qed.

(** ** LOC properties *)

Definition loc_property_ok (p : LOCProperty) : Prop :=
  match p with
  | LP_Timestamp v | LP_Timescale v | LP_AudioLevel v => is_u64 v
  | LP_VideoFrameMarking b | LP_VideoConfig b | LP_AudioConfig b => data_ok b
  end.

Lemma LOCPropertyId_exact : registry_exact LOCPropertyId_to_u64 LOCPropertyId_try_from.
Proof. registry. Qed.
Lemma LOCPropertyId_u64 t : is_u64 (LOCPropertyId_to_u64 t).
Proof. destruct t; unfold is_u64; simpl; lia. Qed.
Lemma decodes_loc_id t : decodes (lift (LOCPropertyId_try_from (LOCPropertyId_to_u64 t))) [] t.
Proof. rewrite (proj1 LOCPropertyId_exact). apply decodes_lift. Qed.
#[export] Hint Resolve LOCPropertyId_u64 decodes_loc_id decodes_len_bytes : wire.

#[export] Instance Wire_LOCProperty :
  Wire loc_property_ok LOCProperty_serialize LOCProperty_deserialize.
Proof.
  apply Wire_intro.
  - intros p Hp. unfold transmits, LOCProperty_serialize, LOCProperty_deserialize.
    rewrite put_vi_Ok by auto with wire.
    destruct p; cbn [loc_property_ok obind LOCProperty_id] in *; ser;
      (eexists; split; [done|]; split; [bytes_parts|]; split; [by auto with wire|]);
      (eapply decodes_bind; [by auto with wire|]); (eapply decodes_bind_nil; [by auto with wire|]);
      cbv beta iota zeta; decode.
  - unfold LOCProperty_deserialize. robust_step.
    eapply (robust_bind_any 0 0); [|lia|].
    { apply (robust_registry LOCPropertyId_to_u64 _ _ _ (fun _ => True)); [apply LOCPropertyId_exact|done]. }
    intros [] _; simpl; robust_go; done.
Qed.

(** * Properties *)

(** Properties survive the wire and can be forwarded.  A list of object
    (or track) properties is serialized, and reading to the end of the buffer
    gives its stable sort by Type; and on any bytes the reader returns, and
    what it read, unknown and mandatory properties included, is written and
    read again as the same list. *)
Theorem properties_forwarded ops tps bs :
  Forall op_ok ops -> Forall tp_ok tps -> bytes_ok bs ->
  (exists b, serialize_object_properties ops = Ok b /\
     deserialize_object_properties b = (Ok (sort_by_key ObjectProperty_type_value ops), [])) /\
  (exists b, serialize_track_properties tps = Ok b /\
     deserialize_track_properties b = (Ok (sort_by_key TrackProperty_type_value tps), [])) /\
  match deserialize_object_properties bs with
  | (Ok ps, _) => exists b, serialize_object_properties ps = Ok b /\
      deserialize_object_properties b = (Ok ps, [])
  | (Err _, _) => True
  | _ => False
  end /\
  match deserialize_track_properties bs with
  | (Ok ps, _) => exists b, serialize_track_properties ps = Ok b /\
      deserialize_track_properties b = (Ok ps, [])
  | (Err _, _) => True
  | _ => False
  end.
Proof.
  intros Ho Ht Hb. split; [|split; [|split]].
  - destruct (op_properties_roundtrip ops Ho) as (b&?&_&?). eauto.
  - destruct (tp_properties_roundtrip tps Ht) as (b&?&_&?). eauto.
  - pose proof (op_properties_robust bs Hb) as R.
    destruct (deserialize_object_properties bs) as [[ps|e| |] r] eqn:E; try done.
    by eapply (properties_forwardable op_ok ObjectProperty_try_into ObjectProperty_deserialize
      ObjectProperty_type_value).
  - pose proof (tp_properties_robust bs Hb) as R.
    destruct (deserialize_track_properties bs) as [[ps|e| |] r] eqn:E; try done.
    by eapply (properties_forwardable tp_ok TrackProperty_try_into TrackProperty_deserialize
      TrackProperty_type_value).
Qed.

Lemma properties_forwarded_witness :
  Forall op_ok [OP_PriorObjectIdGap 2; OP_PriorGroupIdGap 1] /\
  exists b, serialize_object_properties [OP_PriorObjectIdGap 2; OP_PriorGroupIdGap 1] = Ok b /\
    deserialize_object_properties b =
      (Ok (sort_by_key ObjectProperty_type_value [OP_PriorObjectIdGap 2; OP_PriorGroupIdGap 1]), []).
Proof.
  assert (Forall op_ok [OP_PriorObjectIdGap 2; OP_PriorGroupIdGap 1]) as H
    by (repeat constructor; unfold is_u64; simpl; lia).
  split; [exact H|].
  exact (proj1 (properties_forwarded _ [] [] H (List.Forall_nil _) (List.Forall_nil _))).
Defined.
