(* ===== verification/MessageParameter.v ===== *)
(** Message parameters
    ([libs/moqtail-rs/src/model/parameter/message_parameter.rs]).

    Each parameter Type fixes how its Value is laid out ([value_shape]); a list
    of parameters is sorted by Type and written with delta Types.  A parameter
    goes through a Key-Value-Pair both ways, which here need not respect the
    even/odd rule of the shared codec.

    [MessageParameter::deserialize] calls itself for the parameters nested in
    FILL_PARAMETERS.  The model is given a depth; one level is enough, because
    FILL_PARAMETERS is not among the parameters that may be nested. *)
From S2P Require Import Prelude Varint Pair Common Codes LocationFilter RangeFilter AuthorizationToken.

#[warnings="-register-all"]
Inductive MessageParameter : Type :=
| MP_ObjectDeliveryTimeout (timeout : Z)
| MP_SubgroupDeliveryTimeout (timeout : Z)
| MP_RendezvousTimeout (timeout : Z)
| MP_FillTimeout (timeout : Z)
| MP_AuthorizationToken (token : AuthorizationToken)
| MP_Expires (expires : Z)
| MP_LargestObject (location : Location)
| MP_Forward (forward : bool)
| MP_SubscriberPriority (priority : Z)
| MP_GroupOrder (order : GroupOrder)
| MP_LocationFilter (filter : LocationFilter)
| MP_SwitchFrom (request_id : Z) (mode : SwitchMode) (publish_done : bool)
| MP_FillParameters (parameters : list MessageParameter)
| MP_RangeFilter (kind : RangeFilterKind) (filter : option RangeFilter)
| MP_NewGroupRequest (group : Z)
| MP_TrackNamespacePrefix (prefix : Tuple)
| MP_IncludeProperties (include : bool)
| MP_SwitchingSetAssignment (switching_set_id algorithm_id throughput_threshold_kbps
    set_throughput_weight activate_switching set_rank : Z).

Definition SWITCH_FROM_PUBLISH_DONE : Z := 128.

Definition MPT (t : MessageParameterType) : Z := MessageParameterType_to_u64 t.

Definition type_value (self : MessageParameter) : Z :=
  match self with
  | MP_ObjectDeliveryTimeout _ => MPT MPT_ObjectDeliveryTimeout
  | MP_SubgroupDeliveryTimeout _ => MPT MPT_SubgroupDeliveryTimeout
  | MP_RendezvousTimeout _ => MPT MPT_RendezvousTimeout
  | MP_FillTimeout _ => MPT MPT_FillTimeout
  | MP_AuthorizationToken _ => MPT MPT_AuthorizationToken
  | MP_Expires _ => MPT MPT_Expires
  | MP_LargestObject _ => MPT MPT_LargestObject
  | MP_Forward _ => MPT MPT_Forward
  | MP_SubscriberPriority _ => MPT MPT_SubscriberPriority
  | MP_GroupOrder _ => MPT MPT_GroupOrder
  | MP_LocationFilter _ => MPT MPT_LocationFilter
  | MP_FillParameters _ => MPT MPT_FillParameters
  | MP_SwitchFrom _ _ _ => MPT MPT_SwitchFrom
  | MP_RangeFilter kind _ => MPT (parameter_type kind)
  | MP_NewGroupRequest _ => MPT MPT_NewGroupRequest
  | MP_TrackNamespacePrefix _ => MPT MPT_TrackNamespacePrefix
  | MP_IncludeProperties _ => MPT MPT_IncludeProperties
  | MP_SwitchingSetAssignment _ _ _ _ _ _ => MPT MPT_SwitchingSetAssignment
  end.

Definition is_valid_for (self : MessageParameter) (msg_type : ControlMessageType) : bool :=
  match self with
  | MP_AuthorizationToken _ =>
      match msg_type with
      | CMT_Publish | CMT_Subscribe | CMT_RequestUpdate | CMT_SubscribeNamespace
      | CMT_SubscribeTracks | CMT_PublishNamespace | CMT_TrackStatus | CMT_Fetch => true
      | _ => false
      end
  | MP_ObjectDeliveryTimeout _ | MP_SubgroupDeliveryTimeout _ =>
      match msg_type with CMT_Subscribe | CMT_Publish | CMT_RequestUpdate => true | _ => false end
  | MP_RendezvousTimeout _ => match msg_type with CMT_Subscribe => true | _ => false end
  | MP_FillTimeout _ => match msg_type with CMT_Fetch => true | _ => false end
  | MP_SubscriberPriority _ =>
      match msg_type with
      | CMT_Subscribe | CMT_Publish | CMT_Fetch | CMT_RequestUpdate => true
      | _ => false
      end
  | MP_GroupOrder _ =>
      match msg_type with
      | CMT_Subscribe | CMT_SubscribeTracks | CMT_Fetch | CMT_Publish => true
      | _ => false
      end
  | MP_LocationFilter _ =>
      match msg_type with
      | CMT_Subscribe | CMT_Fetch | CMT_Publish | CMT_SubscribeTracks | CMT_RequestUpdate => true
      | _ => false
      end
  | MP_FillParameters _ =>
      match msg_type with
      | CMT_Subscribe | CMT_SubscribeTracks | CMT_RequestUpdate => true
      | _ => false
      end
  | MP_SwitchFrom _ _ _ =>
      match msg_type with CMT_Subscribe | CMT_RequestUpdate => true | _ => false end
  | MP_Expires _ =>
      match msg_type with
      | CMT_SubscribeOk | CMT_Publish | CMT_PublishOk | CMT_RequestOk => true
      | _ => false
      end
  | MP_LargestObject _ =>
      match msg_type with
      | CMT_SubscribeOk | CMT_Publish | CMT_FetchOk | CMT_RequestOk => true
      | _ => false
      end
  | MP_Forward _ =>
      match msg_type with
      | CMT_Subscribe | CMT_RequestUpdate | CMT_Publish | CMT_SubscribeNamespace
      | CMT_SubscribeTracks => true
      | _ => false
      end
  | MP_NewGroupRequest _ =>
      match msg_type with CMT_Subscribe | CMT_RequestUpdate => true | _ => false end
  | MP_IncludeProperties _ =>
      match msg_type with
      | CMT_Subscribe | CMT_TrackStatus | CMT_Fetch | CMT_SubscribeTracks => true
      | _ => false
      end
  | MP_RangeFilter RFK_TrackProperty _ =>
      match msg_type with CMT_SubscribeTracks | CMT_RequestUpdate => true | _ => false end
  | MP_RangeFilter _ _ =>
      match msg_type with
      | CMT_Subscribe | CMT_Fetch | CMT_SubscribeTracks | CMT_RequestUpdate => true
      | _ => false
      end
  | MP_TrackNamespacePrefix _ => match msg_type with CMT_RequestUpdate => true | _ => false end
  | MP_SwitchingSetAssignment _ _ _ _ _ _ =>
      match msg_type with
      | CMT_PublishOk | CMT_RequestOk | CMT_Subscribe | CMT_RequestUpdate => true
      | _ => false
      end
  end.

(** * Layout of values *)

Inductive ValueShape : Type :=
| VS_VarInt
| VS_Uint8
| VS_BareLocation
| VS_LocationFilter
| VS_LengthPrefixedBytes.

Definition is_object_range_filter (type_value : Z) : bool :=
  (type_value =? MPT MPT_SubgroupFilter) || (type_value =? MPT MPT_ObjectIdFilter) ||
  (type_value =? MPT MPT_PriorityFilter) || (type_value =? MPT MPT_ObjectPropertyFilter).

Definition is_valid_fill_parameter (type_value : Z) : bool :=
  (type_value =? MPT MPT_FillTimeout) || (type_value =? MPT MPT_SubscriberPriority) ||
  (type_value =? MPT MPT_LocationFilter) || (type_value =? MPT MPT_GroupOrder) ||
  is_object_range_filter type_value.

Definition value_shape (type_value : Z) : ValueShape :=
  if (type_value =? MPT MPT_Forward) || (type_value =? MPT MPT_SubscriberPriority) ||
     (type_value =? MPT MPT_GroupOrder) || (type_value =? MPT MPT_IncludeProperties)
  then VS_Uint8
  else if type_value =? MPT MPT_LargestObject then VS_BareLocation
  else if type_value =? MPT MPT_LocationFilter then VS_LocationFilter
  else if (type_value =? MPT MPT_TrackNamespacePrefix) || (type_value =? MPT MPT_SwitchFrom) ||
          is_object_range_filter type_value || (type_value =? MPT MPT_TrackPropertyFilter)
  then VS_LengthPrefixedBytes
  else if is_multiple_of type_value 2 then VS_VarInt
  else VS_LengthPrefixedBytes.

Definition read_message_parameter_value (type_value : Z) : parser KeyValuePair :=
  match value_shape type_value with
  | VS_Uint8 =>
      let! value := get_u8_checked "read_message_parameter_value(uint8)" in
      pret (KvVarInt type_value value)
  | VS_BareLocation =>
      let! g := get_vi in
      let! g := lift (put_vi g) in
      let! o := get_vi in
      let! o := lift (put_vi o) in
      lift (new_bytes type_value (g ++ o))
  | VS_LocationFilter =>
      let! filter := LocationFilter_deserialize in
      let! b := lift (LocationFilter_serialize filter) in
      lift (new_bytes type_value b)
  | VS_LengthPrefixedBytes => deserialize_bytes_value type_value
  | VS_VarInt =>
      let! value := get_vi in
      pret (KvVarInt type_value value)
  end.

(** * From pairs to parameters *)

(** [if payload.has_remaining() { return Err(..) }]. *)
Definition at_end (e : ParseError) : parser unit :=
  let! more := has_remaining in
  if more then pfail e else pret tt.

Definition mp_error : ParseError := ProtocolViolation "MessageParameter::deserialize".

(** One turn of the loop over nested parameters, given the recursive call. *)
Definition fill_step (deserialize : KeyValuePair -> result MessageParameter)
    (s : list MessageParameter * Z) : parser (list MessageParameter * Z) :=
  let! delta_type := get_vi in
  let! type_value := lift (ok_or (checked_add (snd s) delta_type)
    (ProtocolViolation "MessageParameter::deserialize(FillParameters)")) in
  if negb (is_valid_fill_parameter type_value)
  then pfail (ProtocolViolation "MessageParameter::deserialize(FillParameters)")
  else
    let! kvp := read_message_parameter_value type_value in
    let! param := lift (deserialize kvp) in
    pret (fst s ++ [param], type_value).

Definition fill_parameters_value (deserialize : KeyValuePair -> result MessageParameter)
    : parser MessageParameter :=
  let! count := get_vi in
  let! s := for_count count (fill_step deserialize) ([], 0) in
  let! _ := at_end (ProtocolViolation "MessageParameter::deserialize(FillParameters)") in
  pret (MP_FillParameters (fst s)).

Definition switch_from_value : parser MessageParameter :=
  let! request_id := get_vi in
  let! mode := get_vi in
  let! mode := lift (SwitchMode_try_from mode) in
  let! flags := get_u8_checked "MessageParameter::deserialize(SwitchFrom flags)" in
  if negb (Z.land flags (Z.lxor 255 SWITCH_FROM_PUBLISH_DONE) =? 0) then pfail mp_error
  else
    let! _ := at_end (KeyValueFormattingError "MessageParameter::deserialize(SwitchFrom)") in
    pret (MP_SwitchFrom request_id mode (negb (Z.land flags SWITCH_FROM_PUBLISH_DONE =? 0))).

Definition switching_set_value : parser MessageParameter :=
  let! switching_set_id := get_vi in
  let! algorithm_id := get_vi in
  let! throughput_threshold_kbps := get_vi in
  let! set_throughput_weight := get_vi in
  if negb ((1 <=? set_throughput_weight) && (set_throughput_weight <=? 10)) then pfail mp_error
  else
    let! activate_switching := get_vi in
    let! more := has_remaining in
    let! set_rank := (if more then get_u8 else pret 0) in
    let! _ := at_end mp_error in
    pret (MP_SwitchingSetAssignment switching_set_id algorithm_id throughput_threshold_kbps
            set_throughput_weight activate_switching set_rank).

Definition namespace_prefix_value : parser MessageParameter :=
  let! prefix := Tuple_deserialize in
  let! _ := at_end (KeyValueFormattingError
    "MessageParameter::deserialize(TrackNamespacePrefix)") in
  pret (MP_TrackNamespacePrefix prefix).

Definition location_filter_value : parser MessageParameter :=
  let! filter := LocationFilter_deserialize in
  let! _ := at_end (KeyValueFormattingError "MessageParameter::deserialize(LocationFilter)") in
  pret (MP_LocationFilter filter).

Definition deserialize_varint (type_value value : Z) : result MessageParameter :=
  let? param_type := omap_err (fun _ => mp_error) (MessageParameterType_try_from type_value) in
  match param_type with
  | MPT_ObjectDeliveryTimeout => Ok (MP_ObjectDeliveryTimeout value)
  | MPT_SubgroupDeliveryTimeout => Ok (MP_SubgroupDeliveryTimeout value)
  | MPT_RendezvousTimeout => Ok (MP_RendezvousTimeout value)
  | MPT_FillTimeout => Ok (MP_FillTimeout value)
  | MPT_Expires => Ok (MP_Expires value)
  | MPT_Forward =>
      if value =? 0 then Ok (MP_Forward false)
      else if value =? 1 then Ok (MP_Forward true)
      else Err mp_error
  | MPT_IncludeProperties =>
      if value =? 0 then Ok (MP_IncludeProperties false)
      else if value =? 1 then Ok (MP_IncludeProperties true)
      else Err mp_error
  | MPT_SubscriberPriority =>
      if 255 <? value then Err mp_error else Ok (MP_SubscriberPriority (value mod U8))
  | MPT_GroupOrder =>
      if value =? 0 then Ok (MP_GroupOrder GO_Original)
      else if value =? 1 then Ok (MP_GroupOrder GO_Ascending)
      else if value =? 2 then Ok (MP_GroupOrder GO_Descending)
      else Err mp_error
  | MPT_NewGroupRequest => Ok (MP_NewGroupRequest value)
  | _ => Err mp_error
  end.

(** [depth] is how many levels of FILL_PARAMETERS may still be opened. *)
Fixpoint deserialize_depth (depth : nat) (kvp : KeyValuePair) : result MessageParameter :=
  match kvp with
  | KvVarInt type_value value => deserialize_varint type_value value
  | KvBytes type_value value =>
      let? param_type := omap_err (fun _ => mp_error) (MessageParameterType_try_from type_value) in
      match param_type with
      | MPT_AuthorizationToken =>
          let? token := run_on AuthorizationToken_deserialize value in
          Ok (MP_AuthorizationToken token)
      | MPT_LargestObject =>
          let? location := run_on Location_deserialize value in
          Ok (MP_LargestObject location)
      | MPT_TrackNamespacePrefix => run_on namespace_prefix_value value
      | MPT_FillParameters =>
          match depth with
          | O => Diverge
          | S depth => run_on (fill_parameters_value (deserialize_depth depth)) value
          end
      | MPT_SwitchFrom => run_on switch_from_value value
      | MPT_SwitchingSetAssignment => run_on switching_set_value value
      | MPT_SubgroupFilter | MPT_ObjectIdFilter | MPT_PriorityFilter | MPT_ObjectPropertyFilter
      | MPT_TrackPropertyFilter =>
          match from_parameter_type param_type with
          | None => Panic
          | Some kind =>
              if blen value =? 0 then Ok (MP_RangeFilter kind None)
              else let? filter := run_on (RangeFilter_deserialize kind) value in
                   Ok (MP_RangeFilter kind (Some filter))
          end
      | MPT_LocationFilter => run_on location_filter_value value
      | _ => Err mp_error
      end
  end.

Definition MessageParameter_deserialize (kvp : KeyValuePair) : result MessageParameter :=
  deserialize_depth 1 kvp.

(** * From parameters to pairs *)

(** The [match] on the value in the loop of [serialize_message_parameters]. *)
Definition serialize_param_value (kvp : KeyValuePair) : result bytes :=
  match value_shape (get_type kvp), kvp with
  | VS_Uint8, KvVarInt _ value =>
      if value <? U8 then Ok [value] else Err (ProtocolViolation "serialize_message_parameters")
  | VS_BareLocation, KvBytes _ value | VS_LocationFilter, KvBytes _ value => Ok value
  | _, KvVarInt _ value => put_vi value
  | _, KvBytes _ value => put_len_bytes value
  end.

Fixpoint serialize_params_from (prev_type : Z) (kvps : list KeyValuePair) : result bytes :=
  match kvps with
  | [] => Ok []
  | kvp :: rest =>
      let? delta_type := ok_or (checked_sub (get_type kvp) prev_type)
        (ProtocolViolation "serialize_message_parameters") in
      let? d := put_vi delta_type in
      let? v := serialize_param_value kvp in
      let? bs := serialize_params_from (get_type kvp) rest in
      Ok (d ++ v ++ bs)
  end.

(** The body of [serialize_message_parameters], given the conversions. *)
Definition serialize_converted (kvps : list (result KeyValuePair)) : result bytes :=
  let? kvps := collect kvps in
  serialize_params_from 0 (sort_by_key get_type kvps).

Definition range_filter_into (kind : RangeFilterKind) (filter : option RangeFilter)
    : result KeyValuePair :=
  let? value :=
    match filter with
    | Some filter =>
        if negb (eqb (has_property_type kind) (bool_decide (is_Some (property_type filter))))
        then Err (ProtocolViolation "MessageParameter::try_into(RangeFilter)")
        else RangeFilter_serialize filter
    | None => Ok []
    end in
  new_bytes (MPT (parameter_type kind)) value.

Fixpoint MessageParameter_try_into (self : MessageParameter) : result KeyValuePair :=
  match self with
  | MP_ObjectDeliveryTimeout timeout => try_new_varint (MPT MPT_ObjectDeliveryTimeout) timeout
  | MP_SubgroupDeliveryTimeout timeout => try_new_varint (MPT MPT_SubgroupDeliveryTimeout) timeout
  | MP_RendezvousTimeout timeout => try_new_varint (MPT MPT_RendezvousTimeout) timeout
  | MP_FillTimeout timeout => try_new_varint (MPT MPT_FillTimeout) timeout
  | MP_Expires expires => try_new_varint (MPT MPT_Expires) expires
  | MP_Forward forward => try_new_varint (MPT MPT_Forward) (if forward then 1 else 0)
  | MP_IncludeProperties include =>
      Ok (KvVarInt (MPT MPT_IncludeProperties) (if include then 1 else 0))
  | MP_SubscriberPriority priority => try_new_varint (MPT MPT_SubscriberPriority) priority
  | MP_GroupOrder order => try_new_varint (MPT MPT_GroupOrder) (GroupOrder_to_u8 order)
  | MP_NewGroupRequest group => try_new_varint (MPT MPT_NewGroupRequest) group
  | MP_AuthorizationToken token =>
      let? payload := AuthorizationToken_serialize token in
      try_new_bytes (MPT MPT_AuthorizationToken) payload
  | MP_LargestObject location =>
      let? g := put_vi (group location) in
      let? o := put_vi (object location) in
      try_new_bytes (MPT MPT_LargestObject) (g ++ o)
  | MP_FillParameters parameters =>
      if forallb (fun param => is_valid_fill_parameter (type_value param)) parameters then
        let? count := put_vi (Z.of_nat (length parameters)) in
        let? params := serialize_converted (map MessageParameter_try_into parameters) in
        try_new_bytes (MPT MPT_FillParameters) (count ++ params)
      else Err (ProtocolViolation "MessageParameter::try_into(FillParameters)")
  | MP_SwitchFrom request_id mode publish_done =>
      let? r := put_vi request_id in
      let? m := put_vi (SwitchMode_to_u64 mode) in
      new_bytes (MPT MPT_SwitchFrom) (r ++ m ++ [if publish_done then SWITCH_FROM_PUBLISH_DONE else 0])
  | MP_SwitchingSetAssignment switching_set_id algorithm_id throughput_threshold_kbps
      set_throughput_weight activate_switching set_rank =>
      let? a := put_vi switching_set_id in
      let? b := put_vi algorithm_id in
      let? c := put_vi throughput_threshold_kbps in
      let? d := put_vi set_throughput_weight in
      let? e := put_vi activate_switching in
      try_new_bytes (MPT MPT_SwitchingSetAssignment) (a ++ b ++ c ++ d ++ e ++ [set_rank])
  | MP_LocationFilter filter =>
      let? b := LocationFilter_serialize filter in
      new_bytes (MPT MPT_LocationFilter) b
  | MP_RangeFilter kind filter => range_filter_into kind filter
  | MP_TrackNamespacePrefix prefix =>
      let? b := Tuple_serialize prefix in
      new_bytes (MPT MPT_TrackNamespacePrefix) b
  end.

Definition serialize_message_parameters (params : list MessageParameter) : result bytes :=
  serialize_converted (map MessageParameter_try_into params).

Definition MessageParameter_serialize (self : MessageParameter) : result bytes :=
  serialize_message_parameters [self].

(** * Lists of parameters *)

(** One turn of the loop of [deserialize_message_parameters]. *)
Definition param_step (msg_type : ControlMessageType) (s : list MessageParameter * Z)
    : parser (list MessageParameter * Z) :=
  let! delta_type := get_vi in
  let! type_value := lift (ok_or (checked_add (snd s) delta_type)
    (ProtocolViolation "deserialize_message_parameters")) in
  let! kvp := read_message_parameter_value type_value in
  let! param := lift (MessageParameter_deserialize kvp) in
  if negb (is_valid_for param msg_type)
  then pfail (ProtocolViolation "deserialize_message_parameters")
  else pret (fst s ++ [param], type_value).

Definition deserialize_message_parameters `{Target} (count : Z) (msg_type : ControlMessageType)
    : parser (list MessageParameter) :=
  let! _ := lift (with_capacity size_of_MessageParameter count) in
  let! s := for_count count (param_step msg_type) ([], 0) in
  pret (fst s).

(** [Vec<MessageParameter>] by Type. *)
Definition get_param (params : list MessageParameter) (param_type : MessageParameterType)
    : option MessageParameter :=
  find (fun p => type_value p =? MPT param_type) params.

Definition get_param_or (params : list MessageParameter) (param_type : MessageParameterType)
    (default : MessageParameter) : MessageParameter :=
  match get_param params param_type with Some p => p | None => default end.

Fixpoint set_param (params : list MessageParameter) (param : MessageParameter)
    : list MessageParameter :=
  match params with
  | [] => [param]
  | p :: rest => if type_value p =? type_value param then param :: rest else p :: set_param rest param
  end.

Definition include_properties (params : list MessageParameter) : bool :=
  negb (existsb (fun p => match p with MP_IncludeProperties false => true | _ => false end) params).

Definition is_removal (p : MessageParameter) : bool :=
  match p with MP_RangeFilter _ None => true | _ => false end.

Definition apply_message_parameter_update (current updates : list MessageParameter)
    : list MessageParameter :=
  List.filter (fun p => negb (existsb (fun u => type_value u =? type_value p) updates)) current ++
  List.filter (fun u => negb (is_removal u)) updates.

(** * Lemmas *)

(** ** Values *)

(** A pair laid out as its Type prescribes. *)
Definition kvp_shape_ok (kvp : KeyValuePair) : Prop :=
  is_u64 (get_type kvp) /\
  match value_shape (get_type kvp), kvp with
  | VS_Uint8, KvVarInt _ v => is_u8 v
  | VS_VarInt, KvVarInt _ v => is_u64 v
  | VS_BareLocation, KvBytes _ v => exists l, loc_ok l /\ Location_serialize l = Ok v
  | VS_LocationFilter, KvBytes _ v =>
      exists f, lf_ok f /\ LocationFilter_serialize f = Ok v /\ blen v <= MAX_VALUE_LENGTH
  | VS_LengthPrefixedBytes, KvBytes _ v => bytes_ok v /\ blen v <= MAX_VALUE_LENGTH
  | _, _ => False
  end.

Lemma new_bytes_Ok t v : blen v <= MAX_VALUE_LENGTH -> new_bytes t v = Ok (KvBytes t v).
Proof. intros H. unfold new_bytes. by rewrite (proj2 (Z.ltb_ge _ _)). Qed.

Lemma Location_serialize_Ok l :
  loc_ok l -> Location_serialize l = Ok (encode_vi (group l) ++ encode_vi (object l)).
Proof. intros [Hg Ho]. unfold Location_serialize. ser. done. Qed.

Lemma encode_vi_blen v : is_u64 v -> 1 <= blen (encode_vi v) <= 9.
Proof.
  intros H. unfold blen. rewrite encode_vi_length by done.
  pose proof (minimal_vi_length_range v H). lia.
Qed.

Lemma Location_blen l v : loc_ok l -> Location_serialize l = Ok v -> blen v <= MAX_VALUE_LENGTH.
Proof.
  intros Hl. rewrite Location_serialize_Ok by done. intros [= <-]. rewrite blen_app.
  destruct Hl as [Hg Ho]. pose proof (encode_vi_blen _ Hg). pose proof (encode_vi_blen _ Ho).
  unfold MAX_VALUE_LENGTH. lia.
Qed.

Lemma param_value_transmits kvp :
  kvp_shape_ok kvp ->
  exists b, serialize_param_value kvp = Ok b /\ bytes_ok b /\
    decodes (read_message_parameter_value (get_type kvp)) b kvp.
Proof.
  intros [Ht Hs]. unfold serialize_param_value, read_message_parameter_value.
  destruct (value_shape (get_type kvp)), kvp as [t v|t v]; simpl in *; try done.
  - rewrite put_vi_Ok by done. eexists. split; [done|]. split; [by auto with wire|]. decode.
  - unfold is_u8 in Hs. rewrite (proj2 (Z.ltb_lt _ _)) by lia. eexists. split; [done|].
    split; [constructor; [done|constructor]|]. decode.
  - destruct Hs as (l&Hl&E). pose proof (Location_blen l v Hl E) as Hlen.
    rewrite Location_serialize_Ok in E by done. inversion E; subst v. destruct Hl as [Hg Ho].
    eexists. split; [done|]. split; [bytes_parts|].
    eapply decodes_bind; [by auto with wire|]. rewrite put_vi_Ok by done.
    eapply decodes_bind_nil; [apply decodes_lift|].
    eapply decodes_bind_last; [by auto with wire|]. rewrite put_vi_Ok by done.
    eapply decodes_bind_nil; [apply decodes_lift|]. rewrite new_bytes_Ok by done. apply decodes_lift.
  - destruct Hs as (f&Hf&E&Hlen). destruct (wire_ser f Hf) as (v'&E'&Hok&_).
    rewrite E in E'. simplify_eq. eexists. split; [done|]. split; [done|].
    eapply decodes_bind_last; [by apply (wire_decodes (Wire := Wire_LocationFilter))|].
    rewrite E. eapply decodes_bind_nil; [apply decodes_lift|].
    rewrite new_bytes_Ok by done. apply decodes_lift.
  - destruct Hs as [Hb Hl]. pose proof (data_ok_value v Hb Hl). ser. eexists. split; [done|].
    split; [bytes_parts|]. by apply decodes_bytes_value.
Qed.

Lemma robust_new_bytes t v (Q : KeyValuePair -> Prop) :
  (blen v <= MAX_VALUE_LENGTH -> Q (KvBytes t v)) -> robust 0 (lift (new_bytes t v)) Q.
Proof.
  intros H. unfold new_bytes. case_if; apply robust_lift; try done. breflect.
  intros ? [= <-]. auto.
Qed.

Lemma read_value_robust t :
  is_u64 t ->
  robust 1 (read_message_parameter_value t) (fun kvp => get_type kvp = t /\ kvp_shape_ok kvp).
Proof.
  intros Ht. unfold read_message_parameter_value, kvp_shape_ok.
  destruct (value_shape t) eqn:Es.
  - robust_go. simpl. rewrite Es. auto.
  - robust_go. simpl. rewrite Es. auto.
  - robust_step. rewrite put_vi_Ok by done. robust_step.
    robust_step. rewrite put_vi_Ok by done. robust_step.
    apply robust_new_bytes. intros _. simpl. rewrite Es. split; [done|]. split; [done|].
    exists (mkLocation a a0). split; [by split|]. by rewrite Location_serialize_Ok.
  - eapply robust_bind_any; [apply wire_robust|lia|]. intros f Hf.
    destruct (wire_ser f Hf) as (v&E&Hok&_). rewrite E. robust_step.
    apply robust_new_bytes. intros Hl. simpl. rewrite Es. split; [done|]. split; [done|]. eauto.
  - eapply robust_weaken; [apply deserialize_bytes_value_robust|lia|].
    intros k (b&->&Hb&Hl). simpl. rewrite Es. auto.
Qed.
#[export] Hint Resolve read_value_robust : robust.

(** ** Parameters *)

(** A parameter other than FILL_PARAMETERS, within the ranges of its fields. *)
Definition base_wf (p : MessageParameter) : Prop :=
  match p with
  | MP_ObjectDeliveryTimeout v | MP_SubgroupDeliveryTimeout v | MP_RendezvousTimeout v
  | MP_FillTimeout v | MP_Expires v | MP_NewGroupRequest v => is_u64 v
  | MP_AuthorizationToken t => token_ok t
  | MP_LargestObject l => loc_ok l
  | MP_Forward _ | MP_IncludeProperties _ | MP_GroupOrder _ => True
  | MP_SubscriberPriority v => is_u8 v
  | MP_LocationFilter f => lf_ok f
  | MP_SwitchFrom r _ _ => is_u64 r
  | MP_FillParameters _ => False
  | MP_RangeFilter k (Some f) => rf_ok k f
  | MP_RangeFilter _ None => True
  | MP_TrackNamespacePrefix t => tuple_ok t
  | MP_SwitchingSetAssignment a b c d e r =>
      is_u64 a /\ is_u64 b /\ is_u64 c /\ 1 <= d <= 10 /\ is_u64 e /\ is_u8 r
  end.

Definition fills_ok (l : list MessageParameter) : Prop :=
  Forall base_wf l /\ forallb (fun p => is_valid_fill_parameter (type_value p)) l = true /\
  StronglySorted (key_le type_value) l /\ Z.of_nat (length l) < U64.

Definition mp_wf (p : MessageParameter) : Prop :=
  match p with MP_FillParameters l => fills_ok l | _ => base_wf p end.

Lemma MPT_u64 t : is_u64 (MPT t).
Proof. destruct t; unfold MPT, is_u64; simpl; lia. Qed.

Lemma type_value_u64 p : is_u64 (type_value p).
Proof. destruct p; apply MPT_u64. Qed.
#[export] Hint Resolve MPT_u64 type_value_u64 : wire.

Lemma MPT_try_from t : MessageParameterType_try_from (MPT t) = Ok t.
Proof. apply MessageParameterType_exact. Qed.

(** Serialization fails only on a value longer than a pair may hold. *)
Definition too_long {A} (r : result A) : Prop :=
  exists len, r = Err (LengthExceedsMax "KeyValuePair::new_bytes" MAX_VALUE_LENGTH len) /\
    MAX_VALUE_LENGTH < len.

Definition viewed_at (depth : nat) (kvp : KeyValuePair) (p : MessageParameter) : Prop :=
  MessageParameter_try_into p = Ok kvp /\ get_type kvp = type_value p /\ kvp_shape_ok kvp /\
  deserialize_depth depth kvp = Ok p.

Lemma new_bytes_cases t v : too_long (new_bytes t v) \/
  (new_bytes t v = Ok (KvBytes t v) /\ blen v <= MAX_VALUE_LENGTH).
Proof.
  unfold new_bytes, too_long. destruct (Z.ltb_spec MAX_VALUE_LENGTH (blen v)); [left|right]; eauto.
Qed.

Lemma at_end_nil e : at_end e [] = (Ok tt, []).
Proof. done. Qed.

(** A parser that ends with the check that nothing is left, on exactly its bytes. *)
Lemma run_on_at_end {A B} (p : parser A) (f : A -> B) e bs a :
  decodes p bs a ->
  run_on (let! x := p in let! _ := at_end e in pret (f x)) bs = Ok (f a).
Proof. intros H. unfold run_on, pbind at 1. by rewrite (decodes_exact _ _ _ H). Qed.

Lemma varint_view d t v p :
  MessageParameter_try_into p = Ok (KvVarInt (MPT t) v) -> type_value p = MPT t ->
  kvp_shape_ok (KvVarInt (MPT t) v) -> deserialize_varint (MPT t) v = Ok p ->
  too_long (MessageParameter_try_into p) \/ exists kvp, viewed_at d kvp p.
Proof. intros E Et Hs Hd. 
  right. exists (KvVarInt (MPT t) v). unfold viewed_at. rewrite E, Et.
  repeat (split; [done|]). by destruct d; exact Hd.
Qed.

Lemma bytes_view d t v p :
  MessageParameter_try_into p = new_bytes (MPT t) v -> type_value p = MPT t ->
  (blen v <= MAX_VALUE_LENGTH -> kvp_shape_ok (KvBytes (MPT t) v)) ->
  deserialize_depth d (KvBytes (MPT t) v) = Ok p ->
  too_long (MessageParameter_try_into p) \/ exists kvp, viewed_at d kvp p.
Proof.
  intros E Et Hs Hd. unfold viewed_at. rewrite E, Et.
  destruct (new_bytes_cases (MPT t) v) as [?|[-> Hl]]; [by left|].
  right. exists (KvBytes (MPT t) v). auto.
Qed.

Lemma prefixed_shape t v :
  value_shape (MPT t) = VS_LengthPrefixedBytes -> bytes_ok v -> blen v <= MAX_VALUE_LENGTH ->
  kvp_shape_ok (KvBytes (MPT t) v).
Proof. intros E Hv Hl. split; [apply MPT_u64|]. simpl. by rewrite E. Qed.

(** Each group of parameters in turn: the byte-string ones. *)
Lemma token_view d t : token_ok t ->
  too_long (MessageParameter_try_into (MP_AuthorizationToken t)) \/
  exists kvp, viewed_at d kvp (MP_AuthorizationToken t).
Proof.
  intros H. destruct (AuthorizationToken_reads t H) as (bs&E&Hok&_&Hr).
  apply (bytes_view d MPT_AuthorizationToken bs); [simpl; by rewrite E|done| |].
  - by apply prefixed_shape.
  - destruct d; cbn -[AuthorizationToken_deserialize run_on]; by rewrite Hr.
Qed.

Lemma largest_view d l : loc_ok l ->
  too_long (MessageParameter_try_into (MP_LargestObject l)) \/
  exists kvp, viewed_at d kvp (MP_LargestObject l).
Proof.
  intros H. pose proof H as [Hg Ho].
  apply (bytes_view d MPT_LargestObject (encode_vi (group l) ++ encode_vi (object l))).
  - cbn [MessageParameter_try_into]. by ser.
  - done.
  - intros _. split; [apply MPT_u64|]. exists l. split; [done|]. by apply Location_serialize_Ok.
  - destruct d; cbn -[Location_deserialize run_on encode_vi]; unfold run_on;
      by rewrite (decodes_exact _ _ _ (decodes_location l H)).
Qed.

Lemma location_filter_view d f : lf_ok f ->
  too_long (MessageParameter_try_into (MP_LocationFilter f)) \/
  exists kvp, viewed_at d kvp (MP_LocationFilter f).
Proof.
  intros H. destruct (wire_transmits _ LocationFilter_serialize _ f H) as (bs&E&Hok&_&Hd).
  apply (bytes_view d MPT_LocationFilter bs); [simpl; by rewrite E|done| |].
  - intros Hl. split; [apply MPT_u64|]. by exists f.
  - destruct d; cbn -[location_filter_value run_on]; by apply run_on_at_end.
Qed.

Lemma prefix_view d t : tuple_ok t ->
  too_long (MessageParameter_try_into (MP_TrackNamespacePrefix t)) \/
  exists kvp, viewed_at d kvp (MP_TrackNamespacePrefix t).
Proof.
  intros H. destruct (wire_transmits _ Tuple_serialize _ t H) as (bs&E&Hok&_&Hd).
  apply (bytes_view d MPT_TrackNamespacePrefix bs); [simpl; by rewrite E|done| |].
  - by apply prefixed_shape.
  - destruct d; cbn -[namespace_prefix_value run_on]; by apply run_on_at_end.
Qed.

Lemma SwitchMode_u64 m : is_u64 (SwitchMode_to_u64 m).
Proof. destruct m; unfold is_u64; simpl; lia. Qed.
Lemma decodes_switch_mode m : decodes (lift (SwitchMode_try_from (SwitchMode_to_u64 m))) [] m.
Proof. rewrite (proj1 SwitchMode_exact). apply decodes_lift. Qed.
#[export] Hint Resolve SwitchMode_u64 decodes_switch_mode : wire.

Lemma switch_from_view d r m b : is_u64 r ->
  too_long (MessageParameter_try_into (MP_SwitchFrom r m b)) \/
  exists kvp, viewed_at d kvp (MP_SwitchFrom r m b).
Proof.
  intros H. set (flags := if b then SWITCH_FROM_PUBLISH_DONE else 0).
  apply (bytes_view d MPT_SwitchFrom (encode_vi r ++ encode_vi (SwitchMode_to_u64 m) ++ [flags])).
  - cbn [MessageParameter_try_into]. by ser.
  - done.
  - apply prefixed_shape; [done|]. bytes_parts. constructor; [|constructor].
    by destruct b.
  - assert (decodes (let! request_id := get_vi in let! mode := get_vi in
      let! mode := lift (SwitchMode_try_from mode) in
      let! flags := get_u8_checked "MessageParameter::deserialize(SwitchFrom flags)" in
      pret (request_id, mode, flags)) (encode_vi r ++ encode_vi (SwitchMode_to_u64 m) ++ [flags])
      (r, m, flags)) as Hd by decode.
    apply decodes_exact in Hd.
    destruct d; cbn -[switch_from_value run_on encode_vi]; unfold run_on, switch_from_value;
      unfold pbind in Hd |- *;
      repeat match goal with
      | H : context [match ?x with _ => _ end] |- context [match ?x with _ => _ end] =>
          destruct x as [[?|?| |] ?]; try discriminate
      end;
      unfold pret in Hd; simplify_eq; by destruct b.
Qed.

Lemma switching_set_view d a b c w e r :
  base_wf (MP_SwitchingSetAssignment a b c w e r) ->
  too_long (MessageParameter_try_into (MP_SwitchingSetAssignment a b c w e r)) \/
  exists kvp, viewed_at d kvp (MP_SwitchingSetAssignment a b c w e r).
Proof.
  intros (Ha&Hb&Hc&Hw&He&Hr). assert (is_u64 w) as Hw' by ulia.
  apply (bytes_view d MPT_SwitchingSetAssignment
    (encode_vi a ++ encode_vi b ++ encode_vi c ++ encode_vi w ++ encode_vi e ++ [r])).
  - cbn [MessageParameter_try_into]. by ser.
  - done.
  - apply prefixed_shape; [done|]. bytes_parts.
  - assert (run_on switching_set_value
      (encode_vi a ++ encode_vi b ++ encode_vi c ++ encode_vi w ++ encode_vi e ++ [r]) =
      Ok (MP_SwitchingSetAssignment a b c w e r)) as X; [|by destruct d].
    unfold run_on, switching_set_value.
    do 4 (unfold pbind at 1; rewrite encode_vi_decodes by done).
    rewrite (proj2 (Z.leb_le 1 w)), (proj2 (Z.leb_le w 10)) by lia. cbn [negb andb].
    unfold pbind at 1; rewrite encode_vi_decodes by done. done.
Qed.

Lemma range_filter_view d k f :
  match f with Some f => rf_ok k f | None => True end ->
  too_long (MessageParameter_try_into (MP_RangeFilter k f)) \/
  exists kvp, viewed_at d kvp (MP_RangeFilter k f).
Proof.
  assert (value_shape (MPT (parameter_type k)) = VS_LengthPrefixedBytes) as Hsh by by destruct k.
  assert (forall v, deserialize_depth d (KvBytes (MPT (parameter_type k)) v) =
    if blen v =? 0 then Ok (MP_RangeFilter k None)
    else let? filter := run_on (RangeFilter_deserialize k) v in Ok (MP_RangeFilter k (Some filter))) as Hdes.
  { intros v. destruct k, d; reflexivity. }
  intros H. destruct f as [f|].
  - destruct (RangeFilter_reads k f H) as (bs&E&Hok&Hne&Hr).
    apply (bytes_view d (parameter_type k) bs).
    + simpl. unfold range_filter_into. rewrite E. destruct H as (_&_&Hp).
      destruct (property_type f); [destruct Hp as [-> _]|rewrite Hp]; done.
    + done.
    + by apply prefixed_shape.
    + rewrite Hdes. destruct (Z.eqb_spec (blen bs) 0) as [Hz|]; [by apply blen_zero in Hz|].
      unfold run_on. by rewrite Hr.
  - apply (bytes_view d (parameter_type k) []); try done.
    + apply prefixed_shape; [done|constructor].
Qed.

Lemma base_view d p :
  base_wf p -> too_long (MessageParameter_try_into p) \/ exists kvp, viewed_at d kvp p.
Proof.
  destruct p; intros H; cbn [base_wf] in H; try done.
  all: try (eapply varint_view; [reflexivity|done|split; [apply MPT_u64|exact H]|reflexivity]).
  - by apply token_view.
  - by apply largest_view.
  - destruct forward; (eapply varint_view; [reflexivity|done|split; [apply MPT_u64|]|reflexivity]);
      simpl; unfold is_u8; lia.
  - eapply varint_view; [reflexivity|done|split; [apply MPT_u64|exact H]|].
    unfold deserialize_varint. rewrite MPT_try_from. simpl. unfold is_u8 in H.
    rewrite (proj2 (Z.ltb_ge _ _)) by lia. by rewrite Z.mod_small.
  - destruct order; (eapply varint_view; [reflexivity|done|split; [apply MPT_u64|]|reflexivity]);
      simpl; unfold is_u8; lia.
  - by apply location_filter_view.
  - by apply switch_from_view.
  - by apply range_filter_view.
  - by apply prefix_view.
  - destruct include; (eapply varint_view; [reflexivity|done|split; [apply MPT_u64|]|reflexivity]);
      simpl; unfold is_u8; lia.
  - by apply switching_set_view.
Qed.

(** ** Lists *)

(** A list is converted, or one of its values is too long. *)
Lemma convert_list d ps :
  Forall (fun p => too_long (MessageParameter_try_into p) \/ exists kvp, viewed_at d kvp p) ps ->
  too_long (collect (map MessageParameter_try_into ps)) \/
  exists kvps, collect (map MessageParameter_try_into ps) = Ok kvps /\ Forall2 (viewed_at d) kvps ps.
Proof.
  induction 1 as [|p ps Hp _ IH]; simpl; [right; by exists []|].
  destruct Hp as [(len&->&Hl)|(kvp&Hv)]; [left; by exists len|].
  pose proof Hv as (->&_). cbn [obind].
  destruct IH as [(len&->&Hl)|(kvps&->&Hvs)]; [left; by exists len|].
  right. eexists. split; [done|]. by constructor.
Qed.

(** A step of a reading loop that reads one delta-typed parameter. *)
Definition reads_param (step : list MessageParameter * Z -> parser (list MessageParameter * Z))
    (kvp : KeyValuePair) (p : MessageParameter) : Prop :=
  forall acc prev v, 0 <= prev <= get_type kvp -> serialize_param_value kvp = Ok v ->
    decodes (step (acc, prev)) (encode_vi (get_type kvp - prev) ++ v) (acc ++ [p], get_type kvp).

Lemma serialize_params_runs step kvps ps :
  Forall2 (reads_param step) kvps ps -> Forall kvp_shape_ok kvps ->
  StronglySorted (key_le get_type) kvps ->
  forall acc prev, 0 <= prev -> Forall (fun k => prev <= get_type k) kvps ->
  exists bss last, serialize_params_from prev kvps = Ok (concat bss) /\ bytes_ok (concat bss) /\
    length bss = length ps /\ runs step (acc, prev) bss (acc ++ ps, last).
Proof.
  induction 1 as [|k p kvps ps Hr Hrs IH]; intros Hsh Hs acc prev Hp Hge.
  - exists [], prev. rewrite app_nil_r. repeat split; constructor.
  - inversion Hsh as [|? ? Hk Hsh']; inversion Hs as [|? ? Hs' Hle]; inversion Hge as [|? ? Hge1 _]; subst.
    pose proof Hk as [Ht _]. destruct (param_value_transmits k Hk) as (v&Ev&Hv&_).
    destruct (IH Hsh' Hs' (acc ++ [p]) (get_type k) ltac:(ulia) Hle) as (bss&last&E&Hok&Hlen&Hruns).
    assert (is_u64 (get_type k - prev)) as Hd by ulia.
    exists ((encode_vi (get_type k - prev) ++ v) :: bss), last. simpl.
    assert (checked_sub (get_type k) prev = Some (get_type k - prev)) as -> by (apply checked_sub_Some; lia).
    cbn [ok_or obind]. rewrite put_vi_Ok, Ev, E by done. cbn [obind].
    split; [by rewrite <- app_assoc|]. split; [bytes_parts|]. split; [by f_equal|].
    econstructor; [by apply Hr|by auto with wire|].
    replace (acc ++ p :: ps) with ((acc ++ [p]) ++ ps) by by rewrite <- app_assoc. exact Hruns.
Qed.

(** Writing a list of parameters, and reading it with [step]. *)
Lemma serialize_list_spec d step (G : MessageParameter -> Prop) ps :
  Forall (fun p => too_long (MessageParameter_try_into p) \/ exists kvp, viewed_at d kvp p) ps ->
  Forall G ps -> (forall kvp p, viewed_at d kvp p -> G p -> reads_param step kvp p) ->
  too_long (serialize_message_parameters ps) \/
  exists bss last, serialize_message_parameters ps = Ok (concat bss) /\ bytes_ok (concat bss) /\
    length bss = length ps /\ runs step ([], 0) bss (sort_by_key type_value ps, last).
Proof.
  intros Hps HG Hstep. unfold serialize_message_parameters, serialize_converted.
  destruct (convert_list d ps Hps) as [(len&->&Hl)|(kvps&->&Hv)]; [left; by exists len|]. right.
  cbn [obind]. apply (sort_by_key_Forall2 _ get_type type_value) in Hv; [|by intros ?? (_&?&_)].
  rewrite <- (sort_by_key_length type_value ps). apply sort_by_key_Forall with (key := type_value) in HG.
  assert (Forall kvp_shape_ok (sort_by_key get_type kvps)) as Hsh.
  { eapply Forall2_Forall_l; [exact Hv|]. apply Forall_true. intros p k (_&_&?&_). done. }
  apply (serialize_params_runs step (sort_by_key get_type kvps) (sort_by_key type_value ps)).
  - clear Hsh. induction Hv as [|k p ks ps' Hkp _ IH]; inversion HG; subst; constructor; auto.
  - done.
  - apply sort_by_key_sorted.
  - lia.
  - eapply Forall_impl; [exact Hsh|]. intros k [Hk _]. ulia.
Qed.

(** ** Nested parameters *)

Lemma fill_step_reads d kvp p :
  viewed_at d kvp p -> is_valid_fill_parameter (type_value p) = true ->
  reads_param (fill_step (deserialize_depth d)) kvp p.
Proof.
  intros (_&Et&Hsh&Hd) Hval acc prev v Hp Ev. pose proof Hsh as [Hu _]. unfold fill_step.
  assert (is_u64 (get_type kvp - prev)) as Hdu by ulia.
  eapply decodes_bind; [by auto with wire|]. simpl snd.
  assert (checked_add prev (get_type kvp - prev) = Some (get_type kvp)) as ->
    by (apply checked_add_Some; ulia).
  eapply decodes_bind_nil; [apply decodes_lift|]. rewrite Et, Hval, <- Et. cbn [negb].
  destruct (param_value_transmits kvp Hsh) as (v'&Ev'&_&Hdec). rewrite Ev in Ev'. simplify_eq.
  eapply decodes_bind_last; [done|]. rewrite Hd.
  eapply decodes_bind_nil; [apply decodes_lift|apply decodes_ret].
Qed.

Lemma fill_parameters_read d l bss last :
  Z.of_nat (length l) < U64 -> length bss = length l ->
  runs (fill_step (deserialize_depth d)) ([], 0) bss (l, last) ->
  run_on (fill_parameters_value (deserialize_depth d)) (encode_vi (Z.of_nat (length l)) ++ concat bss) =
    Ok (MP_FillParameters l).
Proof.
  intros Hl Hlen Hr. assert (is_u64 (Z.of_nat (length l))) by ulia.
  unfold run_on, fill_parameters_value, pbind at 1. rewrite encode_vi_decodes by done.
  pose proof (for_count_runs _ _ _ _ (Z.of_nat (length l)) Hr ltac:(by rewrite Hlen)) as Hd.
  apply decodes_exact in Hd. unfold pbind at 1. by rewrite Hd.
Qed.

Lemma fill_view d l : fills_ok l ->
  too_long (MessageParameter_try_into (MP_FillParameters l)) \/
  exists kvp, viewed_at (S d) kvp (MP_FillParameters l).
Proof.
  intros (Hb&Hval&Hsort&Hlen). assert (is_u64 (Z.of_nat (length l))) as Hn by ulia.
  destruct (serialize_list_spec d (fill_step (deserialize_depth d))
    (fun p => is_valid_fill_parameter (type_value p) = true) l) as [(len&E&Hl)|(bss&last&E&Hok&Hlen'&Hr)].
  - eapply Forall_impl; [exact Hb|]. intros p. apply base_view.
  - apply Forall_forall. intros p Hp. rewrite forallb_forall in Hval. apply Hval. by apply list_elem_of_In.
  - intros. by apply fill_step_reads.
  - left. exists len. split; [|done]. cbn [MessageParameter_try_into]. rewrite Hval, put_vi_Ok by done.
    cbn [obind]. unfold serialize_message_parameters in E. by rewrite E.
  - rewrite sort_by_key_id in Hr by done.
    apply (bytes_view (S d) MPT_FillParameters (encode_vi (Z.of_nat (length l)) ++ concat bss)).
    + cbn [MessageParameter_try_into]. rewrite Hval, put_vi_Ok by done. cbn [obind].
      unfold serialize_message_parameters in E. by rewrite E.
    + done.
    + apply prefixed_shape; [done|]. bytes_parts.
    + cbn [deserialize_depth]. rewrite MPT_try_from. cbn [omap_err obind]. by eapply fill_parameters_read.
Qed.

Lemma mp_view p : mp_wf p ->
  too_long (MessageParameter_try_into p) \/ exists kvp, viewed_at 1 kvp p.
Proof. destruct p; try apply base_view. apply fill_view. Qed.

Lemma param_step_reads msg_type kvp p :
  viewed_at 1 kvp p -> is_valid_for p msg_type = true -> reads_param (param_step msg_type) kvp p.
Proof.
  intros (_&Et&Hsh&Hd) Hval acc prev v Hp Ev. pose proof Hsh as [Hu _]. unfold param_step.
  assert (is_u64 (get_type kvp - prev)) as Hdu by ulia.
  eapply decodes_bind; [by auto with wire|]. simpl snd.
  assert (checked_add prev (get_type kvp - prev) = Some (get_type kvp)) as ->
    by (apply checked_add_Some; ulia).
  eapply decodes_bind_nil; [apply decodes_lift|].
  destruct (param_value_transmits kvp Hsh) as (v'&Ev'&_&Hdec). rewrite Ev in Ev'. simplify_eq.
  eapply decodes_bind_last; [done|]. unfold MessageParameter_deserialize. rewrite Hd.
  eapply decodes_bind_nil; [apply decodes_lift|]. rewrite Hval. apply decodes_ret.
Qed.

(** What a message of [msg_type] may carry. *)
Definition params_ok (msg_type : ControlMessageType) (ps : list MessageParameter) : Prop :=
  Forall mp_wf ps /\ Forall (fun p => is_valid_for p msg_type = true) ps.

Lemma params_transmit `{Target} msg_type ps :
  params_ok msg_type ps -> Z.of_nat (length ps) * size_of_MessageParameter <= ISIZE_MAX ->
  too_long (serialize_message_parameters ps) \/
  exists bs, serialize_message_parameters ps = Ok bs /\ bytes_ok bs /\
    decodes (deserialize_message_parameters (Z.of_nat (length ps)) msg_type) bs
      (sort_by_key type_value ps).
Proof.
  intros [Hwf Hval] Hcap.
  destruct (serialize_list_spec 1 (param_step msg_type) (fun p => is_valid_for p msg_type = true) ps)
    as [?|(bss&last&E&Hok&Hlen&Hr)].
  - eapply Forall_impl; [exact Hwf|]. apply mp_view.
  - done.
  - intros. by apply param_step_reads.
  - by left.
  - right. exists (concat bss). split; [done|]. split; [done|].
    unfold deserialize_message_parameters, with_capacity. rewrite (proj2 (Z.leb_le _ _)) by done.
    eapply decodes_bind_nil; [apply decodes_lift|].
    eapply decodes_bind_last; [eapply for_count_runs; [exact Hr|by rewrite Hlen]|apply decodes_ret].
Qed.

(** ** Reading arbitrary bytes *)

Lemma robust_at_end e : robust 0 (at_end e) (fun _ => True).
Proof. unfold at_end. robust_go. done. Qed.
#[export] Hint Resolve robust_at_end : robust.

Lemma robust_switch_mode v : robust 0 (lift (SwitchMode_try_from v)) (fun _ => True).
Proof. by apply (robust_registry SwitchMode_to_u64); [apply SwitchMode_exact|]. Qed.
#[export] Hint Resolve robust_switch_mode : robust.

Lemma switch_from_robust : robust 0 switch_from_value (fun p => base_wf p /\ type_value p = MPT MPT_SwitchFrom).
Proof. unfold switch_from_value. robust_go. done. Qed.

Lemma get_u8_more_robust {B} (f : Z -> parser B) Q :
  (forall v, is_u8 v -> robust 0 (f v) Q) ->
  robust 0 (let! more := has_remaining in let! r := (if more then get_u8 else pret 0) in f r) Q.
Proof.
  intros H bs Hb. unfold pbind at 1, has_remaining. destruct bs as [|b bs]; simpl.
  - apply (H 0); [unfold is_u8; lia|done].
  - unfold pbind, get_u8. inversion Hb; subst. specialize (H b ltac:(done) bs ltac:(done)).
    destruct (f b bs) as [[]]; try done.
    + destruct H as (?&?&?). split; [by apply suffix_cons_r|]. simpl. split; [lia|done].
    + by apply suffix_cons_r.
Qed.

Lemma switching_set_robust :
  robust 0 switching_set_value (fun p => base_wf p /\ type_value p = MPT MPT_SwitchingSetAssignment).
Proof.
  unfold switching_set_value. do 5 robust_step; [robust_step|]. robust_step.
  apply get_u8_more_robust. intros r Hr. robust_go. split; [|done].
  simpl. breflect. unfold is_u64, is_u8 in *. lia.
Qed.

Lemma prefix_robust :
  robust 0 namespace_prefix_value (fun p => base_wf p /\ type_value p = MPT MPT_TrackNamespacePrefix).
Proof. unfold namespace_prefix_value. robust_go. done. Qed.

Lemma location_filter_robust :
  robust 0 location_filter_value (fun p => base_wf p /\ type_value p = MPT MPT_LocationFilter).
Proof. unfold location_filter_value. robust_go. done. Qed.

(** A conversion that returns, and gives a well-formed parameter of this Type. *)
Definition converts (W : MessageParameter -> Prop) (t : Z) (r : result MessageParameter) : Prop :=
  returns r /\ forall p, r = Ok p -> W p /\ type_value p = t.

Lemma converts_run_on W k (p : parser MessageParameter) t v :
  robust k p (fun m => W m /\ type_value m = t) -> bytes_ok v -> converts W t (run_on p v).
Proof. intros H Hv. exact (robust_run_on k p _ v H Hv). Qed.

Lemma converts_Ok (W : MessageParameter -> Prop) t p : W p -> type_value p = t -> converts W t (Ok p).
Proof. intros. split; [done|]. by intros ? [= <-]. Qed.
Lemma converts_Err W t e : converts W t (Err e).
Proof. by split. Qed.
#[export] Hint Resolve converts_Ok converts_Err : wire.

Lemma range_filter_converts kind v :
  bytes_ok v ->
  converts base_wf (MPT (parameter_type kind))
    (if blen v =? 0 then Ok (MP_RangeFilter kind None)
     else let? filter := run_on (RangeFilter_deserialize kind) v in Ok (MP_RangeFilter kind (Some filter))).
Proof.
  intros Hv. case_if; [by apply converts_Ok|].
  destruct (robust_run_on 1 _ _ v (RangeFilter_robust kind) Hv) as [H1 H2].
  destruct (run_on (RangeFilter_deserialize kind) v) as [f|e| |]; try done.
  apply converts_Ok; [by apply H2|done].
Qed.

Lemma varint_converts t v :
  kvp_shape_ok (KvVarInt t v) -> converts base_wf t (deserialize_varint t v).
Proof.
  intros [_ Hs]. simpl in Hs. unfold deserialize_varint.
  destruct (registry_cases _ _ _ MessageParameterType_exact t) as [(c&E&->)|[(e&E) _]];
    unfold MessageParameterType_try_from; rewrite E; [|apply converts_Err].
  destruct c; cbn [omap_err obind]; try apply converts_Err; try (apply converts_Ok; [exact Hs|done]).
  - repeat case_if; first [apply converts_Err|by apply converts_Ok].
  - case_if; [apply converts_Err|]. breflect. simpl in Hs. unfold is_u8 in Hs.
    rewrite Z.mod_small by lia. by apply converts_Ok.
  - repeat case_if; first [apply converts_Err|by apply converts_Ok].
  - repeat case_if; first [apply converts_Err|by apply converts_Ok].
Qed.

Lemma shape_bytes_ok t v : kvp_shape_ok (KvBytes t v) -> bytes_ok v.
Proof.
  intros [_ H]. simpl in H. destruct (value_shape t); try done.
  - destruct H as (l&Hl&E). destruct (wire_ser l Hl) as (b&E'&?&_). congruence.
  - destruct H as (f&Hf&E&_). destruct (wire_ser f Hf) as (b&E'&?&_). congruence.
  - apply H.
Qed.

(** Without nesting, any depth will do. *)
Lemma base_converts d kvp :
  kvp_shape_ok kvp -> get_type kvp <> MPT MPT_FillParameters ->
  converts base_wf (get_type kvp) (deserialize_depth d kvp).
Proof.
  destruct kvp as [t v|t v]; intros Hsh Hne.
  { destruct d; by apply varint_converts. }
  pose proof (shape_bytes_ok t v Hsh) as Hv.
  assert (deserialize_depth d (KvBytes t v) = deserialize_depth 1 (KvBytes t v)) as ->.
  { destruct (registry_cases _ _ _ MessageParameterType_exact t) as [(c&E&->)|[(e&E) _]].
    - destruct d, c; done.
    - destruct d; cbn [deserialize_depth]; unfold MessageParameterType_try_from; by rewrite E. }
  cbn [deserialize_depth get_type] in *.
  destruct (registry_cases _ _ _ MessageParameterType_exact t) as [(c&E&->)|[(e&E) _]];
    unfold MessageParameterType_try_from; rewrite E; [|apply converts_Err].
  destruct c; cbn [omap_err obind]; try apply converts_Err; try done.
  - destruct (robust_run_on 1 _ _ v AuthorizationToken_robust Hv) as [H1 H2].
    destruct (run_on AuthorizationToken_deserialize v) as [x|e| |]; try done.
    apply converts_Ok; [by apply H2|done].
  - destruct (robust_run_on 1 _ _ v (wire_robust (Wire := Wire_Location)) Hv) as [H1 H2].
    destruct (run_on Location_deserialize v) as [x|e| |]; try done.
    apply converts_Ok; [by apply H2|done].
  - apply (converts_run_on _ 0); [apply location_filter_robust|done].
  - apply (converts_run_on _ 0); [apply switch_from_robust|done].
  - by apply (range_filter_converts RFK_Subgroup).
  - by apply (range_filter_converts RFK_ObjectId).
  - by apply (range_filter_converts RFK_Priority).
  - by apply (range_filter_converts RFK_ObjectProperty).
  - by apply (range_filter_converts RFK_TrackProperty).
  - apply (converts_run_on _ 0); [apply prefix_robust|done].
  - apply (converts_run_on _ 0); [apply switching_set_robust|done].
Qed.

Definition fill_read (s : list MessageParameter * Z) : Prop :=
  Forall base_wf (fst s) /\
  forallb (fun p => is_valid_fill_parameter (type_value p)) (fst s) = true /\
  StronglySorted (key_le type_value) (fst s) /\ is_u64 (snd s) /\
  Forall (fun p => type_value p <= snd s) (fst s).

Lemma sorted_snoc (l : list MessageParameter) p :
  StronglySorted (key_le type_value) l -> Forall (fun q => type_value q <= type_value p) l ->
  StronglySorted (key_le type_value) (l ++ [p]).
Proof.
  induction 1 as [|x l Hs IH Hx]; intros Hk; [by repeat constructor|].
  inversion Hk; subst. simpl. constructor; [by apply IH|]. apply Forall_app. split; [done|].
  by repeat constructor.
Qed.

Lemma robust_add_type e prev d :
  is_u64 prev -> is_u64 d ->
  robust 0 (lift (ok_or (checked_add prev d) (ProtocolViolation e)))
    (fun t => is_u64 t /\ prev <= t).
Proof.
  intros Hp Hd. apply robust_lift; [by destruct (checked_add prev d)|].
  intros t Ht. destruct (checked_add prev d) eqn:E; inversion Ht; subst.
  apply checked_add_Some in E. ulia.
Qed.

Lemma fill_types t : is_valid_fill_parameter t = true -> t <> MPT MPT_FillParameters.
Proof. by intros H ->. Qed.

Lemma fill_step_robust d s :
  fill_read s -> robust 1 (fill_step (deserialize_depth d) s)
    (fun s' => fill_read s' /\ length (fst s') = S (length (fst s))).
Proof.
  intros (Hb&Hval&Hs&Hu&Hle). unfold fill_step. robust_step.
  eapply (robust_bind_any 0 0); [by apply robust_add_type|lia|]. intros t [Ht Hge].
  robust_step; [robust_step|]. eapply (robust_bind_any 0 1); [by apply read_value_robust|lia|].
  intros kvp [<- Hsh]. destruct (base_converts d kvp Hsh (fill_types _ ltac:(eassumption))) as [H1 H2].
  eapply (robust_bind_any 0 0); [apply (robust_lift _ (fun p => base_wf p /\ type_value p = get_type kvp)); auto|lia|].
  intros p [Hp Et]. apply robust_ret. unfold fill_read. simpl. rewrite <- Et in *.
  assert (Forall (fun q => type_value q <= type_value p) (fst s)) as Hle'
    by (eapply Forall_impl; [exact Hle|]; cbv beta; intros; lia).
  split; [|rewrite length_app; simpl; lia].
  split; [by apply Forall_snoc|]. split; [rewrite forallb_app, Hval; simpl; by rewrite andb_true_r|].
  split; [by apply sorted_snoc|]. split; [done|]. by apply Forall_snoc.
Qed.

Lemma fill_value_robust d :
  robust 0 (fill_parameters_value (deserialize_depth d))
    (fun p => mp_wf p /\ type_value p = MPT MPT_FillParameters).
Proof.
  unfold fill_parameters_value. robust_step.
  eapply (robust_bind_any 0 0); [apply (for_count_robust_n _
    (fun c s => fill_read s /\ Z.of_nat (length (fst s)) = a - c))|lia|].
  - intros c s Hc [Hs Hl]. eapply robust_weaken; [by apply fill_step_robust|done|].
    intros s' [? Hl']. split; [done|]. rewrite Hl'. lia.
  - ulia.
  - split; [|simpl; lia]. unfold fill_read, is_u64. simpl. repeat split; (lia || constructor).
  - intros s [(Hb&Hval&Hs&_) Hl]. robust_step. apply robust_ret. split; [|done].
    simpl. unfold fills_ok. rewrite Hl. unfold is_u64 in *. repeat split; (done || lia).
Qed.

Lemma mp_converts kvp :
  kvp_shape_ok kvp -> converts mp_wf (get_type kvp) (MessageParameter_deserialize kvp).
Proof.
  intros Hsh. unfold MessageParameter_deserialize.
  destruct (decide (get_type kvp = MPT MPT_FillParameters)) as [E|Hne].
  - destruct kvp as [t v|t v]; simpl in E; subst t; [by destruct Hsh|].
    exact (converts_run_on _ 0 _ _ v (fill_value_robust 0) (shape_bytes_ok _ _ Hsh)).
  - destruct (base_converts 1 kvp Hsh Hne) as [H1 H2]. split; [done|]. intros p Hp.
    destruct (H2 p Hp) as [? ?]. split; [|done]. by destruct p.
Qed.

(** ** One level of nesting is enough *)

Lemma deserialize_depth_flat d kvp :
  get_type kvp <> MPT MPT_FillParameters -> deserialize_depth d kvp = deserialize_depth 0 kvp.
Proof.
  destruct kvp as [t v|t v]; [by destruct d|]. intros Hne. cbn [get_type] in Hne.
  destruct (registry_cases _ _ _ MessageParameterType_exact t) as [(c&E&->)|[(e&E) _]].
  - destruct d, c; done.
  - destruct d; cbn [deserialize_depth]; unfold MessageParameterType_try_from; by rewrite E.
Qed.

Lemma read_value_type t bs kvp r :
  read_message_parameter_value t bs = (Ok kvp, r) -> get_type kvp = t.
Proof.
  assert (forall v, new_bytes t v = Ok kvp -> get_type kvp = t) as Hn.
  { intros v. unfold new_bytes. case_if; [done|]. by intros [= <-]. }
  unfold read_message_parameter_value. destruct (value_shape t); intros E.
  - apply pbind_Ok_inv in E as (v&r1&_&E). unfold pret in E. by simplify_eq.
  - apply pbind_Ok_inv in E as (v&r1&_&E). unfold pret in E. by simplify_eq.
  - do 4 apply pbind_Ok_inv in E as (?&?&_&E). unfold lift in E. simplify_eq. eauto.
  - do 2 apply pbind_Ok_inv in E as (?&?&_&E). unfold lift in E. simplify_eq. eauto.
  - do 2 apply pbind_Ok_inv in E as (?&?&_&E). case_if; [done|].
    apply pbind_Ok_inv in E as (?&?&_&E). unfold pret in E. by simplify_eq.
Qed.

Lemma fill_step_depth d s bs :
  fill_step (deserialize_depth d) s bs = fill_step (deserialize_depth 0) s bs.
Proof.
  unfold fill_step, pbind at 1 5. destruct (get_vi bs) as [[delta|e| |] r]; try done.
  unfold pbind at 1 4. destruct (lift _ r) as [[t|e| |] r1]; try done.
  destruct (is_valid_fill_parameter t) eqn:Hv; [|done]. cbn [negb].
  unfold pbind at 1 3. destruct (read_message_parameter_value t r1) as [[kvp|e| |] r2] eqn:E; try done.
  apply read_value_type in E. unfold pbind, lift. rewrite (deserialize_depth_flat d); [done|].
  rewrite E. by apply fill_types.
Qed.

Lemma ploop_ext {S} (f g : S -> parser S) fuel count s bs :
  (forall s bs, f s bs = g s bs) -> ploop fuel f count s bs = ploop fuel g count s bs.
Proof.
  intros H. revert count s bs. induction fuel as [|fuel IH]; intros count s bs; cbn [ploop]; [done|].
  case_if; [done|]. unfold pbind. rewrite H. destruct (g s bs) as [[]]; auto.
Qed.

(** More depth changes nothing. *)
Lemma depth_enough d kvp : deserialize_depth (S d) kvp = MessageParameter_deserialize kvp.
Proof.
  unfold MessageParameter_deserialize. destruct kvp as [t v|t v]; [done|]. cbn [deserialize_depth].
  destruct (MessageParameterType_try_from t) as [c|e| |]; [|done..]. destruct c; try done.
  cbn [omap_err obind]. unfold run_on, fill_parameters_value, for_count, pbind.
  destruct (get_vi v) as [[count|e| |] r]; try done.
  rewrite (ploop_ext _ (fill_step (deserialize_depth 0)) _ count); [done|].
  intros. apply fill_step_depth.
Qed.

(** ** Reading a list *)

Definition params_read (msg_type : ControlMessageType) (s : list MessageParameter * Z) : Prop :=
  params_ok msg_type (fst s) /\ StronglySorted (key_le type_value) (fst s) /\ is_u64 (snd s) /\ Forall (fun p => type_value p <= snd s) (fst s).

Lemma param_step_robust msg_type s :
  params_read msg_type s -> robust 1 (param_step msg_type s) (params_read msg_type).
Proof.
  intros ([Hb Hval]&Hs&Hu&Hle). unfold param_step. robust_step.
  eapply (robust_bind_any 0 0); [by apply robust_add_type|lia|]. intros t [Ht Hge].
  eapply (robust_bind_any 0 1); [by apply read_value_robust|lia|].
  intros kvp [<- Hsh]. destruct (mp_converts kvp Hsh) as [H1 H2].
  eapply (robust_bind_any 0 0); [apply (robust_lift _ (fun p => mp_wf p /\ type_value p = get_type kvp)); auto|lia|].
  intros p [Hp Et]. robust_step; [robust_step|]. apply robust_ret.
  unfold params_read, params_ok. simpl. rewrite <- Et in *.
  assert (Forall (fun q => type_value q <= type_value p) (fst s)) as Hle'
    by (eapply Forall_impl; [exact Hle|]; cbv beta; intros; lia).
  split; [split; by apply Forall_snoc|]. split; [by apply sorted_snoc|]. split; [done|].
  by apply Forall_snoc.
Qed.

(** With a count whose vector can be allocated, reading never panics. *)
Lemma params_robust `{Target} count msg_type :
  0 <= count -> count * size_of_MessageParameter <= ISIZE_MAX ->
  robust 0 (deserialize_message_parameters count msg_type)
    (fun ps => params_ok msg_type ps /\ StronglySorted (key_le type_value) ps).
Proof.
  intros Hc Hcap. unfold deserialize_message_parameters, with_capacity.
  rewrite (proj2 (Z.leb_le _ _)) by done. apply robust_lift_Ok_bind.
  eapply (robust_bind_any 0 0); [apply (for_count_robust _ (params_read msg_type))|lia|].
  - apply param_step_robust.
  - done.
  - unfold params_read, params_ok, is_u64. simpl. repeat split; (lia || constructor).
  - intros s (H1&H2&_). by apply robust_ret.
Qed.

(** With any other, it always does. *)
Lemma params_panic `{Target} count msg_type bs :
  ISIZE_MAX < count * size_of_MessageParameter ->
  deserialize_message_parameters count msg_type bs = (Panic, bs).
Proof.
  intros H0. unfold deserialize_message_parameters, with_capacity, pbind, lift.
  by rewrite (proj2 (Z.leb_gt _ _)).
Qed.

(** ** Lookups and updates *)

Lemma get_set_param params p t :
  get_param (set_param params p) t = if type_value p =? MPT t then Some p else get_param params t.
Proof.
  unfold get_param. induction params as [|q params IH]; simpl; [done|].
  destruct (Z.eqb_spec (type_value q) (type_value p)) as [E|Hne]; simpl.
  - rewrite E. by destruct (type_value p =? MPT t).
  - rewrite IH. destruct (Z.eqb_spec (type_value q) (MPT t)), (Z.eqb_spec (type_value p) (MPT t));
      (done || congruence).
Qed.

Definition of_type (t : Z) (l : list MessageParameter) : list MessageParameter :=
  List.filter (fun p => type_value p =? t) l.

Lemma filter_filter {A} (f g : A -> bool) l :
  List.filter f (List.filter g l) = List.filter (fun x => g x && f x) l.
Proof.
  induction l as [|x l IH]; simpl; [done|]. destruct (g x); simpl; rewrite IH; by destruct (f x).
Qed.

Lemma filter_false {A} (f : A -> bool) l : (forall x, In x l -> f x = false) -> List.filter f l = [].
Proof.
  induction l as [|x l IH]; simpl; intros H; [done|]. rewrite (H x) by auto. apply IH. auto.
Qed.

Lemma filter_ext_in' {A} (f g : A -> bool) l :
  (forall x, In x l -> f x = g x) -> List.filter f l = List.filter g l.
Proof.
  induction l as [|x l IH]; simpl; intros H; [done|]. rewrite (H x), IH by auto. done.
Qed.

Lemma apply_update_type t current updates :
  of_type t (apply_message_parameter_update current updates) =
  if existsb (fun u => type_value u =? t) updates
  then of_type t (List.filter (fun u => negb (is_removal u)) updates)
  else of_type t current.
Proof.
  unfold of_type, apply_message_parameter_update. rewrite List.filter_app, !filter_filter.
  destruct (existsb (fun u => type_value u =? t) updates) eqn:E.
  - rewrite (filter_false _ current); [done|]. intros p _.
    destruct (Z.eqb_spec (type_value p) t) as [<-|]; [|by rewrite andb_false_r].
    by rewrite E.
  - rewrite (filter_false _ updates), app_nil_r.
    + apply filter_ext_in'. intros p _. destruct (Z.eqb_spec (type_value p) t) as [<-|];
        [by rewrite E|by rewrite andb_false_r].
    + intros u Hu. destruct (Z.eqb_spec (type_value u) t) as [Ht|]; [|by rewrite andb_false_r].
      apply not_true_iff_false in E. destruct E. apply existsb_exists. exists u.
      split; [done|]. by apply Z.eqb_eq.
Qed.

(** * Properties *)

(** C39: message parameters survive the wire.  A list of parameters that the
    message may carry is written and read back, sorted by Type with repeated
    filters in their order, the bytes after it untouched; the one exception is
    a value over 65535 bytes, which serialization refuses with its length. *)
Theorem message_parameters_roundtrip `{Target} msg_type ps rest :
  params_ok msg_type ps -> Z.of_nat (length ps) <= U32 ->
  too_long (serialize_message_parameters ps) \/
  exists bs, serialize_message_parameters ps = Ok bs /\
    deserialize_message_parameters (Z.of_nat (length ps)) msg_type (bs ++ rest) =
      (Ok (sort_by_key type_value ps), rest).
Proof.
  intros Hps Hlen. assert (Z.of_nat (length ps) * size_of_MessageParameter <= ISIZE_MAX) as Hcap
    by (pose proof size_of_MessageParameter_range; nia).
  destruct (params_transmit msg_type ps Hps Hcap) as [?|(bs&E&_&Hd)]; [by left|].
  right. exists bs. auto.
Qed.

(** A fill over a subscription's own filter, with a priority and two filters. *)
Definition example_params : list MessageParameter :=
  [MP_RangeFilter RFK_Subgroup (Some (mkRangeFilter 0 None [(0, Some 3)]));
   MP_SubscriberPriority 7;
   MP_FillParameters [MP_FillTimeout 250; MP_GroupOrder GO_Descending];
   MP_RangeFilter RFK_Subgroup (Some (mkRangeFilter 1 None [(9, None)]))].

Lemma message_parameters_roundtrip_witness :
  is_ok (serialize_message_parameters example_params) = true /\
  (too_long (serialize_message_parameters example_params) \/
   exists bs, serialize_message_parameters example_params = Ok bs /\
     deserialize_message_parameters (H := release_build) 4 CMT_Subscribe (bs ++ [5]) =
       (Ok (sort_by_key type_value example_params), [5])).
Proof.
  split; [vm_compute; reflexivity|].
  apply (message_parameters_roundtrip (H := release_build) CMT_Subscribe example_params [5]).
  - split; [|repeat constructor].
    repeat constructor; cbv; repeat split; discriminate.
  - vm_compute. discriminate.
Defined.

(** C40: what a peer's parameter list can do.  On any bytes and any announced
    count, reading ends with an error or with parameters that are all well
    formed, in order, and allowed in the message, unless the count is so large
    that a vector for it cannot be allocated: then, whatever the bytes, the
    reader panics before it reads any. *)
Theorem message_parameters_checked `{Target} count msg_type bs :
  is_u64 count -> bytes_ok bs ->
  if count * size_of_MessageParameter <=? ISIZE_MAX then
    match deserialize_message_parameters count msg_type bs with
    | (Ok ps, _) => Forall (fun p => is_valid_for p msg_type = true) ps /\ Forall mp_wf ps /\
        StronglySorted (key_le type_value) ps
    | (Err _, _) => True
    | _ => False
    end
  else deserialize_message_parameters count msg_type bs = (Panic, bs).
Proof.
  intros Hc Hb. case_if; breflect; [|by apply params_panic].
  pose proof (params_robust count msg_type ltac:(ulia) ltac:(done) bs Hb) as R.
  destruct (deserialize_message_parameters count msg_type bs) as [[ps|e| |] r]; try done.
  unfold params_ok in R. tauto.
Qed.

(** Two to the sixtieth parameters: a count of nine bytes. *)
Lemma message_parameters_checked_witness :
  deserialize_message_parameters (H := release_build) (2 ^ 60) CMT_Subscribe [] = (Panic, []).
Proof.
  assert (is_u64 (2 ^ 60)) as H by (unfold is_u64; lia).
  exact (message_parameters_checked (H := release_build) (2 ^ 60) CMT_Subscribe [] H (List.Forall_nil _)).
Defined.

(** An update replaces, Type by Type.  For every Type it names, the
    parameters of that Type afterwards are those of the update, in order, with
    the zero-length removals left out; every other Type keeps its parameters.
    And [set_param] followed by [get_param] behaves as a map by Type. *)
Theorem parameter_update_by_type current updates p t :
  of_type t (apply_message_parameter_update current updates) =
    (if existsb (fun u => type_value u =? t) updates
     then of_type t (List.filter (fun u => negb (is_removal u)) updates)
     else of_type t current) /\
  (forall pt, get_param (set_param current p) pt =
     if type_value p =? MPT pt then Some p else get_param current pt).
Proof. split; [apply apply_update_type|]. intros. apply get_set_param. Qed.
