(* ===== verification/CombinedFilter.v ===== *)
(** What a request's Range Filters add up to
    ([libs/moqtail-rs/src/model/parameter/combined_filter.rs]), and the filters
    the relay builds from requests and updates
    ([apps/relay/src/server/filter_constructor.rs], and the pure part of
    [fill.rs]).

    Ranges within one filter are OR'd, filters sharing a SetID are AND'd, and
    the SetIDs are OR'd: [selects] says so over the list of filters, and the
    theorems relate to it the maps the program builds. *)
From S2P Require Import Prelude BTree Varint Pair Common Codes LocationFilter RangeFilter Properties MessageParameter.

(** * Objects ([data/object.rs]) *)

Record Object := mkObject {
  obj_track_alias : Z;
  obj_location : Location;
  obj_publisher_priority : Z;
  obj_forwarding_preference : ObjectForwardingPreference;
  obj_subgroup_id : option Z;
  obj_status : ObjectStatus;
  obj_properties : option (list ObjectProperty);
  obj_payload : option bytes
}.

(** * The filter *)

Record FilterSet := mkFilterSet {
  fs_subgroup : option (list Range);
  fs_object_id : option (list Range);
  fs_priority : option (list Range);
  fs_object_properties : btree (list Range);
  fs_track_properties : btree (list Range)
}.

Definition FilterSet_default : FilterSet := mkFilterSet None None None [] [].

Record ObjectFields := mkObjectFields {
  f_subgroup_id : option Z;
  f_object_id : Z;
  f_publisher_priority : Z;
  f_properties : option (list ObjectProperty)
}.

Definition ObjectFields_from (object : Object) : ObjectFields :=
  mkObjectFields (obj_subgroup_id object) (Common.object (obj_location object))
    (obj_publisher_priority object) (obj_properties object).

Record CombinedFilter := mkCombinedFilter { sets : btree FilterSet; cf_range_count : Z }.

Definition CombinedFilter_default : CombinedFilter := mkCombinedFilter [] 0.

(** The [match kind] of [new]: where the ranges of a filter go in its set. *)
Definition place (kind : RangeFilterKind) (pt : option Z) (ranges : list Range) (set : FilterSet)
    : FilterSet :=
  match kind with
  | RFK_Subgroup => mkFilterSet (Some ranges) (fs_object_id set) (fs_priority set)
      (fs_object_properties set) (fs_track_properties set)
  | RFK_ObjectId => mkFilterSet (fs_subgroup set) (Some ranges) (fs_priority set)
      (fs_object_properties set) (fs_track_properties set)
  | RFK_Priority => mkFilterSet (fs_subgroup set) (fs_object_id set) (Some ranges)
      (fs_object_properties set) (fs_track_properties set)
  | RFK_ObjectProperty => mkFilterSet (fs_subgroup set) (fs_object_id set) (fs_priority set)
      (bt_insert (default 0 pt) ranges (fs_object_properties set)) (fs_track_properties set)
  | RFK_TrackProperty => mkFilterSet (fs_subgroup set) (fs_object_id set) (fs_priority set)
      (fs_object_properties set) (bt_insert (default 0 pt) ranges (fs_track_properties set))
  end.

Abbreviation filter_key := (RangeFilterKind * Z * option Z)%type.

(** The loop of [new]; [seen] is the [HashSet] of keys. *)
Fixpoint add_filters (filter : CombinedFilter) (seen : list filter_key) (params : list MessageParameter)
    : outcome RangeFilterError CombinedFilter :=
  match params with
  | [] => Ok filter
  | MP_RangeFilter kind (Some range_filter) :: rest =>
      let key := (kind, set_id range_filter, property_type range_filter) in
      if bool_decide (key ∈ seen)
      then Err (RFE_Duplicate kind (set_id range_filter) (property_type range_filter))
      else
        let? ranges := validate range_filter kind in
        add_filters
          (mkCombinedFilter
             (bt_entry (set_id range_filter) FilterSet_default
                (place kind (property_type range_filter) ranges) (sets filter))
             (cf_range_count filter + Z.of_nat (length ranges)))
          (key :: seen) rest
  | _ :: rest => add_filters filter seen rest
  end.

Definition CombinedFilter_new (params : list MessageParameter)
    : outcome RangeFilterError CombinedFilter :=
  add_filters CombinedFilter_default [] params.

Definition has_track_filters (self : CombinedFilter) : bool :=
  existsb (fun set => negb (Nat.eqb (length (fs_track_properties set)) 0)) (bt_values (sets self)).

Definition for_objects (params : list MessageParameter) : outcome RangeFilterError CombinedFilter :=
  let? filter := CombinedFilter_new params in
  if has_track_filters filter then Err RFE_TrackFilterOnObjects else Ok filter.

Definition cf_is_empty (self : CombinedFilter) : bool := Nat.eqb (length (sets self)) 0.

Definition within (ranges : list Range) (value : Z) : bool :=
  existsb (fun range => Range_contains range value) ranges.

Definition set_range_count (set : FilterSet) : Z :=
  let some (o : option (list Range)) := match o with Some l => [l] | None => [] end in
  let all := some (fs_subgroup set) ++ some (fs_object_id set) ++ some (fs_priority set) ++
             bt_values (fs_object_properties set) ++ bt_values (fs_track_properties set) in
  foldr Z.add 0 (map (fun ranges => Z.of_nat (length ranges)) all).

Definition properties_pass (required : btree (list Range)) (values : btree Z) : bool :=
  forallb (fun e => match bt_get (fst e) values with
                    | Some value => within (snd e) value
                    | None => false
                    end) required.

(** [values.entry(type_value).or_insert(value)] for each integer pair. *)
Fixpoint collect_kvps (kvps : list KeyValuePair) (values : btree Z) : btree Z :=
  match kvps with
  | [] => values
  | KvVarInt type_value value :: rest =>
      collect_kvps rest (bt_entry type_value value (fun v => v) values)
  | KvBytes _ _ :: rest => collect_kvps rest values
  end.

Definition collect_object_property (values : btree Z) (property : ObjectProperty) : btree Z :=
  match property with
  | OP_ImmutableProperties properties => collect_kvps properties values
  | other =>
      match ObjectProperty_try_into other with
      | Ok kvp => collect_kvps [kvp] values
      | _ => values
      end
  end.
Definition object_property_values (properties : option (list ObjectProperty)) : btree Z :=
  fold_left collect_object_property match properties with Some l => l | None => [] end [].

Definition collect_track_property (values : btree Z) (property : TrackProperty) : btree Z :=
  match property with
  | TP_ImmutableProperties properties => collect_kvps properties values
  | other =>
      match TrackProperty_try_into other with
      | Ok kvp => collect_kvps [kvp] values
      | _ => values
      end
  end.
Definition track_property_values (properties : list TrackProperty) : btree Z :=
  fold_left collect_track_property properties [].

(** One turn of the loop of [narrow_for_track]. *)
Definition narrow_step (values : btree Z) (narrowed : CombinedFilter) (e : Z * FilterSet)
    : CombinedFilter :=
  let '(set_id, set) := e in
  if negb (properties_pass (fs_track_properties set) values) then narrowed
  else
    let set := mkFilterSet (fs_subgroup set) (fs_object_id set) (fs_priority set) (fs_object_properties set) [] in
    mkCombinedFilter (bt_insert set_id set (sets narrowed))
      (cf_range_count narrowed + set_range_count set).

Definition narrow_for_track (self : CombinedFilter) (properties : list TrackProperty)
    : option CombinedFilter :=
  if cf_is_empty self then Some CombinedFilter_default
  else
    let values := track_property_values properties in
    let narrowed := fold_left (narrow_step values) (sets self) CombinedFilter_default in
    if negb (cf_is_empty narrowed) then Some narrowed else None.

Definition set_matches (fields : ObjectFields) (set : FilterSet) : bool :=
  is_none_or (fs_subgroup set) (fun ranges =>
    match f_subgroup_id fields with Some id => within ranges id | None => false end) &&
  is_none_or (fs_object_id set) (fun ranges => within ranges (f_object_id fields)) &&
  is_none_or (fs_priority set) (fun ranges => within ranges (f_publisher_priority fields)) &&
  (Nat.eqb (length (fs_object_properties set)) 0 ||
   properties_pass (fs_object_properties set) (object_property_values (f_properties fields))).

Definition matches (self : CombinedFilter) (fields : ObjectFields) : bool :=
  if cf_is_empty self then true
  else existsb (set_matches fields) (bt_values (sets self)).

Definition matches_object (self : CombinedFilter) (object : Object) : bool :=
  matches self (ObjectFields_from object).

(** The loop of [check_filter_range_limit].  The call for a FILL_PARAMETERS is a
    loop of its own over the nested list, whose own nested lists, if any, would
    be checked the same way. *)
Fixpoint check_param_limit (limit : Z) (param : MessageParameter) (s : bool * Z)
    : outcome RangeFilterError (bool * Z) :=
  match param with
  | MP_RangeFilter _ filter =>
      Ok (true, snd s + match filter with Some f => range_count f | None => 0 end)
  | MP_FillParameters parameters =>
      let? r := (fix go l s := match l with
                               | [] => Ok s
                               | p :: l => let? s := check_param_limit limit p s in go l s
                               end) parameters (false, 0) in
      if fst r && ((limit =? 0) || (limit <? snd r)) then Err (RFE_TooManyRanges (snd r) limit)
      else Ok s
  | _ => Ok s
  end.

Fixpoint check_params_limit (limit : Z) (params : list MessageParameter) (s : bool * Z)
    : outcome RangeFilterError (bool * Z) :=
  match params with
  | [] => Ok s
  | p :: l => let? s := check_param_limit limit p s in check_params_limit limit l s
  end.

Definition check_filter_range_limit (params : list MessageParameter) (limit : Z)
    : outcome RangeFilterError unit :=
  let? r := check_params_limit limit params (false, 0) in
  if fst r && ((limit =? 0) || (limit <? snd r)) then Err (RFE_TooManyRanges (snd r) limit)
  else Ok tt.

(** * The relay's filters ([filter_constructor.rs]) *)

(** The loop over the FILL_PARAMETERS of a request. *)
Fixpoint check_fills (params : list MessageParameter) : outcome RangeFilterError unit :=
  match params with
  | [] => Ok tt
  | MP_FillParameters parameters :: rest =>
      let? _ := for_objects parameters in check_fills rest
  | _ :: rest => check_fills rest
  end.

Definition object_filter (params : list MessageParameter) (limit : Z)
    : outcome RangeFilterError CombinedFilter :=
  let? _ := check_filter_range_limit params limit in
  let? _ := check_fills params in
  for_objects params.

Definition updated_filter (current update : list MessageParameter) (limit : Z)
    : outcome RangeFilterError CombinedFilter :=
  let? _ := check_filter_range_limit update limit in
  object_filter (apply_message_parameter_update current update) limit.

Definition tracks_filter (params : list MessageParameter) (limit : Z)
    : outcome RangeFilterError CombinedFilter :=
  let? _ := check_filter_range_limit params limit in
  let? _ := check_fills params in
  CombinedFilter_new params.

Definition updated_tracks_filter (current update : list MessageParameter) (limit : Z)
    : outcome RangeFilterError CombinedFilter :=
  let? _ := check_filter_range_limit update limit in
  tracks_filter (apply_message_parameter_update current update) limit.

Definition is_track_filter (p : MessageParameter) : bool :=
  match p with MP_RangeFilter RFK_TrackProperty _ => true | _ => false end.

(** [sets.entry(filter.set_id).or_default().push(param)] for each filter. *)
Definition group_by_set (params : list MessageParameter) : btree (list MessageParameter) :=
  fold_left (fun sets param =>
    match param with
    | MP_RangeFilter _ (Some filter) => bt_entry (set_id filter) [] (fun l => l ++ [param]) sets
    | _ => sets
    end) params [].

(** The loop over the sets: what was kept, and whether any set passed. *)
Fixpoint keep_sets (track_properties : list TrackProperty) (groups : list (list MessageParameter))
    (kept : list MessageParameter) (any_passed : bool) : option (list MessageParameter) :=
  match groups with
  | [] => if any_passed then Some kept else None
  | filters :: rest =>
      let track := List.filter is_track_filter filters in
      let passes := match CombinedFilter_new track with
                    | Ok net => bool_decide (is_Some (narrow_for_track net track_properties))
                    | _ => false
                    end in
      if negb passes then keep_sets track_properties rest kept any_passed
      else
        let objects := List.filter (fun p => negb (is_track_filter p)) filters in
        if Nat.eqb (length objects) 0 then Some []
        else keep_sets track_properties rest (kept ++ objects) true
  end.

Definition filters_for_track (params : list MessageParameter) (track_properties : list TrackProperty)
    : option (list MessageParameter) :=
  let groups := group_by_set params in
  if Nat.eqb (length groups) 0 then Some []
  else keep_sets track_properties (bt_values groups) [] false.

Definition is_range_filter (p : MessageParameter) : bool :=
  match p with MP_RangeFilter _ _ => true | _ => false end.

Definition fill_range_filter (subscription fill : list MessageParameter) : CombinedFilter :=
  let params := apply_message_parameter_update (List.filter is_range_filter subscription)
                  (List.filter is_range_filter fill) in
  match for_objects params with Ok f => f | _ => CombinedFilter_default end.

(** * Fills ([fill.rs]) *)

Definition fill_fetch_range (filter : LocationFilter) (largest : option Location)
    : option (Location * Location) := fetch_range filter largest.

Definition fill_parameters (parameters : list MessageParameter) : option (list MessageParameter) :=
  match get_param parameters MPT_FillParameters with
  | Some (MP_FillParameters parameters) => Some parameters
  | _ => None
  end.

Fixpoint fill_filter (fill : list MessageParameter) (subscription_filter : LocationFilter)
    : LocationFilter :=
  match fill with
  | [] => subscription_filter
  | MP_LocationFilter filter :: _ => filter
  | _ :: rest => fill_filter rest subscription_filter
  end.

Definition fill_overrides (fill : list MessageParameter) (priority : Z) (order : GroupOrder)
    : Z * GroupOrder :=
  fold_left (fun overridden param =>
    match param with
    | MP_SubscriberPriority priority => (priority, snd overridden)
    | MP_GroupOrder order => (fst overridden, order)
    | _ => overridden
    end) fill (priority, order).

(** * What the filters mean *)

(** One filter of a request, its ranges resolved.  [c_type] is the Property
    Type, 0 where the kind has none. *)
Record criterion := Crit { c_kind : RangeFilterKind; c_set : Z; c_type : Z; c_ranges : list Range }.

(** The filters of a request, in order. *)
Fixpoint criteria (params : list MessageParameter) : list criterion :=
  match params with
  | [] => []
  | MP_RangeFilter kind (Some f) :: rest =>
      match validate f kind with
      | Ok ranges => Crit kind (set_id f) (default 0 (property_type f)) ranges :: criteria rest
      | _ => criteria rest
      end
  | _ :: rest => criteria rest
  end.

(** Whether an Object meets a criterion; those on the track are not its own. *)
Definition crit_passes (fields : ObjectFields) (c : criterion) : bool :=
  match c_kind c with
  | RFK_Subgroup =>
      match f_subgroup_id fields with Some id => within (c_ranges c) id | None => false end
  | RFK_ObjectId => within (c_ranges c) (f_object_id fields)
  | RFK_Priority => within (c_ranges c) (f_publisher_priority fields)
  | RFK_ObjectProperty =>
      match bt_get (c_type c) (object_property_values (f_properties fields)) with
      | Some value => within (c_ranges c) value
      | None => false
      end
  | RFK_TrackProperty => true
  end.

(** Whether a track meets a criterion; those on Objects are not its own. *)
Definition crit_track_passes (values : btree Z) (c : criterion) : bool :=
  match c_kind c with
  | RFK_TrackProperty =>
      match bt_get (c_type c) values with Some value => within (c_ranges c) value | None => false end
  | _ => true
  end.

(** Some SetID has all its criteria met; with no criteria, everything passes. *)
Definition selects (P : criterion -> bool) (cs : list criterion) : Prop :=
  cs = [] \/ exists c0, c0 ∈ cs /\ forall c, c ∈ cs -> c_set c = c_set c0 -> P c = true.

(** ** The sets the program builds *)

(** Where a set keeps the ranges of a kind and Property Type. *)
Definition slot (set : FilterSet) (kind : RangeFilterKind) (t : Z) : option (list Range) :=
  match kind with
  | RFK_Subgroup => if t =? 0 then fs_subgroup set else None
  | RFK_ObjectId => if t =? 0 then fs_object_id set else None
  | RFK_Priority => if t =? 0 then fs_priority set else None
  | RFK_ObjectProperty => bt_get t (fs_object_properties set)
  | RFK_TrackProperty => bt_get t (fs_track_properties set)
  end.

Definition set_ok (set : FilterSet) : Prop :=
  bt_ok (fs_object_properties set) /\ bt_ok (fs_track_properties set).

(** The sets hold exactly the criteria. *)
Definition holds (cs : list criterion) (sets : btree FilterSet) : Prop :=
  bt_ok sets /\
  forall s, match bt_get s sets with
            | None => forall c, c ∈ cs -> c_set c <> s
            | Some set => set_ok set /\ (exists c, c ∈ cs /\ c_set c = s) /\
                forall k t rs, slot set k t = Some rs <-> Crit k s t rs ∈ cs
            end.

Definition crit_ok (c : criterion) : Prop := has_property_type (c_kind c) = false -> c_type c = 0.

Lemma place_slot kind pt rs set k t :
  (has_property_type kind = false -> default 0 pt = 0) ->
  slot (place kind pt rs set) k t =
  if bool_decide (k = kind /\ t = default 0 pt) then Some rs else slot set k t.
Proof.
  intros Hp. case_bool_decide as H.
  - destruct H as [-> ->]. destruct kind; simpl in *; rewrite ?bt_get_insert, ?Z.eqb_refl;
      try done; by rewrite Hp.
  - destruct kind, k; simpl in *; try done; rewrite ?Hp in H by done.
    1-3: destruct (Z.eqb_spec t 0); [destruct H; auto|done].
    all: rewrite bt_get_insert; destruct (Z.eqb_spec t (default 0 pt)); [destruct H; auto|done].
Qed.

Lemma place_ok kind pt rs set : set_ok set -> set_ok (place kind pt rs set).
Proof. intros [H1 H2]. destruct kind; split; simpl; auto with wire. Qed.

(** Adding a criterion whose slot is free. *)
Lemma holds_add cs sets kind s pt rs :
  holds cs sets -> (has_property_type kind = false -> default 0 pt = 0) ->
  (forall rs', Crit kind s (default 0 pt) rs' ∉ cs) ->
  holds (cs ++ [Crit kind s (default 0 pt) rs])
    (bt_entry s FilterSet_default (place kind pt rs) sets).
Proof.
  intros [Hok H] Hp Hfree. split; [auto with wire|]. intros s'. rewrite bt_get_entry.
  destruct (Z.eqb_spec s' s) as [->|Hne].
  - specialize (H s). split; [|split].
    + apply place_ok. destruct (bt_get s sets); [apply H|split; constructor].
    + exists (Crit kind s (default 0 pt) rs). rewrite elem_of_app, list_elem_of_singleton. auto.
    + intros k t rs'. rewrite place_slot, elem_of_app, list_elem_of_singleton by done.
      assert (slot match bt_get s sets with Some v => v | None => FilterSet_default end k t = Some rs' <->
        Crit k s t rs' ∈ cs) as Hold.
      { destruct (bt_get s sets) as [set|]; [apply H|]. split.
        - destruct k; simpl; try case_if; done.
        - intros Hin. by destruct (H _ Hin). }
      case_bool_decide as Hk.
      * destruct Hk as [-> ->]. split; [intros [= ->]; auto|].
        intros [Hin|[= ->]]; [by apply Hfree in Hin|done].
      * rewrite Hold. split; [auto|]. intros [?|[= -> -> ->]]; [done|]. by destruct Hk.
  - specialize (H s'). destruct (bt_get s' sets) as [set|].
    + destruct H as (Hs&(c&Hc&Ec)&Hsl). split; [done|]. split.
      * exists c. rewrite elem_of_app. auto.
      * intros k t rs'. rewrite Hsl, elem_of_app, list_elem_of_singleton. split; [auto|].
        intros [?|[= -> -> -> ->]]; done.
    + intros c. rewrite elem_of_app, list_elem_of_singleton. intros [Hc| ->]; [by apply H|done].
Qed.

(** What a key in [seen] stands for. *)
Definition crit_key (c : criterion) : filter_key :=
  (c_kind c, c_set c, if has_property_type (c_kind c) then Some (c_type c) else None).

Lemma validate_key kind f rs :
  validate f kind = Ok rs ->
  (has_property_type kind = false -> default 0 (property_type f) = 0) /\
  property_type f = if has_property_type kind then Some (default 0 (property_type f)) else None.
Proof.
  intros [_ [H _]]%validate_spec. destruct (property_type f); simpl.
  - destruct H as [-> _]. by split.
  - rewrite H. by split.
Qed.

Lemma add_filters_holds params : forall filter seen cs F,
  holds cs (sets filter) -> (forall c, c ∈ cs -> crit_key c ∈ seen) ->
  add_filters filter seen params = Ok F -> holds (cs ++ criteria params) (sets F).
Proof.
  induction params as [|p params IH]; intros filter seen cs F Hh Hseen E.
  { simpl in *. simplify_eq. by rewrite app_nil_r. }
  destruct p as [| | | | | | | | | | | | |kind [f|]| | | |]; simpl in E |- *;
    try (by eapply IH).
  case_bool_decide as Hk; [done|]. apply obind_Ok_inv in E as (rs&Ev&E). rewrite Ev.
  destruct (validate_key _ _ _ Ev) as [Hp Hkey].
  change (Crit kind (set_id f) (default 0 (property_type f)) rs :: criteria params)
    with ([Crit kind (set_id f) (default 0 (property_type f)) rs] ++ criteria params).
  rewrite app_assoc. eapply IH; [| |exact E].
  - simpl. apply holds_add; [done|done|]. intros rs' Hin. apply Hk.
    apply Hseen in Hin. unfold crit_key in Hin. simpl in Hin. by rewrite <- Hkey in Hin.
  - intros c. rewrite elem_of_app, list_elem_of_singleton, elem_of_cons.
    intros [Hin| ->]; [auto|]. left. unfold crit_key. simpl. by rewrite <- Hkey.
Qed.

Lemma CombinedFilter_new_holds params F :
  CombinedFilter_new params = Ok F -> holds (criteria params) (sets F).
Proof.
  intros E. change (criteria params) with ([] ++ criteria params).
  eapply add_filters_holds; [| |exact E].
  - split; [auto with wire|]. intros s. simpl. by intros c ?%elem_of_nil.
  - by intros c ?%elem_of_nil.
Qed.

(** ** Matching *)

Lemma properties_pass_spec required values :
  bt_ok required ->
  properties_pass required values = true <->
  forall t rs, bt_get t required = Some rs ->
    match bt_get t values with Some v => within rs v | None => false end = true.
Proof.
  intros Hok. unfold properties_pass. rewrite forallb_forall. split.
  - intros H t rs Hg%bt_get_elem; [|done]. apply list_elem_of_In in Hg. by apply (H (t, rs)).
  - intros H [t rs] Hin. apply H. apply bt_get_elem; [done|]. by apply list_elem_of_In.
Qed.

Lemma set_matches_spec fields set s :
  set_ok set ->
  set_matches fields set = true <->
  forall k t rs, slot set k t = Some rs -> crit_passes fields (Crit k s t rs) = true.
Proof.
  intros [Ho Ht]. unfold set_matches, is_none_or. rewrite !andb_true_iff, orb_true_iff.
  assert (Nat.eqb (length (fs_object_properties set)) 0 = true \/
    properties_pass (fs_object_properties set) (object_property_values (f_properties fields)) = true <->
    forall t rs, bt_get t (fs_object_properties set) = Some rs ->
      match bt_get t (object_property_values (f_properties fields)) with
      | Some v => within rs v | None => false end = true) as Hp.
  { rewrite <- properties_pass_spec by done. split; [|auto]. intros [E|?]; [|done].
    apply Nat.eqb_eq in E. by destruct (fs_object_properties set). }
  rewrite Hp. clear Hp. split.
  - intros [[[H1 H2] H3] H4] k t rs Hs. destruct k; simpl in *; unfold crit_passes; simpl; try done.
    1-3: destruct (Z.eqb_spec t 0); [|done]; by rewrite Hs in *.
    by apply H4.
  - intros H. repeat split.
    + destruct (fs_subgroup set) as [rs|] eqn:E; [|done]. by apply (H RFK_Subgroup 0 rs).
    + destruct (fs_object_id set) as [rs|] eqn:E; [|done]. by apply (H RFK_ObjectId 0 rs).
    + destruct (fs_priority set) as [rs|] eqn:E; [|done]. by apply (H RFK_Priority 0 rs).
    + intros t rs Hs. by apply (H RFK_ObjectProperty t rs).
Qed.

Lemma holds_empty cs sets : holds cs sets -> sets = [] <-> cs = [].
Proof.
  intros [_ H]. split; intros ->.
  - destruct cs as [|c cs]; [done|]. specialize (H (c_set c)). simpl in H.
    by destruct (H c (list_elem_of_here _ _)).
  - apply bt_get_nil. intros s. specialize (H s). destruct (bt_get s sets); [|done].
    by destruct H as (_&(c&?%elem_of_nil&_)&_).
Qed.

Lemma existsb_sets (P : FilterSet -> bool) (sets : btree FilterSet) :
  bt_ok sets ->
  existsb P (bt_values sets) = true <-> exists s set, bt_get s sets = Some set /\ P set = true.
Proof.
  intros Hok. unfold bt_values. rewrite existsb_exists. split.
  - intros (set&Hin&HP). apply in_map_iff in Hin as ([s set']&<-&Hin).
    exists s, set'. split; [|done]. apply bt_get_elem; [done|]. by apply list_elem_of_In.
  - intros (s&set&Hg&HP). exists set. split; [|done]. apply bt_get_elem in Hg; [|done].
    apply in_map_iff. exists (s, set). split; [done|]. by apply list_elem_of_In.
Qed.

(** A property of the sets of some SetID is one of its criteria. *)
Lemma holds_selects cs sets (P : FilterSet -> bool) (Q : criterion -> bool) :
  holds cs sets ->
  (forall s set, set_ok set -> P set = true <->
     forall k t rs, slot set k t = Some rs -> Q (Crit k s t rs) = true) ->
  (sets = [] \/ exists s set, bt_get s sets = Some set /\ P set = true) <-> selects Q cs.
Proof.
  intros Hh HP. pose proof (holds_empty _ _ Hh) as He. destruct Hh as [Hok H].
  unfold selects. rewrite He. split.
  - intros [?|(s&set&Hg&Hset)]; [by left|right]. specialize (H s). rewrite Hg in H.
    destruct H as (Hs&(c0&Hc0&E0)&Hsl). exists c0. split; [done|]. intros [k s' t rs] Hc E. simpl in *.
    subst s'. rewrite E0 in *. eapply HP; [done|done|]. by apply Hsl.
  - intros [?|(c0&Hc0&Hall)]; [by left|right]. specialize (H (c_set c0)).
    destruct (bt_get (c_set c0) sets) as [set|] eqn:Hg; [|by destruct (H c0 Hc0)].
    destruct H as (Hs&_&Hsl). exists (c_set c0), set. split; [done|].
    apply (HP (c_set c0)); [done|]. intros k t rs Hslot. apply Hall; [by apply Hsl|done].
Qed.

Lemma matches_selects cs F fields :
  holds cs (sets F) -> matches F fields = true <-> selects (crit_passes fields) cs.
Proof.
  intros Hh. rewrite <- (holds_selects cs (sets F) (set_matches fields)); [|done|].
  - unfold matches, cf_is_empty. destruct (Nat.eqb_spec (length (sets F)) 0) as [E|E].
    + split; [|done]. left. by apply length_zero_iff_nil.
    + rewrite existsb_sets by apply Hh. split; [auto|]. intros [H|?]; [by rewrite H in E|done].
  - intros s set Hset. by apply set_matches_spec.
Qed.

(** ** Narrowing to a track *)

Definition drop_track (set : FilterSet) : FilterSet :=
  mkFilterSet (fs_subgroup set) (fs_object_id set) (fs_priority set) (fs_object_properties set) [].

Lemma narrow_fold_get values l : forall acc,
  bt_ok l -> bt_ok (sets acc) ->
  let r := sets (fold_left (narrow_step values) l acc) in
  bt_ok r /\
  forall s, bt_get s r = match bt_get s l with
                         | Some set => if properties_pass (fs_track_properties set) values
                                       then Some (drop_track set) else bt_get s (sets acc)
                         | None => bt_get s (sets acc)
                         end.
Proof.
  induction l as [|[s0 set0] l IH]; intros acc Hl Hacc; simpl; [done|].
  apply bt_ok_cons in Hl as [Hl Hlt].
  assert (bt_ok (sets (narrow_step values acc (s0, set0)))) as Hacc'.
  { unfold narrow_step. case_if; simpl; auto with wire. }
  destruct (IH _ Hl Hacc') as [Hr Hg]. split; [done|]. intros s. rewrite Hg.
  assert (bt_get s0 l = None) as Hs0 by by apply bt_get_lt.
  unfold narrow_step. destruct (Z.eqb_spec s s0) as [->|Hne].
  - rewrite Hs0. destruct (properties_pass (fs_track_properties set0) values); simpl; [|done].
    by rewrite bt_get_insert, Z.eqb_refl.
  - destruct (properties_pass (fs_track_properties set0) values); simpl; [|done].
    rewrite bt_get_insert. by destruct (Z.eqb_spec s s0).
Qed.

Lemma narrow_sets F values :
  bt_ok (sets F) ->
  let N := fold_left (narrow_step values) (sets F) CombinedFilter_default in
  bt_ok (sets N) /\
  forall s set, bt_get s (sets N) = Some set <->
    exists set0, bt_get s (sets F) = Some set0 /\ set = drop_track set0 /\
      properties_pass (fs_track_properties set0) values = true.
Proof.
  intros Hok. destruct (narrow_fold_get values (sets F) CombinedFilter_default Hok bt_ok_nil) as [H1 H2].
  split; [done|]. intros s set. rewrite H2. simpl. split.
  - destruct (bt_get s (sets F)) as [set0|]; [|done]. case_if; [|done]. intros [= <-]. eauto.
  - intros (set0&->&->&->). done.
Qed.

Lemma track_pass_spec values set s :
  set_ok set ->
  properties_pass (fs_track_properties set) values = true <->
  forall k t rs, slot set k t = Some rs -> crit_track_passes values (Crit k s t rs) = true.
Proof.
  intros [Ho Ht]. rewrite properties_pass_spec by done. split.
  - intros H k t rs Hs. destruct k; try done. by apply H.
  - intros H t rs Hs. by apply (H RFK_TrackProperty t rs).
Qed.

(** Matching looks at no track criterion. *)
Lemma set_matches_drop fields set : set_matches fields (drop_track set) = set_matches fields set.
Proof. done. Qed.

Lemma narrow_selects cs F tps :
  holds cs (sets F) ->
  let values := track_property_values tps in
  match narrow_for_track F tps with
  | Some N => selects (crit_track_passes values) cs /\
      forall fields, matches N fields = true <->
        selects (fun c => crit_passes fields c && crit_track_passes values c) cs
  | None => ~ selects (crit_track_passes values) cs
  end.
Proof.
  intros Hh values. unfold narrow_for_track. unfold cf_is_empty at 1.
  destruct (Nat.eqb_spec (length (sets F)) 0) as [E|E].
  { apply length_zero_iff_nil in E. pose proof (proj1 (holds_empty _ _ Hh) E) as ->.
    split; [by left|]. intros fields. split; [by left|done]. }
  fold values.
  destruct (narrow_sets F values (proj1 Hh)) as [HNok HN].
  set (N := fold_left (narrow_step values) (sets F) CombinedFilter_default) in *.
  pose proof (holds_selects cs (sets F) (fun set => properties_pass (fs_track_properties set) values)
    (crit_track_passes values) Hh ltac:(intros; by apply track_pass_spec)) as Htrack.
  assert (sets N <> [] <-> selects (crit_track_passes values) cs) as HNe.
  { rewrite <- Htrack. split.
    - intros Hne. right. destruct (sets N) as [|[s set] l] eqn:EN; [done|].
      destruct (proj1 (HN s set)) as (set0&Hg&_&Hp); [simpl; by rewrite Z.eqb_refl|]. eauto.
    - intros [H|(s&set&Hg&Hp)]; [by rewrite H in E|]. intros EN.
      assert (bt_get s (sets N) = Some (drop_track set)) as X by (apply HN; eauto).
      by rewrite EN in X. }
  unfold cf_is_empty. destruct (Nat.eqb_spec (length (sets N)) 0) as [E2|E2]; simpl.
  { apply length_zero_iff_nil in E2. intros X. by apply HNe in X. }
  split; [apply HNe; intros X; by rewrite X in E2|]. intros fields.
  unfold matches, cf_is_empty. destruct (Nat.eqb_spec (length (sets N)) 0); [done|].
  rewrite existsb_sets by done.
  rewrite <- (holds_selects cs (sets F)
    (fun set => set_matches fields set && properties_pass (fs_track_properties set) values)); [|done|].
  - split.
    + intros (s&set&Hg&Hm). right. apply HN in Hg as (set0&Hg&->&Hp). exists s, set0.
      split; [done|]. rewrite set_matches_drop in Hm. by rewrite Hm, Hp.
    + intros [H|(s&set&Hg&[Hm Hp]%andb_true_iff)]; [by rewrite H in E|].
      exists s, (drop_track set). split; [apply HN; eauto|done].
  - intros s set Hset. rewrite andb_true_iff, (set_matches_spec fields set s Hset),
      (track_pass_spec values set s Hset).
    split; [intros [H1 H2] k t rs Hs; by rewrite H1, H2|].
    intros H. split; intros k t rs Hs; specialize (H k t rs Hs); apply andb_true_iff in H as [? ?]; done.
Qed.

(** ** When a request's filters are accepted *)

Definition param_key (p : MessageParameter) : list filter_key :=
  match p with MP_RangeFilter k (Some f) => [(k, set_id f, property_type f)] | _ => [] end.
Definition keys (params : list MessageParameter) : list filter_key := concat (map param_key params).

Definition valid_filter (p : MessageParameter) : Prop :=
  match p with MP_RangeFilter k (Some f) => exists rs, validate f k = Ok rs | _ => True end.

Lemma add_filters_Ok params : forall filter seen,
  (exists F, add_filters filter seen params = Ok F) <->
  Forall valid_filter params /\ NoDup (keys params) /\ forall k, k ∈ keys params -> k ∉ seen.
Proof.
  induction params as [|p params IH]; intros filter seen; simpl.
  { split; [|by eauto]. intros _. split; [constructor|]. split; [constructor|]. by intros k ?%elem_of_nil. }
  rewrite Forall_cons. unfold keys. simpl. fold (keys params).
  destruct p as [| | | | | | | | | | | | |kind [f|]| | | |]; simpl; try (rewrite IH; tauto).
  rewrite NoDup_cons. setoid_rewrite elem_of_cons. case_bool_decide as Hk.
  { split; [by intros [? ?]|]. intros (_&_&H). destruct (H _ (or_introl eq_refl) Hk). }
  destruct (validate f kind) as [rs|e| |] eqn:Ev; simpl.
  2-4: split; [by intros [? ?]|intros [[(rs&?) _] _]; congruence].
  rewrite IH. setoid_rewrite elem_of_cons. split.
  - intros (H1&H2&H3). split; [eauto|]. split; [split; [|done]|].
    + intros Hin. destruct (H3 _ Hin). by left.
    + intros k [->|Hin]; [done|]. intros Hs. destruct (H3 _ Hin). by right.
  - intros ([_ H1]&[H2 H2']&H3). split; [done|]. split; [done|].
    intros k Hin [->|Hs]; [done|]. by apply (H3 k); auto.
Qed.

Lemma CombinedFilter_new_Ok params :
  (exists F, CombinedFilter_new params = Ok F) <-> Forall valid_filter params /\ NoDup (keys params).
Proof.
  unfold CombinedFilter_new. rewrite add_filters_Ok. split; [tauto|]. intros [? ?].
  split; [done|]. split; [done|]. intros k _. apply not_elem_of_nil.
Qed.

Lemma keys_filter (P : MessageParameter -> bool) params :
  keys (List.filter P params) `sublist_of` keys params.
Proof.
  unfold keys. induction params as [|p params IH]; simpl; [done|].
  destruct (P p); simpl; [by apply sublist_app|]. by apply sublist_inserts_l.
Qed.

Lemma Forall_filter_bool {A} (P : A -> Prop) (f : A -> bool) l : Forall P l -> Forall P (List.filter f l).
Proof. induction 1; simpl; [constructor|]. by case_if; auto. Qed.

(** Fewer filters are no harder to accept. *)
Lemma new_filter_Ok (P : MessageParameter -> bool) params F :
  CombinedFilter_new params = Ok F -> exists F', CombinedFilter_new (List.filter P params) = Ok F'.
Proof.
  intros E. destruct (proj1 (CombinedFilter_new_Ok params) (ex_intro _ _ E)) as [H1 H2].
  apply CombinedFilter_new_Ok. split; [by apply Forall_filter_bool|].
  eapply sublist_NoDup; [exact H2|apply keys_filter].
Qed.

(** ** Tracks pushed for a SUBSCRIBE_TRACKS *)

Definition in_set (s : Z) (p : MessageParameter) : bool :=
  match p with MP_RangeFilter _ (Some f) => set_id f =? s | _ => false end.

Definition push_param (sets : btree (list MessageParameter)) (param : MessageParameter)
    : btree (list MessageParameter) :=
  match param with
  | MP_RangeFilter _ (Some filter) => bt_entry (set_id filter) [] (fun l => l ++ [param]) sets
  | _ => sets
  end.

Lemma push_params_get params : forall m,
  bt_ok m ->
  bt_ok (fold_left push_param params m) /\
  forall s, bt_get s (fold_left push_param params m) =
    match List.filter (in_set s) params with
    | [] => bt_get s m
    | l => Some (match bt_get s m with Some l0 => l0 | None => [] end ++ l)
    end.
Proof.
  induction params as [|p params IH]; intros m Hm; simpl; [done|].
  assert (bt_ok (push_param m p)) as Hm' by (destruct p as [| | | | | | | | | | | | |? [?|]| | | |]; simpl; auto with wire).
  destruct (IH _ Hm') as [H1 H2]. split; [done|]. intros s. rewrite H2. clear IH H1 H2.
  destruct p as [| | | | | | | | | | | | |kind [f|]| | | |]; simpl; try done.
  rewrite bt_get_entry. rewrite (Z.eqb_sym (set_id f) s). destruct (Z.eqb_spec s (set_id f)) as [->|]; [|done].
  destruct (List.filter (in_set (set_id f)) params); [done|]. by rewrite <- app_assoc.
Qed.

Lemma group_by_set_get params :
  bt_ok (group_by_set params) /\
  forall s, bt_get s (group_by_set params) =
    match List.filter (in_set s) params with [] => None | l => Some l end.
Proof. apply (push_params_get params [] bt_ok_nil). Qed.

(** The criteria of some of the filters are some of the criteria. *)
Lemma criteria_filter (P : MessageParameter -> bool) (Q : criterion -> bool) params :
  (forall k f rs, P (MP_RangeFilter k (Some f)) =
     Q (Crit k (set_id f) (default 0 (property_type f)) rs)) ->
  criteria (List.filter P params) = List.filter Q (criteria params).
Proof.
  intros H. induction params as [|p params IH]; simpl; [done|].
  destruct p as [| | | | | | | | | | | | |kind [f|]| | | |]; simpl;
    try (by case_if; simpl; rewrite ?IH).
  destruct (validate f kind) as [rs|e| |] eqn:Ev; simpl.
  - rewrite (H kind f rs). case_if; simpl; rewrite ?Ev, ?IH; done.
  - case_if; simpl; by rewrite ?Ev, ?IH.
  - case_if; simpl; by rewrite ?Ev, ?IH.
  - case_if; simpl; by rewrite ?Ev, ?IH.
Qed.

Definition is_track_crit (c : criterion) : bool :=
  match c_kind c with RFK_TrackProperty => true | _ => false end.

Lemma criteria_in_set s params :
  criteria (List.filter (in_set s) params) = List.filter (fun c => c_set c =? s) (criteria params).
Proof. by apply criteria_filter. Qed.
Lemma criteria_track l : criteria (List.filter is_track_filter l) = List.filter is_track_crit (criteria l).
Proof. by apply criteria_filter; intros []. Qed.
Lemma criteria_objects l :
  criteria (List.filter (fun p => negb (is_track_filter p)) l) =
  List.filter (fun c => negb (is_track_crit c)) (criteria l).
Proof. by apply criteria_filter; intros []. Qed.

(** The test on a group: all its track criteria are met. *)
Definition group_passes (tps : list TrackProperty) (filters : list MessageParameter) : bool :=
  match CombinedFilter_new (List.filter is_track_filter filters) with
  | Ok net => bool_decide (is_Some (narrow_for_track net tps))
  | _ => false
  end.

Definition group_objects (filters : list MessageParameter) : list MessageParameter :=
  List.filter (fun p => negb (is_track_filter p)) filters.

Lemma keep_sets_spec tps groups : forall kept any,
  keep_sets tps groups kept any =
  if existsb (fun l => group_passes tps l && Nat.eqb (length (group_objects l)) 0) groups then Some []
  else if any || existsb (group_passes tps) groups
       then Some (kept ++ concat (map group_objects (List.filter (group_passes tps) groups)))
       else None.
Proof.
  induction groups as [|l groups IH]; intros kept any; simpl.
  { rewrite orb_false_r, app_nil_r. done. }
  fold (group_passes tps l). fold (group_objects l). destruct (group_passes tps l); simpl.
  - destruct (Nat.eqb (length (group_objects l)) 0); simpl; [done|]. rewrite IH.
    case_if; [done|]. rewrite orb_true_r. simpl. by rewrite <- app_assoc.
  - apply IH.
Qed.

Lemma group_passes_spec tps params F s l :
  CombinedFilter_new params = Ok F -> l = List.filter (in_set s) params ->
  group_passes tps l = true <->
  forall c, c ∈ criteria l -> crit_track_passes (track_property_values tps) c = true.
Proof.
  intros E ->. destruct (new_filter_Ok (in_set s) params F E) as [F1 E1].
  destruct (new_filter_Ok is_track_filter _ F1 E1) as [F2 E2].
  unfold group_passes. rewrite E2. pose proof (CombinedFilter_new_holds _ _ E2) as Hh.
  pose proof (narrow_selects _ F2 tps Hh) as Hn. rewrite criteria_track, criteria_in_set in *.
  set (cs := List.filter (fun c => c_set c =? s) (criteria params)) in *.
  assert (selects (crit_track_passes (track_property_values tps)) (List.filter is_track_crit cs) <->
    forall c, c ∈ cs -> crit_track_passes (track_property_values tps) c = true) as Hsel.
  { assert (forall c, c ∈ List.filter is_track_crit cs <-> c ∈ cs /\ is_track_crit c = true) as Hin.
    { intros c. rewrite !list_elem_of_In. apply filter_In. }
    assert (forall c, c ∈ cs -> c_set c = s) as Hs.
    { intros c. subst cs. rewrite list_elem_of_In, filter_In. lia. }
    split.
    - intros Hsel c Hc. destruct (is_track_crit c) eqn:Et.
      + destruct Hsel as [Hnil|(c0&Hc0&Hall)].
        * assert (c ∈ List.filter is_track_crit cs) as X by (apply Hin; auto).
          rewrite Hnil in X. by apply elem_of_nil in X.
        * apply Hall; [apply Hin; auto|]. apply Hin in Hc0 as [Hc0 _]. by rewrite !Hs.
      + unfold is_track_crit in Et. unfold crit_track_passes. by destruct (c_kind c).
    - intros Hall. destruct (List.filter is_track_crit cs) as [|c0 cs'] eqn:Ef; [by left|]. right.
      exists c0. split; [left|]. intros c Hc _. apply Hall. by apply Hin in Hc as [? _]. }
  rewrite <- Hsel. destruct (narrow_for_track F2 tps) as [N|].
  - rewrite bool_decide_eq_true_2 by eauto. split; [intros _; apply Hn|done].
  - rewrite bool_decide_eq_false_2 by by intros [? ?]. split; [done|]. by intros ?%Hn.
Qed.

Lemma has_track_filters_spec cs F :
  holds cs (sets F) -> has_track_filters F = true <-> exists c, c ∈ cs /\ is_track_crit c = true.
Proof.
  intros Hh. unfold has_track_filters. rewrite existsb_sets by apply Hh. split.
  - intros (s&set&Hg&Hne). destruct Hh as [_ H]. specialize (H s). rewrite Hg in H.
    destruct H as (_&_&Hsl). destruct (fs_track_properties set) as [|[t rs] l] eqn:E; [done|].
    exists (Crit RFK_TrackProperty s t rs). split; [|done]. apply Hsl. simpl. rewrite E. simpl.
    by rewrite Z.eqb_refl.
  - intros ([k s t rs]&Hc&Ht). destruct k; try done. destruct Hh as [_ H]. specialize (H s).
    destruct (bt_get s (sets F)) as [set|] eqn:Eg; [|by destruct (H _ Hc)].
    destruct H as (_&_&Hsl). exists s, set. split; [done|]. apply Hsl in Hc. simpl in Hc.
    by destruct (fs_track_properties set).
Qed.

Lemma valid_in_set params s :
  Forall valid_filter params ->
  List.filter (in_set s) params = [] <-> forall c, c ∈ criteria params -> c_set c <> s.
Proof.
  intros Hv. split.
  - intros E c Hc Hs. assert (c ∈ criteria (List.filter (in_set s) params)) as X.
    { rewrite criteria_in_set, list_elem_of_In, filter_In, <- list_elem_of_In. split; [done|]. lia. }
    rewrite E in X. by apply elem_of_nil in X.
  - intros H. apply filter_false. intros p Hp. destruct (in_set s p) eqn:E; [|done]. exfalso.
    rewrite Forall_forall in Hv. specialize (Hv p ltac:(by apply list_elem_of_In)).
    destruct p as [| | | | | | | | | | | | |k [f|]| | | |]; simpl in E, Hv; try done.
    destruct Hv as [rs Ev]. assert (Crit k (set_id f) (default 0 (property_type f)) rs ∈ criteria params) as Hc.
    { clear H. induction params as [|q params IH]; [by destruct Hp|]. destruct Hp as [->|Hp].
      - simpl. rewrite Ev. left.
      - simpl. destruct q as [| | | | | | | | | | | | |k' [f'|]| | | |]; auto.
        destruct (validate f' k'); auto. right. auto. }
    apply H in Hc. simpl in Hc. lia.
Qed.

Lemma keys_app a b : keys (a ++ b) = keys a ++ keys b.
Proof. unfold keys. by rewrite map_app, concat_app. Qed.

Lemma keys_in_set s params k : k ∈ keys (List.filter (in_set s) params) -> snd (fst k) = s.
Proof.
  unfold keys. rewrite list_elem_of_In, in_concat. intros (l&Hl&Hk).
  apply in_map_iff in Hl as (p&<-&Hp). apply filter_In in Hp as [_ Hs].
  destruct p as [| | | | | | | | | | | | |kk [f|]| | | |]; simpl in *; try done.
  destruct Hk as [<-|[]]. simpl. lia.
Qed.

(** Groups of different SetIDs share no key. *)
Lemma keys_groups_NoDup (m : btree (list MessageParameter)) P :
  bt_ok m ->
  Forall (fun e => NoDup (keys (snd e)) /\ forall k, k ∈ keys (snd e) -> snd (fst k) = fst e) m ->
  NoDup (keys (concat (map group_objects (List.filter P (bt_values m))))).
Proof.
  intros Hok. induction m as [|[s l] m IH]; intros H; [constructor|].
  apply bt_ok_cons in Hok as [Hok Hlt]. inversion H as [|? ? [Hnd Hset] H']; subst. simpl in *.
  specialize (IH Hok H'). destruct (P l); [|done]. simpl. rewrite keys_app. apply NoDup_app.
  split; [eapply sublist_NoDup; [exact Hnd|apply keys_filter]|]. split; [|done].
  intros k Hk1 Hk2.
  assert (k ∈ keys l) as Hkl by (eapply sublist_subseteq; [apply keys_filter|exact Hk1]).
  apply Hset in Hkl. clear IH Hk1. unfold keys in Hk2. rewrite list_elem_of_In, in_concat in Hk2.
  destruct Hk2 as (x&Hx&Hkx). apply in_map_iff in Hx as (p&<-&Hp). apply in_concat in Hp as (y&Hy&Hpy).
  apply in_map_iff in Hy as (l2&<-&Hl2). apply filter_In in Hl2 as [Hl2 _].
  apply in_map_iff in Hl2 as ([s2 l2']&<-&Hm).
  rewrite List.Forall_forall in H'. destruct (H' _ Hm) as [_ Hset2]. simpl in Hset2.
  rewrite Forall_forall in Hlt. specialize (Hlt (s2, l2') ltac:(by apply list_elem_of_In)). simpl in Hlt.
  assert (k ∈ keys l2') as Hk2.
  { unfold keys. rewrite list_elem_of_In, in_concat. exists (param_key p). split; [|done].
    apply in_map. by apply filter_In in Hpy as [? _]. }
  apply Hset2 in Hk2. lia.
Qed.

Lemma criteria_app a b : criteria (a ++ b) = criteria a ++ criteria b.
Proof.
  induction a as [|p a IH]; simpl; [done|].
  destruct p as [| | | | | | | | | | | | |? [?|]| | | |]; try done.
  destruct (validate _ _); simpl; by rewrite IH.
Qed.

Lemma criteria_concat ls : criteria (concat ls) = concat (map criteria ls).
Proof.
  induction ls as [|l ls IH]; simpl; [done|]. by rewrite criteria_app, IH.
Qed.

Lemma filter_true {A} (l : list A) : List.filter (fun _ => true) l = l.
Proof. induction l as [|a l IH]; simpl; by rewrite ?IH. Qed.

Section ForTrack.
Context (params : list MessageParameter) (F : CombinedFilter) (tps : list TrackProperty)
  (Enew : CombinedFilter_new params = Ok F).

Definition groups_of : list (list MessageParameter) := bt_values (group_by_set params).

Lemma params_valid : Forall valid_filter params /\ NoDup (keys params).
Proof. apply CombinedFilter_new_Ok. eauto. Qed.

Lemma in_groups l : In l groups_of <-> exists s, l = List.filter (in_set s) params /\ l <> [].
Proof.
  destruct (group_by_set_get params) as [Hok Hg]. unfold groups_of, bt_values. rewrite in_map_iff. split.
  - intros ([s l']&<-&Hin). apply list_elem_of_In, bt_get_elem in Hin; [|done]. rewrite Hg in Hin.
    exists s. simpl. destruct (List.filter (in_set s) params); [done|]. by simplify_eq.
  - intros (s&->&Hne). exists (s, List.filter (in_set s) params). split; [done|].
    apply list_elem_of_In, bt_get_elem; [done|]. rewrite Hg.
    by destruct (List.filter (in_set s) params).
Qed.

(** The group of a criterion, and the criteria of a group. *)
Lemma crit_group c : c ∈ criteria params ->
  In (List.filter (in_set (c_set c)) params) groups_of.
Proof.
  intros Hc. apply in_groups. exists (c_set c). split; [done|]. intros E.
  rewrite valid_in_set in E by apply params_valid. by apply (E c).
Qed.

Lemma group_crit c s : c ∈ criteria (List.filter (in_set s) params) <-> c ∈ criteria params /\ c_set c = s.
Proof. rewrite criteria_in_set, list_elem_of_In, filter_In, <- list_elem_of_In. by rewrite Z.eqb_eq. Qed.

(** The track criteria of a SetID are met. *)
Definition set_passes (s : Z) : Prop :=
  forall c, c ∈ criteria params -> c_set c = s ->
    crit_track_passes (track_property_values tps) c = true.

Lemma group_set_passes s : group_passes tps (List.filter (in_set s) params) = true <-> set_passes s.
Proof.
  rewrite (group_passes_spec tps params F s) by done. unfold set_passes. setoid_rewrite group_crit.
  split; [intros H c Hc Hs; by apply H|intros H c [Hc Hs]; by apply H].
Qed.

Definition kept : list MessageParameter :=
  concat (map group_objects (List.filter (group_passes tps) groups_of)).

Lemma kept_crit c : c ∈ criteria kept <->
  c ∈ criteria params /\ is_track_crit c = false /\ set_passes (c_set c).
Proof.
  unfold kept. rewrite criteria_concat, map_map, list_elem_of_In, in_concat. split.
  - intros (x&Hx&Hc). apply in_map_iff in Hx as (l&<-&Hl). apply filter_In in Hl as [Hl Hp].
    apply in_groups in Hl as (s&->&_). unfold group_objects in Hc. rewrite criteria_objects in Hc.
    apply filter_In in Hc as [Hc Ht]. apply list_elem_of_In, group_crit in Hc as [Hc <-].
    apply group_set_passes in Hp. split; [done|]. split; [by destruct (is_track_crit c)|done].
  - intros (Hc&Ht&Hp). exists (criteria (group_objects (List.filter (in_set (c_set c)) params))). split.
    + apply in_map_iff. exists (List.filter (in_set (c_set c)) params). split; [done|].
      apply filter_In. split; [by apply crit_group|]. by apply group_set_passes.
    + unfold group_objects. rewrite criteria_objects. apply filter_In.
      split; [apply list_elem_of_In; by apply group_crit|]. by rewrite Ht.
Qed.

Lemma kept_Ok : exists G, for_objects kept = Ok G /\ holds (criteria kept) (sets G).
Proof.
  destruct params_valid as [Hv Hnd].
  assert (exists G, CombinedFilter_new kept = Ok G) as [G EG].
  { apply CombinedFilter_new_Ok. split.
    - apply List.Forall_forall. unfold kept. intros p Hp. apply in_concat in Hp as (x&Hx&Hp).
      apply in_map_iff in Hx as (l&<-&Hl). apply filter_In in Hl as [Hl _].
      apply in_groups in Hl as (s&->&_). apply filter_In in Hp as [Hp _]. apply filter_In in Hp as [Hp _].
      rewrite List.Forall_forall in Hv. by apply Hv.
    - destruct (group_by_set_get params) as [Hok Hg]. apply keys_groups_NoDup; [done|].
      apply List.Forall_forall. intros [s l] Hin. apply list_elem_of_In, bt_get_elem in Hin; [|done].
      rewrite Hg in Hin. simpl. assert (l = List.filter (in_set s) params) as ->.
      { by destruct (List.filter (in_set s) params); simplify_eq. }
      split; [eapply sublist_NoDup; [exact Hnd|apply keys_filter]|]. apply keys_in_set. }
  pose proof (CombinedFilter_new_holds _ _ EG) as Hh. exists G. split; [|done].
  unfold for_objects. rewrite EG. cbn [obind].
  destruct (has_track_filters G) eqn:Et; [|done]. exfalso.
  apply (has_track_filters_spec _ _ Hh) in Et as (c&Hc&Ht). apply kept_crit in Hc as (_&Ht'&_). congruence.
Qed.

Definition track_values : btree Z := track_property_values tps.
Definition both (fields : ObjectFields) (c : criterion) : bool :=
  crit_passes fields c && crit_track_passes track_values c.

Lemma object_crit_passes_track c fields : is_track_crit c = true -> crit_passes fields c = true.
Proof. unfold is_track_crit, crit_passes. by destruct (c_kind c). Qed.

(** A non-empty group has a criterion, on Objects if it has a filter on them. *)
Lemma group_some (P : MessageParameter -> bool) s :
  List.filter P (List.filter (in_set s) params) <> [] ->
  criteria (List.filter P (List.filter (in_set s) params)) <> [].
Proof.
  intros Hne Ec. destruct (List.filter P (List.filter (in_set s) params)) as [|p l] eqn:E; [done|].
  assert (In p (List.filter P (List.filter (in_set s) params))) as Hp by (rewrite E; by left).
  apply filter_In in Hp as [Hp _]. apply filter_In in Hp as [Hp Hs].
  destruct params_valid as [Hv _]. rewrite List.Forall_forall in Hv. specialize (Hv p Hp).
  destruct p as [| | | | | | | | | | | | |k [f|]| | | |]; try done.
  destruct Hv as [rs Ev]. simpl in Ec. by rewrite Ev in Ec.
Qed.

Lemma selects_track_iff :
  selects (crit_track_passes track_values) (criteria params) <->
  criteria params = [] \/ exists c0, c0 ∈ criteria params /\ set_passes (c_set c0).
Proof. done. Qed.

(** A passing SetID with no filter on Objects passes them all. *)
Lemma pass_all c0 fields :
  c0 ∈ criteria params -> set_passes (c_set c0) ->
  group_objects (List.filter (in_set (c_set c0)) params) = [] -> selects (both fields) (criteria params).
Proof.
  intros Hc0 Hp Ho. right. exists c0. split; [done|]. intros c Hc Hs. unfold both, track_values.
  rewrite (Hp c Hc Hs), andb_true_r. destruct (is_track_crit c) eqn:Et; [by apply object_crit_passes_track|].
  assert (c ∈ criteria (group_objects (List.filter (in_set (c_set c0)) params))) as X.
  { unfold group_objects. rewrite criteria_objects, list_elem_of_In, filter_In, <- list_elem_of_In, group_crit.
    by rewrite Et. }
  rewrite Ho in X. by apply elem_of_nil in X.
Qed.

(** When every passing SetID has one, the filters kept say the same. *)
Lemma kept_selects fields :
  (forall c, c ∈ criteria params -> set_passes (c_set c) ->
     group_objects (List.filter (in_set (c_set c)) params) <> []) ->
  (exists c, c ∈ criteria params /\ set_passes (c_set c)) ->
  selects (crit_passes fields) (criteria kept) <-> selects (both fields) (criteria params).
Proof.
  intros Hobj Hsome.
  assert (forall c0, c0 ∈ criteria params -> set_passes (c_set c0) ->
    exists c, c ∈ criteria kept /\ c_set c = c_set c0) as Hk.
  { intros c0 Hc0 Hp. specialize (Hobj c0 Hc0 Hp). apply group_some in Hobj.
    rewrite criteria_objects in Hobj.
    destruct (List.filter _ (criteria (List.filter (in_set (c_set c0)) params))) as [|c cs] eqn:E; [done|].
    assert (In c (c :: cs)) as Hin by (by left). rewrite <- E in Hin. apply filter_In in Hin as [Hin Ht].
    apply list_elem_of_In, group_crit in Hin as [Hc Es]. exists c. split; [|done]. apply kept_crit.
    rewrite Es. split; [done|]. split; [by destruct (is_track_crit c)|done]. }
  split.
  - intros Hsel. right. assert (exists c0, c0 ∈ criteria kept /\
      forall c, c ∈ criteria kept -> c_set c = c_set c0 -> crit_passes fields c = true) as (c0&Hc0&Hall).
    { destruct Hsel as [Hnil|?]; [|done]. destruct Hsome as (c&Hc&Hp).
      destruct (Hk c Hc Hp) as (c'&Hc'&_). rewrite Hnil in Hc'. by apply elem_of_nil in Hc'. }
    apply kept_crit in Hc0 as (Hc0&_&Hp). exists c0. split; [done|]. intros c Hc Hs.
    unfold both, track_values. rewrite (Hp c Hc Hs), andb_true_r.
    destruct (is_track_crit c) eqn:Et; [by apply object_crit_passes_track|].
    apply Hall; [|done]. apply kept_crit. by rewrite Hs.
  - intros [Hnil|(c0&Hc0&Hall)]; right.
    { destruct Hsome as (c&Hc&_). rewrite Hnil in Hc. by apply elem_of_nil in Hc. }
    assert (set_passes (c_set c0)) as Hp.
    { intros c Hc Hs. specialize (Hall c Hc Hs). by apply andb_true_iff in Hall as [_ ?]. }
    destruct (Hk c0 Hc0 Hp) as (c1&Hc1&Es). exists c1. split; [done|]. intros c Hc Hs.
    apply kept_crit in Hc as (Hc&_&_). specialize (Hall c Hc ltac:(congruence)).
    by apply andb_true_iff in Hall as [? _].
Qed.

Lemma passing_group l :
  In l groups_of -> group_passes tps l = true ->
  exists c0, c0 ∈ criteria params /\ set_passes (c_set c0) /\ l = List.filter (in_set (c_set c0)) params.
Proof.
  intros Hl Hp. apply in_groups in Hl as (s&->&Hne). apply group_set_passes in Hp.
  rewrite <- (filter_true (List.filter (in_set s) params)) in Hne. apply group_some in Hne.
  rewrite filter_true in Hne. destruct (criteria (List.filter (in_set s) params)) as [|c cs] eqn:E; [done|].
  assert (c ∈ criteria (List.filter (in_set s) params)) as Hc by (rewrite E; left).
  apply group_crit in Hc as [Hc <-]. eauto.
Qed.

Lemma filters_for_track_selects :
  match filters_for_track params tps with
  | Some l => selects (crit_track_passes track_values) (criteria params) /\
      exists G, for_objects l = Ok G /\
        forall fields, matches G fields = true <-> selects (both fields) (criteria params)
  | None => ~ selects (crit_track_passes track_values) (criteria params)
  end.
Proof.
  assert (for_objects [] = Ok CombinedFilter_default) as Hnil by done.
  unfold filters_for_track.
  destruct (Nat.eqb_spec (length (group_by_set params)) 0) as [Hz|Hz].
  { destruct (criteria params) as [|c cs] eqn:Ec.
    - split; [by left|]. eexists. split; [exact Hnil|]. intros fields. split; [by left|done].
    - exfalso. assert (c ∈ criteria params) as Hc by (rewrite Ec; left). apply crit_group in Hc.
      unfold groups_of in Hc. apply length_zero_iff_nil in Hz. by rewrite Hz in Hc. }
  fold groups_of. rewrite keep_sets_spec. cbn [orb].
  destruct (existsb (fun l => group_passes tps l && Nat.eqb (length (group_objects l)) 0) groups_of) eqn:Ee.
  { apply existsb_exists in Ee as (l&Hl&[Hp Ho]%andb_true_iff).
    destruct (passing_group l Hl Hp) as (c0&Hc0&Hps&->). apply Nat.eqb_eq, length_zero_iff_nil in Ho.
    split; [apply selects_track_iff; eauto|]. eexists. split; [exact Hnil|]. intros fields.
    split; [|done]. intros _. by apply (pass_all c0). }
  destruct (existsb (group_passes tps) groups_of) eqn:Ep.
  - apply existsb_exists in Ep as (l&Hl&Hp). destruct (passing_group l Hl Hp) as (c0&Hc0&Hps&->).
    split; [apply selects_track_iff; eauto|]. destruct kept_Ok as (G&EG&HG). exists G. split; [exact EG|].
    intros fields. rewrite (matches_selects _ _ _ HG). apply kept_selects; [|eauto].
    intros c Hc Hpc Hno. apply not_true_iff_false in Ee. apply Ee, existsb_exists.
    exists (List.filter (in_set (c_set c)) params). split; [by apply crit_group|].
    by rewrite (proj2 (group_set_passes _) Hpc), Hno.
  - rewrite selects_track_iff. intros [Hcs|(c0&Hc0&Hps)].
    + apply Hz. apply not_true_iff_false in Ep. unfold groups_of, bt_values in Ep.
      destruct (group_by_set params) as [|[s l] m] eqn:Eg; [done|]. exfalso.
      assert (In l groups_of) as Hl by (unfold groups_of, bt_values; rewrite Eg; by left).
      apply in_groups in Hl as (s'&->&Hne). apply Hne, valid_in_set; [apply params_valid|].
      rewrite Hcs. by intros c ?%elem_of_nil.
    + apply not_true_iff_false in Ep. apply Ep, existsb_exists.
      exists (List.filter (in_set (c_set c0)) params). split; [by apply crit_group|].
      by apply group_set_passes.
Qed.
End ForTrack.

(** ** Fills *)

Lemma for_objects_Ok params G :
  for_objects params = Ok G <->
  CombinedFilter_new params = Ok G /\ Forall (fun c => is_track_crit c = false) (criteria params).
Proof.
  unfold for_objects. split.
  - intros (F&E&E')%obind_Ok_inv. pose proof (has_track_filters_spec _ _ (CombinedFilter_new_holds _ _ E)) as H.
    case_if; [done|]. simplify_eq. split; [done|]. apply Forall_forall. intros c Hc.
    destruct (is_track_crit c) eqn:Et; [|done]. assert (false = true); [apply H; eauto|done].
  - intros [E Hc]. rewrite E. cbn [obind]. destruct (has_track_filters G) eqn:Et; [|done].
    apply (has_track_filters_spec _ _ (CombinedFilter_new_holds _ _ E)) in Et as (c&Hin&Ht).
    rewrite Forall_forall in Hc. rewrite Hc in Ht; done.
Qed.

Lemma check_fills_in params fill :
  check_fills params = Ok tt -> In (MP_FillParameters fill) params -> exists G, for_objects fill = Ok G.
Proof.
  induction params as [|p params IH]; intros E Hin; [by destruct Hin|].
  destruct Hin as [->|Hin].
  - simpl in E. apply obind_Ok_inv in E as (G&?&_). eauto.
  - destruct p; simpl in E; auto. apply obind_Ok_inv in E as (G&_&E). auto.
Qed.

Lemma fill_parameters_in params fill : fill_parameters params = Some fill -> In (MP_FillParameters fill) params.
Proof.
  unfold fill_parameters, get_param. destruct (find _ params) as [p|] eqn:E; [|done].
  apply find_some in E as [Hin _]. destruct p; try done. by intros [= ->].
Qed.

Lemma keys_kind k params : k ∈ keys params -> exists p, In p params /\ is_range_filter p = true /\
  type_value p = MPT (parameter_type (fst (fst k))).
Proof.
  unfold keys. rewrite list_elem_of_In, in_concat. intros (l&Hl&Hk). apply in_map_iff in Hl as (p&<-&Hp).
  exists p. split; [done|].
  destruct p as [| | | | | | | | | | | | |kk [f|]| | | |]; simpl in *; try done. by destruct Hk as [<-|[]].
Qed.

(** The filters of a fill: those of the subscription of the kinds the fill does
    not name, and those of the fill. *)
Definition fill_params (subscription fill : list MessageParameter) : list MessageParameter :=
  apply_message_parameter_update (List.filter is_range_filter subscription)
    (List.filter is_range_filter fill).

Lemma fill_params_new sub fill F1 F2 :
  CombinedFilter_new sub = Ok F1 -> CombinedFilter_new fill = Ok F2 ->
  exists G, CombinedFilter_new (fill_params sub fill) = Ok G.
Proof.
  intros E1 E2. destruct (proj1 (CombinedFilter_new_Ok _) (ex_intro _ _ E1)) as [Hv1 Hn1].
  destruct (proj1 (CombinedFilter_new_Ok _) (ex_intro _ _ E2)) as [Hv2 Hn2].
  apply CombinedFilter_new_Ok. unfold fill_params, apply_message_parameter_update.
  rewrite !filter_filter. split.
  - apply Forall_app. split; by apply Forall_filter_bool.
  - rewrite keys_app. apply NoDup_app. split; [eapply sublist_NoDup; [exact Hn1|apply keys_filter]|].
    split; [|eapply sublist_NoDup; [exact Hn2|apply keys_filter]].
    intros k Hk1 Hk2. apply keys_kind in Hk1 as (p&Hp&_&Tp). apply keys_kind in Hk2 as (u&Hu&_&Tu).
    apply filter_In in Hp as [_ Hp]. apply andb_true_iff in Hp as [_ Hp]. apply negb_true_iff in Hp.
    apply not_true_iff_false in Hp. apply Hp, existsb_exists. exists u.
    apply filter_In in Hu as [Hu Hu']. apply andb_true_iff in Hu' as [Hr _].
    split; [apply filter_In; auto|]. apply Z.eqb_eq. congruence.
Qed.

Lemma criteria_filter_subset (P : MessageParameter -> bool) params c :
  c ∈ criteria (List.filter P params) -> c ∈ criteria params.
Proof.
  induction params as [|p params IH]; simpl; [done|]. destruct (P p); simpl.
  - destruct p as [| | | | | | | | | | | | |k [f|]| | | |]; auto.
    destruct (validate f k); auto. rewrite !elem_of_cons. intros [->|?]; auto.
  - intros H. destruct p as [| | | | | | | | | | | | |k [f|]| | | |]; auto.
    destruct (validate f k); auto. right. auto.
Qed.

Lemma fill_params_Ok sub fill F1 F2 :
  for_objects sub = Ok F1 -> for_objects fill = Ok F2 ->
  for_objects (fill_params sub fill) = Ok (fill_range_filter sub fill).
Proof.
  intros [E1 Ht1]%for_objects_Ok [E2 Ht2]%for_objects_Ok.
  destruct (fill_params_new _ _ _ _ E1 E2) as [G EG].
  assert (for_objects (fill_params sub fill) = Ok G) as X.
  { apply for_objects_Ok. split; [done|]. apply Forall_forall. intros c Hc.
    unfold fill_params, apply_message_parameter_update in Hc.
    rewrite criteria_app, elem_of_app, !filter_filter in Hc.
    rewrite Forall_forall in Ht1, Ht2.
    destruct Hc as [Hc|Hc]; [apply Ht1|apply Ht2]; by eapply criteria_filter_subset. }
  rewrite X. unfold fill_range_filter. fold (fill_params sub fill). by rewrite X.
Qed.

(** * Properties *)

(** C24: a request's Range Filters mean what the protocol says.  They are
    accepted exactly when each one is valid and no Type, SetID and Property
    Type repeats; the filter built from them passes an Object exactly when some
    SetID has all its criteria met, or there are none; and narrowing it to a
    track gives no filter exactly when the track meets no SetID's track
    criteria, and otherwise one that passes the Objects meeting some SetID
    entirely. *)
Theorem combined_filter_meaning params :
  ((exists F, CombinedFilter_new params = Ok F) <-> Forall valid_filter params /\ NoDup (keys params)) /\
  forall F tps, CombinedFilter_new params = Ok F ->
    (forall fields, matches F fields = true <-> selects (crit_passes fields) (criteria params)) /\
    match narrow_for_track F tps with
    | Some N => selects (crit_track_passes (track_property_values tps)) (criteria params) /\
        forall fields, matches N fields = true <-> selects (both tps fields) (criteria params)
    | None => ~ selects (crit_track_passes (track_property_values tps)) (criteria params)
    end.
Proof.
  split; [apply CombinedFilter_new_Ok|]. intros F tps E.
  pose proof (CombinedFilter_new_holds _ _ E) as Hh.
  split; [intros; by apply matches_selects|]. exact (narrow_selects _ F tps Hh).
Qed.

(** Two sets: subgroups 0 to 3, or priority 7; an Object of subgroup 5 with
    priority 7 passes by the second. *)
Definition example_filters : list MessageParameter :=
  [MP_RangeFilter RFK_Subgroup (Some (mkRangeFilter 0 None [(0, Some 3)]));
   MP_RangeFilter RFK_Priority (Some (mkRangeFilter 1 None [(7, Some 0)]))].
Definition example_fields : ObjectFields := mkObjectFields (Some 5) 0 7 None.

Lemma combined_filter_meaning_witness :
  match CombinedFilter_new example_filters with
  | Ok F => matches F example_fields = true /\
      selects (crit_passes example_fields) (criteria example_filters)
  | _ => False
  end.
Proof.
  destruct (CombinedFilter_new example_filters) as [F|e| |] eqn:E; try (vm_compute in E; discriminate).
  assert (matches F example_fields = true) as H.
  { vm_compute in E. injection E as <-. reflexivity. }
  split; [exact H|].
  exact (proj1 (proj1 (proj2 (combined_filter_meaning example_filters) F [] E) example_fields) H).
Defined.

(** C25: pushing a track is the same either way.  For filters that are accepted,
    the parameters [filters_for_track] keeps for a track are accepted for
    Objects and pass the same Objects as the whole filter narrowed to the
    track; and there are none exactly when narrowing gives none. *)
Theorem filters_for_track_narrows params F tps :
  CombinedFilter_new params = Ok F ->
  match filters_for_track params tps, narrow_for_track F tps with
  | Some kept, Some N => exists G, for_objects kept = Ok G /\
      forall fields, matches G fields = matches N fields
  | None, None => True
  | _, _ => False
  end.
Proof.
  intros E. pose proof (filters_for_track_selects params F tps E) as H1.
  pose proof (narrow_selects _ F tps (CombinedFilter_new_holds _ _ E)) as H2.
  destruct (filters_for_track params tps) as [kept|], (narrow_for_track F tps) as [N|].
  2-4: unfold track_values in *; tauto.
  destruct H1 as (_&G&EG&H1). destruct H2 as [_ H2]. exists G. split; [done|]. intros fields.
  apply eq_true_iff_eq. by rewrite H1, H2.
Qed.

Lemma filters_for_track_narrows_witness :
  match CombinedFilter_new example_filters with
  | Ok F =>
      match filters_for_track example_filters [], narrow_for_track F [] with
      | Some kept, Some N => exists G, for_objects kept = Ok G /\
          forall fields, matches G fields = matches N fields
      | None, None => True
      | _, _ => False
      end
  | _ => False
  end.
Proof.
  destruct (CombinedFilter_new example_filters) as [F|e| |] eqn:E; try (vm_compute in E; discriminate).
  exact (filters_for_track_narrows example_filters F [] E).
Defined.

(** The filter of a fill is never lost.  When a request's filters were
    accepted, with those in its FILL_PARAMETERS, the filters of the fill (those
    of the subscription, with the kinds the fill names replaced) are accepted
    too, so the fallback to no filter at all is never taken. *)
Theorem fill_filter_accepted params limit F fill :
  object_filter params limit = Ok F -> fill_parameters params = Some fill ->
  for_objects (fill_params params fill) = Ok (fill_range_filter params fill).
Proof.
  unfold object_filter. intros (?&_&E)%obind_Ok_inv Hf. apply obind_Ok_inv in E as ([]&Ec&E).
  destruct (check_fills_in _ _ Ec (fill_parameters_in _ _ Hf)) as [F2 E2].
  by eapply fill_params_Ok.
Qed.

Definition example_fill_request : list MessageParameter :=
  MP_FillParameters [MP_RangeFilter RFK_Subgroup None] :: example_filters.

Lemma fill_filter_accepted_witness :
  is_ok (object_filter example_fill_request 8) = true /\
  for_objects (fill_params example_fill_request [MP_RangeFilter RFK_Subgroup None]) =
    Ok (fill_range_filter example_fill_request [MP_RangeFilter RFK_Subgroup None]).
Proof.
  split; [vm_compute; reflexivity|].
  destruct (object_filter example_fill_request 8) as [F|e| |] eqn:E; try (vm_compute in E; discriminate).
  exact (fill_filter_accepted example_fill_request 8 F _ E eq_refl).
Defined.
