(* ===== verification/Subgroup.v ===== *)
(** Subgroup streams: the type byte, the header and the objects
    ([libs/moqtail-rs/src/model/data/{constant,subgroup_header,subgroup_object}.rs]).

    A stream is a header, whose type byte says which of its fields follow and
    whether the objects carry properties, and then objects, each with the
    distance of its Object ID from the one before. *)
From S2P Require Import Prelude Varint Pair Codes Properties.

(** * The type byte ([data/constant.rs]) *)

Definition DEFAULT_PUBLISHER_PRIORITY : Z := 128.

Inductive SubgroupIdMode : Type :=
| SIM_Zero
| SIM_FirstObjectId
| SIM_Explicit.

#[export] Instance SubgroupIdMode_eq_dec : EqDecision SubgroupIdMode.
Proof. solve_decision. Defined.

(** [subgroup_id_mode as u8]. *)
Definition SubgroupIdMode_as_u8 (self : SubgroupIdMode) : Z :=
  match self with SIM_Zero => 0 | SIM_FirstObjectId => 1 | SIM_Explicit => 2 end.

(** The newtype around the type byte. *)
Record SubgroupHeaderType := mkSubgroupHeaderType { sht_value : Z }.

#[export] Instance SubgroupHeaderType_eq_dec : EqDecision SubgroupHeaderType.
Proof. solve_decision. Defined.

(** [v & mask != 0]. *)
Definition has_bits (v mask : Z) : bool := negb (Z.land v mask =? 0).

Definition SHT_PROPERTIES : Z := 0x01.
Definition SHT_SUBGROUP_ID_MODE_MASK : Z := 0x06.
Definition SHT_END_OF_GROUP : Z := 0x08.
Definition SHT_REQUIRED_BIT : Z := 0x10.
Definition SHT_DEFAULT_PRIORITY : Z := 0x20.
Definition SHT_FIRST_OBJECT : Z := 0x40.
Definition SHT_INVALID_BITS_MASK : Z := 0x80.
Definition SHT_RESERVED_SUBGROUP_MODE : Z := 0x06.

Definition SubgroupHeaderType_try_new (value : Z) : result SubgroupHeaderType :=
  if (255 <? value) || has_bits (value mod U8) SHT_INVALID_BITS_MASK
  then Err (InvalidType "SubgroupHeaderType::try_new")
  else
    let v := value mod U8 in
    if Z.land v SHT_REQUIRED_BIT =? 0 then Err (InvalidType "SubgroupHeaderType::try_new")
    else if Z.land v SHT_SUBGROUP_ID_MODE_MASK =? SHT_RESERVED_SUBGROUP_MODE
    then Err (InvalidType "SubgroupHeaderType::try_new")
    else Ok (mkSubgroupHeaderType v).

Definition sht_has_properties (self : SubgroupHeaderType) : bool :=
  has_bits (sht_value self) SHT_PROPERTIES.
Definition subgroup_id_mode (self : SubgroupHeaderType) : SubgroupIdMode :=
  let m := Z.shiftr (Z.land (sht_value self) SHT_SUBGROUP_ID_MODE_MASK) 1 in
  if m =? 0 then SIM_Zero else if m =? 1 then SIM_FirstObjectId else SIM_Explicit.
Definition has_explicit_subgroup_id (self : SubgroupHeaderType) : bool :=
  bool_decide (subgroup_id_mode self = SIM_Explicit).
Definition subgroup_id_is_zero (self : SubgroupHeaderType) : bool :=
  bool_decide (subgroup_id_mode self = SIM_Zero).
Definition subgroup_id_is_first_object_id (self : SubgroupHeaderType) : bool :=
  bool_decide (subgroup_id_mode self = SIM_FirstObjectId).
Definition contains_end_of_group (self : SubgroupHeaderType) : bool :=
  has_bits (sht_value self) SHT_END_OF_GROUP.
Definition sht_has_default_priority (self : SubgroupHeaderType) : bool :=
  has_bits (sht_value self) SHT_DEFAULT_PRIORITY.
Definition is_first_object (self : SubgroupHeaderType) : bool :=
  has_bits (sht_value self) SHT_FIRST_OBJECT.

(** [if flag { v |= bit }]. *)
Definition set_if (flag : bool) (bit v : Z) : Z := if flag then Z.lor v bit else v.

Definition SubgroupHeaderType_from_properties (has_properties : bool) (mode : SubgroupIdMode)
    (contains_end_of_group has_default_priority first_object : bool) : SubgroupHeaderType :=
  let v := SHT_REQUIRED_BIT in
  let v := set_if has_properties SHT_PROPERTIES v in
  let v := Z.lor v (Z.shiftl (SubgroupIdMode_as_u8 mode) 1) in
  let v := set_if contains_end_of_group SHT_END_OF_GROUP v in
  let v := set_if has_default_priority SHT_DEFAULT_PRIORITY v in
  let v := set_if first_object SHT_FIRST_OBJECT v in
  mkSubgroupHeaderType v.

(** * The header ([data/subgroup_header.rs]) *)

Record SubgroupHeader := mkSubgroupHeader {
  header_type : SubgroupHeaderType;
  sh_track_alias : Z;
  sh_group_id : Z;
  sh_subgroup_id : option Z;
  sh_publisher_priority : option Z
}.

#[export] Instance SubgroupHeader_eq_dec : EqDecision SubgroupHeader.
Proof. solve_decision. Defined.

(** [Option::is_none] and [Option::is_some]. *)
Definition is_none {A} (o : option A) : bool := match o with None => true | Some _ => false end.
Definition is_some {A} (o : option A) : bool := negb (is_none o).

Definition new_fixed_zero_id (track_alias group_id : Z) (publisher_priority : option Z)
    (has_properties contains_end_of_group first_object : bool) : SubgroupHeader :=
  mkSubgroupHeader
    (SubgroupHeaderType_from_properties has_properties SIM_Zero contains_end_of_group
       (is_none publisher_priority) first_object)
    track_alias group_id (Some 0) publisher_priority.

Definition new_first_object_id (track_alias group_id : Z) (publisher_priority : option Z)
    (has_properties contains_end_of_group first_object : bool) : SubgroupHeader :=
  mkSubgroupHeader
    (SubgroupHeaderType_from_properties has_properties SIM_FirstObjectId contains_end_of_group
       (is_none publisher_priority) first_object)
    track_alias group_id None publisher_priority.

Definition new_with_explicit_id (track_alias group_id subgroup_id : Z)
    (publisher_priority : option Z)
    (has_properties contains_end_of_group first_object : bool) : SubgroupHeader :=
  mkSubgroupHeader
    (SubgroupHeaderType_from_properties has_properties SIM_Explicit contains_end_of_group
       (is_none publisher_priority) first_object)
    track_alias group_id (Some subgroup_id) publisher_priority.

Definition for_mid_subgroup_stream (self : SubgroupHeader) : SubgroupHeader :=
  let header_type := header_type self in
  let mode :=
    match subgroup_id_mode header_type with
    | SIM_FirstObjectId => if is_some (sh_subgroup_id self) then SIM_Explicit else SIM_FirstObjectId
    | mode => mode
    end in
  mkSubgroupHeader
    (SubgroupHeaderType_from_properties (sht_has_properties header_type) mode
       (contains_end_of_group header_type) (sht_has_default_priority header_type) false)
    (sh_track_alias self) (sh_group_id self) (sh_subgroup_id self) (sh_publisher_priority self).

Definition SubgroupHeader_serialize (self : SubgroupHeader) (track_alias : option Z)
    : result bytes :=
  let? ty := put_vi (sht_value (header_type self)) in
  let alias := default (sh_track_alias self) track_alias in
  let? al := put_vi alias in
  let? gr := put_vi (sh_group_id self) in
  let? sg := if has_explicit_subgroup_id (header_type self) then
               match sh_subgroup_id self with
               | Some id => put_vi id
               | None => Err (ProtocolViolation "SubgroupHeader::serialize(header_type)")
               end
             else Ok [] in
  let? pr := if negb (sht_has_default_priority (header_type self)) then
               match sh_publisher_priority self with
               | Some priority => Ok [priority]
               | None => Err (ProtocolViolation "SubgroupHeader::serialize(publisher_priority)")
               end
             else Ok [] in
  Ok (ty ++ al ++ gr ++ sg ++ pr).

Definition SubgroupHeader_deserialize : parser SubgroupHeader :=
  let! type_value := get_vi in
  let! header_type := lift (SubgroupHeaderType_try_new type_value) in
  let! track_alias := get_vi in
  let! group_id := get_vi in
  let! subgroup_id :=
    (if has_explicit_subgroup_id header_type then let! id := get_vi in pret (Some id)
     else if subgroup_id_is_zero header_type then pret (Some 0)
     else pret None) in
  let! publisher_priority :=
    (if negb (sht_has_default_priority header_type) then
       let! p := get_u8_checked "SubgroupHeader::deserialize(publisher_priority)" in pret (Some p)
     else pret None) in
  pret (mkSubgroupHeader header_type track_alias group_id subgroup_id publisher_priority).

(** * Objects on the stream ([data/subgroup_object.rs]) *)

Record SubgroupObject := mkSubgroupObject {
  so_object_id : Z;
  so_properties : option (list ObjectProperty);
  so_status : option ObjectStatus;
  so_payload : option bytes
}.

(** [if let Some(payload) = &self.payload && !payload.is_empty()]. *)
Definition non_empty (payload : option bytes) : option bytes :=
  match payload with Some ((_ :: _) as data) => Some data | _ => None end.

Section WithTarget.
Context `{Target}.

Definition SubgroupObject_serialize (self : SubgroupObject) (previous_object_id : option Z)
    (has_properties : bool) : result bytes :=
  let? object_id_delta :=
    match previous_object_id with
    | Some id => let? d := sub_u64 (so_object_id self) id in sub_u64 d 1
    | None => Ok (so_object_id self)
    end in
  let? di := put_vi object_id_delta in
  let properties := default [] (so_properties self) in
  if negb has_properties && negb (Nat.eqb (length properties) 0)
  then Err (ProtocolViolation "SubgroupObject::serialize(properties)")
  else
    let? ps := if has_properties then
                 let? ext_buf := serialize_object_properties properties in
                 put_len_bytes ext_buf
               else Ok [] in
    let? pl := match non_empty (so_payload self) with
               | Some payload => put_len_bytes payload
               | None =>
                   let? z := put_vi 0 in
                   let? st := put_vi (ObjectStatus_to_u64 (default OS_Normal (so_status self))) in
                   Ok (z ++ st)
               end in
    Ok (di ++ ps ++ pl).

(** The properties of an object, cut off the stream by their length. *)
Definition SubgroupObject_properties : parser (list ObjectProperty) :=
  let! ext_len := get_vi in
  if 0 <? ext_len then
    let! ext_len := lift (to_usize "SubgroupObject::deserialize" ext_len) in
    let! header_bytes := get_bytes "SubgroupObject::deserialize" ext_len in
    lift (omap_err (fun _ => ProtocolViolation "SubgroupObject::deserialize")
            (run_on deserialize_object_properties header_bytes))
  else pret [].

(** Everything after the Object ID. *)
Definition SubgroupObject_body (object_id : Z) (has_properties : bool) : parser SubgroupObject :=
  let! properties :=
    (if has_properties then let! headers := SubgroupObject_properties in pret (Some headers)
     else pret None) in
  let! payload_len := get_vi in
  if payload_len =? 0 then
    let! status_raw := get_vi in
    let! status := lift (ObjectStatus_try_from status_raw) in
    pret (mkSubgroupObject object_id properties (Some status) None)
  else
    let! payload_len := lift (to_usize "SubgroupObject::deserialize" payload_len) in
    let! payload_data := get_bytes "SubgroupObject::deserialize" payload_len in
    pret (mkSubgroupObject object_id properties None (Some payload_data)).

Definition SubgroupObject_deserialize (previous_object_id : option Z) (has_properties : bool)
    : parser SubgroupObject :=
  let! object_id_delta := get_vi in
  let! object_id :=
    lift match previous_object_id with
         | Some id => let? s := add_u64 id object_id_delta in add_u64 s 1
         | None => Ok object_id_delta
         end in
  SubgroupObject_body object_id has_properties.

End WithTarget.

(** * Lemmas *)

(** ** The type byte *)

(** A type built from flags, the only ones there are. *)
Definition sht_ok (t : SubgroupHeaderType) : Prop :=
  exists p m e d f, t = SubgroupHeaderType_from_properties p m e d f.

(** The flags of a type, put together again. *)
Definition rebuild (t : SubgroupHeaderType) : SubgroupHeaderType :=
  SubgroupHeaderType_from_properties (sht_has_properties t) (subgroup_id_mode t)
    (contains_end_of_group t) (sht_has_default_priority t) (is_first_object t).

Lemma flags_from_properties p m e d f :
  let t := SubgroupHeaderType_from_properties p m e d f in
  sht_has_properties t = p /\ subgroup_id_mode t = m /\ contains_end_of_group t = e /\
  sht_has_default_priority t = d /\ is_first_object t = f.
Proof. by destruct p, m, e, d, f. Qed.

Lemma sht_ok_accepted t : sht_ok t ->
  0 <= sht_value t < 128 /\ SubgroupHeaderType_try_new (sht_value t) = Ok t.
Proof. intros (p&m&e&d&f&->). destruct p, m, e, d, f; vm_compute; by repeat split. Qed.

Lemma sht_rebuild t : sht_ok t -> rebuild t = t.
Proof. intros (p&m&e&d&f&->). by destruct p, m, e, d, f. Qed.

Lemma try_new_inv v t : is_u64 v -> SubgroupHeaderType_try_new v = Ok t -> sht_value t = v /\ sht_ok t.
Proof.
  intros Hv E. destruct (Z.lt_ge_cases v 256) as [Hlt|Hge].
  - assert (match SubgroupHeaderType_try_new v with
            | Ok t => (sht_value t =? v) && bool_decide (t = rebuild t) | _ => true end = true) as X.
    { apply (small_forall 256 (fun v => match SubgroupHeaderType_try_new v with
            | Ok t => (sht_value t =? v) && bool_decide (t = rebuild t) | _ => true end)).
      - vm_compute. reflexivity.
      - unfold is_u64 in *. lia. }
    rewrite E in X. breflect. split; [done|].
    match goal with H : bool_decide _ = true |- _ => apply bool_decide_eq_true in H as -> end.
    repeat eexists.
  - unfold SubgroupHeaderType_try_new in E. rewrite (proj2 (Z.ltb_lt 255 v)) in E by lia. done.
Qed.

Lemma try_new_returns v : returns (SubgroupHeaderType_try_new v).
Proof. unfold SubgroupHeaderType_try_new. by repeat case_if. Qed.

Lemma sht_value_u64 t : sht_ok t -> is_u64 (sht_value t).
Proof. intros [? _]%sht_ok_accepted. unfold is_u64. lia. Qed.

Lemma decodes_sht t : sht_ok t -> decodes (lift (SubgroupHeaderType_try_new (sht_value t))) [] t.
Proof. intros [_ ->]%sht_ok_accepted. apply decodes_lift. Qed.

Lemma robust_sht v : is_u64 v -> robust 0 (lift (SubgroupHeaderType_try_new v)) sht_ok.
Proof.
  intros Hv. apply robust_lift; [apply try_new_returns|].
  intros t E. by eapply try_new_inv.
Qed.
#[export] Hint Resolve sht_value_u64 decodes_sht : wire.
#[export] Hint Resolve robust_sht : robust.

(** ** The header *)

Definition opt_ok {A} (P : A -> Prop) (o : option A) : Prop :=
  match o with Some a => P a | None => True end.

(** A header that can be written: the fields its type calls for are there. *)
Record sh_ready (h : SubgroupHeader) : Prop := {
  ready_type : sht_ok (header_type h);
  ready_alias : is_u64 (sh_track_alias h);
  ready_group : is_u64 (sh_group_id h);
  ready_subgroup : opt_ok is_u64 (sh_subgroup_id h);
  ready_priority : opt_ok is_u8 (sh_publisher_priority h);
  ready_explicit : has_explicit_subgroup_id (header_type h) = true -> sh_subgroup_id h <> None;
  ready_no_default : sht_has_default_priority (header_type h) = false ->
    sh_publisher_priority h <> None
}.

(** What a reader makes of it: the fields the type leaves out are lost. *)
Definition sh_wire (alias : option Z) (h : SubgroupHeader) : SubgroupHeader :=
  mkSubgroupHeader (header_type h) (default (sh_track_alias h) alias) (sh_group_id h)
    match subgroup_id_mode (header_type h) with
    | SIM_Zero => Some 0
    | SIM_FirstObjectId => None
    | SIM_Explicit => sh_subgroup_id h
    end
    (if sht_has_default_priority (header_type h) then None else sh_publisher_priority h).

(** The headers a reader makes. *)
Definition sh_ok (h : SubgroupHeader) : Prop := sh_ready h /\ sh_wire None h = h.

Lemma sh_mode_cases h :
  has_explicit_subgroup_id (header_type h) = bool_decide (subgroup_id_mode (header_type h) = SIM_Explicit) /\
  subgroup_id_is_zero (header_type h) = bool_decide (subgroup_id_mode (header_type h) = SIM_Zero).
Proof. done. Qed.

Lemma SubgroupHeader_transmits h alias :
  sh_ready h -> opt_ok is_u64 alias ->
  exists bs, SubgroupHeader_serialize h alias = Ok bs /\ bytes_ok bs /\ bs <> [] /\
    decodes SubgroupHeader_deserialize bs (sh_wire alias h).
Proof.
  intros [Ht Ha Hg Hs Hp He Hd] Hal. unfold SubgroupHeader_serialize, sh_wire, SubgroupHeader_deserialize.
  set (al := default (sh_track_alias h) alias).
  assert (is_u64 al) by (by destruct alias).
  unfold has_explicit_subgroup_id, subgroup_id_is_zero in *. ser.
  assert (exists sg, (if bool_decide (subgroup_id_mode (header_type h) = SIM_Explicit) then
     match sh_subgroup_id h with Some id => put_vi id
     | None => Err (ProtocolViolation "SubgroupHeader::serialize(header_type)") end else Ok []) = Ok sg
   /\ bytes_ok sg /\ decodes (if bool_decide (subgroup_id_mode (header_type h) = SIM_Explicit)
       then let! id := get_vi in pret (Some id)
       else if bool_decide (subgroup_id_mode (header_type h) = SIM_Zero) then pret (Some 0) else pret None) sg
      match subgroup_id_mode (header_type h) with
      | SIM_Zero => Some 0 | SIM_FirstObjectId => None | SIM_Explicit => sh_subgroup_id h end)
    as (sg&->&Hsg&Dsg).
  { destruct (subgroup_id_mode (header_type h)) eqn:Em; cbn; try (exists []; split; [done|]; split; [constructor|done]).
    destruct (sh_subgroup_id h) as [id|]; [|by destruct He].
    simpl in Hs. ser. exists (encode_vi id). repeat split; [auto with wire|]. decode. }
  assert (exists pr, (if negb (sht_has_default_priority (header_type h)) then
     match sh_publisher_priority h with Some priority => Ok [priority]
     | None => Err (ProtocolViolation "SubgroupHeader::serialize(publisher_priority)") end else Ok []) = Ok pr
   /\ bytes_ok pr /\ decodes (if negb (sht_has_default_priority (header_type h)) then
       let! p := get_u8_checked "SubgroupHeader::deserialize(publisher_priority)" in pret (Some p)
       else pret None) pr
      (if sht_has_default_priority (header_type h) then None else sh_publisher_priority h))
    as (pr&->&Hpr&Dpr).
  { destruct (sht_has_default_priority (header_type h)) eqn:Em; cbn; [exists []; split; [done|]; split; [constructor|done]|].
    destruct (sh_publisher_priority h) as [p|]; [|by destruct Hd].
    simpl in Hp. exists [p]. split; [done|]. split; [auto with wire|]. decode. }
  cbn [obind]. eexists. split; [done|]. split; [bytes_parts|]. split; [auto with wire|]. decode.
Qed.

#[export] Instance Wire_SubgroupHeader :
  Wire sh_ok (fun h => SubgroupHeader_serialize h None) SubgroupHeader_deserialize.
Proof.
  apply Wire_intro.
  - intros h [Hr Hw]. destruct (SubgroupHeader_transmits h None Hr I) as (bs&?&?&?&?).
    rewrite Hw in *. exists bs. auto.
  - unfold SubgroupHeader_deserialize. robust_step. eapply (robust_bind_any 0 0); [by apply robust_sht|lia|].
    intros t Ht. robust_step. robust_step.
    eapply (robust_bind_any 0 0 _ _ (fun s => opt_ok is_u64 s /\ s =
      match subgroup_id_mode t with SIM_Zero => Some 0 | SIM_FirstObjectId => None | SIM_Explicit => s end /\
      (has_explicit_subgroup_id t = true -> s <> None))); [|lia|].
    { unfold has_explicit_subgroup_id, subgroup_id_is_zero.
      destruct (subgroup_id_mode t); cbn; robust_go; (split; [|by split]);
        cbn; auto with wire. }
    intros s (Hs1&Hs2&Hs3).
    eapply (robust_bind_any 0 0 _ _ (fun p => opt_ok is_u8 p /\
      p = (if sht_has_default_priority t then None else p) /\
      (sht_has_default_priority t = false -> p <> None))); [|lia|].
    { destruct (sht_has_default_priority t); cbn; robust_go; (split; [|by split]); done. }
    intros p (Hp1&Hp2&Hp3). apply robust_ret. split; [by split|].
    unfold sh_wire. simpl. by rewrite <- Hs2, <- Hp2.
Qed.

(** ** Objects *)

Section Objects.
Context `{Target}.

(** An object that can be written after [prev] on a stream whose header has
    the PROPERTIES bit [hp]. *)
Record so_ready (prev : option Z) (hp : bool) (o : SubgroupObject) : Prop := {
  so_id_ok : is_u64 (so_object_id o);
  so_after : forall p, prev = Some p -> 0 <= p < so_object_id o;
  so_props_ok : op_list_ok (default [] (so_properties o));
  so_props_allowed : hp = false -> default [] (so_properties o) = [];
  so_payload_ok : opt_ok data_ok (so_payload o)
}.

(** What a reader makes of it. *)
Definition so_wire (hp : bool) (o : SubgroupObject) : SubgroupObject :=
  mkSubgroupObject (so_object_id o)
    (if hp then Some (sort_by_key ObjectProperty_type_value (default [] (so_properties o))) else None)
    match non_empty (so_payload o) with
    | Some _ => None
    | None => Some (default OS_Normal (so_status o))
    end
    (non_empty (so_payload o)).

Lemma ObjectStatus_u64 s : is_u64 (ObjectStatus_to_u64 s).
Proof. destruct s; unfold is_u64; simpl; lia. Qed.
Lemma decodes_ObjectStatus s :
  decodes (lift (ObjectStatus_try_from (ObjectStatus_to_u64 s))) [] s.
Proof. rewrite (proj1 ObjectStatus_exact). apply decodes_lift. Qed.
Lemma robust_ObjectStatus v : robust 0 (lift (ObjectStatus_try_from v)) (fun _ => True).
Proof. apply (robust_registry ObjectStatus_to_u64); [apply ObjectStatus_exact|done]. Qed.

Lemma SubgroupObject_properties_block b ps :
  data_ok b -> run_on deserialize_object_properties b = Ok ps ->
  decodes SubgroupObject_properties (encode_vi (blen b) ++ b) ps.
Proof.
  intros Hb E. pose proof (blen_u64 _ Hb). unfold SubgroupObject_properties.
  eapply decodes_bind; [auto with wire|]. destruct (Z.ltb_spec 0 (blen b)).
  - eapply decodes_bind_nil; [auto with wire|].
    eapply decodes_bind_last; [auto with wire|]. rewrite E. apply decodes_lift.
  - destruct b; [|ulia]. by injection E as <-.
Qed.

Lemma non_empty_Some d payload : opt_ok data_ok payload -> non_empty payload = Some d ->
  payload = Some d /\ data_ok d /\ 0 < blen d.
Proof. destruct payload as [[|b l]|]; simpl; try done. intros Hd [= <-].
  split; [done|]. split; [done|]. ulia.
Qed.

Lemma SubgroupObject_body_decodes prev hp o :
  so_ready prev hp o ->
  exists ps pl,
    (if hp then let? ext_buf := serialize_object_properties (default [] (so_properties o)) in
       put_len_bytes ext_buf else Ok []) = Ok ps /\
    match non_empty (so_payload o) with
    | Some payload => put_len_bytes payload
    | None => let? z := put_vi 0 in
        let? st := put_vi (ObjectStatus_to_u64 (default OS_Normal (so_status o))) in Ok (z ++ st)
    end = Ok pl /\ bytes_ok ps /\ bytes_ok pl /\
    decodes (SubgroupObject_body (so_object_id o) hp) (ps ++ pl) (so_wire hp o).
Proof.
  intros [Hid _ Hps Hno Hpl].
  destruct (op_list_block _ Hps) as (b&Eb&Hb&Db).
  pose proof (SubgroupObject_properties_block b _ Hb Db) as Dp.
  unfold SubgroupObject_body, so_wire. rewrite Eb.
  exists (if hp then encode_vi (blen b) ++ b else []).
  exists match non_empty (so_payload o) with Some d => encode_vi (blen d) ++ d
    | None => encode_vi 0 ++ encode_vi (ObjectStatus_to_u64 (default OS_Normal (so_status o))) end.
  split. { destruct hp; [|done]. simpl. by rewrite put_len_bytes_Ok. }
  assert (Hpb : bytes_ok (if hp then encode_vi (blen b) ++ b else []))
    by (destruct hp; bytes_parts).
  assert (Dpp : decodes (if hp then let! headers := SubgroupObject_properties in pret (Some headers)
     else pret None) (if hp then encode_vi (blen b) ++ b else [])
     (if hp then Some (sort_by_key ObjectProperty_type_value (default [] (so_properties o))) else None)).
  { destruct hp; [|by apply decodes_ret]. eapply decodes_bind_last; [done|apply decodes_ret]. }
  destruct (non_empty (so_payload o)) as [d|] eqn:En.
  - destruct (non_empty_Some _ _ Hpl En) as (_&Hd&Hlen). rewrite put_len_bytes_Ok by done.
    pose proof (blen_u64 _ Hd). split; [done|]. split; [done|]. split; [bytes_parts|].
    eapply decodes_bind; [done|]. eapply decodes_bind; [auto with wire|].
    destruct (Z.eqb_spec (blen d) 0); [lia|]. decode.
  - pose proof (ObjectStatus_u64 (default OS_Normal (so_status o))). ser.
    split; [done|]. split; [done|]. split; [bytes_parts|].
    eapply decodes_bind; [done|]. eapply decodes_bind; [auto with wire|]. simpl.
    eapply decodes_bind_last; [auto with wire|].
    eapply decodes_bind_nil; [apply decodes_ObjectStatus|apply decodes_ret].
Qed.

Lemma object_id_delta prev o hp : so_ready prev hp o ->
  exists d, is_u64 d /\
    match prev with
    | Some id => let? d := sub_u64 (E:=ParseError) (so_object_id o) id in sub_u64 d 1
    | None => Ok (so_object_id o)
    end = Ok d /\
    match prev with
    | Some id => let? s := add_u64 (E:=ParseError) id d in add_u64 s 1
    | None => Ok d
    end = Ok (so_object_id o).
Proof.
  intros [Hid Haf _ _ _]. destruct prev as [p|]; [|eauto].
  specialize (Haf p eq_refl). unfold is_u64 in *. exists (so_object_id o - p - 1).
  unfold sub_u64, add_u64. rewrite !arith_u64_Ok; simpl; rewrite ?arith_u64_Ok;
    unfold is_u64; repeat split; try lia; f_equal; lia.
Qed.

Lemma SubgroupObject_transmits prev hp o :
  so_ready prev hp o ->
  exists bs, SubgroupObject_serialize o prev hp = Ok bs /\ bytes_ok bs /\ bs <> [] /\
    decodes (SubgroupObject_deserialize prev hp) bs (so_wire hp o).
Proof.
  intros Hr. destruct (object_id_delta _ _ _ Hr) as (d&Hd&E1&E2).
  destruct (SubgroupObject_body_decodes _ _ _ Hr) as (ps&pl&E3&E4&Hps&Hpl&D).
  unfold SubgroupObject_serialize, SubgroupObject_deserialize. rewrite E1. cbn [obind].
  rewrite put_vi_Ok by done. cbn [obind].
  assert ((negb hp && negb (Nat.eqb (length (default [] (so_properties o))) 0)) = false) as ->.
  { destruct hp; [done|]. by rewrite (so_props_allowed _ _ _ Hr eq_refl). }
  rewrite E3. cbn [obind]. rewrite E4. cbn [obind].
  eexists. split; [done|]. split; [bytes_parts|]. split; [auto with wire|].
  eapply decodes_bind; [auto with wire|]. eapply decodes_bind_nil; [|done].
  rewrite E2. apply decodes_lift.
Qed.

(** *** On any buffer *)

(** The objects a reader makes. *)
Record so_read (hp : bool) (o : SubgroupObject) : Prop := {
  so_read_id : is_u64 (so_object_id o);
  so_read_props : match so_properties o with
    | Some ps => hp = true /\ Forall op_ok ps /\ StronglySorted (key_le ObjectProperty_type_value) ps
    | None => hp = false
    end;
  so_read_content : match so_payload o, so_status o with
    | Some d, None => data_ok d /\ 0 < blen d
    | None, Some _ => True
    | _, _ => False
    end
}.

Lemma SubgroupObject_properties_robust : robust 1 SubgroupObject_properties
  (fun ps => Forall op_ok ps /\ StronglySorted (key_le ObjectProperty_type_value) ps).
Proof.
  unfold SubgroupObject_properties. robust_step. robust_step.
  - robust_step. robust_step. destruct_and!. robust_step. done.
  - apply robust_ret. by repeat constructor.
Qed.

Lemma SubgroupObject_body_robust id hp : is_u64 id ->
  robust 1 (SubgroupObject_body id hp) (fun o => so_object_id o = id /\ so_read hp o).
Proof.
  intros Hid. unfold SubgroupObject_body.
  eapply (robust_bind 0 1 _ _ (fun ps => match ps with
    | Some ps => hp = true /\ Forall op_ok ps /\ StronglySorted (key_le ObjectProperty_type_value) ps
    | None => hp = false end)).
  { destruct hp; [|by apply robust_ret].
    eapply robust_bind_any; [apply SubgroupObject_properties_robust|lia|].
    intros ps Hps. by apply robust_ret. }
  intros ps Hps. robust_step. robust_step.
  - robust_step. eapply (robust_bind_any 0 0); [apply robust_ObjectStatus|lia|].
    intros st _. apply robust_ret. by split.
  - rewrite to_usize_Ok by done. robust_step. robust_step. apply robust_ret.
    split; [done|]. split; [done..|]. simpl. unfold is_u64 in *. destruct_and!. split; [split; [done|lia]|lia].
Qed.

Lemma next_id_outcome p d : is_u64 p -> is_u64 d ->
  let o := let? s := add_u64 (E:=ParseError) p d in add_u64 s 1 in
  p + d + 1 < U64 /\ o = Ok (p + d + 1) \/
  U64 <= p + d + 1 /\ overflow_checks = true /\ o = Panic \/
  U64 <= p + d + 1 /\ overflow_checks = false /\ exists v, is_u64 v /\ o = Ok v.
Proof.
  intros Hp Hd. unfold is_u64 in *. unfold add_u64, arith_u64, wrap64.
  destruct (Z.lt_ge_cases (p + d + 1) U64).
  - left. split; [done|]. repeat (rewrite bool_decide_eq_true_2 by (unfold is_u64; lia); simpl). done.
  - right. destruct overflow_checks; [left|right]; do 2 (split; [done|]).
    + case_bool_decide; [|done]. simpl. rewrite bool_decide_eq_false_2 by (unfold is_u64 in *; lia). done.
    + case_bool_decide; simpl.
      * rewrite bool_decide_eq_false_2 by (unfold is_u64 in *; lia).
        eexists. split; [|done]. apply Z.mod_pos_bound. lia.
      * set (m := (p + d) mod U64). assert (0 <= m < U64) by (apply Z.mod_pos_bound; lia).
        case_bool_decide; eexists; (split; [|done]); [done|]. apply Z.mod_pos_bound. lia.
Qed.

(** The reader, whatever the previous ID. *)
Lemma SubgroupObject_cases prev hp bs : bytes_ok bs -> opt_ok is_u64 prev ->
  match SubgroupObject_deserialize prev hp bs with
  | (Ok o, r) => r `suffix_of` bs /\ (length r < length bs)%nat /\ so_read hp o
  | (Err _, r) => r `suffix_of` bs
  | (Panic, _) => True
  | (Diverge, _) => False
  end.
Proof.
  intros Hbs Hp. unfold SubgroupObject_deserialize, pbind.
  pose proof (get_vi_robust bs Hbs) as R. destruct (get_vi bs) as [[d|e| |] r]; try done.
  destruct R as (Hsuf&Hlen&Hd). unfold lift.
  assert (forall id, is_u64 id -> match SubgroupObject_body id hp r with
    | (Ok o, r) => r `suffix_of` bs /\ (length r < length bs)%nat /\ so_read hp o
    | (Err _, r) => r `suffix_of` bs | (Panic, _) => True | (Diverge, _) => False end) as X.
  { intros id Hid.
    pose proof (SubgroupObject_body_robust id hp Hid r (bytes_ok_suffix _ _ Hsuf Hbs)) as R.
    destruct (SubgroupObject_body id hp r) as [[o|e| |] r']; try done; [|by etrans].
    destruct R as (?&?&_&?). split; [by etrans|]. split; [lia|done]. }
  destruct prev as [p|]; [|by apply X].
  destruct (next_id_outcome p d Hp Hd) as [[? ->]|[(?&?&->)|(?&?&v&?&->)]]; [|done|by apply X].
  apply X. unfold is_u64 in *. simpl in Hp. lia.
Qed.

Lemma stable_SubgroupObject prev hp : stable (SubgroupObject_deserialize prev hp).
Proof. unfold SubgroupObject_deserialize, SubgroupObject_body, SubgroupObject_properties. stable_go. Qed.
End Objects.

Lemma stable_SubgroupHeader : stable SubgroupHeader_deserialize.
Proof. unfold SubgroupHeader_deserialize. stable_go. Qed.

(** * Properties *)

(** Subgroup headers survive the wire.  The type bytes accepted are
    exactly those some choice of flags builds, and each flag is read back as it
    was set; a header with the fields its type calls for is written and read
    back, whatever follows it, under the alias given (or its own) and with
    exactly the fields its type leaves out lost; a header without one of them
    is refused; and on any buffer reading ends with a header that would be
    written as it was read, or with an error. *)
Theorem subgroup_header_roundtrip h alias v t bs :
  sh_ready h -> opt_ok is_u64 alias -> is_u64 v -> bytes_ok bs ->
  (SubgroupHeaderType_try_new v = Ok t <-> sht_value t = v /\ sht_ok t) /\
  (exists enc, SubgroupHeader_serialize h alias = Ok enc /\
     decodes SubgroupHeader_deserialize enc (sh_wire alias h)) /\
  (forall ty a g s p, sht_ok ty -> is_u64 a -> is_u64 g ->
     has_explicit_subgroup_id ty = true /\ s = None \/
     opt_ok is_u64 s /\ sht_has_default_priority ty = false /\ p = None ->
     exists e, SubgroupHeader_serialize (mkSubgroupHeader ty a g s p) None = Err e) /\
  match SubgroupHeader_deserialize bs with
  | (Ok h', r) => r `suffix_of` bs /\ sh_ready h' /\ sh_wire None h' = h'
  | (Err _, _) => True
  | _ => False
  end.
Proof.
  intros Hh Ha Hv Hbs. split; [|split; [|split]].
  - split; [by apply try_new_inv|]. intros [<- Ht]. by apply sht_ok_accepted.
  - destruct (SubgroupHeader_transmits h alias Hh Ha) as (enc&?&_&_&?). eauto.
  - intros ty a g s p Hty Hna Hg Hmiss. unfold SubgroupHeader_serialize. simpl. ser.
    destruct Hmiss as [[-> ->]|(Hs&->&->)]; [simpl; eauto|].
    destruct (has_explicit_subgroup_id ty); [|simpl; eauto].
    destruct s as [s|]; [|simpl; eauto]. simpl in Hs. ser. eauto.
  - pose proof (wire_robust (de:=SubgroupHeader_deserialize) bs Hbs) as R.
    destruct (SubgroupHeader_deserialize bs) as [[h'|e| |] r]; try done.
    by destruct R as (?&_&?&?).
Qed.

Lemma subgroup_header_roundtrip_witness :
  sh_ready (new_with_explicit_id 7 3 12 (Some 200) true false true) /\
  exists enc, SubgroupHeader_serialize (new_with_explicit_id 7 3 12 (Some 200) true false true) (Some 9)
      = Ok enc /\
    decodes SubgroupHeader_deserialize enc
      (sh_wire (Some 9) (new_with_explicit_id 7 3 12 (Some 200) true false true)).
Proof.
  assert (sh_ready (new_with_explicit_id 7 3 12 (Some 200) true false true)) as Hr.
  { split; simpl; unfold is_u64, is_u8; try lia; try done. by repeat eexists. }
  split; [exact Hr|].
  refine (proj1 (proj2 (subgroup_header_roundtrip _ (Some 9) 16 (mkSubgroupHeaderType 16) [] Hr _ _ _)));
    [simpl; unfold is_u64; lia|unfold is_u64; lia|constructor].
Defined.

(** A stream opened in the middle of a subgroup names the same subgroup.
    From a header that was read and whose Subgroup ID is known by then, the
    header a relay writes for the rest of the subgroup is read by the next hop
    with that Subgroup ID, with the group, the priority, the PROPERTIES and the
    END_OF_GROUP bits unchanged, under the alias given, and never claims to
    start with the first object. *)
Theorem mid_subgroup_header h id alias :
  sh_ready h -> is_u64 alias ->
  sh_subgroup_id h = Some id ->
  (subgroup_id_mode (header_type h) = SIM_Zero -> id = 0) ->
  (sht_has_default_priority (header_type h) = true -> sh_publisher_priority h = None) ->
  exists bs h',
    SubgroupHeader_serialize (for_mid_subgroup_stream h) (Some alias) = Ok bs /\
    decodes SubgroupHeader_deserialize bs h' /\
    sh_subgroup_id h' = Some id /\
    sh_track_alias h' = alias /\ sh_group_id h' = sh_group_id h /\
    sh_publisher_priority h' = sh_publisher_priority h /\
    sht_has_properties (header_type h') = sht_has_properties (header_type h) /\
    contains_end_of_group (header_type h') = contains_end_of_group (header_type h) /\
    is_first_object (header_type h') = false.
Proof.
  intros Hr Ha Hid Hz Hdef. destruct Hr as [Ht Hal Hg Hs Hp He Hd].
  unfold for_mid_subgroup_stream. rewrite Hid. cbn [is_some is_none negb].
  set (mode := match subgroup_id_mode (header_type h) with SIM_FirstObjectId => SIM_Explicit | m => m end).
  set (h2 := mkSubgroupHeader _ _ _ _ _).
  destruct (flags_from_properties (sht_has_properties (header_type h)) mode
    (contains_end_of_group (header_type h)) (sht_has_default_priority (header_type h)) false)
    as (F1&F2&F3&F4&F5).
  assert (sh_ready h2) as Hr2.
  { split; simpl; try done; [by repeat eexists|by rewrite Hid in Hs|by rewrite F4]. }
  destruct (SubgroupHeader_transmits h2 (Some alias) Hr2 Ha) as (bs&E&_&_&D).
  exists bs, (sh_wire (Some alias) h2). split; [done|]. split; [done|].
  unfold sh_wire, h2. cbn [header_type sh_subgroup_id sh_track_alias sh_group_id sh_publisher_priority].
  rewrite F2, F4. repeat split; try done.
  - unfold mode. destruct (subgroup_id_mode (header_type h)) eqn:Em; try done. by rewrite Hz.
  - destruct (sht_has_default_priority (header_type h)) eqn:Ed; [|done]. symmetry. auto.
Qed.

Lemma mid_subgroup_header_witness :
  let h := mkSubgroupHeader (mkSubgroupHeaderType 0x53) 7 3 (Some 5) (Some 200) in
  exists bs h',
    SubgroupHeader_serialize (for_mid_subgroup_stream h) (Some 9) = Ok bs /\
    decodes SubgroupHeader_deserialize bs h' /\
    sh_subgroup_id h' = Some 5 /\
    sh_track_alias h' = 9 /\ sh_group_id h' = sh_group_id h /\
    sh_publisher_priority h' = sh_publisher_priority h /\
    sht_has_properties (header_type h') = sht_has_properties (header_type h) /\
    contains_end_of_group (header_type h') = contains_end_of_group (header_type h) /\
    is_first_object (header_type h') = false.
Proof.
  intros h. apply (mid_subgroup_header h 5 9).
  - split; simpl; unfold is_u64, is_u8; try lia; try done.
    exists true, SIM_FirstObjectId, false, false, true. reflexivity.
  - unfold is_u64. lia.
  - reflexivity.
  - vm_compute. discriminate.
  - vm_compute. discriminate.
Defined.

(** Objects on a subgroup stream survive the wire.  An object whose ID is
    past the previous one is written as a distance and read back with the same
    ID, its properties in canonical order, and its payload, an empty one as the
    status it stands for; properties on a stream whose header has no
    PROPERTIES bit are refused; and what a reader makes of an object can be
    written after any smaller ID and reads back unchanged, so that a relay
    forwards it as it is. *)
Theorem subgroup_object_roundtrip `{Target} prev hp o :
  so_ready prev hp o ->
  (exists bs, SubgroupObject_serialize o prev hp = Ok bs /\ bytes_ok bs /\
     decodes (SubgroupObject_deserialize prev hp) bs (so_wire hp o)) /\
  (forall ps, ps <> [] -> exists e,
     SubgroupObject_serialize
       (mkSubgroupObject (so_object_id o) (Some ps) (so_status o) (so_payload o)) prev false = Err e) /\
  (forall o' prev', so_read hp o' -> op_list_ok (default [] (so_properties o')) ->
     (forall p, prev' = Some p -> 0 <= p < so_object_id o') ->
     exists bs, SubgroupObject_serialize o' prev' hp = Ok bs /\
       decodes (SubgroupObject_deserialize prev' hp) bs o').
Proof.
  intros Hr. split; [|split].
  - destruct (SubgroupObject_transmits prev hp o Hr) as (bs&?&?&_&?). eauto.
  - intros ps Hne. destruct (object_id_delta _ _ _ Hr) as (d&Hd&E1&_).
    unfold SubgroupObject_serialize. cbn [so_object_id so_properties]. rewrite E1. cbn [obind].
    rewrite put_vi_Ok by done. simpl. destruct ps; [done|]. simpl. eauto.
  - intros o' prev' [Hid Hps Hc] Hlist Haf.
    assert (so_ready prev' hp o') as Hr'.
    { split; [done|done|done| |].
      - intros ->. by destruct (so_properties o') as [ps|]; [destruct Hps|].
      - destruct (so_payload o'); [|done]. by destruct (so_status o'); [|destruct Hc]. }
    destruct (SubgroupObject_transmits prev' hp o' Hr') as (bs&E&_&_&D).
    exists bs. split; [done|]. replace (so_wire hp o') with o' in D; [done|].
    destruct o' as [id ps st pl]. unfold so_wire. simpl in *.
    destruct ps as [ps|]; [destruct Hps as (->&_&Hs); simpl; rewrite sort_by_key_id by done|subst hp].
    all: destruct pl as [[|b l]|], st; try done; simpl in *; destruct Hc; ulia.
Qed.

Lemma subgroup_object_roundtrip_witness :
  let o := mkSubgroupObject 9 (Some [OP_PriorObjectIdGap 2]) None (Some [1; 2; 3]) in
  exists bs, SubgroupObject_serialize (H:=debug_build) o (Some 6) true = Ok bs /\ bytes_ok bs /\
    decodes (SubgroupObject_deserialize (H:=debug_build) (Some 6) true) bs (so_wire true o).
Proof.
  intros o. apply (subgroup_object_roundtrip (H:=debug_build) (Some 6) true o).
  split; simpl.
  - unfold is_u64. lia.
  - intros p [= <-]. lia.
  - split; [repeat constructor; unfold is_u64; simpl; lia|].
    intros b E. vm_compute in E. injection E as <-. reflexivity.
  - discriminate.
  - split; [repeat constructor; simpl; lia|reflexivity].
Defined.

(** Reading an object off a subgroup stream.  On any buffer and after any
    previous ID, the reader consumes a prefix of it and gives an object with
    its properties exactly when the header says so, and either a non-empty
    payload or a status; or it fails with an error; or, only in a build with
    overflow checks and only when the distance takes the Object ID past the
    largest one, it panics.  Without overflow checks the ID wraps there;
    otherwise it is larger than the previous one. *)
Theorem subgroup_object_checked `{Target} prev hp bs :
  bytes_ok bs -> opt_ok is_u64 prev ->
  let overflows := exists p d r, prev = Some p /\ get_vi bs = (Ok d, r) /\ U64 <= p + d + 1 in
  match SubgroupObject_deserialize prev hp bs with
  | (Ok o, r) => r `suffix_of` bs /\ (length r < length bs)%nat /\ so_read hp o /\
      ((forall p, prev = Some p -> p < so_object_id o) \/ overflows /\ overflow_checks = false)
  | (Err _, r) => r `suffix_of` bs
  | (Panic, _) => overflows /\ overflow_checks = true
  | (Diverge, _) => False
  end.
Proof.
  intros Hbs Hp overflows. unfold SubgroupObject_deserialize, pbind.
  pose proof (get_vi_robust bs Hbs) as R. destruct (get_vi bs) as [[d|e| |] r] eqn:Eg; try done.
  destruct R as (Hsuf&Hlen&Hd). unfold lift.
  assert (forall id, is_u64 id ->
    ((forall p, prev = Some p -> p < id) \/ overflows /\ overflow_checks = false) ->
    match SubgroupObject_body id hp r with
    | (Ok o, r) => r `suffix_of` bs /\ (length r < length bs)%nat /\ so_read hp o /\
      ((forall p, prev = Some p -> p < so_object_id o) \/ overflows /\ overflow_checks = false)
    | (Err _, r) => r `suffix_of` bs
    | (Panic, _) => overflows /\ overflow_checks = true
    | (Diverge, _) => False
    end) as X.
  { intros id Hid Hord.
    pose proof (SubgroupObject_body_robust id hp Hid r (bytes_ok_suffix _ _ Hsuf Hbs)) as R.
    destruct (SubgroupObject_body id hp r) as [[o|e| |] r']; try done; [|by etrans].
    destruct R as (?&?&<-&?). split; [by etrans|]. split; [lia|]. done. }
  destruct prev as [p|]; [|apply X; [done|by left]].
  assert (U64 <= p + d + 1 -> overflows) as Hov by (intros; by exists p, d, r).
  destruct (next_id_outcome p d Hp Hd) as [[? ->]|[(?&?&->)|(?&?&v&?&->)]].
  - unfold is_u64 in *. apply X; [unfold is_u64; simpl in Hp; lia|]. left. intros ? [= <-]. lia.
  - auto.
  - apply X; [done|]. right. auto.
Qed.

Lemma subgroup_object_checked_witness :
  let bs := [255; 255; 255; 255; 255; 255; 255; 255; 255; 0; 0] in
  let overflows := exists p d r, Some 3 = Some p /\ get_vi bs = (Ok d, r) /\ U64 <= p + d + 1 in
  fst (SubgroupObject_deserialize (H:=debug_build) (Some 3) false bs) = Panic /\
  match SubgroupObject_deserialize (H:=debug_build) (Some 3) false bs with
  | (Ok o, r) => r `suffix_of` bs /\ (length r < length bs)%nat /\ so_read false o /\
      ((forall p, Some 3 = Some p -> p < so_object_id o) \/
       overflows /\ @overflow_checks debug_build = false)
  | (Err _, r) => r `suffix_of` bs
  | (Panic, _) => overflows /\ @overflow_checks debug_build = true
  | (Diverge, _) => False
  end.
Proof.
  intros bs overflows. split; [vm_compute; reflexivity|].
  apply (subgroup_object_checked (H:=debug_build) (Some 3) false bs).
  - apply Forall_forall. intros x Hx. unfold is_u8.
    repeat (apply elem_of_cons in Hx as [->|Hx]; [lia|]). by apply not_elem_of_nil in Hx.
  - simpl. unfold is_u64. lia.
Defined.
