(* ===== verification/Datagram.v ===== *)
(** Object datagrams: the type byte and the codec
    ([libs/moqtail-rs/src/model/data/{constant,datagram}.rs]).

    A datagram carries one object; its payload is whatever is left of it. *)
From S2P Require Import Prelude Varint Pair Codes Properties Subgroup.

(** * The type byte ([data/constant.rs]) *)

Record ObjectDatagramType := mkObjectDatagramType { odt_value : Z }.

#[export] Instance ObjectDatagramType_eq_dec : EqDecision ObjectDatagramType.
Proof. solve_decision. Defined.

Definition ODT_PROPERTIES : Z := 0x01.
Definition ODT_END_OF_GROUP : Z := 0x02.
Definition ODT_ZERO_OBJECT_ID : Z := 0x04.
Definition ODT_DEFAULT_PRIORITY : Z := 0x08.
Definition ODT_STATUS : Z := 0x20.
Definition ODT_INVALID_BITS_MASK : Z := 0xD0.

Definition ObjectDatagramType_try_new (value : Z) : result ObjectDatagramType :=
  if (255 <? value) || has_bits (value mod U8) ODT_INVALID_BITS_MASK
  then Err (InvalidType "ObjectDatagramType::try_new")
  else
    let v := value mod U8 in
    if has_bits v ODT_STATUS && has_bits v ODT_END_OF_GROUP
    then Err (ProtocolViolation "ObjectDatagramType::try_new")
    else Ok (mkObjectDatagramType v).

Definition odt_has_properties (self : ObjectDatagramType) : bool :=
  has_bits (odt_value self) ODT_PROPERTIES.
Definition is_end_of_group (self : ObjectDatagramType) : bool :=
  has_bits (odt_value self) ODT_END_OF_GROUP.
Definition is_zero_object_id (self : ObjectDatagramType) : bool :=
  has_bits (odt_value self) ODT_ZERO_OBJECT_ID.
Definition odt_has_default_priority (self : ObjectDatagramType) : bool :=
  has_bits (odt_value self) ODT_DEFAULT_PRIORITY.
Definition odt_is_status (self : ObjectDatagramType) : bool :=
  has_bits (odt_value self) ODT_STATUS.

Definition ObjectDatagramType_from_properties
    (has_properties end_of_group object_id_is_zero default_priority is_status : bool)
    : result ObjectDatagramType :=
  let v := 0 in
  let v := set_if has_properties ODT_PROPERTIES v in
  let v := set_if end_of_group ODT_END_OF_GROUP v in
  let v := set_if object_id_is_zero ODT_ZERO_OBJECT_ID v in
  let v := set_if default_priority ODT_DEFAULT_PRIORITY v in
  let v := set_if is_status ODT_STATUS v in
  ObjectDatagramType_try_new v.

(** * The datagram ([data/datagram.rs]) *)

Record Datagram := mkDatagram {
  dg_track_alias : Z;
  dg_group_id : Z;
  dg_object_id : Z;
  dg_publisher_priority : option Z;
  dg_properties : option (list ObjectProperty);
  dg_payload : option bytes;
  dg_object_status : option ObjectStatus;
  dg_end_of_group : bool
}.

Definition new_payload (track_alias group_id object_id : Z) (publisher_priority : option Z)
    (properties : option (list ObjectProperty)) (payload : bytes) (end_of_group : bool) : Datagram :=
  mkDatagram track_alias group_id object_id publisher_priority properties (Some payload) None
    end_of_group.

Definition new_status (track_alias group_id object_id : Z) (publisher_priority : option Z)
    (properties : option (list ObjectProperty)) (object_status : ObjectStatus) : Datagram :=
  mkDatagram track_alias group_id object_id publisher_priority properties None
    (Some object_status) false.

Definition Datagram_new (track_alias group_id object_id publisher_priority : Z) (payload : bytes)
    : Datagram :=
  mkDatagram track_alias group_id object_id (Some publisher_priority) None (Some payload) None false.

(** [properties.as_deref().is_some_and(|p| !p.is_empty())]. *)
Definition has_some_property (properties : option (list ObjectProperty)) : bool :=
  match properties with Some (_ :: _) => true | _ => false end.

Definition Datagram_serialize (self : Datagram) : result bytes :=
  let has_properties := has_some_property (dg_properties self) in
  let object_id_is_zero := dg_object_id self =? 0 in
  let default_priority := is_none (dg_publisher_priority self) in
  let is_status := is_some (dg_object_status self) in
  let? dtype := ObjectDatagramType_from_properties has_properties (dg_end_of_group self)
                  object_id_is_zero default_priority is_status in
  let? ty := put_vi (odt_value dtype) in
  let? al := put_vi (dg_track_alias self) in
  let? gr := put_vi (dg_group_id self) in
  let? ob := if negb (is_zero_object_id dtype) then put_vi (dg_object_id self) else Ok [] in
  let pr := if negb (odt_has_default_priority dtype)
            then [default 0 (dg_publisher_priority self)] else [] in
  let? ps := if has_properties then
               let? payload_buf := serialize_object_properties (default [] (dg_properties self)) in
               put_len_bytes payload_buf
             else Ok [] in
  let? pl := match dg_object_status self with
             | Some status => put_vi (ObjectStatus_to_u64 status)
             | None => Ok (default [] (dg_payload self))
             end in
  Ok (ty ++ al ++ gr ++ ob ++ pr ++ ps ++ pl).

(** [bytes.copy_to_bytes(bytes.remaining())]. *)
Definition take_rest : parser bytes := fun bs => (Ok bs, []).

Definition Datagram_properties : parser (list ObjectProperty) :=
  let! ext_len := get_vi in
  if ext_len =? 0 then pfail (ProtocolViolation "Datagram::deserialize(properties_length)")
  else
    let! ext_len := lift (to_usize "Datagram::deserialize" ext_len) in
    let! header_bytes := get_bytes "Datagram::deserialize(properties)" ext_len in
    lift (omap_err (fun _ => ProtocolViolation "Datagram::deserialize, can't parse headers")
            (run_on deserialize_object_properties header_bytes)).

Definition Datagram_deserialize : parser Datagram :=
  let! msg_type_raw := get_vi in
  let! msg_type := lift (ObjectDatagramType_try_new msg_type_raw) in
  let! track_alias := get_vi in
  let! group_id := get_vi in
  let! object_id := (if negb (is_zero_object_id msg_type) then get_vi else pret 0) in
  let! publisher_priority :=
    (if negb (odt_has_default_priority msg_type) then
       let! p := get_u8_checked "Datagram::deserialize(publisher_priority)" in pret (Some p)
     else pret None) in
  let! properties :=
    (if odt_has_properties msg_type then let! headers := Datagram_properties in pret (Some headers)
     else pret None) in
  let! content :=
    (if odt_is_status msg_type then
       let! status_raw := get_vi in
       let! status := lift (ObjectStatus_try_from status_raw) in
       pret (None, Some status)
     else let! payload := take_rest in pret (Some payload, None)) in
  let payload := fst content in
  let object_status := snd content in
  let end_of_group := is_end_of_group msg_type in
  if is_some properties &&
     match object_status with Some s => negb (bool_decide (s = OS_Normal)) | None => false end
  then pfail (ProtocolViolation "Datagram::deserialize")
  else pret (mkDatagram track_alias group_id object_id publisher_priority properties payload
               object_status end_of_group).

(** * Lemmas *)

(** ** The type byte *)

Definition odt_rebuild (t : ObjectDatagramType) : result ObjectDatagramType :=
  ObjectDatagramType_from_properties (odt_has_properties t) (is_end_of_group t)
    (is_zero_object_id t) (odt_has_default_priority t) (odt_is_status t).

(** The flags that make a type, all but STATUS with END_OF_GROUP. *)
Lemma odt_from_properties p e z d s :
  (s && e = true /\ exists err, ObjectDatagramType_from_properties p e z d s = Err err) \/
  (s && e = false /\ exists t, ObjectDatagramType_from_properties p e z d s = Ok t /\
     is_u64 (odt_value t) /\ ObjectDatagramType_try_new (odt_value t) = Ok t /\
     odt_has_properties t = p /\ is_end_of_group t = e /\ is_zero_object_id t = z /\
     odt_has_default_priority t = d /\ odt_is_status t = s).
Proof.
  destruct s, e; [left; split; [done|]; destruct p, z, d; eexists; vm_compute; reflexivity|right..];
    (split; [done|]); destruct p, z, d; eexists; (split; [vm_compute; reflexivity|]);
    by vm_compute.
Qed.

Lemma odt_try_new_inv v t : is_u64 v -> ObjectDatagramType_try_new v = Ok t ->
  odt_value t = v /\ odt_rebuild t = Ok t.
Proof.
  intros Hv E. destruct (Z.lt_ge_cases v 256) as [Hlt|Hge].
  - set (P := fun v => match ObjectDatagramType_try_new v with
            | Ok t => (odt_value t =? v) &&
                match odt_rebuild t with Ok t' => bool_decide (t' = t) | _ => false end
            | _ => true end).
    assert (P v = true) as X.
    { apply (small_forall 256 P); [vm_compute; reflexivity|]. unfold is_u64 in *. lia. }
    unfold P in X. rewrite E in X. breflect. split; [done|].
    destruct (odt_rebuild t); try done. f_equal. by eapply bool_decide_eq_true.
  - unfold ObjectDatagramType_try_new in E. rewrite (proj2 (Z.ltb_lt 255 v)) in E by lia. done.
Qed.

Lemma odt_not_both v t : is_u64 v -> ObjectDatagramType_try_new v = Ok t ->
  odt_is_status t && is_end_of_group t = false.
Proof.
  intros Hv E. destruct (odt_try_new_inv v t Hv E) as [_ Hr]. unfold odt_rebuild in Hr.
  destruct (odt_from_properties (odt_has_properties t) (is_end_of_group t) (is_zero_object_id t)
    (odt_has_default_priority t) (odt_is_status t)) as [[_ [? E']]|[? _]]; [congruence|done].
Qed.

Lemma odt_try_new_returns v : returns (ObjectDatagramType_try_new v).
Proof. unfold ObjectDatagramType_try_new. by repeat case_if. Qed.

(** ** The datagram *)

(** A datagram that can be written. *)
Record dg_ready (d : Datagram) : Prop := {
  dgr_alias : is_u64 (dg_track_alias d);
  dgr_group : is_u64 (dg_group_id d);
  dgr_object : is_u64 (dg_object_id d);
  dgr_priority : opt_ok is_u8 (dg_publisher_priority d);
  dgr_properties : op_list_ok (default [] (dg_properties d));
  dgr_payload : opt_ok bytes_ok (dg_payload d);
  dgr_status : forall s, dg_object_status d = Some s -> dg_end_of_group d = false /\
    (s <> OS_Normal -> has_some_property (dg_properties d) = false)
}.

(** What a reader makes of it. *)
Definition dg_wire (d : Datagram) : Datagram :=
  mkDatagram (dg_track_alias d) (dg_group_id d) (dg_object_id d) (dg_publisher_priority d)
    (if has_some_property (dg_properties d)
     then Some (sort_by_key ObjectProperty_type_value (default [] (dg_properties d))) else None)
    match dg_object_status d with Some _ => None | None => Some (default [] (dg_payload d)) end
    (dg_object_status d) (dg_end_of_group d).

Lemma Datagram_properties_block b ps :
  data_ok b -> run_on deserialize_object_properties b = Ok ps -> ps <> [] ->
  decodes Datagram_properties (encode_vi (blen b) ++ b) ps.
Proof.
  intros Hb E Hne. pose proof (blen_u64 _ Hb). unfold Datagram_properties.
  eapply decodes_bind; [auto with wire|]. destruct (Z.eqb_spec (blen b) 0).
  - destruct b; [|ulia]. injection E as <-. done.
  - eapply decodes_bind_nil; [auto with wire|].
    eapply decodes_bind_last; [auto with wire|]. rewrite E. apply decodes_lift.
Qed.

Lemma sort_by_key_nil {A} (key : A -> Z) l : sort_by_key key l = [] -> l = [].
Proof. intros E. apply (f_equal length) in E. rewrite sort_by_key_length in E. by destruct l. Qed.

(** The block of properties, there or not. *)
Lemma dg_properties_field ps : op_list_ok (default [] ps) ->
  exists bs, (if has_some_property ps then
      let? payload_buf := serialize_object_properties (default [] ps) in put_len_bytes payload_buf
    else Ok []) = Ok bs /\ bytes_ok bs /\
  decodes (if has_some_property ps then let! headers := Datagram_properties in pret (Some headers)
           else pret None) bs
    (if has_some_property ps
     then Some (sort_by_key ObjectProperty_type_value (default [] ps)) else None).
Proof.
  intros Hps. destruct (op_list_block _ Hps) as (b&Eb&Hb&Db). rewrite Eb.
  destruct (has_some_property ps) eqn:Eh; [|exists []; by repeat split; auto with wire].
  exists (encode_vi (blen b) ++ b). simpl. rewrite put_len_bytes_Ok by done.
  pose proof (blen_u64 _ Hb). split; [done|]. split; [bytes_parts|].
  eapply decodes_bind_last; [|apply decodes_ret]. apply Datagram_properties_block; [done..|].
  intros E%sort_by_key_nil. by destruct ps as [[|]|].
Qed.

(** The reader, once the bytes of the five leading fields are known. *)
Lemma Datagram_reads d t ps :
  dg_ready d ->
  ObjectDatagramType_try_new (odt_value t) = Ok t -> is_u64 (odt_value t) ->
  odt_has_properties t = has_some_property (dg_properties d) ->
  is_end_of_group t = dg_end_of_group d -> is_zero_object_id t = (dg_object_id d =? 0) ->
  odt_has_default_priority t = is_none (dg_publisher_priority d) ->
  odt_is_status t = is_some (dg_object_status d) ->
  decodes (if has_some_property (dg_properties d)
           then let! headers := Datagram_properties in pret (Some headers) else pret None) ps
    (if has_some_property (dg_properties d)
     then Some (sort_by_key ObjectProperty_type_value (default [] (dg_properties d))) else None) ->
  Datagram_deserialize
    (encode_vi (odt_value t) ++ encode_vi (dg_track_alias d) ++ encode_vi (dg_group_id d) ++
     (if negb (is_zero_object_id t) then encode_vi (dg_object_id d) else []) ++
     (if negb (odt_has_default_priority t) then [default 0 (dg_publisher_priority d)] else []) ++
     ps ++ match dg_object_status d with
           | Some s => encode_vi (ObjectStatus_to_u64 s) | None => default [] (dg_payload d) end)
  = (Ok (dg_wire d), []).
Proof.
  intros [Ha Hg Ho Hp Hps Hpl Hst] Et Hu Fp Fe Fz Fd Fs Dps. unfold Datagram_deserialize.
  eapply decodes_step; [by apply encode_vi_decodes|].
  eapply decodes_step_nil; [rewrite Et; apply decodes_lift|].
  do 2 (eapply decodes_step; [by apply encode_vi_decodes|]).
  rewrite Fz, Fd, Fp, Fs, Fe.
  eapply (decodes_step _ _ _ _ (dg_object_id d)).
  { destruct (Z.eqb_spec (dg_object_id d) 0) as [->|]; [apply decodes_ret|by apply encode_vi_decodes]. }
  eapply (decodes_step _ _ _ _ (dg_publisher_priority d)).
  { destruct (dg_publisher_priority d) as [p|]; [|apply decodes_ret].
    eapply decodes_bind_last; [apply decodes_u8_checked|apply decodes_ret]. }
  eapply decodes_step; [exact Dps|]. unfold dg_wire.
  destruct (dg_object_status d) as [s|] eqn:Es; cbn [is_some is_none negb].
  - rewrite <- (app_nil_r (encode_vi _)). eapply (decodes_step _ _ _ _ (None, Some s)).
    { eapply decodes_bind_last; [apply encode_vi_decodes, ObjectStatus_u64|].
      eapply decodes_bind_nil; [apply decodes_ObjectStatus|apply decodes_ret]. }
    simpl. destruct (Hst s eq_refl) as [He Hn].
    destruct (has_some_property (dg_properties d)); simpl; [|done].
    case_bool_decide; [done|]. by specialize (Hn H).
  - unfold pbind, take_rest, pret. cbn [fst snd]. by rewrite andb_false_r.
Qed.

Lemma Datagram_transmits d : dg_ready d ->
  exists bs, Datagram_serialize d = Ok bs /\ bytes_ok bs /\ Datagram_deserialize bs = (Ok (dg_wire d), []).
Proof.
  intros Hr. pose proof Hr as [Ha Hg Ho Hp Hps Hpl Hst]. unfold Datagram_serialize.
  destruct (odt_from_properties (has_some_property (dg_properties d)) (dg_end_of_group d)
    (dg_object_id d =? 0) (is_none (dg_publisher_priority d)) (is_some (dg_object_status d)))
    as [[B _]|(_&t&->&Hu&Et&Fp&Fe&Fz&Fd&Fs)].
  { destruct (dg_object_status d) as [s|]; [|done]. destruct (Hst s eq_refl) as [He _].
    by rewrite He in B. }
  destruct (dg_properties_field _ Hps) as (ps&->&Hpb&Dps). cbn [obind].
  pose proof (Datagram_reads d t ps Hr Et Hu Fp Fe Fz Fd Fs Dps) as D.
  assert ((if negb (is_zero_object_id t) then put_vi (dg_object_id d) else Ok []) =
    Ok (if negb (is_zero_object_id t) then encode_vi (dg_object_id d) else [])) as ->
    by (case_if; [by apply put_vi_Ok|done]).
  assert (match dg_object_status d with Some status => put_vi (ObjectStatus_to_u64 status)
     | None => Ok (default [] (dg_payload d)) end =
    Ok match dg_object_status d with Some s => encode_vi (ObjectStatus_to_u64 s)
       | None => default [] (dg_payload d) end) as ->
    by (destruct (dg_object_status d); [by apply put_vi_Ok, ObjectStatus_u64|done]).
  ser. eexists. split; [done|]. split; [|exact D].
  bytes_parts.
  - destruct (is_zero_object_id t); simpl; auto with wire.
  - rewrite Fd. destruct (dg_publisher_priority d); simpl; auto with wire.
  - destruct (dg_object_status d); [apply encode_vi_ok, ObjectStatus_u64|].
    by destruct (dg_payload d); [|apply bytes_ok_nil].
Qed.

(** The datagrams a reader makes. *)
Record dg_read (d : Datagram) : Prop := {
  dgd_alias : is_u64 (dg_track_alias d);
  dgd_group : is_u64 (dg_group_id d);
  dgd_object : is_u64 (dg_object_id d);
  dgd_priority : opt_ok is_u8 (dg_publisher_priority d);
  dgd_properties : match dg_properties d with
    | Some ps => Forall op_ok ps /\ StronglySorted (key_le ObjectProperty_type_value) ps
    | None => True end;
  dgd_content : match dg_payload d, dg_object_status d with
    | Some p, None => bytes_ok p
    | None, Some s => dg_end_of_group d = false /\ (s <> OS_Normal -> dg_properties d = None)
    | _, _ => False end
}.

Lemma Datagram_properties_robust : robust 1 Datagram_properties
  (fun ps => Forall op_ok ps /\ StronglySorted (key_le ObjectProperty_type_value) ps).
Proof.
  unfold Datagram_properties. robust_step. robust_step; [robust_step|].
  robust_step. robust_step. destruct_and!. robust_step. done.
Qed.

Lemma take_rest_robust : robust 0 take_rest bytes_ok.
Proof. intros bs Hbs. unfold take_rest. split; [by exists bs; rewrite app_nil_r|]. split; [simpl; lia|done]. Qed.

Lemma Datagram_robust : robust 1 Datagram_deserialize dg_read.
Proof.
  unfold Datagram_deserialize. apply robust_bind_l with is_u64; [apply get_vi_robust|]. intros v Hv.
  apply robust_bind_l with (fun t => odt_is_status t && is_end_of_group t = false).
  { apply robust_lift; [apply odt_try_new_returns|]. intros t E. by eapply odt_not_both. }
  intros t Ht. robust_step. robust_step.
  apply robust_bind_l with is_u64.
  { destruct (is_zero_object_id t); cbn; robust_go; auto with wire. }
  intros o Ho. apply robust_bind_l with (opt_ok is_u8).
  { destruct (odt_has_default_priority t); cbn; robust_go; done. }
  intros p Hp. apply robust_bind_l with (fun ps => match ps with
    | Some ps => Forall op_ok ps /\ StronglySorted (key_le ObjectProperty_type_value) ps
    | None => True end).
  { destruct (odt_has_properties t); [|by apply robust_ret].
    eapply robust_bind_any; [apply Datagram_properties_robust|lia|]. intros ps Hps. by apply robust_ret. }
  intros ps Hps. apply robust_bind_l with (fun c => match fst c, snd c with
    | Some p, None => bytes_ok p /\ odt_is_status t = false
    | None, Some s => odt_is_status t = true
    | _, _ => False end).
  { destruct (odt_is_status t).
    - robust_step. eapply (robust_bind_any 0 0); [apply robust_ObjectStatus|lia|].
      intros st _. by apply robust_ret.
    - eapply robust_bind_l; [apply take_rest_robust|]. intros b Hb. by apply robust_ret. }
  intros [[pl|] [st|]] Hc; simpl in Hc; try done; cbn [fst snd].
  - rewrite andb_false_r. apply robust_ret. destruct Hc. by split.
  - rewrite Hc in Ht. simpl in Ht.
    destruct ps as [ps|]; simpl; [case_bool_decide|]; robust_go; by split.
Qed.

(** * Properties *)

(** Object datagrams survive the wire.  A datagram is written and read
    back, from a buffer of its own, with its properties in canonical order and
    an empty list of them as none; one that would set STATUS together with
    END_OF_GROUP is refused; every datagram is read without a panic, giving
    either a payload or a status, no END_OF_GROUP with a status, and no
    properties with a status other than Normal; and what was read is written
    and read back unchanged. *)
Theorem datagram_roundtrip d bs :
  dg_ready d -> bytes_ok bs ->
  (exists enc, Datagram_serialize d = Ok enc /\ bytes_ok enc /\
     Datagram_deserialize enc = (Ok (dg_wire d), [])) /\
  (forall s, exists e, Datagram_serialize
     (mkDatagram (dg_track_alias d) (dg_group_id d) (dg_object_id d) (dg_publisher_priority d)
        (dg_properties d) (dg_payload d) (Some s) true) = Err e) /\
  match Datagram_deserialize bs with
  | (Ok d', _) => dg_read d' /\
      ((forall b, serialize_object_properties (default [] (dg_properties d')) = Ok b -> blen b < U64) ->
       dg_properties d' <> Some [] ->
       exists enc, Datagram_serialize d' = Ok enc /\ Datagram_deserialize enc = (Ok d', []))
  | (Err _, _) => True
  | _ => False
  end.
Proof.
  intros Hr Hbs. split; [|split].
  - destruct (Datagram_transmits d Hr) as (enc&?&?&?). eauto.
  - intros s. unfold Datagram_serialize. cbn [dg_properties dg_end_of_group dg_object_status
      dg_object_id dg_publisher_priority is_some is_none negb].
    match goal with |- context [ObjectDatagramType_from_properties ?p ?e ?z ?d ?s] =>
      destruct (odt_from_properties p e z d s) as [[_ [err ->]]|[? _]]; [simpl; eauto|done] end.
  - pose proof (Datagram_robust bs Hbs) as R.
    destruct (Datagram_deserialize bs) as [[d'|e| |] r]; try done. destruct R as (_&_&Hd).
    split; [done|]. intros Hlen Hnil. destruct Hd as [Ha Hg Ho Hp Hps Hc].
    assert (dg_ready d') as Hr'.
    { split; try done.
      - split; [|done]. by destruct (dg_properties d') as [ps|]; [destruct Hps|constructor].
      - by destruct (dg_payload d'), (dg_object_status d').
      - intros s Es. rewrite Es in Hc. destruct (dg_payload d'); [done|].
        destruct Hc as [? Hn]. split; [done|]. intros Hs. by rewrite (Hn Hs). }
    destruct (Datagram_transmits d' Hr') as (enc&E&_&D). exists enc. split; [done|].
    rewrite D. do 2 f_equal. destruct d' as [al g o p ps pl st eg]. unfold dg_wire.
    cbn -[sort_by_key op_ok] in *.
    f_equal; [|by destruct pl, st].
    destruct ps as [[|x ps]|]; [done| |done]. cbn -[sort_by_key].
    by rewrite (sort_by_key_id _ _ (proj2 Hps)).
Qed.

Lemma datagram_roundtrip_witness :
  let d := new_payload 1 2 0 (Some 5) (Some [OP_PriorObjectIdGap 0]) [9; 9] true in
  exists enc, Datagram_serialize d = Ok enc /\ bytes_ok enc /\
    Datagram_deserialize enc = (Ok (dg_wire d), []).
Proof.
  intros d. refine (proj1 (datagram_roundtrip d [] _ _)); [|constructor].
  split; simpl; unfold is_u64, is_u8; try lia.
  - split; [repeat constructor; unfold is_u64; simpl; lia|].
    intros b E. vm_compute in E. injection E as <-. reflexivity.
  - repeat constructor; lia.
  - discriminate.
Defined.
