(* ===== verification/FetchObject.v ===== *)
(** Fetch streams: the header, the objects and the End of Range markers
    ([libs/moqtail-rs/src/model/data/{fetch_header,fetch_object}.rs]).

    Each entry after the header is written as differences from the one before
    it; [FetchObjectContext] is what of that one matters. *)
From S2P Require Import Prelude Varint Pair Codes Properties Subgroup.

(** * The header ([data/fetch_header.rs]) *)

Record FetchHeader := mkFetchHeader { fh_request_id : Z }.

Definition FetchHeaderType_Type0x05 : Z := 0x05.

Definition FetchHeader_serialize (self : FetchHeader) : result bytes :=
  let? ty := put_vi FetchHeaderType_Type0x05 in
  let? id := put_vi (fh_request_id self) in
  Ok (ty ++ id).

(** [let _ = p;]: the outcome is dropped, an error included. *)
Definition ignore {A} (p : parser A) : parser unit :=
  fun bs => match p bs with
            | (Ok _, r) | (Err _, r) => (Ok tt, r)
            | (Panic, r) => (Panic, r)
            | (Diverge, r) => (Diverge, r)
            end.

Definition FetchHeader_deserialize : parser FetchHeader :=
  let! _ := ignore get_vi in
  let! request_id := get_vi in
  pret (mkFetchHeader request_id).

(** * Entries ([data/fetch_object.rs]) *)

Definition FLAG_SUBGROUP_MODE_MASK : Z := 0x03.
Definition FLAG_OBJECT_ID_PRESENT : Z := 0x04.
Definition FLAG_GROUP_ID_PRESENT : Z := 0x08.
Definition FLAG_PRIORITY_PRESENT : Z := 0x10.
Definition FLAG_PROPERTIES_PRESENT : Z := 0x20.
Definition FLAG_DATAGRAM : Z := 0x40.

Definition SUBGROUP_MODE_ZERO : Z := 0.
Definition SUBGROUP_MODE_PRIOR : Z := 1.
Definition SUBGROUP_MODE_PRIOR_PLUS_ONE : Z := 2.
Definition SUBGROUP_MODE_PRESENT : Z := 3.

Definition END_OF_NON_EXISTENT_RANGE : Z := 0x8C.
Definition END_OF_UNKNOWN_RANGE : Z := 0x10C.
Definition END_OF_TIMED_OUT_RANGE : Z := 0x20C.

Record FetchObjectContext := mkFetchObjectContext {
  fc_group_id : Z;
  fc_subgroup_id : option Z;
  fc_object_id : Z;
  fc_publisher_priority : option Z
}.

Inductive EndOfRangeKind : Type :=
| ERK_NonExistent
| ERK_Unknown
| ERK_TimedOut.

#[export] Instance EndOfRangeKind_eq_dec : EqDecision EndOfRangeKind.
Proof. solve_decision. Defined.

Definition as_flag_value (self : EndOfRangeKind) : Z :=
  match self with
  | ERK_NonExistent => END_OF_NON_EXISTENT_RANGE
  | ERK_Unknown => END_OF_UNKNOWN_RANGE
  | ERK_TimedOut => END_OF_TIMED_OUT_RANGE
  end.

Record FetchObjectPayload := mkFetchObjectPayload {
  fp_group_id : Z;
  fp_subgroup_id : Z;
  fp_object_id : Z;
  fp_publisher_priority : Z;
  fp_forwarding_preference : ObjectForwardingPreference;
  fp_properties : option (list ObjectProperty);
  fp_payload : bytes
}.

Inductive FetchObject : Type :=
| FO_Object (p : FetchObjectPayload)
| FO_EndOfRange (kind : EndOfRangeKind) (group_id object_id : Z).

Definition next_context (self : FetchObject) (prev : option FetchObjectContext) : FetchObjectContext :=
  match self with
  | FO_Object p =>
      mkFetchObjectContext (fp_group_id p) (Some (fp_subgroup_id p)) (fp_object_id p)
        (Some (fp_publisher_priority p))
  | FO_EndOfRange _ group_id object_id =>
      mkFetchObjectContext group_id (prev ≫= fc_subgroup_id) object_id (prev ≫= fc_publisher_priority)
  end.

Section WithTarget.
Context `{Target}.

(** ** Writing *)

Definition group_delta_of (p : FetchObjectPayload) (prev : option FetchObjectContext)
    (group_order : GroupOrder) : result (option Z) :=
  match prev with
  | None => Ok (Some (fp_group_id p))
  | Some pc =>
      if fc_group_id pc =? fp_group_id p then Ok None
      else
        let delta :=
          match group_order with
          | GO_Descending =>
              checked_sub (fc_group_id pc) (fp_group_id p) ≫= fun d => checked_sub d 1
          | GO_Ascending | GO_Original =>
              checked_sub (fp_group_id p) (fc_group_id pc) ≫= fun d => checked_sub d 1
          end in
        let? delta := ok_or delta (ProtocolViolation "FetchObject::serialize") in
        Ok (Some delta)
  end.

Definition object_delta_of (p : FetchObjectPayload) (prev : option FetchObjectContext)
    (group_delta : option Z) : result (option Z) :=
  match prev with
  | None => Ok (Some (fp_object_id p))
  | Some pc =>
      if is_some group_delta then Ok (Some (fp_object_id p))
      else
        let? next := add_u64 (fc_object_id pc) 1 in
        if next =? fp_object_id p then Ok None
        else
          let? d := ok_or (checked_sub (fp_object_id p) (fc_object_id pc))
                      (ProtocolViolation "FetchObject::serialize") in
          Ok (Some d)
  end.

Definition subgroup_mode_of (p : FetchObjectPayload) (prev : option FetchObjectContext) : result Z :=
  let is_datagram := bool_decide (fp_forwarding_preference p = OFP_Datagram) in
  if is_datagram || (fp_subgroup_id p =? 0) then Ok SUBGROUP_MODE_ZERO
  else
    match prev with
    | Some pc =>
        match fc_subgroup_id pc with
        | Some s =>
            if s =? fp_subgroup_id p then Ok SUBGROUP_MODE_PRIOR
            else
              let? next := add_u64 s 1 in
              if next =? fp_subgroup_id p then Ok SUBGROUP_MODE_PRIOR_PLUS_ONE
              else Ok SUBGROUP_MODE_PRESENT
        | None => Ok SUBGROUP_MODE_PRESENT
        end
    | None => Ok SUBGROUP_MODE_PRESENT
    end.

Definition has_priority_of (p : FetchObjectPayload) (prev : option FetchObjectContext) : bool :=
  match prev with
  | Some pc => negb (bool_decide (fc_publisher_priority pc = Some (fp_publisher_priority p)))
  | None => true
  end.

Definition has_some (properties : option (list ObjectProperty)) : bool :=
  match properties with Some (_ :: _) => true | _ => false end.

(** [if let Some(delta) = delta { buf.put_vi(delta)? }]. *)
Definition put_opt_vi (o : option Z) : result bytes :=
  match o with Some v => put_vi v | None => Ok [] end.

Definition serialize_payload (p : FetchObjectPayload) (prev : option FetchObjectContext)
    (group_order : GroupOrder) : result bytes :=
  let is_datagram := bool_decide (fp_forwarding_preference p = OFP_Datagram) in
  let? group_delta := group_delta_of p prev group_order in
  let? object_delta := object_delta_of p prev group_delta in
  let has_priority := has_priority_of p prev in
  let has_properties := has_some (fp_properties p) in
  let? subgroup_mode := subgroup_mode_of p prev in
  let flags := Z.land subgroup_mode FLAG_SUBGROUP_MODE_MASK in
  let flags := set_if (is_some object_delta) FLAG_OBJECT_ID_PRESENT flags in
  let flags := set_if (is_some group_delta) FLAG_GROUP_ID_PRESENT flags in
  let flags := set_if has_priority FLAG_PRIORITY_PRESENT flags in
  let flags := set_if has_properties FLAG_PROPERTIES_PRESENT flags in
  let flags := set_if is_datagram FLAG_DATAGRAM flags in
  let? fl := put_vi flags in
  let? gd := put_opt_vi group_delta in
  let? sg := if negb is_datagram && (subgroup_mode =? SUBGROUP_MODE_PRESENT)
             then put_vi (fp_subgroup_id p) else Ok [] in
  let? od := put_opt_vi object_delta in
  let pr := if has_priority then [fp_publisher_priority p] else [] in
  let? ps := if has_properties then
               let? ext_buf := serialize_object_properties (default [] (fp_properties p)) in
               put_len_bytes ext_buf
             else Ok [] in
  let? pl := put_len_bytes (fp_payload p) in
  Ok (fl ++ gd ++ sg ++ od ++ pr ++ ps ++ pl).

Definition FetchObject_serialize (self : FetchObject) (prev : option FetchObjectContext)
    (group_order : GroupOrder) : result bytes :=
  match self with
  | FO_EndOfRange kind group_id object_id =>
      let? fl := put_vi (as_flag_value kind) in
      let? gr := put_vi group_id in
      let? ob := put_vi object_id in
      Ok (fl ++ gr ++ ob)
  | FO_Object p => serialize_payload p prev group_order
  end.

(** ** Reading *)

Definition PV : ParseError := ProtocolViolation "FetchObject::deserialize".

Definition read_end_of_range (flags_raw : Z) : parser FetchObject :=
  let! kind :=
    (if flags_raw =? END_OF_NON_EXISTENT_RANGE then pret ERK_NonExistent
     else if flags_raw =? END_OF_UNKNOWN_RANGE then pret ERK_Unknown
     else if flags_raw =? END_OF_TIMED_OUT_RANGE then pret ERK_TimedOut
     else pfail PV) in
  let! group_id := get_vi in
  let! object_id := get_vi in
  pret (FO_EndOfRange kind group_id object_id).

(** The first entry of a stream may not refer to a prior one. *)
Definition check_first (prev : option FetchObjectContext)
    (has_object_id has_group_id has_priority is_datagram : bool) (subgroup_mode : Z) : result unit :=
  match prev with
  | Some _ => Ok tt
  | None =>
      if negb has_object_id || negb has_group_id || negb has_priority then Err PV
      else if negb is_datagram &&
              ((subgroup_mode =? SUBGROUP_MODE_PRIOR) ||
               (subgroup_mode =? SUBGROUP_MODE_PRIOR_PLUS_ONE)) then Err PV
      else Ok tt
  end.

Definition read_group_id (prev : option FetchObjectContext) (group_order : GroupOrder)
    (has_group_id : bool) : parser Z :=
  if has_group_id then
    let! delta := get_vi in
    match prev with
    | None => pret delta
    | Some pc =>
        let computed :=
          match group_order with
          | GO_Descending => checked_add delta 1 ≫= fun step => checked_sub (fc_group_id pc) step
          | GO_Ascending | GO_Original =>
              checked_add (fc_group_id pc) delta ≫= fun v => checked_add v 1
          end in
        lift (ok_or computed PV)
    end
  else lift (let? pc := ok_or prev PV in Ok (fc_group_id pc)).

Definition read_subgroup_id (prev : option FetchObjectContext) (is_datagram : bool)
    (subgroup_mode : Z) : parser Z :=
  if is_datagram then pret 0
  else if subgroup_mode =? SUBGROUP_MODE_ZERO then pret 0
  else if subgroup_mode =? SUBGROUP_MODE_PRIOR then lift (ok_or (prev ≫= fc_subgroup_id) PV)
  else if subgroup_mode =? SUBGROUP_MODE_PRIOR_PLUS_ONE then
    lift (let? s := ok_or (prev ≫= fc_subgroup_id) PV in add_u64 s 1)
  else if subgroup_mode =? SUBGROUP_MODE_PRESENT then get_vi
  else ppanic.

Definition read_object_id (prev : option FetchObjectContext) (has_object_id has_group_id : bool)
    : parser Z :=
  if has_object_id then
    let! delta := get_vi in
    match prev with
    | None => pret delta
    | Some pc =>
        if has_group_id then pret delta
        else lift (ok_or (checked_add (fc_object_id pc) delta) PV)
    end
  else
    lift (let? pc := ok_or prev PV in ok_or (checked_add (fc_object_id pc) 1) PV).

Definition read_priority (prev : option FetchObjectContext) (has_priority : bool) : parser Z :=
  if has_priority then get_u8_checked "FetchObject::deserialize(priority)"
  else lift (ok_or (prev ≫= fc_publisher_priority) PV).

Definition read_properties (has_properties : bool) : parser (option (list ObjectProperty)) :=
  if has_properties then
    let! header_bytes :=
      get_len_bytes "FetchObject::deserialize(ext_len)" "FetchObject::deserialize(properties)" in
    let! headers :=
      lift (omap_err (fun _ => ProtocolViolation "FetchObject::deserialize(properties)")
              (run_on deserialize_object_properties header_bytes)) in
    pret (Some headers)
  else pret None.

Definition FetchObject_deserialize (prev : option FetchObjectContext) (group_order : GroupOrder)
    : parser FetchObject :=
  let! flags_raw := get_vi in
  if 128 <=? flags_raw then read_end_of_range flags_raw
  else
    let flags := flags_raw in
    let subgroup_mode := Z.land flags FLAG_SUBGROUP_MODE_MASK in
    let has_object_id := has_bits flags FLAG_OBJECT_ID_PRESENT in
    let has_group_id := has_bits flags FLAG_GROUP_ID_PRESENT in
    let has_priority := has_bits flags FLAG_PRIORITY_PRESENT in
    let has_properties := has_bits flags FLAG_PROPERTIES_PRESENT in
    let is_datagram := has_bits flags FLAG_DATAGRAM in
    let! _ := lift (check_first prev has_object_id has_group_id has_priority is_datagram subgroup_mode) in
    let! group_id := read_group_id prev group_order has_group_id in
    let! subgroup_id := read_subgroup_id prev is_datagram subgroup_mode in
    let! object_id := read_object_id prev has_object_id has_group_id in
    let! publisher_priority := read_priority prev has_priority in
    let! properties := read_properties has_properties in
    let! payload :=
      get_len_bytes "FetchObject::deserialize(payload_len)" "FetchObject::deserialize(payload)" in
    let forwarding_preference := if is_datagram then OFP_Datagram else OFP_Subgroup in
    let subgroup_id := if is_datagram then object_id else subgroup_id in
    pret (FO_Object (mkFetchObjectPayload group_id subgroup_id object_id publisher_priority
                       forwarding_preference properties payload)).

End WithTarget.

(** * Lemmas *)

(** ** Flags *)

Definition flags_of (mode : Z) (object group priority properties datagram : bool) : Z :=
  set_if datagram FLAG_DATAGRAM (set_if properties FLAG_PROPERTIES_PRESENT
    (set_if priority FLAG_PRIORITY_PRESENT (set_if group FLAG_GROUP_ID_PRESENT
      (set_if object FLAG_OBJECT_ID_PRESENT (Z.land mode FLAG_SUBGROUP_MODE_MASK))))).

Lemma flags_of_read mode o g p x d : 0 <= mode <= 3 ->
  let f := flags_of mode o g p x d in
  0 <= f < 128 /\ Z.land f FLAG_SUBGROUP_MODE_MASK = mode /\
  has_bits f FLAG_OBJECT_ID_PRESENT = o /\ has_bits f FLAG_GROUP_ID_PRESENT = g /\
  has_bits f FLAG_PRIORITY_PRESENT = p /\ has_bits f FLAG_PROPERTIES_PRESENT = x /\
  has_bits f FLAG_DATAGRAM = d.
Proof.
  intros H. assert (mode = 0 \/ mode = 1 \/ mode = 2 \/ mode = 3) as [-> | [-> | [-> | ->]]] by lia;
    destruct o, g, p, x, d; vm_compute; by repeat split.
Qed.

Lemma land_mode f : 0 <= f -> 0 <= Z.land f FLAG_SUBGROUP_MODE_MASK <= 3.
Proof.
  intros Hf. change FLAG_SUBGROUP_MODE_MASK with (Z.ones 2). rewrite Z.land_ones by lia.
  pose proof (Z.mod_pos_bound f (2 ^ 2) ltac:(lia)). lia.
Qed.

(** ** Contexts and entries *)

Record ctx_ok (c : FetchObjectContext) : Prop := {
  ctx_group : is_u64 (fc_group_id c);
  ctx_subgroup : opt_ok is_u64 (fc_subgroup_id c);
  ctx_object : is_u64 (fc_object_id c);
  ctx_priority : opt_ok is_u8 (fc_publisher_priority c)
}.

Definition is_dg (p : FetchObjectPayload) : bool :=
  bool_decide (fp_forwarding_preference p = OFP_Datagram).

(** The fields in range. *)
Record fp_fields (p : FetchObjectPayload) : Prop := {
  fpf_group : is_u64 (fp_group_id p);
  fpf_subgroup : is_u64 (fp_subgroup_id p);
  fpf_object : is_u64 (fp_object_id p);
  fpf_priority : is_u8 (fp_publisher_priority p);
  fpf_properties : op_list_ok (default [] (fp_properties p));
  fpf_payload : data_ok (fp_payload p)
}.

(** The group comes after the prior one in the order of the stream. *)
Definition group_follows (order : GroupOrder) (prior group : Z) : Prop :=
  match order with
  | GO_Descending => group < prior
  | GO_Ascending | GO_Original => prior < group
  end.

(** The object comes after the prior entry: a later group, or the same group
    and no smaller Object ID. *)
Definition follows (order : GroupOrder) (prev : option FetchObjectContext) (p : FetchObjectPayload) : Prop :=
  forall pc, prev = Some pc ->
  group_follows order (fc_group_id pc) (fp_group_id p) \/
  fc_group_id pc = fp_group_id p /\ fc_object_id pc <= fp_object_id p.

(** What a reader makes of an object: a datagram's Subgroup ID is its Object
    ID, and the properties are in canonical order. *)
Definition fp_wire (p : FetchObjectPayload) : FetchObjectPayload :=
  mkFetchObjectPayload (fp_group_id p) (if is_dg p then fp_object_id p else fp_subgroup_id p)
    (fp_object_id p) (fp_publisher_priority p) (fp_forwarding_preference p)
    (if has_some (fp_properties p)
     then Some (sort_by_key ObjectProperty_type_value (default [] (fp_properties p))) else None)
    (fp_payload p).

Section WithTarget.
Context `{Target}.

(** The two additions of the writer stay within 64 bits, or are not checked. *)
Definition writes_safely (prev : option FetchObjectContext) (p : FetchObjectPayload) : Prop :=
  overflow_checks = true -> forall pc, prev = Some pc ->
  (fc_group_id pc = fp_group_id p -> fc_object_id pc < U64_MAX) /\
  (is_dg p = false -> fp_subgroup_id p <> 0 -> fp_subgroup_id p <> U64_MAX ->
   fc_subgroup_id pc <> Some U64_MAX).

Lemma add_one_cases a : is_u64 a ->
  a < U64_MAX /\ add_u64 (E:=ParseError) a 1 = Ok (a + 1) \/
  a = U64_MAX /\ overflow_checks = true /\ add_u64 (E:=ParseError) a 1 = Panic \/
  a = U64_MAX /\ overflow_checks = false /\ add_u64 (E:=ParseError) a 1 = Ok 0.
Proof.
  intros Ha. unfold add_u64, arith_u64, is_u64 in *. destruct (Z.lt_ge_cases a U64_MAX).
  - left. split; [done|]. rewrite bool_decide_eq_true_2; [done|lia].
  - right. assert (a = U64_MAX) as -> by lia. rewrite bool_decide_eq_false_2 by lia.
    destruct overflow_checks; [left|right]; by repeat split.
Qed.

(** Each field is read back from what was written of it. *)
Lemma group_field p prev order :
  fp_fields p -> opt_ok ctx_ok prev -> follows order prev p ->
  exists d bs, group_delta_of p prev order = Ok d /\ put_opt_vi d = Ok bs /\ bytes_ok bs /\
    decodes (read_group_id prev order (is_some d)) bs (fp_group_id p) /\
    (prev = None -> is_some d = true) /\
    (forall pc, prev = Some pc -> is_some d = negb (fc_group_id pc =? fp_group_id p)).
Proof.
  intros [Hg _ _ _ _ _] Hc Hf. destruct prev as [pc|].
  - destruct Hc as [Hcg _ _ _]. specialize (Hf pc eq_refl). unfold group_delta_of.
    destruct (Z.eqb_spec (fc_group_id pc) (fp_group_id p)) as [E|Ne].
    { exists None, []. rewrite <- E. repeat split; auto with wire; try done.
      intros ? [= <-]. by rewrite E, Z.eqb_refl. }
    destruct Hf as [Hf|[? _]]; [|done].
    assert (exists d, is_u64 d /\ (match order with
       | GO_Descending => checked_sub (fc_group_id pc) (fp_group_id p) ≫= (fun d => checked_sub d 1)
       | _ => checked_sub (fp_group_id p) (fc_group_id pc) ≫= (fun d => checked_sub d 1) end) = Some d /\
       (match order with
       | GO_Descending => checked_add d 1 ≫= fun step => checked_sub (fc_group_id pc) step
       | _ => checked_add (fc_group_id pc) d ≫= fun v => checked_add v 1 end) = Some (fp_group_id p))
      as (d&Hd&E1&E2).
    { unfold is_u64, checked_sub, checked_add in *. destruct order; simpl in Hf;
        [exists (fp_group_id p - fc_group_id pc - 1)|exists (fp_group_id p - fc_group_id pc - 1)
        |exists (fc_group_id pc - fp_group_id p - 1)]; (split; [lia|]);
        repeat (case_match; breflect; simplify_eq/=; try lia); split; f_equal; lia. }
    exists (Some d), (encode_vi d). repeat split.
    + destruct order; rewrite E1; done.
    + by apply put_vi_Ok.
    + auto with wire.
    + unfold read_group_id. cbn [is_some is_none negb]. eapply decodes_bind_last; [auto with wire|].
      destruct order; rewrite E2; apply decodes_lift.
    + intros ? [= <-]. by destruct (Z.eqb_spec (fc_group_id pc) (fp_group_id p)).
  - exists (Some (fp_group_id p)), (encode_vi (fp_group_id p)). repeat split; try done.
    + by apply put_vi_Ok.
    + auto with wire.
    + unfold read_group_id. cbn [is_some is_none negb]. eapply decodes_bind_last; [auto with wire|apply decodes_ret].
Qed.

Lemma object_field p prev order gd :
  fp_fields p -> opt_ok ctx_ok prev -> follows order prev p -> writes_safely prev p ->
  (prev = None -> is_some gd = true) ->
  (forall pc, prev = Some pc -> is_some gd = negb (fc_group_id pc =? fp_group_id p)) ->
  exists d bs, object_delta_of p prev gd = Ok d /\ put_opt_vi d = Ok bs /\ bytes_ok bs /\
    decodes (read_object_id prev (is_some d) (is_some gd)) bs (fp_object_id p) /\
    (prev = None -> is_some d = true).
Proof.
  intros [Hg _ Ho _ _ _] Hc Hf Hs Hgd Hgd'.
  assert (forall d, is_u64 d -> put_opt_vi (Some d) = Ok (encode_vi d)) as Hput
    by (intros; by apply put_vi_Ok).
  destruct prev as [pc|].
  2:{ exists (Some (fp_object_id p)), (encode_vi (fp_object_id p)). repeat split; auto with wire.
      unfold read_object_id. eapply decodes_bind_last; [auto with wire|apply decodes_ret]. }
  destruct Hc as [Hcg _ Hco _]. specialize (Hf pc eq_refl). specialize (Hgd' pc eq_refl).
  unfold object_delta_of. destruct (is_some gd) eqn:Egd.
  { exists (Some (fp_object_id p)), (encode_vi (fp_object_id p)). repeat split; auto with wire.
    unfold read_object_id. eapply decodes_bind_last; [auto with wire|apply decodes_ret]. }
  assert (fc_group_id pc = fp_group_id p) as Eg by (apply Z.eqb_eq; by destruct (_ =? _)).
  assert (fc_object_id pc <= fp_object_id p) as Hle.
  { destruct Hf as [Hf|[_ ?]]; [|done]. destruct order; simpl in Hf; lia. }
  assert (exists n, add_u64 (E:=ParseError) (fc_object_id pc) 1 = Ok n /\
    (n = fp_object_id p -> fc_object_id pc + 1 = fp_object_id p)) as (n&->&Hn).
  { destruct (add_one_cases _ Hco) as [[? ->]|[(Em&Hov&_)|(Em&_&->)]]; [eauto| |].
    - destruct (Hs Hov pc eq_refl) as [Hlt _]. specialize (Hlt Eg). lia.
    - exists 0. split; [done|]. unfold is_u64 in *. lia. }
  cbn [obind]. destruct (Z.eqb_spec n (fp_object_id p)) as [E|Ne].
  - specialize (Hn E). exists None, []. repeat split; auto with wire.
    unfold read_object_id. simpl. unfold is_u64 in *.
    rewrite (proj2 (checked_add_Some (fc_object_id pc) 1 (fp_object_id p))) by lia. apply decodes_lift.
  - unfold is_u64 in *. rewrite (proj2 (checked_sub_Some _ _ (fp_object_id p - fc_object_id pc))) by lia.
    simpl. assert (is_u64 (fp_object_id p - fc_object_id pc)) as Hd by ulia.
    exists (Some (fp_object_id p - fc_object_id pc)), (encode_vi (fp_object_id p - fc_object_id pc)).
    repeat split; auto with wire.
    unfold read_object_id. simpl. eapply decodes_bind_last; [auto with wire|].
    rewrite (proj2 (checked_add_Some _ _ (fp_object_id p))) by lia. apply decodes_lift.
Qed.

Lemma subgroup_field p prev :
  fp_fields p -> opt_ok ctx_ok prev -> writes_safely prev p ->
  exists m bs, subgroup_mode_of p prev = Ok m /\ 0 <= m <= 3 /\
    (if negb (is_dg p) && (m =? SUBGROUP_MODE_PRESENT) then put_vi (fp_subgroup_id p) else Ok []) = Ok bs /\
    bytes_ok bs /\
    decodes (read_subgroup_id prev (is_dg p) m) bs (if is_dg p then 0 else fp_subgroup_id p) /\
    (prev = None -> is_dg p = false -> m <> SUBGROUP_MODE_PRIOR /\ m <> SUBGROUP_MODE_PRIOR_PLUS_ONE).
Proof.
  intros [_ Hsg _ _ _ _] Hc Hs. unfold subgroup_mode_of. fold (is_dg p).
  destruct (is_dg p) eqn:Ed; cbn [negb andb orb].
  { exists 0, []. repeat split; auto with wire; done. }
  assert (exists m bs, Ok m = Ok SUBGROUP_MODE_PRESENT :> result Z /\ 0 <= m <= 3 /\
    (if m =? SUBGROUP_MODE_PRESENT then put_vi (fp_subgroup_id p) else Ok []) = Ok bs /\ bytes_ok bs /\
    decodes (read_subgroup_id prev false m) bs (fp_subgroup_id p)) as Hpresent.
  { exists 3, (encode_vi (fp_subgroup_id p)). repeat split; try lia; auto with wire.
    by apply put_vi_Ok. }
  destruct (Z.eqb_spec (fp_subgroup_id p) 0) as [->|Hne].
  { exists 0, []. repeat split; auto with wire; done. }
  destruct prev as [pc|]; [destruct (fc_subgroup_id pc) as [s|] eqn:Es|].
  2,3: destruct Hpresent as (m&bs&Em&?&?&?&?); injection Em as ->; exists SUBGROUP_MODE_PRESENT, bs;
       repeat split; done.
  destruct (Z.eqb_spec s (fp_subgroup_id p)) as [->|Hns].
  { exists SUBGROUP_MODE_PRIOR, []. repeat split; auto with wire; try done.
    unfold read_subgroup_id. simpl. rewrite Es. apply decodes_lift. }
  destruct Hc as [_ Hcs _ _]. rewrite Es in Hcs. simpl in Hcs.
  assert (exists n, add_u64 (E:=ParseError) s 1 = Ok n /\ (n = fp_subgroup_id p -> s + 1 = n)) as (n&->&Hn).
  { destruct (add_one_cases _ Hcs) as [[? ->]|[(->&Hov&_)|(->&_&->)]]; [eauto| |].
    - destruct (Hs Hov pc eq_refl) as [_ Hlt]. by destruct (Hlt Ed Hne (not_eq_sym Hns)).
    - exists 0. split; [done|]. lia. }
  cbn [obind]. destruct (Z.eqb_spec n (fp_subgroup_id p)) as [E|_].
  - specialize (Hn E). exists SUBGROUP_MODE_PRIOR_PLUS_ONE, []. repeat split; auto with wire; try done.
    unfold read_subgroup_id. simpl. rewrite Es. simpl. unfold add_u64. rewrite arith_u64_Ok by ulia.
    replace (s + 1) with (fp_subgroup_id p) by lia. apply decodes_lift.
  - destruct Hpresent as (m&bs&Em&?&?&?&?); injection Em as ->; exists SUBGROUP_MODE_PRESENT, bs;
      repeat split; done.
Qed.

Lemma priority_field p prev : fp_fields p ->
  bytes_ok (if has_priority_of p prev then [fp_publisher_priority p] else []) /\
  decodes (read_priority prev (has_priority_of p prev))
    (if has_priority_of p prev then [fp_publisher_priority p] else []) (fp_publisher_priority p) /\
  (prev = None -> has_priority_of p prev = true).
Proof.
  intros [_ _ _ Hp _ _]. unfold has_priority_of, read_priority. destruct prev as [pc|].
  - case_bool_decide as E; simpl; [rewrite E|]; repeat split; auto with wire; done.
  - repeat split; auto with wire.
Qed.

Lemma properties_field ps : op_list_ok (default [] ps) ->
  exists bs, (if has_some ps then
      let? ext_buf := serialize_object_properties (default [] ps) in put_len_bytes ext_buf
    else Ok []) = Ok bs /\ bytes_ok bs /\
  decodes (read_properties (has_some ps)) bs
    (if has_some ps then Some (sort_by_key ObjectProperty_type_value (default [] ps)) else None).
Proof.
  intros Hps. destruct (op_list_block _ Hps) as (b&Eb&Hb&Db). rewrite Eb.
  destruct (has_some ps) eqn:Eh; [|exists []; by repeat split; auto with wire].
  exists (encode_vi (blen b) ++ b). simpl. rewrite put_len_bytes_Ok by done.
  pose proof (blen_u64 _ Hb). split; [done|]. split; [bytes_parts|].
  unfold read_properties. eapply decodes_bind_last; [by apply decodes_len_bytes|].
  rewrite Db. eapply decodes_bind_nil; [apply decodes_lift|apply decodes_ret].
Qed.

Lemma FetchObject_transmits_payload p prev order :
  fp_fields p -> opt_ok ctx_ok prev -> follows order prev p -> writes_safely prev p ->
  exists bs, serialize_payload p prev order = Ok bs /\ bytes_ok bs /\ bs <> [] /\
    decodes (FetchObject_deserialize prev order) bs (FO_Object (fp_wire p)).
Proof.
  intros Hp Hc Hf Hs.
  destruct (group_field p prev order Hp Hc Hf) as (gd&gb&Eg&Pg&Hgb&Dg&Gn&Gs).
  destruct (object_field p prev order gd Hp Hc Hf Hs Gn Gs) as (od&ob&Eo&Po&Hob&Do&On).
  destruct (subgroup_field p prev Hp Hc Hs) as (m&sb&Em&Hm&Ps&Hsb&Ds&Sn).
  destruct (priority_field p prev Hp) as (Hpb&Dp&Pn).
  destruct (properties_field (fp_properties p) (fpf_properties _ Hp)) as (xb&Ex&Hxb&Dx).
  pose proof (fpf_payload _ Hp) as Hpl. pose proof (blen_u64 _ Hpl).
  unfold serialize_payload. fold (is_dg p). rewrite Eg. cbn [obind]. rewrite Eo. cbn [obind].
  rewrite Em. cbn [obind].
  change (set_if (is_dg p) FLAG_DATAGRAM _) with
    (flags_of m (is_some od) (is_some gd) (has_priority_of p prev) (has_some (fp_properties p)) (is_dg p)).
  destruct (flags_of_read m (is_some od) (is_some gd) (has_priority_of p prev)
    (has_some (fp_properties p)) (is_dg p) Hm) as (Hfl&Fm&Fo&Fg&Fp&Fx&Fd).
  set (f := flags_of _ _ _ _ _ _) in *. assert (is_u64 f) by (unfold is_u64; lia).
  rewrite put_vi_Ok by done. cbn [obind]. rewrite Pg. cbn [obind]. rewrite Ps. cbn [obind].
  rewrite Po. cbn [obind]. rewrite Ex. cbn [obind]. rewrite put_len_bytes_Ok by done. cbn [obind].
  eexists. split; [done|]. split; [bytes_parts|]. split; [auto with wire|].
  unfold FetchObject_deserialize. eapply decodes_bind; [auto with wire|].
  destruct (Z.leb_spec 128 f); [lia|]. rewrite Fm, Fo, Fg, Fp, Fx, Fd.
  eapply (decodes_bind_nil _ _ _ tt).
  { unfold check_first. destruct prev; [apply decodes_lift|]. rewrite Gn, On, Pn by done. simpl.
    destruct (is_dg p); [apply decodes_lift|]. destruct (Sn eq_refl eq_refl).
    destruct (Z.eqb_spec m SUBGROUP_MODE_PRIOR), (Z.eqb_spec m SUBGROUP_MODE_PRIOR_PLUS_ONE); done. }
  do 5 (eapply decodes_bind; [eassumption|]).
  eapply decodes_bind_last; [by apply decodes_len_bytes|].
  unfold fp_wire. replace (if is_dg p then OFP_Datagram else OFP_Subgroup) with (fp_forwarding_preference p).
  - destruct (is_dg p); apply decodes_ret.
  - unfold is_dg. case_bool_decide as E; [done|]. by destruct (fp_forwarding_preference p).
Qed.

(** ** Entries *)

(** An entry that can be written after [prev]. *)
Definition fo_ready (order : GroupOrder) (prev : option FetchObjectContext) (e : FetchObject) : Prop :=
  match e with
  | FO_Object p => fp_fields p /\ follows order prev p /\ writes_safely prev p
  | FO_EndOfRange _ group_id object_id => is_u64 group_id /\ is_u64 object_id
  end.

Definition fo_wire (e : FetchObject) : FetchObject :=
  match e with FO_Object p => FO_Object (fp_wire p) | e => e end.

Lemma FetchObject_transmits e prev order :
  opt_ok ctx_ok prev -> fo_ready order prev e ->
  exists bs, FetchObject_serialize e prev order = Ok bs /\ bytes_ok bs /\ bs <> [] /\
    decodes (FetchObject_deserialize prev order) bs (fo_wire e).
Proof.
  intros Hc He. destruct e as [p|kind g o].
  - destruct He as (?&?&?). by apply FetchObject_transmits_payload.
  - destruct He as [Hg Ho]. unfold FetchObject_serialize.
    assert (is_u64 (as_flag_value kind) /\ 128 <= as_flag_value kind) as [Hk Hge]
      by (destruct kind; vm_compute; by repeat split).
    ser. eexists. split; [done|]. split; [bytes_parts|]. split; [auto with wire|].
    unfold FetchObject_deserialize. eapply decodes_bind; [auto with wire|].
    destruct (Z.leb_spec 128 (as_flag_value kind)); [|lia].
    unfold read_end_of_range. eapply (decodes_bind_nil _ _ _ kind); [by destruct kind|]. decode.
Qed.

(** Writer and reader agree on what the next entry is relative to. *)
Lemma next_context_wire e prev :
  (forall p, e = FO_Object p -> is_dg p = true -> fp_subgroup_id p = fp_object_id p) ->
  next_context (fo_wire e) prev = next_context e prev.
Proof.
  intros He. destruct e as [p|]; [|done]. simpl. unfold fp_wire. simpl.
  destruct (is_dg p) eqn:Ed; [|done]. by rewrite (He p eq_refl Ed).
Qed.

Lemma next_context_ok e prev order :
  opt_ok ctx_ok prev -> fo_ready order prev e -> ctx_ok (next_context e prev).
Proof.
  intros Hc. destruct e as [p|k g o]; simpl.
  - intros ([]&_). by split.
  - intros [Hg Ho]. split; simpl; [done| |done|]; destruct prev as [pc|]; try done; by destruct Hc.
Qed.

(** ** On any buffer *)

(** The objects a reader makes. *)
Record fp_read (p : FetchObjectPayload) : Prop := {
  fpr_group : is_u64 (fp_group_id p);
  fpr_subgroup : is_u64 (fp_subgroup_id p);
  fpr_object : is_u64 (fp_object_id p);
  fpr_priority : is_u8 (fp_publisher_priority p);
  fpr_properties : match fp_properties p with
    | Some ps => Forall op_ok ps /\ StronglySorted (key_le ObjectProperty_type_value) ps
    | None => True end;
  fpr_payload : data_ok (fp_payload p);
  fpr_datagram : is_dg p = true -> fp_subgroup_id p = fp_object_id p
}.

Definition fo_read (order : GroupOrder) (prev : option FetchObjectContext) (e : FetchObject) : Prop :=
  match e with
  | FO_Object p => fp_read p /\ follows order prev p
  | FO_EndOfRange _ group_id object_id => is_u64 group_id /\ is_u64 object_id
  end.

(** The one place where reading can panic. *)
Definition subgroup_overflows (prev : option FetchObjectContext) : Prop :=
  overflow_checks = true /\ prev ≫= fc_subgroup_id = Some U64_MAX.

Lemma read_group_id_robust prev order has : opt_ok ctx_ok prev ->
  robust 0 (read_group_id prev order has) (fun g => is_u64 g /\
    forall pc, prev = Some pc -> if has then group_follows order (fc_group_id pc) g else g = fc_group_id pc).
Proof.
  intros Hc. unfold read_group_id. destruct has.
  - robust_step. destruct prev as [pc|]; [|by apply robust_ret].
    destruct Hc as [Hcg _ _ _]. apply robust_lift.
    + by destruct order; destruct (_ ≫= _).
    + intros g E. destruct order; simpl in E;
        match type of E with ok_or (?o ≫= ?f) _ = _ => destruct o as [v|] eqn:E1; simpl in E; [|done] end;
        match type of E with ok_or ?o _ = _ => destruct o as [v'|] eqn:E2; simpl in E; [|done] end;
        injection E as ->; rewrite ?checked_add_Some, ?checked_sub_Some in *; unfold is_u64 in *;
        (split; [lia|]); intros ? [= <-]; simpl; lia.
  - destruct prev as [pc|]; [|by apply robust_lift]. destruct Hc as [Hcg _ _ _].
    apply robust_lift; [done|]. intros g [= <-]. split; [done|]. by intros ? [= <-].
Qed.

Lemma read_subgroup_id_guarded prev dg f : opt_ok ctx_ok prev -> 0 <= f ->
  guarded (fun _ => subgroup_overflows prev) 0
    (read_subgroup_id prev dg (Z.land f FLAG_SUBGROUP_MODE_MASK)) is_u64.
Proof.
  intros Hc Hf. pose proof (land_mode f Hf) as Hm. unfold read_subgroup_id.
  assert (is_u64 0) by (unfold is_u64; lia).
  destruct dg; [by apply robust_guarded, robust_ret|].
  set (m := Z.land _ _) in *.
  destruct (Z.eqb_spec m SUBGROUP_MODE_ZERO); [by apply robust_guarded, robust_ret|].
  assert (forall s, prev ≫= fc_subgroup_id = Some s -> is_u64 s) as Hs.
  { intros s E. destruct prev as [pc|]; [|done]. destruct Hc as [_ Hcs _ _]. simpl in E. by rewrite E in Hcs. }
  destruct (Z.eqb_spec m SUBGROUP_MODE_PRIOR).
  { apply robust_guarded, robust_lift; destruct (prev ≫= fc_subgroup_id) as [s|]; try done.
    intros ? [= <-]. auto. }
  destruct (Z.eqb_spec m SUBGROUP_MODE_PRIOR_PLUS_ONE).
  { intros bs Hbs. unfold lift. destruct (prev ≫= fc_subgroup_id) as [s|] eqn:E; simpl; [|done].
    specialize (Hs s eq_refl).
    destruct (add_one_cases s Hs) as [[? ->]|[(->&?&->)|(->&?&->)]].
    - repeat split; [done|lia|unfold is_u64 in *; lia..].
    - by split.
    - repeat split; [done|lia|lia..]. }
  destruct (Z.eqb_spec m SUBGROUP_MODE_PRESENT).
  { apply robust_guarded. eapply robust_any; [apply get_vi_robust|lia|done]. }
  unfold SUBGROUP_MODE_ZERO, SUBGROUP_MODE_PRIOR, SUBGROUP_MODE_PRIOR_PLUS_ONE, SUBGROUP_MODE_PRESENT in *. lia.
Qed.

Lemma read_object_id_robust prev ho hg : opt_ok ctx_ok prev ->
  robust 0 (read_object_id prev ho hg) (fun o => is_u64 o /\
    forall pc, prev = Some pc -> hg = false -> fc_object_id pc <= o).
Proof.
  intros Hc. unfold read_object_id. destruct ho.
  - robust_step. destruct prev as [pc|]; [|by apply robust_ret].
    destruct hg; [by apply robust_ret|]. destruct Hc as [_ _ Hco _].
    apply robust_lift; destruct (checked_add _ _) as [v|] eqn:E; try done.
    intros ? [= <-]. apply checked_add_Some in E. unfold is_u64 in *. split; [lia|].
    intros ? [= <-]. lia.
  - destruct prev as [pc|]; [|by apply robust_lift]. destruct Hc as [_ _ Hco _]. simpl.
    apply robust_lift; destruct (checked_add _ _) as [v|] eqn:E; try done.
    intros ? [= <-]. apply checked_add_Some in E. unfold is_u64 in *. split; [lia|].
    intros ? [= <-]. lia.
Qed.

Lemma read_priority_robust prev h : opt_ok ctx_ok prev -> robust 0 (read_priority prev h) is_u8.
Proof.
  intros Hc. unfold read_priority. destruct h; [robust_step; done|].
  destruct prev as [pc|]; [|by apply robust_lift]. destruct Hc as [_ _ _ Hcp]. simpl.
  by apply robust_lift; destruct (fc_publisher_priority pc); try done; intros ? [= <-].
Qed.

Lemma read_properties_robust h : robust 0 (read_properties h) (fun ps => match ps with
    | Some ps => Forall op_ok ps /\ StronglySorted (key_le ObjectProperty_type_value) ps
    | None => True end).
Proof.
  unfold read_properties. destruct h; [|by apply robust_ret].
  eapply (robust_bind_any 0); [apply (wire_robust (Wire:=Wire_len_bytes _ _))|lia|].
  intros b [Hb _]. robust_step. by apply robust_ret.
Qed.

Lemma read_end_of_range_robust f prev order : robust 0 (read_end_of_range f) (fo_read order prev).
Proof.
  unfold read_end_of_range. eapply (robust_bind_any 0 0 _ _ (fun _ => True)); [|lia|].
  - robust_go; done.
  - intros k _. robust_go. by split.
Qed.

Lemma FetchObject_guarded prev order : opt_ok ctx_ok prev ->
  guarded (fun _ => subgroup_overflows prev) 1 (FetchObject_deserialize prev order) (fo_read order prev).
Proof.
  intros Hc. unfold FetchObject_deserialize.
  eapply guarded_robust_bind; [apply _|apply get_vi_robust|lia|]. intros f Hf.
  destruct (Z.leb_spec 128 f); [apply robust_guarded, read_end_of_range_robust|].
  eapply (guarded_robust_bind (fun _ => subgroup_overflows prev) 0 0); [|lia|].
  { apply (robust_lift _ (fun _ => True)); [|done]. unfold check_first. destruct prev; [done|]. by repeat case_if. }
  intros _ _. set (hg := has_bits f FLAG_GROUP_ID_PRESENT). set (dg := has_bits f FLAG_DATAGRAM).
  eapply (guarded_robust_bind (fun _ => subgroup_overflows prev) 0 0); [by apply read_group_id_robust|lia|]. intros g [Hg Hgf].
  eapply (guarded_bind (fun _ => subgroup_overflows prev) 0 0 0); [apply read_subgroup_id_guarded; [done|apply Hf]| |lia].
  intros sg Hsg. eapply (guarded_robust_bind (fun _ => subgroup_overflows prev) 0 0); [by apply read_object_id_robust|lia|].
  intros o [Ho Hof]. eapply (guarded_robust_bind (fun _ => subgroup_overflows prev) 0 0); [by apply read_priority_robust|lia|].
  intros pr Hpr. eapply (guarded_robust_bind (fun _ => subgroup_overflows prev) 0 0); [apply read_properties_robust|lia|].
  intros ps Hps. eapply (guarded_robust_bind (fun _ => subgroup_overflows prev) 0 1); [apply (wire_robust (Wire:=Wire_len_bytes _ _))|lia|].
  intros pl Hpl. apply robust_guarded, robust_ret. split.
  - split; simpl; try done; [by destruct dg|]. unfold is_dg. simpl. by destruct dg.
  - intros pc Epc. specialize (Hgf pc Epc). specialize (Hof pc Epc). simpl.
    destruct hg; [by left|right]. auto.
Qed.

Lemma stable_FetchObject prev order : stable (FetchObject_deserialize prev order).
Proof.
  unfold FetchObject_deserialize, read_end_of_range, read_group_id, read_subgroup_id, read_object_id,
    read_priority, read_properties, get_len_bytes. stable_go.
Qed.
End WithTarget.

Lemma FetchHeader_transmits h : is_u64 (fh_request_id h) ->
  exists bs, FetchHeader_serialize h = Ok bs /\ bytes_ok bs /\
    (exists tail, bs = FetchHeaderType_Type0x05 :: tail) /\ decodes FetchHeader_deserialize bs h.
Proof.
  intros Hh. unfold FetchHeader_serialize, FetchHeader_deserialize.
  change (put_vi FetchHeaderType_Type0x05) with (Ok (E:=ParseError) [5]). ser.
  eexists. split; [done|]. split; [bytes_parts; apply bytes_ok_byte; unfold is_u8; lia|].
  split; [by eexists|]. eapply (decodes_bind _ _ _ _ tt); [|destruct h; decode].
  intros rest. unfold ignore. change ([5] ++ rest) with (encode_vi 5 ++ rest).
  by rewrite encode_vi_decodes by (unfold is_u64; lia).
Qed.

Lemma group_delta_refused p pc order :
  fp_fields p -> ctx_ok pc -> fc_group_id pc <> fp_group_id p ->
  ~ group_follows order (fc_group_id pc) (fp_group_id p) ->
  exists e, group_delta_of p (Some pc) order = Err e.
Proof.
  intros [Hg _ _ _ _ _] [Hcg _ _ _] Hne Hnf. unfold group_delta_of.
  destruct (Z.eqb_spec (fc_group_id pc) (fp_group_id p)); [done|].
  assert (forall a b, is_u64 a -> is_u64 b -> a < b -> checked_sub a b = None) as Hc.
  { intros a b _ _ Hlt. unfold checked_sub. by destruct (Z.leb_spec b a); [lia|]. }
  destruct order; simpl in Hnf; rewrite Hc by (done || lia); simpl; eauto.
Qed.

(** * Properties *)

(** Fetch streams survive the wire.  The header is written and read back.
    An object that comes after the prior entry in the stream's group order, or
    an End of Range marker, is written as differences from that entry and read
    back, whatever follows it, with its properties in canonical order; writer
    and reader then agree on what the next entry is relative to; and an object
    that would go back in the group order, or to a smaller Object ID of the
    same group, is refused. *)
Theorem fetch_entry_roundtrip `{Target} h e prev order :
  is_u64 (fh_request_id h) -> opt_ok ctx_ok prev -> fo_ready order prev e ->
  (forall p, e = FO_Object p -> is_dg p = true -> fp_subgroup_id p = fp_object_id p) ->
  (exists bs, FetchHeader_serialize h = Ok bs /\ decodes FetchHeader_deserialize bs h) /\
  (exists bs, FetchObject_serialize e prev order = Ok bs /\ bytes_ok bs /\
     decodes (FetchObject_deserialize prev order) bs (fo_wire e)) /\
  next_context (fo_wire e) prev = next_context e prev /\ ctx_ok (next_context e prev) /\
  (forall p pc, fp_fields p -> ctx_ok pc ->
     (fc_group_id pc <> fp_group_id p /\ ~ group_follows order (fc_group_id pc) (fp_group_id p)) \/
     (fc_group_id pc = fp_group_id p /\ fp_object_id p < fc_object_id pc < U64_MAX) ->
     exists err, FetchObject_serialize (FO_Object p) (Some pc) order = Err err).
Proof.
  intros Hh Hc He Hdg. split; [|split; [|split; [|split]]].
  - destruct (FetchHeader_transmits h Hh) as (bs&?&_&_&?). eauto.
  - destruct (FetchObject_transmits e prev order Hc He) as (bs&?&?&_&?). eauto.
  - by apply next_context_wire.
  - by eapply next_context_ok.
  - intros p pc Hp Hpc [[Hne Hnf]|[Heq Hlt]]; simpl; unfold serialize_payload.
    + destruct (group_delta_refused p pc order Hp Hpc Hne Hnf) as [err ->]. simpl. eauto.
    + unfold group_delta_of. rewrite (proj2 (Z.eqb_eq _ _) Heq). simpl.
      unfold add_u64. destruct Hp as [_ _ Ho _ _ _]. rewrite arith_u64_Ok by ulia. simpl.
      destruct (Z.eqb_spec (fc_object_id pc + 1) (fp_object_id p)); [lia|].
      unfold checked_sub. destruct (Z.leb_spec (fc_object_id pc) (fp_object_id p)); [lia|]. simpl. eauto.
Qed.

Lemma fetch_entry_roundtrip_witness :
  let pc := mkFetchObjectContext 10 (Some 4) 7 (Some 128) in
  let e := FO_Object (mkFetchObjectPayload 8 5 0 128 OFP_Subgroup (Some [OP_PriorGroupIdGap 1]) [1; 2]) in
  exists bs, FetchObject_serialize (H:=debug_build) e (Some pc) GO_Descending = Ok bs /\ bytes_ok bs /\
    decodes (FetchObject_deserialize (H:=debug_build) (Some pc) GO_Descending) bs (fo_wire e).
Proof.
  intros pc e. refine (proj1 (proj2 (fetch_entry_roundtrip (H:=debug_build) (mkFetchHeader 3) e (Some pc)
    GO_Descending _ _ _ _))).
  - unfold is_u64. simpl. lia.
  - split; simpl; unfold is_u64, is_u8; lia.
  - split; [|split].
    + split; simpl; unfold is_u64, is_u8; try lia.
      * split; [repeat constructor; unfold is_u64; simpl; lia|].
        intros b E. vm_compute in E. injection E as <-. reflexivity.
      * split; [repeat constructor; lia|reflexivity].
    + intros ? [= <-]. left. simpl. lia.
    + intros _ ? [= <-]. split; simpl; [lia|discriminate].
  - intros p [= <-]. vm_compute. discriminate.
Defined.

(** Reading an entry off a fetch stream.  On any buffer and after any
    prior entry, the reader consumes a prefix of it and gives a marker or an
    object that comes after the prior entry in the stream's group order, from
    which the next one can be read; or it fails with an error; or, only in a
    build with overflow checks and only when the prior Subgroup ID is the
    largest one, it panics. *)
Theorem fetch_entry_checked `{Target} prev order bs :
  bytes_ok bs -> opt_ok ctx_ok prev ->
  match FetchObject_deserialize prev order bs with
  | (Ok e, r) => r `suffix_of` bs /\ (length r < length bs)%nat /\ fo_read order prev e /\
      ctx_ok (next_context e prev)
  | (Err _, r) => r `suffix_of` bs
  | (Panic, _) => overflow_checks = true /\ prev ≫= fc_subgroup_id = Some U64_MAX
  | (Diverge, _) => False
  end.
Proof.
  intros Hbs Hc. pose proof (FetchObject_guarded prev order Hc bs Hbs) as G.
  destruct (FetchObject_deserialize prev order bs) as [[e|e| |] r]; try done.
  destruct G as (?&?&Hr). split; [done|]. split; [lia|]. split; [done|].
  destruct e as [p|k g o]; simpl in *.
  - destruct Hr as [[]_]. by split.
  - destruct Hr. split; simpl; [done| |done|]; destruct prev as [pc|]; try done; by destruct Hc.
Qed.

Lemma fetch_entry_checked_witness :
  let pc := mkFetchObjectContext 10 (Some U64_MAX) 7 (Some 128) in
  let bs := [0x02; 0] in
  fst (FetchObject_deserialize (H:=debug_build) (Some pc) GO_Ascending bs) = Panic /\
  match FetchObject_deserialize (H:=debug_build) (Some pc) GO_Ascending bs with
  | (Ok e, r) => r `suffix_of` bs /\ (length r < length bs)%nat /\ fo_read GO_Ascending (Some pc) e /\
      ctx_ok (next_context e (Some pc))
  | (Err _, r) => r `suffix_of` bs
  | (Panic, _) => @overflow_checks debug_build = true /\ Some pc ≫= fc_subgroup_id = Some U64_MAX
  | (Diverge, _) => False
  end.
Proof.
  intros pc bs. split; [vm_compute; reflexivity|].
  apply (fetch_entry_checked (H:=debug_build) (Some pc) GO_Ascending bs).
  - repeat constructor; simpl; lia.
  - split; simpl; unfold is_u64, is_u8; lia.
Defined.
