(* ===== verification/ObjectForms.v ===== *)
(** The unified object and its three forms on the wire
    ([libs/moqtail-rs/src/model/data/object.rs]).

    The relay stores every object as an [Object] and converts on the way in
    and out. *)
From S2P Require Import Prelude BTree Varint Pair Common Codes Properties CombinedFilter.
From S2P Require Import Subgroup Datagram FetchObject.

Definition try_from_datagram (datagram : Datagram) (default_priority : Z) : result (Object * bool) :=
  let end_of_group := dg_end_of_group datagram in
  let priority := default default_priority (dg_publisher_priority datagram) in
  let '(status, payload) :=
    match dg_object_status datagram with
    | Some object_status => (object_status, None)
    | None => (OS_Normal, dg_payload datagram)
    end in
  Ok (mkObject (dg_track_alias datagram) (mkLocation (dg_group_id datagram) (dg_object_id datagram))
        priority OFP_Datagram None status (dg_properties datagram) payload, end_of_group).

Definition try_from_subgroup (subgroup_obj : SubgroupObject) (track_alias group_id : Z)
    (subgroup_id publisher_priority : option Z) (default_priority : Z) : result Object :=
  Ok (mkObject track_alias (mkLocation group_id (so_object_id subgroup_obj))
        (default default_priority publisher_priority) OFP_Subgroup subgroup_id
        (default OS_Normal (so_status subgroup_obj)) (so_properties subgroup_obj)
        (so_payload subgroup_obj)).

Definition try_from_fetch (fetch_obj : FetchObjectPayload) (track_alias : Z) : result Object :=
  let subgroup_id :=
    match fp_forwarding_preference fetch_obj with
    | OFP_Subgroup => Some (fp_subgroup_id fetch_obj)
    | OFP_Datagram => None
    end in
  let payload := match fp_payload fetch_obj with [] => None | p => Some p end in
  Ok (mkObject track_alias (mkLocation (fp_group_id fetch_obj) (fp_object_id fetch_obj))
        (fp_publisher_priority fetch_obj) (fp_forwarding_preference fetch_obj) subgroup_id
        OS_Normal (fp_properties fetch_obj) payload).

Definition casting {A} (context to_type : string) : result A :=
  Err (CastingError context "Object" to_type).

Definition try_into_datagram (self : Object) (track_alias : Z) (end_of_group : bool)
    (default_priority : option Z) : result Datagram :=
  if negb (bool_decide (obj_forwarding_preference self = OFP_Datagram))
  then casting "Object::try_into_datagram(forwarding_preference)" "Datagram"
  else
    let publisher_priority :=
      if is_some default_priority &&
         bool_decide (default_priority = Some (obj_publisher_priority self))
      then None else Some (obj_publisher_priority self) in
    if negb (bool_decide (obj_status self = OS_Normal)) then
      if is_some (obj_payload self) then casting "Object::try_into_datagram(payload)" "Datagram"
      else Ok (new_status track_alias (Common.group (obj_location self))
                 (Common.object (obj_location self)) publisher_priority (obj_properties self)
                 (obj_status self))
    else
      let? payload := ok_or (obj_payload self)
                        (CastingError "Object::try_into_datagram(payload)" "Object" "Datagram") in
      Ok (new_payload track_alias (Common.group (obj_location self))
            (Common.object (obj_location self)) publisher_priority (obj_properties self) payload
            end_of_group).

Definition try_into_subgroup (self : Object) : result SubgroupObject :=
  if negb (bool_decide (obj_forwarding_preference self = OFP_Subgroup))
  then casting "Object::try_into_subgroup(forwarding_preference)" "SubgroupObject"
  else
    let? _ := ok_or (obj_subgroup_id self)
                (CastingError "Object::try_into_subgroup(subgroup_id)" "Object" "SubgroupObject") in
    let? content :=
      match obj_status self with
      | OS_Normal =>
          let? payload := ok_or (obj_payload self)
            (CastingError "Object::try_into_subgroup(payload)" "Object" "SubgroupObject") in
          Ok (Some payload, None)
      | other_status =>
          if is_some (obj_payload self)
          then casting "Object::try_into_subgroup(payload)" "SubgroupObject"
          else Ok (None, Some other_status)
      end in
    Ok (mkSubgroupObject (Common.object (obj_location self)) (obj_properties self) (snd content)
          (fst content)).

Definition try_into_fetch (self : Object) : result FetchObjectPayload :=
  if negb (bool_decide (obj_status self = OS_Normal))
  then casting "Object::try_into_fetch(status)" "FetchObjectPayload"
  else
    let payload := default [] (obj_payload self) in
    let? subgroup_id :=
      match obj_forwarding_preference self with
      | OFP_Subgroup =>
          ok_or (obj_subgroup_id self)
            (CastingError "Object::try_into_fetch(subgroup_id)" "Object" "FetchObjectPayload")
      | OFP_Datagram =>
          if is_some (obj_subgroup_id self)
          then casting "Object::try_into_fetch(subgroup_id)" "FetchObjectPayload"
          else Ok (Common.object (obj_location self))
      end in
    Ok (mkFetchObjectPayload (Common.group (obj_location self)) subgroup_id
          (Common.object (obj_location self)) (obj_publisher_priority self)
          (obj_forwarding_preference self) (obj_properties self) payload).

(** * Lemmas *)

(** A status object has no payload and a Normal one has one, which may be
    empty. *)
Definition content_explicit (o : Object) : Prop := obj_status o = OS_Normal <-> obj_payload o <> None.

(** The Subgroup ID goes with the forwarding preference. *)
Definition subgroup_matches (o : Object) : Prop :=
  obj_forwarding_preference o = OFP_Subgroup <-> obj_subgroup_id o <> None.

Definition with_alias (alias : Z) (o : Object) : Object :=
  mkObject alias (obj_location o) (obj_publisher_priority o) (obj_forwarding_preference o)
    (obj_subgroup_id o) (obj_status o) (obj_properties o) (obj_payload o).

(** The payload as a fetch stream gives it back. *)
Definition drop_empty (o : Object) : Object :=
  mkObject (obj_track_alias o) (obj_location o) (obj_publisher_priority o)
    (obj_forwarding_preference o) (obj_subgroup_id o) (obj_status o) (obj_properties o)
    (non_empty (obj_payload o)).

(** Case analysis on every field has left equations between constructors. *)
Ltac forms := split; [intros [? ?]; by intuition|]; intuition (eauto || congruence).

Lemma into_subgroup_iff o :
  (exists s, try_into_subgroup o = Ok s) <->
  obj_forwarding_preference o = OFP_Subgroup /\ obj_subgroup_id o <> None /\ content_explicit o.
Proof.
  unfold try_into_subgroup, content_explicit, casting.
  destruct o as [al [g ob] pr [] [sg|] [] ps [pl|]]; simpl; forms.
Qed.

Lemma into_datagram_iff o alias eog dp :
  (exists d, try_into_datagram o alias eog dp = Ok d) <->
  obj_forwarding_preference o = OFP_Datagram /\ content_explicit o.
Proof.
  unfold try_into_datagram, content_explicit, casting.
  destruct o as [al [g ob] pr [] sg [] ps [pl|]]; simpl; forms.
Qed.

Lemma into_fetch_iff o :
  (exists p, try_into_fetch o = Ok p) <-> obj_status o = OS_Normal /\ subgroup_matches o.
Proof.
  unfold try_into_fetch, subgroup_matches, casting.
  destruct o as [al [g ob] pr [] [sg|] [] ps pl]; simpl; forms.
Qed.

Lemma subgroup_form o s alias priority default_priority :
  try_into_subgroup o = Ok s -> default default_priority priority = obj_publisher_priority o ->
  try_from_subgroup s alias (Common.group (obj_location o)) (obj_subgroup_id o) priority default_priority
  = Ok (with_alias alias o).
Proof.
  unfold try_into_subgroup, try_from_subgroup, with_alias, casting.
  destruct o as [al [g ob] pr [] [sg|] [] ps [pl|]]; simpl; try done; by intros [= <-] ->.
Qed.

Lemma datagram_form o d alias eog dp default_priority :
  try_into_datagram o alias eog dp = Ok d -> subgroup_matches o ->
  (dp = None \/ dp = Some default_priority) ->
  try_from_datagram d default_priority =
    Ok (with_alias alias o, bool_decide (obj_status o = OS_Normal) && eog).
Proof.
  unfold try_into_datagram, try_from_datagram, with_alias, casting, subgroup_matches.
  intros E Hs Hdp. destruct o as [al [g ob] pr [] sg st ps pl]; simpl in *; [done|].
  assert (sg = None) as ->.
  { destruct sg; [|done]. destruct Hs as [_ Hs]. discriminate (Hs ltac:(done)). }
  set (pp := if is_some dp && bool_decide (dp = Some pr) then None else Some pr) in *.
  assert (default default_priority pp = pr) as Hpp.
  { unfold pp. destruct dp as [x|]; [|done]. cbn [is_some is_none negb andb].
    destruct (bool_decide_reflect (Some x = Some pr)); [|done].
    destruct Hdp; simpl; congruence. }
  clearbody pp. destruct st, pl; simplify_eq/=; by rewrite ?Hpp.
Qed.

Lemma fetch_form o p alias :
  try_into_fetch o = Ok p -> try_from_fetch p alias = Ok (with_alias alias (drop_empty o)).
Proof.
  unfold try_into_fetch, try_from_fetch, with_alias, drop_empty, casting.
  destruct o as [al [g ob] pr [] [sg|] [] ps [[|b pl]|]]; simpl; try done; by intros [= <-].
Qed.

(** An empty Normal object read off a subgroup stream cannot be written to one. *)
Lemma empty_object_not_forwarded id ps alias group subgroup priority dp o :
  try_from_subgroup (mkSubgroupObject id ps (Some OS_Normal) None) alias group subgroup priority dp = Ok o ->
  exists e, try_into_subgroup o = Err e.
Proof. intros [= <-]. unfold try_into_subgroup. simpl. destruct subgroup; simpl; eauto. Qed.

(** * Properties *)

(** The three forms of an object are faithful.  Each conversion succeeds
    on exactly the objects it is for: to a subgroup object those with that
    preference, a Subgroup ID, and a payload exactly when Normal; to a datagram
    the same without the Subgroup ID; to a fetch object the Normal ones whose
    Subgroup ID goes with the preference.  Converting back, with the header's
    fields, gives the object under the new alias: from a datagram also with a
    priority left out because it is the default, and END_OF_GROUP kept except
    with a status; from a fetch object with an empty payload as none. *)
Theorem object_forms_roundtrip o alias eog dp priority default_priority :
  ((exists s, try_into_subgroup o = Ok s) <->
     obj_forwarding_preference o = OFP_Subgroup /\ obj_subgroup_id o <> None /\ content_explicit o) /\
  ((exists d, try_into_datagram o alias eog dp = Ok d) <->
     obj_forwarding_preference o = OFP_Datagram /\ content_explicit o) /\
  ((exists p, try_into_fetch o = Ok p) <-> obj_status o = OS_Normal /\ subgroup_matches o) /\
  (forall s, try_into_subgroup o = Ok s ->
     default default_priority priority = obj_publisher_priority o ->
     try_from_subgroup s alias (Common.group (obj_location o)) (obj_subgroup_id o) priority
       default_priority = Ok (with_alias alias o)) /\
  (forall d, try_into_datagram o alias eog dp = Ok d -> subgroup_matches o ->
     (dp = None \/ dp = Some default_priority) ->
     try_from_datagram d default_priority =
       Ok (with_alias alias o, bool_decide (obj_status o = OS_Normal) && eog)) /\
  (forall p, try_into_fetch o = Ok p ->
     try_from_fetch p alias = Ok (with_alias alias (drop_empty o))).
Proof.
  split; [apply into_subgroup_iff|]. split; [apply into_datagram_iff|].
  split; [apply into_fetch_iff|]. split; [intros; by apply subgroup_form|].
  split; [intros; by apply (datagram_form o d alias eog dp)|intros; by apply fetch_form].
Qed.
