(* ===== verification/ControlParts.v ===== *)
(** What control messages are made of: length-prefixed frames, sequences of
    fields, parameter lists.

    Every message of [libs/moqtail-rs/src/model/control/] writes its fields
    into a payload one after the other and then the message type, a 16-bit
    length and the payload, and reads them back in the same order.  [sends]
    relates such a writer to its reader; the lemmas here build it up field by
    field. *)
From S2P Require Import Prelude Varint Pair Common Codes Properties MessageParameter.

(** [payload.extend_from_slice(&a?); payload.extend_from_slice(&b?);] *)
Definition cat (a b : result bytes) : result bytes :=
  let? x := a in let? y := b in Ok (x ++ y).
Notation "a +++ b" := (cat a b) (at level 60, right associativity) : moq_scope.

(** The parameter count and the parameters. *)
Definition put_params (parameters : list MessageParameter) : result bytes :=
  put_vi (Z.of_nat (length parameters)) +++ serialize_message_parameters parameters.
Definition get_params `{Target} (msg_type : ControlMessageType) : parser (list MessageParameter) :=
  let! param_count := get_vi in
  deserialize_message_parameters param_count msg_type.

(** [let n = payload.get_vi()? as usize;], then a checked read of [n] bytes. *)
Definition get_name (context : string) : parser bytes :=
  let! n := get_vi in get_bytes context n.

(** The message type, the 16-bit length, the payload. *)
Definition frame (msg_type : ControlMessageType) (context : string) (payload : result bytes)
    : result bytes :=
  let? ty := put_vi (ControlMessageType_to_u64 msg_type) in
  let? payload := payload in
  let? payload_len := to_u16 context (blen payload) in
  Ok (ty ++ put_u16 payload_len ++ payload).

(** * Lemmas *)

(** ** Writers and readers *)

(** What [r] writes, [p] reads as [a]; or a parameter value is over the length
    the format has for it and [r] says so. *)
Definition sends {A} (r : result bytes) (p : parser A) (a : A) : Prop :=
  too_long r \/ exists bs, r = Ok bs /\ bytes_ok bs /\ decodes p bs a.

(** The same for a reader that takes all of its buffer. *)
Definition sends_last {A} (r : result bytes) (p : parser A) (a : A) : Prop :=
  too_long r \/ exists bs, r = Ok bs /\ bytes_ok bs /\ p bs = (Ok a, []).

Lemma sends_sends_last {A} r (p : parser A) a : sends r p a -> sends_last r p a.
Proof. intros [?|(bs&?&?&?)]; [by left|right]. eauto using decodes_exact. Qed.

Lemma too_long_bind {A B} (r : result A) (k : A -> result B) : too_long r -> too_long (obind r k).
Proof. intros (len&->&?). by exists len. Qed.

Lemma sends_last_cat {A B} r1 r2 (p : parser A) (k : A -> parser B) a b :
  sends r1 p a -> sends_last r2 (k a) b -> sends_last (r1 +++ r2) (pbind p k) b.
Proof.
  intros [H1|(bs1&->&H1&D1)] H2; [left; by apply too_long_bind|].
  destruct H2 as [(len&->&?)|(bs2&->&H2&D2)]; [left; by exists len|right].
  exists (bs1 ++ bs2). split; [done|]. split; [by apply bytes_ok_app|]. by eapply decodes_step.
Qed.

(** A step that reads nothing. *)
Lemma sends_last_nil {A B} r (p : parser A) (k : A -> parser B) a b :
  decodes p [] a -> sends_last r (k a) b -> sends_last r (pbind p k) b.
Proof.
  intros Hd [?|(bs&->&?&D)]; [by left|right]. exists bs.
  split; [done|]. split; [done|]. by eapply decodes_step_nil.
Qed.

Lemma sends_last_ret {A B} r (p : parser A) (f : A -> B) a :
  sends_last r p a -> sends_last r (let! x := p in pret (f x)) (f a).
Proof.
  intros [?|(bs&->&?&D)]; [by left|right]. exists bs. split; [done|]. split; [done|].
  unfold pbind. by rewrite D.
Qed.

Lemma sends_cat {A B} r1 r2 (p : parser A) (k : A -> parser B) a b :
  sends r1 p a -> sends r2 (k a) b -> sends (r1 +++ r2) (pbind p k) b.
Proof.
  intros [H1|(bs1&->&H1&D1)] H2; [left; by apply too_long_bind|].
  destruct H2 as [(len&->&?)|(bs2&->&H2&D2)]; [left; by exists len|right].
  exists (bs1 ++ bs2). split; [done|]. split; [by apply bytes_ok_app|]. by eapply decodes_bind.
Qed.

Lemma sends_wire {A} (wf : A -> Prop) ser de `{!Wire wf ser de} a : wf a -> sends (ser a) de a.
Proof. intros H. right. destruct (wire_transmits wf ser de a H) as (bs&?&?&_&?). eauto. Qed.

Lemma sends_vi v : is_u64 v -> sends (put_vi v) get_vi v.
Proof. apply (sends_wire is_u64). apply _. Qed.

Lemma sends_len_bytes c1 c2 d : data_ok d -> sends (put_len_bytes d) (get_len_bytes c1 c2) d.
Proof. apply (sends_wire data_ok). apply _. Qed.

Lemma sends_name c d : data_ok d -> sends (put_len_bytes d) (get_name c) d.
Proof.
  intros Hd. pose proof (blen_u64 _ Hd). right. exists (encode_vi (blen d) ++ d).
  split; [by apply put_len_bytes_Ok|]. split; [bytes_parts|]. unfold get_name. decode.
Qed.

Lemma sends_Tuple t : tuple_ok t -> sends (Tuple_serialize t) Tuple_deserialize t.
Proof. apply (sends_wire tuple_ok). apply _. Qed.

Lemma sends_Location l : loc_ok l -> sends (Location_serialize l) Location_deserialize l.
Proof. apply (sends_wire loc_ok). apply _. Qed.

Lemma sends_reason r : reason_ok r -> sends (ReasonPhrase_serialize r) ReasonPhrase_deserialize r.
Proof. apply (sends_wire reason_ok). apply _. Qed.

Lemma sends_track_properties ps : Forall tp_ok ps ->
  sends_last (serialize_track_properties ps) deserialize_track_properties
    (sort_by_key TrackProperty_type_value ps).
Proof. intros H. right. destruct (tp_properties_roundtrip ps H) as (bs&?&?&?). eauto. Qed.

Section Params.
Context `{Target}.

(** The parameters of a message, and not more of them than a count can name in
    a vector of this build. *)
Definition params_field (msg_type : ControlMessageType) (ps : list MessageParameter) : Prop :=
  params_ok msg_type ps /\ Z.of_nat (length ps) <= U32.

Lemma sends_params msg_type ps : params_field msg_type ps ->
  sends (put_params ps) (get_params msg_type) (sort_by_key type_value ps).
Proof.
  intros [Hps Hlen]. apply sends_cat with (a := Z.of_nat (length ps)); [apply sends_vi; ulia|].
  apply (params_transmit msg_type ps Hps). pose proof size_of_MessageParameter_range. nia.
Qed.

(** ** On any buffer *)

(** Somewhere in the buffer there is an integer too large for the capacity of
    a vector of parameters. *)
Definition huge_count (bs : bytes) : Prop :=
  exists r count r', r `suffix_of` bs /\ get_vi r = (Ok count, r') /\
    ISIZE_MAX < count * size_of_MessageParameter.

#[export] Instance SuffixClosed_huge_count : SuffixClosed huge_count.
Proof. intros r bs Hs (x&c&y&?&?&?). exists x, c, y. split; [by etrans|done]. Qed.

Lemma huge_count_app bs ext : huge_count bs -> huge_count (bs ++ ext).
Proof.
  intros (r&c&r'&[pre ->]&E&Hc). exists (r ++ ext), c, (r' ++ ext).
  split; [by exists pre; rewrite app_assoc|]. split; [|done].
  pose proof (get_vi_stable r ext) as S. by rewrite E in S.
Qed.

Lemma get_params_guarded msg_type : guarded huge_count 1 (get_params msg_type)
  (fun ps => params_ok msg_type ps /\ StronglySorted (key_le type_value) ps).
Proof.
  intros bs Hbs. unfold get_params, pbind. pose proof (get_vi_robust bs Hbs) as R.
  destruct (get_vi bs) as [[c|e| |] r] eqn:E; try done. destruct R as (Hs&Hl&Hc).
  destruct (Z.le_gt_cases (c * size_of_MessageParameter) ISIZE_MAX) as [Hle|Hgt].
  - pose proof (params_robust c msg_type ltac:(ulia) Hle r (bytes_ok_suffix _ _ Hs Hbs)) as R.
    destruct (deserialize_message_parameters c msg_type r) as [[ps|e| |] r']; try done; [|by etrans].
    destruct R as (?&?&?). split; [by etrans|]. split; [lia|done].
  - rewrite params_panic by lia. by exists bs, c, r.
Qed.
End Params.

Lemma get_name_robust c : robust 1 (get_name c) data_ok.
Proof.
  unfold get_name. robust_step. eapply robust_any; [apply robust_get_bytes|lia|].
  intros b [? Hb]. split; [done|]. unfold is_u64 in *. lia.
Qed.

Create HintDb send discriminated.
#[export] Hint Resolve sends_vi sends_len_bytes sends_name sends_Tuple sends_Location sends_reason
  sends_track_properties sends_params : send.
#[export] Hint Extern 1 (is_u64 _) => assumption : send.
#[export] Hint Extern 1 (data_ok _) => assumption : send.
#[export] Hint Extern 1 (tuple_ok _) => assumption : send.
#[export] Hint Extern 1 (loc_ok _) => assumption : send.
#[export] Hint Extern 1 (reason_ok _) => assumption : send.
#[export] Hint Extern 1 (params_field _ _) => assumption : send.
#[export] Hint Extern 1 (Forall _ _) => assumption : send.
#[export] Hint Resolve get_name_robust : robust.

(** A payload, field by field. *)
Ltac send :=
  repeat first
    [ eapply sends_last_cat; [solve [eauto 2 with send]|]
    | apply sends_last_ret; solve [eauto 2 with send | apply sends_sends_last; eauto 2 with send] ].

(** A payload read off any buffer, field by field. *)
Ltac guard_step :=
  lazymatch goal with
  | |- guarded _ _ (pret _) _ => apply robust_guarded, robust_ret
  | |- guarded _ _ (pbind (get_params _) _) _ =>
      eapply (guarded_bind _ 0 1 0); [apply get_params_guarded| |lia]; cbv beta; intros ? [? ?]
  | |- guarded _ _ (pbind _ _) _ =>
      eapply guarded_robust_bind; [apply _|solve [eauto 3 with robust]|lia|]; cbv beta; intros ? ?
  end.
Ltac guard_go := repeat guard_step.
