(* ===== verification/Control.v ===== *)
(** The control messages ([libs/moqtail-rs/src/model/control/]).

    One record per message, with the writer of its payload, [serialize] (the
    payload in its frame) and [parse_payload].  [ControlMessage] is their sum,
    with the envelope every message travels in. *)
From S2P Require Import Prelude Varint Pair Common Codes TrackName LocationFilter Properties.
From S2P Require Import MessageParameter ControlParts.

(** * The messages *)

Section Messages.
Context `{Target}.

(** ** SUBSCRIBE ([subscribe.rs]) *)

Record Subscribe := mkSubscribe {
  sub_request_id : Z;
  sub_track_namespace : Tuple;
  sub_track_name : TupleField;
  sub_parameters : list MessageParameter
}.

Definition Subscribe_new_with_location_filter (request_id : Z) (track_namespace : Tuple)
    (track_name : TupleField) (filter : LocationFilter) (subscribe_parameters : list MessageParameter)
    : Subscribe :=
  mkSubscribe request_id track_namespace track_name
    (subscribe_parameters ++ [MP_LocationFilter filter]).

Definition Subscribe_get_full_track_name (self : Subscribe) : FullTrackName :=
  mkFullTrackName (sub_track_namespace self) (sub_track_name self).

(** [parameters.iter().find_map(|p| match p { LocationFilter { filter } => .. })]. *)
Fixpoint find_location_filter (parameters : list MessageParameter) : option LocationFilter :=
  match parameters with
  | [] => None
  | MP_LocationFilter filter :: _ => Some filter
  | _ :: rest => find_location_filter rest
  end.

Definition Subscribe_get_location_filter (self : Subscribe) : option LocationFilter :=
  find_location_filter (sub_parameters self).

Definition Subscribe_payload (self : Subscribe) : result bytes :=
  put_vi (sub_request_id self) +++ Tuple_serialize (sub_track_namespace self) +++
  put_len_bytes (sub_track_name self) +++ put_params (sub_parameters self).

Definition Subscribe_serialize (self : Subscribe) : result bytes :=
  frame CMT_Subscribe "Subscribe::serialize" (Subscribe_payload self).

Definition Subscribe_parse_payload : parser Subscribe :=
  let! request_id := get_vi in
  let! track_namespace := Tuple_deserialize in
  let! track_name := get_len_bytes "Subscribe::parse_payload(track_name_len)"
                       "Subscribe::parse_payload(track_name)" in
  let! subscribe_parameters := get_params CMT_Subscribe in
  pret (mkSubscribe request_id track_namespace track_name subscribe_parameters).

(** ** SUBSCRIBE_OK ([subscribe_ok.rs]) *)

Record SubscribeOk := mkSubscribeOk {
  sok_track_alias : Z;
  sok_parameters : list MessageParameter;
  sok_track_properties : list TrackProperty
}.

Definition SubscribeOk_payload (self : SubscribeOk) : result bytes :=
  put_vi (sok_track_alias self) +++ put_params (sok_parameters self) +++
  serialize_track_properties (sok_track_properties self).

Definition SubscribeOk_serialize (self : SubscribeOk) : result bytes :=
  frame CMT_SubscribeOk "SubscribeOk::serialize(payload_length)" (SubscribeOk_payload self).

Definition SubscribeOk_parse_payload : parser SubscribeOk :=
  let! track_alias := get_vi in
  let! subscribe_parameters := get_params CMT_SubscribeOk in
  let! track_properties := deserialize_track_properties in
  pret (mkSubscribeOk track_alias subscribe_parameters track_properties).

(** ** FETCH ([fetch.rs]) *)

Record Fetch := mkFetch {
  fetch_request_id : Z;
  fetch_track_namespace : Tuple;
  fetch_track_name : TupleField;
  fetch_parameters : list MessageParameter
}.

Definition Fetch_new_with_location_filter (request_id : Z) (track_namespace : Tuple)
    (track_name : TupleField) (filter : LocationFilter) (parameters : list MessageParameter)
    : Fetch :=
  mkFetch request_id track_namespace track_name (parameters ++ [MP_LocationFilter filter]).

Definition Fetch_get_location_filter (self : Fetch) : LocationFilter :=
  default LF_None (find_location_filter (fetch_parameters self)).

Definition Fetch_get_full_track_name (self : Fetch) : FullTrackName :=
  mkFullTrackName (fetch_track_namespace self) (fetch_track_name self).

Fixpoint find_group_order (parameters : list MessageParameter) : option GroupOrder :=
  match parameters with
  | [] => None
  | MP_GroupOrder order :: _ => Some order
  | _ :: rest => find_group_order rest
  end.

Definition Fetch_group_order (self : Fetch) : GroupOrder :=
  default GO_Ascending (find_group_order (fetch_parameters self)).

Definition Fetch_payload (self : Fetch) : result bytes :=
  put_vi (fetch_request_id self) +++ Tuple_serialize (fetch_track_namespace self) +++
  put_len_bytes (fetch_track_name self) +++ put_params (fetch_parameters self).

Definition Fetch_serialize (self : Fetch) : result bytes :=
  frame CMT_Fetch "Fetch::serialize(payload_length)" (Fetch_payload self).

Definition Fetch_parse_payload : parser Fetch :=
  let! request_id := get_vi in
  let! track_namespace := Tuple_deserialize in
  let! track_name := get_name "Fetch::parse_payload(track_name)" in
  let! parameters := get_params CMT_Fetch in
  pret (mkFetch request_id track_namespace track_name parameters).

(** ** FETCH_OK ([fetch_ok.rs]) *)

Record FetchOk := mkFetchOk {
  fok_end_of_track : bool;
  fok_end_location : Location;
  fok_parameters : list MessageParameter;
  fok_track_properties : list TrackProperty
}.

Definition FetchOk_payload (self : FetchOk) : result bytes :=
  Ok [if fok_end_of_track self then 1 else 0] +++ Location_serialize (fok_end_location self) +++
  put_params (fok_parameters self) +++ serialize_track_properties (fok_track_properties self).

Definition FetchOk_serialize (self : FetchOk) : result bytes :=
  frame CMT_FetchOk "FetchOk::serialize" (FetchOk_payload self).

Definition FetchOk_end_of_track (raw : Z) : result bool :=
  if raw =? 0 then Ok false
  else if raw =? 1 then Ok true
  else Err (ProtocolViolation "FetchOk::parse_payload(end_of_track)").

Definition FetchOk_parse_payload : parser FetchOk :=
  let! end_of_track_raw := get_u8_checked "FetchOk::parse_payload(end_of_track)" in
  let! end_of_track := lift (FetchOk_end_of_track end_of_track_raw) in
  let! end_location := Location_deserialize in
  let! subscribe_parameters := get_params CMT_FetchOk in
  let! track_properties := deserialize_track_properties in
  pret (mkFetchOk end_of_track end_location subscribe_parameters track_properties).

(** ** GOAWAY ([goaway.rs]) *)

Definition MAX_NEW_SESSION_URI_LEN : Z := 8192.

Record GoAway := mkGoAway { new_session_uri : option bytes; goaway_timeout : Z }.

Definition GoAway_new (new_session_uri : option bytes) (timeout : Z) : GoAway :=
  mkGoAway match new_session_uri with Some [] => None | uri => uri end timeout.

Definition GoAway_payload (self : GoAway) : result bytes :=
  match new_session_uri self with Some uri => put_len_bytes uri | None => put_vi 0 end +++
  put_vi (goaway_timeout self).

Definition GoAway_serialize (self : GoAway) : result bytes :=
  frame CMT_GoAway "GoAway::serialize(payload_length)" (GoAway_payload self).

Definition GoAway_uri : parser (option bytes) :=
  let! uri_length := get_vi in
  let! uri_length := lift (to_usize "GoAway::parse_payload(uri_length)" uri_length) in
  if MAX_NEW_SESSION_URI_LEN <? uri_length
  then pfail (ProtocolViolation "GoAway::parse_payload(uri_length)")
  else if uri_length =? 0 then pret None
  else
    let! raw := get_bytes "GoAway::parse_payload(uri_length)" uri_length in
    let! uri := lift (from_utf8 "GoAway::parse_payload(new_session_uri)" raw) in
    pret (Some uri).

Definition GoAway_parse_payload : parser GoAway :=
  let! new_session_uri := GoAway_uri in
  let! timeout := get_vi in
  pret (mkGoAway new_session_uri timeout).

(** ** NAMESPACE and NAMESPACE_DONE ([namespace.rs], [namespace_done.rs]) *)

Record Namespace := mkNamespace { ns_track_namespace_suffix : Tuple }.

Definition Namespace_payload (self : Namespace) : result bytes :=
  Tuple_serialize (ns_track_namespace_suffix self).
Definition Namespace_serialize (self : Namespace) : result bytes :=
  frame CMT_Namespace "Namespace::serialize(payload_length)" (Namespace_payload self).
Definition Namespace_parse_payload : parser Namespace :=
  let! track_namespace_suffix := Tuple_deserialize in
  pret (mkNamespace track_namespace_suffix).

Record NamespaceDone := mkNamespaceDone { nsd_track_namespace_suffix : Tuple }.

Definition NamespaceDone_payload (self : NamespaceDone) : result bytes :=
  Tuple_serialize (nsd_track_namespace_suffix self).
Definition NamespaceDone_serialize (self : NamespaceDone) : result bytes :=
  frame CMT_NamespaceDone "NamespaceDone::serialize(payload_length)" (NamespaceDone_payload self).
Definition NamespaceDone_parse_payload : parser NamespaceDone :=
  let! track_namespace_suffix := Tuple_deserialize in
  pret (mkNamespaceDone track_namespace_suffix).

(** ** PUBLISH ([publish.rs]) *)

Record Publish := mkPublish {
  pub_request_id : Z;
  pub_track_namespace : Tuple;
  pub_track_name : TupleField;
  pub_track_alias : Z;
  pub_parameters : list MessageParameter;
  pub_track_properties : list TrackProperty
}.

Definition Publish_payload (self : Publish) : result bytes :=
  put_vi (pub_request_id self) +++ Tuple_serialize (pub_track_namespace self) +++
  put_len_bytes (pub_track_name self) +++ put_vi (pub_track_alias self) +++
  put_params (pub_parameters self) +++ serialize_track_properties (pub_track_properties self).

Definition Publish_serialize (self : Publish) : result bytes :=
  frame CMT_Publish "Publish::serialize(payload_length)" (Publish_payload self).

Definition Publish_parse_payload : parser Publish :=
  let! request_id := get_vi in
  let! track_namespace := Tuple_deserialize in
  let! track_name := get_name "Publish::parse_payload(track_name)" in
  let! track_alias := get_vi in
  let! parameters := get_params CMT_Publish in
  let! track_properties := deserialize_track_properties in
  pret (mkPublish request_id track_namespace track_name track_alias parameters track_properties).

(** ** PUBLISH_DONE ([publish_done.rs]) *)

Record PublishDone := mkPublishDone {
  pd_status_code : PublishDoneStatusCode;
  pd_stream_count : Z;
  pd_reason_phrase : ReasonPhrase
}.

Definition UNKNOWN_STREAM_COUNT : Z := U64_MAX.

Definition PublishDone_payload (self : PublishDone) : result bytes :=
  put_vi (PublishDoneStatusCode_to_u64 (pd_status_code self)) +++
  put_vi (pd_stream_count self) +++ ReasonPhrase_serialize (pd_reason_phrase self).

Definition PublishDone_serialize (self : PublishDone) : result bytes :=
  frame CMT_PublishDone "PublishDone::serialize(payload_length)" (PublishDone_payload self).

Definition PublishDone_parse_payload : parser PublishDone :=
  let! status_code_raw := get_vi in
  let status_code := PublishDoneStatusCode_from_wire status_code_raw in
  let! stream_count := get_vi in
  let! reason_phrase := ReasonPhrase_deserialize in
  pret (mkPublishDone status_code stream_count reason_phrase).

(** ** PUBLISH_NAMESPACE ([publish_namespace.rs]) *)

Record PublishNamespace := mkPublishNamespace {
  pns_request_id : Z;
  pns_track_namespace : Tuple;
  pns_parameters : list MessageParameter
}.

Definition PublishNamespace_payload (self : PublishNamespace) : result bytes :=
  put_vi (pns_request_id self) +++ Tuple_serialize (pns_track_namespace self) +++
  put_params (pns_parameters self).
Definition PublishNamespace_serialize (self : PublishNamespace) : result bytes :=
  frame CMT_PublishNamespace "PublishNamespace::serialize(payload_length)"
    (PublishNamespace_payload self).
Definition PublishNamespace_parse_payload : parser PublishNamespace :=
  let! request_id := get_vi in
  let! track_namespace := Tuple_deserialize in
  let! parameters := get_params CMT_PublishNamespace in
  pret (mkPublishNamespace request_id track_namespace parameters).

(** ** PUBLISH_SKIPPED ([publish_skipped.rs]) *)

Record PublishSkipped := mkPublishSkipped {
  psk_track_namespace_suffix : Tuple;
  psk_track_name : TupleField
}.

Definition PublishSkipped_payload (self : PublishSkipped) : result bytes :=
  Tuple_serialize (psk_track_namespace_suffix self) +++ put_len_bytes (psk_track_name self).
Definition PublishSkipped_serialize (self : PublishSkipped) : result bytes :=
  frame CMT_PublishSkipped "PublishSkipped::serialize(payload_length)" (PublishSkipped_payload self).
Definition PublishSkipped_parse_payload : parser PublishSkipped :=
  let! track_namespace_suffix := Tuple_deserialize in
  let! track_name := get_name "PublishSkipped::parse_payload(track_name)" in
  pret (mkPublishSkipped track_namespace_suffix track_name).

(** ** REQUEST_ERROR ([request_error.rs]) *)

Record RequestError := mkRequestError {
  re_error_code : RequestErrorCode;
  re_retry_interval : Z;
  re_reason_phrase : ReasonPhrase;
  re_redirect : option Redirect
}.

Definition RequestError_new (error_code : RequestErrorCode) (retry_interval : Z)
    (reason_phrase : ReasonPhrase) : RequestError :=
  mkRequestError error_code retry_interval reason_phrase None.
Definition RequestError_new_redirect (retry_interval : Z) (reason_phrase : ReasonPhrase)
    (redirect : Redirect) : RequestError :=
  mkRequestError REC_Redirect retry_interval reason_phrase (Some redirect).

Definition RequestError_payload (self : RequestError) : result bytes :=
  put_vi (RequestErrorCode_to_u64 (re_error_code self)) +++ put_vi (re_retry_interval self) +++
  ReasonPhrase_serialize (re_reason_phrase self) +++
  match re_redirect self with Some redirect => Redirect_serialize redirect | None => Ok [] end.

Definition RequestError_serialize (self : RequestError) : result bytes :=
  frame CMT_RequestError "RequestError::serialize(payload_length)" (RequestError_payload self).

Definition RequestError_parse_payload : parser RequestError :=
  let! error_code_raw := get_vi in
  let error_code := RequestErrorCode_from_wire error_code_raw in
  let! retry_interval := get_vi in
  let! reason_phrase := ReasonPhrase_deserialize in
  let! redirect :=
    (if bool_decide (error_code = REC_Redirect)
     then let! redirect := Redirect_deserialize in pret (Some redirect)
     else pret None) in
  pret (mkRequestError error_code retry_interval reason_phrase redirect).

(** ** REQUEST_OK ([request_ok.rs]) *)

Record RequestOk := mkRequestOk {
  rok_parameters : list MessageParameter;
  rok_track_properties : list TrackProperty
}.

Definition RequestOk_new (parameters : list MessageParameter) : RequestOk := mkRequestOk parameters [].

Definition validate_track_properties (self : RequestOk) (answers_track_status : bool) : result unit :=
  if negb answers_track_status && negb (Nat.eqb (length (rok_track_properties self)) 0)
  then Err (ProtocolViolation "RequestOk::validate_track_properties")
  else Ok tt.

Definition RequestOk_payload (self : RequestOk) : result bytes :=
  put_params (rok_parameters self) +++ serialize_track_properties (rok_track_properties self).
Definition RequestOk_serialize (self : RequestOk) : result bytes :=
  frame CMT_RequestOk "RequestOk::serialize(payload_length)" (RequestOk_payload self).
Definition RequestOk_parse_payload : parser RequestOk :=
  let! parameters := get_params CMT_RequestOk in
  let! track_properties := deserialize_track_properties in
  pret (mkRequestOk parameters track_properties).

(** ** REQUEST_UPDATE ([request_update.rs]) *)

Record RequestUpdate := mkRequestUpdate {
  ru_request_id : Z;
  ru_parameters : list MessageParameter
}.

Definition RequestUpdate_payload (self : RequestUpdate) : result bytes :=
  put_vi (ru_request_id self) +++ put_params (ru_parameters self).
Definition RequestUpdate_serialize (self : RequestUpdate) : result bytes :=
  frame CMT_RequestUpdate "RequestUpdate::serialize(payload_length)" (RequestUpdate_payload self).
Definition RequestUpdate_parse_payload : parser RequestUpdate :=
  let! request_id := get_vi in
  let! parameters := get_params CMT_RequestUpdate in
  pret (mkRequestUpdate request_id parameters).

(** ** SETUP ([setup.rs]) *)

Record Setup := mkSetup { setup_options : list KeyValuePair }.

Definition Setup_payload (self : Setup) : result bytes := serialize_kvp_list (setup_options self).
Definition Setup_serialize (self : Setup) : result bytes :=
  frame CMT_Setup "Setup::serialize(payload_length)" (Setup_payload self).
Definition Setup_parse_payload : parser Setup :=
  let! setup_options := deserialize_kvp_list_until_empty in
  pret (mkSetup setup_options).

(** ** SUBSCRIBE_NAMESPACE and SUBSCRIBE_TRACKS
    ([subscribe_namespace.rs], [subscribe_tracks.rs]) *)

Record SubscribeNamespace := mkSubscribeNamespace {
  sns_request_id : Z;
  sns_track_namespace_prefix : Tuple;
  sns_parameters : list MessageParameter
}.

Definition SubscribeNamespace_payload (self : SubscribeNamespace) : result bytes :=
  put_vi (sns_request_id self) +++ Tuple_serialize (sns_track_namespace_prefix self) +++
  put_params (sns_parameters self).
Definition SubscribeNamespace_serialize (self : SubscribeNamespace) : result bytes :=
  frame CMT_SubscribeNamespace "Announce::serialize" (SubscribeNamespace_payload self).
Definition SubscribeNamespace_parse_payload : parser SubscribeNamespace :=
  let! request_id := get_vi in
  let! track_namespace_prefix := Tuple_deserialize in
  let! parameters := get_params CMT_SubscribeNamespace in
  pret (mkSubscribeNamespace request_id track_namespace_prefix parameters).

Record SubscribeTracks := mkSubscribeTracks {
  st_request_id : Z;
  st_track_namespace_prefix : Tuple;
  st_parameters : list MessageParameter
}.

Definition SubscribeTracks_payload (self : SubscribeTracks) : result bytes :=
  put_vi (st_request_id self) +++ Tuple_serialize (st_track_namespace_prefix self) +++
  put_params (st_parameters self).
Definition SubscribeTracks_serialize (self : SubscribeTracks) : result bytes :=
  frame CMT_SubscribeTracks "SubscribeTracks::serialize" (SubscribeTracks_payload self).
Definition SubscribeTracks_parse_payload : parser SubscribeTracks :=
  let! request_id := get_vi in
  let! track_namespace_prefix := Tuple_deserialize in
  let! parameters := get_params CMT_SubscribeTracks in
  pret (mkSubscribeTracks request_id track_namespace_prefix parameters).

(** ** TRACK_STATUS ([track_status.rs]) *)

Record TrackStatus := mkTrackStatus {
  ts_request_id : Z;
  ts_track_namespace : Tuple;
  ts_track_name : TupleField;
  ts_parameters : list MessageParameter
}.

Definition TrackStatus_get_full_track_name (self : TrackStatus) : FullTrackName :=
  mkFullTrackName (ts_track_namespace self) (ts_track_name self).

Definition TrackStatus_payload (self : TrackStatus) : result bytes :=
  put_vi (ts_request_id self) +++ Tuple_serialize (ts_track_namespace self) +++
  put_len_bytes (ts_track_name self) +++ put_params (ts_parameters self).
Definition TrackStatus_serialize (self : TrackStatus) : result bytes :=
  frame CMT_TrackStatus "TrackStatus::serialize" (TrackStatus_payload self).
Definition TrackStatus_parse_payload : parser TrackStatus :=
  let! request_id := get_vi in
  let! track_namespace := Tuple_deserialize in
  let! track_name := get_len_bytes "TrackStatus::parse_payload(track_name_len)"
                       "TrackStatus::parse_payload(track_name)" in
  let! subscribe_parameters := get_params CMT_TrackStatus in
  pret (mkTrackStatus request_id track_namespace track_name subscribe_parameters).

End Messages.

(** * The options a peer may send in its SETUP ([setup.rs]) *)

Inductive SetupSender : Type := SS_Client | SS_Server.
Inductive TransportKind : Type := TK_WebTransport | TK_Quic.

#[export] Instance SetupSender_eq_dec : EqDecision SetupSender.
Proof. solve_decision. Defined.
#[export] Instance TransportKind_eq_dec : EqDecision TransportKind.
Proof. solve_decision. Defined.

(** The loop of [validate_incoming]. *)
Fixpoint check_setup_options (options : list KeyValuePair) (sender : SetupSender)
    (transport : TransportKind) : outcome TerminationCode unit :=
  match options with
  | [] => Ok tt
  | kvp :: rest =>
      let refuse (code : TerminationCode) :=
        if bool_decide (sender = SS_Server) || bool_decide (transport = TK_WebTransport)
        then Err code else check_setup_options rest sender transport in
      match SetupOptionType_try_from (get_type kvp) with
      | Ok SOT_Authority => refuse TC_InvalidAuthority
      | Ok SOT_Path => refuse TC_InvalidPath
      | Ok _ => check_setup_options rest sender transport
      | _ => check_setup_options rest sender transport
      end
  end.

Definition validate_incoming (self : Setup) (sender : SetupSender) (transport : TransportKind)
    : outcome TerminationCode unit :=
  check_setup_options (setup_options self) sender transport.

(** * Their sum ([control_message.rs]) *)

Inductive ControlMessage : Type :=
| CM_Namespace (m : Namespace)
| CM_NamespaceDone (m : NamespaceDone)
| CM_PublishNamespace (m : PublishNamespace)
| CM_RequestOk (m : RequestOk)
| CM_Publish (m : Publish)
| CM_PublishDone (m : PublishDone)
| CM_Fetch (m : Fetch)
| CM_FetchOk (m : FetchOk)
| CM_Goaway (m : GoAway)
| CM_Setup (m : Setup)
| CM_Subscribe (m : Subscribe)
| CM_SubscribeOk (m : SubscribeOk)
| CM_RequestUpdate (m : RequestUpdate)
| CM_TrackStatus (m : TrackStatus)
| CM_SubscribeNamespace (m : SubscribeNamespace)
| CM_SubscribeTracks (m : SubscribeTracks)
| CM_RequestError (m : RequestError)
| CM_PublishSkipped (m : PublishSkipped).

Definition ControlMessage_serialize (self : ControlMessage) : result bytes :=
  match self with
  | CM_Namespace msg => Namespace_serialize msg
  | CM_NamespaceDone msg => NamespaceDone_serialize msg
  | CM_PublishNamespace msg => PublishNamespace_serialize msg
  | CM_RequestError msg => RequestError_serialize msg
  | CM_RequestOk msg => RequestOk_serialize msg
  | CM_Publish msg => Publish_serialize msg
  | CM_PublishDone msg => PublishDone_serialize msg
  | CM_Fetch msg => Fetch_serialize msg
  | CM_FetchOk msg => FetchOk_serialize msg
  | CM_Goaway msg => GoAway_serialize msg
  | CM_Setup msg => Setup_serialize msg
  | CM_Subscribe msg => Subscribe_serialize msg
  | CM_SubscribeOk msg => SubscribeOk_serialize msg
  | CM_RequestUpdate msg => RequestUpdate_serialize msg
  | CM_TrackStatus msg => TrackStatus_serialize msg
  | CM_SubscribeNamespace msg => SubscribeNamespace_serialize msg
  | CM_SubscribeTracks msg => SubscribeTracks_serialize msg
  | CM_PublishSkipped msg => PublishSkipped_serialize msg
  end.

Definition ControlMessage_get_type (self : ControlMessage) : ControlMessageType :=
  match self with
  | CM_Namespace _ => CMT_Namespace
  | CM_NamespaceDone _ => CMT_NamespaceDone
  | CM_PublishNamespace _ => CMT_PublishNamespace
  | CM_RequestError _ => CMT_RequestError
  | CM_RequestOk _ => CMT_RequestOk
  | CM_Publish _ => CMT_Publish
  | CM_PublishDone _ => CMT_PublishDone
  | CM_Fetch _ => CMT_Fetch
  | CM_FetchOk _ => CMT_FetchOk
  | CM_Goaway _ => CMT_GoAway
  | CM_Setup _ => CMT_Setup
  | CM_Subscribe _ => CMT_Subscribe
  | CM_SubscribeOk _ => CMT_SubscribeOk
  | CM_RequestUpdate _ => CMT_RequestUpdate
  | CM_TrackStatus _ => CMT_TrackStatus
  | CM_SubscribeNamespace _ => CMT_SubscribeNamespace
  | CM_SubscribeTracks _ => CMT_SubscribeTracks
  | CM_PublishSkipped _ => CMT_PublishSkipped
  end.

Definition ControlMessage_request_id (self : ControlMessage) : option Z :=
  match self with
  | CM_Subscribe m => Some (sub_request_id m)
  | CM_Publish m => Some (pub_request_id m)
  | CM_Fetch m => Some (fetch_request_id m)
  | CM_SubscribeNamespace m => Some (sns_request_id m)
  | CM_SubscribeTracks m => Some (st_request_id m)
  | CM_PublishNamespace m => Some (pns_request_id m)
  | CM_RequestUpdate m => Some (ru_request_id m)
  | CM_TrackStatus m => Some (ts_request_id m)
  | _ => None
  end.

Section Envelope.
Context `{Target}.

(** [X::parse_payload(&mut payload).map(ControlMessage::X)]. *)
Definition parsed {A} (p : parser A) (c : A -> ControlMessage) : parser ControlMessage :=
  let! m := p in pret (c m).

Definition ControlMessage_parse_payload (msg_type : ControlMessageType) : parser ControlMessage :=
  match msg_type with
  | CMT_Namespace => parsed Namespace_parse_payload CM_Namespace
  | CMT_NamespaceDone => parsed NamespaceDone_parse_payload CM_NamespaceDone
  | CMT_PublishNamespace => parsed PublishNamespace_parse_payload CM_PublishNamespace
  | CMT_RequestError => parsed RequestError_parse_payload CM_RequestError
  | CMT_RequestOk => parsed RequestOk_parse_payload CM_RequestOk
  | CMT_Publish => parsed Publish_parse_payload CM_Publish
  | CMT_PublishOk => parsed RequestOk_parse_payload CM_RequestOk
  | CMT_PublishDone => parsed PublishDone_parse_payload CM_PublishDone
  | CMT_Setup => parsed Setup_parse_payload CM_Setup
  | CMT_Fetch => parsed Fetch_parse_payload CM_Fetch
  | CMT_FetchOk => parsed FetchOk_parse_payload CM_FetchOk
  | CMT_GoAway => parsed GoAway_parse_payload CM_Goaway
  | CMT_Subscribe => parsed Subscribe_parse_payload CM_Subscribe
  | CMT_SubscribeOk => parsed SubscribeOk_parse_payload CM_SubscribeOk
  | CMT_RequestUpdate => parsed RequestUpdate_parse_payload CM_RequestUpdate
  | CMT_TrackStatus => parsed TrackStatus_parse_payload CM_TrackStatus
  | CMT_SubscribeNamespace => parsed SubscribeNamespace_parse_payload CM_SubscribeNamespace
  | CMT_SubscribeTracks => parsed SubscribeTracks_parse_payload CM_SubscribeTracks
  | CMT_PublishSkipped => parsed PublishSkipped_parse_payload CM_PublishSkipped
  end.

(** The 16-bit payload length; the error reports no bytes available whatever
    there are. *)
Definition get_payload_length : parser Z :=
  let! rem := remaining in
  if rem <? 2 then pfail (NotEnoughBytes "ControlMessage::deserialize(payload_length)" 2 0)
  else get_u16.

Definition ControlMessage_deserialize : parser ControlMessage :=
  let! message_type := get_vi in
  let! msg_type := lift (ControlMessageType_try_from message_type) in
  let! payload_length := get_payload_length in
  let! payload := get_bytes "ControlMessage::deserialize(payload_length)" payload_length in
  let message := ControlMessage_parse_payload msg_type payload in
  let! m := lift (omap_err (fun _ => ProtocolViolation "ControlMessage::deserialize(payload)")
                    (fst message)) in
  if negb (blen (snd message) =? 0)
  then pfail (ProtocolViolation "ControlMessage::deserialize(final_check)")
  else pret m.

End Envelope.

(** * Lemmas *)

(** ** Well-formed messages

    [cm_ok] is what a sender has to respect for a message to be read, [canon]
    how it is read: parameters and properties in the order of their Types. *)

Abbreviation sort_params := (sort_by_key type_value).
Abbreviation sort_props := (sort_by_key TrackProperty_type_value).

Definition uri_ok (uri : option bytes) : Prop :=
  match uri with
  | Some u => bytes_ok u /\ 0 < blen u <= MAX_NEW_SESSION_URI_LEN /\ utf8_valid u = true
  | None => True
  end.

Definition redirect_field_ok (m : RequestError) : Prop :=
  match re_redirect m with
  | Some r => redirect_ok r /\ re_error_code m = REC_Redirect
  | None => re_error_code m <> REC_Redirect
  end.

(** [P] is what is asked of the parameters. *)
Definition cm_fields (P : ControlMessageType -> list MessageParameter -> Prop) (m : ControlMessage)
    : Prop :=
  match m with
  | CM_Namespace m => tuple_ok (ns_track_namespace_suffix m)
  | CM_NamespaceDone m => tuple_ok (nsd_track_namespace_suffix m)
  | CM_PublishNamespace m => is_u64 (pns_request_id m) /\ tuple_ok (pns_track_namespace m) /\
      P CMT_PublishNamespace (pns_parameters m)
  | CM_RequestOk m => P CMT_RequestOk (rok_parameters m) /\ Forall tp_ok (rok_track_properties m)
  | CM_Publish m => is_u64 (pub_request_id m) /\ tuple_ok (pub_track_namespace m) /\
      data_ok (pub_track_name m) /\ is_u64 (pub_track_alias m) /\
      P CMT_Publish (pub_parameters m) /\ Forall tp_ok (pub_track_properties m)
  | CM_PublishDone m => is_u64 (pd_stream_count m) /\ reason_ok (pd_reason_phrase m)
  | CM_Fetch m => is_u64 (fetch_request_id m) /\ tuple_ok (fetch_track_namespace m) /\
      data_ok (fetch_track_name m) /\ P CMT_Fetch (fetch_parameters m)
  | CM_FetchOk m => loc_ok (fok_end_location m) /\ P CMT_FetchOk (fok_parameters m) /\
      Forall tp_ok (fok_track_properties m)
  | CM_Goaway m => uri_ok (new_session_uri m) /\ is_u64 (goaway_timeout m)
  | CM_Setup m => Forall kvp_wf (setup_options m)
  | CM_Subscribe m => is_u64 (sub_request_id m) /\ tuple_ok (sub_track_namespace m) /\
      data_ok (sub_track_name m) /\ P CMT_Subscribe (sub_parameters m)
  | CM_SubscribeOk m => is_u64 (sok_track_alias m) /\ P CMT_SubscribeOk (sok_parameters m) /\
      Forall tp_ok (sok_track_properties m)
  | CM_RequestUpdate m => is_u64 (ru_request_id m) /\ P CMT_RequestUpdate (ru_parameters m)
  | CM_TrackStatus m => is_u64 (ts_request_id m) /\ tuple_ok (ts_track_namespace m) /\
      data_ok (ts_track_name m) /\ P CMT_TrackStatus (ts_parameters m)
  | CM_SubscribeNamespace m => is_u64 (sns_request_id m) /\ tuple_ok (sns_track_namespace_prefix m) /\
      P CMT_SubscribeNamespace (sns_parameters m)
  | CM_SubscribeTracks m => is_u64 (st_request_id m) /\ tuple_ok (st_track_namespace_prefix m) /\
      P CMT_SubscribeTracks (st_parameters m)
  | CM_RequestError m => is_u64 (re_retry_interval m) /\ reason_ok (re_reason_phrase m) /\
      redirect_field_ok m
  | CM_PublishSkipped m => tuple_ok (psk_track_namespace_suffix m) /\ data_ok (psk_track_name m)
  end.

Definition cm_ok (m : ControlMessage) : Prop := cm_fields params_field m.

Definition canon (m : ControlMessage) : ControlMessage :=
  match m with
  | CM_PublishNamespace m => CM_PublishNamespace
      (mkPublishNamespace (pns_request_id m) (pns_track_namespace m) (sort_params (pns_parameters m)))
  | CM_RequestOk m => CM_RequestOk
      (mkRequestOk (sort_params (rok_parameters m)) (sort_props (rok_track_properties m)))
  | CM_Publish m => CM_Publish
      (mkPublish (pub_request_id m) (pub_track_namespace m) (pub_track_name m) (pub_track_alias m)
         (sort_params (pub_parameters m)) (sort_props (pub_track_properties m)))
  | CM_Fetch m => CM_Fetch
      (mkFetch (fetch_request_id m) (fetch_track_namespace m) (fetch_track_name m)
         (sort_params (fetch_parameters m)))
  | CM_FetchOk m => CM_FetchOk
      (mkFetchOk (fok_end_of_track m) (fok_end_location m) (sort_params (fok_parameters m))
         (sort_props (fok_track_properties m)))
  | CM_Setup m => CM_Setup (mkSetup (sort_by_key get_type (setup_options m)))
  | CM_Subscribe m => CM_Subscribe
      (mkSubscribe (sub_request_id m) (sub_track_namespace m) (sub_track_name m)
         (sort_params (sub_parameters m)))
  | CM_SubscribeOk m => CM_SubscribeOk
      (mkSubscribeOk (sok_track_alias m) (sort_params (sok_parameters m))
         (sort_props (sok_track_properties m)))
  | CM_RequestUpdate m => CM_RequestUpdate
      (mkRequestUpdate (ru_request_id m) (sort_params (ru_parameters m)))
  | CM_TrackStatus m => CM_TrackStatus
      (mkTrackStatus (ts_request_id m) (ts_track_namespace m) (ts_track_name m)
         (sort_params (ts_parameters m)))
  | CM_SubscribeNamespace m => CM_SubscribeNamespace
      (mkSubscribeNamespace (sns_request_id m) (sns_track_namespace_prefix m)
         (sort_params (sns_parameters m)))
  | CM_SubscribeTracks m => CM_SubscribeTracks
      (mkSubscribeTracks (st_request_id m) (st_track_namespace_prefix m) (sort_params (st_parameters m)))
  | m => m
  end.

Definition cm_payload (m : ControlMessage) : result bytes :=
  match m with
  | CM_Namespace m => Namespace_payload m
  | CM_NamespaceDone m => NamespaceDone_payload m
  | CM_PublishNamespace m => PublishNamespace_payload m
  | CM_RequestError m => RequestError_payload m
  | CM_RequestOk m => RequestOk_payload m
  | CM_Publish m => Publish_payload m
  | CM_PublishDone m => PublishDone_payload m
  | CM_Fetch m => Fetch_payload m
  | CM_FetchOk m => FetchOk_payload m
  | CM_Goaway m => GoAway_payload m
  | CM_Setup m => Setup_payload m
  | CM_Subscribe m => Subscribe_payload m
  | CM_SubscribeOk m => SubscribeOk_payload m
  | CM_RequestUpdate m => RequestUpdate_payload m
  | CM_TrackStatus m => TrackStatus_payload m
  | CM_SubscribeNamespace m => SubscribeNamespace_payload m
  | CM_SubscribeTracks m => SubscribeTracks_payload m
  | CM_PublishSkipped m => PublishSkipped_payload m
  end.

(** Every message is its payload in the frame of its type. *)
Lemma serialize_frame m : exists ctx,
  ControlMessage_serialize m = frame (ControlMessage_get_type m) ctx (cm_payload m).
Proof. destruct m; by eexists. Qed.

Section Sends.
Context `{Target}.

(** ** The messages with a field of their own *)

Lemma PublishDone_sends m : is_u64 (pd_stream_count m) -> reason_ok (pd_reason_phrase m) ->
  sends_last (PublishDone_payload m) PublishDone_parse_payload m.
Proof.
  intros H1 H2. destruct m as [c n r]. unfold PublishDone_payload, PublishDone_parse_payload. simpl in *.
  eapply sends_last_cat.
  { apply sends_vi. destruct c; unfold is_u64; simpl; lia. }
  cbv zeta. unfold PublishDoneStatusCode_from_wire. rewrite (proj1 PublishDoneStatusCode_exact). send.
Qed.

Lemma RequestError_sends m : is_u64 (re_retry_interval m) -> reason_ok (re_reason_phrase m) ->
  redirect_field_ok m -> sends_last (RequestError_payload m) RequestError_parse_payload m.
Proof.
  intros H1 H2 H3. destruct m as [c n r rd]. unfold RequestError_payload, RequestError_parse_payload.
  unfold redirect_field_ok in H3. simpl in *. eapply sends_last_cat.
  { apply sends_vi. destruct c; unfold is_u64; simpl; lia. }
  cbv zeta. unfold RequestErrorCode_from_wire. rewrite (proj1 RequestErrorCode_exact).
  do 2 (eapply sends_last_cat; [solve [eauto 2 with send]|]).
  apply (sends_last_ret _ _ (mkRequestError c n r)). destruct rd as [rd|].
  - destruct H3 as [H3 ->]. simpl.
    apply sends_last_ret, sends_sends_last, (sends_wire redirect_ok); [apply _|done].
  - rewrite bool_decide_eq_false_2 by done. right. exists []. split; [done|]. split; [constructor|done].
Qed.

Lemma GoAway_uri_sends uri : uri_ok uri ->
  sends (match uri with Some uri => put_len_bytes uri | None => put_vi 0 end) GoAway_uri uri.
Proof.
  intros Hu. unfold GoAway_uri. destruct uri as [u|]; right.
  - destruct Hu as (Hb&Hl&Hv). unfold MAX_NEW_SESSION_URI_LEN in *.
    assert (data_ok u) as Hd by (split; [done|ulia]). pose proof (blen_u64 _ Hd).
    exists (encode_vi (blen u) ++ u). split; [by apply put_len_bytes_Ok|]. split; [bytes_parts|].
    eapply decodes_bind; [auto with wire|]. eapply decodes_bind_nil; [auto with wire|].
    destruct (Z.ltb_spec 8192 (blen u)); [lia|]. destruct (Z.eqb_spec (blen u) 0); [lia|].
    eapply decodes_bind_last; [auto with wire|].
    eapply decodes_bind_nil; [by apply decodes_from_utf8|apply decodes_ret].
  - exists [0]. split; [done|]. split; [apply bytes_ok_byte; unfold is_u8; lia|].
    eapply decodes_bind_last; [apply (encode_vi_decodes 0); unfold is_u64; lia|].
    eapply decodes_bind_nil; [apply decodes_to_usize; unfold is_u64; lia|]. apply decodes_ret.
Qed.

Lemma FetchOk_sends m : loc_ok (fok_end_location m) -> params_field CMT_FetchOk (fok_parameters m) ->
  Forall tp_ok (fok_track_properties m) ->
  sends_last (FetchOk_payload m) FetchOk_parse_payload
    (mkFetchOk (fok_end_of_track m) (fok_end_location m) (sort_params (fok_parameters m))
       (sort_props (fok_track_properties m))).
Proof.
  intros H1 H2 H3. destruct m as [e l ps tps]. unfold FetchOk_payload, FetchOk_parse_payload.
  cbn [fok_end_of_track fok_end_location fok_parameters fok_track_properties] in *.
  eapply (sends_last_cat _ _ _ _ (if e then 1 else 0)).
  { right. eexists. split; [done|]. split; [apply bytes_ok_byte; destruct e; unfold is_u8; lia|].
    auto with wire. }
  eapply (sends_last_nil _ _ _ e); [by destruct e|]. send.
Qed.

Lemma cm_sends m : cm_ok m ->
  sends_last (cm_payload m) (ControlMessage_parse_payload (ControlMessage_get_type m)) (canon m).
Proof.
  unfold cm_ok. intros Hm. destruct m as [m|m|m|m|m|m|m|m|m|m|m|m|m|m|m|m|m|m];
    cbn [cm_payload ControlMessage_parse_payload ControlMessage_get_type canon cm_fields] in *;
    destruct_and?; unfold parsed;
    try (match goal with |- sends_last _ _ (?c ?x) => apply (sends_last_ret _ _ c x) end).
  all: try (match goal with m : ?T |- sends_last (_ ?m) _ ?x =>
    first [apply FetchOk_sends; assumption | apply PublishDone_sends; assumption
          | apply RequestError_sends; assumption
          | destruct m; unfold Namespace_payload, Namespace_parse_payload, NamespaceDone_payload,
             NamespaceDone_parse_payload, PublishNamespace_payload, PublishNamespace_parse_payload,
             RequestOk_payload, RequestOk_parse_payload, Publish_payload, Publish_parse_payload,
             Fetch_payload, Fetch_parse_payload, Subscribe_payload, Subscribe_parse_payload,
             SubscribeOk_payload, SubscribeOk_parse_payload, RequestUpdate_payload,
             RequestUpdate_parse_payload, TrackStatus_payload, TrackStatus_parse_payload,
             SubscribeNamespace_payload, SubscribeNamespace_parse_payload, SubscribeTracks_payload,
             SubscribeTracks_parse_payload, PublishSkipped_payload, PublishSkipped_parse_payload;
            simpl in *; solve [send]] end).
  - destruct m as [u t]. unfold GoAway_payload, GoAway_parse_payload. simpl in *.
    eapply sends_last_cat; [by apply GoAway_uri_sends|]. send.
  - destruct m as [o]. unfold Setup_payload, Setup_parse_payload. simpl in *.
    apply sends_last_ret. right. destruct (serialize_kvp_list_Ok o Hm) as [bs E]. exists bs.
    destruct (kvp_list_until_empty_decodes o bs Hm E). done.
Qed.

(** ** Any payload *)

Lemma GoAway_uri_robust : robust 1 GoAway_uri uri_ok.
Proof.
  unfold GoAway_uri. robust_step. rewrite to_usize_Ok by done. apply robust_lift_Ok_bind.
  robust_step; [robust_step|]. robust_step; [by apply robust_ret|]. robust_step.
  eapply (robust_bind_any 0 0); [apply robust_from_utf8|lia|]. intros u [-> Hu].
  apply robust_ret. unfold uri_ok, MAX_NEW_SESSION_URI_LEN, is_u64 in *. destruct_and!.
  split; [done|]. split; [lia|done].
Qed.

Lemma robust_Tuple : robust 1 Tuple_deserialize tuple_ok.
Proof. apply (wire_robust (Wire:=Wire_Tuple)). Qed.
Lemma robust_Location : robust 1 Location_deserialize loc_ok.
Proof. apply (wire_robust (Wire:=Wire_Location)). Qed.
Lemma robust_reason : robust 1 ReasonPhrase_deserialize reason_ok.
Proof. apply (wire_robust (Wire:=Wire_ReasonPhrase)). Qed.
Lemma robust_name c1 c2 : robust 1 (get_len_bytes c1 c2) data_ok.
Proof. apply (wire_robust (Wire:=Wire_len_bytes c1 c2)). Qed.
Lemma robust_end_of_track v : robust 0 (lift (FetchOk_end_of_track v)) (fun _ => True).
Proof. apply robust_lift; [|done]. unfold FetchOk_end_of_track. by repeat case_if. Qed.
Lemma robust_redirect c : robust 0
    (if bool_decide (c = REC_Redirect) then let! redirect := Redirect_deserialize in pret (Some redirect)
     else pret None)
    (fun r => match r with Some r => redirect_ok r /\ c = REC_Redirect | None => c <> REC_Redirect end).
Proof.
  case_bool_decide; [|by apply robust_ret].
  eapply (robust_bind_any 0); [apply (wire_robust (Wire:=Wire_Redirect))|lia|].
  intros r Hr. by apply robust_ret.
Qed.
Hint Resolve robust_Tuple robust_Location robust_reason robust_name robust_end_of_track
  robust_redirect GoAway_uri_robust kvp_list_until_empty_robust : robust.

(** What a reader makes: the fields in range, parameters and properties in
    order. *)
Definition cm_read (m : ControlMessage) : Prop := cm_fields params_ok m /\ canon m = m.

Lemma parsed_guarded {A} (p : parser A) c :
  guarded huge_count 0 p (fun m => cm_read (c m)) -> guarded huge_count 0 (parsed p c) cm_read.
Proof.
  intros H1. unfold parsed. eapply (guarded_bind huge_count 0 0 0); [exact H1| |lia].
  intros m Hm. by apply robust_guarded, robust_ret.
Qed.

(** The parameters and properties were read in order, so sorting them again
    changes nothing. *)
Ltac read_done :=
  destruct_and?; split; cbn -[sort_by_key tuple_ok loc_ok reason_ok uri_ok params_ok is_u64];
  [repeat match goal with |- _ /\ _ => split end; assumption
  | rewrite ?sort_by_key_id by assumption; reflexivity].

Lemma parse_payload_guarded t : guarded huge_count 0 (ControlMessage_parse_payload t) cm_read.
Proof.
  destruct t; cbn [ControlMessage_parse_payload]; apply parsed_guarded;
    unfold Namespace_parse_payload, NamespaceDone_parse_payload, PublishNamespace_parse_payload,
      RequestOk_parse_payload, Publish_parse_payload, Fetch_parse_payload, FetchOk_parse_payload,
      GoAway_parse_payload, PublishDone_parse_payload, RequestError_parse_payload,
      Subscribe_parse_payload, SubscribeOk_parse_payload, RequestUpdate_parse_payload,
      TrackStatus_parse_payload, SubscribeNamespace_parse_payload, SubscribeTracks_parse_payload,
      PublishSkipped_parse_payload, Setup_parse_payload; cbv zeta; guard_go; read_done.
Qed.
End Sends.

(** ** The envelope *)

Lemma ControlMessageType_u64 t : is_u64 (ControlMessageType_to_u64 t).
Proof. destruct t; unfold is_u64; simpl; lia. Qed.

Lemma decodes_payload_length n : 0 <= n < U16 -> decodes get_payload_length (put_u16 n) n.
Proof.
  intros Hn rest. unfold get_payload_length, put_u16, pbind, remaining.
  change ([Z.shiftr n 8; Z.land n 255] ++ rest) with (Z.shiftr n 8 :: Z.land n 255 :: rest).
  assert (forall a b, (blen (a :: b :: rest) <? 2) = false) as Hl by (intros; apply Z.ltb_ge; ulia).
  rewrite Hl. unfold get_u16. do 2 f_equal. rewrite land_255, Z.shiftr_div_pow2 by lia.
  change (2 ^ 8) with 256. pose proof (Z.div_mod n 256). lia.
Qed.

Lemma put_u16_ok n : 0 <= n < U16 -> bytes_ok (put_u16 n).
Proof.
  intros Hn. unfold put_u16. rewrite land_255, Z.shiftr_div_pow2 by lia. change (2 ^ 8) with 256.
  constructor; [|apply bytes_ok_byte]; unfold is_u8; [|apply Z.mod_pos_bound; lia].
  split; [apply Z.div_pos; lia|apply Z.div_lt_upper_bound; lia].
Qed.

Lemma robust_payload_length : robust 2 get_payload_length (fun n => 0 <= n < U16).
Proof.
  intros bs Hbs. unfold get_payload_length, pbind, remaining, pfail.
  destruct (Z.ltb_spec (blen bs) 2); [done|].
  destruct bs as [|a [|b r]]; [ulia..|]. inversion Hbs as [|? ? Ha Hr]; subst.
  inversion Hr as [|? ? Hb _]; subst. unfold get_u16. unfold is_u8 in *.
  split; [by exists [a; b]|]. split; [simpl; lia|lia].
Qed.

Lemma stable_payload_length : stable get_payload_length.
Proof.
  intros [|a [|b r]] ext; [done..|].
  assert (forall l, (blen (a :: b :: l) <? 2) = false) as H2 by (intros; apply Z.ltb_ge; ulia).
  unfold get_payload_length, pbind, remaining, get_u16. rewrite H2.
  change ((a :: b :: r) ++ ext) with (a :: b :: r ++ ext). by rewrite H2.
Qed.
#[export] Hint Resolve stable_payload_length : stable.

Section Envelopes.
Context `{Target}.

Lemma stable_ControlMessage : stable ControlMessage_deserialize.
Proof. unfold ControlMessage_deserialize. stable_go. Qed.

(** A message whose payload is known. *)
Lemma envelope_decodes t payload m :
  bytes_ok payload -> blen payload < U16 -> ControlMessage_parse_payload t payload = (Ok m, []) ->
  decodes ControlMessage_deserialize
    (encode_vi (ControlMessageType_to_u64 t) ++ put_u16 (blen payload) ++ payload) m.
Proof.
  intros Hb Hl Hp. pose proof (blen_nonneg payload). unfold ControlMessage_deserialize.
  eapply decodes_bind; [apply encode_vi_decodes, ControlMessageType_u64|].
  eapply decodes_bind_nil; [rewrite (proj1 ControlMessageType_exact); apply decodes_lift|].
  eapply decodes_bind; [by apply decodes_payload_length|].
  eapply decodes_bind_last; [auto with wire|]. rewrite Hp. apply (decodes_bind_nil _ _ _ m); done.
Qed.

Lemma ControlMessage_transmits m : cm_ok m ->
  (exists bs, ControlMessage_serialize m = Ok bs /\ bytes_ok bs /\
     decodes ControlMessage_deserialize bs (canon m)) \/
  (exists payload e, cm_payload m = Ok payload /\ U16 <= blen payload /\
     ControlMessage_serialize m = Err e) \/
  too_long (ControlMessage_serialize m).
Proof.
  intros Hm. destruct (serialize_frame m) as [ctx ->]. unfold frame.
  rewrite put_vi_Ok by apply ControlMessageType_u64. cbn [obind].
  destruct (cm_sends m Hm) as [Hl|(payload&->&Hb&Hp)]; [right; right; by apply too_long_bind|].
  cbn [obind]. unfold to_u16. destruct (Z.ltb_spec (blen payload) U16); cbn [obind].
  - left. eexists. split; [done|]. split; [|by apply envelope_decodes].
    rewrite !bytes_ok_app. split; [apply encode_vi_ok, ControlMessageType_u64|].
    split; [apply put_u16_ok; ulia|done].
  - right. left. eauto.
Qed.
End Envelopes.

(** * Properties *)

(** C20: control messages survive the wire.  A well-formed message of each of
    the eighteen kinds is written and read back as itself, its parameters and
    properties in the order of their Types, whatever follows it; the only ones
    that are not written are those whose payload does not fit the 16-bit
    length and those with a value over the length a pair may have, and for
    these [serialize] returns an error.  A message that has only arrived in
    part is never mistaken for another one: reading it asks for more bytes. *)
Theorem control_message_roundtrip `{Target} m :
  cm_ok m ->
  (exists bs, ControlMessage_serialize m = Ok bs /\ bytes_ok bs /\
     decodes ControlMessage_deserialize bs (canon m) /\
     forall pre ext, bs = pre ++ ext -> ext <> [] ->
       exists ctx needed available r,
         ControlMessage_deserialize pre = (Err (NotEnoughBytes ctx needed available), r)) \/
  (exists payload e, cm_payload m = Ok payload /\ U16 <= blen payload /\
     ControlMessage_serialize m = Err e) \/
  too_long (ControlMessage_serialize m).
Proof.
  intros Hm. destruct (ControlMessage_transmits m Hm) as [(bs&E&Hb&D)|?]; [left|by right].
  exists bs. split; [done|]. split; [done|]. split; [done|].
  intros pre ext -> Hne. eapply stable_prefix; [apply stable_ControlMessage|exact D|done].
Qed.

Lemma control_message_roundtrip_witness :
  let m := CM_Subscribe (mkSubscribe 4 [[118]; [49]] [97] example_params) in
  is_ok (ControlMessage_serialize m) = true /\
  ((exists bs, ControlMessage_serialize m = Ok bs /\ bytes_ok bs /\
      decodes (ControlMessage_deserialize (H:=release_build)) bs (canon m) /\
      forall pre ext, bs = pre ++ ext -> ext <> [] ->
        exists ctx needed available r,
          ControlMessage_deserialize (H:=release_build) pre =
            (Err (NotEnoughBytes ctx needed available), r)) \/
   (exists payload e, cm_payload m = Ok payload /\ U16 <= blen payload /\
      ControlMessage_serialize m = Err e) \/
   too_long (ControlMessage_serialize m)).
Proof.
  intros m. split; [vm_compute; reflexivity|].
  apply (control_message_roundtrip (H:=release_build) m).
  assert (forall b, 0 <= b < 256 -> data_ok [b]) as Hb.
  { intros b Hb. split; [by apply bytes_ok_byte|reflexivity]. }
  split; [unfold is_u64; simpl; lia|]. split.
  { split; [|reflexivity]. repeat (apply List.Forall_cons; [apply Hb; lia|]). constructor. }
  split; [apply Hb; lia|]. split; [|vm_compute; discriminate].
  split; [|repeat constructor]. repeat constructor; cbv; repeat split; discriminate.
Defined.

(** Reading any message. *)
Lemma ControlMessage_guarded `{Target} : guarded huge_count 1 ControlMessage_deserialize cm_read.
Proof.
  unfold ControlMessage_deserialize.
  eapply guarded_robust_bind; [apply _|apply get_vi_robust|lia|]. intros v Hv.
  eapply (guarded_robust_bind _ 0 0 _ _ (fun _ => True)); [|lia|].
  { apply (robust_registry ControlMessageType_to_u64); [apply ControlMessageType_exact|done]. }
  intros t _. eapply (guarded_robust_bind _ 0 2); [apply robust_payload_length|lia|]. intros n Hn.
  intros bs Hbs. unfold pbind at 1.
  pose proof (robust_get_bytes "ControlMessage::deserialize(payload_length)" n bs Hbs) as R.
  destruct (get_bytes _ n bs) as [[payload|e| |] r] eqn:Eg; try done.
  destruct R as (Hs&Hl&Hp&_). pose proof (parse_payload_guarded t payload Hp) as P.
  assert (bs = payload ++ r) as Hsplit.
  { unfold get_bytes, copy_to_bytes, need, pbind in Eg. repeat case_if; simplify_eq.
    by rewrite take_drop. }
  unfold pbind, lift.
  destruct (ControlMessage_parse_payload t payload) as [[m|e| |] left]; simpl; try done.
  - destruct P as (_&_&Hm). destruct (negb (blen left =? 0)); simpl; [done|].
    split; [done|]. split; [lia|done].
  - rewrite Hsplit. by apply huge_count_app.
Qed.

(** C21: what a peer's control stream can do.  On any buffer, reading a message
    ends with a message all of whose fields are in range, whose parameters are
    ones this message may carry, and which is written as it was read, the rest
    of the buffer untouched; or with an error; or it panics, and then only when
    some integer in the buffer is too large for the capacity of a vector of
    parameters. *)
Theorem control_message_checked `{Target} bs :
  bytes_ok bs ->
  match ControlMessage_deserialize bs with
  | (Ok m, r) => r `suffix_of` bs /\ (length r < length bs)%nat /\ cm_fields params_ok m /\ canon m = m
  | (Err _, r) => r `suffix_of` bs
  | (Panic, _) => exists r count r', r `suffix_of` bs /\ get_vi r = (Ok count, r') /\
      ISIZE_MAX < count * size_of_MessageParameter
  | (Diverge, _) => False
  end.
Proof.
  intros Hbs. pose proof (ControlMessage_guarded bs Hbs) as G. destruct (ControlMessage_deserialize bs) as [[m|e| |] r]; try done.
  destruct G as (?&?&?&?). split; [done|]. split; [lia|done].
Qed.

(** A SUBSCRIBE of thirteen bytes that announces 2^60 parameters. *)
Lemma control_message_checked_witness :
  let bs := [3; 0; 12; 0; 0; 0; 255; 16; 0; 0; 0; 0; 0; 0; 0] in
  fst (ControlMessage_deserialize (H:=release_build) bs) = Panic /\
  match ControlMessage_deserialize (H:=release_build) bs with
  | (Ok m, r) => r `suffix_of` bs /\ (length r < length bs)%nat /\ cm_fields params_ok m /\ canon m = m
  | (Err _, r) => r `suffix_of` bs
  | (Panic, _) => exists r count r', r `suffix_of` bs /\ get_vi r = (Ok count, r') /\
      ISIZE_MAX < count * @size_of_MessageParameter release_build
  | (Diverge, _) => False
  end.
Proof.
  intros bs. split; [vm_compute; reflexivity|].
  apply (control_message_checked (H:=release_build) bs).
  repeat (apply List.Forall_cons; [unfold is_u8; lia|]). constructor.
Defined.
