(* ===== verification/SetupOption.v ===== *)
(** Setup options ([libs/moqtail-rs/src/model/parameter/setup_option.rs]) and
    which of them a peer may send ([control/setup.rs]). *)
From S2P Require Import Prelude Varint Pair Common Codes AuthorizationToken Control.

Inductive SetupOption : Type :=
| SO_Path (moqt_path : bytes)
| SO_AuthorizationToken (token : AuthorizationToken)
| SO_MaxAuthTokenCacheSize (max_size : Z)
| SO_Authority (authority : bytes)
| SO_MaxFilterRanges (value : Z)
| SO_MoqtImplementation (info : bytes)
| SO_MaxRequestUpdates (value : Z)
| SO_SstsAlgorithms (algorithms : list Z).

Definition SOT (t : SetupOptionType) : Z := SetupOptionType_to_u64 t.

(** [for algorithm in algorithms { data.put_vi(algorithm)?; }] *)
Fixpoint put_algorithms (algorithms : list Z) : result bytes :=
  match algorithms with
  | [] => Ok []
  | algorithm :: rest =>
      let? a := put_vi algorithm in
      let? r := put_algorithms rest in
      Ok (a ++ r)
  end.

Definition SetupOption_try_into (self : SetupOption) : result KeyValuePair :=
  match self with
  | SO_Path moqt_path => try_new_bytes (SOT SOT_Path) moqt_path
  | SO_AuthorizationToken token =>
      let? data := AuthorizationToken_serialize token in
      try_new_bytes (SOT SOT_AuthorizationToken) data
  | SO_MaxAuthTokenCacheSize max_size => try_new_varint (SOT SOT_MaxAuthTokenCacheSize) max_size
  | SO_MaxFilterRanges value => try_new_varint (SOT SOT_MaxFilterRanges) value
  | SO_MoqtImplementation info => try_new_bytes (SOT SOT_MoqtImplementation) info
  | SO_MaxRequestUpdates value => try_new_varint (SOT SOT_MaxRequestUpdates) value
  | SO_Authority authority => try_new_bytes (SOT SOT_Authority) authority
  | SO_SstsAlgorithms algorithms =>
      let? data := put_algorithms algorithms in
      try_new_bytes (SOT SOT_SstsAlgorithms) data
  end.

(** Every branch of [serialize] builds the pair and serializes it; a token that
    fails to serialize is reported as another error. *)
Definition SetupOption_serialize (self : SetupOption) : result bytes :=
  let? kvp :=
    match self with
    | SO_AuthorizationToken token =>
        let? data := omap_err (fun _ => OtherError "SetupOption::serialize")
                       (AuthorizationToken_serialize token) in
        try_new_bytes (SOT SOT_AuthorizationToken) data
    | other => SetupOption_try_into other
    end in
  KeyValuePair_serialize kvp.

(** [while payload.has_remaining() { algorithms.push(payload.get_vi()?); }] *)
Definition algorithm_step (algorithms : list Z) : parser (list Z) :=
  let! a := get_vi in pret (algorithms ++ [a]).

Definition SetupOption_deserialize (kvp : KeyValuePair) : result SetupOption :=
  match kvp with
  | KvVarInt type_value value =>
      let? type_value := SetupOptionType_try_from type_value in
      match type_value with
      | SOT_MaxAuthTokenCacheSize => Ok (SO_MaxAuthTokenCacheSize value)
      | SOT_MaxFilterRanges => Ok (SO_MaxFilterRanges value)
      | SOT_MaxRequestUpdates => Ok (SO_MaxRequestUpdates value)
      | _ => Err (KeyValueFormattingError "SetupOption::deserialize")
      end
  | KvBytes type_value value =>
      let? type_value := SetupOptionType_try_from type_value in
      match type_value with
      | SOT_Path =>
          let? moqt_path := from_utf8 "SetupOption::deserialize" value in Ok (SO_Path moqt_path)
      | SOT_AuthorizationToken =>
          let? token := run_on AuthorizationToken_deserialize value in
          Ok (SO_AuthorizationToken token)
      | SOT_MoqtImplementation =>
          let? info := from_utf8 "SetupOption::deserialize" value in Ok (SO_MoqtImplementation info)
      | SOT_Authority =>
          let? authority := from_utf8 "SetupOption::deserialize" value in Ok (SO_Authority authority)
      | SOT_SstsAlgorithms =>
          let? algorithms := run_on (while_remaining algorithm_step []) value in
          Ok (SO_SstsAlgorithms algorithms)
      | _ => Err (KeyValueFormattingError "SetupOption::deserialize")
      end
  end.

(** * Lemmas *)

Definition text_ok (b : bytes) : Prop :=
  bytes_ok b /\ utf8_valid b = true /\ blen b <= MAX_VALUE_LENGTH.

Definition so_ok (o : SetupOption) : Prop :=
  match o with
  | SO_Path b | SO_Authority b | SO_MoqtImplementation b => text_ok b
  | SO_AuthorizationToken t => token_ok t /\
      forall b, AuthorizationToken_serialize t = Ok b -> blen b <= MAX_VALUE_LENGTH
  | SO_MaxAuthTokenCacheSize v | SO_MaxFilterRanges v | SO_MaxRequestUpdates v => is_u64 v
  | SO_SstsAlgorithms l => Forall is_u64 l /\
      forall b, put_algorithms l = Ok b -> blen b <= MAX_VALUE_LENGTH
  end.

Lemma put_algorithms_runs l : Forall is_u64 l -> forall acc,
  exists bss, put_algorithms l = Ok (concat bss) /\ bytes_ok (concat bss) /\
    runs algorithm_step acc bss (acc ++ l).
Proof.
  induction 1 as [|a l Ha _ IH]; intros acc.
  - exists []. split; [done|]. split; [constructor|]. rewrite app_nil_r. constructor.
  - destruct (IH (acc ++ [a])) as (bss&E&Hb&Hr). exists (encode_vi a :: bss). simpl.
    rewrite put_vi_Ok by done. simpl. rewrite E. simpl. split; [done|].
    split; [bytes_parts|]. econstructor; [|by apply encode_vi_nonempty|].
    + unfold algorithm_step. decode.
    + by rewrite <- app_assoc in Hr.
Qed.

Lemma new_bytes_short_Ok t v : is_multiple_of t 2 = false -> blen v <= MAX_VALUE_LENGTH ->
  try_new_bytes t v = Ok (KvBytes t v).
Proof.
  intros Ht Hl. unfold try_new_bytes, new_bytes. rewrite Ht.
  by destruct (Z.ltb_spec MAX_VALUE_LENGTH (blen v)); [lia|].
Qed.

(** An option and the pair that carries it. *)
Lemma SetupOption_view o : so_ok o ->
  exists kvp, SetupOption_try_into o = Ok kvp /\ kvp_wf kvp /\ SetupOption_deserialize kvp = Ok o.
Proof.
  assert (forall t, is_u64 (SOT t)) as Hu by (intros []; unfold is_u64; simpl; lia).
  intros Ho. destruct o as [b|t|v|b|v|b|v|l]; simpl in Ho; cbn [SetupOption_try_into].
  1,4,6: destruct Ho as (Hb&Hv&Hl); rewrite new_bytes_short_Ok by done; eexists; (split; [done|]);
    (split; [by repeat split; try apply Hb; try done; apply (Hu _)|]); simpl;
    unfold from_utf8; by rewrite Hv.
  2,3,4: eexists; (split; [done|]); (split; [|done]); split; [apply (Hu _)|by split].
  - destruct Ho as [Ht Hlen]. destruct (AuthorizationToken_reads t Ht) as (b&E&Hb&_&Hd).
    specialize (Hlen b E). rewrite E. cbn [obind]. rewrite new_bytes_short_Ok by done. eexists. split; [done|].
    split; [split; [apply (Hu _)|by split]|]. cbn -[AuthorizationToken_deserialize]. by rewrite Hd.
  - destruct Ho as [Hl Hlen]. destruct (put_algorithms_runs l Hl []) as (bss&E&Hb&Hr).
    specialize (Hlen _ E). rewrite E. cbn [obind]. rewrite new_bytes_short_Ok by done. eexists. split; [done|].
    split; [split; [apply (Hu _)|by split]|]. cbn -[while_remaining]. unfold run_on.
    by rewrite (while_remaining_runs _ _ _ _ Hr).
Qed.

(** The options only a client on native QUIC may send. *)
Definition restricted (kvp : KeyValuePair) : bool :=
  (get_type kvp =? SOT SOT_Authority) || (get_type kvp =? SOT SOT_Path).

Lemma check_setup_options_spec options sender transport :
  let forbidden := bool_decide (sender = SS_Server) || bool_decide (transport = TK_WebTransport) in
  check_setup_options options sender transport =
    match List.find restricted options with
    | Some kvp => if forbidden
                  then Err (if get_type kvp =? SOT SOT_Authority then TC_InvalidAuthority else TC_InvalidPath)
                  else Ok tt
    | None => Ok tt
    end.
Proof.
  intros forbidden. induction options as [|kvp options IH]; [done|].
  cbn [check_setup_options List.find]. fold forbidden. rewrite IH. clear IH.
  assert (forall x : outcome TerminationCode unit, (if forbidden then x else
    match List.find restricted options with
    | Some kvp0 => if forbidden then Err (if get_type kvp0 =? SOT SOT_Authority then TC_InvalidAuthority
         else TC_InvalidPath) else Ok tt | None => Ok tt end) = if forbidden then x else Ok tt) as Hf.
  { intros x. destruct forbidden; [done|]. by destruct (List.find restricted options). }
  destruct (registry_cases _ _ _ SetupOptionType_exact (get_type kvp)) as [(t&E&Et)|[[e E] Hn]];
    fold (SetupOptionType_try_from (get_type kvp)) in E; rewrite E.
  - destruct (restricted kvp) eqn:Er; unfold restricted in Er; rewrite Et in Er;
      destruct t; try discriminate Er; cbv beta; rewrite ?Hf, ?Et; done.
  - destruct (restricted kvp) eqn:Er; [|done]. unfold restricted in Er.
    destruct (Z.eqb_spec (get_type kvp) (SOT SOT_Authority)) as [H1|]; [by destruct (Hn SOT_Authority)|].
    destruct (Z.eqb_spec (get_type kvp) (SOT SOT_Path)) as [H1|]; [by destruct (Hn SOT_Path)|]. done.
Qed.

(** * Properties *)

(** Setup options.  Every option that fits a pair is carried by one that
    is well formed and read back as the option.  A peer's SETUP is refused
    exactly when it comes from a server or over WebTransport and has an
    AUTHORITY or a PATH option, with the code of the first such one; every
    other option, known or not, is let through. *)
Theorem setup_options_checked o setup sender transport :
  so_ok o ->
  (exists kvp, SetupOption_try_into o = Ok kvp /\ kvp_wf kvp /\ SetupOption_deserialize kvp = Ok o /\
     SetupOption_serialize o = KeyValuePair_serialize kvp) /\
  (validate_incoming setup sender transport = Ok tt <->
     (sender = SS_Client /\ transport = TK_Quic) \/
     Forall (fun kvp => restricted kvp = false) (setup_options setup)) /\
  (forall code, validate_incoming setup sender transport = Err code ->
     exists kvp, List.find restricted (setup_options setup) = Some kvp /\
       code = if get_type kvp =? SOT SOT_Authority then TC_InvalidAuthority else TC_InvalidPath).
Proof.
  intros Ho. split; [|unfold validate_incoming; rewrite check_setup_options_spec; cbv zeta; split].
  - destruct (SetupOption_view o Ho) as (kvp&E&Hw&Hd). exists kvp. split; [done|]. split; [done|].
    split; [done|]. unfold SetupOption_serialize.
    destruct o; try by rewrite E. cbn [SetupOption_try_into] in E.
    destruct (AuthorizationToken_serialize token); simpl in *; try done. by rewrite E.
  - destruct (List.find restricted (setup_options setup)) as [kvp|] eqn:E.
    + apply List.find_some in E as [Hin Hr]. split.
      * destruct sender, transport; simpl; try done. intros _. by left.
      * intros [[-> ->]|Hf]; [done|]. rewrite Forall_forall in Hf.
        apply list_elem_of_In in Hin. by rewrite (Hf _ Hin) in Hr.
    + split; [|done]. intros _. right. apply Forall_forall. intros kvp Hin.
      apply (List.find_none _ _ E). by apply list_elem_of_In.
  - intros code. destruct (List.find restricted (setup_options setup)) as [kvp|]; [|done].
    destruct (_ || _); [|done]. intros [= <-]. eauto.
Qed.

Lemma setup_options_checked_witness :
  so_ok (SO_SstsAlgorithms [1; 300]) /\
  exists kvp, SetupOption_try_into (SO_SstsAlgorithms [1; 300]) = Ok kvp /\ kvp_wf kvp /\
    SetupOption_deserialize kvp = Ok (SO_SstsAlgorithms [1; 300]) /\
    SetupOption_serialize (SO_SstsAlgorithms [1; 300]) = KeyValuePair_serialize kvp.
Proof.
  assert (so_ok (SO_SstsAlgorithms [1; 300])) as Ho.
  { split; [repeat (apply List.Forall_cons; [unfold is_u64; lia|]); constructor|].
    intros b E. vm_compute in E. injection E as <-. vm_compute. discriminate. }
  split; [exact Ho|].
  exact (proj1 (setup_options_checked _ (mkSetup []) SS_Client TK_Quic Ho)).
Defined.
