(* ===== verification/DataStream.v ===== *)
(** Data streams: writing one, and the task that reads one as it arrives
    ([libs/moqtail-rs/src/transport/data_stream_handler.rs]).

    [SendDataStream] writes a header and then objects and markers.
    [RecvDataStream::read] appends each chunk that arrives to a buffer and
    parses as much of the buffer as it can; [Reader] is its state, [settle]
    the parsing after one chunk, [read] the whole life of a stream that
    arrives as a list of chunks and then ends.  Locks, notifications and the
    idle timeout are not modelled: there is one writer of all this state. *)
From stdpp Require Import gmap.
From S2P Require Import Prelude BTree Varint Pair Common Codes LocationFilter Properties.
From S2P Require Import MessageParameter CombinedFilter Subgroup Datagram FetchObject ObjectForms.
From S2P Require Import ControlParts Control.

Inductive DataStreamItem : Type :=
| DI_Object (object : Object)
| DI_EndOfRange (kind : EndOfRangeKind) (location : Location).

Inductive HeaderInfo : Type :=
| HI_Fetch (header : FetchHeader) (fetch_request : option Fetch)
| HI_Subgroup (header : SubgroupHeader).

Definition fetch_group_order (fetch_request : option Fetch) : GroupOrder :=
  match fetch_request with Some fetch => Fetch_group_order fetch | None => GO_Ascending end.

(** * Priorities within a fetched group *)

Record FetchSubgroupPriorityState := mkPriorities {
  ps_group_id : option Z;
  priorities : gmap Z Z
}.

Definition no_priorities : FetchSubgroupPriorityState := mkPriorities None ∅.

Definition validate_priority (self : FetchSubgroupPriorityState) (payload : FetchObjectPayload)
    : FetchSubgroupPriorityState * result unit :=
  let self :=
    if negb (bool_decide (ps_group_id self = Some (fp_group_id payload)))
    then mkPriorities (Some (fp_group_id payload)) ∅ else self in
  if negb (bool_decide (fp_forwarding_preference payload = OFP_Subgroup)) then (self, Ok tt)
  else
    let previous := priorities self !! fp_subgroup_id payload in
    let self := mkPriorities (ps_group_id self)
                  (<[fp_subgroup_id payload := fp_publisher_priority payload]> (priorities self)) in
    match previous with
    | Some previous_priority =>
        if negb (previous_priority =? fp_publisher_priority payload)
        then (self, Err (ProtocolViolation "RecvDataStream::read_object(fetch_malformed_track)"))
        else (self, Ok tt)
    | None => (self, Ok tt)
    end.

(** * Writing *)

Section WithTarget.
Context `{Target}.

(** [out] is what was written to the stream. *)
Record SendDataStream := mkSendDataStream {
  sd_header_info : HeaderInfo;
  sd_fetch_prev_ctx : option FetchObjectContext;
  sd_out : bytes
}.

Definition SendDataStream_new (header_info : HeaderInfo) : result SendDataStream :=
  let? buf := match header_info with
              | HI_Fetch header _ => FetchHeader_serialize header
              | HI_Subgroup header => SubgroupHeader_serialize header None
              end in
  Ok (mkSendDataStream header_info None buf).

Definition send_object (self : SendDataStream) (object : Object) (previous_object_id : option Z)
    : result SendDataStream :=
  match sd_header_info self with
  | HI_Fetch _ fetch_request =>
      let group_order := fetch_group_order fetch_request in
      let? payload := try_into_fetch object in
      let fetch_obj := FO_Object payload in
      let? buf := FetchObject_serialize fetch_obj (sd_fetch_prev_ctx self) group_order in
      Ok (mkSendDataStream (sd_header_info self)
            (Some (next_context fetch_obj (sd_fetch_prev_ctx self))) (sd_out self ++ buf))
  | HI_Subgroup header =>
      let has_properties := sht_has_properties (header_type header) in
      let? subgroup_obj := try_into_subgroup object in
      let? buf := SubgroupObject_serialize subgroup_obj previous_object_id has_properties in
      Ok (mkSendDataStream (sd_header_info self) (sd_fetch_prev_ctx self) (sd_out self ++ buf))
  end.

Definition send_end_of_range (self : SendDataStream) (kind : EndOfRangeKind) (location : Location)
    : result SendDataStream :=
  match sd_header_info self with
  | HI_Fetch _ _ =>
      let marker := FO_EndOfRange kind (Common.group location) (Common.object location) in
      let? buf := FetchObject_serialize marker (sd_fetch_prev_ctx self) GO_Ascending in
      Ok (mkSendDataStream (sd_header_info self)
            (Some (next_context marker (sd_fetch_prev_ctx self))) (sd_out self ++ buf))
  | HI_Subgroup _ => Err (OtherError "SendDataStream::send_end_of_range")
  end.

(** * Reading *)

Record Reader := mkReader {
  header_info : option HeaderInfo;
  recv_bytes : bytes;
  previous_object_id : option Z;
  prev_ctx : option FetchObjectContext;
  subgroup_priorities : FetchSubgroupPriorityState;
  items : list DataStreamItem;
  the_header_info : option HeaderInfo;
  malformed_track : bool
}.

Definition new_reader : Reader := mkReader None [] None None no_priorities [] None false.

(** What of the state the rest of the program sees. *)
Definition observed (r : Reader) : list DataStreamItem * option HeaderInfo * bool :=
  (items r, the_header_info r, malformed_track r).

Section Reading.
(** [pending_fetches.get(&request_id)]. *)
Context (pending_fetches : Z -> option Fetch).

(** [Ok None] asks for more bytes; otherwise the header and what follows it. *)
Definition read_header (bytes_cursor : bytes) (is_fetch : bool) : result (option (HeaderInfo * bytes)) :=
  if is_fetch then
    match FetchHeader_deserialize bytes_cursor with
    | (Ok fetch_header, rest) =>
        Ok (Some (HI_Fetch fetch_header (pending_fetches (fh_request_id fetch_header)), rest))
    | (Err (NotEnoughBytes _ _ _), _) => Ok None
    | (Err _, _) => Err (ProtocolViolation "RecvDataStream::new(FetchHeader validation)")
    | (Panic, _) => Panic
    | (Diverge, _) => Diverge
    end
  else
    match SubgroupHeader_deserialize bytes_cursor with
    | (Ok subgroup_header, rest) => Ok (Some (HI_Subgroup subgroup_header, rest))
    | (Err (NotEnoughBytes _ _ _), _) => Ok None
    | (Err _, _) => Err (ProtocolViolation "RecvDataStream::new(SubgroupHeader validation)")
    | (Panic, _) => Panic
    | (Diverge, _) => Diverge
    end.

Definition parse_error : ParseError := ProtocolViolation "RecvDataStream::next_object(parse_result)".

Definition set_malformed (st : Reader) (p : FetchSubgroupPriorityState) : Reader :=
  mkReader (header_info st) (recv_bytes st) (previous_object_id st) (prev_ctx st) p (items st)
    (the_header_info st) true.

(** The fetch half of [read_object]: [Ok false] when more bytes are needed. *)
Definition read_fetch_object (st : Reader) (fetch_request : option Fetch) : Reader * result bool :=
  match FetchObject_deserialize (prev_ctx st) (fetch_group_order fetch_request) (recv_bytes st) with
  | (Ok fetch_obj, rest) =>
      let new_ctx := Some (next_context fetch_obj (prev_ctx st)) in
      match fetch_obj with
      | FO_Object payload =>
          let '(p, validated) := validate_priority (subgroup_priorities st) payload in
          match (let? _ := validated in
                 validate_prior_gaps (fp_group_id payload) (fp_object_id payload)
                   (fp_properties payload)) with
          | Ok _ =>
              match try_from_fetch payload 0 with
              | Ok object =>
                  (mkReader (header_info st) rest None new_ctx p (items st ++ [DI_Object object])
                     (the_header_info st) (malformed_track st), Ok true)
              | _ => (st, Err parse_error)
              end
          | _ => (set_malformed st p, Err parse_error)
          end
      | FO_EndOfRange kind group_id object_id =>
          (mkReader (header_info st) rest None new_ctx (subgroup_priorities st)
             (items st ++ [DI_EndOfRange kind (mkLocation group_id object_id)])
             (the_header_info st) (malformed_track st), Ok true)
      end
  | (Err (NotEnoughBytes _ _ _), _) => (st, Ok false)
  | (Err _, _) => (st, Err parse_error)
  | (Panic, _) => (st, Panic)
  | (Diverge, _) => (st, Diverge)
  end.

(** The header once the first object has named the subgroup. *)
Definition awaiting_subgroup_id (header : SubgroupHeader) : bool :=
  is_none (sh_subgroup_id header) && subgroup_id_is_first_object_id (header_type header).
Definition resolve_header (header : SubgroupHeader) (object_id : Z) : SubgroupHeader :=
  if awaiting_subgroup_id header then
    mkSubgroupHeader (header_type header) (sh_track_alias header) (sh_group_id header)
      (Some object_id) (sh_publisher_priority header)
  else header.

(** The subgroup half of [read_object]. *)
Definition read_subgroup_object (st : Reader) (header : SubgroupHeader) : Reader * result bool :=
  match SubgroupObject_deserialize (previous_object_id st) (sht_has_properties (header_type header))
          (recv_bytes st) with
  | (Ok subgroup_obj, rest) =>
      let object_id := so_object_id subgroup_obj in
      let current := resolve_header header object_id in
      match try_from_subgroup subgroup_obj (sh_track_alias current) (sh_group_id current)
              (sh_subgroup_id current) (sh_publisher_priority current) DEFAULT_PUBLISHER_PRIORITY with
      | Ok object =>
          (mkReader (Some (HI_Subgroup current)) rest (Some object_id) (prev_ctx st)
             (subgroup_priorities st) (items st ++ [DI_Object object])
             (if awaiting_subgroup_id header then Some (HI_Subgroup current) else the_header_info st)
             (malformed_track st), Ok true)
      | _ => (st, Err parse_error)
      end
  | (Err (NotEnoughBytes _ _ _), _) => (st, Ok false)
  | (Err _, _) => (st, Err parse_error)
  | (Panic, _) => (st, Panic)
  | (Diverge, _) => (st, Diverge)
  end.

Definition read_object (st : Reader) : Reader * result bool :=
  match recv_bytes st, header_info st with
  | [], _ | _, None => (st, Ok false)
  | _, Some (HI_Fetch _ fetch_request) => read_fetch_object st fetch_request
  | _, Some (HI_Subgroup header) => read_subgroup_object st header
  end.

(** The inner loop of [read]: objects until more bytes are needed.  Each takes
    a byte at least, so the bytes there are bound the turns. *)
Fixpoint read_objects (fuel : nat) (st : Reader) : Reader * result unit :=
  match read_object st with
  | (st, Ok true) => match fuel with O => (st, Diverge) | S fuel => read_objects fuel st end
  | (st, Ok false) => (st, Ok tt)
  | (st, Err e) => (st, Err e)
  | (st, Panic) => (st, Panic)
  | (st, Diverge) => (st, Diverge)
  end.

(** The header, if it is still to be read. *)
Definition try_header (st : Reader) : Reader * result unit :=
  match recv_bytes st, header_info st with
  | [], _ | _, Some _ => (st, Ok tt)
  | first :: _, None =>
      match read_header (recv_bytes st) (first =? FetchHeaderType_Type0x05) with
      | Ok (Some (header, rest)) =>
          (mkReader (Some header) rest (previous_object_id st) (prev_ctx st)
             (subgroup_priorities st) (items st) (Some header) (malformed_track st), Ok tt)
      | Ok None => (st, Ok tt)
      | Err e => (st, Err e)
      | Panic => (st, Panic)
      | Diverge => (st, Diverge)
      end
  end.

(** One turn of the outer loop of [read]. *)
Definition settle (st : Reader) : Reader * result unit :=
  match try_header st with
  | (st, Ok _) => read_objects (length (recv_bytes st)) st
  | (st, o) => (st, o)
  end.

(** [recv_bytes.put_slice(..)]. *)
Definition push (st : Reader) (chunk : bytes) : Reader :=
  mkReader (header_info st) (recv_bytes st ++ chunk) (previous_object_id st) (prev_ctx st)
    (subgroup_priorities st) (items st) (the_header_info st) (malformed_track st).

Fixpoint arrive (st : Reader) (chunks : list bytes) : Reader * result unit :=
  match chunks with
  | [] => (st, Ok tt)
  | chunk :: chunks =>
      match settle (push st chunk) with
      | (st, Ok _) => arrive st chunks
      | (st, o) => (st, o)
      end
  end.

(** The whole stream, ended by a FIN, after which there is one more turn. *)
Definition read (chunks : list bytes) : Reader * result unit :=
  match arrive new_reader chunks with
  | (st, Ok _) =>
      match settle st with
      | (st, Ok _) =>
          match recv_bytes st with
          | [] => (st, Ok tt)
          | _ => (st, Err (OtherError "RecvDataStream::read"))
          end
      | (st, o) => (st, o)
      end
  | (st, o) => (st, o)
  end.

End Reading.
End WithTarget.

(** * Lemmas *)

Section Lemmas.
Context `{Target} (pending : Z -> option Fetch).

Abbreviation read_header := (read_header pending).
Abbreviation try_header := (try_header pending).
Abbreviation settle := (settle pending).
Abbreviation arrive := (arrive pending).

Record reader_ok (st : Reader) : Prop := {
  rd_bytes : bytes_ok (recv_bytes st);
  rd_prev : opt_ok is_u64 (previous_object_id st);
  rd_ctx : opt_ok ctx_ok (prev_ctx st)
}.

(** ** One object *)

(** The state after an object is well formed and has fewer bytes to read. *)
Definition advances (st st' : Reader) : Prop :=
  reader_ok st' /\ (length (recv_bytes st') < length (recv_bytes st))%nat /\
  (header_info st <> None -> header_info st' <> None).

Lemma read_fetch_object_cases st req : reader_ok st ->
  match read_fetch_object st req with
  | (st', Ok true) => advances st st'
  | (st', Ok false) => st' = st
  | (_, Diverge) => False
  | _ => True
  end.
Proof.
  intros [Hb Hp Hc]. unfold read_fetch_object.
  pose proof (FetchObject_guarded (prev_ctx st) (fetch_group_order req) Hc _ Hb) as G.
  destruct (FetchObject_deserialize _ _ _) as [[e|e| |] r]; try done; [|by destruct e].
  destruct G as (Hs&Hl&Hr). assert (forall e, fo_read (fetch_group_order req) (prev_ctx st) e ->
    ctx_ok (next_context e (prev_ctx st))) as Hnext.
  { intros [p|k g o]; simpl; [intros [[] _]; by split|]. intros []. split; simpl; [done| |done|];
      destruct (prev_ctx st) as [pc|]; try done; by destruct Hc. }
  specialize (Hnext e Hr).
  assert (forall a b c d, advances st (mkReader (header_info st) r None
    (Some (next_context e (prev_ctx st))) a b c d)) as Hadv.
  { intros. split; [split; simpl; [by eapply bytes_ok_suffix|done|done]|]. simpl. split; [lia|done]. }
  destruct e as [p|k g o]; [|apply Hadv].
  destruct (validate_priority (subgroup_priorities st) p) as [pr v].
  destruct (obind v _); try done. apply Hadv.
Qed.

Lemma read_subgroup_object_cases st h : reader_ok st ->
  match read_subgroup_object st h with
  | (st', Ok true) => advances st st'
  | (st', Ok false) => st' = st
  | (_, Diverge) => False
  | _ => True
  end.
Proof.
  intros [Hb Hp Hc]. unfold read_subgroup_object.
  set (hp := sht_has_properties (header_type h)).
  pose proof (SubgroupObject_cases (previous_object_id st) hp _ Hb Hp) as G.
  destruct (SubgroupObject_deserialize _ _ _) as [[o|e| |] r]; try done; [|by destruct e].
  destruct G as (Hs&Hl&[Hid _ _]). simpl. split; [by split; [eapply bytes_ok_suffix|..]|].
  split; simpl; [lia|done].
Qed.

Lemma read_object_cases st : reader_ok st ->
  match read_object st with
  | (st', Ok true) => advances st st'
  | (st', Ok false) => st' = st
  | (_, Diverge) => False
  | _ => True
  end.
Proof.
  intros Hst. unfold read_object. destruct (recv_bytes st) as [|b l] eqn:Eb; [done|].
  destruct (header_info st) as [[h req|h]|]; [|..|done];
    [by apply read_fetch_object_cases|by apply read_subgroup_object_cases].
Qed.

(** Any outcome but the wait for more bytes is final. *)
Definition same_end (x y : Reader * result unit) : Prop :=
  snd x = snd y /\ observed (fst x) = observed (fst y).

Lemma read_fetch_object_push st req ext :
  match read_fetch_object st req with
  | (_, Ok false) => True
  | (st', Ok true) => read_fetch_object (push st ext) req = (push st' ext, Ok true)
  | (st', o) => exists st'', read_fetch_object (push st ext) req = (st'', o) /\ observed st'' = observed st'
  end.
Proof.
  unfold read_fetch_object. cbn [push prev_ctx recv_bytes].
  pose proof (stable_FetchObject (prev_ctx st) (fetch_group_order req) (recv_bytes st) ext) as S.
  destruct (FetchObject_deserialize _ _ (recv_bytes st)) as [[e|e| |] r].
  - rewrite S. destruct e as [p|k g o]; [|done]. cbn [push subgroup_priorities].
    destruct (validate_priority (subgroup_priorities st) p) as [pr v].
    destruct (obind v _); [done|by eexists..].
  - destruct e; [done|rewrite S; by eexists..].
  - rewrite S. by eexists.
  - rewrite S. by eexists.
Qed.

Lemma read_subgroup_object_push st h ext :
  match read_subgroup_object st h with
  | (_, Ok false) => True
  | (st', Ok true) => read_subgroup_object (push st ext) h = (push st' ext, Ok true)
  | (st', o) => exists st'', read_subgroup_object (push st ext) h = (st'', o) /\ observed st'' = observed st'
  end.
Proof.
  unfold read_subgroup_object. cbn [push previous_object_id recv_bytes].
  pose proof (stable_SubgroupObject (previous_object_id st) (sht_has_properties (header_type h))
    (recv_bytes st) ext) as S.
  destruct (SubgroupObject_deserialize _ _ (recv_bytes st)) as [[o|e| |] r].
  - by rewrite S.
  - destruct e; [done|rewrite S; by eexists..].
  - rewrite S. by eexists.
  - rewrite S. by eexists.
Qed.

Lemma read_object_push st ext :
  match read_object st with
  | (_, Ok false) => True
  | (st', Ok true) => read_object (push st ext) = (push st' ext, Ok true)
  | (st', o) => exists st'', read_object (push st ext) = (st'', o) /\ observed st'' = observed st'
  end.
Proof.
  unfold read_object. cbn [push recv_bytes header_info].
  destruct (recv_bytes st) as [|b l] eqn:Eb; [done|]. simpl app.
  destruct (header_info st) as [[h req|h]|]; [|..|done];
    [apply read_fetch_object_push|apply read_subgroup_object_push].
Qed.

(** ** As many as there are *)

Definition drain (st : Reader) : Reader * result unit := read_objects (length (recv_bytes st)) st.

(** There is always enough fuel, and how much does not matter. *)
Lemma read_objects_fuel n m st : reader_ok st ->
  (length (recv_bytes st) <= n)%nat -> (length (recv_bytes st) <= m)%nat ->
  read_objects n st = read_objects m st.
Proof.
  revert m st. induction n as [|n IH]; intros m st Hst Hn Hm.
  - assert (recv_bytes st = []) as E by (by apply length_zero_iff_nil; lia).
    destruct m; simpl; unfold read_object; by rewrite E.
  - pose proof (read_object_cases st Hst) as C. destruct m as [|m].
    { assert (recv_bytes st = []) as E by (by apply length_zero_iff_nil; lia).
      simpl. unfold read_object. by rewrite E. }
    simpl. destruct (read_object st) as [st' [[]|e| |]]; try done.
    destruct C as (?&?&_). apply IH; [done|lia..].
Qed.

Lemma drain_step st : reader_ok st ->
  drain st = match read_object st with
             | (st, Ok true) => drain st
             | (st, Ok false) => (st, Ok tt)
             | (st, Err e) => (st, Err e)
             | (st, Panic) => (st, Panic)
             | (st, Diverge) => (st, Diverge)
             end.
Proof.
  intros Hst. pose proof (read_object_cases st Hst) as C. unfold drain.
  destruct (recv_bytes st) as [|b l] eqn:Eb.
  { simpl. unfold read_object. by rewrite Eb. }
  rewrite <- Eb. replace (length (recv_bytes st)) with (S (length l)) by (by rewrite Eb).
  cbn [read_objects]. destruct (read_object st) as [st' [[]|e| |]]; try done.
  destruct C as (?&?&_). rewrite Eb in *. simpl in *. apply read_objects_fuel; [done|lia..].
Qed.

Lemma drain_ind (P : Reader -> Prop) :
  (forall st, reader_ok st -> (forall st', read_object st = (st', Ok true) -> P st') -> P st) ->
  forall st, reader_ok st -> P st.
Proof.
  intros Hstep st Hst. remember (length (recv_bytes st)) as n eqn:En. revert st Hst En.
  induction n as [n IH] using lt_wf_ind. intros st Hst ->. apply Hstep; [done|].
  intros st' E. pose proof (read_object_cases st Hst) as C. rewrite E in C.
  destruct C as (?&?&_). by eapply IH.
Qed.

(** What is left when the reader waits: well formed, and the header kept. *)
Lemma drain_Ok st : reader_ok st -> forall st' u, drain st = (st', Ok u) ->
  reader_ok st' /\ (header_info st <> None -> header_info st' <> None).
Proof.
  revert st. apply (drain_ind (fun st => forall st' u, drain st = (st', Ok u) ->
    reader_ok st' /\ (header_info st <> None -> header_info st' <> None))).
  intros st Hst IH st' u E. rewrite drain_step in E by done.
  pose proof (read_object_cases st Hst) as C.
  destruct (read_object st) as [st1 [[]|e| |]]; simplify_eq.
  - destruct C as (_&_&Hh). destruct (IH st1 eq_refl st' u E) as [? ?]. auto.
  - done.
Qed.

Lemma push_ok st ext : reader_ok st -> bytes_ok ext -> reader_ok (push st ext).
Proof. intros [] Hext. split; simpl; [by apply bytes_ok_app|done..]. Qed.

Lemma drain_push st ext : reader_ok st -> bytes_ok ext ->
  match drain st with
  | (st', Ok _) => drain (push st ext) = drain (push st' ext)
  | x => same_end (drain (push st ext)) x
  end.
Proof.
  intros Hst Hext. revert st Hst. apply (drain_ind (fun st => match drain st with
    | (st', Ok _) => drain (push st ext) = drain (push st' ext)
    | x => same_end (drain (push st ext)) x end)).
  intros st Hst IH. rewrite (drain_step st) by done.
  rewrite (drain_step (push st ext)) by by apply push_ok.
  pose proof (read_object_push st ext) as Hp. pose proof (read_object_cases st Hst) as C.
  destruct (read_object st) as [st1 [[]|e| |]].
  - rewrite Hp. by apply IH.
  - subst st1. by rewrite (drain_step (push st ext)) by by apply push_ok.
  - destruct Hp as (st''&->&?). by split.
  - destruct Hp as (st''&->&?). by split.
  - done.
Qed.

(** ** The header *)

Lemma fetch_header_stable l ext :
  match FetchHeader_deserialize (FetchHeaderType_Type0x05 :: l) with
  | (Err (NotEnoughBytes _ _ _), _) => True
  | (o, r) => FetchHeader_deserialize ((FetchHeaderType_Type0x05 :: l) ++ ext) = (o, r ++ ext)
  end.
Proof.
  assert (forall l, FetchHeader_deserialize (FetchHeaderType_Type0x05 :: l) =
    (let! request_id := get_vi in pret (mkFetchHeader request_id)) l) as E.
  { intros l'. unfold FetchHeader_deserialize, pbind at 1, ignore.
    assert (decodes get_vi [FetchHeaderType_Type0x05] 5) as D
      by (apply (encode_vi_decodes 5); unfold is_u64; lia).
    by rewrite (D l' : get_vi (FetchHeaderType_Type0x05 :: l') = _). }
  simpl app. rewrite !E.
  assert (stable (let! request_id := get_vi in pret (mkFetchHeader request_id))) as S by stable_go.
  exact (S l ext).
Qed.

Lemma read_header_push b l ext :
  let f := b =? FetchHeaderType_Type0x05 in
  match read_header (b :: l) f with
  | Ok None => True
  | Ok (Some (h, r)) => read_header (b :: l ++ ext) f = Ok (Some (h, r ++ ext))
  | o => read_header (b :: l ++ ext) f = o
  end.
Proof.
  intros f. unfold read_header, f. change (b :: l ++ ext) with ((b :: l) ++ ext).
  destruct (Z.eqb_spec b FetchHeaderType_Type0x05) as [->|_].
  - pose proof (fetch_header_stable l ext) as S.
    destruct (FetchHeader_deserialize (FetchHeaderType_Type0x05 :: l)) as [[h|e| |] r];
      [by rewrite S| |by rewrite S..]. destruct e; [done|by rewrite S..].
  - pose proof (stable_SubgroupHeader (b :: l) ext) as S.
    destruct (SubgroupHeader_deserialize (b :: l)) as [[h|e| |] r];
      [by rewrite S| |by rewrite S..]. destruct e; [done|by rewrite S..].
Qed.

(** What follows a header is part of the buffer. *)
Lemma read_header_suffix bs f h r : bytes_ok bs -> read_header bs f = Ok (Some (h, r)) -> bytes_ok r.
Proof.
  intros Hb. unfold read_header. destruct f.
  - assert (robust 1 FetchHeader_deserialize (fun _ => True)) as R.
    { unfold FetchHeader_deserialize. eapply (robust_bind 0 1 _ _ (fun _ => True)).
      - intros bs' Hb'. pose proof (get_vi_robust bs' Hb') as G. unfold ignore.
        destruct (get_vi bs') as [[v|e| |] r']; try done; [destruct G as (?&?&_)|];
          (split; [done|]; split; [|done]); [lia|].
        destruct G as [pre ->]. rewrite length_app. lia.
      - intros _ _. robust_go. done. }
    specialize (R bs Hb). destruct (FetchHeader_deserialize bs) as [[h'|e| |] r']; try done;
      [|by destruct e]. intros [= _ <-].
    exact (bytes_ok_suffix _ _ (proj1 R) Hb).
  - pose proof (wire_robust (de:=SubgroupHeader_deserialize) bs Hb) as R.
    destruct (SubgroupHeader_deserialize bs) as [[h'|e| |] r']; try done; [|by destruct e].
    intros [= _ <-]. exact (bytes_ok_suffix _ _ (proj1 R) Hb).
Qed.

Lemma try_header_ok st st' u : reader_ok st -> try_header st = (st', Ok u) -> reader_ok st'.
Proof.
  intros Hst. pose proof Hst as [Hb Hp Hc]. unfold try_header.
  destruct (recv_bytes st) as [|b l] eqn:Eb; [by intros [= <-]|].
  destruct (header_info st); [by intros [= <-]|].
  destruct (read_header (b :: l) _) as [[[h r]|]|e| |] eqn:E; try done; [|by intros [= <-]].
  intros [= <-]. split; simpl; [|done..]. eapply read_header_suffix; [|exact E]. done.
Qed.

(** A header that is there, or an empty buffer: nothing to do. *)
Lemma try_header_done st : header_info st <> None -> try_header st = (st, Ok tt).
Proof. intros Hh. unfold try_header. destruct (recv_bytes st); [done|]. by destruct (header_info st). Qed.

Lemma drain_no_header st : header_info st = None -> drain st = (st, Ok tt).
Proof.
  intros Hh. unfold drain. destruct (length (recv_bytes st)); simpl; unfold read_object; rewrite Hh;
    by destruct (recv_bytes st).
Qed.

Lemma drain_empty st : recv_bytes st = [] -> drain st = (st, Ok tt).
Proof. intros E. unfold drain. rewrite E. simpl. unfold read_object. by rewrite E. Qed.

(** ** A chunk is its bytes *)

(** The header is found, or there is still none, or the stream is refused; only
    in the second case do more bytes matter. *)
Lemma try_header_push st ext : header_info st = None -> recv_bytes st <> [] ->
  match try_header st with
  | (st', Ok _) => st' = st \/
      (header_info st' <> None /\ try_header (push st ext) = (push st' ext, Ok tt))
  | (st', o) => try_header (push st ext) = (push st' ext, o)
  end.
Proof.
  intros Eh Hne. unfold try_header. cbn [push recv_bytes header_info]. rewrite Eh.
  destruct (recv_bytes st) as [|b l]; [done|]. simpl app.
  pose proof (read_header_push b l ext) as P. cbv zeta in P.
  destruct (read_header (b :: l) _) as [[[h r]|]|e| |]; [|by left|by rewrite P..].
  right. rewrite P. done.
Qed.

(** From a state whose header is read, or that has no bytes. *)
Lemma settle_header st : header_info st <> None -> settle st = drain st.
Proof. intros Hh. unfold settle. by rewrite try_header_done. Qed.

Lemma settle_push st ext : reader_ok st -> bytes_ok ext ->
  match settle st with
  | (st', Ok _) => reader_ok st' /\ settle (push st ext) = settle (push st' ext)
  | x => same_end (settle (push st ext)) x
  end.
Proof.
  intros Hst Hext.
  assert (forall s, reader_ok s -> header_info s <> None ->
    match drain s with
    | (st', Ok _) => reader_ok st' /\ drain (push s ext) = settle (push st' ext)
    | x => same_end (drain (push s ext)) x
    end) as Hd.
  { intros s Hs Hh. pose proof (drain_push s ext Hs Hext) as P. pose proof (drain_Ok s Hs) as D.
    destruct (drain s) as [st' [u|e| |]]; try done. destruct (D st' u eq_refl) as [? Hh'].
    split; [done|]. rewrite P, settle_header by (apply Hh'; done). done. }
  destruct (decide (recv_bytes st = [])) as [Eb|Hne].
  { unfold settle at 1. assert (try_header st = (st, Ok tt)) as -> by (unfold try_header; by rewrite Eb).
    fold (drain st). by rewrite drain_empty. }
  destruct (header_info st) as [h|] eqn:Eh.
  { rewrite !settle_header by (simpl; congruence). apply Hd; [done|congruence]. }
  pose proof (try_header_push st ext Eh Hne) as P. pose proof (try_header_ok st) as Ho.
  assert (forall s, settle s = match try_header s with
    | (s, Ok _) => drain s | (s, o) => (s, o) end) as U by done.
  rewrite (U st), (U (push st ext)).
  destruct (try_header st) as [st1 [u|e| |]]; [|by rewrite P..].
  specialize (Ho st1 u Hst eq_refl). destruct P as [->|[Hh ->]].
  - by rewrite drain_no_header by done.
  - by apply Hd.
Qed.

Lemma push_nil st : push st [] = st.
Proof. destruct st. unfold push. simpl. by rewrite app_nil_r. Qed.
Lemma push_push st a b : push (push st a) b = push st (a ++ b).
Proof. unfold push. simpl. by rewrite app_assoc. Qed.

(** After a turn there is nothing more to do. *)
Lemma settle_idem st st' u : reader_ok st -> settle st = (st', Ok u) ->
  reader_ok st' /\ settle st' = (st', Ok u).
Proof.
  intros Hst E. pose proof (settle_push st [] Hst bytes_ok_nil) as P. rewrite E, !push_nil, E in P.
  by destruct P.
Qed.

(** However a stream is cut into chunks, the reader makes the same of it. *)
Lemma arrive_concat chunks : forall st, reader_ok st -> settle st = (st, Ok tt) ->
  Forall bytes_ok chunks ->
  match arrive st chunks with
  | (st', Ok _) => settle (push st (concat chunks)) = (st', Ok tt)
  | x => same_end (settle (push st (concat chunks))) x
  end.
Proof.
  induction chunks as [|c cs IH]; intros st Hst Hs Hc; simpl.
  - by rewrite push_nil.
  - inversion Hc as [|? ? Hc1 Hcs]; subst.
    pose proof (push_ok st c Hst Hc1) as Hst1.
    assert (bytes_ok (concat cs)) as Hcat.
    { clear -Hcs. induction Hcs; [constructor|]. simpl. by apply bytes_ok_app. }
    pose proof (settle_push (push st c) (concat cs) Hst1 Hcat) as P. rewrite push_push in P.
    destruct (settle (push st c)) as [st1 [[]|e| |]] eqn:E; try done.
    destruct P as [Hok1 P]. destruct (settle_idem _ _ _ Hst1 E) as [_ Hs1].
    specialize (IH st1 Hok1 Hs1 Hcs). by rewrite P.
Qed.

Lemma new_reader_ok : reader_ok new_reader.
Proof. split; [constructor|done|done]. Qed.

Lemma read_settle chunks : Forall bytes_ok chunks ->
  match settle (push new_reader (concat chunks)) with
  | (st, Ok _) => read pending chunks = match recv_bytes st with
      | [] => (st, Ok tt) | _ => (st, Err (OtherError "RecvDataStream::read")) end
  | x => same_end (read pending chunks) x
  end.
Proof.
  intros Hc. pose proof (arrive_concat chunks new_reader new_reader_ok eq_refl Hc) as P.
  assert (bytes_ok (concat chunks)) as Hcat.
  { clear -Hc. induction Hc; [constructor|]. simpl. by apply bytes_ok_app. }
  assert (reader_ok (push new_reader (concat chunks))) as Hok by (by apply push_ok; [apply new_reader_ok|]).
  unfold read. destruct (arrive new_reader chunks) as [st' [u|e| |]].
  - rewrite P. destruct (settle_idem _ _ _ Hok P) as [_ ->]. done.
  - destruct P as [P1 P2]. destruct (settle (push new_reader (concat chunks))) as [st [u'|e'| |]];
      simpl in *; try done; by split.
  - destruct P as [P1 P2]. destruct (settle (push new_reader (concat chunks))) as [st [u'|e'| |]];
      simpl in *; try done; by split.
  - destruct P as [P1 P2]. destruct (settle (push new_reader (concat chunks))) as [st [u'|e'| |]];
      simpl in *; try done; by split.
Qed.

Lemma drain_no_diverge st : reader_ok st -> snd (drain st) <> Diverge.
Proof.
  revert st. apply (drain_ind (fun st => snd (drain st) <> Diverge)). intros st Hst IH.
  rewrite drain_step by done. pose proof (read_object_cases st Hst) as C.
  destruct (read_object st) as [st' [[]|e| |]]; try done. by apply IH.
Qed.

Lemma settle_no_diverge st : reader_ok st -> snd (settle st) <> Diverge.
Proof.
  intros Hst. unfold settle. pose proof (try_header_ok st) as Ho.
  destruct (try_header st) as [st1 [u|e| |]] eqn:E; try done.
  - apply drain_no_diverge. by eapply Ho.
  - exfalso. unfold try_header in E. destruct (recv_bytes st) as [|b l] eqn:Eb; [done|].
    destruct (header_info st); [done|]. unfold read_header in E.
    destruct Hst as [Hb _ _]. rewrite Eb in Hb. destruct (b =? _).
    + unfold FetchHeader_deserialize, pbind, ignore, pret in E.
      pose proof (get_vi_robust _ Hb) as R.
      destruct (get_vi (b :: l)) as [[v|x| |] r]; try done;
        [destruct R as [R _]|]; pose proof (get_vi_robust r (bytes_ok_suffix _ _ R Hb)) as R';
        destruct (get_vi r) as [[w|y| |] r']; try done; by destruct y.
    + pose proof (wire_robust (de:=SubgroupHeader_deserialize) _ Hb) as R.
      destruct (SubgroupHeader_deserialize (b :: l)) as [[h|x| |] r]; try done. by destruct x.
Qed.
End Lemmas.

(** ** A fetch stream from end to end *)

(** What the sender of a fetch stream sends. *)
Inductive sent : Type :=
| S_Object (object : Object)
| S_EndOfRange (kind : EndOfRangeKind) (location : Location).

Definition entry_of (s : sent) : result FetchObject :=
  match s with
  | S_Object object => let? p := try_into_fetch object in Ok (FO_Object p)
  | S_EndOfRange kind l => Ok (FO_EndOfRange kind (Common.group l) (Common.object l))
  end.

(** What the receiver is to get for an entry. *)
Definition item_of (e : FetchObject) : DataStreamItem :=
  match e with
  | FO_Object p =>
      let p := fp_wire p in
      DI_Object (mkObject 0 (mkLocation (fp_group_id p) (fp_object_id p)) (fp_publisher_priority p)
        (fp_forwarding_preference p)
        match fp_forwarding_preference p with OFP_Subgroup => Some (fp_subgroup_id p) | OFP_Datagram => None end
        OS_Normal (fp_properties p) match fp_payload p with [] => None | b => Some b end)
  | FO_EndOfRange kind g o => DI_EndOfRange kind (mkLocation g o)
  end.

(** Two objects of one subgroup have one priority. *)
Definition same_priority (p q : FetchObjectPayload) : Prop :=
  fp_forwarding_preference p = OFP_Subgroup -> fp_forwarding_preference q = OFP_Subgroup ->
  fp_group_id p = fp_group_id q -> fp_subgroup_id p = fp_subgroup_id q ->
  fp_publisher_priority p = fp_publisher_priority q.

Definition payloads (es : list FetchObject) : list FetchObjectPayload :=
  omap (fun e => match e with FO_Object p => Some p | _ => None end) es.

(** Every recorded priority is that of an object seen in the group. *)
Definition priorities_from (seen : list FetchObjectPayload) (ps : FetchSubgroupPriorityState) : Prop :=
  forall sg pr, priorities ps !! sg = Some pr -> exists q, q ∈ seen /\ ps_group_id ps = Some (fp_group_id q) /\
    fp_forwarding_preference q = OFP_Subgroup /\ fp_subgroup_id q = sg /\ fp_publisher_priority q = pr.

Lemma validate_priority_consistent seen ps p :
  priorities_from seen ps -> (forall q, q ∈ seen -> same_priority q p) ->
  exists ps', validate_priority ps p = (ps', Ok tt) /\ priorities_from (p :: seen) ps'.
Proof.
  intros Hps Hsame. unfold validate_priority.
  set (ps0 := if negb _ then _ else ps).
  assert (priorities_from seen ps0 /\ ps_group_id ps0 = Some (fp_group_id p)) as [Hps0 Hg].
  { unfold ps0. case_bool_decide as E; simpl; [done|]. split; [|done].
    intros sg pr. simpl. by rewrite lookup_empty. }
  clearbody ps0. case_bool_decide as Ef; cbn [negb].
  - assert (priorities_from (p :: seen) (mkPriorities (ps_group_id ps0)
      (<[fp_subgroup_id p := fp_publisher_priority p]> (priorities ps0)))) as Hnew.
    { intros sg pr. simpl. destruct (decide (fp_subgroup_id p = sg)) as [<-|Hne].
      - rewrite lookup_insert_eq. intros [= <-]. exists p. split; [left|done].
      - rewrite lookup_insert_ne by done. intros E. destruct (Hps0 _ _ E) as (q&?&?).
        exists q. split; [by right|done]. }
    destruct (priorities ps0 !! fp_subgroup_id p) as [pr|] eqn:E; [|by eexists].
    destruct (Hps0 _ _ E) as (q&Hq&Hgq&Hfq&Hsq&<-).
    rewrite (Hsame q Hq Hfq Ef ltac:(congruence) ltac:(congruence)), Z.eqb_refl. by eexists.
  - eexists. split; [done|]. intros sg pr E. destruct (Hps0 _ _ E) as (q&?&?).
    exists q. split; [by right|done].
Qed.

Section EndToEnd.
Context `{Target} (pending : Z -> option Fetch).

(** Entries that can be written one after the other, with gaps that fit. *)
Fixpoint entries_ready (order : GroupOrder) (prev : option FetchObjectContext) (es : list FetchObject)
    : Prop :=
  match es with
  | [] => True
  | e :: es =>
      fo_ready order prev e /\
      (forall p, e = FO_Object p -> (is_dg p = true -> fp_subgroup_id p = fp_object_id p) /\
         validate_prior_gaps (fp_group_id p) (fp_object_id p) (fp_properties (fp_wire p)) = Ok tt) /\
      entries_ready order (Some (next_context e prev)) es
  end.

Fixpoint write_entries (order : GroupOrder) (prev : option FetchObjectContext) (es : list FetchObject)
    : result bytes :=
  match es with
  | [] => Ok []
  | e :: es =>
      let? b := FetchObject_serialize e prev order in
      let? r := write_entries order (Some (next_context e prev)) es in
      Ok (b ++ r)
  end.

Lemma fp_wire_same p q : same_priority p q -> 
  same_priority (fp_wire p) (fp_wire q).
Proof.
  unfold same_priority, fp_wire, is_dg. simpl. intros Hs Hp Hq.
  rewrite !bool_decide_eq_false_2 by congruence. auto.
Qed.

(** One entry, off a buffer that begins with it. *)
Lemma read_entry order h req e st seen b r :
  fetch_group_order req = order -> recv_bytes st = b ++ r -> b <> [] ->
  header_info st = Some (HI_Fetch h req) ->
  decodes (FetchObject_deserialize (prev_ctx st) order) b (fo_wire e) ->
  priorities_from (map fp_wire seen) (subgroup_priorities st) ->
  (forall p, e = FO_Object p -> (is_dg p = true -> fp_subgroup_id p = fp_object_id p) /\
     validate_prior_gaps (fp_group_id p) (fp_object_id p) (fp_properties (fp_wire p)) = Ok tt /\
     forall q, q ∈ seen -> same_priority q p) ->
  exists st1, read_object st = (st1, Ok true) /\ recv_bytes st1 = r /\
    prev_ctx st1 = Some (next_context e (prev_ctx st)) /\ header_info st1 = header_info st /\
    items st1 = items st ++ [item_of e] /\ the_header_info st1 = the_header_info st /\
    malformed_track st1 = malformed_track st /\
    priorities_from (map fp_wire (seen ++ payloads [e])) (subgroup_priorities st1).
Proof.
  intros Ho Hb Hne Hh D Hps Hv.
  assert (next_context (fo_wire e) (prev_ctx st) = next_context e (prev_ctx st)) as Hn.
  { apply next_context_wire. intros p Ep. by destruct (Hv p Ep). }
  unfold read_object. rewrite Hb, Hh. destruct (b ++ r) eqn:Ebr.
  { by apply app_eq_nil in Ebr as [-> _]. }
  rewrite <- Ebr in Hb. unfold read_fetch_object. rewrite Hb, Ho, D, Hn. clear Ebr.
  destruct e as [p|k g o]; simpl fo_wire; cbv iota.
  - destruct (Hv p eq_refl) as (Hdg&Hgap&Hsame).
    destruct (validate_priority_consistent (map fp_wire seen) (subgroup_priorities st) (fp_wire p))
      as (ps'&Evp&Hps'); [done| |].
    { intros q (q'&->&Hq)%list_elem_of_fmap. by apply fp_wire_same, Hsame. }
    rewrite Evp. cbn [obind]. change (fp_group_id (fp_wire p)) with (fp_group_id p).
    change (fp_object_id (fp_wire p)) with (fp_object_id p). rewrite Hgap.
    eexists. split; [reflexivity|]. simpl. repeat split; try done.
    intros sg pr El. destruct (Hps' sg pr El) as (q&Hq&?). exists q. split; [|done].
    rewrite map_app, elem_of_app. apply elem_of_cons in Hq as [->|Hq]; [right; by left|by left].
  - eexists. split; [reflexivity|]. simpl. repeat split; try done. by rewrite app_nil_r.
Qed.

(** The reader takes the entries one by one. *)
Lemma read_entries order h req es : fetch_group_order req = order -> forall st seen bs,
  write_entries order (prev_ctx st) es = Ok bs -> recv_bytes st = bs ->
  header_info st = Some (HI_Fetch h req) -> reader_ok st ->
  entries_ready order (prev_ctx st) es -> bytes_ok bs ->
  priorities_from (map fp_wire seen) (subgroup_priorities st) ->
  (forall p q, p ∈ seen ++ payloads es -> q ∈ seen ++ payloads es -> same_priority p q) ->
  exists st', drain st = (st', Ok tt) /\ recv_bytes st' = [] /\ items st' = items st ++ map item_of es /\
    the_header_info st' = the_header_info st /\ malformed_track st' = malformed_track st.
Proof.
  intros Ho. induction es as [|e es IH]; intros st seen bs Hw Hb Hh Hok Hr Hbs Hps Hsame.
  - injection Hw as <-. exists st. rewrite drain_empty by done. rewrite app_nil_r. done.
  - simpl in Hw. apply obind_Ok_inv in Hw as (b&Eb&Hw). apply obind_Ok_inv in Hw as (r&Er&Hw).
    injection Hw as Hw. destruct Hr as (He&Hv&Hr).
    destruct (FetchObject_transmits e (prev_ctx st) order (rd_ctx _ Hok) He) as (b'&Eb'&_&Hne&D).
    rewrite Eb in Eb'. injection Eb' as <-.
    assert (bytes_ok r) as Hr'. { rewrite <- Hw in Hbs. by apply bytes_ok_app in Hbs as []. }
    destruct (read_entry order h req e st seen b r) as (st1&E1&Hb1&Hc1&Hh1&Hi1&Ht1&Hm1&Hp1);
      try done; [by rewrite Hb|..].
    { intros p Ep. split; [by destruct (Hv p Ep)|]. split; [by destruct (Hv p Ep)|].
      intros q Hq. apply Hsame; apply elem_of_app; [by left|]. right. subst e. left. }
    rewrite drain_step, E1 by done. pose proof (read_object_cases st Hok) as C. rewrite E1 in C.
    destruct C as (Hok1&_&_).
    destruct (IH st1 (seen ++ payloads [e]) r) as (st'&E'&Hb'&Hi'&Ht'&Hm').
    + by rewrite Hc1.
    + done.
    + congruence.
    + done.
    + by rewrite Hc1.
    + done.
    + done.
    + assert ((seen ++ payloads [e]) ++ payloads es = seen ++ payloads (e :: es)) as ->.
      { rewrite <- app_assoc. f_equal. by destruct e. }
      done.
    + exists st'. split; [done|]. split; [done|]. rewrite Hi', Hi1, <- app_assoc.
      split; [done|]. split; congruence.
Qed.

Definition send_one (sd : SendDataStream) (s : sent) : result SendDataStream :=
  match s with
  | S_Object object => send_object sd object None
  | S_EndOfRange kind location => send_end_of_range sd kind location
  end.
Fixpoint send_all (sd : SendDataStream) (l : list sent) : result SendDataStream :=
  match l with
  | [] => Ok sd
  | s :: l => let? sd := send_one sd s in send_all sd l
  end.

(** Sending writes the entries. *)
Lemma send_all_writes order h req : fetch_group_order req = order -> forall l es prev out bs,
  Forall2 (fun s e => entry_of s = Ok e) l es -> write_entries order prev es = Ok bs ->
  exists sd, send_all (mkSendDataStream (HI_Fetch h req) prev out) l = Ok sd /\ sd_out sd = out ++ bs.
Proof.
  intros <- l es prev out bs Hl. revert prev out bs.
  induction Hl as [|s e l es Hs Hl IH]; intros prev out bs Hw.
  - injection Hw as <-. eexists. split; [done|]. by rewrite app_nil_r.
  - simpl in Hw. apply obind_Ok_inv in Hw as (b&Eb&Hw). apply obind_Ok_inv in Hw as (r&Er&Hw).
    injection Hw as <-. destruct (IH _ (out ++ b) _ Er) as (sd&E&Hout).
    exists sd. rewrite Hout, app_assoc. split; [|done]. cbn [send_all]. rewrite <- E.
    destruct s as [o|k loc]; simpl in Hs |- *; unfold send_object, send_end_of_range;
      cbn [sd_header_info sd_fetch_prev_ctx sd_out].
    + destruct (try_into_fetch o) as [p|err| |]; simplify_eq/=. by rewrite Eb.
    + injection Hs as <-. simpl in Eb |- *. by rewrite Eb.
Qed.

Lemma write_entries_Ok order es : forall prev, opt_ok ctx_ok prev -> entries_ready order prev es ->
  exists bs, write_entries order prev es = Ok bs /\ bytes_ok bs.
Proof.
  induction es as [|e es IH]; intros prev Hc Hr; simpl.
  - exists []. split; [done|constructor].
  - destruct Hr as (He&_&Hr). destruct (FetchObject_transmits e prev order Hc He) as (b&->&Hb&_).
    destruct (IH (Some (next_context e prev))) as (r&->&Hr'); [by eapply next_context_ok|done|].
    eexists. split; [done|]. by apply bytes_ok_app.
Qed.

(** A fetch header is read first. *)
Lemma settle_fetch_header h bs hb : is_u64 (fh_request_id h) -> FetchHeader_serialize h = Ok hb ->
  settle pending (push new_reader (hb ++ bs)) =
  drain (mkReader (Some (HI_Fetch h (pending (fh_request_id h)))) bs None None no_priorities []
           (Some (HI_Fetch h (pending (fh_request_id h)))) false).
Proof.
  intros Hh E. destruct (FetchHeader_transmits h Hh) as (hb'&E'&_&[tail ->]&D).
  rewrite E in E'. injection E' as ->. unfold settle, try_header. cbn [push recv_bytes new_reader header_info].
  change ([] ++ (FetchHeaderType_Type0x05 :: tail) ++ bs)
    with (FetchHeaderType_Type0x05 :: tail ++ bs). cbv iota.
  rewrite Z.eqb_refl. unfold read_header.
  change (FetchHeaderType_Type0x05 :: tail ++ bs) with ((FetchHeaderType_Type0x05 :: tail) ++ bs).
  by rewrite D.
Qed.

(** *** A subgroup stream *)

(** Objects that can be written one after the other. *)
Fixpoint objects_ready (hp : bool) (prev : option Z) (sos : list SubgroupObject) : Prop :=
  match sos with
  | [] => True
  | so :: sos => so_ready prev hp so /\ objects_ready hp (Some (so_object_id so)) sos
  end.

Fixpoint write_objects (hp : bool) (prev : option Z) (sos : list SubgroupObject) : result bytes :=
  match sos with
  | [] => Ok []
  | so :: sos =>
      let? b := SubgroupObject_serialize so prev hp in
      let? r := write_objects hp (Some (so_object_id so)) sos in
      Ok (b ++ r)
  end.

(** The sender passes each object with the ID of the one before. *)
Fixpoint send_subgroup (sd : SendDataStream) (prev : option Z) (l : list Object)
    : result SendDataStream :=
  match l with
  | [] => Ok sd
  | o :: l => let? sd := send_object sd o prev in
              send_subgroup sd (Some (Common.object (obj_location o))) l
  end.

(** The object a receiver gets, under the header it knows by then. *)
Definition subgroup_item (h : SubgroupHeader) (so : SubgroupObject) : DataStreamItem :=
  let so := so_wire (sht_has_properties (header_type h)) so in
  DI_Object (mkObject (sh_track_alias h) (mkLocation (sh_group_id h) (so_object_id so))
    (default DEFAULT_PUBLISHER_PRIORITY (sh_publisher_priority h)) OFP_Subgroup (sh_subgroup_id h)
    (default OS_Normal (so_status so)) (so_properties so) (so_payload so)).

(** The header once the first object, if any, has been read. *)
Definition resolved (h : SubgroupHeader) (sos : list SubgroupObject) : SubgroupHeader :=
  match sos with [] => h | so :: _ => resolve_header h (so_object_id so) end.

Lemma resolve_idem h i j : resolve_header (resolve_header h i) j = resolve_header h i.
Proof.
  unfold resolve_header at 2 3. destruct (awaiting_subgroup_id h) eqn:E; [done|].
  unfold resolve_header. by rewrite E.
Qed.
Lemma resolve_type h i : header_type (resolve_header h i) = header_type h.
Proof. unfold resolve_header. by destruct (awaiting_subgroup_id h). Qed.

Lemma read_subgroup_objects sos : forall h st bs,
  write_objects (sht_has_properties (header_type h)) (previous_object_id st) sos = Ok bs ->
  recv_bytes st = bs -> header_info st = Some (HI_Subgroup h) ->
  the_header_info st = Some (HI_Subgroup h) -> reader_ok st ->
  objects_ready (sht_has_properties (header_type h)) (previous_object_id st) sos ->
  exists st', drain st = (st', Ok tt) /\ recv_bytes st' = [] /\
    items st' = items st ++ map (subgroup_item (resolved h sos)) sos /\
    the_header_info st' = Some (HI_Subgroup (resolved h sos)) /\ malformed_track st' = malformed_track st.
Proof.
  induction sos as [|so sos IH]; intros h st bs Hw Hb Hh Ht Hok Hr.
  - injection Hw as <-. exists st. rewrite drain_empty by done. rewrite app_nil_r. done.
  - simpl in Hw. apply obind_Ok_inv in Hw as (b&Eb&Hw). apply obind_Ok_inv in Hw as (r&Er&Hw).
    injection Hw as Hw. destruct Hr as [Ho Hr].
    destruct (SubgroupObject_transmits _ _ _ Ho) as (b'&Eb'&_&Hne&D). rewrite Eb in Eb'. injection Eb' as <-.
    set (h1 := resolve_header h (so_object_id so)).
    set (st1 := mkReader (Some (HI_Subgroup h1)) r (Some (so_object_id so)) (prev_ctx st)
      (subgroup_priorities st) (items st ++ [subgroup_item h1 so]) (Some (HI_Subgroup h1)) (malformed_track st)).
    assert (read_object st = (st1, Ok true)) as E1.
    { unfold read_object. rewrite Hb, Hh, <- Hw. destruct (b ++ r) eqn:Ebr.
      { by apply app_eq_nil in Ebr as [-> _]. }
      rewrite <- Ebr in Hw. clear Ebr. unfold read_subgroup_object. rewrite Hb, <- Hw, D.
      cbn [so_wire so_object_id]. fold h1. unfold try_from_subgroup, st1, subgroup_item.
      assert (header_type h1 = header_type h) as -> by apply resolve_type.
      assert ((if awaiting_subgroup_id h then Some (HI_Subgroup h1) else the_header_info st) =
        Some (HI_Subgroup h1)) as -> by (rewrite Ht; unfold h1, resolve_header;
        by destruct (awaiting_subgroup_id h)). done. }
    rewrite drain_step, E1 by done. pose proof (read_object_cases st Hok) as C. rewrite E1 in C.
    destruct C as (Hok1&_&_).
    assert (resolved h1 sos = h1) as Hres by (destruct sos; [done|apply resolve_idem]).
    destruct (IH h1 st1 r) as (st'&E'&Hb'&Hi'&Ht'&Hm'); try done.
    { unfold h1. by rewrite resolve_type. }
    { unfold h1. by rewrite resolve_type. }
    exists st'. split; [done|]. split; [done|]. rewrite Hi', Ht', Hm', Hres. simpl. fold h1.
    by rewrite <- app_assoc.
Qed.

Lemma write_objects_Ok hp sos : forall prev, objects_ready hp prev sos ->
  exists bs, write_objects hp prev sos = Ok bs /\ bytes_ok bs.
Proof.
  induction sos as [|so sos IH]; intros prev Hr; simpl.
  - exists []. split; [done|constructor].
  - destruct Hr as (Ho&Hr). destruct (SubgroupObject_transmits _ _ _ Ho) as (b&->&Hb&_).
    destruct (IH _ Hr) as (r&->&Hr'). eexists. split; [done|]. by apply bytes_ok_app.
Qed.

Lemma try_into_subgroup_id o so : try_into_subgroup o = Ok so ->
  so_object_id so = Common.object (obj_location o).
Proof. by destruct o as [al [g ob] pr [] [sg|] [] ps [pl|]]; intros [= <-]. Qed.

Lemma send_subgroup_writes h l sos : Forall2 (fun o so => try_into_subgroup o = Ok so) l sos ->
  forall prev out ctx bs, write_objects (sht_has_properties (header_type h)) prev sos = Ok bs ->
  exists sd, send_subgroup (mkSendDataStream (HI_Subgroup h) ctx out) prev l = Ok sd /\ sd_out sd = out ++ bs.
Proof.
  induction 1 as [|o so l sos Ho Hl IH]; intros prev out ctx bs Hw.
  - injection Hw as <-. eexists. split; [done|]. by rewrite app_nil_r.
  - simpl in Hw. apply obind_Ok_inv in Hw as (b&Eb&Hw). apply obind_Ok_inv in Hw as (r&Er&Hw).
    injection Hw as <-. destruct (IH _ (out ++ b) ctx _ Er) as (sd&E&Hout).
    exists sd. rewrite Hout, app_assoc. split; [|done]. cbn [send_subgroup].
    unfold send_object at 1. cbn [sd_header_info]. rewrite Ho. cbn [obind]. rewrite Eb. cbn [obind].
    cbn [sd_fetch_prev_ctx sd_out]. rewrite <- E. do 3 f_equal.
    by rewrite (try_into_subgroup_id _ _ Ho).
Qed.

Lemma settle_subgroup_header h bs hb : sh_ready h -> SubgroupHeader_serialize h None = Ok hb ->
  settle pending (push new_reader (hb ++ bs)) =
  drain (mkReader (Some (HI_Subgroup (sh_wire None h))) bs None None no_priorities []
           (Some (HI_Subgroup (sh_wire None h))) false).
Proof.
  intros Hh E. destruct (SubgroupHeader_transmits h None Hh I) as (hb'&E'&_&_&D).
  rewrite E in E'. injection E' as <-.
  assert (exists first tail, hb = first :: tail /\ (first =? FetchHeaderType_Type0x05) = false)
    as (first&tail&->&Hf).
  { unfold SubgroupHeader_serialize in E. destruct Hh as [(p&m&e&d&f&Ht) _ _ _ _ _ _]. rewrite Ht in E.
    apply obind_Ok_inv in E as (ty&Ety&E). do 4 (apply obind_Ok_inv in E as (?&_&E)).
    injection E as <-. assert (exists x, ty = [x] /\ (x =? 5) = false) as (fb&->&?).
    { destruct p, m, e, d, f; vm_compute in Ety; injection Ety as <-; by eexists. }
    by eexists _, _. }
  unfold settle, try_header. cbn [push recv_bytes new_reader header_info].
  change ([] ++ (first :: tail) ++ bs) with (first :: tail ++ bs). cbv iota. rewrite Hf.
  unfold read_header. change (first :: tail ++ bs) with ((first :: tail) ++ bs). by rewrite D.
Qed.

(** What a header and objects after it are read as, however they arrive. *)
Lemma subgroup_bytes_read h sos hb bs chunks :
  sh_ready h -> SubgroupHeader_serialize h None = Ok hb ->
  write_objects (sht_has_properties (header_type h)) None sos = Ok bs ->
  objects_ready (sht_has_properties (header_type h)) None sos ->
  Forall bytes_ok chunks -> concat chunks = hb ++ bs ->
  exists st, read pending chunks = (st, Ok tt) /\
    items st = map (subgroup_item (resolved (sh_wire None h) sos)) sos /\
    the_header_info st = Some (HI_Subgroup (resolved (sh_wire None h) sos)) /\
    malformed_track st = false.
Proof.
  intros Hh Eh Ew Hr Hc Hcat. destruct (write_objects_Ok _ sos None Hr) as (bs'&Ew'&Hbs).
  rewrite Ew in Ew'. injection Ew' as <-.
  pose proof (read_settle pending chunks Hc) as P. rewrite Hcat in P.
  rewrite (settle_subgroup_header h bs hb Hh Eh) in P.
  set (st0 := mkReader _ bs _ _ _ _ _ _) in P.
  destruct (read_subgroup_objects sos (sh_wire None h) st0 bs Ew eq_refl eq_refl eq_refl)
    as (st&E&Hb&Hi&Ht&Hm); try done.
  rewrite E, Hb in P. exists st. rewrite Hi, Ht, Hm. done.
Qed.
End EndToEnd.

(** * Properties *)

(** C14: a data stream does not depend on how it arrives.  For every sequence
    of bytes, valid or not, and any two ways to cut it into chunks, the reader
    queues the same objects and markers in the same order, publishes the same
    header, comes to the same verdict on the track, and ends in the same way;
    in particular no object is lost, doubled or misread at a chunk boundary,
    and the read task always comes to an end. *)
Theorem chunking_independent `{Target} pending chunks chunks' :
  Forall bytes_ok chunks -> Forall bytes_ok chunks' -> concat chunks = concat chunks' ->
  observed (fst (read pending chunks)) = observed (fst (read pending chunks')) /\
  snd (read pending chunks) = snd (read pending chunks') /\
  snd (read pending chunks) <> Diverge.
Proof.
  intros Hc Hc' E. pose proof (read_settle pending chunks Hc) as P.
  pose proof (read_settle pending chunks' Hc') as P'. rewrite <- E in P'.
  pose proof (settle_no_diverge pending (push new_reader (concat chunks))) as D.
  destruct (settle pending (push new_reader (concat chunks))) as [st [u|e| |]].
  - rewrite P, P'. split; [done|]. split; [done|]. by destruct (recv_bytes st).
  - destruct P as [P1 P2], P' as [P1' P2']. rewrite P1, P2, P1', P2'. done.
  - destruct P as [P1 P2], P' as [P1' P2']. rewrite P1, P2, P1', P2'. done.
  - exfalso. apply D; [|done]. apply push_ok; [apply new_reader_ok|].
    clear -Hc. induction Hc; [constructor|]. simpl. by apply bytes_ok_app.
Qed.

Lemma chunking_independent_witness :
  let wire := [[5; 7]; [92; 3; 1]; [9; 2]; [65; 66; 128]; [140; 3; 4]] in
  snd (read (H:=debug_build) (fun _ => None) wire) = Ok tt /\
  observed (fst (read (H:=debug_build) (fun _ => None) wire)) =
    observed (fst (read (H:=debug_build) (fun _ => None) [concat wire])) /\
  snd (read (H:=debug_build) (fun _ => None) wire) =
    snd (read (H:=debug_build) (fun _ => None) [concat wire]) /\
  snd (read (H:=debug_build) (fun _ => None) wire) <> Diverge.
Proof.
  intros wire. split; [vm_compute; reflexivity|].
  apply (chunking_independent (H:=debug_build) (fun _ => None) wire [concat wire]).
  - repeat (apply List.Forall_cons;
      [repeat (apply List.Forall_cons; [unfold is_u8; lia|]); constructor|]). constructor.
  - apply List.Forall_cons; [|constructor].
    repeat (apply List.Forall_cons; [unfold is_u8; lia|]). constructor.
  - vm_compute. reflexivity.
Defined.

(** C15: a fetch stream delivers what was sent.  Objects and End of Range
    markers sent one after the other, each coming after the one before in the
    fetch's group order, are all written; and however the bytes arrive, a
    receiver that knows the fetch by the same group order queues exactly these
    objects and markers, in order, ends without an error and does not find the
    track malformed, when the objects of each subgroup share a priority and
    their gap properties fit their location. *)
Theorem fetch_stream_delivers `{Target} pending h req l es :
  is_u64 (fh_request_id h) ->
  fetch_group_order (pending (fh_request_id h)) = fetch_group_order req ->
  Forall2 (fun s e => entry_of s = Ok e) l es ->
  entries_ready (fetch_group_order req) None es ->
  (forall p q, p ∈ payloads es -> q ∈ payloads es -> same_priority p q) ->
  exists sd0 sd, SendDataStream_new (HI_Fetch h req) = Ok sd0 /\ send_all sd0 l = Ok sd /\
    (forall chunks, Forall bytes_ok chunks -> concat chunks = sd_out sd ->
     exists st, read pending chunks = (st, Ok tt) /\ items st = map item_of es /\
       the_header_info st = Some (HI_Fetch h (pending (fh_request_id h))) /\ malformed_track st = false).
Proof.
  intros Hh Ho Hl Hr Hsame.
  destruct (FetchHeader_transmits h Hh) as (hb&Eh&Hhb&_&_).
  destruct (write_entries_Ok _ es None I Hr) as (bs&Ew&Hbs).
  destruct (send_all_writes _ h req eq_refl l es None hb bs Hl Ew) as (sd&Es&Hout).
  exists (mkSendDataStream (HI_Fetch h req) None hb), sd.
  split; [unfold SendDataStream_new; by rewrite Eh|]. split; [done|]. intros chunks Hc Hcat.
  pose proof (read_settle pending chunks Hc) as P. rewrite Hcat, Hout in P.
  rewrite (settle_fetch_header pending h bs hb Hh Eh) in P.
  set (st0 := mkReader _ bs _ _ _ _ _ _) in P.
  destruct (read_entries _ h _ es Ho st0 [] bs Ew eq_refl eq_refl) as (st&E&Hb&Hi&Ht&Hm); try done.
  rewrite E, Hb in P. exists st. rewrite Hi, Ht, Hm. done.
Qed.

(** Two objects of a subgroup, an End of Range marker, and a datagram object,
    in descending groups. *)
Definition example_fetch : Fetch := mkFetch 6 [[118]] [97] [MP_GroupOrder GO_Descending].
Definition example_sent : list sent :=
  [S_Object (mkObject 0 (mkLocation 9 4) 100 OFP_Subgroup (Some 2) OS_Normal None (Some [1; 2]));
   S_Object (mkObject 0 (mkLocation 9 5) 100 OFP_Subgroup (Some 2) OS_Normal None (Some [3]));
   S_EndOfRange ERK_Unknown (mkLocation 8 0);
   S_Object (mkObject 0 (mkLocation 7 0) 10 OFP_Datagram None OS_Normal None (Some [4]))].
Definition example_entries : list FetchObject :=
  [FO_Object (mkFetchObjectPayload 9 2 4 100 OFP_Subgroup None [1; 2]);
   FO_Object (mkFetchObjectPayload 9 2 5 100 OFP_Subgroup None [3]);
   FO_EndOfRange ERK_Unknown 8 0;
   FO_Object (mkFetchObjectPayload 7 0 0 10 OFP_Datagram None [4])].

Lemma fetch_stream_delivers_witness :
  exists sd0 sd, SendDataStream_new (HI_Fetch (mkFetchHeader 6) (Some example_fetch)) = Ok sd0 /\
    send_all (H:=debug_build) sd0 example_sent = Ok sd /\
    (forall chunks, Forall bytes_ok chunks -> concat chunks = sd_out sd ->
     exists st, read (H:=debug_build) (fun _ => Some example_fetch) chunks = (st, Ok tt) /\
       items st = map item_of example_entries /\
       the_header_info st = Some (HI_Fetch (mkFetchHeader 6) (Some example_fetch)) /\
       malformed_track st = false).
Proof.
  apply (fetch_stream_delivers (H:=debug_build) (fun _ => Some example_fetch) (mkFetchHeader 6)
    (Some example_fetch) example_sent example_entries).
  - unfold is_u64. simpl. lia.
  - reflexivity.
  - repeat constructor.
  - assert (forall l, Forall is_u8 l -> blen l < U64 -> data_ok l) as Hd by (by split).
    assert (op_list_ok []) as Hnil by (split; [constructor|intros b E; vm_compute in E; by injection E as <-]).
    repeat split; simpl; unfold is_u64, is_u8; try lia; try done; try (by repeat constructor);
      try (intros ? [= <-]); simpl; try lia; try (by left; simpl; lia); try (by right; simpl; lia);
      try (repeat split; simpl; try done; lia); try done.
    all: match goal with E : _ = _ |- _ => injection E as <- end; simpl; done || (intros; lia) || congruence.
  - intros p q Hp Hq. simpl in Hp, Hq. rewrite !elem_of_cons in Hp, Hq.
    destruct Hp as [-> | [-> | [-> | Hp]]]; [| | |by apply elem_of_nil in Hp];
      (destruct Hq as [-> | [-> | [-> | Hq]]]; [| | |by apply elem_of_nil in Hq]); by intros ? ? ? ?.
Defined.

(** C16: a subgroup stream delivers what was sent.  A header that can be
    written and objects with rising IDs and no properties the header does not
    announce are all written; and however the bytes arrive, the receiver queues
    exactly these objects in order, with the header's track, group and priority
    (128 where the header leaves it out), ends without an error, and publishes
    the header with its subgroup ID, which is the first object's ID where the
    header's type says so. *)
Theorem subgroup_stream_delivers `{Target} pending h l sos :
  sh_ready h -> Forall2 (fun o so => try_into_subgroup o = Ok so) l sos ->
  objects_ready (sht_has_properties (header_type h)) None sos ->
  exists sd0 sd, SendDataStream_new (HI_Subgroup h) = Ok sd0 /\ send_subgroup sd0 None l = Ok sd /\
    (forall chunks, Forall bytes_ok chunks -> concat chunks = sd_out sd ->
     exists st, read pending chunks = (st, Ok tt) /\
       items st = map (subgroup_item (resolved (sh_wire None h) sos)) sos /\
       the_header_info st = Some (HI_Subgroup (resolved (sh_wire None h) sos)) /\
       malformed_track st = false).
Proof.
  intros Hh Hl Hr.
  destruct (SubgroupHeader_transmits h None Hh I) as (hb&Eh&_&_&_).
  destruct (write_objects_Ok _ sos None Hr) as (bs&Ew&Hbs).
  destruct (send_subgroup_writes h l sos Hl None hb None bs Ew) as (sd&Es&Hout).
  exists (mkSendDataStream (HI_Subgroup h) None hb), sd.
  split; [unfold SendDataStream_new; by rewrite Eh|]. split; [done|]. intros chunks Hc Hcat.
  apply (subgroup_bytes_read pending h sos hb bs chunks Hh Eh Ew Hr Hc). by rewrite Hcat.
Qed.

(** A subgroup known by its first object, with an object's properties, a
    payload and an end of group. *)
Definition example_sh : SubgroupHeader :=
  mkSubgroupHeader (SubgroupHeaderType_from_properties true SIM_FirstObjectId true true true) 3 9 None None.
Definition example_objects : list Object :=
  [mkObject 3 (mkLocation 9 4) 128 OFP_Subgroup (Some 4) OS_Normal None (Some [1; 2]);
   mkObject 3 (mkLocation 9 7) 128 OFP_Subgroup (Some 4) OS_EndOfGroup None None].
Definition example_sos : list SubgroupObject :=
  [mkSubgroupObject 4 None None (Some [1; 2]);
   mkSubgroupObject 7 None (Some OS_EndOfGroup) None].

Lemma subgroup_stream_delivers_witness :
  exists sd0 sd, SendDataStream_new (HI_Subgroup example_sh) = Ok sd0 /\
    send_subgroup (H:=debug_build) sd0 None example_objects = Ok sd /\
    (forall chunks, Forall bytes_ok chunks -> concat chunks = sd_out sd ->
     exists st, read (H:=debug_build) (fun _ => None) chunks = (st, Ok tt) /\
       items st = map (subgroup_item (resolved (sh_wire None example_sh) example_sos)) example_sos /\
       the_header_info st = Some (HI_Subgroup (resolved (sh_wire None example_sh) example_sos)) /\
       malformed_track st = false).
Proof.
  assert (op_list_ok []) as Hnil by (split; [constructor|intros b E; vm_compute in E; by injection E as <-]).
  apply (subgroup_stream_delivers (H:=debug_build) (fun _ => None) example_sh example_objects example_sos).
  - split; [by repeat eexists|..]; simpl; try done; unfold is_u64; lia.
  - repeat constructor.
  - repeat split; simpl; try (unfold is_u64; lia); try done; try congruence;
      try (intros ? [= <-]; lia); try (repeat constructor; unfold is_u8; lia).
    all: first [by destruct Hnil | match goal with E : _ = _ |- _ => injection E as <- end; lia].
Defined.
