(* ===== verification/SeenObjects.v ===== *)
(** Which Objects a track has ingested already
    ([apps/relay/src/server/seen_objects.rs]).

    The relay asks [is_duplicate] of every Object of every publisher of a
    track.  A ring of slots holds a bitmap per group; a group's bitmap starts
    small and becomes a circular window over its newest IDs.  Each call takes
    the lock of one slot for its whole length, so what the calls of several
    publishers amount to is a sequence of calls, which [is_duplicates] runs.

    [known] says from the Locations seen so far what the answer must be; the
    bitmaps are shown to give it. *)
From S2P Require Import Prelude Common.

Definition INLINE_BITS : Z := 256.
Definition INLINE_WORDS : nat := 4.
Definition WINDOW_BITS : Z := 4096.
Definition WINDOW_WORDS : nat := 64.

(** * Bits in words *)

(** [words[i]]. *)
Definition word_at (words : list Z) (i : Z) : panics Z :=
  match words !! Z.to_nat i with Some w => Ok w | None => Panic end.

Definition bit_is_set (words : list Z) (index : Z) : panics bool :=
  let? w := word_at words (Z.shiftr index 6) in
  Ok (negb (Z.land w (Z.shiftl 1 (Z.land index 63)) =? 0)).

Definition set_bit (words : list Z) (index : Z) : panics (list Z) :=
  let? w := word_at words (Z.shiftr index 6) in
  Ok (<[Z.to_nat (Z.shiftr index 6) := Z.lor w (Z.shiftl 1 (Z.land index 63))]> words).

Definition clear_bit (words : list Z) (index : Z) : panics (list Z) :=
  let? w := word_at words (Z.shiftr index 6) in
  Ok (<[Z.to_nat (Z.shiftr index 6) := Z.land w (Z.lxor U64_MAX (Z.shiftl 1 (Z.land index 63)))]> words).

(** * The bitmaps *)

Inductive GroupBits : Type :=
| Inline (words : list Z)
| Window (high : Z) (words : list Z).

Definition window_test_and_set (high : Z) (words : list Z) (id : Z) : panics (Z * list Z * bool) :=
  if high <? id then
    let? words :=
      if WINDOW_BITS <=? id - high then Ok (replicate (length words) 0)
      else for_each (seqZ (high + 1) (id - high))
             (fun words displaced => clear_bit words (displaced mod WINDOW_BITS)) words in
    let? words := set_bit words (id mod WINDOW_BITS) in
    Ok (id, words, false)
  else if WINDOW_BITS <=? high - id then Ok (high, words, false)
  else
    let index := id mod WINDOW_BITS in
    let? seen := bit_is_set words index in
    let? words := set_bit words index in
    Ok (high, words, seen).

Definition promote (words : list Z) : panics GroupBits :=
  let? window := for_each (seqZ 0 INLINE_BITS)
    (fun window id =>
       let? b := bit_is_set words id in
       if b then set_bit window (id mod WINDOW_BITS) else Ok window)
    (replicate WINDOW_WORDS 0) in
  Ok (Window (INLINE_BITS - 1) window).

(** [depth] bounds the calls of itself: one, for [promote] gives a window. *)
Fixpoint test_and_set_to (depth : nat) (self : GroupBits) (id : Z) : panics (GroupBits * bool) :=
  match self with
  | Inline words =>
      if id <? INLINE_BITS then
        let? seen := bit_is_set words id in
        let? words := set_bit words id in
        Ok (Inline words, seen)
      else
        let? self := promote words in
        match depth with O => Diverge | S depth => test_and_set_to depth self id end
  | Window high words =>
      let? r := window_test_and_set high words id in
      Ok (Window (fst (fst r)) (snd (fst r)), snd r)
  end.
Definition test_and_set : GroupBits -> Z -> panics (GroupBits * bool) := test_and_set_to 1.

(** * The ring of groups *)

Record GroupState := mkGroupState { gs_group : Z; bits : GroupBits }.

Definition GroupState_new (group first_object : Z) : panics GroupState :=
  let bits :=
    if first_object <? INLINE_BITS then Inline (replicate INLINE_WORDS 0)
    else Window first_object (replicate WINDOW_WORDS 0) in
  let? r := test_and_set bits first_object in
  Ok (mkGroupState group (fst r)).

(** A slot is the state of its group, if a group has used it. *)
Abbreviation SeenObjects := (list (option GroupState)).

Definition SeenObjects_new (retained_groups : nat) : SeenObjects := replicate retained_groups None.

Definition is_duplicate (slots : SeenObjects) (location : Location) : panics (SeenObjects * bool) :=
  match slots with
  | [] => Ok (slots, false)
  | _ =>
      let index := Z.to_nat (group location mod Z.of_nat (length slots)) in
      match slots !! index with
      | None => Panic
      | Some (Some state) =>
          if gs_group state =? group location then
            let? r := test_and_set (bits state) (object location) in
            Ok (<[index := Some (mkGroupState (gs_group state) (fst r))]> slots, snd r)
          else if gs_group state <? group location then
            let? state := GroupState_new (group location) (object location) in
            Ok (<[index := Some state]> slots, false)
          else Ok (slots, false)
      | Some None =>
          let? state := GroupState_new (group location) (object location) in
          Ok (<[index := Some state]> slots, false)
      end
  end.

(** The calls of all publishers in the order in which they take the locks. *)
Fixpoint is_duplicates (slots : SeenObjects) (locations : list Location) : panics (list bool) :=
  match locations with
  | [] => Ok []
  | l :: locations =>
      let? r := is_duplicate slots l in
      let? rest := is_duplicates (fst r) locations in
      Ok (snd r :: rest)
  end.

(** * The contract

    What the answer depends on: the Locations seen so far, in any order. *)

(** [l] was seen, no newer group took its slot, and its group has not moved
    [WINDOW_BITS] past it. *)
Definition known (retained_groups : nat) (seen : list Location) (l : Location) : bool :=
  negb (Nat.eqb retained_groups 0) && bool_decide (l ∈ seen) &&
  forallb (fun m => negb (group m mod Z.of_nat retained_groups =? group l mod Z.of_nat retained_groups)
                    || (group m <=? group l)) seen &&
  forallb (fun m => negb (group m =? group l) || (object m - object l <? WINDOW_BITS)) seen.

Fixpoint knowns (retained_groups : nat) (seen locations : list Location) : list bool :=
  match locations with
  | [] => []
  | l :: locations => known retained_groups seen l :: knowns retained_groups (l :: seen) locations
  end.

(** * Lemmas on bits *)

Definition words_ok (n : nat) (words : list Z) : Prop := length words = n /\ Forall is_u64 words.
Definition word_bit (words : list Z) (i : Z) : bool :=
  match words !! Z.to_nat (i / 64) with Some w => Z.testbit w (i mod 64) | None => false end.

Lemma shiftr_6 i : Z.shiftr i 6 = i / 64.
Proof. by rewrite Z.shiftr_div_pow2. Qed.
Lemma land_63 i : Z.land i 63 = i mod 64.
Proof. change 63 with (Z.ones 6). by rewrite Z.land_ones. Qed.

Lemma is_u64_testbit w : is_u64 w <-> 0 <= w /\ forall i, 64 <= i -> Z.testbit w i = false.
Proof.
  unfold is_u64. split.
  - intros [H0 H1]. split; [done|]. intros i Hi. destruct (Z.eq_dec w 0) as [->|]; [apply Z.testbit_0_l|].
    apply Z.bits_above_log2; [done|]. assert (Z.log2 w < 64) by (apply Z.log2_lt_pow2; lia). lia.
  - intros [H0 H1]. split; [done|]. destruct (Z.lt_ge_cases w U64) as [|Hge]; [done|].
    assert (64 <= Z.log2 w) as Hl by (apply Z.log2_le_pow2; lia). specialize (H1 _ Hl).
    rewrite Z.bit_log2 in H1; [done|lia].
Qed.

Lemma testbit_1 k i : 0 <= k -> 0 <= i -> Z.testbit (Z.shiftl 1 k) i = (i =? k).
Proof.
  intros. rewrite Z.shiftl_1_l. rewrite Z.pow2_bits_eqb by done. apply Z.eqb_sym.
Qed.

Lemma testbit_not_1 k i : 0 <= k < 64 -> 0 <= i ->
  Z.testbit (Z.lxor U64_MAX (Z.shiftl 1 k)) i = (i <? 64) && negb (i =? k).
Proof.
  intros. rewrite Z.lxor_spec, testbit_1 by lia. change U64_MAX with (Z.ones 64).
  destruct (Z.ltb_spec i 64).
  - rewrite Z.ones_spec_low by lia. by destruct (i =? k).
  - rewrite Z.ones_spec_high by lia. destruct (Z.eqb_spec i k); [lia|done].
Qed.

Lemma land_bit_0 w k : 0 <= k -> (Z.land w (Z.shiftl 1 k) =? 0) = negb (Z.testbit w k).
Proof.
  intros Hk. destruct (Z.testbit w k) eqn:E; simpl.
  - apply Z.eqb_neq. intros H. apply (f_equal (fun x => Z.testbit x k)) in H.
    rewrite Z.land_spec, testbit_1, E, Z.eqb_refl, Z.testbit_0_l in H by lia. done.
  - apply Z.eqb_eq, Z.bits_inj'. intros i Hi. rewrite Z.land_spec, testbit_1, Z.testbit_0_l by lia.
    destruct (Z.eqb_spec i k) as [->|]; [by rewrite E|by rewrite andb_false_r].
Qed.

Lemma div_mod_eqb i j : 0 <= i -> 0 <= j ->
  (j =? i) = (Z.to_nat (j / 64) =? Z.to_nat (i / 64))%nat && (j mod 64 =? i mod 64).
Proof.
  intros. pose proof (Z.div_mod i 64). pose proof (Z.div_mod j 64).
  pose proof (Z.div_pos i 64). pose proof (Z.div_pos j 64).
  destruct (Z.eqb_spec j i) as [->|]; [by rewrite Nat.eqb_refl, Z.eqb_refl|].
  destruct (Nat.eqb_spec (Z.to_nat (j / 64)) (Z.to_nat (i / 64))) as [E|]; [|done].
  destruct (Z.eqb_spec (j mod 64) (i mod 64)); [|done].
  apply Z2Nat.inj in E; lia.
Qed.

Section Words.
Context (n : nat) (words : list Z) (i : Z).
Hypothesis Hw : words_ok n words.
Hypothesis Hi : 0 <= i < 64 * Z.of_nat n.

Lemma word_at_Ok : exists w, words !! Z.to_nat (i / 64) = Some w /\ word_at words (i / 64) = Ok w /\ is_u64 w.
Proof.
  destruct Hw as [Hl Hf]. pose proof (Z.div_pos i 64). assert (i / 64 < Z.of_nat n) by (apply Z.div_lt_upper_bound; lia).
  destruct (lookup_lt_is_Some_2 words (Z.to_nat (i / 64))) as [w E]; [lia|].
  exists w. unfold word_at. rewrite E. split; [done|]. split; [done|]. by eapply Forall_lookup_1.
Qed.

Lemma bit_is_set_Ok : bit_is_set words i = Ok (word_bit words i).
Proof.
  unfold bit_is_set, word_bit. rewrite shiftr_6, land_63. destruct word_at_Ok as (w&->&->&_). simpl.
  rewrite land_bit_0, negb_involutive; [done|]. apply Z.mod_pos_bound. lia.
Qed.

(** Changing the word of [i] to one that differs at most in the bit of [i]. *)
Lemma word_update f v :
  (forall w, is_u64 w -> is_u64 (f w)) ->
  (forall w k, is_u64 w -> 0 <= k < 64 -> Z.testbit (f w) k = if k =? i mod 64 then v else Z.testbit w k) ->
  exists words', (let? w := word_at words (Z.shiftr i 6) in
                  Ok (<[Z.to_nat (Z.shiftr i 6) := f w]> words)) = Ok (E:=Empty_set) words' /\
    words_ok n words' /\
    forall j, 0 <= j -> word_bit words' j = if j =? i then v else word_bit words j.
Proof.
  intros Hf Hbit. rewrite shiftr_6. destruct word_at_Ok as (w&E&->&Hok). simpl. eexists. split; [done|].
  destruct Hw as [Hl Hu]. split.
  { split; [by rewrite length_insert|]. by apply Forall_insert; [|apply Hf]. }
  intros j Hj. unfold word_bit. rewrite (div_mod_eqb i j) by lia.
  destruct (Nat.eqb_spec (Z.to_nat (j / 64)) (Z.to_nat (i / 64))) as [->|Hne]; simpl.
  - rewrite list_lookup_insert_eq by (by eapply lookup_lt_Some). rewrite E. apply Hbit; [done|].
    apply Z.mod_pos_bound. lia.
  - by rewrite list_lookup_insert_ne.
Qed.

Lemma set_bit_Ok : exists words', set_bit words i = Ok words' /\ words_ok n words' /\
  forall j, 0 <= j -> word_bit words' j = if j =? i then true else word_bit words j.
Proof.
  assert (0 <= i mod 64 < 64) by (apply Z.mod_pos_bound; lia).
  unfold set_bit. rewrite land_63. apply word_update.
  - intros w [? Hb]%is_u64_testbit. apply is_u64_testbit. split.
    { apply Z.lor_nonneg. split; [done|]. apply Z.shiftl_nonneg. lia. }
    intros k Hk. rewrite Z.lor_spec, testbit_1, Hb by lia. destruct (Z.eqb_spec k (i mod 64)); [lia|done].
  - intros w k _ Hk. rewrite Z.lor_spec, testbit_1 by lia.
    destruct (k =? i mod 64); [apply orb_true_r|apply orb_false_r].
Qed.

Lemma clear_bit_Ok : exists words', clear_bit words i = Ok words' /\ words_ok n words' /\
  forall j, 0 <= j -> word_bit words' j = if j =? i then false else word_bit words j.
Proof.
  assert (0 <= i mod 64 < 64) by (apply Z.mod_pos_bound; lia).
  unfold clear_bit. rewrite land_63. apply word_update.
  - intros w [? Hb]%is_u64_testbit. apply is_u64_testbit. split; [apply Z.land_nonneg; by left|].
    intros k Hk. by rewrite Z.land_spec, Hb by lia.
  - intros w k _ Hk. rewrite Z.land_spec, testbit_not_1 by lia.
    destruct (Z.ltb_spec k 64); [|lia]. destruct (k =? i mod 64); [apply andb_false_r|apply andb_true_r].
Qed.
End Words.

Lemma words_ok_zero n : words_ok n (replicate n 0).
Proof. split; [apply length_replicate|]. apply Forall_replicate. unfold is_u64. lia. Qed.
Lemma word_bit_zero n i : word_bit (replicate n 0) i = false.
Proof.
  unfold word_bit. destruct (_ !! _) as [w|] eqn:E; [|done]. apply lookup_replicate_1 in E as [-> _].
  apply Z.testbit_0_l.
Qed.

(** * Lemmas on the bitmap of a group *)

Lemma mod_window a b : -4096 < a - b < 4096 -> (a mod WINDOW_BITS =? b mod WINDOW_BITS) = (a =? b).
Proof.
  unfold WINDOW_BITS. intros H. destruct (Z.eqb_spec a b) as [->|Hne]; [apply Z.eqb_refl|].
  apply Z.eqb_neq. intros E. pose proof (Z.div_mod a 4096). pose proof (Z.div_mod b 4096). lia.
Qed.
Lemma mod_range a : 0 <= a mod WINDOW_BITS < 64 * Z.of_nat WINDOW_WORDS.
Proof. apply Z.mod_pos_bound. done. Qed.

Lemma member_cons_ne (i id : Z) ids : i <> id -> bool_decide (i ∈ ids) = bool_decide (i ∈ id :: ids).
Proof. intros. apply bool_decide_ext. rewrite elem_of_cons. tauto. Qed.

(** The window holds the [ids] not [WINDOW_BITS] behind [high]. *)
Record window_ok (ids : list Z) (high : Z) (words : list Z) : Prop := {
  win_words : words_ok WINDOW_WORDS words;
  win_high : forall i, i ∈ ids -> i <= high;
  win_bits : forall i, 0 <= i -> high - WINDOW_BITS < i <= high ->
    word_bit words (i mod WINDOW_BITS) = bool_decide (i ∈ ids)
}.

Lemma clear_all (l : list Z) words : words_ok WINDOW_WORDS words ->
  exists words', for_each l (fun words displaced => clear_bit words (displaced mod WINDOW_BITS)) words = Ok words' /\
    words_ok WINDOW_WORDS words' /\
    forall j, 0 <= j -> word_bit words' j =
      word_bit words j && negb (existsb (fun x => x mod WINDOW_BITS =? j) l).
Proof.
  intros Hw. apply (for_each_inv (fun d words' => words_ok WINDOW_WORDS words' /\
    forall j, 0 <= j -> word_bit words' j =
      word_bit words j && negb (existsb (fun x => x mod WINDOW_BITS =? j) d))).
  - intros d x r w _ [Hw' Hb]. destruct (clear_bit_Ok _ _ _ Hw' (mod_range x)) as (w'&E&Hok&Hb').
    exists w'. split; [done|]. split; [done|]. intros j Hj. rewrite Hb', Hb by done.
    rewrite existsb_app. simpl. rewrite orb_false_r, Z.eqb_sym.
    destruct (x mod WINDOW_BITS =? j); [by rewrite orb_true_r, andb_false_r|by rewrite orb_false_r].
  - split; [done|]. intros j Hj. by rewrite andb_true_r.
Qed.

(** What is left of the window when [high] moves up to [id]. *)
Lemma slide ids high words id : window_ok ids high words -> 0 <= id -> high < id ->
  exists words', (if WINDOW_BITS <=? id - high then Ok (replicate (length words) 0)
      else for_each (seqZ (high + 1) (id - high))
             (fun words displaced => clear_bit words (displaced mod WINDOW_BITS)) words) = Ok words' /\
    words_ok WINDOW_WORDS words' /\
    forall i, 0 <= i -> id - WINDOW_BITS < i <= id ->
      word_bit words' (i mod WINDOW_BITS) = bool_decide (i ∈ ids).
Proof.
  intros [Hw Hhigh Hbits] Hid Hlt.
  assert (forall i, high < i -> bool_decide (i ∈ ids) = false) as Hnot.
  { intros i Hi. apply bool_decide_eq_false. intros ?%Hhigh. lia. }
  destruct (Z.leb_spec WINDOW_BITS (id - high)) as [Hjump|Hjump].
  - eexists. split; [done|]. rewrite (proj1 Hw). split; [apply words_ok_zero|].
    intros i Hi Hr. rewrite word_bit_zero, Hnot; [done|]. unfold WINDOW_BITS in *. lia.
  - destruct (clear_all (seqZ (high + 1) (id - high)) words Hw) as (w'&->&Hw'&Hb).
    exists w'. split; [done|]. split; [done|]. intros i Hi Hr.
    rewrite Hb by (apply Z.mod_pos_bound; done). unfold WINDOW_BITS in Hr, Hjump.
    destruct (Z.lt_ge_cases high i) as [Hin|Hold].
    + rewrite Hnot by done. rewrite (proj2 (existsb_exists _ _)); [apply andb_false_r|].
      exists i. split; [|apply Z.eqb_refl]. apply list_elem_of_In, elem_of_seqZ. lia.
    + rewrite Hbits by (unfold WINDOW_BITS; lia).
      destruct (existsb _ _) eqn:Ex; [|by rewrite andb_true_r]. exfalso.
      apply existsb_exists in Ex as (x&Hx&Eq). apply list_elem_of_In, elem_of_seqZ in Hx.
      rewrite mod_window in Eq by lia. apply Z.eqb_eq in Eq. lia.
Qed.

Lemma window_step ids high words id : window_ok ids high words -> 0 <= id ->
  exists words', window_test_and_set high words id =
      Ok (Z.max high id, words', bool_decide (id ∈ ids) && (high - id <? WINDOW_BITS)) /\
    window_ok (id :: ids) (Z.max high id) words'.
Proof.
  intros Hok Hid. unfold window_test_and_set. destruct (Z.ltb_spec high id) as [Hlt|Hge].
  - destruct (slide _ _ _ _ Hok Hid Hlt) as (w1&->&Hw1&Hb1). simpl.
    destruct (set_bit_Ok _ _ _ Hw1 (mod_range id)) as (w2&->&Hw2&Hb2). simpl.
    exists w2. rewrite Z.max_r by lia. split.
    { rewrite bool_decide_eq_false_2; [done|]. intros ?%(win_high _ _ _ Hok). lia. }
    split; [done|..].
    + intros i [->|Hi]%elem_of_cons; [lia|]. apply (win_high _ _ _ Hok) in Hi. lia.
    + intros i Hi Hr. rewrite Hb2 by (apply Z.mod_pos_bound; done).
      rewrite mod_window by (unfold WINDOW_BITS in Hr; lia).
      destruct (Z.eqb_spec i id) as [->|Hne].
      { symmetry. apply bool_decide_eq_true. by left. }
      rewrite Hb1 by done. by apply member_cons_ne.
  - rewrite Z.max_l by lia. destruct (Z.leb_spec WINDOW_BITS (high - id)) as [Hold|Hin].
    + exists words. rewrite (proj2 (Z.ltb_ge _ _) Hold), andb_false_r. split; [done|].
      destruct Hok as [Hw Hhigh Hbits]. split; [done|..].
      * intros i [->|Hi]%elem_of_cons; [done|auto].
      * intros i Hi Hr. rewrite Hbits by done. apply member_cons_ne. lia.
    + rewrite (proj2 (Z.ltb_lt _ _) Hin), andb_true_r. destruct Hok as [Hw Hhigh Hbits].
      rewrite (bit_is_set_Ok _ _ _ Hw (mod_range id)). simpl.
      destruct (set_bit_Ok _ _ _ Hw (mod_range id)) as (w2&->&Hw2&Hb2). simpl.
      exists w2. split; [by rewrite Hbits by (unfold WINDOW_BITS in *; lia)|]. split; [done|..].
      * intros i [->|Hi]%elem_of_cons; [done|auto].
      * intros i Hi Hr. rewrite Hb2 by (apply Z.mod_pos_bound; done).
        rewrite mod_window by (unfold WINDOW_BITS in *; lia).
        destruct (Z.eqb_spec i id) as [->|Hne].
        { symmetry. apply bool_decide_eq_true. by left. }
        rewrite Hbits by done. by apply member_cons_ne.
Qed.

Definition bits_ok (ids : list Z) (b : GroupBits) : Prop :=
  match b with
  | Inline words => words_ok INLINE_WORDS words /\ (forall i, i ∈ ids -> i < INLINE_BITS) /\
      forall i, 0 <= i < INLINE_BITS -> word_bit words i = bool_decide (i ∈ ids)
  | Window high words => window_ok ids high words /\ high ∈ ids
  end.

(** The answer a group's bitmap must give. *)
Definition recent (ids : list Z) (id : Z) : bool :=
  bool_decide (id ∈ ids) && forallb (fun m => m - id <? WINDOW_BITS) ids.

Lemma recent_window ids high id : (forall i, i ∈ ids -> i <= high) -> high ∈ ids ->
  recent ids id = bool_decide (id ∈ ids) && (high - id <? WINDOW_BITS).
Proof.
  intros Hmax Hin. unfold recent. f_equal. destruct (Z.ltb_spec (high - id) WINDOW_BITS) as [Hlt|Hge].
  - apply forallb_forall. intros m Hm%list_elem_of_In%Hmax. apply Z.ltb_lt. lia.
  - apply not_true_is_false. intros Hf. rewrite forallb_forall in Hf.
    apply list_elem_of_In, Hf in Hin. apply Z.ltb_lt in Hin. lia.
Qed.

Lemma recent_inline ids id : 0 <= id -> (forall i, i ∈ ids -> i < INLINE_BITS) ->
  recent ids id = bool_decide (id ∈ ids).
Proof.
  intros Hid Hmax. unfold recent. rewrite (proj2 (forallb_forall _ _)); [apply andb_true_r|].
  intros m Hm%list_elem_of_In%Hmax. apply Z.ltb_lt. unfold INLINE_BITS, WINDOW_BITS in *. lia.
Qed.

Lemma promote_Ok ids words : bits_ok ids (Inline words) ->
  exists window, promote words = Ok (Window (INLINE_BITS - 1) window) /\
    window_ok ids (INLINE_BITS - 1) window.
Proof.
  intros (Hw&Hmax&Hbits).
  destruct (for_each_inv (fun d window => words_ok WINDOW_WORDS window /\
      forall j, 0 <= j -> word_bit window j = bool_decide (j ∈ d) && word_bit words j)
    (seqZ 0 INLINE_BITS) (fun window id =>
       let? b := bit_is_set words id in
       if b then set_bit window (id mod WINDOW_BITS) else Ok window)) with (s := replicate WINDOW_WORDS 0)
    as (window&E&Hok&Hb).
  - intros d x r w El [Hok Hb].
    assert (0 <= x < INLINE_BITS) as Hx.
    { assert (x ∈ seqZ 0 INLINE_BITS) as Hx%elem_of_seqZ; [rewrite El; apply elem_of_app; right; by left|lia]. }
    assert (x mod WINDOW_BITS = x) as Hmod
      by (apply Z.mod_small; unfold INLINE_BITS, WINDOW_BITS in *; lia).
    rewrite (bit_is_set_Ok _ _ _ Hw Hx). cbn [obind].
    assert (forall j, bool_decide (j ∈ d ++ [x]) = (j =? x) || bool_decide (j ∈ d)) as Hd.
    { intros j. destruct (Z.eqb_spec j x) as [->|]; simpl.
      - apply bool_decide_eq_true, elem_of_app. right. by left.
      - apply bool_decide_ext. rewrite elem_of_app, list_elem_of_singleton. tauto. }
    destruct (word_bit words x) eqn:Ex.
    + destruct (set_bit_Ok _ _ (x mod WINDOW_BITS) Hok (mod_range x)) as (w'&->&Hok'&Hb').
      exists w'. split; [done|]. split; [done|]. intros j Hj. rewrite Hb', Hb, Hd, Hmod by done.
      destruct (Z.eqb_spec j x) as [->|]; [by rewrite Ex|done].
    + exists w. split; [done|]. split; [done|]. intros j Hj. rewrite Hb, Hd by done.
      destruct (Z.eqb_spec j x) as [->|]; [by rewrite Ex, !andb_false_r|done].
  - split; [apply words_ok_zero|]. intros j Hj. by rewrite word_bit_zero.
  - exists window. unfold promote. rewrite E. split; [done|]. split; [done|..].
    + intros i Hi%Hmax. lia.
    + intros i Hi Hr. rewrite Z.mod_small by (unfold INLINE_BITS, WINDOW_BITS in *; lia).
      rewrite Hb, Hbits by lia. rewrite bool_decide_eq_true_2; [done|]. apply elem_of_seqZ. lia.
Qed.

Lemma test_and_set_window depth ids high words id : window_ok ids high words -> 0 <= id ->
  high ∈ ids \/ high < id ->
  exists b', test_and_set_to depth (Window high words) id = Ok (b', recent ids id) /\
    bits_ok (id :: ids) b'.
Proof.
  intros Hok Hid Hor. destruct (window_step _ _ _ _ Hok Hid) as (w'&E&Hok').
  exists (Window (Z.max high id) w').
  assert (recent ids id = bool_decide (id ∈ ids) && (high - id <? WINDOW_BITS)) as Hr.
  { destruct Hor as [Hin|Hlt]; [apply recent_window; [apply Hok|done]|].
    unfold recent. rewrite bool_decide_eq_false_2; [done|]. intros ?%(win_high _ _ _ Hok). lia. }
  split; [destruct depth; simpl; by rewrite E, Hr|]. split; [done|].
  destruct Hor as [Hin|Hlt]; [|rewrite Z.max_r by lia; by left].
  destruct (Z.max_spec high id) as [[_ ->]|[_ ->]]; [by left|by right].
Qed.

Lemma test_and_set_Ok ids b id : bits_ok ids b -> 0 <= id ->
  exists b', test_and_set b id = Ok (b', recent ids id) /\ bits_ok (id :: ids) b'.
Proof.
  intros Hok Hid. unfold test_and_set. destruct b as [words|high words].
  - cbn [test_and_set_to]. destruct (Z.ltb_spec id INLINE_BITS) as [Hlt|Hge].
    + destruct Hok as (Hw&Hmax&Hbits). rewrite (bit_is_set_Ok _ _ id Hw) by (simpl; done).
      cbn [obind]. destruct (set_bit_Ok _ _ id Hw) as (w'&->&Hw'&Hb); [done|]. cbn [obind].
      exists (Inline w'). rewrite recent_inline, Hbits by done. split; [done|]. split; [done|]. split.
      * intros i [->|Hi]%elem_of_cons; [done|auto].
      * intros i Hi. rewrite Hb by lia. destruct (Z.eqb_spec i id) as [->|Hne].
        { symmetry. apply bool_decide_eq_true. by left. }
        rewrite Hbits by done. by apply member_cons_ne.
    + destruct (promote_Ok ids words Hok) as (window&->&Hok'). cbn [obind].
      apply (test_and_set_window 0); [done|done|]. right. lia.
  - destruct Hok as [Hok Hin]. apply test_and_set_window; auto.
Qed.

Lemma GroupState_new_Ok g id : 0 <= id ->
  exists b, GroupState_new g id = Ok (mkGroupState g b) /\ bits_ok [id] b.
Proof.
  intros Hid. unfold GroupState_new. destruct (Z.ltb_spec id INLINE_BITS) as [Hlt|Hge].
  - destruct (test_and_set_Ok [] (Inline (replicate INLINE_WORDS 0)) id) as (b&->&Hb); [|done|].
    + split; [apply words_ok_zero|]. split; [by intros ? ?%elem_of_nil|].
      intros i Hi. apply word_bit_zero.
    + exists b. done.
  - unfold test_and_set. cbn [test_and_set_to]. unfold window_test_and_set.
    rewrite Z.ltb_irrefl, Z.sub_diag. simpl (_ <=? _).
    rewrite (bit_is_set_Ok _ _ _ (words_ok_zero _) (mod_range id)). cbn [obind].
    destruct (set_bit_Ok _ _ _ (words_ok_zero _) (mod_range id)) as (w&->&Hw&Hb). cbn [obind].
    eexists. split; [done|]. split; [|by left]. split; [done|..].
    + intros i ->%list_elem_of_singleton. done.
    + simpl. intros i Hi Hr. rewrite Hb, word_bit_zero by (apply Z.mod_pos_bound; done).
      rewrite mod_window by (unfold WINDOW_BITS in *; lia).
      destruct (Z.eqb_spec i id) as [->|]; symmetry.
      * apply bool_decide_eq_true. by left.
      * apply bool_decide_eq_false. by intros ?%list_elem_of_singleton.
Qed.

(** * Lemmas on the ring *)

Definition ids_of (seen : list Location) (g : Z) : list Z :=
  map object (List.filter (fun l => group l =? g) seen).

Lemma elem_of_ids_of seen g i : i ∈ ids_of seen g <-> mkLocation g i ∈ seen.
Proof.
  unfold ids_of. rewrite list_elem_of_In, in_map_iff, list_elem_of_In. split.
  - intros ([g' i']&<-&[Hin Hg]%filter_In). simpl in *. by apply Z.eqb_eq in Hg as ->.
  - intros Hin. eexists. split; [|apply filter_In; split; [exact Hin|apply Z.eqb_refl]]. done.
Qed.

Lemma ids_of_cons l seen g :
  ids_of (l :: seen) g = if group l =? g then object l :: ids_of seen g else ids_of seen g.
Proof. unfold ids_of. simpl. by destruct (group l =? g). Qed.

Lemma ids_of_nil seen g : (forall i, mkLocation g i ∉ seen) -> ids_of seen g = [].
Proof.
  intros H. destruct (ids_of seen g) as [|i ids] eqn:E; [done|]. exfalso. apply (H i).
  apply elem_of_ids_of. rewrite E. by left.
Qed.

Section Ring.
Context (n : nat).

Definition slot_ok (seen : list Location) (k : nat) (slot : option GroupState) : Prop :=
  match slot with
  | None => forall l, l ∈ seen -> group l mod Z.of_nat n <> Z.of_nat k
  | Some state =>
      gs_group state mod Z.of_nat n = Z.of_nat k /\ (exists i, mkLocation (gs_group state) i ∈ seen) /\
      (forall l, l ∈ seen -> group l mod Z.of_nat n = Z.of_nat k -> group l <= gs_group state) /\
      bits_ok (ids_of seen (gs_group state)) (bits state)
  end.

Definition ring_ok (seen : list Location) (slots : SeenObjects) : Prop :=
  length slots = n /\ forall k slot, slots !! k = Some slot -> slot_ok seen k slot.

Lemma known_newest seen l : n <> O ->
  (forall m, m ∈ seen -> group m mod Z.of_nat n = group l mod Z.of_nat n -> group m <= group l) ->
  known n seen l = recent (ids_of seen (group l)) (object l).
Proof.
  intros Hn Hmax. unfold known, recent. rewrite (proj2 (Nat.eqb_neq _ _) Hn). simpl.
  rewrite (proj2 (forallb_forall _ seen)), andb_true_r.
  - f_equal.
    + apply bool_decide_ext. rewrite elem_of_ids_of. by destruct l.
    + unfold ids_of. clear. induction seen as [|m seen IH]; simpl; [done|].
      destruct (group m =? group l); simpl; by rewrite IH.
  - intros m Hm%list_elem_of_In. apply orb_true_iff.
    destruct (Z.eqb_spec (group m mod Z.of_nat n) (group l mod Z.of_nat n)); [right|by left].
    apply Z.leb_le. auto.
Qed.

Lemma known_unseen seen l : l ∉ seen -> known n seen l = false.
Proof.
  intros H. unfold known. rewrite (bool_decide_eq_false_2 _ H). by rewrite andb_false_r.
Qed.

Lemma known_superseded seen l m : m ∈ seen ->
  group m mod Z.of_nat n = group l mod Z.of_nat n -> group l < group m -> known n seen l = false.
Proof.
  intros Hm Hmod Hlt. apply not_true_is_false. unfold known. intros [[_ Hf]%andb_true_iff _]%andb_true_iff.
  rewrite forallb_forall in Hf. apply list_elem_of_In, Hf in Hm. rewrite Hmod, Z.eqb_refl in Hm. simpl in Hm.
  apply Z.leb_le in Hm. lia.
Qed.

(** A Location of another residue does not concern a slot. *)
Lemma slot_ok_other seen l k slot : group l mod Z.of_nat n <> Z.of_nat k ->
  slot_ok seen k slot -> slot_ok (l :: seen) k slot.
Proof.
  intros Hne. destruct slot as [state|]; simpl.
  - intros (Hk&[i Hi]&Hmax&Hb). split; [done|]. split; [exists i; by right|]. split.
    + intros m [->|Hm]%elem_of_cons; [by intros|auto].
    + rewrite ids_of_cons. destruct (Z.eqb_spec (group l) (gs_group state)) as [E|]; [|done].
      by rewrite E in Hne.
  - intros H m [->|Hm]%elem_of_cons; auto.
Qed.

(** The slot of [l] holding the group of [l] afterwards. *)
Lemma ring_ok_insert seen slots l b :
  ring_ok seen slots -> n <> O ->
  (forall m, m ∈ seen -> group m mod Z.of_nat n = group l mod Z.of_nat n -> group m <= group l) ->
  bits_ok (object l :: ids_of seen (group l)) b ->
  ring_ok (l :: seen) (<[Z.to_nat (group l mod Z.of_nat n) := Some (mkGroupState (group l) b)]> slots).
Proof.
  intros [Hlen Hslots] Hn Hmax Hb. assert (0 <= group l mod Z.of_nat n) by (apply Z.mod_pos_bound; lia).
  split; [by rewrite length_insert|]. intros k slot [(<-&<-&_)|[Hne Hk]]%list_lookup_insert_Some; simpl.
  - rewrite Z2Nat.id by done. split; [done|]. split; [exists (object l); destruct l; by left|]. split.
    + intros m [->|Hm]%elem_of_cons; [done|auto].
    + by rewrite ids_of_cons, Z.eqb_refl.
  - apply slot_ok_other; [|auto]. lia.
Qed.

Lemma is_duplicate_known seen slots l : ring_ok seen slots -> loc_ok l ->
  exists slots', is_duplicate slots l = Ok (slots', known n seen l) /\ ring_ok (l :: seen) slots'.
Proof.
  intros [Hlen Hslots] [_ Ho]. assert (0 <= object l) as Hpos by (destruct Ho; lia).
  unfold is_duplicate. destruct (decide (n = O)) as [E|Hn].
  { rewrite E in Hlen. destruct slots; [|done]. exists []. split; [unfold known; by rewrite E|].
    split; [done|]. by intros k slot. }
  assert (slots <> []) by (by intros ->). destruct slots as [|s0 slots0]; [done|].
  remember (s0 :: slots0) as slots. rewrite Hlen.
  assert (0 <= group l mod Z.of_nat n < Z.of_nat n) as Hm by (apply Z.mod_pos_bound; lia).
  destruct (lookup_lt_is_Some_2 slots (Z.to_nat (group l mod Z.of_nat n))) as [slot Es]; [lia|].
  rewrite Es. pose proof (Hslots _ _ Es) as Hs. destruct slot as [state|]; simpl in Hs.
  - rewrite Z2Nat.id in Hs by lia. destruct Hs as (Hk&[i Hi]&Hmax&Hb).
    destruct (Z.eqb_spec (gs_group state) (group l)) as [Eg|Hne].
    + rewrite Eg in Hmax, Hb |- *. destruct (test_and_set_Ok _ _ (object l) Hb Hpos) as (b&->&Hb'). simpl.
      eexists. rewrite known_newest by done. split; [done|]. by apply ring_ok_insert.
    + destruct (Z.ltb_spec (gs_group state) (group l)) as [Hlt|Hge].
      * assert (forall i, mkLocation (group l) i ∉ seen) as Hno.
        { intros j Hj%Hmax; [|done]. simpl in Hj. lia. }
        destruct (GroupState_new_Ok (group l) (object l) Hpos) as (b&->&Hb'). simpl. eexists.
        rewrite known_unseen by (destruct l; apply Hno). split; [done|]. apply ring_ok_insert; [done|done|..].
        -- intros m Hin Hres. specialize (Hmax m Hin Hres). lia.
        -- by rewrite ids_of_nil.
      * eexists. rewrite (known_superseded _ _ _ Hi) by (simpl; lia || congruence). split; [done|].
        split; [done|]. intros k slot Hslot. specialize (Hslots _ _ Hslot).
        destruct (decide (group l mod Z.of_nat n = Z.of_nat k)) as [Ek|]; [|by apply slot_ok_other].
        assert (slot = Some state) as -> by (rewrite Ek, Nat2Z.id in Es; congruence).
        simpl in Hslots |- *. destruct Hslots as (Hk'&_&Hmax'&_). split; [done|]. split; [exists i; by right|].
        split; [intros m [->|Hin]%elem_of_cons; [lia|auto]|]. rewrite ids_of_cons.
        destruct (Z.eqb_spec (group l) (gs_group state)); [lia|done].
  - rewrite Z2Nat.id in Hs by lia. assert (forall i, mkLocation (group l) i ∉ seen) as Hno.
    { intros j Hj%Hs. done. }
    destruct (GroupState_new_Ok (group l) (object l) Hpos) as (b&->&Hb'). simpl. eexists.
    rewrite known_unseen by (destruct l; apply Hno). split; [done|]. apply ring_ok_insert; [done|done|..].
    + intros m Hin Hres. by apply Hs in Hin.
    + by rewrite ids_of_nil.
Qed.

Lemma is_duplicates_knowns locations : forall seen slots, ring_ok seen slots -> Forall loc_ok locations ->
  is_duplicates slots locations = Ok (knowns n seen locations).
Proof.
  induction locations as [|l locations IH]; intros seen slots Hr Hl; simpl; [done|].
  apply Forall_cons in Hl as [Hl Hls]. destruct (is_duplicate_known _ _ _ Hr Hl) as (slots'&->&Hr'). simpl.
  by rewrite (IH _ _ Hr').
Qed.

Lemma new_ring_ok : ring_ok [] (SeenObjects_new n).
Proof.
  split; [apply length_replicate|]. intros k slot [-> _]%lookup_replicate_1. by intros l ?%elem_of_nil.
Qed.
End Ring.

Lemma known_true n seen l : known n seen l = true <->
  n <> O /\ l ∈ seen /\
  (forall m, m ∈ seen -> group m mod Z.of_nat n = group l mod Z.of_nat n -> group m <= group l) /\
  (forall m, m ∈ seen -> group m = group l -> object m - object l < WINDOW_BITS).
Proof.
  unfold known. rewrite !andb_true_iff, !forallb_forall, negb_true_iff, Nat.eqb_neq, bool_decide_eq_true.
  split.
  - intros [[[Hn Hin] Hg] Hw]. split; [done|]. split; [done|]. split.
    + intros m Hm%list_elem_of_In E. specialize (Hg m Hm). rewrite E, Z.eqb_refl in Hg. by apply Z.leb_le.
    + intros m Hm%list_elem_of_In E. specialize (Hw m Hm). rewrite E, Z.eqb_refl in Hw. by apply Z.ltb_lt.
  - intros (Hn&Hin&Hg&Hw). split; [split; [done|]|].
    + intros m Hm%list_elem_of_In. destruct (Z.eqb_spec (group m mod Z.of_nat n) (group l mod Z.of_nat n)); [|done].
      apply Z.leb_le. auto.
    + intros m Hm%list_elem_of_In. destruct (Z.eqb_spec (group m) (group l)); [|done].
      apply Z.ltb_lt. auto.
Qed.

Lemma knowns_app n h : forall seen l,
  knowns n seen (h ++ [l]) = knowns n seen h ++ [known n (rev h ++ seen) l].
Proof.
  induction h as [|m h IH]; intros seen l; simpl; [done|]. by rewrite IH, <- app_assoc.
Qed.

(** * Properties *)

(** C27: duplicates are found exactly within the bounds, and nothing else is
    ever taken for one.  However the publishers of a track interleave, after
    any [history] of Objects the index answers without panicking, and calls
    [l] a duplicate if and only if detection is on, [l] is in the history, no
    newer group that shares the slot of its group is, and its group's largest
    ID seen is less than 4096 ahead of it.  In particular an Object that is
    new is never dropped. *)
Theorem seen_objects_exact retained_groups history l :
  Forall loc_ok history -> loc_ok l ->
  exists answers b,
    is_duplicates (SeenObjects_new retained_groups) (history ++ [l]) = Ok (answers ++ [b]) /\
    (b = true <->
       retained_groups <> O /\ l ∈ history /\
       (forall m, m ∈ history ->
          group m mod Z.of_nat retained_groups = group l mod Z.of_nat retained_groups ->
          group m <= group l) /\
       (forall m, m ∈ history -> group m = group l -> object m - object l < WINDOW_BITS)).
Proof.
  intros Hh Hl. exists (knowns retained_groups [] history), (known retained_groups (rev history) l).
  split.
  - rewrite (is_duplicates_knowns _ _ [] _ (new_ring_ok retained_groups)) by (apply Forall_app; auto).
    by rewrite knowns_app, app_nil_r.
  - rewrite known_true. assert (forall m, m ∈ rev history <-> m ∈ history) as Hr.
    { intros m. rewrite !list_elem_of_In. symmetry. apply in_rev. }
    setoid_rewrite Hr. done.
Qed.

(** Group 3 outgrows its inline bitmap and its window; Object 9 of group 3 is
    known until the window leaves it behind, group 1 until group 3 takes its
    slot. *)
Definition example_history : list Location :=
  [mkLocation 1 5; mkLocation 1 5; mkLocation 3 9; mkLocation 3 9; mkLocation 3 4100; mkLocation 3 9;
   mkLocation 1 5; mkLocation 3 4106].

Example is_duplicates_example :
  is_duplicates (SeenObjects_new 2) (example_history ++ [mkLocation 3 9]) =
  Ok [false; true; false; true; false; true; false; false; false].
Proof. vm_compute. reflexivity. Qed.

Lemma seen_objects_exact_witness :
  Forall loc_ok (take 5 example_history) /\ loc_ok (mkLocation 3 9) /\
  exists answers b,
    is_duplicates (SeenObjects_new 2) (take 5 example_history ++ [mkLocation 3 9]) = Ok (answers ++ [b]) /\
    (b = true <->
       2%nat <> O /\ mkLocation 3 9 ∈ take 5 example_history /\
       (forall m, m ∈ take 5 example_history -> group m mod 2 = 3 mod 2 -> group m <= 3) /\
       (forall m, m ∈ take 5 example_history -> group m = 3 -> object m - 9 < WINDOW_BITS)).
Proof.
  assert (Forall loc_ok (take 5 example_history)) as Hh.
  { repeat constructor; simpl; lia. }
  assert (loc_ok (mkLocation 3 9)) as Hl by (repeat constructor; simpl; lia).
  split; [exact Hh|]. split; [exact Hl|]. exact (seen_objects_exact 2 _ _ Hh Hl).
Defined.
