(* ===== verification/TrackCache.v ===== *)
(** What a track has cached, and what is known not to exist
    ([apps/relay/src/server/track_cache.rs]).

    [AbsentRanges] is a [BTreeMap] from the start to the end of each range, here
    the list of its entries in ascending order.  [TrackCache] is the groups of
    Objects, the absent ranges and the upstream fills in flight.

    The groups live in a [moka] cache, which may drop a group at any time (by
    size or age); [Op_Evict] is such a drop.  Each method of the cache works
    under the lock of what it touches, so a run of the program is a sequence of
    operations, and the theorems are about every such sequence. *)
From stdpp Require Import gmap.
From S2P Require Import Prelude Common Codes FetchObject.

(** * Absent ranges *)

Abbreviation AbsentRanges := (list (Location * Location)).

Definition MAX_ABSENT_RANGES : nat := Z.to_nat 65536.

(** [BTreeMap::insert] and [BTreeMap::remove]. *)
Fixpoint lm_insert (k v : Location) (m : AbsentRanges) : AbsentRanges :=
  match m with
  | [] => [(k, v)]
  | (k', v') :: m' =>
      if Location_ltb k k' then (k, v) :: m
      else if bool_decide (k = k') then (k, v) :: m'
      else (k', v') :: lm_insert k v m'
  end.
Definition lm_remove (k : Location) (m : AbsentRanges) : AbsentRanges :=
  List.filter (fun e => negb (bool_decide (fst e = k))) m.

(** [BTreeMap::range(..=limit)]. *)
Definition lm_up_to (limit : Location) (m : AbsentRanges) : AbsentRanges :=
  List.filter (fun e => Location_leb (fst e) limit) m.

(** [Iterator::take_while]. *)
Fixpoint take_while {A} (p : A -> bool) (l : list A) : list A :=
  match l with [] => [] | x :: l => if p x then x :: take_while p l else [] end.

(** [while self.ranges.len() > MAX_ABSENT_RANGES { pop_first }]. *)
Fixpoint pop_to (max : nat) (m : AbsentRanges) : AbsentRanges :=
  match m with
  | [] => []
  | _ :: m' => if (max <? length m)%nat then pop_to max m' else m
  end.

Definition merge_step (s : AbsentRanges * Location * Location) (e : Location * Location)
    : AbsentRanges * Location * Location :=
  let '(ranges, from, to) := s in
  (lm_remove (fst e) ranges, Location_min from (fst e), Location_max to (snd e)).

Definition touches (from : Location) (e : Location * Location) : bool :=
  match Location_next (snd e) with None => true | Some next => Location_leb from next end.

Definition absent_insert (ranges : AbsentRanges) (from to : Location) : AbsentRanges :=
  let limit := default to (Location_next to) in
  let touching := take_while (touches from) (rev (lm_up_to limit ranges)) in
  let '(ranges, from, to) := fold_left merge_step touching (ranges, from, to) in
  pop_to MAX_ABSENT_RANGES (lm_insert from to ranges).

Definition end_containing (ranges : AbsentRanges) (location : Location) : option Location :=
  match last (lm_up_to location ranges) with
  | Some (_, end_) => if Location_leb location end_ then Some end_ else None
  | None => None
  end.

(** * The cache *)

(** A fill in flight: its first and last group, and the lock its filler holds,
    by identity. *)
Record Fill := mkFill { fill_first : Z; fill_last : Z; busy : nat }.

(** [next_lock] is an identity no lock has yet. *)
Record TrackCache := mkTrackCache {
  groups : gmap Z (list FetchObjectPayload);
  absent : AbsentRanges;
  fills : list Fill;
  next_lock : nat
}.

Definition TrackCache_new : TrackCache := mkTrackCache ∅ [] [] 0.

(** [slice::partition_point] on a slice that is partitioned. *)
Definition partition_point {A} (p : A -> bool) (l : list A) : nat := length (take_while p l).

(** [slice::binary_search_by_key] on a slice sorted by the key: the place of the
    key, or where it would go. *)
Definition binary_search_by_key {A} (k : Z) (key : A -> Z) (l : list A) : nat + nat :=
  let i := partition_point (fun x => key x <? k) l in
  match l !! i with
  | Some x => if key x =? k then inl i else inr i
  | None => inr i
  end.

(** [Vec::insert]. *)
Definition vec_insert {A} (i : nat) (x : A) (l : list A) : list A := take i l ++ x :: drop i l.

Definition add_object (self : TrackCache) (object : FetchObjectPayload) : TrackCache :=
  let objects := default [] (groups self !! fp_group_id object) in
  let objects :=
    match binary_search_by_key (fp_object_id object) fp_object_id objects with
    | inl _ => objects
    | inr i => vec_insert i object objects
    end in
  mkTrackCache (<[fp_group_id object := objects]> (groups self)) (absent self) (fills self) (next_lock self).

Definition mark_absent (self : TrackCache) (from to : Location) : TrackCache :=
  if Location_leb from to
  then mkTrackCache (groups self) (absent_insert (absent self) from to) (fills self) (next_lock self)
  else self.

(** The loop of [objects_if_complete]: whether every Object ID from [cursor] to
    [hi] is accounted for.  Each turn passes an absent range or an Object held,
    so their number bounds the turns. *)
Fixpoint accounted `{Target} (fuel : nat) (ranges : AbsentRanges) (group hi cursor : Z) (held : list Z)
    : panics bool :=
  if hi <? cursor then Ok true
  else match end_containing ranges (mkLocation group cursor) with
  | Some end_ =>
      if (group <? Common.group end_) || (hi <=? Common.object end_) then Ok true
      else
        let? cursor := add_u64 (Common.object end_) 1 in
        match fuel with O => Diverge | S fuel => accounted fuel ranges group hi cursor held end
  | None =>
      match held with
      | id :: held =>
          if id =? cursor then
            match checked_add cursor 1 with
            | Some next =>
                match fuel with O => Diverge | S fuel => accounted fuel ranges group hi next held end
            | None => Ok true
            end
          else Ok false
      | [] => Ok false
      end
  end.

Definition wanted_objects (objects : list FetchObjectPayload) (lo hi : Z) : list FetchObjectPayload :=
  let first := partition_point (fun o => fp_object_id o <? lo) objects in
  let last := partition_point (fun o => fp_object_id o <=? hi) objects in
  take (Nat.max last first - first) (drop first objects).

Definition objects_if_complete `{Target} (self : TrackCache) (group lo hi : Z)
    : panics (option (list FetchObjectPayload)) :=
  let wanted := match groups self !! group with
                | Some objects => wanted_objects objects lo hi
                | None => []
                end in
  let? complete := accounted (length (absent self) + length wanted) (absent self) group hi lo
                     (map fp_object_id wanted) in
  Ok (if complete then Some wanted else None).

Definition is_empty (self : TrackCache) : bool := Nat.eqb (size (groups self)) 0.

(** The claim, or the lock of a fill to wait for. *)
Definition claim_fill (self : TrackCache) (first last : Z) : TrackCache * (nat + nat) :=
  match List.find (fun f => (fill_first f <=? last) && (first <=? fill_last f)) (fills self) with
  | Some f => (self, inr (busy f))
  | None =>
      (mkTrackCache (groups self) (absent self) (fills self ++ [mkFill first last (next_lock self)])
         (S (next_lock self)), inl (next_lock self))
  end.

Definition drop_claim (self : TrackCache) (claim : nat) : TrackCache :=
  mkTrackCache (groups self) (absent self)
    (List.filter (fun f => negb (Nat.eqb (busy f) claim)) (fills self)) (next_lock self).

(** * Runs *)

Inductive cache_op : Type :=
| Op_Add (object : FetchObjectPayload)
| Op_Absent (from to : Location)
| Op_Evict (group : Z)
| Op_Claim (first last : Z)
| Op_Drop (claim : nat).

Definition cache_step (c : TrackCache) (op : cache_op) : TrackCache :=
  match op with
  | Op_Add o => add_object c o
  | Op_Absent from to => mark_absent c from to
  | Op_Evict g => mkTrackCache (delete g (groups c)) (absent c) (fills c) (next_lock c)
  | Op_Claim first last => fst (claim_fill c first last)
  | Op_Drop claim => drop_claim c claim
  end.

Definition cache_run (ops : list cache_op) : TrackCache := fold_left cache_step ops TrackCache_new.

(** Operations with values in range. *)
Definition cache_op_ok (op : cache_op) : Prop :=
  match op with
  | Op_Add o => is_u64 (fp_group_id o) /\ is_u64 (fp_object_id o)
  | Op_Absent from to => loc_ok from /\ loc_ok to
  | _ => True
  end.

(** * Lemmas on absent ranges *)

Section AbsentRanges.
Implicit Types (m : AbsentRanges) (e : Location * Location).

(** A range from its start to its end, and one range left of another with a
    Location between them. *)
Definition range_ok e : Prop := loc_ok (fst e) /\ loc_ok (snd e) /\ pos (fst e) <= pos (snd e).
Definition apart e e' : Prop := pos (snd e) + 1 < pos (fst e').
Definition covers e (p : Z) : Prop := pos (fst e) <= p <= pos (snd e).

(** Sorted, disjoint and merged. *)
Definition ranges_ok m : Prop := Forall range_ok m /\ StronglySorted apart m.
Definition covered m (p : Z) : Prop := exists e, e ∈ m /\ covers e p.

Lemma ranges_ok_app m m' :
  ranges_ok (m ++ m') <-> ranges_ok m /\ ranges_ok m' /\ forall e e', e ∈ m -> e' ∈ m' -> apart e e'.
Proof.
  unfold ranges_ok. rewrite Forall_app, StronglySorted_app. tauto.
Qed.

Lemma ranges_ok_cons e m : ranges_ok (e :: m) <-> range_ok e /\ ranges_ok m /\ Forall (apart e) m.
Proof.
  unfold ranges_ok. rewrite Forall_cons. split.
  - intros [[? ?] Hs]. inversion Hs; subst. tauto.
  - intros (?&[? ?]&?). split; [done|]. by constructor.
Qed.

Lemma covered_app m m' p : covered (m ++ m') p <-> covered m p \/ covered m' p.
Proof.
  unfold covered. setoid_rewrite elem_of_app.
  split; [intros (e&[?|?]&?); eauto|intros [(e&?&?)|(e&?&?)]; eauto].
Qed.
Lemma covered_single e p : covered [e] p <-> covers e p.
Proof. unfold covered. setoid_rewrite list_elem_of_singleton. split; [by intros (?&->&?)|eauto]. Qed.

(** A predicate that holds from some entry on cuts the list in two. *)
Lemma filter_up {A} (p : A -> bool) (R : relation A) (l : list A) :
  StronglySorted R l -> (forall x y, x ∈ l -> y ∈ l -> R x y -> p x = true -> p y = true) ->
  l = List.filter (fun x => negb (p x)) l ++ List.filter p l.
Proof.
  induction 1 as [|x l Hl IH Hx]; intros Hp; [done|]. simpl. destruct (p x) eqn:E; simpl.
    assert (forall y, y ∈ l -> p y = true) as Hall.
    { intros y Hy. apply (Hp x y); [by left|by right| |done]. rewrite Forall_forall in Hx. auto. }
    rewrite (filter_all_true p l Hall), filter_all_false; [done|]. intros y Hy. by rewrite Hall.
  - f_equal. apply IH. intros y z Hy Hz. apply Hp; by right.
Qed.

Lemma take_while_rev {A} (p : A -> bool) l l' :
  (forall x, x ∈ l -> p x = false) -> (forall x, x ∈ l' -> p x = true) ->
  take_while p (rev (l ++ l')) = rev l'.
Proof.
  intros Hl Hl'. rewrite rev_app_distr.
  assert (forall x, x ∈ rev l' -> p x = true) as Hr
    by (intros x; rewrite list_elem_of_In, <- in_rev, <- list_elem_of_In; auto).
  revert Hr. generalize (rev l'). clear l' Hl'. intros l'. induction l' as [|y l' IH]; intros Hr; simpl.
  - destruct (rev l) as [|x r] eqn:E; [done|]. simpl. rewrite Hl; [done|].
    apply list_elem_of_In, in_rev. rewrite E. by left.
  - rewrite Hr by (by left). f_equal. apply IH. intros x Hx. apply Hr. by right.
Qed.

Lemma touches_pos from e : loc_ok from -> range_ok e ->
  touches from e = true <-> pos from <= pos (snd e) + 1.
Proof.
  intros Hf (_&He&_). unfold touches. destruct (Location_next (snd e)) as [next|] eqn:E.
  - destruct (Location_next_Some _ _ He E) as [Hn Hp]. rewrite Location_leb_pos, Hp; done.
  - apply Location_next_None in E; [|done]. pose proof (pos_range from Hf). split; [lia|done].
Qed.

Lemma up_to_limit to e : loc_ok to -> range_ok e ->
  Location_leb (fst e) (default to (Location_next to)) = true <-> pos (fst e) <= pos to + 1.
Proof.
  intros Ht (He&_&_). destruct (Location_next to) as [next|] eqn:E; simpl.
  - destruct (Location_next_Some _ _ Ht E) as [Hn Hp]. rewrite Location_leb_pos, Hp; done.
  - apply Location_next_None in E; [|done]. pose proof (pos_range _ He).
    rewrite Location_leb_pos by done. lia.
Qed.

Lemma in_filter {A} (p : A -> bool) l x : x ∈ List.filter p l <-> x ∈ l /\ p x = true.
Proof. by rewrite !list_elem_of_In, filter_In. Qed.

(** The entries up to a Location come first. *)
Lemma up_to_prefix limit m : loc_ok limit -> ranges_ok m ->
  exists r, m = lm_up_to limit m ++ r /\
    forall e, e ∈ r -> e ∈ m /\ Location_leb (fst e) limit = false.
Proof.
  intros Hl [Hm Hs]. rewrite Forall_forall in Hm.
  exists (List.filter (fun e => negb (Location_leb (fst e) limit)) m). split.
  - rewrite (filter_up (fun e => negb (Location_leb (fst e) limit)) apart m Hs) at 1.
    + f_equal. apply filter_ext. intros e. apply negb_involutive.
    + intros x y Hx Hy Hxy. rewrite !negb_true_iff. intros Hx'. apply not_true_iff_false.
      apply not_true_iff_false in Hx'. destruct (Hm x Hx) as (?&?&?), (Hm y Hy) as (?&?&?).
      rewrite Location_leb_pos in Hx' |- * by done. unfold apart in Hxy. lia.
  - intros e [He Hn]%in_filter. split; [done|]. by apply negb_true_iff.
Qed.

(** What is left of the new range, what it touches, and what is right of it. *)
Lemma split_ranges m from to : ranges_ok m -> loc_ok from -> loc_ok to -> pos from <= pos to ->
  exists l t r, m = l ++ t ++ r /\
    take_while (touches from) (rev (lm_up_to (default to (Location_next to)) m)) = rev t /\
    (forall e, e ∈ l -> pos (snd e) + 1 < pos from) /\
    (forall e, e ∈ t -> pos from <= pos (snd e) + 1 /\ pos (fst e) <= pos to + 1) /\
    (forall e, e ∈ r -> pos to + 1 < pos (fst e)).
Proof.
  intros Hok Hf Ht Hle. pose proof Hok as [Hm Hs]. rewrite Forall_forall in Hm.
  assert (loc_ok (default to (Location_next to))) as Hlim.
  { destruct (Location_next to) as [n|] eqn:E; [|done]. by destruct (Location_next_Some _ _ Ht E). }
  destruct (up_to_prefix _ m Hlim Hok) as (r&Em&Hr).
  set (u := lm_up_to (default to (Location_next to)) m) in *.
  assert (forall e, e ∈ u -> range_ok e /\ pos (fst e) <= pos to + 1) as Hu.
  { intros e [He Hp]%in_filter. split; [auto|]. by apply (up_to_limit to e Ht (Hm e He)). }
  assert (ranges_ok u) as [_ Hsu] by (rewrite Em, ranges_ok_app in Hok; tauto).
  exists (List.filter (fun e => negb (touches from e)) u), (List.filter (touches from) u), r.
  assert (u = List.filter (fun e => negb (touches from e)) u ++ List.filter (touches from) u) as Eu.
  { apply (filter_up _ apart); [done|]. intros x y Hx Hy Hxy. apply Hu in Hx as [Hx _], Hy as [Hy _].
    rewrite !touches_pos by done. destruct Hx as (_&_&?), Hy as (_&_&?). unfold apart in Hxy. lia. }
  split; [by rewrite app_assoc, <- Eu|]. split.
  { rewrite Eu at 1. apply take_while_rev; intros e [_ He]%in_filter; [by apply negb_true_iff|done]. }
  split; [|split].
  - intros e [He Hn]%in_filter. apply negb_true_iff, not_true_iff_false in Hn.
    rewrite touches_pos in Hn; [lia|done|by apply Hu].
  - intros e [He Hp]%in_filter. apply Hu in He as [He ?]. by rewrite touches_pos in Hp.
  - intros e [He Hn]%Hr. apply not_true_iff_false in Hn. rewrite up_to_limit in Hn; [lia|done|auto].
Qed.

Definition merge_from (t : AbsentRanges) (from : Location) : Location :=
  fold_left (fun from e => Location_min from (fst e)) t from.
Definition merge_to (t : AbsentRanges) (to : Location) : Location :=
  fold_left (fun to e => Location_max to (snd e)) t to.

Lemma fold_merge_step t : forall m from to,
  fold_left merge_step t (m, from, to) =
  (List.filter (fun e => forallb (fun e' => negb (bool_decide (fst e = fst e'))) t) m,
   merge_from t from, merge_to t to).
Proof.
  induction t as [|e t IH]; intros m from to; simpl.
  - f_equal. f_equal. induction m; simpl; congruence.
  - rewrite IH. f_equal. f_equal. unfold lm_remove. clear. induction m as [|x m IH]; simpl; [done|].
    destruct (bool_decide (fst x = fst e)); simpl; [done|]. by rewrite IH.
Qed.

Lemma merge_from_spec t : forall from, loc_ok from -> Forall range_ok t ->
  loc_ok (merge_from t from) /\ pos (merge_from t from) <= pos from /\
  (forall e, e ∈ t -> pos (merge_from t from) <= pos (fst e)) /\
  (merge_from t from = from \/ exists e, e ∈ t /\ merge_from t from = fst e).
Proof.
  induction t as [|e t IH]; intros from Hf Ht; simpl.
  - split; [done|]. split; [lia|]. split; [by intros e ?%elem_of_nil|by left].
  - apply Forall_cons in Ht as [(He&_) Ht].
    assert (loc_ok (Location_min from (fst e)) /\ pos (Location_min from (fst e)) <= pos from /\
      pos (Location_min from (fst e)) <= pos (fst e) /\
      (Location_min from (fst e) = from \/ Location_min from (fst e) = fst e)) as (H1&H2&H3&H4).
    { unfold Location_min. destruct (Location_leb from (fst e)) eqn:E.
      - apply Location_leb_pos in E; [|done|done]. repeat split; try (by left); try apply Hf; lia.
      - apply not_true_iff_false in E. rewrite Location_leb_pos in E by done.
        repeat split; try (by right); try apply He; lia. }
    destruct (IH _ H1 Ht) as (G1&G2&G3&G4). split; [done|]. split; [unfold merge_from in *; lia|]. split.
    + intros e' [->|He']%elem_of_cons; [unfold merge_from in *; lia|auto].
    + destruct G4 as [G4|(e'&?&G4)].
      * unfold merge_from in *. rewrite G4. destruct H4 as [->| ->]; [by left|].
        right. exists e. split; [by left|done].
      * right. exists e'. split; [by right|done].
Qed.

Lemma merge_to_spec t : forall to, loc_ok to -> Forall range_ok t ->
  loc_ok (merge_to t to) /\ pos to <= pos (merge_to t to) /\
  (forall e, e ∈ t -> pos (snd e) <= pos (merge_to t to)) /\
  (merge_to t to = to \/ exists e, e ∈ t /\ merge_to t to = snd e).
Proof.
  induction t as [|e t IH]; intros to Hf Ht; simpl.
  - split; [done|]. split; [lia|]. split; [by intros e ?%elem_of_nil|by left].
  - apply Forall_cons in Ht as [(_&He&_) Ht].
    assert (loc_ok (Location_max to (snd e)) /\ pos to <= pos (Location_max to (snd e)) /\
      pos (snd e) <= pos (Location_max to (snd e)) /\
      (Location_max to (snd e) = to \/ Location_max to (snd e) = snd e)) as (H1&H2&H3&H4).
    { unfold Location_max. destruct (Location_leb to (snd e)) eqn:E.
      - apply Location_leb_pos in E; [|done|done]. repeat split; try (by right); try apply He; lia.
      - apply not_true_iff_false in E. rewrite Location_leb_pos in E by done.
        repeat split; try (by left); try apply Hf; lia. }
    destruct (IH _ H1 Ht) as (G1&G2&G3&G4). split; [done|]. split; [unfold merge_to in *; lia|]. split.
    + intros e' [->|He']%elem_of_cons; [unfold merge_to in *; lia|auto].
    + destruct G4 as [G4|(e'&?&G4)].
      * unfold merge_to in *. rewrite G4. destruct H4 as [->| ->]; [by left|].
        right. exists e. split; [by left|done].
      * right. exists e'. split; [by right|done].
Qed.

Lemma lm_insert_between k v l r : loc_ok k -> Forall range_ok (l ++ r) ->
  (forall e, e ∈ l -> pos (fst e) < pos k) -> (forall e, e ∈ r -> pos k < pos (fst e)) ->
  lm_insert k v (l ++ r) = l ++ (k, v) :: r.
Proof.
  intros Hk Hok Hl Hr. induction l as [|[k' v'] l IH]; simpl in *.
  - destruct r as [|[k' v'] r]; [done|]. simpl. apply Forall_cons in Hok as [(Hk'&_) _].
    rewrite (proj2 (Location_ltb_pos k k' Hk Hk')); [done|]. apply (Hr (k', v')). by left.
  - apply Forall_cons in Hok as [(Hk'&_) Hok]. assert (pos k' < pos k) as Hlt by (apply (Hl (k', v')); by left).
    destruct (Location_ltb k k') eqn:E; [apply Location_ltb_pos in E; [lia|done|done]|].
    rewrite bool_decide_eq_false_2 by (intros ->; lia). f_equal. apply IH; [done|].
    intros e He. apply Hl. by right.
Qed.

Lemma pop_to_suffix max m : exists d, m = d ++ pop_to max m /\ ((length m <= max)%nat -> d = []).
Proof.
  induction m as [|e m IH]; [by exists []|]. cbn [pop_to].
  destruct (Nat.ltb_spec max (length (e :: m))).
  - destruct IH as (d&Em&_). exists (e :: d). split; [simpl; by rewrite <- Em|]. intros. lia.
  - by exists [].
Qed.

(** Removing the touching ranges leaves what is left and right of them. *)
Lemma remove_touching l t r : ranges_ok (l ++ t ++ r) ->
  List.filter (fun e => forallb (fun e' => negb (bool_decide (fst e = fst e'))) (rev t)) (l ++ t ++ r) = l ++ r.
Proof.
  rewrite !ranges_ok_app. intros ([Hml _]&([Hmt _]&_&Htr)&Hltr). rewrite Forall_forall in Hml, Hmt.
  assert (forall e, e ∈ rev t <-> e ∈ t) as Hrev by (intros e; by rewrite !list_elem_of_In, <- in_rev).
  rewrite !List.filter_app, (filter_all_true _ l), (filter_all_true _ r), (filter_all_false _ t); [done|..].
  - intros e He. apply not_true_is_false. rewrite forallb_forall. intros Hall.
    specialize (Hall e). rewrite bool_decide_eq_true_2 in Hall by done. by apply Hrev, list_elem_of_In, Hall in He.
  - intros e He. apply forallb_forall. intros e' He'%list_elem_of_In%Hrev.
    rewrite bool_decide_eq_false_2; [done|]. intros E. pose proof (Htr e' e He' He) as Ha.
    destruct (Hmt e' He') as (_&_&?). unfold apart in Ha. rewrite E in Ha. lia.
  - intros e He. apply forallb_forall. intros e' He'%list_elem_of_In%Hrev.
    rewrite bool_decide_eq_false_2; [done|]. intros E.
    assert (apart e e') as Ha by (apply Hltr; [done|]; apply elem_of_app; by left).
    destruct (Hml e He) as (_&_&?). unfold apart in Ha. rewrite <- E in Ha. lia.
Qed.

(** The touching ranges and the new one make one range. *)
Lemma merged_covers t from to : loc_ok from -> loc_ok to -> pos from <= pos to -> Forall range_ok t ->
  (forall e, e ∈ t -> pos from <= pos (snd e) + 1 /\ pos (fst e) <= pos to + 1) ->
  forall p, covers (merge_from t from, merge_to t to) p <-> covered t p \/ pos from <= p <= pos to.
Proof.
  intros Hf Ht Hle Hrt Htt p.
  destruct (merge_from_spec t from Hf Hrt) as (_&Gf1&Gf2&Gf3).
  destruct (merge_to_spec t to Ht Hrt) as (_&Gt1&Gt2&Gt3). unfold covers; simpl. split.
  - intros [H1 H2]. destruct (Z.lt_ge_cases p (pos from)).
    + left. destruct Gf3 as [E|(e&He&E)]; [rewrite E in H1; lia|]. exists e. split; [done|].
      unfold covers. rewrite E in H1. apply Htt in He. lia.
    + destruct (Z.lt_ge_cases (pos to) p); [|right; lia].
      left. destruct Gt3 as [E|(e&He&E)]; [rewrite E in H2; lia|]. exists e. split; [done|].
      unfold covers. rewrite E in H2. apply Htt in He. lia.
  - intros [(e&He&Hc)|]; [|lia]. specialize (Gf2 e He). specialize (Gt2 e He). unfold covers in Hc. lia.
Qed.

Lemma covered_rev t p : covered (rev t) p <-> covered t p.
Proof. unfold covered. setoid_rewrite list_elem_of_In. setoid_rewrite <- in_rev. done. Qed.

(** The ranges with a new one merged in, before the oldest are forgotten. *)
Lemma absent_insert_merges m from to : ranges_ok m -> loc_ok from -> loc_ok to -> pos from <= pos to ->
  exists m', absent_insert m from to = pop_to MAX_ABSENT_RANGES m' /\ ranges_ok m' /\
    (length m' <= S (length m))%nat /\
    forall p, covered m' p <-> covered m p \/ pos from <= p <= pos to.
Proof.
  intros Hok Hf Ht Hle. destruct (split_ranges m from to Hok Hf Ht Hle) as (l&t&r&->&Etw&Hl&Htt&Hr).
  assert (forall e, e ∈ rev t <-> e ∈ t) as Hrev by (intros e; by rewrite !list_elem_of_In, <- in_rev).
  unfold absent_insert. rewrite Etw, fold_merge_step, remove_touching by done.
  rewrite !ranges_ok_app in Hok. destruct Hok as ([Hml Hsl]&([Hmt _]&[Hmr Hsr]&Htr)&Hltr).
  pose proof (merged_covers (rev t) from to Hf Ht Hle (Forall_rev Hmt)) as Hcov.
  destruct (merge_from_spec (rev t) from Hf (Forall_rev Hmt)) as (Gf&Gf1&_&Gf3).
  destruct (merge_to_spec (rev t) to Ht (Forall_rev Hmt)) as (Gt&Gt1&_&Gt3).
  set (from' := merge_from (rev t) from) in *. set (to' := merge_to (rev t) to) in *.
  assert (forall e, e ∈ l -> pos (snd e) + 1 < pos from') as Hl'.
  { intros e He. destruct Gf3 as [->|(e'&He'%Hrev&->)]; [auto|].
    apply (Hltr e e' He). apply elem_of_app. by left. }
  assert (forall e, e ∈ r -> pos to' + 1 < pos (fst e)) as Hr'.
  { intros e He. destruct Gt3 as [->|(e'&He'%Hrev&->)]; [auto|]. by apply (Htr e' e). }
  rewrite lm_insert_between; [|done|by apply Forall_app|..].
  2: { intros e He. rewrite Forall_forall in Hml. destruct (Hml e He) as (_&_&?). specialize (Hl' e He). lia. }
  2: { intros e He. specialize (Hr' e He). lia. }
  eexists. split; [done|]. split; [|split].
  - apply ranges_ok_app. split; [done|]. split.
    + apply ranges_ok_cons. split; [split; [done|]; split; [done|]; simpl; lia|].
      split; [done|]. by apply Forall_forall.
    + intros e e' He [->|He']%elem_of_cons; [by apply Hl'|]. apply Hltr; [done|].
      apply elem_of_app. by right.
  - rewrite !length_app. simpl. lia.
  - intros p. rewrite !covered_app. change ((from', to') :: r) with ([(from', to')] ++ r).
    rewrite covered_app, covered_single, Hcov, covered_rev; [tauto|]. intros e He%Hrev. auto.
Qed.

Lemma end_containing_spec m l : ranges_ok m -> loc_ok l ->
  match end_containing m l with
  | Some end_ => exists start, (start, end_) ∈ m /\ range_ok (start, end_) /\ covers (start, end_) (pos l)
  | None => ~ covered m (pos l)
  end.
Proof.
  intros Hok Hl. destruct (up_to_prefix l m Hl Hok) as (r&Em&Hr). unfold end_containing.
  destruct Hok as [Hm Hs]. rewrite Forall_forall in Hm.
  assert (forall e, e ∈ r -> ~ covers e (pos l)) as Hnr.
  { intros e [He Hn]%Hr Hc. apply not_true_iff_false in Hn. destruct (Hm e He) as (?&_).
    rewrite Location_leb_pos in Hn by done. unfold covers in Hc. lia. }
  rewrite Em in Hs. apply StronglySorted_app in Hs as (_&Hs&_).
  assert (forall e, e ∈ lm_up_to l m -> e ∈ m) as Hin by (by intros e [? _]%in_filter).
  assert (forall e, e ∈ lm_up_to l m -> pos (fst e) <= pos l) as Hle.
  { intros e [He Hp]%in_filter. destruct (Hm e He) as (?&_). by apply Location_leb_pos. }
  destruct (last (lm_up_to l m)) as [[start end_]|] eqn:El.
  - apply last_Some in El as (u&Eu). rewrite Eu in Hs, Hin, Hle, Em.
    assert ((start, end_) ∈ u ++ [(start, end_)]) as Hlast by (apply elem_of_app; right; by left).
    pose proof (Hm _ (Hin _ Hlast)) as Hok. specialize (Hle _ Hlast). simpl in Hle.
    destruct (Location_leb l end_) eqn:E.
    + apply Location_leb_pos in E; [|done|apply Hok]. exists start. split; [auto|]. split; [done|]. by split.
    + apply not_true_iff_false in E. rewrite Location_leb_pos in E by (done || apply Hok).
      intros (e&He&Hc). rewrite Em in He.
      apply elem_of_app in He as [[He|He]%elem_of_app|He]; [| |by eapply Hnr].
      * apply StronglySorted_app in Hs as (Ha&_&_). specialize (Ha e _ He ltac:(by left)).
        destruct Hok as (_&_&?). unfold apart, covers in *. simpl in *. lia.
      * apply list_elem_of_singleton in He as ->. unfold covers in Hc. simpl in Hc. lia.
  - apply last_None in El. rewrite El in Em. simpl in Em. intros (e&He&Hc). rewrite Em in He. by eapply Hnr.
Qed.
End AbsentRanges.

(** * Lemmas on the Objects of a group *)

Lemma in_take {A} n (l : list A) x : x ∈ take n l -> x ∈ l.
Proof. intros Hx. rewrite <- (take_drop n l). apply elem_of_app. by left. Qed.
Lemma in_drop {A} n (l : list A) x : x ∈ drop n l -> x ∈ l.
Proof. intros Hx. rewrite <- (take_drop n l). apply elem_of_app. by right. Qed.
Lemma filter_length_le {A} (p q : A -> bool) l :
  (forall x, x ∈ l -> p x = true -> q x = true) -> (length (List.filter p l) <= length (List.filter q l))%nat.
Proof.
  induction l as [|x l IH]; intros H; simpl; [done|].
  assert (length (List.filter p l) <= length (List.filter q l))%nat
    by (apply IH; intros y Hy; apply H; by right).
  destruct (p x) eqn:E; simpl; [rewrite (H x) by (done || by left); simpl; lia|].
  destruct (q x); simpl; lia.
Qed.
Lemma filter_length_lt {A} (p q : A -> bool) l x : x ∈ l -> p x = false -> q x = true ->
  (forall x, x ∈ l -> p x = true -> q x = true) -> (length (List.filter p l) < length (List.filter q l))%nat.
Proof.
  intros Hx Hp Hq H. apply list_elem_of_split in Hx as (l1&l2&->). rewrite !List.filter_app, !length_app. simpl.
  rewrite Hp, Hq. simpl.
  assert (length (List.filter p l1) <= length (List.filter q l1))%nat
    by (apply filter_length_le; intros y Hy; apply H, elem_of_app; by left).
  assert (length (List.filter p l2) <= length (List.filter q l2))%nat
    by (apply filter_length_le; intros y Hy; apply H, elem_of_app; right; by right).
  lia.
Qed.

Lemma partition_point_spec {A} (R : relation A) (p : A -> bool) (l : list A) :
  StronglySorted R l -> (forall x y, R x y -> p y = true -> p x = true) ->
  (forall x, x ∈ take (partition_point p l) l -> p x = true) /\
  (forall x, x ∈ drop (partition_point p l) l -> p x = false).
Proof.
  intros Hs Hp. unfold partition_point. induction Hs as [|x l Hl IH Hx]; simpl.
  - split; by intros x ?%elem_of_nil.
  - destruct (p x) eqn:E; simpl.
    + destruct IH as [IH1 IH2]. split; [|done]. intros y [->|Hy]%elem_of_cons; auto.
    + split; [by intros y ?%elem_of_nil|]. intros y [->|Hy]%elem_of_cons; [done|].
      apply not_true_is_false. intros Ey. rewrite Forall_forall in Hx. pose proof (Hp x y (Hx y Hy) Ey). congruence.
Qed.

Definition id_lt (a b : FetchObjectPayload) : Prop := fp_object_id a < fp_object_id b.

Lemma id_below k a b : id_lt a b -> (fp_object_id b <? k) = true -> (fp_object_id a <? k) = true.
Proof. unfold id_lt. rewrite !Z.ltb_lt. lia. Qed.
Lemma id_upto k a b : id_lt a b -> (fp_object_id b <=? k) = true -> (fp_object_id a <=? k) = true.
Proof. unfold id_lt. rewrite !Z.leb_le. lia. Qed.

(** A group is sorted, and has one Object per ID; those of a range are found. *)
Lemma wanted_objects_filter objs lo hi : StronglySorted id_lt objs ->
  wanted_objects objs lo hi =
  List.filter (fun o => (lo <=? fp_object_id o) && (fp_object_id o <=? hi)) objs.
Proof.
  intros Hs. unfold wanted_objects.
  destruct (partition_point_spec id_lt _ objs Hs (id_below lo)) as [Hf1 Hf2].
  destruct (partition_point_spec id_lt _ objs Hs (id_upto hi)) as [Hl1 Hl2].
  set (i := partition_point _ objs) in *. set (j := partition_point (fun o => fp_object_id o <=? hi) objs) in *.
  rewrite <- (take_drop i objs) at 2. rewrite List.filter_app, filter_all_false; simpl.
  2: { intros x Hx%Hf1. destruct (Z.leb_spec lo (fp_object_id x)); [|done]. apply Z.ltb_lt in Hx. lia. }
  destruct (Nat.le_ge_cases i j) as [Hij|Hji].
  - replace (Nat.max j i - i)%nat with (j - i)%nat by lia.
    rewrite <- (take_drop (j - i) (drop i objs)) at 2. rewrite List.filter_app, drop_drop.
    replace (i + (j - i))%nat with j by lia.
    rewrite (filter_all_false _ (drop j objs)), app_nil_r, filter_all_true; [done|..].
    + intros x Hx. apply andb_true_iff. split.
      * apply Z.leb_le. assert (x ∈ drop i objs) as Hd%Hf2 by (by eapply in_take).
        apply Z.ltb_ge in Hd. lia.
      * apply Hl1. rewrite take_drop_commute in Hx. replace (i + (j - i))%nat with j in Hx by lia.
        by eapply in_drop.
    + intros x Hx%Hl2. rewrite Hx. apply andb_false_r.
  - replace (Nat.max j i - i)%nat with O by lia. simpl. symmetry. apply filter_all_false.
    intros x Hx. rewrite (Hl2 x); [apply andb_false_r|].
    replace i with (j + (i - j))%nat in Hx by lia. rewrite <- drop_drop in Hx. by eapply in_drop.
Qed.

Lemma binary_search_spec objs k : StronglySorted id_lt objs ->
  match binary_search_by_key k fp_object_id objs with
  | inl _ => exists o, o ∈ objs /\ fp_object_id o = k
  | inr i => (forall o, o ∈ take i objs -> fp_object_id o < k) /\
             (forall o, o ∈ drop i objs -> k < fp_object_id o)
  end.
Proof.
  intros Hs. unfold binary_search_by_key.
  destruct (partition_point_spec id_lt _ objs Hs (id_below k)) as [H1 H2].
  set (i := partition_point _ objs) in *.
  assert (forall o, o ∈ take i objs -> fp_object_id o < k) as H1' by (by intros o ?%H1%Z.ltb_lt).
  destruct (objs !! i) as [x|] eqn:E.
  - destruct (Z.eqb_spec (fp_object_id x) k) as [Ek|Hne].
    + exists x. split; [|done]. by eapply list_elem_of_lookup_2.
    + split; [done|]. rewrite (drop_S _ _ _ E) in *.
      rewrite <- (take_drop i objs), (drop_S _ _ _ E) in Hs.
      apply StronglySorted_app in Hs as (_&_&Hs). inversion Hs as [|? ? _ Hx]; subst. rewrite Forall_forall in Hx.
      assert (k <= fp_object_id x) by (apply Z.ltb_ge, H2; by left).
      intros o [->|Ho]%elem_of_cons; [lia|]. specialize (Hx o Ho). unfold id_lt in Hx. lia.
  - split; [done|]. rewrite (drop_ge objs i) by (by apply lookup_ge_None). by intros o ?%elem_of_nil.
Qed.

Lemma vec_insert_sorted i x objs : StronglySorted id_lt objs ->
  (forall o, o ∈ take i objs -> id_lt o x) -> (forall o, o ∈ drop i objs -> id_lt x o) ->
  StronglySorted id_lt (vec_insert i x objs).
Proof.
  intros Hs H1 H2. unfold vec_insert. rewrite <- (take_drop i objs) in Hs.
  apply StronglySorted_app in Hs as (Ha&Hs1&Hs2). apply StronglySorted_app. split; [|split; [done|]].
  - intros a b Ha' [->|Hb]%elem_of_cons; auto.
  - constructor; [done|]. by apply Forall_forall.
Qed.

Lemma in_vec_insert {A} i (x y : A) l : y ∈ vec_insert i x l <-> y = x \/ y ∈ l.
Proof.
  unfold vec_insert. rewrite elem_of_app, elem_of_cons. rewrite <- (take_drop i l) at 3.
  rewrite elem_of_app. tauto.
Qed.

(** * Lemmas on completeness *)

Section Accounted.
Context `{Target} (m : AbsentRanges) (g hi : Z).
Hypothesis Hm : ranges_ok m.
Hypothesis Hg : is_u64 g.
Hypothesis Hhi : is_u64 hi.

Definition ahead (cursor : Z) : AbsentRanges :=
  List.filter (fun e => pos (mkLocation g cursor) <=? pos (snd e)) m.

Definition known_at (held : list Z) (i : Z) : Prop := covered m (pos (mkLocation g i)) \/ i ∈ held.

(** What the answer from [cursor] on must be. *)
Definition answers (cursor : Z) (held : list Z) (b : bool) : Prop :=
  (b = true -> forall i, cursor <= i <= hi -> known_at held i) /\
  ((forall i, cursor <= i <= hi -> known_at held i) ->
   (forall i, i ∈ held -> cursor <= i /\ ~ covered m (pos (mkLocation g i))) -> b = true).

Lemma covered_by start end_ i : (start, end_) ∈ m -> is_u64 i ->
  pos start <= pos (mkLocation g i) <= pos end_ -> covered m (pos (mkLocation g i)).
Proof. intros Hin Hi Hc. by exists (start, end_). Qed.

(** Past an absent range. *)
Lemma past_range cursor start end_ : is_u64 cursor -> (start, end_) ∈ m -> range_ok (start, end_) ->
  covers (start, end_) (pos (mkLocation g cursor)) -> cursor <= hi ->
  if (g <? group end_) || (hi <=? object end_) then forall held, answers cursor held true
  else is_u64 (object end_ + 1) /\ (length (ahead (object end_ + 1)) < length (ahead cursor))%nat /\
       forall held b, answers (object end_ + 1) held b -> answers cursor held b.
Proof.
  intros Hc Hin (Hs&He&_) [Hc1 Hc2] Hle. simpl in *. destruct end_ as [ge oe], Hs as [Hsg Hso], He as [Hge Hoe].
  unfold pos, is_u64 in *. simpl in *.
  destruct ((g <? ge) || (hi <=? oe)) eqn:E.
  - intros held. split; [|done]. intros _ i Hi. left. apply (covered_by start (mkLocation ge oe)); [done|..];
      unfold is_u64, pos; simpl; [lia|]. apply orb_true_iff in E as [E|E]; breflect; nia.
  - breflect. assert (ge = g) as -> by nia. assert (cursor <= oe) by nia.
    split; [lia|]. split.
    + apply (filter_length_lt _ _ m (start, mkLocation g oe) Hin); unfold pos; simpl.
      * apply Z.leb_gt. lia.
      * apply Z.leb_le. lia.
      * intros x _ Hx. apply Z.leb_le in Hx. apply Z.leb_le. lia.
    + intros held b [Ha1 Ha2]. split.
      * intros Hb i Hi. destruct (Z.le_gt_cases i oe) as [Hio|]; [left|apply Ha1; [done|lia]].
        apply (covered_by start (mkLocation g oe)); [done|..]; unfold is_u64, pos; simpl; lia.
      * intros Hall Hheld. apply Ha2; [intros i Hi; apply Hall; lia|].
        intros i Hi%Hheld. destruct Hi as [Hi Hn]. split; [|done].
        destruct (Z.le_gt_cases i oe); [|lia]. destruct Hn.
        apply (covered_by start (mkLocation g oe)); [done|..]; unfold is_u64, pos; simpl; lia.
Qed.

(** Past an Object held. *)
Lemma past_held cursor held b : StronglySorted Z.lt (cursor :: held) ->
  ~ covered m (pos (mkLocation g cursor)) ->
  (answers (cursor + 1) held b -> answers cursor (cursor :: held) b) /\
  (length (ahead (cursor + 1)) <= length (ahead cursor))%nat.
Proof.
  intros Hs Hn. inversion Hs as [|? ? _ Hlt]; subst. rewrite Forall_forall in Hlt. split.
  - intros [H1 H2]. split.
    + intros Hb i Hi. destruct (Z.eq_dec i cursor) as [->|]; [right; by left|].
      destruct (H1 Hb i) as [|]; [lia|by left|right; by right].
    + intros Hall Hheld. apply H2.
      * intros i Hi. destruct (Hall i) as [|[->|]%elem_of_cons]; [lia|by left|lia|by right].
      * intros i Hi. pose proof (Hlt i Hi). split; [lia|]. apply Hheld. by right.
  - apply filter_length_le. intros e _. rewrite !Z.leb_le. unfold pos. simpl. lia.
Qed.

(** An ID neither absent nor held next. *)
Lemma not_held cursor held : StronglySorted Z.lt held -> cursor <= hi ->
  ~ covered m (pos (mkLocation g cursor)) -> head held <> Some cursor -> answers cursor held false.
Proof.
  intros Hs Hle Hn Hh. split; [done|]. intros Hall Hheld. exfalso.
  destruct (Hall cursor) as [|Hin]; [lia|done|]. destruct held as [|id held]; [by apply elem_of_nil in Hin|].
  destruct (Hheld id) as [Hid _]; [by left|]. inversion Hs as [|? ? _ Hlt]; subst. rewrite Forall_forall in Hlt.
  apply elem_of_cons in Hin as [->|Hin]; [done|]. specialize (Hlt _ Hin). lia.
Qed.

Lemma accounted_spec fuel : forall cursor held,
  is_u64 cursor -> StronglySorted Z.lt held -> (length (ahead cursor) + length held <= fuel)%nat ->
  exists b, accounted fuel m g hi cursor held = Ok b /\ answers cursor held b.
Proof.
  induction fuel as [|fuel IH]; intros cursor held Hc Hs Hfuel; cbn [accounted];
    (destruct (Z.ltb_spec hi cursor) as [Hlt|Hge]; [exists true; split; [done|]; split; [lia|done]|]);
    pose proof (end_containing_spec m (mkLocation g cursor) Hm (conj Hg Hc)) as He;
    (destruct (end_containing m (mkLocation g cursor)) as [end_|];
      [destruct He as (start&Hin&Hok&Hcov); pose proof (past_range cursor start end_ Hc Hin Hok Hcov Hge) as Hp;
       destruct ((g <? group end_) || (hi <=? object end_)); [by eauto|];
       destruct Hp as (Hu&Hlen&Hp); unfold add_u64; rewrite arith_u64_Ok by done; cbn [obind]
      |destruct held as [|id held]; [by eauto using not_held|];
       destruct (Z.eqb_spec id cursor) as [->|Hne]; [|exists false; split; [done|]; apply not_held; simpl; congruence];
       destruct (checked_add cursor 1) as [next|] eqn:En;
         [apply checked_add_Some in En as [-> Hb]
         |exists true; split; [done|]; split; [|done]; intros _ i Hi; right; apply elem_of_cons; left;
          unfold checked_add in En; case_if; breflect; [done|]; unfold is_u64 in *; lia]]).
  - simpl in Hfuel. lia.
  - simpl in Hfuel. lia.
  - destruct (IH (object end_ + 1) held) as (b&->&Ha); [done|done|lia|]. eauto.
  - destruct (past_held cursor held true Hs He) as [_ Hlen]. simpl in Hfuel.
    destruct (IH (cursor + 1) held) as (b&->&Ha); [unfold is_u64 in *; lia|by inversion Hs|lia|].
    exists b. split; [done|]. by apply (past_held cursor held b Hs He).
Qed.
End Accounted.

(** * The invariant of the cache *)

Definition group_ok (ops : list cache_op) (g : Z) (objs : list FetchObjectPayload) : Prop :=
  StronglySorted id_lt objs /\ objs <> [] /\
  forall o, o ∈ objs -> Op_Add o ∈ ops /\ fp_group_id o = g.

(** Some operation said that position [p] holds no Object. *)
Definition marked (ops : list cache_op) (p : Z) : Prop :=
  exists from to, Op_Absent from to ∈ ops /\ pos from <= p <= pos to.

Definition overlap (f f' : Fill) : Prop := fill_first f <= fill_last f' /\ fill_first f' <= fill_last f.

Record fills_ok (c : TrackCache) : Prop := {
  fills_fresh : forall f, f ∈ fills c -> (busy f < next_lock c)%nat;
  fills_apart : StronglySorted (fun f f' => busy f <> busy f' /\ ~ overlap f f') (fills c)
}.

Record cache_ok (ops : list cache_op) (c : TrackCache) : Prop := {
  co_groups : forall g objs, groups c !! g = Some objs -> group_ok ops g objs;
  co_ranges : ranges_ok (absent c);
  co_marked : forall p, covered (absent c) p -> marked ops p;
  co_fills : fills_ok c
}.

Lemma in_snoc {A} (x y : A) l : x ∈ l -> x ∈ l ++ [y].
Proof. intros. apply elem_of_app. by left. Qed.
Lemma in_last {A} (x : A) l : x ∈ l ++ [x].
Proof. apply elem_of_app. right. by left. Qed.

Lemma group_ok_snoc ops op g objs : group_ok ops g objs -> group_ok (ops ++ [op]) g objs.
Proof. intros (?&?&Ho). split; [done|]. split; [done|]. intros o [? ?]%Ho. eauto using in_snoc. Qed.
Lemma marked_snoc ops op p : marked ops p -> marked (ops ++ [op]) p.
Proof. intros (f&t&?&?). exists f, t. eauto using in_snoc. Qed.

Lemma add_object_ok ops c o : cache_ok ops c -> cache_ok (ops ++ [Op_Add o]) (add_object c o).
Proof.
  intros [Hg Hr Hc Hf]. split; simpl; [|done|eauto using marked_snoc|by destruct Hf].
  intros g objs. set (old := default [] (groups c !! fp_group_id o)).
  intros [[<- <-]|[Hne Hl]]%lookup_insert_Some; [|by apply group_ok_snoc, Hg].
  assert (StronglySorted id_lt old /\ forall x, x ∈ old -> Op_Add x ∈ ops /\ fp_group_id x = fp_group_id o)
    as [Hs Hold].
  { unfold old. destruct (groups c !! fp_group_id o) as [objs|] eqn:E; simpl.
    - destruct (Hg _ _ E) as (?&_&?). done.
    - split; [constructor|]. by intros x ?%elem_of_nil. }
  pose proof (binary_search_spec old (fp_object_id o) Hs) as Hb.
  destruct (binary_search_by_key (fp_object_id o) fp_object_id old) as [_|i].
  - destruct Hb as (o'&Ho'&_). split; [done|]. split; [by intros E; rewrite E in Ho'; apply elem_of_nil in Ho'|].
    intros x [? ?]%Hold. eauto using in_snoc.
  - destruct Hb as [Hb1 Hb2]. split; [by apply vec_insert_sorted|]. split.
    + unfold vec_insert. by destruct (take i old).
    + intros x [->|[? ?]%Hold]%in_vec_insert; eauto using in_snoc, in_last.
Qed.

Lemma mark_absent_ok ops c from to : cache_ok ops c -> loc_ok from -> loc_ok to ->
  cache_ok (ops ++ [Op_Absent from to]) (mark_absent c from to).
Proof.
  intros [Hg Hr Hc Hf] Hfrom Hto. unfold mark_absent. destruct (Location_leb from to) eqn:E.
  - apply Location_leb_pos in E; [|done|done].
    destruct (absent_insert_merges _ _ _ Hr Hfrom Hto E) as (m'&Em&Hok&_&Hcov).
    destruct (pop_to_suffix MAX_ABSENT_RANGES m') as (d&Ed&_). rewrite Ed in Hok, Hcov.
    apply ranges_ok_app in Hok as (_&Hok&_).
    split; simpl; [eauto using group_ok_snoc|by rewrite Em| |by destruct Hf].
    intros p. rewrite Em. intros Hp. destruct (proj1 (Hcov p)) as [|]; [by apply covered_app; right|..].
    + eauto using marked_snoc.
    + exists from, to. eauto using in_last.
  - split; eauto using group_ok_snoc, marked_snoc.
Qed.

Lemma claim_fill_spec c first last : fills_ok c ->
  let '(c', r) := claim_fill c first last in
  fills_ok c' /\ groups c' = groups c /\ absent c' = absent c /\
  match r with
  | inl claim => mkFill first last claim ∈ fills c' /\ (claim ∉ map busy (fills c)) /\
      forall f, f ∈ fills c -> f ∈ fills c' /\ ~ (fill_first f <= last /\ first <= fill_last f)
  | inr lock => c' = c /\ exists f, f ∈ fills c /\ busy f = lock /\ fill_first f <= last /\ first <= fill_last f
  end.
Proof.
  intros [Hfresh Hapart]. unfold claim_fill. destruct (List.find _ (fills c)) as [f|] eqn:E.
  - apply find_some in E as [Hin%list_elem_of_In [? ?]%andb_true_iff]. breflect.
    split; [done|]. split; [done|]. split; [done|]. split; [done|]. by exists f.
  - pose proof (find_none _ _ E) as Hnone. setoid_rewrite <- list_elem_of_In in Hnone.
    assert (forall f, f ∈ fills c -> ~ (fill_first f <= last /\ first <= fill_last f)) as Hno.
    { intros f Hin%Hnone [? ?]. apply andb_false_iff in Hin as [?|?]; breflect; lia. }
    split; [|split; [done|]; split; [done|]].
    + split; simpl.
      * intros f [Hin|Heq]%elem_of_app; [pose proof (Hfresh f Hin); lia|].
        apply list_elem_of_singleton in Heq as ->. simpl. lia.
      * apply StronglySorted_app. split; [|split; [done|by repeat constructor]].
        intros f f' Hin Heq. apply list_elem_of_singleton in Heq as ->. simpl.
        pose proof (Hfresh f Hin). split; [simpl; lia|]. unfold overlap. simpl. by apply Hno.
    + split; [apply in_last|]. split; [|intros f Hin; split; [by apply in_snoc|auto]].
      intros (f&Ef&Hin%list_elem_of_In)%list_elem_of_In%in_map_iff. pose proof (Hfresh f Hin). lia.
Qed.

Lemma drop_claim_spec c claim : fills_ok c ->
  fills_ok (drop_claim c claim) /\
  forall f, f ∈ fills (drop_claim c claim) <-> f ∈ fills c /\ busy f <> claim.
Proof.
  intros [Hfresh Hapart]. split; [split; simpl|].
  - intros f [Hin _]%in_filter. auto.
  - by apply filter_sorted.
  - intros f. simpl. rewrite in_filter, negb_true_iff, Nat.eqb_neq. done.
Qed.

Lemma cache_step_ok ops c op : cache_ok ops c -> cache_op_ok op -> cache_ok (ops ++ [op]) (cache_step c op).
Proof.
  intros Hok Hop. destruct op as [o|from to|g|first last|claim]; simpl.
  - by apply add_object_ok.
  - destruct Hop. by apply mark_absent_ok.
  - destruct Hok as [Hg Hr Hc Hf]. split; simpl; [|done|eauto using marked_snoc|by destruct Hf].
    intros g' objs [_ Hl]%lookup_delete_Some. by apply group_ok_snoc, Hg.
  - destruct Hok as [Hg Hr Hc Hf]. pose proof (claim_fill_spec c first last Hf) as Hcl.
    destruct (claim_fill c first last) as [c' r]. destruct Hcl as (Hf'&Eg&Ea&_).
    split; simpl; rewrite ?Eg, ?Ea; eauto using group_ok_snoc, marked_snoc.
  - destruct Hok as [Hg Hr Hc Hf]. split; simpl; eauto using group_ok_snoc, marked_snoc.
    by apply drop_claim_spec.
Qed.

Lemma cache_run_snoc ops op : cache_run (ops ++ [op]) = cache_step (cache_run ops) op.
Proof. unfold cache_run. by rewrite fold_left_app. Qed.

Lemma cache_run_ok ops : Forall cache_op_ok ops -> cache_ok ops (cache_run ops).
Proof.
  induction ops as [|op ops IH] using rev_ind; intros Hops.
  - split; simpl; [by intros g objs ?%lookup_empty_Some|by split; constructor|by intros p (e&?%elem_of_nil&_)|].
    split; simpl; [by intros f ?%elem_of_nil|constructor].
  - apply Forall_app in Hops as [Hops Hop%Forall_cons]. rewrite cache_run_snoc.
    apply cache_step_ok; [auto|tauto].
Qed.

(** Two fills of the list, in whatever order, are the same or apart. *)
Lemma fills_disjoint c f f' : fills_ok c -> f ∈ fills c -> f' ∈ fills c -> f = f' \/ ~ overlap f f'.
Proof.
  intros [_ Hs] Hf Hf'. induction Hs as [|x l Hl IH Hx]; [by apply elem_of_nil in Hf|].
  rewrite Forall_forall in Hx. apply elem_of_cons in Hf as [->|Hf], Hf' as [->|Hf'].
  - by left.
  - right. by apply Hx.
  - right. destruct (Hx f Hf) as [_ Hn]. unfold overlap in *. tauto.
  - auto.
Qed.

Lemma pop_to_length max m : (length (pop_to max m) <= max)%nat.
Proof.
  induction m as [|e m IH]; [simpl; lia|]. cbn [pop_to]. destruct (Nat.ltb_spec max (length (e :: m))); done.
Qed.

Lemma absent_iff m l : ranges_ok m -> loc_ok l -> is_Some (end_containing m l) <-> covered m (pos l).
Proof.
  intros Hm Hl. pose proof (end_containing_spec m l Hm Hl) as He. destruct (end_containing m l) as [e|].
  - destruct He as (s&Hin&_&Hc). split; [|eauto]. intros _. by exists (s, e).
  - split; [by intros []|done].
Qed.

(** No two ranges of the list touch, so a range ends before a Location that is
    not in any. *)
Lemma range_end_free m s e : ranges_ok m -> (s, e) ∈ m -> ~ covered m (pos e + 1).
Proof.
  intros [Hm Hs] Hin (x&Hx&Hc). rewrite Forall_forall in Hm.
  destruct (Hm _ Hin) as (_&_&Hle), (Hm _ Hx) as (_&_&Hle'). unfold covers in Hc. simpl in *.
  induction Hs as [|y l Hl IH Hy]; [by apply elem_of_nil in Hin|]. rewrite Forall_forall in Hy.
  apply elem_of_cons in Hin as [<-|Hin], Hx as [->|Hx].
  - simpl in Hc. lia.
  - specialize (Hy _ Hx). unfold apart in Hy. simpl in Hy. lia.
  - specialize (Hy _ Hin). unfold apart in Hy. simpl in Hy. lia.
  - apply IH; auto. intros z Hz. apply Hm. by right.
Qed.

Lemma held_sorted objs : StronglySorted id_lt objs -> StronglySorted Z.lt (map fp_object_id objs).
Proof.
  induction 1 as [|x l Hl IH Hx]; simpl; constructor; [done|]. rewrite Forall_map. done.
Qed.

(** The Objects held of a group. *)
Definition held (c : TrackCache) (g : Z) : list FetchObjectPayload := default [] (groups c !! g).

Lemma held_ok ops c g : cache_ok ops c ->
  StronglySorted id_lt (held c g) /\ forall o, o ∈ held c g -> Op_Add o ∈ ops /\ fp_group_id o = g.
Proof.
  intros [Hg _ _ _]. unfold held. destruct (groups c !! g) as [objs|] eqn:E; simpl.
  - destruct (Hg _ _ E) as (?&_&?). done.
  - split; [constructor|]. by intros o ?%elem_of_nil.
Qed.

Lemma objects_if_complete_runs `{Target} ops c g lo hi : cache_ok ops c -> is_u64 g -> is_u64 lo -> is_u64 hi ->
  exists b : bool, objects_if_complete c g lo hi = Ok (if b then Some (wanted_objects (held c g) lo hi) else None) /\
    answers (absent c) g hi lo (map fp_object_id (wanted_objects (held c g) lo hi)) b.
Proof.
  intros Hok Hu Hlo Hhi. destruct (held_ok ops c g Hok) as [Hs _]. destruct Hok as [_ Hr _ _].
  unfold objects_if_complete.
  assert (match groups c !! g with Some objects => wanted_objects objects lo hi | None => [] end =
    wanted_objects (held c g) lo hi) as -> by (unfold held; by destruct (groups c !! g)).
  set (w := wanted_objects _ lo hi).
  assert (StronglySorted Z.lt (map fp_object_id w)) as Hw.
  { apply held_sorted. unfold w. rewrite wanted_objects_filter by done. by apply filter_sorted. }
  destruct (accounted_spec (absent c) g hi Hr Hu Hhi (length (absent c) + length w) lo
    (map fp_object_id w)) as (b&->&Hb); [done|done| |].
  - rewrite length_map. unfold ahead. pose proof (List.filter_length_le (fun e => pos (mkLocation g lo) <=? pos (snd e)) (absent c)). lia.
  - exists b. done.
Qed.

(** What [objects_if_complete] answers, in terms of the run. *)
Lemma answer_accounted `{Target} ops g lo hi :
  Forall cache_op_ok ops -> is_u64 g -> is_u64 lo -> is_u64 hi ->
  let c := cache_run ops in
  exists r, objects_if_complete c g lo hi = Ok r /\
    (forall v, r = Some v ->
       StronglySorted id_lt v /\
       (forall o, o ∈ v <-> o ∈ held c g /\ lo <= fp_object_id o <= hi) /\
       (forall o, o ∈ v -> Op_Add o ∈ ops /\ fp_group_id o = g) /\
       forall i, lo <= i <= hi -> marked ops (pos (mkLocation g i)) \/ i ∈ map fp_object_id v) /\
    ((forall i, lo <= i <= hi ->
        is_Some (end_containing (absent c) (mkLocation g i)) \/ i ∈ map fp_object_id (held c g)) ->
     (forall o, o ∈ held c g -> lo <= fp_object_id o <= hi ->
        end_containing (absent c) (mkLocation g (fp_object_id o)) = None) ->
     r <> None).
Proof.
  intros Hops Hg Hlo Hhi c. pose proof (cache_run_ok ops Hops) as Hok. fold c in Hok.
  destruct (objects_if_complete_runs ops c g lo hi Hok Hg Hlo Hhi) as (b&->&Hb1&Hb2).
  pose proof (held_ok ops c g Hok) as (Hs&Hadd).
  rewrite wanted_objects_filter in Hb1, Hb2 |- * by done. set (w := List.filter _ (held c g)) in *.
  assert (forall o, o ∈ w <-> o ∈ held c g /\ lo <= fp_object_id o <= hi) as Hw.
  { intros o. unfold w. rewrite in_filter, andb_true_iff, !Z.leb_le. tauto. }
  eexists. split; [done|]. split.
  - intros v Hv. destruct b; [|done]. injection Hv as <-. split; [by apply filter_sorted|]. split; [done|].
    split; [intros o [Ho _]%Hw; auto|]. intros i Hi. destruct (Hb1 eq_refl i Hi) as [Hc|]; [|by right].
    left. by apply (co_marked _ _ Hok).
  - intros Hall Hno. rewrite Hb2; [done|..].
    + intros i Hi. destruct (Hall i Hi) as [Ha|(o&->&Ho)%list_elem_of_fmap].
      * left. apply absent_iff in Ha; [done|apply Hok|]. split; simpl; unfold is_u64 in *; lia.
      * right. apply list_elem_of_fmap. exists o. split; [done|]. by apply Hw.
    + intros i (o&->&Ho)%list_elem_of_fmap. apply Hw in Ho as [Ho Hr]. split; [lia|].
      rewrite <- absent_iff; [|apply Hok|split; simpl; unfold is_u64 in *; lia]. rewrite Hno by done.
      by intros [].
Qed.

(** * Properties *)

(** The absent ranges are the set of Locations marked absent.  Inserting a
    range keeps them sorted, disjoint, merged and at most 65,536; a Location is
    absent afterwards only if it was before or lies in the new range, and, as
    long as there were fewer ranges than that, exactly then.  The end found for
    a Location is the last of a run of absent Locations that contains it. *)
Theorem absent_ranges_exact m from to :
  ranges_ok m -> loc_ok from -> loc_ok to -> Location_leb from to = true ->
  let m' := absent_insert m from to in
  let new l := Location_leb from l = true /\ Location_leb l to = true in
  ranges_ok m' /\ (length m' <= MAX_ABSENT_RANGES)%nat /\
  (forall l, loc_ok l ->
     (is_Some (end_containing m' l) -> is_Some (end_containing m l) \/ new l) /\
     ((length m < MAX_ABSENT_RANGES)%nat -> is_Some (end_containing m l) \/ new l ->
      is_Some (end_containing m' l))) /\
  (forall l e, loc_ok l -> end_containing m' l = Some e ->
     Location_leb l e = true /\
     (forall x, loc_ok x -> Location_leb l x = true -> Location_leb x e = true ->
        is_Some (end_containing m' x)) /\
     forall n, Location_next e = Some n -> end_containing m' n = None).
Proof.
  intros Hm Hf Ht Hle m' new. pose proof (proj1 (Location_leb_pos _ _ Hf Ht) Hle) as Hp.
  destruct (absent_insert_merges m from to Hm Hf Ht Hp) as (m2&E&Hm2&Hlen&Hcov).
  destruct (pop_to_suffix MAX_ABSENT_RANGES m2) as (d&Ed&Hd).
  assert (ranges_ok m') as Hm'.
  { unfold m'. rewrite E. rewrite Ed in Hm2. by apply ranges_ok_app in Hm2 as (_&?&_). }
  assert (forall l, loc_ok l -> new l <-> pos from <= pos l <= pos to) as Hnew.
  { intros l Hl. unfold new. rewrite !Location_leb_pos by done. tauto. }
  split; [done|]. split; [unfold m'; rewrite E; apply pop_to_length|]. split.
  - intros l Hl. rewrite !absent_iff, Hnew, <- Hcov by done. unfold m'. rewrite E. split.
    + intros Hc. rewrite Ed. apply covered_app. by right.
    + intros Hn Hc. rewrite Hd in Ed by lia. simpl in Ed. by rewrite <- Ed.
  - intros l e Hl El. pose proof (end_containing_spec m' l Hm' Hl) as He. rewrite El in He.
    destruct He as (s&Hin&(Hs&Hoe&_)&[Hc1 Hc2]). simpl in *.
    split; [by apply Location_leb_pos|]. split.
    + intros x Hx Hlx Hxe. apply Location_leb_pos in Hlx, Hxe; [|done..]. apply absent_iff; [done..|].
      exists (s, e). split; [done|]. unfold covers. simpl. lia.
    + intros n En. destruct (Location_next_Some _ _ Hoe En) as [Hn Hpn].
      apply eq_None_not_Some. rewrite absent_iff, Hpn by done. by eapply range_end_free.
Qed.

Lemma absent_ranges_exact_witness :
  let m := [(mkLocation 1 0, mkLocation 1 4); (mkLocation 1 9, mkLocation 2 U64_MAX)] in
  let m' := absent_insert m (mkLocation 1 5) (mkLocation 1 8) in
  ranges_ok m /\ ranges_ok m' /\ m' = [(mkLocation 1 0, mkLocation 2 U64_MAX)].
Proof.
  intros m m'. assert (ranges_ok m) as Hm.
  { split; repeat constructor; simpl; unfold is_u64, apart, pos; simpl; lia. }
  split; [exact Hm|]. split; [|vm_compute; reflexivity].
  apply (absent_ranges_exact m (mkLocation 1 5) (mkLocation 1 8)); [exact Hm|..].
  - repeat split; simpl; lia.
  - repeat split; simpl; lia.
  - reflexivity.
Defined.

(** C26: the cache answers for what it can account for.  After any sequence of
    additions, absences, evictions and fills, [objects_if_complete] returns
    without panicking.  When it gives Objects, they are the Objects held of
    the group in the range asked for, in ascending order, each one added
    before, and every Location of the range holds one of them or was marked
    absent before.  It does give them when every Location of the range is held
    or absent and no Object held is absent.  The cache is empty exactly when it
    holds no Object. *)
Theorem cache_accounts `{Target} ops g lo hi :
  Forall cache_op_ok ops -> is_u64 g -> is_u64 lo -> is_u64 hi ->
  let c := cache_run ops in
  (is_empty c = true <-> forall g' o, o ∉ held c g') /\
  exists r, objects_if_complete c g lo hi = Ok r /\
    (forall v, r = Some v ->
       StronglySorted id_lt v /\
       (forall o, o ∈ v <-> o ∈ held c g /\ lo <= fp_object_id o <= hi) /\
       (forall o, o ∈ v -> Op_Add o ∈ ops /\ fp_group_id o = g) /\
       forall i, lo <= i <= hi -> marked ops (pos (mkLocation g i)) \/ i ∈ map fp_object_id v) /\
    ((forall i, lo <= i <= hi ->
        is_Some (end_containing (absent c) (mkLocation g i)) \/ i ∈ map fp_object_id (held c g)) ->
     (forall o, o ∈ held c g -> lo <= fp_object_id o <= hi ->
        end_containing (absent c) (mkLocation g (fp_object_id o)) = None) ->
     r <> None).
Proof.
  intros Hops Hg Hlo Hhi c. pose proof (cache_run_ok ops Hops) as Hok. fold c in Hok. split.
  { unfold is_empty. rewrite Nat.eqb_eq, map_size_empty_iff. split.
    - intros E g' o. unfold held. rewrite E, lookup_empty. apply not_elem_of_nil.
    - intros Hnone. apply map_empty. intros g'. destruct (groups c !! g') as [objs|] eqn:E; [|done].
      destruct (co_groups _ _ Hok _ _ E) as (_&Hne&_). destruct objs as [|o objs]; [done|].
      destruct (Hnone g' o). unfold held. rewrite E. by left. }
  by apply answer_accounted.
Qed.

(** Two Objects of a group, the gap between them marked absent. *)
Definition example_object (id : Z) : FetchObjectPayload :=
  mkFetchObjectPayload 5 0 id 128 OFP_Subgroup None [id].
Definition example_ops : list cache_op :=
  [Op_Add (example_object 9); Op_Add (example_object 3); Op_Add (example_object 3);
   Op_Absent (mkLocation 5 4) (mkLocation 5 8); Op_Absent (mkLocation 5 10) (mkLocation 7 0)].

Lemma cache_accounts_witness :
  objects_if_complete (H:=debug_build) (cache_run example_ops) 5 3 12 =
    Ok (Some [example_object 3; example_object 9]) /\
  forall i, 3 <= i <= 12 -> marked example_ops (pos (mkLocation 5 i)) \/ i ∈ [3; 9].
Proof.
  assert (objects_if_complete (H:=debug_build) (cache_run example_ops) 5 3 12 =
    Ok (Some [example_object 3; example_object 9])) as E by (vm_compute; reflexivity).
  split; [exact E|].
  destruct (cache_accounts (H:=debug_build) example_ops 5 3 12) as (_&r&Er&Hr&_).
  - repeat constructor; simpl; lia.
  - unfold is_u64. lia.
  - unfold is_u64. lia.
  - unfold is_u64. lia.
  - rewrite E in Er. injection Er as <-. exact (proj2 (proj2 (proj2 (Hr _ eq_refl)))).
Defined.

(** Fills are exclusive.  After any sequence of operations no two upstream
    fills in flight share a group.  A claim is granted exactly when its groups
    overlap none in flight, and then it is in flight under a lock of its own;
    otherwise the lock returned is one of a fill in flight that overlaps.
    Dropping a claim ends that fill and no other. *)
Theorem fills_exclusive ops first last :
  Forall cache_op_ok ops ->
  let c := cache_run ops in
  (forall f f' g, f ∈ fills c -> f' ∈ fills c -> fill_first f <= g <= fill_last f ->
     fill_first f' <= g <= fill_last f' -> f = f') /\
  (let '(c', r) := claim_fill c first last in
   match r with
   | inl claim => mkFill first last claim ∈ fills c' /\ (claim ∉ map busy (fills c)) /\
       forall f, f ∈ fills c -> f ∈ fills c' /\ ~ (fill_first f <= last /\ first <= fill_last f)
   | inr lock => c' = c /\
       exists f, f ∈ fills c /\ busy f = lock /\ fill_first f <= last /\ first <= fill_last f
   end) /\
  (forall claim f, f ∈ fills (drop_claim c claim) <-> f ∈ fills c /\ busy f <> claim).
Proof.
  intros Hops c. pose proof (co_fills _ _ (cache_run_ok ops Hops)) as Hf. fold c in Hf. split; [|split].
  - intros f f' g Hin Hin' Hg Hg'. destruct (fills_disjoint c f f' Hf Hin Hin') as [|Hn]; [done|].
    destruct Hn. unfold overlap. lia.
  - pose proof (claim_fill_spec c first last Hf) as Hc. destruct (claim_fill c first last) as [c' r].
    by destruct Hc as (_&_&_&?).
  - intros claim f. by apply drop_claim_spec.
Qed.

Lemma fills_exclusive_witness :
  let c := cache_run [Op_Claim 3 5; Op_Claim 6 9; Op_Claim 5 7; Op_Drop 0] in
  fills c = [mkFill 6 9 1] /\ snd (claim_fill c 5 7) = inr 1%nat /\
  exists f, f ∈ fills c /\ busy f = 1%nat /\ fill_first f <= 7 /\ 5 <= fill_last f.
Proof.
  intros c. split; [vm_compute; reflexivity|]. split; [vm_compute; reflexivity|].
  destruct (fills_exclusive [Op_Claim 3 5; Op_Claim 6 9; Op_Claim 5 7; Op_Drop 0] 5 7) as (_&Hc&_).
  - repeat constructor.
  - exact (proj2 Hc).
Defined.
