(* ===== verification/Ssts.v ===== *)
(** Sender-side track switching: what an algorithm sees and the default
    allocation ([libs/moqtail-ssts/src/lib.rs] and
    [algorithms/default/{mod,allocate}.rs]).

    A switching set is one content in several encodings; an algorithm picks at
    most one member of each set per group.  The default algorithm splits the
    bandwidth by strict priority of ranks and by weight within a rank.  A set a
    member of which needs less than its share gives the rest back.

    [Selection] is a hash map from set IDs, here a [gmap]. *)
From stdpp Require Import gmap.
From S2P Require Import Prelude.

(** * The boundary ([lib.rs]) *)

Abbreviation Selection := (gmap Z (option Z)).

Record SetSnapshot := mkSetSnapshot {
  set_id : Z;
  set_algorithm_id : Z;
  set_rank : Z;
  set_weight : Z;
  set_active : bool;
  (** Threshold in kbps and relay track ID, ascending by threshold. *)
  set_members : list (Z * Z)
}.

Definition lowest_member (self : SetSnapshot) : option Z := snd <$> head (set_members self).
Definition top_member (self : SetSnapshot) : option Z := snd <$> last (set_members self).
Definition member_up_to (self : SetSnapshot) (budget_kbps : Z) : option Z :=
  snd <$> List.find (fun m => fst m <=? budget_kbps) (rev (set_members self)).
Definition top_threshold_kbps (self : SetSnapshot) : option Z := fst <$> last (set_members self).
Definition has_track (self : SetSnapshot) (relay_track_id : Z) : bool :=
  existsb (fun m => snd m =? relay_track_id) (set_members self).

Record AbrInput := mkAbrInput {
  client_id : Z;
  input_group_id : Z;
  bandwidth_estimate_kbps : Z;
  configured_cap_kbps : Z;
  input_sets : list SetSnapshot;
  open_streams_per_set : gmap Z Z;
  stream_timeouts_since_last_decision : Z
}.

Definition budget_kbps (self : AbrInput) : Z :=
  let est := bandwidth_estimate_kbps self in
  let cap := configured_cap_kbps self in
  if (est =? 0) && (cap =? 0) then U64_MAX
  else if est =? 0 then cap
  else if cap =? 0 then est
  else Z.min est cap.

Definition open_streams (self : AbrInput) (set : Z) : Z := default 0 (open_streams_per_set self !! set).

(** [Iterator::sum::<u64>]. *)
Definition sum_u64 `{Target} (l : list Z) : panics Z := for_each l add_u64 0.

Definition active_stream_depth `{Target} (self : AbrInput) : panics Z :=
  sum_u64 (map (fun set => open_streams self (set_id set)) (List.filter set_active (input_sets self))).

(** * The allocation ([algorithms/default/allocate.rs]) *)

(** [Vec] indexing. *)
Definition at_index {A} (l : list A) (i : nat) : panics A :=
  match l !! i with Some x => Ok x | None => Panic end.
Definition put_index {A} (l : list A) (i : nat) (x : A) : panics (list A) :=
  match l !! i with Some _ => Ok (<[i := x]> l) | None => Panic end.

(** [Iterator::filter] with a test that may panic, and [map]. *)
Fixpoint filter_panics {A} (p : A -> panics bool) (l : list A) : panics (list A) :=
  match l with
  | [] => Ok []
  | x :: l => let? b := p x in let? r := filter_panics p l in Ok (if b then x :: r else r)
  end.
Fixpoint map_panics {A B} (f : A -> panics B) (l : list A) : panics (list B) :=
  match l with
  | [] => Ok []
  | x :: l => let? y := f x in let? r := map_panics f l in Ok (y :: r)
  end.

Abbreviation choice := (option (Z * Z)).
Definition threshold (c : choice) : Z := match c with Some (t, _) => t | None => 0 end.

(** The highest member within a target. *)
Definition pick (members : list (Z * Z)) (target : Z) : choice :=
  List.find (fun m => fst m <=? target) (rev members).

Section Tier.
Context `{Target} (tier : list SetSnapshot).

Definition contending_weight (contending : list nat) : panics Z :=
  let? weights := map_panics (fun i => let? s := at_index tier i in Ok (set_weight s)) contending in
  let? total := sum_u64 weights in
  Ok (Z.max total 1).

(** [for &i in &contending { .. }]. *)
Definition split_pool (tier_pool total_weight : Z) (contending : list nat) (selection : list choice)
    : panics (list choice) :=
  for_each contending (fun selection i =>
    let? s := at_index tier i in
    let target := saturating_mul tier_pool (set_weight s) / total_weight in
    put_index selection i (pick (set_members s) target)) selection.

Definition is_saturated (selection : list choice) (i : nat) : panics bool :=
  let? c := at_index selection i in
  let? s := at_index tier i in
  Ok match c, top_threshold_kbps s with
     | Some (threshold, _), Some top => threshold =? top
     | _, _ => false
     end.

(** [for &i in &saturated { .. }]. *)
Definition claim (selection : list choice) (saturated : list nat) (tier_pool : Z) : panics Z :=
  for_each saturated (fun pool i =>
    let? c := at_index selection i in
    Ok match c with Some (threshold, _) => saturating_sub pool threshold | None => pool end) tier_pool.

(** The [loop].  Every turn but the last takes a set out of the contest, so one
    turn more than there are contenders is enough. *)
Fixpoint contest (fuel : nat) (tier_pool : Z) (contending : list nat) (selection : list choice)
    : panics (list choice) :=
  let? total_weight := contending_weight contending in
  let? selection := split_pool tier_pool total_weight contending selection in
  let? saturated := filter_panics (is_saturated selection) contending in
  match saturated with
  | [] => Ok selection
  | _ =>
      let? tier_pool := claim selection saturated tier_pool in
      let contending := List.filter (fun i => negb (existsb (Nat.eqb i) saturated)) contending in
      match fuel with O => Diverge | S fuel => contest fuel tier_pool contending selection end
  end.

(** [for (i, set) in tier.iter().enumerate() { .. }]. *)
Definition settle_tier (selection : list choice) (s : Selection * Z) : panics (Selection * Z) :=
  for_each (seq 0 (length tier)) (fun s i =>
    let '(decisions, remaining) := s in
    let? set := at_index tier i in
    let? c := at_index selection i in
    Ok (<[set_id set := snd <$> c]> decisions, saturating_sub remaining (threshold c))) s.

Definition serve_tier (s : Selection * Z) : panics (Selection * Z) :=
  match tier with
  | [] => Ok s
  | _ =>
      let? selection := contest (length tier) (snd s) (seq 0 (length tier)) (replicate (length tier) None) in
      settle_tier selection s
  end.
End Tier.

(** [Vec::dedup]: of equal neighbours the first stays. *)
Fixpoint dedup (l : list Z) : list Z :=
  match l with
  | [] => []
  | x :: l => match l with
              | [] => [x]
              | y :: _ => if x =? y then dedup l else x :: dedup l
              end
  end.

Definition ranks (sets : list SetSnapshot) : list Z :=
  dedup (sort_by_key (fun r => r) (map set_rank sets)).

Definition tier_of (rank : Z) (sets : list SetSnapshot) : list SetSnapshot :=
  List.filter (fun set => (set_rank set =? rank) && set_active set) sets.

(** [for set in sets { decisions.entry(set.id).or_default(); }]. *)
Definition fill_rest (sets : list SetSnapshot) (d : Selection) : Selection :=
  fold_left (fun (decisions : Selection) set =>
    match decisions !! set_id set with
    | Some _ => decisions
    | None => <[set_id set := None]> decisions
    end) sets d.

Definition allocate `{Target} (budget : Z) (sets : list SetSnapshot) : panics Selection :=
  let? s := for_each (ranks sets) (fun s rank => serve_tier (tier_of rank sets) s) (∅, budget) in
  Ok (fill_rest sets (fst s)).

(** [u64::MAX / 4]. *)
Definition UNLIMITED_KBPS : Z := U64_MAX / 4.

(** [DefaultAlgorithm::decide]. *)
Definition default_decide `{Target} (input : AbrInput) : panics Selection :=
  allocate (Z.min (budget_kbps input) UNLIMITED_KBPS) (input_sets input).

(** * Lemmas on sums and loops *)

Definition zsum (l : list Z) : Z := foldr Z.add 0 l.

Lemma zsum_app l l' : zsum (l ++ l') = zsum l + zsum l'.
Proof. induction l as [|x l IH]; simpl; [done|]. lia. Qed.
Lemma zsum_nonneg l : Forall (fun x => 0 <= x) l -> 0 <= zsum l.
Proof. induction 1; simpl; lia. Qed.
Lemma zsum_perm l l' : l ≡ₚ l' -> zsum l = zsum l'.
Proof. induction 1; simpl; lia. Qed.
Lemma zsum_map_perm {A} (f : A -> Z) l l' : l ≡ₚ l' -> zsum (map f l) = zsum (map f l').
Proof. intros Hp. apply zsum_perm. by rewrite Hp. Qed.
Lemma zsum_le {A} (f g : A -> Z) l : (forall x, x ∈ l -> f x <= g x) -> zsum (map f l) <= zsum (map g l).
Proof.
  induction l as [|x l IH]; intros Hle; simpl; [done|].
  pose proof (Hle x ltac:(by left)). assert (zsum (map f l) <= zsum (map g l)); [|lia].
  apply IH. intros y Hy. apply Hle. by right.
Qed.

Lemma in_filter_b {A} (p : A -> bool) l x : x ∈ List.filter p l <-> x ∈ l /\ p x = true.
Proof. by rewrite !list_elem_of_In, filter_In. Qed.

(** Shares rounded down do not exceed the whole. *)
Lemma zsum_shares {A} (w : A -> Z) pool total l : 0 < total ->
  zsum (map (fun x => pool * w x / total) l) * total <= pool * zsum (map w l).
Proof.
  intros Ht. induction l as [|x l IH]; simpl; [lia|]. pose proof (Z.mul_div_le (pool * w x) total Ht). lia.
Qed.

Lemma sum_u64_Ok `{Target} l : Forall (fun x => 0 <= x) l -> zsum l < U64 -> sum_u64 l = Ok (zsum l).
Proof.
  intros Hl Hlt. unfold sum_u64. assert (forall acc, 0 <= acc -> acc + zsum l < U64 ->
    for_each l add_u64 acc = Ok (acc + zsum l)) as Hgen; [|rewrite Hgen; [f_equal; lia|lia|lia]].
  clear Hlt. induction Hl as [|x l Hx Hl IH]; intros acc Hacc Hb; simpl in *; [f_equal; lia|].
  pose proof (zsum_nonneg l Hl). unfold add_u64 at 1. rewrite arith_u64_Ok by (unfold is_u64; lia). simpl.
  rewrite IH by lia. f_equal. lia.
Qed.

Lemma map_panics_Ok {A B} (f : A -> panics B) (g : A -> B) l :
  (forall x, x ∈ l -> f x = Ok (g x)) -> map_panics f l = Ok (map g l).
Proof.
  induction l as [|x l IH]; intros H; simpl; [done|]. rewrite H by (by left). simpl.
  rewrite IH; [done|]. intros y Hy. apply H. by right.
Qed.
Lemma filter_panics_Ok {A} (p : A -> panics bool) (q : A -> bool) l :
  (forall x, x ∈ l -> p x = Ok (q x)) -> filter_panics p l = Ok (List.filter q l).
Proof.
  induction l as [|x l IH]; intros H; simpl; [done|]. rewrite H by (by left). simpl.
  rewrite IH; [done|]. intros y Hy. apply H. by right.
Qed.

Lemma pick_spec members target m : pick members target = Some m -> m ∈ members /\ fst m <= target.
Proof.
  unfold pick. intros [Hin Hle]%find_some. apply in_rev, list_elem_of_In in Hin. breflect. done.
Qed.

(** * Lemmas on a tier *)

(** Values the relay gives: thresholds and weights are integers of 64 bits. *)
Definition snapshot_ok (s : SetSnapshot) : Prop :=
  0 <= set_weight s /\ Forall (fun m => 0 <= fst m) (set_members s).

(** A choice is nothing or a member. *)
Definition chosen (s : SetSnapshot) (c : choice) : Prop :=
  forall m, c = Some m -> m ∈ set_members s.

Section Tier.
Context `{Target} (tier : list SetSnapshot).
Hypothesis Htier : Forall snapshot_ok tier.

Definition weight_at (i : nat) : Z := match tier !! i with Some s => set_weight s | None => 0 end.
Definition pick_at (pool total : Z) (i : nat) : choice :=
  match tier !! i with
  | Some s => pick (set_members s) (saturating_mul pool (set_weight s) / total)
  | None => None
  end.
Definition cost_at (selection : list choice) (i : nat) : Z := threshold (default None (selection !! i)).
Definition cost (selection : list choice) (l : list nat) : Z := zsum (map (cost_at selection) l).

Definition in_tier (l : list nat) : Prop := forall i, i ∈ l -> (i < length tier)%nat.

Lemma tier_lookup i : (i < length tier)%nat -> exists s, tier !! i = Some s /\ snapshot_ok s.
Proof.
  intros [s E]%lookup_lt_is_Some_2. exists s. split; [done|]. by eapply Forall_lookup_1.
Qed.

Lemma weight_nonneg i : 0 <= weight_at i.
Proof.
  unfold weight_at. destruct (tier !! i) as [s|] eqn:E; [|done]. by destruct (Forall_lookup_1 _ _ _ _ Htier E).
Qed.

Lemma contending_weight_Ok l : in_tier l -> zsum (map weight_at l) < U64 ->
  contending_weight tier l = Ok (Z.max (zsum (map weight_at l)) 1).
Proof.
  intros Hl Hsum. unfold contending_weight. rewrite (map_panics_Ok _ weight_at).
  - simpl. rewrite sum_u64_Ok; [done| |done]. rewrite Forall_map. apply Forall_true. apply weight_nonneg.
  - intros i [s [E _]]%Hl%tier_lookup. unfold at_index, weight_at. by rewrite E.
Qed.

(** The bids of a round: new for the contenders, unchanged for the others. *)
Definition bids (pool total : Z) (selection : list choice) (l : list nat) (selection' : list choice) : Prop :=
  length selection' = length tier /\
  forall i, (i < length tier)%nat ->
    selection' !! i = if bool_decide (i ∈ l) then Some (pick_at pool total i) else selection !! i.

Lemma split_pool_Ok pool total l selection : in_tier l -> length selection = length tier ->
  exists selection', split_pool tier pool total l selection = Ok selection' /\ bids pool total selection l selection'.
Proof.
  intros Hl Hlen. unfold split_pool.
  apply (for_each_inv (bids pool total selection)).
  - intros d x r s -> [Hs Hd]. assert (x < length tier)%nat as Hx.
    { apply Hl, elem_of_app. right. by left. }
    destruct (tier_lookup x Hx) as (set&E&_). unfold at_index, put_index. rewrite E. simpl.
    destruct (lookup_lt_is_Some_2 s x) as [c Ec]; [lia|]. rewrite Ec. eexists. split; [done|].
    split; [by rewrite length_insert|]. intros i Hi.
    destruct (decide (i = x)) as [->|Hne].
    + rewrite list_lookup_insert_eq by lia. rewrite bool_decide_eq_true_2 by (apply elem_of_app; right; by left).
      unfold pick_at. by rewrite E.
    + rewrite list_lookup_insert_ne, Hd by done.
      rewrite (bool_decide_ext (i ∈ d ++ [x]) (i ∈ d)); [done|]. rewrite elem_of_app, list_elem_of_singleton. tauto.
  - split; [done|]. intros i Hi. rewrite bool_decide_eq_false_2; [done|]. apply not_elem_of_nil.
Qed.

Lemma threshold_pick pool total i : 0 < total -> 0 <= pool ->
  0 <= threshold (pick_at pool total i) <= pool * weight_at i / total.
Proof.
  intros Ht Hp. pose proof (weight_nonneg i) as Hw. unfold pick_at, weight_at in *.
  assert (forall a, 0 <= a -> 0 <= a / total) as Hdiv by (intros; by apply Z.div_pos).
  destruct (tier !! i) as [s|] eqn:E; simpl; [|split; [done|]; apply Hdiv; lia].
  pose proof (Forall_lookup_1 _ _ _ _ Htier E) as [_ Hm]. rewrite Forall_forall in Hm.
  destruct (pick _ _) as [[t id]|] eqn:Ep; simpl; [|split; [done|]; apply Hdiv; nia].
  apply pick_spec in Ep as [Hin Hle]. simpl in Hle. apply Hm in Hin. simpl in Hin. split; [done|].
  etrans; [exact Hle|]. apply Z.div_le_mono; [done|]. unfold saturating_mul. lia.
Qed.

(** What all contenders bid for is no more than the pool. *)
Lemma bids_fit pool l : 0 <= pool ->
  zsum (map (fun i => threshold (pick_at pool (Z.max (zsum (map weight_at l)) 1) i)) l) <= pool.
Proof.
  intros Hp. set (total := Z.max (zsum (map weight_at l)) 1).
  etrans; [apply (zsum_le _ (fun i => pool * weight_at i / total)); intros i _; apply threshold_pick; lia|].
  pose proof (zsum_shares weight_at pool total l ltac:(lia)). nia.
Qed.

Lemma claim_Ok selection l pool : (forall i, i ∈ l -> is_Some (selection !! i)) ->
  (forall i, 0 <= cost_at selection i) -> cost selection l <= pool ->
  claim selection l pool = Ok (pool - cost selection l).
Proof.
  intros Hl Hpos. unfold claim, cost. revert pool. induction l as [|i l IH]; intros pool Hc; simpl in *.
  - f_equal. lia.
  - destruct (Hl i) as [c Ec]; [by left|]. unfold at_index. rewrite Ec. simpl.
    assert (0 <= zsum (map (cost_at selection) l)) as Hrest
      by (apply zsum_nonneg; rewrite Forall_map; by apply Forall_true).
    pose proof (Hpos i) as Hi. assert (cost_at selection i = threshold c) as Eci by (unfold cost_at; by rewrite Ec).
    rewrite Eci in *.
    assert (match c with Some (t, _) => saturating_sub pool t | None => pool end = pool - threshold c) as ->.
    { unfold saturating_sub. destruct c as [[t id]|]; simpl in *; lia. }
    rewrite IH; [f_equal; lia|intros j Hj; apply Hl; by right|lia].
Qed.

Lemma cost_app selection l l' : cost selection (l ++ l') = cost selection l + cost selection l'.
Proof. unfold cost. by rewrite map_app, zsum_app. Qed.
Lemma cost_ext s s' l : (forall i, i ∈ l -> s !! i = s' !! i) -> cost s l = cost s' l.
Proof.
  intros E. unfold cost. f_equal. apply map_ext_in. intros i Hi%list_elem_of_In. unfold cost_at. by rewrite E.
Qed.

Lemma filter_partition {A} (p : A -> bool) l :
  l ≡ₚ List.filter p l ++ List.filter (fun x => negb (p x)) l.
Proof.
  induction l as [|x l IH]; simpl; [done|]. destruct (p x); simpl; [by constructor|].
  rewrite IH at 1. apply Permutation_middle.
Qed.

Lemma bids_at pool total selection l selection' i : bids pool total selection l selection' ->
  in_tier l -> i ∈ l -> selection' !! i = Some (pick_at pool total i).
Proof. intros [_ Hb] Hl Hi. rewrite Hb by auto. by rewrite bool_decide_eq_true_2. Qed.

Lemma bids_nonneg pool total selection l selection' : bids pool total selection l selection' ->
  0 < total -> 0 <= pool -> (forall i, 0 <= cost_at selection i) -> forall i, 0 <= cost_at selection' i.
Proof.
  intros [Hlen Hb] Ht Hp Hpos i. destruct (Nat.lt_ge_cases i (length tier)) as [Hi|Hi].
  - unfold cost_at. rewrite Hb by done. destruct (bool_decide (i ∈ l)); [|apply Hpos].
    by apply threshold_pick.
  - unfold cost_at. by rewrite lookup_ge_None_2 by lia.
Qed.

Lemma bids_cost pool selection l selection' : in_tier l -> 0 <= pool ->
  bids pool (Z.max (zsum (map weight_at l)) 1) selection l selection' -> cost selection' l <= pool.
Proof.
  intros Hl Hp Hb. etrans; [|apply (bids_fit pool l Hp)]. unfold cost. apply zsum_le.
  intros i Hi. unfold cost_at. by rewrite (bids_at _ _ _ _ _ _ Hb Hl Hi).
Qed.

Lemma is_saturated_Ok selection l : in_tier l -> length selection = length tier ->
  exists q, filter_panics (is_saturated tier selection) l = Ok (List.filter q l).
Proof.
  intros Hl Hlen. exists (fun i => match is_saturated tier selection i with Ok b => b | _ => false end).
  apply filter_panics_Ok. intros i Hi%Hl. destruct (tier_lookup i Hi) as (s&E&_).
  destruct (lookup_lt_is_Some_2 selection i) as [c Ec]; [lia|].
  unfold is_saturated, at_index. by rewrite E, Ec.
Qed.

Lemma not_in_filter (q : nat -> bool) l : NoDup l ->
  List.filter (fun i => negb (existsb (Nat.eqb i) (List.filter q l))) l = List.filter (fun i => negb (q i)) l.
Proof.
  intros _. apply filter_ext_in. intros i Hi. f_equal. apply eq_true_iff_eq. rewrite existsb_exists. split.
  - intros (j&[_ Hj]%filter_In&->%Nat.eqb_eq). done.
  - intros Hq. exists i. split; [by apply filter_In|apply Nat.eqb_refl].
Qed.

(** The contest ends, leaves the others alone, gives each contender nothing or
    a member of its own, and spends no more than the pool. *)
Lemma contest_Ok fuel : forall pool l selection,
  in_tier l -> NoDup l -> (length l <= fuel)%nat -> length selection = length tier ->
  zsum (map weight_at l) < U64 -> 0 <= pool -> (forall i, 0 <= cost_at selection i) ->
  exists selection', contest tier fuel pool l selection = Ok selection' /\
    length selection' = length tier /\ (forall i, 0 <= cost_at selection' i) /\
    (forall i, (i < length tier)%nat -> i ∉ l -> selection' !! i = selection !! i) /\
    (forall i s, i ∈ l -> tier !! i = Some s -> exists c, selection' !! i = Some c /\ chosen s c) /\
    cost selection' l <= pool.
Proof.
  induction fuel as [|fuel IH]; intros pool l selection Hl Hnd Hfuel Hlen Hw Hp Hpos; cbn [contest];
    rewrite contending_weight_Ok by done; cbn [obind]; set (total := Z.max _ 1);
    (destruct (split_pool_Ok pool total l selection Hl Hlen) as (s1&->&Hb)); cbn [obind];
    pose proof (bids_cost _ _ _ _ Hl Hp Hb) as Hcost;
    pose proof (bids_nonneg _ _ _ _ _ Hb ltac:(lia) Hp Hpos) as Hpos1;
    (assert (forall i s, i ∈ l -> tier !! i = Some s -> exists c, s1 !! i = Some c /\ chosen s c) as Hch
      by (intros i s Hi E; eexists; split; [by apply (bids_at _ _ _ _ _ _ Hb Hl Hi)|];
          unfold pick_at; rewrite E; by intros m [? _]%pick_spec));
    (assert (forall i, (i < length tier)%nat -> i ∉ l -> s1 !! i = selection !! i) as Hother
      by (intros i Hi Hn; rewrite (proj2 Hb i Hi); by rewrite bool_decide_eq_false_2));
    destruct (is_saturated_Ok s1 l Hl (proj1 Hb)) as (q&->); cbn [obind].
  - destruct l as [|i l]; [|simpl in Hfuel; lia]. exists s1. split; [done|]. split; [apply Hb|]. done.
  - destruct (List.filter q l) as [|i0 sat0] eqn:Esat; [exists s1; split; [done|]; split; [apply Hb|]; done|].
    rewrite <- Esat. set (sat := List.filter q l) in *. set (rest := List.filter (fun i => negb (q i)) l).
    assert (l ≡ₚ sat ++ rest) as Hperm by apply filter_partition.
    assert (cost s1 l = cost s1 sat + cost s1 rest) as Hsplit.
    { rewrite <- cost_app. by apply zsum_map_perm. }
    assert (0 <= cost s1 rest) as Hrest
      by (apply zsum_nonneg; rewrite Forall_map; by apply Forall_true).
    rewrite claim_Ok; [|intros i [Hi _]%in_filter_b; apply lookup_lt_is_Some_2; rewrite (proj1 Hb); auto|done|lia].
    cbn [obind]. unfold sat at 2. rewrite not_in_filter by done. fold rest.
    assert (forall i, i ∈ rest -> i ∈ l) as Hsub by (by intros i [? _]%in_filter_b).
    destruct (IH (pool - cost s1 sat) rest s1) as (s2&->&Hlen2&Hpos2&Hother2&Hch2&Hcost2); try done.
    + intros i Hi. auto.
    + by apply NoDup_ListNoDup, List.NoDup_filter, NoDup_ListNoDup.
    + assert (length l = (length sat + length rest)%nat) as El by (by rewrite Hperm, length_app).
      rewrite Esat in El. simpl in El. lia.
    + apply Hb.
    + pose proof (zsum_nonneg (map weight_at sat)) as Hn. rewrite Forall_map in Hn.
      rewrite (zsum_map_perm _ _ _ Hperm), map_app, zsum_app in Hw. specialize (Hn ltac:(apply Forall_true, weight_nonneg)). lia.
    + lia.
    + assert (forall i, i ∈ sat -> s2 !! i = s1 !! i) as Hsat.
      { intros i [Hi Hq]%in_filter_b. apply Hother2; [auto|]. intros [_ Hq']%in_filter_b. by rewrite Hq in Hq'. }
      exists s2. split; [done|]. split; [done|]. split; [done|]. split; [|split].
      * intros i Hi Hn. rewrite Hother2 by auto. auto.
      * intros i s Hi E. destruct (q i) eqn:Eq; [|apply Hch2; [by apply in_filter_b; rewrite Eq|done]].
        rewrite Hsat by (by apply in_filter_b). by apply Hch.
      * assert (cost s2 l = cost s2 sat + cost s2 rest) as ->
          by (rewrite <- cost_app; by apply zsum_map_perm).
        rewrite (cost_ext s2 s1 sat) by done. lia.
Qed.
End Tier.

(** * Lemmas on the allocation *)

Definition decide_all (f : SetSnapshot -> choice) (t : list SetSnapshot) (d : Selection) : Selection :=
  fold_left (fun d s => <[set_id s := snd <$> f s]> d) t d.
Definition spent (f : SetSnapshot -> choice) (t : list SetSnapshot) : Z :=
  zsum (map (fun s => threshold (f s)) t).

Lemma decide_all_other f t : forall d i, i ∉ map set_id t -> decide_all f t d !! i = d !! i.
Proof.
  induction t as [|s t IH]; intros d i Hi; simpl in *; [done|]. apply not_elem_of_cons in Hi as [Hne Hi].
  unfold decide_all in *. simpl. rewrite IH by done. by rewrite lookup_insert_ne.
Qed.
Lemma decide_all_in f t : forall d s, NoDup (map set_id t) -> s ∈ t ->
  decide_all f t d !! set_id s = Some (snd <$> f s).
Proof.
  induction t as [|s' t IH]; intros d s Hnd Hs; simpl in *; [by apply elem_of_nil in Hs|].
  apply NoDup_cons in Hnd as [Hn Hnd]. apply elem_of_cons in Hs as [->|Hs].
  - rewrite (decide_all_other f t _ _ Hn). apply lookup_insert_eq.
  - by apply IH.
Qed.

(** The choice made for a set, found by its ID. *)
Definition choice_of (tier : list SetSnapshot) (sel : list choice) (s : SetSnapshot) : choice :=
  match list_find (fun s' => set_id s' = set_id s) tier with
  | Some (i, _) => default None (sel !! i)
  | None => None
  end.

Section Settle.
Context (tier : list SetSnapshot) (sel : list choice).
Hypothesis Hnd : NoDup (map set_id tier).
Hypothesis Hlen : length sel = length tier.

Lemma choice_of_at i s : tier !! i = Some s -> sel !! i = Some (choice_of tier sel s).
Proof.
  intros E. unfold choice_of. destruct (list_find _ tier) as [[j s']|] eqn:Ef.
  - apply list_find_Some in Ef as (Ej&Eid&_). assert (j = i) as ->.
    { apply (NoDup_lookup (map set_id tier) j i (set_id s)); [done|..];
        rewrite list_lookup_fmap; [by rewrite Ej; simpl; f_equal|by rewrite E]. }
    destruct (lookup_lt_is_Some_2 sel i) as [c Ec]; [rewrite Hlen; by eapply lookup_lt_Some|].
    by rewrite Ec.
  - apply list_find_None in Ef. rewrite Forall_forall in Ef. destruct (Ef s); [|done].
    by eapply list_elem_of_lookup_2.
Qed.

(** A sum over the indices is one over the sets. *)
Lemma map_seq_tier {B} (g : nat -> B) (h : SetSnapshot -> B) :
  (forall i s, tier !! i = Some s -> g i = h s) -> map g (seq 0 (length tier)) = map h tier.
Proof.
  intros Hg. apply list_eq. intros i. rewrite !list_lookup_fmap. destruct (tier !! i) as [s|] eqn:E; simpl.
  - rewrite lookup_seq_lt by (by eapply lookup_lt_Some). simpl. f_equal. by apply Hg.
  - by rewrite lookup_seq_ge by (by apply lookup_ge_None).
Qed.

Lemma cost_spent : cost sel (seq 0 (length tier)) = spent (choice_of tier sel) tier.
Proof.
  unfold cost, spent. f_equal. apply map_seq_tier. intros i s E. unfold cost_at.
  by rewrite (choice_of_at _ _ E).
Qed.

Lemma settle_from t : forall k d rem, drop k tier = t -> spent (choice_of tier sel) t <= rem ->
  Forall (fun s => 0 <= threshold (choice_of tier sel s)) t ->
  for_each (seq k (length t)) (fun s i =>
    let '(decisions, remaining) := s in
    let? set := at_index tier i in
    let? c := at_index sel i in
    Ok (E:=Empty_set) (<[set_id set := snd <$> c]> decisions, saturating_sub remaining (threshold c))) (d, rem) =
  Ok (decide_all (choice_of tier sel) t d, rem - spent (choice_of tier sel) t).
Proof.
  induction t as [|s t IH]; intros k d rem Hk Hle Hth; [unfold spent; simpl; f_equal; f_equal; lia|].
  assert (tier !! k = Some s) as E.
  { pose proof (lookup_drop tier k 0) as El. rewrite Hk, Nat.add_0_r in El. by rewrite <- El. }
  apply Forall_cons in Hth as [Hs Hth]. unfold spent in *. simpl in *.
  unfold at_index at 1. rewrite E. cbn [obind]. unfold at_index at 1. rewrite (choice_of_at _ _ E). cbn [obind].
  assert (0 <= zsum (map (fun s => threshold (choice_of tier sel s)) t))
    by (apply zsum_nonneg; by rewrite Forall_map).
  assert (saturating_sub rem (threshold (choice_of tier sel s)) = rem - threshold (choice_of tier sel s)) as ->
    by (unfold saturating_sub; lia).
  rewrite IH; [f_equal; f_equal; lia| |lia|done].
  rewrite (drop_S _ _ _ E) in Hk. by injection Hk.
Qed.
End Settle.

(** A tier is served out of what is left, and spends no more than that. *)
Lemma serve_tier_Ok `{Target} tier d remaining :
  Forall snapshot_ok tier -> NoDup (map set_id tier) -> zsum (map set_weight tier) < U64 -> 0 <= remaining ->
  exists f, serve_tier tier (d, remaining) = Ok (decide_all f tier d, remaining - spent f tier) /\
    spent f tier <= remaining /\ forall s, s ∈ tier -> chosen s (f s) /\ 0 <= threshold (f s).
Proof.
  intros Htier Hnd Hw Hrem. destruct tier as [|s0 tier0].
  { exists (fun _ => None). unfold spent. simpl. split; [f_equal; f_equal; lia|]. split; [done|]. by intros s ?%elem_of_nil. }
  unfold serve_tier. set (tier := s0 :: tier0) in *. clearbody tier. clear s0 tier0.
  destruct (contest_Ok tier Htier (length tier) remaining (seq 0 (length tier)) (replicate (length tier) None))
    as (sel&Esel&Hlen&Hpos&_&Hch&Hcost).
  - intros i Hi%elem_of_seq. lia.
  - apply NoDup_seq.
  - by rewrite length_seq.
  - apply length_replicate.
  - rewrite (map_seq_tier tier _ set_weight); [done|]. intros i s E. unfold weight_at. by rewrite E.
  - done.
  - intros i. unfold cost_at. destruct (_ !! i) as [c|] eqn:E; [|done].
    by apply lookup_replicate in E as [-> _].
  - simpl snd. rewrite Esel. cbn [obind]. pose proof (choice_of_at tier sel Hnd Hlen) as Hf.
    rewrite (cost_spent tier sel Hnd Hlen) in Hcost.
    assert (forall s, s ∈ tier -> chosen s (choice_of tier sel s) /\ 0 <= threshold (choice_of tier sel s)) as Hall.
    { intros s [i E]%list_elem_of_lookup. destruct (Hch i s) as (c&Ec&Hc); [|done|].
      { apply elem_of_seq. apply lookup_lt_Some in E. lia. }
      rewrite (Hf _ _ E) in Ec. injection Ec as <-. split; [done|].
      pose proof (Hpos i) as Hp. unfold cost_at in Hp. by rewrite (Hf _ _ E) in Hp. }
    exists (choice_of tier sel). split; [|by split].
    unfold settle_tier. apply (settle_from tier sel Hnd Hlen tier 0 d remaining); [apply drop_0|done|].
    apply Forall_forall. intros s Hs. by apply Hall.
Qed.

Lemma unique_id sets (Hnd : NoDup (map set_id sets)) s s' : s ∈ sets -> s' ∈ sets -> set_id s = set_id s' -> s = s'.
Proof.
  intros [i Hi]%list_elem_of_lookup [j Hj]%list_elem_of_lookup E.
  assert (i = j) as ->; [|congruence].
  apply (NoDup_lookup (map set_id sets) i j (set_id s)); [done|..]; rewrite list_lookup_fmap;
    [by rewrite Hi|rewrite Hj; simpl; by f_equal].
Qed.

Section Allocate.
Context `{Target} (sets : list SetSnapshot).
Hypothesis Hsets : Forall snapshot_ok sets.
Hypothesis Hnd : NoDup (map set_id sets).
Hypothesis Hweights : zsum (map set_weight sets) < U64.

(** The active sets of some ranks. *)
Definition served (rs : list Z) : list SetSnapshot :=
  List.filter (fun s => existsb (Z.eqb (set_rank s)) rs && set_active s) sets.

Lemma in_served rs s : s ∈ served rs <-> s ∈ sets /\ set_rank s ∈ rs /\ set_active s = true.
Proof.
  unfold served. rewrite !list_elem_of_In, filter_In, andb_true_iff, existsb_exists. split.
  - intros (?&(r&?&->%Z.eqb_eq)&?). done.
  - intros (?&?&?). split; [done|]. split; [|done]. exists (set_rank s). split; [done|apply Z.eqb_refl].
Qed.

Lemma in_tier_of r s : s ∈ tier_of r sets <-> s ∈ sets /\ set_rank s = r /\ set_active s = true.
Proof.
  unfold tier_of. by rewrite !list_elem_of_In, filter_In, andb_true_iff, Z.eqb_eq.
Qed.

Lemma filter_map_NoDup (p : SetSnapshot -> bool) l : NoDup (map set_id l) -> NoDup (map set_id (List.filter p l)).
Proof.
  induction l as [|s l IH]; simpl; [done|]. intros [Hn Hl]%NoDup_cons. destruct (p s); simpl; [|auto].
  apply NoDup_cons. split; [|auto]. intros Hin. apply Hn.
  apply list_elem_of_In, in_map_iff in Hin as (s'&<-&[Hin _]%filter_In).
  apply list_elem_of_In, in_map_iff. eauto.
Qed.

Lemma filter_weights (p : SetSnapshot -> bool) l : Forall snapshot_ok l ->
  zsum (map set_weight (List.filter p l)) <= zsum (map set_weight l).
Proof.
  induction 1 as [|s l [Hs _] Hl IH]; simpl; [done|]. destruct (p s); simpl; lia.
Qed.

Lemma tier_of_ok r : Forall snapshot_ok (tier_of r sets) /\ NoDup (map set_id (tier_of r sets)) /\
  zsum (map set_weight (tier_of r sets)) < U64.
Proof.
  split; [|split].
  - apply Forall_forall. intros s [Hs _]%in_tier_of. by eapply Forall_forall in Hsets.
  - by apply filter_map_NoDup.
  - pose proof (filter_weights (fun set => (set_rank set =? r) && set_active set) sets Hsets). unfold tier_of. lia.
Qed.

(** What is spent on one more rank. *)
Lemma spent_cons f f' g r rs : r ∉ rs ->
  (forall s, set_rank s = r -> g s = f s) -> (forall s, set_rank s <> r -> g s = f' s) ->
  spent g (served (r :: rs)) = spent f (tier_of r sets) + spent f' (served rs).
Proof.
  intros Hr Hf Hf'. unfold spent, served, tier_of. clear Hsets Hnd Hweights.
  induction sets as [|s l IH]; simpl in *; [done|]. destruct (Z.eqb_spec (set_rank s) r) as [Er|Hne]; simpl.
  - assert (existsb (Z.eqb (set_rank s)) rs = false) as ->.
    { apply not_true_is_false. intros (x&Hx&Ex%Z.eqb_eq)%existsb_exists. apply Hr, list_elem_of_In. congruence. }
    destruct (set_active s); simpl; rewrite IH, ?Hf by done; lia.
  - destruct (existsb _ rs && set_active s); simpl; rewrite IH, ?Hf' by done; lia.
Qed.

Abbreviation serve_all rs start := (for_each rs (fun s rank => serve_tier (tier_of rank sets) s) start).

(** The ranks served one after the other. *)
Lemma serve_all_Ok rs : forall d remaining, NoDup rs -> 0 <= remaining ->
  exists f d' remaining', serve_all rs (d, remaining) = Ok (d', remaining') /\
    remaining' = remaining - spent f (served rs) /\ 0 <= remaining' /\
    (forall s, s ∈ served rs -> d' !! set_id s = Some (snd <$> f s) /\ chosen s (f s)) /\
    (forall i, i ∉ map set_id (served rs) -> d' !! i = d !! i).
Proof.
  induction rs as [|r rs IH]; intros d remaining Hrs Hrem; simpl.
  - exists (fun _ => None), d, remaining. unfold served, spent. simpl.
    assert (List.filter (fun _ => false) sets = []) as -> by (clear; induction sets; done).
    simpl. split; [done|]. split; [lia|]. split; [done|]. split; [|done]. by intros s ?%elem_of_nil.
  - apply NoDup_cons in Hrs as [Hr Hrs]. destruct (tier_of_ok r) as (Ht1&Ht2&Ht3).
    destruct (serve_tier_Ok _ d remaining Ht1 Ht2 Ht3 Hrem) as (f&->&Hle&Hch). cbn [obind].
    destruct (IH (decide_all f (tier_of r sets) d) (remaining - spent f (tier_of r sets)) Hrs) as
      (f'&d'&rem'&->&Erem&Hrem'&Hin&Hout); [lia|].
    set (g := fun s => if set_rank s =? r then f s else f' s).
    assert (forall s, set_rank s = r -> g s = f s) as Hg by (intros s <-; unfold g; by rewrite Z.eqb_refl).
    assert (forall s, set_rank s <> r -> g s = f' s) as Hg'
      by (intros s Hne; unfold g; by destruct (Z.eqb_spec (set_rank s) r)).
    exists g, d', rem'. split; [done|]. split; [rewrite (spent_cons f f' g) by done; lia|]. split; [done|]. split.
    + intros s (Hs&[Er|Hr']%elem_of_cons&Ha)%in_served.
      * rewrite Hg by done. assert (s ∈ tier_of r sets) as Ht by (by apply in_tier_of).
        rewrite Hout; [split; [by apply decide_all_in|by apply Hch]|].
        intros (s'&E&(Hs'&Hr'&_)%in_served)%list_elem_of_fmap. rewrite (unique_id sets Hnd s s') in Er by done. congruence.
      * rewrite Hg' by (intros E; by rewrite E in Hr'). apply Hin. by apply in_served.
    + intros i Hi. rewrite Hout.
      * apply decide_all_other. intros (s&->&(Hs&Hr'&Ha)%in_tier_of)%list_elem_of_fmap. apply Hi.
        apply list_elem_of_fmap. exists s. split; [done|]. apply in_served. split; [done|]. split; [|done].
        rewrite Hr'. by left.
      * intros (s&->&(Hs&Hr'&Ha)%in_served)%list_elem_of_fmap. apply Hi.
        apply list_elem_of_fmap. exists s. split; [done|]. apply in_served. split; [done|]. split; [by right|done].
Qed.
End Allocate.

(** ** The ranks *)

Lemma dedup_spec l : StronglySorted Z.le l ->
  StronglySorted Z.lt (dedup l) /\ forall x, x ∈ dedup l <-> x ∈ l.
Proof.
  induction 1 as [|x l Hl [IH1 IH2] Hx]; [split; [constructor|done]|].
  destruct l as [|y l]; [split; [by repeat constructor|done]|]. cbn [dedup] in *.
  rewrite Forall_forall in Hx. destruct (Z.eqb_spec x y) as [->|Hne].
  - split; [done|]. intros z. rewrite IH2, !elem_of_cons. tauto.
  - split.
    + constructor; [done|]. apply Forall_forall. intros z Hz%IH2. pose proof (Hx z Hz) as Hxz.
      pose proof (Hx y ltac:(by left)). apply elem_of_cons in Hz as [->|Hz]; [lia|].
      inversion Hl as [|? ? _ Hy]; subst. rewrite Forall_forall in Hy. specialize (Hy z Hz). lia.
    + intros z. rewrite elem_of_cons, IH2, (elem_of_cons (y :: l)). done.
Qed.

Lemma ranks_spec sets : StronglySorted Z.lt (ranks sets) /\ forall r, r ∈ ranks sets <-> r ∈ map set_rank sets.
Proof.
  unfold ranks. destruct (dedup_spec (sort_by_key (fun r => r) (map set_rank sets))) as [H1 H2].
  - apply (sort_by_key_sorted (fun r => r)).
  - split; [done|]. intros r. rewrite H2. by rewrite (sort_by_key_Permutation (fun r => r) (map set_rank sets)).
Qed.

Lemma sorted_lt_NoDup l : StronglySorted Z.lt l -> NoDup l.
Proof.
  induction 1 as [|x l Hl IH Hx]; constructor; [|done]. rewrite Forall_forall in Hx. intros Hin%Hx. lia.
Qed.

(** Two rising lists of the same elements are the same. *)
Lemma sorted_lt_unique l l' : StronglySorted Z.lt l -> StronglySorted Z.lt l' ->
  (forall x, x ∈ l <-> x ∈ l') -> l = l'.
Proof.
  intros Hs. revert l'. induction Hs as [|x l Hl IH Hx]; intros l' Hs' Heq.
  - destruct l' as [|y l']; [done|]. exfalso. apply (not_elem_of_nil y), Heq. by left.
  - destruct l' as [|y l']; [exfalso; apply (not_elem_of_nil x), Heq; by left|].
    inversion Hs' as [|? ? Hl' Hy]; subst. rewrite Forall_forall in Hx, Hy.
    assert (x = y) as ->.
    { pose proof (proj1 (Heq x) ltac:(by left)) as [?|H1]%elem_of_cons; [done|].
      pose proof (proj2 (Heq y) ltac:(by left)) as [?|H2]%elem_of_cons; [done|].
      specialize (Hy _ H1). specialize (Hx _ H2). lia. }
    f_equal. apply IH; [done|]. intros z. specialize (Heq z). rewrite !elem_of_cons in Heq. split; intros Hz.
    + destruct (proj1 Heq (or_intror Hz)) as [->|]; [|done]. specialize (Hx _ Hz). lia.
    + destruct (proj2 Heq (or_intror Hz)) as [->|]; [|done]. specialize (Hy _ Hz). lia.
Qed.

(** Higher-priority sets alone. *)
Definition up_to_rank (r : Z) (sets : list SetSnapshot) : list SetSnapshot :=
  List.filter (fun s => set_rank s <=? r) sets.

Lemma in_up_to_rank r sets s : s ∈ up_to_rank r sets <-> s ∈ sets /\ set_rank s <= r.
Proof. unfold up_to_rank. by rewrite !list_elem_of_In, filter_In, Z.leb_le. Qed.

Lemma ranks_up_to r sets : exists later, ranks sets = ranks (up_to_rank r sets) ++ later /\
  (forall r', r' ∈ ranks (up_to_rank r sets) -> r' <= r) /\ forall r', r' ∈ later -> r < r'.
Proof.
  destruct (ranks_spec sets) as [Hs Hin]. destruct (ranks_spec (up_to_rank r sets)) as [Hs' Hin'].
  assert (forall r', r' ∈ ranks (up_to_rank r sets) <-> r' ∈ ranks sets /\ r' <= r) as Hup.
  { intros r'. rewrite Hin, Hin', !list_elem_of_fmap. setoid_rewrite in_up_to_rank. split.
    - intros (s&->&Hs1&Hs2). eauto.
    - intros [(s&->&Hs1) Hs2]. eauto. }
  assert (forall l, StronglySorted Z.lt l -> exists l1 l2, l = l1 ++ l2 /\ (forall x, x ∈ l1 -> x <= r) /\
    (forall x, x ∈ l2 -> r < x)) as Hcut.
  { induction 1 as [|x l Hl (l1&l2&->&H1&H2) Hx].
    - exists [], []. split; [done|]. split; by intros x ?%elem_of_nil.
    - destruct (Z.le_gt_cases x r).
      + exists (x :: l1), l2. split; [done|]. split; [|done]. intros y [->|Hy]%elem_of_cons; auto.
      + exists [], (x :: l1 ++ l2). split; [done|]. split; [by intros y ?%elem_of_nil|].
        rewrite Forall_forall in Hx. intros y [->|Hy]%elem_of_cons; [lia|]. specialize (Hx y Hy). lia. }
  destruct (Hcut _ Hs) as (l1&l2&E&H1&H2). exists l2. rewrite E in Hs. apply StronglySorted_app in Hs as (_&Hs1&_).
  assert (ranks (up_to_rank r sets) = l1) as El1.
  { apply sorted_lt_unique; [done|done|]. intros x. rewrite Hup, E, elem_of_app. split.
    - intros [[?|Hx%H2] ?]; [done|lia].
    - intros Hx. split; [by left|auto]. }
  rewrite El1. done.
Qed.

Lemma tier_of_up_to r r' sets : r' <= r -> tier_of r' (up_to_rank r sets) = tier_of r' sets.
Proof.
  intros Hle. unfold tier_of, up_to_rank. induction sets as [|s l IH]; simpl; [done|].
  destruct (Z.eqb_spec (set_rank s) r') as [<-|Hne].
  - rewrite (proj2 (Z.leb_le _ _)) by done. simpl. by rewrite Z.eqb_refl, IH.
  - destruct (set_rank s <=? r); simpl; [|done]. by rewrite (proj2 (Z.eqb_neq _ _) Hne).
Qed.

(** ** Loops and maps *)

Lemma for_each_ext {A S} (l : list A) (body body' : S -> A -> panics S) s :
  (forall x s, x ∈ l -> body s x = body' s x) -> for_each l body s = for_each l body' s.
Proof.
  revert s. induction l as [|x l IH]; intros s Hb; simpl; [done|]. rewrite Hb by (by left).
  destruct (body' s x); simpl; [|done..]. apply IH. intros y s' Hy. apply Hb. by right.
Qed.

Lemma fill_rest_lookup sets i : forall d, fill_rest sets d !! i =
  match d !! i with Some c => Some c | None => if bool_decide (i ∈ map set_id sets) then Some None else None end.
Proof.
  induction sets as [|s l IH]; intros d; cbn [map].
  - simpl fill_rest. rewrite bool_decide_eq_false_2 by apply not_elem_of_nil. by destruct (d !! i).
  - unfold fill_rest in *. cbn [fold_left]. rewrite IH. destruct (decide (i = set_id s)) as [->|Hne].
    + rewrite (bool_decide_eq_true_2 (set_id s ∈ set_id s :: _)) by (by left).
      destruct (d !! set_id s) eqn:E; [by rewrite E|]. by rewrite lookup_insert_eq.
    + assert (match d !! set_id s with Some _ => d | None => <[set_id s:=None]> d end !! i = d !! i) as ->
        by (destruct (d !! set_id s); [done|by rewrite lookup_insert_ne]).
      destruct (d !! i); [done|]. rewrite (bool_decide_ext (i ∈ set_id s :: map set_id l) (i ∈ map set_id l)); [done|].
      rewrite elem_of_cons. tauto.
Qed.

Section Decide.
Context `{Target} (sets : list SetSnapshot) (budget : Z).
Hypothesis Hsets : Forall snapshot_ok sets.
Hypothesis Hnd : NoDup (map set_id sets).
Hypothesis Hweights : zsum (map set_weight sets) < U64.
Hypothesis Hbudget : 0 <= budget.

Lemma served_ranks : served sets (ranks sets) = List.filter set_active sets.
Proof.
  unfold served. apply filter_ext_in. intros s Hs. rewrite (proj2 (existsb_exists _ _)); [done|].
  exists (set_rank s). split; [|apply Z.eqb_refl]. apply list_elem_of_In, ranks_spec, list_elem_of_In.
  by apply in_map.
Qed.

Lemma allocate_Ok : exists d f, allocate budget sets = Ok d /\
  (forall i, is_Some (d !! i) <-> i ∈ map set_id sets) /\
  (forall s, s ∈ sets -> d !! set_id s = Some (snd <$> f s) /\ chosen s (f s) /\
     (set_active s = false -> f s = None)) /\
  spent f sets <= budget.
Proof.
  destruct (ranks_spec sets) as [Hrs Hin].
  destruct (serve_all_Ok sets Hsets Hnd Hweights (ranks sets) ∅ budget (sorted_lt_NoDup _ Hrs) Hbudget)
    as (f&d&rem&E&Erem&Hrem&Hserved&Hother).
  rewrite served_ranks in *. set (g := fun s => if set_active s then f s else None).
  exists (fill_rest sets d), g. split; [unfold allocate; by rewrite E|].
  assert (forall s, s ∈ sets -> fill_rest sets d !! set_id s = Some (snd <$> g s) /\ chosen s (g s)) as Hg.
  { intros s Hs. rewrite fill_rest_lookup. unfold g. destruct (set_active s) eqn:Ea.
    - destruct (Hserved s) as [-> Hc]; [|done]. by apply in_filter_b.
    - rewrite Hother, lookup_empty.
      + split; [|by intros m]. rewrite bool_decide_eq_true_2; [done|]. apply list_elem_of_fmap. eauto.
      + intros (s'&Eid&[Hs' Ha]%in_filter_b)%list_elem_of_fmap.
        rewrite (unique_id sets Hnd s s') in Ea by done. congruence. }
  split; [|split].
  - intros i. split.
    + rewrite fill_rest_lookup. intros [c Ec]. destruct (decide (i ∈ map set_id sets)) as [|Hn]; [done|].
      rewrite Hother in Ec; [rewrite lookup_empty, bool_decide_eq_false_2 in Ec; done|].
      intros (s&->&[Hs _]%in_filter_b)%list_elem_of_fmap. apply Hn, list_elem_of_fmap. eauto.
    + intros (s&->&Hs)%list_elem_of_fmap. destruct (Hg s Hs) as [-> _]. eauto.
  - intros s Hs. destruct (Hg s Hs). split; [done|]. split; [done|]. unfold g. by intros ->.
  - assert (spent g sets = spent f (List.filter set_active sets)) as ->; [|lia].
    unfold spent, g. clear. induction sets as [|s l IH]; simpl; [done|]. rewrite IH.
    destruct (set_active s); simpl; lia.
Qed.

(** What a set gets does not depend on sets of lower priority. *)
Lemma allocate_priority r : exists d d', allocate budget sets = Ok d /\
  allocate budget (up_to_rank r sets) = Ok d' /\
  forall s, s ∈ sets -> set_rank s <= r -> d !! set_id s = d' !! set_id s.
Proof.
  destruct (ranks_up_to r sets) as (later&E&Hle&Hlt). destruct (ranks_spec sets) as [Hrs _].
  pose proof (sorted_lt_NoDup _ Hrs) as Hndr. rewrite E in Hndr. apply NoDup_app in Hndr as (Hn1&_&Hn2).
  destruct (serve_all_Ok sets Hsets Hnd Hweights (ranks (up_to_rank r sets)) ∅ budget Hn1 Hbudget)
    as (f&d1&rem1&E1&_&Hrem1&_&_).
  destruct (serve_all_Ok sets Hsets Hnd Hweights later d1 rem1 Hn2 Hrem1) as (f2&d2&rem2&E2&_&_&_&Hother).
  exists (fill_rest sets d2), (fill_rest (up_to_rank r sets) d1).
  split; [unfold allocate; by rewrite E, for_each_app, E1; simpl; rewrite E2|]. split.
  { unfold allocate. rewrite (for_each_ext _ _ (fun s rank => serve_tier (tier_of rank sets) s)), E1; [done|].
    intros r' s Hr'%Hle. by rewrite tier_of_up_to. }
  intros s Hs Hr. rewrite !fill_rest_lookup, Hother.
  - destruct (d1 !! set_id s); [done|].
    rewrite !bool_decide_eq_true_2; [done|..]; apply list_elem_of_fmap; exists s; [|done].
    split; [done|]. by apply in_up_to_rank.
  - intros (s'&Eid&(Hs'&Hr'%Hlt&_)%in_served)%list_elem_of_fmap.
    rewrite (unique_id sets Hnd s s') in Hr by done. lia.
Qed.
End Decide.

(** A set of weight zero is served all the same if a member of it needs
    nothing. *)
Lemma zero_weight_served :
  allocate (H:=debug_build) 100 [mkSetSnapshot 1 0 0 0 true [(0, 7)]] = Ok {[1 := Some 7]}.
Proof. vm_compute. reflexivity. Qed.

(** * Properties *)

Definition with_sets (input : AbrInput) (sets : list SetSnapshot) : AbrInput :=
  mkAbrInput (client_id input) (input_group_id input) (bandwidth_estimate_kbps input)
    (configured_cap_kbps input) sets (open_streams_per_set input)
    (stream_timeouts_since_last_decision input).

(** C34: the default allocation keeps its contract.  For any sets with IDs of
    their own whose weights do not overflow, it ends without panicking and
    decides for exactly the sets it was given: each gets nothing or a member of
    its own, a set without a subscriber nothing, and what the chosen members
    need together is no more than the budget, which is within the estimate
    and the cap.  Priority is strict: what sets up to a rank get does not
    depend on the sets below them. *)
Theorem default_allocation `{Target} input :
  let sets := input_sets input in
  let est := bandwidth_estimate_kbps input in
  let cap := configured_cap_kbps input in
  Forall snapshot_ok sets -> NoDup (map set_id sets) -> zsum (map set_weight sets) < U64 ->
  0 <= est -> 0 <= cap ->
  exists d f, default_decide input = Ok d /\
    (forall i, is_Some (d !! i) <-> i ∈ map set_id sets) /\
    (forall s, s ∈ sets -> d !! set_id s = Some (snd <$> f s) /\ chosen s (f s) /\
       (set_active s = false -> f s = None)) /\
    (est <> 0 -> spent f sets <= est) /\ (cap <> 0 -> spent f sets <= cap) /\
    forall r, exists d', default_decide (with_sets input (up_to_rank r sets)) = Ok d' /\
      forall s, s ∈ sets -> set_rank s <= r -> d !! set_id s = d' !! set_id s.
Proof.
  intros sets est cap Hs Hnd Hw Hest Hcap. set (budget := Z.min (budget_kbps input) UNLIMITED_KBPS).
  assert (0 <= budget /\ (est <> 0 -> budget <= est) /\ (cap <> 0 -> budget <= cap)) as (Hb&Hbe&Hbc).
  { unfold budget, budget_kbps. fold est cap. change UNLIMITED_KBPS with 4611686018427387903.
    destruct (Z.eqb_spec est 0), (Z.eqb_spec cap 0); simpl; lia. }
  destruct (allocate_Ok sets budget Hs Hnd Hw Hb) as (d&f&E&Hdom&Hin&Hspent).
  exists d, f. split; [done|]. split; [done|]. split; [done|]. split; [lia|]. split; [lia|]. intros r.
  destruct (allocate_priority sets budget Hs Hnd Hw Hb r) as (d2&d'&E2&E'&Hp).
  rewrite E in E2. injection E2 as <-. by exists d'.
Qed.

(** Two ranks; the first one's sets split 3000 kbps by weight, the saturated one
    leaving 500 to the rest. *)
Definition example_sets : list SetSnapshot :=
  [mkSetSnapshot 1 0 0 6 true [(800, 10); (1600, 11)];
   mkSetSnapshot 2 0 0 4 true [(500, 20); (1000, 21); (2000, 22)];
   mkSetSnapshot 3 0 1 5 true [(300, 30); (900, 31)];
   mkSetSnapshot 4 0 0 5 false [(100, 40)]].
Definition example_input : AbrInput := mkAbrInput 7 1 3000 0 example_sets ∅ 0.

Lemma default_allocation_witness :
  default_decide (H:=debug_build) example_input =
    Ok {[1 := Some 11; 2 := Some 21; 3 := Some 30; 4 := None]} /\
  exists d f, default_decide (H:=debug_build) example_input = Ok d /\
    (forall i, is_Some (d !! i) <-> i ∈ map set_id example_sets) /\
    (3000 <> 0 -> spent f example_sets <= 3000).
Proof.
  split; [vm_compute; reflexivity|].
  destruct (default_allocation (H:=debug_build) example_input) as (d&f&E&Hdom&_&Hest&_).
  - repeat constructor; simpl; lia.
  - apply (bool_decide_unpack _). vm_compute. exact I.
  - vm_compute. reflexivity.
  - simpl. lia.
  - simpl. lia.
  - exists d, f. split; [exact E|]. split; [exact Hdom|exact Hest].
Defined.
