(* ===== verification/Backpressure.v ===== *)
(** The back-pressure algorithm and the registry of algorithms
    ([libs/moqtail-ssts/src/algorithms/backpressure/{mod,state}.rs] and
    [registry.rs]).

    One tier index per connection goes up after five groups in a row without
    congestion and down as soon as streams queue up.  [TierState] is the state
    machine; a group is an [Observation]. *)
From stdpp Require Import gmap.
From S2P Require Import Prelude Ssts.

(** * The state machine ([state.rs]) *)

Definition DEPTH_TARGET : Z := 1.
Definition DOWNSHIFT_DEPTH : Z := 2.
Definition UPSHIFT_GOP_STREAK : Z := 5.
Definition COOLDOWN_HIGH_STREAK : Z := 2.

Record Observation := mkObservation { depth : Z; timed_out : bool }.

Inductive Cause : Type := Cause_Depth | Cause_RisingDepth | Cause_Timeout.

Inductive Event : Type :=
| Held
| CooldownExit
| Upshift (from to : Z)
| Downshift (from to : Z) (cause : Cause).

Record TierState := mkTierState {
  current_index : Z;
  clear_streak : Z;
  post_downshift_depth : option Z;
  cooldown_high_streak : Z
}.

Definition TierState_default : TierState := mkTierState 0 0 None 0.

Definition clamp_to (self : TierState) (max_index : Z) : TierState :=
  mkTierState (Z.min (current_index self) max_index) (clear_streak self) (post_downshift_depth self)
    (cooldown_high_streak self).

(** Runs integer operations that stay in range. *)
Ltac step := unfold add_u64, sub_u64; repeat (rewrite arith_u64_Ok by (unfold is_u64; lia); cbn [obind]).

Section WithTarget.
Context `{Target}.

Definition Observation_new (depth timeouts_since_last : Z) : panics Observation :=
  let? depth := add_u64 depth timeouts_since_last in
  Ok (mkObservation depth (0 <? timeouts_since_last)).

Definition observe_clear (self : TierState) : panics (TierState * Event) :=
  let exited := match post_downshift_depth self with Some _ => true | None => false end in
  let high := if exited then 0 else cooldown_high_streak self in
  let? streak := add_u64 (clear_streak self) 1 in
  if streak <? UPSHIFT_GOP_STREAK then
    Ok (mkTierState (current_index self) streak None high, if exited then CooldownExit else Held)
  else
    let from := current_index self in
    let? to := add_u64 from 1 in
    Ok (mkTierState to 0 None high, Upshift from to).

Definition observe_congested (self : TierState) (depth : Z) : panics (TierState * Event) :=
  if (depth <? DOWNSHIFT_DEPTH) || (current_index self =? 0) then
    Ok (mkTierState (current_index self) 0 (post_downshift_depth self) (cooldown_high_streak self), Held)
  else
    let from := current_index self in
    let? to := sub_u64 from 1 in
    Ok (mkTierState to 0 (Some depth) 0, Downshift from to Cause_Depth).

Definition observe_cooldown (self : TierState) (observation : Observation) (reference : Z)
    : panics (TierState * Event) :=
  let depth := depth observation in
  let index := current_index self in
  if timed_out observation && (0 <? index) then
    let? to := sub_u64 index 1 in
    let? from := add_u64 to 1 in
    Ok (mkTierState to 0 (Some depth) 0, Downshift from to Cause_Timeout)
  else if depth <=? reference then
    Ok (mkTierState index 0 (Some depth) 0, Held)
  else
    let? high := add_u64 (cooldown_high_streak self) 1 in
    if (high <? COOLDOWN_HIGH_STREAK) || (index =? 0) then
      Ok (mkTierState index 0 (Some depth) high, Held)
    else
      let? to := sub_u64 index 1 in
      let? from := add_u64 to 1 in
      Ok (mkTierState to 0 (Some depth) 0, Downshift from to Cause_RisingDepth).

Definition observe (self : TierState) (observation : Observation) : panics (TierState * Event) :=
  if depth observation <=? DEPTH_TARGET then observe_clear self
  else match post_downshift_depth self with
       | Some reference => observe_cooldown self observation reference
       | None => observe_congested self (depth observation)
       end.

(** * The algorithm ([mod.rs]) *)

Definition usize_max (l : list Z) : option Z :=
  match l with [] => None | x :: l => Some (fold_left Z.max l x) end.

Definition max_index (sets : list SetSnapshot) : Z :=
  saturating_sub (default 1 (usize_max (map (fun set => Z.of_nat (length (set_members set))) sets))) 1.

Definition select_tier (tier : Z) (set : SetSnapshot) : option Z :=
  let len := Z.of_nat (length (set_members set)) in
  if set_active set && negb (len =? 0)
  then snd <$> set_members set !! Z.to_nat (Z.min tier (len - 1))
  else None.

(** [.collect()] into the hash map: of two sets with an ID the later stays. *)
Definition collect_selection (f : SetSnapshot -> option Z) (sets : list SetSnapshot) : Selection :=
  fold_left (fun d set => <[set_id set := f set]> d) sets ∅.

(** [BackpressureAlgorithm::decide]. *)
Definition backpressure_decide (self : TierState) (input : AbrInput) : panics (TierState * Selection) :=
  let? d := active_stream_depth input in
  let? observation := Observation_new d (stream_timeouts_since_last_decision input) in
  let? r := observe self observation in
  let state := clamp_to (fst r) (max_index (input_sets input)) in
  Ok (state, collect_selection (select_tier (current_index state)) (input_sets input)).

(** * The registry ([registry.rs]) *)

Definition PRIVATE_ALGORITHM_ID_BASE : Z := 0xff01.
Definition BACKPRESSURE_ALGORITHM_ID : Z := PRIVATE_ALGORITHM_ID_BASE.

(** An instance of an algorithm: the default one has no state. *)
Inductive AbrAlgorithm : Type :=
| DefaultAlgorithm
| BackpressureAlgorithm (state : TierState).

Definition registry_factories : list (Z * AbrAlgorithm) :=
  [(0, DefaultAlgorithm); (BACKPRESSURE_ALGORITHM_ID, BackpressureAlgorithm TierState_default)].
Definition registry_ids : list Z := map fst registry_factories.
Definition registry_create (id : Z) : option AbrAlgorithm :=
  snd <$> List.find (fun f => fst f =? id) registry_factories.

(** [AbrAlgorithm::decide]. *)
Definition algorithm_decide (self : AbrAlgorithm) (input : AbrInput) : panics (AbrAlgorithm * Selection) :=
  match self with
  | DefaultAlgorithm => let? d := default_decide input in Ok (DefaultAlgorithm, d)
  | BackpressureAlgorithm state =>
      let? r := backpressure_decide state input in Ok (BackpressureAlgorithm (fst r), snd r)
  end.

(** * Lemmas on the state machine *)

(** The streak below five, and in the settle-down period no more rises of the
    depth than the depth. *)
Record state_ok (st : TierState) : Prop := {
  st_index : 0 <= current_index st < U64 - 1;
  st_streak : 0 <= clear_streak st < UPSHIFT_GOP_STREAK;
  st_high : 0 <= cooldown_high_streak st;
  st_depth : match post_downshift_depth st with
             | Some d => cooldown_high_streak st <= d < U64
             | None => cooldown_high_streak st = 0
             end
}.

(** What one group does to the tier. *)
Definition moves (st : TierState) (o : Observation) (st' : TierState) (e : Event) : Prop :=
  match e with
  | Held => current_index st' = current_index st
  | CooldownExit => current_index st' = current_index st /\ depth o <= DEPTH_TARGET /\
      post_downshift_depth st <> None
  | Upshift from to => from = current_index st /\ to = from + 1 /\ current_index st' = to /\
      depth o <= DEPTH_TARGET /\ clear_streak st = UPSHIFT_GOP_STREAK - 1
  | Downshift from to cause => from = current_index st /\ to = from - 1 /\ 0 <= to /\ current_index st' = to /\
      DOWNSHIFT_DEPTH <= depth o /\
      match cause with
      | Cause_Depth => post_downshift_depth st = None
      | Cause_RisingDepth => exists d, post_downshift_depth st = Some d /\ d < depth o
      | Cause_Timeout => post_downshift_depth st <> None /\ timed_out o = true
      end
  end.

Lemma observe_Ok st o : state_ok st -> 0 <= depth o < U64 ->
  exists st' e, observe st o = Ok (st', e) /\ moves st o st' e /\
    (forall m, 0 <= m < U64 - 1 -> state_ok (clamp_to st' m)) /\
    clear_streak st' = (if depth o <=? DEPTH_TARGET
                        then match e with Upshift _ _ => 0 | _ => clear_streak st + 1 end else 0).
Proof.
  intros [Hi Hs Hh Hd] Ho. unfold observe, UPSHIFT_GOP_STREAK, DEPTH_TARGET in *.
  destruct (Z.leb_spec (depth o) 1) as [Hclear|Hcong].
  - unfold observe_clear, UPSHIFT_GOP_STREAK. step. destruct (Z.ltb_spec (clear_streak st + 1) 5).
    + eexists _, _. split; [done|]. destruct (post_downshift_depth st) eqn:Ep; simpl.
      * rewrite Ep. split; [by unfold DEPTH_TARGET|]. split; [intros m Hm; split; simpl; unfold UPSHIFT_GOP_STREAK; lia|done].
      * split; [done|]. split; [intros m Hm; split; simpl; unfold UPSHIFT_GOP_STREAK; lia|done].
    + step. eexists _, _. split; [done|]. simpl. split; [unfold DEPTH_TARGET, UPSHIFT_GOP_STREAK; repeat split; lia|].
      split; [|done]. intros m Hm. split; simpl; unfold UPSHIFT_GOP_STREAK; try lia; destruct (post_downshift_depth st); lia.
  - destruct (post_downshift_depth st) as [ref|] eqn:Ep.
    + unfold observe_cooldown, COOLDOWN_HIGH_STREAK.
      destruct (timed_out o && (0 <? current_index st)) eqn:Et.
      { breflect. step. eexists _, _. split; [done|]. simpl. rewrite Ep. unfold DOWNSHIFT_DEPTH.
        split; [repeat split; (done || lia)|]. split; [|done]. intros m Hm. split; simpl; unfold UPSHIFT_GOP_STREAK; lia. }
      destruct (Z.leb_spec (depth o) ref).
      { eexists _, _. split; [done|]. split; [done|]. split; [|done]. intros m Hm. split; simpl; unfold UPSHIFT_GOP_STREAK; lia. }
      step. destruct ((cooldown_high_streak st + 1 <? 2) || (current_index st =? 0)) eqn:Eh.
      { eexists _, _. split; [done|]. split; [done|]. split; [|done]. intros m Hm. split; simpl; unfold UPSHIFT_GOP_STREAK; lia. }
      breflect. step. eexists _, _. split; [done|]. simpl. rewrite Ep. unfold DOWNSHIFT_DEPTH. split.
      { repeat split; try lia. eauto. }
      split; [|done]. intros m Hm. split; simpl; unfold UPSHIFT_GOP_STREAK; lia.
    + unfold observe_congested, DOWNSHIFT_DEPTH. destruct ((depth o <? 2) || (current_index st =? 0)) eqn:Eh.
      { eexists _, _. split; [done|]. split; [done|]. split; [|done]. intros m Hm.
        split; simpl; unfold UPSHIFT_GOP_STREAK; try rewrite Ep; lia. }
      breflect. step. eexists _, _. split; [done|]. simpl. unfold DOWNSHIFT_DEPTH.
      split; [repeat split; (done || lia)|]. split; [|done]. intros m Hm. split; simpl; unfold UPSHIFT_GOP_STREAK; lia.
Qed.
End WithTarget.

(** * Lemmas on decisions *)

(** What an input amounts to. *)
Definition depth_of (input : AbrInput) : Z :=
  zsum (map (fun set => open_streams input (set_id set)) (List.filter set_active (input_sets input))) +
  stream_timeouts_since_last_decision input.

Record input_ok (input : AbrInput) : Prop := {
  in_streams : forall i n, open_streams_per_set input !! i = Some n -> 0 <= n;
  in_timeouts : 0 <= stream_timeouts_since_last_decision input;
  in_depth : depth_of input < U64;
  in_ladders : max_index (input_sets input) < U64 - 1;
  in_ids : NoDup (map set_id (input_sets input))
}.

(** A ladder's top, or 0. *)
Lemma max_index_bound sets set : set ∈ sets ->
  Z.of_nat (length (set_members set)) - 1 <= max_index sets.
Proof.
  intros Hs. unfold max_index, saturating_sub.
  assert (forall l x y, (y ∈ x :: l -> y <= fold_left Z.max l x)) as Hmax.
  { induction l as [|z l IH]; intros x y Hy; simpl; [apply list_elem_of_singleton in Hy as ->; lia|].
    apply elem_of_cons in Hy as [->|[->|Hy]%elem_of_cons].
    - etrans; [|apply IH; by left]. lia.
    - etrans; [|apply IH; by left]. lia.
    - apply IH. by right. }
  destruct sets as [|s0 sets]; [by apply elem_of_nil in Hs|]. simpl usize_max. simpl default.
  pose proof (Hmax (map (fun set => Z.of_nat (length (set_members set))) sets)
    (Z.of_nat (length (set_members s0))) (Z.of_nat (length (set_members set)))) as Hm.
  assert (Z.of_nat (length (set_members set)) <= fold_left Z.max
    (map (fun set => Z.of_nat (length (set_members set))) sets) (Z.of_nat (length (set_members s0)))); [|lia].
  apply Hm. apply elem_of_cons in Hs as [->|Hs]; [by left|]. right. apply list_elem_of_fmap. eauto.
Qed.
Lemma max_index_nonneg sets : 0 <= max_index sets.
Proof. unfold max_index, saturating_sub. lia. Qed.

Lemma collect_selection_lookup f sets : NoDup (map set_id sets) ->
  (forall s, s ∈ sets -> collect_selection f sets !! set_id s = Some (f s)) /\
  forall i, i ∉ map set_id sets -> collect_selection f sets !! i = None.
Proof.
  intros Hnd. unfold collect_selection.
  assert (forall (sets : list SetSnapshot) (d : Selection), NoDup (map set_id sets) ->
    (forall s, s ∈ sets -> fold_left (fun d set => <[set_id set := f set]> d) sets d !! set_id s = Some (f s)) /\
    forall i, i ∉ map set_id sets -> fold_left (fun d set => <[set_id set := f set]> d) sets d !! i = d !! i)
    as Hgen; [|split; [apply Hgen; done|intros i Hi; rewrite (proj2 (Hgen sets ∅ Hnd) i Hi); apply lookup_empty]].
  clear. induction sets as [|s sets IH]; intros d Hnd; cbn [fold_left map] in *; [split; [by intros s ?%elem_of_nil|done]|].
  apply NoDup_cons in Hnd as [Hn Hnd]. destruct (IH (<[set_id s := f s]> d) Hnd) as [IH1 IH2]. split.
  - intros s' [->|Hs]%elem_of_cons; [|auto]. rewrite IH2 by done. apply lookup_insert_eq.
  - intros i [Hne Hi]%not_elem_of_cons. rewrite IH2 by done. by rewrite lookup_insert_ne.
Qed.

Section Runs.
Context `{Target}.

(** The groups of a connection, one after the other. *)
Fixpoint decides (st : TierState) (inputs : list AbrInput) : panics TierState :=
  match inputs with
  | [] => Ok st
  | input :: inputs => let? r := backpressure_decide st input in decides (fst r) inputs
  end.

Lemma decides_app st l l' : decides st (l ++ l') = let? st' := decides st l in decides st' l'.
Proof.
  revert st. induction l as [|i l IH]; intros st; simpl; [done|].
  destruct (backpressure_decide st i); simpl; auto.
Qed.

Lemma depth_of_nonneg input : input_ok input -> 0 <= depth_of input.
Proof.
  intros [Hs Ht _ _ _]. unfold depth_of, open_streams.
  assert (0 <= zsum (map (fun set => default 0 (open_streams_per_set input !! set_id set))
    (List.filter set_active (input_sets input)))); [|lia].
  apply zsum_nonneg. rewrite Forall_map. apply Forall_true. intros s.
  destruct (open_streams_per_set input !! set_id s) eqn:E; simpl; [by eapply Hs|done].
Qed.

Lemma decide_observes st input : input_ok input ->
  backpressure_decide st input =
  (let? r := observe st (mkObservation (depth_of input) (0 <? stream_timeouts_since_last_decision input)) in
   let state := clamp_to (fst r) (max_index (input_sets input)) in
   Ok (state, collect_selection (select_tier (current_index state)) (input_sets input))).
Proof.
  intros Hok. pose proof (depth_of_nonneg _ Hok). destruct Hok as [Hs Ht Hd _ _]. unfold backpressure_decide, active_stream_depth.
  assert (Forall (fun x => 0 <= x) (map (fun set => open_streams input (set_id set))
    (List.filter set_active (input_sets input)))) as Hpos.
  { rewrite Forall_map. apply Forall_true. intros s. unfold open_streams.
    destruct (open_streams_per_set input !! set_id s) eqn:E; simpl; [by eapply Hs|done]. }
  pose proof (zsum_nonneg _ Hpos). unfold depth_of in *. rewrite sum_u64_Ok by (done || lia). cbn [obind].
  unfold Observation_new, add_u64. by rewrite arith_u64_Ok by (unfold is_u64; lia).
Qed.

(** A decision: the tier moves by the machine and stays on the ladders. *)
Lemma decide_Ok st input : state_ok st -> input_ok input ->
  exists st' d e st1, backpressure_decide st input = Ok (st', d) /\
    moves st (mkObservation (depth_of input) (0 <? stream_timeouts_since_last_decision input)) st1 e /\
    current_index st' = Z.min (current_index st1) (max_index (input_sets input)) /\
    clear_streak st' = (if depth_of input <=? DEPTH_TARGET
                        then match e with Upshift _ _ => 0 | _ => clear_streak st + 1 end else 0) /\
    post_downshift_depth st' = post_downshift_depth st1 /\ state_ok st' /\
    d = collect_selection (select_tier (current_index st')) (input_sets input).
Proof.
  intros Hst Hok. rewrite decide_observes by done. pose proof (depth_of_nonneg _ Hok) as Hd0.
  pose proof (in_depth _ Hok) as Hd1. pose proof (in_ladders _ Hok) as Hm. pose proof (max_index_nonneg (input_sets input)).
  set (o := mkObservation _ _). destruct (observe_Ok st o Hst (conj Hd0 Hd1)) as (st1&e&->&Hmv&Hok1&Hcl).
  cbn [obind fst]. eexists _, _, e, st1. split; [done|]. split; [done|]. split; [done|]. split; [done|].
  split; [done|]. split; [|done].
  apply Hok1. lia.
Qed.

(** The machine after some groups: what the streak counts. *)
Definition run_ok (history : list AbrInput) (st : TierState) : Prop :=
  state_ok st /\ (Z.to_nat (clear_streak st) <= length history)%nat /\
  forall x, x ∈ take (Z.to_nat (clear_streak st)) (rev history) -> depth_of x <= DEPTH_TARGET.

Lemma default_ok : state_ok TierState_default.
Proof. split; simpl; unfold UPSHIFT_GOP_STREAK; lia. Qed.

Lemma decide_run_ok history st input : run_ok history st -> input_ok input ->
  exists st' d, backpressure_decide st input = Ok (st', d) /\ run_ok (history ++ [input]) st'.
Proof.
  intros (Hst&Hlen&Hall) Hok. destruct (decide_Ok st input Hst Hok) as (st'&d&e&st1&E&Hmv&_&Hcl&_&Hst'&_).
  exists st', d. split; [done|]. split; [done|]. rewrite length_app, rev_app_distr. simpl.
  pose proof (st_streak _ Hst) as Hs0. destruct (Z.leb_spec (depth_of input) DEPTH_TARGET) as [Hclear|_].
  - assert (clear_streak st' = 0 \/ clear_streak st' = clear_streak st + 1) as [->|Hs]
      by (rewrite Hcl; destruct e; auto); [split; [simpl; lia|by intros x ?%elem_of_nil]|].
    rewrite Hs. replace (Z.to_nat (clear_streak st + 1)) with (S (Z.to_nat (clear_streak st))) by lia.
    split; [lia|]. simpl. intros x [->|Hx]%elem_of_cons; auto.
  - rewrite Hcl. split; [simpl; lia|]. by intros x ?%elem_of_nil.
Qed.

Lemma decides_run_ok history : Forall input_ok history ->
  exists st, decides TierState_default history = Ok st /\ run_ok history st.
Proof.
  induction history as [|i h IH] using rev_ind; intros Hh.
  - eexists. split; [done|]. split; [apply default_ok|]. split; [simpl; lia|]. by intros x ?%elem_of_nil.
  - apply Forall_app in Hh as [Hh Hi]. apply Forall_cons in Hi as [Hi _]. destruct (IH Hh) as (st&E&Hok).
    destruct (decide_run_ok h st i Hok Hi) as (st'&d&Ed&Hok'). exists st'. split; [|done].
    rewrite decides_app, E. simpl. by rewrite Ed.
Qed.

(** Clear groups: the tier is kept, as far as the ladders reach, and goes up
    when the streak is full. *)
Lemma decides_clear m inputs : forall st, state_ok st ->
  Forall (fun x => input_ok x /\ depth_of x <= DEPTH_TARGET /\ m <= max_index (input_sets x)) inputs ->
  exists st', decides st inputs = Ok st' /\ Z.min (current_index st) m <= current_index st' /\
    (UPSHIFT_GOP_STREAK <= clear_streak st + Z.of_nat (length inputs) ->
     Z.min (current_index st + 1) m <= current_index st').
Proof.
  induction inputs as [|i l IH]; intros st Hst Hl; cbn [decides].
  - exists st. split; [done|]. split; [lia|]. pose proof (st_streak _ Hst). simpl. unfold UPSHIFT_GOP_STREAK in *. lia.
  - apply Forall_cons in Hl as [(Hok&Hc&Hm) Hl].
    destruct (decide_Ok st i Hst Hok) as (st'&d&e&st1&->&Hmv&Hidx&Hcl&_&Hst'&_). cbn [obind fst].
    rewrite (proj2 (Z.leb_le _ _) Hc) in Hcl.
    destruct (IH st' Hst' Hl) as (st2&->&H1&H2). exists st2. split; [done|].
    assert (current_index st <= current_index st1 /\
      (clear_streak st' = 0 /\ current_index st1 = current_index st + 1 \/
       clear_streak st' = clear_streak st + 1)) as [Hge Hor].
    { destruct e; simpl in Hmv; try lia. unfold DEPTH_TARGET, DOWNSHIFT_DEPTH in *. lia. }
    split; [lia|]. intros Hsum. simpl length in Hsum. rewrite Nat2Z.inj_succ in Hsum.
    destruct Hor as [[_ Hup]|Hs]; [lia|]. specialize (H2 ltac:(lia)). lia.
Qed.

(** A group that lost a stream while streams queue up. *)
Lemma observe_drops st o : state_ok st -> 0 <= depth o < U64 -> DOWNSHIFT_DEPTH <= depth o ->
  timed_out o = true -> 0 < current_index st ->
  exists st' e, observe st o = Ok (st', e) /\ current_index st' = current_index st - 1.
Proof.
  intros [Hi _ _ _] Ho Hd Ht Hidx. unfold observe, DOWNSHIFT_DEPTH, DEPTH_TARGET in *.
  destruct (Z.leb_spec (depth o) 1); [lia|]. destruct (post_downshift_depth st).
  - unfold observe_cooldown. rewrite Ht, (proj2 (Z.ltb_lt _ _) Hidx). simpl. step. by eexists _, _.
  - unfold observe_congested, DOWNSHIFT_DEPTH. rewrite (proj2 (Z.ltb_ge _ _) Hd), (proj2 (Z.eqb_neq _ _)) by lia.
    simpl. step. by eexists _, _.
Qed.

Lemma decides_congested inputs : forall st, state_ok st ->
  Forall (fun x => input_ok x /\ DOWNSHIFT_DEPTH <= depth_of x /\
    0 < stream_timeouts_since_last_decision x) inputs ->
  exists st', decides st inputs = Ok st' /\
    current_index st' <= Z.max 0 (current_index st - Z.of_nat (length inputs)).
Proof.
  induction inputs as [|i l IH]; intros st Hst Hl; cbn [decides].
  - exists st. split; [done|]. pose proof (st_index _ Hst). simpl. lia.
  - apply Forall_cons in Hl as [(Hok&Hd&Ht) Hl].
    destruct (decide_Ok st i Hst Hok) as (st'&d&e&st1&E&Hmv&Hidx&_&_&Hst'&_).
    assert (current_index st' <= Z.max 0 (current_index st - 1)) as Hle.
    { destruct (Z.lt_ge_cases 0 (current_index st)) as [Hpos|Hz].
      - pose proof (decide_observes st i Hok) as E'.
        destruct (observe_drops st (mkObservation (depth_of i) (0 <? stream_timeouts_since_last_decision i)))
          as (st2&e2&E2&Hi2); [done|split; [by apply depth_of_nonneg|apply Hok]|done|by apply Z.ltb_lt|done|].
        rewrite E, E2 in E'. cbn [obind fst] in E'. injection E' as -> _. simpl. lia.
      - unfold DOWNSHIFT_DEPTH, DEPTH_TARGET in *. destruct e; simpl in Hmv; unfold DEPTH_TARGET in *; lia. }
    rewrite E. cbn [obind fst]. destruct (IH st' Hst' Hl) as (st2&->&H2). exists st2. split; [done|].
    simpl length. rewrite Nat2Z.inj_succ. lia.
Qed.
End Runs.

(** One set of two encodings: a group without streams left over, and one that
    lost a stream with another still open. *)
Definition clear_group : AbrInput :=
  mkAbrInput 7 1 0 0 [mkSetSnapshot 1 0 0 1 true [(500, 10); (900, 11)]] ∅ 0.
Definition lossy_group : AbrInput :=
  mkAbrInput 7 1 0 0 [mkSetSnapshot 1 0 0 1 true [(500, 10); (900, 11)]] {[1 := 1]} 1.

Lemma clear_group_ok : input_ok clear_group.
Proof.
  split; simpl; try (vm_compute; congruence). apply NoDup_singleton.
Qed.
Lemma lossy_group_ok : input_ok lossy_group.
Proof.
  split; simpl; try (vm_compute; congruence).
  - intros i n [_ <-]%lookup_singleton_Some. lia.
  - apply NoDup_singleton.
Qed.

(** * Properties *)

(** C35: the back-pressure algorithm keeps its contract.  After any groups a
    connection has seen, a decision does not panic and decides for exactly the
    sets given: a set with a subscriber and members forwards its member at the
    tier, or its top one if its ladder is shorter, and any other set nothing.
    The tier stays on the longest ladder, rises by at most one, only after five
    groups in a row without congestion, and never in a group of depth two or
    more. *)
Theorem backpressure_contract `{Target} history input :
  Forall input_ok history -> input_ok input ->
  exists st st' d, decides TierState_default history = Ok st /\
    backpressure_decide st input = Ok (st', d) /\
    (forall i, is_Some (d !! i) <-> i ∈ map set_id (input_sets input)) /\
    (forall s, s ∈ input_sets input ->
       if set_active s && negb (Nat.eqb (length (set_members s)) 0)
       then exists m, set_members s !! Z.to_nat (Z.min (current_index st') (Z.of_nat (length (set_members s)) - 1))
                        = Some m /\ d !! set_id s = Some (Some (snd m))
       else d !! set_id s = Some None) /\
    0 <= current_index st' <= max_index (input_sets input) /\ current_index st' <= current_index st + 1 /\
    (current_index st < current_index st' -> (4 <= length history)%nat /\
       forall x, x ∈ input :: take 4 (rev history) -> depth_of x <= 1) /\
    (2 <= depth_of input -> current_index st' <= current_index st).
Proof.
  intros Hh Hok. destruct (decides_run_ok history Hh) as (st&E&Hst&Hlen&Hall).
  destruct (decide_Ok st input Hst Hok) as (st'&d&e&st1&Ed&Hmv&Hidx&Hcl&_&Hst'&->).
  exists st, st', (collect_selection (select_tier (current_index st')) (input_sets input)).
  pose proof (in_ids _ Hok) as Hnd. destruct (collect_selection_lookup (select_tier (current_index st')) _ Hnd) as [Hin Hout].
  pose proof (st_index _ Hst') as Hi'. split; [done|]. split; [done|]. split; [|split; [|split; [|split; [|split]]]].
  - intros i. split.
    + intros Hs. destruct (decide (i ∈ map set_id (input_sets input))) as [|Hn]; [done|].
      rewrite Hout in Hs by done. by destruct Hs.
    + intros (s&->&Hs)%list_elem_of_fmap. rewrite Hin by done. eauto.
  - intros s Hs. rewrite Hin by done. unfold select_tier.
    destruct (Nat.eqb_spec (length (set_members s)) 0) as [El|El].
    + rewrite El. simpl. by rewrite !andb_false_r.
    + rewrite (proj2 (Z.eqb_neq _ _)) by lia. destruct (set_active s); simpl; [|done].
      destruct (lookup_lt_is_Some_2 (set_members s)
        (Z.to_nat (Z.min (current_index st') (Z.of_nat (length (set_members s)) - 1)))) as [m Em]; [lia|].
      exists m. rewrite Em. done.
  - pose proof (max_index_nonneg (input_sets input)). lia.
  - destruct e; simpl in Hmv; lia.
  - intros Hup. destruct e as [| |from to|from to c]; simpl in Hmv; try lia.
    destruct Hmv as (_&_&_&Hc&Hs). unfold UPSHIFT_GOP_STREAK in Hs. rewrite Hs in Hlen, Hall.
    change (Z.to_nat (5 - 1)) with 4%nat in *. split; [done|].
    intros x [->|Hx]%elem_of_cons; [done|by apply Hall].
  - intros Hd. destruct e; simpl in Hmv; unfold DEPTH_TARGET in *; lia.
Qed.

Lemma backpressure_contract_witness :
  let history := [clear_group; clear_group; clear_group; clear_group] in
  Forall input_ok history /\ input_ok clear_group /\
  exists st st' d, decides (H:=debug_build) TierState_default history = Ok st /\
    backpressure_decide (H:=debug_build) st clear_group = Ok (st', d) /\
    (current_index st < current_index st' -> (4 <= length history)%nat /\
       forall x, x ∈ clear_group :: take 4 (rev history) -> depth_of x <= 1).
Proof.
  intros history. assert (Forall input_ok history) as Hh by (repeat (apply List.Forall_cons; [apply clear_group_ok|]); apply List.Forall_nil).
  split; [exact Hh|]. split; [exact clear_group_ok|].
  destruct (backpressure_contract (H:=debug_build) history clear_group Hh clear_group_ok)
    as (st&st'&d&E&Ed&_&_&_&_&Hup&_).
  exists st, st', d. split; [exact E|]. split; [exact Ed|exact Hup].
Defined.

(** C36: the algorithm responds.  Whatever a connection has seen, five groups
    in a row of depth one at most take the tier up by one at least, as far as
    the ladders reach; and in a row of groups that lost a stream and have depth two or
    more, each takes it down by one at least, to the lowest.  The depth counts the streams
    lost with those that are open: one lost stream and none open is no congestion
    ([one_loss_is_clear]). *)
Theorem backpressure_responds `{Target} history inputs m :
  Forall input_ok history -> Forall input_ok inputs ->
  exists st st', decides TierState_default history = Ok st /\
    decides TierState_default (history ++ inputs) = Ok st' /\
    ((5 <= length inputs)%nat ->
     (forall x, x ∈ inputs -> depth_of x <= 1 /\ m <= max_index (input_sets x)) ->
     Z.min (current_index st + 1) m <= current_index st') /\
    ((forall x, x ∈ inputs -> 2 <= depth_of x /\ 0 < stream_timeouts_since_last_decision x) ->
     current_index st' <= Z.max 0 (current_index st - Z.of_nat (length inputs))).
Proof.
  intros Hh Hi. destruct (decides_run_ok history Hh) as (st&E&Hst&_).
  destruct (decides_run_ok (history ++ inputs)) as (st'&E'&_); [by apply Forall_app|].
  exists st, st'. split; [done|]. split; [done|]. rewrite decides_app, E in E'. simpl in E'.
  rewrite Forall_forall in Hi. split.
  - intros Hlen Hall. destruct (decides_clear m inputs st Hst) as (st2&E2&_&Hup).
    { apply Forall_forall. intros x Hx. destruct (Hall x Hx). split; [auto|]. by split. }
    rewrite E2 in E'. injection E' as <-. apply Hup. pose proof (st_streak _ Hst). unfold UPSHIFT_GOP_STREAK. lia.
  - intros Hall. destruct (decides_congested inputs st Hst) as (st2&E2&Hdown).
    { apply Forall_forall. intros x Hx. destruct (Hall x Hx). split; [auto|]. by split. }
    rewrite E2 in E'. by injection E' as <-.
Qed.

Lemma backpressure_responds_witness :
  let five := [clear_group; clear_group; clear_group; clear_group; clear_group] in
  exists st st', decides (H:=debug_build) TierState_default five = Ok st /\
    decides (H:=debug_build) TierState_default (five ++ [lossy_group]) = Ok st' /\
    current_index st = 1 /\ current_index st' = 0.
Proof.
  intros five. assert (Forall input_ok five) as Hf by (repeat (apply List.Forall_cons; [apply clear_group_ok|]); apply List.Forall_nil).
  destruct (backpressure_responds (H:=debug_build) five [lossy_group] 1 Hf) as (st&st'&E&E'&_&Hd).
  - apply List.Forall_cons; [apply lossy_group_ok|apply List.Forall_nil].
  - exists st, st'. split; [exact E|]. split; [exact E'|].
    vm_compute in E. injection E as <-. vm_compute in E'. injection E' as <-. split; reflexivity.
Defined.
(** One stream lost and none open: the group counts as clear. *)
Definition one_lost : AbrInput :=
  mkAbrInput 7 1 0 0 [mkSetSnapshot 1 0 0 1 true [(500, 10); (900, 11)]] ∅ 1.
Example one_loss_is_clear :
  match decides (H:=debug_build) TierState_default [clear_group; clear_group; clear_group; clear_group; clear_group; one_lost] with Ok st => current_index st = 1 | _ => False end /\
  depth_of one_lost = 1.
Proof. vm_compute. split; reflexivity. Qed.
