(* ===== verification/SwitchingSet.v ===== *)
(** The switching sets of a connection
    ([apps/relay/src/server/ssts/switching_set.rs]).

    A set holds tracks of one content at rising throughput thresholds.  The
    manager keeps the sets, which set a track is in (by name and by relay track
    ID), the streams open on each set, and a counter by which others notice a
    change.  The hash maps are [gmap]s and the set of holders a [gset]; the
    warnings of an update are kept without their text. *)
From stdpp Require Import gmap.
From S2P Require Import Prelude TrackName Ssts.

Inductive SwitchingSetError : Type := TrackInDifferentSet | TrackNotInSet.

Record SwitchingSetMember := mkMember {
  full_track_name : FullTrackName;
  relay_track_id : Z;
  throughput_threshold_kbps : Z;
  member_request_id : Z;
  holders : gset Z
}.

Record SwitchingSet := mkSwitchingSet {
  ss_id : Z;
  ss_algorithm_id : Z;
  ss_members : list SwitchingSetMember;
  ss_weight : Z;
  ss_activate : Z;
  ss_rank : Z
}.

Definition is_active (self : SwitchingSet) : bool :=
  (0 <? ss_activate self) && (ss_activate self <=? Z.of_nat (length (ss_members self))).

Definition SetSnapshot_from (set : SwitchingSet) : SetSnapshot :=
  mkSetSnapshot (ss_id set) (ss_algorithm_id set) (ss_rank set) (ss_weight set) (is_active set)
    (map (fun m => (throughput_threshold_kbps m, relay_track_id m)) (ss_members set)).

Record SwitchingSetManager := mkManager {
  sets : gmap Z SwitchingSet;
  track_to_set : gmap FullTrackName Z;
  relay_track_to_set : gmap Z Z;
  open_counts : gmap Z Z;
  epoch : Z
}.

Definition SwitchingSetManager_new : SwitchingSetManager := mkManager ∅ ∅ ∅ ∅ 0.

(** [AtomicU64::fetch_add] wraps. *)
Definition bump_epoch (epoch : Z) : Z := wrap64 (epoch + 1).

Definition note_stream_opened `{Target} (self : SwitchingSetManager) (relay_track_id : Z)
    : panics SwitchingSetManager :=
  match relay_track_to_set self !! relay_track_id with
  | Some set_id =>
      let? count := add_u64 (default 0 (open_counts self !! set_id)) 1 in
      Ok (mkManager (sets self) (track_to_set self) (relay_track_to_set self)
            (<[set_id := count]> (open_counts self)) (epoch self))
  | None => Ok self
  end.

Definition note_stream_closed (self : SwitchingSetManager) (relay_track_id : Z) : SwitchingSetManager :=
  match relay_track_to_set self !! relay_track_id with
  | None => self
  | Some set_id =>
      match open_counts self !! set_id with
      | None => self
      | Some count =>
          let count := saturating_sub count 1 in
          mkManager (sets self) (track_to_set self) (relay_track_to_set self)
            (if count =? 0 then delete set_id (open_counts self) else <[set_id := count]> (open_counts self))
            (epoch self)
      end
  end.

(** [members.iter().find(|m| m.full_track_name == name)]. *)
Definition find_member (name : FullTrackName) (members : list SwitchingSetMember) : option SwitchingSetMember :=
  List.find (fun m => bool_decide (full_track_name m = name)) members.

(** Writing through the reference that [iter_mut().find(..)] gives. *)
Fixpoint write_member (name : FullTrackName) (x : SwitchingSetMember) (members : list SwitchingSetMember)
    : list SwitchingSetMember :=
  match members with
  | [] => []
  | m :: rest => if bool_decide (full_track_name m = name) then x :: rest else m :: write_member name x rest
  end.

(** Replace or insert the member; the previous relay track ID, if any. *)
Definition put_member (x : SwitchingSetMember) (members : list SwitchingSetMember)
    : list SwitchingSetMember * option Z :=
  match find_member (full_track_name x) members with
  | Some existing =>
      (write_member (full_track_name x)
         (mkMember (full_track_name x) (relay_track_id x) (throughput_threshold_kbps x) (member_request_id x)
            (holders x ∪ holders existing)) members, Some (relay_track_id existing))
  | None => (members ++ [x], None)
  end.

Definition sort_members : list SwitchingSetMember -> list SwitchingSetMember :=
  sort_by_key throughput_threshold_kbps.

Definition assign (self : SwitchingSetManager) (full_track_name : FullTrackName)
    (relay_track_id request_id switching_set_id algorithm_id throughput_threshold_kbps weight activate rank : Z)
    : outcome SwitchingSetError SwitchingSetManager :=
  let assign_in :=
    let set := default (mkSwitchingSet switching_set_id algorithm_id [] weight activate rank)
                 (sets self !! switching_set_id) in
    let '(members, previous) :=
      put_member (mkMember full_track_name relay_track_id throughput_threshold_kbps request_id {[request_id]})
        (ss_members set) in
    let set := mkSwitchingSet (ss_id set) algorithm_id (sort_members members) weight activate rank in
    let relay :=
      match previous with
      | Some previous => if negb (previous =? relay_track_id) then delete previous (relay_track_to_set self)
                         else relay_track_to_set self
      | None => relay_track_to_set self
      end in
    mkManager (<[switching_set_id := set]> (sets self)) (<[full_track_name := switching_set_id]> (track_to_set self))
      (<[relay_track_id := switching_set_id]> relay) (open_counts self) (bump_epoch (epoch self)) in
  match track_to_set self !! full_track_name with
  | Some existing => if negb (existing =? switching_set_id) then Err TrackInDifferentSet else Ok assign_in
  | None => Ok assign_in
  end.

Definition remove (self : SwitchingSetManager) (name : FullTrackName) : SwitchingSetManager :=
  match track_to_set self !! name with
  | None => self
  | Some set_id =>
      let track_to_set := delete name (track_to_set self) in
      let epoch := bump_epoch (epoch self) in
      match sets self !! set_id with
      | None => mkManager (sets self) track_to_set (relay_track_to_set self) (open_counts self) epoch
      | Some set =>
          let relay :=
            match find_member name (ss_members set) with
            | Some m => delete (relay_track_id m) (relay_track_to_set self)
            | None => relay_track_to_set self
            end in
          let members := List.filter (fun m => negb (bool_decide (full_track_name m = name))) (ss_members set) in
          match members with
          | [] => mkManager (delete set_id (sets self)) track_to_set relay (delete set_id (open_counts self)) epoch
          | _ =>
              mkManager
                (<[set_id := mkSwitchingSet (ss_id set) (ss_algorithm_id set) members (ss_weight set)
                               (ss_activate set) (ss_rank set)]> (sets self))
                track_to_set relay (open_counts self) epoch
          end
      end
  end.

Definition release (self : SwitchingSetManager) (name : FullTrackName) (request_id : Z) : SwitchingSetManager :=
  match track_to_set self !! name with
  | None => self
  | Some set_id =>
      match sets self !! set_id with
      | None => self
      | Some set =>
          match find_member name (ss_members set) with
          | None => self
          | Some member =>
              let left := holders member ∖ {[request_id]} in
              let member' := mkMember (full_track_name member) (relay_track_id member)
                               (throughput_threshold_kbps member) (member_request_id member) left in
              let set' := mkSwitchingSet (ss_id set) (ss_algorithm_id set)
                            (write_member name member' (ss_members set)) (ss_weight set) (ss_activate set)
                            (ss_rank set) in
              let self' := mkManager (<[set_id := set']> (sets self)) (track_to_set self) (relay_track_to_set self)
                             (open_counts self) (epoch self) in
              if bool_decide (request_id ∈ holders member) && bool_decide (left = ∅)
              then remove self' name else self'
          end
      end
  end.

(** The set and its algorithm, the algorithm asked for, and the request that
    assigned the track. *)
Definition warning : Type := Z * Z * Z * option Z.

Definition update_assignment (self : SwitchingSetManager) (name : FullTrackName)
    (algorithm_id throughput_threshold weight activate rank : option Z)
    : outcome SwitchingSetError (SwitchingSetManager * list warning) :=
  match track_to_set self !! name with
  | None => Err TrackNotInSet
  | Some set_id =>
      match sets self !! set_id with
      | None => Err TrackNotInSet
      | Some set =>
          let warnings :=
            match algorithm_id with
            | Some algorithm_id =>
                if negb (algorithm_id =? ss_algorithm_id set)
                then [(ss_id set, ss_algorithm_id set, algorithm_id,
                       member_request_id <$> find_member name (ss_members set))]
                else []
            | None => []
            end in
          let members :=
            match throughput_threshold, find_member name (ss_members set) with
            | Some threshold, Some member =>
                if negb (throughput_threshold_kbps member =? threshold)
                then sort_members (write_member name
                       (mkMember (full_track_name member) (relay_track_id member) threshold
                          (member_request_id member) (holders member)) (ss_members set))
                else ss_members set
            | _, _ => ss_members set
            end in
          let set := mkSwitchingSet (ss_id set) (ss_algorithm_id set) members (default (ss_weight set) weight)
                       (default (ss_activate set) activate) (default (ss_rank set) rank) in
          Ok (mkManager (<[set_id := set]> (sets self)) (track_to_set self) (relay_track_to_set self)
                (open_counts self) (bump_epoch (epoch self)), warnings)
      end
  end.

Definition get_set_for_track (self : SwitchingSetManager) (name : FullTrackName) : option SwitchingSet :=
  match track_to_set self !! name with Some id => sets self !! id | None => None end.

(** * Calls in a row *)

Inductive set_op : Type :=
| OpAssign (name : FullTrackName) (track request set algorithm threshold weight activate rank : Z)
| OpRelease (name : FullTrackName) (request : Z)
| OpRemove (name : FullTrackName)
| OpUpdate (name : FullTrackName) (algorithm threshold weight activate rank : option Z)
| OpOpened (track : Z)
| OpClosed (track : Z).

(** A refused call leaves the manager as it was. *)
Definition on_ok {A} (self : SwitchingSetManager) (f : A -> SwitchingSetManager)
    (r : outcome SwitchingSetError A) : panics (SwitchingSetManager * option SwitchingSetError) :=
  match r with
  | Ok a => Ok (f a, None)
  | Err e => Ok (self, Some e)
  | Panic => Panic
  | Diverge => Diverge
  end.

Definition set_step `{Target} (self : SwitchingSetManager) (op : set_op)
    : panics (SwitchingSetManager * option SwitchingSetError) :=
  match op with
  | OpAssign name track request set algorithm threshold weight activate rank =>
      on_ok self id (assign self name track request set algorithm threshold weight activate rank)
  | OpRelease name request => Ok (release self name request, None)
  | OpRemove name => Ok (remove self name, None)
  | OpUpdate name algorithm threshold weight activate rank =>
      on_ok self fst (update_assignment self name algorithm threshold weight activate rank)
  | OpOpened track => let? m := note_stream_opened self track in Ok (m, None)
  | OpClosed track => Ok (note_stream_closed self track, None)
  end.

(** * What the manager stands for: one entry per assigned track *)

Record held := mkHeld {
  h_set : Z;
  h_track : Z;
  h_threshold : Z;
  h_request : Z;
  h_holders : gset Z
}.

(** Properties of a set: algorithm, weight, activate, rank. *)
Abbreviation set_props := (Z * Z * Z * Z)%type.

(** A track is held while some request that assigned it has not let go; the
    latest message gives the properties of a set. *)
Definition held_spec : Type := gmap FullTrackName held * gmap Z set_props.

Definition spec_step (s : held_spec) (op : set_op) : held_spec * option SwitchingSetError :=
  let '(tracks, props) := s in
  match op with
  | OpAssign name track request set algorithm threshold weight activate rank =>
      let old := tracks !! name in
      if bool_decide (default set (h_set <$> old) = set) then
        ((<[name := mkHeld set track threshold request ({[request]} ∪ default ∅ (h_holders <$> old))]> tracks,
          <[set := (algorithm, weight, activate, rank)]> props), None)
      else (s, Some TrackInDifferentSet)
  | OpRelease name request =>
      match tracks !! name with
      | Some e =>
          let left := h_holders e ∖ {[request]} in
          ((if bool_decide (left = ∅) then delete name tracks
            else <[name := mkHeld (h_set e) (h_track e) (h_threshold e) (h_request e) left]> tracks, props), None)
      | None => (s, None)
      end
  | OpRemove name => ((delete name tracks, props), None)
  | OpUpdate name _ threshold weight activate rank =>
      match tracks !! name with
      | Some e =>
          ((<[name := mkHeld (h_set e) (h_track e) (default (h_threshold e) threshold) (h_request e) (h_holders e)]> tracks,
            alter (fun '(a, w, c, r) => (a, default w weight, default c activate, default r rank)) (h_set e) props),
           None)
      | None => (s, Some TrackNotInSet)
      end
  | OpOpened _ | OpClosed _ => (s, None)
  end.

Definition props_of (s : SwitchingSet) : set_props := (ss_algorithm_id s, ss_weight s, ss_activate s, ss_rank s).
Definition member_of (n : FullTrackName) (e : held) : SwitchingSetMember :=
  mkMember n (h_track e) (h_threshold e) (h_request e) (h_holders e).

Definition names (l : list SwitchingSetMember) : list FullTrackName := map full_track_name l.

(** * Lemmas on the members of a set *)

Lemma find_member_Some n l m : find_member n l = Some m -> m ∈ l /\ full_track_name m = n.
Proof. intros [Hin Hn]%find_some. rewrite bool_decide_eq_true in Hn. by apply list_elem_of_In in Hin. Qed.

Lemma find_member_None n l : find_member n l = None -> n ∉ names l.
Proof.
  intros Hf Hin. unfold names in Hin. apply list_elem_of_fmap in Hin as (m&->&Hm).
  pose proof (find_none _ _ Hf m) as Hn. rewrite <- list_elem_of_In in Hn. specialize (Hn Hm).
  by rewrite bool_decide_eq_false in Hn.
Qed.

Lemma names_unique l x y : NoDup (names l) -> x ∈ l -> y ∈ l -> full_track_name x = full_track_name y -> x = y.
Proof.
  induction l as [|m l IH]; [by intros _ ?%not_elem_of_nil|]. simpl. rewrite NoDup_cons. intros [Hm Hl].
  rewrite !elem_of_cons. intros [-> | Hx] [-> | Hy] E; try done; [| |by apply IH].
  - destruct Hm. rewrite E. by apply list_elem_of_fmap_2.
  - destruct Hm. rewrite <- E. by apply list_elem_of_fmap_2.
Qed.

Lemma find_member_elem n l m : NoDup (names l) -> m ∈ l -> full_track_name m = n -> find_member n l = Some m.
Proof.
  intros Hl Hm Hn. destruct (find_member n l) as [m'|] eqn:E.
  - apply find_member_Some in E as [Hm' Hn']. f_equal. eapply names_unique; [done..|]. congruence.
  - apply find_member_None in E. destruct E. rewrite <- Hn. by apply list_elem_of_fmap_2.
Qed.

Lemma write_member_names n x l : full_track_name x = n -> names (write_member n x l) = names l.
Proof.
  intros Hx. induction l as [|m l IH]; simpl; [done|]. case_bool_decide as Hm; simpl; [|by rewrite IH].
  by rewrite Hx, Hm.
Qed.

Lemma elem_of_write_member n x y l : NoDup (names l) -> n ∈ names l ->
  y ∈ write_member n x l <-> y = x \/ (y ∈ l /\ full_track_name y <> n).
Proof.
  induction l as [|m l IH]; [by intros _ ?%not_elem_of_nil|]. simpl. rewrite NoDup_cons. intros [Hm Hl] Hn.
  case_bool_decide as E; rewrite !elem_of_cons.
  - split; [|naive_solver]. intros [-> | Hy]; [by left|]. right. split; [by right|]. intros E'.
    apply Hm. rewrite E, <- E'. by apply list_elem_of_fmap_2.
  - rewrite IH; [naive_solver|done|]. apply elem_of_cons in Hn as [-> | Hn]; done.
Qed.

Lemma put_member_spec x l l' prev : NoDup (names l) -> put_member x l = (l', prev) ->
  NoDup (names l') /\
  prev = relay_track_id <$> find_member (full_track_name x) l /\
  forall y, y ∈ l' <->
    y = mkMember (full_track_name x) (relay_track_id x) (throughput_threshold_kbps x) (member_request_id x)
          (holders x ∪ default ∅ (holders <$> find_member (full_track_name x) l)) \/
    (y ∈ l /\ full_track_name y <> full_track_name x).
Proof.
  intros Hl. unfold put_member. destruct (find_member _ l) as [m|] eqn:E; intros [= <- <-]; simpl.
  - apply find_member_Some in E as [Hm Hn]. split; [by rewrite write_member_names|]. split; [done|].
    intros y. apply elem_of_write_member; [done|]. rewrite <- Hn. by apply list_elem_of_fmap_2.
  - apply find_member_None in E. split; [|split; [done|]].
    + unfold names. rewrite map_app. apply NoDup_app. split; [done|]. split; [|apply NoDup_singleton].
      intros n Hn ->%list_elem_of_singleton. done.
    + intros y. rewrite elem_of_app, list_elem_of_singleton. rewrite (union_empty_r_L (holders x)). destruct x; simpl in *.
      split; [|naive_solver]. intros [Hy | ->]; [|by left]. right. split; [done|]. intros <-. destruct E.
      by apply list_elem_of_fmap_2.
Qed.

Lemma filter_names p l : NoDup (names l) -> NoDup (names (List.filter p l)).
Proof.
  induction l as [|m l IH]; simpl; [done|]. rewrite NoDup_cons. intros [Hm Hl]. destruct (p m); [|by apply IH].
  simpl. apply NoDup_cons. split; [|by apply IH]. unfold names. rewrite list_elem_of_fmap. intros (y&E&Hy).
  apply in_filter_b in Hy as [Hy _]. destruct Hm. rewrite E. by apply list_elem_of_fmap_2.
Qed.

Lemma sort_members_names l : NoDup (names l) -> NoDup (names (sort_members l)).
Proof. unfold names, sort_members. by rewrite sort_by_key_Permutation. Qed.
Lemma elem_of_sort_members y l : y ∈ sort_members l <-> y ∈ l.
Proof. unfold sort_members. by rewrite sort_by_key_Permutation. Qed.

(** * The invariant *)

Section Invariant.
(** A relay track ID names one track. *)
Context `{Target} (owner : Z -> FullTrackName).

Record holds_set (tracks : gmap FullTrackName held) (props : gmap Z set_props) (sid : Z) (s : SwitchingSet)
    : Prop := {
  hs_id : ss_id s = sid;
  hs_props : props !! sid = Some (props_of s);
  hs_names : NoDup (names (ss_members s));
  hs_sorted : StronglySorted (key_le throughput_threshold_kbps) (ss_members s);
  hs_members : forall x, x ∈ ss_members s <->
    exists e, tracks !! full_track_name x = Some e /\ h_set e = sid /\ x = member_of (full_track_name x) e
}.

(** [k] streams were opened so far. *)
Record manager_ok (k : Z) (m : SwitchingSetManager) (s : held_spec) : Prop := {
  mo_names : forall n, track_to_set m !! n = h_set <$> fst s !! n;
  mo_tracks : forall r sid, relay_track_to_set m !! r = Some sid <->
    exists n e, fst s !! n = Some e /\ h_track e = r /\ h_set e = sid;
  mo_sets : forall sid x, sets m !! sid = Some x -> holds_set (fst s) (snd s) sid x;
  mo_live : forall n e, fst s !! n = Some e -> is_Some (sets m !! h_set e);
  mo_used : forall sid x, sets m !! sid = Some x -> ss_members x <> [];
  mo_entry : forall n e, fst s !! n = Some e -> owner (h_track e) = n /\ h_holders e <> ∅;
  mo_open : forall sid c, open_counts m !! sid = Some c -> is_Some (sets m !! sid) /\ 0 < c <= k;
  mo_epoch : is_u64 (epoch m)
}.

Lemma manager_ok_new : manager_ok 0 SwitchingSetManager_new (∅, ∅).
Proof.
  constructor; simpl; try (intros *; rewrite ?lookup_empty; done).
  intros r sid. split; [by rewrite lookup_empty|]. intros (n&e&E&_). by rewrite lookup_empty in E.
Qed.

Lemma bump_epoch_u64 e : is_u64 (bump_epoch e).
Proof. apply Z.mod_pos_bound. done. Qed.

(** The entry of a name and the member the manager has for it. *)
Lemma ok_member k m s n e : manager_ok k m s -> fst s !! n = Some e ->
  exists x, track_to_set m !! n = Some (h_set e) /\ sets m !! h_set e = Some x /\
    holds_set (fst s) (snd s) (h_set e) x /\ find_member n (ss_members x) = Some (member_of n e).
Proof.
  intros Hm He. destruct (mo_live _ _ _ Hm _ _ He) as [x Hx]. exists x.
  split; [by rewrite (mo_names _ _ _ Hm), He|]. split; [done|].
  pose proof (mo_sets _ _ _ Hm _ _ Hx) as Hs. split; [done|].
  apply find_member_elem; [apply Hs| |done]. apply Hs. by exists e.
Qed.

Lemma ok_absent k m s n : manager_ok k m s -> fst s !! n = None -> track_to_set m !! n = None.
Proof. intros Hm He. by rewrite (mo_names _ _ _ Hm), He. Qed.

(** A member of the set that may hold [n] is the one of its entry. *)
Lemma ok_find k m s sid x n : manager_ok k m s -> sets m !! sid = Some x ->
  (forall e, fst s !! n = Some e -> h_set e = sid) ->
  find_member n (ss_members x) = member_of n <$> fst s !! n.
Proof.
  intros Hm Hx Hsid. destruct (fst s !! n) as [e|] eqn:He; simpl.
  - specialize (Hsid e eq_refl). destruct (ok_member _ _ _ _ _ Hm He) as (x'&_&Hx'&_&Hf). by simplify_eq.
  - destruct (find_member n _) as [y|] eqn:Ef; [|done]. apply find_member_Some in Ef as [Hy Hn].
    apply (hs_members _ _ _ _ (mo_sets _ _ _ Hm _ _ Hx)) in Hy as (e&He'&_). congruence.
Qed.

(** Giving the set [sid] a new value that moves the entry of [n] to [e]. *)
Lemma put_set_ok k m s n e x relay props ep :
  manager_ok k m s ->
  (forall e0, fst s !! n = Some e0 -> h_set e0 = h_set e) ->
  owner (h_track e) = n -> h_holders e <> ∅ ->
  (forall r, relay !! r = if bool_decide (r = h_track e) then Some (h_set e)
     else if bool_decide (Some r = h_track <$> fst s !! n) then None else relay_track_to_set m !! r) ->
  ss_id x = h_set e -> props !! h_set e = Some (props_of x) ->
  (forall sid, sid <> h_set e -> props !! sid = snd s !! sid) ->
  NoDup (names (ss_members x)) -> StronglySorted (key_le throughput_threshold_kbps) (ss_members x) ->
  (forall y, y ∈ ss_members x <-> y = member_of n e \/ full_track_name y <> n /\
     exists e', fst s !! full_track_name y = Some e' /\ h_set e' = h_set e /\ y = member_of (full_track_name y) e') ->
  is_u64 ep ->
  manager_ok k (mkManager (<[h_set e := x]> (sets m)) (<[n := h_set e]> (track_to_set m)) relay (open_counts m) ep)
    (<[n := e]> (fst s), props).
Proof.
  intros Hm Hsid Hown Hhold Hrelay Hid Hp Hp' Hnd Hsort Hmem Hep. constructor; simpl.
  - intros n'. destruct (decide (n' = n)) as [->|Hne]; [by rewrite !lookup_insert_eq|].
    rewrite !lookup_insert_ne by done. apply Hm.
  - intros r sid. rewrite Hrelay. case_bool_decide as Hr.
    { subst r. split; [intros [= <-]; exists n, e; by rewrite lookup_insert_eq|].
      intros (n'&e'&He'&Ht&<-). apply lookup_insert_Some in He' as [[<- <-]|[Hne He']]; [done|].
      destruct Hne. rewrite <- Hown, <- Ht. by apply Hm in He' as [-> _]. }
    case_bool_decide as Hr'.
    { split; [done|]. intros (n'&e'&He'&Ht&<-). apply lookup_insert_Some in He' as [[<- <-]|[Hne He']]; [done|].
      destruct (fst s !! n) as [e0|] eqn:He0; [|done]. simpl in Hr'. injection Hr' as ->.
      destruct Hne. apply Hm in He0 as [<- _]. apply Hm in He' as [<- _]. by rewrite Ht. }
    rewrite (mo_tracks _ _ _ Hm). split; intros (n'&e'&He'&Ht&<-); exists n', e'.
    + rewrite lookup_insert_ne; [done|]. intros <-. by rewrite He', <- Ht in Hr'.
    + apply lookup_insert_Some in He' as [[<- <-]|[Hne He']]; [done|]. done.
  - intros sid y Hy. apply lookup_insert_Some in Hy as [[<- <-]|[Hne Hy]].
    + constructor; [done|done|done|done|]. intros y. rewrite Hmem. split.
      * intros [-> | (Hn&e'&He'&Hs&->)]; [exists e; simpl; by rewrite lookup_insert_eq|].
        exists e'. simpl in *. by rewrite lookup_insert_ne.
      * intros (e'&He'&Hs&Hy). apply lookup_insert_Some in He' as [[Hn <-]|[Hn He']]; [left; by rewrite Hn|].
        right. split; [done|]. by exists e'.
    + apply (mo_sets _ _ _ Hm) in Hy as [? ? ? ? Hmem']. constructor; [done|by rewrite Hp'|done|done|].
      intros y0. rewrite Hmem'. split; intros (e'&He'&Hs&Hy0); exists e'.
      * rewrite lookup_insert_ne; [done|]. intros Hn. rewrite <- Hn in He'. apply Hsid in He'. congruence.
      * apply lookup_insert_Some in He' as [[Hn <-]|[Hn He']]; [congruence|done].
  - intros n' e' He'. apply lookup_insert_Some in He' as [[_ <-]|[_ He']]; [by rewrite lookup_insert_eq|].
    apply lookup_insert_is_Some. destruct (decide (h_set e = h_set e')); [by left|right; split; [done|]]. by eapply Hm.
  - intros sid y Hy. apply lookup_insert_Some in Hy as [[<- <-]|[Hne Hy]]; [|by eapply Hm].
    intros Hnil. rewrite Hnil in Hmem. destruct (not_elem_of_nil (member_of n e)). apply Hmem. by left.
  - intros n' e' He'. apply lookup_insert_Some in He' as [[<- <-]|[_ He']]; [done|by eapply Hm].
  - intros sid c Hc. apply (mo_open _ _ _ Hm) in Hc as [Hs Hc]. split; [|done].
    apply lookup_insert_is_Some. destruct (decide (h_set e = sid)); [by left|by right].
  - done.
Qed.

Lemma assign_ok k m s name track request sid algorithm thr weight activate rank :
  manager_ok k m s -> owner track = name ->
  let '(s', err) := spec_step s (OpAssign name track request sid algorithm thr weight activate rank) in
  match err with
  | Some e => assign m name track request sid algorithm thr weight activate rank = Err e /\ s' = s
  | None => exists m', assign m name track request sid algorithm thr weight activate rank = Ok m' /\
      manager_ok k m' s' /\ epoch m' = bump_epoch (epoch m) /\ open_counts m' = open_counts m
  end.
Proof.
  intros Hm Hown. destruct s as [tracks props]. simpl. unfold assign. rewrite (mo_names _ _ _ Hm). simpl.
  assert (forall e0, tracks !! name = Some e0 -> default sid (h_set <$> tracks !! name) = sid -> h_set e0 = sid) as Hsame.
  { intros e0 ->. done. }
  case_bool_decide as Hd; [|destruct (tracks !! name) as [e0|] eqn:E; simpl in *; [|done];
    by rewrite (proj2 (Z.eqb_neq _ _) Hd)].
  match goal with |- exists m', (match ?o with _ => _ end) = _ /\ _ =>
    assert (o = Some sid \/ o = None) as Ho end.
  { destruct (tracks !! name); simpl in *; [left; congruence|by right]. }
  eexists. split.
  { destruct Ho as [-> | ->]; [rewrite Z.eqb_refl|]; reflexivity. }
  clear Ho. set (set := default _ (sets m !! sid)).
  set (new := mkMember name track thr request {[request]}).
  assert (NoDup (names (ss_members set)) /\ ss_id set = sid /\
    find_member name (ss_members set) = member_of name <$> tracks !! name /\
    forall y, y ∈ ss_members set <-> exists e, tracks !! full_track_name y = Some e /\ h_set e = sid /\
      y = member_of (full_track_name y) e) as (Hnd & Hid & Hfind & Hmem).
  { subst set. destruct (sets m !! sid) as [x|] eqn:Ex; simpl.
    - pose proof (mo_sets _ _ _ Hm _ _ Ex) as Hs. split; [apply Hs|]. split; [apply Hs|].
      split; [|apply Hs]. apply (ok_find _ _ _ _ _ _ Hm Ex). intros e He. by apply Hsame.
    - assert (forall n e, tracks !! n = Some e -> h_set e <> sid) as Hno.
      { intros n e He Hs. destruct (mo_live _ _ _ Hm n e He) as [y Hy]. congruence. }
      split; [constructor|]. split; [done|]. split.
      + destruct (tracks !! name) as [e|] eqn:He; [|done]. by destruct (Hno _ _ He).
      + intros y. split; [by intros ?%not_elem_of_nil|]. intros (e&He&Hs&_). by destruct (Hno _ _ He). }
  destruct (put_member new (ss_members set)) as [members prev] eqn:Eput.
  apply put_member_spec in Eput as (Hnd'&->&Hmem'); [|done]. change (full_track_name new) with name in *.
  rewrite Hfind in Hmem' |- *. simpl in Hmem' |- *.
  split; [|done].
  set (e := mkHeld sid track thr request ({[request]} ∪ default ∅ (h_holders <$> tracks !! name))).
  apply (put_set_ok k m (tracks, props) name e (mkSwitchingSet (ss_id set) algorithm (sort_members members) weight activate rank)).
  - done.
  - intros e0 He0. by apply Hsame.
  - done.
  - simpl. set_solver.
  - intros r. simpl. case_bool_decide as Hr; [subst r; by rewrite lookup_insert_eq|].
    rewrite lookup_insert_ne by done. destruct (tracks !! name) as [e0|] eqn:E0; simpl.
    + destruct (Z.eqb_spec (h_track e0) track) as [Ht|Ht]; simpl.
      * rewrite bool_decide_eq_false_2; [done|]. intros [= ->]. done.
      * case_bool_decide as Hr'; [injection Hr' as ->; by rewrite lookup_delete_eq|].
        rewrite lookup_delete_ne; [done|]. intros <-. done.
    + done.
  - done.
  - simpl. by rewrite lookup_insert_eq.
  - intros sid' Hne. simpl. by rewrite lookup_insert_ne.
  - by apply sort_members_names.
  - apply sort_by_key_sorted.
  - intros y. simpl. rewrite elem_of_sort_members, Hmem', Hmem. subst new e. unfold member_of. simpl.
    clear. destruct (tracks !! name); simpl; naive_solver.
  - apply bump_epoch_u64.
Qed.

Lemma remove_ok k m s name : manager_ok k m s ->
  manager_ok k (remove m name) (delete name (fst s), snd s) /\
  (forall e, fst s !! name = Some e -> epoch (remove m name) = bump_epoch (epoch m)) /\
  (fst s !! name = None -> remove m name = m) /\
  forall sid, open_counts (remove m name) !! sid =
    if bool_decide (is_Some (sets (remove m name) !! sid)) then open_counts m !! sid else None.
Proof.
  intros Hm. destruct s as [tracks props]. simpl. unfold remove.
  assert (forall sid, open_counts m !! sid =
    if bool_decide (is_Some (sets m !! sid)) then open_counts m !! sid else None) as Hself.
  { intros sid. case_bool_decide as Hs; [done|]. destruct (open_counts m !! sid) eqn:E; [|done].
    destruct Hs. by eapply Hm. }
  destruct (tracks !! name) as [e|] eqn:He.
  2:{ rewrite (ok_absent _ _ _ _ Hm He), delete_id by done. done. }
  destruct (ok_member _ _ _ _ _ Hm He) as (x&->&Hx&Hs&Hf). rewrite Hx, Hf. simpl.
  set (members := List.filter _ (ss_members x)).
  assert (forall y, y ∈ members <-> exists e', delete name tracks !! full_track_name y = Some e' /\
    h_set e' = h_set e /\ y = member_of (full_track_name y) e') as Hmem.
  { intros y. subst members. rewrite in_filter_b, negb_true_iff, bool_decide_eq_false, (hs_members _ _ _ _ Hs).
    setoid_rewrite lookup_delete_Some. naive_solver. }
  set (relay := delete (h_track e) (relay_track_to_set m)).
  assert (forall r sid, relay !! r = Some sid <->
    exists n e', delete name tracks !! n = Some e' /\ h_track e' = r /\ h_set e' = sid) as Hrelay.
  { intros r sid. subst relay. rewrite lookup_delete_Some, (mo_tracks _ _ _ Hm). setoid_rewrite lookup_delete_Some.
    split.
    - intros [Hne (n&e'&He'&Ht&Hsid)]. exists n, e'. split; [|done]. split; [|done]. intros <-. simpl in *. congruence.
    - intros (n&e'&[Hne He']&Ht&Hsid). split; [|by exists n, e']. intros <-. destruct Hne.
      apply (mo_entry _ _ _ Hm) in He as [<- _]. apply (mo_entry _ _ _ Hm) in He' as [<- _]. by rewrite Ht. }
  assert (forall sid y, sid <> h_set e -> holds_set tracks props sid y -> holds_set (delete name tracks) props sid y) as Hother.
  { intros sid y Hne [? ? ? ? Hy]. constructor; try done. intros z. rewrite Hy. split; intros (e'&He'&Hs'&Hz); exists e'.
    - rewrite lookup_delete_ne; [done|]. intros E. rewrite <- E in He'. congruence.
    - by apply lookup_delete_Some in He' as [_ He']. }
  assert (forall n e', delete name tracks !! n = Some e' -> tracks !! n = Some e') as Hsub.
  { intros n e' [_ He']%lookup_delete_Some. done. }
  assert (forall n, delete name (track_to_set m) !! n = h_set <$> delete name tracks !! n) as Hnames.
  { intros n. rewrite !lookup_delete. case_decide; [done|]. by rewrite (mo_names _ _ _ Hm). }
  destruct members as [|y0 rest] eqn:Emem; (split; [constructor; simpl|split; [done|split; [done|simpl]]]);
    try done; try apply bump_epoch_u64; try (intros; eapply mo_entry; eauto; fail).
  - intros sid y Hy. apply lookup_delete_Some in Hy as [Hne Hy]. apply Hother; [done|]. by eapply Hm in Hy.
  - intros n e' He'. destruct (decide (h_set e = h_set e')) as [Heq|Hne].
    + exfalso. apply (not_elem_of_nil (member_of n e')). apply Hmem. exists e'. by rewrite Heq.
    + rewrite lookup_delete_ne by done. eapply Hm. by apply Hsub.
  - intros sid y Hy. apply lookup_delete_Some in Hy as [Hne Hy]. by eapply Hm.
  - intros sid c [Hne Hc]%lookup_delete_Some. rewrite lookup_delete_ne by done. by eapply Hm.
  - intros sid. rewrite !lookup_delete. case_decide as Hd; [subst sid|apply Hself].
    rewrite bool_decide_eq_false_2; [done|]. by apply is_Some_None.
  - intros sid y Hy. apply lookup_insert_Some in Hy as [[<- <-]|[Hne Hy]]; [|by apply Hother; [|eapply Hm in Hy]].
    constructor; simpl; [by rewrite (hs_id _ _ _ _ Hs)|exact (hs_props _ _ _ _ Hs)| | |by apply Hmem].
    + change (NoDup (names (y0 :: rest))). rewrite <- Emem. subst members. apply filter_names. apply Hs.
    + rewrite <- Emem. apply filter_sorted, Hs.
  - intros n e' He'. apply lookup_insert_is_Some.
    destruct (decide (h_set e = h_set e')); [by left|right; split; [done|]]. eapply Hm. by apply Hsub.
  - intros sid y Hy. apply lookup_insert_Some in Hy as [[<- <-]|[Hne Hy]]; [done|by eapply Hm].
  - intros sid c Hc. apply (mo_open _ _ _ Hm) in Hc as [Hs' Hc]. split; [|done].
    apply lookup_insert_is_Some. destruct (decide (h_set e = sid)); [by left|by right].
  - intros sid. rewrite (Hself sid) at 1. rewrite lookup_insert. case_decide as Hd; [subst sid|done].
    by rewrite !bool_decide_eq_true_2.
Qed.

Lemma write_member_filter n x l : full_track_name x = n ->
  List.filter (fun m => negb (bool_decide (full_track_name m = n))) (write_member n x l) =
  List.filter (fun m => negb (bool_decide (full_track_name m = n))) l.
Proof.
  intros Hx. induction l as [|m l IH]; simpl; [done|]. case_bool_decide as Hm; simpl.
  - by rewrite bool_decide_eq_true_2.
  - by rewrite bool_decide_eq_false_2, IH.
Qed.
Lemma write_member_find n x l m : full_track_name x = n -> find_member n l = Some m ->
  find_member n (write_member n x l) = Some x.
Proof.
  intros Hx. induction l as [|y l IH]; simpl; [done|]. case_bool_decide as Hm; simpl.
  - by rewrite bool_decide_eq_true_2.
  - by rewrite bool_decide_eq_false_2.
Qed.

(** Taking a member out does not depend on its other fields. *)
Lemma remove_rewritten m n sid x mem mem' : track_to_set m !! n = Some sid -> sets m !! sid = Some x ->
  find_member n (ss_members x) = Some mem -> full_track_name mem' = n -> relay_track_id mem' = relay_track_id mem ->
  remove (mkManager (<[sid := mkSwitchingSet (ss_id x) (ss_algorithm_id x) (write_member n mem' (ss_members x))
            (ss_weight x) (ss_activate x) (ss_rank x)]> (sets m)) (track_to_set m) (relay_track_to_set m)
            (open_counts m) (epoch m)) n = remove m n.
Proof.
  intros Ht Hx Hf Hn Hr. unfold remove. simpl. rewrite Ht, lookup_insert_eq, Hx. simpl.
  rewrite (write_member_find _ _ _ _ Hn Hf), write_member_filter, Hf, Hr by done.
  destruct (List.filter _ _); [by rewrite delete_insert_eq|by rewrite insert_insert_eq].
Qed.

(** Writing over the member of [n] within the set: what [put_set_ok] asks for. *)
Lemma write_member_held tracks props sid x n e e' : holds_set tracks props sid x ->
  tracks !! n = Some e -> h_set e = sid -> h_set e' = sid ->
  NoDup (names (write_member n (member_of n e') (ss_members x))) /\
  forall y, y ∈ write_member n (member_of n e') (ss_members x) <-> y = member_of n e' \/ full_track_name y <> n /\
     exists e0, tracks !! full_track_name y = Some e0 /\ h_set e0 = sid /\ y = member_of (full_track_name y) e0.
Proof.
  intros Hs He Hsid Hsid'. split; [rewrite write_member_names by done; apply Hs|]. intros y.
  rewrite elem_of_write_member; [|apply Hs|].
  - rewrite (hs_members _ _ _ _ Hs). naive_solver.
  - assert (member_of n e ∈ ss_members x) as Hin by (apply Hs; by exists e).
    change n with (full_track_name (member_of n e)). by apply list_elem_of_fmap_2.
Qed.

(** A member that keeps its threshold leaves the order. *)
Lemma write_member_min n x l m t : find_member n l = Some m ->
  throughput_threshold_kbps x = throughput_threshold_kbps m ->
  Forall (fun y => t <= throughput_threshold_kbps y) l ->
  Forall (fun y => t <= throughput_threshold_kbps y) (write_member n x l).
Proof.
  intros Hf Hx. induction l as [|y l IH]; simpl in *; [done|]. rewrite Forall_cons. intros [Hy Hl].
  case_bool_decide; constructor; auto. injection Hf as ->. lia.
Qed.
Lemma write_member_sorted n x l m : find_member n l = Some m ->
  throughput_threshold_kbps x = throughput_threshold_kbps m ->
  StronglySorted (key_le throughput_threshold_kbps) l ->
  StronglySorted (key_le throughput_threshold_kbps) (write_member n x l).
Proof.
  intros Hf Hx Hl. induction Hl as [|y l Hl IH Hy]; simpl in *; [done|]. case_bool_decide as Hn.
  - injection Hf as ->. constructor; [done|]. unfold key_le in *. by rewrite Hx.
  - constructor; [by apply IH|]. by eapply write_member_min.
Qed.

Lemma release_ok k m s name request : manager_ok k m s ->
  let s' := fst (spec_step s (OpRelease name request)) in
  manager_ok k (release m name request) s' /\
  (forall sid, open_counts (release m name request) !! sid =
     if bool_decide (is_Some (sets (release m name request) !! sid)) then open_counts m !! sid else None) /\
  (epoch (release m name request) = bump_epoch (epoch m) \/ epoch (release m name request) = epoch m /\
     forall n, h_set <$> fst s' !! n = h_set <$> fst s !! n).
Proof.
  intros Hm. pose proof (remove_ok k m s name Hm) as (Hrm & Hep & _ & Hopen). destruct s as [tracks props].
  assert (forall sid, open_counts m !! sid =
    if bool_decide (is_Some (sets m !! sid)) then open_counts m !! sid else None) as Hself.
  { intros sid. case_bool_decide as Hs; [done|]. destruct (open_counts m !! sid) eqn:E; [|done].
    destruct Hs. by eapply Hm. }
  simpl in *. unfold release. destruct (tracks !! name) as [e|] eqn:He; simpl.
  2:{ rewrite (ok_absent _ _ _ _ Hm He). split; [done|]. split; [done|]. by right. }
  destruct (ok_member _ _ _ _ _ Hm He) as (x&Ht&Hx&Hs&Hf). rewrite Ht, Hx, Hf. simpl.
  destruct (mo_entry _ _ _ Hm _ _ He) as [Hown Hne]. set (left := h_holders e ∖ {[request]}).
  destruct (bool_decide_reflect (left = ∅)) as [Hl|Hl].
  - rewrite (bool_decide_eq_true_2 (request ∈ h_holders e)) by set_solver. simpl.
    rewrite (remove_rewritten _ _ _ _ _ _ Ht Hx Hf) by done. split; [done|]. split; [done|]. left. by eapply Hep.
  - rewrite andb_false_r. simpl.
    destruct (write_member_held _ _ _ _ _ _ (mkHeld (h_set e) (h_track e) (h_threshold e) (h_request e) left) Hs He)
      as [Hnd Hmem]; [done|done|].
    split; [|split; [|right; split; [done|]]].
    + rewrite <- (insert_id (track_to_set m) name (h_set e)) by done.
      apply (put_set_ok k m (tracks, props) name (mkHeld (h_set e) (h_track e) (h_threshold e) (h_request e) left));
        try done.
      * intros e0 He0. simpl in *. congruence.
      * intros r. simpl. rewrite He. simpl. repeat case_bool_decide; try congruence.
        apply (mo_tracks _ _ _ Hm). exists name, e. by subst.
      * apply Hs.
      * apply (hs_props _ _ _ _ Hs).
      * simpl. eapply write_member_sorted; [done|done|]. apply Hs.
      * apply Hm.
    + intros sid. simpl. rewrite Hself at 1. rewrite lookup_insert. case_decide as Hd; [subst sid|done].
      by rewrite Hx, !bool_decide_eq_true_2.
    + intros n. rewrite lookup_insert. case_decide as Hd; [subst n; by rewrite He|done].
Qed.

Lemma update_ok k m s name algorithm thr weight activate rank : manager_ok k m s ->
  let '(s', err) := spec_step s (OpUpdate name algorithm thr weight activate rank) in
  match err with
  | Some e => update_assignment m name algorithm thr weight activate rank = Err e /\ s' = s
  | None => exists m' w, update_assignment m name algorithm thr weight activate rank = Ok (m', w) /\
      manager_ok k m' s' /\ epoch m' = bump_epoch (epoch m) /\ open_counts m' = open_counts m
  end.
Proof.
  intros Hm. destruct s as [tracks props]. simpl. unfold update_assignment.
  destruct (tracks !! name) as [e|] eqn:He; simpl; [|by rewrite (ok_absent _ _ _ _ Hm He)].
  destruct (ok_member _ _ _ _ _ Hm He) as (x&Ht&Hx&Hs&Hf). rewrite Ht, Hx, Hf. simpl.
  eexists _, _. split; [reflexivity|]. split; [|done].
  set (e' := mkHeld (h_set e) (h_track e) (default (h_threshold e) thr) (h_request e) (h_holders e)).
  destruct (mo_entry _ _ _ Hm _ _ He) as [Hown Hne].
  destruct (write_member_held _ _ _ _ _ _ e' Hs He eq_refl eq_refl) as [Hnd Hmem].
  assert (e' = e -> forall y, y ∈ ss_members x <-> y = member_of name e' \/ full_track_name y <> name /\
    exists e0, tracks !! full_track_name y = Some e0 /\ h_set e0 = h_set e /\ y = member_of (full_track_name y) e0) as Hsame.
  { intros -> y. rewrite (hs_members _ _ _ _ Hs). simpl. destruct (decide (full_track_name y = name)) as [E|E].
    - rewrite E, He. naive_solver.
    - naive_solver. }
  rewrite <- (insert_id (track_to_set m) name (h_set e)) by done.
  apply (put_set_ok k m (tracks, props) name e'); try done; simpl.
  - intros e0 He0. congruence.
  - intros r. rewrite He. simpl. repeat case_bool_decide; try congruence.
    apply (mo_tracks _ _ _ Hm). exists name, e. by subst.
  - apply Hs.
  - rewrite lookup_alter_eq, (hs_props _ _ _ _ Hs : props !! _ = _). done.
  - intros sid Hsid. by rewrite lookup_alter_ne.
  - destruct thr as [thr|]; [|apply Hs]. case_if; [by apply sort_members_names|apply Hs].
  - destruct thr as [thr|]; [|apply Hs]. case_if; [apply sort_by_key_sorted|apply Hs].
  - intros y. destruct thr as [thr|]; [|apply Hsame; by destruct e]. case_if.
    + rewrite elem_of_sort_members. apply Hmem.
    + apply Hsame. breflect. subst e'. destruct e; simpl in *. by subst.
  - apply bump_epoch_u64.
Qed.

Lemma opened_ok k m s r : manager_ok k m s -> 0 <= k -> k + 1 < U64 ->
  exists m', note_stream_opened m r = Ok m' /\ manager_ok (k + 1) m' s /\ epoch m' = epoch m /\
    relay_track_to_set m' = relay_track_to_set m /\
    forall sid, default 0 (open_counts m' !! sid) = default 0 (open_counts m !! sid) +
      if bool_decide (relay_track_to_set m !! r = Some sid) then 1 else 0.
Proof.
  intros Hm Hk0 Hk. unfold note_stream_opened. destruct (relay_track_to_set m !! r) as [sid|] eqn:Er.
  - assert (exists c, open_counts m !! sid = Some c /\ 0 < c <= k \/ open_counts m !! sid = None /\ c = 0) as [c Hc].
    { destruct (open_counts m !! sid) as [c|] eqn:E; [|exists 0; by right].
      exists c. left. split; [done|]. by apply (mo_open _ _ _ Hm) in E as [_ E]. }
    assert (default 0 (open_counts m !! sid) = c /\ 0 <= c) as [-> Hc0]
      by (destruct Hc as [[-> ?]|[-> ->]]; simpl; lia).
    unfold add_u64. rewrite arith_u64_Ok by (unfold is_u64; destruct Hc; lia). simpl. eexists. split; [done|].
    split; [|split; [done|split; [done|]]].
    + destruct Hm as [H1 H2 H3 H4 H5 H6 H7 H8]. constructor; simpl; try done.
      intros sid' c' Hc'. apply lookup_insert_Some in Hc' as [[<- <-]|[_ Hc']].
      * apply H2 in Er as (n&e&He&_&<-). split; [by eapply H4|].
        destruct Hc as [[_ ?]|[_ ->]]; lia.
      * apply H7 in Hc' as [? ?]. split; [done|lia].
    + intros sid'. simpl. rewrite lookup_insert. case_decide as Hd.
      * subst sid'. rewrite bool_decide_eq_true_2 by done. destruct Hc as [[-> _]|[-> ->]]; simpl; lia.
      * rewrite bool_decide_eq_false_2 by congruence. lia.
  - exists m. split; [done|]. split; [|split; [done|split; [done|intros sid; simpl; lia]]].
    destruct Hm as [H1 H2 H3 H4 H5 H6 H7 H8]. constructor; try done.
    intros sid' c' Hc'. apply H7 in Hc' as [? ?]. split; [done|lia].
Qed.

Lemma closed_ok k m s r : manager_ok k m s ->
  manager_ok k (note_stream_closed m r) s /\ epoch (note_stream_closed m r) = epoch m /\
  relay_track_to_set (note_stream_closed m r) = relay_track_to_set m /\
  forall sid, default 0 (open_counts (note_stream_closed m r) !! sid) =
    Z.max 0 (default 0 (open_counts m !! sid) - if bool_decide (relay_track_to_set m !! r = Some sid) then 1 else 0).
Proof.
  intros Hm. unfold note_stream_closed.
  assert (forall sid, 0 <= default 0 (open_counts m !! sid)) as Hnn.
  { intros sid. destruct (open_counts m !! sid) eqn:E; simpl; [|lia]. apply (mo_open _ _ _ Hm) in E as [_ E]. lia. }
  destruct (relay_track_to_set m !! r) as [sid|] eqn:Er; [destruct (open_counts m !! sid) as [c|] eqn:Ec|].
  - pose proof (mo_open _ _ _ Hm _ _ Ec) as [Hs Hc]. split; [|split; [done|split; [done|]]].
    + destruct Hm as [H1 H2 H3 H4 H5 H6 H7 H8]. constructor; simpl; try done.
      intros sid' c'. unfold saturating_sub. case_if; breflect.
      * intros [Hne Hc']%lookup_delete_Some. by apply H7.
      * intros [[<- <-]|[_ Hc']]%lookup_insert_Some; [split; [done|lia]|by apply H7].
    + intros sid'. specialize (Hnn sid'). simpl. unfold saturating_sub. case_if; breflect.
      * rewrite lookup_delete. case_decide as Hd.
        -- subst sid'. rewrite bool_decide_eq_true_2 by done. rewrite Ec. simpl. lia.
        -- rewrite bool_decide_eq_false_2 by congruence. lia.
      * rewrite lookup_insert. case_decide as Hd.
        -- subst sid'. rewrite bool_decide_eq_true_2 by done. rewrite Ec. simpl. lia.
        -- rewrite bool_decide_eq_false_2 by congruence. lia.
  - split; [done|]. split; [done|]. split; [done|]. intros sid'. specialize (Hnn sid').
    case_bool_decide as Hd; [injection Hd as <-; rewrite Ec; simpl; lia|lia].
  - split; [done|]. split; [done|]. split; [done|]. intros sid'. specialize (Hnn sid').
    rewrite bool_decide_eq_false_2 by done. lia.
Qed.

Definition op_ok (op : set_op) : Prop :=
  match op with OpAssign name track _ _ _ _ _ _ _ => owner track = name | _ => True end.

(** A step of the manager is a step of the specification. *)
Lemma set_step_ok k m s op : manager_ok k m s -> 0 <= k -> k + 1 < U64 -> op_ok op ->
  exists m', set_step m op = Ok (m', snd (spec_step s op)) /\ manager_ok (k + 1) m' (fst (spec_step s op)).
Proof.
  intros Hm Hk0 Hk Hop. assert (forall m' s', manager_ok k m' s' -> manager_ok (k + 1) m' s') as Hmore.
  { intros m' s' [H1 H2 H3 H4 H5 H6 H7 H8]. constructor; try done. intros sid c Hc.
    apply H7 in Hc as [? ?]. split; [done|lia]. }
  destruct op as [name track request sid algorithm thr weight activate rank|name request|name|
                  name algorithm thr weight activate rank|track|track].
  - pose proof (assign_ok k m s name track request sid algorithm thr weight activate rank Hm Hop) as Ha.
    destruct (spec_step _ _) as [s' [e|]]; simpl.
    + destruct Ha as [-> ->]. simpl. eauto.
    + destruct Ha as (m'&->&Hm'&_). simpl. eauto.
  - exists (release m name request). destruct (release_ok k m s name request Hm) as [Hr _]. split; [|by apply Hmore].
    destruct s as [tracks props]. simpl. by destruct (tracks !! name).
  - exists (remove m name). destruct (remove_ok k m s name Hm) as [Hr _]. destruct s. split; [done|by apply Hmore].
  - pose proof (update_ok k m s name algorithm thr weight activate rank Hm) as Ha.
    destruct (spec_step _ _) as [s' [e|]]; simpl.
    + destruct Ha as [-> ->]. simpl. eauto.
    + destruct Ha as (m'&w&->&Hm'&_). simpl. eauto.
  - destruct (opened_ok k m s track Hm Hk0 Hk) as (m'&E&Hm'&_). exists m'. simpl. rewrite E. by destruct s.
  - exists (note_stream_closed m track). destruct (closed_ok k m s track Hm) as [Hm' _]. destruct s.
    split; [done|by apply Hmore].
Qed.

Fixpoint set_run (m : SwitchingSetManager) (ops : list set_op)
    : panics (SwitchingSetManager * list (option SwitchingSetError)) :=
  match ops with
  | [] => Ok (m, [])
  | op :: ops => let? r := set_step m op in let? q := set_run (fst r) ops in Ok (fst q, snd r :: snd q)
  end.
Fixpoint spec_run (s : held_spec) (ops : list set_op) : held_spec * list (option SwitchingSetError) :=
  match ops with
  | [] => (s, [])
  | op :: ops => let q := spec_run (fst (spec_step s op)) ops in (fst q, snd (spec_step s op) :: snd q)
  end.

Lemma set_run_ok ops : forall k m s, manager_ok k m s -> 0 <= k -> k + Z.of_nat (length ops) < U64 ->
  Forall op_ok ops ->
  exists m', set_run m ops = Ok (m', snd (spec_run s ops)) /\
    manager_ok (k + Z.of_nat (length ops)) m' (fst (spec_run s ops)).
Proof.
  induction ops as [|op ops IH]; intros k m s Hm Hk0 Hk Hops; simpl in *.
  - exists m. split; [done|]. by rewrite Z.add_0_r.
  - apply Forall_cons in Hops as [Hop Hops].
    destruct (set_step_ok k m s op Hm Hk0 ltac:(lia) Hop) as (m1&->&Hm1). simpl.
    destruct (IH (k + 1) m1 _ Hm1 ltac:(lia) ltac:(lia) Hops) as (m'&->&Hm'). simpl. exists m'. split; [done|].
    change (Z.pos _) with (Z.of_nat (S (length ops))).
    by replace (k + Z.of_nat (S (length ops))) with (k + 1 + Z.of_nat (length ops)) by lia.
Qed.

(** ** What an algorithm is shown *)

Lemma snapshot_members k m s sid x : manager_ok k m s -> sets m !! sid = Some x ->
  set_id (SetSnapshot_from x) = sid /\ set_members (SetSnapshot_from x) <> [] /\
  StronglySorted (fun a b => fst a <= fst b) (set_members (SetSnapshot_from x)) /\
  NoDup (map snd (set_members (SetSnapshot_from x))) /\
  forall t r, (t, r) ∈ set_members (SetSnapshot_from x) <->
    exists n e, fst s !! n = Some e /\ h_set e = sid /\ h_threshold e = t /\ h_track e = r.
Proof.
  intros Hm Hx. pose proof (mo_sets _ _ _ Hm _ _ Hx) as [Hid Hp Hnd Hsort Hmem].
  pose proof (mo_used _ _ _ Hm _ _ Hx) as Hne. simpl. split; [done|]. split; [by destruct (ss_members x)|].
  split; [|split].
  - clear -Hsort. induction Hsort as [|y l _ IH Hy]; simpl; [constructor|]. constructor; [done|].
    by apply Forall_map.
  - assert (forall y, y ∈ ss_members x -> owner (relay_track_id y) = full_track_name y) as Hown.
    { intros y (e&He&_&->)%Hmem. by apply (mo_entry _ _ _ Hm) in He as [? _]. }
    rewrite map_map. clear -Hnd Hown. induction (ss_members x) as [|y l IH]; simpl in *; [constructor|].
    apply NoDup_cons in Hnd as [Hy Hnd]. apply NoDup_cons. split; [|apply IH; [done|intros z Hz; apply Hown; by right]].
    intros (z&Ez&Hz)%list_elem_of_fmap. destruct Hy. rewrite <- (Hown y ltac:(by left)), Ez, Hown by (by right).
    by apply list_elem_of_fmap_2.
  - intros t r. rewrite list_elem_of_fmap. split.
    + intros (y&[= -> ->]&(e&He&Hs&->)%Hmem). eauto 6.
    + intros (n&e&He&Hs&<-&<-). exists (member_of n e). split; [done|]. apply Hmem. by exists e.
Qed.

Lemma ok_set_of k m s n : manager_ok k m s -> ss_id <$> get_set_for_track m n = h_set <$> fst s !! n.
Proof.
  intros Hm. unfold get_set_for_track. destruct (fst s !! n) as [e|] eqn:He; simpl.
  - destruct (ok_member _ _ _ _ _ Hm He) as (x&->&Hx&Hs&_). rewrite Hx. simpl. f_equal. apply Hs.
  - by rewrite (ok_absent _ _ _ _ Hm He).
Qed.
End Invariant.

(** * Properties *)

(** C28: the three maps of the manager are one assignment of tracks to sets.
    After any calls in a row, with relay track IDs that each name one track: the
    replies are those of a table with one entry per held track, a track is in
    the set of its entry and no other, the relay track IDs are those of the
    current entries, and an algorithm is shown, for exactly the sets that hold
    a track, the entries of the set by rising threshold under the latest
    properties given for it. *)
Theorem switching_sets_refine `{Target} (owner : Z -> FullTrackName) ops :
  Forall (op_ok owner) ops -> Z.of_nat (length ops) < U64 ->
  exists m, set_run SwitchingSetManager_new ops = Ok (m, snd (spec_run (∅, ∅) ops)) /\
    let '(tracks, props) := fst (spec_run (∅, ∅) ops) in
    (forall n, ss_id <$> get_set_for_track m n = h_set <$> tracks !! n) /\
    (forall r sid, relay_track_to_set m !! r = Some sid <->
       exists n e, tracks !! n = Some e /\ h_track e = r /\ h_set e = sid) /\
    (forall sid, is_Some (sets m !! sid) <-> exists n e, tracks !! n = Some e /\ h_set e = sid) /\
    forall sid x, sets m !! sid = Some x ->
      let snap := SetSnapshot_from x in
      set_id snap = sid /\
      props !! sid = Some (set_algorithm_id snap, set_weight snap, ss_activate x, set_rank snap) /\
      StronglySorted (fun a b => fst a <= fst b) (set_members snap) /\ NoDup (map snd (set_members snap)) /\
      forall t r, (t, r) ∈ set_members snap <->
        exists n e, tracks !! n = Some e /\ h_set e = sid /\ h_threshold e = t /\ h_track e = r.
Proof.
  intros Hops Hlen. destruct (set_run_ok owner ops 0 _ _ (manager_ok_new owner) ltac:(lia) ltac:(lia) Hops)
    as (m&E&Hm). exists m. split; [done|]. set (s := fst (spec_run (∅, ∅) ops)) in *.
  destruct s as [tracks props]. split; [intros n; by eapply ok_set_of in Hm|]. split; [apply Hm|].
  split.
  - intros sid. split.
    + intros [x Hx]. destruct (snapshot_members _ _ _ _ _ _ Hm Hx) as (_&Hne&_&_&Hmem).
      destruct (set_members _) as [|[t r] l]; [done|]. destruct (proj1 (Hmem t r) ltac:(by left)) as (n&e&?&?&_).
      eauto.
    + intros (n&e&He&<-). by eapply Hm.
  - intros sid x Hx. destruct (snapshot_members _ _ _ _ _ _ Hm Hx) as (Hid&_&Hsort&Hnd&Hmem).
    split; [done|]. split; [apply (mo_sets _ _ _ _ Hm _ _ Hx)|done].
Qed.

(** Two encodings of one content, and a name per relay track ID. *)
Definition demo_name (r : Z) : FullTrackName := mkFullTrackName [[100]] [r].
Definition demo_ops : list set_op :=
  [OpAssign (demo_name 1) 1 10 7 0 5000 1 2 0; OpAssign (demo_name 2) 2 11 7 0 800 5 2 0;
   OpAssign (demo_name 1) 1 12 8 0 5000 1 2 0; OpRelease (demo_name 1) 10].

Lemma switching_sets_refine_witness :
  Forall (op_ok demo_name) demo_ops /\ Z.of_nat (length demo_ops) < U64 /\
  snd (spec_run (∅, ∅) demo_ops) = [None; None; Some TrackInDifferentSet; None] /\
  exists m, set_run (H:=debug_build) SwitchingSetManager_new demo_ops = Ok (m, snd (spec_run (∅, ∅) demo_ops)).
Proof.
  assert (Forall (op_ok demo_name) demo_ops) as Hops by (repeat constructor).
  assert (Z.of_nat (length demo_ops) < U64) as Hlen by done.
  split; [exact Hops|]. split; [exact Hlen|]. split; [vm_compute; reflexivity|].
  destruct (@switching_sets_refine debug_build demo_name demo_ops Hops Hlen) as (m&E&_). exists m. exact E.
Defined.

(** ** Streams per set *)

(** One of the streams of a relay track ends. *)
Fixpoint remove_one (r : Z) (l : list Z) : list Z :=
  match l with
  | [] => []
  | x :: l => if x =? r then l else x :: remove_one r l
  end.
Definition live_after (live : list Z) (op : set_op) : list Z :=
  match op with OpOpened r => r :: live | OpClosed r => remove_one r live | _ => live end.

(** Runs with the list of live streams beside them, in which no call moves a
    track with a live stream into or out of a set. *)
Inductive settled `{Target} (owner : Z -> FullTrackName) : Z -> SwitchingSetManager -> list Z -> Prop :=
| settled_new : settled owner 0 SwitchingSetManager_new []
| settled_step k m live op m' e :
    settled owner k m live -> op_ok owner op -> set_step m op = Ok (m', e) ->
    match op with OpClosed r => r ∈ live | _ => True end ->
    (forall r, r ∈ live -> relay_track_to_set m' !! r = relay_track_to_set m !! r) ->
    settled owner (k + 1) m' (live_after live op).

Definition streams_of (m : SwitchingSetManager) (sid : Z) (live : list Z) : Z :=
  Z.of_nat (length (List.filter (fun r => bool_decide (relay_track_to_set m !! r = Some sid)) live)).

Lemma streams_of_ext m m' sid live :
  (forall r, r ∈ live -> relay_track_to_set m' !! r = relay_track_to_set m !! r) ->
  streams_of m' sid live = streams_of m sid live.
Proof.
  intros Hr. unfold streams_of. f_equal. induction live as [|r live IH]; simpl; [done|].
  rewrite Hr by (by left).
  assert (length (List.filter (fun r => bool_decide (relay_track_to_set m' !! r = Some sid)) live) =
          length (List.filter (fun r => bool_decide (relay_track_to_set m !! r = Some sid)) live)) as E.
  { apply IH. intros x Hx. apply Hr. by right. }
  case_bool_decide; simpl; lia.
Qed.

Lemma streams_of_remove m sid r live : r ∈ live ->
  streams_of m sid (remove_one r live) =
  streams_of m sid live - if bool_decide (relay_track_to_set m !! r = Some sid) then 1 else 0.
Proof.
  unfold streams_of. induction live as [|x live IH]; [by intros ?%not_elem_of_nil|]. intros Hr. simpl.
  destruct (Z.eqb_spec x r) as [->|Hne].
  - repeat case_bool_decide; simpl length; lia.
  - apply elem_of_cons in Hr as [-> | Hr]; [done|]. specialize (IH Hr). simpl.
    repeat case_bool_decide; simpl length in *; lia.
Qed.

(** A call about a track keeps the counters of the sets that stay. *)
Lemma counts_kept `{Target} owner k m s op m' e : manager_ok owner k m s -> op_ok owner op ->
  set_step m op = Ok (m', e) ->
  match op with
  | OpOpened _ | OpClosed _ => True
  | _ => forall sid, open_counts m' !! sid = open_counts m !! sid \/
           open_counts m' !! sid = None /\ ~ is_Some (sets m' !! sid)
  end.
Proof.
  intros Hm Hop Hstep.
  destruct op as [name track request sid0 algorithm thr weight activate rank|name request|name|
                  name algorithm thr weight activate rank|track|track]; [| | | |done|done]; simpl in Hstep; intros sid.
  - left. unfold assign in Hstep. destruct (track_to_set m !! name); [destruct (negb _)|];
      simplify_eq/=; try done; by destruct (put_member _ _).
  - injection Hstep as <- _. destruct (release_ok _ _ _ _ name request Hm) as (_&->&_).
    case_bool_decide; [by left|by right].
  - injection Hstep as <- _. destruct (remove_ok _ _ _ _ name Hm) as (_&_&_&->).
    case_bool_decide; [by left|by right].
  - left. unfold update_assignment in Hstep. destruct (track_to_set m !! name); [|by simplify_eq/=].
    destruct (sets m !! z); by simplify_eq/=.
Qed.

Lemma settled_ok `{Target} owner k m live : settled owner k m live -> k < U64 ->
  exists s, manager_ok owner k m s /\ 0 <= k /\
    forall sid, default 0 (open_counts m !! sid) = streams_of m sid live.
Proof.
  induction 1 as [|k m live op m' e Hrun IH Hop Hstep Hlive Hkeep]; intros Hk.
  - exists (∅, ∅). split; [apply manager_ok_new|]. done.
  - destruct IH as (s&Hm&Hk0&Hcount); [lia|].
    destruct (set_step_ok owner k m s op Hm Hk0 Hk Hop) as (m1&E&Hm1). rewrite E in Hstep.
    injection Hstep as -> _. exists (fst (spec_step s op)). split; [done|]. split; [lia|]. intros sid.
    pose proof (counts_kept _ _ _ _ _ _ _ Hm Hop E) as Hkept.
    destruct op as [name track request sid0 algorithm thr weight activate rank|name request|name|
                  name algorithm thr weight activate rank|track|track]; simpl live_after.
    1-4: rewrite (streams_of_ext m) by done; rewrite <- Hcount;
      destruct (Hkept sid) as [->|[Hnone Hgone]]; [done|];
      rewrite Hnone, Hcount; simpl; unfold streams_of; symmetry;
      rewrite filter_all_false; [done|]; intros r Hr; apply bool_decide_eq_false; intros Hin;
      rewrite <- Hkeep in Hin by done; apply (mo_tracks _ _ _ _ Hm1) in Hin as (n&e'&He&_&<-);
      destruct Hgone; by eapply Hm1.
    + simpl in E. destruct (opened_ok owner k m s track Hm Hk0 Hk) as (m2&E2&_&_&Hr&Hc). rewrite E2 in E.
      injection E as ->. rewrite Hc, Hcount. unfold streams_of. simpl. rewrite Hr.
      case_bool_decide; simpl length; lia.
    + simpl in E. injection E as <-. destruct (closed_ok owner k m s track Hm) as (_&_&Hr&->). rewrite Hcount.
      rewrite (streams_of_ext m (note_stream_closed m track)) by (intros; by rewrite Hr). rewrite streams_of_remove by done.
      assert (0 <= streams_of m sid (remove_one track live)) as Hnn by (unfold streams_of; lia).
      rewrite streams_of_remove in Hnn by done. lia.
Qed.

(** The stream counter of a set is the number of streams live on its
    tracks, as long as no call moves a track with a live stream into or out of
    a set. *)
Theorem open_streams_exact `{Target} (owner : Z -> FullTrackName) k m live sid :
  settled owner k m live -> k < U64 ->
  default 0 (open_counts m !! sid) = streams_of m sid live.
Proof. intros Hrun Hk. by destruct (settled_ok owner k m live Hrun Hk) as (s&_&_&->). Qed.

(** Runs given as a list of calls, with all conditions decided. *)
Fixpoint settled_run `{Target} (m : SwitchingSetManager) (live : list Z) (ops : list set_op)
    : panics (SwitchingSetManager * list Z * bool) :=
  match ops with
  | [] => Ok (m, live, true)
  | op :: ops =>
      let? r := set_step m op in
      let ok := match op with OpClosed r => bool_decide (r ∈ live) | _ => true end &&
        forallb (fun x => bool_decide (relay_track_to_set (fst r) !! x = relay_track_to_set m !! x)) live in
      let? q := settled_run (fst r) (live_after live op) ops in
      Ok (fst q, ok && snd q)
  end.

Lemma settled_run_settled `{Target} owner ops : forall k m live m' live', Forall (op_ok owner) ops ->
  settled owner k m live -> settled_run m live ops = Ok (m', live', true) ->
  settled owner (k + Z.of_nat (length ops)) m' live'.
Proof.
  induction ops as [|op ops IH]; intros k m live m' live' Hops Hrun E; simpl in *.
  - injection E as -> ->. by rewrite Z.add_0_r.
  - apply Forall_cons in Hops as [Hop Hops]. apply obind_Ok_inv in E as ([m1 e]&Estep&E). simpl in E.
    apply obind_Ok_inv in E as ([[m2 l2] ok]&Erun&E). simpl in E. injection E as -> -> Hok.
    apply andb_true_iff in Hok as [Hok ->]. apply andb_true_iff in Hok as [Hlive Hkeep].
    change (Z.pos _) with (Z.of_nat (S (length ops))).
    replace (k + Z.of_nat (S (length ops))) with (k + 1 + Z.of_nat (length ops)) by lia.
    eapply IH; [done| |done]. eapply settled_step; [done|done|done| |].
    + destruct op; try done. by apply bool_decide_eq_true in Hlive.
    + intros r Hr. rewrite forallb_forall in Hkeep. apply list_elem_of_In, Hkeep in Hr.
      by apply bool_decide_eq_true in Hr.
Qed.

(** Two tracks of a set, three streams, one of which ends. *)
Definition demo_streams : list set_op :=
  [OpAssign (demo_name 1) 1 10 7 0 5000 1 2 0; OpAssign (demo_name 2) 2 11 7 0 800 5 2 0;
   OpOpened 1; OpOpened 2; OpOpened 1; OpClosed 1; OpAssign (demo_name 3) 3 12 8 0 100 1 1 0].

Lemma open_streams_exact_witness : exists m live,
  settled_run (H:=debug_build) SwitchingSetManager_new [] demo_streams = Ok (m, live, true) /\
  live = [2; 1] /\ default 0 (open_counts m !! 7) = streams_of m 7 live.
Proof.
  destruct (settled_run (H:=debug_build) SwitchingSetManager_new [] demo_streams) as [[[m live] ok]| | |] eqn:E;
    [|exfalso; vm_compute in E; discriminate E..].
  assert (ok = true /\ live = [2; 1]) as [-> ->] by (vm_compute in E; injection E as _ <- <-; done).
  exists m, [2; 1]. split; [reflexivity|]. split; [reflexivity|].
  apply (@open_streams_exact debug_build demo_name (0 + Z.of_nat (length demo_streams)) m [2; 1] 7).
  - refine (settled_run_settled demo_name demo_streams 0 _ _ _ _ _ _ E); [repeat constructor|constructor].
  - reflexivity.
Defined.

(** What leaves a set with streams still open stays counted: the stream of the
    first track ends after the track was removed, and the set keeps a depth
    with no stream left. *)
Example removed_track_stays_counted : exists m rs,
  set_run (H:=debug_build) SwitchingSetManager_new
    [OpAssign (demo_name 1) 1 10 7 0 5000 1 2 0; OpAssign (demo_name 2) 2 11 7 0 800 5 2 0;
     OpOpened 1; OpRemove (demo_name 1); OpClosed 1] = Ok (m, rs) /\ open_counts m !! 7 = Some 1.
Proof. eexists _, _. split; [vm_compute; reflexivity|reflexivity]. Qed.

(** ** The counter of changes *)

(** What the rest of the relay reads of a track: its set and whether the set is
    active. *)
Definition gate_view (m : SwitchingSetManager) (n : FullTrackName) : option (Z * bool) :=
  (fun x => (ss_id x, is_active x)) <$> get_set_for_track m n.

Lemma bump_moves e : bump_epoch e <> e.
Proof. unfold bump_epoch, wrap64. intros Heq. pose proof (Z.mod_eq (e + 1) U64 ltac:(done)). lia. Qed.

Lemma write_member_length n x l : length (write_member n x l) = length l.
Proof. induction l as [|y l IH]; simpl; [done|]. case_bool_decide; simpl; by rewrite ?IH. Qed.

Lemma remove_bumps m n : remove m n = m \/ epoch (remove m n) = bump_epoch (epoch m).
Proof.
  unfold remove. destruct (track_to_set m !! n); [right|by left].
  destruct (sets m !! z) as [x|]; [|done]. by destruct (List.filter _ _).
Qed.

(** A call moves the counter or keeps every view. *)
Lemma step_epoch `{Target} m op m' e : set_step m op = Ok (m', e) ->
  epoch m' = bump_epoch (epoch m) \/ epoch m' = epoch m /\ forall n, gate_view m' n = gate_view m n.
Proof.
  destruct op as [name track request sid algorithm thr weight activate rank|name request|name|
                  name algorithm thr weight activate rank|track|track]; simpl; intros E.
  - destruct (assign _ _ _ _ _ _ _ _ _ _) as [m1|err| |] eqn:Ea; simplify_eq/=; [left|by right].
    revert Ea. unfold assign. destruct (track_to_set m !! name); [case_if; [done|]|];
      intros [= <-]; by destruct (put_member _ _).
  - injection E as <- _. unfold release. destruct (track_to_set m !! name) as [sid|]; [|by right].
    destruct (sets m !! sid) as [x|] eqn:Ex; [|by right]. destruct (find_member _ _) as [mem|]; [|by right].
    set (m1 := mkManager _ _ _ _ _).
    assert (forall n, gate_view m1 n = gate_view m n) as Hm1.
    { intros n. subst m1. unfold gate_view, get_set_for_track. simpl. destruct (track_to_set m !! n) as [sid'|]; [|done].
      rewrite lookup_insert. destruct (decide (sid = sid')) as [<-|]; [|done]. rewrite Ex. simpl. unfold is_active. simpl.
      by rewrite write_member_length. }
    case_if; [|by right]. destruct (remove_bumps m1 name) as [-> | ->]; [by right|by left].
  - injection E as <- _. destruct (remove_bumps m name) as [-> | ->]; [by right|by left].
  - destruct (update_assignment _ _ _ _ _ _ _) as [[m1 w]|err| |] eqn:Ea; simplify_eq/=; [left|by right].
    revert Ea. unfold update_assignment. destruct (track_to_set m !! name); [|done].
    destruct (sets m !! z); [|done]. by intros [= <- _].
  - right. unfold note_stream_opened in E. destruct (relay_track_to_set m !! track); [|by simplify_eq/=].
    destruct (add_u64 _ _); by simplify_eq/=.
  - right. injection E as <- _. unfold note_stream_closed. destruct (relay_track_to_set m !! track); [|done].
    by destruct (open_counts m !! z).
Qed.

(** A call that leaves the counter of changes as it was has not moved any
    track to another set, nor in or out of one, nor made a set active or
    inactive; so an answer kept with the counter it was read at is out of date
    only if the counter moved. *)
Theorem epoch_covers_changes `{Target} m op m' e n :
  set_step m op = Ok (m', e) -> epoch m' = epoch m -> gate_view m' n = gate_view m n.
Proof.
  intros Hstep Heq. destruct (step_epoch _ _ _ _ Hstep) as [Hb|[_ Hv]]; [|apply Hv].
  rewrite Heq in Hb. symmetry in Hb. by apply bump_moves in Hb.
Qed.

Lemma epoch_covers_changes_witness :
  exists m m', set_step (H:=debug_build) m (OpOpened 1) = Ok (m', None) /\ epoch m' = epoch m /\
    gate_view m' (demo_name 1) = Some (7, true) /\ gate_view m' (demo_name 1) = gate_view m (demo_name 1).
Proof.
  destruct (set_run (H:=debug_build) SwitchingSetManager_new [OpAssign (demo_name 1) 1 10 7 0 5000 1 1 0])
    as [[m rs]| | |] eqn:E; [|exfalso; vm_compute in E; discriminate E..].
  vm_compute in E. injection E as Em _. exists m.
  destruct (set_step (H:=debug_build) m (OpOpened 1)) as [[m' e]| | |] eqn:E';
    [|exfalso; rewrite <- Em in E'; vm_compute in E'; discriminate E'..].
  assert (e = None /\ epoch m' = epoch m) as [-> Hep]
    by (rewrite <- Em in E' |- *; vm_compute in E'; injection E' as <- <-; split; reflexivity).
  exists m'. split; [reflexivity|]. split; [exact Hep|].
  rewrite (@epoch_covers_changes debug_build m (OpOpened 1) m' None (demo_name 1) E' Hep).
  split; [rewrite <- Em; vm_compute; reflexivity|reflexivity].
Defined.
