(* ===== verification/Controller.v ===== *)
(** The relay's side of sender-side switching
    ([apps/relay/src/server/ssts/{mod,controller}.rs], and the forward gate of
    [subscription.rs]).

    A connection negotiates algorithms in SETUP.  Its controller decides, per
    group, which track of each set is forwarded, and records the decision; a
    decision once recorded is final until it is pruned behind the live edge.
    Each subscription asks the gate before it forwards an object; the gate keeps
    its last answer with the counter of changes it was read at. *)
From stdpp Require Import gmap.
From S2P Require Import Prelude TrackName Ssts Backpressure Control SetupOption SwitchingSet.

(** * The state of a connection ([ssts/mod.rs]) *)

Abbreviation GroupDecisions := (gmap Z Selection).

Record SstsState := mkSstsState {
  negotiated_algorithms : list Z;
  switching_sets : SwitchingSetManager;
  group_decisions : GroupDecisions
}.

(** [find_map] over the options: the first that reads as a list of algorithms. *)
Fixpoint advertised_in (options : list Pair.KeyValuePair) : list Z :=
  match options with
  | [] => []
  | kvp :: rest =>
      match SetupOption_deserialize kvp with
      | Ok (SO_SstsAlgorithms algorithms) => algorithms
      | _ => advertised_in rest
      end
  end.
Definition advertised_algorithms (setup : Setup) : list Z := advertised_in (setup_options setup).

Definition SstsState_new (client_setup : Setup) (relay_algorithms : list Z) : SstsState :=
  mkSstsState (List.filter (fun id => existsb (Z.eqb id) relay_algorithms) (advertised_algorithms client_setup))
    SwitchingSetManager_new ∅.

Definition ssts_enabled (self : SstsState) : bool :=
  match negotiated_algorithms self with [] => false | _ => true end.

Definition has_group_decision (decisions : GroupDecisions) (group_id : Z) : bool :=
  bool_decide (is_Some (decisions !! group_id)).

Definition record_group_decision (decisions : GroupDecisions) (group_id : Z) (decision : Selection)
    (oldest_kept : Z) : GroupDecisions * bool :=
  match decisions !! group_id with
  | None =>
      (filter (fun kv => oldest_kept <= fst kv \/ fst kv = group_id) (<[group_id := decision]> decisions), true)
  | Some _ => (decisions, false)
  end.

Inductive AssignmentError : Type := NotNegotiated | AlgorithmNotNegotiated (algorithm_id : Z).

Definition validate_assignment (self : SstsState) (algorithm_id : Z) : outcome AssignmentError unit :=
  match negotiated_algorithms self with
  | [] => Err NotNegotiated
  | negotiated =>
      if negb (existsb (Z.eqb algorithm_id) negotiated) then Err (AlgorithmNotNegotiated algorithm_id) else Ok tt
  end.

(** [HashMap::values] yields the values in an order of its own. *)
Class HashMapOrder := {
  values : gmap Z SwitchingSet -> list SwitchingSet;
  values_all : forall m, values m ≡ₚ map snd (map_to_list m)
}.
#[refine] Instance key_order : HashMapOrder := { values := fun m => map snd (map_to_list m) }.
Proof. done. Defined.

Definition decision_snapshot `{HashMapOrder} (self : SwitchingSetManager) : list SetSnapshot * gmap Z Z :=
  (map SetSnapshot_from (values (sets self)), open_counts self).

(** * The decision loop ([ssts/controller.rs]) *)

Definition DECISION_WINDOW : Z := 5.

Record Running := mkRunning { running_id : Z; running_algorithm : AbrAlgorithm }.

(** The algorithms of the connection; a negotiated one that is not registered
    is left out. *)
Definition start_running (negotiated : list Z) : list Running :=
  flat_map (fun id => match registry_create id with Some a => [mkRunning id a] | None => [] end) negotiated.

Definition validate (selection : Selection) (sets : list SetSnapshot) : Selection :=
  fold_left (fun (validated : Selection) set =>
    match selection !! set_id set with
    | Some (Some track_id) =>
        if has_track set track_id then <[set_id set := Some track_id]> validated
        else <[set_id set := None]> validated
    | Some None => <[set_id set := None]> validated
    | None => <[set_id set := None]> validated
    end) sets ∅.

(** What a decision sees of the world: the sender's estimate and the cap of the
    configuration. *)
Record Link := mkLink { link_client : Z; link_estimate : Z; link_cap : Z }.

(** The loop over the running algorithms.  [HashMap::extend] overwrites. *)
Definition decide_algorithms `{Target} (link : Link) (group_id : Z) (sets : list SetSnapshot)
    (open_streams : gmap Z Z) (timeouts : Z) (running : list Running) : panics (list Running * Selection) :=
  for_each running (fun s algorithm =>
    let '(done, decisions) := s in
    let algorithm_sets := List.filter (fun set => set_algorithm_id set =? running_id algorithm) sets in
    match algorithm_sets with
    | [] => Ok (done ++ [algorithm], decisions)
    | _ =>
        let? r := algorithm_decide (running_algorithm algorithm)
          (mkAbrInput (link_client link) group_id (link_estimate link) (link_cap link) algorithm_sets open_streams
             timeouts) in
        Ok (done ++ [mkRunning (running_id algorithm) (fst r)], validate (snd r) algorithm_sets ∪ decisions)
    end) ([], ∅).

(** A set no running algorithm owns forwards nothing. *)
Definition fill_unowned (sets : list SetSnapshot) (decisions : Selection) : Selection :=
  fold_left (fun (d : Selection) set => <[set_id set := None]> d)
    (List.filter (fun set => negb (bool_decide (is_Some (decisions !! set_id set)))) sets) decisions.

Record Controller := mkController {
  running : list Running;
  last_group : option Z;
  largest_group : Z;
  stream_timeouts : Z
}.

(** Without an algorithm the loop does not start. *)
Definition Controller_start (negotiated : list Z) : option Controller :=
  match start_running negotiated with
  | [] => None
  | running => Some (mkController running None 0 0)
  end.

(** [decide]: the new algorithms and counter of timeouts, and the decisions. *)
Definition decide_group `{Target, HashMapOrder} (link : Link) (self : Controller) (manager : SwitchingSetManager)
    (decisions : GroupDecisions) (group_id : Z) : panics (Controller * GroupDecisions) :=
  let '(sets, open_streams) := decision_snapshot manager in
  match sets with
  | [] => Ok (self, decisions)
  | _ =>
      let? r := decide_algorithms link group_id sets open_streams (stream_timeouts self) (running self) in
      let '(decisions, _) :=
        record_group_decision decisions group_id (fill_unowned sets (snd r))
          (saturating_sub (largest_group self) DECISION_WINDOW) in
      Ok (mkController (fst r) (last_group self) (largest_group self) 0, decisions)
  end.

Inductive AbrMessage : Type :=
| NewGroup (group_id : Z)
| StreamTimeout (group_id : Z)
| Tick.

(** One turn of the loop.  A group that has its answer is not decided again. *)
Definition on_message `{Target, HashMapOrder} (link : Link) (self : Controller) (manager : SwitchingSetManager)
    (decisions : GroupDecisions) (message : AbrMessage) : panics (Controller * GroupDecisions) :=
  match message with
  | NewGroup group_id =>
      let self := mkController (running self) (Some (Z.max group_id (default 0 (last_group self))))
                    (Z.max (largest_group self) group_id) (stream_timeouts self) in
      if has_group_decision decisions group_id then Ok (self, decisions)
      else decide_group link self manager decisions group_id
  | StreamTimeout group_id =>
      let? timeouts := add_u64 (stream_timeouts self) 1 in
      let self := mkController (running self) (last_group self) (Z.max (largest_group self) group_id) timeouts in
      match last_group self with
      | Some group_id => decide_group link self manager decisions group_id
      | None => Ok (self, decisions)
      end
  | Tick =>
      match last_group self with
      | Some group_id => decide_group link self manager decisions group_id
      | None => Ok (self, decisions)
      end
  end.

(** * The forward gate ([subscription.rs]) *)

Definition SSTS_GATE_GROUP_NONE : Z := U64_MAX.

(** What a subscription keeps: group, epoch and answer. *)
Record Gate := mkGate { gate_group : Z; gate_epoch : Z; gate_forward : bool }.
Definition Gate_new : Gate := mkGate SSTS_GATE_GROUP_NONE 0 false.

(** Where the task of a subscription stands within [ssts_gate_allows]: every
    read of shared state is a step of its own. *)
Inductive gate_pc : Type :=
| AtObject (group_id : Z)
| Sampled (group_id epoch : Z)
| InSet (group_id epoch set_id : Z)
| Waiting (group_id : Z)
| Answered (group_id : Z) (forward : bool).

(** One step; the last part is a message to the controller. *)
Definition gate_step (name : FullTrackName) (relay_track_id : Z) (manager : SwitchingSetManager)
    (decisions : GroupDecisions) (gate : Gate) (pc : gate_pc) : Gate * gate_pc * option AbrMessage :=
  match pc with
  | AtObject group_id =>
      if (gate_group gate =? group_id) && (gate_epoch gate =? epoch manager)
      then (gate, Answered group_id (gate_forward gate), None)
      else (gate, Sampled group_id (epoch manager), None)
  | Sampled group_id epoch =>
      match ss_id <$> get_set_for_track manager name with
      | None => (mkGate group_id epoch true, Answered group_id true, None)
      | Some set_id => (gate, InSet group_id epoch set_id, None)
      end
  | InSet group_id epoch set_id =>
      match match decisions !! group_id with Some sets => sets !! set_id | None => None end with
      | Some chosen =>
          let forward := bool_decide (chosen = Some relay_track_id) in
          (mkGate group_id epoch forward, Answered group_id forward, None)
      | None => (gate, Waiting group_id, Some (NewGroup group_id))
      end
  | Waiting group_id => (gate, Sampled group_id (epoch manager), None)
  | Answered group_id forward => (gate, Answered group_id forward, None)
  end.

(** * Lemmas on a decision *)

Lemma max_index_le sets b : 0 <= b ->
  Forall (fun s => Z.of_nat (length (set_members s)) - 1 <= b) sets -> max_index sets <= b.
Proof.
  intros Hb Hs. unfold max_index, saturating_sub. destruct Hs as [|s sets Hs Hrest]; simpl; [lia|].
  assert (forall l x, x <= b + 1 -> Forall (fun s => Z.of_nat (length (set_members s)) - 1 <= b) l ->
    fold_left Z.max (map (fun set => Z.of_nat (length (set_members set))) l) x <= b + 1) as Hmax.
  { induction l as [|y l IH]; intros x Hx Hl; simpl; [lia|]. apply Forall_cons in Hl as [Hy Hl].
    apply IH; [lia|done]. }
  pose proof (Hmax sets (Z.of_nat (length (set_members s))) ltac:(lia) Hrest). lia.
Qed.

Lemma zsum_filter_le {A} (f : A -> Z) (p : A -> bool) l :
  Forall (fun x => 0 <= f x) l -> zsum (map f (List.filter p l)) <= zsum (map f l).
Proof. induction 1 as [|x l Hx Hl IH]; simpl; [done|]. destruct (p x); simpl; lia. Qed.

Lemma NoDup_map_filter {A B} (f : A -> B) (p : A -> bool) l : NoDup (map f l) -> NoDup (map f (List.filter p l)).
Proof.
  induction l as [|x l IH]; simpl; [done|]. rewrite NoDup_cons. intros [Hx Hl]. destruct (p x); [|by apply IH].
  simpl. apply NoDup_cons. split; [|by apply IH]. rewrite list_elem_of_fmap. intros (y&E&Hy).
  apply in_filter_b in Hy as [Hy _]. destruct Hx. rewrite E. by apply list_elem_of_fmap_2.
Qed.

(** The world at a decision: weights and thresholds in range, set IDs distinct,
    and sums that fit their width. *)
Record world_ok (link : Link) (sets : list SetSnapshot) (streams : gmap Z Z) (timeouts : Z) : Prop := {
  wo_ids : NoDup (map set_id sets);
  wo_sets : Forall snapshot_ok sets;
  wo_weights : zsum (map set_weight sets) < U64;
  wo_lengths : Forall (fun s => Z.of_nat (length (set_members s)) < U64) sets;
  wo_streams : forall i n, streams !! i = Some n -> 0 <= n;
  wo_timeouts : 0 <= timeouts;
  wo_depth : zsum (map (fun s => default 0 (streams !! set_id s)) sets) + timeouts < U64;
  wo_link : 0 <= link_estimate link /\ 0 <= link_cap link
}.

Lemma world_ok_filter link sets streams timeouts p : world_ok link sets streams timeouts ->
  world_ok link (List.filter p sets) streams timeouts.
Proof.
  intros [Hi Hs Hw Hl Hn Ht Hd Hlink].
  assert (forall P : SetSnapshot -> Prop, Forall P sets -> Forall P (List.filter p sets)) as Hsub.
  { intros P. rewrite !Forall_forall. intros HP s [Hin _]%in_filter_b. auto. }
  constructor; auto using NoDup_map_filter.
  - pose proof (zsum_filter_le set_weight p sets) as Hle.
    assert (Forall (fun x => 0 <= set_weight x) sets) as Hpos; [|specialize (Hle Hpos); lia].
    eapply Forall_impl; [exact Hs|]. by intros s [? _].
  - pose proof (zsum_filter_le (fun s => default 0 (streams !! set_id s)) p sets) as Hle.
    assert (Forall (fun x => 0 <= default 0 (streams !! set_id x)) sets) as Hpos; [|specialize (Hle Hpos); lia].
    apply Forall_true. intros s. destruct (streams !! set_id s) eqn:E; simpl; [by eapply Hn|done].
Qed.

Definition algorithm_ok (a : AbrAlgorithm) : Prop :=
  match a with DefaultAlgorithm => True | BackpressureAlgorithm st => state_ok st end.

Lemma algorithm_decide_Ok `{Target} link group sets streams timeouts a :
  world_ok link sets streams timeouts -> algorithm_ok a ->
  exists a' d, algorithm_decide a (mkAbrInput (link_client link) group (link_estimate link) (link_cap link) sets
    streams timeouts) = Ok (a', d) /\ algorithm_ok a'.
Proof.
  intros [Hi Hs Hw Hl Hn Ht Hd [He Hc]] Ha. destruct a as [|st]; simpl.
  - unfold default_decide. simpl. set (budget := Z.min _ _).
    assert (0 <= budget) as Hb.
    { unfold budget, budget_kbps. simpl. change UNLIMITED_KBPS with 4611686018427387903.
      destruct (Z.eqb_spec (link_estimate link) 0), (Z.eqb_spec (link_cap link) 0); simpl; lia. }
    destruct (allocate_Ok sets budget Hs Hi Hw Hb) as (d&f&->&_). simpl. by eexists _, _.
  - set (input := mkAbrInput _ _ _ _ _ _ _). assert (input_ok input) as Hin.
    { constructor; simpl; try done.
      - unfold depth_of, open_streams. simpl.
        pose proof (zsum_filter_le (fun s => default 0 (streams !! set_id s)) set_active sets) as Hle.
        assert (Forall (fun x => 0 <= default 0 (streams !! set_id x)) sets) as Hpos; [|specialize (Hle Hpos); lia].
        apply Forall_true. intros s. destruct (streams !! set_id s) eqn:E; simpl; [by eapply Hn|done].
      - assert (max_index sets <= U64 - 2); [|lia]. apply max_index_le; [done|].
        eapply Forall_impl; [exact Hl|]. simpl. lia. }
    destruct (decide_Ok st input Ha Hin) as (st'&d&e&st1&->&_&_&_&_&Hst'&_). simpl. by eexists _, _.
Qed.

(** An entry per set, and a track only from the set. *)
Definition answers (sets : list SetSnapshot) (d : Selection) : Prop :=
  forall sid c, d !! sid = Some c ->
    exists s, s ∈ sets /\ set_id s = sid /\ forall t, c = Some t -> has_track s t = true.

Definition validated_choice (selection : Selection) (set : SetSnapshot) : option Z :=
  match selection !! set_id set with
  | Some (Some t) => if has_track set t then Some t else None
  | _ => None
  end.

Lemma validate_collect selection sets : validate selection sets = collect_selection (validated_choice selection) sets.
Proof.
  unfold validate, collect_selection. generalize (∅ : Selection). induction sets as [|s sets IH]; intros d; simpl; [done|].
  rewrite <- IH. f_equal. unfold validated_choice. destruct (selection !! set_id s) as [[t|]|]; [|done..].
  by destruct (has_track s t).
Qed.

Lemma validate_answers selection sets : NoDup (map set_id sets) ->
  answers sets (validate selection sets) /\ forall s, s ∈ sets -> is_Some (validate selection sets !! set_id s).
Proof.
  intros Hnd. rewrite validate_collect. destruct (collect_selection_lookup (validated_choice selection) sets Hnd) as [Hin Hout].
  split; [|intros s Hs; by rewrite Hin].
  intros sid c Hc. destruct (decide (sid ∈ map set_id sets)) as [Hsid|Hsid]; [|by rewrite Hout in Hc].
  apply list_elem_of_fmap in Hsid as (s&->&Hs). exists s. split; [done|]. split; [done|]. intros t ->.
  rewrite Hin in Hc by done. injection Hc as Hc. unfold validated_choice in Hc.
  destruct (selection !! set_id s) as [[t'|]|]; [|done..]. destruct (has_track s t') eqn:E; [|done]. by injection Hc as ->.
Qed.

Lemma answers_mono sets sets' d : (forall s, s ∈ sets -> s ∈ sets') -> answers sets d -> answers sets' d.
Proof. intros Hsub Hd sid c Hc. destruct (Hd sid c Hc) as (s&Hs&?). exists s. split; [by apply Hsub|done]. Qed.
Lemma answers_union sets d d' : answers sets d -> answers sets d' -> answers sets (d ∪ d').
Proof. intros Hd Hd' sid c Hc. apply lookup_union_Some_raw in Hc as [Hc|[_ Hc]]; [by apply Hd|by apply Hd']. Qed.

Lemma decide_algorithms_Ok `{Target} link group sets streams timeouts running :
  world_ok link sets streams timeouts -> Forall (fun r => algorithm_ok (running_algorithm r)) running ->
  exists running' d, decide_algorithms link group sets streams timeouts running = Ok (running', d) /\
    map running_id running' = map running_id running /\
    Forall (fun r => algorithm_ok (running_algorithm r)) running' /\ answers sets d /\
    forall s, s ∈ sets -> set_algorithm_id s ∈ map running_id running -> is_Some (d !! set_id s).
Proof.
  intros Hw Hr. unfold decide_algorithms.
  set (P := fun (done : list Running) (s : list Running * Selection) =>
    map running_id (fst s) = map running_id done /\
    Forall (fun r => algorithm_ok (running_algorithm r)) (fst s) /\ answers sets (snd s) /\
    forall x, x ∈ sets -> set_algorithm_id x ∈ map running_id done -> is_Some (snd s !! set_id x)).
  edestruct (for_each_inv P running) with (s := (@nil Running, ∅ : Selection)) as ([running' d]&E&HP).
  3:{ exists running', d. split; [exact E|exact HP]. }
  - intros dn algorithm rest [done_ d] El (Hids&Hoks&Hans&Hall). simpl in Hids, Hoks, Hans, Hall.
    assert (algorithm_ok (running_algorithm algorithm)) as Ha.
    { rewrite El in Hr. apply Forall_app in Hr as [_ Hr]. by apply Forall_cons in Hr as [? _]. }
    set (mine := List.filter _ sets). pose proof (world_ok_filter _ _ _ _ (fun set => set_algorithm_id set =? running_id algorithm) Hw) as Hmine.
    fold mine in Hmine.
    assert (forall x, x ∈ mine <-> x ∈ sets /\ set_algorithm_id x = running_id algorithm) as Hin.
    { intros x. unfold mine. by rewrite in_filter_b, Z.eqb_eq. }
    destruct mine as [|m0 mine'] eqn:Em.
    + eexists. split; [reflexivity|]. unfold P. simpl. rewrite !map_app, Hids. split; [done|].
      split; [by apply Forall_snoc|]. split; [done|]. intros x Hx [Hx'|Hx']%elem_of_app; [by apply Hall|].
      apply list_elem_of_singleton in Hx'. destruct (not_elem_of_nil x). by apply Hin.
    + destruct (algorithm_decide_Ok link group (m0 :: mine') streams timeouts (running_algorithm algorithm) Hmine Ha)
        as (a'&sel&->&Ha'). simpl obind. eexists. split; [reflexivity|].
      destruct (validate_answers sel (m0 :: mine')) as [Hv1 Hv2]; [apply Hmine|].
      unfold P. cbn [fst snd]. rewrite !map_app, Hids. split; [done|]. split; [by apply Forall_snoc|].
      split; [apply answers_union; [|done]; eapply answers_mono; [|exact Hv1]; intros x Hx; by apply Hin|].
      intros x Hx Hx'. destruct (decide (set_algorithm_id x = running_id algorithm)) as [Heq|Hne].
      * apply lookup_union_is_Some. left. apply Hv2. by apply Hin.
      * apply elem_of_app in Hx' as [Hx'|Hx']; [apply lookup_union_is_Some; right; by apply Hall|].
        by apply list_elem_of_singleton in Hx'.
  - unfold P. simpl. split; [done|]. split; [constructor|]. split; [by intros sid c; rewrite lookup_empty|].
    intros x _ Hx. by apply not_elem_of_nil in Hx.
Qed.

Lemma fill_unowned_spec sets d : answers sets d ->
  answers sets (fill_unowned sets d) /\ (forall s, s ∈ sets -> is_Some (fill_unowned sets d !! set_id s)) /\
  forall sid c, d !! sid = Some c -> fill_unowned sets d !! sid = Some c.
Proof.
  intros Hd. unfold fill_unowned. set (missing := List.filter _ sets).
  assert (forall l (e : Selection), (forall s, s ∈ l -> s ∈ sets /\ d !! set_id s = None) -> answers sets e ->
    let e' := fold_left (fun (d : Selection) set => <[set_id set := None]> d) l e in
    answers sets e' /\ (forall s, s ∈ l -> is_Some (e' !! set_id s)) /\
    (forall sid, is_Some (e !! sid) -> is_Some (e' !! sid)) /\
    forall sid, is_Some (d !! sid) -> e' !! sid = e !! sid) as Hgen.
  { clear missing. induction l as [|s l IH]; intros e Hl He; simpl.
    - split; [done|]. split; [by intros s ?%not_elem_of_nil|done].
    - destruct (Hl s ltac:(by left)) as [Hs Hnone].
      destruct (IH (<[set_id s := None]> e)) as (H1&H2&H3&H4).
      + intros x Hx. apply Hl. by right.
      + intros sid c Hc. apply lookup_insert_Some in Hc as [[<- <-]|[_ Hc]]; [by exists s|by apply He].
      + split; [done|]. split; [|split].
        * intros x [-> | Hx]%elem_of_cons; [|by apply H2]. apply H3. by rewrite lookup_insert_eq.
        * intros sid Hsid. apply H3. destruct (decide (set_id s = sid)) as [<-|Hne]; [by rewrite lookup_insert_eq|].
          by rewrite lookup_insert_ne.
        * intros sid Hsid. rewrite H4 by done. apply lookup_insert_ne. intros <-. rewrite Hnone in Hsid.
          by apply is_Some_None in Hsid. }
  destruct (Hgen missing d) as (H1&H2&H3&H4); [|done|].
  - intros s [Hs Hn]%in_filter_b. split; [done|]. apply negb_true_iff, bool_decide_eq_false in Hn.
    by apply eq_None_not_Some.
  - split; [done|]. split.
    + intros s Hs. destruct (d !! set_id s) as [c|] eqn:E; [apply H3; by rewrite E|]. apply H2.
      apply in_filter_b. split; [done|]. by rewrite bool_decide_eq_false_2 by (rewrite E; apply is_Some_None).
    + intros sid c Hc. rewrite H4; [done|]. by rewrite Hc.
Qed.

(** * Lemmas on the controller *)

Definition controller_ok (c : Controller) : Prop :=
  Forall (fun r => algorithm_ok (running_algorithm r)) (running c) /\ 0 <= stream_timeouts c.

(** What is new in the decisions. *)
Definition added (before after : GroupDecisions) : list (Z * Selection) :=
  map_to_list (filter (fun kv => before !! fst kv = None) after).

(** A decision for all sets of a snapshot, each with a track of its own or none. *)
Definition decides_all (sets : list SetSnapshot) (d : Selection) : Prop :=
  answers sets d /\ forall s, s ∈ sets -> is_Some (d !! set_id s).

(** A group is decided, and groups too far behind the largest are dropped. *)
Definition recorded_one (sets : list SetSnapshot) (largest : Z) (before after : GroupDecisions) (g : Z) : Prop :=
  before !! g = None /\
  exists d, after !! g = Some d /\ decides_all sets d /\
    forall g', g' <> g ->
      after !! g' = if bool_decide (saturating_sub largest DECISION_WINDOW <= g') then before !! g' else None.

Lemma record_lookup (ds : GroupDecisions) g d oldest g' : ds !! g = None ->
  fst (record_group_decision ds g d oldest) !! g' =
  if bool_decide (g' = g) then Some d else if bool_decide (oldest <= g') then ds !! g' else None.
Proof.
  intros Hg. unfold record_group_decision. rewrite Hg. simpl. apply option_eq. intros v.
  rewrite map_lookup_filter_Some. simpl. case_bool_decide as E; [subst g'; rewrite lookup_insert_eq; naive_solver|].
  rewrite lookup_insert_ne by done. case_bool_decide; naive_solver.
Qed.

Lemma decide_group_Ok `{Target, HashMapOrder} link c manager ds g :
  let sets := fst (decision_snapshot manager) in
  controller_ok c -> world_ok link sets (open_counts manager) (stream_timeouts c) ->
  exists c' ds', decide_group link c manager ds g = Ok (c', ds') /\ controller_ok c' /\
    last_group c' = last_group c /\ largest_group c' = largest_group c /\
    (ds' = ds \/ recorded_one sets (largest_group c) ds ds' g) /\ (sets <> [] -> is_Some (ds' !! g)).
Proof.
  intros sets [Hr Ht] Hw. unfold decide_group. rewrite (surjective_pairing (decision_snapshot manager)). fold sets.
  destruct sets as [|s0 sets'].
  { exists c, ds. split; [done|]. split; [done|]. split; [done|]. split; [done|]. by split; [left|]. }
  generalize dependent (s0 :: sets'). clear s0 sets'. intros sets Hw.
  destruct (decide_algorithms_Ok link g sets (open_counts manager) (stream_timeouts c) (running c) Hw Hr)
    as (running'&d&E&Hids&Hr'&Hans&_). simpl snd. rewrite E. cbn [obind fst snd].
  destruct (fill_unowned_spec sets d Hans) as (Hans'&Hall&_). set (d' := fill_unowned sets d) in *.
  destruct (record_group_decision ds g d' (saturating_sub (largest_group c) DECISION_WINDOW)) as [ds' b] eqn:Erec.
  pose proof (f_equal fst Erec) as Eds. simpl in Eds. subst ds'. clear Erec b.
  eexists _, _. split; [done|]. split; [split; [exact Hr'|done]|]. split; [done|]. split; [done|].
  destruct (ds !! g) as [d0|] eqn:Eg.
  - unfold record_group_decision. rewrite Eg. simpl. split; [by left|done].
  - split; [right|]. 2:{ intros _. by rewrite record_lookup, bool_decide_eq_true_2. }
    split; [done|]. exists d'. split; [by rewrite record_lookup, bool_decide_eq_true_2|].
    split; [done|]. intros g' Hne. by rewrite record_lookup, (bool_decide_eq_false_2 (g' = g)).
Qed.

Lemma world_ok_timeouts link sets streams t t' : world_ok link sets streams t -> 0 <= t' <= t ->
  world_ok link sets streams t'.
Proof. intros [Hi Hs Hw Hl Hn Ht Hd Hlink] Ht'. constructor; try done; lia. Qed.

(** The group a message is about, if it decides one. *)
Definition message_group (c : Controller) (ds : GroupDecisions) (message : AbrMessage) : option Z :=
  match message with
  | NewGroup g => if has_group_decision ds g then None else Some g
  | StreamTimeout _ | Tick => last_group c
  end.
Definition largest_after (c : Controller) (message : AbrMessage) : Z :=
  match message with
  | NewGroup g | StreamTimeout g => Z.max (largest_group c) g
  | Tick => largest_group c
  end.

Lemma on_message_Ok `{Target, HashMapOrder} link c manager ds message :
  let sets := fst (decision_snapshot manager) in
  controller_ok c -> world_ok link sets (open_counts manager) (stream_timeouts c + 1) ->
  exists c' ds', on_message link c manager ds message = Ok (c', ds') /\ controller_ok c' /\
    largest_group c' = largest_after c message /\
    match message_group c ds message with
    | Some g => (ds' = ds \/ recorded_one sets (largest_after c message) ds ds' g) /\ (sets <> [] -> is_Some (ds' !! g))
    | None => ds' = ds
    end.
Proof.
  intros sets [Hr Ht] Hw.
  assert (forall t, 0 <= t <= stream_timeouts c + 1 -> world_ok link sets (open_counts manager) t) as Hw'
    by (intros t; apply world_ok_timeouts, Hw).
  destruct message as [g|g|]; simpl.
  - destruct (has_group_decision ds g) eqn:Eg; [by eexists _, _|].
    set (c1 := mkController _ _ _ _).
    destruct (decide_group_Ok link c1 manager ds g) as (c'&ds'&->&Hc'&_&Hl&Hd); [done|apply Hw'; simpl; lia|].
    by exists c', ds'.
  - pose proof (wo_depth _ _ _ _ Hw) as Hdep.
    assert (0 <= zsum (map (fun s => default 0 (open_counts manager !! set_id s)) sets)) as Hnn.
    { apply zsum_nonneg. rewrite Forall_map. apply Forall_true. intros s.
      destruct (open_counts manager !! set_id s) eqn:E; simpl; [by eapply (wo_streams _ _ _ _ Hw)|done]. }
    unfold add_u64. rewrite arith_u64_Ok by (unfold is_u64; lia). cbn [obind].
    set (c1 := mkController _ _ _ _). destruct (last_group c) as [g'|] eqn:Eg; simpl; [|eexists _, _; split; [done|]; split; [split; [done|simpl; lia]|done]].
    destruct (decide_group_Ok link c1 manager ds g') as (c'&ds'&->&Hc'&_&Hl&Hd);
      [split; [done|simpl; lia]|apply Hw'; simpl; lia|]. by exists c', ds'.
  - destruct (last_group c) as [g'|] eqn:Eg; [|by exists c, ds].
    destruct (decide_group_Ok link c manager ds g') as (c'&ds'&->&Hc'&_&Hl&Hd); [done|apply Hw'; lia|].
    by exists c', ds'.
Qed.

(** * A connection as a whole *)

Record Subscriber := mkSubscriber {
  sub_name : FullTrackName;
  sub_track : Z;
  sub_gate : Gate;
  sub_pc : gate_pc
}.

(** [recorded] is not in the code: every decision recorded so far. *)
Record Sys := mkSys {
  manager : SwitchingSetManager;
  decisions : GroupDecisions;
  controller : Controller;
  subscribers : gmap Z Subscriber;
  recorded : list (Z * Selection)
}.

Section System.
Context `{Target, HashMapOrder}.

(** Steps of different tasks interleave in any order. *)
Inductive sys_step (s : Sys) : Sys -> Prop :=
| StepSets op m' e : set_step (manager s) op = Ok (m', e) ->
    sys_step s (mkSys m' (decisions s) (controller s) (subscribers s) (recorded s))
| StepController link message c' ds' :
    on_message link (controller s) (manager s) (decisions s) message = Ok (c', ds') ->
    sys_step s (mkSys (manager s) ds' c' (subscribers s) (recorded s ++ added (decisions s) ds'))
| StepSubscribe i name track group :
    subscribers s !! i = None -> group <> SSTS_GATE_GROUP_NONE ->
    sys_step s (mkSys (manager s) (decisions s) (controller s)
                  (<[i := mkSubscriber name track Gate_new (AtObject group)]> (subscribers s)) (recorded s))
| StepObject i sub group0 forward group :
    subscribers s !! i = Some sub -> sub_pc sub = Answered group0 forward -> group <> SSTS_GATE_GROUP_NONE ->
    sys_step s (mkSys (manager s) (decisions s) (controller s)
                  (<[i := mkSubscriber (sub_name sub) (sub_track sub) (sub_gate sub) (AtObject group)]> (subscribers s))
                  (recorded s))
| StepGate i sub gate' pc' message :
    subscribers s !! i = Some sub ->
    gate_step (sub_name sub) (sub_track sub) (manager s) (decisions s) (sub_gate sub) (sub_pc sub) = (gate', pc', message) ->
    sys_step s (mkSys (manager s) (decisions s) (controller s)
                  (<[i := mkSubscriber (sub_name sub) (sub_track sub) gate' pc']> (subscribers s)) (recorded s)).

Inductive reached (c0 : Controller) : Z -> Sys -> Prop :=
| reached_start : reached c0 0 (mkSys SwitchingSetManager_new ∅ c0 ∅ [])
| reached_step k s s' : reached c0 k s -> sys_step s s' -> reached c0 (k + 1) s'.

(** The answer [forward] for a group: a track in no set is forwarded; one in a
    set is if a recorded decision picks it. *)
Definition verdict (s : Sys) (name : FullTrackName) (track group : Z) (forward : bool) : Prop :=
  match ss_id <$> get_set_for_track (manager s) name with
  | None => forward = true
  | Some sid => exists d c, (group, d) ∈ recorded s /\ d !! sid = Some c /\ forward = bool_decide (c = Some track)
  end.

(** What a subscription knows, if the counter has not moved since. *)
Definition sub_ok (s : Sys) (sub : Subscriber) : Prop :=
  let gate := sub_gate sub in
  let now := epoch (manager s) in
  gate_epoch gate <= now /\
  (gate_group gate <> SSTS_GATE_GROUP_NONE -> gate_epoch gate = now ->
     verdict s (sub_name sub) (sub_track sub) (gate_group gate) (gate_forward gate)) /\
  match sub_pc sub with
  | AtObject group => group <> SSTS_GATE_GROUP_NONE
  | Sampled group e => group <> SSTS_GATE_GROUP_NONE /\ e <= now
  | InSet group e sid => group <> SSTS_GATE_GROUP_NONE /\ e <= now /\
      (e = now -> ss_id <$> get_set_for_track (manager s) (sub_name sub) = Some sid)
  | Waiting group => group <> SSTS_GATE_GROUP_NONE
  | Answered _ _ => True
  end.

Record sys_ok (k : Z) (s : Sys) : Prop := {
  so_epoch : 0 <= epoch (manager s) <= k;
  so_subs : forall i sub, subscribers s !! i = Some sub -> sub_ok s sub;
  so_recorded : forall g d, decisions s !! g = Some d -> (g, d) ∈ recorded s
}.

Lemma view_of_set m m' : (forall n, gate_view m' n = gate_view m n) ->
  forall n, ss_id <$> get_set_for_track m' n = ss_id <$> get_set_for_track m n.
Proof.
  intros Hv n. specialize (Hv n). unfold gate_view in Hv.
  destruct (get_set_for_track m' n), (get_set_for_track m n); simpl in *; congruence.
Qed.

Lemma verdict_keep s s' name track group forward :
  ss_id <$> get_set_for_track (manager s') name = ss_id <$> get_set_for_track (manager s) name ->
  (forall x, x ∈ recorded s -> x ∈ recorded s') ->
  verdict s name track group forward -> verdict s' name track group forward.
Proof.
  intros Hv Hr. unfold verdict. rewrite Hv.
  destruct (ss_id <$> get_set_for_track (manager s) name) as [sid|]; [|by intros ->].
  intros (d&c&Hd&?). exists d, c. split; [by apply Hr|done].
Qed.

(** Nothing moves under a subscription whose counter is current. *)
Lemma sub_ok_keep s s' sub :
  (epoch (manager s) < epoch (manager s') \/
   epoch (manager s') = epoch (manager s) /\
   forall n, ss_id <$> get_set_for_track (manager s') n = ss_id <$> get_set_for_track (manager s) n) ->
  (forall x, x ∈ recorded s -> x ∈ recorded s') -> sub_ok s sub -> sub_ok s' sub.
Proof.
  intros Hep Hr (H1&H2&H3). destruct Hep as [Hlt|[Heq Hv]].
  - split; [lia|]. split; [lia|]. destruct (sub_pc sub); naive_solver lia.
  - unfold sub_ok. rewrite Heq. split; [done|]. split.
    + intros Hg He. eapply verdict_keep; [apply Hv|done|]. by apply H2.
    + destruct (sub_pc sub) as [| | group e sid| |]; try done. by rewrite Hv.
Qed.

Lemma added_elem (before after : GroupDecisions) g d :
  after !! g = Some d -> before !! g = None -> (g, d) ∈ added before after.
Proof. intros Ha Hb. unfold added. apply elem_of_map_to_list. by apply map_lookup_filter_Some. Qed.

(** A decision that stays does not change. *)
Lemma decide_group_final link c m ds g0 c' ds' : decide_group link c m ds g0 = Ok (c', ds') ->
  forall g d d', ds !! g = Some d -> ds' !! g = Some d' -> d' = d.
Proof.
  unfold decide_group. destruct (decision_snapshot m) as [[|x sets] streams]; [intros [= <- <-]; congruence|].
  intros Hdec. apply obind_Ok_inv in Hdec as (r&_&Hdec). unfold record_group_decision in Hdec.
  destruct (ds !! g0) as [d0|] eqn:E0; injection Hdec as <- <-; [congruence|].
  intros g d d' Hd [Hd' _]%map_lookup_filter_Some. rewrite lookup_insert_ne in Hd'; congruence.
Qed.
Lemma on_message_final link c m ds message c' ds' : on_message link c m ds message = Ok (c', ds') ->
  forall g d d', ds !! g = Some d -> ds' !! g = Some d' -> d' = d.
Proof.
  destruct message as [g0|g0|]; simpl.
  - destruct (has_group_decision ds g0); [intros [= <- <-]; congruence|apply decide_group_final].
  - intros Hm. apply obind_Ok_inv in Hm as (t&_&Hm). simpl in Hm.
    destruct (last_group c); [by eapply decide_group_final|injection Hm as <- <-; congruence].
  - destruct (last_group c); [apply decide_group_final|intros [= <- <-]; congruence].
Qed.

Lemma bump_small e : 0 <= e < U64 - 1 -> bump_epoch e = e + 1.
Proof. intros He. unfold bump_epoch, wrap64. apply Z.mod_small. lia. Qed.

(** A step of the gate. *)
Lemma gate_step_ok s sub gate' pc' message :
  (forall g d, decisions s !! g = Some d -> (g, d) ∈ recorded s) -> sub_ok s sub ->
  gate_step (sub_name sub) (sub_track sub) (manager s) (decisions s) (sub_gate sub) (sub_pc sub) = (gate', pc', message) ->
  sub_ok s (mkSubscriber (sub_name sub) (sub_track sub) gate' pc') /\
  forall group forward, pc' = Answered group forward -> sub_pc sub <> pc' ->
    gate_group gate' = group /\ gate_forward gate' = forward /\ group <> SSTS_GATE_GROUP_NONE.
Proof.
  intros Hrec (H1&H2&H3) Hstep. unfold sub_ok, gate_step in *. simpl.
  destruct (sub_pc sub) as [group|group e|group e sid|group|group forward].
  - destruct (_ && _) eqn:Ehit; injection Hstep as <- <- <-.
    + breflect. split; [done|]. intros g f [= <- <-] _. by subst.
    + split; [|done]. split; [done|]. split; [done|]. split; [done|lia].
  - destruct H3 as [Hg He]. destruct (ss_id <$> get_set_for_track (manager s) (sub_name sub)) as [sid|] eqn:Ev;
      injection Hstep as <- <- <-; simpl.
    + split; [|done]. done.
    + split; [|by intros g f [= <- <-]]. split; [done|]. split; [|done]. intros _ _. unfold verdict. by rewrite Ev.
  - destruct H3 as (Hg&He&Hsid). destruct (decisions s !! group) as [d|] eqn:Ed; [destruct (d !! sid) as [c|] eqn:Ec|];
      injection Hstep as <- <- <-; simpl; try done.
    split; [|by intros g f [= <- <-]]. split; [done|]. split; [|done]. intros _ Hnow. unfold verdict.
    rewrite (Hsid Hnow). exists d, c. split; [by apply Hrec|done].
  - injection Hstep as <- <- <-. split; [|done]. split; [done|]. split; [done|]. split; [done|lia].
  - injection Hstep as <- <- <-. by split.
Qed.

Lemma sys_step_ok k s s' : sys_ok k s -> k + 1 < U64 -> sys_step s s' -> sys_ok (k + 1) s'.
Proof.
  intros [He Hs Hr] Hk Hstep.
  destruct Hstep as [op m' e Hop|link message c' ds' Hmsg|i name track group Hi Hg|i sub g0 f0 group Hi Hpc Hg|
                     i sub gate' pc' message Hi Hgate].
  - destruct (step_epoch _ _ _ _ Hop) as [Hb|[Heq Hv]].
    + rewrite bump_small in Hb by lia. constructor; simpl; [lia| |done]. intros i sub Hi.
      apply (sub_ok_keep s); simpl; [left; lia|done|by eapply Hs].
    + constructor; simpl; [lia| |done]. intros i sub Hi.
      apply (sub_ok_keep s); simpl; [right; split; [done|by apply view_of_set]|done|by eapply Hs].
  - constructor; simpl; [lia| |].
    + intros i sub Hi. apply (sub_ok_keep s); simpl; [by right| |by eapply Hs]. intros x Hx. apply elem_of_app. by left.
    + intros g d Hd. apply elem_of_app. destruct (decisions s !! g) as [d0|] eqn:E0; [|right; by apply added_elem].
      left. apply Hr. by rewrite E0, (on_message_final _ _ _ _ _ _ _ Hmsg g d0 d E0 Hd).
  - constructor; simpl; [lia| |done]. intros j sub Hj.
    assert (forall x, sub_ok s x -> sub_ok (mkSys (manager s) (decisions s) (controller s)
      (<[i := mkSubscriber name track Gate_new (AtObject group)]> (subscribers s)) (recorded s)) x) as Hkeep
      by (intros x; apply sub_ok_keep; simpl; [by right|done]).
    apply lookup_insert_Some in Hj as [[<- <-]|[_ Hj]]; [|by eapply Hkeep, Hs].
    split; simpl; [lia|]. by split.
  - constructor; simpl; [lia| |done]. intros j sub' Hj.
    apply lookup_insert_Some in Hj as [[<- <-]|[_ Hj]]; [|by apply (sub_ok_keep s); [by right|done|eapply Hs]].
    apply (sub_ok_keep s); [by right|done|]. destruct (Hs _ _ Hi) as (H1&H2&_). split; [done|]. by split.
  - constructor; simpl; [lia| |done]. intros j sub' Hj.
    apply lookup_insert_Some in Hj as [[<- <-]|[_ Hj]]; [|by apply (sub_ok_keep s); [by right|done|eapply Hs]].
    apply (sub_ok_keep s); [by right|done|]. by eapply gate_step_ok; [..|exact Hgate]; [|eapply Hs].
Qed.

Lemma reached_ok c0 k s : reached c0 k s -> k < U64 -> 0 <= k /\ sys_ok k s.
Proof.
  induction 1 as [|k s s' Hreach IH Hstep]; intros Hk.
  - split; [done|]. constructor; simpl; [lia|by intros i sub; rewrite lookup_empty|by intros g d; rewrite lookup_empty].
  - destruct IH as [Hk0 Hok]; [lia|]. split; [lia|]. by eapply sys_step_ok; [|lia|].
Qed.

(** ** Runs given as lists of actions *)

Inductive action : Type :=
| DoSets (op : set_op)
| DoMessage (link : Link) (message : AbrMessage)
| DoSubscribe (i : Z) (name : FullTrackName) (track group : Z)
| DoObject (i group : Z)
| DoGate (i : Z).

Definition sys_act (s : Sys) (a : action) : option Sys :=
  match a with
  | DoSets op =>
      match set_step (manager s) op with
      | Ok (m', _) => Some (mkSys m' (decisions s) (controller s) (subscribers s) (recorded s))
      | _ => None
      end
  | DoMessage link message =>
      match on_message link (controller s) (manager s) (decisions s) message with
      | Ok (c', ds') => Some (mkSys (manager s) ds' c' (subscribers s) (recorded s ++ added (decisions s) ds'))
      | _ => None
      end
  | DoSubscribe i name track group =>
      if bool_decide (subscribers s !! i = None) && negb (group =? SSTS_GATE_GROUP_NONE)
      then Some (mkSys (manager s) (decisions s) (controller s)
                   (<[i := mkSubscriber name track Gate_new (AtObject group)]> (subscribers s)) (recorded s))
      else None
  | DoObject i group =>
      match subscribers s !! i with
      | Some (mkSubscriber name track gate (Answered _ _)) =>
          if group =? SSTS_GATE_GROUP_NONE then None
          else Some (mkSys (manager s) (decisions s) (controller s)
                       (<[i := mkSubscriber name track gate (AtObject group)]> (subscribers s)) (recorded s))
      | _ => None
      end
  | DoGate i =>
      match subscribers s !! i with
      | Some sub =>
          let '(gate, pc, _) := gate_step (sub_name sub) (sub_track sub) (manager s) (decisions s) (sub_gate sub) (sub_pc sub) in
          Some (mkSys (manager s) (decisions s) (controller s)
                  (<[i := mkSubscriber (sub_name sub) (sub_track sub) gate pc]> (subscribers s)) (recorded s))
      | None => None
      end
  end.

Lemma sys_act_step s a s' : sys_act s a = Some s' -> sys_step s s'.
Proof.
  destruct a as [op|link message|i name track group|i group|i]; simpl.
  - destruct (set_step _ _) as [[m' e]| | |] eqn:E; try done. intros [= <-]. by eapply StepSets.
  - destruct (on_message _ _ _ _ _) as [[c' ds']| | |] eqn:E; try done. intros [= <-]. by eapply StepController.
  - case_if; [|done]. intros [= <-]. breflect. apply StepSubscribe; [|done]. by eapply bool_decide_eq_true.
  - destruct (subscribers s !! i) as [[name track gate [| | | |g0 f0]]|] eqn:E; try done. case_if; [done|]. intros [= <-]. breflect.
    by eapply (StepObject s i (mkSubscriber name track gate (Answered g0 f0))).
  - destruct (subscribers s !! i) as [sub|] eqn:E; [|done]. destruct (gate_step _ _ _ _ _ _) as [[gate pc] message] eqn:Eg.
    intros [= <-]. by eapply StepGate.
Qed.

Fixpoint sys_acts (s : Sys) (l : list action) : option Sys :=
  match l with
  | [] => Some s
  | a :: l => match sys_act s a with Some s => sys_acts s l | None => None end
  end.

Lemma sys_acts_reached c0 l : forall k s s', reached c0 k s -> sys_acts s l = Some s' ->
  reached c0 (k + Z.of_nat (length l)) s'.
Proof.
  induction l as [|a l IH]; intros k s s' Hr; simpl sys_acts; [intros [= <-]; by rewrite Z.add_0_r|].
  destruct (sys_act s a) as [s1|] eqn:E; [|done]. intros Hl.
  change (length (a :: l)) with (S (length l)).
  replace (k + Z.of_nat (S (length l))) with (k + 1 + Z.of_nat (length l)) by lia.
  eapply IH; [|done]. eapply reached_step; [done|by eapply sys_act_step].
Qed.

(** ** A subscription whose set came after the decision *)

(** One subscription and the controller take turns, [n] steps of the gate. *)
Fixpoint gate_turns (n : nat) (link : Link) (name : FullTrackName) (track : Z) (m : SwitchingSetManager)
    (c : Controller) (ds : GroupDecisions) (gate : Gate) (pc : gate_pc)
    : panics (Controller * GroupDecisions * Gate * gate_pc) :=
  match n with
  | O => Ok (c, ds, gate, pc)
  | S n =>
      let '(gate, pc, message) := gate_step name track m ds gate pc in
      let? r := match message with Some message => on_message link c m ds message | None => Ok (c, ds) end in
      gate_turns n link name track m (fst r) (snd r) gate pc
  end.

Lemma turns_stall n : forall link name track m c ds gate pc group d sid,
  ss_id <$> get_set_for_track m name = Some sid -> ds !! group = Some d -> d !! sid = None ->
  (exists e, pc = Sampled group e) \/ (exists e, pc = InSet group e sid) \/ pc = Waiting group ->
  exists c' pc', gate_turns n link name track m c ds gate pc = Ok (c', ds, gate, pc') /\
    forall forward, pc' <> Answered group forward.
Proof.
  induction n as [|n IH]; intros link name track m c ds gate pc group d sid Hset Hd Hsid Hpc; simpl.
  - exists c, pc. split; [done|]. by destruct Hpc as [[e ->]|[[e ->]| ->]].
  - assert (has_group_decision ds group = true) as Hhas by (apply bool_decide_eq_true; by exists d).
    destruct Hpc as [[e ->]|[[e ->]| ->]]; simpl.
    + rewrite Hset. simpl. eapply IH; [done..|]. right. left. by exists e.
    + rewrite Hd, Hsid. simpl. rewrite Hhas. simpl. eapply IH; [done..|]. by right; right.
    + eapply IH; [done..|]. left. by eexists.
Qed.
End System.

(** * Properties *)

(** C33: the controller decides.  While the state is in range a message never
    makes it panic.  A group with an answer keeps it for as long as it is kept at
    all.  A message about an undecided group records, if the connection has a
    set, one decision with an entry for every set it has, each a track of that
    very set or nothing, and drops just the groups more than five behind the
    largest. *)
Theorem controller_decides `{Target, HashMapOrder} link c m ds message :
  let sets := fst (decision_snapshot m) in
  controller_ok c -> world_ok link sets (open_counts m) (stream_timeouts c + 1) ->
  exists c' ds', on_message link c m ds message = Ok (c', ds') /\ controller_ok c' /\
    (forall g d d', ds !! g = Some d -> ds' !! g = Some d' -> d' = d) /\
    match message_group c ds message with
    | Some g => (sets <> [] -> is_Some (ds' !! g)) /\
                (ds' = ds \/ recorded_one sets (largest_after c message) ds ds' g)
    | None => ds' = ds
    end.
Proof.
  intros sets Hc Hw. destruct (on_message_Ok link c m ds message Hc Hw) as (c'&ds'&E&Hc'&_&Hd).
  exists c', ds'. split; [done|]. split; [done|]. split; [by eapply on_message_final|].
  destruct (message_group c ds message); [|done]. by destruct Hd.
Qed.

(** C32: the gate.  However the tasks of a connection interleave, an answer kept
    with the current counter, and an answer just given with it, are right: a
    track in no set is forwarded, and one in a set exactly if a decision recorded
    for the group picks it.  So two subscriptions to tracks of one set forward the
    same group only if they are to one track, as long as the group was decided
    once. *)
Theorem gate_one_track `{Target, HashMapOrder} c0 k s :
  reached c0 k s -> k < U64 ->
  let now := epoch (manager s) in
  let current sub g := gate_group (sub_gate sub) = g /\ gate_epoch (sub_gate sub) = now in
  (forall i sub g, subscribers s !! i = Some sub -> g <> SSTS_GATE_GROUP_NONE -> current sub g ->
     verdict s (sub_name sub) (sub_track sub) g (gate_forward (sub_gate sub))) /\
  (forall i sub gate' g f message, subscribers s !! i = Some sub -> sub_pc sub <> Answered g f ->
     gate_step (sub_name sub) (sub_track sub) (manager s) (decisions s) (sub_gate sub) (sub_pc sub)
       = (gate', Answered g f, message) ->
     gate_epoch gate' = now -> verdict s (sub_name sub) (sub_track sub) g f) /\
  forall i j sub1 sub2 g sid, subscribers s !! i = Some sub1 -> subscribers s !! j = Some sub2 ->
    g <> SSTS_GATE_GROUP_NONE -> current sub1 g -> current sub2 g ->
    ss_id <$> get_set_for_track (manager s) (sub_name sub1) = Some sid ->
    ss_id <$> get_set_for_track (manager s) (sub_name sub2) = Some sid ->
    (forall d d', (g, d) ∈ recorded s -> (g, d') ∈ recorded s -> d = d') ->
    gate_forward (sub_gate sub1) = true -> gate_forward (sub_gate sub2) = true ->
    sub_track sub1 = sub_track sub2.
Proof.
  intros Hreach Hk now current. destruct (reached_ok _ _ _ Hreach Hk) as [_ Hok].
  assert (forall i sub g, subscribers s !! i = Some sub -> g <> SSTS_GATE_GROUP_NONE -> current sub g ->
     verdict s (sub_name sub) (sub_track sub) g (gate_forward (sub_gate sub))) as Hkept.
  { intros i sub g Hi Hg [<- He]. destruct (so_subs _ _ Hok _ _ Hi) as (_&Hv&_). by apply Hv. }
  split; [exact Hkept|]. split.
  - intros i sub gate' g f message Hi Hpc Hstep He.
    destruct (gate_step_ok s sub gate' _ message (so_recorded _ _ Hok) (so_subs _ _ Hok _ _ Hi) Hstep) as [(_&Hv&_) Ha].
    destruct (Ha g f eq_refl Hpc) as (<-&<-&Hg). by apply Hv.
  - intros i j sub1 sub2 g sid Hi Hj Hg H1 H2 Hs1 Hs2 Honce F1 F2.
    pose proof (Hkept _ _ _ Hi Hg H1) as V1. pose proof (Hkept _ _ _ Hj Hg H2) as V2.
    unfold verdict in V1, V2. rewrite Hs1 in V1. rewrite Hs2 in V2.
    destruct V1 as (d1&c1&Hd1&Hc1&E1), V2 as (d2&c2&Hd2&Hc2&E2).
    rewrite (Honce _ _ Hd1 Hd2) in Hc1. rewrite F1 in E1. rewrite F2 in E2.
    symmetry in E1, E2. apply bool_decide_eq_true in E1, E2. congruence.
Qed.

(** A track that joins a set after the group was decided gets no answer
    for that group: the controller does not decide a group twice, so the gate and
    the controller send each other around for any number of turns, and the
    subscription forwards nothing until the decision is pruned or the set
    changes. *)
Theorem late_set_stalls `{Target, HashMapOrder} n link name track m c ds gate group d sid :
  ss_id <$> get_set_for_track m name = Some sid ->
  ds !! group = Some d -> d !! sid = None ->
  (gate_group gate <> group \/ gate_epoch gate <> epoch m) ->
  exists c' pc', gate_turns n link name track m c ds gate (AtObject group) = Ok (c', ds, gate, pc') /\
    forall forward, pc' <> Answered group forward.
Proof.
  intros Hset Hd Hsid Hmiss. destruct n as [|n]; [by exists c, (AtObject group)|]. simpl.
  replace ((gate_group gate =? group) && (gate_epoch gate =? epoch m)) with false.
  - simpl. eapply turns_stall; [done..|]. left. by eexists.
  - symmetry. apply andb_false_iff. rewrite !Z.eqb_neq. done.
Qed.

(** Negotiation.  An assignment is accepted exactly for the algorithms that
    the client offered and the relay runs; if the relay's list is of registered
    ones, the controller runs each of those accepted, and it starts exactly if
    the connection has one. *)
Theorem negotiation_exact client_setup relay_algorithms :
  let st := SstsState_new client_setup relay_algorithms in
  (forall a, validate_assignment st a = Ok tt <->
     a ∈ advertised_algorithms client_setup /\ a ∈ relay_algorithms) /\
  (forall a, validate_assignment st a <> Ok tt ->
     validate_assignment st a = Err (if ssts_enabled st then AlgorithmNotNegotiated a else NotNegotiated)) /\
  (Forall (fun a => a ∈ registry_ids) relay_algorithms ->
     map running_id (start_running (negotiated_algorithms st)) = negotiated_algorithms st /\
     (is_Some (Controller_start (negotiated_algorithms st)) <-> ssts_enabled st = true)).
Proof.
  intros st. assert (forall a l, existsb (Z.eqb a) l = true <-> a ∈ l) as Hex.
  { intros a l. rewrite existsb_exists, list_elem_of_In. setoid_rewrite Z.eqb_eq. naive_solver. }
  set (neg := negotiated_algorithms st).
  assert (forall a, a ∈ neg <-> a ∈ advertised_algorithms client_setup /\ a ∈ relay_algorithms) as Hneg
    by (intros a; unfold neg; simpl; by rewrite in_filter_b, Hex).
  assert (forall a, validate_assignment st a = match neg with [] => Err NotNegotiated
    | _ => if negb (existsb (Z.eqb a) neg) then Err (AlgorithmNotNegotiated a) else Ok tt end) as Hval
    by (intros a; unfold validate_assignment; fold neg; by destruct neg).
  split; [|split].
  - intros a. rewrite Hval, <- Hneg. destruct neg as [|x l]; [split; [done|by intros ?%not_elem_of_nil]|].
    rewrite <- Hex. by destruct (existsb (Z.eqb a) (x :: l)).
  - intros a. rewrite Hval. unfold ssts_enabled. fold neg. destruct neg as [|x l]; [done|].
    by destruct (existsb (Z.eqb a) (x :: l)).
  - intros Hreg. assert (map running_id (start_running neg) = neg) as Hrun.
    { assert (forall a, a ∈ neg -> a ∈ registry_ids) as Hall.
      { intros a [_ Ha]%Hneg. rewrite Forall_forall in Hreg. by apply Hreg. }
      clear -Hall. induction neg as [|x l IH]; [done|]. simpl.
      assert (exists a, registry_create x = Some a) as [a ->].
      { pose proof (Hall x ltac:(by left)) as Hx. unfold registry_ids in Hx. simpl in Hx.
        apply elem_of_cons in Hx as [-> | Hx]; [by eexists|]. apply list_elem_of_singleton in Hx as ->. by eexists. }
      simpl. f_equal. apply IH. intros y Hy. apply Hall. by right. }
    split; [done|]. unfold Controller_start, ssts_enabled. fold neg.
    destruct (start_running neg) eqn:Es, neg; simpl in *; try done.
Qed.

(** A set of two encodings on a link of 3000 kbps. *)
Definition demo_link : Link := mkLink 1 3000 0.
Definition demo_controller : Controller := mkController (start_running [0]) None 0 0.
Definition demo_set : list set_op :=
  [OpAssign (demo_name 1) 1 10 7 0 800 5 2 0; OpAssign (demo_name 2) 2 11 7 0 5000 5 2 0].
Definition demo_manager : SwitchingSetManager :=
  match set_run (H:=debug_build) SwitchingSetManager_new demo_set with Ok (m, _) => m | _ => SwitchingSetManager_new end.

Lemma controller_decides_witness :
  let sets := fst (decision_snapshot demo_manager) in
  controller_ok demo_controller /\ world_ok demo_link sets (open_counts demo_manager) 1 /\
  exists c' ds', on_message (H:=debug_build) demo_link demo_controller demo_manager ∅ (NewGroup 4) = Ok (c', ds') /\
    ds' = {[4 := {[7 := Some 1]}]} /\ is_Some (ds' !! 4).
Proof.
  intros sets. assert (sets = [mkSetSnapshot 7 0 0 5 true [(800, 1); (5000, 2)]]) as Es by (vm_compute; reflexivity).
  assert (open_counts demo_manager = ∅) as Eo by (vm_compute; reflexivity).
  assert (controller_ok demo_controller) as Hc by (split; [apply Forall_cons_2; [exact I|apply Forall_nil_2]|simpl; lia]).
  assert (world_ok demo_link sets (open_counts demo_manager) 1) as Hw.
  { rewrite Es, Eo. constructor.
    - apply NoDup_singleton.
    - apply Forall_cons_2; [|apply Forall_nil_2]. split; [done|].
      apply Forall_cons_2; [done|]. apply Forall_cons_2; [done|apply Forall_nil_2].
    - reflexivity.
    - apply Forall_cons_2; [reflexivity|apply Forall_nil_2].
    - intros i n. by rewrite lookup_empty.
    - done.
    - vm_compute. reflexivity.
    - done. }
  split; [exact Hc|]. split; [exact Hw|].
  destruct (@controller_decides debug_build _ demo_link demo_controller demo_manager ∅ (NewGroup 4) Hc Hw)
    as (c'&ds'&E&_&_&Hg).
  exists c', ds'. split; [exact E|]. split.
  - vm_compute in E. injection E as _ <-. vm_compute. reflexivity.
  - change (message_group demo_controller ∅ (NewGroup 4)) with (Some 4) in Hg. apply Hg. fold sets. rewrite Es. discriminate.
Defined.

(** Both tracks of the set are subscribed to; the first is the one picked. *)
Definition demo_run : list action :=
  map DoSets demo_set ++
  [DoSubscribe 1 (demo_name 1) 1 4; DoSubscribe 2 (demo_name 2) 2 4; DoGate 1; DoGate 2; DoGate 1; DoGate 1;
   DoMessage demo_link (NewGroup 4); DoGate 1; DoGate 2; DoGate 1; DoGate 2; DoGate 1].

Lemma gate_one_track_witness :
  exists s, reached (H:=debug_build) demo_controller (0 + Z.of_nat (length demo_run)) s /\
    (sub_pc <$> subscribers s !! 1) = Some (Answered 4 true) /\ (sub_pc <$> subscribers s !! 2) = Some (Answered 4 false) /\
    verdict s (demo_name 2) 2 4 false.
Proof.
  destruct (sys_acts (H:=debug_build) (mkSys SwitchingSetManager_new ∅ demo_controller ∅ []) demo_run) as [s|] eqn:E;
    [|exfalso; vm_compute in E; discriminate E].
  exists s. pose proof (sys_acts_reached demo_controller demo_run 0 _ s (reached_start demo_controller) E) as Hr.
  destruct (@gate_one_track debug_build _ demo_controller _ s Hr eq_refl) as (Hkept&_).
  vm_compute in E. injection E as Es. split; [exact Hr|]. split; [rewrite <- Es; vm_compute; reflexivity|].
  split; [rewrite <- Es; vm_compute; reflexivity|].
  refine (Hkept 2 (mkSubscriber (demo_name 2) 2 (mkGate 4 2 false) (Answered 4 false)) 4 _ _ _).
  - rewrite <- Es. vm_compute. reflexivity.
  - discriminate.
  - rewrite <- Es. split; vm_compute; reflexivity.
Defined.

(** The set 8 is made after group 4 was decided for set 7. *)
Definition late_manager : SwitchingSetManager :=
  match set_run (H:=debug_build) demo_manager [OpAssign (demo_name 3) 3 12 8 0 100 5 1 0] with
  | Ok (m, _) => m | _ => SwitchingSetManager_new
  end.

Lemma late_set_stalls_witness : exists c' pc',
  gate_turns (H:=debug_build) 100 demo_link (demo_name 3) 3 late_manager demo_controller {[4 := {[7 := Some 1]}]}
    Gate_new (AtObject 4) = Ok (c', {[4 := {[7 := Some 1]}]}, Gate_new, pc') /\
  forall forward, pc' <> Answered 4 forward.
Proof.
  apply (@late_set_stalls debug_build _ 100 demo_link (demo_name 3) 3 late_manager demo_controller
    {[4 := {[7 := Some 1]}]} Gate_new 4 {[7 := Some 1]} 8).
  - vm_compute. reflexivity.
  - vm_compute. reflexivity.
  - vm_compute. reflexivity.
  - left. discriminate.
Defined.

(** The group that stands for an empty gate can be received, since a varint
    holds any 64 bits: in a connection without sets its objects are dropped. *)
Example top_group_dropped :
  gate_step (demo_name 1) 1 SwitchingSetManager_new ∅ Gate_new (AtObject U64_MAX) =
  (Gate_new, Answered U64_MAX false, None).
Proof. reflexivity. Qed.

(** The periodic re-evaluation counts as a group for the back-pressure
    algorithm: one group and four ticks raise the tier. *)
Definition tick_controller : Controller := mkController (start_running [BACKPRESSURE_ALGORITHM_ID]) None 0 0.
Definition tick_manager : SwitchingSetManager :=
  match set_run (H:=debug_build) SwitchingSetManager_new
    [OpAssign (demo_name 1) 1 10 7 BACKPRESSURE_ALGORITHM_ID 800 5 2 0;
     OpAssign (demo_name 2) 2 11 7 BACKPRESSURE_ALGORITHM_ID 5000 5 2 0] with
  | Ok (m, _) => m | _ => SwitchingSetManager_new
  end.
Example ticks_count_as_groups :
  match for_each [NewGroup 4; Tick; Tick; Tick; Tick]
    (fun s message => on_message (H:=debug_build) demo_link (fst s) tick_manager (snd s) message) (tick_controller, ∅) with
  | Ok (c, _) => map running_algorithm (running c) = [BackpressureAlgorithm (mkTierState 1 0 None 0)]
  | _ => False
  end.
Proof. vm_compute. reflexivity. Qed.
