(* ===== verification/ControlStream.v ===== *)
(** Control messages over a stream
    ([libs/moqtail-rs/src/transport/control_stream_handler.rs]).

    The handler keeps the bytes that arrived and, once a message is there in
    part, a deadline for the rest of it.  A call of [next_message] parses,
    and reads more until there is a message or an error.  What the stream gives
    is a list of reads, each with the time it completes; a call that waits for
    a read that is not in the list has not returned.  Times are milliseconds. *)
From S2P Require Import Prelude Varint Codes MessageParameter Control.

Definition CONTROL_MESSAGE_TIMEOUT : Z := 5000.

Inductive TransportReadError : Type := ReadNotConnected | ReadReset (code : Z) | ReadOther.

(** [Result<Option<usize>, TransportReadError>], with the bytes read. *)
Abbreviation read_result := (outcome TransportReadError (option bytes)).

Record ControlStreamHandler := mkHandler {
  recv_bytes : bytes;
  partial_message_deadline : option Z
}.
Definition ControlStreamHandler_new : ControlStreamHandler := mkHandler [] None.

(** What a call returns, if it does: [None] while it waits. *)
Abbreviation answer A := (option (outcome TerminationCode A)).

Definition handle_read_result (self : ControlStreamHandler) (res : read_result)
    : ControlStreamHandler * outcome TerminationCode unit :=
  match res with
  | Ok (Some data) => (mkHandler (recv_bytes self ++ data) (partial_message_deadline self), Ok tt)
  | Ok None => (self, Err TC_ProtocolViolation)
  | Err ReadNotConnected => (self, Err TC_NoError)
  | Err _ => (self, Err TC_InternalError)
  | Panic => (self, Panic)
  | Diverge => (self, Diverge)
  end.

(** [read_more_data]: the first read, unless the deadline comes before it; a
    read that was not waited for stays. *)
Definition read_more_data (self : ControlStreamHandler) (reads : list (Z * read_result))
    : ControlStreamHandler * list (Z * read_result) * answer unit :=
  match reads with
  | [] => (self, [], None)
  | (time, res) :: rest =>
      match partial_message_deadline self with
      | Some deadline =>
          if deadline <=? time then (mkHandler [] None, reads, Some (Err TC_ControlMessageTimeout))
          else let '(self, r) := handle_read_result self res in (self, rest, Some r)
      | None => let '(self, r) := handle_read_result self res in (self, rest, Some r)
      end
  end.

Section Handler.
Context `{Target}.

(** One attempt to parse what is there. *)
Definition parse_buffered (now : Z) (self : ControlStreamHandler) : ControlStreamHandler * answer ControlMessage :=
  match recv_bytes self with
  | [] => (self, None)
  | bytes =>
      match ControlMessage_deserialize bytes with
      | (Ok msg, rest) =>
          let consumed := blen bytes - blen rest in
          (mkHandler (drop (Z.to_nat consumed) bytes) None, Some (Ok msg))
      | (Err (ProtocolViolation _), _) => (self, Some (Err TC_ProtocolViolation))
      | (Err (NotEnoughBytes _ _ _), _) =>
          match partial_message_deadline self with
          | None => (mkHandler bytes (Some (now + CONTROL_MESSAGE_TIMEOUT)), None)
          | Some _ => (self, None)
          end
      | (Err _, _) => (self, None)
      | (Panic, _) => (self, Some Panic)
      | (Diverge, _) => (self, Some Diverge)
      end
  end.

(** Every turn of the loop after the first takes a read.  With the answer comes
    the time of it. *)
Fixpoint next_message (now : Z) (self : ControlStreamHandler) (reads : list (Z * read_result))
    : ControlStreamHandler * (Z * list (Z * read_result)) * answer ControlMessage :=
  let '(self, parsed) := parse_buffered now self in
  match parsed with
  | Some r => (self, (now, reads), Some r)
  | None =>
      match reads with
      | [] => (self, (now, []), None)
      | (time, res) :: rest =>
          match read_more_data self reads with
          | (self, _, Some (Ok _)) => next_message time self rest
          | (self, reads, Some (Err e)) => (self, (time, reads), Some (Err e))
          | (self, reads, Some Panic) => (self, (time, reads), Some Panic)
          | (self, reads, Some Diverge) => (self, (time, reads), Some Diverge)
          | (self, reads, None) => (self, (time, reads), None)
          end
      end
  end.

Definition read_setup (now : Z) (self : ControlStreamHandler) (reads : list (Z * read_result))
    : ControlStreamHandler * (Z * list (Z * read_result)) * answer Setup :=
  let '(self, after, r) := next_message now self reads in
  (self, after,
   match r with
   | Some (Ok (CM_Setup setup)) => Some (Ok setup)
   | Some (Ok _) => Some (Err TC_ProtocolViolation)
   | Some (Err e) => Some (Err e)
   | Some Panic => Some Panic
   | Some Diverge => Some Diverge
   | None => None
   end).

(** [send]: the bytes handed to [write_all], of which the outcome is given, and
    the result. *)
Definition send (write_all : bytes -> bool) (message : ControlMessage) : option bytes * outcome TerminationCode unit :=
  match ControlMessage_serialize message with
  | Ok bytes => (Some bytes, if write_all bytes then Ok tt else Err TC_InternalError)
  | Err _ => (None, Err TC_InternalError)
  | Panic => (None, Panic)
  | Diverge => (None, Diverge)
  end.

(** A caller that asks for messages one after the other, as the loops of the
    handlers do, until an error or until a call waits; [fuel] bounds the number
    of messages. *)
Fixpoint serve (fuel : nat) (now : Z) (self : ControlStreamHandler) (reads : list (Z * read_result))
    : list ControlMessage * ControlStreamHandler * answer ControlMessage :=
  match fuel with
  | O => ([], self, Some Diverge)
  | S fuel =>
      match next_message now self reads with
      | (self, (now, reads), Some (Ok msg)) =>
          let '(msgs, self, r) := serve fuel now self reads in (msg :: msgs, self, r)
      | (self, _, r) => ([], self, r)
      end
  end.

(** ** What the bytes say, however they arrive *)

(** How reading ends, at the bytes left: all read; a message there in part; a
    message that is a violation; one the handler cannot parse and passes over in
    silence; or a panic. *)
Inductive ending : Type := AtEnd | Partial | Violation | Unparsed | Panicked.

Fixpoint parse_all (fuel : nat) (bs : bytes) : list ControlMessage * bytes * ending :=
  match bs, fuel with
  | [], _ => ([], [], AtEnd)
  | _, O => ([], bs, AtEnd)
  | _, S fuel =>
      match ControlMessage_deserialize bs with
      | (Ok msg, rest) => let '(msgs, unread, e) := parse_all fuel rest in (msg :: msgs, unread, e)
      | (Err (ProtocolViolation _), _) => ([], bs, Violation)
      | (Err (NotEnoughBytes _ _ _), _) => ([], bs, Partial)
      | (Err _, _) => ([], bs, Unparsed)
      | (_, _) => ([], bs, Panicked)
      end
  end.
Definition messages_in (bs : bytes) : list ControlMessage * bytes * ending := parse_all (length bs) bs.

(** The answer of the last call: [res] is the read after the data, if any. *)
Definition last_answer (e : ending) (late : bool) (res : option read_result) : answer ControlMessage :=
  match e with
  | Violation => Some (Err TC_ProtocolViolation)
  | Panicked => Some Panic
  | AtEnd | Partial | Unparsed =>
      match res with
      | None => None
      | Some res =>
          if late then Some (Err TC_ControlMessageTimeout)
          else match res with
               | Err ReadNotConnected => Some (Err TC_NoError)
               | Err _ => Some (Err TC_InternalError)
               | _ => Some (Err TC_ProtocolViolation)
               end
      end
  end.
End Handler.

(** * Lemmas *)

Section Lemmas.
Context `{Target}.

(** Reading a message never gets stuck, and takes at least a byte. *)
Lemma deserialize_shape bs : bytes_ok bs ->
  match ControlMessage_deserialize bs with
  | (Ok _, r) => exists x, bs = x ++ r /\ x <> []
  | (Diverge, _) => False
  | _ => True
  end.
Proof.
  intros Hbs. pose proof (ControlMessage_guarded bs Hbs) as G.
  destruct (ControlMessage_deserialize bs) as [[m|e| |] r]; try done.
  destruct G as ([x ->]&Hl&_). exists x. split; [done|]. intros ->. simpl in Hl. lia.
Qed.

Lemma parse_all_fuel n : forall n' bs, bytes_ok bs -> (length bs <= n)%nat -> (length bs <= n')%nat ->
  parse_all n bs = parse_all n' bs.
Proof.
  induction n as [|n IH]; intros n' bs Hbs Hn Hn'.
  - destruct bs as [|b bs]; [by destruct n'|simpl in Hn; lia].
  - destruct bs as [|b bs]; [by destruct n'|]. destruct n' as [|n']; [simpl in Hn'; lia|].
    pose proof (deserialize_shape _ Hbs) as D. simpl.
    destruct (ControlMessage_deserialize (b :: bs)) as [[m|e| |] r]; [|done..].
    destruct D as (x&E&Hx). rewrite E in Hbs. apply bytes_ok_app in Hbs as [_ Hr].
    assert (length r < length (b :: bs))%nat by (rewrite E, length_app; destruct x; simpl; [done|lia]).
    rewrite (IH n' r); [done|done|lia|lia].
Qed.

(** One message at a time. *)
Lemma messages_in_step bs : bytes_ok bs ->
  messages_in bs =
  match bs with
  | [] => ([], [], AtEnd)
  | _ =>
      match ControlMessage_deserialize bs with
      | (Ok msg, rest) => let '(msgs, unread, e) := messages_in rest in (msg :: msgs, unread, e)
      | (Err (ProtocolViolation _), _) => ([], bs, Violation)
      | (Err (NotEnoughBytes _ _ _), _) => ([], bs, Partial)
      | (Err _, _) => ([], bs, Unparsed)
      | (_, _) => ([], bs, Panicked)
      end
  end.
Proof.
  intros Hbs. destruct bs as [|b bs]; [done|]. pose proof (deserialize_shape _ Hbs) as D. unfold messages_in. simpl.
  destruct (ControlMessage_deserialize (b :: bs)) as [[m|e| |] r]; [|done..].
  destruct D as (x&E&Hx). rewrite E in Hbs. apply bytes_ok_app in Hbs as [_ Hr].
  assert (length r <= length bs)%nat.
  { apply (f_equal length) in E. rewrite length_app in E. destruct x; [done|]. simpl in E. lia. }
  by rewrite (parse_all_fuel (length bs) (length r) r).
Qed.

(** What is there decides what more bytes can say. *)
Lemma messages_in_app bs ext : bytes_ok bs -> bytes_ok ext -> bs <> [] ->
  match ControlMessage_deserialize bs with
  | (Ok msg, rest) => messages_in (bs ++ ext) =
      let '(msgs, unread, e) := messages_in (rest ++ ext) in (msg :: msgs, unread, e)
  | (Err (ProtocolViolation _), _) => messages_in (bs ++ ext) = ([], bs ++ ext, Violation)
  | (Err (NotEnoughBytes _ _ _), _) => True
  | (Err _, _) => messages_in (bs ++ ext) = ([], bs ++ ext, Unparsed)
  | (_, _) => messages_in (bs ++ ext) = ([], bs ++ ext, Panicked)
  end.
Proof.
  intros Hbs Hext Hne. pose proof (stable_ControlMessage bs ext) as S.
  rewrite messages_in_step by (by apply bytes_ok_app). destruct bs as [|b bs]; [done|]. simpl app.
  destruct (ControlMessage_deserialize (b :: bs)) as [[m|e| |] r]; simpl app in S.
  - by rewrite S.
  - destruct e; by rewrite ?S.
  - by rewrite S.
  - by rewrite S.
Qed.

(** The chunks of the stream, all within the time a message may take, and the
    reads after them. *)
Context (times : list Z) (tail : list (Z * read_result)).

Definition arrivals (chunks : list (Z * bytes)) : list (Z * read_result) :=
  map (fun c => (fst c, Ok (Some (snd c)))) chunks ++ tail.
Definition data (chunks : list (Z * bytes)) : bytes := concat (map snd chunks).
Definition chunk_ok (c : Z * bytes) : Prop := fst c ∈ times /\ bytes_ok (snd c).

Hypothesis Hwindow : forall t t', t ∈ times -> t' ∈ times -> t' < t + CONTROL_MESSAGE_TIMEOUT.

Record handler_ok (now : Z) (h : ControlStreamHandler) : Prop := {
  ho_bytes : bytes_ok (recv_bytes h);
  ho_deadline : forall d, partial_message_deadline h = Some d ->
    recv_bytes h <> [] /\ exists t, t ∈ times /\ d = t + CONTROL_MESSAGE_TIMEOUT;
  ho_now : recv_bytes h <> [] -> now ∈ times
}.

Lemma chunks_data_ok chunks : Forall chunk_ok chunks -> bytes_ok (data chunks).
Proof.
  unfold data. induction 1 as [|c chunks [_ Hc] _ IH]; simpl; [constructor|]. by apply bytes_ok_app.
Qed.

(** The ending that an attempt without a message points to. *)
Definition stuck (h : ControlStreamHandler) (e : ending) : Prop :=
  messages_in (recv_bytes h) = ([], recv_bytes h, e) /\
  match e with
  | AtEnd => recv_bytes h = []
  | Partial => is_Some (partial_message_deadline h)
  | Unparsed => recv_bytes h <> []
  | _ => False
  end.

Lemma parse_buffered_ok now h ext : handler_ok now h -> bytes_ok ext ->
  let '(h', r) := parse_buffered now h in
  match r with
  | Some (Ok msg) => handler_ok now h' /\ partial_message_deadline h' = None /\
      (length (recv_bytes h') < length (recv_bytes h))%nat /\
      messages_in (recv_bytes h ++ ext) =
        let '(msgs, unread, e) := messages_in (recv_bytes h' ++ ext) in (msg :: msgs, unread, e)
  | Some (Err e) => e = TC_ProtocolViolation /\
      messages_in (recv_bytes h ++ ext) = ([], recv_bytes h ++ ext, Violation)
  | Some Panic => messages_in (recv_bytes h ++ ext) = ([], recv_bytes h ++ ext, Panicked)
  | Some Diverge => False
  | None => handler_ok now h' /\ recv_bytes h' = recv_bytes h /\ exists e, stuck h' e
  end.
Proof.
  intros Hh Hext. unfold parse_buffered. destruct (recv_bytes h) as [|b bs] eqn:Eb.
  { split; [done|]. split; [done|]. exists AtEnd. unfold stuck. by rewrite Eb. }
  assert (bytes_ok (b :: bs)) as Hbs by (rewrite <- Eb; apply Hh).
  assert (now ∈ times) as Hnow by (apply Hh; by rewrite Eb).
  pose proof (messages_in_app (b :: bs) ext Hbs Hext ltac:(done)) as Happ.
  pose proof (messages_in_step (b :: bs) Hbs) as Hstep.
  pose proof (deserialize_shape _ Hbs) as D. destruct (ControlMessage_deserialize (b :: bs)) as [[m|e| |] r].
  - destruct D as (x&E&Hx). rewrite E in *.
    replace (drop (Z.to_nat (blen (x ++ r) - blen r)) (x ++ r)) with r.
    2:{ rewrite blen_app. replace (blen x + blen r - blen r) with (blen x) by lia. by rewrite drop_blen_app. }
    apply bytes_ok_app in Hbs as [_ Hr]. split.
    + constructor; simpl; [done|done|done].
    + split; [done|]. split; [|exact Happ]. simpl. rewrite length_app. destruct x; [done|]. simpl. lia.
  - assert (messages_in (b :: bs) = ([], b :: bs, Unparsed) -> exists e, stuck h e) as Hun
      by (intros Hm; exists Unparsed; unfold stuck; by rewrite Eb).
    destruct e; try (split; [done|]; split; [done|]; by apply Hun); [|done].
    destruct (partial_message_deadline h) as [d|] eqn:Ed.
    + split; [done|]. split; [done|]. exists Partial. unfold stuck. by rewrite Eb, Ed.
    + split; [|split; [done|exists Partial; split; [done|by eexists]]].
      constructor; simpl; [done| |done].
      intros d [= <-]. split; [done|]. by exists now.
  - done.
  - done.
Qed.

(** How reading ends: the answer, and when it is a timeout. *)
Definition ends (msgs_unread_e : list ControlMessage * bytes * ending) (h' : ControlStreamHandler)
    (r : answer ControlMessage) : Prop :=
  exists unread e late, msgs_unread_e = ([], unread, e) /\ r = last_answer e late (snd <$> head tail) /\
    (late = true -> exists T res t, tail = [(T, res)] /\ (e = Partial \/ e = Unparsed) /\
       t ∈ times /\ t + CONTROL_MESSAGE_TIMEOUT <= T) /\
    (forall T res, tail = [(T, res)] -> e = Partial -> (forall t, t ∈ times -> t + CONTROL_MESSAGE_TIMEOUT <= T) ->
       late = true) /\
    (r = None -> recv_bytes h' = unread).

Definition tail_ok : Prop := tail = [] \/ exists T res, tail = [(T, res)] /\ (res = Ok None \/ exists e, res = Err e).

Lemma next_message_step now h reads :
  next_message now h reads =
  let '(h1, parsed) := parse_buffered now h in
  match parsed with
  | Some r => (h1, (now, reads), Some r)
  | None =>
      match reads with
      | [] => (h1, (now, []), None)
      | (time, res) :: rest =>
          match read_more_data h1 reads with
          | (self, _, Some (Ok _)) => next_message time self rest
          | (self, reads, Some (Err e)) => (self, (time, reads), Some (Err e))
          | (self, reads, Some Panic) => (self, (time, reads), Some Panic)
          | (self, reads, Some Diverge) => (self, (time, reads), Some Diverge)
          | (self, reads, None) => (self, (time, reads), None)
          end
      end
  end.
Proof. by destruct reads. Qed.

(** Without a message and without data to come, reading ends. *)
Lemma stuck_ends now h e : handler_ok now h -> stuck h e -> tail_ok ->
  let '(h', (now', reads'), r) :=
    match tail with
    | [] => (h, (now, []), None)
    | (time, res) :: rest =>
        match read_more_data h tail with
        | (self, _, Some (Ok _)) => next_message time self rest
        | (self, reads, Some (Err e)) => (self, (time, reads), Some (Err e))
        | (self, reads, Some Panic) => (self, (time, reads), Some Panic)
        | (self, reads, Some Diverge) => (self, (time, reads), Some Diverge)
        | (self, reads, None) => (self, (time, reads), None)
        end
    end in
  match r with Some (Ok _) => False | r => ends (messages_in (recv_bytes h)) h' r end.
Proof.
  intros Hh [Hs He] Htail. destruct Htail as [Et | (T&res&Et&Hres)]; rewrite Et; unfold ends; rewrite Et.
  - exists (recv_bytes h), e, false. split; [done|]. split; [by destruct e|]. by split.
  - unfold read_more_data. destruct (partial_message_deadline h) as [d|] eqn:Ed.
    + destruct (ho_deadline _ _ Hh _ Ed) as (Hne&t&Ht&->). destruct (Z.leb_spec (t + CONTROL_MESSAGE_TIMEOUT) T).
      * exists (recv_bytes h), e, true. destruct e; try done; (split; [done|]; split; [done|]; split; [|done]; intros _;
          exists T, res, t; tauto).
      * assert (e = Partial \/ e = Unparsed) as He' by (destruct e; tauto).
        destruct Hres as [-> | [[] ->]]; simpl; exists (recv_bytes h), e, false;
          (split; [done|]; split; [by destruct He' as [-> | ->]|]; split; [done|]; split; [|done];
           intros T' res' [= <- <-] _ Hall; specialize (Hall t Ht); lia).
    + assert (e = AtEnd \/ e = Unparsed) as He' by (destruct e; try tauto; by apply is_Some_None in He).
      destruct Hres as [-> | [[] ->]]; simpl; exists (recv_bytes h), e, false;
        (split; [done|]; split; [by destruct He' as [-> | ->]|]; split; [done|]; split; [|done];
         intros T' res' _ ->; by destruct He').
Qed.

(** Data that arrives in time is kept. *)
Lemma read_more_arrival now h t d rest : handler_ok now h -> chunk_ok (t, d) ->
  let h' := mkHandler (recv_bytes h ++ d) (partial_message_deadline h) in
  read_more_data h ((t, Ok (Some d)) :: rest) = (h', rest, Some (Ok tt)) /\ handler_ok t h'.
Proof.
  intros Hh [Ht Hd] h'. simpl in Ht, Hd. split.
  - unfold read_more_data. destruct (partial_message_deadline h) as [dl|] eqn:Edl.
    + destruct (ho_deadline _ _ Hh _ Edl) as (_&t'&Ht'&->). pose proof (Hwindow t' t Ht' Ht).
      rewrite (proj2 (Z.leb_gt _ _)) by done. simpl. unfold h'. by rewrite Edl.
    + simpl. unfold h'. by rewrite Edl.
  - constructor; simpl; [apply bytes_ok_app; split; [apply Hh|done]| |done].
    intros dl Hdl. destruct (ho_deadline _ _ Hh _ Hdl) as [Hne Ht']. split; [|done]. by destruct (recv_bytes h).
Qed.

(** A call: a message and the rest of the stream, or how reading ends. *)
Lemma next_message_ok chunks : forall now h, handler_ok now h -> Forall chunk_ok chunks -> tail_ok ->
  let '(h', (now', reads'), r) := next_message now h (arrivals chunks) in
  match r with
  | Some (Ok msg) => exists chunks', reads' = arrivals chunks' /\ Forall chunk_ok chunks' /\ handler_ok now' h' /\
      (length (recv_bytes h' ++ data chunks') < length (recv_bytes h ++ data chunks))%nat /\
      messages_in (recv_bytes h ++ data chunks) =
        let '(msgs, unread, e) := messages_in (recv_bytes h' ++ data chunks') in (msg :: msgs, unread, e)
  | r => ends (messages_in (recv_bytes h ++ data chunks)) h' r
  end.
Proof.
  induction chunks as [|[t d] chunks IH]; intros now h Hh Hchunks Htail; rewrite next_message_step.
  - pose proof (parse_buffered_ok now h [] Hh bytes_ok_nil) as P. change (data []) with (@nil Z).
    destruct (parse_buffered now h) as [h1 [[m|e| |]|]].
    + destruct P as (Hh'&_&Hl&Hm). exists []. change (data []) with (@nil Z).
      rewrite !app_nil_r in *. split; [done|]. split; [constructor|]. done.
    + destruct P as [-> Hm]. exists (recv_bytes h ++ []), Violation, false. rewrite Hm. by repeat split.
    + exists (recv_bytes h ++ []), Panicked, false. rewrite P. by repeat split.
    + done.
    + destruct P as (Hh'&Hb&e&Hs). rewrite app_nil_r, <- Hb. change (arrivals []) with tail.
      pose proof (stuck_ends now h1 e Hh' Hs Htail) as E.
      destruct (match tail with [] => _ | _ => _ end) as [[h' [now' reads']] [[m|c| |]|]]; [done|exact E..].
  - apply Forall_cons in Hchunks as [[Ht Hd] Hchunks]. simpl in Ht, Hd.
    assert (bytes_ok (data ((t, d) :: chunks))) as Hdata by (apply bytes_ok_app; split; [done|by apply chunks_data_ok]).
    pose proof (parse_buffered_ok now h _ Hh Hdata) as P.
    destruct (parse_buffered now h) as [h1 [[m|e| |]|]].
    + destruct P as (Hh'&_&Hl&Hm). exists ((t, d) :: chunks). rewrite !length_app.
      split; [done|]. split; [by constructor|]. split; [done|]. split; [lia|done].
    + destruct P as [-> Hm]. exists (recv_bytes h ++ data ((t, d) :: chunks)), Violation, false. rewrite Hm. by repeat split.
    + exists (recv_bytes h ++ data ((t, d) :: chunks)), Panicked, false. rewrite P. by repeat split.
    + done.
    + destruct P as (Hh'&Hb&_). destruct (read_more_arrival now h1 t d (arrivals chunks) Hh') as [E Hh2]; [by split|].
      change (arrivals ((t, d) :: chunks)) with ((t, @Ok TransportReadError _ (Some d)) :: arrivals chunks).
      rewrite E. specialize (IH t _ Hh2 Hchunks Htail). simpl recv_bytes in IH.
      change (data ((t, d) :: chunks)) with (d ++ data chunks). rewrite <- Hb, app_assoc. exact IH.
Qed.

Lemma serve_ok fuel : forall now h chunks, (length (recv_bytes h ++ data chunks) < fuel)%nat ->
  handler_ok now h -> Forall chunk_ok chunks -> tail_ok ->
  let '(msgs, unread, e) := messages_in (recv_bytes h ++ data chunks) in
  exists h' r, serve fuel now h (arrivals chunks) = (msgs, h', r) /\ ends ([], unread, e) h' r.
Proof.
  induction fuel as [|fuel IH]; intros now h chunks Hf Hh Hchunks Htail; [lia|]. simpl.
  pose proof (next_message_ok chunks now h Hh Hchunks Htail) as P.
  destruct (next_message now h (arrivals chunks)) as [[h' [now' reads']] [[m|c| |]|]].
  2-5: destruct P as (unread&e&late&E&P); rewrite E; eexists _, _; (split; [done|]); by exists unread, e, late.
  destruct P as (chunks'&->&Hc'&Hh'&Hl&->). specialize (IH now' h' chunks' ltac:(lia) Hh' Hc' Htail).
  destruct (messages_in (recv_bytes h' ++ data chunks')) as [[msgs unread] e].
  destruct IH as (h2&r&->&He). by exists h2, r.
Qed.
End Lemmas.

(** * Properties *)

(** C22: reading control messages does not depend on how their bytes arrive.
    Any bytes, cut into any chunks that come within the time for a message, give
    the messages that parsing them at once gives, and then: the call waits with
    the unread bytes kept; a message that is a violation gives PROTOCOL_VIOLATION;
    a stream closed by the peer gives PROTOCOL_VIOLATION, one whose connection
    is gone gives NO_ERROR, any other failure INTERNAL_ERROR; and if something
    unread was started, whatever comes after its time is up gives
    CONTROL_MESSAGE_TIMEOUT.  [late] says which of the two. *)
Theorem control_stream_chunking `{Target} now chunks tail fuel :
  Forall (fun c => bytes_ok (snd c)) chunks ->
  (forall c c', c ∈ chunks -> c' ∈ chunks -> fst c' < fst c + CONTROL_MESSAGE_TIMEOUT) ->
  tail_ok tail -> (length (data chunks) < fuel)%nat ->
  let '(msgs, unread, e) := messages_in (data chunks) in
  exists h' late,
    serve fuel now ControlStreamHandler_new (arrivals tail chunks) = (msgs, h', last_answer e late (snd <$> head tail)) /\
    (last_answer e late (snd <$> head tail) = None -> recv_bytes h' = unread) /\
    (late = true -> exists T res c, tail = [(T, res)] /\ (e = Partial \/ e = Unparsed) /\
       c ∈ chunks /\ fst c + CONTROL_MESSAGE_TIMEOUT <= T) /\
    (forall T res, tail = [(T, res)] -> e = Partial ->
       (forall c, c ∈ chunks -> fst c + CONTROL_MESSAGE_TIMEOUT <= T) -> late = true).
Proof.
  intros Hb Hwin Htail Hf. set (times := map fst chunks).
  assert (forall t t', t ∈ times -> t' ∈ times -> t' < t + CONTROL_MESSAGE_TIMEOUT) as Hwindow.
  { intros t t' (c&->&Hc)%list_elem_of_fmap (c'&->&Hc')%list_elem_of_fmap. by apply Hwin. }
  assert (Forall (chunk_ok times) chunks) as Hchunks.
  { rewrite Forall_forall in Hb |- *. intros c Hc. split; [by apply list_elem_of_fmap_2|by apply Hb]. }
  assert (handler_ok times now ControlStreamHandler_new) as Hnew by (constructor; [constructor|done|done]).
  pose proof (serve_ok times tail Hwindow fuel now ControlStreamHandler_new chunks Hf Hnew Hchunks Htail) as S.
  simpl in S. destruct (messages_in (data chunks)) as [[msgs unread] e].
  destruct S as (h'&r&->&(unread'&e'&late&[= <- <-]&->&Hlate&Hpart&Hun)). exists h', late.
  split; [done|]. split; [done|]. split.
  - intros Hl. destruct (Hlate Hl) as (T&res&t&Et&He&(c&->&Hc)%list_elem_of_fmap&HT). by exists T, res, c.
  - intros T res Et He Hall. eapply Hpart; [done..|]. intros t (c&->&Hc)%list_elem_of_fmap. by apply Hall.
Qed.

(** Two SETUPs in three chunks, the second of which never gets its last byte;
    the peer closes the stream, in time or too late. *)
Definition demo_chunks : list (Z * bytes) := [(100, [175; 0; 0]); (180, [0; 175]); (200, [0; 0])].

Lemma control_stream_chunking_witness :
  exists h h', serve (H:=release_build) 8 0 ControlStreamHandler_new (arrivals [(5000, Ok None)] demo_chunks) =
      ([CM_Setup (mkSetup [])], h, Some (Err TC_ProtocolViolation)) /\
    serve (H:=release_build) 8 0 ControlStreamHandler_new (arrivals [(5200, Ok None)] demo_chunks) =
      ([CM_Setup (mkSetup [])], h', Some (Err TC_ControlMessageTimeout)).
Proof.
  assert (Forall (fun c => bytes_ok (snd c)) demo_chunks) as Hb
    by (repeat (apply Forall_cons_2; [repeat (apply Forall_cons_2; [done|]); apply Forall_nil_2|]); apply Forall_nil_2).
  assert (forall c c', c ∈ demo_chunks -> c' ∈ demo_chunks -> fst c' < fst c + CONTROL_MESSAGE_TIMEOUT) as Hwin.
  { unfold CONTROL_MESSAGE_TIMEOUT. intros c c' Hc Hc'. unfold demo_chunks in *.
    repeat (apply elem_of_cons in Hc as [-> | Hc]; [|]); [..|by apply not_elem_of_nil in Hc];
    repeat (apply elem_of_cons in Hc' as [-> | Hc']; [simpl; lia|]); by apply not_elem_of_nil in Hc'. }
  assert (length (data demo_chunks) < 8)%nat as Hf by (vm_compute; lia).
  assert (messages_in (H:=release_build) (data demo_chunks) = ([CM_Setup (mkSetup [])], [175; 0; 0], Partial)) as Em
    by (vm_compute; reflexivity).
  assert (forall T, tail_ok [(T, Ok None)]) as Htail by (intros T; right; by exists T, (Ok None); split; [|left]).
  pose proof (@control_stream_chunking release_build 0 demo_chunks [(5000, Ok None)] 8 Hb Hwin (Htail _) Hf) as P.
  pose proof (@control_stream_chunking release_build 0 demo_chunks [(5200, Ok None)] 8 Hb Hwin (Htail _) Hf) as Q.
  rewrite Em in P, Q. destruct P as (h&late&E&_&Hl&_), Q as (h'&late'&E'&_&_&Hl'). exists h, h'. split.
  - rewrite E. destruct late; [|reflexivity]. destruct (Hl eq_refl) as (T&res&c&[= <- <-]&_&Hc&Ht).
    exfalso. unfold demo_chunks, CONTROL_MESSAGE_TIMEOUT in *.
    repeat (apply elem_of_cons in Hc as [-> | Hc]; [simpl in Ht; lia|]). by apply not_elem_of_nil in Hc.
  - rewrite E', (Hl' 5200 (Ok None) eq_refl eq_refl); [reflexivity|]. intros c Hc.
    unfold demo_chunks, CONTROL_MESSAGE_TIMEOUT in *.
    repeat (apply elem_of_cons in Hc as [-> | Hc]; [simpl; lia|]). by apply not_elem_of_nil in Hc.
Defined.

Section Delivery.
Context `{Target}.

(** A message in transit: what the sender writes for it. *)
Definition sent (m : ControlMessage) (bs : bytes) : Prop :=
  cm_ok m /\ send (fun _ => true) m = (Some bs, Ok tt).

Lemma sent_decodes m bs : sent m bs -> bytes_ok bs /\ bs <> [] /\ decodes ControlMessage_deserialize bs (canon m).
Proof.
  intros [Hm Hs]. unfold send in Hs.
  destruct (ControlMessage_transmits m Hm) as [(bs'&E&Hb&Hd)|[(p&e&_&_&E)|Hl]].
  - rewrite E in Hs. injection Hs as <-. split; [done|]. split; [|done]. intros ->.
    specialize (Hd []). pose proof (deserialize_shape [] Hb) as D. simpl app in Hd. rewrite Hd in D.
    destruct D as (x&Hx&Hne). by destruct x.
  - by rewrite E in Hs.
  - destruct Hl as (n&E&_). by rewrite E in Hs.
Qed.
End Delivery.

(** ** The time for a message

    The deadline runs from the chunk that brings the first byte of a message to the one
    that brings the last. *)
Definition arrived (chunks : list (Z * bytes)) (j : nat) : nat := length (data (take j chunks)).
Definition written (bss : list bytes) (i : nat) : nat := length (concat (take i bss)).
(** Chunk [j] brings the first byte of message [i]; message [i] is not whole before chunk [k]. *)
Definition opens (bss : list bytes) (chunks : list (Z * bytes)) (i j : nat) : bool :=
  (arrived chunks j <=? written bss i)%nat && (written bss i <? arrived chunks (S j))%nat.
Definition awaits (bss : list bytes) (chunks : list (Z * bytes)) (i k : nat) : bool := (arrived chunks k <? written bss (S i))%nat.
(** Each message gets its time, on its own. *)
Definition in_time (bss : list bytes) (chunks : list (Z * bytes)) : bool :=
  forallb (fun i => forallb (fun j => forallb (fun k =>
    match chunks !! j, chunks !! k with
    | Some c, Some c' => implb (opens bss chunks i j && (j <? k)%nat && awaits bss chunks i k) (fst c' <? fst c + CONTROL_MESSAGE_TIMEOUT)
    | _, _ => true
    end) (seq 0 (length chunks))) (seq 0 (length chunks))) (seq 0 (length bss)).

Lemma data_app a b : data (a ++ b) = data a ++ data b.
Proof. unfold data. by rewrite map_app, concat_app. Qed.

Lemma in_time_split bss1 bs bss2 pre c mid c' post : in_time (bss1 ++ bs :: bss2) (pre ++ c :: mid ++ c' :: post) = true ->
  (length (data pre) <= length (concat bss1) < length (data (pre ++ [c])))%nat ->
  (length (data (pre ++ c :: mid)) < length (concat bss1) + length bs)%nat -> fst c' < fst c + CONTROL_MESSAGE_TIMEOUT.
Proof.
  intros H Hfirst Hlast. set (chunks := pre ++ c :: mid ++ c' :: post) in *. set (bss := bss1 ++ bs :: bss2) in *.
  assert (E1 : take (length pre) chunks = pre) by apply take_app_length.
  assert (E2 : take (S (length pre)) chunks = pre ++ [c]).
  { unfold chunks. rewrite (cons_middle c), app_assoc. replace (S (length pre)) with (length (pre ++ [c])) by (rewrite length_app; simpl; lia). apply take_app_length. }
  set (k := length (pre ++ c :: mid)). assert (E3 : take k chunks = pre ++ c :: mid).
  { unfold chunks. change (pre ++ c :: mid ++ c' :: post) with (pre ++ (c :: mid) ++ c' :: post). rewrite app_assoc. apply take_app_length. }
  assert (E4 : take (length bss1) bss = bss1) by apply take_app_length.
  assert (E5 : take (S (length bss1)) bss = bss1 ++ [bs]).
  { unfold bss. rewrite (cons_middle bs), app_assoc. replace (S (length bss1)) with (length (bss1 ++ [bs])) by (rewrite length_app; simpl; lia). apply take_app_length. }
  assert (Ej : chunks !! length pre = Some c) by (by apply list_lookup_middle).
  assert (Ek : chunks !! k = Some c').
  { unfold chunks. change (pre ++ c :: mid ++ c' :: post) with (pre ++ (c :: mid) ++ c' :: post). rewrite app_assoc. by apply list_lookup_middle. }
  assert (Hk : (length pre < k)%nat) by (unfold k; rewrite length_app; simpl; lia).
  unfold in_time in H. rewrite forallb_forall in H. specialize (H (length bss1)). rewrite in_seq, forallb_forall in H.
  specialize (H ltac:(unfold bss; rewrite length_app; simpl; lia) (length pre)). rewrite in_seq, forallb_forall in H.
  specialize (H ltac:(apply lookup_lt_Some in Ej; lia) k). rewrite in_seq, Ej, Ek in H. specialize (H ltac:(apply lookup_lt_Some in Ek; lia)).
  unfold opens, awaits, arrived, written in H. rewrite E1, E2, E3, E4, E5 in H. rewrite concat_app, length_app in H. simpl in H. rewrite app_nil_r in H.
  rewrite (proj2 (Nat.leb_le _ _)), !(proj2 (Nat.ltb_lt _ _)) in H by lia. simpl in H. lia.
Qed.

Section Timed.
Context `{Target}.
Variable bss : list bytes.
Variable chunks : list (Z * bytes).
Hypothesis whole : data chunks = concat bss.
Hypothesis timely : in_time bss chunks = true.

(** What was read and what is to come, of the chunks and of the messages. *)
Record timed (pre post : list (Z * bytes)) (before after : list bytes) (now : Z) (h : ControlStreamHandler) : Prop := {
  td_chunks : chunks = pre ++ post;
  td_messages : bss = before ++ after;
  td_read : data pre = concat before ++ recv_bytes h;
  td_deadline : forall d, partial_message_deadline h = Some d -> recv_bytes h <> [] /\
    exists pre0 c mid, pre = pre0 ++ c :: mid /\ (length (data pre0) <= length (concat before) < length (data (pre0 ++ [c])))%nat /\
      d = fst c + CONTROL_MESSAGE_TIMEOUT;
  td_now : recv_bytes h <> [] -> exists pre0 c, pre = pre0 ++ [c] /\ now = fst c /\
    (partial_message_deadline h = None -> (length (data pre0) <= length (concat before))%nat) /\
    (forall bs rest, after = bs :: rest -> (length (data pre0) <= length (concat before) + length bs)%nat)
}.

Lemma timed_left pre post before after now h : timed pre post before after now h -> recv_bytes h ++ data post = concat after.
Proof.
  intros [E1 E2 E3 _ _]. pose proof whole as W. rewrite E1, E2, data_app, concat_app, E3, <- app_assoc in W. by apply app_inv_head in W.
Qed.

(** Some of a message is not a message, and may become one. *)
Lemma part_waits bs part more m : decodes ControlMessage_deserialize bs m -> bs = part ++ more -> more <> [] ->
  exists a b c r, ControlMessage_deserialize part = (Err (NotEnoughBytes a b c), r).
Proof.
  intros Hd -> Hne. pose proof (stable_ControlMessage part more) as S. specialize (Hd []). rewrite app_nil_r in Hd.
  destruct (ControlMessage_deserialize part) as [[m'|e| |] r] eqn:E.
  - rewrite Hd in S. injection S as _ S. symmetry in S. by apply app_eq_nil in S as [_ ->].
  - destruct e; try (rewrite Hd in S; congruence). by do 4 eexists.
  - rewrite Hd in S. congruence.
  - rewrite Hd in S. congruence.
Qed.

(** A read in time. *)
Lemma timed_read pre c post before bs after now h : timed pre (c :: post) before (bs :: after) now h -> (length (recv_bytes h) < length bs)%nat ->
  (recv_bytes h <> [] -> partial_message_deadline h <> None) ->
  let h' := mkHandler (recv_bytes h ++ snd c) (partial_message_deadline h) in
  read_more_data h ((fst c, Ok (Some (snd c))) :: arrivals [] post) = (h', arrivals [] post, Some (Ok tt)) /\
  timed (pre ++ [c]) post before (bs :: after) (fst c) h'.
Proof.
  intros [E1 E2 E3 E4 E5] Hlt Hd h'. assert (Hlen : length (data pre) = (length (concat before) + length (recv_bytes h))%nat) by (rewrite E3; apply length_app).
  split.
  - unfold read_more_data. destruct (partial_message_deadline h) as [d|] eqn:Ed; [|simpl; by rewrite Ed].
    destruct (E4 d eq_refl) as (_ & pre0 & c0 & mid & -> & Hf & ->). rewrite (proj2 (Z.leb_gt _ _)); [simpl; by rewrite Ed|].
    pose proof timely as T. rewrite E1, E2, <- app_assoc in T. simpl in T.
    apply (in_time_split _ _ _ _ _ _ _ _ T Hf). lia.
  - split; simpl.
    + by rewrite <- app_assoc.
    + done.
    + rewrite data_app, E3. unfold data. simpl. by rewrite app_nil_r, app_assoc.
    + intros d Ed. destruct (E4 d Ed) as (Hne & pre0 & c0 & mid & -> & Hf & ->). split; [by destruct (recv_bytes h)|].
      exists pre0, c0, (mid ++ [c]). split; [by rewrite <- app_assoc|done].
    + intros _. exists pre, c. split; [done|]. split; [done|]. split.
      * intros Ed. destruct (recv_bytes h) as [|x l]; [simpl in Hlen; lia|]. by destruct (Hd ltac:(done)).
      * intros bs' rest [= <- <-]. lia.
Qed.

(** A message that is whole. *)
Lemma timed_whole pre post bs m after before now h rest : decodes ControlMessage_deserialize bs m -> bs <> [] ->
  timed pre post before (bs :: after) now h -> recv_bytes h = bs ++ rest ->
  parse_buffered now h = (mkHandler rest None, Some (Ok m)) /\ timed pre post (before ++ [bs]) after now (mkHandler rest None).
Proof.
  intros Hdec Hne [E1 E2 E3 E4 E5] Er. assert (Hr : recv_bytes h <> []) by (rewrite Er; by destruct bs). split.
  - unfold parse_buffered. rewrite Er. destruct (bs ++ rest) as [|b l] eqn:El; [by destruct bs|].
    rewrite <- El, (Hdec rest). f_equal. f_equal. rewrite blen_app. replace (blen bs + blen rest - blen rest) with (blen bs) by lia.
    by rewrite drop_blen_app.
  - assert (Ec : concat (before ++ [bs]) = concat before ++ bs) by (rewrite concat_app; simpl; by rewrite app_nil_r).
    split; simpl; [done|by rewrite <- app_assoc|by rewrite Ec, E3, Er, app_assoc|done|].
    intros _. destruct (E5 Hr) as (pre0 & c & Ep & En & _ & Hl). specialize (Hl bs after eq_refl).
    exists pre0, c. rewrite Ec, length_app. split; [done|]. split; [done|]. split; [done|]. intros. lia.
Qed.

(** One that is there in part. *)
Lemma timed_part pre post bs m after before now h more : decodes ControlMessage_deserialize bs m ->
  timed pre post before (bs :: after) now h -> bs = recv_bytes h ++ more -> more <> [] ->
  exists h', parse_buffered now h = (h', None) /\ timed pre post before (bs :: after) now h' /\ recv_bytes h' = recv_bytes h /\
    (recv_bytes h' <> [] -> partial_message_deadline h' <> None).
Proof.
  intros Hdec Ht Eb Hmore. destruct (part_waits bs (recv_bytes h) more m Hdec Eb Hmore) as (x & y & z & r & Ep).
  destruct Ht as [E1 E2 E3 E4 E5]. unfold parse_buffered. destruct (recv_bytes h) as [|b l] eqn:Er.
  { exists h. rewrite Er. split_and!; try done. split; by rewrite ?Er. }
  rewrite Ep. destruct (partial_message_deadline h) as [d|] eqn:Ed.
  { exists h. rewrite Er, Ed. split_and!; try done. split; by rewrite ?Er, ?Ed. }
  destruct (E5 ltac:(done)) as (pre0 & c & Epre & En & Hf & Hl). eexists. split; [reflexivity|]. split_and!; try done. split; simpl; try done.
  - intros d [= <-]. split; [done|]. exists pre0, c, []. split; [done|]. rewrite <- Epre, E3, length_app, En. simpl.
    specialize (Hf eq_refl). split; [lia|done].
  - intros _. by exists pre0, c.
Qed.

(** One call, one message. *)
Lemma timed_call bs m after before : decodes ControlMessage_deserialize bs m -> bs <> [] -> forall post pre now h,
  timed pre post before (bs :: after) now h ->
  exists pre' post' now' h', next_message now h (arrivals [] post) = (h', (now', arrivals [] post'), Some (Ok m)) /\
    timed pre' post' (before ++ [bs]) after now' h'.
Proof.
  intros Hdec Hne post. induction post as [|c post IH]; intros pre now h Ht;
    pose proof (timed_left _ _ _ _ _ _ Ht) as Hleft; simpl concat in Hleft; rewrite next_message_step.
  - change (data []) with (@nil Z) in Hleft. rewrite app_nil_r in Hleft.
    destruct (timed_whole _ _ _ _ _ _ _ _ _ Hdec Hne Ht Hleft) as [-> Ht']. by exists pre, [], now, (mkHandler (concat after) None).
  - destruct (app_eq_inv _ _ _ _ Hleft) as [(rest & Er & _)|(more & Eb & _)].
    + destruct (timed_whole _ _ _ _ _ _ _ _ _ Hdec Hne Ht Er) as [-> Ht']. by exists pre, (c :: post), now, (mkHandler rest None).
    + destruct more as [|x more].
      * rewrite app_nil_r in Eb. destruct (timed_whole _ _ _ _ _ _ _ _ [] Hdec Hne Ht) as [-> Ht']; [by rewrite app_nil_r|].
        by exists pre, (c :: post), now, (mkHandler [] None).
      * destruct (timed_part _ _ _ _ _ _ _ _ _ Hdec Ht Eb ltac:(done)) as (h1 & -> & H1 & Er & Hd).
        destruct (timed_read pre c post before bs after now h1 H1) as [E H2]; [rewrite Er, Eb, length_app; simpl; lia|done|].
        change (arrivals [] (c :: post)) with ((fst c, @Ok TransportReadError _ (Some (snd c))) :: arrivals [] post). rewrite E.
        by apply (IH (pre ++ [c]) (fst c)).
Qed.

(** All have been read: what else comes is empty. *)
Lemma timed_over post : data post = [] -> forall now, exists now', next_message now ControlStreamHandler_new (arrivals [] post) = (ControlStreamHandler_new, (now', []), None).
Proof.
  induction post as [|[t d] post IH]; intros Hd now; rewrite next_message_step; [by eexists|].
  unfold data in Hd. simpl in Hd. apply app_eq_nil in Hd as [-> Hd]. simpl. apply (IH Hd).
Qed.

Lemma timed_serve msgs : forall fuel pre post before after now h, Forall2 sent msgs after -> timed pre post before after now h -> (length after < fuel)%nat ->
  exists h', serve fuel now h (arrivals [] post) = (map canon msgs, h', None) /\ recv_bytes h' = [].
Proof.
  induction msgs as [|m msgs IH]; intros fuel pre post before after now h Hm Ht Hf.
  - apply Forall2_nil_inv_l in Hm as ->. pose proof (timed_left _ _ _ _ _ _ Ht) as Hleft. simpl in Hleft. apply app_eq_nil in Hleft as [Er Hd].
    destruct fuel as [|fuel]; [simpl in Hf; lia|]. assert (Eh : h = ControlStreamHandler_new).
    { destruct h as [b dl]. simpl in Er. subst b. destruct dl as [d|]; [|done]. by destruct (proj1 (td_deadline _ _ _ _ _ _ Ht d eq_refl)). }
    subst h. simpl. destruct (timed_over post Hd now) as [now' ->]. by eexists.
  - apply Forall2_cons_inv_l in Hm as (bs & after' & Hm & Hms & ->). destruct fuel as [|fuel]; [simpl in Hf; lia|].
    destruct (sent_decodes m bs Hm) as (_ & Hne & Hdec).
    destruct (timed_call bs (canon m) after' before Hdec Hne post pre now h Ht) as (pre' & post' & now' & h' & E & Ht').
    destruct (IH fuel pre' post' _ after' now' h' Hms Ht') as (h2 & E2 & Er); [simpl in Hf; lia|].
    exists h2. split; [|done]. simpl. rewrite E, E2. done.
Qed.
End Timed.

(** C23: a control stream delivers.  The messages a sender writes, cut into any chunks on
    the way, come out of the receiver as they were sent, with their parameters in the order
    of their Types and nothing else between them; then it waits with nothing left over.
    Each message has five seconds from the chunk that brings its first byte to the one that
    brings its last; between messages, and for all of them together, there is no limit. *)
Theorem control_stream_delivers `{Target} now msgs bss chunks fuel :
  Forall2 sent msgs bss -> data chunks = concat bss -> in_time bss chunks = true -> (length bss < fuel)%nat ->
  exists h', serve fuel now ControlStreamHandler_new (arrivals [] chunks) = (map canon msgs, h', None) /\
    recv_bytes h' = [].
Proof.
  intros Hm Hdata Htime Hf. apply (timed_serve bss chunks Hdata Htime msgs fuel [] chunks [] bss now); [done| |done]. by split.
Qed.

(** Two SETUPs in four chunks, in nine seconds. *)
Definition sent_chunks : list (Z * bytes) := [(100, [175; 0]); (4900, [0; 0; 175]); (9000, [0; 0]); (9800, [0])].

Lemma control_stream_delivers_witness :
  exists h', serve (H:=release_build) 3 0 ControlStreamHandler_new (arrivals [] sent_chunks) =
      ([CM_Setup (mkSetup []); CM_Setup (mkSetup [])], h', None) /\ recv_bytes h' = [].
Proof.
  assert (sent (CM_Setup (mkSetup [])) [175; 0; 0; 0]) as Hs.
  { split; [apply Forall_nil_2|vm_compute; reflexivity]. }
  apply (@control_stream_delivers release_build 0 [CM_Setup (mkSetup []); CM_Setup (mkSetup [])]
    [[175; 0; 0; 0]; [175; 0; 0; 0]] sent_chunks 3).
  - repeat (apply Forall2_cons_2; [exact Hs|]). constructor.
  - reflexivity.
  - vm_compute. reflexivity.
  - vm_compute. lia.
Defined.
(** A second one that takes five is too late. *)
Example second_too_late :
  snd (serve (H:=release_build) 3 0 ControlStreamHandler_new (arrivals [] [(100, [175; 0]); (4900, [0; 0; 175]); (9000, [0; 0]); (9900, [0])])) =
    Some (Err TC_ControlMessageTimeout).
Proof. vm_compute. reflexivity. Qed.

Lemma try_from_table_unknown {C} ctx (table : list (Z * C)) v : is_ok (try_from_table ctx table v) = false ->
  try_from_table ctx table v = Err (InvalidType ctx).
Proof. induction table as [|[k c] table IH]; simpl; [done|]. by destruct (v =? k). Qed.

(** C37: a message of an unknown type is never answered.  Whatever else comes,
    and however late, the call goes on waiting with all of it in its buffer: there
    is no error and no deadline. *)
Theorem unknown_type_waits `{Target} now bs v rest chunks :
  bytes_ok bs -> get_vi bs = (Ok v, rest) -> is_ok (ControlMessageType_try_from v) = false ->
  exists now', next_message now (mkHandler bs None) (arrivals [] chunks) =
    (mkHandler (bs ++ data chunks) None, (now', []), None).
Proof.
  intros Hbs Hv Hun.
  assert (forall ext, exists ctx r, ControlMessage_deserialize (bs ++ ext) = (Err (InvalidType ctx), r)) as Hbad.
  { intros ext. pose proof (get_vi_stable bs ext) as S. rewrite Hv in S. unfold ControlMessage_deserialize, pbind at 1.
    rewrite S. unfold pbind, lift. unfold ControlMessageType_try_from in *.
    rewrite (try_from_table_unknown _ _ _ Hun). by eexists _, _. }
  assert (bs <> []) as Hne by (intros ->; done).
  clear Hv Hun Hbs. revert now bs Hbad Hne. induction chunks as [|[t d] chunks IH]; intros now bs Hbad Hne;
    rewrite next_message_step; unfold parse_buffered; simpl recv_bytes.
  - destruct bs as [|b bs']; [done|]. destruct (Hbad []) as (ctx&r&E). rewrite app_nil_r in E. rewrite E.
    simpl. change (data []) with (@nil Z). rewrite app_nil_r. by eexists.
  - destruct bs as [|b bs']; [done|]. destruct (Hbad []) as (ctx&r&E). rewrite app_nil_r in E. rewrite E. simpl.
    destruct (IH t ((b :: bs') ++ d)) as [now' E'].
    + intros ext. rewrite <- app_assoc. apply Hbad.
    + done.
    + exists now'. simpl in E'. unfold arrivals in E'. simpl in E'. rewrite E'. unfold data. simpl. by rewrite <- app_assoc.
Qed.

(** Type 0x3F, and then two whole SETUPs a minute later. *)
Lemma unknown_type_waits_witness :
  exists now', next_message (H:=release_build) 0 (mkHandler [63] None)
      (arrivals [] [(60000, [0; 0; 175; 0; 0; 0]); (90000, [175; 0; 0; 0])]) =
    (mkHandler [63; 0; 0; 175; 0; 0; 0; 175; 0; 0; 0] None, (now', []), None).
Proof.
  apply (@unknown_type_waits release_build 0 [63] 63 [] [(60000, [0; 0; 175; 0; 0; 0]); (90000, [175; 0; 0; 0])]).
  - apply Forall_cons_2; [done|apply Forall_nil_2].
  - vm_compute. reflexivity.
  - reflexivity.
Defined.
