(* ===== verification/Namespaces.v ===== *)
(** Namespaces: who announces them and who hears of it
    ([apps/relay/src/server/prefix_subscription.rs], the prefix subscriptions
    and announcements of [track_manager.rs], and the handlers
    [message_handlers/{subscribe_namespace,subscribe_tracks,publish_namespace}_handler.rs]).

    A prefix subscription names a namespace prefix.  SUBSCRIBE_NAMESPACE is told
    of the namespaces under it (NAMESPACE, NAMESPACE_DONE), SUBSCRIBE_TRACKS of
    the tracks (PUBLISH).  The registry is shared by all connections; each
    connection also keeps its requests by Request ID.  What is written to the
    request streams is a list of (stream, message), in the order written. *)
From stdpp Require Import gmap.
From S2P Require Import Prelude Common Codes TrackName MessageParameter RangeFilter CombinedFilter Control.

(** * The registry ([track_manager.rs]) *)

Inductive SubscribeKind : Type := Kind_Namespace | Kind_Tracks.
#[export] Instance SubscribeKind_eq_dec : EqDecision SubscribeKind.
Proof. solve_decision. Defined.

(** A request stream: connection and Request ID. *)
Abbreviation stream := (Z * Z)%type.

Record NamespaceSubscriber := mkNamespaceSubscriber {
  nss_connection_id : Z;
  nss_kind : SubscribeKind;
  nss_parameters : list MessageParameter;
  nss_tx : stream
}.

Inductive PendingRequest : Type :=
| PR_Fetch (m : Fetch)
| PR_Subscribe (m : Subscribe)
| PR_PublishNamespace (m : PublishNamespace)
| PR_SubscribeNamespace (m : SubscribeNamespace)
| PR_SubscribeTracks (m : SubscribeTracks)
| PR_Publish (m : Publish)
| PR_RequestUpdate (m : RequestUpdate).

(** What is written to a request stream here. *)
Inductive written : Type :=
| W_RequestOk
| W_RequestError (code : RequestErrorCode)
| W_Namespace (suffix : Tuple)
| W_NamespaceDone (suffix : Tuple)
| W_Reset (code : StreamResetCode).

Record Namespaces := mkNamespaces {
  namespace_subscribers : gmap Tuple (list NamespaceSubscriber);
  announcements : gmap Tuple (Z * PublishNamespace);
  inbound_requests : gmap stream PendingRequest;
  (** The tracks with a PUBLISH, which other handlers change. *)
  published : list FullTrackName;
  log : list (stream * written)
}.

Definition Namespaces_new : Namespaces := mkNamespaces ∅ ∅ ∅ [] [].

Definition set_subscribers (s : Namespaces) (m : gmap Tuple (list NamespaceSubscriber)) : Namespaces :=
  mkNamespaces m (announcements s) (inbound_requests s) (published s) (log s).
Definition set_announcements (s : Namespaces) (m : gmap Tuple (Z * PublishNamespace)) : Namespaces :=
  mkNamespaces (namespace_subscribers s) m (inbound_requests s) (published s) (log s).
Definition set_inbound (s : Namespaces) (m : gmap stream PendingRequest) : Namespaces :=
  mkNamespaces (namespace_subscribers s) (announcements s) m (published s) (log s).
Definition write_all (s : Namespaces) (l : list (stream * written)) : Namespaces :=
  mkNamespaces (namespace_subscribers s) (announcements s) (inbound_requests s) (published s) (log s ++ l).

Definition is_sub (connection_id : Z) (kind : SubscribeKind) (x : NamespaceSubscriber) : bool :=
  (nss_connection_id x =? connection_id) && bool_decide (nss_kind x = kind).

Definition drop_empty (m : gmap Tuple (list NamespaceSubscriber)) : gmap Tuple (list NamespaceSubscriber) :=
  filter (fun kv => snd kv <> []) m.

Definition add_namespace_subscriber (s : Namespaces) (prefix : Tuple) (x : NamespaceSubscriber) : Namespaces :=
  let clients := default [] (namespace_subscribers s !! prefix) in
  let clients :=
    if negb (existsb (is_sub (nss_connection_id x) (nss_kind x)) clients) then clients ++ [x] else clients in
  set_subscribers s (<[prefix := clients]> (namespace_subscribers s)).

Definition remove_namespace_subscriber (s : Namespaces) (connection_id : Z) : Namespaces :=
  set_subscribers s (drop_empty
    (List.filter (fun x => negb (nss_connection_id x =? connection_id)) <$> namespace_subscribers s)).

Definition remove_namespace_subscriber_by_prefix (s : Namespaces) (prefix : Tuple) (connection_id : Z)
    (kind : SubscribeKind) : Namespaces :=
  set_subscribers s (drop_empty
    (alter (List.filter (fun x => negb (is_sub connection_id kind x))) prefix (namespace_subscribers s))).

Definition namespace_prefixes_overlap (a b : Tuple) : bool :=
  bool_decide (a = b) || starts_with a b || starts_with b a.

(** Which of several conflicting prefixes is found depends on the map's order
    and is only logged. *)
Definition find_overlapping_namespace_subscription (s : Namespaces) (connection_id : Z) (new_prefix : Tuple)
    (kind : SubscribeKind) (exclude : option Tuple) : option Tuple :=
  fst <$> List.find (fun e =>
    negb (bool_decide (exclude = Some (fst e))) &&
    (existsb (is_sub connection_id kind) (snd e) && namespace_prefixes_overlap new_prefix (fst e)))
    (map_to_list (namespace_subscribers s)).

(** The first subscriber of the connection, whatever its kind. *)
Fixpoint update_first (connection_id : Z) (new_parameters : list MessageParameter)
    (clients : list NamespaceSubscriber) : list NamespaceSubscriber :=
  match clients with
  | [] => []
  | x :: rest =>
      if nss_connection_id x =? connection_id
      then mkNamespaceSubscriber (nss_connection_id x) (nss_kind x)
             (apply_message_parameter_update (nss_parameters x) new_parameters) (nss_tx x) :: rest
      else x :: update_first connection_id new_parameters rest
  end.
Definition update_namespace_subscription_parameters (s : Namespaces) (prefix : Tuple) (connection_id : Z)
    (new_parameters : list MessageParameter) : Namespaces :=
  set_subscribers s (alter (update_first connection_id new_parameters) prefix (namespace_subscribers s)).

(** [Vec::remove] of the first match. *)
Fixpoint take_first (p : NamespaceSubscriber -> bool) (l : list NamespaceSubscriber)
    : option (NamespaceSubscriber * list NamespaceSubscriber) :=
  match l with
  | [] => None
  | x :: rest =>
      if p x then Some (x, rest)
      else match take_first p rest with Some (y, rest) => Some (y, x :: rest) | None => None end
  end.
Definition rekey_namespace_subscriber (s : Namespaces) (old_prefix new_prefix : Tuple) (connection_id : Z)
    (kind : SubscribeKind) : Namespaces * bool :=
  match namespace_subscribers s !! old_prefix with
  | None => (s, false)
  | Some clients =>
      match take_first (is_sub connection_id kind) clients with
      | None => (s, false)
      | Some (subscriber, rest) =>
          let subs := match rest with
                      | [] => delete old_prefix (namespace_subscribers s)
                      | _ => <[old_prefix := rest]> (namespace_subscribers s)
                      end in
          (set_subscribers s (<[new_prefix := default [] (subs !! new_prefix) ++ [subscriber]]> subs), true)
      end
  end.

Definition add_announcement (s : Namespaces) (namespace : Tuple) (publisher : Z) (message : PublishNamespace)
    : Namespaces :=
  set_announcements s (<[namespace := (publisher, message)]> (announcements s)).

Definition remove_announcement (s : Namespaces) (namespace : Tuple) (connection_id : Z) : Namespaces * bool :=
  match announcements s !! namespace with
  | Some (client, _) =>
      if client =? connection_id then (set_announcements s (delete namespace (announcements s)), true) else (s, false)
  | None => (s, false)
  end.

Definition remove_announcements_by_connection (s : Namespaces) (connection_id : Z) : Namespaces * list Tuple :=
  let removed := filter (fun kv => fst (snd kv) = connection_id) (announcements s) in
  (set_announcements s (filter (fun kv => fst (snd kv) <> connection_id) (announcements s)),
   map fst (map_to_list removed)).

Definition get_announcements_by_prefix (s : Namespaces) (prefix : Tuple) : list Tuple :=
  List.filter (fun ns => starts_with ns prefix) (map fst (map_to_list (announcements s))).

Definition update_namespace_parameters (s : Namespaces) (namespace : Tuple) (new_parameters : list MessageParameter)
    : Namespaces :=
  set_announcements s (alter (fun e : Z * PublishNamespace =>
    let m := snd e in
    (fst e, mkPublishNamespace (pns_request_id m) (pns_track_namespace m)
              (apply_message_parameter_update (pns_parameters m) new_parameters)))
    namespace (announcements s)).

(** * Fan-out ([publish_namespace_handler.rs]) *)

(** The body of the inner loop, and of the outer one. *)
Definition notify_subscriber (announcer : Z) (message : written) (x : NamespaceSubscriber) : list (stream * written) :=
  if negb (bool_decide (nss_kind x = Kind_Namespace)) || (nss_connection_id x =? announcer) then []
  else [(nss_tx x, message)].
Definition notify_prefix (namespace : Tuple) (announcer : Z) (message_for : Tuple -> written)
    (e : Tuple * list NamespaceSubscriber) : list (stream * written) :=
  if negb (starts_with namespace (fst e)) then []
  else match Tuple_suffix namespace (fst e) with
       | None => []
       | Some suffix => flat_map (notify_subscriber announcer (message_for suffix)) (snd e)
       end.
Definition announce_to_namespace_subscribers (s : Namespaces) (namespace : Tuple) (announcer : Z)
    (message_for : Tuple -> written) : Namespaces :=
  write_all s (flat_map (notify_prefix namespace announcer message_for) (map_to_list (namespace_subscribers s))).

(** * Prefix subscriptions ([prefix_subscription.rs] and the two handlers) *)

Definition MAX_NAMESPACE_PREFIX_FIELDS : nat := 32.

Definition oversized_namespace_error (prefix : Tuple) : option RequestErrorCode :=
  if (MAX_NAMESPACE_PREFIX_FIELDS <? length prefix)%nat then Some REC_NamespaceTooLarge else None.

(** One NAMESPACE per namespace not seen before. *)
Definition catchup_step (prefix : Tuple) (s : list Tuple * list written) (ns : Tuple) : list Tuple * list written :=
  let '(seen, out) := s in
  if bool_decide (ns ∈ seen) then (seen, out)
  else (ns :: seen, match Tuple_suffix ns prefix with Some suffix => out ++ [W_Namespace suffix] | None => out end).
Definition get_tracks_by_namespace_prefix (s : Namespaces) (prefix : Tuple) : list FullTrackName :=
  List.filter (fun n => starts_with (ftn_namespace n) prefix) (published s).
Definition namespace_catchup (s : Namespaces) (prefix : Tuple) : list written :=
  snd (fold_left (catchup_step prefix)
         (get_announcements_by_prefix s prefix ++ map ftn_namespace (get_tracks_by_namespace_prefix s prefix)) ([], [])).

Definition write_to (s : Namespaces) (to : stream) (l : list written) : Namespaces :=
  write_all s (map (fun w => (to, w)) l).

Definition handle_subscribe_namespace (s : Namespaces) (connection_id : Z) (m : SubscribeNamespace) : Namespaces :=
  let prefix := sns_track_namespace_prefix m in
  let to := (connection_id, sns_request_id m) in
  match oversized_namespace_error prefix with
  | Some err => write_to s to [W_RequestError err]
  | None =>
      match find_overlapping_namespace_subscription s connection_id prefix Kind_Namespace None with
      | Some _ => write_to s to [W_RequestError REC_PrefixOverlap]
      | None =>
          let s := add_namespace_subscriber s prefix
                     (mkNamespaceSubscriber connection_id Kind_Namespace (sns_parameters m) to) in
          let s := set_inbound s (<[to := PR_SubscribeNamespace m]> (inbound_requests s)) in
          let s := write_to s to [W_RequestOk] in
          write_to s to (namespace_catchup s prefix)
      end
  end.

(** Pushing the tracks that are there already is left to the caller. *)
Definition handle_subscribe_tracks (s : Namespaces) (connection_id : Z) (limit : Z) (m : SubscribeTracks)
    : panics Namespaces :=
  let prefix := st_track_namespace_prefix m in
  let to := (connection_id, st_request_id m) in
  match oversized_namespace_error prefix with
  | Some err => Ok (write_to s to [W_RequestError err])
  | None =>
      match tracks_filter (st_parameters m) limit with
      | Err _ => Ok (write_to s to [W_RequestError REC_InvalidFilter])
      | Panic => Panic
      | Diverge => Diverge
      | Ok _ =>
          match find_overlapping_namespace_subscription s connection_id prefix Kind_Tracks None with
          | Some _ => Ok (write_to s to [W_RequestError REC_PrefixOverlap])
          | None =>
              let s := add_namespace_subscriber s prefix
                         (mkNamespaceSubscriber connection_id Kind_Tracks (st_parameters m) to) in
              let s := set_inbound s (<[to := PR_SubscribeTracks m]> (inbound_requests s)) in
              Ok (write_to s to [W_RequestOk])
          end
      end
  end.

(** The loop over the tracks already published: [served] tells whether the
    subscriber publishes a track or is subscribed to it, [push] whether pushing it
    used a stream.  The tracks pushed, and the one PUBLISH_SKIPPED names. *)
Fixpoint push_existing (max_publish_streams published : Z) (served push : FullTrackName -> bool)
    (matched : list (FullTrackName * option Publish)) : list FullTrackName * option FullTrackName :=
  match matched with
  | [] => ([], None)
  | (name, publish) :: rest =>
      if served name then push_existing max_publish_streams published served push rest
      else match publish with
           | Some _ =>
               if (0 <? max_publish_streams) && (max_publish_streams <=? published) then ([], Some name)
               else
                 let r := push_existing max_publish_streams (if push name then published + 1 else published)
                            served push rest in
                 if push name then (name :: fst r, snd r) else r
           | None => push_existing max_publish_streams published served push rest
           end
  end.

(** [prefix_subscription::cancel]. *)
Definition prefix_cancel (s : Namespaces) (connection_id request_id : Z) : Namespaces :=
  let request := inbound_requests s !! (connection_id, request_id) in
  let s := set_inbound s (delete (connection_id, request_id) (inbound_requests s)) in
  match request with
  | Some (PR_SubscribeNamespace m) =>
      remove_namespace_subscriber_by_prefix s (sns_track_namespace_prefix m) connection_id Kind_Namespace
  | Some (PR_SubscribeTracks m) =>
      remove_namespace_subscriber_by_prefix s (st_track_namespace_prefix m) connection_id Kind_Tracks
  | _ => s
  end.

Definition target_subscription (s : Namespaces) (to : stream) : option (Tuple * SubscribeKind) :=
  match inbound_requests s !! to with
  | Some (PR_SubscribeNamespace m) => Some (sns_track_namespace_prefix m, Kind_Namespace)
  | Some (PR_SubscribeTracks m) => Some (st_track_namespace_prefix m, Kind_Tracks)
  | _ => None
  end.

Definition requested_prefix (parameters : list MessageParameter) : option Tuple :=
  match List.find (fun p => match p with MP_TrackNamespacePrefix _ => true | _ => false end) parameters with
  | Some (MP_TrackNamespacePrefix prefix) => Some prefix
  | _ => None
  end.

Definition prefix_move_rejection (s : Namespaces) (connection_id : Z) (current_prefix new_prefix : Tuple)
    (kind : SubscribeKind) : option RequestErrorCode :=
  match oversized_namespace_error new_prefix with
  | Some err => Some err
  | None =>
      match find_overlapping_namespace_subscription s connection_id new_prefix kind (Some current_prefix) with
      | Some _ => Some REC_PrefixOverlap
      | None => None
      end
  end.

(** The stored request, with its parameters updated and its prefix replaced. *)
Definition update_request (parameters : list MessageParameter) (new_prefix : option Tuple) (r : PendingRequest)
    : PendingRequest :=
  match r with
  | PR_SubscribeNamespace m =>
      PR_SubscribeNamespace (mkSubscribeNamespace (sns_request_id m)
        (default (sns_track_namespace_prefix m) new_prefix)
        (apply_message_parameter_update (sns_parameters m) parameters))
  | PR_SubscribeTracks m =>
      PR_SubscribeTracks (mkSubscribeTracks (st_request_id m)
        (default (st_track_namespace_prefix m) new_prefix)
        (apply_message_parameter_update (st_parameters m) parameters))
  | r => r
  end.

Definition apply_subscription_update (s : Namespaces) (to : stream) (current_prefix : Tuple)
    (new_prefix : option Tuple) (kind : SubscribeKind) (parameters : list MessageParameter) : Namespaces :=
  let s := set_inbound s (alter (update_request parameters new_prefix) to (inbound_requests s)) in
  let s := update_namespace_subscription_parameters s current_prefix (fst to) parameters in
  match new_prefix with
  | Some new_prefix => fst (rekey_namespace_subscriber s current_prefix new_prefix (fst to) kind)
  | None => s
  end.

Definition update_filters_rejection (s : Namespaces) (to : stream) (limit : Z) (kind : SubscribeKind)
    (update : list MessageParameter) : outcome RangeFilterError unit :=
  match kind with
  | Kind_Tracks =>
      let current := match inbound_requests s !! to with Some (PR_SubscribeTracks m) => st_parameters m | _ => [] end in
      let? _ := updated_tracks_filter current update limit in Ok tt
  | Kind_Namespace => check_filter_range_limit update 0
  end.

(** [prefix_subscription::handle] for a REQUEST_UPDATE. *)
Definition handle_prefix_update (s : Namespaces) (to : stream) (limit : Z) (update : list MessageParameter)
    : panics Namespaces :=
  match target_subscription s to with
  | None => Ok (write_to s to [W_Reset SRC_Cancelled])
  | Some (current_prefix, kind) =>
      let new_prefix := requested_prefix update in
      let rejection := match new_prefix with
                       | Some new_prefix => prefix_move_rejection s (fst to) current_prefix new_prefix kind
                       | None => None
                       end in
      match rejection with
      | Some err => Ok (write_to s to [W_RequestError err])
      | None =>
          match update_filters_rejection s to limit kind update with
          | Err _ => Ok (write_to s to [W_RequestError REC_InvalidFilter])
          | Panic => Panic
          | Diverge => Diverge
          | Ok _ =>
              Ok (write_to (apply_subscription_update s to current_prefix new_prefix kind update) to [W_RequestOk])
          end
      end
  end.

(** * Announcements ([publish_namespace_handler.rs]) *)

Definition handle_publish_namespace (s : Namespaces) (connection_id : Z) (m : PublishNamespace) : Namespaces :=
  let to := (connection_id, pns_request_id m) in
  let ns := pns_track_namespace m in
  if is_reserved_dot ns || is_session_namespace ns then write_to s to [W_RequestError REC_DoesNotExist]
  else
    let s := add_announcement s ns connection_id m in
    let s := set_inbound s (<[to := PR_PublishNamespace m]> (inbound_requests s)) in
    let s := announce_to_namespace_subscribers s ns connection_id W_Namespace in
    write_to s to [W_RequestOk].

(** A REQUEST_UPDATE.  The parameters are stored; passing the update on goes by
    IDs of announcements the relay sent, which it keeps none of. *)
Definition handle_publish_namespace_update (s : Namespaces) (to : stream) (update : list MessageParameter) : Namespaces :=
  match inbound_requests s !! to with
  | Some (PR_PublishNamespace m) =>
      let m' := mkPublishNamespace (pns_request_id m) (pns_track_namespace m)
                  (apply_message_parameter_update (pns_parameters m) update) in
      let s := set_inbound s (<[to := PR_PublishNamespace m']> (inbound_requests s)) in
      write_to (update_namespace_parameters s (pns_track_namespace m) update) to [W_RequestOk]
  | _ => write_to s to [W_Reset SRC_Cancelled]
  end.

(** [publish_namespace_handler::cancel]. *)
Definition publish_namespace_cancel (s : Namespaces) (connection_id request_id : Z) : Namespaces :=
  let request := inbound_requests s !! (connection_id, request_id) in
  let s := set_inbound s (delete (connection_id, request_id) (inbound_requests s)) in
  match request with
  | Some (PR_PublishNamespace m) =>
      let '(s, removed) := remove_announcement s (pns_track_namespace m) connection_id in
      if removed then announce_to_namespace_subscribers s (pns_track_namespace m) connection_id W_NamespaceDone else s
  | _ => s
  end.

(** The part of a closing connection that concerns namespaces
    ([session.rs], [handle_connection_close]); its requests go with its client. *)
Definition close_connection (s : Namespaces) (connection_id : Z) : Namespaces :=
  let '(s, withdrawn) := remove_announcements_by_connection s connection_id in
  let s := fold_left (fun s ns => announce_to_namespace_subscribers s ns connection_id W_NamespaceDone) withdrawn s in
  let s := remove_namespace_subscriber s connection_id in
  set_inbound s (filter (fun kv => fst (fst kv) <> connection_id) (inbound_requests s)).

(** * The registry mirrors the requests *)

(** What a request stream subscribes to. *)
Abbreviation targets := (stream -> option (Tuple * SubscribeKind)).

Record registry_ok (m : gmap Tuple (list NamespaceSubscriber)) (tgt : targets) : Prop := {
  (** No empty entry, one entry per stream. *)
  rok_entry : forall p l, m !! p = Some l -> l <> [] /\ NoDup (map nss_tx l);
  (** Every subscriber is there for a request. *)
  rok_request : forall p l x, m !! p = Some l -> x ∈ l ->
    nss_connection_id x = fst (nss_tx x) /\ tgt (nss_tx x) = Some (p, nss_kind x);
  (** Every request has its subscriber. *)
  rok_subscriber : forall t p k, tgt t = Some (p, k) -> exists l x, m !! p = Some l /\ x ∈ l /\ nss_tx x = t;
  (** The prefixes one connection holds of a kind do not overlap. *)
  rok_apart : forall t t' p p' k, tgt t = Some (p, k) -> tgt t' = Some (p', k) -> fst t = fst t' -> t <> t' ->
    namespace_prefixes_overlap p p' = false
}.

Lemma overlap_refl p : namespace_prefixes_overlap p p = true.
Proof. unfold namespace_prefixes_overlap. by rewrite bool_decide_true. Qed.
Lemma overlap_sym p q : namespace_prefixes_overlap p q = namespace_prefixes_overlap q p.
Proof.
  unfold namespace_prefixes_overlap. rewrite (bool_decide_ext (p = q) (q = p)) by done.
  by destruct (bool_decide _), (starts_with p q), (starts_with q p).
Qed.
Lemma is_sub_spec c k x : is_sub c k x = true <-> nss_connection_id x = c /\ nss_kind x = k.
Proof. unfold is_sub. rewrite andb_true_iff, Z.eqb_eq, bool_decide_eq_true. done. Qed.
Lemma overlap_both p q ns : starts_with ns p = true -> starts_with ns q = true -> namespace_prefixes_overlap p q = true.
Proof.
  rewrite !starts_with_spec. intros Hp Hq. unfold namespace_prefixes_overlap.
  destruct (prefix_weak_total p q ns Hp Hq) as [H|H]; apply starts_with_spec in H; rewrite H;
    by rewrite ?orb_true_r.
Qed.

(** Of one connection and kind a list holds at most the one subscriber. *)
Lemma registry_one m tgt p l x y :
  registry_ok m tgt -> m !! p = Some l -> x ∈ l -> y ∈ l ->
  nss_connection_id x = nss_connection_id y -> nss_kind x = nss_kind y -> nss_tx x = nss_tx y.
Proof.
  intros Hok Hl Hx Hy Hc Hk. destruct (decide (nss_tx x = nss_tx y)) as [|Hne]; [done|].
  destruct (rok_request _ _ Hok p l x Hl Hx) as [Hcx Htx]. destruct (rok_request _ _ Hok p l y Hl Hy) as [Hcy Hty].
  rewrite Hk in Htx. pose proof (rok_apart _ _ Hok _ _ _ _ _ Htx Hty ltac:(congruence) Hne) as H.
  by rewrite overlap_refl in H.
Qed.

Lemma registry_ext m tgt tgt' : registry_ok m tgt -> (forall t, tgt' t = tgt t) -> registry_ok m tgt'.
Proof.
  intros [He Hr Hs Ha] E. split; [done| | |].
  - intros p l x Hl Hx. rewrite E. by apply (Hr p l).
  - intros t p k. rewrite E. apply Hs.
  - intros t t' p p' k. rewrite !E. apply Ha.
Qed.

(** What [find_overlapping_namespace_subscription] finds, said of the requests. *)
Lemma find_overlapping_None s c p k ex :
  registry_ok (namespace_subscribers s) (target_subscription s) ->
  find_overlapping_namespace_subscription s c p k ex = None <->
  (forall t q, fst t = c -> target_subscription s t = Some (q, k) -> ex <> Some q ->
     namespace_prefixes_overlap p q = false).
Proof.
  intros Hok. unfold find_overlapping_namespace_subscription.
  destruct (List.find _ _) as [[q l]|] eqn:E; simpl.
  - split; [done|]. intros H. exfalso. apply List.find_some in E as [Hin E].
    apply list_elem_of_In, elem_of_map_to_list in Hin. apply andb_true_iff in E as [Hex E].
    apply andb_true_iff in E as [Hx Ho]. apply existsb_exists in Hx as (x & Hx & Hs).
    apply list_elem_of_In in Hx. apply is_sub_spec in Hs as [<- <-].
    destruct (rok_request _ _ Hok q l x Hin Hx) as [Hc Ht]. simpl in *.
    rewrite (H (nss_tx x) q) in Ho; [done|done|done|].
    apply negb_true_iff, bool_decide_eq_false in Hex. done.
  - split; [|done]. intros _ t q Ht Htgt Hex.
    destruct (rok_subscriber _ _ Hok _ _ _ Htgt) as (l & x & Hl & Hx & Etx).
    pose proof (List.find_none _ _ E (q, l)) as H. simpl in H.
    destruct (rok_request _ _ Hok q l x Hl Hx) as [Hc Hk]. rewrite Etx, Htgt in Hk. simplify_eq.
    assert (existsb (is_sub (nss_connection_id x) (nss_kind x)) l = true) as Hexb.
    { apply existsb_exists. exists x. split; [by apply list_elem_of_In|]. by apply is_sub_spec. }
    rewrite <- Hc, Hexb, bool_decide_false in H by congruence. simpl in H.
    apply H, list_elem_of_In, elem_of_map_to_list. done.
Qed.

(** ** Each operation on the registry *)

Definition tgt_set (tgt : targets) (t : stream) (v : option (Tuple * SubscribeKind)) : targets :=
  fun u => if decide (u = t) then v else tgt u.

Lemma registry_add m tgt x p :
  registry_ok m tgt -> tgt (nss_tx x) = None -> nss_connection_id x = fst (nss_tx x) ->
  (forall t q, fst t = nss_connection_id x -> tgt t = Some (q, nss_kind x) -> namespace_prefixes_overlap p q = false) ->
  registry_ok (<[p := default [] (m !! p) ++ [x]]> m) (tgt_set tgt (nss_tx x) (Some (p, nss_kind x))).
Proof.
  intros Hok Hfresh Hc Hov. assert (Hnot : forall q l y, m !! q = Some l -> y ∈ l -> nss_tx y <> nss_tx x).
  { intros q l y Hl Hy E. destruct (rok_request _ _ Hok q l y Hl Hy) as [_ H]. congruence. }
  assert (Hin : forall y, y ∈ default [] (m !! p) ++ [x] -> y = x \/ exists l, m !! p = Some l /\ y ∈ l).
  { intros y [Hy|Hy%list_elem_of_singleton]%elem_of_app; [|by left].
    destruct (m !! p) as [l|] eqn:El; [|by apply elem_of_nil in Hy]. right. by exists l. }
  split.
  - intros q l Hl. destruct (decide (q = p)) as [->|Hne]; [|rewrite lookup_insert_ne in Hl by done; by apply (rok_entry _ _ Hok q)].
    rewrite lookup_insert_eq in Hl. simplify_eq. split; [by destruct (default [] (m !! p))|].
    rewrite map_app. apply NoDup_app. split_and!; [| |apply NoDup_singleton].
    + destruct (m !! p) as [l|] eqn:El; [by apply (rok_entry _ _ Hok p)|constructor].
    + intros u Hu Hux. apply list_elem_of_singleton in Hux as ->. apply list_elem_of_fmap in Hu as (y & E & Hy).
      destruct (m !! p) as [l|] eqn:El; [|by apply elem_of_nil in Hy]. by apply (Hnot p l y).
  - intros q l y Hl Hy. unfold tgt_set. destruct (decide (q = p)) as [->|Hne].
    + rewrite lookup_insert_eq in Hl. simplify_eq. destruct (Hin y Hy) as [->|(l & El & Hyl)]; [by rewrite decide_True|].
      rewrite decide_False by by apply (Hnot p l). by apply (rok_request _ _ Hok p l).
    + rewrite lookup_insert_ne in Hl by done. rewrite decide_False by by apply (Hnot q l). by apply (rok_request _ _ Hok q l).
  - intros t q k. unfold tgt_set. destruct (decide (t = nss_tx x)) as [->|Hne].
    + intros [= <- <-]. exists (default [] (m !! p) ++ [x]), x. rewrite lookup_insert_eq. split_and!; [done|set_solver|done].
    + intros (l & y & Hl & Hy & Et)%(rok_subscriber _ _ Hok). destruct (decide (q = p)) as [->|Hqp].
      * exists (l ++ [x]), y. rewrite lookup_insert_eq, Hl. split_and!; [done|set_solver|done].
      * exists l, y. rewrite lookup_insert_ne by done. done.
  - intros t t' q q' k. unfold tgt_set. intros Ht Ht' Hf Hne.
    destruct (decide (t = nss_tx x)) as [->|]; destruct (decide (t' = nss_tx x)) as [->|]; simplify_eq.
    + apply (Hov t'); [congruence|done].
    + rewrite overlap_sym. apply (Hov t); [congruence|done].
    + by apply (rok_apart _ _ Hok t t' _ _ k).
Qed.

(** Keeping some of the subscribers keeps the registry right for their requests. *)
Lemma registry_filter m m' tgt (keep : stream -> bool) :
  registry_ok m tgt ->
  (forall p l', m' !! p = Some l' <->
     exists l, m !! p = Some l /\ l' = List.filter (fun x => keep (nss_tx x)) l /\ l' <> []) ->
  registry_ok m' (fun t => if keep t then tgt t else None).
Proof.
  intros Hok Hm. split.
  - intros p l' (l & Hl & -> & Hne)%Hm. split; [done|]. destruct (rok_entry _ _ Hok p l Hl) as [_ Hnd].
    clear -Hnd. induction l as [|x l IH]; simpl in *; [constructor|].
    apply NoDup_cons in Hnd as [Hx Hnd]. destruct (keep (nss_tx x)); [|by apply IH]. constructor; [|by apply IH].
    intros (y & E & Hy)%list_elem_of_fmap. apply list_elem_of_In, List.filter_In in Hy as [Hy _].
    apply Hx. rewrite E. apply list_elem_of_fmap_2. by apply list_elem_of_In.
  - intros p l' x (l & Hl & -> & _)%Hm Hx. apply list_elem_of_In, List.filter_In in Hx as [Hx Hk].
    rewrite Hk. apply list_elem_of_In in Hx. by apply (rok_request _ _ Hok p l).
  - intros t p k Ht. destruct (keep t) eqn:Ek; [|done].
    destruct (rok_subscriber _ _ Hok t p k Ht) as (l & x & Hl & Hx & <-).
    assert (x ∈ List.filter (fun x => keep (nss_tx x)) l) as Hf.
    { apply list_elem_of_In, List.filter_In. split; [by apply list_elem_of_In|done]. }
    exists (List.filter (fun x => keep (nss_tx x)) l), x. split_and!; [|done|done].
    apply Hm. exists l. split_and!; [done|done|]. intros E. rewrite E in Hf. by apply elem_of_nil in Hf.
  - intros t t' p p' k. destruct (keep t), (keep t'); try done. apply (rok_apart _ _ Hok).
Qed.

Lemma drop_empty_lookup m p l : drop_empty m !! p = Some l <-> m !! p = Some l /\ l <> [].
Proof. unfold drop_empty. rewrite map_lookup_filter_Some. done. Qed.

Definition is_stream (t u : stream) : bool := bool_decide (u = t).

(** In a list of the registry, the entry of a connection and kind is the one of its stream. *)
Lemma registry_is_sub m tgt p k t l x :
  registry_ok m tgt -> tgt t = Some (p, k) -> m !! p = Some l -> x ∈ l ->
  is_sub (fst t) k x = is_stream t (nss_tx x).
Proof.
  intros Hok Ht Hl Hx. unfold is_stream. apply eq_true_iff_eq. rewrite is_sub_spec, bool_decide_eq_true.
  destruct (rok_subscriber _ _ Hok t p k Ht) as (l' & y & Hl' & Hy & <-).
  destruct (rok_request _ _ Hok p l' y Hl' Hy) as [Hcy Hty]. simplify_eq.
  destruct (rok_request _ _ Hok p l x Hl Hx) as [Hcx Htx]. split.
  - intros [Hc Hk]. apply (registry_one m tgt p l); [done..|congruence|congruence].
  - intros E. rewrite E in *. split; congruence.
Qed.

Lemma registry_not_sub m tgt p k t l :
  registry_ok m tgt -> tgt t = Some (p, k) -> m !! p = Some l ->
  List.filter (fun x => negb (is_sub (fst t) k x)) l = List.filter (fun x => negb (is_stream t (nss_tx x))) l.
Proof.
  intros Hok Ht Hl. apply List.filter_ext_in. intros x Hx. f_equal.
  apply (registry_is_sub m tgt p k t l); [done..|by apply list_elem_of_In].
Qed.

Lemma registry_remove m tgt t p k :
  registry_ok m tgt -> tgt t = Some (p, k) ->
  registry_ok (drop_empty (alter (List.filter (fun x => negb (is_sub (fst t) k x))) p m)) (tgt_set tgt t None).
Proof.
  intros Hok Ht. apply registry_ext with (tgt := fun u => if negb (is_stream t u) then tgt u else None).
  - apply (registry_filter m _ tgt (fun u => negb (is_stream t u)) Hok).
    intros q l'. rewrite drop_empty_lookup. destruct (decide (q = p)) as [->|Hne].
    + rewrite lookup_alter_eq. split.
      * intros [H Hl]. apply fmap_Some in H as (l & El & ->). exists l. split_and!; [done| |done].
        by apply (registry_not_sub m tgt p).
      * intros (l & El & -> & Hl). rewrite El. simpl. by rewrite (registry_not_sub m tgt p k t l).
    + rewrite lookup_alter_ne by done. split; [|intros (l & El & -> & Hl)].
      * intros [El Hl]. exists l'. split_and!; [done| |done]. symmetry. apply filter_all_true. intros x Hx.
        unfold is_stream. rewrite bool_decide_false; [done|]. intros E.
        destruct (rok_request _ _ Hok q l' x El Hx) as [_ H]. rewrite E in H. congruence.
      * rewrite filter_all_true; [split; [done|]|].
        -- by apply (rok_entry _ _ Hok q).
        -- intros x Hx. unfold is_stream. rewrite bool_decide_false; [done|]. intros E.
           destruct (rok_request _ _ Hok q l x El Hx) as [_ H]. rewrite E in H. congruence.
  - intros u. unfold tgt_set, is_stream. destruct (decide (u = t)); [by rewrite bool_decide_true|by rewrite bool_decide_false].
Qed.

Lemma registry_close m tgt c :
  registry_ok m tgt ->
  registry_ok (drop_empty (List.filter (fun x => negb (nss_connection_id x =? c)) <$> m))
    (fun u => if negb (fst u =? c) then tgt u else None).
Proof.
  intros Hok. apply (registry_filter m _ tgt (fun u => negb (fst u =? c)) Hok).
  assert (E : forall p l, m !! p = Some l -> List.filter (fun x => negb (nss_connection_id x =? c)) l =
                List.filter (fun x => negb (fst (nss_tx x) =? c)) l).
  { intros p l Hl. apply List.filter_ext_in. intros x Hx%list_elem_of_In.
    by destruct (rok_request _ _ Hok p l x Hl Hx) as [-> _]. }
  intros q l'. rewrite drop_empty_lookup, lookup_fmap. split.
  - intros [H Hl]. apply fmap_Some in H as (l & El & ->). exists l. split_and!; [done|by apply (E q)|done].
  - intros (l & El & -> & Hl). rewrite El. simpl. by rewrite (E q l El).
Qed.

(** ** Changing parameters *)

Definition same_subscriber (x y : NamespaceSubscriber) : Prop :=
  nss_connection_id x = nss_connection_id y /\ nss_kind x = nss_kind y /\ nss_tx x = nss_tx y.

Lemma same_refl l : Forall2 same_subscriber l l.
Proof. by induction l; constructor. Qed.
Lemma update_first_same c ps l : Forall2 same_subscriber l (update_first c ps l).
Proof.
  induction l as [|x l IH]; simpl; [constructor|]. destruct (_ =? c); constructor; try done.
  apply same_refl.
Qed.

Lemma registry_same m m' tgt :
  registry_ok m tgt -> (forall p, option_Forall2 (Forall2 same_subscriber) (m !! p) (m' !! p)) -> registry_ok m' tgt.
Proof.
  intros Hok Hm. assert (Hb : forall p l', m' !! p = Some l' -> exists l, m !! p = Some l /\ Forall2 same_subscriber l l').
  { intros p l' Hl'. specialize (Hm p). rewrite Hl' in Hm. inversion Hm as [l ? H|]; subst. by exists l. }
  assert (Htx : forall l l', Forall2 same_subscriber l l' -> map nss_tx l' = map nss_tx l).
  { induction 1 as [|x y l l' (_ & _ & E) _ IH]; simpl; congruence. }
  split.
  - intros p l' (l & Hl & H)%Hb. rewrite (Htx l l' H). destruct (rok_entry _ _ Hok p l Hl) as [Hne ?].
    split; [|done]. intros ->. by inversion H; subst.
  - intros p l' y (l & Hl & H)%Hb Hy. apply list_elem_of_lookup in Hy as [i Hy].
    destruct (Forall2_lookup_r _ _ _ _ _ H Hy) as (x & Hx & E1 & E2 & E3). rewrite <- E1, <- E2, <- E3.
    apply (rok_request _ _ Hok p l); [done|by apply list_elem_of_lookup_2 with i].
  - intros t p k Ht. destruct (rok_subscriber _ _ Hok t p k Ht) as (l & x & Hl & Hx & Etx).
    pose proof (Hm p) as H. rewrite Hl in H. inversion H as [? l' H' E1 E2|]; subst.
    apply list_elem_of_lookup in Hx as [i Hx]. destruct (Forall2_lookup_l _ _ _ _ _ H' Hx) as (y & Hy & _ & _ & E).
    exists l', y. split_and!; [done|by apply list_elem_of_lookup_2 with i|by rewrite <- E].
  - apply (rok_apart _ _ Hok).
Qed.

Lemma registry_update m tgt p c ps : registry_ok m tgt -> registry_ok (alter (update_first c ps) p m) tgt.
Proof.
  intros Hok. apply (registry_same m); [done|]. intros q. destruct (decide (q = p)) as [->|Hne].
  - rewrite lookup_alter_eq. destruct (m !! p); simpl; constructor. apply update_first_same.
  - rewrite lookup_alter_ne by done. destruct (m !! q); constructor. apply same_refl.
Qed.

(** ** Moving a subscription *)

Lemma take_first_filter p l x rest :
  take_first p l = Some (x, rest) -> (forall y, y ∈ rest -> p y = false) ->
  p x = true /\ x ∈ l /\ rest = List.filter (fun y => negb (p y)) l.
Proof.
  revert rest. induction l as [|y l IH]; intros rest; simpl; [done|]. destruct (p y) eqn:Ey; simpl.
  - intros [= -> ->] Hrest. split_and!; [done|set_solver|]. symmetry. apply filter_all_true.
    intros z Hz. by rewrite Hrest.
  - destruct (take_first p l) as [[z r]|] eqn:E; [|done]. intros [= -> <-] Hrest.
    destruct (IH r eq_refl) as (? & ? & ->); [set_solver|]. split_and!; [done|set_solver|done].
Qed.
Lemma take_first_Permutation p l x rest : take_first p l = Some (x, rest) -> p x = true /\ l ≡ₚ x :: rest.
Proof.
  revert rest. induction l as [|y l IH]; intros rest; simpl; [done|]. destruct (p y) eqn:Ey; [by intros [= -> ->]|].
  destruct (take_first p l) as [[z r]|] eqn:E; [|done]. intros [= -> <-].
  destruct (IH r eq_refl) as [? ->]. split; [done|constructor].
Qed.
Lemma take_first_None p l : take_first p l = None -> forall x, x ∈ l -> p x = false.
Proof.
  induction l as [|y l IH]; simpl; [by intros _ ? ?%elem_of_nil|]. destruct (p y) eqn:Ey; [done|].
  destruct (take_first p l) as [[z r]|] eqn:E; [done|]. intros _ x [->|Hx]%elem_of_cons; [done|]. by apply IH.
Qed.

Lemma rekey_registry s tgt t p q k :
  registry_ok (namespace_subscribers s) tgt -> tgt t = Some (p, k) ->
  (forall t' q', fst t' = fst t -> tgt t' = Some (q', k) -> q' <> p -> namespace_prefixes_overlap q q' = false) ->
  let s' := fst (rekey_namespace_subscriber s p q (fst t) k) in
  registry_ok (namespace_subscribers s') (tgt_set tgt t (Some (q, k))) /\ s' = set_subscribers s (namespace_subscribers s').
Proof.
  intros Hok Ht Hov. set (m := namespace_subscribers s) in *. unfold rekey_namespace_subscriber. fold m.
  destruct (rok_subscriber _ _ Hok t p k Ht) as (l & x & Hl & Hx & Etx). rewrite Hl.
  assert (Hsx : is_sub (fst t) k x = true) by (rewrite (registry_is_sub m tgt p k t l x) by done; by apply bool_decide_eq_true).
  destruct (take_first (is_sub (fst t) k) l) as [[y rest]|] eqn:E; cycle 1.
  { exfalso. pose proof (take_first_None _ _ E x Hx). congruence. }
  destruct (take_first_Permutation _ _ _ _ E) as [Hy Hperm]. destruct (rok_entry _ _ Hok p l Hl) as [_ Hnd].
  assert (Hstream : forall z, z ∈ l -> is_sub (fst t) k z = true -> nss_tx z = t).
  { intros z Hz. rewrite (registry_is_sub m tgt p k t l z) by done. apply bool_decide_eq_true. }
  assert (Hyl : y ∈ l) by (rewrite Hperm; set_solver).
  assert (Hrest : forall z, z ∈ rest -> is_sub (fst t) k z = false).
  { intros z Hz. apply not_true_iff_false. intros Hs. rewrite (fmap_Permutation nss_tx _ _ Hperm) in Hnd.
    apply NoDup_cons in Hnd as [Hnin _]. apply Hnin. rewrite (Hstream y Hyl Hy), <- (Hstream z); [|rewrite Hperm; set_solver|done].
    by apply list_elem_of_fmap_2. }
  destruct (take_first_filter _ _ _ _ E Hrest) as (_ & _ & Er).
  set (subs := match rest with [] => delete p m | _ => <[p := rest]> m end).
  assert (Esubs : subs = drop_empty (alter (List.filter (fun x => negb (is_sub (fst t) k x))) p m)).
  { apply map_eq. intros r. apply option_eq. intros l'. rewrite drop_empty_lookup. unfold subs.
    destruct (decide (r = p)) as [->|Hne].
    - rewrite lookup_alter_eq, Hl. simpl. rewrite <- Er. destruct rest; [rewrite lookup_delete_eq|rewrite lookup_insert_eq]; naive_solver.
    - rewrite lookup_alter_ne by done.
      assert ((match rest with [] => delete p m | _ => <[p := rest]> m end) !! r = m !! r) as ->.
      { destruct rest; [by rewrite lookup_delete_ne|by rewrite lookup_insert_ne]. }
      split; [|tauto]. intros H. split; [done|]. by apply (rok_entry _ _ Hok r). }
  simpl. split; [|done]. fold subs. rewrite Esubs. pose proof (registry_remove m tgt t p k Hok Ht) as Hok'.
  destruct (rok_request _ _ Hok p l y Hl Hyl) as [Hcy Hty]. rewrite (Hstream y Hyl Hy) in Hcy, Hty.
  assert (Hky : nss_kind y = k) by congruence. rewrite <- (Hstream y Hyl Hy), <- Hky in *.
  apply registry_ext with (tgt := tgt_set (tgt_set tgt (nss_tx y) None) (nss_tx y) (Some (q, nss_kind y))).
  - apply registry_add; [done|unfold tgt_set; by rewrite decide_True|done|].
    intros t' q'. unfold tgt_set. destruct (decide (t' = nss_tx y)) as [|Hne]; [done|]. intros Hf Ht'.
    apply (Hov t'); [congruence|done|]. intros ->.
    pose proof (rok_apart _ _ Hok _ _ _ _ _ Ht' Hty ltac:(congruence) Hne) as H. by rewrite overlap_refl in H.
  - intros u. unfold tgt_set. by destruct (decide (u = nss_tx y)).
Qed.

(** * Runs

    The handlers run one after the other, a new request under an ID that is not in
    use on its connection. *)
Inductive event : Type :=
| E_SubscribeNamespace (c : Z) (m : SubscribeNamespace)
| E_SubscribeTracks (c : Z) (m : SubscribeTracks)
| E_PrefixUpdate (t : stream) (update : list MessageParameter)
| E_PrefixCancel (t : stream)
| E_PublishNamespace (c : Z) (m : PublishNamespace)
| E_PublishNamespaceUpdate (t : stream) (update : list MessageParameter)
| E_PublishNamespaceCancel (t : stream)
| E_Close (c : Z)
| E_Tracks (names : list FullTrackName).

(** A new request comes under a Request ID its connection has no request under;
    the stream a PUBLISH_NAMESPACE opened ends that request, not a subscription. *)
Definition admissible (s : Namespaces) (ev : event) : Prop :=
  match ev with
  | E_SubscribeNamespace c m => inbound_requests s !! (c, sns_request_id m) = None
  | E_SubscribeTracks c m => inbound_requests s !! (c, st_request_id m) = None
  | E_PublishNamespace c m => inbound_requests s !! (c, pns_request_id m) = None
  | E_PublishNamespaceCancel t => target_subscription s t = None
  | _ => True
  end.

Definition set_published (s : Namespaces) (names : list FullTrackName) : Namespaces :=
  mkNamespaces (namespace_subscribers s) (announcements s) (inbound_requests s) names (log s).

Section Runs.
(** [max_filter_ranges] of the configuration. *)
Variable limit : Z.

Definition handle_event (s : Namespaces) (ev : event) : panics Namespaces :=
  match ev with
  | E_SubscribeNamespace c m => Ok (handle_subscribe_namespace s c m)
  | E_SubscribeTracks c m => handle_subscribe_tracks s c limit m
  | E_PrefixUpdate t update => handle_prefix_update s t limit update
  | E_PrefixCancel t => Ok (prefix_cancel s (fst t) (snd t))
  | E_PublishNamespace c m => Ok (handle_publish_namespace s c m)
  | E_PublishNamespaceUpdate t update => Ok (handle_publish_namespace_update s t update)
  | E_PublishNamespaceCancel t => Ok (publish_namespace_cancel s (fst t) (snd t))
  | E_Close c => Ok (close_connection s c)
  | E_Tracks names => Ok (set_published s names)
  end.

Inductive ns_run : list event -> Namespaces -> Prop :=
| ns_run_nil : ns_run [] Namespaces_new
| ns_run_snoc evs s ev s' :
    ns_run evs s ->
    admissible s ev ->
    handle_event s ev = Ok s' -> ns_run (evs ++ [ev]) s'.
End Runs.

(** The target a stored request stands for. *)
Definition target_of (r : PendingRequest) : option (Tuple * SubscribeKind) :=
  match r with
  | PR_SubscribeNamespace m => Some (sns_track_namespace_prefix m, Kind_Namespace)
  | PR_SubscribeTracks m => Some (st_track_namespace_prefix m, Kind_Tracks)
  | _ => None
  end.
Lemma target_subscription_spec s t : target_subscription s t = inbound_requests s !! t ≫= target_of.
Proof. unfold target_subscription. by destruct (inbound_requests s !! t) as [[]|]. Qed.

Definition mirrored (s : Namespaces) : Prop := registry_ok (namespace_subscribers s) (target_subscription s).

Lemma mirrored_same s s' :
  mirrored s -> namespace_subscribers s' = namespace_subscribers s -> inbound_requests s' = inbound_requests s -> mirrored s'.
Proof.
  intros H E E'. unfold mirrored. rewrite E. apply (registry_ext _ _ _ H). intros t.
  by rewrite !target_subscription_spec, E'.
Qed.

(** Changing one stored request changes one target. *)
Lemma target_insert s t r u : target_subscription (set_inbound s (<[t := r]> (inbound_requests s))) u =
  tgt_set (target_subscription s) t (target_of r) u.
Proof.
  rewrite target_subscription_spec. unfold tgt_set. simpl. destruct (decide (u = t)) as [->|].
  - by rewrite lookup_insert_eq.
  - by rewrite lookup_insert_ne, target_subscription_spec by done.
Qed.
Lemma target_delete s t u : target_subscription (set_inbound s (delete t (inbound_requests s))) u =
  tgt_set (target_subscription s) t None u.
Proof.
  rewrite target_subscription_spec. unfold tgt_set. simpl. destruct (decide (u = t)) as [->|].
  - by rewrite lookup_delete_eq.
  - by rewrite lookup_delete_ne, target_subscription_spec by done.
Qed.
Lemma target_update s t ps new u p k :
  target_subscription s t = Some (p, k) ->
  target_subscription (set_inbound s (alter (update_request ps new) t (inbound_requests s))) u =
  tgt_set (target_subscription s) t (Some (default p new, k)) u.
Proof.
  rewrite !target_subscription_spec. intros Ht. unfold tgt_set. simpl. destruct (decide (u = t)) as [->|].
  - rewrite lookup_alter_eq. destruct (inbound_requests s !! t) as [[]|]; simpl in *; simplify_eq; done.
  - by rewrite lookup_alter_ne, target_subscription_spec by done.
Qed.
Lemma tgt_set_id (tgt : targets) t v u : tgt t = v -> tgt_set tgt t v u = tgt u.
Proof. unfold tgt_set. intros <-. by destruct (decide (u = t)) as [->|]. Qed.

(** A request that is no subscription changes none of them, coming or going. *)
Lemma target_fresh s t r : inbound_requests s !! t = None -> target_of r = None ->
  forall u, target_subscription (set_inbound s (<[t := r]> (inbound_requests s))) u = target_subscription s u.
Proof.
  intros Ht Hr u. rewrite target_insert, Hr. apply tgt_set_id. by rewrite target_subscription_spec, Ht.
Qed.
Lemma target_replaced s t r r' : inbound_requests s !! t = Some r -> target_of r = None -> target_of r' = None ->
  forall u, target_subscription (set_inbound s (<[t := r']> (inbound_requests s))) u = target_subscription s u.
Proof.
  intros Ht Hr Hr' u. rewrite target_insert, Hr'. apply tgt_set_id. by rewrite target_subscription_spec, Ht.
Qed.
Lemma target_gone s t : target_subscription s t = None ->
  forall u, target_subscription (set_inbound s (delete t (inbound_requests s))) u = target_subscription s u.
Proof. intros Ht u. rewrite target_delete. by apply tgt_set_id. Qed.
Lemma mirrored_fresh s t r s' : inbound_requests s !! t = None -> target_of r = None -> mirrored s ->
  namespace_subscribers s' = namespace_subscribers s -> inbound_requests s' = <[t := r]> (inbound_requests s) -> mirrored s'.
Proof.
  intros Ht Hr Hm Es Ei. unfold mirrored. rewrite Es. apply (registry_ext _ _ _ Hm). intros u.
  rewrite <- (target_fresh s t r Ht Hr), !target_subscription_spec. simpl. by rewrite Ei.
Qed.

(** ** Fan-out *)

(** Where the elements send to different places, so does the whole. *)
Lemma NoDup_map_flat_map {A B C} (f : B -> C) (g : A -> list B) l :
  NoDup l -> (forall x, x ∈ l -> NoDup (map f (g x))) ->
  (forall x y a b, x ∈ l -> y ∈ l -> a ∈ g x -> b ∈ g y -> f a = f b -> x = y) ->
  NoDup (map f (flat_map g l)).
Proof.
  induction 1 as [|x l Hx Hnd IH]; intros Hin Hap; simpl; [constructor|]. rewrite map_app. apply NoDup_app. split_and!.
  - apply Hin. set_solver.
  - intros c (a & -> & Ha)%list_elem_of_fmap (b & E & Hb)%list_elem_of_fmap.
    apply list_elem_of_In, List.in_flat_map in Hb as (y & Hy & Hb). apply list_elem_of_In in Hy, Hb.
    apply Hx. rewrite (Hap x y a b); [done|set_solver..|done].
  - apply IH; [set_solver|]. intros y z a b Hy Hz. apply Hap; set_solver.
Qed.
Lemma NoDup_map_inj {A B} (f : A -> B) l x y : NoDup (map f l) -> x ∈ l -> y ∈ l -> f x = f y -> x = y.
Proof.
  intros Hnd [i Hi]%list_elem_of_lookup [j Hj]%list_elem_of_lookup E.
  assert (i = j) as ->; [|congruence]. apply (NoDup_lookup (map f l) i j (f x)); [done|..].
  - by rewrite list_lookup_fmap, Hi.
  - by rewrite list_lookup_fmap, Hj, E.
Qed.

Lemma suffix_Some ns p r : Tuple_suffix ns p = Some r <-> ns = p ++ r.
Proof.
  unfold Tuple_suffix. destruct (starts_with ns p) eqn:E; simpl.
  - apply starts_with_spec in E as [k ->]. rewrite drop_app_length. split; [by intros [= ->]|].
    by intros ->%app_inv_head.
  - split; [done|]. intros ->. assert (starts_with (p ++ r) p = true) by (apply starts_with_spec; by exists r). congruence.
Qed.

Lemma notify_subscriber_spec c w x e :
  e ∈ notify_subscriber c w x <-> nss_kind x = Kind_Namespace /\ nss_connection_id x <> c /\ e = (nss_tx x, w).
Proof.
  unfold notify_subscriber. case_bool_decide as Hk; simpl; [|split; [by intros ?%elem_of_nil|tauto]].
  destruct (Z.eqb_spec (nss_connection_id x) c) as [Hc|Hc]; [split; [by intros ?%elem_of_nil|tauto]|].
  rewrite list_elem_of_singleton. tauto.
Qed.
Lemma notify_prefix_spec ns c f q l e :
  e ∈ notify_prefix ns c f (q, l) <-> exists r x, ns = q ++ r /\ x ∈ l /\ e ∈ notify_subscriber c (f r) x.
Proof.
  unfold notify_prefix. simpl. split.
  - intros He. destruct (negb _); [by apply elem_of_nil in He|].
    destruct (Tuple_suffix ns q) as [r|] eqn:Er; [|by apply elem_of_nil in He]. apply suffix_Some in Er.
    apply list_elem_of_In, List.in_flat_map in He as (x & Hx & He). exists r, x.
    split_and!; [done|by apply list_elem_of_In|by apply list_elem_of_In].
  - intros (r & x & -> & Hx & He).
    assert (starts_with (q ++ r) q = true) as -> by (apply starts_with_spec; by exists r). simpl.
    rewrite (proj2 (suffix_Some (q ++ r) q r) eq_refl). apply list_elem_of_In, List.in_flat_map. exists x.
    by rewrite <- !list_elem_of_In.
Qed.

(** Two subscribers of one connection a namespace concerns are the same. *)
Lemma fan_out_one m tgt ns q l x q' l' y r r' :
  registry_ok m tgt -> m !! q = Some l -> x ∈ l -> m !! q' = Some l' -> y ∈ l' ->
  ns = q ++ r -> ns = q' ++ r' -> nss_connection_id x = nss_connection_id y -> nss_kind x = nss_kind y -> q = q' /\ nss_tx x = nss_tx y.
Proof.
  intros Hok Hq Hx Hq' Hy Er Er' Hc Hk.
  destruct (rok_request _ _ Hok q l x Hq Hx) as [Ex Tx]. destruct (rok_request _ _ Hok q' l' y Hq' Hy) as [Ey Ty].
  destruct (decide (nss_tx x = nss_tx y)) as [E|Hne]; [rewrite E in Tx; split; congruence|]. exfalso.
  rewrite <- Hk in Ty. pose proof (rok_apart _ _ Hok _ _ _ _ _ Tx Ty ltac:(congruence) Hne) as H.
  rewrite (overlap_both q q' ns) in H; [done|..]; apply starts_with_spec; eexists; done.
Qed.

(** What a namespace means for the subscribers of the registry: a message to
    each other connection subscribed to a prefix of it, one per connection. *)
Lemma announce_spec s ns c f :
  mirrored s -> exists out, announce_to_namespace_subscribers s ns c f = write_all s out /\
    NoDup (map (fun e : stream * written => fst (fst e)) out) /\
    (forall t w, (t, w) ∈ out <->
       exists p r, target_subscription s t = Some (p, Kind_Namespace) /\ ns = p ++ r /\ fst t <> c /\ w = f r).
Proof.
  intros Hok. unfold announce_to_namespace_subscribers. eexists. split; [done|]. split.
  - apply NoDup_map_flat_map; [apply NoDup_map_to_list| |].
    + intros [q l] Hq%elem_of_map_to_list. unfold notify_prefix. simpl. destruct (negb _); [constructor|].
      destruct (Tuple_suffix ns q) as [r|] eqn:Er; [|constructor]. apply suffix_Some in Er.
      destruct (rok_entry _ _ Hok q l Hq) as [_ Hnd]. apply NoDup_map_flat_map; [by apply NoDup_fmap_1 in Hnd| |].
      * intros x Hx. unfold notify_subscriber. destruct (_ || _); repeat constructor. by intros ?%elem_of_nil.
      * intros x y a b Hx Hy (Hkx & _ & ->)%notify_subscriber_spec (Hky & _ & ->)%notify_subscriber_spec E. simpl in E.
        apply (NoDup_map_inj nss_tx l); [done..|]. destruct (rok_request _ _ Hok q l x Hq Hx) as [Ex _].
        destruct (rok_request _ _ Hok q l y Hq Hy) as [Ey _]. apply (registry_one _ _ q l x y Hok Hq Hx Hy); congruence.
    + intros [q l] [q' l'] a b Hq%elem_of_map_to_list Hq'%elem_of_map_to_list
        (r & x & Er & Hx & (Hkx & _ & ->)%notify_subscriber_spec)%notify_prefix_spec
        (r' & y & Er' & Hy & (Hky & _ & ->)%notify_subscriber_spec)%notify_prefix_spec E. simpl in E.
      destruct (rok_request _ _ Hok q l x Hq Hx) as [Ex _]. destruct (rok_request _ _ Hok q' l' y Hq' Hy) as [Ey _].
      destruct (fan_out_one _ _ ns q l x q' l' y r r' Hok) as [-> _]; try done; congruence.
  - intros t w. rewrite list_elem_of_In, List.in_flat_map. setoid_rewrite <- list_elem_of_In. split.
    + intros ([q l] & Hq%elem_of_map_to_list & (r & x & Er & Hx & (Hk & Hc & E)%notify_subscriber_spec)%notify_prefix_spec).
      injection E as -> ->. destruct (rok_request _ _ Hok q l x Hq Hx) as [Ec Ht]. rewrite Hk in Ht. exists q, r. by rewrite <- Ec.
    + intros (p & r & Ht & -> & Hc & ->). destruct (rok_subscriber _ _ Hok t p _ Ht) as (l & x & Hl & Hx & <-).
      destruct (rok_request _ _ Hok p l x Hl Hx) as [Ec Ht']. exists (p, l). rewrite elem_of_map_to_list. split; [done|].
      apply notify_prefix_spec. exists r, x. split_and!; [done|done|]. apply notify_subscriber_spec. rewrite Ec. split_and!; [congruence|done|done].
Qed.

(** Several namespaces in turn. *)
Lemma fan_out_fold s c f l :
  mirrored s -> exists out, fold_left (fun s ns => announce_to_namespace_subscribers s ns c f) l s = write_all s out /\
    forall t w, (t, w) ∈ out -> exists ns p r, ns ∈ l /\ target_subscription s t = Some (p, Kind_Namespace) /\ ns = p ++ r /\ w = f r.
Proof.
  revert s. induction l as [|ns l IH]; intros s Hs; simpl.
  - exists []. unfold write_all. rewrite app_nil_r. split; [by destruct s|]. intros t w H. by apply elem_of_nil in H.
  - destruct (announce_spec s ns c f Hs) as (out & -> & _ & Hout).
    destruct (IH (write_all s out)) as (out' & -> & Hout'); [by apply (mirrored_same s)|].
    exists (out ++ out'). split; [unfold write_all; simpl; by rewrite <- app_assoc|].
    intros t w [H|H]%elem_of_app.
    + apply Hout in H as (p & r & Ht & -> & _ & ->). exists (p ++ r), p, r. split; [set_solver|done].
    + destruct (Hout' t w H) as (ns' & p & r & Hns & Ht & E). exists ns', p, r. split; [set_solver|].
      by rewrite target_subscription_spec in *.
Qed.

(** ** Every handler keeps the registry in step with the requests *)

Definition short (s : Namespaces) : Prop :=
  forall t p k, target_subscription s t = Some (p, k) -> (length p <= MAX_NAMESPACE_PREFIX_FIELDS)%nat.
Definition in_step (s : Namespaces) : Prop := mirrored s /\ short s.

Lemma in_step_same s s' :
  in_step s -> namespace_subscribers s' = namespace_subscribers s ->
  (forall t, target_subscription s' t = target_subscription s t) -> in_step s'.
Proof.
  intros [H Hs] E E'. split.
  - unfold mirrored. rewrite E. by apply (registry_ext _ _ _ H).
  - intros t p k. rewrite E'. apply Hs.
Qed.
Lemma in_step_tgt s s' t p k :
  in_step s -> registry_ok (namespace_subscribers s') (tgt_set (target_subscription s) t (Some (p, k))) ->
  (forall u, target_subscription s' u = tgt_set (target_subscription s) t (Some (p, k)) u) ->
  (length p <= MAX_NAMESPACE_PREFIX_FIELDS)%nat -> in_step s'.
Proof.
  intros [_ Hs] Hok E Hp. split; [by apply (registry_ext _ _ _ Hok)|]. intros u q j. rewrite E. unfold tgt_set.
  destruct (decide (u = t)) as [->|]; [by intros [= <- <-]|]. apply Hs.
Qed.

Lemma oversized_None p : oversized_namespace_error p = None <-> (length p <= MAX_NAMESPACE_PREFIX_FIELDS)%nat.
Proof.
  unfold oversized_namespace_error. destruct (Nat.ltb_spec MAX_NAMESPACE_PREFIX_FIELDS (length p)); split; try done; lia.
Qed.

(** A new subscription. *)
Lemma in_step_subscribe s t p k ps r s' :
  in_step s -> inbound_requests s !! t = None -> oversized_namespace_error p = None ->
  find_overlapping_namespace_subscription s (fst t) p k None = None -> target_of r = Some (p, k) ->
  namespace_subscribers s' = namespace_subscribers (add_namespace_subscriber s p (mkNamespaceSubscriber (fst t) k ps t)) ->
  inbound_requests s' = <[t := r]> (inbound_requests s) -> in_step s'.
Proof.
  intros Hs Ht Hlen Hov Hr Es Ei. destruct Hs as [Hm Hsh].
  pose proof (proj1 (find_overlapping_None s (fst t) p k None Hm) Hov) as Hov'.
  assert (Hnone : target_subscription s t = None) by by rewrite target_subscription_spec, Ht.
  apply (in_step_tgt s s' t p k); [done| |intros u|by apply oversized_None].
  - rewrite Es. unfold add_namespace_subscriber. simpl.
    assert (existsb (is_sub (fst t) k) (default [] (namespace_subscribers s !! p)) = false) as ->.
    { apply not_true_iff_false. intros (x & Hx & Hsub)%existsb_exists. apply list_elem_of_In in Hx.
      destruct (namespace_subscribers s !! p) as [l|] eqn:El; [|by apply elem_of_nil in Hx].
      apply is_sub_spec in Hsub as [Hc Hk]. destruct (rok_request _ _ Hm p l x El Hx) as [Hc' Htx].
      rewrite Hk in Htx. pose proof (Hov' (nss_tx x) p ltac:(congruence) Htx ltac:(done)) as H. by rewrite overlap_refl in H. }
    simpl. apply (registry_add _ _ (mkNamespaceSubscriber (fst t) k ps t)); try done. simpl. intros u q Hu Htu.
    by apply (Hov' u).
  - rewrite <- Hr, <- target_insert, !target_subscription_spec. simpl. by rewrite Ei.
Qed.

(** A request that ends. *)
Lemma in_step_cancel s c i : in_step s -> in_step (prefix_cancel s c i).
Proof.
  intros Hs. unfold prefix_cancel. set (t := (c, i)). set (s1 := set_inbound s (delete t (inbound_requests s))).
  assert (Hgone : forall p k m, target_subscription s t = Some (p, k) ->
            m = drop_empty (alter (List.filter (fun x => negb (is_sub c k x))) p (namespace_subscribers s)) ->
            in_step (set_subscribers s1 m)).
  { intros p k m Ht ->. destruct Hs as [Hm Hsh]. split.
    - unfold mirrored. simpl. apply (registry_ext _ (tgt_set (target_subscription s) t None)).
      + by apply (registry_remove _ _ t).
      + intros u. rewrite <- target_delete, !target_subscription_spec. done.
    - intros u q j. rewrite target_subscription_spec. simpl. destruct (decide (u = t)) as [->|Hne].
      + by rewrite lookup_delete_eq.
      + rewrite lookup_delete_ne by done. rewrite <- target_subscription_spec. apply Hsh. }
  assert (Hnone : target_subscription s t = None -> in_step s1).
  { intros Ht. apply (in_step_same s); [done..|]. intros u. unfold s1. rewrite target_delete. by apply tgt_set_id. }
  pose proof (target_subscription_spec s t) as E. destruct (inbound_requests s !! t) as [[]|] eqn:Er; simpl in E; try by apply Hnone.
  - unfold remove_namespace_subscriber_by_prefix. by apply (Hgone _ _ _ E).
  - unfold remove_namespace_subscriber_by_prefix. by apply (Hgone _ _ _ E).
Qed.

Lemma in_step_update s t ps new p k :
  in_step s -> target_subscription s t = Some (p, k) ->
  (forall q, new = Some q -> oversized_namespace_error q = None /\
     find_overlapping_namespace_subscription s (fst t) q k (Some p) = None) ->
  in_step (apply_subscription_update s t p new k ps).
Proof.
  intros Hs Ht Hnew. pose proof Hs as [Hm Hsh]. unfold apply_subscription_update. simpl.
  set (s1 := set_inbound s (alter (update_request ps new) t (inbound_requests s))).
  set (s2 := update_namespace_subscription_parameters s1 p (fst t) ps).
  assert (Hok : registry_ok (namespace_subscribers s2) (target_subscription s)) by by apply registry_update.
  assert (Etgt : forall u, target_subscription s2 u = tgt_set (target_subscription s) t (Some (default p new, k)) u).
  { intros u. rewrite <- (target_update s t ps new u p k Ht), !target_subscription_spec. done. }
  destruct new as [q|]; simpl in *.
  - destruct (Hnew q eq_refl) as [Hlen Hov].
    destruct (rekey_registry s2 (target_subscription s) t p q k Hok Ht) as [Hok' Eset].
    { intros t' q' Hf Ht' Hne. apply (proj1 (find_overlapping_None s (fst t) q k (Some p) Hm) Hov t'); congruence. }
    apply (in_step_tgt s _ t q k); [done|done| |by apply oversized_None].
    intros u. rewrite Eset, <- Etgt, !target_subscription_spec. done.
  - apply (in_step_tgt s _ t p k); [done| |done|by apply (Hsh t p k)].
    apply (registry_ext _ _ _ Hok). intros u. by apply tgt_set_id.
Qed.

Lemma write_to_same s t l : namespace_subscribers (write_to s t l) = namespace_subscribers s /\
  inbound_requests (write_to s t l) = inbound_requests s.
Proof. done. Qed.
Lemma in_step_write s l : in_step s -> in_step (write_all s l).
Proof. intros H. by apply (in_step_same s). Qed.

Lemma in_step_close s c : in_step s -> in_step (close_connection s c).
Proof.
  intros [Hm Hsh]. unfold close_connection. simpl. destruct (fan_out_fold
    (set_announcements s (filter (fun kv => fst (snd kv) <> c) (announcements s))) c W_NamespaceDone
    (map fst (map_to_list (filter (fun kv => fst (snd kv) = c) (announcements s))))) as (out & -> & _); [by apply (mirrored_same s)|].
  assert (E : forall u, target_subscription (set_inbound s (filter (fun kv => fst (fst kv) <> c) (inbound_requests s))) u =
            if negb (fst u =? c) then target_subscription s u else None).
  { intros u. rewrite !target_subscription_spec. simpl. destruct (Z.eqb_spec (fst u) c) as [Hc|Hc]; simpl.
    - rewrite map_lookup_filter_None_2; [done|]. right. intros x _ H. by apply H.
    - f_equal. apply option_eq. intros r. rewrite map_lookup_filter_Some. naive_solver. }
  split.
  - unfold mirrored. simpl. apply (registry_ext _ _ _ (registry_close _ _ c Hm)). intros u. rewrite <- E, !target_subscription_spec. done.
  - intros u p k Hu. apply (Hsh u p k). pose proof (E u) as Eu. rewrite target_subscription_spec in Hu, Eu. simpl in *.
    rewrite Hu in Eu. by destruct (negb (fst u =? c)).
Qed.

Lemma in_step_event limit s ev s' :
  in_step s -> admissible s ev ->
  handle_event limit s ev = Ok s' -> in_step s'.
Proof.
  intros Hs Hfresh. destruct ev as [c m|c m|t up|t|c m|t up|t|c|names]; simpl.
  - intros [= <-]. unfold handle_subscribe_namespace. destruct (oversized_namespace_error _) eqn:Eo; [done|].
    destruct (find_overlapping_namespace_subscription _ _ _ _ _) eqn:Ef; [done|].
    by eapply (in_step_subscribe s (c, sns_request_id m) _ Kind_Namespace (sns_parameters m) (PR_SubscribeNamespace m)); auto.
  - unfold handle_subscribe_tracks. destruct (oversized_namespace_error _) eqn:Eo; [by intros [= <-]|].
    destruct (tracks_filter _ _); [|by intros [= <-]|done..].
    destruct (find_overlapping_namespace_subscription _ _ _ _ _) eqn:Ef; intros [= <-]; [done|].
    by eapply (in_step_subscribe s (c, st_request_id m) _ Kind_Tracks (st_parameters m) (PR_SubscribeTracks m)); auto.
  - unfold handle_prefix_update. destruct (target_subscription s t) as [[p k]|] eqn:Et; [|by intros [= <-]].
    destruct (requested_prefix up) as [q|] eqn:Eq.
    + unfold prefix_move_rejection. destruct (oversized_namespace_error q) eqn:Eo; [by intros [= <-]|].
      destruct (find_overlapping_namespace_subscription _ _ _ _ _) eqn:Ef; [by intros [= <-]|].
      destruct (update_filters_rejection _ _ _ _ _); intros [= <-]; [|done].
      apply in_step_write. apply (in_step_update s t up (Some q) p k); [done..|]. by intros ? [= <-].
    + destruct (update_filters_rejection _ _ _ _ _); intros [= <-]; [|done].
      apply in_step_write. by apply (in_step_update s t up None p k).
  - intros [= <-]. destruct t. by apply in_step_cancel.
  - intros [= <-]. unfold handle_publish_namespace. destruct (_ || _); [done|]. apply in_step_write, in_step_write.
    apply (in_step_same s); [done..|]. by apply (target_fresh s _ (PR_PublishNamespace m)).
  - intros [= <-]. unfold handle_publish_namespace_update. destruct (inbound_requests s !! t) as [[]|] eqn:Er; try done.
    apply in_step_write. apply (in_step_same s); [done..|]. by eapply target_replaced.
  - intros [= <-]. unfold publish_namespace_cancel. rewrite <- surjective_pairing.
    assert (Hdel : in_step (set_inbound s (delete t (inbound_requests s)))).
    { apply (in_step_same s); [done..|]. by apply target_gone. }
    destruct (inbound_requests s !! t) as [[]|]; try done. unfold remove_announcement.
    destruct (announcements _ !! _) as [[who m']|]; [|done]. destruct (who =? fst t); [|done].
    apply in_step_write. by apply (in_step_same _ _ Hdel).
  - intros [= <-]. by apply in_step_close.
  - intros [= <-]. by apply (in_step_same s).
Qed.

Lemma in_step_run limit evs s : ns_run limit evs s -> in_step s.
Proof.
  induction 1 as [|evs s ev s' _ IH Hadm Hev]; [|by apply (in_step_event limit s ev)]. split; [|done].
  assert (He : forall p l, namespace_subscribers Namespaces_new !! p <> Some l).
  { intros p l. change (namespace_subscribers Namespaces_new) with (∅ : gmap Tuple (list NamespaceSubscriber)).
    by rewrite lookup_empty. }
  split; [| |done|done]; intros p l; intros; exfalso; by apply (He p l).
Qed.

(** ** What a subscriber has heard *)

(** Reading one stream: a NAMESPACE adds a suffix, a NAMESPACE_DONE takes it away. *)
Definition hear (t : stream) (known : list Tuple) (e : stream * written) : list Tuple :=
  if bool_decide (fst e = t)
  then match snd e with
       | W_Namespace r => r :: known
       | W_NamespaceDone r => List.filter (fun r' => negb (bool_decide (r' = r))) known
       | _ => known
       end
  else known.
Definition told (t : stream) (l : list (stream * written)) : list Tuple := fold_left (hear t) l [].

Lemma hears t r out acc :
  ~ (t, W_NamespaceDone r) ∈ out -> (r ∈ acc \/ (t, W_Namespace r) ∈ out) -> r ∈ fold_left (hear t) out acc.
Proof.
  revert acc. induction out as [|[u w] out IH]; intros acc Hdone Hin; simpl.
  - destruct Hin as [|Hin]; [done|by apply elem_of_nil in Hin].
  - apply IH; [set_solver|]. rewrite elem_of_cons in Hin. destruct Hin as [Hin|[E|Hin]]; [|simplify_eq; left|by right].
    + left. unfold hear. simpl. case_bool_decide as E; [|done]. subst u. destruct w; try done; [set_solver|].
      apply list_elem_of_In, List.filter_In. rewrite <- list_elem_of_In. split; [done|].
      rewrite bool_decide_false; [done|]. intros ->. apply Hdone. set_solver.
    + unfold hear. simpl. rewrite bool_decide_true by done. set_solver.
Qed.
Lemma told_app t r l out :
  ~ (t, W_NamespaceDone r) ∈ out -> (r ∈ told t l \/ (t, W_Namespace r) ∈ out) -> r ∈ told t (l ++ out).
Proof. unfold told. rewrite fold_left_app. apply hears. Qed.

(** Every announcement by another connection under its prefix is known to the subscriber. *)
Definition informed (s : Namespaces) : Prop :=
  forall t p r a m, target_subscription s t = Some (p, Kind_Namespace) ->
    announcements s !! (p ++ r) = Some (a, m) -> a <> fst t -> r ∈ told t (log s).

Lemma informed_log s s' out :
  informed s -> log s' = log s ++ out -> announcements s' = announcements s ->
  (forall t p, target_subscription s' t = Some (p, Kind_Namespace) -> target_subscription s t = Some (p, Kind_Namespace)) ->
  (forall t r, ~ (t, W_NamespaceDone r) ∈ out) -> informed s'.
Proof.
  intros Hi El Ea Et Hd t p r a m Ht Ha Hne. rewrite El. apply told_app; [done|]. left. rewrite Ea in Ha.
  apply (Hi t p r a m); [by apply Et|done..].
Qed.
Lemma informed_quiet s s' t w :
  informed s -> log s' = log s ++ [(t, w)] -> announcements s' = announcements s ->
  (forall u, target_subscription s' u = target_subscription s u) -> (forall r, w <> W_NamespaceDone r) -> informed s'.
Proof.
  intros Hi El Ea Et Hw. apply (informed_log s s' [(t, w)]); [done..| |].
  - intros u p. by rewrite Et.
  - intros u r H. apply list_elem_of_singleton in H. injection H as _ H. by apply (Hw r).
Qed.

(** The catch-up names every namespace announced under the prefix. *)
Lemma catchup_fold p l seen out : let r := fold_left (catchup_step p) l (seen, out) in
  (forall w, w ∈ snd r -> w ∈ out \/ exists x, w = W_Namespace x) /\
  (forall x, W_Namespace x ∈ out -> W_Namespace x ∈ snd r) /\
  (forall x, (p ++ x) ∈ l -> (p ++ x) ∉ seen -> W_Namespace x ∈ snd r).
Proof.
  revert seen out. induction l as [|ns l IH]; intros seen out; simpl.
  - split_and!; [tauto|done|]. intros x Hx. by apply elem_of_nil in Hx.
  - case_bool_decide as Hs.
    + destruct (IH seen out) as (H1 & H2 & H3). split_and!; [done..|]. intros x [<-|Hx]%elem_of_cons Hn; [done|auto].
    + destruct (Tuple_suffix ns p) as [y|] eqn:Ey.
      * apply suffix_Some in Ey. subst ns. destruct (IH ((p ++ y) :: seen) (out ++ [W_Namespace y])) as (H1 & H2 & H3). split_and!.
        -- intros w Hw. destruct (H1 w Hw) as [[?|E%list_elem_of_singleton]%elem_of_app|]; naive_solver.
        -- intros x Hx. apply H2. set_solver.
        -- intros x Hx Hn. destruct (decide (x = y)) as [->|Hne]; [apply H2; set_solver|].
           assert (p ++ x <> p ++ y) by by intros ?%app_inv_head. apply H3; set_solver.
      * destruct (IH (ns :: seen) out) as (H1 & H2 & H3). split_and!; [done..|].
        intros x Hx Hn. assert (p ++ x <> ns) by (intros <-; by rewrite (proj2 (suffix_Some (p ++ x) p x) eq_refl) in Ey).
        apply H3; set_solver.
Qed.
Lemma catchup_complete s p r a m : announcements s !! (p ++ r) = Some (a, m) -> W_Namespace r ∈ namespace_catchup s p.
Proof.
  intros Ha. unfold namespace_catchup. apply (catchup_fold p _ [] []); [|by intros ?%elem_of_nil].
  apply elem_of_app. left. unfold get_announcements_by_prefix. apply list_elem_of_In, List.filter_In.
  split; [|apply starts_with_spec; by exists r]. apply list_elem_of_In, list_elem_of_fmap.
  exists (p ++ r, (a, m)). split; [done|by apply elem_of_map_to_list].
Qed.
Lemma catchup_no_done s p r : W_NamespaceDone r ∉ namespace_catchup s p.
Proof.
  intros H. destruct (proj1 (catchup_fold p _ [] []) _ H) as [H'|[x [=]]]. by apply elem_of_nil in H'.
Qed.


Lemma informed_subscribe s c m :
  in_step s -> inbound_requests s !! (c, sns_request_id m) = None -> informed s ->
  informed (handle_subscribe_namespace s c m).
Proof.
  intros [Hm _] Hfresh Hi. unfold handle_subscribe_namespace. set (p := sns_track_namespace_prefix m). set (t := (c, sns_request_id m)).
  destruct (oversized_namespace_error _); [by eapply informed_quiet|].
  destruct (find_overlapping_namespace_subscription _ _ _ _ _) eqn:Ef; [by eapply informed_quiet|].
  set (s1 := set_inbound _ _). change (namespace_catchup _ p) with (namespace_catchup s p).
  intros u q r a m' Hu Ha Hne. change (announcements _) with (announcements s) in Ha.
  assert (Hu' : tgt_set (target_subscription s) t (Some (p, Kind_Namespace)) u = Some (q, Kind_Namespace)).
  { rewrite <- Hu. change (Some (p, Kind_Namespace)) with (target_of (PR_SubscribeNamespace m)).
    rewrite <- target_insert, !target_subscription_spec. done. }
  simpl. rewrite <- app_assoc. apply told_app.
  - intros [H|H]%elem_of_app; [by apply list_elem_of_singleton in H|].
    apply list_elem_of_fmap in H as (w & [= -> <-] & H). by apply (catchup_no_done s p r).
  - unfold tgt_set in Hu'. destruct (decide (u = t)) as [->|].
    + injection Hu' as <-. right. apply elem_of_app. right.
      apply (list_elem_of_fmap_2 (fun w => (t, w))). by apply (catchup_complete s p r a m').
    + left. by apply (Hi u q r a m').
Qed.

Lemma informed_publish s c m :
  in_step s -> inbound_requests s !! (c, pns_request_id m) = None -> informed s ->
  informed (handle_publish_namespace s c m).
Proof.
  intros [Hm _] Hfresh Hi. unfold handle_publish_namespace. set (t := (c, pns_request_id m)).
  destruct (_ || _); [by eapply informed_quiet|]. set (ns := pns_track_namespace m).
  set (s1 := set_inbound (add_announcement s ns c m) (<[t := PR_PublishNamespace m]> (inbound_requests s))).
  assert (Et : forall u, target_subscription s1 u = target_subscription s u).
  { by apply (target_fresh s t (PR_PublishNamespace m)). }
  assert (Hm1 : mirrored s1) by by apply (mirrored_fresh s t (PR_PublishNamespace m)).
  destruct (announce_spec s1 ns c W_Namespace Hm1) as (out & E & _ & Hout). change (set_inbound _ _) with s1. rewrite E.
  intros u p r a m' Hu Ha Hne. rewrite target_subscription_spec in Hu. simpl in *. rewrite <- app_assoc. apply told_app.
  - intros [H|H]%elem_of_app; [|by apply list_elem_of_singleton in H]. apply Hout in H as (? & ? & _ & _ & _ & [=]).
  - change (<[t := PR_PublishNamespace m]> (inbound_requests s)) with (inbound_requests s1) in Hu.
    rewrite <- target_subscription_spec in Hu. destruct (decide (p ++ r = ns)) as [Hp|Hp].
    + rewrite Hp, lookup_insert_eq in Ha. injection Ha as <- <-. right. apply elem_of_app. left. apply Hout. by exists p, r.
    + rewrite lookup_insert_ne in Ha by done. left. rewrite Et in Hu. by apply (Hi u p r a m').
Qed.

Lemma informed_withdraw s c i : in_step s -> target_subscription s (c, i) = None -> informed s -> informed (publish_namespace_cancel s c i).
Proof.
  intros [Hm _] Hnone Hi. unfold publish_namespace_cancel. set (t := (c, i)) in *.
  set (s1 := set_inbound s (delete t (inbound_requests s))).
  assert (Et : forall u, target_subscription s1 u = target_subscription s u).
  { by apply target_gone. }
  assert (Hi1 : informed s1) by by intros u p r a m Hu; rewrite Et in Hu; apply (Hi u p r a m).
  destruct (inbound_requests s !! t) as [[]|]; try done. unfold remove_announcement.
  destruct (announcements s1 !! _) as [[who m']|] eqn:Ew; [|done]. destruct (who =? c); [|done].
  set (ns := pns_track_namespace m) in *. set (s2 := set_announcements s1 (delete ns (announcements s1))).
  destruct (announce_spec s2 ns c W_NamespaceDone) as (out & -> & _ & Hout); [by apply (registry_ext _ _ _ Hm)|].
  intros u p r a m'' Hu Ha Hne. simpl in Ha. apply lookup_delete_Some in Ha as [Hns Ha].
  assert (Hu1 : target_subscription s2 u = Some (p, Kind_Namespace)) by by rewrite target_subscription_spec in *.
  simpl. apply told_app.
  - intros H. apply Hout in H as (q & r' & Ht & -> & _ & [= <-]). rewrite Ht in Hu1. by simplify_eq.
  - left. apply (Hi1 u p r a m''); [by rewrite target_subscription_spec in *|done..].
Qed.

Lemma informed_close s c : in_step s -> informed s -> informed (close_connection s c).
Proof.
  intros [Hm _] Hi. unfold close_connection. simpl. set (s1 := set_announcements s _).
  destruct (fan_out_fold s1 c W_NamespaceDone (map fst (map_to_list (filter (fun kv => fst (snd kv) = c) (announcements s)))))
    as (out & -> & Hout); [by apply (mirrored_same s)|].
  intros u p r a m Hu Ha Hne. simpl in Ha. apply map_lookup_filter_Some in Ha as [Ha Hac]. simpl in Hac.
  assert (Hus : target_subscription s u = Some (p, Kind_Namespace)).
  { rewrite target_subscription_spec in *. simpl in Hu.
    destruct (filter _ (inbound_requests s) !! u) as [x|] eqn:E; [|done].
    apply map_lookup_filter_Some in E as [E _]. by rewrite E. }
  simpl. apply told_app; [|left; by apply (Hi u p r a m)].
  intros H. destruct (Hout _ _ H) as (ns & q & r' & Hns & Ht & -> & [= <-]).
  rewrite target_subscription_spec in Ht. simpl in Ht. rewrite <- target_subscription_spec in Ht. rewrite Hus in Ht. injection Ht as <-.
  apply list_elem_of_fmap in Hns as ([ns [a' m']] & E & Hin%elem_of_map_to_list). simpl in E. subst ns.
  apply map_lookup_filter_Some in Hin as [Hin Hc]. simpl in Hc. congruence.
Qed.

(** A REQUEST_UPDATE that asks for a new prefix. *)
Definition moves (ev : event) : bool :=
  match ev with E_PrefixUpdate _ update => bool_decide (is_Some (requested_prefix update)) | _ => false end.

Lemma informed_event limit s ev s' :
  in_step s -> admissible s ev -> moves ev = false -> informed s -> handle_event limit s ev = Ok s' -> informed s'.
Proof.
  intros Hs Hadm Hmv Hi. destruct ev as [c m|c m|t up|t|c m|t up|t|c|names]; simpl in *.
  - intros [= <-]. by apply informed_subscribe.
  - unfold handle_subscribe_tracks. destruct (oversized_namespace_error _); [intros [= <-]; by eapply informed_quiet|].
    destruct (tracks_filter _ _); [|intros [= <-]; by eapply informed_quiet|done..].
    destruct (find_overlapping_namespace_subscription _ _ _ _ _); intros [= <-]; [by eapply informed_quiet|].
    eapply informed_log; [done|reflexivity|done| |].
    + intros u p. rewrite target_subscription_spec. simpl. destruct (decide (u = (c, st_request_id m))) as [->|].
      * by rewrite lookup_insert_eq.
      * rewrite lookup_insert_ne by done. by rewrite target_subscription_spec.
    + intros u r H. by apply list_elem_of_singleton in H.
  - apply bool_decide_eq_false in Hmv. unfold handle_prefix_update.
    destruct (target_subscription s t) as [[p k]|] eqn:Et; [|intros [= <-]; by eapply informed_quiet].
    destruct (requested_prefix up) as [q|]; [by destruct Hmv|].
    destruct (update_filters_rejection _ _ _ _ _); intros [= <-]; [|by eapply informed_quiet].
    eapply informed_quiet; [done|reflexivity|done| |done]. intros u.
    pose proof (target_update s t up None u p k Et) as E. simpl in E.
    rewrite tgt_set_id in E by done. rewrite <- E, !target_subscription_spec. done.
  - intros [= <-]. unfold prefix_cancel. apply (informed_log s _ []).
    + done.
    + rewrite app_nil_r. by destruct (inbound_requests s !! _) as [[]|].
    + by destruct (inbound_requests s !! _) as [[]|].
    + intros u p Hu. assert (tgt_set (target_subscription s) t None u = Some (p, Kind_Namespace)) as H.
      { rewrite <- target_delete, <- Hu. rewrite !target_subscription_spec. destruct t.
        by destruct (inbound_requests s !! (_, _)) as [[]|]. }
      unfold tgt_set in H. by destruct (decide (u = t)).
    + intros u r H. by apply elem_of_nil in H.
  - intros [= <-]. by apply informed_publish.
  - intros [= <-]. unfold handle_publish_namespace_update.
    destruct (inbound_requests s !! t) as [[| |m| | | |]|] eqn:Er; try by eapply informed_quiet.
    intros u p r a m' Hu Ha Hne. simpl in Ha. rewrite lookup_alter_Some in Ha. simpl. apply told_app.
    + intros H. by apply list_elem_of_singleton in H.
    + left. assert (target_subscription s u = Some (p, Kind_Namespace)) as Hu'.
      { rewrite <- Hu. symmetry. by eapply (target_replaced s t). }
      destruct Ha as [(_ & [a' m''] & Ha & [= -> _])|[_ Ha]]; by eapply Hi.
  - intros [= <-]. destruct t. by apply informed_withdraw.
  - intros [= <-]. by apply informed_close.
  - intros [= <-]. intros u p r a m Hu Ha Hne. by apply (Hi u p r a m).
Qed.

(** ** Pushing the tracks that are there *)

(** Published, and not already with the subscriber. *)
Definition unserved (served : FullTrackName -> bool) (e : FullTrackName * option Publish) : bool :=
  negb (served (fst e)) && bool_decide (is_Some (snd e)).
Definition candidates (served push : FullTrackName -> bool) (matched : list (FullTrackName * option Publish))
    : list FullTrackName :=
  List.filter push (map fst (List.filter (unserved served) matched)).

Lemma candidates_cons served push name pub rest : candidates served push ((name, pub) :: rest) =
  if served name then candidates served push rest
  else match pub with
       | Some _ => if push name then name :: candidates served push rest else candidates served push rest
       | None => candidates served push rest
       end.
Proof.
  unfold candidates. cbn [List.filter]. replace (unserved served (name, pub)) with
    (negb (served name) && match pub with Some _ => true | None => false end); [by destruct (served name), pub|].
  unfold unserved. simpl. f_equal. symmetry. destruct pub; [by apply bool_decide_true|apply bool_decide_false; by intros [? [=]]].
Qed.

Lemma push_existing_spec max n served push matched :
  0 <= n -> (0 < max -> n <= max) ->
  let r := push_existing max n served push matched in
  let cands := candidates served push matched in
  fst r = (if 0 <? max then take (Z.to_nat (max - n)) cands else cands) /\
  match snd r with
  | None => fst r = cands
  | Some name => 0 < max /\ n + Z.of_nat (length (fst r)) = max /\
      exists publish, (name, Some publish) ∈ matched /\ served name = false
  end.
Proof.
  revert n. induction matched as [|[name pub] rest IH]; intros n Hn Hmax.
  - simpl. unfold candidates. simpl. split; [|done]. destruct (0 <? max); [by rewrite take_nil|done].
  - assert (Hlift : forall nm m, 0 < max /\ m = max /\ (exists publish, (nm, Some publish) ∈ rest /\ served nm = false) ->
              0 < max /\ m = max /\ exists publish, (nm, Some publish) ∈ (name, pub) :: rest /\ served nm = false).
    { intros nm m (? & ? & p & ? & ?). split_and!; [done..|]. exists p. split; [set_solver|done]. }
    cbv zeta. rewrite candidates_cons. cbn [push_existing]. pose proof (IH n Hn Hmax) as [H1 H2].
    destruct (served name) eqn:Es; [|destruct pub as [p|]].
    + split; [done|]. destruct (snd _); [by apply Hlift|done].
    + destruct ((0 <? max) && (max <=? n)) eqn:Efull.
      { apply andb_true_iff in Efull as [Hpos Hfull]. rewrite Hpos in *. apply Z.ltb_lt in Hpos. apply Z.leb_le in Hfull.
        replace (Z.to_nat (max - n)) with 0%nat by lia. cbn [fst snd take length]. split; [done|].
        split_and!; [lia|lia|]. exists p. split; [set_solver|done]. }
      assert (Hroom : 0 < max -> n < max).
      { intros Hpos. rewrite (proj2 (Z.ltb_lt 0 max) Hpos) in Efull. by apply Z.leb_gt in Efull. }
      destruct (push name); [|split; [done|]; destruct (snd _); [by apply Hlift|done]].
      clear H1 H2. destruct (IH (n + 1)) as [H1 H2]; [lia..|]. cbn [fst snd]. split.
      * rewrite H1. destruct (Z.ltb_spec 0 max); [|done].
        replace (Z.to_nat (max - n)) with (S (Z.to_nat (max - (n + 1)))) by lia. done.
      * destruct (snd _); [|by rewrite H2]. apply Hlift in H2 as (? & ? & H). cbn [length]. split_and!; [lia|lia|done].
    + split; [done|]. destruct (snd _); [by apply Hlift|done].
Qed.

Lemma informed_run limit evs s : ns_run limit evs s -> forallb (fun ev => negb (moves ev)) evs = true -> informed s.
Proof.
  induction 1 as [|evs s ev s' Hrun IH Hadm Hev]; [by intros _ t p r a m|].
  rewrite forallb_app, andb_true_iff. simpl. rewrite andb_true_r, negb_true_iff. intros [Hevs Hmv].
  apply (informed_event limit s ev); [by apply (in_step_run limit evs)|done..|by apply IH|done].
Qed.

(** ** Two connections, for the examples *)

Definition room : Tuple := [[109]; [49]].
Definition meet : Tuple := [[109]].
Definition subscribe_meet : event := E_SubscribeNamespace 1 (mkSubscribeNamespace 0 meet []).
Definition announce_room (c : Z) : event := E_PublishNamespace c (mkPublishNamespace 0 room []).

Fixpoint play (limit : Z) (s : Namespaces) (evs : list event) : panics Namespaces :=
  match evs with
  | [] => Ok s
  | ev :: rest => let? s := handle_event limit s ev in play limit s rest
  end.

(** A second publisher takes the announcement over; when it withdraws, the
    subscriber is told the namespace is gone, which the first still announces. *)
Example replaced_announcement_lost :
  option_map (fun s => (told (1, 0) (log s), map_to_list (announcements s), bool_decide (is_Some (inbound_requests s !! (2, 0)))))
    (match play 8 Namespaces_new [subscribe_meet; announce_room 2; announce_room 3; E_PublishNamespaceCancel (3, 0)] with
     | Ok s => Some s | _ => None end) =
  Some ([], [], true).
Proof. vm_compute. reflexivity. Qed.

(** A subscription that moves is not told of the namespaces announced under its new prefix. *)
Example moved_subscription_not_told :
  option_map (fun s => (target_subscription s (1, 0), told (1, 0) (log s), map fst (map_to_list (announcements s))))
    (match play 8 Namespaces_new [E_SubscribeNamespace 1 (mkSubscribeNamespace 0 [[120]] []); announce_room 2;
                                  E_PrefixUpdate (1, 0) [MP_TrackNamespacePrefix meet]] with
     | Ok s => Some s | _ => None end) =
  Some (Some (meet, Kind_Namespace), [], [room]).
Proof. vm_compute. reflexivity. Qed.

(** An update of a SUBSCRIBE_TRACKS changes the parameters of the SUBSCRIBE_NAMESPACE
    the connection holds at the same prefix, and leaves its own as they were. *)
Example update_of_wrong_kind :
  option_map (fun s => map (fun x => (nss_kind x, nss_parameters x)) (default [] (namespace_subscribers s !! meet)))
    (match play 8 Namespaces_new [subscribe_meet; E_SubscribeTracks 1 (mkSubscribeTracks 2 meet [MP_Forward true]);
                                  E_PrefixUpdate (1, 2) [MP_Forward false]] with
     | Ok s => Some s | _ => None end) =
  Some [(Kind_Namespace, [MP_Forward false]); (Kind_Tracks, [MP_Forward true])].
Proof. vm_compute. reflexivity. Qed.

(** * Properties *)

(** C29: the registry shared by all connections says, at all times, what the
    requests of the connections say: a connection's open SUBSCRIBE_NAMESPACE or
    SUBSCRIBE_TRACKS is one entry under its prefix with its stream, and there is
    nothing else; a list holds a connection at most once per kind, no list is
    empty, and the prefixes a connection holds of one kind are of at most 32
    fields and do not overlap. *)
Theorem registry_mirrors_requests limit evs s :
  ns_run limit evs s ->
  (forall t p k, target_subscription s t = Some (p, k) <->
     exists l x, namespace_subscribers s !! p = Some l /\ x ∈ l /\
       nss_tx x = t /\ nss_connection_id x = fst t /\ nss_kind x = k) /\
  (forall p l, namespace_subscribers s !! p = Some l ->
     l <> [] /\ NoDup (map (fun x => (nss_connection_id x, nss_kind x)) l)) /\
  (forall t t' p p' k, target_subscription s t = Some (p, k) -> target_subscription s t' = Some (p', k) ->
     (length p <= 32)%nat /\ (fst t = fst t' -> t <> t' -> namespace_prefixes_overlap p p' = false)).
Proof.
  intros [Hm Hsh]%in_step_run. split_and!.
  - intros t p k. split.
    + intros Ht. destruct (rok_subscriber _ _ Hm t p k Ht) as (l & x & Hl & Hx & <-).
      destruct (rok_request _ _ Hm p l x Hl Hx) as [Hc Htx]. exists l, x. split_and!; congruence.
    + intros (l & x & Hl & Hx & <- & _ & <-). by apply (rok_request _ _ Hm p l x).
  - intros p l Hl. destruct (rok_entry _ _ Hm p l Hl) as [Hne Hnd]. split; [done|].
    apply NoDup_fmap_2_strong; [|by apply NoDup_fmap_1 in Hnd]. intros x y Hx Hy [= Hc Hk].
    apply (NoDup_map_inj nss_tx l); [done..|]. by apply (registry_one _ _ p l x y Hm).
  - intros t t' p p' k Ht Ht'. split; [by apply (Hsh t p k)|]. intros Hf Hne. by apply (rok_apart _ _ Hm t t' p p' k).
Qed.

Lemma registry_mirrors_requests_witness :
  exists s, target_subscription s (1, 0) = Some (meet, Kind_Namespace) /\
    exists l x, namespace_subscribers s !! meet = Some l /\ x ∈ l /\ nss_tx x = (1, 0).
Proof.
  exists (handle_subscribe_namespace Namespaces_new 1 (mkSubscribeNamespace 0 meet [])). assert (H : ns_run 8 ([] ++ [subscribe_meet]) (handle_subscribe_namespace Namespaces_new 1 (mkSubscribeNamespace 0 meet []))).
  { by eapply ns_run_snoc; [constructor| |]. }
  split; [vm_compute; reflexivity|].
  destruct (proj1 (proj1 (registry_mirrors_requests _ _ _ H) (1, 0) meet Kind_Namespace)) as (l & x & Hl & Hx & Ht & _).
  { vm_compute. reflexivity. }
  by exists l, x.
Defined.

(** What each connection other than [c] subscribed to a prefix of [ns] is written. *)
Definition reaches (s : Namespaces) (c : Z) (ns : Tuple) (f : Tuple -> written) (out : list (stream * written)) : Prop :=
  NoDup (map (fun e : stream * written => fst (fst e)) out) /\
  (forall t w, (t, w) ∈ out <->
     exists p r, target_subscription s t = Some (p, Kind_Namespace) /\ ns = p ++ r /\ fst t <> c /\ w = f r).

(** An announcement reaches whom it concerns.  A PUBLISH_NAMESPACE outside the
    reserved namespaces is stored and answered REQUEST_OK, and one NAMESPACE goes
    to every other connection subscribed to a prefix of the namespace, on its own
    stream, with the part of the namespace after its prefix; nobody else is
    written to, and no connection twice.  The end of such a request takes the
    announcement back and writes a NAMESPACE_DONE to the same connections if the
    announcement still is the connection's; one that another publisher replaced,
    or that is gone, is left alone and nothing is written. *)
Theorem announcements_fan_out limit evs s c i m :
  ns_run limit evs s ->
  let ns := pns_track_namespace m in
  (inbound_requests s !! (c, pns_request_id m) = None -> is_reserved_dot ns = false -> is_session_namespace ns = false ->
   let s' := handle_publish_namespace s c m in
   announcements s' = <[ns := (c, m)]> (announcements s) /\
   exists out, reaches s c ns W_Namespace out /\ log s' = log s ++ out ++ [((c, pns_request_id m), W_RequestOk)]) /\
  (inbound_requests s !! (c, i) = Some (PR_PublishNamespace m) ->
   let s' := publish_namespace_cancel s c i in
   inbound_requests s' !! (c, i) = None /\
   ((exists m', announcements s !! ns = Some (c, m')) ->
    announcements s' = delete ns (announcements s) /\
    exists out, reaches s c ns W_NamespaceDone out /\ log s' = log s ++ out) /\
   ((forall m', announcements s !! ns <> Some (c, m')) -> announcements s' = announcements s /\ log s' = log s)).
Proof.
  intros [Hm _]%in_step_run ns. split.
  - intros Hfresh Hr Hsess. unfold handle_publish_namespace. fold ns. rewrite Hr, Hsess. cbn [orb].
    set (s1 := set_inbound _ _). assert (E1 : forall u, target_subscription s1 u = target_subscription s u)
      by by apply (target_fresh s (c, pns_request_id m) (PR_PublishNamespace m)).
    destruct (announce_spec s1 ns c W_Namespace) as (out & E & Hnd & Hout).
    { apply (mirrored_fresh s (c, pns_request_id m) (PR_PublishNamespace m)); done. }
    rewrite E. split; [done|]. exists out. split; [|simpl; by rewrite <- app_assoc]. split; [done|].
    intros t w. rewrite Hout. by setoid_rewrite E1.
  - intros Hreq. assert (Et : target_subscription s (c, i) = None) by by rewrite target_subscription_spec, Hreq.
    unfold publish_namespace_cancel. rewrite Hreq. set (s1 := set_inbound s _).
    assert (E1 : forall u, target_subscription s1 u = target_subscription s u) by by apply target_gone.
    unfold remove_announcement. fold ns. change (announcements s1) with (announcements s).
    split; [|split].
    + destruct (announcements s !! ns) as [[who m']|]; [destruct (who =? c)|]; apply lookup_delete_eq.
    + intros [m' ->]. rewrite Z.eqb_refl. set (s2 := set_announcements s1 _).
      destruct (announce_spec s2 ns c W_NamespaceDone) as (out & E & Hnd & Hout).
      { apply (registry_ext _ _ _ Hm), E1. }
      rewrite E. split; [done|]. exists out. split; [|done]. split; [done|]. intros t w. rewrite Hout.
      by setoid_rewrite (E1 : forall u, target_subscription s2 u = target_subscription s u).
    + intros Hnot. destruct (announcements s !! ns) as [[who m']|]; [|done].
      destruct (Z.eqb_spec who c) as [->|]; [by destruct (Hnot m')|done].
Qed.

Lemma announcements_fan_out_witness :
  exists s out, inbound_requests s !! (2, 0) = None /\ reaches s 2 room W_Namespace out /\ ((1, 0), W_Namespace [[49]]) ∈ out.
Proof.
  set (s := handle_subscribe_namespace Namespaces_new 1 (mkSubscribeNamespace 0 meet [])).
  assert (H : ns_run 8 ([] ++ [subscribe_meet]) s) by by eapply ns_run_snoc; [constructor| |].
  destruct (proj1 (announcements_fan_out _ _ _ 2 0 (mkPublishNamespace 0 room []) H)) as (_ & out & Hout & _);
    [vm_compute; reflexivity..|].
  exists s, out. split; [vm_compute; reflexivity|]. split; [done|]. apply Hout. exists meet, [[49]].
  split; [vm_compute; reflexivity|done].
Defined.

(** C30: subscribers are kept informed.  Reading a SUBSCRIBE_NAMESPACE's stream,
    adding the suffix of every NAMESPACE and taking away that of every
    NAMESPACE_DONE, a subscriber knows at all times of every namespace under its
    prefix whose announcer on the relay's record is another connection, whether it was
    announced before the subscription or after, in every interleaving of the handlers in
    which no subscription moves to another prefix (one that moves is not told of
    what its new prefix holds).  The record has one announcer for a namespace, the last
    that announced it; one that it replaced may still announce the namespace when the
    record, and with it the subscriber, has lost it ([replaced_announcement_lost]). *)
Theorem subscribers_informed limit evs s t p r a m :
  ns_run limit evs s -> forallb (fun ev => negb (moves ev)) evs = true ->
  target_subscription s t = Some (p, Kind_Namespace) -> announcements s !! (p ++ r) = Some (a, m) -> a <> fst t ->
  r ∈ told t (log s).
Proof. intros Hrun Hmv. by apply (informed_run limit evs s Hrun Hmv). Qed.

Lemma subscribers_informed_witness :
  exists s, ns_run 8 ([subscribe_meet] ++ [announce_room 2]) s /\ [[49]] ∈ told (1, 0) (log s).
Proof.
  set (s1 := handle_subscribe_namespace Namespaces_new 1 (mkSubscribeNamespace 0 meet [])).
  set (s2 := handle_publish_namespace s1 2 (mkPublishNamespace 0 room [])).
  assert (H : ns_run 8 ([subscribe_meet] ++ [announce_room 2]) s2).
  { eapply ns_run_snoc; [apply (ns_run_snoc 8 [] Namespaces_new subscribe_meet s1); [constructor|done..]| |done].
    vm_compute. reflexivity. }
  exists s2. split; [done|].
  apply (subscribers_informed 8 _ s2 (1, 0) meet [[49]] 2 (mkPublishNamespace 0 room []) H);
    [reflexivity|vm_compute; reflexivity..|done].
Defined.

(** A SUBSCRIBE_TRACKS that finds tracks already published pushes those the
    subscriber neither publishes nor is subscribed to, in order, leaving out the
    ones its filters exclude, and with a limit on the streams no more than the
    limit; it stops with a PUBLISH_SKIPPED only when the limit is used up, for a
    track it has not been given, and without one it has pushed them all. *)
Theorem existing_tracks_bounded max served push matched pushed skipped :
  push_existing max 0 served push matched = (pushed, skipped) ->
  pushed = (if 0 <? max then take (Z.to_nat max) (candidates served push matched) else candidates served push matched) /\
  (0 < max -> Z.of_nat (length pushed) <= max) /\
  match skipped with
  | None => pushed = candidates served push matched
  | Some name => Z.of_nat (length pushed) = max /\ 0 < max /\
      exists publish, (name, Some publish) ∈ matched /\ served name = false
  end.
Proof.
  intros E. destruct (push_existing_spec max 0 served push matched) as [H1 H2]; [lia..|]. rewrite E, ?Z.sub_0_r in *. cbn [fst snd] in *.
  split_and!; [done| |].
  - intros Hpos. rewrite H1. rewrite (proj2 (Z.ltb_lt 0 max)), length_take by done. lia.
  - destruct skipped; [|done]. destruct H2 as (? & ? & H). split_and!; [lia|lia|done].
Qed.

Lemma existing_tracks_bounded_witness :
  exists served push matched skipped,
    snd (push_existing 1 0 served push matched) = Some skipped /\ length (fst (push_existing 1 0 served push matched)) = 1%nat.
Proof.
  set (pub := mkPublish 0 meet [] 0 [] []). set (nm := fun b => mkFullTrackName meet [b]).
  exists (fun _ => false), (fun _ => true), [(nm 1, Some pub); (nm 2, Some pub)], (nm 2). split; [reflexivity|].
  destruct (existing_tracks_bounded 1 (fun _ => false) (fun _ => true) [(nm 1, Some pub); (nm 2, Some pub)] [nm 1] (Some (nm 2)) eq_refl)
    as (-> & _). reflexivity.
Defined.
