(* ===== verification/Streams.v ===== *)
(** Streams of the relay: their identifiers and priorities
    ([apps/relay/src/server/stream_id.rs], [utils.rs]). *)
From stdpp Require Import gmap.
From S2P Require Import Prelude Common Codes Control Subgroup FetchObject DataStream.

(** * Identifiers *)

Inductive StreamType : Type := ST_Fetch | ST_Subgroup.
#[export] Instance StreamType_eq_dec : EqDecision StreamType.
Proof. solve_decision. Defined.

Record StreamId := mkStreamId {
  sid_stream_type : StreamType;
  sid_relay_track_id : Z;
  sid_group_id : option Z;
  sid_subgroup_id : option Z;
  sid_fetch_request_id : option Z
}.
#[export] Instance StreamId_eq_dec : EqDecision StreamId.
Proof. solve_decision. Defined.
#[export] Instance StreamType_countable : Countable StreamType.
Proof.
  refine (inj_countable' (fun t => match t with ST_Fetch => true | ST_Subgroup => false end)
            (fun b => if b : bool then ST_Fetch else ST_Subgroup) _). by intros [].
Defined.
#[export] Instance StreamId_countable : Countable StreamId.
Proof.
  refine (inj_countable' (fun s => (sid_stream_type s, sid_relay_track_id s, sid_group_id s, sid_subgroup_id s, sid_fetch_request_id s))
            (fun t => let '(a, b, c, d, e) := t in mkStreamId a b c d e) _). by intros [].
Defined.

Definition new_fetch (relay_track_id fetch_request_id : Z) : StreamId :=
  mkStreamId ST_Fetch relay_track_id None None (Some fetch_request_id).
Definition new_subgroup (relay_track_id group_id : Z) (subgroup_id : option Z) : StreamId :=
  mkStreamId ST_Subgroup relay_track_id (Some group_id) subgroup_id None.

Definition build_stream_id (relay_track_id : Z) (header : HeaderInfo) : StreamId :=
  match header with
  | HI_Fetch header _ => new_fetch relay_track_id (fh_request_id header)
  | HI_Subgroup header => new_subgroup relay_track_id (sh_group_id header) (sh_subgroup_id header)
  end.

Record SendStreamKey := mkSendStreamKey { ssk_request_id : Z; ssk_stream_id : StreamId }.
#[export] Instance SendStreamKey_eq_dec : EqDecision SendStreamKey.
Proof. solve_decision. Defined.
#[export] Instance SendStreamKey_countable : Countable SendStreamKey.
Proof.
  refine (inj_countable' (fun k => (ssk_request_id k, ssk_stream_id k)) (fun t => mkSendStreamKey (fst t) (snd t)) _).
  by intros [].
Defined.

(** * Priorities *)

Definition BAND_SIZE : Z := 65536.
Definition I32_MIN : Z := - 2 ^ 31.
(** [as i32]. *)
Definition as_i32 (v : Z) : Z := (v + 2 ^ 31) mod 2 ^ 32 - 2 ^ 31.

(** The arithmetic is on [i64], where these values are far from its ends. *)
Definition compute_stream_priority (sub_prio pub_prio : Z) (group_order : GroupOrder) (group_id : Z) : Z :=
  let priority_index := (255 - sub_prio) * 256 + (255 - pub_prio) in
  let band_min := I32_MIN + priority_index * BAND_SIZE in
  let group_slot := group_id mod BAND_SIZE in
  match group_order with
  | GO_Ascending | GO_Original => as_i32 (band_min + BAND_SIZE - 1 - group_slot)
  | GO_Descending => as_i32 (band_min + group_slot)
  end.

(** * Reserved names *)

Inductive Rejection : Type := RJ_ReservedDot | RJ_EmptySession | RJ_Session.
Definition reserved_namespace_rejection (namespace : Tuple) (track_name : TupleField) : option Rejection :=
  if is_reserved_dot namespace then Some RJ_ReservedDot
  else if is_session_namespace namespace then
    if bool_decide (track_name = []) then Some RJ_EmptySession else Some RJ_Session
  else None.

(** * Lemmas *)

Lemma as_i32_id v : - 2 ^ 31 <= v < 2 ^ 31 -> as_i32 v = v.
Proof. intros H. unfold as_i32. rewrite Z.mod_small by lia. lia. Qed.

Lemma priority_value s p o g : is_u8 s -> is_u8 p -> is_u64 g ->
  exists slot, 0 <= slot < BAND_SIZE /\
    compute_stream_priority s p o g = I32_MIN + ((255 - s) * 256 + (255 - p)) * BAND_SIZE + slot /\
    slot = match o with GO_Descending => g mod BAND_SIZE | _ => BAND_SIZE - 1 - g mod BAND_SIZE end.
Proof.
  unfold is_u8. intros Hs Hp Hg. assert (0 <= g mod BAND_SIZE < BAND_SIZE) by (apply Z.mod_pos_bound; done).
  unfold compute_stream_priority, I32_MIN. unfold BAND_SIZE in *.
  exists (match o with GO_Descending => g mod 65536 | _ => 65536 - 1 - g mod 65536 end).
  destruct o; (split_and!; [lia|lia| |reflexivity]); rewrite as_i32_id; lia.
Qed.

(** C38: the priority of a subgroup stream fits an i32, so the cast loses nothing,
    and orders streams as the protocol asks: the subscriber's priority comes
    first, then the publisher's (a lower number is more urgent, so a higher
    priority), and then, between groups less than 65,536 apart in the same block
    of 65,536, the group order of the subscription; streams of one group are
    equal. *)
Theorem stream_priority_ordered s p o g s' p' g' :
  is_u8 s -> is_u8 p -> is_u64 g -> is_u8 s' -> is_u8 p' -> is_u64 g' ->
  let v := compute_stream_priority s p o g in
  let v' := compute_stream_priority s' p' o g' in
  - 2 ^ 31 <= v < 2 ^ 31 /\
  (s < s' \/ s = s' /\ p < p' -> v' < v) /\
  (s = s' -> p = p' -> g / BAND_SIZE = g' / BAND_SIZE ->
     match o with GO_Descending => v' < v <-> g' < g | _ => v' < v <-> g < g' end) /\
  (s = s' -> p = p' -> v = v' <-> g mod BAND_SIZE = g' mod BAND_SIZE).
Proof.
  intros Hs Hp Hg Hs' Hp' Hg'. simpl.
  destruct (priority_value s p o g Hs Hp Hg) as (a & Ha & -> & Ea).
  destruct (priority_value s' p' o g' Hs' Hp' Hg') as (b & Hb & -> & Eb).
  pose proof (Z.div_mod g BAND_SIZE ltac:(done)). pose proof (Z.div_mod g' BAND_SIZE ltac:(done)).
  unfold is_u8, I32_MIN, BAND_SIZE in *. split_and!; [lia|lia|nia| |].
  - intros -> -> Hd. rewrite Hd in *. destruct o; lia.
  - intros -> ->. destruct o; lia.
Qed.

Lemma stream_priority_ordered_witness :
  let v := compute_stream_priority 0 0 GO_Ascending 0 in
  v = 2147483647 /\ compute_stream_priority 1 0 GO_Ascending 0 < v.
Proof.
  split; [reflexivity|].
  destruct (stream_priority_ordered 0 0 GO_Ascending 0 1 0 0) as (_ & H & _); [unfold is_u8, is_u64; simpl; lia..|].
  apply H. lia.
Defined.

(** Where the groups cross a multiple of 65,536 the order is the other way round. *)
Example priority_order_wraps :
  compute_stream_priority 128 128 GO_Ascending 65535 < compute_stream_priority 128 128 GO_Ascending 65536.
Proof. vm_compute. reflexivity. Qed.
