(* ===== verification/Subscription.v ===== *)
(** The state of a subscription ([apps/relay/src/server/subscription.rs],
    [client/switch_context.rs]).

    What a subscriber asked for, where its subscription starts and ends, and
    what a switch has scheduled.  The streams and events are in [Forwarding]. *)
From stdpp Require Import gmap.
From S2P Require Import Prelude Varint Common Codes LocationFilter Properties MessageParameter CombinedFilter.
From S2P Require Import Control Subgroup DataStream Streams.

(** * Switches ([client/switch_context.rs]) *)

(** A [SwitchActivation] is a flag two subscriptions share: its number. *)
Record SwitchPlan := mkSwitchPlan {
  suspending_request_id : Z;
  plan_mode : SwitchMode;
  publish_done : bool;
  boundary : option Z;
  activated : nat
}.

(** * The state *)

Inductive SubscriptionOrigin : Type := SO_Subscribe (m : Subscribe) | SO_Publish (m : Publish).
Definition origin_request_id (o : SubscriptionOrigin) : Z :=
  match o with SO_Subscribe s => sub_request_id s | SO_Publish p => pub_request_id p end.

Record SubscriptionState := mkSubscriptionState {
  subscriber_priority : Z;
  group_order : GroupOrder;
  forward : bool;
  location_filter : LocationFilter;
  start : option Location;
  end_group : option Z;
  end_object : option Z;
  soft_suspended : bool;
  publish_done_at_end : bool;
  switch_activated : option nat;
  subscribe_parameters : list MessageParameter;
  range_filter : CombinedFilter;
  last_sent_max_location : option Location;
  prior_sent_group : option Z;
  last_received_object_location : option Location;
  prior_received_group : option Z
}.

(** Assignments to some of the fields. *)
Definition set_priority (s : SubscriptionState) (p : Z) : SubscriptionState :=
  mkSubscriptionState p (group_order s) (forward s) (location_filter s) (start s) (end_group s) (end_object s)
    (soft_suspended s) (publish_done_at_end s) (switch_activated s) (subscribe_parameters s) (range_filter s)
    (last_sent_max_location s) (prior_sent_group s) (last_received_object_location s) (prior_received_group s).
Definition set_forward (s : SubscriptionState) (f : bool) : SubscriptionState :=
  mkSubscriptionState (subscriber_priority s) (group_order s) f (location_filter s) (start s) (end_group s) (end_object s)
    (soft_suspended s) (publish_done_at_end s) (switch_activated s) (subscribe_parameters s) (range_filter s)
    (last_sent_max_location s) (prior_sent_group s) (last_received_object_location s) (prior_received_group s).
Definition set_range (s : SubscriptionState) (filter : LocationFilter) (st : option Location) (eg eo : option Z)
    : SubscriptionState :=
  mkSubscriptionState (subscriber_priority s) (group_order s) (forward s) filter st eg eo
    (soft_suspended s) (publish_done_at_end s) (switch_activated s) (subscribe_parameters s) (range_filter s)
    (last_sent_max_location s) (prior_sent_group s) (last_received_object_location s) (prior_received_group s).
Definition set_drain (s : SubscriptionState) (soft done : bool) (a : option nat) : SubscriptionState :=
  mkSubscriptionState (subscriber_priority s) (group_order s) (forward s) (location_filter s) (start s) (end_group s) (end_object s)
    soft done a (subscribe_parameters s) (range_filter s)
    (last_sent_max_location s) (prior_sent_group s) (last_received_object_location s) (prior_received_group s).
Definition set_parameters (s : SubscriptionState) (ps : list MessageParameter) (f : CombinedFilter) : SubscriptionState :=
  mkSubscriptionState (subscriber_priority s) (group_order s) (forward s) (location_filter s) (start s) (end_group s) (end_object s)
    (soft_suspended s) (publish_done_at_end s) (switch_activated s) ps f
    (last_sent_max_location s) (prior_sent_group s) (last_received_object_location s) (prior_received_group s).
Definition set_sent (s : SubscriptionState) (l : option Location) (g : option Z) : SubscriptionState :=
  mkSubscriptionState (subscriber_priority s) (group_order s) (forward s) (location_filter s) (start s) (end_group s) (end_object s)
    (soft_suspended s) (publish_done_at_end s) (switch_activated s) (subscribe_parameters s) (range_filter s)
    l g (last_received_object_location s) (prior_received_group s).
Definition set_received (s : SubscriptionState) (l : option Location) (g : option Z) : SubscriptionState :=
  mkSubscriptionState (subscriber_priority s) (group_order s) (forward s) (location_filter s) (start s) (end_group s) (end_object s)
    (soft_suspended s) (publish_done_at_end s) (switch_activated s) (subscribe_parameters s) (range_filter s)
    (last_sent_max_location s) (prior_sent_group s) l g.

(** The largest so far and the group before it, moved on to [location]. *)
Definition move_on (largest : option Location) (prior : option Z) (location : Location) : option Location * option Z :=
  match largest with
  | Some current_max =>
      if Location_ltb current_max location
      then (Some location, if Common.group current_max <? Common.group location then Some (Common.group current_max) else prior)
      else (largest, prior)
  | None => (Some location, prior)
  end.
Definition update_last_sent_max_location (s : SubscriptionState) (location : Location) : SubscriptionState :=
  let '(l, g) := move_on (last_sent_max_location s) (prior_sent_group s) location in set_sent s l g.
Definition update_last_received_object_location (s : SubscriptionState) (location : Location) : SubscriptionState :=
  let '(l, g) := move_on (last_received_object_location s) (prior_received_group s) location in set_received s l g.

(** How far apart the last two groups are. *)
Definition group_gap (largest : option Location) (prior : option Z) : option Z :=
  match largest, prior with
  | Some last, Some prior =>
      match checked_sub (Common.group last) prior with
      | Some gap => if 0 <? gap then Some gap else None
      | None => None
      end
  | _, _ => None
  end.
Definition sent_group_gap (s : SubscriptionState) : option Z := group_gap (last_sent_max_location s) (prior_sent_group s).
Definition received_group_gap (s : SubscriptionState) : option Z :=
  group_gap (last_received_object_location s) (prior_received_group s).

Definition div_ceil (a b : Z) : Z := (a + b - 1) / b.
Definition takeover_group `{Target} (resume_group covered_to resume_gap : Z) : panics Z :=
  let resume_gap := Z.max resume_gap 1 in
  match checked_sub covered_to resume_group with
  | Some ahead =>
      if 0 <? ahead then
        let? steps := arith_u64 (resume_gap * div_ceil ahead resume_gap) in
        add_u64 resume_group steps
      else Ok resume_group
  | None => Ok resume_group
  end.

Definition awaiting_switch_activation (activations : list bool) (s : SubscriptionState) : bool :=
  match switch_activated s with Some a => negb (default false (activations !! a)) | None => false end.

Definition set_location_filter (s : SubscriptionState) (filter : LocationFilter) (largest : option Location)
    : SubscriptionState :=
  let end_ := end_location filter in
  set_range s filter (start_location filter largest) (Common.group <$> end_)
    (match Common.object <$> end_ with
     | Some object => if negb (object =? U64_MAX) then Some object else None
     | None => None
     end).

Definition live_start_location (filter : LocationFilter) (largest : option Location) : option Location :=
  match filter with
  | LF_NextObject | LF_RelativeStart _ => start_location filter largest
  | LF_None | LF_AbsoluteStart _ | LF_AbsoluteStartGroupEnd _ _ | LF_AbsoluteRange _ _ => None
  end.

Definition set_initial_location_filter (s : SubscriptionState) (filter : LocationFilter) : SubscriptionState :=
  let s := set_location_filter s filter None in
  if is_some (live_start_location (location_filter s) None)
  then set_range s (location_filter s) None (end_group s) (end_object s) else s.

Definition resolve_live_start (s : SubscriptionState) (largest : option Location) : SubscriptionState :=
  match live_start_location (location_filter s) largest with
  | Some st => set_range s (location_filter s) (Some st) (end_group s) (end_object s)
  | None => s
  end.

Definition is_past_end (s : SubscriptionState) (location : Location) : bool :=
  match end_group s with
  | Some end_group =>
      (end_group <? Common.group location) ||
      ((Common.group location =? end_group) &&
       match end_object s with Some object => object <? Common.object location | None => false end)
  | None => false
  end.

Fixpoint find_map {A B} (f : A -> option B) (l : list A) : option B :=
  match l with [] => None | x :: l => match f x with Some b => Some b | None => find_map f l end end.

Definition location_filter_of (params : list MessageParameter) : LocationFilter :=
  default LF_None (find_map (fun p => match p with MP_LocationFilter f => Some f | _ => None end) params).

Definition SubscriptionState_from (origin : SubscriptionOrigin) : panics SubscriptionState :=
  let params := match origin with SO_Subscribe m => sub_parameters m | SO_Publish m => pub_parameters m end in
  let priority := default 128 (find_map (fun p => match p with MP_SubscriberPriority v => Some v | _ => None end) params) in
  let order := default GO_Ascending (find_map (fun p => match p with MP_GroupOrder o => Some o | _ => None end) params) in
  let fwd := default true (find_map (fun p => match p with MP_Forward f => Some f | _ => None end) params) in
  let s := mkSubscriptionState priority order fwd LF_None None None None false false None [] CombinedFilter_default
             None None None None in
  let s := set_initial_location_filter s (location_filter_of params) in
  match origin with
  | SO_Subscribe _ =>
      match for_objects params with
      | Ok f => Ok (set_parameters s params f)
      | Err _ => Ok (set_parameters s params CombinedFilter_default)
      | Panic => Panic
      | Diverge => Diverge
      end
  | SO_Publish _ => Ok (set_parameters s params (range_filter s))
  end.

(** The part of [update_subscription] under the lock: the new state, and which
    way Forward changed. *)
Definition update_state (s : SubscriptionState) (parameters : list MessageParameter)
    : panics (SubscriptionState * bool * bool) :=
  let s := match find_map (fun p => match p with MP_LocationFilter f => Some f | _ => None end) parameters with
           | Some filter => set_location_filter s filter None
           | None => s
           end in
  let '(s, becoming_true, becoming_false) :=
    fold_left (fun (acc : SubscriptionState * bool * bool) p =>
      let '(s, t, f) := acc in
      match p with
      | MP_SubscriberPriority v => (set_priority s v, t, f)
      | MP_Forward fwd => (set_forward s fwd, t || (fwd && negb (forward s)), f || (negb fwd && forward s))
      | _ => acc
      end) parameters (s, false, false) in
  let ps := apply_message_parameter_update (subscribe_parameters s) parameters in
  match for_objects ps with
  | Ok f => Ok (set_parameters s ps f, becoming_true, becoming_false)
  | Err _ => Ok (set_parameters s ps CombinedFilter_default, becoming_true, becoming_false)
  | Panic => Panic
  | Diverge => Diverge
  end.

(** What [begin_switch] does to the state of the subscription it activates. *)
Definition activate (s : SubscriptionState) (filter : option LocationFilter) (largest : option Location) : SubscriptionState :=
  let s := match filter with Some f => set_location_filter s f largest | None => s end in
  set_drain (set_forward s true) false false None.

(** What [suspend_at] does to the subscription that is to stop before [boundary]. *)
Definition drain_until (s : SubscriptionState) (plan : SwitchPlan) (boundary : Z) : SubscriptionState :=
  let eg := match end_group s with None => boundary - 1 | Some existing => Z.min existing (boundary - 1) end in
  let eo := if bool_decide (Some eg = end_group s) then end_object s else None in
  set_drain (set_range s (location_filter s) (start s) (Some eg) eo) true (publish_done plan) (Some (activated plan)).

Definition header_for_mid_subgroup_stream (header_info : HeaderInfo) : HeaderInfo :=
  match header_info with
  | HI_Subgroup header => HI_Subgroup (for_mid_subgroup_stream header)
  | other => other
  end.

(** The checks a subgroup object passes before it is written, in their order. *)
Inductive object_verdict : Type := V_BeforeStart | V_PastEnd | V_NotForwarding | V_Filtered | V_Passes.
Definition check_object (s : SubscriptionState) (o : Object) : object_verdict :=
  if match start s with Some st => Location_ltb (obj_location o) st | None => false end then V_BeforeStart
  else if is_past_end s (obj_location o) then V_PastEnd
  else if negb (forward s) then V_NotForwarding
  else if negb (matches_object (range_filter s) o) then V_Filtered
  else V_Passes.

(** * Where a subscription delivers *)

Lemma is_past_end_filter s filter largest l :
  lf_ok filter -> loc_ok l ->
  is_past_end (set_location_filter s filter largest) l =
  match end_location filter with Some e => Location_ltb e l | None => false end.
Proof.
  intros Hf Hl. unfold is_past_end, set_location_filter. simpl. destruct (end_location filter) as [[eg eo]|] eqn:E; [|done].
  simpl. destruct l as [g o]. unfold Location_ltb. simpl in *. destruct Hl as [_ Ho]. simpl in Ho.
  destruct (Z.eqb_spec eo U64_MAX) as [->|Hne]; simpl.
  - destruct (Z.ltb_spec eg g), (Z.eqb_spec g eg), (Z.ltb_spec U64_MAX o); simpl; try done; unfold is_u64 in *; try lia.
    all: destruct (Z.eqb_spec eg g); simpl; lia || done.
  - destruct (Z.ltb_spec eg g), (Z.eqb_spec g eg), (Z.eqb_spec eg g), (Z.ltb_spec eo o); simpl; lia || done.
Qed.

Lemma set_location_filter_fields s filter largest :
  let s' := set_location_filter s filter largest in
  location_filter s' = filter /\ start s' = start_location filter largest /\ forward s' = forward s /\ range_filter s' = range_filter s.
Proof. done. Qed.

Lemma ltb_leb a b : Location_ltb a b = negb (Location_leb b a).
Proof. destruct a, b. unfold Location_ltb, Location_leb. lia. Qed.

(** A subscription whose live start was measured against the track starts and
    ends where its filter says. *)
Lemma live_start_range s filter largest l :
  lf_ok filter -> loc_ok l ->
  let s' := resolve_live_start (set_initial_location_filter s filter) largest in
  (match start s' with Some st => Location_ltb l st | None => false end) =
    (match start_location filter largest with Some st => Location_ltb l st | None => false end) /\
  is_past_end s' l = (match end_location filter with Some e => Location_ltb e l | None => false end) /\
  forward s' = forward s.
Proof.
  intros Hf Hl. pose proof (is_past_end_filter s filter None l Hf Hl) as He.
  unfold resolve_live_start, set_initial_location_filter, is_past_end in *.
  assert (Hz : forall st, Location_ltb l st = true -> st <> mkLocation 0 0).
  { intros st H ->. apply Location_ltb_pos in H; [|done|by vm_compute]. destruct l as [g o], Hl. unfold pos, is_u64 in *. simpl in *. nia. }
  destruct filter; simpl in *; try done; destruct largest; simpl in *; try done; split_and!; try done.
Qed.

(** The largest Location moves up only, and the gap is measured between two
    groups that were the largest, one after the other. *)
Lemma move_on_max largest prior l :
  fst (move_on largest prior l) = Some (match largest with Some m => Location_max m l | None => l end).
Proof.
  unfold move_on, Location_max. destruct largest as [m|]; [|done]. destruct m as [g o], l as [g' o'].
  unfold Location_ltb, Location_leb. simpl.
  destruct (Z.ltb_spec g g'), (Z.eqb_spec g g'), (Z.ltb_spec o o'), (Z.leb_spec o o'); simpl; try done; lia || (repeat f_equal; lia).
Qed.

(** The takeover is the first of the activating track's own groups, from the one it
    resumed at on, that the suspending track no longer covers. *)
Lemma takeover_group_least `{Target} resume covered gap :
  is_u64 resume -> is_u64 covered -> is_u64 gap -> resume + covered + Z.max gap 1 < U64 ->
  exists k, takeover_group resume covered gap = Ok (resume + k * Z.max gap 1) /\ 0 <= k /\ covered <= resume + k * Z.max gap 1 /\
    forall k', 0 <= k' -> covered <= resume + k' * Z.max gap 1 -> k <= k'.
Proof.
  intros Hr Hc Hg Hs. unfold takeover_group. set (g := Z.max gap 1) in *. assert (1 <= g) by lia.
  assert (Hzero : covered <= resume -> exists k, Ok (E := Empty_set) resume = Ok (resume + k * g) /\ 0 <= k /\
            covered <= resume + k * g /\ forall k', 0 <= k' -> covered <= resume + k' * g -> k <= k').
  { intros Hle. exists 0. split_and!; [f_equal; lia|lia..]. }
  destruct (checked_sub covered resume) as [a|] eqn:E; cycle 1.
  { apply Hzero. unfold checked_sub in E. destruct (Z.leb_spec resume covered); [done|lia]. }
  apply checked_sub_Some in E as [-> E]. destruct (Z.ltb_spec 0 (covered - resume)) as [Ha|Ha]; [|apply Hzero; lia].
  exists (div_ceil (covered - resume) g). unfold div_ceil. set (n := covered - resume + g - 1).
  pose proof (Z.div_mod n g ltac:(lia)). pose proof (Z.mod_pos_bound n g ltac:(lia)). set (k := n / g) in *.
  assert (0 <= k) by (apply Z.div_pos; lia). unfold is_u64 in *.
  rewrite (arith_u64_Ok (g * k)) by (unfold is_u64; nia). cbn [obind]. unfold add_u64.
  rewrite arith_u64_Ok by (unfold is_u64; nia). split_and!; [f_equal; lia|done|nia|]. intros k' Hk' Hcov. nia.
Qed.

(** C19: a subscription delivers what it asked for.  From the parameters of the
    SUBSCRIBE that made it and the Largest Object of the track when it began,
    an object passes the checks of the task exactly if the Location Filter
    selects its Location (an end without an Object ID takes the whole group), Forward
    is not 0 and the range filters match it; when the range filters
    cannot be applied together the relay leaves them out. *)
Theorem subscription_selects m s largest o :
  SubscriptionState_from (SO_Subscribe m) = Ok s ->
  lf_ok (location_filter_of (sub_parameters m)) -> largest_ok largest -> loc_ok (obj_location o) ->
  check_object (resolve_live_start s largest) o = V_Passes <->
  lf_selects (location_filter_of (sub_parameters m)) largest (obj_location o) /\
  default true (find_map (fun p => match p with MP_Forward f => Some f | _ => None end) (sub_parameters m)) = true /\
  matches_object (match for_objects (sub_parameters m) with Ok f => f | _ => CombinedFilter_default end) o = true.
Proof.
  intros Hs Hf Hm Hl. set (params := sub_parameters m) in *. set (F := match for_objects params with Ok f => f | _ => CombinedFilter_default end).
  set (fwd := default true _).
  assert (E : exists s1, s = set_parameters (set_initial_location_filter s1 (location_filter_of params)) params F /\ forward s1 = fwd).
  { unfold SubscriptionState_from in Hs. fold params in Hs. subst F fwd.
    destruct (for_objects params); try done; injection Hs as <-; eexists; by split. }
  destruct E as (s1 & -> & Efwd).
  set (s' := set_initial_location_filter s1 (location_filter_of params)).
  assert (E : resolve_live_start (set_parameters s' params F) largest = set_parameters (resolve_live_start s' largest) params F)
    by (unfold resolve_live_start; cbn; by destruct (live_start_location _ _)).
  destruct (live_start_range s1 _ largest _ Hf Hl) as (E1 & E2 & E3). fold s' in E1, E2, E3.
  rewrite E. unfold check_object, is_past_end. cbn [start end_group end_object forward range_filter set_parameters].
  fold (is_past_end (resolve_live_start s' largest) (obj_location o)). rewrite E1, E2, E3, Efwd.
  rewrite <- (in_bounds_selects _ largest _ Hf Hm Hl). unfold in_bounds.
  assert (Ho : forall b c d e : bool, (if b then V_BeforeStart else if c then V_PastEnd else if negb d then V_NotForwarding
            else if negb e then V_Filtered else V_Passes) = V_Passes <-> (negb b && negb c = true) /\ d = true /\ e = true).
  { intros [] [] [] []; simpl; intuition congruence. }
  rewrite Ho. set (a := negb _ && negb _). set (b := _ && _). replace a with b; [done|]. subst a b.
  destruct (start_location _ _), (end_location _); rewrite ?ltb_leb, ?negb_involutive; done.
Qed.

(** A subscription from Next Object on, when the track is at {7, 3}. *)
Lemma subscription_selects_witness :
  let H := debug_build in
  let m := mkSubscribe 0 [] [] [MP_LocationFilter LF_NextObject] in
  let o := mkObject 1 (mkLocation 7 4) 128 OFP_Subgroup (Some 0) OS_Normal None (Some [1]) in
  exists s, SubscriptionState_from (SO_Subscribe m) = Ok s /\ check_object (resolve_live_start s (Some (mkLocation 7 3))) o = V_Passes.
Proof.
  intros H m o. eexists. split; [reflexivity|].
  apply (subscription_selects m _ (Some (mkLocation 7 3)) o eq_refl); [exact I|..].
  - unfold largest_ok, loc_ok, is_u64. simpl. lia.
  - unfold loc_ok, is_u64. simpl. lia.
  - split_and!; [unfold lf_selects, pos; simpl; lia|reflexivity|reflexivity].
Defined.
