(* ===== verification/Forwarding.v ===== *)
(** Forwarding a track to a subscriber
    ([apps/relay/src/server/subscription.rs], the stream map of [client.rs]).

    A connection holds subscriptions, and streams it has opened for them.  The
    events of a track reach a subscription through a queue; its task takes them
    one by one and writes what the subscriber is to get.  Here the connection is
    a [Client] that keeps everything written to it, stream by stream; each task
    step, update and switch is a function on it, taken as one step.

    What the transport answers is a parameter: whether the n-th stream opens,
    whether the next write to it succeeds after what it was given so far, and how
    its end is taken.  A stream that is closed in a background task is closed at
    once here. *)
From stdpp Require Import gmap.
From S2P Require Import Prelude Varint Common Codes LocationFilter Properties MessageParameter CombinedFilter.
From S2P Require Import Control Subgroup Datagram FetchObject ObjectForms DataStream Streams Subscription.

(** * The connection *)

(** [SE_Stopped]: the peer has stopped it, or the connection is gone, so that it could
    not be finished. *)
Inductive stream_end : Type := SE_Open | SE_Finished | SE_Reset (code : StreamResetCode) | SE_Stopped.
Record SentStream := mkSentStream {
  ss_key : SendStreamKey;
  ss_priority : Z;
  ss_bytes : bytes;
  ss_end : stream_end
}.

Inductive FetchStop : Type := FS_Running | FS_Cancelled | FS_MalformedTrack | FS_UpdateFailed.

Inductive TrackEvent : Type :=
| TE_SubgroupObject (stream_id : StreamId) (object : Object) (header_info : option HeaderInfo)
| TE_Datagram (object : Datagram)
| TE_StreamClosed (stream_id : StreamId)
| TE_PublisherDisconnected (status_code : PublishDoneStatusCode) (reason : bytes).

Record Subscription := mkSubscription {
  relay_track_id : Z;
  track_alias : Z;
  subscription_state : SubscriptionState;
  send_stream_last_object_ids : gmap StreamId (option Z);
  opened_stream_count : Z;
  finished : bool;
  pending_switch : bool;
  pending_header : option (StreamId * HeaderInfo);
  skipped_stream_headers : gmap StreamId HeaderInfo;
  fill_streams : list Z;
  (** The receiving end of the channel; [None] once it is given up. *)
  event_rx : option (list TrackEvent)
}.

Definition Subscription_new (relay_track_id track_alias : Z) (s : SubscriptionState) : Subscription :=
  mkSubscription relay_track_id track_alias s ∅ 0 false false None ∅ [] (Some []).

Record Client := mkClient {
  streams : list SentStream;
  send_streams : gmap SendStreamKey nat;
  datagrams : list bytes;
  responses : list (Z * PublishDone);
  plans : gmap Z SwitchPlan;
  activations : list bool;
  subscriptions : gmap Z Subscription;
  fill_stops : list (Z * FetchStop);
  (** The [StreamTimeout]s that the ABR controller has been sent, by group. *)
  discarded_groups : list Z
}.
Definition Client_new : Client := mkClient [] ∅ [] [] ∅ [] ∅ [] [].

Definition set_streams (c : Client) (l : list SentStream) (m : gmap SendStreamKey nat) : Client :=
  mkClient l m (datagrams c) (responses c) (plans c) (activations c) (subscriptions c) (fill_stops c) (discarded_groups c).
Definition set_subscriptions (c : Client) (m : gmap Z Subscription) : Client :=
  mkClient (streams c) (send_streams c) (datagrams c) (responses c) (plans c) (activations c) m (fill_stops c) (discarded_groups c).
Definition put (c : Client) (request_id : Z) (sub : Subscription) : Client :=
  set_subscriptions c (<[request_id := sub]> (subscriptions c)).
Definition add_datagram (c : Client) (b : bytes) : Client :=
  mkClient (streams c) (send_streams c) (datagrams c ++ [b]) (responses c) (plans c) (activations c) (subscriptions c) (fill_stops c) (discarded_groups c).
Definition add_response (c : Client) (r : Z * PublishDone) : Client :=
  mkClient (streams c) (send_streams c) (datagrams c) (responses c ++ [r]) (plans c) (activations c) (subscriptions c) (fill_stops c) (discarded_groups c).
Definition set_plans (c : Client) (m : gmap Z SwitchPlan) (a : list bool) : Client :=
  mkClient (streams c) (send_streams c) (datagrams c) (responses c) m a (subscriptions c) (fill_stops c) (discarded_groups c).
Definition add_fill_stops (c : Client) (l : list (Z * FetchStop)) : Client :=
  mkClient (streams c) (send_streams c) (datagrams c) (responses c) (plans c) (activations c) (subscriptions c) (fill_stops c ++ l) (discarded_groups c).
Definition add_discarded_group (c : Client) (group : Z) : Client :=
  mkClient (streams c) (send_streams c) (datagrams c) (responses c) (plans c) (activations c) (subscriptions c) (fill_stops c)
    (discarded_groups c ++ [group]).

Definition with_state (sub : Subscription) (s : SubscriptionState) : Subscription :=
  mkSubscription (relay_track_id sub) (track_alias sub) s (send_stream_last_object_ids sub) (opened_stream_count sub)
    (finished sub) (pending_switch sub) (pending_header sub) (skipped_stream_headers sub) (fill_streams sub) (event_rx sub).
Definition with_ids (sub : Subscription) (m : gmap StreamId (option Z)) : Subscription :=
  mkSubscription (relay_track_id sub) (track_alias sub) (subscription_state sub) m (opened_stream_count sub)
    (finished sub) (pending_switch sub) (pending_header sub) (skipped_stream_headers sub) (fill_streams sub) (event_rx sub).
Definition with_count (sub : Subscription) (n : Z) : Subscription :=
  mkSubscription (relay_track_id sub) (track_alias sub) (subscription_state sub) (send_stream_last_object_ids sub) n
    (finished sub) (pending_switch sub) (pending_header sub) (skipped_stream_headers sub) (fill_streams sub) (event_rx sub).
Definition with_finished (sub : Subscription) (f : bool) : Subscription :=
  mkSubscription (relay_track_id sub) (track_alias sub) (subscription_state sub) (send_stream_last_object_ids sub) (opened_stream_count sub)
    f (pending_switch sub) (pending_header sub) (skipped_stream_headers sub) (fill_streams sub) (event_rx sub).
Definition with_switch (sub : Subscription) (p : bool) : Subscription :=
  mkSubscription (relay_track_id sub) (track_alias sub) (subscription_state sub) (send_stream_last_object_ids sub) (opened_stream_count sub)
    (finished sub) p (pending_header sub) (skipped_stream_headers sub) (fill_streams sub) (event_rx sub).
Definition with_pending (sub : Subscription) (h : option (StreamId * HeaderInfo)) : Subscription :=
  mkSubscription (relay_track_id sub) (track_alias sub) (subscription_state sub) (send_stream_last_object_ids sub) (opened_stream_count sub)
    (finished sub) (pending_switch sub) h (skipped_stream_headers sub) (fill_streams sub) (event_rx sub).
Definition with_skipped (sub : Subscription) (m : gmap StreamId HeaderInfo) : Subscription :=
  mkSubscription (relay_track_id sub) (track_alias sub) (subscription_state sub) (send_stream_last_object_ids sub) (opened_stream_count sub)
    (finished sub) (pending_switch sub) (pending_header sub) m (fill_streams sub) (event_rx sub).
Definition with_fills (sub : Subscription) (l : list Z) : Subscription :=
  mkSubscription (relay_track_id sub) (track_alias sub) (subscription_state sub) (send_stream_last_object_ids sub) (opened_stream_count sub)
    (finished sub) (pending_switch sub) (pending_header sub) (skipped_stream_headers sub) l (event_rx sub).
Definition with_rx (sub : Subscription) (q : option (list TrackEvent)) : Subscription :=
  mkSubscription (relay_track_id sub) (track_alias sub) (subscription_state sub) (send_stream_last_object_ids sub) (opened_stream_count sub)
    (finished sub) (pending_switch sub) (pending_header sub) (skipped_stream_headers sub) (fill_streams sub) q.

Definition with_track_alias (alias : Z) (d : Datagram) : Datagram :=
  mkDatagram alias (dg_group_id d) (dg_object_id d) (dg_publisher_priority d) (dg_properties d) (dg_payload d)
    (dg_object_status d) (dg_end_of_group d).

(** * Streams of the connection ([client.rs]) *)

Inductive TransportWriteError : Type := WE_ClosedOrStopped | WE_Other.

(** What becomes of the end of a stream: it is taken, or it fails, or it is not taken
    before the discard timeout. *)
Inductive finish_result : Type := FR_Finished | FR_Failed | FR_Late.

(** How streams are closed: whether the connection negotiated SSTS, the timeout of the
    configuration, what the transport makes of the end of the n-th stream after what was
    written to it, and whether the controller's channel has room when it times out. *)
Class Closing := mkClosing {
  ssts_negotiated : bool;
  ssts_discard_timeout_ms : Z;
  finishes : nat -> bytes -> finish_result;
  controller_takes : nat -> bool
}.

Section Connection.
(** The transport. *)
Variable opens : nat -> bool.
Variable write_all : nat -> bytes -> bytes -> option TransportWriteError.
Variable sends_datagram : bytes -> bool.
(** Whether the request stream of a subscription still takes responses. *)
Variable responds : Z -> bool.
(** [max_subscriber_lag] of the configuration. *)
Variable max_lag : Z.
Context `{Target} `{Closing}.

Definition get_stream (c : Client) (key : SendStreamKey) : option nat := send_streams c !! key.

Definition append (l : list SentStream) (n : nat) (b : bytes) : list SentStream :=
  alter (fun s => mkSentStream (ss_key s) (ss_priority s) (ss_bytes s ++ b) (ss_end s)) n l.
Definition end_stream (l : list SentStream) (n : nat) (e : stream_end) : list SentStream :=
  alter (fun s => mkSentStream (ss_key s) (ss_priority s) (ss_bytes s) e) n l.
Definition written (l : list SentStream) (n : nat) : bytes :=
  match l !! n with Some s => ss_bytes s | None => [] end.

Definition open_stream (c : Client) (key : SendStreamKey) (header_payload : bytes) (priority : Z) : Client * option nat :=
  match send_streams c !! key with
  | Some n => (c, Some n)
  | None =>
      let n := length (streams c) in
      if opens n then
        let l := streams c ++ [mkSentStream key priority [] SE_Open] in
        match write_all n [] header_payload with
        | None => (set_streams c (append l n header_payload) (<[key := n]> (send_streams c)), Some n)
        | Some _ => (set_streams c l (delete key (<[key := n]> (send_streams c))), None)
        end
      else (c, None)
  end.

Definition release_stream (c : Client) (key : SendStreamKey) : Client :=
  set_streams c (streams c) (delete key (send_streams c)).

Definition write_stream_object (c : Client) (key : SendStreamKey) (object : bytes) (the_stream : nat) : Client :=
  match write_all the_stream (written (streams c) the_stream) object with
  | None => set_streams c (append (streams c) the_stream object) (send_streams c)
  | Some WE_ClosedOrStopped => release_stream c key
  | Some WE_Other => c
  end.

Definition drop_stream (e : nat -> bytes -> stream_end) (c : Client) (key : SendStreamKey) : Client :=
  match send_streams c !! key with
  | Some n => set_streams c (end_stream (streams c) n (e n (written (streams c) n))) (delete key (send_streams c))
  | None => c
  end.

(** Without SSTS there is no discard timeout: the end is waited for, as long as it takes. *)
Definition discard_timeout_ms : Z := if ssts_negotiated then ssts_discard_timeout_ms else 0.
Definition closed_with (n : nat) (b : bytes) : stream_end :=
  match finishes n b with
  | FR_Finished => SE_Finished
  | FR_Failed => SE_Stopped
  | FR_Late => if discard_timeout_ms =? 0 then SE_Finished else SE_Reset SRC_DeliveryTimeout
  end.
(** A stream that is discarded is made known to the controller. *)
Definition close_stream (c : Client) (key : SendStreamKey) : Client :=
  match send_streams c !! key with
  | Some n =>
      let discarded := match closed_with n (written (streams c) n) with SE_Reset _ => controller_takes n | _ => false end in
      let c := drop_stream closed_with c key in
      if discarded then add_discarded_group c (default 0 (sid_group_id (ssk_stream_id key))) else c
  | None => c
  end.
Definition reset_stream (code : StreamResetCode) : Client -> SendStreamKey -> Client := drop_stream (fun _ _ => SE_Reset code).

(** * The subscription *)

Definition header_payload (sub : Subscription) (header_info : HeaderInfo) : result bytes :=
  match header_info with
  | HI_Subgroup header => SubgroupHeader_serialize header (Some (track_alias sub))
  | HI_Fetch header _ => FetchHeader_serialize header
  end.

Definition new_send_stream_key (request_id : Z) (stream_id : StreamId) : SendStreamKey :=
  mkSendStreamKey request_id stream_id.

Definition handle_header (c : Client) (request_id : Z) (sub : Subscription) (header_info : HeaderInfo)
    : panics (Client * Subscription * option (StreamId * nat)) :=
  let stream_id := build_stream_id (relay_track_id sub) header_info in
  match header_payload sub header_info with
  | Ok payload =>
      let '(pub_prio, group_id) :=
        match header_info with
        | HI_Subgroup header => (default DEFAULT_PUBLISHER_PRIORITY (sh_publisher_priority header), sh_group_id header)
        | HI_Fetch _ _ => (DEFAULT_PUBLISHER_PRIORITY, 0)
        end in
      let s := subscription_state sub in
      let priority := compute_stream_priority (subscriber_priority s) pub_prio (group_order s) group_id in
      let '(c, r) := open_stream c (new_send_stream_key request_id stream_id) payload priority in
      Ok match r with
         | Some n => (c, with_count sub (wrap64 (opened_stream_count sub + 1)), Some (stream_id, n))
         | None => (c, sub, None)
         end
  | Err _ => Ok (c, sub, None)
  | Panic => Panic
  | Diverge => Diverge
  end.

Definition handle_object (c : Client) (request_id : Z) (object : Object) (previous_object_id : option Z)
    (stream_id : StreamId) (send_stream : nat) : panics (Client * bool) :=
  match try_into_subgroup object with
  | Ok sub_object =>
      match SubgroupObject_serialize sub_object previous_object_id (is_some (so_properties sub_object)) with
      | Ok object_bytes =>
          Ok (write_stream_object c (new_send_stream_key request_id stream_id) object_bytes send_stream, true)
      | Err _ => Ok (c, false)
      | Panic => Panic
      | Diverge => Diverge
      end
  | _ => Ok (c, false)
  end.

Definition save_skipped_header (sub : Subscription) (stream_id : StreamId) (header_info : option HeaderInfo) : Subscription :=
  match header_info with
  | Some header => with_skipped sub (<[stream_id := header]> (skipped_stream_headers sub))
  | None => sub
  end.

(** The stream an object that passes goes to.  [active] holds the headers of
    the streams the publisher has open. *)
Definition stream_for (c : Client) (request_id : Z) (sub : Subscription) (active : gmap StreamId HeaderInfo)
    (stream_id : StreamId) (header_info : option HeaderInfo) : panics (Client * Subscription * option nat) :=
  match header_info with
  | Some (HI_Subgroup header) =>
      let? r := handle_header c request_id sub (HI_Subgroup header) in
      Ok match r with
         | (c, sub, Some (id, n)) => (c, with_ids sub (<[id := None]> (send_stream_last_object_ids sub)), Some n)
         | (c, sub, None) => (c, sub, None)
         end
  | Some (HI_Fetch _ _) => Ok (c, sub, None)
  | None =>
      match get_stream c (new_send_stream_key request_id stream_id) with
      | Some n => Ok (c, sub, Some n)
      | None =>
          let held := skipped_stream_headers sub !! stream_id in
          let sub := with_skipped sub (delete stream_id (skipped_stream_headers sub)) in
          match (match held with Some h => Some h | None => active !! stream_id end) with
          | Some h =>
              let? r := handle_header c request_id sub (header_for_mid_subgroup_stream h) in
              Ok match r with (c, sub, r) => (c, sub, snd <$> r) end
          | None => Ok (c, sub, None)
          end
      end
  end.

(** What follows a step of the task. *)
Inductive aftermath : Type := A_Nothing | A_Drained | A_Delivered (group : Z).

(** [handle_track_event] for a subgroup object; [gate] is the answer of the
    switching gate for its group. *)
Definition handle_subgroup_object (c : Client) (request_id : Z) (sub : Subscription) (active : gmap StreamId HeaderInfo)
    (gate : bool) (stream_id : StreamId) (object : Object) (header_info : option HeaderInfo)
    : panics (Client * Subscription * aftermath) :=
  let object := with_alias (track_alias sub) object in
  let location := obj_location object in
  if negb gate then Ok (c, sub, A_Nothing)
  else
    let sub := with_state sub (update_last_received_object_location (subscription_state sub) location) in
    match check_object (subscription_state sub) object with
    | V_BeforeStart | V_Filtered => Ok (c, save_skipped_header sub stream_id header_info, A_Nothing)
    | V_PastEnd => Ok (c, sub, if soft_suspended (subscription_state sub) then A_Drained else A_Nothing)
    | V_NotForwarding =>
        Ok (c, match header_info with Some header => with_pending sub (Some (stream_id, header)) | None => sub end, A_Nothing)
    | V_Passes =>
        let sub := with_pending sub None in
        let? r := stream_for c request_id sub active stream_id header_info in
        match r with
        | (c, sub, None) => Ok (c, sub, A_Nothing)
        | (c, sub, Some send_stream) =>
            let previous_object_id := mjoin (send_stream_last_object_ids sub !! stream_id) in
            let? w := handle_object c request_id object previous_object_id stream_id send_stream in
            let '(c, send_status) := w in
            if send_status then
              let sub := with_ids sub (<[stream_id := Some (Common.object location)]> (send_stream_last_object_ids sub)) in
              let sub := with_state sub (update_last_sent_max_location (subscription_state sub) location) in
              if pending_switch sub then Ok (c, with_switch sub false, A_Delivered (Common.group location))
              else Ok (c, sub, A_Nothing)
            else Ok (c, sub, A_Nothing)
        end
    end.

(** The checks of a datagram.  It has no subgroup; and while a switch waits for the other
    subscription to deliver, no end holds for it. *)
Definition check_datagram (activations : list bool) (s : SubscriptionState) (object : Datagram) : bool :=
  let location := mkLocation (dg_group_id object) (dg_object_id object) in
  let fields := mkObjectFields None (dg_object_id object)
                  (default DEFAULT_PUBLISHER_PRIORITY (dg_publisher_priority object)) (dg_properties object) in
  if match start s with Some st => Location_ltb location st | None => false end then false
  else if is_past_end s location && negb (awaiting_switch_activation activations s) then false
  else if negb (forward s) then false
  else matches (range_filter s) fields.

Definition handle_datagram (c : Client) (sub : Subscription) (object : Datagram) : Client * Subscription * aftermath :=
  let location := mkLocation (dg_group_id object) (dg_object_id object) in
  let sub := with_state sub (update_last_received_object_location (subscription_state sub) location) in
  if negb (check_datagram (activations c) (subscription_state sub) object) then (c, sub, A_Nothing)
  else match Datagram_serialize (with_track_alias (track_alias sub) object) with
       | Ok serialized_bytes =>
           if sends_datagram serialized_bytes then
             let sub := with_state sub (update_last_sent_max_location (subscription_state sub) location) in
             let c := add_datagram c serialized_bytes in
             if pending_switch sub then (c, with_switch sub false, A_Delivered (Common.group location))
             else (c, sub, A_Nothing)
           else (c, sub, A_Nothing)
       | _ => (c, sub, A_Nothing)
       end.

Definition handle_stream_closed (c : Client) (request_id : Z) (sub : Subscription) (stream_id : StreamId)
    : Client * Subscription :=
  (close_stream c (new_send_stream_key request_id stream_id),
   with_skipped (with_ids sub (delete stream_id (send_stream_last_object_ids sub)))
     (delete stream_id (skipped_stream_headers sub))).

(** ** Ending a subscription *)

Definition stop_fill_streams (c : Client) (sub : Subscription) (reason : FetchStop) : Client * Subscription :=
  (add_fill_stops c (map (fun id => (id, reason)) (fill_streams sub)), with_fills sub []).

Definition drop_all (drop : Client -> SendStreamKey -> Client) (c : Client) (request_id : Z) (sub : Subscription) : Client * Subscription :=
  (fold_left (fun c (x : StreamId * option Z) => drop c (new_send_stream_key request_id (fst x)))
     (map_to_list (send_stream_last_object_ids sub)) c,
   with_ids sub ∅).

Definition finish (c : Client) (request_id : Z) (sub : Subscription) : Client * Subscription :=
  if finished sub then (c, sub) else drop_all close_stream c request_id (with_finished sub true).

Definition reset_data_streams (c : Client) (request_id : Z) (sub : Subscription) (code : StreamResetCode) : Client * Subscription :=
  drop_all (reset_stream code) c request_id sub.

Definition cancel (c : Client) (request_id : Z) (sub : Subscription) : Client * Subscription :=
  let '(c, sub) := reset_data_streams c request_id sub SRC_Cancelled in
  let '(c, sub) := stop_fill_streams c sub FS_Cancelled in
  finish c request_id sub.

Definition send_publish_done (c : Client) (request_id : Z) (sub : Subscription) (status_code : PublishDoneStatusCode)
    (reason : bytes) : Client :=
  match ReasonPhrase_try_new reason with
  | Ok phrase =>
      if responds request_id
      then add_response c (request_id, mkPublishDone status_code (opened_stream_count sub) phrase)
      else c
  | _ => c
  end.

(** "switched away from" *)
Definition SWITCHED_AWAY : bytes := [115; 119; 105; 116; 99; 104; 101; 100; 32; 97; 119; 97; 121; 32; 102; 114; 111; 109].
Definition send_switched_away (c : Client) (request_id : Z) (sub : Subscription) : Client :=
  send_publish_done c request_id sub PDS_TrackEnded SWITCHED_AWAY.

(** ** Switches *)

(** Applied to one of the connection's subscriptions, if it is there. *)
Definition on (c : Client) (request_id : Z) (f : Client -> Subscription -> Client * Subscription) : Client :=
  match subscriptions c !! request_id with
  | Some sub => let '(c, sub) := f c sub in put c request_id sub
  | None => c
  end.

Definition suspend_at (c : Client) (plan : SwitchPlan) (boundary : Z) : Client :=
  if negb (bool_decide (plan_mode plan = SM_Soft)) || (boundary =? 0) then c
  else on c (suspending_request_id plan) (fun c sub =>
         (c, with_state sub (drain_until (subscription_state sub) plan boundary))).

Definition cut_suspending (c : Client) (plan : SwitchPlan) : Client :=
  let id := suspending_request_id plan in
  on c id (fun c sub =>
    let sub := with_state sub (set_forward (subscription_state sub) false) in
    let '(c, sub) := stop_fill_streams c sub FS_Cancelled in
    let '(c, sub) := reset_data_streams c id sub SRC_Cancelled in
    (if publish_done plan then send_switched_away c id sub else c, sub)).

Definition mark (activations : list bool) (a : nat) : list bool := <[a := true]> activations.

Definition complete_switch (c : Client) (request_id : Z) (delivered_group : Z) : Client :=
  match plans c !! request_id with
  | None => c
  | Some plan =>
      let c := set_plans c (delete request_id (plans c)) (mark (activations c) (activated plan)) in
      match plan_mode plan, boundary plan with
      | SM_Soft, None => suspend_at c plan delivered_group
      | SM_Soft, Some _ => c
      | SM_Hard, _ => cut_suspending c plan
      end
  end.

(** [begin_switch], with the plan the request asked for ([SwitchPlan::new]). *)
Definition begin_switch (c : Client) (request_id : Z) (suspending : Z) (mode : SwitchMode) (done : bool)
    (filter : option LocationFilter) (largest : option Location) : Client :=
  match subscriptions c !! request_id with
  | None => c
  | Some sub =>
      let s := activate (subscription_state sub) filter largest in
      let c := put c request_id (with_state sub s) in
      let plan := mkSwitchPlan suspending mode done (Common.group <$> start s) (length (activations c)) in
      let c := set_plans c (plans c) (activations c ++ [false]) in
      let c := match boundary plan with Some boundary => suspend_at c plan boundary | None => c end in
      let c := set_plans c (<[request_id := plan]> (plans c)) (activations c) in
      on c request_id (fun c sub => (c, with_switch sub true))
  end.

Definition finish_soft_drain (c : Client) (request_id : Z) : Client :=
  on c request_id (fun c sub =>
    let s := subscription_state sub in
    if negb (soft_suspended s) then (c, sub)
    else
      let wanted := publish_done_at_end s in
      let sub := with_state sub (set_forward (set_drain s false false None) false) in
      if wanted then finish (send_switched_away c request_id sub) request_id sub else (c, sub)).

Definition finally (c : Client) (request_id : Z) (sub : Subscription) (a : aftermath) : Client :=
  let c := put c request_id sub in
  match a with
  | A_Nothing => c
  | A_Drained => finish_soft_drain c request_id
  | A_Delivered group => complete_switch c request_id group
  end.

(** ** The task *)

Definition handle_track_event (c : Client) (request_id : Z) (sub : Subscription) (active : gmap StreamId HeaderInfo)
    (gate : bool) (event : TrackEvent) : panics Client :=
  match event with
  | TE_SubgroupObject stream_id object header_info =>
      let? r := handle_subgroup_object c request_id sub active gate stream_id object header_info in
      let '(c, sub, a) := r in Ok (finally c request_id sub a)
  | TE_Datagram object =>
      let '(c, sub, a) := handle_datagram c sub object in Ok (finally c request_id sub a)
  | TE_StreamClosed stream_id =>
      let '(c, sub) := handle_stream_closed c request_id sub stream_id in Ok (put c request_id sub)
  | TE_PublisherDisconnected status_code reason =>
      let c := send_publish_done c request_id sub status_code reason in
      let '(c, sub) := if bool_decide (status_code = PDS_MalformedTrack)
                       then stop_fill_streams c sub FS_MalformedTrack else (c, sub) in
      let '(c, sub) := finish c request_id sub in Ok (put c request_id sub)
  end.

(** [receive].  [sender_gone]: nothing more will come into the channel; while more may
    come, the task waits. *)
Definition receive (c : Client) (request_id : Z) (active : gmap StreamId HeaderInfo) (gate sender_gone : bool) : panics Client :=
  match subscriptions c !! request_id with
  | None => Ok c
  | Some sub =>
      match event_rx sub with
      | None => Ok c
      | Some [] =>
          if sender_gone then let '(c, sub) := finish c request_id sub in Ok (put c request_id (with_rx sub None)) else Ok c
      | Some (event :: backlog) =>
          if (0 <? max_lag) && (max_lag <? Z.of_nat (length backlog)) && negb (finished sub) then
            let '(c, sub) := reset_data_streams c request_id (with_rx sub None) SRC_TooFarBehind in
            let '(c, sub) := finish c request_id sub in Ok (put c request_id sub)
          else if finished sub then Ok (put c request_id (with_rx sub None))
          else handle_track_event c request_id (with_rx sub (Some backlog)) active gate event
      end
  end.

(** A REQUEST_UPDATE. *)
Definition update_subscription (c : Client) (request_id : Z) (parameters : list MessageParameter) : panics Client :=
  match subscriptions c !! request_id with
  | None => Ok c
  | Some sub =>
      let? r := update_state (subscription_state sub) parameters in
      let '(s, becoming_true, becoming_false) := r in
      let sub := with_state sub s in
      let '(c, sub) := if becoming_false : bool then stop_fill_streams c sub FS_Cancelled else (c, sub) in
      if becoming_true : bool then
        match pending_header sub with
        | None => Ok (put c request_id sub)
        | Some (pending_stream_id, pending_header_info) =>
            let? r := handle_header c request_id (with_pending sub None) (header_for_mid_subgroup_stream pending_header_info) in
            Ok match r with
               | (c, sub, Some _) =>
                   put c request_id (with_ids sub (<[pending_stream_id := None]> (send_stream_last_object_ids sub)))
               | (c, sub, None) => put c request_id sub
               end
        end
      else Ok (put c request_id sub)
  end.
End Connection.
