(* ===== verification/Delivery.v ===== *)
(** What a subscriber receives: the theorems about [Forwarding] and [Subscription]. *)
From stdpp Require Import gmap.
From S2P Require Import Prelude Varint Common Codes LocationFilter Properties MessageParameter CombinedFilter.
From S2P Require Import Control Subgroup Datagram FetchObject ObjectForms DataStream Streams Subscription Forwarding.

(** * The feed of a publisher

    The events of a track, as one publisher's streams make them: every subgroup
    is on one stream, the first object of a stream comes with its header, IDs
    rise, and nothing follows a close. *)

(** The object the relay makes of what it reads under the header. *)
Definition object_of (h : SubgroupHeader) (alias : Z) (so : SubgroupObject) : Object :=
  mkObject alias (mkLocation (sh_group_id h) (so_object_id so))
    (default DEFAULT_PUBLISHER_PRIORITY (sh_publisher_priority h)) OFP_Subgroup (sh_subgroup_id h)
    (default OS_Normal (so_status so)) (so_properties so) (so_payload so).

Definition hp (h : SubgroupHeader) : bool := sht_has_properties (header_type h).

(** A header as the relay has it by then: its Subgroup ID is known. *)
Record header_known (h : SubgroupHeader) : Prop := {
  hk_ready : sh_ready h;
  hk_subgroup : sh_subgroup_id h <> None;
  hk_zero : subgroup_id_mode (header_type h) = SIM_Zero -> sh_subgroup_id h = Some 0;
  hk_default : sht_has_default_priority (header_type h) = true -> sh_publisher_priority h = None
}.

(** An object as it is read, other than the empty one with status Normal, which
    cannot be forwarded. *)
Record object_read (h : SubgroupHeader) (prev : option Z) (so : SubgroupObject) : Prop := {
  or_read : so_read (hp h) so;
  or_props : op_list_ok (default [] (so_properties so));
  or_content : so_status so <> Some OS_Normal;
  or_after : forall p, prev = Some p -> p < so_object_id so
}.

(** What has come in of a subgroup.  [fed_joined]: the subscription was not there
    when it began, so no event brought the header. *)
Record Fed := mkFed { fed_header : SubgroupHeader; fed_objects : list SubgroupObject; fed_closed : bool; fed_joined : bool }.

Definition last_id (sos : list SubgroupObject) : option Z := so_object_id <$> last sos.

Section Feed.
Variable relay_track_id : Z.
Definition sid (h : SubgroupHeader) : StreamId := build_stream_id relay_track_id (HI_Subgroup h).

Inductive fed : list TrackEvent -> gmap StreamId Fed -> Prop :=
| fed_nil : fed [] ∅
| fed_first evs m h so alias :
    fed evs m -> m !! sid h = None -> header_known h -> object_read h None so ->
    (subgroup_id_mode (header_type h) = SIM_FirstObjectId -> sh_subgroup_id h = Some (so_object_id so)) ->
    fed (evs ++ [TE_SubgroupObject (sid h) (object_of h alias so) (Some (HI_Subgroup h))])
        (<[sid h := mkFed h [so] false false]> m)
| fed_join evs m h so alias :
    fed evs m -> m !! sid h = None -> header_known h -> object_read h None so ->
    fed (evs ++ [TE_SubgroupObject (sid h) (object_of h alias so) None])
        (<[sid h := mkFed h [so] false true]> m)
| fed_next evs m h sos so alias j :
    fed evs m -> m !! sid h = Some (mkFed h sos false j) -> object_read h (last_id sos) so ->
    fed (evs ++ [TE_SubgroupObject (sid h) (object_of h alias so) None])
        (<[sid h := mkFed h (sos ++ [so]) false j]> m)
| fed_close evs m h sos j :
    fed evs m -> m !! sid h = Some (mkFed h sos false j) ->
    fed (evs ++ [TE_StreamClosed (sid h)]) (<[sid h := mkFed h sos true j]> m)
| fed_close_unseen evs m s : fed evs m -> m !! s = None -> fed (evs ++ [TE_StreamClosed s]) m
| fed_datagram evs m d : fed evs m -> fed (evs ++ [TE_Datagram d]) m.
End Feed.

(** ** Lemmas on what is written *)

Lemma object_into_subgroup h alias so prev :
  header_known h -> object_read h prev so -> try_into_subgroup (object_of h alias so) = Ok so.
Proof.
  intros [_ Hsg _ _] [[_ _ Hc] _ Hst _]. unfold try_into_subgroup, object_of. cbn.
  destruct (sh_subgroup_id h); [|done]. destruct so as [id ps [[]|] [pl|]]; simpl in *; done.
Qed.

Lemma object_ready h prev so :
  object_read h prev so -> (forall p, prev = Some p -> 0 <= p) ->
  so_ready prev (hp h) so /\ so_wire (hp h) so = so /\ is_some (so_properties so) = hp h.
Proof.
  intros [[Hid Hps Hc] Hlist Hst Haf] Hpos. split_and!.
  - split; [done|by intros p Hp; split; auto|done| |].
    + intros E. destruct (so_properties so); [destruct Hps; congruence|done].
    + destruct (so_payload so); [|done]. by destruct (so_status so); [|destruct Hc].
  - destruct so as [id ps st pl]. unfold so_wire. simpl in *.
    destruct ps as [ps|]; [destruct Hps as (->&_&Hs); simpl; rewrite sort_by_key_id by done|rewrite Hps].
    all: destruct pl as [[|b l]|], st; try done; simpl in *; destruct Hc; ulia.
  - destruct (so_properties so); [by destruct Hps as [-> _]|by rewrite Hps].
Qed.

Section Writes.
Context `{Target}.

Lemma write_objects_snoc b sos so wb bs : forall prev,
  write_objects b prev sos = Ok wb ->
  SubgroupObject_serialize so (match sos with [] => prev | _ => last_id sos end) b = Ok bs ->
  write_objects b prev (sos ++ [so]) = Ok (wb ++ bs).
Proof.
  revert wb. induction sos as [|o sos IH]; intros wb prev Hw Hb.
  - injection Hw as <-. simpl in *. rewrite Hb. simpl. by rewrite app_nil_r.
  - simpl in Hw. apply obind_Ok_inv in Hw as (x & Ex & Hw). apply obind_Ok_inv in Hw as (y & Ey & Hw). injection Hw as <-.
    cbn [app write_objects]. rewrite Ex. cbn [obind]. rewrite (IH y).
    + cbn [obind]. by rewrite app_assoc.
    + done.
    + unfold last_id in *. by destruct sos.
Qed.
Lemma objects_ready_snoc b sos so : forall prev,
  objects_ready b prev sos -> so_ready (match sos with [] => prev | _ => last_id sos end) b so ->
  objects_ready b prev (sos ++ [so]).
Proof.
  induction sos as [|o sos IH]; intros prev Hr Ho; simpl in *; [done|]. destruct Hr as [H1 H2]. split; [done|].
  apply IH; [done|]. unfold last_id in *. by destruct sos.
Qed.

(** The header a stream starts with: the publisher's, or the one for the middle
    of the subgroup. *)
Definition opening (mid : bool) (h : SubgroupHeader) : SubgroupHeader :=
  if mid then for_mid_subgroup_stream h else h.

Definition with_header_alias (alias : Z) (h : SubgroupHeader) : SubgroupHeader :=
  mkSubgroupHeader (header_type h) alias (sh_group_id h) (sh_subgroup_id h) (sh_publisher_priority h).

Lemma serialize_alias h alias : SubgroupHeader_serialize h (Some alias) = SubgroupHeader_serialize (with_header_alias alias h) None.
Proof. done. Qed.

Lemma opening_fields mid h : header_known h ->
  sh_ready (opening mid h) /\ hp (opening mid h) = hp h /\ sh_group_id (opening mid h) = sh_group_id h /\
  sh_subgroup_id (opening mid h) = sh_subgroup_id h /\ sh_publisher_priority (opening mid h) = sh_publisher_priority h /\
  sht_has_default_priority (header_type (opening mid h)) = sht_has_default_priority (header_type h) /\
  (mid = true -> subgroup_id_mode (header_type (opening mid h)) <> SIM_FirstObjectId) /\
  (subgroup_id_mode (header_type (opening mid h)) = SIM_Zero -> sh_subgroup_id h = Some 0).
Proof.
  intros [Hr Hsg Hz Hd]. destruct mid; [|by split_and!]. destruct Hr as [Ht Hal Hg Hs Hp He Hdp].
  unfold opening, for_mid_subgroup_stream, hp. destruct (sh_subgroup_id h) as [sg|] eqn:Esg; [|done]. cbn [is_some is_none negb].
  set (mode := match subgroup_id_mode (header_type h) with SIM_FirstObjectId => SIM_Explicit | m => m end).
  destruct (flags_from_properties (sht_has_properties (header_type h)) mode
    (contains_end_of_group (header_type h)) (sht_has_default_priority (header_type h)) false) as (F1&F2&F3&F4&F5).
  cbn [header_type sh_group_id sh_subgroup_id sh_publisher_priority]. rewrite F1, F2, F4. split_and!; try done.
  - split; simpl; rewrite ?F4; try done. by repeat eexists.
  - intros _. unfold mode. by destruct (subgroup_id_mode (header_type h)).
  - unfold mode. destruct (subgroup_id_mode (header_type h)) eqn:Em; done.
Qed.

Lemma opening_serialized mid h alias : header_known h -> is_u64 alias ->
  exists hb, SubgroupHeader_serialize (opening mid h) (Some alias) = Ok hb.
Proof.
  intros Hk Ha. destruct (opening_fields mid h Hk) as (Hr & _).
  destruct (SubgroupHeader_transmits _ (Some alias) Hr Ha) as (hb & E & _). by exists hb.
Qed.

(** Reading a stream back gives the objects as the relay had them, under the
    subscription's alias. *)
Lemma stream_read pending mid h alias sos hb wb chunks :
  header_known h -> is_u64 alias ->
  (mid = false -> subgroup_id_mode (header_type h) = SIM_FirstObjectId -> sh_subgroup_id h = so_object_id <$> head sos) ->
  SubgroupHeader_serialize (opening mid h) (Some alias) = Ok hb ->
  write_objects (hp h) None sos = Ok wb -> objects_ready (hp h) None sos ->
  (forall so, so ∈ sos -> so_wire (hp h) so = so) ->
  Forall bytes_ok chunks -> concat chunks = hb ++ wb ->
  exists st, read pending chunks = (st, Ok tt) /\ items st = map (fun so => DI_Object (object_of h alias so)) sos.
Proof.
  intros Hk Ha Hfirst Eh Ew Hr Hwire Hc Hcat.
  destruct (opening_fields mid h Hk) as (Hrd & Ehp & Eg & Esg & Epr & Edef & Hmid & Hz).
  set (h1 := with_header_alias alias (opening mid h)). rewrite serialize_alias in Eh. fold h1 in Eh.
  assert (Hr1 : sh_ready h1) by (destruct Hrd; by split).
  assert (Ehp1 : sht_has_properties (header_type h1) = hp h) by done.
  destruct (subgroup_bytes_read pending h1 sos hb wb chunks Hr1 Eh) as (st & E & Ei & _); rewrite ?Ehp1; try done.
  exists st. split; [done|]. rewrite Ei. apply map_ext_in. intros so Hso%list_elem_of_In.
  assert (Eres : resolved (sh_wire None h1) sos =
            mkSubgroupHeader (header_type h1) alias (sh_group_id h) (sh_subgroup_id h) (sh_publisher_priority h)).
  { destruct sos as [|s0 sos]; [by apply elem_of_nil in Hso|]. cbn [resolved].
    assert (Ep : (if sht_has_default_priority (header_type h1) then None else sh_publisher_priority h1) = sh_publisher_priority h).
    { change (header_type h1) with (header_type (opening mid h)). rewrite Edef.
      change (sh_publisher_priority h1) with (sh_publisher_priority (opening mid h)). rewrite Epr.
      destruct (sht_has_default_priority (header_type h)) eqn:Ed; [|done]. symmetry. by apply (hk_default _ Hk). }
    unfold resolve_header, awaiting_subgroup_id, sh_wire. cbn [header_type sh_track_alias sh_group_id sh_subgroup_id sh_publisher_priority].
    rewrite Ep. change (sh_group_id h1) with (sh_group_id (opening mid h)). rewrite Eg.
    change (sh_subgroup_id h1) with (sh_subgroup_id (opening mid h)). rewrite Esg.
    change (header_type h1) with (header_type (opening mid h)). unfold subgroup_id_is_first_object_id.
    destruct (subgroup_id_mode (header_type (opening mid h))) eqn:Em; simpl.
    - by rewrite Hz.
    - destruct mid; [by destruct Hmid|]. by rewrite Hfirst.
    - destruct (sh_subgroup_id h) eqn:E'; [done|]. by destruct (hk_subgroup _ Hk). }
  unfold subgroup_item. rewrite Eres. cbn [header_type]. rewrite Ehp1, (Hwire so) by done. done.
Qed.
End Writes.

(** * Delivery *)

#[export] Instance object_verdict_eq_dec : EqDecision object_verdict.
Proof. solve_decision. Defined.

(** States that check objects and set priorities the same way. *)
Record same_checks (s s' : SubscriptionState) : Prop := {
  sc_start : start s' = start s;
  sc_end_group : end_group s' = end_group s;
  sc_end_object : end_object s' = end_object s;
  sc_forward : forward s' = forward s;
  sc_range : range_filter s' = range_filter s;
  sc_soft : soft_suspended s' = soft_suspended s;
  sc_priority : subscriber_priority s' = subscriber_priority s;
  sc_order : group_order s' = group_order s
}.
Lemma same_checks_refl s : same_checks s s.
Proof. by split. Qed.
Lemma same_checks_received s s' l : same_checks s s' -> same_checks s (update_last_received_object_location s' l).
Proof. intros []. unfold update_last_received_object_location. destruct (move_on _ _ _). by split. Qed.
Lemma same_checks_sent s s' l : same_checks s s' -> same_checks s (update_last_sent_max_location s' l).
Proof. intros []. unfold update_last_sent_max_location. destruct (move_on _ _ _). by split. Qed.
Lemma same_check_object s s' o : same_checks s s' -> check_object s' o = check_object s o.
Proof. intros [E1 E2 E3 E4 E5]. unfold check_object, is_past_end. by rewrite E1, E2, E3, E4, E5. Qed.

Lemma past_end_mono s g i j : is_past_end s (mkLocation g i) = true -> i < j -> is_past_end s (mkLocation g j) = true.
Proof.
  unfold is_past_end. destruct (end_group s) as [eg|]; [|done]. cbn [Common.group Common.object]. intros H Hij.
  destruct (eg <? g); [done|]. cbn [orb] in *. destruct (g =? eg); [|done]. cbn [andb] in *.
  destruct (end_object s) as [eo|]; [|done]. apply Z.ltb_lt in H. apply Z.ltb_lt. lia.
Qed.

Section Delivery.
Variable opens : nat -> bool.
Variable write_all : nat -> bytes -> bytes -> option TransportWriteError.
Variable sends_datagram : bytes -> bool.
Variable responds : Z -> bool.
Context `{Target} `{Closing}.
(** A transport that takes everything. *)
Hypothesis all_open : forall n, opens n = true.
Hypothesis all_written : forall n b b', write_all n b b' = None.

Variable gate : Z -> bool.
Variable request_id : Z.
Variable relay : Z.
Variable alias : Z.
Hypothesis alias_u64 : is_u64 alias.
(** The state of the subscription, which no update or switch changes. *)
Variable s0 : SubscriptionState.
Hypothesis not_draining : soft_suspended s0 = false.

Definition key (s : StreamId) : SendStreamKey := mkSendStreamKey request_id s.

(** The objects the subscriber is to get. *)
Definition passes (h : SubgroupHeader) (so : SubgroupObject) : bool :=
  gate (sh_group_id h) && bool_decide (check_object s0 (object_of h alias so) = V_Passes).
Definition passing (h : SubgroupHeader) (sos : list SubgroupObject) : list SubgroupObject := List.filter (passes h) sos.
(** The first object of the subgroup is not one of them. *)
Definition joins_mid (h : SubgroupHeader) (sos : list SubgroupObject) : bool :=
  match sos with so :: _ => negb (passes h so) | [] => false end.
(** The stream starts with the header for the middle of a subgroup. *)
Definition starts_mid (f : Fed) : bool := fed_joined f || joins_mid (fed_header f) (fed_objects f).
Definition stream_priority (h : SubgroupHeader) : Z :=
  compute_stream_priority (subscriber_priority s0) (default DEFAULT_PUBLISHER_PRIORITY (sh_publisher_priority h))
    (group_order s0) (sh_group_id h).

Definition of_key (k : SendStreamKey) (c : Client) (n : nat) (x : SentStream) : Prop :=
  streams c !! n = Some x /\ ss_key x = k.

Lemma passing_cons_ne h sos : passing h sos <> [] -> sos <> [].
Proof. by destruct sos. Qed.
Lemma starts_mid_snoc h sos so j : passing h sos <> [] ->
  starts_mid (mkFed h (sos ++ [so]) false j) = starts_mid (mkFed h sos false j).
Proof. by destruct sos. Qed.
Record idle (c : Client) (sub : Subscription) (s : StreamId) : Prop := {
  idle_map : send_streams c !! key s = None;
  idle_ids : send_stream_last_object_ids sub !! s = None;
  idle_none : forall n x, ~ of_key (key s) c n x
}.
(** No later object of the subgroup passes. *)
Definition dead (h : SubgroupHeader) (sos : list SubgroupObject) : Prop :=
  gate (sh_group_id h) = false \/ forward s0 = false \/
  exists so, so ∈ sos /\ is_past_end s0 (mkLocation (sh_group_id h) (so_object_id so)) = true.
Record streaming (c : Client) (sub : Subscription) (s : StreamId) (f : Fed) (n : nat) (x : SentStream) : Prop := {
  st_of_key : of_key (key s) c n x;
  st_only : forall n' x', of_key (key s) c n' x' -> n' = n;
  st_bytes : exists hb wb, SubgroupHeader_serialize (opening (starts_mid f) (fed_header f)) (Some alias) = Ok hb /\
    write_objects (hp (fed_header f)) None (passing (fed_header f) (fed_objects f)) = Ok wb /\ ss_bytes x = hb ++ wb;
  st_ready : objects_ready (hp (fed_header f)) None (passing (fed_header f) (fed_objects f));
  st_priority : ss_priority x = stream_priority (fed_header f);
  st_end : ss_end x = if fed_closed f then closed_with n (ss_bytes x) else SE_Open;
  st_map : send_streams c !! key s = if fed_closed f then None else Some n;
  st_ids : send_stream_last_object_ids sub !! s =
    if fed_closed f then None else Some (last_id (passing (fed_header f) (fed_objects f)))
}.
Definition at_ok (c : Client) (sub : Subscription) (s : StreamId) (f : option Fed) : Prop :=
  match f with
  | None => idle c sub s /\ skipped_stream_headers sub !! s = None
  | Some f =>
      (passing (fed_header f) (fed_objects f) = [] /\ idle c sub s /\
       (fed_closed f = false -> skipped_stream_headers sub !! s = Some (HI_Subgroup (fed_header f)) \/
          (fed_joined f = true /\ skipped_stream_headers sub !! s = None) \/
          dead (fed_header f) (fed_objects f))) \/
      (passing (fed_header f) (fed_objects f) <> [] /\ exists n x, streaming c sub s f n x)
  end.

Definition opened (c : Client) : list SentStream :=
  List.filter (fun x => ssk_request_id (ss_key x) =? request_id) (streams c).

Record delivery_ok (c : Client) (sub : Subscription) (m : gmap StreamId Fed) : Prop := {
  do_at : forall s, at_ok c sub s (m !! s);
  do_state : same_checks s0 (subscription_state sub);
  do_track : relay_track_id sub = relay;
  do_alias : track_alias sub = alias;
  do_switch : pending_switch sub = false;
  do_count : opened_stream_count sub = wrap64 (Z.of_nat (length (opened c)))
}.

(** ** What is known of the feed *)

Record fed_ok (s : StreamId) (f : Fed) : Prop := {
  fo_sid : s = sid relay (fed_header f);
  fo_header : header_known (fed_header f);
  fo_some : fed_objects f <> [];
  fo_read : forall so, so ∈ fed_objects f -> object_read (fed_header f) None so;
  fo_last : forall so p, so ∈ fed_objects f -> last_id (fed_objects f) = Some p -> so_object_id so <= p;
  fo_first : fed_joined f = false -> subgroup_id_mode (header_type (fed_header f)) = SIM_FirstObjectId ->
    sh_subgroup_id (fed_header f) = so_object_id <$> head (fed_objects f)
}.

Lemma last_id_snoc sos so : last_id (sos ++ [so]) = Some (so_object_id so).
Proof. unfold last_id. by rewrite last_snoc. Qed.
Lemma object_read_any h prev so : object_read h prev so -> object_read h None so.
Proof. intros []. by split. Qed.
Lemma last_id_none sos : last_id sos = None -> sos = [].
Proof. unfold last_id. destruct (last sos) eqn:E; [done|]. by apply last_None in E. Qed.
Lemma last_id_of sos p : last_id sos = Some p -> exists so, so ∈ sos /\ so_object_id so = p.
Proof.
  unfold last_id. destruct (last sos) as [so|] eqn:E; [|done]. intros [= <-]. exists so. split; [|done].
  by apply last_Some_elem_of.
Qed.

Lemma fed_ok_single h so j : header_known h -> object_read h None so ->
  (j = false -> subgroup_id_mode (header_type h) = SIM_FirstObjectId -> sh_subgroup_id h = Some (so_object_id so)) ->
  fed_ok (sid relay h) (mkFed h [so] false j).
Proof.
  intros Hk Ho Hfirst. split; cbn [fed_header fed_objects fed_closed fed_joined]; try done.
  - by intros so' ->%list_elem_of_singleton.
  - intros so' p ->%list_elem_of_singleton [= <-]. lia.
Qed.

Lemma fed_each evs m s f : fed relay evs m -> m !! s = Some f -> fed_ok s f.
Proof.
  intros Hf. revert s f. induction Hf as [|evs m h so a Hf IH Hn Hk Ho Hfirst|evs m h so a Hf IH Hn Hk Ho|evs m h sos so a j Hf IH Hm Ho|
      evs m h sos j Hf IH Hm|evs m s' Hf IH Hn|evs m d Hf IH];
    intros s f Hs; [by rewrite lookup_empty in Hs| | | | |by apply IH|by apply IH];
    (destruct (decide (s = sid relay h)) as [->|Hne]; [|rewrite lookup_insert_ne in Hs by done; by apply IH]);
    rewrite lookup_insert_eq in Hs; injection Hs as <-.
  - by apply fed_ok_single.
  - by apply fed_ok_single.
  - destruct (IH _ _ Hm) as [H1 H2 H3 H4 H5 H6]. cbn [fed_header fed_objects fed_closed fed_joined] in *. split; cbn [fed_header fed_objects fed_closed fed_joined]; try done.
    + by destruct sos.
    + intros so' [?| ->%list_elem_of_singleton]%elem_of_app; [by apply H4|by eapply object_read_any].
    + intros so' p Hin. rewrite last_id_snoc. intros [= <-]. apply elem_of_app in Hin as [Hin| ->%list_elem_of_singleton]; [|lia].
      destruct (last_id sos) as [q|] eqn:El.
      * pose proof (H5 so' q Hin eq_refl). pose proof (or_after _ _ _ Ho q eq_refl). lia.
      * unfold last_id in El. destruct (last sos) eqn:E; [done|]. apply last_None in E. by subst.
    + intros Hj Hm'. rewrite H6 by done. by destruct sos.
  - destruct (IH _ _ Hm) as [H1 H2 H3 H4 H5 H6]. by split.
Qed.

(** ** What the steps leave alone *)

Record frame (c : Client) (sub : Subscription) (c' : Client) (sub' : Subscription) (s : StreamId) : Prop := {
  fr_map : forall s', s' <> s -> send_streams c' !! key s' = send_streams c !! key s';
  fr_ids : forall s', s' <> s -> send_stream_last_object_ids sub' !! s' = send_stream_last_object_ids sub !! s';
  fr_skipped : forall s', s' <> s -> skipped_stream_headers sub' !! s' = skipped_stream_headers sub !! s';
  fr_streams : forall n x s', s' <> s -> of_key (key s') c n x <-> of_key (key s') c' n x
}.
Lemma frame_at_ok c sub c' sub' s s' f : frame c sub c' sub' s -> s' <> s -> at_ok c sub s' f -> at_ok c' sub' s' f.
Proof.
  intros [Hm Hi Hk Hs] Hne.
  assert (Hidle : idle c sub s' -> idle c' sub' s').
  { intros [H1 H2 H3]. split; [by rewrite Hm|by rewrite Hi|]. intros n x. rewrite <- Hs by done. apply H3. }
  unfold at_ok. destruct f as [f|]; [|intros [Hid Hsk]; split; [by apply Hidle|by rewrite Hk]]. intros [(Hp & Hid & Hsk)|(Hp & n & x & [H1 H2 H3 H4 H5 H6 H7 H8])].
  - left. split_and!; [done|by apply Hidle|]. by rewrite Hk.
  - right. split; [done|]. exists n, x. split; try done; [by apply Hs| |by rewrite Hm|by rewrite Hi].
    intros n' x'. rewrite <- Hs by done. apply H2.
Qed.

(** ** Writing *)

Lemma append_last l k p b b' : append (l ++ [mkSentStream k p b SE_Open]) (length l) b' = l ++ [mkSentStream k p (b ++ b') SE_Open].
Proof. unfold append. replace (length l) with (length l + 0)%nat by lia. by rewrite alter_app_r. Qed.

Lemma alter_filter_length (f : SentStream -> SentStream) (p : SentStream -> bool) n l :
  (forall x, p (f x) = p x) -> length (List.filter p (alter f n l)) = length (List.filter p l).
Proof.
  intros Hp. revert n. induction l as [|x l IH]; intros [|n]; simpl; try done.
  - rewrite Hp. by destruct (p x).
  - destruct (p x); simpl; [f_equal|]; apply (IH n).
Qed.

Lemma opened_new c x m' : ssk_request_id (ss_key x) = request_id ->
  length (opened (set_streams c (streams c ++ [x]) m')) = S (length (opened c)).
Proof.
  intros Hx. unfold opened. simpl. rewrite List.filter_app, length_app. simpl. rewrite Hx, Z.eqb_refl. simpl. lia.
Qed.

Lemma wrap_count n : wrap64 (wrap64 (Z.of_nat n) + 1) = wrap64 (Z.of_nat (S n)).
Proof. unfold wrap64. rewrite Zplus_mod_idemp_l. f_equal. lia. Qed.

Lemma handle_header_new c sub h mid :
  header_known h -> send_streams c !! key (sid relay h) = None ->
  relay_track_id sub = relay -> track_alias sub = alias -> same_checks s0 (subscription_state sub) ->
  exists hb, SubgroupHeader_serialize (opening mid h) (Some alias) = Ok hb /\
    handle_header opens write_all c request_id sub (HI_Subgroup (opening mid h)) =
    Ok (set_streams c (streams c ++ [mkSentStream (key (sid relay h)) (stream_priority h) hb SE_Open])
          (<[key (sid relay h) := length (streams c)]> (send_streams c)),
        with_count sub (wrap64 (opened_stream_count sub + 1)), Some (sid relay h, length (streams c))).
Proof.
  intros Hk Hnone Hr Ha Hs. destruct (opening_fields mid h Hk) as (_ & _ & Eg & Esg & Ep & _).
  destruct (opening_serialized mid h alias Hk alias_u64) as [hb E]. exists hb. split; [done|].
  unfold handle_header, header_payload. rewrite Hr, Ha, E. cbn [build_stream_id]. rewrite Eg, Esg, Ep.
  rewrite (sc_priority _ _ Hs), (sc_order _ _ Hs). unfold open_stream. change (new_send_stream_key request_id ?x) with (key x).
  change (new_subgroup relay (sh_group_id h) (sh_subgroup_id h)) with (sid relay h). rewrite Hnone, all_open, all_written.
  by rewrite append_last.
Qed.

Lemma handle_object_writes c h so prev s n :
  header_known h -> object_read h prev so -> (forall p, prev = Some p -> 0 <= p) ->
  exists b, SubgroupObject_serialize so prev (hp h) = Ok b /\
    handle_object write_all c request_id (object_of h alias so) prev s n =
    Ok (set_streams c (append (streams c) n b) (send_streams c), true).
Proof.
  intros Hk Ho Hp. destruct (object_ready h prev so Ho Hp) as (Hr & _ & Ehp).
  destruct (SubgroupObject_transmits prev (hp h) so Hr) as (b & E & _). exists b. split; [done|].
  unfold handle_object. rewrite (object_into_subgroup h alias so prev) by done. rewrite Ehp, E.
  unfold write_stream_object. by rewrite all_written.
Qed.

(** ** One event *)

Definition off (sub sub' : Subscription) (s : StreamId) : Prop :=
  forall s', s' <> s -> send_stream_last_object_ids sub' !! s' = send_stream_last_object_ids sub !! s' /\
    skipped_stream_headers sub' !! s' = skipped_stream_headers sub !! s'.
Definition same_sub (sub' : Subscription) : Prop :=
  same_checks s0 (subscription_state sub') /\ relay_track_id sub' = relay /\ track_alias sub' = alias /\ pending_switch sub' = false.

Lemma delivery_frame c sub m c' sub' s f :
  delivery_ok c sub m -> frame c sub c' sub' s -> at_ok c' sub' s (Some f) -> same_sub sub' ->
  opened_stream_count sub' = wrap64 (Z.of_nat (length (opened c'))) ->
  delivery_ok c' sub' (<[s := f]> m).
Proof.
  intros [Hat _ _ _ _ _] Hf Ha (Hs & Hr & Hal & Hsw) Hc. split; try done. intros s'. destruct (decide (s' = s)) as [->|Hne].
  - by rewrite lookup_insert_eq.
  - rewrite lookup_insert_ne by done. by apply (frame_at_ok c sub c' sub' s).
Qed.

(** Nothing written. *)
Lemma deliver_none c sub m sub' s f :
  delivery_ok c sub m -> off sub sub' s -> same_sub sub' -> opened_stream_count sub' = opened_stream_count sub ->
  at_ok c sub' s (Some f) -> delivery_ok c sub' (<[s := f]> m).
Proof.
  intros Hd Hoff Hs Hc Ha. apply (delivery_frame c sub m c sub' s f Hd); try done.
  - split; try done; intros s' Hne; apply (Hoff s' Hne).
  - by rewrite Hc, (do_count _ _ _ Hd).
Qed.

(** The first object written on its stream. *)
Lemma deliver_new c sub m sub' h sos so hb b j :
  let s := sid relay h in
  delivery_ok c sub m -> idle c sub s -> off sub sub' s -> same_sub sub' ->
  opened_stream_count sub' = wrap64 (opened_stream_count sub + 1) ->
  send_stream_last_object_ids sub' !! s = Some (Some (so_object_id so)) ->
  passing h sos = [so] -> SubgroupHeader_serialize (opening (j || joins_mid h sos) h) (Some alias) = Ok hb ->
  SubgroupObject_serialize so None (hp h) = Ok b -> so_ready None (hp h) so ->
  delivery_ok
    (set_streams c (streams c ++ [mkSentStream (key s) (stream_priority h) (hb ++ b) SE_Open])
       (<[key s := length (streams c)]> (send_streams c)))
    sub' (<[s := mkFed h sos false j]> m).
Proof.
  intros s Hd [Hm Hi Hn] Hoff Hs Hc Hids Hp Eh Eb Hr.
  assert (Hk : forall s', s' <> s -> key s' <> key s) by (intros s' Hne [= E]; done).
  apply (delivery_frame c sub m _ sub' s _ Hd).
  - split; [intros s' Hne; simpl; by rewrite lookup_insert_ne by (intros E; by apply (Hk s'))|apply Hoff; done|apply Hoff; done|].
    intros n x s' Hne. unfold of_key. simpl. split; intros [Hx Ek].
    + split; [|done]. rewrite lookup_app_l; [done|]. by apply lookup_lt_Some in Hx.
    + split; [|done]. apply lookup_snoc_Some in Hx as [[_ Hx]|[_ <-]]; [done|]. by destruct (Hk s' Hne).
  - right. cbn [fed_header fed_objects]. rewrite Hp. split; [done|]. exists (length (streams c)). eexists. split; cbn [fed_header fed_objects fed_closed fed_joined].
    + split; [simpl; rewrite lookup_app_r, Nat.sub_diag by lia; done|done].
    + intros n' x' [Hx' Ek]. simpl in Hx'. apply lookup_snoc_Some in Hx' as [[_ Hx']|[-> _]]; [|done]. by destruct (Hn n' x').
    + exists hb, b. rewrite Hp. split_and!; [done| |done]. simpl. rewrite Eb. simpl. by rewrite app_nil_r.
    + rewrite Hp. by split.
    + done.
    + done.
    + simpl. by rewrite lookup_insert_eq.
    + by rewrite Hids, Hp.
  - done.
  - rewrite opened_new by done. rewrite Hc, (do_count _ _ _ Hd). apply wrap_count.
Qed.

Lemma alter_lookup (f : SentStream -> SentStream) (l : list SentStream) (n : nat) x n' y : l !! n = Some x ->
  alter f n l !! n' = Some y <-> (n' = n /\ y = f x) \/ (n' <> n /\ l !! n' = Some y).
Proof.
  intros Hx. destruct (decide (n' = n)) as [->|Hn].
  - rewrite list_lookup_alter_eq, Hx. simpl. split; [intros [= <-]; by left|]. by intros [[_ ->]|[? _]].
  - rewrite list_lookup_alter_ne by done. split; [by right|]. by intros [[? _]|[_ ?]].
Qed.

(** One more object on its stream. *)
Lemma deliver_more c sub m sub' h sos so n x b j :
  let s := sid relay h in
  delivery_ok c sub m -> streaming c sub s (mkFed h sos false j) n x -> off sub sub' s -> same_sub sub' ->
  opened_stream_count sub' = opened_stream_count sub ->
  send_stream_last_object_ids sub' !! s = Some (Some (so_object_id so)) ->
  passing h sos <> [] -> passes h so = true ->
  SubgroupObject_serialize so (last_id (passing h sos)) (hp h) = Ok b -> so_ready (last_id (passing h sos)) (hp h) so ->
  delivery_ok (set_streams c (append (streams c) n b) (send_streams c)) sub' (<[s := mkFed h (sos ++ [so]) false j]> m).
Proof.
  intros s Hd [[Hx Ek] Ho (hb & wb & Eh & Ew & Ebytes) Hr Hpr He Hm Hi] Hoff Hs Hc Hids Hne Hso Eb Hrso.
  cbn [fed_header fed_objects fed_closed fed_joined] in *.
  assert (Hk : forall s', s' <> s -> key s' <> key s) by (intros s' Hs' [= E]; done).
  assert (Hp : passing h (sos ++ [so]) = passing h sos ++ [so]) by (unfold passing; rewrite List.filter_app; simpl; by rewrite Hso).
  set (x' := mkSentStream (ss_key x) (ss_priority x) (ss_bytes x ++ b) (ss_end x)).
  assert (Hal : forall n' y, append (streams c) n b !! n' = Some y <-> (n' = n /\ y = x') \/ (n' <> n /\ streams c !! n' = Some y))
    by (intros n' y; exact (alter_lookup _ (streams c) n x n' y Hx)).
  apply (delivery_frame c sub m _ sub' s _ Hd).
  - split; [done|apply Hoff; done|apply Hoff; done|]. intros n' y s' Hs'. unfold of_key. simpl. rewrite Hal. split.
    + intros [Hy Ey]. split; [|done]. right. split; [|done]. intros ->. rewrite Hx in Hy. injection Hy as ->. apply (Hk s' Hs'). congruence.
    + intros [[[-> ->]|[_ Hy]] Ey]; [|done]. exfalso. apply (Hk s' Hs'). simpl in Ey. congruence.
  - right. cbn [fed_header fed_objects]. rewrite Hp. split; [by destruct (passing h sos)|]. exists n, x'.
    assert (Ej : starts_mid (mkFed h (sos ++ [so]) false j) = starts_mid (mkFed h sos false j)) by by apply starts_mid_snoc.
    split; cbn [fed_header fed_objects fed_closed fed_joined]; rewrite ?Hp, ?Ej.
    + split; [apply Hal; by left|done].
    + intros n' y [Hy Ey]. simpl in Hy. apply Hal in Hy as [[-> _]|[_ Hy]]; [done|]. by apply (Ho n' y).
    + exists hb, (wb ++ b). split_and!; [done| |simpl; by rewrite Ebytes, app_assoc].
      apply write_objects_snoc; [done|]. destruct (passing h sos); [done|]. exact Eb.
    + apply objects_ready_snoc; [done|]. destruct (passing h sos); [done|]. exact Hrso.
    + done.
    + done.
    + done.
    + by rewrite Hids, last_id_snoc.
  - done.
  - unfold opened. simpl. unfold append. rewrite alter_filter_length by done. by rewrite Hc, (do_count _ _ _ Hd).
Qed.

Lemma check_past_end s o : check_object s o = V_PastEnd -> is_past_end s (obj_location o) = true.
Proof.
  unfold check_object. destruct (match start s with Some _ => _ | None => _ end); [done|].
  destruct (is_past_end s (obj_location o)); [done|]. destruct (negb (forward s)); [done|]. by destruct (negb _).
Qed.
Lemma check_not_forwarding s o : check_object s o = V_NotForwarding -> forward s = false.
Proof.
  unfold check_object. destruct (match start s with Some _ => _ | None => _ end); [done|].
  destruct (is_past_end s (obj_location o)); [done|]. destruct (forward s); [|done]. simpl. by destruct (negb _).
Qed.
Lemma check_passes s o : check_object s o = V_Passes -> is_past_end s (obj_location o) = false /\ forward s = true.
Proof.
  unfold check_object. destruct (match start s with Some _ => _ | None => _ end); [done|].
  destruct (is_past_end s (obj_location o)); [done|]. by destruct (forward s).
Qed.
Lemma passes_true h so : passes h so = true <-> gate (sh_group_id h) = true /\ check_object s0 (object_of h alias so) = V_Passes.
Proof. unfold passes. by rewrite andb_true_iff, bool_decide_eq_true. Qed.
Lemma passes_false h so : gate (sh_group_id h) = true -> check_object s0 (object_of h alias so) <> V_Passes -> passes h so = false.
Proof. intros Hg Hc. unfold passes. by rewrite Hg, bool_decide_false. Qed.
Lemma dead_passes h sos so p : dead h sos -> last_id sos = Some p -> (forall so', so' ∈ sos -> so_object_id so' <= p) ->
  p < so_object_id so -> passes h so = true -> False.
Proof.
  intros Hd Hl Hle Hp [Hg Hc]%passes_true. apply check_passes in Hc as [He Hf]. destruct Hd as [Hd|[Hd|(so' & Hin & Hpast)]]; [congruence..|].
  change (obj_location (object_of h alias so)) with (mkLocation (sh_group_id h) (so_object_id so)) in He.
  rewrite (past_end_mono s0 (sh_group_id h) (so_object_id so') (so_object_id so)) in He; [done|done|].
  specialize (Hle so' Hin). lia.
Qed.
Lemma dead_not_passes h sos so : dead h sos -> (forall so' p, so' ∈ sos -> last_id sos = Some p -> so_object_id so' <= p) ->
  (forall p, last_id sos = Some p -> p < so_object_id so) -> passes h so <> true.
Proof.
  intros Hd Hle Hlt Hp. destruct (last_id sos) as [p|] eqn:El.
  - apply (dead_passes h sos so p Hd El); [|by apply Hlt|done]. intros so' Hin. by apply (Hle so' p).
  - apply last_id_none in El. subst. apply passes_true in Hp as [Eg Ec]. apply check_passes in Ec as [_ Ef].
    destruct Hd as [Hd|[Hd|(so' & Hin & _)]]; [congruence|congruence|by apply elem_of_nil in Hin].
Qed.
Lemma passing_snoc h sos so : passing h (sos ++ [so]) = passing h sos ++ (if passes h so then [so] else []).
Proof. unfold passing. rewrite List.filter_app. simpl. by destruct (passes h so). Qed.
Lemma passing_elem h sos so : so ∈ passing h sos <-> so ∈ sos /\ passes h so = true.
Proof. unfold passing. rewrite !list_elem_of_In. apply List.filter_In. Qed.
Lemma dead_snoc h sos so : dead h sos -> dead h (sos ++ [so]).
Proof. intros [?|[?|(x & ? & ?)]]; [by left|by right; left|]. right. right. exists x. set_solver. Qed.

Definition received (sub : Subscription) (l : Location) : Subscription :=
  with_state sub (update_last_received_object_location (subscription_state sub) l).

Lemma same_sub_received sub l : same_sub sub -> same_sub (received sub l).
Proof. intros (Hs & ? & ? & ?). split_and!; try done. by apply same_checks_received. Qed.

(** The event of an object, seen from the outside: the new state, and the
    fields the task itself looks at unchanged. *)
Definition takes (r : panics (Client * Subscription * aftermath)) (sub : Subscription) (m : gmap StreamId Fed) : Prop :=
  exists c' sub', r = Ok (c', sub', A_Nothing) /\ delivery_ok c' sub' m /\ finished sub' = finished sub /\ event_rx sub' = event_rx sub /\
    pending_switch sub' = false.

Lemma same_sub_of c sub m : delivery_ok c sub m -> same_sub sub.
Proof. intros []. by split_and!. Qed.

(** An object that does not pass. *)
Lemma object_held_back c sub m h so sos hi active a j :
  let s := sid relay h in
  delivery_ok c sub m -> passes h so = false ->
  (forall sub', off sub sub' s -> send_stream_last_object_ids sub' = send_stream_last_object_ids sub -> same_sub sub' ->
     opened_stream_count sub' = opened_stream_count sub ->
     (hi = None -> skipped_stream_headers sub' !! s = skipped_stream_headers sub !! s) ->
     (hi <> None -> skipped_stream_headers sub' !! s = Some (HI_Subgroup h) \/ dead h (sos ++ [so])) ->
     at_ok c sub' s (Some (mkFed h (sos ++ [so]) false j))) ->
  (hi = None \/ hi = Some (HI_Subgroup h)) ->
  takes (handle_subgroup_object opens write_all c request_id sub active (gate (sh_group_id h)) s (object_of h a so) hi)
    sub (<[s := mkFed h (sos ++ [so]) false j]> m).
Proof.
  intros s Hd Hp Hat Hhi. pose proof (same_sub_of c sub m Hd) as Hs.
  unfold handle_subgroup_object. destruct Hs as (Hst & Hr & Hal & Hsw). rewrite Hal.
  change (with_alias alias (object_of h a so)) with (object_of h alias so).
  destruct (gate (sh_group_id h)) eqn:Eg; cbn [negb]; cycle 1.
  { exists c, sub. split_and!; try done. apply (deliver_none c sub m sub s); try done.
    apply Hat; try done. intros _. right. by left. }
  set (l := obj_location (object_of h alias so)). change (with_state sub (update_last_received_object_location (subscription_state sub) l)) with (received sub l).
  assert (Hs1 : same_sub (received sub l)) by by apply same_sub_received.
  rewrite (same_check_object s0) by apply Hs1.
  assert (Hskip : takes (Ok (c, save_skipped_header (received sub l) s hi, A_Nothing)) sub (<[s := mkFed h (sos ++ [so]) false j]> m)).
  { assert (Hoff : off sub (save_skipped_header (received sub l) s hi) s).
    { intros s' Hne. destruct Hhi as [->| ->]; simpl; [done|]. by rewrite lookup_insert_ne. }
    exists c, (save_skipped_header (received sub l) s hi). split_and!; try by destruct Hhi as [->| ->].
    apply (deliver_none c sub m _ s); try done; try by destruct Hhi as [->| ->].
    apply Hat; try done; try by destruct Hhi as [->| ->].
    destruct Hhi as [->| ->]; [done|]. intros _. left. simpl. by rewrite lookup_insert_eq. }
  assert (Hdead : forall sub', (sub' = received sub l \/ exists x, sub' = with_pending (received sub l) x) ->
            dead h (sos ++ [so]) -> takes (Ok (c, sub', A_Nothing)) sub (<[s := mkFed h (sos ++ [so]) false j]> m)).
  { intros sub' Hsub Hdd. exists c, sub'. assert (off sub sub' s /\ same_sub sub' /\ opened_stream_count sub' = opened_stream_count sub
      /\ skipped_stream_headers sub' = skipped_stream_headers sub /\ send_stream_last_object_ids sub' = send_stream_last_object_ids sub /\
      finished sub' = finished sub /\ event_rx sub' = event_rx sub /\ pending_switch sub' = false) as (Ho & Hss & Hc & Hk & Hi & Hf & He & Hps).
    { destruct Hsub as [->|[x ->]]; by split_and!. }
    split_and!; try done. apply (deliver_none c sub m _ s); try done. apply Hat; try done; [intros _; by rewrite Hk|by right]. }
  destruct (check_object s0 (object_of h alias so)) eqn:Ec; [done| | |done|].
  - destruct Hs1 as (Hst1 & _). rewrite (sc_soft _ _ Hst1), not_draining. apply Hdead; [by left|]. right. right. exists so.
    split; [set_solver|]. by apply check_past_end in Ec.
  - apply check_not_forwarding in Ec. destruct Hhi as [->| ->]; (apply Hdead; [|right; by left]); [by left|right; by eexists].
  - unfold passes in Hp. by rewrite Eg, Ec in Hp.
Qed.

(** An object that passes, once it has its stream. *)
Lemma object_passed c sub m h so prev a active hi c1 sub1 n m' :
  let s := sid relay h in
  let l := mkLocation (sh_group_id h) (so_object_id so) in
  delivery_ok c sub m -> passes h so = true -> header_known h -> object_read h prev so -> (forall p, prev = Some p -> 0 <= p) ->
  stream_for opens write_all c request_id (with_pending (received sub l) None) active s hi = Ok (c1, sub1, Some n) ->
  mjoin (send_stream_last_object_ids sub1 !! s) = prev ->
  same_sub sub1 -> finished sub1 = finished sub -> event_rx sub1 = event_rx sub ->
  (forall b sub2, SubgroupObject_serialize so prev (hp h) = Ok b -> same_sub sub2 ->
     send_stream_last_object_ids sub2 = <[s := Some (so_object_id so)]> (send_stream_last_object_ids sub1) ->
     skipped_stream_headers sub2 = skipped_stream_headers sub1 -> opened_stream_count sub2 = opened_stream_count sub1 ->
     delivery_ok (set_streams c1 (append (streams c1) n b) (send_streams c1)) sub2 m') ->
  takes (handle_subgroup_object opens write_all c request_id sub active (gate (sh_group_id h)) s (object_of h a so) hi) sub m'.
Proof.
  intros s l Hd Hp Hk Ho Hpos Estream Eprev Hs1 Hf He Hgo. pose proof (same_sub_of c sub m Hd) as (Hst & Hr & Hal & Hsw).
  unfold handle_subgroup_object. rewrite Hal. change (with_alias alias (object_of h a so)) with (object_of h alias so).
  apply passes_true in Hp as [Eg Ec]. rewrite Eg. cbn [negb]. change (obj_location (object_of h alias so)) with l.
  change (with_state sub (update_last_received_object_location (subscription_state sub) l)) with (received sub l).
  rewrite (same_check_object s0), Ec by by apply same_checks_received. rewrite Estream. cbn [obind].
  rewrite Eprev. destruct (handle_object_writes c1 h so prev s n Hk Ho Hpos) as (b & Eb & ->). cbn [obind].
  set (sub2 := with_ids sub1 _). set (sub3 := with_state sub2 _).
  assert (Hsw3 : pending_switch sub3 = false) by apply Hs1. rewrite Hsw3.
  eexists _, sub3. split; [done|]. split_and!; try done. apply (Hgo b); try done.
  destruct Hs1 as (? & ? & ? & ?). split_and!; try done. by apply same_checks_sent.
Qed.

Lemma off_insert sub sub' s (v : option Z) :
  send_stream_last_object_ids sub' = <[s := v]> (send_stream_last_object_ids sub) ->
  (forall s', s' <> s -> skipped_stream_headers sub' !! s' = skipped_stream_headers sub !! s') -> off sub sub' s.
Proof. intros E Hk s' Hne. rewrite E, lookup_insert_ne by done. by split; [|apply Hk]. Qed.

(** The first object of a stream. *)
Lemma first_object c sub m h so a active :
  let s := sid relay h in
  delivery_ok c sub m -> m !! s = None -> header_known h -> object_read h None so ->
  takes (handle_subgroup_object opens write_all c request_id sub active (gate (sh_group_id h)) s (object_of h a so) (Some (HI_Subgroup h)))
    sub (<[s := mkFed h [so] false false]> m).
Proof.
  intros s Hd Hm Hk Ho. pose proof (do_at _ _ _ Hd s) as Hidle. rewrite Hm in Hidle. destruct Hidle as [Hidle _].
  pose proof (same_sub_of c sub m Hd) as Hs. destruct (passes h so) eqn:Hp.
  - set (l := mkLocation (sh_group_id h) (so_object_id so)).
    destruct (handle_header_new c (with_pending (received sub l) None) h false Hk (idle_map _ _ _ Hidle)) as (hb & Eh & E);
      [apply Hs|apply Hs|by apply same_checks_received; apply Hs|].
    apply (object_passed c sub m h so None a active (Some (HI_Subgroup h))
      (set_streams c (streams c ++ [mkSentStream (key s) (stream_priority h) hb SE_Open]) (<[key s := length (streams c)]> (send_streams c)))
      (with_ids (with_count (with_pending (received sub l) None) (wrap64 (opened_stream_count sub + 1)))
         (<[s := None]> (send_stream_last_object_ids sub))) (length (streams c)) _ Hd Hp Hk Ho); try done.
    + change (opening false h) with h in E. unfold stream_for. cbv beta iota. fold l. by rewrite E.
    + simpl. by rewrite lookup_insert_eq.
    + by apply same_sub_received.
    + intros b sub2 Eb Hs2 Eids Eskip Ecount. simpl. rewrite append_last.
      apply (deliver_new c sub m sub2 h [so] so hb b false Hd Hidle); try done.
      * apply (off_insert _ _ _ (Some (so_object_id so))); [rewrite Eids; simpl; by rewrite insert_insert_eq|by rewrite Eskip].
      * by rewrite Eids, lookup_insert_eq.
      * unfold passing. simpl. by rewrite Hp.
      * unfold joins_mid. rewrite Hp. exact Eh.
      * by apply (object_ready h None so Ho).
  - apply (object_held_back c sub m h so [] (Some (HI_Subgroup h)) active a false Hd Hp); [|by right].
    intros sub' Hoff Hids Hs' Hc _ Hsk. left. cbn [fed_header fed_objects fed_closed fed_joined app]. split_and!.
    + unfold passing. simpl. by rewrite Hp.
    + destruct Hidle. by split; [|rewrite Hids|].
    + intros _. destruct (Hsk ltac:(done)); [by left|by right; right].
Qed.

(** An object without a header: one after the first, or the first one that a
    subscription gets of a subgroup it joins. *)
Lemma next_object c sub m h sos so a active j :
  let s := sid relay h in
  delivery_ok c sub m -> at_ok c sub s (Some (mkFed h sos false j)) -> header_known h ->
  (forall so', so' ∈ sos -> object_read h None so') ->
  (forall so' p, so' ∈ sos -> last_id sos = Some p -> so_object_id so' <= p) ->
  object_read h (last_id sos) so -> (j = true -> active !! s = Some (HI_Subgroup h)) -> (sos = [] -> j = true) ->
  takes (handle_subgroup_object opens write_all c request_id sub active (gate (sh_group_id h)) s (object_of h a so) None)
    sub (<[s := mkFed h (sos ++ [so]) false j]> m).
Proof.
  intros s Hd Hat Hk Hread Hle Ho Hact Hj0. cbn [at_ok fed_header fed_objects fed_closed fed_joined] in Hat.
  pose proof (same_sub_of c sub m Hd) as Hs.
  destruct (passes h so) eqn:Hp; cycle 1.
  - apply (object_held_back c sub m h so sos None active a j Hd Hp); [|by left].
    intros sub' Hoff Hids Hs' Hc Hsk _. destruct Hat as [(Hps & Hidle & Hdead)|(Hps & n & x & Hx)].
    + left. cbn [fed_header fed_objects fed_closed fed_joined]. split_and!.
      * rewrite passing_snoc, Hps. by rewrite Hp.
      * destruct Hidle. by split; [|rewrite Hids|].
      * intros _. rewrite (Hsk eq_refl). destruct (Hdead eq_refl) as [E'|[E'|E']]; [by left|by right; left|right; right; by apply dead_snoc].
    + right. assert (Hps' : passing h (sos ++ [so]) = passing h sos) by by rewrite passing_snoc, Hp, app_nil_r.
      assert (Hj : starts_mid (mkFed h (sos ++ [so]) false j) = starts_mid (mkFed h sos false j)) by by apply starts_mid_snoc.
      cbn [fed_header fed_objects fed_closed fed_joined]. rewrite Hps'. split; [done|]. exists n, x.
      destruct Hx as [H1 H2 H3 H4 H5 H6 H7 H8]. cbn [fed_header fed_objects fed_closed fed_joined] in *.
      split; cbn [fed_header fed_objects fed_closed fed_joined]; rewrite ?Hps', ?Hj; try done. by rewrite Hids.
  - set (l := mkLocation (sh_group_id h) (so_object_id so)). destruct Hat as [(Hps & Hidle & Hdead)|(Hps & n & x & Hx)].
    + assert (Hsk : (match skipped_stream_headers sub !! s with Some h => Some h | None => active !! s end) = Some (HI_Subgroup h)).
      { destruct (Hdead eq_refl) as [->|[[Hj ->]|Hdd]]; [done|by apply Hact|]. exfalso.
        apply (dead_not_passes h sos so Hdd); [|exact (or_after _ _ _ Ho)|done]. intros so' p Hin Hp'. by apply (Hle so' p). }
      set (sub1 := with_skipped (with_pending (received sub l) None) (delete s (skipped_stream_headers sub))).
      destruct (handle_header_new c sub1 h true Hk (idle_map _ _ _ Hidle)) as (hb & Eh & E);
        [apply Hs|apply Hs|by apply same_checks_received; apply Hs|].
      apply (object_passed c sub m h so None a active None
        (set_streams c (streams c ++ [mkSentStream (key s) (stream_priority h) hb SE_Open]) (<[key s := length (streams c)]> (send_streams c)))
        (with_count sub1 (wrap64 (opened_stream_count sub + 1))) (length (streams c)) _ Hd Hp Hk (object_read_any _ _ _ Ho)); try done.
      * unfold stream_for, get_stream. fold s l. change (new_send_stream_key request_id s) with (key s).
        rewrite (idle_map _ _ _ Hidle). change (skipped_stream_headers (with_pending (received sub l) None)) with (skipped_stream_headers sub).
        rewrite Hsk. fold sub1. change (header_for_mid_subgroup_stream (HI_Subgroup h)) with (HI_Subgroup (opening true h)). by rewrite E.
      * fold s. cbn [send_stream_last_object_ids sub1 with_count with_skipped with_pending received with_state]. by rewrite (idle_ids _ _ _ Hidle).
      * by apply same_sub_received.
      * intros b sub2 Eb Hs2 Eids Eskip Ecount. simpl. rewrite append_last.
        apply (deliver_new c sub m sub2 h (sos ++ [so]) so hb b j Hd Hidle); try done.
        -- apply (off_insert _ _ _ (Some (so_object_id so))); [by rewrite Eids|].
           intros s' Hs'. rewrite Eskip. simpl. by rewrite lookup_delete_ne.
        -- by rewrite Eids, lookup_insert_eq.
        -- by rewrite passing_snoc, Hps, Hp.
        -- replace (j || joins_mid h (sos ++ [so])) with true; [done|]. destruct sos as [|s1 sos1]; [by rewrite Hj0|]. simpl.
           destruct (passes h s1) eqn:E1; [|by rewrite orb_true_r]. unfold passing in Hps. simpl in Hps. by rewrite E1 in Hps.
        -- apply (object_ready h None so); [by eapply object_read_any|done].
    + destruct (last_id (passing h sos)) as [q|] eqn:Eq; cycle 1.
      { by apply last_id_none in Eq. }
      destruct (last_id_of _ _ Eq) as (so' & Hin' & Eid). apply passing_elem in Hin' as [Hin' _].
      destruct (last_id sos) as [p|] eqn:El; [|by apply last_id_none in El; subst].
      pose proof (or_after _ _ _ Ho p eq_refl). pose proof (Hle so' p Hin' eq_refl). pose proof (or_read _ _ _ (Hread so' Hin')) as [[Hq0 _] _ _].
      assert (Ho' : object_read h (Some q) so) by (destruct Ho; split; try done; intros ? [= <-]; lia).
      assert (Hpos : forall p', Some q = Some p' -> 0 <= p') by (intros ? [= <-]; lia).
      apply (object_passed c sub m h so (Some q) a active None c (with_pending (received sub l) None) n _ Hd Hp Hk Ho' Hpos); try done.
      * unfold stream_for, get_stream. fold s l. change (new_send_stream_key request_id s) with (key s). by rewrite (st_map _ _ _ _ _ _ Hx).
      * fold s. cbn [send_stream_last_object_ids with_pending received with_state]. rewrite (st_ids _ _ _ _ _ _ Hx). exact Eq.
      * by apply same_sub_received.
      * intros b sub2 Eb Hs2 Eids Eskip Ecount.
        apply (deliver_more c sub m sub2 h sos so n x b j Hd Hx); rewrite ?Eq; try done.
        -- by apply (off_insert _ _ _ (Some (so_object_id so))); [rewrite Eids|rewrite Eskip].
        -- by rewrite Eids, lookup_insert_eq.
        -- by apply (object_ready h (Some q) so Ho').
Qed.

Lemma delivery_same c sub m c' sub' :
  delivery_ok c sub m -> streams c' = streams c -> send_streams c' = send_streams c -> same_sub sub' ->
  send_stream_last_object_ids sub' = send_stream_last_object_ids sub -> skipped_stream_headers sub' = skipped_stream_headers sub ->
  opened_stream_count sub' = opened_stream_count sub -> delivery_ok c' sub' m.
Proof.
  intros [Hat _ _ _ _ Hc] Es Em (?&?&?&?) Ei Ek Eo. split; try done.
  - intros s. set (s1 := mkStreamId (match sid_stream_type s with ST_Fetch => ST_Subgroup | _ => ST_Fetch end) 0 None None None).
    apply (frame_at_ok c sub c' sub' s1); [|by intros E; apply (f_equal sid_stream_type) in E; simpl in E; destruct (sid_stream_type s)|apply Hat].
    split; intros; unfold of_key; by rewrite ?Es, ?Em, ?Ei, ?Ek.
  - unfold opened. rewrite Es. by rewrite Eo.
Qed.

Lemma close_drops c k : let c' := drop_stream closed_with c k in
  streams (close_stream c k) = streams c' /\ send_streams (close_stream c k) = send_streams c'.
Proof.
  unfold close_stream, drop_stream. destruct (send_streams c !! k); [|done]. by destruct (match closed_with _ _ with SE_Reset _ => _ | _ => _ end).
Qed.

(** The end of a publisher's stream. *)
Lemma closed_delivered c sub m h sos j :
  let s := sid relay h in
  delivery_ok c sub m -> m !! s = Some (mkFed h sos false j) ->
  exists c' sub', handle_stream_closed c request_id sub s = (c', sub') /\
    delivery_ok c' sub' (<[s := mkFed h sos true j]> m) /\ finished sub' = finished sub /\ event_rx sub' = event_rx sub.
Proof.
  intros s Hd Hm. pose proof (do_at _ _ _ Hd s) as Hat. rewrite Hm in Hat. cbn [at_ok fed_header fed_objects fed_closed fed_joined] in Hat.
  eexists _, _. split; [reflexivity|]. set (sub' := with_skipped _ _). split_and!; [|done..].
  change (new_send_stream_key request_id s) with (key s).
  enough (Hdrop : delivery_ok (drop_stream closed_with c (key s)) sub' (<[s := mkFed h sos true j]> m)).
  { destruct (close_drops c (key s)) as [Es Em]. apply (delivery_same _ sub' _ _ sub' Hdrop); try done. exact (same_sub_of _ _ _ Hdrop). }
  unfold drop_stream.
  assert (Hoff : off sub sub' s) by (intros s' Hne; simpl; by rewrite !lookup_delete_ne).
  assert (Hids : send_stream_last_object_ids sub' !! s = None) by apply lookup_delete_eq.
  assert (Hss : same_sub sub') by exact (same_sub_of c sub m Hd).
  destruct Hat as [(Hps & [Hmap _ Hnone] & _)|(Hps & n & x & [[Hx Ek] Ho Hb Hr Hp He Hn Hi])].
  - rewrite Hmap. apply (deliver_none c sub m sub' s); try done. left. cbn [fed_header fed_objects fed_closed fed_joined].
    split_and!; [done|by split|done].
  - cbn [fed_header fed_objects fed_closed fed_joined] in *. rewrite Hn.
    assert (written (streams c) n = ss_bytes x) as -> by (unfold written; by rewrite Hx). unfold end_stream. set (fin := fun s1 => mkSentStream _ _ _ _).
    pose proof (fun n' y => alter_lookup fin (streams c) n x n' y Hx) as Hal.
    apply (delivery_frame c sub m _ sub' s _ Hd); try done.
    + split; [|apply Hoff..|].
      * intros s' Hne. simpl. rewrite lookup_delete_ne; [done|]. by intros [= E].
      * intros n' y s' Hne. unfold of_key. simpl. rewrite Hal. split.
        -- intros [Hy Ey]. split; [|done]. right. split; [|done]. intros ->. rewrite Hx in Hy. injection Hy as ->.
           rewrite Ek in Ey. by injection Ey as <-.
        -- intros [[[-> ->]|[_ Hy]] Ey]; [|done]. exfalso. simpl in Ey. rewrite Ek in Ey. by injection Ey as <-.
    + right. cbn [fed_header fed_objects fed_closed fed_joined]. split; [done|]. exists n, (fin x).
      split; cbn [fed_header fed_objects fed_closed fed_joined]; try done.
      * split; [|done]. apply Hal. by left.
      * intros n' y [Hy Ey]. simpl in Hy. apply Hal in Hy as [[-> _]|[_ Hy]]; [done|]. by apply (Ho n' y).
      * apply lookup_delete_eq.
    + unfold opened. simpl. rewrite alter_filter_length by done. exact (do_count _ _ _ Hd).
Qed.

(** The end of a stream of which the subscription got nothing. *)
Lemma unseen_closed c sub m s :
  delivery_ok c sub m -> m !! s = None ->
  exists sub', handle_stream_closed c request_id sub s = (c, sub') /\ delivery_ok c sub' m /\ finished sub' = finished sub /\ event_rx sub' = event_rx sub.
Proof.
  intros Hd Hm. pose proof (do_at _ _ _ Hd s) as Hs. rewrite Hm in Hs. destruct Hs as [[Hmap Hids Hnone] Hsk].
  unfold handle_stream_closed, close_stream, drop_stream. change (new_send_stream_key request_id s) with (key s). rewrite Hmap.
  eexists. split; [reflexivity|]. split; [|done]. pose proof Hd as [Hat _ _ _ _ Hc]. split; try done; try apply Hd.
  intros s'. destruct (decide (s' = s)) as [->|Hne].
  - rewrite Hm. split; [split|]; simpl; rewrite ?lookup_delete_eq; done.
  - apply (frame_at_ok c sub c _ s); [|done|apply Hat]. split; try done; intros s1 Hs1; simpl; by rewrite lookup_delete_ne.
Qed.

(** A datagram leaves the streams alone. *)
Lemma datagram_delivered c sub m d :
  delivery_ok c sub m ->
  exists c' sub', handle_datagram sends_datagram c sub d = (c', sub', A_Nothing) /\ delivery_ok c' sub' m /\
    finished sub' = finished sub /\ event_rx sub' = event_rx sub.
Proof.
  intros Hd. pose proof (same_sub_of c sub m Hd) as Hs. set (l := mkLocation (dg_group_id d) (dg_object_id d)).
  pose proof (same_sub_received sub l Hs) as Hs1.
  assert (Hrec : delivery_ok c (received sub l) m) by by apply (delivery_same c sub m).
  unfold handle_datagram. fold l. change (with_state sub (update_last_received_object_location (subscription_state sub) l)) with (received sub l).
  repeat match goal with
  | |- exists c' sub', (if ?b then _ else _) = _ /\ _ => destruct b; [by exists c, (received sub l)|]
  end.
  destruct (Datagram_serialize _) as [b| | |]; try (by exists c, (received sub l)).
  destruct (sends_datagram b); [|by exists c, (received sub l)].
  set (sub2 := with_state _ _). assert (E : pending_switch sub2 = false) by apply Hs. rewrite E.
  exists (add_datagram c b), sub2. split_and!; [done| |done..].
  apply (delivery_same c sub m); try done. destruct Hs1 as (?&?&?&?). split_and!; try done. by apply same_checks_sent.
Qed.

(** ** The queue *)

Variable max_lag : Z.

(** The switching gate is asked for the group of an object. *)
Definition event_gate (e : TrackEvent) : bool :=
  match e with TE_SubgroupObject _ object _ => gate (Common.group (obj_location object)) | _ => true end.
Definition next_event (c : Client) : option TrackEvent :=
  match subscriptions c !! request_id with
  | Some sub => match event_rx sub with Some (e :: _) => Some e | _ => None end
  | None => None
  end.

(** The task, once for each of these; [actives] are the publisher's open streams at each time. *)
Fixpoint receive_all (actives : list (gmap StreamId HeaderInfo)) (c : Client) : panics Client :=
  match actives with
  | [] => Ok c
  | active :: actives =>
      let? c := receive opens write_all sends_datagram responds max_lag c request_id active
                  (match next_event c with Some e => event_gate e | None => true end) false in
      receive_all actives c
  end.

Lemma receive_all_app a1 a2 c : receive_all (a1 ++ a2) c = obind (receive_all a1 c) (receive_all a2).
Proof. revert c. induction a1 as [|a a1 IH]; intros c; simpl; [done|]. by destruct (receive _ _ _ _ _ _ _ _ _ _); simpl. Qed.

Definition not_behind (queue : list TrackEvent) : Prop := max_lag <= 0 \/ Z.of_nat (length queue) <= max_lag.

(** What the task holds: the subscription, with [queue] still to come. *)
Definition waiting (c : Client) (queue : list TrackEvent) (m : gmap StreamId Fed) : Prop :=
  exists sub, subscriptions c !! request_id = Some sub /\ finished sub = false /\ event_rx sub = Some queue /\ delivery_ok c sub m.

(** One event of the feed: the map after it, from the map before. *)
Lemma event_delivered c m e queue active m' :
  waiting c (e :: queue) m -> not_behind (e :: queue) ->
  (forall sub, delivery_ok c sub m -> event_rx sub = Some queue -> finished sub = false ->
     exists c' sub', handle_track_event opens write_all sends_datagram responds c request_id sub active (event_gate e) e =
         Ok (put c' request_id sub') /\ delivery_ok c' sub' m' /\ finished sub' = finished sub /\ event_rx sub' = event_rx sub) ->
  exists c', receive opens write_all sends_datagram responds max_lag c request_id active
       (match next_event c with Some e => event_gate e | None => true end) false = Ok c' /\ waiting c' queue m'.
Proof.
  intros (sub & Hsub & Hfin & Hq & Hok) Hlag Hstep. unfold receive, next_event. rewrite Hsub, Hq.
  assert (E : (0 <? max_lag) && (max_lag <? Z.of_nat (length queue)) = false).
  { apply andb_false_iff. destruct Hlag as [?|Hl]; [left|right]; apply Z.ltb_ge; [done|]. simpl in Hl. lia. }
  rewrite E, Hfin. cbn [andb].
  destruct (Hstep (with_rx sub (Some queue))) as (c' & sub' & -> & Hd & Hf & He); [|done..|].
  - apply (delivery_same c sub m); try done. exact (same_sub_of c sub m Hok).
  - exists (put c' request_id sub'). split; [done|]. exists sub'. split_and!; [by simpl; rewrite lookup_insert_eq|by rewrite Hf|by rewrite He|].
    apply (delivery_same c' sub' m'); try done. exact (same_sub_of c' sub' m' Hd).
Qed.

Lemma handle_takes c sub active g s o hi m' :
  takes (handle_subgroup_object opens write_all c request_id sub active g s o hi) sub m' ->
  exists c' sub', handle_track_event opens write_all sends_datagram responds c request_id sub active g (TE_SubgroupObject s o hi) =
    Ok (put c' request_id sub') /\ delivery_ok c' sub' m' /\ finished sub' = finished sub /\ event_rx sub' = event_rx sub.
Proof. intros (c' & sub' & E & Hd & Hf & He & _). exists c', sub'. cbn [handle_track_event]. by rewrite E. Qed.

(** The publisher's open streams, as the task sees them: when it takes an object
    without a header, it finds the header of a subgroup it joins. *)
Definition headers_held (evs : list TrackEvent) (m : gmap StreamId Fed) (actives : list (gmap StreamId HeaderInfo)) : Prop :=
  forall i s o active f, evs !! i = Some (TE_SubgroupObject s o None) -> actives !! i = Some active ->
    m !! s = Some f -> fed_joined f = true -> active !! s = Some (HI_Subgroup (fed_header f)).

Lemma headers_held_init evs e m m' actives a : length actives = length evs ->
  (forall s f, m !! s = Some f -> exists f', m' !! s = Some f' /\ fed_header f' = fed_header f /\ fed_joined f' = fed_joined f) ->
  headers_held (evs ++ [e]) m' (actives ++ [a]) -> headers_held evs m actives.
Proof.
  intros Hlen Hm Hh i s o active f He Ha Hf Hj. destruct (Hm s f Hf) as (f' & Hf' & <- & Ej).
  apply (Hh i s o active f'); [by apply lookup_app_l_Some|by apply lookup_app_l_Some|done|congruence].
Qed.

Lemma headers_held_last evs s o m' actives a f : length actives = length evs ->
  headers_held (evs ++ [TE_SubgroupObject s o None]) m' (actives ++ [a]) -> m' !! s = Some f -> fed_joined f = true ->
  a !! s = Some (HI_Subgroup (fed_header f)).
Proof.
  intros Hlen Hh Hf Hj. apply (Hh (length evs) s o a f); [|rewrite <- Hlen|done|done]; apply list_lookup_middle; done.
Qed.

(** The whole feed. *)
Lemma feed_delivered evs m : fed relay evs m -> forall c actives rest,
  length actives = length evs -> headers_held evs m actives -> waiting c (evs ++ rest) ∅ -> not_behind (evs ++ rest) ->
  exists c', receive_all actives c = Ok c' /\ waiting c' rest m.
Proof.
  assert (Hstep : forall evs e m m',
    (forall c actives rest, length actives = length evs -> headers_held evs m actives -> waiting c (evs ++ rest) ∅ -> not_behind (evs ++ rest) ->
       exists c', receive_all actives c = Ok c' /\ waiting c' rest m) ->
    (forall s f, m !! s = Some f -> exists f', m' !! s = Some f' /\ fed_header f' = fed_header f /\ fed_joined f' = fed_joined f) ->
    (forall c sub active, delivery_ok c sub m ->
       (forall s o f, e = TE_SubgroupObject s o None -> m' !! s = Some f -> fed_joined f = true -> active !! s = Some (HI_Subgroup (fed_header f))) ->
       exists c' sub', handle_track_event opens write_all sends_datagram responds c request_id sub active (event_gate e) e =
         Ok (put c' request_id sub') /\ delivery_ok c' sub' m' /\ finished sub' = finished sub /\ event_rx sub' = event_rx sub) ->
    forall c actives rest, length actives = length (evs ++ [e]) -> headers_held (evs ++ [e]) m' actives ->
      waiting c ((evs ++ [e]) ++ rest) ∅ -> not_behind ((evs ++ [e]) ++ rest) ->
    exists c', receive_all actives c = Ok c' /\ waiting c' rest m').
  { clear evs m. intros evs e m m' IH Hm He c actives rest Hlen Hh Hw Hl. rewrite <- app_assoc in Hw, Hl. simpl in Hw, Hl.
    destruct actives as [|a actives _] using rev_ind; [rewrite length_app in Hlen; simpl in Hlen; lia|].
    rewrite !length_app in Hlen. simpl in Hlen. assert (length actives = length evs) as Hlen' by lia.
    destruct (IH c actives (e :: rest)) as (c1 & E1 & Hw1); [done|by apply (headers_held_init evs e m m' actives a)|done|done|].
    destruct (event_delivered c1 m e rest a m') as (c2 & E2 & Hw2); [done| | |].
    - destruct Hl as [?|Hl]; [by left|right]. rewrite length_app in Hl. lia.
    - intros sub Hd _ _. apply He; [done|]. intros s o f -> Hf Hj. by apply (headers_held_last evs s o m' actives a f).
    - exists c2. split; [|done]. rewrite receive_all_app, E1. simpl. by rewrite E2. }
  assert (Hnew : forall (m : gmap StreamId Fed) s F, (forall f, m !! s = Some f -> fed_header F = fed_header f /\ fed_joined F = fed_joined f) ->
            forall s' f, m !! s' = Some f -> exists f', <[s := F]> m !! s' = Some f' /\ fed_header f' = fed_header f /\ fed_joined f' = fed_joined f).
  { intros m0 s F HF s' f Hf. destruct (decide (s' = s)) as [->|Hne]; [exists F; rewrite lookup_insert_eq; by split; [|apply HF]|].
    exists f. by rewrite lookup_insert_ne. }
  intros Hf. induction Hf as [|evs m h so a Hf IH Hn Hk Ho Hfirst|evs m h so a Hf IH Hn Hk Ho|evs m h sos so a j Hf IH Hm Ho|
      evs m h sos j Hf IH Hm|evs m s Hf IH Hn|evs m d Hf IH].
  - intros c [|] rest Hlen _ Hw _; [|done]. by exists c.
  - apply (Hstep evs _ m _ IH); [apply Hnew; intros f; by rewrite Hn|]. intros c sub active Hd _. apply handle_takes. by apply first_object.
  - apply (Hstep evs _ m _ IH); [apply Hnew; intros f; by rewrite Hn|]. intros c sub active Hd Hact. apply handle_takes.
    apply (next_object c sub m h [] so a active true Hd); try done.
    + pose proof (do_at _ _ _ Hd (sid relay h)) as Hat. rewrite Hn in Hat. destruct Hat as [Hid Hsk]. left.
      cbn [fed_header fed_objects fed_closed fed_joined]. split_and!; [done|done|]. intros _. right. by left.
    + intros so' Hin. by apply elem_of_nil in Hin.
    + intros _. eapply (Hact (sid relay h) _ (mkFed h [so] false true) eq_refl); [apply lookup_insert_eq|done].
  - apply (Hstep evs _ m _ IH); [apply Hnew; intros f; rewrite Hm; by intros [= <-]|]. intros c sub active Hd Hact. apply handle_takes.
    destruct (fed_each evs m _ _ Hf Hm) as [_ Hk Hne Hread Hle _]. cbn [fed_header fed_objects fed_closed fed_joined] in *.
    apply (next_object c sub m h sos so a active j Hd); try done.
    + rewrite <- Hm. apply Hd.
    + intros ->. apply (Hact (sid relay h) _ (mkFed h (sos ++ [so]) false true) eq_refl); [apply lookup_insert_eq|done].
  - apply (Hstep evs _ m _ IH); [apply Hnew; intros f; rewrite Hm; by intros [= <-]|]. intros c sub active Hd _.
    destruct (closed_delivered c sub m h sos j Hd Hm) as (c' & sub' & E & Hd' & Hf' & He).
    exists c', sub'. cbn [handle_track_event]. by rewrite E.
  - apply (Hstep evs _ m _ IH); [by intros s' f; exists f|]. intros c sub active Hd _.
    destruct (unseen_closed c sub m s Hd Hn) as (sub' & E & Hd' & Hf' & He).
    exists c, sub'. cbn [handle_track_event]. by rewrite E.
  - apply (Hstep evs _ m _ IH); [by intros s f; exists f|]. intros c sub active Hd _.
    destruct (datagram_delivered c sub m d Hd) as (c' & sub' & E & Hd' & Hf' & He).
    exists c', sub'. cbn [handle_track_event]. by rewrite E.
Qed.

(** ** What the subscriber gets of a subgroup *)

Definition delivered (c : Client) (s : StreamId) (f : Fed) : Prop :=
  let h := fed_header f in
  match passing h (fed_objects f) with
  | [] => forall n x, ~ of_key (key s) c n x
  | sos =>
      exists n x, of_key (key s) c n x /\ (forall n' x', of_key (key s) c n' x' -> n' = n) /\
        ss_priority x = stream_priority h /\ ss_end x = (if fed_closed f then closed_with n (ss_bytes x) else SE_Open) /\
        forall pending chunks, Forall bytes_ok chunks -> concat chunks = ss_bytes x ->
          exists st, read pending chunks = (st, Ok tt) /\ items st = map (fun so => DI_Object (object_of h alias so)) sos
  end.

Lemma passing_head h sos : joins_mid h sos = false -> head (passing h sos) = head sos.
Proof. destruct sos as [|so sos]; [done|]. simpl. unfold passing. simpl. by destruct (passes h so). Qed.

Lemma at_ok_delivered c sub s f : fed_ok s f -> at_ok c sub s (Some f) -> delivered c s f.
Proof.
  intros [_ Hk _ Hread _ Hfirst] [(Hp & [_ _ Hno] & _)|(Hp & n & x & Hx)]; unfold delivered; [by rewrite Hp|].
  destruct Hx as [Hx Ho (hb & wb & Eh & Ew & Eb) Hr Hpr He _ _].
  destruct (passing (fed_header f) (fed_objects f)) as [|so sos] eqn:E; [done|]. rewrite <- E in *.
  exists n, x. split_and!; try done. intros pending chunks Hc Hcat. rewrite Eb in Hcat.
  apply (stream_read pending (starts_mid f) (fed_header f) alias _ hb wb chunks Hk alias_u64); try done.
  - intros [Hj Hmid]%orb_false_iff Hm. rewrite passing_head by done. by apply Hfirst.
  - intros so' [Hin _]%passing_elem. by apply (object_ready _ None so' (Hread so' Hin)).
Qed.

(** A queue, from the first event to the last. *)
Lemma feed_forwarded c evs m actives :
  fed relay evs m -> length actives = length evs -> headers_held evs m actives -> not_behind evs ->
  subscriptions c !! request_id = Some (with_rx (Subscription_new relay alias s0) (Some evs)) ->
  (forall s, send_streams c !! key s = None) -> opened c = [] ->
  exists c' sub', receive_all actives c = Ok c' /\ subscriptions c' !! request_id = Some sub' /\ event_rx sub' = Some [] /\
    (forall s f, m !! s = Some f -> delivered c' s f) /\
    (forall s, m !! s = None -> forall n x, ~ of_key (key s) c' n x) /\
    opened_stream_count sub' = wrap64 (Z.of_nat (length (opened c'))).
Proof.
  intros Hf Hlen Hheld Hlag Hsub Hmap Hop.
  assert (Hw : waiting c (evs ++ []) ∅).
  { rewrite app_nil_r. eexists. split_and!; [exact Hsub|done|done|]. split; try done; [|by rewrite Hop].
    intros s. rewrite lookup_empty. split; [|done]. split; [by apply Hmap|done|]. intros n x [Hx Ek].
    assert (Hin : x ∈ opened c) by (apply list_elem_of_In, filter_In; split; [by apply list_elem_of_In, (list_elem_of_lookup_2 _ n)|by rewrite Ek; apply Z.eqb_refl]).
    rewrite Hop in Hin. by apply not_elem_of_nil in Hin. }
  destruct (feed_delivered evs m Hf c actives []) as (c' & E & (sub' & Hs' & _ & Hq & Hok)); [done|done|done|by rewrite app_nil_r|].
  exists c', sub'. split_and!; try done; [| |apply Hok].
  - intros s f Hm. apply (at_ok_delivered c' sub' s f); [by apply (fed_each evs m)|]. rewrite <- Hm. apply Hok.
  - intros s Hm. pose proof (do_at _ _ _ Hok s) as Hi. rewrite Hm in Hi. apply Hi.
Qed.


End Delivery.

(** * Examples *)

Definition demo_header : SubgroupHeader :=
  mkSubgroupHeader (SubgroupHeaderType_from_properties false SIM_Explicit false false false) 7 5 (Some 0) (Some 100).
Definition demo_object (id : Z) : SubgroupObject := mkSubgroupObject id None None (Some [id mod 256]).
(** The subscription starts at object 1 of group 5. *)
Definition demo_state : SubscriptionState :=
  mkSubscriptionState 128 GO_Ascending true LF_None (Some (mkLocation 5 1)) None None false false None []
    CombinedFilter_default None None None None.
Definition demo_sid : StreamId := sid 3 demo_header.
Definition demo_event (h : SubgroupHeader) (first : bool) (id : Z) : TrackEvent :=
  TE_SubgroupObject (sid 3 h) (object_of h 7 (demo_object id)) (if first then Some (HI_Subgroup h) else None).
Definition demo_feed : list TrackEvent :=
  [demo_event demo_header true 0; demo_event demo_header false 2; demo_event demo_header false 3; TE_StreamClosed demo_sid].
Definition demo_client (s : SubscriptionState) (evs : list TrackEvent) : Client :=
  put Client_new 0 (with_rx (Subscription_new 3 9 s) (Some evs)).
Definition always (n : nat) : bool := true.
(** Every end of a stream is taken at once, or none is before the discard timeout. *)
Definition prompt : Closing := mkClosing false 0 (fun _ _ => FR_Finished) (fun _ => true).
Definition too_late (negotiated : bool) : Closing := mkClosing negotiated 1600 (fun _ _ => FR_Late) (fun _ => true).
#[local] Existing Instance prompt.
Definition never_fails (n : nat) (b b' : bytes) : option TransportWriteError := None.
Definition demo_run `{Target} (write_all : nat -> bytes -> bytes -> option TransportWriteError) (s : SubscriptionState)
    (evs : list TrackEvent) : panics Client :=
  receive_all always write_all (fun _ => true) (fun _ => true) (fun _ => true) 0 0
    (map (fun _ => ∅) evs) (demo_client s evs).

Lemma demo_header_known : header_known demo_header.
Proof. split; [split|..]; try done; try (vm_compute; intuition discriminate). by repeat eexists. Qed.
Lemma demo_object_read prev id : is_u64 id -> (forall p, prev = Some p -> p < id) -> object_read demo_header prev (demo_object id).
Proof.
  intros Hid Hp. split; [split|..]; simpl; try done.
  - split; [split; [repeat constructor; apply Z.mod_pos_bound; lia|vm_compute; intuition congruence]|done].
  - split; [constructor|intros b E; vm_compute in E; by injection E as <-].
Qed.

Definition demo_fed (sos : list SubgroupObject) (closed : bool) : gmap StreamId Fed := <[demo_sid := mkFed demo_header sos closed false]> ∅.
Lemma demo_feed_fed : fed 3 demo_feed (demo_fed [demo_object 0; demo_object 2; demo_object 3] true).
Proof.
  assert (H1 : fed 3 [demo_event demo_header true 0] (demo_fed [demo_object 0] false)).
  { apply (fed_first 3 [] ∅ demo_header (demo_object 0) 7); [constructor|done|apply demo_header_known|by apply demo_object_read|done]. }
  assert (Hnext : forall evs sos id, fed 3 evs (demo_fed sos false) -> is_u64 id -> (forall p, last_id sos = Some p -> p < id) ->
            fed 3 (evs ++ [demo_event demo_header false id]) (demo_fed (sos ++ [demo_object id]) false)).
  { intros evs sos id Hf Hid Hp. unfold demo_fed. rewrite <- (insert_insert_eq ∅ demo_sid _ (mkFed demo_header sos false false)).
    apply (fed_next 3 evs _ demo_header sos (demo_object id) 7 false Hf); [by apply lookup_insert_eq|]. by apply demo_object_read. }
  apply (Hnext _ [demo_object 0] 2) in H1; [|done|by intros p [= <-]].
  apply (Hnext _ [demo_object 0; demo_object 2] 3) in H1; [|done|by intros p [= <-]].
  unfold demo_fed. rewrite <- (insert_insert_eq ∅ demo_sid _ (mkFed demo_header [demo_object 0; demo_object 2; demo_object 3] false false)).
  apply (fed_close 3 [_; _; _] _ demo_header _ false H1). by apply lookup_insert_eq.
Qed.

Lemma demo_headers_held evs sos closed actives : headers_held evs (demo_fed sos closed) actives.
Proof. unfold demo_fed. intros i s o active f _ _ [[_ <-]|[_ Hf]]%lookup_insert_Some; [done|]. by rewrite lookup_empty in Hf. Qed.


(** What a run leaves on the streams of a connection: the group and IDs a reader
    gets of each stream, and its end. *)
Definition ids_read `{Target} (x : SentStream) : option (list Z) * stream_end :=
  (match read (fun _ => None) [ss_bytes x] with
   | (st, Ok tt) => Some (map (fun i => match i with DI_Object o => Common.object (obj_location o) | _ => -1 end) (items st))
   | _ => None
   end, ss_end x).
Definition summary `{Target} (r : panics Client) : option (list (option (list Z) * stream_end) * option Z) :=
  match r with
  | Ok c => Some (map ids_read (streams c), opened_stream_count <$> subscriptions c !! 0)
  | _ => None
  end.

(** With SSTS, a stream whose end is not taken in time is discarded, and the controller
    learns of it; without, the end is waited for. *)
Example late_stream_discarded :
  let H := debug_build in
  let run C := @receive_all always never_fails (fun _ => true) (fun _ => true) H C (fun _ => true) 0 0
                 [∅; ∅; ∅; ∅] (demo_client demo_state demo_feed) in
  summary (run (too_late true)) = Some ([(Some [2; 3], SE_Reset SRC_DeliveryTimeout)], Some 1) /\
  match run (too_late true) with Ok c => discarded_groups c = [5] | _ => False end /\
  summary (run (too_late false)) = Some ([(Some [2; 3], SE_Finished)], Some 1).
Proof. vm_compute. auto. Qed.

(** A second publisher of the track starts the same subgroup: its header resets
    the previous ID, although the stream is open.  A reader then gets 5 and 6
    for the objects 3 and 4, and the count says two streams. *)
Example second_publisher_shifts_ids :
  let H := debug_build in
  summary (demo_run never_fails demo_state
    [demo_event demo_header true 1; demo_event demo_header true 3; demo_event demo_header false 4]) =
  Some ([(Some [1; 5; 6], SE_Open)], Some 2).
Proof. vm_compute. reflexivity. Qed.

(** Two publishers' objects need not rise together: the difference of the IDs
    underflows.  That is a panic in a debug build; a release build wraps it round,
    and so does a reader of this build. *)
Example merged_ids_underflow :
  let evs := [demo_event demo_header true 1; demo_event demo_header false 5; demo_event demo_header false 3] in
  @demo_run debug_build never_fails demo_state evs = Panic /\
  @summary release_build (@demo_run release_build never_fails demo_state evs) =
    Some ([(Some [1; 5; 3], SE_Open)], Some 1).
Proof. split; vm_compute; reflexivity. Qed.

(** One publisher ends its stream, and the objects of another are lost with the stream. *)
Example close_stops_the_other_publisher :
  let H := debug_build in
  summary (demo_run never_fails demo_state
    [demo_event demo_header true 1; TE_StreamClosed demo_sid; demo_event demo_header false 2]) =
  Some ([(Some [1], SE_Finished)], Some 1).
Proof. vm_compute. reflexivity. Qed.

(** After the subscriber stops a stream, the next object opens another when the
    publisher's header is still known, but its ID is written as a difference to
    the last one on the stopped stream: 0 and 5 for the objects 2 and 7. *)
Definition stopped_once (n : nat) (b b' : bytes) : option TransportWriteError :=
  match n, b with O, _ :: _ => Some WE_ClosedOrStopped | _, _ => None end.
Example reopened_stream_shifts_ids :
  let H := debug_build in
  summary (receive_all always stopped_once (fun _ => true) (fun _ => true) (fun _ => true) 0 0
    (repeat (<[demo_sid := HI_Subgroup demo_header]> ∅) 3)
    (demo_client demo_state [demo_event demo_header true 1; demo_event demo_header false 2; demo_event demo_header false 7])) =
  Some ([(Some [], SE_Open); (Some [0; 5], SE_Open)], Some 2).
Proof. vm_compute. reflexivity. Qed.

(** A header is kept while Forward is 0, also when the publisher then ends its
    stream: Forward 1 opens a stream for it that nothing ends. *)
Example ended_subgroup_reopened :
  let H := debug_build in
  summary (let? c := demo_run never_fails (set_forward demo_state false)
                       [demo_event demo_header true 1; TE_StreamClosed demo_sid] in
           update_subscription always never_fails c 0 [MP_Forward true]) =
  Some ([(Some [], SE_Open)], Some 1).
Proof. vm_compute. reflexivity. Qed.
