(* ===== verification/Connection.v ===== *)
(** The streams of a connection over its life, and what a switch does: the
    theorems about [Forwarding] that hold for any events, updates and switches, in
    any order and whatever the transport answers. *)
From stdpp Require Import gmap relations.
From S2P Require Import Prelude Varint Common Codes LocationFilter Properties MessageParameter CombinedFilter.
From S2P Require Import Control Subgroup Datagram FetchObject ObjectForms DataStream Streams Subscription Forwarding Delivery.

(** * Streams only grow, and end once *)

(** The map holds open streams, each under its own key. *)
Definition client_ok (c : Client) : Prop :=
  forall k n, send_streams c !! k = Some n -> exists x, streams c !! n = Some x /\ ss_key x = k /\ ss_end x = SE_Open.

(** What may happen to a stream while [r] is served: more bytes only if it is
    open and a stream of [r], and nothing once it has ended. *)
Record stream_grows (r : Z) (x x' : SentStream) : Prop := {
  sg_key : ss_key x' = ss_key x;
  sg_priority : ss_priority x' = ss_priority x;
  sg_bytes : exists b, ss_bytes x' = ss_bytes x ++ b;
  sg_other : ssk_request_id (ss_key x) <> r -> ss_bytes x' = ss_bytes x;
  sg_ended : ss_end x <> SE_Open -> x' = x
}.

Record extends (r : Z) (c c' : Client) : Prop := {
  ex_grows : forall n x, streams c !! n = Some x -> exists x', streams c' !! n = Some x' /\ stream_grows r x x';
  ex_new : forall n x', streams c !! n = None -> streams c' !! n = Some x' -> ssk_request_id (ss_key x') = r
}.

Definition evolves (r : Z) (c c' : Client) : Prop := client_ok c -> client_ok c' /\ extends r c c'.

Lemma stream_grows_refl r x : stream_grows r x x.
Proof. split; try done. exists []. by rewrite app_nil_r. Qed.
Lemma stream_grows_trans r x y z : stream_grows r x y -> stream_grows r y z -> stream_grows r x z.
Proof.
  intros [K1 P1 (b1 & B1) O1 E1] [K2 P2 (b2 & B2) O2 E2]. split; [congruence..| | |].
  - exists (b1 ++ b2). by rewrite B2, B1, app_assoc.
  - intros Hr. rewrite O2, O1; congruence.
  - intros He. pose proof (E1 He). subst y. by apply E2.
Qed.

#[export] Instance evolves_preorder r : PreOrder (evolves r).
Proof.
  split.
  - intros c Hc. split; [done|]. split; [|by intros n x' ->]. intros n x Hx. exists x. split; [done|apply stream_grows_refl].
  - intros c1 c2 c3 H12 H23 Hc. destruct (H12 Hc) as [Hc2 [G1 N1]]. destruct (H23 Hc2) as [Hc3 [G2 N2]]. split; [done|]. split.
    + intros n x Hx. destruct (G1 n x Hx) as (y & Hy & Hg). destruct (G2 n y Hy) as (z & Hz & Hg').
      exists z. split; [done|]. by eapply stream_grows_trans.
    + intros n z Hn Hz. destruct (streams c2 !! n) as [y|] eqn:Hy; [|by apply (N2 n)].
      destruct (G2 n y Hy) as (z' & Hz' & Hg). rewrite Hz in Hz'. injection Hz' as <-. rewrite (sg_key _ _ _ Hg). by apply (N1 n).
Qed.

Lemma evolves_same r c c' : streams c' = streams c -> send_streams c' = send_streams c -> evolves r c c'.
Proof.
  intros Es Em Hc. unfold client_ok. rewrite Es, Em. split; [done|]. split; rewrite Es; [|by intros n x' ->].
  intros n x Hx. exists x. split; [done|apply stream_grows_refl].
Qed.
#[export] Hint Extern 1 (evolves _ _ _) => (apply evolves_same; reflexivity) : evolve.
#[export] Hint Extern 0 (evolves _ ?c ?c) => reflexivity : evolve.

(** One stream of the map changed. *)
Lemma evolves_alter r c k n (f : SentStream -> SentStream) m' :
  send_streams c !! k = Some n ->
  (forall x, streams c !! n = Some x -> ss_key x = k -> stream_grows r x (f x)) ->
  (forall x, ss_key (f x) = ss_key x) ->
  (forall k' n', m' !! k' = Some n' -> send_streams c !! k' = Some n' /\ (n' <> n \/ forall x, ss_end (f x) = ss_end x)) ->
  evolves r c (set_streams c (alter f n (streams c)) m').
Proof.
  intros Hk Hf Hkey Hm Hc. destruct (Hc k n Hk) as (x & Hx & Ek & Ex). split.
  - intros k' n' Hk'. simpl in Hk'. destruct (Hm k' n' Hk') as [Hk'' Hor]. destruct (Hc k' n' Hk'') as (x' & Hx' & Ek' & Ex').
    simpl. destruct (decide (n' = n)) as [->|Hne]; [|rewrite list_lookup_alter_ne by done; by exists x'].
    rewrite list_lookup_alter_eq, Hx'. exists (f x'). split; [done|]. destruct Hor as [?|Hor]; [done|]. by rewrite Hkey, Hor.
  - split; simpl.
    + intros n' y Hy. destruct (decide (n' = n)) as [->|Hne].
      * rewrite list_lookup_alter_eq, Hy. exists (f y). split; [done|]. apply Hf; [done|congruence].
      * rewrite list_lookup_alter_ne by done. exists y. split; [done|apply stream_grows_refl].
    + intros n' y Hn Hy. apply lookup_lt_Some in Hy. rewrite length_alter in Hy. apply lookup_ge_None in Hn. lia.
Qed.

Lemma drop_stream_evolves r e c k : (forall n b, e n b <> SE_Open) -> evolves r c (drop_stream e c k).
Proof.
  intros He. unfold drop_stream. destruct (send_streams c !! k) as [n|] eqn:Hk; [|reflexivity].
  intros Hc. apply (evolves_alter r c k n); try done.
  - intros x Hx Ek. split; try done; simpl; [exists []; by rewrite app_nil_r|]. intros Ho.
    destruct (Hc k n Hk) as (x' & Hx' & _ & Ho'). congruence.
  - intros k' n' [Hne Hk']%lookup_delete_Some. split; [done|]. left. intros ->.
    destruct (Hc k n Hk) as (x & Hx & Ek & _). destruct (Hc k' n Hk') as (x' & Hx' & Ek' & _). congruence.
Qed.

Lemma release_stream_evolves r c k : evolves r c (release_stream c k).
Proof.
  intros Hc. split.
  - intros k' n Hk'. simpl in Hk'. apply lookup_delete_Some in Hk' as [_ Hk']. by apply Hc.
  - split; [|intros n x' ? ?; simpl in *; congruence]. intros n x Hx. exists x. split; [done|apply stream_grows_refl].
Qed.

Section Steps.
Variable opens : nat -> bool.
Variable write_all : nat -> bytes -> bytes -> option TransportWriteError.
Variable sends_datagram : bytes -> bool.
Variable responds : Z -> bool.
Variable max_lag : Z.
Context `{Target} `{Closing}.

Lemma closed_not_open n b : closed_with n b <> SE_Open.
Proof. unfold closed_with. destruct (finishes n b); [done|done|]. by destruct (_ =? 0). Qed.
Lemma close_stream_evolves r c k : evolves r c (close_stream c k).
Proof. destruct (close_drops c k) as [Es Em]. etrans; [apply drop_stream_evolves, closed_not_open|by apply evolves_same]. Qed.

Lemma append_evolves r c k n b : send_streams c !! k = Some n -> ssk_request_id k = r ->
  evolves r c (set_streams c (append (streams c) n b) (send_streams c)).
Proof.
  intros Hk Hr Hc. apply (evolves_alter r c k n); try done.
  - intros x Hx Ek. split; simpl; [done|done|by exists b| |].
    + by rewrite Ek.
    + destruct (Hc k n Hk) as (x' & Hx' & _ & Ho). intros Hne. congruence.
  - intros k' n' Hk'. split; [done|]. by right.
Qed.

Lemma open_stream_evolves c k b p c' o :
  open_stream opens write_all c k b p = (c', o) ->
  evolves (ssk_request_id k) c c' /\ (forall n, o = Some n -> send_streams c' !! k = Some n).
Proof.
  unfold open_stream. destruct (send_streams c !! k) as [n|] eqn:Hk.
  { intros [= <- <-]. split; [reflexivity|]. by intros n' [= <-]. }
  destruct (opens _); [|intros [= <- <-]; by split].
  set (x := mkSentStream k p [] SE_Open).
  assert (Hn : forall m', (forall k' n', m' !! k' = Some n' -> (k' = k /\ n' = length (streams c)) \/ send_streams c !! k' = Some n') ->
            evolves (ssk_request_id k) c (set_streams c (streams c ++ [x]) m')).
  { intros m' Hm' Hc. split.
    - intros k' n' Hk'. simpl. apply Hm' in Hk' as [[-> ->]|Hk'].
      + exists x. by rewrite lookup_app_r, Nat.sub_diag by lia.
      + destruct (Hc k' n' Hk') as (y & Hy & ?). exists y. split; [|done]. rewrite lookup_app_l; [done|]. by apply lookup_lt_Some in Hy.
    - split; simpl.
      + intros n' y Hy. exists y. split; [|apply stream_grows_refl]. rewrite lookup_app_l; [done|]. by apply lookup_lt_Some in Hy.
      + intros n' y Hy Hy'. apply lookup_snoc_Some in Hy' as [[_ Hy']|[_ <-]]; [congruence|done]. }
  destruct (write_all _ _ _) as [e|]; intros [= <- <-].
  - split; [|done]. apply Hn. intros k' n' [_ Hk']%lookup_delete_Some. apply lookup_insert_Some in Hk' as [[<- <-]|[_ ?]]; [by left|by right].
  - split; [|intros n [= <-]; simpl; apply lookup_insert_eq].
    set (m' := <[k := length (streams c)]> (send_streams c)).
    etrans; [apply (Hn m'); intros k' n' Hk'; apply lookup_insert_Some in Hk' as [[<- <-]|[_ ?]]; [by left|by right]|].
    change (set_streams c (append (streams c ++ [x]) (length (streams c)) b) m') with
      (set_streams (set_streams c (streams c ++ [x]) m') (append (streams (set_streams c (streams c ++ [x]) m')) (length (streams c)) b)
         (send_streams (set_streams c (streams c ++ [x]) m'))).
    apply (append_evolves _ _ k); [apply lookup_insert_eq|done].
Qed.

Lemma write_stream_object_evolves c k k' b n :
  send_streams c !! k' = Some n -> evolves (ssk_request_id k') c (write_stream_object write_all c k b n).
Proof.
  intros Hk. unfold write_stream_object. destruct (write_all _ _ _) as [[]|].
  - apply release_stream_evolves.
  - reflexivity.
  - by apply (append_evolves _ _ k').
Qed.

(** ** The parts of a subscription *)

Definition stream_of (r : Z) (c : Client) (n : nat) : Prop := exists k, send_streams c !! k = Some n /\ ssk_request_id k = r.

Lemma handle_header_evolves c r sub hi c' sub' o :
  handle_header opens write_all c r sub hi = Ok (c', sub', o) ->
  evolves r c c' /\ (forall id n, o = Some (id, n) -> stream_of r c' n).
Proof.
  unfold handle_header. destruct (header_payload _ _) as [b| | |]; try done; [|by intros [= <- <- <-]].
  set (k := new_send_stream_key _ _). destruct hi as [h1 h2|h]; destruct (open_stream _ _ _ _ _ _) as [c1 o1] eqn:E;
    apply open_stream_evolves in E as [He Ho]; destruct o1 as [n|]; intros [= <- <- <-]; (split; [done|]); try done;
    intros id n' [= _ <-]; exists k; (split; [by apply Ho|done]).
Qed.

Lemma stream_for_evolves c r sub active s hi c' sub' o :
  stream_for opens write_all c r sub active s hi = Ok (c', sub', o) ->
  evolves r c c' /\ (forall n, o = Some n -> stream_of r c' n).
Proof.
  unfold stream_for. destruct hi as [[h1 h2|h]|]; [by intros [= <- <- <-]| |].
  - destruct (handle_header _ _ _ _ _ _) as [[[c1 sub1] o1]| | |] eqn:E; try done. cbn [obind].
    apply handle_header_evolves in E as [He Ho]. destruct o1 as [[id n]|]; intros [= <- <- <-]; (split; [done|]); [|done].
    intros n' [= <-]. by eapply Ho.
  - destruct (get_stream c _) as [n|] eqn:Eg.
    { intros [= <- <- <-]. split; [reflexivity|]. intros n' [= <-]. eexists. by split; [exact Eg|]. }
    destruct (match skipped_stream_headers sub !! s with Some h => Some h | None => active !! s end) as [h|]; [|by intros [= <- <- <-]].
    destruct (handle_header _ _ _ _ _ _) as [[[c1 sub1] o1]| | |] eqn:E; try done. cbn [obind].
    apply handle_header_evolves in E as [He Ho]. intros [= <- <- <-]. split; [done|]. intros n. destruct o1 as [[id n']|]; [|done].
    intros [= <-]. by eapply Ho.
Qed.

Lemma handle_object_evolves c r o prev s n c' b :
  stream_of r c n -> handle_object write_all c r o prev s n = Ok (c', b) -> evolves r c c'.
Proof.
  intros (k & Hk & <-). unfold handle_object. destruct (try_into_subgroup o) as [so| | |]; try (by intros [= <- _]).
  destruct (SubgroupObject_serialize _ _ _); try done; intros [= <- _]; [|reflexivity]. by apply write_stream_object_evolves.
Qed.

Lemma handle_subgroup_object_evolves c r sub active gate s o hi c' sub' a :
  handle_subgroup_object opens write_all c r sub active gate s o hi = Ok (c', sub', a) -> evolves r c c'.
Proof.
  unfold handle_subgroup_object. destruct gate; cbn [negb]; [|by intros [= <- <- <-]].
  destruct (check_object _ _); try (by intros [= <- <- <-]).
  destruct (stream_for _ _ _ _ _ _ _ _) as [[[c1 sub1] o1]| | |] eqn:E; try done. cbn [obind].
  apply stream_for_evolves in E as [He Ho]. destruct o1 as [n|]; [|by intros [= <- <- <-]].
  destruct (handle_object _ _ _ _ _ _ _) as [[c2 b]| | |] eqn:E; try done. cbn [obind].
  apply (handle_object_evolves _ r) in E; [|by apply Ho].
  intros Hr. assert (c' = c2) as -> by (destruct b; [|by injection Hr]; destruct (pending_switch _); by injection Hr).
  by etrans.
Qed.

Lemma handle_datagram_evolves r c sub d : evolves r c (fst (fst (handle_datagram sends_datagram c sub d))).
Proof.
  unfold handle_datagram.
  repeat match goal with
  | |- context [if ?b then _ else _] => destruct b; try reflexivity
  | |- context [match Datagram_serialize ?d with Ok _ => _ | _ => _ end] => destruct (Datagram_serialize d); try reflexivity
  end; auto with evolve.
Qed.

Lemma drop_all_evolves r drop c r' sub : (forall c k, evolves r c (drop c k)) -> evolves r c (fst (drop_all drop c r' sub)).
Proof.
  intros Hd. unfold drop_all. simpl. generalize (map_to_list (send_stream_last_object_ids sub)) as l. intros l. revert c.
  induction l as [|x l IH]; intros c; simpl; [reflexivity|]. etrans; [apply Hd|apply IH].
Qed.
Lemma finish_evolves r c r' sub : evolves r c (fst (finish c r' sub)).
Proof. unfold finish. destruct (finished sub); [reflexivity|]. apply drop_all_evolves. intros. apply close_stream_evolves. Qed.
Lemma reset_evolves r c r' sub code : evolves r c (fst (reset_data_streams c r' sub code)).
Proof. apply drop_all_evolves. intros. by apply drop_stream_evolves. Qed.
Lemma cancel_evolves r c r' sub : evolves r c (fst (cancel c r' sub)).
Proof.
  unfold cancel. destruct (reset_data_streams c r' sub SRC_Cancelled) as [c1 sub1] eqn:E1.
  pose proof (reset_evolves r c r' sub SRC_Cancelled) as H1. rewrite E1 in H1.
  cbn [stop_fill_streams]. etrans; [exact H1|]. etrans; [|apply finish_evolves]. auto with evolve.
Qed.
Lemma send_publish_done_evolves r c r' sub st reason : evolves r c (send_publish_done responds c r' sub st reason).
Proof.
  unfold send_publish_done. destruct (ReasonPhrase_try_new reason); try reflexivity. destruct (responds r'); auto with evolve.
Qed.

Lemma on_evolves r c r' f : (forall sub, subscriptions c !! r' = Some sub -> evolves r c (fst (f c sub))) -> evolves r c (on c r' f).
Proof.
  unfold on. intros Hf. destruct (subscriptions c !! r') as [sub|]; [|reflexivity]. specialize (Hf sub eq_refl).
  destruct (f c sub) as [c1 sub1]. etrans; [exact Hf|]. auto with evolve.
Qed.
Lemma suspend_at_evolves r c plan b : evolves r c (suspend_at c plan b).
Proof. unfold suspend_at. destruct (_ || _); [reflexivity|]. apply on_evolves. intros sub _. reflexivity. Qed.
Lemma cut_suspending_evolves r c plan : evolves r c (cut_suspending responds c plan).
Proof.
  unfold cut_suspending. apply on_evolves. intros sub _. cbn [stop_fill_streams].
  destruct (reset_data_streams _ _ _ _) as [c1 sub1] eqn:E.
  match type of E with reset_data_streams ?c0 ?r0 ?s0 ?code = _ => pose proof (reset_evolves r c0 r0 s0 code) as He end. rewrite E in He.
  simpl. etrans; [|destruct (publish_done plan); [apply send_publish_done_evolves|reflexivity]]. etrans; [|exact He]. auto with evolve.
Qed.
Lemma complete_switch_evolves r c r' g : evolves r c (complete_switch responds c r' g).
Proof.
  unfold complete_switch. destruct (plans c !! r') as [plan|]; [|reflexivity]. set (c1 := set_plans _ _ _).
  transitivity c1; [auto with evolve|].
  destruct (plan_mode plan); [apply cut_suspending_evolves|]. destruct (boundary plan); [reflexivity|apply suspend_at_evolves].
Qed.
Lemma begin_switch_evolves r c r' s mode done f largest : evolves r c (begin_switch c r' s mode done f largest).
Proof.
  unfold begin_switch. destruct (subscriptions c !! r') as [sub|]; [|reflexivity].
  match goal with |- evolves _ _ (on ?c1 _ _) => transitivity c1; [|apply on_evolves; intros ? _; reflexivity] end.
  match goal with |- evolves _ _ (set_plans ?c1 _ _) => transitivity c1; [|auto with evolve] end.
  destruct (boundary _); [|auto with evolve]. etrans; [|apply suspend_at_evolves]. auto with evolve.
Qed.
Lemma finish_soft_drain_evolves r c r' : evolves r c (finish_soft_drain responds c r').
Proof.
  unfold finish_soft_drain. apply on_evolves. intros sub _. destruct (negb _); [reflexivity|].
  destruct (publish_done_at_end _); [|reflexivity]. etrans; [|apply finish_evolves]. apply send_publish_done_evolves.
Qed.
Lemma finally_evolves r c r' sub a : evolves r c (finally responds c r' sub a).
Proof.
  unfold finally. transitivity (put c r' sub); [auto with evolve|].
  destruct a; [reflexivity|apply finish_soft_drain_evolves|apply complete_switch_evolves].
Qed.

Lemma handle_track_event_evolves c r sub active gate e c' :
  handle_track_event opens write_all sends_datagram responds c r sub active gate e = Ok c' -> evolves r c c'.
Proof.
  destruct e as [s o hi|d|s|st reason]; cbn [handle_track_event].
  - destruct (handle_subgroup_object _ _ _ _ _ _ _ _ _ _) as [[[c1 sub1] a]| | |] eqn:E; try done. cbn [obind]. intros [= <-].
    apply handle_subgroup_object_evolves in E. etrans; [exact E|apply finally_evolves].
  - pose proof (handle_datagram_evolves r c sub d) as E. destruct (handle_datagram _ _ _ _) as [[c1 sub1] a]. intros [= <-].
    etrans; [exact E|apply finally_evolves].
  - unfold handle_stream_closed. intros [= <-]. etrans; [apply (close_stream_evolves r c (new_send_stream_key r s))|]. auto with evolve.
  - set (c0 := send_publish_done _ _ _ _ _ _). assert (evolves r c c0) as Hsent by apply send_publish_done_evolves.
    destruct (bool_decide _); cbn [stop_fill_streams]; match goal with |- context [finish ?c1 r ?s1] =>
      pose proof (finish_evolves r c1 r s1) as Hf; destruct (finish c1 r s1) as [c2 sub2] end; intros [= <-];
      (etrans; [exact Hsent|]); (etrans; [|etrans; [exact Hf|auto with evolve]]); auto with evolve.
Qed.

Lemma receive_evolves c r active gate gone c' :
  receive opens write_all sends_datagram responds max_lag c r active gate gone = Ok c' -> evolves r c c'.
Proof.
  unfold receive. destruct (subscriptions c !! r) as [sub|]; [|by intros [= <-]].
  destruct (event_rx sub) as [[|e q]|]; [|..|by intros [= <-]].
  { destruct gone; [|by intros [= <-]]. pose proof (finish_evolves r c r sub) as H1. destruct (finish c r sub) as [c1 sub1]. intros [= <-].
    etrans; [exact H1|]. auto with evolve. }
  destruct (_ && negb (finished sub)).
  - destruct (reset_data_streams _ _ _ _) as [c1 sub1] eqn:E1. pose proof (reset_evolves r c r (with_rx sub None) SRC_TooFarBehind) as H1.
    rewrite E1 in H1. pose proof (finish_evolves r c1 r sub1) as H2. destruct (finish c1 r sub1) as [c2 sub2]. intros [= <-].
    etrans; [exact H1|]. etrans; [exact H2|]. auto with evolve.
  - destruct (finished sub); [intros [= <-]; auto with evolve|]. apply handle_track_event_evolves.
Qed.

Lemma update_subscription_evolves c r ps c' :
  update_subscription opens write_all c r ps = Ok c' -> evolves r c c'.
Proof.
  unfold update_subscription. destruct (subscriptions c !! r) as [sub|]; [|by intros [= <-]].
  destruct (update_state _ _) as [[[s t] f]| | |]; try done. cbn [obind].
  set (p := if f then _ else _). assert (evolves r c (fst p)) as H1 by (subst p; destruct f; simpl; auto with evolve).
  destruct p as [c1 sub1]. simpl in H1. destruct t; [|intros [= <-]; etrans; [exact H1|]; auto with evolve].
  destruct (pending_header sub1) as [[s1 h1]|]; [|intros [= <-]; etrans; [exact H1|]; auto with evolve].
  destruct (handle_header _ _ _ _ _ _) as [[[c2 sub2] o]| | |] eqn:E; try done. cbn [obind]. apply handle_header_evolves in E as [He _].
  destruct o; intros [= <-]; (etrans; [exact H1|]); (etrans; [exact He|]); auto with evolve.
Qed.

(** * The life of a connection *)

(** One step, on behalf of the subscription [r]. *)
Inductive conn_step (r : Z) (c : Client) : Client -> Prop :=
| step_subscribe relay alias s :
    subscriptions c !! r = None -> conn_step r c (put c r (Subscription_new relay alias s))
| step_send sub queue e :
    subscriptions c !! r = Some sub -> event_rx sub = Some queue -> conn_step r c (put c r (with_rx sub (Some (queue ++ [e]))))
| step_receive active gate gone c' :
    receive opens write_all sends_datagram responds max_lag c r active gate gone = Ok c' -> conn_step r c c'
| step_update ps c' : update_subscription opens write_all c r ps = Ok c' -> conn_step r c c'
| step_switch suspending mode done f largest : conn_step r c (begin_switch c r suspending mode done f largest)
| step_cancel sub c' sub' :
    subscriptions c !! r = Some sub -> cancel c r sub = (c', sub') -> conn_step r c (put c' r sub').

Definition connected (c : Client) : Prop := rtc (fun c c' => exists r, conn_step r c c') Client_new c.

Lemma conn_step_evolves r c c' : conn_step r c c' -> evolves r c c'.
Proof.
  intros [relay alias s _|sub q e _ _|active gate gone c1 Hr|ps c1 Hu|sp mode done f largest|sub c1 sub1 _ Hc].
  - auto with evolve.
  - auto with evolve.
  - by apply receive_evolves in Hr.
  - by apply update_subscription_evolves in Hu.
  - apply begin_switch_evolves.
  - pose proof (cancel_evolves r c r sub) as He. rewrite Hc in He. etrans; [exact He|]. auto with evolve.
Qed.

Lemma connected_ok c : connected c -> client_ok c.
Proof.
  intros Hr. assert (client_ok Client_new) as Hnew by (intros k n Hk; simpl in Hk; by rewrite lookup_empty in Hk).
  revert Hnew. unfold connected in Hr. induction Hr as [|c1 c2 c3 [r Hs] _ IH]; [done|]. intros Hok. apply IH.
  by apply (conn_step_evolves r c1 c2 Hs).
Qed.

(** C17: the streams of a connection, in any sequence of new subscriptions, events,
    updates, switches and cancellations, whatever the transport answers: what
    was written stays written, a stream that was finished or reset is never
    touched again, a step of one subscription writes only on streams of its own
    and opens only such streams (a switch may end the streams of another), a stream keeps its priority, and the stream map
    only ever leads to open streams, to each by its own key. *)
Theorem streams_append_only c r c' :
  connected c -> conn_step r c c' -> extends r c c' /\ client_ok c'.
Proof. intros Hc Hs. apply connected_ok in Hc. by destruct (conn_step_evolves r c c' Hs Hc). Qed.
End Steps.

(** ** Ending the streams of a subscription *)

Lemma drop_stream_spec e c k : client_ok c -> (forall n b, e n b <> SE_Open) ->
  send_streams (drop_stream e c k) = delete k (send_streams c) /\
  (forall n, send_streams c !! k = Some n -> ss_end <$> streams (drop_stream e c k) !! n = Some (e n (written (streams c) n))) /\
  (forall n x, streams c !! n = Some x -> send_streams c !! k <> Some n -> streams (drop_stream e c k) !! n = Some x).
Proof.
  intros Hc He. unfold drop_stream. destruct (send_streams c !! k) as [n|] eqn:Hk.
  - split_and!; [done| |].
    + intros n' [= <-]. destruct (Hc k n Hk) as (x & Hx & _). simpl. unfold end_stream. by rewrite list_lookup_alter_eq, Hx.
    + intros n' x Hx Hne. simpl. unfold end_stream. rewrite list_lookup_alter_ne; [done|congruence].
  - split_and!; [by rewrite delete_id|done|done].
Qed.

(** A way to end a stream: [close_stream], [reset_stream]. *)
Definition ends_with (e : nat -> bytes -> stream_end) (drop : Client -> SendStreamKey -> Client) : Prop :=
  (forall n b, e n b <> SE_Open) /\
  forall c k, exists l, drop c k = fold_left add_discarded_group l (drop_stream e c k).

Lemma discarded_fields l c : fold_left add_discarded_group l c =
  mkClient (streams c) (send_streams c) (datagrams c) (responses c) (plans c) (activations c) (subscriptions c) (fill_stops c)
    (discarded_groups c ++ l).
Proof.
  revert c. induction l as [|g l IH]; intros c; simpl; [rewrite app_nil_r; by destruct c|]. rewrite IH. simpl. by rewrite <- app_assoc.
Qed.
Lemma close_ends `{Closing} : ends_with closed_with close_stream.
Proof.
  split; [apply closed_not_open|]. intros c k. unfold close_stream, drop_stream. destruct (send_streams c !! k); [|by exists []].
  destruct (match closed_with _ _ with SE_Reset _ => _ | _ => _ end); [by eexists [_]|by exists []].
Qed.
Lemma reset_ends code : ends_with (fun _ _ => SE_Reset code) (reset_stream code).
Proof. split; [done|]. intros c k. by exists []. Qed.

Lemma ends_with_spec e drop c k : ends_with e drop -> client_ok c ->
  send_streams (drop c k) = delete k (send_streams c) /\
  (forall n, send_streams c !! k = Some n -> ss_end <$> streams (drop c k) !! n = Some (e n (written (streams c) n))) /\
  (forall n x, streams c !! n = Some x -> send_streams c !! k <> Some n -> streams (drop c k) !! n = Some x) /\
  client_ok (drop c k).
Proof.
  intros [He Hd] Hc. destruct (drop_stream_spec e c k Hc He) as (H1 & H2 & H3). destruct (drop_stream_evolves 0 e c k He Hc) as [Hc1 _].
  destruct (Hd c k) as [l ->]. rewrite discarded_fields. split_and!; [exact H1|exact H2|exact H3|exact Hc1].
Qed.

(** The streams a subscription has on its list are ended; no other stream is touched. *)
Lemma drop_all_spec e drop c r sub : client_ok c -> ends_with e drop ->
  let c' := fst (drop_all drop c r sub) in
  (forall s n, is_Some (send_stream_last_object_ids sub !! s) -> send_streams c !! mkSendStreamKey r s = Some n ->
     ss_end <$> streams c' !! n = Some (e n (written (streams c) n)) /\ send_streams c' !! mkSendStreamKey r s = None) /\
  (forall n x, streams c !! n = Some x ->
     (forall s, is_Some (send_stream_last_object_ids sub !! s) -> send_streams c !! mkSendStreamKey r s <> Some n) ->
     streams c' !! n = Some x).
Proof.
  intros Hc He. unfold drop_all. simpl.
  assert (Hl : forall s, is_Some (send_stream_last_object_ids sub !! s) <-> s ∈ (map_to_list (send_stream_last_object_ids sub)).*1).
  { intros s. rewrite list_elem_of_fmap. split.
    - intros [v Hv]. exists (s, v). split; [done|]. by apply elem_of_map_to_list.
    - intros ([s' v] & -> & Hin). apply elem_of_map_to_list in Hin. by exists v. }
  setoid_rewrite Hl. generalize (map_to_list (send_stream_last_object_ids sub)) as l. clear Hl. intros l. revert c Hc.
  induction l as [|[s0 v0] l IH]; intros c Hc; simpl; [split; [by intros s n Hs%elem_of_nil|done]|].
  destruct (ends_with_spec e drop c (new_send_stream_key r s0) He Hc) as (Em & Hend & Hother & Hc1).
  set (c1 := drop c (new_send_stream_key r s0)) in *. destruct (IH c1 Hc1) as [IH1 IH2].
  assert (Hkeep : forall n x, streams c1 !! n = Some x -> ss_end x <> SE_Open ->
            streams (fold_left (fun c x => drop c (new_send_stream_key r x.1)) l c1) !! n = Some x).
  { intros n x Hx Hex. apply IH2; [done|]. intros s _ Hk. destruct (Hc1 _ n Hk) as (y & Hy & _ & Hey). congruence. }
  split.
  - intros s n Hs Hk. destruct (decide (s = s0)) as [->|Hne].
    + specialize (Hend n Hk). destruct (streams c1 !! n) as [x|] eqn:Hx; [|done]. simpl in Hend. injection Hend as Hend.
      assert (streams (fold_left (fun c x => drop c (new_send_stream_key r x.1)) l c1) !! n = Some x) as ->
        by (apply Hkeep; [done|]; rewrite Hend; apply He).
      split; [simpl; by rewrite Hend|].
      destruct (send_streams (fold_left _ l c1) !! mkSendStreamKey r s0) as [n'|] eqn:Hk'; [|done]. exfalso. revert Hk'.
      assert (Hdel : forall l c, client_ok c -> send_streams c !! mkSendStreamKey r s0 = None ->
                send_streams (fold_left (fun c (x : StreamId * option Z) => drop c (new_send_stream_key r x.1)) l c) !! mkSendStreamKey r s0 = None).
      { clear - He. intros l. induction l as [|y l IH]; intros c Hc Hk; [done|]. simpl.
        destruct (ends_with_spec e drop c (new_send_stream_key r y.1) He Hc) as (Em & _ & _ & Hc1). apply IH; [done|].
        rewrite Em. apply lookup_delete_None. by right. }
      rewrite Hdel; [done..|]. rewrite Em. apply lookup_delete_eq.
    + apply elem_of_cons in Hs as [Hs|Hs]; [done|].
      assert (Hk1 : send_streams c1 !! mkSendStreamKey r s = Some n) by (rewrite Em, lookup_delete_ne; [done|]; by intros [= ?]).
      destruct (IH1 s n Hs Hk1) as [E1 E2]. split; [|done]. rewrite E1. f_equal. f_equal. unfold written.
      destruct (Hc _ n Hk) as (x & Hx & Ekx & _). rewrite Hx. rewrite (Hother n x Hx); [done|]. intros Hk0.
      destruct (Hc _ n Hk0) as (x' & Hx' & Ekx' & _). unfold new_send_stream_key in Ekx'. congruence.
  - intros n x Hx Hno. apply IH2.
    + apply Hother; [done|]. apply Hno. by left.
    + intros s Hs Hk. rewrite Em in Hk. apply lookup_delete_Some in Hk as [_ Hk]. apply (Hno s); [by right|done].
Qed.

(** ... and nothing else of the connection. *)
Lemma drop_all_fields e drop c r sub : ends_with e drop ->
  exists l m g, drop_all drop c r sub = (fold_left add_discarded_group g (set_streams c l m), with_ids sub ∅).
Proof.
  intros [_ Hd]. unfold drop_all. generalize (map_to_list (send_stream_last_object_ids sub)) as k. intros k.
  enough (exists l m g, fold_left (fun c (x : StreamId * option Z) => drop c (new_send_stream_key r x.1)) k c =
    fold_left add_discarded_group g (set_streams c l m)) as (l & m & g & ->) by by exists l, m, g.
  revert c. induction k as [|x k IH]; intros c; simpl; [by exists (streams c), (send_streams c), []; destruct c|].
  destruct (IH (drop c (new_send_stream_key r x.1))) as (l & m & g & ->). destruct (Hd c (new_send_stream_key r x.1)) as [g' ->].
  exists l, m, (g' ++ g). rewrite !discarded_fields. unfold set_streams, drop_stream. simpl.
  by destruct (send_streams c !! _); simpl; rewrite app_assoc.
Qed.

(** * Switches *)

Section Switches.
Variable responds : Z -> bool.

Lemma drain_past_end s plan b l :
  is_past_end (drain_until s plan b) l = is_past_end s l || (b <=? Common.group l).
Proof.
  unfold is_past_end, drain_until. destruct s as [? ? ? ? ? eg eo ? ? ? ? ? ? ? ? ?], l as [g o]. simpl.
  destruct eg as [e|]; simpl.
  - destruct (bool_decide (Some (Z.min e (b - 1)) = Some e)) eqn:E.
    + apply bool_decide_eq_true in E. injection E as E. rewrite E.
      destruct (Z.ltb_spec e g), (Z.eqb_spec g e), (Z.leb_spec b g), eo as [eo|]; simpl; rewrite ?orb_false_r, ?orb_true_r; try done; lia.
    + apply bool_decide_eq_false in E. assert (b - 1 < e) by (destruct (Z.min_spec e (b - 1)) as [[? M]|[? M]]; rewrite M in E; [done|]; destruct (Z.eq_dec (b - 1) e); [by subst|lia]).
      rewrite Z.min_r by lia. rewrite andb_false_r, orb_false_r.
      destruct (Z.ltb_spec (b - 1) g), (Z.ltb_spec e g), (Z.eqb_spec g e), (Z.leb_spec b g), eo as [eo|]; simpl; try done; lia.
  - rewrite andb_false_r, orb_false_r. destruct (Z.ltb_spec (b - 1) g), (Z.leb_spec b g); simpl; done || lia.
Qed.

Lemma check_drained s plan b o :
  check_object (drain_until s plan b) o = V_Passes <-> check_object s o = V_Passes /\ Common.group (obj_location o) < b.
Proof.
  unfold check_object. rewrite drain_past_end.
  change (start (drain_until s plan b)) with (start s). change (forward (drain_until s plan b)) with (forward s).
  change (range_filter (drain_until s plan b)) with (range_filter s).
  destruct (match start s with Some st => _ | None => _ end); [by split; [|intros []]|].
  destruct (Z.leb_spec b (Common.group (obj_location o))); rewrite ?orb_true_r, ?orb_false_r.
  - split; [done|]. intros [_ ?]. lia.
  - destruct (is_past_end s (obj_location o)); [by split; [|intros []]|].
    destruct (forward s), (matches_object (range_filter s) o); simpl; by split; [|intros []].
Qed.

Lemma check_from_start s o st : start s = Some st -> check_object s o = V_Passes -> Common.group st <= Common.group (obj_location o).
Proof.
  unfold check_object. intros -> Hp. destruct (Location_ltb (obj_location o) st) eqn:E; [done|].
  destruct (obj_location o), st. unfold Location_ltb in E. simpl in *. lia.
Qed.

(** The checks of a datagram but for the end. *)
Definition datagram_wanted (s : SubscriptionState) (d : Datagram) : bool :=
  check_datagram [] (set_drain (set_range s (location_filter s) (start s) None None) false false None) d.

Lemma check_datagram_ends acts s d : check_datagram acts s d =
  datagram_wanted s d && (negb (is_past_end s (mkLocation (dg_group_id d) (dg_object_id d))) || awaiting_switch_activation acts s).
Proof.
  unfold datagram_wanted, check_datagram. cbn [start forward range_filter set_drain set_range].
  change (is_past_end (set_drain (set_range s _ _ None None) _ _ _) _) with false.
  destruct (match start s with Some _ => _ | None => _ end); [done|]. destruct (is_past_end _ _), (awaiting_switch_activation _ _), (forward s); simpl;
    by rewrite ?andb_true_r, ?andb_false_r.
Qed.

(** C18: a soft switch meets at its boundary.  Once it is scheduled with a Start
    Group that is not 0, the subscription it suspends lets through exactly the objects of
    streams it let through before that are in an earlier group, and nothing of the
    boundary group or later; the subscription it activates is forwarding and
    lets through objects from its Start Location on only.  So of objects on streams no
    group is delivered by both, and what the suspended one was to deliver before the
    boundary it still delivers: nothing that is under way is cut.  Datagrams are another
    matter: the activated one lets through only those from its Start Location on, but the
    suspended one goes on with them past the boundary, and past any end it had, until the
    activated one has delivered something; from then on it lets through those that it
    let through before and that are in an earlier group. *)
Theorem soft_switch_seam c r suspending done filter largest A S st :
  subscriptions c !! r = Some A -> subscriptions c !! suspending = Some S -> r <> suspending ->
  start (activate (subscription_state A) filter largest) = Some st -> 0 < Common.group st ->
  let c' := begin_switch c r suspending SM_Soft done filter largest in
  exists A' S', subscriptions c' !! r = Some A' /\ subscriptions c' !! suspending = Some S' /\
    (forall o, check_object (subscription_state S') o = V_Passes <->
       check_object (subscription_state S) o = V_Passes /\ Common.group (obj_location o) < Common.group st) /\
    forward (subscription_state A') = true /\
    (forall o, check_object (subscription_state A') o = V_Passes -> Common.group st <= Common.group (obj_location o)) /\
    (forall o o', check_object (subscription_state S') o = V_Passes -> check_object (subscription_state A') o' = V_Passes ->
       Common.group (obj_location o) < Common.group (obj_location o')) /\
    (forall acts d, check_datagram acts (subscription_state A') d = true -> Common.group st <= dg_group_id d) /\
    (forall d, check_datagram (activations c') (subscription_state S') d = datagram_wanted (subscription_state S) d) /\
    (forall plan d, plans c' !! r = Some plan ->
       check_datagram (mark (activations c') (activated plan)) (subscription_state S') d = true <->
       datagram_wanted (subscription_state S) d = true /\
       is_past_end (subscription_state S) (mkLocation (dg_group_id d) (dg_object_id d)) = false /\ dg_group_id d < Common.group st) /\
    streams c' = streams c /\ send_streams c' = send_streams c /\ fill_streams S' = fill_streams S.
Proof.
  clear responds. intros HA HS Hne Est Hb c'. set (s1 := activate (subscription_state A) filter largest) in *.
  set (a := length (activations c)). set (plan := mkSwitchPlan suspending SM_Soft done (Some (Common.group st)) a).
  assert (E : exists A' S', subscriptions c' !! r = Some A' /\ subscriptions c' !! suspending = Some S' /\
            subscription_state A' = s1 /\ subscription_state S' = drain_until (subscription_state S) plan (Common.group st) /\
            activations c' = activations c ++ [false] /\ plans c' !! r = Some plan /\
            streams c' = streams c /\ send_streams c' = send_streams c /\ fill_streams S' = fill_streams S).
  { subst c'. unfold begin_switch. rewrite HA. fold s1. rewrite Est. cbn [fmap option_fmap option_map]. cbn [boundary].
    change (length (activations (put _ _ _))) with a. fold plan.
    unfold suspend_at. rewrite bool_decide_true by done. cbn [negb orb].
    assert (Common.group st =? 0 = false) as -> by (apply Z.eqb_neq; lia).
    unfold on. cbn [subscriptions set_plans put set_subscriptions suspending_request_id plan].
    rewrite lookup_insert_ne, HS by done. cbn [subscriptions set_plans put set_subscriptions].
    rewrite lookup_insert_ne, lookup_insert_eq by done. cbn [subscriptions set_plans put set_subscriptions].
    eexists _, _. split_and!; [by rewrite lookup_insert_eq|by rewrite lookup_insert_ne, lookup_insert_eq by done|done|done|done|apply lookup_insert_eq|done..]. }
  destruct E as (A' & S' & HA' & HS' & EA & ES & Eact & Epl & Estr & Emap & Efill). exists A', S'. rewrite EA, ES, Eact, Epl.
  assert (HfromA : forall o, check_object s1 o = V_Passes -> Common.group st <= Common.group (obj_location o))
    by (intros o; by apply check_from_start).
  set (S1 := drain_until _ _ _). assert (Hw : forall d, datagram_wanted S1 d = datagram_wanted (subscription_state S) d) by done.
  split_and!; try done.
  - intros o. apply check_drained.
  - intros o o' Ho Ho'. apply check_drained in Ho as [_ Ho]. apply HfromA in Ho'. lia.
  - intros acts d. unfold check_datagram. rewrite Est. destruct (Location_ltb _ st) eqn:El; [done|]. intros _.
    unfold Location_ltb in El. simpl in El. lia.
  - intros d. rewrite check_datagram_ends, Hw. assert (awaiting_switch_activation (activations c ++ [false]) S1 = true) as ->.
    { unfold awaiting_switch_activation. simpl. by rewrite (list_lookup_middle (activations c) [] false a). }
    by rewrite orb_true_r, andb_true_r.
  - intros plan' d [= <-]. rewrite check_datagram_ends, Hw. unfold S1 at 1. rewrite drain_past_end. cbn [Common.group].
    assert (awaiting_switch_activation (mark (activations c ++ [false]) (activated plan)) S1 = false) as ->.
    { unfold awaiting_switch_activation, mark. simpl. unfold a. by rewrite list_lookup_insert_eq by (rewrite length_app; simpl; lia). }
    rewrite orb_false_r, andb_true_iff, negb_true_iff, orb_false_iff, Z.leb_gt. tauto.
Qed.

Lemma check_received s l o : check_object (update_last_received_object_location s l) o = check_object s o.
Proof. unfold update_last_received_object_location. by destruct (move_on _ _ _). Qed.
Lemma received_drain s l :
  let s' := update_last_received_object_location s l in
  soft_suspended s' = soft_suspended s /\ publish_done_at_end s' = publish_done_at_end s.
Proof. unfold update_last_received_object_location. by destruct (move_on _ _ _). Qed.

Definition switched_away_done (sub : Subscription) : PublishDone :=
  mkPublishDone PDS_TrackEnded (opened_stream_count sub) (mkReasonPhrase SWITCHED_AWAY).
Lemma send_switched_away_sends c r sub : responds r = true ->
  send_switched_away responds c r sub = add_response c (r, switched_away_done sub).
Proof. intros Hr. unfold send_switched_away, send_publish_done. by rewrite Hr. Qed.

(** The streams of the subscription at hand, ended with [e]. *)
Definition streams_ended_by (e : nat -> bytes -> stream_end) (r : Z) (sub : Subscription) (c c' : Client) : Prop :=
  (forall id n, is_Some (send_stream_last_object_ids sub !! id) -> send_streams c !! mkSendStreamKey r id = Some n ->
     ss_end <$> streams c' !! n = Some (e n (written (streams c) n)) /\ send_streams c' !! mkSendStreamKey r id = None) /\
  (forall n x, streams c !! n = Some x ->
     (forall id, is_Some (send_stream_last_object_ids sub !! id) -> send_streams c !! mkSendStreamKey r id <> Some n) ->
     streams c' !! n = Some x).

Definition streams_ended (e : stream_end) : Z -> Subscription -> Client -> Client -> Prop := streams_ended_by (fun _ _ => e).

(** The end of a soft switch.  The first object past its boundary stops the
    subscription that drains: it forwards no more.  If the switch asked for
    it, the subscription is over: each of its streams is closed, no other
    stream is touched, and the subscriber gets one PUBLISH_DONE, with the
    number of streams that were opened; otherwise its streams stay for the
    publisher to end, and it could be updated to forward again. *)
Theorem soft_drain_ends `{Target} `{Closing} opens write_all sends_datagram c r sub active s o hi :
  let st := subscription_state sub in
  client_ok c -> responds r = true -> finished sub = false -> soft_suspended st = true ->
  check_object st (with_alias (track_alias sub) o) = V_PastEnd ->
  exists c' sub', handle_track_event opens write_all sends_datagram responds c r sub active true (TE_SubgroupObject s o hi) = Ok c' /\
    subscriptions c' !! r = Some sub' /\ forward (subscription_state sub') = false /\ soft_suspended (subscription_state sub') = false /\
    finished sub' = publish_done_at_end st /\
    if publish_done_at_end st
    then responses c' = responses c ++ [(r, switched_away_done sub)] /\ streams_ended_by closed_with r sub c c'
    else streams c' = streams c /\ responses c' = responses c.
Proof.
  intros st Hc Hr Hfin Hsoft Hcheck. set (l := obj_location (with_alias (track_alias sub) o)).
  destruct (received_drain st l) as [Es Ed]. cbn [handle_track_event]. unfold handle_subgroup_object. cbn [negb]. fold st l.
  set (sub1 := with_state sub (update_last_received_object_location st l)).
  change (subscription_state sub1) with (update_last_received_object_location st l). rewrite check_received, Hcheck, Es, Hsoft.
  cbn [obind finally]. unfold finish_soft_drain, on. cbn [subscriptions put set_subscriptions]. rewrite lookup_insert_eq.
  change (subscription_state sub1) with (update_last_received_object_location st l). rewrite Es, Hsoft, Ed. cbn [negb].
  destruct (publish_done_at_end st) eqn:Edone.
  - rewrite send_switched_away_sends by done. set (sub2 := with_state sub1 _). unfold finish.
    change (finished sub2) with (finished sub). rewrite Hfin. set (c1 := add_response _ _).
    destruct (drop_all_spec closed_with close_stream c1 r (with_finished sub2 true)) as [H1 H2]; [exact Hc|apply close_ends|].
    destruct (drop_all_fields closed_with close_stream c1 r (with_finished sub2 true)) as (ls & m & g & E); [apply close_ends|].
    rewrite E, discarded_fields in H1, H2 |- *.
    eexists _, _. split; [reflexivity|]. split; [by simpl; rewrite lookup_insert_eq|]. by split_and!.
  - eexists _, _. split; [reflexivity|]. split; [by simpl; rewrite lookup_insert_eq|]. by split_and!.
Qed.

(** C31: a hard switch cuts when it delivers.  The first object the activating
    subscription has delivered takes the plan, so that it happens once, and the
    subscription it suspends forwards no more, has each of its streams
    reset with CANCELLED and its fills cancelled; the subscriber gets a PUBLISH_DONE
    for it exactly if the switch asked for one.  No other stream is touched. *)
Theorem hard_switch_cuts c r plan group S :
  let id := suspending_request_id plan in
  client_ok c -> plans c !! r = Some plan -> plan_mode plan = SM_Hard -> subscriptions c !! id = Some S -> responds id = true ->
  let c' := complete_switch responds c r group in
  exists S', subscriptions c' !! id = Some S' /\ forward (subscription_state S') = false /\ fill_streams S' = [] /\
    plans c' !! r = None /\ finished S' = finished S /\
    fill_stops c' = fill_stops c ++ map (fun i => (i, FS_Cancelled)) (fill_streams S) /\
    streams_ended (SE_Reset SRC_Cancelled) id S c c' /\
    responses c' = responses c ++ (if publish_done plan then [(id, switched_away_done S)] else []).
Proof.
  intros id Hc Hplan Hmode HS Hr c'. subst c'. unfold complete_switch. rewrite Hplan, Hmode. cbn zeta.
  unfold cut_suspending, on. fold id. cbn [subscriptions set_plans]. rewrite HS. cbn [stop_fill_streams].
  set (sub1 := with_fills _ _). set (c1 := add_fill_stops _ _). unfold reset_data_streams.
  destruct (drop_all_spec (fun _ _ => SE_Reset SRC_Cancelled) (reset_stream SRC_Cancelled) c1 id sub1) as [H1 H2]; [exact Hc|apply reset_ends|].
  destruct (drop_all_fields (fun _ _ => SE_Reset SRC_Cancelled) (reset_stream SRC_Cancelled) c1 id sub1) as (ls & m & g & E); [apply reset_ends|].
  rewrite E, discarded_fields in H1, H2 |- *. cbn [fst] in H1, H2.
  destruct (publish_done plan); [rewrite send_switched_away_sends by done|]; eexists; (split; [by simpl; rewrite lookup_insert_eq|]);
    split_and!; try done; simpl; [apply lookup_delete_eq..|by rewrite app_nil_r].
Qed.
End Switches.

(** * Examples *)

#[local] Existing Instance prompt.
(** A connection with one subscription, in the state [s], and one stream of it open. *)
Definition demo_sub (s : SubscriptionState) : Subscription :=
  with_ids (with_count (Subscription_new 3 9 s) 1) {[demo_sid := Some 1]}.
Definition demo_connection (s : SubscriptionState) (p : gmap Z SwitchPlan) : Client :=
  mkClient [mkSentStream (mkSendStreamKey 0 demo_sid) 0 [] SE_Open] {[mkSendStreamKey 0 demo_sid := 0%nat]} [] [] p [false]
    {[0 := demo_sub s; 1 := Subscription_new 4 10 demo_state]} [] [].

Lemma demo_connection_ok s p : client_ok (demo_connection s p).
Proof. intros k n Hk. simpl in Hk. apply lookup_singleton_Some in Hk as [<- <-]. by eexists. Qed.

Lemma streams_append_only_witness :
  let H := debug_build in
  let c := demo_client demo_state [demo_event demo_header true 1] in
  exists c', conn_step always never_fails (fun _ => true) (fun _ => true) 0 0 c c' /\ length (streams c') = 1%nat /\
    extends 0 c c' /\ client_ok c'.
Proof.
  intros H c. eexists. split; [apply (step_receive _ _ _ _ _ _ _ ∅ true false); vm_compute; reflexivity|].
  split; [reflexivity|]. apply (streams_append_only always never_fails (fun _ => true) (fun _ => true) 0).
  - eapply rtc_l; [exists 0; apply (step_subscribe _ _ _ _ _ 0 Client_new 3 9 demo_state); reflexivity|].
    eapply rtc_l; [exists 0; eapply (step_send _ _ _ _ _ 0 _ _ [] (demo_event demo_header true 1)); reflexivity|].
    match goal with |- rtc _ ?c1 c => assert (c1 = c) as -> by (vm_compute; reflexivity) end. apply rtc_refl.
  - apply (step_receive _ _ _ _ _ _ _ ∅ true false). vm_compute. reflexivity.
Defined.

Lemma soft_switch_seam_witness :
  let c := demo_connection demo_state ∅ in
  let c' := begin_switch c 1 0 SM_Soft true (Some (LF_AbsoluteStart (mkLocation 8 0))) None in
  exists A' S', subscriptions c' !! 1 = Some A' /\ subscriptions c' !! 0 = Some S' /\
    (forall o o', check_object (subscription_state S') o = V_Passes -> check_object (subscription_state A') o' = V_Passes ->
       Common.group (obj_location o) < Common.group (obj_location o')) /\ streams c' = streams c.
Proof.
  intros c c'.
  destruct (soft_switch_seam c 1 0 true (Some (LF_AbsoluteStart (mkLocation 8 0))) None (Subscription_new 4 10 demo_state)
    (demo_sub demo_state) (mkLocation 8 0)) as (A' & S' & HA & HS & _ & _ & _ & Hsep & _ & _ & _ & Hstr & _);
    [reflexivity|reflexivity|lia|reflexivity|simpl; lia|].
  exists A', S'. by split_and!.
Defined.

Definition draining_state : SubscriptionState := set_drain (set_range demo_state LF_None None (Some 4) None) true true (Some 0%nat).
Lemma soft_drain_ends_witness :
  let H := debug_build in
  let c := demo_connection draining_state ∅ in
  let o := object_of demo_header 7 (demo_object 1) in
  exists c' sub', handle_track_event always never_fails (fun _ => true) (fun _ => true) c 0 (demo_sub draining_state) ∅ true
      (TE_SubgroupObject demo_sid o None) = Ok c' /\ subscriptions c' !! 0 = Some sub' /\ finished sub' = true /\
    streams_ended_by closed_with 0 (demo_sub draining_state) c c'.
Proof.
  intros H c o. destruct (soft_drain_ends (fun _ => true) always never_fails (fun _ => true) c 0 (demo_sub draining_state) ∅ demo_sid o None)
    as (c' & sub' & E & Hs & _ & _ & Hf & Hdone); [apply demo_connection_ok|reflexivity..|].
  exists c', sub'. split_and!; [exact E|exact Hs|exact Hf|apply Hdone].
Defined.

Lemma hard_switch_cuts_witness :
  let c := demo_connection demo_state {[1 := mkSwitchPlan 0 SM_Hard true None 0]} in
  let c' := complete_switch (fun _ => true) c 1 5 in
  exists S', subscriptions c' !! 0 = Some S' /\ forward (subscription_state S') = false /\
    responses c' = [(0, switched_away_done (demo_sub demo_state))] /\ streams_ended (SE_Reset SRC_Cancelled) 0 (demo_sub demo_state) c c'.
Proof.
  intros c c'. destruct (hard_switch_cuts (fun _ => true) c 1 (mkSwitchPlan 0 SM_Hard true None 0) 5 (demo_sub demo_state))
    as (S' & HS & Hf & _ & _ & _ & _ & He & Hr); [apply demo_connection_ok|reflexivity..|].
  exists S'. by split_and!.
Defined.

(** A soft switch whose Start Group is 0 suspends nothing, neither now nor when
    the other subscription delivers: both go on. *)
Example boundary_zero_suspends_nothing :
  let c := begin_switch (demo_connection demo_state ∅) 1 0 SM_Soft true (Some (LF_AbsoluteStart (mkLocation 0 0))) None in
  (subscription_state <$> subscriptions (complete_switch (fun _ => true) c 1 0) !! 0) = Some demo_state.
Proof. reflexivity. Qed.

(** A stream that starts in the middle of a subgroup goes on the list of the
    subscription with its first object.  When that object cannot be written, no
    later event ends the stream: not the end of the subscription either. *)
Example stream_without_object_leaks :
  let H := debug_build in
  let bad := object_of demo_header 7 (mkSubgroupObject 1 None None None) in
  match demo_run never_fails (set_range demo_state LF_None (Some (mkLocation 5 1)) None None)
    [demo_event demo_header true 0; TE_SubgroupObject demo_sid bad None; TE_PublisherDisconnected PDS_TrackEnded []] with
  | Ok c => map ss_end (streams c) = [SE_Open] /\ finished <$> subscriptions c !! 0 = Some true
  | _ => False
  end.
Proof. vm_compute. by split. Qed.
