(* ===== verification/Tracks.v ===== *)
(** A track at the relay: its subscribers, what feeds it, and the way objects take
    through it ([apps/relay/src/server/track.rs], [subscription_manager.rs], the
    data streams of [session.rs]).

    A channel to a subscriber is the list of all that was put in; a task reads
    its own from the front ([Forwarding.receive]).  Each operation is one step.
    A track is at rest in three parts here: what is known of its objects
    ([Content]), of its publishers ([Upstream]), and of its subscribers
    ([SubscriptionManager]). *)
From stdpp Require Import gmap.
From S2P Require Import Prelude Varint Common Codes LocationFilter Properties MessageParameter CombinedFilter.
From S2P Require Import Control Subgroup Datagram FetchObject ObjectForms DataStream SeenObjects TrackCache.
From S2P Require Import Streams Subscription Forwarding.

(** * Subscribers ([subscription_manager.rs]) *)

(** Connection ID and Request ID. *)
Abbreviation SubscriptionId := (Z * Z)%type.

(** A subscription and a sender are known by the number of their channel; the maps in
    partitions are one map. *)
Record SubscriptionManager := mkSubscriptionManager {
  sm_subscriptions : gmap SubscriptionId nat;
  subscriber_request_ids : gmap Z (gset Z);
  subscriber_senders : gmap SubscriptionId nat;
  channels : list (list TrackEvent)
}.
Definition SubscriptionManager_new : SubscriptionManager := mkSubscriptionManager ∅ ∅ ∅ [].

(** [None] when there is such a subscription. *)
Definition sm_add_subscription (m : SubscriptionManager) (id : SubscriptionId) : option (SubscriptionManager * nat) :=
  match sm_subscriptions m !! id with
  | Some _ => None
  | None =>
      let n := length (channels m) in
      Some (mkSubscriptionManager (<[id := n]> (sm_subscriptions m))
              (<[fst id := default ∅ (subscriber_request_ids m !! fst id) ∪ {[snd id]}]> (subscriber_request_ids m))
              (<[id := n]> (subscriber_senders m)) (channels m ++ [[]]), n)
  end.

Definition has_any_subscription (m : SubscriptionManager) (subscriber_id : Z) : bool :=
  match subscriber_request_ids m !! subscriber_id with Some s => negb (bool_decide (s = ∅)) | None => false end.
Definition sm_exists (m : SubscriptionManager) (id : SubscriptionId) : bool :=
  match subscriber_request_ids m !! fst id with Some s => bool_decide (snd id ∈ s) | None => false end.
Definition subscriber_count (m : SubscriptionManager) : nat := size (sm_subscriptions m).

Definition drop_request_id (ids : gmap Z (gset Z)) (id : SubscriptionId) : gmap Z (gset Z) :=
  match ids !! fst id with
  | Some s => if bool_decide (s ∖ {[snd id]} = ∅) then delete (fst id) ids else <[fst id := s ∖ {[snd id]}]> ids
  | None => ids
  end.

(** Also gives the subscription to cancel. *)
Definition sm_remove_subscription (m : SubscriptionManager) (id : SubscriptionId) : SubscriptionManager * option nat :=
  (mkSubscriptionManager (delete id (sm_subscriptions m)) (drop_request_id (subscriber_request_ids m) id)
     (delete id (subscriber_senders m)) (channels m),
   sm_subscriptions m !! id).

(** The request IDs of the subscriber, one after the other. *)
Definition sm_remove_subscriptions (m : SubscriptionManager) (subscriber_id : Z) : SubscriptionManager :=
  fold_left (fun m request_id => fst (sm_remove_subscription m (subscriber_id, request_id)))
    (elements (default ∅ (subscriber_request_ids m !! subscriber_id))) m.

(** The subscriptions that are to forget their requests. *)
Definition detach_all (m : SubscriptionManager) : SubscriptionManager * list SubscriptionId :=
  (mkSubscriptionManager ∅ ∅ ∅ (channels m), map fst (map_to_list (sm_subscriptions m))).

Definition reaches (m : SubscriptionManager) (n : nat) : bool :=
  existsb (fun x : SubscriptionId * nat => Nat.eqb (snd x) n) (map_to_list (subscriber_senders m)).
Definition send_event_to_subscribers (m : SubscriptionManager) (event : TrackEvent) : SubscriptionManager :=
  mkSubscriptionManager (sm_subscriptions m) (subscriber_request_ids m) (subscriber_senders m)
    (imap (fun n q => if reaches m n then q ++ [event] else q) (channels m)).

(** * Publishers *)

(** [PublisherStreamProgress]. *)
Definition progress_stream_closed `{Target} (closed : gmap Z Z) (publisher_connection_id : Z) : panics (gmap Z Z) :=
  let? n := add_u64 (default 0 (closed !! publisher_connection_id)) 1 in
  Ok (<[publisher_connection_id := n]> closed).
Definition closed_count (closed : gmap Z Z) (publisher_connection_id : Z) : Z :=
  default 0 (closed !! publisher_connection_id).
Definition progress_forget (closed : gmap Z Z) (publisher_connection_id : Z) : gmap Z Z :=
  delete publisher_connection_id closed.

Inductive UpstreamRequestKind : Type := URK_Subscribe | URK_Fetch.
Inductive UpstreamRequestCancellation : Type := URC_Cancelled | URC_MalformedTrack.
#[export] Instance UpstreamRequestKind_eq_dec : EqDecision UpstreamRequestKind.
Proof. solve_decision. Defined.

Record UpstreamRequest := mkUpstreamRequest {
  ur_request_id : Z;
  publisher_connection_id : Z;
  ur_kind : UpstreamRequestKind
}.

(** The requests registered, and the signals sent, in their order.  [gone] tells whose
    receiver has been dropped. *)
Record UpstreamRequests := mkUpstreamRequests {
  registered : list UpstreamRequest;
  signals : list (Z * UpstreamRequestCancellation)
}.
Definition unregister (self : UpstreamRequests) (request_id : Z) : UpstreamRequests :=
  mkUpstreamRequests (List.filter (fun r => negb (ur_request_id r =? request_id)) (registered self)) (signals self).
Definition register (gone : Z -> bool) (self : UpstreamRequests) (request_id publisher_connection_id : Z)
    (kind : UpstreamRequestKind) : UpstreamRequests :=
  let kept := mkUpstreamRequests (List.filter (fun r => negb (gone (ur_request_id r))) (registered self)) (signals self) in
  let kept := unregister kept request_id in
  mkUpstreamRequests (registered kept ++ [mkUpstreamRequest request_id publisher_connection_id kind]) (signals kept).
Definition cancel_matching (gone : Z -> bool) (self : UpstreamRequests) (matches : UpstreamRequest -> bool)
    (reason : UpstreamRequestCancellation) : UpstreamRequests :=
  fold_left (fun acc r =>
      if gone (ur_request_id r) then acc
      else if matches r then mkUpstreamRequests (registered acc) (signals acc ++ [(ur_request_id r, reason)])
      else mkUpstreamRequests (registered acc ++ [r]) (signals acc))
    (registered self) (mkUpstreamRequests [] (signals self)).
Definition cancel_for_malformed_publisher (gone : Z -> bool) (self : UpstreamRequests) (connection_id : Z) : UpstreamRequests :=
  let self := cancel_matching gone self (fun r => publisher_connection_id r =? connection_id) URC_MalformedTrack in
  let self := cancel_matching gone self (fun r => bool_decide (ur_kind r = URK_Fetch)) URC_MalformedTrack in
  cancel_matching gone self (fun _ => true) URC_Cancelled.

Inductive TrackOrigin : Type := TO_Subscribe | TO_Publish | TO_CacheOnly.
#[export] Instance TrackOrigin_eq_dec : EqDecision TrackOrigin.
Proof. solve_decision. Defined.

Inductive TrackStatus : Type :=
| TS_Pending
| TS_Confirmed (upstream_parameters : list MessageParameter)
| TS_Rejected (error_code : RequestErrorCode) (reason_phrase : ReasonPhrase).

Record Upstream := mkUpstream {
  origin : TrackOrigin;
  status : TrackStatus;
  publisher_aliases : gmap Z Z;
  stream_progress : gmap Z Z;
  upstream_requests : UpstreamRequests;
  pending_upstream_subscribe_count : Z;
  upstream_forward : bool
}.

(** * The track *)

Record Content := mkContent {
  cache : TrackCache;
  largest_location : Location;
  seen_objects : SeenObjects;
  has_objects : bool;
  active_subgroup_headers : gmap StreamId HeaderInfo
}.

Record Track := mkTrack {
  t_relay_track_id : Z;
  content : Content;
  upstream : Upstream;
  manager : SubscriptionManager;
  track_properties : list TrackProperty
}.

Definition Track_new (relay_track_id : Z) (dedup_retained_groups : nat) (initial_status : TrackStatus) (origin : TrackOrigin) : Track :=
  mkTrack relay_track_id
    (mkContent TrackCache_new (mkLocation 0 0) (SeenObjects_new dedup_retained_groups) false ∅)
    (mkUpstream origin initial_status ∅ ∅ (mkUpstreamRequests [] []) 0 false)
    SubscriptionManager_new [].

Definition with_content (t : Track) (c : Content) : Track :=
  mkTrack (t_relay_track_id t) c (upstream t) (manager t) (track_properties t).
Definition with_upstream (t : Track) (u : Upstream) : Track :=
  mkTrack (t_relay_track_id t) (content t) u (manager t) (track_properties t).
Definition with_manager (t : Track) (m : SubscriptionManager) : Track :=
  mkTrack (t_relay_track_id t) (content t) (upstream t) m (track_properties t).
Definition with_properties (t : Track) (ps : list TrackProperty) : Track :=
  mkTrack (t_relay_track_id t) (content t) (upstream t) (manager t) ps.
Definition with_cache (c : Content) (tc : TrackCache) : Content :=
  mkContent tc (largest_location c) (seen_objects c) (has_objects c) (active_subgroup_headers c).
Definition with_seen (c : Content) (s : SeenObjects) : Content :=
  mkContent (cache c) (largest_location c) s (has_objects c) (active_subgroup_headers c).
Definition with_active (c : Content) (m : gmap StreamId HeaderInfo) : Content :=
  mkContent (cache c) (largest_location c) (seen_objects c) (has_objects c) m.
Definition with_requests (u : Upstream) (r : UpstreamRequests) : Upstream :=
  mkUpstream (origin u) (status u) (publisher_aliases u) (stream_progress u) r (pending_upstream_subscribe_count u) (upstream_forward u).
Definition with_status (u : Upstream) (s : TrackStatus) : Upstream :=
  mkUpstream (origin u) s (publisher_aliases u) (stream_progress u) (upstream_requests u)
    (pending_upstream_subscribe_count u) (upstream_forward u).
Definition with_origin (u : Upstream) (o : TrackOrigin) : Upstream :=
  mkUpstream o (status u) (publisher_aliases u) (stream_progress u) (upstream_requests u)
    (pending_upstream_subscribe_count u) (upstream_forward u).
Definition with_aliases (u : Upstream) (a : gmap Z Z) (p : gmap Z Z) : Upstream :=
  mkUpstream (origin u) (status u) a p (upstream_requests u) (pending_upstream_subscribe_count u) (upstream_forward u).

(** ** Publishers and requests *)

Definition cancel_upstream_requests_of_kind (gone : Z -> bool) (u : Upstream) (kind : UpstreamRequestKind)
    (reason : UpstreamRequestCancellation) : Upstream :=
  with_requests u (cancel_matching gone (upstream_requests u) (fun r => bool_decide (ur_kind r = kind)) reason).
Definition cancel_upstream_request (gone : Z -> bool) (u : Upstream) (request_id : Z) (reason : UpstreamRequestCancellation) : Upstream :=
  with_requests u (cancel_matching gone (upstream_requests u) (fun r => ur_request_id r =? request_id) reason).

Definition upstream_subscribe_answered (u : Upstream) : Upstream * Z :=
  let count := pending_upstream_subscribe_count u in
  if 0 <? count
  then (mkUpstream (origin u) (status u) (publisher_aliases u) (stream_progress u) (upstream_requests u) (count - 1) (upstream_forward u),
        count - 1)
  else (u, 0).

Definition take_over (u : Upstream) (origin' : TrackOrigin) (status' : TrackStatus) : Upstream * bool :=
  if bool_decide (origin u = TO_CacheOnly) then (with_status (with_origin u origin') status', true) else (u, false).

Inductive Cleanup : Type := CL_Nothing | CL_RemoveAliases (aliases : list (Z * Z)) | CL_RemoveTrack.

Definition become_cache_only (gone : Z -> bool) (t : Track) : Track * Cleanup :=
  if is_empty (cache (content t)) then (t, CL_RemoveTrack)
  else
    let u := upstream t in
    let aliases := map_to_list (publisher_aliases u) in
    let progress := fold_left (fun p (a : Z * Z) => progress_forget p (fst a)) aliases (stream_progress u) in
    let u := mkUpstream (origin u) TS_Pending ∅ progress (upstream_requests u) (pending_upstream_subscribe_count u) (upstream_forward u) in
    let u := cancel_upstream_requests_of_kind gone u URK_Subscribe URC_Cancelled in
    let u := mkUpstream TO_CacheOnly (status u) (publisher_aliases u) (stream_progress u) (upstream_requests u) 0 false in
    (with_upstream (with_content t (with_active (content t) ∅)) u, CL_RemoveAliases aliases).

(** Also gives the channel of the subscription to cancel. *)
Definition remove_subscriber (gone : Z -> bool) (t : Track) (leaving : SubscriptionId) : Track * Cleanup * option nat :=
  let '(m, cancelled) := sm_remove_subscription (manager t) leaving in
  let t := with_manager t m in
  if negb (Nat.eqb (subscriber_count m) 0) then (t, CL_Nothing, cancelled)
  else
    let t := with_upstream t (cancel_upstream_requests_of_kind gone (upstream t) URK_Subscribe URC_Cancelled) in
    if negb (bool_decide (origin (upstream t) = TO_Subscribe)) then (t, CL_Nothing, cancelled)
    else let '(t, cleanup) := become_cache_only gone t in (t, cleanup, cancelled).

(** Also gives the subscriptions detached. *)
Definition retire (gone : Z -> bool) (t : Track) : Track * Cleanup * list SubscriptionId :=
  let '(t, cleanup) := become_cache_only gone t in
  match cleanup with
  | CL_RemoveAliases _ => let '(m, ids) := detach_all (manager t) in (with_manager t m, cleanup, ids)
  | _ => (t, cleanup, [])
  end.

Definition has_forwarding_subscriber (is_forwarding : SubscriptionId -> bool) (t : Track) : bool :=
  existsb (fun x => is_forwarding (fst x)) (map_to_list (sm_subscriptions (manager t))).

Definition add_publisher (u : Upstream) (connection_id track_alias : Z) : Upstream :=
  with_aliases u (<[connection_id := track_alias]> (publisher_aliases u)) (stream_progress u).

Definition take_publisher (u : Upstream) (connection_id : Z) : Upstream * option Z * bool :=
  let aliases := delete connection_id (publisher_aliases u) in
  (with_aliases u aliases (stream_progress u), publisher_aliases u !! connection_id, negb (bool_decide (aliases = ∅))).

(** "Publisher disconnected" *)
Definition PUBLISHER_DISCONNECTED : bytes :=
  [80; 117; 98; 108; 105; 115; 104; 101; 114; 32; 100; 105; 115; 99; 111; 110; 110; 101; 99; 116; 101; 100].

Definition notify_publish_done (t : Track) (status_code : PublishDoneStatusCode) (reason : bytes) : Track :=
  with_manager t (send_event_to_subscribers (manager t) (TE_PublisherDisconnected status_code reason)).
Definition notify_publisher_disconnected (t : Track) : Track := notify_publish_done t PDS_TrackEnded PUBLISHER_DISCONNECTED.

(** The alias, and whether the track is still served. *)
Definition remove_publisher (t : Track) (connection_id : Z) : Track * option (Z * bool) :=
  match take_publisher (upstream t) connection_id with
  | (u, None, _) => (with_upstream t u, None)
  | (u, Some alias, still_served) =>
      let t := with_upstream t (with_aliases u (publisher_aliases u) (progress_forget (stream_progress u) connection_id)) in
      ((if still_served then t else notify_publisher_disconnected t), Some (alias, still_served))
  end.
Definition remove_publisher_quietly (t : Track) (connection_id : Z) : Track * bool :=
  let '(u, _, still_served) := take_publisher (upstream t) connection_id in (with_upstream t u, still_served).

Definition confirm (t : Track) (publisher_connection_id publisher_track_alias : Z) (upstream_parameters : list MessageParameter)
    (properties : list TrackProperty) : Track * bool :=
  let u := add_publisher (upstream t) publisher_connection_id publisher_track_alias in
  let t := with_properties (with_upstream t u) properties in
  match status u with
  | TS_Pending => (with_upstream t (with_status u (TS_Confirmed upstream_parameters)), true)
  | _ => (t, false)
  end.
Definition reject (t : Track) (error_code : RequestErrorCode) (reason_phrase : ReasonPhrase) : Track :=
  with_upstream t (with_status (upstream t) (TS_Rejected error_code reason_phrase)).

(** ** Subscribing *)

Definition largest_object (t : Track) : option Location :=
  if has_objects (content t) then Some (largest_location (content t)) else None.

(** [None]: there is such a subscription. *)
Definition add_subscription `{Target} (t : Track) (connection_id : Z) (o : SubscriptionOrigin) (assigned_alias : Z)
    : panics (option (Track * Subscription * nat)) :=
  let track_alias := match o with SO_Publish p => pub_track_alias p | SO_Subscribe _ => assigned_alias end in
  let? s := SubscriptionState_from o in
  match sm_add_subscription (manager t) (connection_id, origin_request_id o) with
  | None => Ok None
  | Some (m, n) =>
      let s := resolve_live_start s (largest_object t) in
      Ok (Some (with_manager t m, Subscription_new (t_relay_track_id t) track_alias s, n))
  end.

(** * Objects coming in *)

Definition record_arrival (c : Content) (object : Object) : Content :=
  let l := obj_location object in
  mkContent (cache c) (if Location_ltb (largest_location c) l then l else largest_location c) (seen_objects c) true
    (active_subgroup_headers c).

Definition cache_fetched_object (t : Track) (object : Object) : Track :=
  let c := content t in
  let c := match try_into_fetch object with Ok fetch_object => with_cache c (add_object (cache c) fetch_object) | _ => c end in
  with_content t (record_arrival c object).

(** The [unwrap] is on the next Location. *)
Definition group_ended_after (c : TrackCache) (last : Location) : panics TrackCache :=
  if Common.object last <? U64_MAX then
    match Location_next last with
    | Some next => Ok (mark_absent c next (mkLocation (Common.group last) U64_MAX))
    | None => Panic
    end
  else Ok c.

Definition note_property (location : Location) (c : TrackCache) (property : ObjectProperty) : TrackCache :=
  let '(mkLocation group id) := location in
  match property with
  | OP_PriorObjectIdGap gap =>
      if (0 <? gap) && (gap <=? id) then mark_absent c (mkLocation group (id - gap)) (mkLocation group (id - 1)) else c
  | OP_PriorGroupIdGap gap =>
      if (0 <? gap) && (gap <=? group) then mark_absent c (mkLocation (group - gap) 0) (mkLocation (group - 1) U64_MAX) else c
  | _ => c
  end.

Definition note_absent (c : TrackCache) (object : Object) (ends_its_group : bool) : panics TrackCache :=
  let location := obj_location object in
  let c := match obj_status object with
           | OS_EndOfGroup => mark_absent c location (mkLocation (Common.group location) U64_MAX)
           | OS_EndOfTrack => mark_absent c location (mkLocation U64_MAX U64_MAX)
           | OS_Normal => c
           end in
  let? c := if ends_its_group then group_ended_after c location else Ok c in
  Ok (fold_left (note_property location) (default [] (obj_properties object)) c).

(** What is kept of an object that has come in. *)
Definition keep_object (c : Content) (object : Object) (ends_its_group : bool) : panics Content :=
  let tc := match try_into_fetch object with Ok fetch_object => add_object (cache c) fetch_object | _ => cache c end in
  let? tc := note_absent tc object ends_its_group in
  Ok (record_arrival (with_cache c tc) object).

Definition new_subgroup_object (t : Track) (stream_id : StreamId) (object : Object) (header_info : option HeaderInfo)
    : panics Track :=
  let? r := is_duplicate (seen_objects (content t)) (obj_location object) in
  let c := with_seen (content t) (fst r) in
  if snd r then Ok (with_content t c)
  else
    let c := match header_info with
             | Some h => with_active c (<[stream_id := h]> (active_subgroup_headers c))
             | None => c
             end in
    let m := send_event_to_subscribers (manager t) (TE_SubgroupObject stream_id object header_info) in
    let? c := keep_object c object false in
    Ok (with_content (with_manager t m) c).

Definition default_publisher_priority (t : Track) : Z :=
  default DEFAULT_PUBLISHER_PRIORITY
    (find_map (fun p => match p with TP_DefaultPublisherPriority priority => Some priority | _ => None end) (track_properties t)).

Definition new_datagram (t : Track) (datagram : Datagram) : panics Track :=
  let send t := with_manager t (send_event_to_subscribers (manager t) (TE_Datagram datagram)) in
  match try_from_datagram datagram (default_publisher_priority t) with
  | Ok (object, end_of_group) =>
      let? r := is_duplicate (seen_objects (content t)) (obj_location object) in
      let c := with_seen (content t) (fst r) in
      if snd r then Ok (with_content t c)
      else let? c := keep_object c object end_of_group in Ok (send (with_content t c))
  | Err _ => Ok (send t)
  | Panic => Panic
  | Diverge => Diverge
  end.

Definition stream_closed (t : Track) (stream_id : StreamId) : Track :=
  let t := with_content t (with_active (content t) (delete stream_id (active_subgroup_headers (content t)))) in
  with_manager t (send_event_to_subscribers (manager t) (TE_StreamClosed stream_id)).

(** * Data streams ([session.rs], [handle_uni_stream])

    The stream of a publisher whose alias leads to the track at hand; what its
    reader gives is an item at a time.  [waiting] tells whether something waits on
    the FETCH a fetch stream answers. *)

Inductive UpstreamFetchEvent : Type :=
| UFE_Accepted (end_location : Location)
| UFE_Object (o : FetchObjectPayload)
| UFE_EndOfRange (kind : EndOfRangeKind) (location : Location)
| UFE_StreamClosed
| UFE_MalformedTrack
| UFE_Error.

Record UniStream := mkUniStream {
  first_object : bool;
  us_stream_id : option StreamId;
  is_subgroup_stream : bool;
  last_location : option Location;
  us_sent : list UpstreamFetchEvent
}.
Definition UniStream_new : UniStream := mkUniStream true None false None [].

(** What a stream's reader knows of it. *)
Record StreamInfo := mkStreamInfo {
  get_header_info : option HeaderInfo;
  is_malformed_track : bool;
  was_aborted : bool
}.
Definition send_upstream (u : UniStream) (e : UpstreamFetchEvent) : UniStream :=
  mkUniStream (first_object u) (us_stream_id u) (is_subgroup_stream u) (last_location u) (us_sent u ++ [e]).

Inductive uni_result : Type := UR_Go (t : Track) (u : UniStream) | UR_Done (t : Track) (u : UniStream) | UR_NoHeader.

(** [waits]: something waits for the FETCH that this stream answers. *)
Definition upstream_fetch_sender (waits : bool) (i : StreamInfo) : bool :=
  match get_header_info i with Some (HI_Fetch _ _) => waits | _ => false end.

Definition uni_item (waits : bool) (i : StreamInfo) (t : Track) (u : UniStream) (item : DataStreamItem) : panics uni_result :=
  let sender := upstream_fetch_sender waits i in
  match item with
  | DI_EndOfRange kind location => Ok (UR_Go t (if sender then send_upstream u (UFE_EndOfRange kind location) else u))
  | DI_Object object =>
      if sender then
        Ok (UR_Go t (match try_into_fetch object with Ok fetch_object => send_upstream u (UFE_Object fetch_object) | _ => u end))
      else
        match (if first_object u then
                 match get_header_info i with
                 | None => None
                 | Some h => Some (match h with HI_Subgroup _ => true | HI_Fetch _ _ => false end,
                                   Some (build_stream_id (t_relay_track_id t) h), Some h)
                 end
               else Some (is_subgroup_stream u, us_stream_id u, None)) with
        | None => Ok UR_NoHeader
        | Some (subgroup, id, header_info) =>
            let u' := mkUniStream false id subgroup (Some (obj_location object)) (us_sent u) in
            match subgroup, id with
            | true, Some stream_id => let? t := new_subgroup_object t stream_id object header_info in Ok (UR_Go t u')
            | true, None => Panic
            | false, _ => Ok (UR_Go (cache_fetched_object t object) u')
            end
        end
  end.

(** The end of the stream. *)
Definition uni_end `{Target} (waits : bool) (i : StreamInfo) (t : Track) (u : UniStream) (connection_id : Z) : panics uni_result :=
  let sender := upstream_fetch_sender waits i in
  let u := if sender then
             send_upstream u (if is_malformed_track i then UFE_MalformedTrack else if was_aborted i then UFE_Error else UFE_StreamClosed)
           else u in
  let subgroup := match get_header_info i with
                  | Some (HI_Subgroup _) => true
                  | _ => is_subgroup_stream u
                  end in
  let? t :=
    if subgroup then
      let? closed := progress_stream_closed (stream_progress (upstream t)) connection_id in
      let t := with_upstream t (with_aliases (upstream t) (publisher_aliases (upstream t)) closed) in
      match was_aborted i, get_header_info i, last_location u with
      | false, Some (HI_Subgroup header), Some last =>
          if contains_end_of_group (header_type header) then
            let? tc := group_ended_after (cache (content t)) last in
            Ok (with_content t (with_cache (content t) tc))
          else Ok t
      | _, _, _ => Ok t
      end
    else Ok t in
  Ok (UR_Done (match us_stream_id u with Some id => stream_closed t id | None => t end) u).
