(* ===== verification/Ingest.v ===== *)
(** What a track makes of the objects that come in: the theorems about the second
    part of [Tracks]. *)
From stdpp Require Import gmap.
From S2P Require Import Prelude Varint Common Codes LocationFilter Properties MessageParameter CombinedFilter.
From S2P Require Import Control Subgroup Datagram FetchObject ObjectForms DataStream SeenObjects TrackCache.
From S2P Require Import Streams Subscription Forwarding Delivery Tracks.

(** * Arrivals

    All that changes the content of a track, from any of its publishers, in the order
    in which the calls are made: objects of subgroup streams, datagrams, objects of
    upstream fetches, closed streams, streams that ended their group, and what the
    cache does on its own account. *)

Inductive arrival : Type :=
| AR_Object (stream_id : StreamId) (object : Object) (header_info : option HeaderInfo)
| AR_Datagram (datagram : Datagram)
| AR_Fetched (object : Object)
| AR_Closed (stream_id : StreamId)
| AR_GroupEnd (last : Location)
| AR_Evict (group : Z)
| AR_Claim (first last : Z)
| AR_Drop (claim : nat).

Definition ingest_one (t : Track) (a : arrival) : panics Track :=
  let on_cache f := with_content t (with_cache (content t) (f (cache (content t)))) in
  match a with
  | AR_Object stream_id object header_info => new_subgroup_object t stream_id object header_info
  | AR_Datagram datagram => new_datagram t datagram
  | AR_Fetched object => Ok (cache_fetched_object t object)
  | AR_Closed stream_id => Ok (stream_closed t stream_id)
  | AR_GroupEnd last => let? tc := group_ended_after (cache (content t)) last in Ok (on_cache (fun _ => tc))
  | AR_Evict group => Ok (on_cache (fun c => cache_step c (Op_Evict group)))
  | AR_Claim first last => Ok (on_cache (fun c => cache_step c (Op_Claim first last)))
  | AR_Drop claim => Ok (on_cache (fun c => cache_step c (Op_Drop claim)))
  end.
Definition ingest (arrivals : list arrival) : Track -> panics Track := for_each arrivals ingest_one.

(** ** What an arrival brings and says *)

(** The object it brings, and whether it says that its group ends with it; [priority] is
    the default one of the track. *)
Definition object_in (priority : Z) (a : arrival) : option (Object * bool) :=
  match a with
  | AR_Object _ object _ => Some (object, false)
  | AR_Fetched object => Some (object, false)
  | AR_Datagram datagram => match try_from_datagram datagram priority with Ok r => Some r | _ => None end
  | _ => None
  end.

(** An object rules out a Location: there is and will be no object there. *)
Definition rules_out (o : Object) (ends : bool) (l : Location) : Prop :=
  let g := group (obj_location o) in
  let id := object (obj_location o) in
  let said p := p ∈ default [] (obj_properties o) in
  (obj_status o = OS_EndOfGroup /\ group l = g /\ id <= object l) \/
  (obj_status o = OS_EndOfTrack /\ pos (obj_location o) <= pos l) \/
  (ends = true /\ group l = g /\ id < object l) \/
  (exists gap, said (OP_PriorObjectIdGap gap) /\ group l = g /\ id - gap <= object l < id) \/
  (exists gap, said (OP_PriorGroupIdGap gap) /\ g - gap <= group l < g).

Definition states_absent (priority : Z) (a : arrival) (l : Location) : Prop :=
  match a with
  | AR_Fetched _ => False
  | AR_GroupEnd last => group l = group last /\ object last < object l
  | _ => match object_in priority a with Some (o, ends) => rules_out o ends l | None => False end
  end.

Definition arrival_ok (a : arrival) : Prop :=
  match a with
  | AR_Object _ o _ | AR_Fetched o => loc_ok (obj_location o)
  | AR_Datagram d => is_u64 (dg_group_id d) /\ is_u64 (dg_object_id d)
  | AR_GroupEnd l => loc_ok l
  | _ => True
  end.

(** The Location by which it is checked for a duplicate. *)
Definition checked_location (a : arrival) : option Location :=
  match a with
  | AR_Object _ o _ => Some (obj_location o)
  | AR_Datagram d => Some (mkLocation (dg_group_id d) (dg_object_id d))
  | _ => None
  end.

(** What the subscribers are sent of it, if it is new. *)
Definition event_of (a : arrival) : list TrackEvent :=
  match a with
  | AR_Object s o h => [TE_SubgroupObject s o h]
  | AR_Datagram d => [TE_Datagram d]
  | AR_Closed s => [TE_StreamClosed s]
  | _ => []
  end.

(** The events of a list of arrivals after those at [seen]: the new ones, as
    [SeenObjects.known] tells them, in their order. *)
Fixpoint forwarded (n : nat) (seen : list Location) (arrivals : list arrival) : list TrackEvent :=
  match arrivals with
  | [] => []
  | a :: arrivals =>
      match checked_location a with
      | Some l => (if known n seen l then [] else event_of a) ++ forwarded n (l :: seen) arrivals
      | None => event_of a ++ forwarded n seen arrivals
      end
  end.

(** * Lemmas *)

Lemma datagram_object d priority : exists o e, try_from_datagram d priority = Ok (o, e) /\
  obj_location o = mkLocation (dg_group_id d) (dg_object_id d).
Proof. unfold try_from_datagram. destruct (dg_object_status d); by eexists _, _. Qed.

Lemma try_into_fetch_location o p : try_into_fetch o = Ok p ->
  fp_group_id p = group (obj_location o) /\ fp_object_id p = object (obj_location o).
Proof.
  unfold try_into_fetch, casting. destruct (negb _); [done|]. intros E. apply obind_Ok_inv in E as (sg & _ & E). by injection E as <-.
Qed.

(** ** What the cache is told *)

Definition ops_of_property (l : Location) (p : ObjectProperty) : list cache_op :=
  let '(mkLocation g id) := l in
  match p with
  | OP_PriorObjectIdGap gap =>
      if (0 <? gap) && (gap <=? id) then [Op_Absent (mkLocation g (id - gap)) (mkLocation g (id - 1))] else []
  | OP_PriorGroupIdGap gap =>
      if (0 <? gap) && (gap <=? g) then [Op_Absent (mkLocation (g - gap) 0) (mkLocation (g - 1) U64_MAX)] else []
  | _ => []
  end.
Definition ops_of_end (last : Location) : list cache_op :=
  if object last <? U64_MAX
  then [Op_Absent (mkLocation (group last) (object last + 1)) (mkLocation (group last) U64_MAX)] else [].
Definition ops_of_status (o : Object) : list cache_op :=
  let l := obj_location o in
  match obj_status o with
  | OS_EndOfGroup => [Op_Absent l (mkLocation (group l) U64_MAX)]
  | OS_EndOfTrack => [Op_Absent l (mkLocation U64_MAX U64_MAX)]
  | OS_Normal => []
  end.
Definition absent_ops (o : Object) (ends : bool) : list cache_op :=
  ops_of_status o ++ (if ends then ops_of_end (obj_location o) else []) ++
  flat_map (ops_of_property (obj_location o)) (default [] (obj_properties o)).
Definition add_ops (o : Object) : list cache_op := match try_into_fetch o with Ok p => [Op_Add p] | _ => [] end.

Lemma cache_run_app ops ops' : cache_run (ops ++ ops') = fold_left cache_step ops' (cache_run ops).
Proof. unfold cache_run. apply fold_left_app. Qed.

Lemma group_ended_after_run ops last : is_u64 (object last) ->
  group_ended_after (cache_run ops) last = Ok (cache_run (ops ++ ops_of_end last)).
Proof.
  intros Hl. rewrite cache_run_app. unfold group_ended_after, ops_of_end. destruct (Z.ltb_spec (object last) U64_MAX) as [Hlt|]; [|done].
  unfold Location_next. assert (checked_add (object last) 1 = Some (object last + 1)) as -> by (apply checked_add_Some; ulia). done.
Qed.

Lemma note_absent_run ops o ends : loc_ok (obj_location o) ->
  note_absent (cache_run ops) o ends = Ok (cache_run (ops ++ absent_ops o ends)).
Proof.
  intros [_ Ho]. unfold note_absent, absent_ops. rewrite app_assoc.
  assert (Es : (match obj_status o with
            | OS_Normal => cache_run ops
            | OS_EndOfGroup => mark_absent (cache_run ops) (obj_location o) (mkLocation (group (obj_location o)) U64_MAX)
            | OS_EndOfTrack => mark_absent (cache_run ops) (obj_location o) (mkLocation U64_MAX U64_MAX)
            end) = cache_run (ops ++ ops_of_status o)).
  { rewrite cache_run_app. unfold ops_of_status. by destruct (obj_status o). }
  assert (Ep : forall ps ops, fold_left (note_property (obj_location o)) ps (cache_run ops) =
            cache_run (ops ++ flat_map (ops_of_property (obj_location o)) ps)).
  { induction ps as [|p ps IH]; intros ops'; simpl; [by rewrite app_nil_r|]. rewrite app_assoc, <- IH. f_equal. rewrite cache_run_app.
    unfold note_property, ops_of_property. destruct (obj_location o) as [g id]. by destruct p; try done; destruct (_ && _). }
  rewrite app_assoc. replace (match obj_status o with OS_Normal => _ | _ => _ end) with (cache_run (ops ++ ops_of_status o)) by (rewrite <- Es; by destruct (obj_status o)).
  destruct ends; [rewrite group_ended_after_run by done|]; cbn [obind]; rewrite Ep; [by rewrite <- !app_assoc|].
  by rewrite app_nil_r, <- !app_assoc.
Qed.

Lemma absent_ops_ok o ends : loc_ok (obj_location o) -> Forall cache_op_ok (absent_ops o ends).
Proof.
  destruct o as [al [g id] pr fp sg st ps pl]. unfold absent_ops, ops_of_status, ops_of_end, loc_ok, is_u64. simpl. intros [Hg Hid].
  assert (Hmax : 0 <= U64_MAX < U64) by (vm_compute; split; congruence).
  repeat apply Forall_app_2.
  - destruct st; repeat constructor; simpl; ulia.
  - destruct ends; [|constructor]. destruct (Z.ltb_spec id U64_MAX); repeat constructor; simpl; ulia.
  - apply Forall_flat_map, Forall_forall. intros p _. destruct p as [| gap | gap |]; simpl; try constructor.
    all: destruct (Z.ltb_spec 0 gap), (Z.leb_spec gap g), (Z.leb_spec gap id); simpl; repeat constructor; simpl; ulia.
Qed.

Lemma in_group g a b l : loc_ok l -> 0 <= g -> 0 <= a -> b < U64 ->
  pos (mkLocation g a) <= pos l <= pos (mkLocation g b) -> group l = g /\ a <= object l <= b.
Proof.
  destruct l as [gl ol]. unfold loc_ok, is_u64, pos. simpl. intros [Hg Ho] H0 Ha Hb Hp.
  assert (gl = g) as -> by nia. lia.
Qed.

(** The cache is told no more than the object says. *)
Lemma absent_ops_said o ends from to l : loc_ok (obj_location o) -> loc_ok l ->
  Op_Absent from to ∈ absent_ops o ends -> pos from <= pos l <= pos to -> rules_out o ends l.
Proof.
  destruct o as [al [g id] pr fp sg st ps pl]. unfold absent_ops, ops_of_status, ops_of_end, rules_out. simpl.
  intros [Hg Hid] Hl. unfold is_u64 in *. simpl in *. assert (Hmax : U64_MAX < U64) by reflexivity.
  rewrite !elem_of_app. intros [H|[H|H]] Hp.
  - destruct st; [by apply elem_of_nil in H|..]; apply list_elem_of_singleton in H; injection H as -> ->.
    + left. apply in_group in Hp as [-> ?]; [tauto|done|lia..].
    + right. left. unfold pos in *. simpl in *. tauto.
  - destruct ends; [|by apply elem_of_nil in H]. destruct (Z.ltb_spec id U64_MAX); [|by apply elem_of_nil in H].
    apply list_elem_of_singleton in H. injection H as -> ->. apply in_group in Hp as [-> ?]; [|done|lia..].
    right. right. left. split_and!; [done|done|lia].
  - apply list_elem_of_In, in_flat_map in H as (p & Hin%list_elem_of_In & H%list_elem_of_In). right. right. right.
    destruct p as [| gap | gap |]; try (by apply elem_of_nil in H).
    + right. cbn [ops_of_property] in H. destruct (Z.ltb_spec 0 gap), (Z.leb_spec gap g); cbn [andb] in H; try (by apply elem_of_nil in H).
      apply list_elem_of_singleton in H. injection H as -> ->. exists gap. split; [done|].
      destruct l as [gl ol], Hl as [Hgl Hol]. unfold pos, is_u64 in *. simpl in *. nia.
    + left. cbn [ops_of_property] in H. destruct (Z.ltb_spec 0 gap), (Z.leb_spec gap id); cbn [andb] in H; try (by apply elem_of_nil in H).
      apply list_elem_of_singleton in H. injection H as -> ->. apply in_group in Hp as [-> ?]; [|done|lia..].
      exists gap. split_and!; [done|done|lia|lia].
Qed.

Lemma ops_of_end_said last from to l : loc_ok last -> loc_ok l ->
  Op_Absent from to ∈ ops_of_end last -> pos from <= pos l <= pos to -> group l = group last /\ object last < object l.
Proof.
  intros [Hg Ho] Hl. unfold ops_of_end, is_u64 in *. destruct (Z.ltb_spec (object last) U64_MAX); [|by intros ?%elem_of_nil].
  intros [= -> ->]%list_elem_of_singleton Hp. apply in_group in Hp as [-> ?]; [lia|done|lia..|done].
Qed.

(** ** The content of a track *)

Definition seen_of (arrivals : list arrival) : list Location := rev (omap checked_location arrivals).

Section Kept.
Context (priority : Z).

(** The cache, in terms of what has arrived. *)
Definition cache_from (arrivals : list arrival) (tc : TrackCache) : Prop :=
  exists ops, tc = cache_run ops /\ Forall cache_op_ok ops /\
    (forall p, Op_Add p ∈ ops -> exists a o e, a ∈ arrivals /\ object_in priority a = Some (o, e) /\ try_into_fetch o = Ok p) /\
    (forall from to l, Op_Absent from to ∈ ops -> loc_ok l -> pos from <= pos l <= pos to ->
       exists a, a ∈ arrivals /\ states_absent priority a l).

(** The largest Location so far, if there is one. *)
Definition largest_is (arrivals : list arrival) (largest : option Location) : Prop :=
  match largest with
  | None => forall a, a ∈ arrivals -> object_in priority a = None
  | Some m => loc_ok m /\ (exists a o e, a ∈ arrivals /\ object_in priority a = Some (o, e) /\ obj_location o = m) /\
      forall a o e, a ∈ arrivals -> object_in priority a = Some (o, e) -> pos (obj_location o) <= pos m
  end.
Definition content_largest (c : Content) : option Location := if has_objects c then Some (largest_location c) else None.

Record kept (arrivals : list arrival) (c : Content) : Prop := {
  kp_cache : cache_from arrivals (cache c);
  kp_largest : largest_is arrivals (content_largest c);
  kp_zero : has_objects c = false -> largest_location c = mkLocation 0 0
}.

Lemma cache_from_more arrivals a tc ops :
  cache_from arrivals tc -> Forall cache_op_ok ops ->
  (forall p, Op_Add p ∈ ops -> exists o e, object_in priority a = Some (o, e) /\ try_into_fetch o = Ok p) ->
  (forall from to l, Op_Absent from to ∈ ops -> loc_ok l -> pos from <= pos l <= pos to -> states_absent priority a l) ->
  cache_from (arrivals ++ [a]) (fold_left cache_step ops tc).
Proof.
  intros (ops0 & -> & Hok & Hadd & Habs) Hops Ha Hs. exists (ops0 ++ ops). rewrite <- cache_run_app. split_and!; [done|by apply Forall_app|..].
  - intros p [Hp|Hp]%elem_of_app.
    + destruct (Hadd p Hp) as (a' & o & e & ? & ? & ?). exists a', o, e. set_solver.
    + destruct (Ha p Hp) as (o & e & ? & ?). exists a, o, e. set_solver.
  - intros from to l [Hin|Hin]%elem_of_app Hl Hp.
    + destruct (Habs from to l Hin Hl Hp) as (a' & ? & ?). exists a'. set_solver.
    + exists a. split; [set_solver|]. by apply (Hs from to).
Qed.

Lemma largest_more arrivals a o e largest :
  largest_is arrivals largest -> object_in priority a = Some (o, e) -> loc_ok (obj_location o) ->
  largest_is (arrivals ++ [a])
    (Some (match largest with Some m => if Location_ltb m (obj_location o) then obj_location o else m | None => obj_location o end)).
Proof.
  intros Hm Ha Ho. destruct largest as [m|]; simpl in *.
  - destruct Hm as (Hok & (a0 & o0 & e0 & Hin & Ea & El) & Hall). destruct (Location_ltb m (obj_location o)) eqn:E.
    + apply Location_ltb_pos in E; [|done..]. split_and!; [done|exists a, o, e; set_solver|].
      intros a1 o1 e1 [H1| ->%list_elem_of_singleton]%elem_of_app E1; [pose proof (Hall a1 o1 e1 H1 E1); lia|].
      rewrite Ha in E1. injection E1 as <- <-. lia.
    + apply not_true_iff_false in E. rewrite Location_ltb_pos in E by done. split_and!; [done|exists a0, o0, e0; set_solver|].
      intros a1 o1 e1 [H1| ->%list_elem_of_singleton]%elem_of_app E1; [by apply (Hall a1 o1 e1)|].
      rewrite Ha in E1. injection E1 as <- <-. lia.
  - split_and!; [done|exists a, o, e; set_solver|]. intros a1 o1 e1 [H1| ->%list_elem_of_singleton]%elem_of_app E1.
    + by rewrite (Hm a1 H1) in E1.
    + rewrite Ha in E1. injection E1 as <- <-. lia.
Qed.

Lemma largest_same arrivals a largest :
  largest_is arrivals largest ->
  (forall o e, object_in priority a = Some (o, e) -> exists a', a' ∈ arrivals /\ exists o' e', object_in priority a' = Some (o', e') /\ obj_location o' = obj_location o) ->
  largest_is (arrivals ++ [a]) largest.
Proof.
  intros Hm Ha. destruct largest as [m|]; simpl in *.
  - destruct Hm as (Hok & (a0 & o0 & e0 & Hin & Ea & El) & Hall). split_and!; [done|exists a0, o0, e0; set_solver|].
    intros a1 o1 e1 [H1| ->%list_elem_of_singleton]%elem_of_app E1; [by apply (Hall a1 o1 e1)|].
    destruct (Ha o1 e1 E1) as (a' & Hin' & o' & e' & E' & <-). by apply (Hall a' o' e').
  - intros a1 [H1| ->%list_elem_of_singleton]%elem_of_app; [by apply Hm|].
    destruct (object_in priority a) as [[o e]|] eqn:E; [|done]. destruct (Ha o e eq_refl) as (a' & Hin' & o' & e' & E' & _). by rewrite Hm in E'.
Qed.

(** An object that is kept. *)
Lemma record_arrival_largest c o : (has_objects c = false -> largest_location c = mkLocation 0 0) -> loc_ok (obj_location o) ->
  content_largest (record_arrival c o) =
  Some (match content_largest c with Some m => if Location_ltb m (obj_location o) then obj_location o else m | None => obj_location o end).
Proof.
  intros Hz. unfold content_largest, record_arrival. simpl. destruct (has_objects c); [done|]. rewrite Hz by done. intros Ho.
  f_equal. revert Ho. destruct (obj_location o) as [g i]. intros [Hg Ho]. unfold Location_ltb, is_u64 in *. cbn [group object] in *.
  destruct (Z.ltb_spec 0 g), (Z.eqb_spec 0 g), (Z.ltb_spec 0 i); simpl; try done; f_equal; lia.
Qed.

Lemma kept_object arrivals a o e c tc :
  kept arrivals c -> object_in priority a = Some (o, e) -> loc_ok (obj_location o) -> cache_from (arrivals ++ [a]) tc ->
  kept (arrivals ++ [a]) (record_arrival (with_cache c tc) o).
Proof.
  intros [_ Hl Hz] Ha Ho Hc. split; [done| |done]. rewrite record_arrival_largest by done. by apply (largest_more arrivals a o e).
Qed.

Lemma keep_object_kept arrivals a o e c :
  kept arrivals c -> object_in priority a = Some (o, e) -> loc_ok (obj_location o) ->
  (forall l, rules_out o e l -> states_absent priority a l) ->
  exists tc, keep_object c o e = Ok (record_arrival (with_cache c tc) o) /\ kept (arrivals ++ [a]) (record_arrival (with_cache c tc) o).
Proof.
  intros Hk Ha Ho Hs. pose proof (kp_cache _ _ Hk) as Hc. destruct Hc as (ops & Ec & Hok & Hrest).
  exists (cache_run (ops ++ add_ops o ++ absent_ops o e)). unfold keep_object.
  assert (Eadd : (match try_into_fetch o with Ok fetch_object => add_object (cache c) fetch_object | _ => cache c end) = cache_run (ops ++ add_ops o)).
  { rewrite cache_run_app, Ec. unfold add_ops. by destruct (try_into_fetch o). }
  rewrite Eadd, note_absent_run, <- app_assoc by done. split; [done|].
  apply (kept_object arrivals a o e); try done. rewrite cache_run_app. apply (cache_from_more arrivals a (cache_run ops)).
  - rewrite <- Ec. apply Hk.
  - apply Forall_app_2; [|by apply absent_ops_ok]. unfold add_ops. destruct (try_into_fetch o) as [p| | |] eqn:E; try by constructor.
    apply try_into_fetch_location in E as [Eg Ei]. apply Forall_singleton. simpl. by rewrite Eg, Ei.
  - intros p [Hp|Hp]%elem_of_app.
    + unfold add_ops in Hp. destruct (try_into_fetch o) as [p'| | |] eqn:E; try (by apply elem_of_nil in Hp).
      apply list_elem_of_singleton in Hp. injection Hp as ->. by exists o, e.
    + exfalso. revert Hp. unfold absent_ops, ops_of_status, ops_of_end. rewrite !elem_of_app. intros [H|[H|H]].
      * destruct (obj_status o); [by apply elem_of_nil in H|by apply list_elem_of_singleton in H..].
      * destruct e; [|by apply elem_of_nil in H]. destruct (_ <? _); [by apply list_elem_of_singleton in H|by apply elem_of_nil in H].
      * apply list_elem_of_In, in_flat_map in H as (q & _ & H%list_elem_of_In). unfold ops_of_property in H.
        destruct (obj_location o), q; try (by apply elem_of_nil in H); destruct (_ && _); by apply list_elem_of_singleton in H || by apply elem_of_nil in H.
  - intros from to l [Hp|Hp]%elem_of_app Hl Hpos.
    + unfold add_ops in Hp. destruct (try_into_fetch o); try (by apply elem_of_nil in Hp). by apply list_elem_of_singleton in Hp.
    + apply Hs. by apply (absent_ops_said o e from to).
Qed.
End Kept.

(** ** One arrival *)

Definition new_events (n : nat) (seen : list Location) (a : arrival) : list TrackEvent :=
  match checked_location a with
  | Some l => if known n seen l then [] else event_of a
  | None => event_of a
  end.

Lemma seen_of_snoc arrivals a :
  seen_of (arrivals ++ [a]) = match checked_location a with Some l => l :: seen_of arrivals | None => seen_of arrivals end.
Proof. unfold seen_of. rewrite omap_app, rev_app_distr. simpl. by destruct (checked_location a). Qed.

Lemma forwarded_snoc n before arrivals a :
  forwarded n (seen_of before) (arrivals ++ [a]) =
  forwarded n (seen_of before) arrivals ++ new_events n (seen_of (before ++ arrivals)) a.
Proof.
  revert before. induction arrivals as [|b arrivals IH]; intros before; simpl.
  - unfold new_events. by destruct (checked_location a); rewrite !app_nil_r.
  - replace (before ++ b :: arrivals) with ((before ++ [b]) ++ arrivals) by by rewrite <- app_assoc.
    pose proof (IH (before ++ [b])) as E. rewrite !seen_of_snoc in E.
    destruct (checked_location b); rewrite E; by rewrite app_assoc.
Qed.

Section Run.
Context (n : nat) (priority : Z).

Record content_ok (arrivals : list arrival) (c : Content) : Prop := {
  co_kept : kept priority arrivals c;
  co_seen : ring_ok n (seen_of arrivals) (seen_objects c)
}.

Lemma with_content_same t : with_content t (content t) = t.
Proof. by destruct t. Qed.
Lemma with_manager_same t : with_manager t (manager t) = t.
Proof. by destruct t. Qed.

(** A Location seen before came with an object. *)
Lemma seen_object arrivals l : l ∈ seen_of arrivals ->
  exists a, a ∈ arrivals /\ exists o e, object_in priority a = Some (o, e) /\ obj_location o = l.
Proof.
  unfold seen_of. intros Hin. apply list_elem_of_In, in_rev, list_elem_of_In, list_elem_of_omap in Hin as (a & Hin & Ea).
  exists a. split; [done|]. destruct a; try done; injection Ea as <-; simpl.
  - by eexists _, _.
  - destruct (datagram_object datagram priority) as (o & e & -> & El). by exists o, e.
Qed.

Lemma kept_same arrivals a c c' :
  kept priority arrivals c -> cache c' = cache c -> has_objects c' = has_objects c -> largest_location c' = largest_location c ->
  (forall o e, object_in priority a = Some (o, e) -> obj_location o ∈ seen_of arrivals) ->
  kept priority (arrivals ++ [a]) c'.
Proof.
  intros [Hc Hl Hz] Ec Eh El Ho. split; [| |by rewrite Eh, El].
  - rewrite Ec. apply (cache_from_more priority arrivals a _ [] Hc); [constructor|by intros ? ?%elem_of_nil|by intros ? ? ? ?%elem_of_nil].
  - unfold content_largest. rewrite Eh, El. apply largest_same; [done|]. intros o e Ha.
    destruct (seen_object arrivals (obj_location o) (Ho o e Ha)) as (a' & Hin & o' & e' & E & El'). exists a'. eauto.
Qed.

(** Objects of subgroup streams and datagrams. *)
Lemma ingest_checked arrivals t a o e (f : Content -> Content) :
  content_ok arrivals (content t) -> object_in priority a = Some (o, e) -> checked_location a = Some (obj_location o) ->
  loc_ok (obj_location o) -> (forall l, rules_out o e l -> states_absent priority a l) ->
  (forall c, cache (f c) = cache c /\ largest_location (f c) = largest_location c /\ has_objects (f c) = has_objects c /\ seen_objects (f c) = seen_objects c) ->
  exists slots b, is_duplicate (seen_objects (content t)) (obj_location o) = Ok (slots, b) /\ b = known n (seen_of arrivals) (obj_location o) /\
    if b then content_ok (arrivals ++ [a]) (with_seen (content t) slots)
    else exists c', keep_object (f (with_seen (content t) slots)) o e = Ok c' /\ content_ok (arrivals ++ [a]) c'.
Proof.
  intros [Hk Hs] Ha Hl Hok Hsay Hf. destruct (is_duplicate_known n _ _ _ Hs Hok) as (slots & E & Hs').
  exists slots, (known n (seen_of arrivals) (obj_location o)). split_and!; [done|done|].
  destruct (known n (seen_of arrivals) (obj_location o)) eqn:Ek.
  - split; [|by rewrite seen_of_snoc, Hl]. apply (kept_same arrivals a (content t)); try done.
    intros o' e' Ha'. rewrite Ha in Ha'. injection Ha' as <- <-. apply known_true in Ek. tauto.
  - destruct (Hf (with_seen (content t) slots)) as (Fc & Fl & Fh & Fs).
    assert (Hk' : kept priority arrivals (f (with_seen (content t) slots))).
    { destruct Hk as [Hc Hlg Hz]. split; [by rewrite Fc| |by rewrite Fl, Fh]. unfold content_largest. rewrite Fl, Fh. exact Hlg. }
    destruct (keep_object_kept priority arrivals a o e _ Hk' Ha Hok Hsay) as (tc & Ekeep & Hkept).
    eexists. split; [exact Ekeep|]. split; [done|]. rewrite seen_of_snoc, Hl. simpl. by rewrite Fs.
Qed.

Definition sends (t : Track) (events : list TrackEvent) : SubscriptionManager := fold_left send_event_to_subscribers events (manager t).

Lemma ingest_one_ok arrivals t a :
  content_ok arrivals (content t) -> default_publisher_priority t = priority -> arrival_ok a ->
  exists c', ingest_one t a = Ok (with_content (with_manager t (sends t (new_events n (seen_of arrivals) a))) c') /\
    content_ok (arrivals ++ [a]) c'.
Proof.
  intros Hc Hp Ha.
  assert (Hquiet : forall c', checked_location a = None -> object_in priority a = None -> cache c' = cache (content t) ->
            has_objects c' = has_objects (content t) -> largest_location c' = largest_location (content t) ->
            seen_objects c' = seen_objects (content t) -> content_ok (arrivals ++ [a]) c').
  { intros c' El Eo E1 E2 E3 E4. destruct Hc as [Hk Hs]. split; [|rewrite seen_of_snoc, El, E4; done].
    apply (kept_same arrivals a (content t)); try done. rewrite Eo. done. }
  assert (Hcache : forall tc', checked_location a = None -> object_in priority a = None -> cache_from priority (arrivals ++ [a]) tc' ->
            content_ok (arrivals ++ [a]) (with_cache (content t) tc')).
  { intros tc' El Eo Hfrom. destruct Hc as [[Hcf Hlg Hz] Hs]. split; [|by rewrite seen_of_snoc, El]. split; [done| |done].
    apply largest_same; [done|]. by rewrite Eo. }
  assert (Hop : forall op, cache_op_ok op -> checked_location a = None -> object_in priority a = None ->
            (forall p, op <> Op_Add p) -> (forall from to, op <> Op_Absent from to) ->
            content_ok (arrivals ++ [a]) (with_cache (content t) (cache_step (cache (content t)) op))).
  { intros op Hop El Eo Hna Hnb. apply Hcache; [done|done|]. apply (cache_from_more priority arrivals a _ [op]); [apply Hc|by repeat constructor|..].
    - intros p Hin%list_elem_of_singleton. by destruct (Hna p).
    - intros from to l Hin%list_elem_of_singleton. by destruct (Hnb from to). }
  destruct a as [s o h|d|o|s|last|g|first last|claim]; cbn [ingest_one].
  - destruct (ingest_checked arrivals t (AR_Object s o h) o false
      (fun c => match h with Some h => with_active c (<[s := h]> (active_subgroup_headers c)) | None => c end)
      Hc eq_refl eq_refl Ha) as (slots & b & E & Eb & Hr); [by intros l Hl|by intros c; destruct h|].
    unfold new_subgroup_object, new_events. cbn [checked_location]. rewrite E. cbn [obind fst snd]. rewrite <- Eb. destruct b.
    + eexists. split; [|exact Hr]. unfold sends. simpl. by destruct t.
    + destruct Hr as (c' & Ek & Hr). exists c'. split; [|exact Hr]. destruct h; rewrite Ek; reflexivity.
  - destruct (datagram_object d priority) as (o & e & Ed & El).
    destruct (ingest_checked arrivals t (AR_Datagram d) o e (fun c => c) Hc) as (slots & b & E & Eb & Hr); try done.
    + cbn [object_in]. by rewrite Ed.
    + by rewrite El.
    + by rewrite El.
    + intros l Hl. cbn [states_absent object_in]. by rewrite Ed.
    + unfold new_datagram, new_events. cbn [checked_location]. rewrite Hp, Ed, E. cbn [obind fst snd]. rewrite <- El, <- Eb. destruct b.
      * eexists. split; [|exact Hr]. unfold sends. simpl. by destruct t.
      * destruct Hr as (c' & Ek & Hr). exists c'. split; [|exact Hr]. rewrite Ek. reflexivity.
  - eexists. split; [unfold sends; simpl; rewrite with_manager_same; reflexivity|].
    destruct Hc as [Hk Hs]. split; [|rewrite seen_of_snoc; simpl; by destruct (try_into_fetch o)].
    assert (Hcf : cache_from priority (arrivals ++ [AR_Fetched o]) (fold_left cache_step (add_ops o) (cache (content t)))).
    { apply (cache_from_more priority arrivals); [apply Hk|..]; unfold add_ops.
      - destruct (try_into_fetch o) as [p| | |] eqn:E; try by constructor. apply try_into_fetch_location in E as [Eg Ei].
        apply Forall_singleton. simpl. by rewrite Eg, Ei.
      - destruct (try_into_fetch o) as [p| | |] eqn:E; try by intros ? ?%elem_of_nil. intros p' [= ->]%list_elem_of_singleton. by exists o, false.
      - destruct (try_into_fetch o); try (by intros ? ? ? ?%elem_of_nil). by intros ? ? ? ?%list_elem_of_singleton. }
    pose proof (kept_object priority arrivals (AR_Fetched o) o false (content t) _ Hk eq_refl Ha Hcf) as Hko.
    unfold add_ops in Hko. destruct (try_into_fetch o); try exact Hko; simpl in Hko; destruct (content t); exact Hko.
  - eexists. split; [unfold sends; simpl; reflexivity|]. by apply Hquiet.
  - destruct Hc as [Hk Hs]. pose proof (kp_cache _ _ _ Hk) as (ops & Ec & Hrest). rewrite Ec, group_ended_after_run by apply Ha. cbn [obind].
    eexists. split; [unfold sends; simpl; rewrite with_manager_same; reflexivity|].
    apply Hcache; [done|done|]. rewrite cache_run_app, <- Ec. apply (cache_from_more priority arrivals); [apply Hk|..].
    + unfold ops_of_end. destruct Ha as [Hg Ho]. destruct (Z.ltb_spec (object last) U64_MAX); [|by constructor].
      apply Forall_singleton. unfold is_u64 in *. simpl. unfold loc_ok, is_u64. simpl. assert (0 <= U64_MAX < U64) by done. ulia.
    + unfold ops_of_end. destruct (_ <? _); [|by intros ? ?%elem_of_nil]. by intros ? ?%list_elem_of_singleton.
    + intros from to l Hin Hl Hpos. by apply (ops_of_end_said last from to).
  - eexists. split; [unfold sends; simpl; rewrite with_manager_same; reflexivity|]. by apply (Hop (Op_Evict g)).
  - eexists. split; [unfold sends; simpl; rewrite with_manager_same; reflexivity|]. by apply (Hop (Op_Claim first last)).
  - eexists. split; [unfold sends; simpl; rewrite with_manager_same; reflexivity|]. by apply (Hop (Op_Drop claim)).
Qed.

Lemma sends_reaches events : forall t, reaches (sends t events) = reaches (manager t).
Proof. unfold sends. intros t. generalize (manager t). clear. induction events as [|e events IH]; intros m; [done|]. simpl. by rewrite IH. Qed.

Lemma sends_channels events : forall t k q, channels (manager t) !! k = Some q ->
  channels (sends t events) !! k = Some (if reaches (manager t) k then q ++ events else q).
Proof.
  intros t k. unfold sends. generalize (manager t). clear. induction events as [|e events IH]; intros m q Hq; simpl.
  - destruct (reaches m k); by rewrite ?app_nil_r.
  - rewrite (IH _ (if reaches m k then q ++ [e] else q)).
    + change (reaches (send_event_to_subscribers m e) k) with (reaches m k). destruct (reaches m k); by rewrite <- ?app_assoc.
    + simpl. by rewrite list_lookup_imap, Hq.
Qed.

(** All arrivals of a list, after those of [before]. *)
Lemma ingest_ok before arrivals t :
  content_ok before (content t) -> default_publisher_priority t = priority -> Forall arrival_ok arrivals ->
  exists c', ingest arrivals t = Ok (with_content (with_manager t (sends t (forwarded n (seen_of before) arrivals))) c') /\
    content_ok (before ++ arrivals) c'.
Proof.
  intros Hc Hp Ha.
  destruct (for_each_inv (fun done t' => exists c', t' = with_content (with_manager t (sends t (forwarded n (seen_of before) done))) c' /\
      content_ok (before ++ done) c') arrivals ingest_one) with (s := t) as (t' & E & c' & -> & Hc').
  - intros d a r t' -> (c' & -> & Hc'). apply Forall_app in Ha as [_ Ha]. apply Forall_cons in Ha as [Ha1 _].
    destruct (ingest_one_ok (before ++ d) (with_content (with_manager t (sends t (forwarded n (seen_of before) d))) c') a Hc' Hp Ha1)
      as (c2 & E & Hc2).
    eexists. split; [exact E|]. exists c2. split; [|by rewrite app_assoc]. unfold sends. simpl. by rewrite forwarded_snoc, fold_left_app.
  - exists (content t). split; [unfold sends; simpl; by destruct t|]. by rewrite app_nil_r.
  - by exists c'.
Qed.

Lemma new_content_ok : content_ok [] (content (Track_new 0 n TS_Pending TO_Subscribe)).
Proof.
  split; [|apply new_ring_ok]. split; [|by intros a ?%elem_of_nil|done]. exists []. split_and!; [done|constructor|..].
  - by intros p ?%elem_of_nil.
  - by intros ? ? ? ?%elem_of_nil.
Qed.
End Run.

(** * Properties *)

(** C4: what a track hands on.  Whatever comes in from its publishers, in any
    interleaving, a track takes it without panicking.  Each subscriber's channel
    gets exactly the events of what is new since it joined, in order: every
    stream end, and every object and datagram that is not a
    duplicate of one before, which an object at a Location that never
    came before is not.  And at any time the Largest Object is the largest
    Location that has come in, or none if nothing has. *)
Theorem subscribers_get_new n id status origin ps before arrivals m :
  Forall arrival_ok before -> Forall arrival_ok arrivals ->
  let t0 := with_properties (Track_new id n status origin) ps in
  exists t1 t2, ingest before t0 = Ok t1 /\ ingest arrivals (with_manager t1 m) = Ok t2 /\
    (forall k q, channels m !! k = Some q ->
       channels (manager t2) !! k = Some (if reaches m k then q ++ forwarded n (seen_of before) arrivals else q)) /\
    (forall done a rest l, arrivals = done ++ a :: rest -> checked_location a = Some l -> l ∉ seen_of (before ++ done) ->
       exists e e', event_of a <> [] /\ forwarded n (seen_of before) arrivals = e ++ event_of a ++ e') /\
    largest_is (default_publisher_priority t0) (before ++ arrivals) (largest_object t2).
Proof.
  intros Hb Ha t0. set (priority := default_publisher_priority t0).
  destruct (ingest_ok n priority [] before t0) as (c1 & E1 & H1); [exact (new_content_ok n priority)|done|done|].
  eexists. set (t1 := with_content _ c1) in E1.
  destruct (ingest_ok n priority before arrivals (with_manager t1 m)) as (c2 & E2 & H2); [exact H1|done|done|].
  eexists. split; [exact E1|]. split; [exact E2|]. split_and!.
  - intros k q Hq. exact (sends_channels (forwarded n (seen_of before) arrivals) (with_manager t1 m) k q Hq).
  - intros d a rest l -> El Hnew. rewrite cons_middle, app_assoc.
    assert (Hex : forall r, exists e', forwarded n (seen_of before) ((d ++ [a]) ++ r) = forwarded n (seen_of before) (d ++ [a]) ++ e').
    { intros r. induction r as [|x r IH] using rev_ind; [exists []; by rewrite !app_nil_r|]. destruct IH as [e' E].
      rewrite app_assoc, forwarded_snoc, E, <- app_assoc. by eexists. }
    destruct (Hex rest) as [e' ->]. rewrite forwarded_snoc. exists (forwarded n (seen_of before) d), e'. split; [by destruct a|].
    unfold new_events. rewrite El, known_unseen by done. by rewrite <- app_assoc.
  - exact (kp_largest _ _ _ (co_kept _ _ _ _ H2)).
Qed.

(** C5: the relay answers from its cache only with what came in.  After any
    arrivals, and whatever the cache dropped or claimed between, looking up a range
    of a group never panics; when the cache answers, it gives objects that came in,
    in ascending order, and for each Location of the range that it gives no
    object for there is an arrival that rules it out: an End of Group or End of
    Track at or before it, a datagram or stream that ended its group before it,
    or an object whose Prior Object or Group ID Gap skips it. *)
Theorem cache_answers_from_arrivals `{Target} n id status origin ps arrivals g lo hi :
  Forall arrival_ok arrivals -> is_u64 g -> is_u64 lo -> is_u64 hi ->
  let t0 := with_properties (Track_new id n status origin) ps in
  let priority := default_publisher_priority t0 in
  exists t r, ingest arrivals t0 = Ok t /\ objects_if_complete (cache (content t)) g lo hi = Ok r /\
    forall v, r = Some v ->
      StronglySorted id_lt v /\
      (forall p, p ∈ v -> fp_group_id p = g /\ exists a o e, a ∈ arrivals /\ object_in priority a = Some (o, e) /\ try_into_fetch o = Ok p) /\
      (forall i, lo <= i <= hi -> i ∈ map fp_object_id v \/ exists a, a ∈ arrivals /\ states_absent priority a (mkLocation g i)).
Proof.
  intros Ha Hg Hlo Hhi t0 priority.
  destruct (ingest_ok n priority [] arrivals t0) as (c & E & Hc); [exact (new_content_ok n priority)|done|done|].
  destruct (co_kept _ _ _ _ Hc) as [(ops & Ec & Hops & Hadd & Habs) _ _].
  destruct (answer_accounted ops g lo hi Hops Hg Hlo Hhi) as (r & Er & Hr & _).
  eexists _, _. split; [exact E|]. simpl. rewrite Ec. split; [exact Er|]. intros v Hv.
  destruct (Hr v Hv) as (Hsort & _ & Hfrom & Hacc). split_and!; [done|..].
  - intros p Hp. destruct (Hfrom p Hp) as [Hin Eg]. split; [done|]. by apply Hadd.
  - intros i Hi. destruct (Hacc i Hi) as [(from & to & Hin & Hpos)|]; [right|by left].
    apply (Habs from to (mkLocation g i) Hin); [|done]. unfold loc_ok, is_u64 in *. simpl. lia.
Qed.


(** * Examples *)

Definition demo_arrival (first : bool) (id : Z) : arrival :=
  AR_Object demo_sid (object_of demo_header 7 (demo_object id)) (if first then Some (HI_Subgroup demo_header) else None).
Definition demo_manager : SubscriptionManager :=
  match sm_add_subscription SubscriptionManager_new (1, 0) with Some (m, _) => m | None => SubscriptionManager_new end.

Lemma demo_arrival_ok first id : is_u64 id -> arrival_ok (demo_arrival first id).
Proof. intros H. split; [by vm_compute|exact H]. Qed.

(** A subscriber joins after the first object; this one comes again from a second publisher. *)
Lemma subscribers_get_new_witness :
  exists t1 t2, ingest [demo_arrival true 0] (Track_new 3 8 TS_Pending TO_Publish) = Ok t1 /\
    ingest [demo_arrival true 0; demo_arrival false 2; AR_Closed demo_sid] (with_manager t1 demo_manager) = Ok t2 /\
    channels (manager t2) !! 0%nat = Some [demo_event demo_header false 2; TE_StreamClosed demo_sid] /\
    largest_object t2 = Some (mkLocation 5 2).
Proof.
  destruct (subscribers_get_new 8 3 TS_Pending TO_Publish [] [demo_arrival true 0]
    [demo_arrival true 0; demo_arrival false 2; AR_Closed demo_sid] demo_manager) as (t1 & t2 & E1 & E2 & Hc & _ & Hl).
  - constructor; [by apply demo_arrival_ok|constructor].
  - constructor; [by apply demo_arrival_ok|]. constructor; [by apply demo_arrival_ok|]. by constructor.
  - exists t1, t2. split_and!; [exact E1|exact E2| |].
    + rewrite (Hc 0%nat [] eq_refl). vm_compute. reflexivity.
    + clear Hc Hl. vm_compute in E1. injection E1 as <-. vm_compute in E2. injection E2 as <-. reflexivity.
Defined.

(** Object 2 says that the ID 1 before it is not used, and its stream ends the group: a
    FETCH of the objects 0 to 9 of the group can be answered from the cache. *)
Definition demo_gap (id gap : Z) : arrival :=
  AR_Object demo_sid (mkObject 7 (mkLocation 5 id) 100 OFP_Subgroup (Some 0) OS_Normal (Some [OP_PriorObjectIdGap gap]) (Some [id]))
    (Some (HI_Subgroup demo_header)).
Definition demo_fill : list arrival := [demo_arrival true 0; demo_gap 2 1; AR_GroupEnd (mkLocation 5 2)].
Definition held_ids (r : panics (option (list FetchObjectPayload))) : option (list Z) :=
  match r with Ok (Some v) => Some (map fp_object_id v) | _ => None end.

Lemma cache_answers_from_arrivals_witness :
  let H := debug_build in
  exists t, ingest demo_fill (Track_new 3 8 TS_Pending TO_Publish) = Ok t /\
    held_ids (objects_if_complete (cache (content t)) 5 0 9) = Some [0; 2] /\
    (exists a, a ∈ demo_fill /\ states_absent 128 a (mkLocation 5 1)) /\
    held_ids (objects_if_complete (cache (content t)) 6 0 9) = None.
Proof.
  destruct (@cache_answers_from_arrivals debug_build 8 3 TS_Pending TO_Publish [] demo_fill 5 0 9) as (t & r & E & Er & Hr).
  - repeat constructor; by vm_compute.
  - by vm_compute.
  - by vm_compute.
  - by vm_compute.
  - exists t. assert (Ev : held_ids (Ok r) = Some [0; 2] /\ held_ids (@objects_if_complete debug_build (cache (content t)) 6 0 9) = None).
    { clear Hr. vm_compute in E. injection E as <-. vm_compute in Er. injection Er as <-. by vm_compute. }
    destruct Ev as [Ev Ev']. split_and!; [exact E|by rewrite Er|destruct r as [v|]; [|done]|exact Ev'].
    destruct (Hr v eq_refl) as (_ & _ & Hall). destruct (Hall 1) as [Hin|Ha]; [done| |exact Ha].
    simpl in Ev. injection Ev as Ev. rewrite Ev in Hin. set_solver.
Defined.
