(* ===== verification/Relay.v ===== *)
(** The relay between a publisher and a subscriber: the data streams of the publishers
    go through the handlers of [Tracks], the events of the track through the task of
    [Forwarding], and out on the subscriber's streams.  This file puts [Ingest] and
    [Delivery] together. *)
From stdpp Require Import gmap.
From S2P Require Import Prelude Varint Common Codes LocationFilter Properties MessageParameter CombinedFilter.
From S2P Require Import Control Subgroup Datagram FetchObject ObjectForms DataStream SeenObjects TrackCache.
From S2P Require Import Streams Subscription Forwarding Delivery Tracks Ingest.

(** * Runs

    The handlers of the publishers' streams run at once; each takes one item of its
    stream at a time, in any order among them. *)

Inductive input : Type :=
| IN_Item (stream : nat) (item : DataStreamItem)
| IN_End (stream : nat)
| IN_Other (a : arrival).

(** The track, and where the handlers are. *)
Record RelayState := mkRelayState { rs_track : Track; rs_streams : gmap nat UniStream }.

Section Steps.
Context `{Target}.
(** What the reader of each stream knows of it, whether a FETCH waits for it, and the
    connection it comes from. *)
Variable info : nat -> StreamInfo.
Variable waits : nat -> bool.
Variable connection : nat -> Z.

Definition handler (r : RelayState) (k : nat) : UniStream := default UniStream_new (rs_streams r !! k).
Definition put_handler (r : RelayState) (k : nat) (result : uni_result) : RelayState :=
  match result with
  | UR_Go t u | UR_Done t u => mkRelayState t (<[k := u]> (rs_streams r))
  | UR_NoHeader => r
  end.
Definition relay_step (r : RelayState) (i : input) : panics RelayState :=
  match i with
  | IN_Item k item => let? x := uni_item (waits k) (info k) (rs_track r) (handler r k) item in Ok (put_handler r k x)
  | IN_End k => let? x := uni_end (waits k) (info k) (rs_track r) (handler r k) (connection k) in Ok (put_handler r k x)
  | IN_Other a => let? t := ingest_one (rs_track r) a in Ok (mkRelayState t (rs_streams r))
  end.
Definition relay_run (inputs : list input) : RelayState -> panics RelayState := for_each inputs relay_step.
End Steps.

(** * What one arrival does to the headers of the open streams *)

Lemma keep_object_active c o e c' : keep_object c o e = Ok c' -> active_subgroup_headers c' = active_subgroup_headers c.
Proof. unfold keep_object. intros (tc & _ & E)%obind_Ok_inv. by injection E as <-. Qed.

Definition active_after (is_new : bool) (a : arrival) (active : gmap StreamId HeaderInfo) : gmap StreamId HeaderInfo :=
  match a with
  | AR_Object s _ (Some h) => if is_new then <[s := h]> active else active
  | AR_Closed s => delete s active
  | _ => active
  end.

Section Arrives.
Context (n : nat) (priority : Z).

Definition is_new (arrivals : list arrival) (a : arrival) : bool :=
  match checked_location a with Some l => negb (known n (seen_of arrivals) l) | None => true end.

Lemma ingest_one_active arrivals t a t' :
  content_ok n priority arrivals (content t) -> arrival_ok a -> ingest_one t a = Ok t' ->
  active_subgroup_headers (content t') = active_after (is_new arrivals a) a (active_subgroup_headers (content t)).
Proof.
  intros [_ Hs] Ha. destruct a as [s o h|d|o|s|last|g|first last|claim]; unfold is_new; cbn [ingest_one checked_location active_after].
  - destruct (is_duplicate_known n _ _ _ Hs Ha) as (slots & E & _). unfold new_subgroup_object. rewrite E. cbn [obind fst snd].
    destruct (known _ _ _); [intros [= <-]; by destruct h|]. intros (c & Ek%keep_object_active & Et)%obind_Ok_inv.
    injection Et as <-. simpl. rewrite Ek. by destruct h.
  - unfold new_datagram. destruct (try_from_datagram _ _) as [[o e]| | |]; [|intros [= <-]; done|done|done].
    intros ([slots b] & _ & E)%obind_Ok_inv. simpl in E. destruct b; [by injection E as <-|].
    apply obind_Ok_inv in E as (c & Ek%keep_object_active & E). injection E as <-. simpl. by rewrite Ek.
  - intros [= <-]. simpl. by destruct (try_into_fetch o).
  - by intros [= <-].
  - intros (tc & _ & E)%obind_Ok_inv. by injection E as <-.
  - by intros [= <-].
  - by intros [= <-].
  - by intros [= <-].
Qed.

Lemma arrives arrivals t a :
  content_ok n priority arrivals (content t) -> default_publisher_priority t = priority -> arrival_ok a ->
  exists t', ingest_one t a = Ok t' /\ content_ok n priority (arrivals ++ [a]) (content t') /\
    manager t' = fold_left send_event_to_subscribers (if is_new arrivals a then event_of a else []) (manager t) /\
    active_subgroup_headers (content t') = active_after (is_new arrivals a) a (active_subgroup_headers (content t)) /\
    upstream t' = upstream t /\ t_relay_track_id t' = t_relay_track_id t /\ track_properties t' = track_properties t.
Proof.
  intros Hc Hp Ha. destruct (ingest_one_ok n priority arrivals t a Hc Hp Ha) as (c' & E & Hc').
  pose proof (ingest_one_active arrivals t a _ Hc Ha E) as Hact. eexists. split; [exact E|]. split_and!; try done.
  unfold sends, new_events, is_new. simpl. destruct (checked_location a) as [l|]; [|done]. by destruct (known _ _ _).
Qed.
End Arrives.

(** * Uploads *)

Record Upload := mkUpload { up_objects : list SubgroupObject; up_ended : bool }.
Definition upload (m : gmap nat Upload) (k : nat) : Upload := default (mkUpload [] false) (m !! k).

Lemma upload_insert_eq m k u : upload (<[k := u]> m) k = u.
Proof. unfold upload. by rewrite lookup_insert_eq. Qed.
Lemma upload_insert_ne m k k' u : k <> k' -> upload (<[k := u]> m) k' = upload m k'.
Proof. intros H. unfold upload. by rewrite lookup_insert_ne. Qed.

(** What is neither an object of a subgroup stream nor its end. *)
Definition aside (a : arrival) : Prop :=
  arrival_ok a /\ match a with AR_Object _ _ _ | AR_Closed _ => False | _ => True end.

Section Uploads.
Context `{Target}.
Variable relay : Z.
Variable n : nat.
Variable priority : Z.
(** The streams are numbered below [count]; [header k] is the header of one, with its
    Subgroup ID known from the first object. *)
Variable count : nat.
Variable header : nat -> SubgroupHeader.
Variable malformed aborted : nat -> bool.
Variable waits : nat -> bool.
Variable connection : nat -> Z.
Hypothesis headers_known : forall k, header_known (header k).
Hypothesis subgroups_distinct : forall k k', (k < count)%nat -> (k' < count)%nat ->
  sid relay (header k) = sid relay (header k') -> k = k'.

Definition stream_info (k : nat) : StreamInfo := mkStreamInfo (Some (HI_Subgroup (header k))) (malformed k) (aborted k).
Definition location_of (k : nat) (so : SubgroupObject) : Location := mkLocation (sh_group_id (header k)) (so_object_id so).
Definition object_sent (k : nat) (so : SubgroupObject) : Object := object_of (header k) (sh_track_alias (header k)) so.

(** Streams that carry subgroups: the IDs on each rise, and no Location comes
    twice.  [seen] are the Locations that were checked for duplicates. *)
Inductive uploads (m0 : gmap nat Upload) (seen0 : list Location) : list input -> gmap nat Upload -> list Location -> Prop :=
| up_start : uploads m0 seen0 [] m0 seen0
| up_object ins m seen k so :
    uploads m0 seen0 ins m seen -> (k < count)%nat -> up_ended (upload m k) = false ->
    object_read (header k) (last_id (up_objects (upload m k))) so ->
    (up_objects (upload m k) = [] -> subgroup_id_mode (header_type (header k)) = SIM_FirstObjectId ->
       sh_subgroup_id (header k) = Some (so_object_id so)) ->
    location_of k so ∉ seen ->
    uploads m0 seen0 (ins ++ [IN_Item k (DI_Object (object_sent k so))])
      (<[k := mkUpload (up_objects (upload m k) ++ [so]) false]> m) (location_of k so :: seen)
| up_end ins m seen k :
    uploads m0 seen0 ins m seen -> (k < count)%nat -> up_ended (upload m k) = false ->
    uploads m0 seen0 (ins ++ [IN_End k]) (<[k := mkUpload (up_objects (upload m k)) true]> m) seen
| up_other ins m seen a :
    uploads m0 seen0 ins m seen -> aside a ->
    uploads m0 seen0 (ins ++ [IN_Other a]) m (match checked_location a with Some l => l :: seen | None => seen end).

Lemma uploads_prefix m0 seen0 ins ins' m seen :
  uploads m0 seen0 (ins ++ ins') m seen -> exists m1 seen1, uploads m0 seen0 ins m1 seen1 /\ uploads m1 seen1 ins' m seen.
Proof.
  remember (ins ++ ins') as all eqn:Eall. intros Hu. revert ins' Eall.
  induction Hu as [|all m seen k so Hu IH Hk He Ho Hf Hl|all m seen k Hu IH Hk He|all m seen a Hu IH Ha]; intros ins' Eall.
  { symmetry in Eall. apply app_eq_nil in Eall as [-> ->]. exists m0, seen0. split; constructor. }
  all: destruct ins' as [|i ins' _] using rev_ind; [rewrite app_nil_r in Eall; subst ins; eexists _, _; split; [|constructor]; by constructor|].
  all: rewrite app_assoc in Eall; apply app_inj_tail in Eall as [-> <-].
  all: destruct (IH ins' eq_refl) as (m1 & seen1 & H1 & H2); exists m1, seen1; split; [done|]; by constructor.
Qed.

(** ** The invariant of a run *)

Definition handler_ok (k : nat) (u : Upload) (h : UniStream) : Prop :=
  up_ended u = false ->
  match up_objects u with
  | [] => h = UniStream_new
  | _ => first_object h = false /\ us_stream_id h = Some (sid relay (header k)) /\ is_subgroup_stream h = true /\
         exists l, last_location h = Some l /\ loc_ok l
  end.

(** [most]: no publisher has ended more streams than this. *)
Record relay_ok (arrivals : list arrival) (most : Z) (m : gmap nat Upload) (seen : list Location) (r : RelayState) : Prop := {
  ro_content : content_ok n priority arrivals (content (rs_track r));
  ro_seen : seen = seen_of arrivals;
  ro_priority : default_publisher_priority (rs_track r) = priority;
  ro_id : t_relay_track_id (rs_track r) = relay;
  ro_handlers : forall k, handler_ok k (upload m k) (handler r k);
  ro_active : forall k, (k < count)%nat -> up_objects (upload m k) <> [] -> up_ended (upload m k) = false ->
    active_subgroup_headers (content (rs_track r)) !! sid relay (header k) = Some (HI_Subgroup (header k));
  ro_closed : forall c, 0 <= closed_count (stream_progress (upstream (rs_track r))) c <= most
}.

Definition sent_on (events : list TrackEvent) (r r' : RelayState) : Prop :=
  manager (rs_track r') = fold_left send_event_to_subscribers events (manager (rs_track r)).

Lemma object_loc_ok k prev so : object_read (header k) prev so -> loc_ok (location_of k so).
Proof. intros [[Hid _ _] _ _ _]. split; [|exact Hid]. destruct (hk_ready _ (headers_known k)). done. Qed.

Lemma handler_put r k t u k' : handler (mkRelayState t (<[k := u]> (rs_streams r))) k' = if decide (k' = k) then u else handler r k'.
Proof. unfold handler. simpl. destruct (decide (k' = k)) as [->|Hne]; [by rewrite lookup_insert_eq|by rewrite lookup_insert_ne]. Qed.

(** An object of a stream. *)
Lemma object_step arrivals most m seen r k so :
  relay_ok arrivals most m seen r -> (k < count)%nat -> up_ended (upload m k) = false ->
  object_read (header k) (last_id (up_objects (upload m k))) so -> location_of k so ∉ seen ->
  let first := bool_decide (up_objects (upload m k) = []) in
  exists r', relay_step stream_info waits connection r (IN_Item k (DI_Object (object_sent k so))) = Ok r' /\
    relay_ok (arrivals ++ [AR_Object (sid relay (header k)) (object_sent k so) (if first then Some (HI_Subgroup (header k)) else None)]) most
      (<[k := mkUpload (up_objects (upload m k) ++ [so]) false]> m) (location_of k so :: seen) r' /\
    sent_on [TE_SubgroupObject (sid relay (header k)) (object_sent k so) (if first then Some (HI_Subgroup (header k)) else None)] r r'.
Proof.
  intros [Hc Hs Hp Hid Hh Ha Hn] Hcount He Ho Hl first. set (a := AR_Object _ _ _).
  assert (Hok : arrival_ok a) by exact (object_loc_ok k _ so Ho).
  destruct (arrives n priority arrivals (rs_track r) a Hc Hp Hok) as (t' & E & Hc' & Em & Eact & Eup & Eid & Eps).
  assert (Hnew : is_new n arrivals a = true) by (unfold is_new; simpl; by rewrite known_unseen by (rewrite <- Hs; exact Hl)).
  rewrite Hnew in *.
  set (u' := mkUniStream false (Some (sid relay (header k))) true (Some (location_of k so)) (us_sent (handler r k))).
  exists (mkRelayState t' (<[k := u']> (rs_streams r))). split_and!.
  - pose proof (Hh k He) as Hk. unfold relay_step, uni_item, upstream_fetch_sender. cbn [get_header_info stream_info].
    assert (Eh : (if first_object (handler r k)
            then Some (true, Some (build_stream_id (t_relay_track_id (rs_track r)) (HI_Subgroup (header k))), Some (HI_Subgroup (header k)))
            else Some (is_subgroup_stream (handler r k), us_stream_id (handler r k), None)) =
           Some (true, Some (sid relay (header k)), if first then Some (HI_Subgroup (header k)) else None)).
    { unfold first. rewrite Hid. destruct (up_objects (upload m k)); [by rewrite Hk|]. by destruct Hk as (-> & -> & -> & _). }
    rewrite Eh. cbn [ingest_one] in E. unfold a in E. simpl in E |- *. rewrite E. reflexivity.
  - split; try done.
    + rewrite seen_of_snoc. simpl. by rewrite Hs.
    + simpl. unfold default_publisher_priority. by rewrite Eps.
    + simpl. congruence.
    + intros k'. rewrite handler_put. destruct (decide (k' = k)) as [->|Hne]; [|rewrite upload_insert_ne by done; apply Hh].
      rewrite upload_insert_eq. intros _. simpl. destruct (up_objects (upload m k)); simpl; split_and!; try done; by exists (location_of k so).
    + intros k' Hcount' Hne He'. simpl. rewrite Eact. destruct (decide (k' = k)) as [->|Hk].
      * simpl. unfold first. destruct (decide (up_objects (upload m k) = [])) as [E0|E0].
        -- rewrite bool_decide_eq_true_2 by done. by rewrite lookup_insert_eq.
        -- rewrite bool_decide_eq_false_2 by done. by apply Ha.
      * rewrite upload_insert_ne in * by done. simpl. destruct first; [|by apply Ha].
        rewrite lookup_insert_ne; [by apply Ha|]. intros Es. by apply Hk, subgroups_distinct.
    + intros c. simpl. rewrite Eup. apply Hn.
  - exact Em.
Qed.

Lemma relay_ok_ended arrivals arrivals' most m seen r k t u :
  relay_ok arrivals most m seen r -> (k < count)%nat -> seen_of arrivals' = seen_of arrivals ->
  content_ok n priority arrivals' (content t) -> track_properties t = track_properties (rs_track r) ->
  t_relay_track_id t = t_relay_track_id (rs_track r) ->
  (forall s, s <> sid relay (header k) -> active_subgroup_headers (content t) !! s = active_subgroup_headers (content (rs_track r)) !! s) ->
  (forall c, 0 <= closed_count (stream_progress (upstream t)) c <= most + 1) ->
  relay_ok arrivals' (most + 1) (<[k := mkUpload (up_objects (upload m k)) true]> m) seen
    (mkRelayState t (<[k := u]> (rs_streams r))).
Proof.
  intros [Hc Hs Hp Hid Hh Ha Hn] Hcount Hseen Hc' Eps Eid Eact Hn'. split; try done.
  - congruence.
  - simpl. unfold default_publisher_priority. by rewrite Eps.
  - simpl. congruence.
  - intros k'. rewrite handler_put. destruct (decide (k' = k)) as [->|Hne]; [|rewrite upload_insert_ne by done; apply Hh].
    by rewrite upload_insert_eq.
  - intros k' Hcount' Hne He'. simpl. destruct (decide (k' = k)) as [->|Hk]; [by rewrite upload_insert_eq in He'|].
    rewrite upload_insert_ne in * by done. rewrite Eact; [by apply Ha|]. intros E. by apply Hk, subgroups_distinct.
Qed.

Lemma relay_ok_quiet arrivals most m r a t' :
  relay_ok arrivals most m (seen_of arrivals) r -> content_ok n priority (arrivals ++ [a]) (content t') ->
  track_properties t' = track_properties (rs_track r) -> t_relay_track_id t' = t_relay_track_id (rs_track r) ->
  active_subgroup_headers (content t') = active_subgroup_headers (content (rs_track r)) ->
  upstream t' = upstream (rs_track r) ->
  relay_ok (arrivals ++ [a]) most m (match checked_location a with Some l => l :: seen_of arrivals | None => seen_of arrivals end)
    (mkRelayState t' (rs_streams r)).
Proof.
  intros [Hc Hs Hp Hid Hh Ha Hn] Hc' Eps Eid Eact Eup. split; try done.
  - by rewrite seen_of_snoc.
  - simpl. unfold default_publisher_priority. by rewrite Eps.
  - simpl. congruence.
  - intros k Hcount Hne He. simpl. rewrite Eact. by apply Ha.
  - intros c. simpl. rewrite Eup. apply Hn.
Qed.

(** What the end of a stream says about its group. *)
Lemma group_end_step arrivals t b last :
  content_ok n priority arrivals (content t) -> default_publisher_priority t = priority ->
  (forall l, last = Some l -> loc_ok l) ->
  exists t' arr,
    (match last with
     | Some l => if b : bool then let? tc := group_ended_after (cache (content t)) l in Ok (with_content t (with_cache (content t) tc)) else Ok t
     | None => Ok t
     end) = (Ok t' : panics Track) /\
    content_ok n priority (arrivals ++ arr) (content t') /\ seen_of (arrivals ++ arr) = seen_of arrivals /\
    manager t' = manager t /\ active_subgroup_headers (content t') = active_subgroup_headers (content t) /\
    upstream t' = upstream t /\ t_relay_track_id t' = t_relay_track_id t /\ track_properties t' = track_properties t.
Proof.
  intros Hc Hp Hl. assert (Hsame : exists t' arr, (Ok t : panics Track) = Ok t' /\ content_ok n priority (arrivals ++ arr) (content t') /\
    seen_of (arrivals ++ arr) = seen_of arrivals /\ manager t' = manager t /\
    active_subgroup_headers (content t') = active_subgroup_headers (content t) /\ upstream t' = upstream t /\
    t_relay_track_id t' = t_relay_track_id t /\ track_properties t' = track_properties t) by (exists t, []; by rewrite app_nil_r).
  destruct last as [l|]; [|done]. destruct b; [|done].
  destruct (arrives n priority arrivals t (AR_GroupEnd l) Hc Hp (Hl l eq_refl)) as (t' & E & Hc' & Em & Eact & Eup & Eid & Eps).
  exists t', [AR_GroupEnd l]. split_and!; try done. by rewrite seen_of_snoc.
Qed.

Lemma end_counted (closed : gmap Z Z) c most : (forall c, 0 <= closed_count closed c <= most) -> most + 1 < U64 ->
  exists closed', progress_stream_closed closed c = Ok closed' /\ forall c', 0 <= closed_count closed' c' <= most + 1.
Proof.
  intros Hn Hm. unfold progress_stream_closed, add_u64. change (default 0 (closed !! c)) with (closed_count closed c).
  pose proof (Hn c). rewrite arith_u64_Ok by (unfold is_u64; lia). eexists. split; [reflexivity|].
  intros c'. assert (Ec : closed_count (<[c := closed_count closed c + 1]> closed) c' =
    if decide (c = c') then closed_count closed c + 1 else closed_count closed c').
  { unfold closed_count at 1. by destruct (decide (c = c')) as [->|Hne]; [rewrite lookup_insert_eq|rewrite lookup_insert_ne]. }
  rewrite Ec. pose proof (Hn c'). destruct (decide _); lia.
Qed.

(** The end of a stream. *)
Lemma end_step arrivals most m seen r k :
  relay_ok arrivals most m seen r -> (k < count)%nat -> up_ended (upload m k) = false -> most + 1 < U64 ->
  exists r' arr, relay_step stream_info waits connection r (IN_End k) = Ok r' /\
    relay_ok (arrivals ++ arr) (most + 1) (<[k := mkUpload (up_objects (upload m k)) true]> m) seen r' /\
    sent_on (if decide (up_objects (upload m k) = []) then [] else [TE_StreamClosed (sid relay (header k))]) r r'.
Proof.
  intros Hr Hcount He Hmost. pose proof Hr as [Hc Hs Hp Hid Hh Ha Hn]. pose proof (Hh k He) as Hk.
  destruct (end_counted _ (connection k) most Hn Hmost) as (closed' & Ecl & Hcl).
  set (t := rs_track r) in *. set (t1 := with_upstream t (with_aliases (upstream t) (publisher_aliases (upstream t)) closed')).
  set (b := negb (aborted k) && contains_end_of_group (header_type (header k))).
  destruct (group_end_step arrivals t1 b (last_location (handler r k))) as (t2 & arr & E2 & Hc2 & Hseen & Em & Eact & Eup & Eid & Eps); try done.
  { intros l El. destruct (up_objects (upload m k)); [by rewrite Hk in El|]. destruct Hk as (_ & _ & _ & l' & El' & Hl'). congruence. }
  set (t3 := match us_stream_id (handler r k) with Some id => stream_closed t2 id | None => t2 end).
  set (arr' := if decide (up_objects (upload m k) = []) then [] else [AR_Closed (sid relay (header k))]).
  exists (mkRelayState t3 (<[k := handler r k]> (rs_streams r))), (arr ++ arr').
  assert (Hid3 : us_stream_id (handler r k) = if decide (up_objects (upload m k) = []) then None else Some (sid relay (header k))).
  { destruct (up_objects (upload m k)); [by rewrite Hk|]. by destruct Hk as (_ & -> & _). }
  split_and!.
  - unfold relay_step, uni_end, upstream_fetch_sender. cbn [get_header_info stream_info was_aborted]. fold t. rewrite Ecl. cbn [obind]. fold t1.
    replace (match aborted k with false => _ | true => _ end) with (Ok t2 : panics Track); [reflexivity|].
    rewrite <- E2. unfold b. by destruct (aborted k), (last_location (handler r k)), (contains_end_of_group _).
  - assert (Hcl3 : forall c, 0 <= closed_count (stream_progress (upstream t2)) c <= most + 1) by (rewrite Eup; exact Hcl).
    rewrite app_assoc. unfold t3, arr'. rewrite Hid3. destruct (decide _).
    + rewrite app_nil_r. apply (relay_ok_ended arrivals); try done. intros s _. by rewrite Eact.
    + assert (Hp2 : default_publisher_priority t2 = priority) by (unfold default_publisher_priority; rewrite Eps; exact Hp).
      destruct (arrives n priority (arrivals ++ arr) t2 (AR_Closed (sid relay (header k))) Hc2 Hp2 I)
        as (t' & [= <-] & Hc' & _). apply (relay_ok_ended arrivals); try done.
      * rewrite seen_of_snoc. exact Hseen.
      * intros s Hne. simpl. rewrite lookup_delete_ne by done. by rewrite Eact.
  - unfold sent_on, t3. simpl. rewrite Hid3. destruct (decide _); simpl; by rewrite Em.
Qed.

(** ** What a channel is sent *)

(** [fedmap]: what has been sent of each subgroup since [m1]. *)
Record fed_since (m1 m : gmap nat Upload) (fedmap : gmap StreamId Fed) : Prop := {
  fs_each : forall k, (k < count)%nat -> exists new, up_objects (upload m k) = up_objects (upload m1 k) ++ new /\
    fedmap !! sid relay (header k) =
      if decide (new = []) then None
      else Some (mkFed (header k) new (up_ended (upload m k)) (negb (bool_decide (up_objects (upload m1 k) = []))));
  fs_only : forall s f, fedmap !! s = Some f -> exists k, (k < count)%nat /\ s = sid relay (header k)
}.

Lemma fed_since_insert m1 m fedmap k u f new :
  fed_since m1 m fedmap -> (k < count)%nat -> up_objects u = up_objects (upload m1 k) ++ new -> new <> [] ->
  f = mkFed (header k) new (up_ended u) (negb (bool_decide (up_objects (upload m1 k) = []))) ->
  fed_since m1 (<[k := u]> m) (<[sid relay (header k) := f]> fedmap).
Proof.
  intros [He Ho] Hcount Eu Hne ->. split.
  - intros k' Hcount'. destruct (decide (k = k')) as [<-|Hk].
    + exists new. rewrite upload_insert_eq, lookup_insert_eq. by destruct (decide (new = [])).
    + rewrite upload_insert_ne by done. rewrite lookup_insert_ne by (intros E; by apply Hk, subgroups_distinct). by apply He.
  - intros s f [[<- _]|[_ Hf]]%lookup_insert_Some; [by exists k|by apply (Ho s f)].
Qed.

Lemma fed_since_end m1 m fedmap k :
  fed_since m1 m fedmap -> (k < count)%nat -> fedmap !! sid relay (header k) = None ->
  fed_since m1 (<[k := mkUpload (up_objects (upload m k)) true]> m) fedmap.
Proof.
  intros [He Ho] Hcount Hnone. split; [|done]. intros k' Hcount'.
  destruct (decide (k = k')) as [<-|Hk]; [|rewrite upload_insert_ne by done; by apply He].
  destruct (He k Hcount) as (new & E & Ef). exists new. rewrite upload_insert_eq. split; [done|]. rewrite Hnone in *. by destruct (decide (new = [])).
Qed.

Lemma relay_ok_more arrivals most most' m seen r : most <= most' -> relay_ok arrivals most m seen r -> relay_ok arrivals most' m seen r.
Proof. intros Hle [Hc Hs Hp Hid Hh Ha Hn]. split; try done. intros c. pose proof (Hn c). lia. Qed.

(** One input: what it sends, and what of it a subscriber is fed. *)
Lemma object_fed m1 m fedmap evs k so :
  fed_since m1 m fedmap -> fed relay evs fedmap -> (k < count)%nat -> up_ended (upload m k) = false ->
  object_read (header k) (last_id (up_objects (upload m k))) so ->
  (up_objects (upload m k) = [] -> subgroup_id_mode (header_type (header k)) = SIM_FirstObjectId ->
     sh_subgroup_id (header k) = Some (so_object_id so)) ->
  exists fedmap',
    fed relay (evs ++ [TE_SubgroupObject (sid relay (header k)) (object_sent k so)
      (if bool_decide (up_objects (upload m k) = []) then Some (HI_Subgroup (header k)) else None)]) fedmap' /\
    fed_since m1 (<[k := mkUpload (up_objects (upload m k) ++ [so]) false]> m) fedmap'.
Proof.
  intros Hs Hf Hcount He Ho Hfirst. destruct (fs_each _ _ _ Hs k Hcount) as (new & E & Ef).
  eexists. split; cycle 1.
  { eapply (fed_since_insert _ _ _ _ _ _ (new ++ [so])); [exact Hs|done|simpl; by rewrite E, app_assoc|by destruct new|reflexivity]. }
  simpl. destruct (decide (new = [])) as [->|Hnew].
  - rewrite app_nil_r in E. rewrite E in *. simpl. destruct (bool_decide_reflect (up_objects (upload m1 k) = [])) as [E0|E0]; simpl.
    + apply fed_first; try done; [by rewrite E0 in Ho|by apply Hfirst].
    + apply fed_join; try done. by eapply object_read_any.
  - rewrite bool_decide_eq_false_2 by (rewrite E; by destruct (up_objects (upload m1 k)), new). rewrite He in Ef.
    apply fed_next; [done|done|]. replace (last_id new) with (last_id (up_objects (upload m k))); [done|].
    rewrite E. unfold last_id. rewrite last_app. by destruct (last new) eqn:El; [|apply last_None in El].
Qed.

Lemma end_fed m1 m fedmap evs k :
  fed_since m1 m fedmap -> fed relay evs fedmap -> (k < count)%nat -> up_ended (upload m k) = false ->
  exists fedmap',
    fed relay (evs ++ (if decide (up_objects (upload m k) = []) then [] else [TE_StreamClosed (sid relay (header k))])) fedmap' /\
    fed_since m1 (<[k := mkUpload (up_objects (upload m k)) true]> m) fedmap'.
Proof.
  intros Hs Hf Hcount He. destruct (fs_each _ _ _ Hs k Hcount) as (new & E & Ef). destruct (decide (new = [])) as [->|Hnew].
  - exists fedmap. split; [|by apply fed_since_end]. destruct (decide _); [by rewrite app_nil_r|]. by apply fed_close_unseen.
  - rewrite decide_False by (rewrite E; by destruct (up_objects (upload m1 k)), new). rewrite He in Ef.
    eexists. split; [by eapply (fed_close _ _ _ _ new)|]. by eapply (fed_since_insert _ _ _ _ _ _ new).
Qed.

Lemma other_fed m1 m fedmap evs a b : aside a ->
  fed_since m1 m fedmap -> fed relay evs fedmap -> fed relay (evs ++ (if b : bool then event_of a else [])) fedmap.
Proof.
  intros [_ Ha] Hs Hf. destruct b; [|by rewrite app_nil_r]. destruct a; try done; simpl; rewrite ?app_nil_r; try done. by constructor.
Qed.

(** A run, from any state that the invariant allows. *)
Lemma run_ok m1 seen1 ins m seen : uploads m1 seen1 ins m seen -> forall arrivals most r,
  relay_ok arrivals most m1 seen1 r -> most + Z.of_nat (length ins) < U64 ->
  exists r' arr evs fedmap, relay_run stream_info waits connection ins r = Ok r' /\
    relay_ok (arrivals ++ arr) (most + Z.of_nat (length ins)) m seen r' /\
    sent_on evs r r' /\ fed relay evs fedmap /\ fed_since m1 m fedmap.
Proof.
  intros Hu arrivals most r Hr. unfold relay_run.
  induction Hu as [|ins m seen k so Hu IH Hk He Ho Hf Hl|ins m seen k Hu IH Hk He|ins m seen a Hu IH Ha]; intros Hmost;
    [|rewrite length_app, Nat2Z.inj_add in Hmost; simpl in Hmost;
      destruct IH as (r' & arr & evs & fedmap & E & Hr' & Hsent & Hfed & Hsince); [lia|]..].
  - exists r, [], [], ∅. rewrite app_nil_r. split_and!; [done|by apply (relay_ok_more _ most); [lia|]|done|constructor|].
    split; [|intros s f; by rewrite lookup_empty]. intros k. exists []. by rewrite app_nil_r, lookup_empty.
  - destruct (object_step _ _ _ _ _ k so Hr' Hk He Ho Hl) as (r2 & E2 & Hr2 & Hsent2).
    destruct (object_fed m1 m fedmap evs k so Hsince Hfed Hk He Ho Hf) as (fedmap2 & Hfed2 & Hsince2).
    eexists r2, (arr ++ [_]), (evs ++ [_]), fedmap2. rewrite for_each_app, E. cbn [obind for_each]. rewrite E2.
    split_and!; [done| |unfold sent_on; rewrite fold_left_app, <- Hsent; exact Hsent2|exact Hfed2|done].
    rewrite app_assoc. apply (relay_ok_more _ (most + Z.of_nat (length ins))); [rewrite length_app; lia|exact Hr2].
  - destruct (end_step _ _ _ _ _ k Hr' Hk He) as (r2 & arr2 & E2 & Hr2 & Hsent2); [lia|].
    destruct (end_fed m1 m fedmap evs k Hsince Hfed Hk He) as (fedmap2 & Hfed2 & Hsince2).
    eexists r2, (arr ++ arr2), (evs ++ _), fedmap2. rewrite for_each_app, E. cbn [obind for_each]. rewrite E2.
    split_and!; [done| |unfold sent_on; rewrite fold_left_app, <- Hsent; exact Hsent2|exact Hfed2|done].
    rewrite app_assoc, length_app, Nat2Z.inj_add, Z.add_assoc. exact Hr2.
  - pose proof Hr' as [Hc Hs Hp _ _ _ _]. destruct (arrives n priority _ (rs_track r') a Hc Hp (proj1 Ha)) as (t' & E2 & Hc' & Em & Eact & Eup & Eid & Eps).
    eexists (mkRelayState t' (rs_streams r')), (arr ++ [a]), (evs ++ _), fedmap. rewrite for_each_app, E. cbn [obind for_each relay_step]. rewrite E2.
    split_and!; [done| |unfold sent_on; rewrite fold_left_app, <- Hsent; exact Em|by apply (other_fed m1 m)|done].
    rewrite app_assoc. apply (relay_ok_more _ (most + Z.of_nat (length ins))); [rewrite length_app; lia|].
    subst seen. apply relay_ok_quiet; try done. rewrite Eact. destruct Ha as [_ Ha]. by destruct a.
Qed.

(** ** Streams that stay open *)

Lemma uploads_ended m1 seen1 ins m seen k : uploads m1 seen1 ins m seen ->
  (up_ended (upload m1 k) = true -> upload m k = upload m1 k) /\
  (up_ended (upload m k) = true -> up_ended (upload m1 k) = true \/ IN_End k ∈ ins).
Proof.
  induction 1 as [|ins m seen k' so Hu [IH1 IH2] Hcount He Ho Hf Hl|ins m seen k' Hu [IH1 IH2] Hcount He|ins m seen a Hu [IH1 IH2] Ha].
  - split; [done|by left].
  - split; [intros E1; specialize (IH1 E1)|intros E2]; destruct (decide (k' = k)) as [->|Hk].
    + rewrite IH1, E1 in He. done.
    + by rewrite upload_insert_ne.
    + by rewrite upload_insert_eq in E2.
    + rewrite upload_insert_ne in E2 by done. set_solver.
  - split; [intros E1; specialize (IH1 E1)|intros E2]; destruct (decide (k' = k)) as [->|Hk].
    + rewrite IH1, E1 in He. done.
    + by rewrite upload_insert_ne.
    + set_solver.
    + rewrite upload_insert_ne in E2 by done. set_solver.
  - split; [done|set_solver].
Qed.

(** The headers a task finds when the relay has taken [time] of the inputs. *)
Definition open_at (ins : list input) (r : RelayState) (time : nat) : gmap StreamId HeaderInfo :=
  match relay_run stream_info waits connection (take time ins) r with
  | Ok r => active_subgroup_headers (content (rs_track r))
  | _ => ∅
  end.

(** A task that takes the objects of a subgroup in the middle of which it joined, before
    the publisher ends the stream. *)
Definition in_time (m1 : gmap nat Upload) (ins : list input) (evs : list TrackEvent) (times : list nat) : Prop :=
  forall i time k o, (k < count)%nat -> evs !! i = Some (TE_SubgroupObject (sid relay (header k)) o None) -> times !! i = Some time ->
    up_objects (upload m1 k) <> [] -> IN_End k ∉ take time ins.

Lemma open_until_ended arrivals most m1 seen1 ins m seen r time k :
  uploads m1 seen1 ins m seen -> relay_ok arrivals most m1 seen1 r -> most + Z.of_nat (length ins) < U64 -> (k < count)%nat ->
  up_objects (upload m1 k) <> [] -> up_ended (upload m1 k) = false -> IN_End k ∉ take time ins ->
  open_at ins r time !! sid relay (header k) = Some (HI_Subgroup (header k)).
Proof.
  intros Hu Hr Hmost Hcount Hne He Hin. rewrite <- (take_drop time ins) in Hu.
  apply uploads_prefix in Hu as (m2 & seen2 & Hu & _).
  destruct (run_ok _ _ _ _ _ Hu arrivals most r Hr) as (r' & arr & evs & fedmap & E & Hr' & _ & _ & Hs).
  { rewrite length_take. lia. }
  unfold open_at. rewrite E. apply (ro_active _ _ _ _ _ Hr'); [done|..].
  - destruct (fs_each _ _ _ Hs k Hcount) as (new & -> & _). by destruct (up_objects (upload m1 k)).
  - apply not_true_is_false. intros E2. destruct (uploads_ended _ _ _ _ _ k Hu) as [_ H2]. destruct (H2 E2); [congruence|done].
Qed.

Lemma in_time_held arrivals most m1 seen1 ins m seen r evs fedmap times :
  uploads m1 seen1 ins m seen -> relay_ok arrivals most m1 seen1 r -> most + Z.of_nat (length ins) < U64 ->
  fed_since m1 m fedmap -> in_time m1 ins evs times -> headers_held evs fedmap (map (open_at ins r) times).
Proof.
  intros Hu Hr Hmost Hs Ht i s o active f He Ha Hf Hj. apply list_lookup_fmap_Some in Ha as (time & -> & Htime).
  destruct (fs_only _ _ _ Hs s f Hf) as (k & Hk & ->). destruct (fs_each _ _ _ Hs k Hk) as (new & Enew & Ef). rewrite Hf in Ef.
  destruct (decide (new = [])) as [|Hnew]; [done|]. injection Ef as ->. simpl in *.
  apply negb_true_iff, bool_decide_eq_false in Hj.
  apply (open_until_ended arrivals most m1 seen1 ins m seen); try done; [|by apply (Ht i time k o)].
  apply not_true_is_false. intros E1. destruct (uploads_ended _ _ _ _ _ k Hu) as [H1 _]. rewrite (H1 E1) in Enew.
  rewrite <- (app_nil_r (up_objects (upload m1 k))) in Enew at 1. apply app_inv_head in Enew. by subst.
Qed.

(** ** Joining *)

Lemma SubscriptionState_from_running o s : SubscriptionState_from o = Ok s -> soft_suspended s = false.
Proof.
  assert (Hset : forall s l, soft_suspended (set_initial_location_filter s l) = soft_suspended s) 
    by (intros s' l; unfold set_initial_location_filter; destruct (is_some _); by destruct l).
  unfold SubscriptionState_from. destruct o as [p|p]; [destruct (for_objects _) as [f|e| |]; try done|];
    intros [= <-]; apply Hset.
Qed.

Lemma add_subscription_joins t connection_id o assigned t' sub ch :
  Tracks.add_subscription t connection_id o assigned = Ok (Some (t', sub, ch)) ->
  t' = with_manager t (manager t') /\
  sub = Subscription_new (t_relay_track_id t) (track_alias sub) (subscription_state sub) /\
  soft_suspended (subscription_state sub) = false /\
  channels (manager t') !! ch = Some [] /\ reaches (manager t') ch = true.
Proof.
  unfold Tracks.add_subscription. intros (s & Es%SubscriptionState_from_running & E)%obind_Ok_inv.
  destruct (sm_add_subscription _ _) as [[m' ch']|] eqn:Em; [|done]. injection E as <- <- <-.
  unfold sm_add_subscription in Em. destruct (sm_subscriptions _ !! _); [done|]. injection Em as <- <-.
  split_and!; try done.
  - simpl. unfold resolve_live_start. by destruct (live_start_location _ _).
  - simpl. by rewrite lookup_app_r, Nat.sub_diag by lia.
  - unfold reaches. simpl. apply existsb_exists. eexists. split; [apply list_elem_of_In, elem_of_map_to_list, lookup_insert_eq|].
    apply Nat.eqb_refl.
Qed.

Lemma joined_ok arrivals most m seen r t' :
  relay_ok arrivals most m seen r -> t' = with_manager (rs_track r) (manager t') ->
  relay_ok arrivals most m seen (mkRelayState t' (rs_streams r)).
Proof. intros [Hc Hs Hp Hid Hh Ha Hn] ->. by split. Qed.

Lemma start_ok id status origin ps :
  default_publisher_priority (with_properties (Track_new relay n status origin) ps) = priority ->
  id = relay -> relay_ok [] 0 ∅ [] (mkRelayState (with_properties (Track_new id n status origin) ps) ∅).
Proof.
  intros Hp ->. split; try done. apply (new_content_ok n priority).
Qed.

(** ** The subscriber's side *)

Variable opens : nat -> bool.
Variable write_all : nat -> bytes -> bytes -> option TransportWriteError.
Variable sends_datagram : bytes -> bool.
Variable responds : Z -> bool.
Context `{Closing}.
Hypothesis all_open : forall i, opens i = true.
Hypothesis all_written : forall i b b', write_all i b b' = None.
Variable gate : Z -> bool.
Variable request_id : Z.
Variable max_lag : Z.

End Uploads.

(** * Examples *)

#[local] Existing Instance prompt.

(** Two subgroups; the subscription joins after the first object of the first one. *)
Definition demo_header_of (k : nat) : SubgroupHeader :=
  match k with O => demo_header | _ => mkSubgroupHeader (header_type demo_header) 7 6 (Some 0) (Some 100) end.
Definition demo_item (k : nat) (id : Z) : input :=
  IN_Item k (DI_Object (object_sent demo_header_of k (demo_object id))).
Definition demo_before : list input := [demo_item 0 0].
Definition demo_after : list input := [demo_item 0 2; demo_item 1 0; IN_End 0; demo_item 1 1].
Definition demo_info : nat -> StreamInfo := stream_info demo_header_of (fun _ => false) (fun _ => false).
Definition demo_relay `{Target} (ins : list input) (r : RelayState) : panics RelayState :=
  relay_run demo_info (fun _ => false) (fun _ => 1) ins r.
Definition demo_track : Track := with_properties (Track_new 3 8 TS_Pending TO_Publish) [].
Definition demo_start : RelayState := mkRelayState demo_track ∅.
Definition demo_origin : SubscriptionOrigin := SO_Subscribe (mkSubscribe 0 [] [] []).

(** The relay after the first inputs, the subscription and its channel, the relay after
    the rest, and what has been put into the channel. *)
Definition got {A} (otherwise : A) (r : panics A) : A := match r with Ok a => a | _ => otherwise end.
Definition demo_joins : RelayState * Subscription * nat :=
  let r1 := got demo_start (@demo_relay debug_build demo_before demo_start) in
  match got None (@Tracks.add_subscription debug_build (rs_track r1) 1 demo_origin 9) with
  | Some (t, sub, ch) => (mkRelayState t (rs_streams r1), sub, ch)
  | None => (demo_start, Subscription_new 3 9 demo_state, O)
  end.
Definition demo_sub : Subscription := snd (fst demo_joins).
Definition demo_last : RelayState := got demo_start (@demo_relay debug_build demo_after (fst (fst demo_joins))).
Definition demo_queue : list TrackEvent := default [] (channels (manager (rs_track demo_last)) !! snd demo_joins).
Definition demo_subscriber : Client := put Client_new 0 (with_rx demo_sub (Some demo_queue)).

Lemma demo_headers_known k : header_known (demo_header_of k).
Proof. destruct k; [exact demo_header_known|]. split; [split|..]; try done; try (vm_compute; intuition discriminate). by repeat eexists. Qed.
Lemma demo_distinct k k' : (k < 2)%nat -> (k' < 2)%nat -> sid 3 (demo_header_of k) = sid 3 (demo_header_of k') -> k = k'.
Proof. intros Hk Hk'. destruct k as [|[|]], k' as [|[|]]; try lia; try done; by vm_compute. Qed.

Lemma demo_uploads :
  exists m1 seen1 m seen, uploads 2 demo_header_of ∅ [] demo_before m1 seen1 /\ uploads 2 demo_header_of m1 seen1 demo_after m seen /\
    upload m1 0 = mkUpload [demo_object 0] false /\ upload m1 1 = mkUpload [] false /\
    upload m 0 = mkUpload [demo_object 0; demo_object 2] true /\ upload m 1 = mkUpload [demo_object 0; demo_object 1] false.
Proof.
  assert (Ho : forall k prev id, is_u64 id -> (forall p, prev = Some p -> p < id) -> object_read (demo_header_of k) prev (demo_object id)).
  { intros k prev id Hid Hp. destruct (demo_object_read prev id Hid Hp). by destruct k. }
  assert (Hafter : forall id p, Some 0 = Some p -> 0 < id -> p < id) by (intros id p [= <-]; done).
  assert (Hn : forall l (s : list Location), bool_decide (l ∈ s) = false -> l ∉ s) by (intros l s; apply bool_decide_eq_false_1).
  pose proof (up_object _ _ ∅ [] _ _ _ 0%nat (demo_object 0) (up_start 2 demo_header_of ∅ []) ltac:(lia) eq_refl
    ltac:(by apply Ho) ltac:(done) ltac:(by apply Hn)) as H1.
  match type of H1 with uploads _ _ _ _ _ ?m ?s => set (m1 := m) in *; set (s1 := s) in * end.
  pose proof (up_object _ _ m1 s1 _ _ _ 0%nat (demo_object 2) (up_start 2 demo_header_of m1 s1) ltac:(lia) eq_refl
    ltac:(apply Ho; [done|intros p Hp; by apply Hafter]) ltac:(done) ltac:(by apply Hn)) as H2.
  pose proof (up_object _ _ _ _ _ _ _ 1%nat (demo_object 0) H2 ltac:(lia) eq_refl
    ltac:(by apply Ho) ltac:(done) ltac:(by apply Hn)) as H3.
  pose proof (up_end _ _ _ _ _ _ _ 0%nat H3 ltac:(lia) eq_refl) as H4.
  pose proof (up_object _ _ _ _ _ _ _ 1%nat (demo_object 1) H4 ltac:(lia) eq_refl
    ltac:(apply Ho; [done|intros p Hp; by apply Hafter]) ltac:(done) ltac:(by apply Hn)) as H5.
  eexists m1, s1, _, _. split; [exact H1|]. split; [exact H5|]. by vm_compute.
Qed.


(** A whole run: what the subscriber of [demo_origin] reads when it joins between the
    inputs, its task taking each event at the time of [times]. *)
Definition demo_system `{Target} (header_of : nat -> SubgroupHeader) (aborted : bool) (before after : list input) (times : list nat)
    : option (list (option (list Z) * stream_end) * option Z) :=
  let run := relay_run (stream_info header_of (fun _ => false) (fun _ => aborted)) (fun _ => false) (fun k => Z.of_nat k) in
  let at_time r := open_at header_of (fun _ => false) (fun _ => aborted) (fun _ => false) (fun k => Z.of_nat k) after r in
  summary (
    let? r := run before demo_start in
    let? joined := Tracks.add_subscription (rs_track r) 9 demo_origin 9 in
    match joined with
    | None => Panic
    | Some (t, sub, ch) =>
        let r := mkRelayState t (rs_streams r) in
        let? r' := run after r in
        let queue := default [] (channels (manager (rs_track r')) !! ch) in
        receive_all always never_fails (fun _ => true) (fun _ => true) (fun _ => true) 0 0
          (map (at_time r) times) (put Client_new 0 (with_rx sub (Some queue)))
    end).

(** In the middle of a subgroup, in time. *)
Example late_joiner_reads_the_rest :
  let H := debug_build in
  demo_system demo_header_of false [demo_item 0 0] [demo_item 0 2; demo_item 0 3; IN_End 0] [1; 2; 3]%nat =
  Some ([(Some [2; 3], SE_Finished)], Some 1).
Proof. vm_compute. reflexivity. Qed.

(** When the publisher's stream ends before the task takes its objects, the header
    is gone and they are lost. *)
Example late_joiner_too_late :
  let H := debug_build in
  demo_system demo_header_of false [demo_item 0 0] [demo_item 0 2; demo_item 0 3; IN_End 0] [3; 3; 3]%nat =
  Some ([], Some 0).
Proof. vm_compute. reflexivity. Qed.

(** A stream that the publisher resets is finished downstream: the subscriber takes
    what it got for the whole subgroup. *)
Example reset_stream_finished :
  let H := debug_build in
  demo_system demo_header_of true [] [demo_item 0 0; demo_item 0 2; IN_End 0] [1; 2; 3]%nat =
  Some ([(Some [0; 2], SE_Finished)], Some 1).
Proof. vm_compute. reflexivity. Qed.

(** A second publisher brings the same subgroup.  Its first object is a duplicate, and
    with it the header is dropped: what it sends after the first publisher's stream has
    ended is lost. *)
Example second_publisher_header_dropped :
  let H := debug_build in
  let second id := IN_Item 1 (DI_Object (object_sent demo_header_of 0 (demo_object id))) in
  demo_system (fun _ => demo_header) false [] 
    [demo_item 0 0; IN_End 0; second 0; second 1] [1; 2; 4]%nat =
  Some ([(Some [0], SE_Finished)], Some 1).
Proof. vm_compute. reflexivity. Qed.
