(* ===== verification/FetchRange.v ===== *)
(** The range of a FETCH and what an upstream response says of it
    ([apps/relay/src/server/message_handlers/fetch_handler.rs], the parts without
    tasks or streams). *)
From stdpp Require Import gmap.
From S2P Require Import Prelude Varint Common Codes LocationFilter Properties MessageParameter FetchObject Control.
From S2P Require Import TrackCache.

(** * The range asked for *)

Inductive FetchRangeError : Type := FRE_InvalidRange | FRE_ProtocolViolation.
#[export] Instance FetchRangeError_eq_dec : EqDecision FetchRangeError.
Proof. solve_decision. Defined.

Definition resolve_fetch_range (filter : LocationFilter) (largest : option Location)
    : outcome FetchRangeError (Location * Location) :=
  let backward := match start_location filter None, end_location filter with
                  | Some start, Some end_ => Location_ltb end_ start
                  | _, _ => false
                  end in
  if backward then Err FRE_ProtocolViolation
  else match fetch_range filter largest with Some range => Ok range | None => Err FRE_InvalidRange end.

Definition concrete_end_location (end_ : Location) (upstream_end : option Location) (cached_last : option Z) : Location :=
  if negb (object end_ =? U64_MAX) then end_
  else
    let cached := match cached_last with Some o => mkLocation (group end_) o | None => end_ end in
    match upstream_end with
    | Some upstream_end => if Location_ltb upstream_end end_ then upstream_end else cached
    | None => cached
    end.

Definition last_cached_object_id (cache : TrackCache) (group : Z) : option Z :=
  match groups cache !! group with
  | Some objects =>
      fold_left (fun m o => Some (match m with Some m => Z.max m (fp_object_id o) | None => fp_object_id o end)) objects None
  | None => None
  end.

Definition unresolved_fetch_range (filter : LocationFilter) : option (Location * Location) :=
  match filter with
  | LF_AbsoluteStartGroupEnd start _ | LF_AbsoluteRange start _ =>
      match end_location filter with Some end_ => Some (start, end_) | None => None end
  | _ => None
  end.

Definition local_state_answers (known : option Location) (requested_end : Location) : bool :=
  match known with Some known => Location_leb requested_end known | None => false end.

Definition groups_to_claim (filter : LocationFilter) : option (Z * Z) :=
  match end_location filter with
  | Some end_ => Some (match start_location filter None with Some l => group l | None => 0 end, group end_)
  | None => None
  end.

(** "Invalid range" *)
Definition INVALID_RANGE : bytes := [73; 110; 118; 97; 108; 105; 100; 32; 114; 97; 110; 103; 101].

Definition empty_range_outcome (filter : LocationFilter) (upstream_rejection : option RequestError)
    (has_upstream_publisher : bool) : outcome (RequestErrorCode * ReasonPhrase) (Location * Location) :=
  match upstream_rejection with
  | Some err => Err (re_error_code err, re_reason_phrase err)
  | None =>
      match unresolved_fetch_range filter, has_upstream_publisher with
      | Some range, true => Ok range
      | _, _ => Err (REC_InvalidRange, mkReasonPhrase INVALID_RANGE)
      end
  end.

(** * Parts of the range *)

Definition requested_part (first last : Z) (start end_ : Location) : Location * Location :=
  (Location_max (mkLocation first 0) start, Location_min (mkLocation last U64_MAX) end_).

Definition is_descending (group_order : GroupOrder) : bool := bool_decide (group_order = GO_Descending).

Definition delivered_start (start end_ : Location) (group_order : GroupOrder) : Location :=
  if is_descending group_order && negb (group start =? group end_) then mkLocation (group start) 0 else start.

Definition objects_wanted (g : Z) (start end_ : Location) : Z * Z :=
  let '(lo, hi) := requested_part g g start end_ in (object lo, object hi).

Definition last_delivered (first last : Z) (start end_ : Location) (descending : bool) : Location :=
  let g := if descending then first else last in snd (requested_part g g start end_).

Definition unknown_up_to (location : Location) : FetchObject :=
  FO_EndOfRange ERK_Unknown (group location) (object location).

Definition range_filter (start end_ : Location) : LocationFilter :=
  if object end_ =? U64_MAX then LF_AbsoluteStartGroupEnd start (group end_) else LF_AbsoluteRange start end_.

(** * What a response says is absent *)

Abbreviation Span := (Location * Location)%type.

Record ResponseAbsences := mkResponseAbsences {
  ra_start : Location;
  ra_end : Location;
  ra_descending : bool;
  ra_fetch_ok : bool;
  ra_last : option Location
}.

Definition ResponseAbsences_new (start end_ : Location) (group_order : GroupOrder) : ResponseAbsences :=
  let descending := is_descending group_order && negb (group start =? group end_) in
  mkResponseAbsences (delivered_start start end_ group_order) end_ descending false None.

Definition on_fetch_ok (self : ResponseAbsences) (end_location : Location) : ResponseAbsences :=
  mkResponseAbsences (ra_start self) (if Location_ltb end_location (ra_end self) then end_location else ra_end self)
    (ra_descending self) true (ra_last self).

Definition with_last (self : ResponseAbsences) (l : Location) : ResponseAbsences :=
  mkResponseAbsences (ra_start self) (ra_end self) (ra_descending self) (ra_fetch_ok self) (Some l).

Definition group_end (self : ResponseAbsences) (g : Z) : Z :=
  if g =? group (ra_end self) then object (ra_end self) else U64_MAX.

Definition clip (self : ResponseAbsences) (spans : list Span) : list Span :=
  List.filter (fun s => Location_leb (fst s) (snd s))
    (map (fun s => (Location_max (fst s) (ra_start self), Location_min (snd s) (ra_end self))) spans).

Section WithTarget.
Context `{Target}.

(** The Object IDs of a group from 0 up to that of [to]. *)
Definition head_of (to : Location) : list Span :=
  if 0 <? object to then [(mkLocation (group to) 0, mkLocation (group to) (object to - 1))] else [].

(** The rest of the group of [last]. *)
Definition rest_of_group (self : ResponseAbsences) (last : Location) : panics (list Span) :=
  if object last <? group_end self (group last) then
    let? next := add_u64 (object last) 1 in
    Ok [(mkLocation (group last) next, mkLocation (group last) (group_end self (group last)))]
  else Ok [].

Definition between (self : ResponseAbsences) (to : Location) : panics (list Span) :=
  if negb (ra_descending self) then
    let from := match ra_last self with Some last => Location_next last | None => Some (ra_start self) end in
    Ok (clip self match from, Location_prev to with Some from, Some until => [(from, until)] | _, _ => [] end)
  else
    let? spans :=
      match ra_last self with
      | Some last =>
          if group last =? group to then
            Ok match Location_next last, Location_prev to with Some from, Some until => [(from, until)] | _, _ => [] end
          else
            let? rest := rest_of_group self last in
            let? next_group := add_u64 (group to) 1 in
            let skipped := if next_group <? group last
                           then [(mkLocation next_group 0, mkLocation (group last - 1) U64_MAX)] else [] in
            Ok (rest ++ skipped ++ head_of to)
      | None =>
          let? above := (if group to <? group (ra_end self) then
                           let? next_group := add_u64 (group to) 1 in Ok [(mkLocation next_group 0, ra_end self)]
                         else Ok []) in
          Ok (above ++ head_of to)
      end in
    Ok (clip self spans).

Definition on_object (self : ResponseAbsences) (location : Location) : panics (ResponseAbsences * list Span) :=
  let? spans := between self location in
  Ok (with_last self location, spans).

Definition on_marker (self : ResponseAbsences) (kind : EndOfRangeKind) (location : Location)
    : panics (ResponseAbsences * list Span) :=
  let? spans := between self location in
  Ok (with_last self location,
      match kind with ERK_NonExistent => clip self (spans ++ [(location, location)]) | _ => [] end).

Definition on_end (self : ResponseAbsences) (closed_cleanly : bool) : panics (list Span) :=
  if negb (closed_cleanly && ra_fetch_ok self) then Ok []
  else
    let? spans :=
      match ra_last self, ra_descending self with
      | None, _ => Ok [(ra_start self, ra_end self)]
      | Some last, false => Ok match Location_next last with Some next => [(next, ra_end self)] | None => [] end
      | Some last, true =>
          let? rest := rest_of_group self last in
          Ok (rest ++ if group (ra_start self) <? group last
                      then [(ra_start self, mkLocation (group last - 1) U64_MAX)] else [])
      end in
    Ok (clip self spans).
End WithTarget.

(** * Responses *)

(** What arrives of a response, in the order it is taken. *)
Inductive response_event : Type :=
| RE_Accepted (end_location : Location)
| RE_Object (location : Location)
| RE_Marker (kind : EndOfRangeKind) (location : Location).

Definition response_step `{Target} (s : ResponseAbsences * list Span) (e : response_event)
    : panics (ResponseAbsences * list Span) :=
  let '(self, marked) := s in
  match e with
  | RE_Accepted end_location => Ok (on_fetch_ok self end_location, marked)
  | RE_Object location => let? r := on_object self location in Ok (fst r, marked ++ snd r)
  | RE_Marker kind location => let? r := on_marker self kind location in Ok (fst r, marked ++ snd r)
  end.

(** All that is marked absent for a response. *)
Definition response_run `{Target} (start end_ : Location) (order : GroupOrder) (events : list response_event)
    (closed_cleanly : bool) : panics (list Span) :=
  let? r := for_each events response_step (ResponseAbsences_new start end_ order, []) in
  let? rest := on_end (fst r) closed_cleanly in
  Ok (snd r ++ rest).

(** ** What a response means

    The entries follow each other in the order of delivery, which [rank] numbers.  A
    Location is spoken for by the first entry at or after it, or by the end of the
    response. *)
Definition rank (descending : bool) (l : Location) : Z :=
  if descending then (U64 - 1 - group l) * U64 + object l else pos l.

Definition entry_location (e : response_event) : option Location :=
  match e with RE_Accepted _ => None | RE_Object l | RE_Marker _ l => Some l end.

Definition speaks_for (descending : bool) (l : Location) (e : response_event) : bool :=
  match entry_location e with Some l' => rank descending l <=? rank descending l' | None => false end.
Definition says_absent (e : response_event) (l : Location) : bool :=
  match e with
  | RE_Object l' => negb (bool_decide (l' = l))
  | RE_Marker kind _ => bool_decide (kind = ERK_NonExistent)
  | RE_Accepted _ => false
  end.
Definition stated_absent (descending : bool) (events : list response_event) (over : bool) (l : Location) : bool :=
  match List.find (speaks_for descending l) events with Some e => says_absent e l | None => over end.

(** The publisher's End Location, when it is before the end asked for. *)
Definition end_after (end_ : Location) (events : list response_event) : Location :=
  fold_left (fun end_ e => match e with RE_Accepted l => if Location_ltb l end_ then l else end_ | _ => end_ end) events end_.
Definition accepted (events : list response_event) : bool :=
  existsb (fun e => match e with RE_Accepted _ => true | _ => false end) events.

Definition between_locations (from to l : Location) : Prop := pos from <= pos l <= pos to.

(** A response in order and within the range. *)
Definition response_ok (start end_ : Location) (order : GroupOrder) (events : list response_event) : Prop :=
  let descending := is_descending order && negb (group start =? group end_) in
  Forall (fun e => match e with RE_Accepted l => loc_ok l | _ => True end) events /\
  (forall l, l ∈ omap entry_location events ->
     loc_ok l /\ between_locations (delivered_start start end_ order) (end_after end_ events) l) /\
  StronglySorted (fun l l' => rank descending l < rank descending l') (omap entry_location events).

(** * Lemmas *)

Section Absences.
Context `{Target}.
Implicit Types (l to : Location) (self : ResponseAbsences).

Ltac locs :=
  repeat match goal with
  | H : loc_ok _ |- _ => unfold loc_ok, is_u64 in H; cbn [Common.group Common.object] in H
  end; unfold loc_ok, is_u64, between_locations, rank, pos in *; cbn [Common.group Common.object fst snd] in *.

Lemma rank_lt l l' : loc_ok l -> loc_ok l' ->
  rank true l < rank true l' <-> group l' < group l \/ group l = group l' /\ object l < object l'.
Proof. destruct l as [g o], l' as [g' o']. intros. locs. lia. Qed.

Lemma rank_inj d l l' : loc_ok l -> loc_ok l' -> rank d l = rank d l' -> l = l'.
Proof. destruct d; [|apply pos_inj]. destruct l as [g o], l' as [g' o']. intros. locs. f_equal; lia. Qed.

Definition spans_ok (spans : list Span) : Prop := Forall (fun s => loc_ok (fst s) /\ loc_ok (snd s)) spans.

Lemma Location_max_pos a b : loc_ok a -> loc_ok b -> loc_ok (Location_max a b) /\ pos (Location_max a b) = Z.max (pos a) (pos b).
Proof.
  intros Ha Hb. unfold Location_max. destruct (Location_leb a b) eqn:E.
  - apply Location_leb_pos in E; [|done..]. split; [done|lia].
  - apply not_true_iff_false in E. rewrite Location_leb_pos in E by done. split; [done|lia].
Qed.
Lemma Location_min_pos a b : loc_ok a -> loc_ok b -> loc_ok (Location_min a b) /\ pos (Location_min a b) = Z.min (pos a) (pos b).
Proof.
  intros Ha Hb. unfold Location_min. destruct (Location_leb a b) eqn:E.
  - apply Location_leb_pos in E; [|done..]. split; [done|lia].
  - apply not_true_iff_false in E. rewrite Location_leb_pos in E by done. split; [done|lia].
Qed.

Lemma clip_covers self spans p : loc_ok (ra_start self) -> loc_ok (ra_end self) -> spans_ok spans ->
  covered (clip self spans) p <-> covered spans p /\ pos (ra_start self) <= p <= pos (ra_end self).
Proof.
  unfold spans_ok. rewrite Forall_forall. intros Hs He Hok. unfold clip, covered, covers. split.
  - intros (e & Hin & Hp). apply in_filter in Hin as [Hin _]. apply list_elem_of_fmap in Hin as (s & -> & Hin).
    destruct (Hok s Hin) as [Hf Ht]. simpl in Hp.
    destruct (Location_max_pos (fst s) (ra_start self)) as [_ E1]; [done..|].
    destruct (Location_min_pos (snd s) (ra_end self)) as [_ E2]; [done..|]. rewrite E1, E2 in Hp. split; [|lia]. exists s. split; [done|lia].
  - intros [(s & Hin & Hp) Hr]. destruct (Hok s Hin) as [Hf Ht].
    destruct (Location_max_pos (fst s) (ra_start self)) as [O1 E1]; [done..|].
    destruct (Location_min_pos (snd s) (ra_end self)) as [O2 E2]; [done..|].
    exists (Location_max (fst s) (ra_start self), Location_min (snd s) (ra_end self)). simpl. rewrite E1, E2. split; [|lia].
    apply in_filter. split; [apply list_elem_of_fmap; by exists s|]. simpl. apply Location_leb_pos; [done..|]. lia.
Qed.

Definition after_last self l : Prop :=
  match ra_last self with Some last => rank (ra_descending self) last < rank (ra_descending self) l | None => True end.

Record absences_ok self : Prop := {
  ao_start : loc_ok (ra_start self);
  ao_end : loc_ok (ra_end self);
  ao_last : forall last, ra_last self = Some last -> loc_ok last;
  ao_whole : ra_descending self = true -> object (ra_start self) = 0
}.

Definition in_response self l : Prop := loc_ok l /\ between_locations (ra_start self) (ra_end self) l.

Lemma covered_nil p : ~ covered [] p.
Proof. intros (e & Hin & _). by apply elem_of_nil in Hin. Qed.
Lemma covered_if (b : bool) (e : Span) p : covered (if b then [e] else []) p <-> b = true /\ covers e p.
Proof. destruct b; [rewrite covered_single; tauto|]. split; [intros ?%covered_nil; done|by intros []]. Qed.
Lemma covers_group g a b l : loc_ok l -> is_u64 g -> 0 <= a -> b < U64 -> 
  covers (mkLocation g a, mkLocation g b) (pos l) <-> group l = g /\ a <= object l <= b.
Proof. destruct l as [gl ol]. intros. unfold covers, is_u64 in *. locs. nia. Qed.
Lemma covers_groups g g' l : loc_ok l -> is_u64 g -> is_u64 g' ->
  covers (mkLocation g 0, mkLocation g' U64_MAX) (pos l) <-> g <= group l <= g'.
Proof. destruct l as [gl ol]. intros. unfold covers, is_u64 in *. locs. nia. Qed.

(** The Locations between two entries. *)
Lemma next_prev_covers from to l : loc_ok from -> loc_ok to -> loc_ok l -> pos from < pos to ->
  let spans := match Location_next from, Location_prev to with Some f, Some u => [(f, u)] | _, _ => [] end in
  spans_ok spans /\ (covered spans (pos l) <-> pos from < pos l < pos to).
Proof.
  intros Hf Ht Hl Hlt spans. unfold spans. pose proof (pos_range from Hf). pose proof (pos_range to Ht).
  destruct (Location_next from) as [f|] eqn:Ef; [|apply Location_next_None in Ef; [lia|done]].
  destruct (Location_prev to) as [u|] eqn:Eu; [|apply Location_prev_None in Eu; [lia|done]].
  apply Location_next_Some in Ef as [Hf' Ef]; [|done]. apply Location_prev_Some in Eu as [Hu Eu]; [|done].
  split; [by apply Forall_singleton|]. rewrite covered_single. unfold covers. simpl. lia.
Qed.

Lemma spans_ok_app s s' : spans_ok s -> spans_ok s' -> spans_ok (s ++ s').
Proof. apply Forall_app_2. Qed.
Lemma spans_ok_if (b : bool) from to : (b = true -> loc_ok from /\ loc_ok to) -> spans_ok (if b then [(from, to)] else []).
Proof. destruct b; intros Hb; [apply Forall_singleton; auto|constructor]. Qed.
Hint Resolve spans_ok_app spans_ok_if : core.

Lemma head_of_covers to l : loc_ok to -> loc_ok l ->
  spans_ok (head_of to) /\ (covered (head_of to) (pos l) <-> group l = group to /\ object l < object to).
Proof.
  intros Ht Hl. unfold head_of. split.
  - apply spans_ok_if. intros Hb%Z.ltb_lt. destruct to as [g o]. locs. lia.
  - rewrite covered_if, Z.ltb_lt, covers_group; [|done|by destruct Ht|lia|destruct to; locs; lia]. destruct Hl as [_ [? _]]. lia.
Qed.

Lemma group_end_bound self g : absences_ok self -> 0 <= group_end self g < U64.
Proof. intros [_ [_ He] _ _]. unfold group_end, is_u64 in *. destruct (_ =? _); [lia|]. by vm_compute. Qed.
Lemma in_group_end self l : absences_ok self -> in_response self l -> object l <= group_end self (group l).
Proof.
  intros [Hs He _ _] [Hl [_ Hle]]. unfold group_end. destruct (Z.eqb_spec (group l) (group (ra_end self))) as [E|].
  - destruct l, (ra_end self). locs. nia.
  - destruct Hl as [_ [_ Ho]]. lia.
Qed.

Lemma rest_of_group_covers self last : absences_ok self -> loc_ok last ->
  exists spans, rest_of_group self last = Ok spans /\ spans_ok spans /\
    forall l, in_response self l -> covered spans (pos l) <-> group l = group last /\ object last < object l.
Proof.
  intros Hok Hla. pose proof (group_end_bound self (group last) Hok) as Hge. unfold rest_of_group.
  pose proof Hla as [Hg Ho]. unfold is_u64 in Hg, Ho.
  destruct (Z.ltb_spec (object last) (group_end self (group last))) as [Hlt|Hge'].
  - unfold add_u64. rewrite arith_u64_Ok by (unfold is_u64; lia). eexists. split; [reflexivity|]. split.
    + apply Forall_singleton. locs. lia.
    + intros l Hin. pose proof (in_group_end self l Hok Hin) as Hle. destruct Hin as [Hl _].
      rewrite covered_single, covers_group; [|done|done|lia|lia]. split; [lia|]. intros [E ?]. rewrite E in Hle. lia.
  - exists []. split; [done|]. split; [constructor|]. intros l Hin. pose proof (in_group_end self l Hok Hin) as Hle.
    split; [by intros ?%covered_nil|]. intros [E ?]. rewrite E in Hle. lia.
Qed.

(** What is between the last entry and the next. *)
Lemma between_covers self to l :
  absences_ok self -> in_response self l -> in_response self to -> after_last self to ->
  exists spans, between self to = Ok (clip self spans) /\ spans_ok spans /\
    (covered (clip self spans) (pos l) <-> after_last self l /\ rank (ra_descending self) l < rank (ra_descending self) to).
Proof.
  intros Hok Hl Hto Haf. pose proof Hok as [Hs He Hlast Hwhole]. pose proof Hl as [Hlok Hlr]. pose proof Hto as [Htok Htr].
  unfold between. unfold after_last in *. destruct (ra_descending self) eqn:Ed; cbn [negb].
  2: { eexists. split; [reflexivity|]. destruct (ra_last self) as [last|] eqn:El; unfold rank in *.
    - destruct (next_prev_covers last to l) as [Hsp Hc]; [by apply Hlast|done|done|done|]. split; [done|].
      rewrite clip_covers, Hc by done. unfold between_locations in *. tauto.
    - destruct (Location_prev to) as [u|] eqn:Eu.
      + apply Location_prev_Some in Eu as [Hu Eu]; [|done]. split; [by apply Forall_singleton|]. rewrite clip_covers by (done || by apply Forall_singleton).
        rewrite covered_single. unfold covers, between_locations in *. simpl. lia.
      + apply Location_prev_None in Eu; [|done]. split; [constructor|]. rewrite clip_covers by (done || constructor).
        pose proof (pos_range l Hlok). split; [intros [?%covered_nil _]; done|lia]. }
  assert (Hclip : forall spans P, spans_ok spans -> (covered spans (pos l) <-> P) ->
    spans_ok spans /\ (covered (clip self spans) (pos l) <-> P)).
  { intros spans P Hsp Hc. split; [done|]. rewrite clip_covers, Hc by done. unfold between_locations in Hlr. tauto. }
  destruct (head_of_covers to l Htok Hlok) as [Hh1 Hh2]. pose proof (rank_lt l to Hlok Htok) as Hrt.
  destruct (ra_last self) as [last|] eqn:El.
  - pose proof (Hlast last eq_refl) as Hla. apply (rank_lt last to Hla Htok) in Haf. pose proof (rank_lt last l Hla Hlok) as Hrl.
    destruct (Z.eqb_spec (group last) (group to)) as [Eg|Hg].
    + destruct (next_prev_covers last to l Hla Htok Hlok) as [Hsp Hc].
      { destruct last, to. locs. lia. }
      eexists. split; [reflexivity|]. apply Hclip; [done|]. rewrite Hc, Hrl, Hrt. clear -Hlok Hla Htok Eg. destruct last, to, l. locs. lia.
    + destruct (rest_of_group_covers self last Hok Hla) as (rest & -> & Hsp & Hc). specialize (Hc l Hl). cbn [obind].
      unfold add_u64. rewrite arith_u64_Ok by (destruct Hla as [[? ?] _], Htok as [[? ?] _]; unfold is_u64; lia). cbn [obind].
      eexists. split; [reflexivity|]. pose proof Hla as [Hlg _]. pose proof Htok as [Htg _]. unfold is_u64 in Hlg, Htg. apply Hclip.
      * apply spans_ok_app; [done|]. apply spans_ok_app; [|done]. apply spans_ok_if. intros Hb%Z.ltb_lt. locs. lia.
      * rewrite !covered_app, covered_if, Hc, Hh2, covers_groups, Z.ltb_lt, Hrl, Hrt by (done || (unfold is_u64; lia)). lia.
  - pose proof Htok as [Htg _]. unfold is_u64 in Htg. destruct (Z.ltb_spec (group to) (group (ra_end self))) as [Hlt|Hge].
    + unfold add_u64. rewrite arith_u64_Ok by (destruct He as [[? ?] _]; unfold is_u64; lia). cbn [obind]. eexists. split; [reflexivity|]. apply Hclip.
      * apply spans_ok_app; [|done]. apply Forall_singleton. split; [|done]. destruct He as [[? ?] _]. locs. lia.
      * rewrite covered_app, covered_single, Hh2, Hrt. unfold covers. simpl. destruct Hlr as [_ Hle]. clear -Hle Hlok Htok He. destruct l, to, (ra_end self). locs. lia.
    + cbn [obind]. eexists. split; [reflexivity|]. apply Hclip; [done|]. simpl. rewrite Hh2, Hrt.
      destruct Hlr as [_ Hle]. clear -Hle Hlok Htok He Hge. destruct l, to, (ra_end self). locs. lia.
Qed.

(** A Location at every position. *)
Definition location_at (p : Z) : Location := mkLocation (p / U64) (p mod U64).
Lemma location_at_pos p : 0 <= p < U64 * U64 -> loc_ok (location_at p) /\ pos (location_at p) = p.
Proof.
  intros Hp. unfold location_at. locs. pose proof (Z.mod_pos_bound p U64 ltac:(done)).
  pose proof (Z.div_mod p U64 ltac:(done)). split; [|lia]. assert (0 <= p / U64 < U64); [|lia].
  split; [apply Z.div_pos; lia|apply Z.div_lt_upper_bound; lia].
Qed.

Lemma covered_bounds self spans p : absences_ok self -> spans_ok spans -> covered (clip self spans) p ->
  in_response self (location_at p) /\ pos (location_at p) = p.
Proof.
  intros [Hs He _ _] Hok Hc. apply clip_covers in Hc as [_ Hr]; [|done..].
  pose proof (pos_range _ Hs). pose proof (pos_range _ He). destruct (location_at_pos p) as [Hl E]; [lia|].
  split; [split; [done|unfold between_locations; lia]|done].
Qed.

Section Run.
Variable start end_ : Location.
Variable order : GroupOrder.
Hypothesis start_ok : loc_ok start.
Hypothesis end_ok : loc_ok end_.

Definition new : ResponseAbsences := ResponseAbsences_new start end_ order.
Definition descending : bool := ra_descending new.

Lemma end_after_ok events : forall e, loc_ok e -> Forall (fun e => match e with RE_Accepted l => loc_ok l | _ => True end) events ->
  loc_ok (end_after e events) /\ pos (end_after e events) <= pos e.
Proof.
  unfold end_after. induction events as [|ev events IH]; intros e He Hev; [simpl; by split; [|lia]|].
  apply Forall_cons in Hev as [Hev1 Hev]. destruct ev as [l|l|k l]; simpl; try (by apply IH).
  destruct (Location_ltb l e) eqn:E; [|by apply IH]. apply Location_ltb_pos in E; [|done..]. destruct (IH l Hev1 Hev). split; [done|lia].
Qed.

(** After the events [es], of which [last] is the end that the whole response has. *)
Record run_inv (final : Location) (es : list response_event) (self : ResponseAbsences) (marked : list Span) : Prop := {
  ri_ok : absences_ok self;
  ri_start : ra_start self = ra_start new;
  ri_descending : ra_descending self = descending;
  ri_fetch_ok : ra_fetch_ok self = accepted es;
  ri_end : ra_end self = end_after end_ es;
  ri_le : pos (ra_end self) <= pos end_;
  ri_last : ra_last self = last (omap entry_location es);
  ri_marks : forall l, loc_ok l -> between_locations (ra_start new) final l ->
    covered marked (pos l) <-> stated_absent descending es false l = true;
  ri_bound : forall p, covered marked p -> pos (ra_start new) <= p <= pos end_ /\ (descending = false -> p <= pos final)
}.

Lemma new_inv final : run_inv final [] new [].
Proof.
  split; try done.
  - split; [|done|done|].
    + unfold new, ResponseAbsences_new, delivered_start. simpl. destruct (_ && _); [|done]. destruct start_ok as [? ?].
      split; [done|]. by vm_compute.
    + unfold new, ResponseAbsences_new, delivered_start. simpl. by intros ->.
  - intros l _ _. split; [by intros ?%covered_nil|done].
  - by intros p ?%covered_nil.
Qed.

Lemma find_snoc {A} (f : A -> bool) (xs : list A) x :
  List.find f (xs ++ [x]) = match List.find f xs with Some y => Some y | None => if f x then Some x else None end.
Proof. induction xs as [|y xs IH]; simpl; [done|]. by destruct (f y). Qed.

Lemma stated_absent_snoc d es e l :
  stated_absent d (es ++ [e]) false l =
  match List.find (speaks_for d l) es with Some _ => stated_absent d es false l | None => speaks_for d l e && says_absent e l end.
Proof. unfold stated_absent. rewrite find_snoc. destruct (List.find _ es); [done|]. by destruct (speaks_for d l e). Qed.

Lemma sorted_last d (ls : list Location) m x :
  StronglySorted (fun l l' => rank d l < rank d l') ls -> last ls = Some m -> x ∈ ls -> rank d x <= rank d m.
Proof.
  intros Hs. destruct ls as [|m' ls _] using rev_ind; [done|]. rewrite last_snoc. intros [= ->].
  apply StronglySorted_app in Hs as (Hs & _ & _). intros [Hx| ->%list_elem_of_singleton]%elem_of_app; [|lia].
  specialize (Hs x m Hx). apply Z.lt_le_incl, Hs. by left.
Qed.

(** No entry speaks for a Location exactly when it is after the last one. *)
Lemma find_after self es l : ra_last self = last (omap entry_location es) ->
  StronglySorted (fun l l' => rank (ra_descending self) l < rank (ra_descending self) l') (omap entry_location es) ->
  List.find (speaks_for (ra_descending self) l) es = None <-> after_last self l.
Proof.
  intros El Hs. unfold after_last. rewrite El. set (d := ra_descending self) in *.
  assert (Hin : forall e l', e ∈ es -> entry_location e = Some l' -> l' ∈ omap entry_location es) by (intros e l' He E; apply list_elem_of_omap; eauto).
  destruct (last (omap entry_location es)) as [m|] eqn:Em.
  - split.
    + intros Hf. apply last_Some in Em as [ls Em]. assert (Hm : m ∈ omap entry_location es) by (rewrite Em; set_solver).
      apply list_elem_of_omap in Hm as (e & He & E). apply list_elem_of_In in He. pose proof (List.find_none _ _ Hf e He) as Hn.
      unfold speaks_for in Hn. rewrite E in Hn. apply Z.leb_gt in Hn. exact Hn.
    + intros Hlt. destruct (List.find _ es) as [e|] eqn:Hf; [|done]. apply List.find_some in Hf as [He Hsp].
      apply list_elem_of_In in He. unfold speaks_for in Hsp. destruct (entry_location e) as [l'|] eqn:E; [|done]. apply Z.leb_le in Hsp.
      pose proof (sorted_last d _ m l' Hs Em (Hin e l' He E)). lia.
  - split; [done|]. intros _. apply last_None in Em. destruct (List.find _ es) as [e|] eqn:Hf; [|done].
    apply List.find_some in Hf as [He Hsp]. apply list_elem_of_In in He. unfold speaks_for in Hsp.
    destruct (entry_location e) as [l'|] eqn:E; [|done]. specialize (Hin e l' He E). rewrite Em in Hin. by apply elem_of_nil in Hin.
Qed.

Lemma clip_ok self spans : absences_ok self -> spans_ok spans -> spans_ok (clip self spans).
Proof.
  unfold spans_ok. rewrite !Forall_forall. intros [Hs He _ _] Hok e [Hin _]%in_filter. apply list_elem_of_fmap in Hin as (x & -> & Hin).
  destruct (Hok x Hin). split; [by apply Location_max_pos|by apply Location_min_pos].
Qed.

(** What an entry marks. *)
Lemma entry_marks self e to l :
  absences_ok self -> in_response self l -> in_response self to -> after_last self to -> entry_location e = Some to ->
  exists spans, (forall marked, response_step (self, marked) e = Ok (with_last self to, marked ++ spans)) /\
    (exists inner, spans_ok inner /\ (spans = clip self inner \/ spans = [])) /\
    (covered spans (pos l) <-> after_last self l /\ speaks_for (ra_descending self) l e && says_absent e l = true).
Proof.
  intros Hok Hl Hto Haf He. destruct (between_covers self to l Hok Hl Hto Haf) as (inner & Eb & Hin & Hc).
  pose proof Hl as [Hlok _]. pose proof Hto as [Htok _]. set (d := ra_descending self) in *.
  assert (Hle : rank d l <= rank d to <-> rank d l < rank d to \/ to = l).
  { split; [intros [?|E]%Zle_lt_or_eq; [by left|right; symmetry; by apply (rank_inj d)]|intros [?| ->]; lia]. }
  destruct e as [?|to'|kind to']; [done| |]; injection He as ->.
  - exists (clip self inner). split; [intros marked; unfold response_step, on_object; by rewrite Eb|]. split; [exists inner; by split; [|left]|].
    rewrite Hc. unfold speaks_for, says_absent. simpl. rewrite andb_true_iff, Z.leb_le, negb_true_iff, bool_decide_eq_false, Hle.
    split; [|tauto]. intros [? Hlt]. split; [done|]. split; [by left|]. intros ->. lia.
  - exists (match kind with ERK_NonExistent => clip self (clip self inner ++ [(to, to)]) | _ => [] end).
    split; [intros marked; unfold response_step, on_marker; by rewrite Eb|].
    pose proof (clip_ok self inner Hok Hin) as Hcl.
    assert (Hall : spans_ok (clip self inner ++ [(to, to)])) by (apply spans_ok_app; [done|by apply Forall_singleton]).
    unfold speaks_for, says_absent. simpl. rewrite andb_true_iff, Z.leb_le, bool_decide_eq_true.
    destruct kind; (split; [eexists; split; [|eauto]; try done; try constructor|]); try (split; [by intros ?%covered_nil|by intros (_ & _ & ?)]).
    rewrite clip_covers by (done || apply Hok). rewrite covered_app, Hc, covered_single, Hle. unfold covers. simpl. destruct Hl as [_ Hr]. unfold between_locations in Hr.
    split.
    + intros [[?|Heq] _]; [tauto|]. assert (to = l) as -> by (apply pos_inj; [done..|lia]). tauto.
    + intros (Hal & [Hlt| ->] & _); (split; [|done]); [by left|right; lia].
Qed.

Lemma end_after_snoc e0 es e :
  end_after e0 (es ++ [e]) = match e with RE_Accepted l => if Location_ltb l (end_after e0 es) then l else end_after e0 es | _ => end_after e0 es end.
Proof. unfold end_after. by rewrite fold_left_app. Qed.
Lemma accepted_snoc es e : accepted (es ++ [e]) = accepted es || match e with RE_Accepted _ => true | _ => false end.
Proof. unfold accepted. rewrite existsb_app. simpl. by rewrite orb_false_r. Qed.
Lemma stated_absent_accepted d es a l : stated_absent d (es ++ [RE_Accepted a]) false l = stated_absent d es false l.
Proof. rewrite stated_absent_snoc. unfold stated_absent. by destruct (List.find _ _). Qed.

(** One event. *)
Lemma run_step final es e self marked :
  run_inv final es self marked -> loc_ok final -> pos final <= pos (ra_end self) ->
  match e with RE_Accepted l => loc_ok l | _ => True end ->
  (forall l, entry_location e = Some l -> loc_ok l /\ between_locations (ra_start new) final l) ->
  StronglySorted (fun l l' => rank descending l < rank descending l') (omap entry_location (es ++ [e])) ->
  exists self' marked', response_step (self, marked) e = Ok (self', marked') /\ run_inv final (es ++ [e]) self' marked'.
Proof.
  intros [Hok Hs Hd Hf He Hend Hl Hm Hb] Hfin Hle Hacc Hent Hsort. rewrite omap_app in Hsort.
  apply StronglySorted_app in Hsort as (Hbefore & Hsort & _).
  destruct (entry_location e) as [to|] eqn:Ee; cycle 1.
  - destruct e as [a| |]; [|done..]. exists (on_fetch_ok self a), marked. split; [done|].
    split; try done.
    + destruct Hok as [H1 H2 H3 H4]. split; try done. simpl. by destruct (Location_ltb _ _).
    + rewrite accepted_snoc. simpl. by rewrite orb_true_r.
    + rewrite end_after_snoc. simpl. by rewrite He.
    + simpl. destruct (Location_ltb a _) eqn:E; [|done]. apply Location_ltb_pos in E; [lia|done|apply Hok].
    + rewrite omap_app. simpl. by rewrite app_nil_r.
    + intros l Hlok Hr. rewrite stated_absent_accepted. by apply Hm.
  - destruct (Hent to eq_refl) as [Htok Htr]. unfold between_locations in Htr.
    assert (Hto : in_response self to) by (split; [done|]; unfold between_locations; rewrite Hs; lia).
    assert (Haf : after_last self to).
    { unfold after_last. rewrite Hl, Hd. destruct (last (omap entry_location es)) as [m|] eqn:Em; [|done].
      apply Hbefore; [by apply last_Some_elem_of|]. simpl. rewrite Ee. by left. }
    pose proof (fun l Hin => entry_marks self e to l Hok Hin Hto Haf Ee) as Hmarks.
    destruct (Hmarks to Hto) as (spans & Estep & (inner & Hin & Espans) & _).
    assert (Hcov : forall l, in_response self l -> covered spans (pos l) <-> after_last self l /\ speaks_for (ra_descending self) l e && says_absent e l = true).
    { intros l Hlr. destruct (Hmarks l Hlr) as (spans' & Estep' & _ & Hc). 
      specialize (Estep' []). rewrite Estep in Estep'. injection Estep' as <-. exact Hc. }
    exists (with_last self to), (marked ++ spans). split; [apply Estep|]. split; try done.
    + destruct Hok as [H1 H2 H3 H4]. split; try done. simpl. by intros ? [= <-].
    + rewrite accepted_snoc. destruct e; [done| |]; by rewrite orb_false_r.
    + rewrite end_after_snoc. by destruct e.
    + rewrite omap_app. simpl. rewrite Ee, last_app. done.
    + intros l Hlok Hr. assert (Hlr : in_response self l) by (split; [done|]; unfold between_locations in *; rewrite Hs; lia).
      rewrite covered_app, (Hm l Hlok Hr), (Hcov l Hlr), stated_absent_snoc.
      pose proof (find_after self es l Hl) as Hfa. rewrite Hd in *. specialize (Hfa Hsort).
      unfold stated_absent at 1. destruct (List.find _ es) as [x|] eqn:Efind.
      * unfold stated_absent. rewrite Efind. split; [|by left]. intros [?|[Hal _]]; [done|]. apply Hfa in Hal. done.
      * split; [intros [?|[_ ?]]; done|]. intros Hx. right. split; [by apply Hfa|done].
    + intros p [Hp|Hp]%covered_app; [by apply Hb|]. destruct Espans as [Esp|Esp]; rewrite Esp in Hp; [|by apply covered_nil in Hp].
      destruct (covered_bounds self inner p Hok Hin Hp) as [Hlr Ep]. pose proof Hlr as [Hlok Hr]. unfold between_locations in Hr. rewrite Hs, Ep in Hr.
      rewrite <- Esp, <- Ep, (Hcov _ Hlr) in Hp. destruct Hp as [_ [Hsp _]%andb_true_iff]. unfold speaks_for in Hsp. rewrite Ee in Hsp. apply Z.leb_le in Hsp.
      split.
      * lia.
      * intros Ed. rewrite Hd, Ed in Hsp. unfold rank in Hsp. lia.
Qed.

(** The end of a response. *)
Lemma end_marks self cleanly : absences_ok self ->
  exists spans, on_end self cleanly = Ok (clip self spans) /\ spans_ok spans /\
    forall l, in_response self l -> covered (clip self spans) (pos l) <-> cleanly && ra_fetch_ok self = true /\ after_last self l.
Proof.
  intros Hok. pose proof Hok as [Hs He Hlast Hwhole]. unfold on_end. destruct (cleanly && ra_fetch_ok self); cbn [negb]; cycle 1.
  { exists []. split; [done|]. split; [constructor|]. intros l _. split; [by intros ?%covered_nil|by intros []]. }
  assert (Hclip : forall spans, spans_ok spans -> (forall l, in_response self l -> covered spans (pos l) <-> after_last self l) ->
            spans_ok spans /\ (forall l, in_response self l -> covered (clip self spans) (pos l) <-> true = true /\ after_last self l)).
  { intros spans Hsp Hc. split; [done|]. intros l Hl. rewrite clip_covers, Hc by done. destruct Hl as [_ Hr]. unfold between_locations in Hr. tauto. }
  unfold after_last in *. destruct (ra_last self) as [last|] eqn:El.
  - pose proof (Hlast last eq_refl) as Hla. destruct (ra_descending self) eqn:Ed.
    + destruct (rest_of_group_covers self last Hok Hla) as (rest & -> & Hsp & Hc). cbn [obind].
      eexists. split; [reflexivity|]. pose proof Hla as [Hlg _]. unfold is_u64 in Hlg. apply Hclip.
      * apply spans_ok_app; [done|]. apply spans_ok_if. intros Hb%Z.ltb_lt. split; [done|]. destruct Hs as [[? ?] _].
        split; unfold is_u64; cbn [Common.group Common.object]; lia.
      * intros l Hin. pose proof Hin as [Hl Hr]. rewrite covered_app, covered_if, Z.ltb_lt, (Hc l Hin), (rank_lt last l) by done.
        unfold covers. clear -Hl Hr Hs Hla. destruct l, last, (ra_start self). locs. lia.
    + destruct (Location_next last) as [next|] eqn:En.
      * apply Location_next_Some in En as [Hn En]; [|done]. eexists. split; [reflexivity|]. apply Hclip; [by apply Forall_singleton|].
        intros l [_ Hr]. rewrite covered_single. unfold covers, rank, between_locations in *. simpl. lia.
      * apply Location_next_None in En; [|done]. eexists. split; [reflexivity|]. apply Hclip; [constructor|].
        intros l [Hl _]. pose proof (pos_range l Hl). unfold rank. split; [by intros ?%covered_nil|lia].
  - eexists. split; [reflexivity|]. apply Hclip; [by apply Forall_singleton|]. intros l [_ Hr]. rewrite covered_single. done.
Qed.

Lemma run_all events cleanly : response_ok start end_ order events ->
  exists marked, response_run start end_ order events cleanly = Ok marked /\
    (forall l, loc_ok l -> between_locations (ra_start new) (end_after end_ events) l ->
       covered marked (pos l) <-> stated_absent descending events (cleanly && accepted events) l = true) /\
    (forall p, covered marked p -> pos (ra_start new) <= p <= pos end_ /\ (descending = false -> p <= pos (end_after end_ events))).
Proof.
  intros (Hacc & Hent & Hsort). set (final := end_after end_ events).
  destruct (end_after_ok events end_ end_ok Hacc) as [Hfin _]. fold final in Hfin.
  destruct (for_each_inv (fun es s => run_inv final es (fst s) (snd s)) events response_step) with (s := (new, [] : list Span))
    as ([self marked] & E & Hinv); [|apply new_inv|].
  - intros es e r [self marked] Eev Hinv. simpl in Hinv.
    assert (Hle : pos final <= pos (ra_end self)).
    { rewrite (ri_end _ _ _ _ Hinv). unfold final. rewrite Eev in *. apply Forall_app in Hacc as [Ha1 Ha2].
      assert (Ea : end_after end_ (es ++ e :: r) = end_after (end_after end_ es) (e :: r)) by apply fold_left_app.
      rewrite Ea. by apply end_after_ok; [apply end_after_ok|]. }
    destruct (run_step final es e self marked Hinv Hfin Hle) as (self' & marked' & Es & Hinv').
    + rewrite Eev in Hacc. apply Forall_app in Hacc as [_ Hacc]. by apply Forall_cons in Hacc as [? _].
    + intros l El. apply Hent. apply list_elem_of_omap. exists e. split; [rewrite Eev; set_solver|done].
    + rewrite Eev, cons_middle, app_assoc, omap_app in Hsort. by apply StronglySorted_app in Hsort as (_ & Hsort & _).
    + exists (self', marked'). by split.
  - unfold response_run. fold new. rewrite E. cbn [obind fst snd]. simpl in Hinv. pose proof Hinv as [Hok Hs Hd Hf He Hend Hl Hm Hb].
    destruct (end_marks self cleanly Hok) as (spans & -> & Hsp & Hc). eexists. split; [reflexivity|]. split.
    + intros l Hlok Hr. assert (Hin : in_response self l) by (split; [done|]; by rewrite Hs, He).
      rewrite covered_app, (Hm l Hlok Hr), (Hc l Hin), Hf. pose proof (find_after self events l Hl) as Hfa. rewrite Hd in Hfa. specialize (Hfa Hsort).
      unfold stated_absent. destruct (List.find _ events) as [x|] eqn:Efind; [|rewrite <- Hfa; intuition done].
      split; [|by left]. intros [?|[_ Hal%Hfa]]; done.
    + intros p [Hp|Hp]%covered_app; [by apply Hb|]. destruct (covered_bounds self spans p Hok Hsp Hp) as [[_ Hr] Ep].
      unfold between_locations in Hr. rewrite Hs, He, Ep in Hr. rewrite He in Hend. fold final in Hr, Hend. split; [lia|]. intros _. lia.
Qed.
End Run.
End Absences.

(** * Properties *)

(** C7: what the relay takes for absent is what the publisher's response says, exactly.
    For a response in the order asked for, within the range, with its FETCH_OK at any
    point of it: a Location up to the response's end is marked absent if and only if
    the first entry at or after it is an object other than it or a marker of a range
    that does not exist, or there is no such entry, and the response has both ended
    cleanly and been accepted.  So nothing of an unknown or timed out range, no
    object that came, and nothing after an incomplete response is ever marked.  All
    that is marked is in the range asked for, and in ascending order not after the
    publisher's End Location.  The computation never panics. *)
Theorem absences_exact `{Target} start end_ order events cleanly :
  loc_ok start -> loc_ok end_ -> response_ok start end_ order events ->
  let descending := is_descending order && negb (group start =? group end_) in
  exists marked, response_run start end_ order events cleanly = Ok marked /\
    (forall l, loc_ok l -> between_locations (delivered_start start end_ order) (end_after end_ events) l ->
       covered marked (pos l) <-> stated_absent descending events (cleanly && accepted events) l = true) /\
    (forall l, covered marked (pos l) -> between_locations (delivered_start start end_ order) end_ l /\
       (descending = false -> pos l <= pos (end_after end_ events))).
Proof.
  intros Hs He Hok. destruct (run_all start end_ order Hs He events cleanly Hok) as (marked & E & Hm & Hb).
  exists marked. split; [exact E|]. split; [exact Hm|]. intros l Hc. exact (Hb (pos l) Hc).
Qed.

(** * Examples *)

Definition demo_response : list response_event :=
  [RE_Object (mkLocation 8 1); RE_Accepted (mkLocation 8 3); RE_Marker ERK_Unknown (mkLocation 7 4); RE_Object (mkLocation 5 2)].

(** Groups 8 to 5, the highest first. *)
Lemma absences_exact_witness :
  let H := debug_build in
  exists marked, response_run (mkLocation 5 2) (mkLocation 8 3) GO_Descending demo_response true = Ok marked /\
    (covered marked (pos (mkLocation 8 0)) /\ ~ covered marked (pos (mkLocation 8 1)) /\ ~ covered marked (pos (mkLocation 7 2))) /\
    (covered marked (pos (mkLocation 7 5)) /\ covered marked (pos (mkLocation 6 77)) /\ ~ covered marked (pos (mkLocation 5 2)) /\
     covered marked (pos (mkLocation 5 0)) /\ covered marked (pos (mkLocation 5 3))).
Proof.
  destruct (@absences_exact debug_build (mkLocation 5 2) (mkLocation 8 3) GO_Descending demo_response true) as (marked & E & Hm & _).
  - done.
  - done.
  - split; [by repeat constructor|]. split.
    + intros l Hl. unfold between_locations. simpl in Hl. rewrite !elem_of_cons in Hl.
      
      destruct Hl as [-> |[-> |[-> |Hl]]]; [..|by apply elem_of_nil in Hl]; repeat split; vm_compute; congruence.
    + repeat (apply SSorted_cons || apply SSorted_nil || apply Forall_nil_2 || apply Forall_cons_2 || (vm_compute; reflexivity)).
  - exists marked. split; [exact E|].
    assert (Hq : forall g o, (pos (mkLocation 5 0) <=? pos (mkLocation g o)) && (pos (mkLocation g o) <=? pos (mkLocation 8 3)) && (0 <=? o) && (o <? 100) = true ->
              covered marked (pos (mkLocation g o)) <-> stated_absent true demo_response true (mkLocation g o) = true).
    { intros g o. rewrite !andb_true_iff, !Z.leb_le, Z.ltb_lt. intros [[[H1 H2] H3] H4]. apply Hm; [|by split].
      unfold pos in *. simpl in *. split; unfold is_u64; simpl; lia. }
    assert (Hyes : forall g o, (pos (mkLocation 5 0) <=? pos (mkLocation g o)) && (pos (mkLocation g o) <=? pos (mkLocation 8 3)) && (0 <=? o) && (o <? 100) &&
              stated_absent true demo_response true (mkLocation g o) = true -> covered marked (pos (mkLocation g o))).
    { intros g o [H1 H2]%andb_true_iff. by apply Hq. }
    assert (Hno : forall g o, (pos (mkLocation 5 0) <=? pos (mkLocation g o)) && (pos (mkLocation g o) <=? pos (mkLocation 8 3)) && (0 <=? o) && (o <? 100) &&
              negb (stated_absent true demo_response true (mkLocation g o)) = true -> ~ covered marked (pos (mkLocation g o))).
    { intros g o [H1 H2%negb_true_iff]%andb_true_iff Hc. apply Hq in Hc; [|done]. congruence. }
    split_and!; first [apply Hyes | apply Hno]; vm_compute; reflexivity.
Defined.

(** In descending order the groups above the first object are marked at once.  When
    the publisher's FETCH_OK comes after it and ends at 7:5, the groups 8 and 9, which
    the publisher may still fill, stay marked. *)
Example late_fetch_ok_marks_later_groups :
  let H := debug_build in
  response_run (mkLocation 5 0) (mkLocation 9 9) GO_Descending [RE_Object (mkLocation 7 5); RE_Accepted (mkLocation 7 5)] false =
    Ok [(mkLocation 8 0, mkLocation 9 9); (mkLocation 7 0, mkLocation 7 4)] /\
  response_run (mkLocation 5 0) (mkLocation 9 9) GO_Descending [RE_Accepted (mkLocation 7 5); RE_Object (mkLocation 7 5)] false =
    Ok [(mkLocation 7 0, mkLocation 7 4)].
Proof. split; vm_compute; reflexivity. Qed.

(** A marker names its Location outright, and nothing checks its order: one in the last
    group overflows. *)
Example marker_in_last_group_overflows :
  @response_run debug_build (mkLocation 5 0) (mkLocation 9 9) GO_Descending
    [RE_Object (mkLocation 7 5); RE_Marker ERK_Unknown (mkLocation U64_MAX 0)] false = Panic.
Proof. vm_compute. reflexivity. Qed.
