(* ===== verification/FetchDelivery.v ===== *)
(** Delivering the Objects of a FETCH ([serve_fetch_stream] and what it calls in
    [apps/relay/src/server/message_handlers/fetch_handler.rs]).

    The task shares the track with the rest of the relay.  What the others do
    meanwhile, when the request is cancelled, and what a publisher answers, are
    functions of the environment, asked for at each turn of the loop. *)
From stdpp Require Import gmap.
From S2P Require Import Prelude Varint Common Codes LocationFilter Properties MessageParameter CombinedFilter.
From S2P Require Import FetchObject ObjectForms Control Subgroup Datagram DataStream SeenObjects TrackCache.
From S2P Require Import Streams Subscription Forwarding Tracks FetchRange.

(** A datagram has no subgroup. *)
Definition object_fields (object : FetchObjectPayload) : ObjectFields :=
  mkObjectFields
    (if bool_decide (fp_forwarding_preference object = OFP_Datagram) then None else Some (fp_subgroup_id object))
    (fp_object_id object) (fp_publisher_priority object) (fp_properties object).

Definition set_cache (t : Track) (tc : TrackCache) : Track := with_content t (with_cache (content t) tc).
Definition mark_all (t : Track) (spans : list Span) : Track :=
  set_cache t (fold_left (fun c s => mark_absent c (fst s) (snd s)) spans (cache (content t))).

(** "Malformed track" *)
Definition MALFORMED_TRACK : bytes := [77; 97; 108; 102; 111; 114; 109; 101; 100; 32; 116; 114; 97; 99; 107].

(** What becomes of the track.  The publisher's list of malformed tracks, the other
    FETCHes of the track (which are cancelled), the switching sets of its subscribers and
    the map of tracks are left out. *)
Definition handle_malformed_upstream_fetch (gone : Z -> bool) (publisher : Z) (t : Track) : Track :=
  let t := with_upstream t (with_requests (upstream t) (cancel_for_malformed_publisher gone (upstream_requests (upstream t)) publisher)) in
  let '(t, _) := remove_publisher_quietly t publisher in
  let t := notify_publish_done t PDS_MalformedTrack MALFORMED_TRACK in
  with_manager t (fst (detach_all (manager t))).

(** [written] counts for the stream: it is open when something was written. *)
Record Serving := mkServing {
  sv_track : Track;
  sv_written : list FetchObject;
  sv_out : bytes;
  fetch_prev_ctx : option FetchObjectContext;
  upstream_gap_count : Z;
  last_waited_group : option Z;
  stop_reason : FetchStop;
  pending_upstream : option (list UpstreamFetchEvent);
  sv_looks : nat;
  sv_asks : nat
}.

Definition on_track (sv : Serving) (t : Track) : Serving :=
  mkServing t (sv_written sv) (sv_out sv) (fetch_prev_ctx sv) (upstream_gap_count sv) (last_waited_group sv)
    (stop_reason sv) (pending_upstream sv) (sv_looks sv) (sv_asks sv).
Definition set_stop (sv : Serving) (r : FetchStop) : Serving :=
  mkServing (sv_track sv) (sv_written sv) (sv_out sv) (fetch_prev_ctx sv) (upstream_gap_count sv) (last_waited_group sv)
    r (pending_upstream sv) (sv_looks sv) (sv_asks sv).
Definition looked (sv : Serving) : Serving :=
  mkServing (sv_track sv) (sv_written sv) (sv_out sv) (fetch_prev_ctx sv) (upstream_gap_count sv) (last_waited_group sv)
    (stop_reason sv) (pending_upstream sv) (S (sv_looks sv)) (sv_asks sv).
Definition waited (sv : Serving) (g : Z) : Serving :=
  mkServing (sv_track sv) (sv_written sv) (sv_out sv) (fetch_prev_ctx sv) (upstream_gap_count sv) (Some g)
    (stop_reason sv) (pending_upstream sv) (sv_looks sv) (sv_asks sv).
Definition counted (sv : Serving) : Serving :=
  mkServing (sv_track sv) (sv_written sv) (sv_out sv) (fetch_prev_ctx sv) (upstream_gap_count sv + 1) (last_waited_group sv)
    (stop_reason sv) None (sv_looks sv) (match pending_upstream sv with Some _ => sv_asks sv | None => S (sv_asks sv) end).
Definition wrote (sv : Serving) (entry : FetchObject) (b : bytes) : Serving :=
  mkServing (sv_track sv) (sv_written sv ++ [entry]) (sv_out sv ++ b) (Some (next_context entry (fetch_prev_ctx sv)))
    (upstream_gap_count sv) (last_waited_group sv) (stop_reason sv) (pending_upstream sv) (sv_looks sv) (sv_asks sv).
Definition is_running (r : FetchStop) : bool := match r with FS_Running => true | _ => false end.

(** Delivery treats anything but Descending as Ascending, so upstream is asked the same. *)
Definition upstream_order (order : GroupOrder) : GroupOrder :=
  match order with GO_Descending => GO_Descending | _ => GO_Ascending end.

Inductive turn_end : Type := TN_Next (group : option Z) | TN_Break.

Section Serve.
Context `{Target}.
(** The delivery. *)
Variable start_location : Location.
Variable end_location : Location.
Variable group_order : GroupOrder.
Variable filter : CombinedFilter.
Variable max_upstream_fetch_gaps : Z.
(** The environment: what each look at the cancel signal finds, what others do to the
    track before each look, what a publisher answers (up to the end of the channel or
    the timeout), and whether the stream opens and takes each entry. *)
Variable cancel : nat -> FetchStop.
Variable others : nat -> Track -> Track.
Variable ask : nat -> LocationFilter -> GroupOrder -> option (list UpstreamFetchEvent).
Variable publisher : nat -> Z.
Variable gone : Z -> bool.
Variable opens : bool.
Variable writes : nat -> bool.

Definition start : Location := delivered_start start_location end_location group_order.
Definition descends : bool := is_descending group_order.

Definition next_after (lo hi : Z) : option Z :=
  if descends
  then if group start <? lo then Some (lo - 1) else None
  else if hi <? group end_location then Some (hi + 1) else None.
Definition unfilled (first last : Z) : FetchObject :=
  unknown_up_to (last_delivered first last start end_location descends).

Definition write_entry (entry : FetchObject) (sv : Serving) : outcome TerminationCode Serving :=
  if negb opens then Err TC_InternalError
  else
    let? b := omap_err (fun _ => TC_InternalError) (FetchObject_serialize entry (fetch_prev_ctx sv) group_order) in
    if writes (length (sv_written sv)) then Ok (wrote sv entry b) else Err TC_InternalError.

(** A look at the cancel signal. *)
Definition look (sv : Serving) : FetchStop * Serving :=
  (cancel (sv_looks sv), looked (on_track sv (others (sv_looks sv) (sv_track sv)))).

Fixpoint write_cached (objects : list FetchObjectPayload) (sv : Serving) : outcome TerminationCode Serving :=
  match objects with
  | [] => Ok sv
  | object :: objects =>
      let '(cancellation, sv) := look sv in
      if negb (is_running cancellation) then Ok (set_stop sv cancellation)
      else if negb (matches filter (object_fields object)) then write_cached objects sv
      else let? sv := write_entry (FO_Object object) sv in write_cached objects sv
  end.

Definition cached (sv : Serving) (g : Z) : outcome TerminationCode (option (list FetchObjectPayload)) :=
  let '(lo, hi) := objects_wanted g start end_location in
  lift_panics (objects_if_complete (cache (content (sv_track sv))) g lo hi).

(** The gap from a group on, in the direction of delivery. *)
Fixpoint scan_down (fuel : nat) (sv : Serving) (gap_start : Z) : outcome TerminationCode Z :=
  if group start <? gap_start then
    let? complete := cached sv (gap_start - 1) in
    if is_some complete then Ok gap_start
    else match fuel with O => Diverge | S fuel => scan_down fuel sv (gap_start - 1) end
  else Ok gap_start.
Fixpoint scan_up (fuel : nat) (sv : Serving) (gap_end : Z) : outcome TerminationCode Z :=
  if gap_end <? group end_location then
    let? complete := cached sv (gap_end + 1) in
    if is_some complete then Ok gap_end
    else match fuel with O => Diverge | S fuel => scan_up fuel sv (gap_end + 1) end
  else Ok gap_end.
Definition groups_in_range : nat := Z.to_nat (group end_location - group start).
Definition gap_from (sv : Serving) (g : Z) : outcome TerminationCode (Z * Z) :=
  if descends then let? gap_start := scan_down groups_in_range sv g in Ok (gap_start, g)
  else let? gap_end := scan_up groups_in_range sv g in Ok (g, gap_end).

(** What arrives of an upstream response; also gives whether its stream closed cleanly. *)
Fixpoint take_events (n : nat) (events : list UpstreamFetchEvent) (absences : ResponseAbsences) (sv : Serving)
    : outcome TerminationCode (Serving * ResponseAbsences * bool) :=
  let '(reason, sv) := look sv in
  if negb (is_running reason) then Ok (set_stop sv reason, absences, false)
  else
    match events with
    | [] => Ok (sv, absences, false)
    | e :: events =>
        match e with
        | UFE_Accepted end_location => take_events n events (on_fetch_ok absences end_location) sv
        | UFE_EndOfRange kind location =>
            let? r := lift_panics (on_marker absences kind location) in
            let sv := on_track sv (mark_all (sv_track sv) (snd r)) in
            let? sv := write_entry (FO_EndOfRange kind (Common.group location) (Common.object location)) sv in
            take_events n events (fst r) sv
        | UFE_Object object =>
            let sv := match try_from_fetch object (t_relay_track_id (sv_track sv)) with
                      | Ok fetched => on_track sv (cache_fetched_object (sv_track sv) fetched)
                      | _ => sv
                      end in
            let? r := lift_panics (on_object absences (mkLocation (fp_group_id object) (fp_object_id object))) in
            let sv := on_track sv (mark_all (sv_track sv) (snd r)) in
            if negb (matches filter (object_fields object)) then take_events n events (fst r) sv
            else let? sv := write_entry (FO_Object object) sv in take_events n events (fst r) sv
        | UFE_MalformedTrack =>
            Ok (set_stop (on_track sv (handle_malformed_upstream_fetch gone (publisher n) (sv_track sv))) FS_MalformedTrack,
                absences, false)
        | UFE_StreamClosed => Ok (sv, absences, true)
        | UFE_Error => Ok (sv, absences, false)
        end
    end.

(** An upstream response, for the groups [gap_start] to [gap_end]. *)
Definition take_response (n : nat) (gap_start gap_end : Z) (events : list UpstreamFetchEvent) (absences : ResponseAbsences)
    (sv : Serving) : outcome TerminationCode Serving :=
  let? r := take_events n events absences sv in
  let '(sv, absences, closed_cleanly) := r in
  let '(cancellation, sv) := look sv in
  let sv := if is_running cancellation then sv else set_stop sv cancellation in
  let delivered_all :=
    (closed_cleanly && ra_fetch_ok absences) ||
    bool_decide (ra_last absences = Some (last_delivered gap_start gap_end start end_location descends)) in
  let? sv := if is_running (stop_reason sv) && negb delivered_all then write_entry (unfilled gap_start gap_end) sv else Ok sv in
  match stop_reason sv with
  | FS_MalformedTrack => Ok sv
  | _ => let? spans := lift_panics (on_end absences closed_cleanly) in Ok (on_track sv (mark_all (sv_track sv) spans))
  end.

(** Also gives the groups that are done with. *)
Definition fill_gap (gap_start gap_end : Z) (sv : Serving) : outcome TerminationCode (Serving * Z * Z) :=
  if max_upstream_fetch_gaps <=? upstream_gap_count sv then
    let? sv := write_entry (unfilled gap_start gap_end) sv in Ok (sv, gap_start, gap_end)
  else
    let n := sv_asks sv in
    match pending_upstream sv with
    | Some events =>
        let gap_start := group start in
        let gap_end := group end_location in
        let? sv := take_response n gap_start gap_end events (ResponseAbsences_new start end_location group_order) (counted sv) in
        Ok (sv, gap_start, gap_end)
    | None =>
        let '(s, e) := requested_part gap_start gap_end start end_location in
        let sv := counted sv in
        match ask n (range_filter s e) (upstream_order group_order) with
        | Some events =>
            let? sv := take_response n gap_start gap_end events (ResponseAbsences_new s e group_order) sv in
            Ok (sv, gap_start, gap_end)
        | None => let? sv := write_entry (unfilled gap_start gap_end) sv in Ok (sv, gap_start, gap_end)
        end
    end.

(** One turn of the loop, at a group. *)
Definition turn (g : Z) (sv : Serving) : outcome TerminationCode (Serving * turn_end) :=
  let? hit := match pending_upstream sv with Some _ => Ok None | None => cached sv g end in
  match hit with
  | Some objects => let? sv := write_cached objects sv in Ok (sv, TN_Next (next_after g g))
  | None =>
      let? gap := gap_from sv g in
      let '(gap_start, gap_end) := gap in
      let claim := match pending_upstream sv with
                   | Some _ => Some None
                   | None =>
                       match claim_fill (cache (content (sv_track sv))) gap_start gap_end with
                       | (tc, inl claim) => Some (Some (tc, claim))
                       | (_, inr _) => if bool_decide (last_waited_group sv = Some g) then Some None else None
                       end
                   end in
      match claim with
      | None => Ok (waited sv g, TN_Next (Some g))
      | Some claim =>
          let sv := match claim with Some (tc, _) => on_track sv (set_cache (sv_track sv) tc) | None => sv end in
          let? r := fill_gap gap_start gap_end sv in
          let '(sv, gap_start, gap_end) := r in
          let sv := match claim with
                    | Some (_, claim) => on_track sv (set_cache (sv_track sv) (drop_claim (cache (content (sv_track sv))) claim))
                    | None => sv
                    end in
          Ok (sv, if is_running (stop_reason sv) then TN_Next (next_after gap_start gap_end) else TN_Break)
      end
  end.

(** [fuel] bounds the turns. *)
Fixpoint serve_loop (fuel : nat) (next_group : option Z) (sv : Serving) : outcome TerminationCode Serving :=
  match next_group with
  | None => Ok sv
  | Some g =>
      let '(reason, sv) := look sv in
      if negb (is_running reason) then Ok (set_stop sv reason)
      else
        match fuel with
        | O => Diverge
        | S fuel =>
            let? r := turn g sv in
            match snd r with
            | TN_Next next_group => serve_loop fuel next_group (fst r)
            | TN_Break => Ok (fst r)
            end
        end
  end.

Definition first_group : Z := if descends then group end_location else group start.

(** A group takes at most two turns. *)
Definition loop_fuel : nat := 2 * (groups_in_range + 1).

(** What is left of the stream, if one was opened. *)
Definition stream_end_of (sv : Serving) : option stream_end :=
  let opened := negb (Nat.eqb (length (sv_written sv)) 0) in
  match stop_reason sv with
  | FS_Running => if opened || opens then Some SE_Finished else None
  | FS_MalformedTrack => if opened || opens then Some (SE_Reset SRC_MalformedTrack) else None
  | FS_UpdateFailed => if opened then Some (SE_Reset SRC_Cancelled) else None
  | FS_Cancelled => if opened then Some SE_Finished else None
  end.

(** [claims]: the claim that comes with [pending], dropped at the end. *)
Definition serve_fetch_stream (request_id : Z) (t : Track) (pending : option (list UpstreamFetchEvent)) (claim : option nat)
    : outcome TerminationCode (Serving * bytes * option stream_end) :=
  let? header := match FetchHeader_serialize (mkFetchHeader request_id) with Ok b => Ok b | _ => Panic end in
  let? sv := serve_loop loop_fuel (Some first_group) (mkServing t [] [] None 0 None FS_Running pending 0 0) in
  let sv := match claim with
            | Some claim => on_track sv (set_cache (sv_track sv) (drop_claim (cache (content (sv_track sv))) claim))
            | None => sv
            end in
  Ok (sv, header ++ sv_out sv, stream_end_of sv).
End Serve.
