(* ===== verification/FetchTruth.v ===== *)
(** What a FETCH delivery tells its subscriber: the theorems about [FetchDelivery].

    The published track is a function [W] from Locations to Objects.  When the cache and
    the publishers speak the truth about it, so does the stream that the relay writes. *)
From stdpp Require Import gmap.
From S2P Require Import Prelude Varint Common Codes LocationFilter Properties MessageParameter CombinedFilter.
From S2P Require Import FetchObject ObjectForms Control Subgroup Datagram DataStream SeenObjects TrackCache.
From S2P Require Import Streams Subscription Forwarding Tracks FetchRange FetchDelivery.

Definition loc_of (p : FetchObjectPayload) : Location := mkLocation (fp_group_id p) (fp_object_id p).
Definition as_entry (e : FetchObject) : response_event :=
  match e with FO_Object p => RE_Object (loc_of p) | FO_EndOfRange k g o => RE_Marker k (mkLocation g o) end.
Definition entry_loc (e : FetchObject) : Location :=
  match e with FO_Object p => loc_of p | FO_EndOfRange _ g o => mkLocation g o end.

(** What stands in the channel of a response: its entries up to its end, and whether the
    stream closed cleanly. *)
Fixpoint response_of (events : list UpstreamFetchEvent) : list response_event * bool :=
  match events with
  | [] => ([], false)
  | UFE_Accepted l :: events => let '(es, b) := response_of events in (RE_Accepted l :: es, b)
  | UFE_Object p :: events => let '(es, b) := response_of events in (RE_Object (loc_of p) :: es, b)
  | UFE_EndOfRange k l :: events => let '(es, b) := response_of events in (RE_Marker k l :: es, b)
  | UFE_StreamClosed :: _ => ([], true)
  | UFE_MalformedTrack :: _ | UFE_Error :: _ => ([], false)
  end.

Definition last_context (prev : option FetchObjectContext) (es : list FetchObject) : option FetchObjectContext :=
  fold_left (fun prev e => Some (next_context e prev)) es prev.

Lemma group_follows_spec order a b : group_follows order a b <-> if is_descending order then b < a else a < b.
Proof. by destruct order. Qed.

Section World.
Context `{Target}.
Variable W : Location -> option FetchObjectPayload.
Hypothesis W_ok : forall l p, W l = Some p ->
  loc_of p = l /\ fp_fields p /\ (is_dg p = true -> fp_subgroup_id p = fp_object_id p) /\
  (overflow_checks = true -> fp_subgroup_id p <> U64_MAX).

Variable start_location end_location : Location.
Variable group_order : GroupOrder.
Variable filter : CombinedFilter.
Hypothesis start_ok : loc_ok start_location.
Hypothesis end_ok : loc_ok end_location.
Hypothesis start_before_end : pos start_location <= pos end_location.

Let from : Location := start start_location end_location group_order.
Let d : bool := is_descending group_order.
Definition in_range (l : Location) : Prop := loc_ok l /\ between_locations from end_location l.

(** ** Writing *)

Lemma rank_lt_any l l' : loc_ok l -> loc_ok l' ->
  rank d l < rank d l' <-> (if d then group l' < group l else group l < group l') \/ group l = group l' /\ object l < object l'.
Proof.
  intros Hl Hl'. destruct d eqn:E; [by apply rank_lt|]. unfold rank, pos. destruct Hl as [? ?], Hl' as [? ?]. unfold is_u64 in *. nia.
Qed.

Record writer_ok (sv : Serving) : Prop := {
  wo_bytes : write_entries group_order None (sv_written sv) = Ok (sv_out sv);
  wo_prev : fetch_prev_ctx sv = last_context None (sv_written sv);
  wo_sorted : StronglySorted (fun e e' => rank d (entry_loc e) < rank d (entry_loc e')) (sv_written sv);
  wo_range : forall e, e ∈ sv_written sv -> in_range (entry_loc e);
  wo_true : forall p, FO_Object p ∈ sv_written sv -> W (loc_of p) = Some p /\ matches filter (object_fields p) = true
}.

Lemma last_context_snoc prev es e : last_context prev (es ++ [e]) = Some (next_context e (last_context prev es)).
Proof. unfold last_context. by rewrite fold_left_app. Qed.

Lemma write_entries_snoc es e : forall prev bs b, write_entries group_order prev es = Ok bs ->
  FetchObject_serialize e (last_context prev es) group_order = Ok b ->
  write_entries group_order prev (es ++ [e]) = Ok (bs ++ b).
Proof.
  induction es as [|x es IH]; intros prev bs b Hw Hb; simpl in *.
  - injection Hw as <-. rewrite Hb. simpl. by rewrite app_nil_r.
  - apply obind_Ok_inv in Hw as (bx & Ex & Hw). apply obind_Ok_inv in Hw as (r & Er & Hw). injection Hw as <-.
    rewrite Ex. cbn [obind]. rewrite (IH _ r b Er Hb). cbn [obind]. by rewrite app_assoc.
Qed.

(** The context is of the last entry. *)
Lemma last_context_spec es : (forall p, FO_Object p ∈ es -> W (loc_of p) = Some p) -> (forall e, e ∈ es -> loc_ok (entry_loc e)) ->
  match last_context None es, last es with
  | None, None => True
  | Some c, Some e => ctx_ok c /\ fc_group_id c = group (entry_loc e) /\ fc_object_id c = object (entry_loc e) /\
      (overflow_checks = true -> fc_subgroup_id c <> Some U64_MAX)
  | _, _ => False
  end.
Proof.
  induction es as [|e es IH] using rev_ind; intros Hw Hl; [done|]. rewrite last_context_snoc, last_snoc.
  assert (Hprev : opt_ok ctx_ok (last_context None es) /\ (overflow_checks = true -> forall c, last_context None es = Some c -> fc_subgroup_id c <> Some U64_MAX)).
  { specialize (IH ltac:(set_solver) ltac:(set_solver)). destruct (last_context None es) as [c|]; [|by split; [|intros _ c]].
    destruct (last es); [|done]. destruct IH as (? & _ & _ & Hs). split; [done|]. intros Ho c' [= <-]. by apply Hs. }
  destruct Hprev as [Hctx Hsub]. specialize (Hl e ltac:(set_solver)). destruct e as [p|k g o].
  - destruct (W_ok _ _ (Hw p ltac:(set_solver))) as (_ & [] & _ & Hno). simpl. split_and!; try done. intros Ho [= E]. by apply Hno.
  - simpl in *. destruct Hl as [? ?]. split_and!; try done.
    + split; simpl; try done; destruct (last_context None es) as [c|]; try done; apply Hctx.
    + intros Ho. destruct (last_context None es) as [c|]; [|done]. by apply Hsub.
Qed.

Lemma entry_written sv e :
  writer_ok sv -> in_range (entry_loc e) -> (forall e', e' ∈ sv_written sv -> rank d (entry_loc e') < rank d (entry_loc e)) ->
  (forall p, e = FO_Object p -> W (loc_of p) = Some p /\ matches filter (object_fields p) = true) ->
  exists b, write_entry group_order true (fun _ => true) e sv = Ok (wrote sv e b) /\ writer_ok (wrote sv e b).
Proof.
  intros [Hb Hp Hs Hr Ht] Hin Hrank He.
  assert (Hctx := last_context_spec (sv_written sv) (fun p Hp => proj1 (Ht p Hp)) (fun e He => proj1 (Hr e He))).
  assert (Hprev : opt_ok ctx_ok (last_context None (sv_written sv))).
  { destruct (last_context None (sv_written sv)) as [c0|]; [|done]. destruct (last (sv_written sv)) as [e0|]; [|done]. apply Hctx. }
  assert (Hready : fo_ready group_order (last_context None (sv_written sv)) e).
  { destruct e as [p|k g o]; [|by destruct Hin as [[? ?] _]]. destruct (He p eq_refl) as [Hw _].
    destruct (W_ok _ _ Hw) as (_ & Hf & _ & Hno). split; [done|].
    assert (Hlast : forall pc, last_context None (sv_written sv) = Some pc ->
              (if d then fp_group_id p < fc_group_id pc else fc_group_id pc < fp_group_id p) \/
              fc_group_id pc = fp_group_id p /\ fc_object_id pc < fp_object_id p).
    { intros pc Epc. rewrite Epc in Hctx. destruct (last (sv_written sv)) as [e'|] eqn:El; [|done].
      destruct Hctx as (_ & -> & -> & _). apply last_Some_elem_of in El. apply (rank_lt_any (entry_loc e') (loc_of p)); [by apply Hr|apply Hin|].
      by apply (Hrank e'). }
    split.
    - intros pc Epc. destruct (Hlast pc Epc) as [Hg|[Hg Ho]]; [left; by apply group_follows_spec|right; lia].
    - intros Hov pc Epc. split.
      + intros Eg. destruct Hf as [_ _ [_ Ho] _ _ _]. destruct (Hlast pc Epc) as [Hg|[_ ?]]; [destruct d; lia|lia].
      + intros _ _ _. rewrite Epc in Hctx. destruct (last (sv_written sv)); [|done]. apply Hctx, Hov. }
  destruct (FetchObject_transmits e _ group_order Hprev Hready) as (b & Eb & _).
  exists b. unfold write_entry. simpl. rewrite Hp, Eb. split; [done|]. split; simpl.
  - by apply write_entries_snoc.
  - by rewrite last_context_snoc, Hp.
  - apply StronglySorted_app_2; [|done|by repeat constructor]. intros x1 x2 Hx1 ->%list_elem_of_singleton. by apply Hrank.
  - intros e' [?| ->%list_elem_of_singleton]%elem_of_app; [by apply Hr|done].
  - intros p [?|E%list_elem_of_singleton]%elem_of_app; [by apply Ht|]. by apply He.
Qed.

(** ** A cache that speaks the truth *)

Definition op_true (op : cache_op) : Prop :=
  cache_op_ok op /\
  match op with
  | Op_Add p => W (loc_of p) = Some p
  | Op_Absent a b => forall l, loc_ok l -> between_locations a b l -> W l = None
  | _ => True
  end.
Definition cache_true (tc : TrackCache) : Prop := exists ops, tc = cache_run ops /\ Forall op_true ops.
Definition track_true (t : Track) : Prop := cache_true (cache (content t)).

Lemma cache_true_ops tc ops : cache_true tc -> Forall op_true ops -> cache_true (fold_left cache_step ops tc).
Proof. intros (ops0 & -> & H0) Ho. exists (ops0 ++ ops). split; [unfold cache_run; by rewrite fold_left_app|by apply Forall_app]. Qed.
Lemma cache_true_step tc op : cache_true tc -> op_true op -> cache_true (cache_step tc op).
Proof. intros Hc Ho. apply (cache_true_ops tc [op] Hc). by apply Forall_singleton. Qed.

Lemma mark_all_true t spans : track_true t -> spans_ok spans ->
  (forall l, loc_ok l -> covered spans (pos l) -> W l = None) -> track_true (mark_all t spans).
Proof.
  intros Ht Hok Hw. unfold track_true, mark_all. simpl. revert Ht. unfold track_true. generalize (cache (content t)). clear t.
  induction spans as [|s spans IH]; intros tc Ht; simpl; [done|]. apply Forall_cons in Hok as [Hs Hok]. apply IH; [done| |].
  - intros l Hl (e & He & Hc). apply Hw; [done|]. exists e. split; [by right|done].
  - apply (cache_true_step tc (Op_Absent (fst s) (snd s)) Ht). split; [done|]. intros l Hl Hb. apply Hw; [done|]. exists s. by split; [left|].
Qed.

Lemma fetch_back p alias : (is_dg p = true -> fp_subgroup_id p = fp_object_id p) ->
  exists o, try_from_fetch p alias = Ok o /\ try_into_fetch o = Ok p.
Proof.
  destruct p as [g sg id pr fw ps pl]. unfold is_dg, try_from_fetch, try_into_fetch. simpl. intros Hdg.
  destruct fw; simpl; (eexists; split; [reflexivity|]); destruct pl; simpl; try done; by rewrite Hdg.
Qed.

Lemma cache_fetched_true t p o : track_true t -> W (loc_of p) = Some p ->
  try_from_fetch p (t_relay_track_id t) = Ok o -> track_true (cache_fetched_object t o).
Proof.
  intros Ht Hw E. destruct (W_ok _ _ Hw) as (_ & [Hg _ Ho _ _ _] & Hdg & _). destruct (fetch_back p (t_relay_track_id t) Hdg) as (o' & E' & Hb).
  rewrite E in E'. injection E' as <-. unfold track_true, cache_fetched_object. rewrite Hb. simpl.
  apply (cache_true_step _ (Op_Add p) Ht). by split.
Qed.

(** What a complete group says. *)
Lemma cached_true sv g : track_true (sv_track sv) -> is_u64 g ->
  let '(lo, hi) := objects_wanted g from end_location in is_u64 lo -> is_u64 hi ->
  exists r, cached start_location end_location group_order sv g = Ok r /\
    forall v, r = Some v ->
      StronglySorted id_lt v /\
      (forall p, p ∈ v -> fp_group_id p = g /\ lo <= fp_object_id p <= hi /\ W (loc_of p) = Some p) /\
      (forall i, lo <= i <= hi -> W (mkLocation g i) = None \/ exists p, p ∈ v /\ fp_object_id p = i).
Proof.
  intros (ops & Ec & Hops) Hg. destruct (objects_wanted g from end_location) as [lo hi] eqn:Ew. intros Hlo Hhi.
  assert (Hok : Forall cache_op_ok ops) by (eapply Forall_impl; [exact Hops|]; by intros op []).
  destruct (answer_accounted ops g lo hi Hok Hg Hlo Hhi) as (r & Er & Hr & _).
  exists r. unfold cached. fold from. rewrite Ew, Ec, Er. split; [done|]. intros v Hv. destruct (Hr v Hv) as (Hs & Hin & Hadd & Hall).
  rewrite Forall_forall in Hops. split_and!; [done| |].
  - intros p Hp. destruct (Hadd p Hp) as [Ha <-]. apply Hops in Ha as [_ Ha]. apply Hin in Hp as [_ ?]. done.
  - intros i Hi. destruct (Hall i Hi) as [(a & b & Ha & Hb)|(p & -> & Hp)%list_elem_of_fmap]; [left|right; by exists p].
    apply Hops in Ha as [_ Ha]. apply Ha; [|done]. split; unfold is_u64 in *; simpl; lia.
Qed.

(** ** What the subscriber is told

    It is told nothing false: a Location that the entries, read as a response, say is
    absent has no Object, or one that the filter keeps back. *)

Definition fine (l : Location) : Prop := forall p, W l = Some p -> matches filter (object_fields p) = false.
Definition told (es : list response_event) (l : Location) : Prop :=
  match List.find (speaks_for d l) es with Some e => says_absent e l = true -> fine l | None => fine l end.

Lemma told_append es es' l :
  (forall e, e ∈ es -> speaks_for d l e = false) -> told es' l -> told (es ++ es') l.
Proof.
  intros Hno Ht. unfold told. induction es as [|e es IH]; [done|]. simpl. rewrite Hno by by left. apply IH. intros e' He'. apply Hno. by right.
Qed.
Lemma told_more es es' l : told es l -> told (es ++ es') l.
Proof.
  unfold told. induction es as [|e es IH]; simpl; [|by destruct (speaks_for d l e)]. intros Hf. by destruct (List.find _ es').
Qed.

(** A complete group from the cache, filtered. *)
Lemma told_cached (v : list FetchObjectPayload) g l :
  StronglySorted id_lt v -> (forall p, p ∈ v -> fp_group_id p = g /\ W (loc_of p) = Some p) -> group l = g -> loc_ok l ->
  (W l = None \/ exists p, p ∈ v /\ fp_object_id p = object l) ->
  told (map as_entry (map FO_Object (List.filter (fun p => matches filter (object_fields p)) v))) l.
Proof.
  intros Hs Hv Hg Hl Hacc. unfold told. destruct (List.find _ _) as [e|] eqn:Ef.
  - intros Hsay p Hp. destruct (matches filter (object_fields p)) eqn:Em; [|done]. exfalso.
    destruct Hacc as [Hn|(q & Hq & Eq)]; [congruence|]. destruct (Hv q Hq) as [Egq Hwq].
    assert (El : loc_of q = l) by (destruct l; unfold loc_of; simpl in *; congruence). rewrite El, Hp in Hwq. injection Hwq as <-.
    assert (Hin : exists v1 v2, v = v1 ++ p :: v2) by (apply list_elem_of_split; done). destruct Hin as (v1 & v2 & ->).
    rewrite List.filter_app, !map_app in Ef. simpl in Ef. rewrite Em in Ef. simpl in Ef.
    apply StronglySorted_app in Hs as (Hbefore & _ & _).
    assert (Hskip : forall x, x ∈ map as_entry (map FO_Object (List.filter (fun p => matches filter (object_fields p)) v1)) -> speaks_for d l x = false).
    { intros x Hx. apply list_elem_of_fmap in Hx as (y & -> & Hy). apply list_elem_of_fmap in Hy as (z & -> & Hz). apply in_filter in Hz as [Hz _].
      unfold speaks_for. simpl. apply Z.leb_gt. destruct (Hv z ltac:(set_solver)) as [Egz Hwz].
      destruct (W_ok _ _ Hwz) as (_ & [Hz1 _ Hz2 _ _ _] & _). apply rank_lt_any; [by split|done|]. right. simpl. split; [congruence|].
      pose proof (Hbefore z p Hz ltac:(by left)) as Hlt. unfold id_lt in Hlt. lia. }
    assert (Efind : List.find (speaks_for d l) (map as_entry (map FO_Object (List.filter (fun p => matches filter (object_fields p)) v1)) ++
        RE_Object (loc_of p) :: map as_entry (map FO_Object (List.filter (fun p => matches filter (object_fields p)) v2))) = Some (RE_Object (loc_of p))).
    { clear -Hskip El. induction (map as_entry _) as [|x xs IH]; simpl.
      - unfold speaks_for. simpl. rewrite El. by rewrite Z.leb_refl.
      - rewrite Hskip by by left. apply IH. intros y Hy. apply Hskip. by right. }
    rewrite Efind in Ef. injection Ef as <-. simpl in Hsay. by rewrite El, bool_decide_eq_true_2 in Hsay.
  - intros p Hp. destruct (matches filter (object_fields p)) eqn:Em; [|done]. exfalso.
    destruct Hacc as [Hn|(q & Hq & Eq)]; [congruence|]. destruct (Hv q Hq) as [Egq Hwq].
    assert (El : loc_of q = l) by (destruct l; unfold loc_of; simpl in *; congruence). rewrite El, Hp in Hwq. injection Hwq as <-.
    assert (Hx : RE_Object (loc_of p) ∈ map as_entry (map FO_Object (List.filter (fun p => matches filter (object_fields p)) v))).
    { apply list_elem_of_fmap. exists (FO_Object p). split; [done|]. apply list_elem_of_fmap. exists p. split; [done|]. by apply in_filter. }
    apply list_elem_of_In in Hx. pose proof (List.find_none _ _ Ef _ Hx) as Hn. unfold speaks_for in Hn. simpl in Hn. rewrite El, Z.leb_refl in Hn. done.
Qed.

(** ** Parts of the range *)

Lemma from_spec : loc_ok from /\ group from = group start_location /\ pos from <= pos end_location /\ (d = true -> group from = group end_location \/ object from = 0).
Proof.
  unfold from, start, delivered_start, d. destruct start_ok as [Hg Ho], end_ok as [Hg' Ho'].
  destruct (is_descending group_order && negb (group start_location =? group end_location)) eqn:E.
  - unfold loc_ok, is_u64, pos in *. simpl. split_and!; lia.
  - split_and!; try done. intros Hd. rewrite Hd in E. simpl in E. left. by apply negb_false_iff, Z.eqb_eq in E.
Qed.

Lemma groups_ordered l l' : loc_ok l -> loc_ok l' -> pos l <= pos l' -> group l <= group l'.
Proof. intros [? ?] [? ?] Hle. unfold is_u64, pos in *. nia. Qed.

Lemma part_spec gs ge : group from <= gs -> gs <= ge -> ge <= group end_location ->
  let '(s, e) := requested_part gs ge from end_location in
  loc_ok s /\ loc_ok e /\ group s = gs /\ group e = ge /\ pos s <= pos e /\ delivered_start s e group_order = s /\
  (forall l, between_locations s e l -> between_locations from end_location l) /\
  (forall l, in_range l -> gs <= group l <= ge -> between_locations s e l).
Proof.
  intros H1 H2 H3. destruct from_spec as (Hf & _ & Hfe & Hz). pose proof end_ok as He. unfold requested_part.
  pose proof Hf as [Hfg Hfo]. pose proof He as [Heg Heo]. unfold is_u64 in *.
  assert (Hs0 : loc_ok (mkLocation gs 0)) by (unfold loc_ok, is_u64; simpl; lia).
  assert (He0 : loc_ok (mkLocation ge U64_MAX)) by (unfold loc_ok, is_u64; simpl; lia).
  destruct (Location_max_pos _ _ Hs0 Hf) as [Hso Hsp]. destruct (Location_min_pos _ _ He0 He) as [Heo' Hep].
  assert (Hsg : group (Location_max (mkLocation gs 0) from) = gs).
  { unfold Location_max. destruct (Location_leb _ _) eqn:E; [|done]. apply Location_leb_pos in E; [|done..]. apply groups_ordered in E; [|done..]. simpl in E. lia. }
  assert (Heg' : group (Location_min (mkLocation ge U64_MAX) end_location) = ge).
  { unfold Location_min. destruct (Location_leb _ _) eqn:E; [done|]. apply not_true_iff_false in E. rewrite Location_leb_pos in E by done.
    unfold pos in E. simpl in E. nia. }
  set (s := Location_max _ _) in *. set (e := Location_min _ _) in *.
  assert (Hse : pos s <= pos e). { rewrite Hsp, Hep. unfold pos in *. simpl in *. nia. }
  split_and!; try done.
  - unfold delivered_start. fold d. destruct (d && _) eqn:E; [|done]. apply andb_true_iff in E as [Ed Ene%negb_true_iff%Z.eqb_neq].
    enough (object s = 0) as Eo by (assert (Eta : forall x : Location, object x = 0 -> mkLocation (group x) 0 = x) by (intros [gx ox] E0; simpl in *; congruence); by apply Eta).
    unfold s, Location_max. destruct (Location_leb _ _) eqn:El; [|done]. apply Location_leb_pos in El; [|done..].
    destruct (Hz Ed) as [Hge|?]; [|done]. lia.
  - intros l [Hl1 Hl2]. split; lia.
  - intros l [[Hlg Hlo] [Hl1 Hl2]] Hgr. unfold is_u64, between_locations in *. rewrite Hsp, Hep. unfold pos in *. simpl. nia.
Qed.

(** In one group the directions agree. *)
Definition part_descends (s e : Location) : bool := is_descending group_order && negb (group s =? group e).
Lemma rank_part s e l l' : loc_ok s -> loc_ok e -> loc_ok l -> loc_ok l' -> between_locations s e l -> between_locations s e l' ->
  rank (part_descends s e) l < rank (part_descends s e) l' <-> rank d l < rank d l'.
Proof.
  intros Hs He Hl Hl' [H1 H2] [H3 H4]. unfold part_descends. fold d. destruct d; [|done]. simpl.
  destruct (Z.eqb_spec (group s) (group e)) as [E|]; [|done]. simpl. rewrite (rank_lt l l') by done.
  apply groups_ordered in H1, H2, H3, H4; try done. assert (group l = group l') as Eg by lia. unfold rank, pos. rewrite Eg. lia.
Qed.
Lemma speaks_part s e l x : loc_ok s -> loc_ok e -> loc_ok l -> between_locations s e l ->
  (forall l', entry_location x = Some l' -> loc_ok l' /\ between_locations s e l') ->
  speaks_for (part_descends s e) l x = speaks_for d l x.
Proof.
  intros Hs He Hl Hb Hx. unfold speaks_for. destruct (entry_location x) as [l'|]; [|done]. destruct (Hx l' eq_refl) as [Hl' Hb'].
  pose proof (rank_part s e l' l Hs He Hl' Hl Hb' Hb). apply eq_true_iff_eq. rewrite !Z.leb_le. lia.
Qed.

(** What is told last of a gap. *)
Lemma last_delivered_spec gs ge : group from <= gs -> gs <= ge -> ge <= group end_location ->
  let '(s, e) := requested_part gs ge from end_location in
  let m := last_delivered gs ge from end_location d in
  loc_ok m /\ between_locations s e m /\ (forall l, loc_ok l -> between_locations s e l -> rank d l <= rank d m).
Proof.
  intros H1 H2 H3. pose proof (part_spec gs ge H1 H2 H3) as Hp. destruct (requested_part gs ge from end_location) as [s e] eqn:E.
  destruct Hp as (Hs & He & Hsg & Heg & Hse & _ & Hin & Hout). unfold last_delivered.
  set (g := if d then gs else ge). assert (Hg : gs <= g <= ge) by (unfold g; destruct d; lia).
  pose proof (part_spec g g ltac:(lia) ltac:(lia) ltac:(lia)) as Hp. destruct (requested_part g g from end_location) as [s' m] eqn:E'. simpl.
  destruct Hp as (_ & Hm & _ & Hmg & _ & _ & _ & Hout').
  destruct from_spec as (Hf & _ & Hfe & _). pose proof end_ok as Heok.
  assert (Hmb : in_range m).
  { split; [done|]. injection E' as _ Em. destruct (Location_min_pos (mkLocation g U64_MAX) end_location) as [_ Ep]; [|done|].
    - destruct He as [Heg' _]. destruct Hs as [Hsg' _]. unfold loc_ok, is_u64 in *. simpl. lia.
    - rewrite Em in Ep. split; [|lia]. rewrite Ep. apply Z.min_glb; [|done]. destruct Hf as [? ?]. unfold pos, is_u64 in *. simpl. nia. }
  split_and!; [done|apply Hout; [done|lia]|].
  intros l Hl Hb. pose proof (Hin l Hb) as Hbl. destruct (decide (group l = g)) as [Eg|Hne].
  - specialize (Hout' l (conj Hl Hbl) ltac:(lia)) as [_ Hle]. unfold rank. rewrite Eg, Hmg. unfold pos in *. rewrite Eg, Hmg in *. destruct d; lia.
  - assert (gs <= group l <= ge). { destruct Hb as [Hb1 Hb2]. apply groups_ordered in Hb1, Hb2; try done. lia. }
    apply Z.lt_le_incl. apply rank_lt_any; [done..|]. left. rewrite Hmg. unfold g in *. destruct d; lia.
Qed.

(** ** Hearing a response *)

Record heard (s e : Location) (es : list response_event) (self : ResponseAbsences) : Prop := {
  he_ok : absences_ok self;
  he_start : ra_start self = s;
  he_descending : ra_descending self = part_descends s e;
  he_fetch_ok : ra_fetch_ok self = accepted es;
  he_end : ra_end self = end_after e es;
  he_last : ra_last self = last (omap entry_location es)
}.

Lemma heard_new s e : loc_ok s -> loc_ok e -> delivered_start s e group_order = s -> heard s e [] (ResponseAbsences_new s e group_order).
Proof.
  intros Hs He Hd. destruct (new_inv s e group_order Hs He s) as [Hok ? ? ? ? _ ? _ _]. by split.
Qed.

Lemma response_at s e whole pre x rest : loc_ok s -> loc_ok e -> delivered_start s e group_order = s ->
  response_ok s e group_order whole -> whole = pre ++ x :: rest ->
  match entry_location x with
  | Some to => loc_ok to /\ between_locations s (end_after e pre) to /\ between_locations s e to /\
      (forall m, last (omap entry_location pre) = Some m -> rank (part_descends s e) m < rank (part_descends s e) to)
  | None => exists a, x = RE_Accepted a /\ loc_ok a
  end.
Proof.
  intros Hs He Hd (Hacc & Hent & Hsort) Ew. rewrite Hd in Hent. destruct (entry_location x) as [to|] eqn:Ex.
  - destruct (Hent to) as [Hto Hb]. { apply list_elem_of_omap. exists x. split; [rewrite Ew; set_solver|done]. }
    assert (Hle : pos (end_after e whole) <= pos (end_after e pre) <= pos e).
    { rewrite Ew in Hacc |- *. apply Forall_app in Hacc as [Ha1 Ha2]. destruct (end_after_ok pre e He Ha1) as [H1 H2].
      destruct (end_after_ok (x :: rest) (end_after e pre) H1 Ha2) as [_ H3]. unfold end_after in *. rewrite fold_left_app. lia. }
    unfold between_locations in *. split_and!; [done|lia|lia|lia|lia|].
    intros m Hm. rewrite Ew, omap_app in Hsort. apply StronglySorted_app in Hsort as (Hbefore & _ & _).
    apply Hbefore; [by apply last_Some_elem_of|]. simpl. rewrite Ex. by left.
  - destruct x as [a| |]; [|done..]. exists a. split; [done|]. rewrite Ew in Hacc. apply Forall_app in Hacc as [_ Hacc]. by apply Forall_cons in Hacc as [? _].
Qed.

Lemma heard_accepted s e pre self a : loc_ok a -> heard s e pre self -> heard s e (pre ++ [RE_Accepted a]) (on_fetch_ok self a).
Proof.
  intros Ha [[H1 H2 H3 H4] ? ? ? He Hl]. split; try done.
  - split; try done. simpl. by destruct (Location_ltb _ _).
  - rewrite accepted_snoc. simpl. by rewrite orb_true_r.
  - rewrite end_after_snoc. simpl. by rewrite He.
  - rewrite omap_app. simpl. by rewrite app_nil_r.
Qed.

Lemma heard_entry s e whole pre x rest to self over : loc_ok s -> loc_ok e -> delivered_start s e group_order = s ->
  response_ok s e group_order whole -> whole = pre ++ x :: rest -> entry_location x = Some to -> heard s e pre self ->
  exists spans, (forall marked, response_step (self, marked) x = Ok (with_last self to, marked ++ spans)) /\
    spans_ok spans /\ heard s e (pre ++ [x]) (with_last self to) /\
    (forall l, loc_ok l -> covered spans (pos l) -> between_locations s e l /\ stated_absent (part_descends s e) whole over l = true).
Proof.
  intros Hs He Hd Hresp Ew Ex [Hok Hst Hde Hf Hend Hl].
  pose proof (response_at s e whole pre x rest Hs He Hd Hresp Ew) as Hx. rewrite Ex in Hx. destruct Hx as (Hto & Hb & _ & Hlast).
  assert (Hin : in_response self to) by (split; [done|]; by rewrite Hst, Hend).
  assert (Haf : after_last self to). { unfold after_last. rewrite Hl, Hde. destruct (last _) as [m|]; [by apply Hlast|done]. }
  assert (Hle : pos (ra_end self) <= pos e).
  { rewrite Hend. destruct Hresp as (Hacc & _). rewrite Ew in Hacc. apply Forall_app in Hacc as [Hacc _]. by apply end_after_ok. }
  destruct (entry_marks self x to to Hok Hin Hin Haf Ex) as (spans & Estep & (inner & Hinner & Espans) & _).
  exists spans. split; [done|]. assert (Hsp : spans_ok spans) by (destruct Espans as [-> | ->]; [by apply clip_ok|constructor]). split; [done|]. split.
  - split; try done.
    + destruct Hok as [H1 H2 H3 H4]. split; try done. simpl. by intros ? [= <-].
    + rewrite accepted_snoc. destruct x; [done| |]; by rewrite orb_false_r.
    + rewrite end_after_snoc. by destruct x.
    + rewrite omap_app. simpl. rewrite Ex, last_app. done.
  - intros l Hlok Hc. destruct Espans as [Esp| ->]; [|by apply covered_nil in Hc].
    assert (Hlr : in_response self l).
    { rewrite Esp in Hc. destruct (covered_bounds self inner (pos l) Hok Hinner Hc) as [[H1 H2] E]. split; [done|]. unfold between_locations in *. by rewrite E in H2. }
    destruct (entry_marks self x to l Hok Hlr Hin Haf Ex) as (spans' & Estep' & _ & Hc').
    specialize (Estep' []). rewrite (Estep []) in Estep'. injection Estep' as <-. apply Hc' in Hc as [Hal [Hspk Hsay]%andb_true_iff].
    split. { destruct Hlr as [_ H0]. unfold between_locations in *. rewrite Hst in H0. lia. }
    assert (Hnone : List.find (speaks_for (part_descends s e) l) pre = None).
    { pose proof (find_after s e Hs He self pre l Hl) as Hfa. rewrite Hde in Hfa. apply Hfa; [|done].
      destruct Hresp as (_ & _ & Hsort). rewrite Ew, omap_app in Hsort. by apply StronglySorted_app in Hsort as (_ & Hsort & _). }
    unfold stated_absent. rewrite Hde in Hspk. rewrite Ew.
    assert (Ef : List.find (speaks_for (part_descends s e) l) (pre ++ x :: rest) = Some x); [|by rewrite Ef].
    clear -Hnone Hspk. induction pre as [|y pre IH]; simpl in *; [by rewrite Hspk|]. destruct (speaks_for _ l y); [done|]. by apply IH.
Qed.

Lemma heard_end s e whole self cleanly : loc_ok s -> loc_ok e -> delivered_start s e group_order = s ->
  response_ok s e group_order whole -> heard s e whole self ->
  exists spans, on_end self cleanly = Ok spans /\ spans_ok spans /\
    (forall l, loc_ok l -> covered spans (pos l) ->
       between_locations s e l /\ stated_absent (part_descends s e) whole (cleanly && accepted whole) l = true).
Proof.
  intros Hs He Hd (Hacc & _ & Hsort) [Hok Hst Hde Hf Hend Hl].
  destruct (end_marks self cleanly Hok) as (spans & -> & Hsp & Hc). exists (clip self spans). split; [done|]. split; [by apply clip_ok|].
  intros l Hlok Hcov. destruct (covered_bounds self spans (pos l) Hok Hsp Hcov) as [[H1 H2] E].
  assert (Hlr : in_response self l) by (split; [done|]; unfold between_locations in *; by rewrite E in H2).
  apply Hc in Hcov as [Hover Hal]; [|done]. split.
  { destruct Hlr as [_ H0]. destruct (end_after_ok whole e He Hacc) as [_ ?]. unfold between_locations in *. rewrite Hst, Hend in H0. lia. }
  unfold stated_absent. pose proof (find_after s e Hs He self whole l Hl) as Hfa. rewrite Hde in Hfa. rewrite (proj2 (Hfa Hsort) Hal). by rewrite <- Hf.
Qed.

(** ** A publisher that speaks the truth *)

(** What it sends for the range from [s] to [e]. *)
Record response_true (s e : Location) (events : list UpstreamFetchEvent) : Prop := {
  rt_ok : response_ok s e group_order (fst (response_of events));
  rt_objects : forall p, UFE_Object p ∈ events -> W (loc_of p) = Some p;
  rt_absent : forall l, loc_ok l -> between_locations s e l ->
    stated_absent (part_descends s e) (fst (response_of events))
      (snd (response_of events) && accepted (fst (response_of events))) l = true -> W l = None
}.

(** What of it the subscriber gets. *)
Definition kept (x : response_event) : bool :=
  match x with
  | RE_Accepted _ => false
  | RE_Marker _ _ => true
  | RE_Object l => match W l with Some p => matches filter (object_fields p) | None => true end
  end.

Lemma find_filter {A} (f k : A -> bool) xs :
  match List.find f (List.filter k xs) with
  | Some x => exists y, List.find f xs = Some y /\ (y = x \/ k y = false)
  | None => match List.find f xs with Some y => k y = false | None => True end
  end.
Proof.
  induction xs as [|x xs IH]; simpl; [done|]. destruct (k x) eqn:Ek; simpl; destruct (f x) eqn:Ef; try done.
  - exists x. by split; [|left].
  - destruct (List.find f (List.filter k xs)); [|done]. exists x. by split; [|right].
Qed.
Lemma find_app {A} (f : A -> bool) xs ys : List.find f (xs ++ ys) = match List.find f xs with Some x => Some x | None => List.find f ys end.
Proof. induction xs as [|x xs IH]; simpl; [done|]. by destruct (f x). Qed.
Lemma find_ext {A} (f g : A -> bool) xs : (forall x, x ∈ xs -> f x = g x) -> List.find f xs = List.find g xs.
Proof.
  induction xs as [|x xs IH]; intros Hx; simpl; [done|]. rewrite (Hx x) by by left. rewrite IH; [done|]. intros y Hy. apply Hx. by right.
Qed.

Section Part.
Variable s e : Location.
Hypothesis s_ok : loc_ok s.
Hypothesis e_ok : loc_ok e.
Hypothesis s_whole : delivered_start s e group_order = s.

Lemma response_entries es : response_ok s e group_order es ->
  forall x l, x ∈ es -> entry_location x = Some l -> loc_ok l /\ between_locations s e l.
Proof.
  intros (Hacc & Hent & _) x l Hx El. destruct (Hent l) as [Hl Hb]; [by apply list_elem_of_omap; exists x|]. split; [done|].
  destruct (end_after_ok es e e_ok Hacc) as [_ ?]. rewrite s_whole in Hb. unfold between_locations in *. lia.
Qed.

Variable events : list UpstreamFetchEvent.
Hypothesis events_true : response_true s e events.
Let es : list response_event := fst (response_of events).
Let over : bool := snd (response_of events) && accepted es.

Lemma stated_find l : loc_ok l -> between_locations s e l ->
  stated_absent (part_descends s e) es over l = match List.find (speaks_for d l) es with Some x => says_absent x l | None => over end.
Proof.
  intros Hl Hb. unfold stated_absent. rewrite (find_ext (speaks_for (part_descends s e) l) (speaks_for d l)); [done|].
  intros x Hx. apply speaks_part; try done. intros l' El. by apply (response_entries es (rt_ok _ _ _ events_true) x).
Qed.

Lemma heard_objects l : RE_Object l ∈ es -> exists p, W l = Some p /\ loc_of p = l.
Proof.
  intros Hin. assert (Hp : exists p, UFE_Object p ∈ events /\ loc_of p = l).
  { unfold es in Hin. clear -Hin. induction events as [|x evs IH]; simpl in Hin; [by apply elem_of_nil in Hin|].
    destruct x; simpl in Hin; try (by apply elem_of_nil in Hin); destruct (response_of evs) as [r b]; simpl in *;
      apply elem_of_cons in Hin as [E|Hin]; try done;
      try (destruct (IH Hin) as (p & Hp & El); exists p; split; [by right|done]).
    injection E as ->. eexists. by split; [left|]. }
  destruct Hp as (p & Hp & El). exists p. split; [|done]. rewrite <- El. by apply (rt_objects _ _ _ events_true).
Qed.

Lemma first_dropped_fine l x : loc_ok l -> between_locations s e l -> List.find (speaks_for d l) es = Some x -> kept x = false -> fine l.
Proof.
  intros Hl Hb Hf Hk p Hp. destruct x as [|l'|]; try done.
  { apply List.find_some in Hf as [_ Hf]. done. }
  simpl in Hk. destruct (decide (l' = l)) as [-> |Hne]; [by rewrite Hp in Hk|]. exfalso.
  enough (W l = None) by congruence. apply (rt_absent _ _ _ events_true); [done..|]. fold es over. rewrite stated_find, Hf by done.
  simpl. by rewrite bool_decide_eq_false_2.
Qed.

(** The whole response says enough of a Location when it has an entry at or after it,
    or has come to its end. *)
Lemma told_filtered l : loc_ok l -> between_locations s e l -> over = true \/ List.find (speaks_for d l) es <> None ->
  told (List.filter kept es) l.
Proof.
  intros Hl Hb Hend. unfold told. pose proof (find_filter (speaks_for d l) kept es) as Hff. pose proof (rt_absent _ _ _ events_true l Hl Hb) as Habs.
  fold es over in Habs. rewrite stated_find in Habs by done. destruct (List.find _ (List.filter _ _)) as [x|].
  - destruct Hff as (y & Ef & [-> |Hk]); [|intros _; by eapply first_dropped_fine]. rewrite Ef in Habs.
    intros Hsay p Hp. rewrite (Habs Hsay) in Hp. done.
  - destruct (List.find (speaks_for d l) es) as [y|] eqn:Ef; [by eapply first_dropped_fine|].
    destruct Hend as [Ho|]; [|done]. intros p Hp. rewrite (Habs Ho) in Hp. done.
Qed.

(** An unknown range says nothing false. *)
Lemma told_unfilled l m : loc_ok l -> between_locations s e l -> rank d l <= rank d m ->
  told (List.filter kept es ++ [RE_Marker ERK_Unknown m]) l.
Proof.
  intros Hl Hb Hle. destruct (List.find (speaks_for d l) es) as [x|] eqn:Ef.
  - apply told_more, told_filtered; [done..|]. right. by rewrite Ef.
  - pose proof (find_filter (speaks_for d l) kept es) as Hff. unfold told. rewrite find_app. rewrite Ef in Hff.
    destruct (List.find _ (List.filter _ _)) as [x|]; [by destruct Hff as (y & ? & _)|]. simpl. unfold speaks_for. simpl.
    by rewrite (proj2 (Z.leb_le _ _) Hle).
Qed.
End Part.

(** ** The delivery *)

Variable max_upstream_fetch_gaps : Z.
Variable cancel : nat -> FetchStop.
Variable others : nat -> Track -> Track.
Variable ask : nat -> LocationFilter -> GroupOrder -> option (list UpstreamFetchEvent).
Variable publisher : nat -> Z.
Variable gone : Z -> bool.
Hypothesis others_true : forall n t, track_true t -> track_true (others n t).

Definition good (sv : Serving) : Prop := writer_ok sv /\ track_true (sv_track sv).
(** What an action of the delivery leaves alone. *)
Definition carries (sv sv' : Serving) : Prop :=
  pending_upstream sv' = pending_upstream sv /\ upstream_gap_count sv' = upstream_gap_count sv /\
  last_waited_group sv' = last_waited_group sv.
#[local] Instance carries_trans : Transitive carries.
Proof. intros sv1 sv2 sv3 (? & ? & ?) (? & ? & ?). split_and!; congruence. Qed.

Lemma same_writer sv sv' : sv_written sv' = sv_written sv -> sv_out sv' = sv_out sv -> fetch_prev_ctx sv' = fetch_prev_ctx sv ->
  writer_ok sv -> writer_ok sv'.
Proof. intros E1 E2 E3 [? ? ? ? ?]. by split; rewrite ?E1, ?E2, ?E3. Qed.
Lemma good_on_track sv t : good sv -> track_true t -> good (on_track sv t).
Proof. intros [Hw _] Ht. split; [by apply (same_writer sv)|done]. Qed.
Lemma good_set_stop sv r : good sv -> good (set_stop sv r).
Proof. intros [Hw Ht]. split; [by apply (same_writer sv)|done]. Qed.
Lemma look_true sv : good sv ->
  exists sv', look cancel others sv = (cancel (sv_looks sv), sv') /\ good sv' /\ sv_written sv' = sv_written sv /\
    stop_reason sv' = stop_reason sv /\ carries sv sv'.
Proof.
  intros [Hw Ht]. eexists. split; [reflexivity|]. split_and!; try done. split; [by apply (same_writer sv)|]. by apply others_true.
Qed.
Lemma malformed_true p t : track_true t -> track_true (handle_malformed_upstream_fetch gone p t).
Proof.
  unfold track_true, handle_malformed_upstream_fetch, remove_publisher_quietly. by destruct (take_publisher _ _) as [[u a] b].
Qed.

(** An entry after all that is written. *)
Lemma good_entry sv e : good sv -> in_range (entry_loc e) ->
  (forall e', e' ∈ sv_written sv -> rank d (entry_loc e') < rank d (entry_loc e)) ->
  (forall p, e = FO_Object p -> W (loc_of p) = Some p /\ matches filter (object_fields p) = true) ->
  exists sv', write_entry group_order true (fun _ => true) e sv = Ok sv' /\ good sv' /\ sv_written sv' = sv_written sv ++ [e] /\
    stop_reason sv' = stop_reason sv /\ carries sv sv'.
Proof.
  intros [Hw Ht] Hin Hr Hp. destruct (entry_written sv e Hw Hin Hr Hp) as (b & E & Hw'). exists (wrote sv e b). by split_and!.
Qed.

Section Response.
Variable s e : Location.
Hypothesis s_ok : loc_ok s.
Hypothesis e_ok : loc_ok e.
Hypothesis s_whole : delivered_start s e group_order = s.
Hypothesis part_in : forall l, between_locations s e l -> between_locations from end_location l.
Variable whole : list UpstreamFetchEvent.
Hypothesis whole_true : response_true s e whole.
Let es : list response_event := fst (response_of whole).
Let over : bool := snd (response_of whole) && accepted es.

(** What is written before the part, and of the part. *)
Variable w0 : list FetchObject.
Hypothesis w0_before : forall x l, x ∈ w0 -> loc_ok l -> between_locations s e l -> rank d (entry_loc x) < rank d l.

Record taken (pre : list response_event) (absences : ResponseAbsences) (sv : Serving) : Prop := {
  tk_good : good sv;
  tk_heard : heard s e pre absences;
  tk_prefix : exists rest, es = pre ++ rest;
  tk_written : exists ws, sv_written sv = w0 ++ ws /\ map as_entry ws = List.filter kept pre
}.

Lemma as_entry_location x : entry_location (as_entry x) = Some (entry_loc x).
Proof. by destruct x. Qed.

Lemma taken_before pre x rest to absences sv : taken pre absences sv -> es = pre ++ x :: rest -> entry_location x = Some to ->
  forall x', x' ∈ sv_written sv -> rank d (entry_loc x') < rank d to.
Proof.
  intros Ht Ew Ex x' Hx'. pose proof (rt_ok _ _ _ whole_true) as Hok. fold es in Hok.
  pose proof (response_entries s e e_ok s_whole es Hok) as Hent.
  destruct (Hent x to) as [Hto Hb]; [rewrite Ew; set_solver|done|].
  destruct (tk_written _ _ _ Ht) as (ws & Ews & Em). rewrite Ews in Hx'. apply elem_of_app in Hx' as [Hx'|Hx']; [by apply w0_before|].
  assert (Hk : as_entry x' ∈ pre). { assert (Hin : as_entry x' ∈ map as_entry ws) by (apply list_elem_of_fmap; by exists x'). rewrite Em in Hin. by apply in_filter in Hin as [? _]. }
  destruct (Hent (as_entry x') (entry_loc x')) as [Hl' Hb']; [rewrite Ew; set_solver|apply as_entry_location|].
  apply (rank_part s e); try done. destruct Hok as (_ & _ & Hs). rewrite Ew, omap_app in Hs. apply StronglySorted_app in Hs as (Hbefore & _ & _).
  apply Hbefore.
  - apply list_elem_of_omap. exists (as_entry x'). split; [done|apply as_entry_location].
  - simpl. rewrite Ex. by left.
Qed.

Lemma taken_same pre absences sv sv' : taken pre absences sv -> good sv' -> sv_written sv' = sv_written sv -> taken pre absences sv'.
Proof. intros [_ Hh Hp Hw] Hg E. split; try done. by rewrite E. Qed.

(** The cache learns what an entry says. *)
Lemma entry_marked pre x rest to absences sv : taken pre absences sv -> es = pre ++ x :: rest -> entry_location x = Some to ->
  exists spans, (forall marked, response_step (absences, marked) x = Ok (with_last absences to, marked ++ spans)) /\
    heard s e (pre ++ [x]) (with_last absences to) /\ (forall t, track_true t -> track_true (mark_all t spans)).
Proof.
  intros Ht Ew Ex. destruct (heard_entry s e es pre x rest to absences over s_ok e_ok s_whole (rt_ok _ _ _ whole_true) Ew Ex (tk_heard _ _ _ Ht))
    as (spans & Estep & Hsp & Hh & Hc).
  exists spans. split_and!; [done..|]. intros t Htr. apply mark_all_true; [done..|].
  intros l Hl Hcov. destruct (Hc l Hl Hcov). by apply (rt_absent _ _ _ whole_true).
Qed.

Lemma on_entry absences x to spans : entry_location x = Some to ->
  (forall marked, response_step (absences, marked) x = Ok (with_last absences to, marked ++ spans)) ->
  match x with
  | RE_Object l => on_object absences l = Ok (with_last absences to, spans)
  | RE_Marker k l => on_marker absences k l = Ok (with_last absences to, spans)
  | RE_Accepted _ => False
  end.
Proof.
  intros Ex Hs. specialize (Hs []). destruct x; [done| |]; simpl in Hs; apply obind_Ok_inv in Hs as ([a b] & -> & Hs);
    simpl in Hs; by injection Hs as -> ->.
Qed.

(** One event that is an entry: the cache is told, and the subscriber too if it [writes_it]. *)
Lemma entry_taken pre x rest to absences sv sv1 entry (keep : bool) spans :
  taken pre absences sv -> es = pre ++ x :: rest -> entry_location x = Some to -> kept x = keep -> as_entry entry = x ->
  heard s e (pre ++ [x]) (with_last absences to) -> (forall t, track_true t -> track_true (mark_all t spans)) ->
  (forall p, x = RE_Object to -> entry = FO_Object p -> W (loc_of p) = Some p) ->
  good sv1 -> sv_written sv1 = sv_written sv ->
  exists sv', (let sv1 := on_track sv1 (mark_all (sv_track sv1) spans) in
      if keep then write_entry group_order true (fun _ => true) entry sv1 else Ok sv1) = Ok sv' /\
    taken (pre ++ [x]) (with_last absences to) sv' /\ stop_reason sv' = stop_reason sv1 /\ carries sv1 sv'.
Proof.
  intros Ht Ew Ex Ek Ee Hh Hm Hp Hg1 E1. set (sv2 := on_track sv1 (mark_all (sv_track sv1) spans)).
  assert (Hg2 : good sv2) by (apply good_on_track; [done|apply Hm, Hg1]).
  destruct (tk_written _ _ _ Ht) as (ws & Ews & Em).
  assert (Hpre : exists rest, es = (pre ++ [x]) ++ rest) by (exists rest; by rewrite <- app_assoc).
  destruct keep; cbn zeta.
  - destruct (response_entries s e e_ok s_whole es (rt_ok _ _ _ whole_true) x to) as [Hto Hb]; [rewrite Ew; set_solver|done|].
    assert (Eto : entry_loc entry = to). { pose proof (as_entry_location entry) as El. rewrite Ee, Ex in El. by injection El. }
    destruct (good_entry sv2 entry Hg2) as (sv' & E' & Hg' & Ew' & Es' & Hc').
    + rewrite Eto. split; [done|by apply part_in].
    + rewrite Eto. intros x' Hx'. apply (taken_before pre x rest to absences sv Ht Ew Ex). simpl in Hx'. by rewrite E1 in Hx'.
    + intros p ->. simpl in Ee. subst x. simpl in Ex. injection Ex as Ex. assert (Hw : W (loc_of p) = Some p) by (apply Hp; by rewrite ?Ex).
      split; [done|]. simpl in Ek. by rewrite Hw in Ek.
    + exists sv'. split; [done|]. split; [|by split]. split; try done. exists (ws ++ [entry]).
      rewrite Ew'. simpl. rewrite E1, Ews, map_app, Em, List.filter_app. simpl. rewrite Ek, Ee. by rewrite app_assoc.
  - exists sv2. split; [done|]. split; [|done]. split; try done. exists ws. rewrite List.filter_app. simpl. rewrite Ek, app_nil_r. split; [|done].
    simpl. by rewrite E1.
Qed.

Lemma take_events_true n events : forall pre absences sv,
  es = pre ++ fst (response_of events) -> snd (response_of whole) = snd (response_of events) ->
  (forall p, UFE_Object p ∈ events -> W (loc_of p) = Some p) -> taken pre absences sv ->
  exists sv' absences' closed pre',
    take_events group_order filter cancel others publisher gone true (fun _ => true) n events absences sv = Ok (sv', absences', closed) /\
    taken pre' absences' sv' /\ carries sv sv' /\ (closed = true -> pre' = es /\ snd (response_of whole) = true) /\
    (stop_reason sv' = FS_Running -> stop_reason sv = FS_Running /\ pre' = es /\ closed = snd (response_of whole)).
Proof.
  induction events as [|x events IH]; intros pre absences sv Ew Eb Hev Ht.
  all: destruct (look_true sv (tk_good _ _ _ Ht)) as (sv0 & El & Hg0 & Ew0 & Es0 & Hc0); cbn [take_events]; rewrite El.
  all: destruct (is_running (cancel (sv_looks sv))) eqn:Er; cbn [negb];
    [|exists (set_stop sv0 (cancel (sv_looks sv))), absences, false, pre; split_and!; [done|by eapply taken_same; [done|apply good_set_stop|]|done|done|];
      simpl; intros E; by rewrite E in Er].
  all: assert (Ht0 : taken pre absences sv0) by by eapply taken_same.
  all: rewrite <- Es0; clear El Er.
  all: assert (Hdone : forall c, c = snd (response_of whole) -> es = pre -> exists sv' absences' closed pre',
    Ok (sv0, absences, c) = Ok (A:=Serving*ResponseAbsences*bool) (E:=TerminationCode) (sv', absences', closed) /\
    taken pre' absences' sv' /\ carries sv sv' /\ (closed = true -> pre' = es /\ snd (response_of whole) = true) /\
    (stop_reason sv' = FS_Running -> stop_reason sv0 = FS_Running /\ pre' = es /\ closed = snd (response_of whole)))
    by (intros c -> Ep; exists sv0, absences, (snd (response_of whole)), pre; split_and!; done).
  { apply Hdone; [by rewrite Eb|]. rewrite Ew. simpl. by rewrite app_nil_r. }
  assert (Hev' : forall p, UFE_Object p ∈ events -> W (loc_of p) = Some p) by (intros p Hp; apply Hev; by right).
  destruct x as [a|p|k l| | |]; simpl in Ew, Eb.
  - destruct (response_of events) as [r b] eqn:Erest. simpl in Ew, Eb.
    pose proof (response_at s e es pre _ _ s_ok e_ok s_whole (rt_ok _ _ _ whole_true) Ew) as Ha. simpl in Ha. destruct Ha as (a' & [= <-] & Ha).
    destruct (IH (pre ++ [RE_Accepted a]) (on_fetch_ok absences a) sv0) as (sv' & ab & c & pre' & E' & Ht' & Hc' & Hcl & Hrun); [by rewrite <- app_assoc|done|done| |].
    { destruct Ht0 as [Hg Hh Hp (ws & Hws & Em)]. split; [done|by apply heard_accepted|exists r; by rewrite <- app_assoc|].
      exists ws. rewrite List.filter_app. simpl. by rewrite app_nil_r. }
    exists sv', ab, c, pre'. split_and!; try done. by etrans.
  - destruct (response_of events) as [r b] eqn:Erest. simpl in Ew, Eb. pose proof (Hev p ltac:(by left)) as Hwp.
    set (sv1 := match try_from_fetch p (t_relay_track_id (sv_track sv0)) with Ok fetched => on_track sv0 (cache_fetched_object (sv_track sv0) fetched) | _ => sv0 end).
    assert (Hsv1 : good sv1 /\ sv_written sv1 = sv_written sv0 /\ stop_reason sv1 = stop_reason sv0 /\ carries sv0 sv1).
    { unfold sv1. destruct (try_from_fetch _ _) as [o| | |] eqn:Et; split_and!; try done. apply good_on_track; [done|].
      apply (cache_fetched_true _ p); [apply Hg0|done|done]. }
    destruct Hsv1 as (Hg1 & Ew1 & Es1 & Hc1).
    destruct (entry_marked pre _ r (loc_of p) absences sv0 Ht0 Ew eq_refl) as (spans & Estep & Hh & Hm).
    pose proof (on_entry absences (RE_Object (loc_of p)) _ spans eq_refl Estep) as Eon. simpl in Eon. unfold loc_of in Eon at 1. rewrite Eon. cbn [lift_panics obind fst snd].
    destruct (entry_taken pre (RE_Object (loc_of p)) r (loc_of p) absences sv0 sv1 (FO_Object p) (matches filter (object_fields p)) spans)
      as (sv2 & E2 & Ht2 & Es2 & Hc2); try done; [simpl; by rewrite Hwp|by intros ? _ [= <-]|].
    destruct (IH (pre ++ [RE_Object (loc_of p)]) (with_last absences (loc_of p)) sv2) as (sv' & ab & c & pre' & E' & Ht' & Hc' & Hcl & Hrun);
      [by rewrite <- app_assoc|done|done|done|].
    exists sv', ab, c, pre'. split_and!; try done.
    + destruct (matches filter (object_fields p)); cbn [negb]; cbn zeta in E2.
      * rewrite E2. exact E'.
      * injection E2 as <-. exact E'.
    + by repeat (etrans; [eassumption|]).
    + intros Hr. destruct (Hrun Hr) as (? & ? & ?). split_and!; congruence.
  - destruct (response_of events) as [r b] eqn:Erest. simpl in Ew, Eb.
    destruct (entry_marked pre _ r l absences sv0 Ht0 Ew eq_refl) as (spans & Estep & Hh & Hm).
    pose proof (on_entry absences (RE_Marker k l) _ spans eq_refl Estep) as Eon. simpl in Eon. rewrite Eon. cbn [lift_panics obind fst snd].
    destruct (entry_taken pre (RE_Marker k l) r l absences sv0 sv0 (FO_EndOfRange k (group l) (object l)) true spans)
      as (sv2 & E2 & Ht2 & Es2 & Hc2); try done; [by destruct l|].
    destruct (IH (pre ++ [RE_Marker k l]) (with_last absences l) sv2) as (sv' & ab & c & pre' & E' & Ht' & Hc' & Hcl & Hrun);
      [by rewrite <- app_assoc|done|done|done|].
    cbn zeta in E2. rewrite E2. cbn [obind]. exists sv', ab, c, pre'. split_and!; try done.
    + by repeat (etrans; [eassumption|]).
    + intros Hr. destruct (Hrun Hr) as (? & ? & ?). split_and!; congruence.
  - apply Hdone; [by rewrite Eb|]. simpl in Ew. by rewrite Ew, app_nil_r.
  - exists (set_stop (on_track sv0 (handle_malformed_upstream_fetch gone (publisher n) (sv_track sv0))) FS_MalformedTrack), absences, false, pre.
    split_and!; try done. eapply taken_same; [exact Ht0| |done]. apply good_set_stop, good_on_track; [done|]. apply malformed_true, Hg0.
  - apply Hdone; [by rewrite Eb|]. simpl in Ew. by rewrite Ew, app_nil_r.
Qed.
End Response.

(** ** Gaps *)

(** What became of a part of the range: it was written after what was written before,
    and all of it told, unless the delivery was stopped. *)
Record dealt (gs ge : Z) (sv sv' : Serving) : Prop := {
  dl_good : good sv';
  dl_written : exists ws, sv_written sv' = sv_written sv ++ ws /\ forall x, x ∈ ws -> gs <= group (entry_loc x) <= ge;
  dl_stop : stop_reason sv' = FS_Running -> stop_reason sv = FS_Running;
  dl_told : stop_reason sv' = FS_Running -> forall l, in_range l -> gs <= group l <= ge -> told (map as_entry (sv_written sv')) l
}.

(** All that is written comes before the groups [gs] to [ge]. *)
Definition before_groups (gs ge : Z) (es : list FetchObject) : Prop :=
  forall x, x ∈ es -> if d then ge < group (entry_loc x) else group (entry_loc x) < gs.

Lemma before_groups_rank gs ge sv : good sv -> before_groups gs ge (sv_written sv) ->
  forall x l, x ∈ sv_written sv -> loc_ok l -> gs <= group l <= ge -> rank d (entry_loc x) < rank d l.
Proof.
  intros [Hw _] Hb x l Hx Hl Hg. destruct (wo_range _ Hw x Hx) as [Hxl _]. apply rank_lt_any; [done..|]. left.
  specialize (Hb x Hx). simpl in Hb. destruct d; lia.
Qed.

Lemma part_groups s e l : loc_ok s -> loc_ok e -> loc_ok l -> between_locations s e l -> group s <= group l <= group e.
Proof. intros Hs He Hl [H1 H2]. split; by apply groups_ordered. Qed.

Lemma told_after w ws l : (forall x, x ∈ w -> rank d (entry_loc x) < rank d l) -> told (map as_entry ws) l -> told (map as_entry (w ++ ws)) l.
Proof.
  intros Hw Ht. rewrite map_app. apply told_append; [|done]. intros x (y & -> & Hy)%list_elem_of_fmap.
  unfold speaks_for. rewrite as_entry_location. apply Z.leb_gt. by apply Hw.
Qed.

(** The marker that stands for what could not be brought in. *)
Lemma unfilled_written gs ge sv : group from <= gs -> gs <= ge -> ge <= group end_location -> good sv ->
  (forall x, x ∈ sv_written sv -> rank d (entry_loc x) < rank d (last_delivered gs ge from end_location d)) ->
  exists sv', write_entry group_order true (fun _ => true) (unfilled start_location end_location group_order gs ge) sv = Ok sv' /\
    good sv' /\ sv_written sv' = sv_written sv ++ [unfilled start_location end_location group_order gs ge] /\
    stop_reason sv' = stop_reason sv /\ carries sv sv' /\
    as_entry (unfilled start_location end_location group_order gs ge) = RE_Marker ERK_Unknown (last_delivered gs ge from end_location d) /\
    gs <= group (last_delivered gs ge from end_location d) <= ge.
Proof.
  intros H1 H2 H3 Hg Hr. pose proof (last_delivered_spec gs ge H1 H2 H3) as Hl. pose proof (part_spec gs ge H1 H2 H3) as Hp.
  destruct (requested_part gs ge from end_location) as [s e]. destruct Hp as (Hs & He & <- & <- & _ & _ & Hin & _). destruct Hl as (Hm & Hb & _).
  unfold unfilled, unknown_up_to. fold from. change (descends group_order) with d. set (m := last_delivered _ _ from end_location d) in *.
  assert (Em : mkLocation (group m) (object m) = m) by (by destruct m).
  destruct (good_entry sv (FO_EndOfRange ERK_Unknown (group m) (object m)) Hg) as (sv' & E & Hg' & Ew & Es & Hc).
  - simpl. rewrite Em. split; [done|by apply Hin].
  - simpl. by rewrite Em.
  - done.
  - pose proof (part_groups s e m Hs He Hm Hb). exists sv'. split_and!; try done; try lia. simpl. by rewrite Em.
Qed.

Lemma gap_unfilled gs ge sv : group from <= gs -> gs <= ge -> ge <= group end_location -> good sv -> before_groups gs ge (sv_written sv) ->
  exists sv', write_entry group_order true (fun _ => true) (unfilled start_location end_location group_order gs ge) sv = Ok sv' /\
    dealt gs ge sv sv' /\ carries sv sv' /\ stop_reason sv' = stop_reason sv.
Proof.
  intros H1 H2 H3 Hg Hb. pose proof (last_delivered_spec gs ge H1 H2 H3) as Hl. pose proof (part_spec gs ge H1 H2 H3) as Hp.
  pose proof (before_groups_rank gs ge sv Hg Hb) as Hr.
  destruct (requested_part gs ge from end_location) as [s e]. destruct Hp as (Hs & He & Esg & Eeg & _ & _ & _ & Hout). destruct Hl as (Hm & Hmb & Hmax).
  destruct (unfilled_written gs ge sv H1 H2 H3 Hg) as (sv' & E & Hg' & Ew & Es & Hc & Ea & Hmg).
  { intros x Hx. apply Hr; [done..|]. pose proof (part_groups s e _ Hs He Hm Hmb) as Hmg. by rewrite Esg, Eeg in Hmg. }
  exists sv'. split_and!; try done. split; [done| |by rewrite Es|].
  - eexists. split; [exact Ew|]. intros x ->%list_elem_of_singleton. exact Hmg.
  - intros _ l Hl Hlg. rewrite Ew. apply told_after.
    + intros x Hx. apply Hr; [done|apply Hl|done].
    + cbn [map]. rewrite Ea. unfold told. simpl. unfold speaks_for. simpl. rewrite (proj2 (Z.leb_le _ _)); [done|]. apply Hmax; [apply Hl|by apply Hout].
Qed.

(** The last entry speaks for all before it; an entry that is not the last is before the end. *)
Lemma last_speaks es m l : last (omap entry_location es) = Some m -> rank d l <= rank d m -> List.find (speaks_for d l) es <> None.
Proof.
  intros Em Hle Hn. apply last_Some_elem_of in Em. apply list_elem_of_omap in Em as (x & Hx & Ex). apply list_elem_of_In in Hx.
  pose proof (List.find_none _ _ Hn x Hx) as Hs. unfold speaks_for in Hs. rewrite Ex in Hs. apply Z.leb_gt in Hs. lia.
Qed.
Lemma not_last s e : loc_ok s -> loc_ok e -> delivered_start s e group_order = s -> forall es, response_ok s e group_order es ->
  forall m, loc_ok m -> between_locations s e m -> (forall l, loc_ok l -> between_locations s e l -> rank d l <= rank d m) ->
  last (omap entry_location es) <> Some m -> forall x l, x ∈ es -> entry_location x = Some l -> rank d l < rank d m.
Proof.
  intros Hs He Hwh es Hok m Hm Hmb Hmax Hl x l Hx Ex. pose proof (response_entries s e He Hwh es Hok) as Hent.
  destruct (Hent x l Hx Ex) as [Hlo Hlb]. pose proof (Hmax l Hlo Hlb). enough (rank d l <> rank d m) by lia. intros Eq.
  apply rank_inj in Eq as ->; [|done..]. assert (Hin : m ∈ omap entry_location es) by (apply list_elem_of_omap; by exists x).
  destruct (last (omap entry_location es)) as [m'|] eqn:El; [|by apply last_None in El; rewrite El in Hin; apply elem_of_nil in Hin].
  destruct Hok as (_ & _ & Hsort). pose proof (sorted_last _ _ m' m Hsort El Hin) as Hle.
  apply last_Some_elem_of, list_elem_of_omap in El as (y & Hy & Ey). destruct (Hent y m' Hy Ey) as [Hm' Hmb'].
  pose proof (rank_part s e m' m Hs He Hm' Hm Hmb' Hmb) as Hrp. unfold part_descends in Hrp. pose proof (Hmax m' Hm' Hmb').
  assert (Eq : rank d m' = rank d m) by lia. apply rank_inj in Eq as ->; [|done..]. done.
Qed.

Lemma take_response_true n gs ge whole sv : group from <= gs -> gs <= ge -> ge <= group end_location -> good sv -> before_groups gs ge (sv_written sv) ->
  let '(s, e) := requested_part gs ge from end_location in response_true s e whole ->
  exists sv', take_response start_location end_location group_order filter cancel others publisher gone true (fun _ => true) n gs ge whole
      (ResponseAbsences_new s e group_order) sv = Ok sv' /\ dealt gs ge sv sv' /\ carries sv sv'.
Proof.
  intros H1 H2 H3 Hg Hbef. pose proof (last_delivered_spec gs ge H1 H2 H3) as Hlast. pose proof (part_spec gs ge H1 H2 H3) as Hp.
  pose proof (before_groups_rank gs ge sv Hg Hbef) as Hr.
  destruct (requested_part gs ge from end_location) as [s e]. destruct Hp as (Hs & He & Esg & Eeg & Hse & Hwh & Hin & Hout). destruct Hlast as (Hm & Hmb & Hmax).
  intros Htrue. set (es := fst (response_of whole)).
  assert (Hr' : forall x l, x ∈ sv_written sv -> loc_ok l -> between_locations s e l -> rank d (entry_loc x) < rank d l).
  { intros x l Hx Hl Hb. apply Hr; [done..|]. pose proof (part_groups s e l Hs He Hl Hb) as Hlg. by rewrite Esg, Eeg in Hlg. }
  assert (Ht : taken s e whole (sv_written sv) [] (ResponseAbsences_new s e group_order) sv).
  { split; [done|by apply heard_new|by eexists|]. exists []. by rewrite app_nil_r. }
  destruct (take_events_true s e Hs He Hwh Hin whole Htrue (sv_written sv) Hr' n whole [] _ sv eq_refl eq_refl (rt_objects _ _ _ Htrue) Ht)
    as (sv1 & ab & closed & pre & E1 & Ht1 & Hc1 & Hclosed & Hrun).
  unfold take_response. rewrite E1. cbn [obind]. pose proof (rt_ok _ _ _ Htrue) as Hok. fold es in Hok, Hrun, Hclosed.
  pose proof Ht1 as [Hg1 Hh1 (rest & Epre) (ws & Ews & Em)].
  destruct (look_true sv1 Hg1) as (sv2 & E2 & Hg2 & Ew2 & Es2 & Hc2). rewrite E2.
  set (sv3 := if is_running (cancel (sv_looks sv1)) then sv2 else set_stop sv2 (cancel (sv_looks sv1))).
  fold from. change (descends group_order) with d. set (m := last_delivered gs ge from end_location d) in *.
  assert (H3' : good sv3 /\ sv_written sv3 = sv_written sv1 /\ carries sv sv3 /\ (stop_reason sv3 = FS_Running -> stop_reason sv1 = FS_Running)).
  { assert (Hc : carries sv sv2) by by etrans. unfold sv3. destruct (is_running _) eqn:Er.
    - split_and!; [done..|by rewrite Es2].
    - split_and!; [by apply good_set_stop|done..|]. simpl. intros E. by rewrite E in Er. }
  clearbody sv3. destruct H3' as (Hg3 & Ew3 & Hc3 & Hrun3). clear E1 E2.
  assert (Hws : forall x, x ∈ ws -> as_entry x ∈ es).
  { intros x Hx. unfold es. rewrite Epre. apply elem_of_app. left. assert (Hx' : as_entry x ∈ map as_entry ws) by (apply list_elem_of_fmap; by exists x).
    rewrite Em in Hx'. by apply in_filter in Hx' as [? _]. }
  assert (Hwsg : forall x, x ∈ ws -> loc_ok (entry_loc x) /\ between_locations s e (entry_loc x)).
  { intros x Hx. apply (response_entries s e He Hwh es Hok (as_entry x)); [by apply Hws|apply as_entry_location]. }
  assert (Hdealt : exists sv4, (if is_running (stop_reason sv3) && negb ((closed && ra_fetch_ok ab) || bool_decide (ra_last ab = Some m))
      then write_entry group_order true (fun _ => true) (unfilled start_location end_location group_order gs ge) sv3 else Ok sv3) = Ok sv4 /\
      dealt gs ge sv sv4 /\ carries sv sv4).
  { assert (Hws' : forall x, x ∈ ws -> gs <= group (entry_loc x) <= ge).
    { intros x Hx. destruct (Hwsg x Hx) as [Hl Hb]. pose proof (part_groups s e _ Hs He Hl Hb) as Hlg. by rewrite Esg, Eeg in Hlg. }
    destruct (is_running (stop_reason sv3)) eqn:Er; cbn [andb]; cycle 1.
    { exists sv3. split_and!; [done| |done]. assert (Hno : stop_reason sv3 = FS_Running -> False) by (intros E; by rewrite E in Er).
      split; [done| |by intros ?%Hno..]. exists ws. by rewrite Ew3, Ews. }
    assert (Er3 : stop_reason sv3 = FS_Running) by (by destruct (stop_reason sv3)).
    destruct (Hrun (Hrun3 Er3)) as (Er0 & -> & Ecl). pose proof (he_last _ _ _ _ Hh1) as Hl. rewrite Hl, (he_fetch_ok _ _ _ _ Hh1).
    destruct (_ || _) eqn:Edel; cbn [negb].
    - exists sv3. split_and!; [done| |done]. split; [done|exists ws; by rewrite Ew3, Ews|done|]. intros _ l Hlr Hlg. rewrite Ew3, Ews.
      pose proof (Hout l Hlr Hlg) as Hlb. apply told_after; [intros x Hx; apply Hr'; [done|apply Hlr|done]|]. rewrite Em.
      apply (told_filtered s e); [done..|apply Hlr|done|]. fold es. rewrite Ecl in Edel. apply orb_true_iff in Edel as [?|Elast%bool_decide_eq_true]; [by left|right].
      eapply last_speaks; [exact Elast|]. apply Hmax; [apply Hlr|done].
    - apply orb_false_iff in Edel as [_ Elast%bool_decide_eq_false].
      destruct (unfilled_written gs ge sv3 H1 H2 H3 Hg3) as (sv4 & E & Hg4 & Ew4 & Es4 & Hc4 & Ea & Hmg).
      { intros x Hx. rewrite Ew3, Ews in Hx. fold m. apply elem_of_app in Hx as [Hx|Hx]; [by apply Hr'|].
        eapply (not_last s e Hs He Hwh es); try done; [by apply Hws|]. apply as_entry_location. }
      exists sv4. split_and!; [done| |by etrans]. split; [done| |by rewrite Es4|].
      + eexists (ws ++ [_]). rewrite Ew4, Ew3, Ews, <- app_assoc. split; [done|].
        intros x [Hx| ->%list_elem_of_singleton]%elem_of_app; [by apply Hws'|done].
      + intros _ l Hlr Hlg. pose proof (Hout l Hlr Hlg) as Hlb. rewrite Ew4, Ew3, Ews, <- app_assoc. apply told_after; [intros x Hx; apply Hr'; [done|apply Hlr|done]|].
        rewrite map_app, Em. cbn [map]. rewrite Ea. apply (told_unfilled s e); [done..|apply Hlr|done|]. apply Hmax; [apply Hlr|done]. }
  destruct Hdealt as (sv4 & E4 & Hd4 & Hc4). rewrite E4. cbn [obind].
  assert (Hend : exists spans, on_end ab closed = Ok spans /\ forall t, track_true t -> track_true (mark_all t spans)).
  { destruct closed; [|exists []; by split]. destruct (Hclosed eq_refl) as [-> Eo].
    destruct (heard_end s e es ab true Hs He Hwh Hok Hh1) as (spans & Esp & Hsp & Hcov). exists spans. split; [done|].
    intros t Htr. apply mark_all_true; [done..|]. intros l Hl Hcl. destruct (Hcov l Hl Hcl) as [Hb Hst].
    apply (rt_absent _ _ _ Htrue l Hl Hb). by rewrite Eo. }
  destruct Hend as (spans & -> & Hmark). cbn [lift_panics obind].
  destruct (stop_reason sv4) eqn:Es4; try (exists sv4; by split_and!).
  all: exists (on_track sv4 (mark_all (sv_track sv4) spans)); split_and!; [done| |done].
  all: destruct Hd4 as [Hg4 Hw4 Hs4 Ht4]; split; [apply good_on_track; [done|apply Hmark, Hg4]|done..].
Qed.

(** ** A group from the cache *)

Lemma cached_group sv g : good sv -> group from <= g <= group end_location ->
  exists r, cached start_location end_location group_order sv g = Ok r /\
    forall v, r = Some v ->
      StronglySorted id_lt v /\
      (forall p, p ∈ v -> fp_group_id p = g /\ W (loc_of p) = Some p /\ in_range (loc_of p)) /\
      (forall l, in_range l -> group l = g -> W l = None \/ exists p, p ∈ v /\ fp_object_id p = object l).
Proof.
  intros [_ Ht] [H1 H2]. pose proof (part_spec g g H1 ltac:(lia) H2) as Hp.
  assert (Hg : is_u64 g). { destruct from_spec as ([? _] & _), end_ok as [? _]. unfold is_u64 in *. lia. }
  pose proof (cached_true sv g Ht Hg) as Hc. unfold objects_wanted in Hc.
  destruct (requested_part g g from end_location) as [s e]. destruct Hp as (Hs & He & Esg & Eeg & Hse & _ & Hin & Hout).
  destruct Hs as [_ Hso], He as [_ Heo]. destruct (Hc Hso Heo) as (r & Er & Hr). exists r. split; [done|]. intros v Hv.
  destruct (Hr v Hv) as (Hsort & Hmem & Hacc). split_and!; [done| |].
  - intros p Hp. destruct (Hmem p Hp) as (Epg & Hpo & Hw). split_and!; [done..|]. split.
    + unfold loc_of, loc_ok, is_u64 in *. simpl. lia.
    + apply Hin. unfold between_locations, pos, loc_of. simpl. rewrite Esg, Eeg, Epg. lia.
  - intros l Hl El. pose proof (Hout l Hl ltac:(lia)) as Hb. assert (Eta : mkLocation g (object l) = l) by (destruct l; simpl in *; congruence).
    rewrite <- Eta at 1. apply Hacc. unfold between_locations, pos in Hb. rewrite Esg, Eeg, El in Hb. lia.
Qed.

Lemma write_cached_true g v : forall sv, good sv -> StronglySorted id_lt v ->
  (forall p, p ∈ v -> fp_group_id p = g /\ W (loc_of p) = Some p /\ in_range (loc_of p)) ->
  (forall x p, x ∈ sv_written sv -> p ∈ v -> rank d (entry_loc x) < rank d (loc_of p)) ->
  exists sv', write_cached group_order filter cancel others true (fun _ => true) v sv = Ok sv' /\ good sv' /\ carries sv sv' /\
    exists ws, sv_written sv' = sv_written sv ++ ws /\ (forall x, x ∈ ws -> group (entry_loc x) = g) /\
      (stop_reason sv' = FS_Running -> stop_reason sv = FS_Running /\
         ws = map FO_Object (List.filter (fun p => matches filter (object_fields p)) v)).
Proof.
  induction v as [|p v IH]; intros sv Hg Hs Hv Hb.
  { exists sv. split_and!; [done..|]. exists []. rewrite app_nil_r. by split_and!; [|intros ? ?%elem_of_nil|]. }
  apply StronglySorted_inv in Hs as [Hs Hlt]. rewrite Forall_forall in Hlt.
  assert (Hv' : forall p, p ∈ v -> fp_group_id p = g /\ W (loc_of p) = Some p /\ in_range (loc_of p)) by (intros; apply Hv; by right).
  destruct (Hv p ltac:(by left)) as (Epg & Hpw & Hpr).
  destruct (look_true sv Hg) as (sv1 & El & Hg1 & Ew1 & Es1 & Hc1). cbn [write_cached]. rewrite El.
  destruct (is_running (cancel (sv_looks sv))) eqn:Er; cbn [negb]; cycle 1.
  { eexists. split; [reflexivity|]. split; [by apply good_set_stop|]. split; [done|]. exists []. rewrite app_nil_r. simpl.
    split_and!; [done|by intros ? ?%elem_of_nil|]. intros E. by rewrite E in Er. }
  cbn [List.filter]. destruct (matches filter (object_fields p)) eqn:Em; cbn [negb].
  - destruct (good_entry sv1 (FO_Object p) Hg1 Hpr) as (sv2 & E2 & Hg2 & Ew2 & Es2 & Hc2).
    + intros x Hx. rewrite Ew1 in Hx. by apply Hb; [|left].
    + by intros ? [= <-].
    + rewrite E2. cbn [obind]. destruct (IH sv2 Hg2 Hs Hv') as (sv' & E' & Hg' & Hc' & ws & Ews & Hws & Hrun).
      * intros x q Hx Hq. rewrite Ew2, Ew1 in Hx. apply elem_of_app in Hx as [Hx|Hx]; [by apply Hb; [|right]|].
        apply list_elem_of_singleton in Hx as ->. destruct (Hv' q Hq) as (Eqg & _ & [Hql _]). destruct Hpr as [Hpl _].
        apply rank_lt_any; [done..|]. right. simpl. split; [congruence|]. by apply Hlt.
      * exists sv'. split_and!; [done..|by repeat (etrans; [eassumption|])|]. exists (FO_Object p :: ws).
        rewrite Ews, Ew2, Ew1, <- app_assoc. split_and!; [done|by intros x [-> |?]%elem_of_cons; [|apply Hws]|].
        intros Hr. destruct (Hrun Hr) as [Hr' ->]. split; [congruence|done].
  - destruct (IH sv1 Hg1 Hs Hv') as (sv' & E' & Hg' & Hc' & ws & Ews & Hws & Hrun).
    + intros x q Hx Hq. rewrite Ew1 in Hx. by apply Hb; [|right].
    + exists sv'. split_and!; [done..|by etrans|]. exists ws. rewrite Ews, Ew1. split_and!; [done..|].
      intros Hr. destruct (Hrun Hr) as [Hr' ->]. split; [congruence|done].
Qed.

Lemma hit_true sv g v : good sv -> group from <= g <= group end_location -> before_groups g g (sv_written sv) ->
  cached start_location end_location group_order sv g = Ok (Some v) ->
  exists sv', write_cached group_order filter cancel others true (fun _ => true) v sv = Ok sv' /\ dealt g g sv sv' /\ carries sv sv'.
Proof.
  intros Hg Hgr Hb Ec. destruct (cached_group sv g Hg Hgr) as (r & E & Hr). rewrite Ec in E. injection E as <-.
  destruct (Hr v eq_refl) as (Hs & Hv & Hacc). pose proof (before_groups_rank g g sv Hg Hb) as Hrk.
  destruct (write_cached_true g v sv Hg Hs Hv) as (sv' & E' & Hg' & Hc' & ws & Ews & Hws & Hrun).
  { intros x p Hx Hp. destruct (Hv p Hp) as (Ep & _ & [Hl _]). apply Hrk; [done..|]. simpl. lia. }
  exists sv'. split_and!; [done| |done]. split; [done| |by intros [? _]%Hrun|].
  - exists ws. split; [done|]. intros x ->%Hws. lia.
  - intros Hr' l Hl Hlg. destruct (Hrun Hr') as [_ ->]. rewrite Ews. apply told_after.
    + intros x Hx. apply Hrk; [done|apply Hl|done].
    + assert (El : group l = g) by lia. apply (told_cached v g); [done| |done|apply Hl|by apply Hacc].
      intros p Hp. destruct (Hv p Hp) as (? & ? & _). done.
Qed.

(** ** Finding a gap *)

Definition answers (sv : Serving) : Prop := forall g, group from <= g <= group end_location ->
  exists r, cached start_location end_location group_order sv g = Ok r.

Lemma scan_down_ok sv : answers sv -> forall fuel g, group from <= g <= group end_location -> g - group from <= Z.of_nat fuel ->
  exists g', scan_down start_location end_location group_order fuel sv g = Ok g' /\ group from <= g' <= g.
Proof.
  intros Hg. induction fuel as [|fuel IH]; intros g Hgr Hf; cbn [scan_down]; fold from.
  - destruct (Z.ltb_spec (group from) g); [lia|]. exists g. split; [done|lia].
  - destruct (Z.ltb_spec (group from) g) as [Hlt|]; [|exists g; split; [done|lia]].
    destruct (Hg (g - 1) ltac:(lia)) as (r & ->). cbn [obind]. destruct (is_some r); [exists g; split; [done|lia]|].
    destruct (IH (g - 1) ltac:(lia) ltac:(lia)) as (g' & -> & ?). exists g'. split; [done|lia].
Qed.
Lemma scan_up_ok sv : answers sv -> forall fuel g, group from <= g <= group end_location -> group end_location - g <= Z.of_nat fuel ->
  exists g', scan_up start_location end_location group_order fuel sv g = Ok g' /\ g <= g' <= group end_location.
Proof.
  intros Hg. induction fuel as [|fuel IH]; intros g Hgr Hf; cbn [scan_up].
  - destruct (Z.ltb_spec g (group end_location)); [lia|]. exists g. split; [done|lia].
  - destruct (Z.ltb_spec g (group end_location)) as [Hlt|]; [|exists g; split; [done|lia]].
    destruct (Hg (g + 1) ltac:(lia)) as (r & ->). cbn [obind]. destruct (is_some r); [exists g; split; [done|lia]|].
    destruct (IH (g + 1) ltac:(lia) ltac:(lia)) as (g' & -> & ?). exists g'. split; [done|lia].
Qed.
Lemma gap_from_ok sv g : answers sv -> group from <= g <= group end_location ->
  exists gs ge, gap_from start_location end_location group_order sv g = Ok (gs, ge) /\
    group from <= gs <= g /\ g <= ge <= group end_location /\ (if d then ge = g else gs = g).
Proof.
  intros Hg Hgr. unfold gap_from. change (descends group_order) with d.
  assert (Hf : Z.of_nat (groups_in_range start_location end_location group_order) = group end_location - group from) by (unfold groups_in_range; fold from; lia).
  destruct d.
  - destruct (scan_down_ok sv Hg (groups_in_range start_location end_location group_order) g Hgr) as (g' & -> & ?); [lia|].
    exists g', g. split_and!; (done || lia).
  - destruct (scan_up_ok sv Hg (groups_in_range start_location end_location group_order) g Hgr) as (g' & -> & ?); [lia|].
    exists g, g'. split_and!; (done || lia).
Qed.

(** ** The loop *)

Lemma whole_part : requested_part (group from) (group end_location) from end_location = (from, end_location).
Proof.
  destruct from_spec as (Hf & _ & _ & _). pose proof end_ok as He. unfold requested_part, Location_max, Location_min. f_equal.
  - destruct (Location_leb _ from) eqn:E; [done|]. exfalso. apply not_true_iff_false in E. apply E. destruct Hf as [Hg [Ho ?]]. apply Location_leb_pos.
    + by split.
    + by split.
    + unfold pos. simpl. lia.
  - destruct (Location_leb _ end_location) eqn:E; [|done]. destruct He as [Hg [? Ho]]. apply Location_leb_pos in E; [|by split|done].
    unfold pos in E. simpl in E. destruct end_location as [g o]. simpl in *. f_equal. lia.
Qed.

(** A publisher tells the truth of the parts of the range that it is asked for. *)
Definition part_of (s e : Location) : Prop :=
  loc_ok s /\ loc_ok e /\ pos s <= pos e /\ between_locations from end_location s /\ between_locations from end_location e /\
  delivered_start s e group_order = s.
Hypothesis ask_true : forall n s e events, part_of s e ->
  ask n (range_filter s e) (upstream_order group_order) = Some events -> response_true s e events.

Lemma requested_part_of gs ge : group from <= gs -> gs <= ge -> ge <= group end_location ->
  let '(s, e) := requested_part gs ge from end_location in part_of s e.
Proof.
  intros H1 H2 H3. pose proof (part_spec gs ge H1 H2 H3) as Hp. destruct (requested_part gs ge from end_location) as [s e].
  destruct Hp as (? & ? & _ & _ & ? & ? & Hin & _). split_and!; try done; apply Hin; split; lia.
Qed.

(** The response that was on its way when the delivery began covers all of the range:
    it is used first, if at all. *)
Definition pending_ok (sv : Serving) : Prop :=
  match pending_upstream sv with
  | Some events => response_true from end_location events /\ (max_upstream_fetch_gaps <= upstream_gap_count sv \/ sv_written sv = [])
  | None => True
  end.

Lemma carries_pending sv sv' : carries sv sv' -> pending_ok sv ->
  (pending_upstream sv <> None -> max_upstream_fetch_gaps <= upstream_gap_count sv \/ sv_written sv' = []) -> pending_ok sv'.
Proof.
  intros (E1 & E2 & _). unfold pending_ok. rewrite E1, E2. destruct (pending_upstream sv); [|done]. intros [? _] Hw. split; [done|by apply Hw].
Qed.

Lemma fill_gap_true gs ge sv : group from <= gs -> gs <= ge -> ge <= group end_location -> good sv -> pending_ok sv ->
  before_groups gs ge (sv_written sv) ->
  exists sv' gs' ge', fill_gap start_location end_location group_order filter max_upstream_fetch_gaps cancel others ask publisher gone true
      (fun _ => true) gs ge sv = Ok (sv', gs', ge') /\
    dealt gs' ge' sv sv' /\ pending_ok sv' /\ group from <= gs' <= gs /\ ge <= ge' <= group end_location.
Proof.
  intros H1 H2 H3 Hg Hp Hb. unfold fill_gap. destruct (Z.leb_spec max_upstream_fetch_gaps (upstream_gap_count sv)) as [Hmax|Hmax].
  { destruct (gap_unfilled gs ge sv H1 H2 H3 Hg Hb) as (sv' & -> & Hd & Hc & _). cbn [obind]. exists sv', gs, ge. split_and!; try (done || lia).
    apply (carries_pending sv); [done..|]. by left. }
  assert (Hgc : good (counted sv)) by (destruct Hg as [Hw Ht]; split; [by apply (same_writer sv)|done]).
  assert (Hafter : forall gs' ge' sv', dealt gs' ge' (counted sv) sv' -> carries (counted sv) sv' -> dealt gs' ge' sv sv' /\ pending_ok sv').
  { intros gs' ge' sv' [? ? ? ?] (Hc & _). split; [by split|]. unfold pending_ok. by rewrite Hc. }
  destruct (pending_upstream sv) as [events|] eqn:Epen.
  - unfold pending_ok in Hp. rewrite Epen in Hp. destruct Hp as (Htrue & [?|Ew]); [lia|].
    pose proof (take_response_true (sv_asks sv) (group from) (group end_location) events (counted sv) ltac:(lia) ltac:(lia) ltac:(lia) Hgc) as Htake.
    rewrite whole_part in Htake. destruct Htake as (sv' & E & Hd & Hc); [|done|].
    { intros x Hx. simpl in Hx. rewrite Ew in Hx. by apply elem_of_nil in Hx. }
    fold from. rewrite E. cbn [obind]. destruct (Hafter _ _ _ Hd Hc). exists sv', (group from), (group end_location). split_and!; (done || lia).
  - pose proof (requested_part_of gs ge H1 H2 H3) as Hpart. fold from.
    pose proof (fun n whole => take_response_true n gs ge whole (counted sv) H1 H2 H3 Hgc Hb) as Htake.
    destruct (requested_part gs ge from end_location) as [s e]. destruct (ask _ _ _) as [events|] eqn:Ea.
    + destruct (Htake (sv_asks sv) events) as (sv' & -> & Hd & Hc); [by eapply ask_true|]. cbn [obind].
      destruct (Hafter _ _ _ Hd Hc). exists sv', gs, ge. split_and!; (done || lia).
    + destruct (gap_unfilled gs ge (counted sv) H1 H2 H3 Hgc Hb) as (sv' & -> & Hd & Hc & _). cbn [obind].
      destruct (Hafter _ _ _ Hd Hc). exists sv', gs, ge. split_and!; (done || lia).
Qed.

(** What a turn comes to. *)
Inductive turned (g : Z) (sv sv' : Serving) : turn_end -> Prop :=
| Turn_waited : sv_written sv' = sv_written sv -> stop_reason sv' = stop_reason sv -> good sv' -> last_waited_group sv <> Some g ->
    last_waited_group sv' = Some g -> turned g sv sv' (TN_Next (Some g))
| Turn_dealt gs ge : group from <= gs <= g -> g <= ge <= group end_location -> dealt gs ge sv sv' ->
    turned g sv sv' (TN_Next (next_after start_location end_location group_order gs ge))
| Turn_stopped gs ge : dealt gs ge sv sv' -> stop_reason sv' <> FS_Running -> turned g sv sv' TN_Break.

Lemma dealt_same gs ge sv1 sv2 sv sv' : sv_written sv1 = sv_written sv2 -> stop_reason sv1 = stop_reason sv2 ->
  good sv' -> sv_written sv' = sv_written sv -> stop_reason sv' = stop_reason sv -> dealt gs ge sv1 sv -> dealt gs ge sv2 sv'.
Proof. intros E1 E2 Hg E3 E4 [_ ? ? ?]. split; [done|by rewrite E3, <- E1|by rewrite E4, <- E2|by rewrite E4, E3]. Qed.

Lemma cache_op_good sv op : good sv -> op_true op -> good (on_track sv (set_cache (sv_track sv) (cache_step (cache (content (sv_track sv))) op))).
Proof. intros Hg Ho. apply good_on_track; [done|]. unfold track_true, set_cache. simpl. apply cache_true_step; [apply Hg|done]. Qed.

Lemma turn_true g sv : group from <= g <= group end_location -> good sv -> pending_ok sv -> before_groups g g (sv_written sv) ->
  exists sv' tn, turn start_location end_location group_order filter max_upstream_fetch_gaps cancel others ask publisher gone true
      (fun _ => true) g sv = Ok (sv', tn) /\ turned g sv sv' tn /\ pending_ok sv'.
Proof.
  intros Hgr Hg Hp Hb. unfold turn.
  destruct (cached_group sv g Hg Hgr) as (r & Er & _). pose proof (fun v => hit_true sv g v Hg Hgr Hb) as Hhit. rewrite Er in Hhit.
  assert (Hh : exists h, match pending_upstream sv with Some _ => Ok None | None => cached start_location end_location group_order sv g end = Ok h /\
      (forall v, h = Some v -> r = Some v /\ pending_upstream sv = None)).
  { destruct (pending_upstream sv); [by exists None|]. exists r. split; [done|]. by intros v ->. }
  destruct Hh as (h & -> & Hh). cbn [obind]. destruct h as [v|].
  { destruct (Hh v eq_refl) as [-> Enp]. destruct (Hhit v eq_refl) as (sv' & -> & Hd & Hc). cbn [obind]. eexists _, _. split; [reflexivity|]. split.
    - by apply Turn_dealt with (gs := g) (ge := g); [lia..|].
    - apply (carries_pending sv); [done..|]. by rewrite Enp. }
  destruct (gap_from_ok sv g) as (gs & ge & -> & H1 & H2 & Hside); [|done|].
  { intros g' Hg'. destruct (cached_group sv g' Hg Hg') as (r' & Er' & _). by exists r'. }
  cbn [obind].
  assert (Hbg : before_groups gs ge (sv_written sv)). { intros x Hx. specialize (Hb x Hx). destruct d; lia. }
  assert (Hfill : forall sv1 (c : option (TrackCache * nat)), good sv1 -> sv_written sv1 = sv_written sv -> stop_reason sv1 = stop_reason sv -> pending_ok sv1 ->
    exists sv' tn, (let? r := fill_gap start_location end_location group_order filter max_upstream_fetch_gaps cancel others ask publisher gone true (fun _ => true) gs ge sv1 in
      let '(sv, gs, ge) := r in
      let sv := match c with Some (_, cl) => on_track sv (set_cache (sv_track sv) (drop_claim (cache (content (sv_track sv))) cl)) | None => sv end in
      Ok (sv, if is_running (stop_reason sv) then TN_Next (next_after start_location end_location group_order gs ge) else TN_Break)) = Ok (sv', tn) /\
      turned g sv sv' tn /\ pending_ok sv').
  { intros sv1 c Hg1 Ew1 Es1 Hp1. destruct (fill_gap_true gs ge sv1) as (sv2 & gs' & ge' & -> & Hd & Hp2 & H3 & H4); try (done || lia); [by rewrite Ew1|].
    cbn [obind]. set (sv3 := match c with Some _ => _ | None => sv2 end).
    assert (H3' : good sv3 /\ sv_written sv3 = sv_written sv2 /\ stop_reason sv3 = stop_reason sv2 /\ pending_ok sv3).
    { unfold sv3. destruct c as [[tc cl]|]; [|split_and!; try done; apply Hd]. split_and!; try done. apply (cache_op_good sv2 (Op_Drop cl)); [apply Hd|done]. }
    clearbody sv3. destruct H3' as (Hg3 & Ew3 & Es3 & Hp3).
    assert (Hd3 : dealt gs' ge' sv sv3) by by eapply dealt_same.
    destruct (is_running (stop_reason sv3)) eqn:Er3; eexists _, _; (split; [reflexivity|]); (split; [|done]).
    - apply (Turn_dealt g sv sv3 gs' ge'); (done || lia).
    - apply (Turn_stopped g sv sv3 gs' ge' Hd3). intros E. by rewrite E in Er3. }
  destruct (pending_upstream sv) as [events|] eqn:Epen; [by apply (Hfill sv None)|].
  destruct (claim_fill (cache (content (sv_track sv))) gs ge) as [tc [claim|busy]] eqn:Ecl; cbn [fst snd].
  - apply (Hfill _ (Some (tc, claim))); try done. pose proof (cache_op_good sv (Op_Claim gs ge) Hg ltac:(done)) as Hgc. simpl in Hgc. by rewrite Ecl in Hgc.
  - destruct (bool_decide (last_waited_group sv = Some g)) eqn:Ew; [by apply (Hfill sv None)|]. apply bool_decide_eq_false in Ew.
    eexists _, _. split; [reflexivity|]. split.
    + apply Turn_waited; try done. destruct Hg as [Hw Ht]. split; [by apply (same_writer sv)|done].
    + unfold pending_ok. simpl. by rewrite Epen.
Qed.

Definition groups_left (g : Z) : Z := if d then g - group from else group end_location - g.

(** What holds before each turn. *)
Record serving_ok (next_group : option Z) (sv : Serving) : Prop := {
  so_good : good sv;
  so_pending : pending_ok sv;
  so_group : forall g, next_group = Some g -> group from <= g <= group end_location /\ before_groups g g (sv_written sv);
  so_told : stop_reason sv = FS_Running -> forall l, in_range l ->
    (forall g, next_group = Some g -> if d then g < group l else group l < g) -> told (map as_entry (sv_written sv)) l
}.

Lemma dealt_next g gs ge sv sv' : serving_ok (Some g) sv -> pending_ok sv' -> group from <= gs <= g -> g <= ge <= group end_location ->
  dealt gs ge sv sv' ->
  serving_ok (next_after start_location end_location group_order gs ge) sv' /\
  forall g', next_after start_location end_location group_order gs ge = Some g' -> groups_left g' < groups_left g.
Proof.
  intros [Hg Hp Hgr Ht] Hp' H1 H2 [Hg' (ws & Ews & Hws) Hst Htold]. destruct (Hgr g eq_refl) as [_ Hb].
  assert (Hnext : forall g', next_after start_location end_location group_order gs ge = Some g' ->
    if d then group from < gs /\ g' = gs - 1 else ge < group end_location /\ g' = ge + 1).
  { intros g'. unfold next_after. fold from. change (descends group_order) with d. destruct d.
    - destruct (Z.ltb_spec (group from) gs); [by intros [= <-]|done].
    - destruct (Z.ltb_spec ge (group end_location)); [by intros [= <-]|done]. }
  split.
  - split; [done|done| |].
    + intros g' Hn%Hnext. split; [destruct d; lia|]. intros x Hx. rewrite Ews in Hx.
      apply elem_of_app in Hx as [Hx|Hx]; [specialize (Hb x Hx)|specialize (Hws x Hx)]; simpl in *; destruct d; lia.
    + intros Hr l Hl Hbef. destruct (decide (gs <= group l <= ge)) as [Hin|Hout]; [by apply Htold|].
      rewrite Ews, map_app. apply told_more, Ht; [by apply Hst|done|]. intros ? [= <-].
      pose proof (proj1 Hl) as Hlo. destruct Hl as [_ [Hl1 Hl2]]. destruct from_spec as (Hf & _). apply groups_ordered in Hl1, Hl2; [|done..].
      unfold next_after in *. revert Hbef Hnext. fold from. change (descends group_order) with d. destruct d; intros Hbef _.
      * destruct (Z.ltb_spec (group from) gs); [specialize (Hbef _ eq_refl)|]; lia.
      * destruct (Z.ltb_spec ge (group end_location)); [specialize (Hbef _ eq_refl)|]; lia.
  - intros g' Hn%Hnext. unfold groups_left. destruct d; lia.
Qed.

Lemma serve_loop_true fuel : forall next_group sv, serving_ok next_group sv ->
  (forall g, next_group = Some g ->
     2 * (groups_left g + 1) - (if bool_decide (last_waited_group sv = Some g) then 1 else 0) <= Z.of_nat fuel) ->
  exists sv', serve_loop start_location end_location group_order filter max_upstream_fetch_gaps cancel others ask publisher gone true
      (fun _ => true) fuel next_group sv = Ok sv' /\ good sv' /\
    (stop_reason sv' = FS_Running -> forall l, in_range l -> told (map as_entry (sv_written sv')) l).
Proof.
  induction fuel as [|fuel IH]; intros [g|] sv Hok Hf; cbn [serve_loop]; try (exists sv; split_and!; [done|apply Hok|]; intros Hr l Hl; by apply (so_told _ _ Hok)).
  all: pose proof Hok as [Hg Hp Hgr Ht]; destruct (look_true sv Hg) as (sv1 & -> & Hg1 & Ew1 & Es1 & Hc1).
  all: destruct (is_running (cancel (sv_looks sv))) eqn:Er; cbn [negb];
    [|eexists; split; [reflexivity|]; split; [by apply good_set_stop|]; simpl; intros E; by rewrite E in Er].
  all: specialize (Hf g eq_refl); destruct (Hgr g eq_refl) as [Hgg Hb].
  { exfalso. assert (0 <= groups_left g) by (unfold groups_left; destruct d; lia). destruct (bool_decide _); lia. }
  assert (Hp1 : pending_ok sv1).
  { apply (carries_pending sv); [done..|]. unfold pending_ok in Hp. rewrite Ew1. by destruct (pending_upstream sv) as [?|]; [intros _; apply Hp|]. }
  assert (Hok1 : serving_ok (Some g) sv1) by (split; [done..|by rewrite Ew1|by rewrite Es1, Ew1]).
  rewrite <- Ew1 in Hb. destruct (turn_true g sv1 Hgg Hg1 Hp1 Hb) as (sv2 & tn & -> & Hturn & Hp2). cbn [obind fst snd].
  destruct Hc1 as (_ & _ & Ewait).
  inversion Hturn as [Ew Es Hg2 Hne Eq|gs ge H1 H2 Hd|gs ge Hd Hns]; subst tn.
  - apply IH.
    + split; [done..|rewrite Ew; apply Hok1|rewrite Ew, Es; apply Hok1].
    + intros g' [= <-]. rewrite Ewait in Hne. rewrite bool_decide_eq_true_2 by done. rewrite bool_decide_eq_false_2 in Hf by done. lia.
  - destruct (dealt_next g gs ge sv1 sv2 Hok1 Hp2 H1 H2 Hd) as [Hok2 Hlt]. apply IH; [done|]. intros g' Hn. specialize (Hlt g' Hn).
    destruct (bool_decide _), (bool_decide _); lia.
  - exists sv2. split_and!; [done|apply Hd|done].
Qed.

(** The loop's beginning. *)
Lemma serving_ok_start t pending : track_true t ->
  match pending with Some events => response_true from end_location events | None => True end ->
  let g := first_group start_location end_location group_order in
  serving_ok (Some g) (mkServing t [] [] None 0 None FS_Running pending 0 0) /\
  2 * (groups_left g + 1) <= Z.of_nat (loop_fuel start_location end_location group_order).
Proof.
  intros Ht Hp. cbn zeta. destruct from_spec as (Hf & _ & Hfe & _). pose proof (groups_ordered _ _ Hf end_ok Hfe) as Hgr.
  unfold first_group, loop_fuel, groups_in_range. change (descends group_order) with d. fold from. split.
  - split.
    + split; [|done]. split; [done|done|apply SSorted_nil|by intros ? ?%elem_of_nil..].
    + unfold pending_ok. simpl. destruct pending; [|done]. split; [done|by right].
    + intros g [= <-]. split; [destruct d; lia|]. by intros ? ?%elem_of_nil.
    + intros _ l [Hl [Hl1 Hl2]] Hbef. specialize (Hbef _ eq_refl). apply groups_ordered in Hl1, Hl2; try done. destruct d; lia.
  - unfold groups_left. destruct d; lia.
Qed.

(** * Properties *)

(** C3: a FETCH tells its subscriber the truth, and all of it.  The published track is
    any function from Locations to Objects.  Whatever the cache held at first and
    whatever other tasks put into it meanwhile, provided that was true of the track,
    and whatever the publishers answer, provided their responses are in order and
    true: the delivery comes to an end within its fuel, without a panic; what is
    written is the FETCH_HEADER and the encoding of entries that follow each other
    strictly in the order asked for, within the range asked for; every Object written
    is the track's own and passes the subscriber's filter; the cache still tells the
    truth.  Unless the delivery was stopped, the stream is finished, and a Location
    of the range that a reader of the entries takes for absent (the first entry at or
    after it is another Object, or marks a range that does not exist, or there is
    none) has no Object that passes the filter: so each one that does is on the
    stream, or in a range that the stream marks unknown. *)
Theorem fetch_stream_truthful request_id t pending claim :
  is_u64 request_id -> track_true t ->
  match pending with Some events => response_true from end_location events | None => True end ->
  exists sv out finish header body,
    serve_fetch_stream start_location end_location group_order filter max_upstream_fetch_gaps cancel others ask publisher gone true
      (fun _ => true) request_id t pending claim = Ok (sv, out, finish) /\
    FetchHeader_serialize (mkFetchHeader request_id) = Ok header /\
    write_entries group_order None (sv_written sv) = Ok body /\ out = header ++ body /\
    StronglySorted (fun e e' => rank d (entry_loc e) < rank d (entry_loc e')) (sv_written sv) /\
    (forall e, e ∈ sv_written sv -> in_range (entry_loc e)) /\
    (forall p, FO_Object p ∈ sv_written sv -> W (loc_of p) = Some p /\ matches filter (object_fields p) = true) /\
    track_true (sv_track sv) /\
    (stop_reason sv = FS_Running -> finish = Some SE_Finished /\ forall l, in_range l -> told (map as_entry (sv_written sv)) l).
Proof.
  intros Hid Ht Hp. destruct (FetchHeader_transmits (mkFetchHeader request_id) Hid) as (header & Eh & _).
  destruct (serving_ok_start t pending Ht Hp) as [Hok Hfuel].
  destruct (serve_loop_true (loop_fuel start_location end_location group_order) _ _ Hok) as (sv & Es & Hg & Htold).
  { intros g [= <-]. destruct (bool_decide _); lia. }
  unfold serve_fetch_stream. rewrite Eh. cbn [obind]. rewrite Es. cbn [obind].
  set (sv' := match claim with Some c => _ | None => sv end).
  assert (Hsv : good sv' /\ sv_written sv' = sv_written sv /\ stop_reason sv' = stop_reason sv).
  { unfold sv'. destruct claim as [c|]; split_and!; try done. by apply (cache_op_good sv (Op_Drop c)). }
  clearbody sv'. destruct Hsv as (Hg' & Ew & Er). pose proof Hg' as [[Hb _ Hs Hr Hw] Htr].
  exists sv', (header ++ sv_out sv'), (stream_end_of true sv'), header, (sv_out sv'). split_and!; try done.
  intros Hrun. split; [unfold stream_end_of; rewrite Hrun; by destruct (negb _)|]. rewrite Ew. apply Htold. by rewrite <- Er.
Qed.
End World.

(** * Examples *)

Definition demo_payload (g o : Z) : FetchObjectPayload := mkFetchObjectPayload g 0 o 100 OFP_Subgroup None [7; o].
Definition demo_objects : list FetchObjectPayload := [demo_payload 1 0; demo_payload 1 1; demo_payload 3 2].
Definition demo_world (l : Location) : option FetchObjectPayload := List.find (fun p => bool_decide (loc_of p = l)) demo_objects.
(** The cache accounts for group 3. *)
Definition demo_ops : list cache_op :=
  [Op_Add (demo_payload 3 2); Op_Absent (mkLocation 3 0) (mkLocation 3 1); Op_Absent (mkLocation 3 3) (mkLocation 3 U64_MAX)].
Definition demo_cached : Track := set_cache (Track_new 3 8 TS_Pending TO_Publish) (cache_run demo_ops).
(** The publisher is asked for groups 2 and 1. *)
Definition demo_events : list UpstreamFetchEvent :=
  [UFE_Object (demo_payload 1 0); UFE_Accepted (mkLocation 3 2); UFE_Object (demo_payload 1 1); UFE_StreamClosed].
Definition demo_ask (n : nat) (filter : LocationFilter) (order : GroupOrder) : option (list UpstreamFetchEvent) :=
  if bool_decide (filter = LF_AbsoluteStartGroupEnd (mkLocation 1 0) 2) then Some demo_events else None.
Definition demo_serve `{Target} (ask : nat -> LocationFilter -> GroupOrder -> option (list UpstreamFetchEvent)) (t : Track) :=
  serve_fetch_stream (mkLocation 1 0) (mkLocation 3 5) GO_Descending CombinedFilter_default 3 (fun _ => FS_Running) (fun _ t => t) ask
    (fun _ => 0) (fun _ => false) true (fun _ => true) 6 t None None.

Lemma demo_world_objects l p : demo_world l = Some p -> p ∈ demo_objects /\ loc_of p = l.
Proof.
  unfold demo_world. intros Hf. apply List.find_some in Hf as [Hin He]. apply list_elem_of_In in Hin. split; [done|]. by apply bool_decide_eq_true in He.
Qed.
Lemma demo_fields g o : is_u64 g -> is_u8 o -> fp_fields (demo_payload g o).
Proof.
  intros Hg Ho. unfold is_u8 in Ho. split; simpl; try done; [unfold is_u64; lia|split; [apply Forall_nil_2|]; intros b Eb; vm_compute in Eb; by injection Eb as <-|].
  split; [|by vm_compute]. apply Forall_cons. split; [done|]. by apply Forall_singleton.
Qed.
Lemma demo_world_ok l p : demo_world l = Some p ->
  loc_of p = l /\ fp_fields p /\ (is_dg p = true -> fp_subgroup_id p = fp_object_id p) /\
  (@overflow_checks debug_build = true -> fp_subgroup_id p <> U64_MAX).
Proof.
  intros [Hin El]%demo_world_objects. split; [done|]. unfold demo_objects in Hin. rewrite !elem_of_cons in Hin.
  destruct Hin as [-> |[-> |[-> |Hin]]]; [..|by apply elem_of_nil in Hin]; split_and!; try done; by apply demo_fields.
Qed.
Lemma demo_none l : l <> mkLocation 1 0 -> l <> mkLocation 1 1 -> l <> mkLocation 3 2 -> demo_world l = None.
Proof.
  intros H1 H2 H3. destruct (demo_world l) as [p|] eqn:E; [|done]. apply demo_world_objects in E as [Hin <-].
  unfold demo_objects in Hin. rewrite !elem_of_cons in Hin. destruct Hin as [-> |[-> |[-> |Hin]]]; [done..|by apply elem_of_nil in Hin].
Qed.

Lemma demo_ops_true : Forall (op_true demo_world) demo_ops.
Proof.
  assert (Hab : forall a b, loc_ok a -> loc_ok b ->
    ~ (pos a <= pos (mkLocation 1 0) <= pos b) -> ~ (pos a <= pos (mkLocation 1 1) <= pos b) -> ~ (pos a <= pos (mkLocation 3 2) <= pos b) ->
    op_true demo_world (Op_Absent a b)).
  { intros a b Ha Hb H1 H2 H3. split; [by split|]. intros l _ Hl. apply demo_none; intros ->; by unfold between_locations in Hl. }
  assert (Hop : op_true demo_world (Op_Add (demo_payload 3 2))) by (split; [split; unfold is_u64; simpl; lia|vm_compute; reflexivity]).
  assert (Hok : forall o, is_u64 o -> loc_ok (mkLocation 3 o)) by (intros o Ho; split; [unfold is_u64; simpl; lia|exact Ho]).
  unfold demo_ops. apply Forall_cons. split; [exact Hop|]. apply Forall_cons. split; [|apply Forall_singleton].
  all: apply Hab; try (apply Hok; unfold is_u64); unfold pos; cbn [group object]; lia.
Qed.

Lemma demo_response_true : response_true demo_world GO_Descending (mkLocation 1 0) (mkLocation 2 U64_MAX) demo_events.
Proof.
  split.
  - split; [by repeat constructor|]. split.
    + intros l Hl. simpl in Hl. rewrite !elem_of_cons in Hl. destruct Hl as [-> |[-> |Hl]]; [..|by apply elem_of_nil in Hl]; repeat split; vm_compute; congruence.
    + repeat (apply SSorted_cons || apply SSorted_nil || apply Forall_nil_2 || apply Forall_cons_2 || (vm_compute; reflexivity)).
  - intros p Hp. unfold demo_events in Hp. rewrite !elem_of_cons in Hp. destruct Hp as [[= ->]|[?|[[= ->]|[?|?%elem_of_nil]]]]; done.
  - intros l Hl Hb Hs. apply demo_none; intros ->; [by vm_compute in Hs..|]. destruct Hb as [_ Hb]. unfold pos in Hb. simpl in Hb. lia.
Qed.

(** The highest group is served from the cache, the others are asked for. *)
Lemma fetch_stream_truthful_witness :
  let H := debug_build in
  exists sv out, demo_serve demo_ask demo_cached = Ok (sv, out, Some SE_Finished) /\
    sv_written sv = map FO_Object [demo_payload 3 2; demo_payload 1 0; demo_payload 1 1] /\
    forall l, in_range (mkLocation 1 0) (mkLocation 3 5) GO_Descending l ->
      told demo_world GO_Descending CombinedFilter_default (map as_entry (sv_written sv)) l.
Proof.
  intros H. destruct (@fetch_stream_truthful debug_build demo_world demo_world_ok (mkLocation 1 0) (mkLocation 3 5) GO_Descending CombinedFilter_default)
    with (max_upstream_fetch_gaps := 3) (cancel := fun _ : nat => FS_Running) (others := fun (_ : nat) (t : Track) => t) (ask := demo_ask)
      (publisher := fun _ : nat => 0) (gone := fun _ : Z => false) (request_id := 6) (t := demo_cached) (pending := None : option (list UpstreamFetchEvent))
      (claim := None : option nat) as (sv & out & fin & header & body & E & _ & _ & _ & _ & _ & _ & _ & Hrun).
  - done.
  - done.
  - by vm_compute.
  - done.
  - intros n s e events _. unfold demo_ask, range_filter. destruct (Z.eqb_spec (object e) U64_MAX) as [Eo|]; [|by rewrite bool_decide_eq_false_2].
    destruct (bool_decide _) eqn:Ef; [|done]. apply bool_decide_eq_true in Ef. injection Ef as -> Eg. intros [= <-].
    assert (e = mkLocation 2 U64_MAX) as -> by (destruct e; simpl in *; congruence). exact demo_response_true.
  - done.
  - exists demo_ops. split; [done|exact demo_ops_true].
  - done.
  - assert (Ev : match demo_serve demo_ask demo_cached with
                 | Ok (sv, _, _) => sv_written sv = map FO_Object [demo_payload 3 2; demo_payload 1 0; demo_payload 1 1] /\ stop_reason sv = FS_Running
                 | _ => False end) by (vm_compute; by split).
    change (demo_serve demo_ask demo_cached = Ok (sv, out, fin)) in E. rewrite E in Ev. destruct Ev as [Ew Er]. destruct (Hrun Er) as [-> Ht].
    exists sv, out. split_and!; [exact E|exact Ew|exact Ht].
Defined.

(** A response that ends cleanly counts for all that was asked for, even when the
    publisher's End Location is before it.  Here the publisher has got to 2:0 only, so
    it accepts the FETCH up to there, and closes the stream: 2:1 to 2:5 are
    not marked unknown, and the subscriber takes them for absent. *)
Definition short_ask (n : nat) (filter : LocationFilter) (order : GroupOrder) : option (list UpstreamFetchEvent) :=
  Some [UFE_Accepted (mkLocation 2 0); UFE_Object (demo_payload 2 0); UFE_StreamClosed].
Example short_response_counts_for_all :
  let H := debug_build in
  match serve_fetch_stream (mkLocation 2 0) (mkLocation 2 5) GO_Ascending CombinedFilter_default 3 (fun _ => FS_Running) (fun _ t => t) short_ask
    (fun _ => 0) (fun _ => false) true (fun _ => true) 6 (Track_new 3 8 TS_Pending TO_Publish) None None with
  | Ok (sv, _, finish) => sv_written sv = [FO_Object (demo_payload 2 0)] /\ finish = Some SE_Finished
  | _ => False
  end.
Proof. vm_compute. by split. Qed.
