(* ===== verification/FetchEnds.v ===== *)
(** A FETCH delivery comes to an end, whatever its environment does: the termination of
    the loops of [FetchDelivery]. *)
From stdpp Require Import gmap.
From S2P Require Import Prelude Varint Pair Common Codes LocationFilter Properties MessageParameter CombinedFilter.
From S2P Require Import FetchObject ObjectForms Control Subgroup Datagram DataStream SeenObjects TrackCache.
From S2P Require Import Streams Subscription Forwarding Tracks FetchRange FetchDelivery FetchTruth.

(** An outcome other than [Diverge], with [P] of its value. *)
Definition ends {E A} (P : A -> Prop) (r : outcome E A) : Prop :=
  match r with Ok a => P a | Err _ | Panic => True | Diverge => False end.

Lemma ends_bind {E A B} (Q : A -> Prop) (P : B -> Prop) (r : outcome E A) (k : A -> outcome E B) :
  ends Q r -> (forall a, Q a -> ends P (k a)) -> ends P (obind r k).
Proof. destruct r; simpl; auto. Qed.
Lemma ends_impl {E A} (Q P : A -> Prop) (r : outcome E A) : ends Q r -> (forall a, Q a -> P a) -> ends P r.
Proof. destruct r; simpl; auto. Qed.
Lemma ends_omap_err {E F A} (P : A -> Prop) (f : E -> F) (r : outcome E A) : ends P r -> ends P (omap_err f r).
Proof. by destruct r. Qed.
Lemma ends_lift {E A} (P : A -> Prop) (r : panics A) : ends P r -> ends P (lift_panics (E := E) r).
Proof. by destruct r as [|[]| |]. Qed.

(** ** Writing an entry *)

Definition ends_any {E A} (r : outcome E A) : Prop := ends (fun _ => True) r.

Create HintDb ends.
Ltac ends_go :=
  repeat match goal with
  | |- True => exact I
  | |- ends _ (obind _ _) => apply (ends_bind (fun _ => True)); [|intros ? _]
  | |- ends _ (Ok _) => exact I
  | |- ends _ (Err _) => exact I
  | |- ends _ Panic => exact I
  | |- ends _ (match ?x with _ => _ end) => destruct x
  | |- ends _ _ => solve [auto with ends]
  end.

Lemma put_vi_ends v : ends (fun _ => True) (put_vi v).
Proof. unfold put_vi. ends_go. Qed.
Lemma add_u64_ends `{Target} {E} a b : ends (E := E) (fun _ => True) (add_u64 a b).
Proof. unfold add_u64, arith_u64. ends_go. Qed.
Lemma ok_or_ends {E A} (o : option A) (e : E) : ends (fun _ => True) (ok_or o e).
Proof. by destruct o. Qed.
Lemma collect_ends {E A} (rs : list (outcome E A)) : Forall (ends (fun _ => True)) rs -> ends (fun _ => True) (collect rs).
Proof. induction 1 as [|r rs Hr _ IH]; simpl; [done|]. apply (ends_bind (fun _ => True)); [done|]. intros a _. apply (ends_bind (fun _ => True)); [done|]. by intros. Qed.
#[export] Hint Resolve put_vi_ends add_u64_ends ok_or_ends : ends.

Lemma kvps_ends l : forall prev, ends (fun _ => True) (serialize_kvps_from prev l).
Proof.
  induction l as [|k l IH]; intros prev; cbn [serialize_kvps_from]; [done|].
  apply (ends_bind (fun _ => True)); [unfold serialize_delta, put_len_bytes; ends_go|]. intros b _.
  apply (ends_bind (fun _ => True)); [apply IH|]. by intros.
Qed.
Lemma properties_ends ps : ends (fun _ => True) (serialize_object_properties ps).
Proof.
  unfold serialize_object_properties. apply (ends_bind (fun _ => True)); [|intros; apply kvps_ends].
  apply collect_ends, Forall_forall. intros r (p & -> & _)%list_elem_of_fmap. destruct p; simpl; try done;
    unfold try_new_varint, serialize_kvp_list; try (apply (ends_bind (fun _ => True)); [apply kvps_ends|intros ? _; unfold try_new_bytes, new_bytes]); ends_go.
Qed.
#[export] Hint Resolve properties_ends : ends.

Lemma FetchObject_serialize_ends `{Target} e prev order : ends (fun _ => True) (FetchObject_serialize e prev order).
Proof.
  destruct e as [p|k g o]; unfold FetchObject_serialize, serialize_payload, group_delta_of, object_delta_of, subgroup_mode_of, put_opt_vi, put_len_bytes; ends_go.
Qed.

(** ** What is marked for any response *)

Lemma add_u64_is_u64 `{Target} {E} a b : ends (E := E) is_u64 (add_u64 a b).
Proof.
  unfold add_u64, arith_u64. destruct (bool_decide _) eqn:E1; [by apply bool_decide_eq_true in E1|]. destruct overflow_checks; [done|]. simpl.
  unfold wrap64, is_u64. by apply Z.mod_pos_bound.
Qed.

Section Marks.
Context `{Target}.
Variable self : ResponseAbsences.
Hypothesis self_ok : absences_ok self.

Lemma max_u64 : is_u64 U64_MAX.
Proof. by vm_compute. Qed.
Lemma zero_u64 : is_u64 0.
Proof. by vm_compute. Qed.
Lemma pred_u64 a b : is_u64 a -> is_u64 b -> b < a -> is_u64 (a - 1).
Proof. unfold is_u64. lia. Qed.
Hint Resolve max_u64 zero_u64 : core.

Lemma around_ok a b : loc_ok a -> loc_ok b ->
  spans_ok match Location_next a, Location_prev b with Some f, Some u => [(f, u)] | _, _ => [] end.
Proof.
  intros Ha Hb. destruct (Location_next a) as [f|] eqn:Ef; [|constructor]. destruct (Location_prev b) as [u|] eqn:Eu; [|constructor].
  apply Location_next_Some in Ef as [? _]; [|done]. apply Location_prev_Some in Eu as [? _]; [|done]. by apply Forall_singleton.
Qed.

Lemma rest_ends last : loc_ok last -> ends spans_ok (rest_of_group self last).
Proof.
  intros Hl. destruct (rest_of_group_covers self last self_ok Hl) as (spans & -> & Hsp & _). done.
Qed.

Lemma between_ends to : loc_ok to -> ends spans_ok (between self to).
Proof.
  intros Hto. destruct self_ok as [Hs He Hlast _]. unfold between. pose proof (fun spans => clip_ok self spans self_ok) as Hclip.
  destruct (head_of_covers to to Hto Hto) as [Hhead _]. pose proof Hto as [Htg _]. destruct (negb _); cbn [ends].
  - apply Hclip. destruct (ra_last self) as [last|] eqn:El; [by apply around_ok; [apply Hlast|]|].
    destruct (Location_prev to) as [u|] eqn:Eu; [|constructor]. apply Location_prev_Some in Eu as [? _]; [|done]. by apply Forall_singleton.
  - apply (ends_bind spans_ok); [|intros spans Hsp; by apply Hclip]. destruct (ra_last self) as [last|] eqn:El.
    + pose proof (Hlast last eq_refl) as Hla. destruct (_ =? _); [by apply around_ok|].
      apply (ends_bind spans_ok); [by apply rest_ends|]. intros rest Hrest. apply (ends_bind is_u64); [apply add_u64_is_u64|]. intros next Hn.
      cbn [ends]. apply spans_ok_app; [done|]. apply spans_ok_app; [|done]. apply spans_ok_if. intros Hlt%Z.ltb_lt.
      destruct Hla as [Hlg _]. split; split; cbn [group object]; try done. by eapply pred_u64.
    + apply (ends_bind spans_ok); [|intros above Ha; by apply spans_ok_app]. destruct (_ <? _); [|constructor].
      apply (ends_bind is_u64); [apply add_u64_is_u64|]. intros next Hn. apply Forall_singleton. by split.
Qed.

Definition location_ok (p : ResponseAbsences * list Span) : Prop := absences_ok (fst p) /\ spans_ok (snd p).
Lemma with_last_ok l : loc_ok l -> absences_ok (with_last self l).
Proof. intros Hl. destruct self_ok as [H1 H2 H3 H4]. split; try done. simpl. by intros ? [= <-]. Qed.
Lemma on_object_ends l : loc_ok l -> ends location_ok (on_object self l).
Proof.
  intros Hl. apply (ends_bind spans_ok); [by apply between_ends|]. intros spans Hsp. split; [by apply with_last_ok|done].
Qed.
Lemma on_marker_ends k l : loc_ok l -> ends location_ok (on_marker self k l).
Proof.
  intros Hl. apply (ends_bind spans_ok); [by apply between_ends|]. intros spans Hsp. split; [by apply with_last_ok|].
  destruct k; simpl; try constructor. apply clip_ok; [done|]. apply spans_ok_app; [done|by apply Forall_singleton].
Qed.
Lemma on_end_ends cleanly : ends spans_ok (on_end self cleanly).
Proof.
  destruct (end_marks self cleanly self_ok) as (spans & -> & Hsp & _). by apply clip_ok.
Qed.
End Marks.

(** ** The delivery *)

(** Values from the wire. *)
Definition event_ok (e : UpstreamFetchEvent) : Prop :=
  match e with
  | UFE_Accepted l | UFE_EndOfRange _ l => loc_ok l
  | UFE_Object p => loc_ok (mkLocation (fp_group_id p) (fp_object_id p))
  | _ => True
  end.
Definition cache_sane (tc : TrackCache) : Prop := exists ops, tc = cache_run ops /\ Forall cache_op_ok ops.
Definition track_sane (t : Track) : Prop := cache_sane (cache (content t)).

Lemma sane_step tc op : cache_sane tc -> cache_op_ok op -> cache_sane (cache_step tc op).
Proof.
  intros (ops & -> & Ho) Hop. exists (ops ++ [op]). split; [unfold cache_run; by rewrite fold_left_app|]. apply Forall_app. split; [done|by apply Forall_singleton].
Qed.
Lemma sane_mark_all t spans : track_sane t -> spans_ok spans -> track_sane (mark_all t spans).
Proof.
  intros Ht. unfold track_sane, mark_all. simpl. revert Ht. unfold track_sane. generalize (cache (content t)). clear t.
  induction spans as [|s spans IH]; intros tc Ht Hok; simpl; [done|]. apply Forall_cons in Hok as [Hs Hok]. apply IH; [|done].
  by apply (sane_step tc (Op_Absent (fst s) (snd s))).
Qed.
Lemma sane_fetched t p o : track_sane t -> loc_ok (mkLocation (fp_group_id p) (fp_object_id p)) ->
  try_from_fetch p (t_relay_track_id t) = Ok o -> track_sane (cache_fetched_object t o).
Proof.
  intros Ht [Hg Ho] E. simpl in Hg, Ho. unfold track_sane, cache_fetched_object. destruct (try_into_fetch o) as [q| | |] eqn:Eq; try exact Ht. simpl.
  apply (sane_step _ (Op_Add q) Ht). destruct p as [g sg id pr fw ps pl]. unfold try_from_fetch in E. unfold try_into_fetch in Eq. simpl in *.
  destruct fw; injection E as <-; simpl in Eq; destruct pl; simpl in Eq; by injection Eq as <-.
Qed.

Section Delivery.
Context `{Target}.
Variable start_location end_location : Location.
Variable group_order : GroupOrder.
Variable filter : CombinedFilter.
Variable max_upstream_fetch_gaps : Z.
Variable cancel : nat -> FetchStop.
Variable others : nat -> Track -> Track.
Variable ask : nat -> LocationFilter -> GroupOrder -> option (list UpstreamFetchEvent).
Variable publisher : nat -> Z.
Variable gone : Z -> bool.
Variable opens : bool.
Variable writes : nat -> bool.
Hypothesis start_ok : loc_ok start_location.
Hypothesis end_ok : loc_ok end_location.
Hypothesis start_before_end : pos start_location <= pos end_location.
Hypothesis others_sane : forall n t, track_sane t -> track_sane (others n t).
Hypothesis ask_wire : forall n f o events, ask n f o = Some events -> Forall event_ok events.

Let from : Location := start start_location end_location group_order.
Let d : bool := is_descending group_order.

(** The track stays sane, and nothing is asked or waited for. *)
Definition counts (sv : Serving) : option Z * Z * nat * option (list UpstreamFetchEvent) :=
  (last_waited_group sv, upstream_gap_count sv, sv_asks sv, pending_upstream sv).
Definition keeps (sv sv' : Serving) : Prop :=
  track_sane (sv_track sv') /\ counts sv' = counts sv.
Lemma keeps_trans sv1 sv2 sv3 : keeps sv1 sv2 -> keeps sv2 sv3 -> keeps sv1 sv3.
Proof. intros [? ?] [? ?]. split; congruence. Qed.

Lemma look_keeps sv : track_sane (sv_track sv) -> keeps sv (snd (look cancel others sv)).
Proof. intros Ht. split; [by apply others_sane|done]. Qed.
Lemma write_ends entry sv : track_sane (sv_track sv) ->
  ends (keeps sv) (write_entry group_order opens writes entry sv).
Proof.
  intros Ht. unfold write_entry. destruct (negb opens); [done|]. apply (ends_bind (fun _ => True)); [apply ends_omap_err, FetchObject_serialize_ends|].
  intros b _. by destruct (writes _).
Qed.

Lemma write_cached_ends v : forall sv, track_sane (sv_track sv) ->
  ends (keeps sv) (write_cached group_order filter cancel others opens writes v sv).
Proof.
  induction v as [|p v IH]; intros sv Ht; [by split|]. cbn [write_cached].
  pose proof (look_keeps sv Ht) as Hl. destruct (look cancel others sv) as [c sv1] eqn:El. simpl in Hl. pose proof Hl as [Ht1 _].
  destruct (negb (is_running c)); [done|]. destruct (negb (matches _ _)).
  - eapply ends_impl; [by apply IH|]. intros sv' Hk. by eapply keeps_trans.
  - apply (ends_bind (keeps sv1)); [by apply write_ends|]. intros sv2 Hk2. eapply ends_impl; [apply IH, Hk2|]. intros sv' Hk. eapply keeps_trans; [exact Hl|]. by eapply keeps_trans.
Qed.

Lemma take_events_ends n events : Forall event_ok events -> forall absences sv, absences_ok absences -> track_sane (sv_track sv) ->
  ends (fun r => keeps sv (fst (fst r)) /\ absences_ok (snd (fst r)))
    (take_events group_order filter cancel others publisher gone opens writes n events absences sv).
Proof.
  assert (Hthen : forall (sv0 sv1 : Serving) (r : outcome TerminationCode (Serving * ResponseAbsences * bool)), keeps sv0 sv1 ->
    ends (fun r => keeps sv1 (fst (fst r)) /\ absences_ok (snd (fst r))) r -> ends (fun r => keeps sv0 (fst (fst r)) /\ absences_ok (snd (fst r))) r).
  { intros sv0 sv1 r Hk Hr. eapply ends_impl; [exact Hr|]. intros x [? ?]. split; [by eapply keeps_trans|done]. }
  induction 1 as [|e events He Hev IH]; intros absences sv Hab Ht; cbn [take_events].
  all: pose proof (look_keeps sv Ht) as Hl; destruct (look cancel others sv) as [c sv1]; simpl in Hl; destruct (negb (is_running c)); try done.
  apply (Hthen sv sv1); [done|]. destruct Hl as [Ht1 _]. clear sv Ht.
  assert (Hwrite : forall sv2 entry ab, keeps sv1 sv2 -> absences_ok ab ->
    ends (fun r => keeps sv1 (fst (fst r)) /\ absences_ok (snd (fst r)))
      (let? sv := write_entry group_order opens writes entry sv2 in take_events group_order filter cancel others publisher gone opens writes n events ab sv)).
  { intros sv2 entry ab Hk Hab'. apply (Hthen sv1 sv2); [done|]. apply (ends_bind (keeps sv2)); [apply write_ends, Hk|].
    intros sv3 Hk3. apply (Hthen sv2 sv3); [done|]. apply IH; [done|apply Hk3]. }
  destruct e as [a|p|k l| | |].
  - apply IH; [|done]. destruct Hab as [H1 H2 H3 H4]. split; try done. simpl. by destruct (Location_ltb _ _).
  - set (sv2 := match try_from_fetch _ _ with Ok _ => _ | _ => sv1 end).
    assert (Hk2 : keeps sv1 sv2).
    { unfold sv2. destruct (try_from_fetch _ _) as [o| | |] eqn:Eo; [|by split..]. split; [by eapply sane_fetched|done]. }
    clearbody sv2. apply (ends_bind location_ok); [apply ends_lift; by apply on_object_ends|]. intros [ab spans] [Hab' Hsp]. simpl in *.
    assert (Hk3 : keeps sv1 (on_track sv2 (mark_all (sv_track sv2) spans))) by (destruct Hk2; split; [by apply sane_mark_all|done]).
    destruct (negb (matches _ _)); [|by apply Hwrite]. eapply Hthen; [exact Hk3|]. apply IH; [done|apply Hk3].
  - apply (ends_bind location_ok); [apply ends_lift; by apply on_marker_ends|]. intros [ab spans] [Hab' Hsp]. simpl in *.
    apply Hwrite; [|done]. split; [by apply sane_mark_all|done].
  - split; [by split|done].
  - split; [split; [|done]|done]. simpl. unfold track_sane, handle_malformed_upstream_fetch, remove_publisher_quietly. by destruct (take_publisher _ _) as [[u a] b].
  - split; [by split|done].
Qed.

Lemma take_response_ends n gs ge events absences sv : Forall event_ok events -> absences_ok absences -> track_sane (sv_track sv) ->
  ends (keeps sv) (take_response start_location end_location group_order filter cancel others publisher gone opens writes n gs ge events absences sv).
Proof.
  intros Hev Hab Ht. unfold take_response. apply (ends_bind _ _ _ _ (take_events_ends n events Hev absences sv Hab Ht)). intros [[sv1 ab] closed] [Hk1 Hab1].
  simpl in Hk1, Hab1. pose proof (look_keeps sv1 (proj1 Hk1)) as Hl. destruct (look cancel others sv1) as [c sv2]. simpl in Hl.
  set (sv3 := if is_running c then sv2 else set_stop sv2 c). assert (Hk3 : keeps sv sv3) by (eapply keeps_trans; [exact Hk1|]; unfold sv3; by destruct (is_running c)).
  clearbody sv3. apply (ends_bind (keeps sv)).
  - destruct (_ && _); [|done]. eapply ends_impl; [apply write_ends, Hk3|]. intros sv4 Hk4. by eapply keeps_trans.
  - intros sv4 Hk4. assert (Hmark : ends (E := TerminationCode) (keeps sv) (let? spans := lift_panics (on_end ab closed) in Ok (on_track sv4 (mark_all (sv_track sv4) spans)))).
    { apply (ends_bind spans_ok); [by apply ends_lift, on_end_ends|]. intros spans Hsp. destruct Hk4. split; [by apply sane_mark_all|done]. }
    by destruct (stop_reason sv4).
Qed.

(** ** The loop *)

Lemma cached_answers sv : track_sane (sv_track sv) -> answers start_location end_location group_order sv.
Proof.
  intros (ops & Ec & Hops) g [H1 H2]. fold from in H1.
  pose proof (part_spec start_location end_location group_order start_ok end_ok start_before_end g g H1 ltac:(lia) H2) as Hp. fold from in Hp.
  unfold cached, objects_wanted. fold from. destruct (requested_part g g from end_location) as [s e]. destruct Hp as ([Hsg Hs] & [_ He] & Esg & _).
  rewrite Esg in Hsg. destruct (answer_accounted ops g (object s) (object e) Hops Hsg Hs He) as (r & Er & _). exists r. by rewrite Ec, Er.
Qed.

(** Publishers are asked no more often than is configured. *)
Definition bounded (sv : Serving) : Prop := Z.of_nat (sv_asks sv) <= upstream_gap_count sv <= Z.max 0 max_upstream_fetch_gaps.
Definition going (sv : Serving) : Prop :=
  track_sane (sv_track sv) /\ bounded sv /\ match pending_upstream sv with Some events => Forall event_ok events | None => True end.

Lemma keeps_going sv sv' : going sv -> keeps sv sv' -> going sv'.
Proof. intros (_ & Hb & Hp) [Ht E]. injection E as _ E1 E2 E3. split; [done|]. unfold bounded. by rewrite E1, E2, E3. Qed.

Lemma part_absences gs ge : group from <= gs -> gs <= ge -> ge <= group end_location ->
  let '(s, e) := requested_part gs ge from end_location in absences_ok (ResponseAbsences_new s e group_order).
Proof.
  intros H1 H2 H3. pose proof (part_spec start_location end_location group_order start_ok end_ok start_before_end gs ge H1 H2 H3) as Hp. fold from in Hp.
  destruct (requested_part gs ge from end_location) as [s e]. destruct Hp as (Hs & He & _).
  by destruct (new_inv s e group_order Hs He s) as [Hok _ _ _ _ _ _ _ _].
Qed.

Lemma fill_gap_ends gs ge sv : group from <= gs -> gs <= ge -> ge <= group end_location -> going sv ->
  ends (fun r => let '(sv', gs', ge') := r in going sv' /\ group from <= gs' <= gs /\ ge <= ge' <= group end_location)
    (fill_gap start_location end_location group_order filter max_upstream_fetch_gaps cancel others ask publisher gone opens writes gs ge sv).
Proof.
  intros H1 H2 H3 Hg. unfold fill_gap. destruct (Z.leb_spec max_upstream_fetch_gaps (upstream_gap_count sv)) as [Hmax|Hmax].
  { apply (ends_bind (keeps sv)); [by apply write_ends, Hg|]. intros sv' Hk. split; [by eapply keeps_going|lia]. }
  pose proof (part_absences gs ge H1 H2 H3) as Hpart. pose proof (part_absences (group from) (group end_location) ltac:(lia) ltac:(lia) ltac:(lia)) as Hall.
  unfold from in Hall. rewrite whole_part in Hall by done. fold from in Hall. destruct Hg as (Ht & Hb & Hp).
  assert (Hc : going (counted sv)). { split; [done|]. split; [|done]. unfold bounded, counted in *. cbn -[Z.max Z.of_nat]. destruct (pending_upstream sv); lia. }
  assert (Hdone : forall gs' ge' sv', group from <= gs' <= gs -> ge <= ge' <= group end_location -> keeps (counted sv) sv' ->
    going sv' /\ group from <= gs' <= gs /\ ge <= ge' <= group end_location).
  { intros gs' ge' sv' ? ? Hk. split; [by eapply keeps_going|done]. }
  fold from. destruct (pending_upstream sv) as [events|].
  - apply (ends_bind (keeps (counted sv))); [by apply take_response_ends|]. intros sv' Hk. apply Hdone; (done || lia).
  - destruct (requested_part gs ge from end_location) as [s e]. destruct (ask _ _ _) as [events|] eqn:Ea.
    + apply (ends_bind (keeps (counted sv))); [apply take_response_ends; [by eapply ask_wire|done..]|]. intros sv' Hk. apply Hdone; (done || lia).
    + apply (ends_bind (keeps (counted sv))); [by apply write_ends|]. intros sv' Hk. apply Hdone; (done || lia).
Qed.

(** What is left to do at a group, in turns: one more where it may still wait. *)
Definition turns_left (sv : Serving) (next_group : option Z) : Z :=
  match next_group with
  | Some g => 2 * ((if d then g - group from else group end_location - g) + 1) - (if bool_decide (last_waited_group sv = Some g) then 1 else 0)
  | None => 0
  end.
Definition at_group (next_group : option Z) : Prop := match next_group with Some g => group from <= g <= group end_location | None => True end.

Lemma next_after_fewer gs ge g sv sv' : group from <= gs <= g -> g <= ge <= group end_location ->
  let n := next_after start_location end_location group_order gs ge in at_group n /\ turns_left sv' n < turns_left sv (Some g).
Proof.
  intros H1 H2. cbn zeta. unfold next_after. fold from. change (descends group_order) with d. unfold turns_left, at_group. destruct d.
  - destruct (Z.ltb_spec (group from) gs); (split; [lia|]); destruct (bool_decide (last_waited_group sv = _)); try destruct (bool_decide _); lia.
  - destruct (Z.ltb_spec ge (group end_location)); (split; [lia|]); destruct (bool_decide (last_waited_group sv = _)); try destruct (bool_decide _); lia.
Qed.

Lemma going_cache sv tc op : going sv -> cache_op_ok op -> tc = cache_step (cache (content (sv_track sv))) op -> going (on_track sv (set_cache (sv_track sv) tc)).
Proof. intros (Ht & Hb & Hp) Ho ->. split; [by apply sane_step|done]. Qed.

Lemma turn_ends g sv : group from <= g <= group end_location -> going sv ->
  ends (fun r => going (fst r) /\ match snd r with TN_Next n => at_group n /\ turns_left (fst r) n < turns_left sv (Some g) | TN_Break => True end)
    (turn start_location end_location group_order filter max_upstream_fetch_gaps cancel others ask publisher gone opens writes g sv).
Proof.
  intros Hgr Hg. pose proof (cached_answers sv (proj1 Hg)) as Hans. unfold turn.
  apply (ends_bind (fun _ => True)). { destruct (pending_upstream sv); [done|]. by destruct (Hans g Hgr) as [r ->]. }
  intros [v|] _.
  { apply (ends_bind (keeps sv)); [by apply write_cached_ends, Hg|]. intros sv' Hk. split; [by eapply keeps_going|]. apply next_after_fewer; lia. }
  destruct (gap_from_ok start_location end_location group_order sv g Hans Hgr) as (gs & ge & -> & H1 & H2 & _). cbn [obind].
  assert (Hfill : forall sv1 (c : option (TrackCache * nat)), going sv1 ->
    ends (fun r => going (fst r) /\ match snd r with TN_Next n => at_group n /\ turns_left (fst r) n < turns_left sv (Some g) | TN_Break => True end)
      (let? r := fill_gap start_location end_location group_order filter max_upstream_fetch_gaps cancel others ask publisher gone opens writes gs ge sv1 in
       let '(sv, gs, ge) := r in
       let sv := match c with Some (_, cl) => on_track sv (set_cache (sv_track sv) (drop_claim (cache (content (sv_track sv))) cl)) | None => sv end in
       Ok (sv, if is_running (stop_reason sv) then TN_Next (next_after start_location end_location group_order gs ge) else TN_Break))).
  { intros sv1 c Hg1. fold from in H1, H2. eapply ends_bind; [apply fill_gap_ends; (done || lia)|]. intros [[sv2 gs'] ge'] (Hg2 & H3 & H4). cbn [ends fst snd]. split.
    - destruct c as [[tc cl]|]; [|done]. by apply (going_cache sv2 _ (Op_Drop cl)).
    - destruct (is_running _); [|done]. apply next_after_fewer; lia. }
  destruct (pending_upstream sv) as [events|] eqn:Epen; [by apply (Hfill sv None)|].
  destruct (claim_fill (cache (content (sv_track sv))) gs ge) as [tc [claim|busy]] eqn:Ecl; cbn [fst snd].
  - apply (Hfill _ (Some (tc, claim))). apply (going_cache sv tc (Op_Claim gs ge)); [done..|]. simpl. by rewrite Ecl.
  - destruct (bool_decide (last_waited_group sv = Some g)) eqn:Ew; [by apply (Hfill sv None)|]. cbn [ends fst snd].
    split; [destruct Hg as (? & ? & ?); by split_and!|]. split; [exact Hgr|]. unfold turns_left. rewrite Ew. simpl. rewrite bool_decide_eq_true_2 by done. lia.
Qed.

Lemma serve_loop_ends fuel : forall n sv, going sv -> at_group n -> turns_left sv n <= Z.of_nat fuel ->
  ends going (serve_loop start_location end_location group_order filter max_upstream_fetch_gaps cancel others ask publisher gone opens writes fuel n sv).
Proof.
  induction fuel as [|fuel IH]; intros [g|] sv Hg Hn Hf; cbn [serve_loop]; try done.
  all: pose proof (look_keeps sv (proj1 Hg)) as Hk; destruct (look cancel others sv) as [c sv1]; simpl in Hk.
  all: pose proof (keeps_going sv sv1 Hg Hk) as Hg1; destruct (negb (is_running c)); [destruct Hg1 as (? & ? & ?); by split_and!|].
  - exfalso. simpl in Hn. unfold turns_left in Hf. destruct d, (bool_decide _); lia.
  - eapply ends_bind; [by apply turn_ends|]. intros [sv2 [n|]] [Hg2 Ht]; cbn [fst snd] in *; [|done]. destruct Ht as [Hn2 Hlt]. apply IH; [done..|].
    assert (E : turns_left sv1 (Some g) = turns_left sv (Some g)); [|lia]. destruct Hk as [_ E]. injection E as E _ _ _. unfold turns_left. by rewrite E.
Qed.

(** C6: a FETCH delivery ends, with no more requests to publishers than configured.
    The environment is arbitrary: publishers answer with anything that the wire
    carries (out of order, out of range, without FETCH_OK, malformed, cut short), other
    tasks change the track and cancel the request at any point, the stream may not
    open and writes may fail; of the cache it is only assumed that it is made by the
    cache's own operations.  Then the loop takes at most two turns for each group of
    the range (the fuel [loop_fuel]): it does not run out, and neither do the scans for
    a gap.  If it does not fail, publishers were asked at most [max_upstream_fetch_gaps]
    times. *)
Theorem fetch_delivery_ends request_id t pending claim :
  track_sane t -> match pending with Some events => Forall event_ok events | None => True end ->
  match serve_fetch_stream start_location end_location group_order filter max_upstream_fetch_gaps cancel others ask publisher gone opens writes
    request_id t pending claim with
  | Ok (sv, _, _) => Z.of_nat (sv_asks sv) <= Z.max 0 max_upstream_fetch_gaps /\ track_sane (sv_track sv)
  | Err _ | Panic => True
  | Diverge => False
  end.
Proof.
  intros Ht Hp. set (sv0 := mkServing t [] [] None 0 None FS_Running pending 0 0). destruct (from_spec start_location end_location group_order start_ok end_ok start_before_end) as (Hf & _ & Hfe & _).
  pose proof (groups_ordered _ _ Hf end_ok Hfe) as Hgr. fold from in Hgr.
  assert (Hloop : ends going (serve_loop start_location end_location group_order filter max_upstream_fetch_gaps cancel others ask publisher gone opens writes
    (loop_fuel start_location end_location group_order) (Some (first_group start_location end_location group_order)) sv0)).
  { apply serve_loop_ends.
    - split; [done|]. split; [|done]. unfold bounded. simpl. lia.
    - unfold first_group, at_group. change (descends group_order) with d. fold from. destruct d; lia.
    - unfold turns_left, first_group, loop_fuel, groups_in_range. change (descends group_order) with d. fold from. destruct d; simpl bool_decide; lia. }
  unfold serve_fetch_stream. destruct (FetchHeader_serialize _); cbn [obind]; try done. fold sv0. destruct (serve_loop _ _ _ _ _ _ _ _ _ _ _ _ _ _ _) as [sv| | |]; cbn [obind ends] in *; try done.
  destruct Hloop as (Hts & Hb & _). unfold bounded in Hb. destruct claim as [c|]; simpl; (split; [lia|]); [|done].
  by apply (sane_step _ (Op_Drop c)).
Qed.
End Delivery.

(** * Examples *)

(** Objects out of order and out of the range, and no FETCH_OK. *)
Definition wild_events : list UpstreamFetchEvent :=
  [UFE_Object (demo_payload 9 3); UFE_EndOfRange ERK_NonExistent (mkLocation 2 7); UFE_Object (demo_payload 1 0)].
Definition wild_ask (n : nat) (filter : LocationFilter) (order : GroupOrder) : option (list UpstreamFetchEvent) := Some wild_events.
(** The request is cancelled at the tenth look. *)
Definition wild_serve `{Target} (writes : nat -> bool) :=
  serve_fetch_stream (mkLocation 1 0) (mkLocation 3 5) GO_Ascending CombinedFilter_default 2 (fun n => if Nat.ltb n 10 then FS_Running else FS_Cancelled)
    (fun _ t => t) wild_ask (fun _ => 0) (fun _ => false) true writes 6 demo_cached None (Some 0%nat).

Lemma fetch_delivery_ends_witness :
  let H := debug_build in
  match wild_serve (fun n => Nat.ltb n 1) with
  | Ok (sv, _, _) => Z.of_nat (sv_asks sv) <= 2 /\ track_sane (sv_track sv)
  | Err _ | Panic => True
  | Diverge => False
  end /\ wild_serve (fun n => Nat.ltb n 1) = Err TC_InternalError.
Proof.
  intros H. split; [|vm_compute; reflexivity].
  apply (@fetch_delivery_ends debug_build (mkLocation 1 0) (mkLocation 3 5) GO_Ascending CombinedFilter_default 2
    (fun n => if Nat.ltb n 10 then FS_Running else FS_Cancelled) (fun _ t => t) wild_ask (fun _ => 0) (fun _ => false) true (fun n => Nat.ltb n 1)).
  - by vm_compute.
  - by vm_compute.
  - by vm_compute.
  - done.
  - intros n f o events [= <-]. unfold wild_events. by repeat (apply Forall_cons; split; [by vm_compute|]).
  - exists demo_ops. split; [done|]. eapply Forall_impl; [exact demo_ops_true|]. by intros op [].
  - done.
Defined.
