(* ===== verification/Parameters.v ===== *)
(** The parameters of the messages that the relay originates
    ([apps/relay/src/server/message_handlers/parameters.rs]), and the small decisions of
    the request handlers ([subscribe_handler.rs], [client.rs]). *)
From stdpp Require Import gmap.
From S2P Require Import Prelude Common Codes LocationFilter Properties MessageParameter Control Subscription.

Definition find (params : list MessageParameter) (param_type : MessageParameterType) : option MessageParameter :=
  List.find (fun p => MessageParameter.type_value p =? MPT param_type) params.

Definition upstream_subscribe : list MessageParameter :=
  [MP_Forward true; MP_GroupOrder GO_Ascending; MP_LocationFilter LF_NextObject].

Definition largest_object (upstream : list MessageParameter) (observed : option Location) : option Location :=
  let reported := match find upstream MPT_LargestObject with Some (MP_LargestObject location) => Some location | _ => None end in
  match reported, observed with
  | Some u, Some o => Some (if Location_ltb u o then o else u)
  | Some u, None => Some u
  | None, o => o
  end.

Definition downstream_subscribe_ok (upstream : list MessageParameter) (observed : option Location) : list MessageParameter :=
  match largest_object upstream observed with Some largest => [MP_LargestObject largest] | None => [] end.

Definition downstream_publish (upstream subscribe_tracks : list MessageParameter) (observed : option Location)
    : list MessageParameter :=
  let forward := match find subscribe_tracks MPT_Forward with None | Some (MP_Forward true) => true | _ => false end in
  let order := match find subscribe_tracks MPT_GroupOrder with Some o => Some o | None => find upstream MPT_GroupOrder end in
  [MP_Forward forward] ++ option_list order ++ option_list (find subscribe_tracks MPT_LocationFilter) ++
  match largest_object upstream observed with Some largest => [MP_LargestObject largest] | None => [] end.

Definition upstream_fetch (group_order : GroupOrder) : list MessageParameter := [MP_GroupOrder group_order].

(** ** Decisions of the SUBSCRIBE handler *)

(** In milliseconds. *)
Definition rendezvous_timeout (parameters : list MessageParameter) (max : Z) : Z :=
  match find_map (fun p => match p with MP_RendezvousTimeout timeout => Some timeout | _ => None end) parameters with
  | Some requested => Z.min requested max
  | None => 0
  end.

Definition publish_done_status_for (error_code : RequestErrorCode) : PublishDoneStatusCode :=
  match error_code with
  | REC_Unauthorized => PDS_Unauthorized
  | REC_GoingAway => PDS_GoingAway
  | REC_MalformedTrack => PDS_MalformedTrack
  | REC_ExcessiveLoad => PDS_ExcessiveLoad
  | REC_DoesNotExist => PDS_TrackEnded
  | _ => PDS_InternalError
  end.

(** [Subscription::properties_for_ok]. *)
Definition properties_for_ok (s : SubscriptionState) (properties : list TrackProperty) : list TrackProperty :=
  if include_properties (subscribe_parameters s) then properties else [].

Inductive TrackAliasMode : Type := TAM_PerTrack | TAM_PerSubscription.
(** Also gives the next fresh alias. *)
Definition pick_track_alias (mode : TrackAliasMode) (relay_track_id next : Z) : Z * Z :=
  match mode with
  | TAM_PerTrack => (relay_track_id, next)
  | TAM_PerSubscription => (next, wrap64 (next + 1))
  end.

(** * Lemmas *)

(** The relay reports no less than it has seen, and no less than it was told. *)
Lemma largest_object_bound upstream o : loc_ok o ->
  (forall u, find upstream MPT_LargestObject = Some (MP_LargestObject u) -> loc_ok u) ->
  exists m, largest_object upstream (Some o) = Some m /\ pos o <= pos m /\
    forall u, find upstream MPT_LargestObject = Some (MP_LargestObject u) -> pos u <= pos m.
Proof.
  intros Ho Hu. unfold largest_object. destruct (find upstream MPT_LargestObject) as [[]|]; try (exists o; by split_and!).
  specialize (Hu _ eq_refl). destruct (Location_ltb location o) eqn:E; eexists; (split; [reflexivity|]).
  - apply Location_ltb_pos in E; [|done..]. split; [lia|]. intros ? [= <-]. lia.
  - apply not_true_iff_false in E. rewrite Location_ltb_pos in E by done. split; [lia|]. intros ? [= <-]. lia.
Qed.
