(* ===== verification/TrackTable.v ===== *)
(** The relay's tracks and what indexes them ([apps/relay/src/server/track_manager.rs],
    without the part on namespaces, which is [Namespaces]).

    A track is kept with its subscriptions, by the number of their channel, and with the
    subscribers that wait for its publishers' answer ([Track::pending_subscribers]). *)
From stdpp Require Import gmap.
From S2P Require Import Prelude Varint Common Codes TrackName LocationFilter Properties MessageParameter CombinedFilter.
From S2P Require Import Control Subgroup Datagram FetchObject ObjectForms DataStream SeenObjects TrackCache.
From S2P Require Import Streams Subscription Forwarding Tracks.

Record TrackEntry := mkEntry {
  te_track : Track;
  te_subscriptions : list Subscription;
  pending_subscribers : list SubscriptionId
}.

Record TrackTable := mkTable {
  tracks : gmap FullTrackName TrackEntry;
  track_aliases : gmap (Z * Z) FullTrackName;
  publishes : gmap FullTrackName (gmap Z Publish);
  next_relay_track_id : Z
}.
Definition TrackTable_new : TrackTable := mkTable ∅ ∅ ∅ 0.

Definition with_tracks (tm : TrackTable) (m : gmap FullTrackName TrackEntry) : TrackTable :=
  mkTable m (track_aliases tm) (publishes tm) (next_relay_track_id tm).
Definition with_track_aliases (tm : TrackTable) (m : gmap (Z * Z) FullTrackName) : TrackTable :=
  mkTable (tracks tm) m (publishes tm) (next_relay_track_id tm).
Definition with_publishes (tm : TrackTable) (m : gmap FullTrackName (gmap Z Publish)) : TrackTable :=
  mkTable (tracks tm) (track_aliases tm) m (next_relay_track_id tm).
Definition put_entry (tm : TrackTable) (name : FullTrackName) (e : TrackEntry) : TrackTable :=
  with_tracks tm (<[name := e]> (tracks tm)).
Definition set_track (e : TrackEntry) (t : Track) : TrackEntry := mkEntry t (te_subscriptions e) (pending_subscribers e).
Definition set_pending (e : TrackEntry) (l : list SubscriptionId) : TrackEntry := mkEntry (te_track e) (te_subscriptions e) l.

Definition get_subscription (e : TrackEntry) (id : SubscriptionId) : option Subscription :=
  match sm_subscriptions (manager (te_track e)) !! id with Some n => te_subscriptions e !! n | None => None end.

(** ** Tracks *)

Definition generate_relay_track_id (tm : TrackTable) : TrackTable * Z :=
  (mkTable (tracks tm) (track_aliases tm) (publishes tm) (wrap64 (next_relay_track_id tm + 1)), next_relay_track_id tm).

Definition get_track (tm : TrackTable) (full_track_name : FullTrackName) : option TrackEntry := tracks tm !! full_track_name.

(** Also tells whether this call created the track. *)
Definition get_or_create_track (tm : TrackTable) (full_track_name : FullTrackName) (track_factory : Z -> Track)
    : TrackTable * TrackEntry * bool :=
  match tracks tm !! full_track_name with
  | Some e => (tm, e, false)
  | None =>
      let '(tm, relay_track_id) := generate_relay_track_id tm in
      let e := mkEntry (track_factory relay_track_id) [] [] in
      (put_entry tm full_track_name e, e, true)
  end.

Definition remove_track (tm : TrackTable) (full_track_name : FullTrackName) : TrackTable :=
  let tm := match tracks tm !! full_track_name with
            | Some e =>
                with_track_aliases (with_tracks tm (delete full_track_name (tracks tm)))
                  (fold_left (fun m (a : Z * Z) => delete a m) (map_to_list (publisher_aliases (upstream (te_track e)))) (track_aliases tm))
            | None => tm
            end in
  with_publishes tm (delete full_track_name (publishes tm)).

(** The subscription a connection holds under a request, on any track. *)
Definition find_subscription_by_request_id (tm : TrackTable) (connection_id request_id : Z) : option FullTrackName :=
  fst <$> List.find (fun x : FullTrackName * TrackEntry => is_some (get_subscription (snd x) (connection_id, request_id)))
    (map_to_list (tracks tm)).

(** ** Aliases *)

Definition get_track_by_alias (tm : TrackTable) (connection_id track_alias : Z) : option TrackEntry :=
  match track_aliases tm !! (connection_id, track_alias) with Some name => tracks tm !! name | None => None end.
Definition has_track_alias (tm : TrackTable) (connection_id track_alias : Z) : bool :=
  is_some (track_aliases tm !! (connection_id, track_alias)).

Definition add_track_alias (tm : TrackTable) (connection_id track_alias : Z) (full_track_name : FullTrackName) : TrackTable * bool :=
  match track_aliases tm !! (connection_id, track_alias) with
  | Some existing => (tm, bool_decide (existing = full_track_name))
  | None => (with_track_aliases tm (<[(connection_id, track_alias) := full_track_name]> (track_aliases tm)), true)
  end.

Definition remove_publisher_alias (tm : TrackTable) (connection_id track_alias : Z) : TrackTable :=
  match track_aliases tm !! (connection_id, track_alias) with
  | None => tm
  | Some name =>
      let tm := with_track_aliases tm (delete (connection_id, track_alias) (track_aliases tm)) in
      with_publishes tm (alter (delete connection_id) name (publishes tm))
  end.

Definition clean_up (tm : TrackTable) (full_track_name : FullTrackName) (cleanup : Cleanup) : TrackTable :=
  match cleanup with
  | CL_Nothing => tm
  | CL_RemoveAliases aliases => fold_left (fun tm (a : Z * Z) => remove_publisher_alias tm (fst a) (snd a)) aliases tm
  | CL_RemoveTrack => remove_track tm full_track_name
  end.

Definition retire_track (gone : Z -> bool) (tm : TrackTable) (full_track_name : FullTrackName) : TrackTable :=
  match tracks tm !! full_track_name with
  | None => tm
  | Some e =>
      let '(t, cleanup, _) := retire gone (te_track e) in
      clean_up (put_entry tm full_track_name (set_track e t)) full_track_name cleanup
  end.

(** [held] tells which tracks something else holds. *)
Definition sweep_empty_cache_only_tracks (held : FullTrackName -> bool) (tm : TrackTable) : TrackTable * nat :=
  let unused := filter (fun x : FullTrackName * TrackEntry => held (fst x) = false /\ origin (upstream (te_track (snd x))) = TO_CacheOnly /\
                          is_empty (cache (content (te_track (snd x)))) = true) (tracks tm) in
  (with_publishes (with_tracks tm (tracks tm ∖ unused)) (filter (fun x => unused !! fst x = None) (publishes tm)), size unused).

(** ** Publishes *)

Definition add_publish_message (tm : TrackTable) (full_track_name : FullTrackName) (connection_id : Z) (publish_msg : Publish) : TrackTable :=
  with_publishes tm (<[full_track_name := <[connection_id := publish_msg]> (default ∅ (publishes tm !! full_track_name))]> (publishes tm)).
Definition get_publish_request_id (tm : TrackTable) (full_track_name : FullTrackName) (connection_id : Z) : option Z :=
  pub_request_id <$> (publishes tm !! full_track_name ≫= fun m => m !! connection_id).
Definition with_pub_parameters (p : Publish) (ps : list MessageParameter) : Publish :=
  mkPublish (pub_request_id p) (pub_track_namespace p) (pub_track_name p) (pub_track_alias p) ps (pub_track_properties p).
Definition update_publish_message_parameters (tm : TrackTable) (full_track_name : FullTrackName) (connection_id : Z)
    (new_parameters : list MessageParameter) : TrackTable :=
  with_publishes tm (alter (alter (fun p => with_pub_parameters p (apply_message_parameter_update (pub_parameters p) new_parameters))
    connection_id) full_track_name (publishes tm)).
(** A track with a PUBLISH of this request by the connection that is among its publishers. *)
Definition get_track_name_by_publisher (tm : TrackTable) (connection_id request_id : Z) : option FullTrackName :=
  fst <$> List.find (fun x : FullTrackName * gmap Z Publish =>
    bool_decide (get_publish_request_id tm (fst x) connection_id = Some request_id) &&
    match tracks tm !! fst x with
    | Some e => is_some (publisher_aliases (upstream (te_track e)) !! connection_id)
    | None => false
    end) (map_to_list (publishes tm)).
(** The tracks under a prefix that have a PUBLISH, with one of it if there is any. *)
Definition get_tracks_and_publishes_by_namespace_prefix (tm : TrackTable) (prefix : Tuple)
    : list (FullTrackName * TrackEntry * option Publish) :=
  omap (fun x : FullTrackName * TrackEntry =>
    if starts_with (ftn_namespace (fst x)) prefix then
      match publishes tm !! fst x with
      | Some m => Some (fst x, snd x, head (map snd (map_to_list m)))
      | None => None
      end
    else None) (map_to_list (tracks tm)).
