(* ===== verification/Requests.v ===== *)
(** SUBSCRIBE requests and the answers of publishers
    ([apps/relay/src/server/message_handlers/subscribe_handler.rs]).

    The first SUBSCRIBE for a track goes to all its publishers, each on a request stream
    of its own (an exchange); the others wait for the answer.  Each handler is one step:
    what it does between its awaits, others do before or after.  Whether the subscriber's
    stream takes the answer that is due at once is an argument: without it the session is
    closed, or the handler panics.  Opening fills and carrying out a switch are outputs
    here.  The text of the errors that the relay words
    itself is left out. *)
From stdpp Require Import gmap.
From S2P Require Import Prelude Varint Common Codes TrackName LocationFilter RangeFilter Properties MessageParameter CombinedFilter.
From S2P Require Import Control Subgroup Datagram FetchObject ObjectForms DataStream SeenObjects TrackCache SwitchingSet Controller.
From S2P Require Import Streams Subscription Forwarding Tracks Parameters TrackTable.

Record SubscribeRequest := mkSubscribeRequest {
  original_request_id : Z;
  requested_by : Z;
  original_subscribe_request : Subscribe
}.

(** The request stream to a publisher: not open yet, open and waiting, answered.
    [x_signal] is the signal that cancels it. *)
Inductive ExchangePhase : Type := XP_Opening | XP_Waiting | XP_Answered.
#[export] Instance ExchangePhase_eq_dec : EqDecision ExchangePhase.
Proof. solve_decision. Defined.
Record Exchange := mkExchange {
  x_name : FullTrackName;
  x_publisher : Z;
  x_phase : ExchangePhase;
  x_signal : option UpstreamRequestCancellation
}.

Inductive answer : Type :=
| AN_Ok (m : SubscribeOk)
| AN_Error (code : RequestErrorCode) (phrase : option ReasonPhrase).

Inductive output : Type :=
| OUT_Answer (id : SubscriptionId) (a : answer)
| OUT_Fill (id : SubscriptionId)
| OUT_Switch (id : SubscriptionId) (suspending : Z) (mode : SwitchMode) (done : bool) (filter : LocationFilter) (largest : option Location)
| OUT_Forward (publish : SubscriptionId)
| OUT_CloseSession (connection : Z).

(** [response_senders]: the request streams that are open, of all connections. *)
Record Requests := mkRequests {
  table : TrackTable;
  relay_pending_requests : gmap Z SubscribeRequest;
  exchanges : gmap Z Exchange;
  response_senders : gset SubscriptionId;
  subscribe_requests : gmap SubscriptionId SubscribeRequest;
  ssts : gmap Z SstsState;
  next_track_alias : gmap Z Z;
  relay_next_request_id : Z;
  outputs : list output
}.

Definition with_table (st : Requests) (tm : TrackTable) : Requests :=
  mkRequests tm (relay_pending_requests st) (exchanges st) (response_senders st) (subscribe_requests st) (ssts st)
    (next_track_alias st) (relay_next_request_id st) (outputs st).
Definition with_pending_requests (st : Requests) (m : gmap Z SubscribeRequest) : Requests :=
  mkRequests (table st) m (exchanges st) (response_senders st) (subscribe_requests st) (ssts st)
    (next_track_alias st) (relay_next_request_id st) (outputs st).
Definition with_exchanges (st : Requests) (m : gmap Z Exchange) : Requests :=
  mkRequests (table st) (relay_pending_requests st) m (response_senders st) (subscribe_requests st) (ssts st)
    (next_track_alias st) (relay_next_request_id st) (outputs st).
Definition with_senders (st : Requests) (s : gset SubscriptionId) : Requests :=
  mkRequests (table st) (relay_pending_requests st) (exchanges st) s (subscribe_requests st) (ssts st)
    (next_track_alias st) (relay_next_request_id st) (outputs st).
Definition with_subscribe_requests (st : Requests) (m : gmap SubscriptionId SubscribeRequest) : Requests :=
  mkRequests (table st) (relay_pending_requests st) (exchanges st) (response_senders st) m (ssts st)
    (next_track_alias st) (relay_next_request_id st) (outputs st).
Definition with_ssts (st : Requests) (m : gmap Z SstsState) : Requests :=
  mkRequests (table st) (relay_pending_requests st) (exchanges st) (response_senders st) (subscribe_requests st) m
    (next_track_alias st) (relay_next_request_id st) (outputs st).
Definition with_next_alias (st : Requests) (m : gmap Z Z) : Requests :=
  mkRequests (table st) (relay_pending_requests st) (exchanges st) (response_senders st) (subscribe_requests st) (ssts st)
    m (relay_next_request_id st) (outputs st).
Definition with_next_id (st : Requests) (n : Z) : Requests :=
  mkRequests (table st) (relay_pending_requests st) (exchanges st) (response_senders st) (subscribe_requests st) (ssts st)
    (next_track_alias st) n (outputs st).
Definition put_out (st : Requests) (o : list output) : Requests :=
  mkRequests (table st) (relay_pending_requests st) (exchanges st) (response_senders st) (subscribe_requests st) (ssts st)
    (next_track_alias st) (relay_next_request_id st) (outputs st ++ o).

(** On the request's own stream, by its handler. *)
Definition answer_now (st : Requests) (id : SubscriptionId) (a : answer) : Requests := put_out st [OUT_Answer id a].
(** [send_response]: on the stream of a request, if it is still open. *)
Definition send_response (st : Requests) (id : SubscriptionId) (a : answer) : Requests * bool :=
  if bool_decide (id ∈ response_senders st) then (put_out st [OUT_Answer id a], true) else (st, false).

(** The requests whose exchange is over, whose receiver is dropped. *)
Definition gone (st : Requests) (request_id : Z) : bool := negb (is_some (exchanges st !! request_id)).

(** The signals that an operation of a track has sent reach the exchanges. *)
Definition set_signal (reason : UpstreamRequestCancellation) (x : Exchange) : Exchange :=
  mkExchange (x_name x) (x_publisher x) (x_phase x) (Some reason).
Definition set_phase (p : ExchangePhase) (x : Exchange) : Exchange := mkExchange (x_name x) (x_publisher x) p (x_signal x).
Definition signalled (st : Requests) (t : Track) : Requests :=
  with_exchanges st (fold_left (fun m (s : Z * UpstreamRequestCancellation) => alter (set_signal (snd s)) (fst s) m)
    (signals (upstream_requests (upstream t))) (exchanges st)).
Definition no_signals (t : Track) : Track :=
  with_upstream t (with_requests (upstream t) (mkUpstreamRequests (registered (upstream_requests (upstream t))) [])).
Definition put_track (st : Requests) (name : FullTrackName) (e : TrackEntry) : Requests :=
  with_table (signalled st (te_track e)) (put_entry (table st) name (set_track e (no_signals (te_track e)))).

(** ** Ends of upstream subscriptions *)

(** [Track::remove_from_subscriber_switching_sets]. *)
Definition remove_from_subscriber_switching_sets (st : Requests) (name : FullTrackName) (e : TrackEntry) : Requests :=
  with_ssts st (fold_left (fun m (id : SubscriptionId) =>
      alter (fun s => if ssts_enabled s then mkSstsState (negotiated_algorithms s) (remove (switching_sets s) name) (group_decisions s) else s)
        (fst id) m)
    (map fst (map_to_list (sm_subscriptions (manager (te_track e))))) (ssts st)).

Definition remove_upstream_publisher (st : Requests) (name : FullTrackName) (e : TrackEntry) (publisher_connection_id : Z)
    : Requests * TrackEntry * bool :=
  let alias := publisher_aliases (upstream (te_track e)) !! publisher_connection_id in
  let '(t, still_served) := remove_publisher_quietly (te_track e) publisher_connection_id in
  let e := set_track e t in
  let st := put_track st name e in
  let st := match alias with
            | Some alias => with_table st (remove_publisher_alias (table st) publisher_connection_id alias)
            | None => st
            end in
  (st, e, still_served).

(** Answers those that wait for the track. *)
Definition answer_all (a : answer) (ids : list SubscriptionId) (st : Requests) : Requests :=
  fold_left (fun st id => fst (send_response st id a)) ids st.

Definition retire_in (st : Requests) (name : FullTrackName) : Requests :=
  match tracks (table st) !! name with
  | None => st
  | Some e =>
      let '(t, cleanup, _) := retire (gone st) (te_track e) in
      let st := put_track st name (set_track e t) in
      with_table st (clean_up (table st) name cleanup)
  end.

Definition handle_subscribe_error_message (st : Requests) (request_id : Z) (code : RequestErrorCode) (phrase : option ReasonPhrase) : Requests :=
  match relay_pending_requests st !! request_id with
  | None => st
  | Some sub_request =>
      let st := with_pending_requests st (delete request_id (relay_pending_requests st)) in
      let name := Subscribe_get_full_track_name (original_subscribe_request sub_request) in
      let creator := (requested_by sub_request, original_request_id sub_request) in
      match tracks (table st) !! name with
      | Some e =>
          if bool_decide (origin (upstream (te_track e)) = TO_CacheOnly) then st
          else
            let e := set_track e (reject (te_track e) code (default (mkReasonPhrase []) phrase)) in
            let st := put_track st name e in
            let st := fst (send_response st creator (AN_Error code phrase)) in
            let pending := pending_subscribers e in
            let st := put_track st name (set_pending e []) in
            let st := answer_all (AN_Error code phrase) pending st in
            retire_in st name
      | None => fst (send_response st creator (AN_Error code phrase))
      end
  end.

Definition end_upstream_subscription (st : Requests) (relay_request_id publisher_connection_id : Z) (name : FullTrackName)
    (code : RequestErrorCode) (phrase : option ReasonPhrase) (status_code : PublishDoneStatusCode) : Requests :=
  match tracks (table st) !! name with
  | None => handle_subscribe_error_message st relay_request_id code phrase
  | Some e =>
      let confirmed := match status (upstream (te_track e)) with TS_Confirmed _ => true | _ => false end in
      let '(u, remaining) := upstream_subscribe_answered (upstream (te_track e)) in
      let e := set_track e (with_upstream (te_track e) u) in
      let st := put_track st name e in
      if negb confirmed then
        if 0 <? remaining then st else handle_subscribe_error_message st relay_request_id code phrase
      else
        let '(st, e, still_served) := remove_upstream_publisher st name e publisher_connection_id in
        if still_served then st
        else
          let st := remove_from_subscriber_switching_sets st name e in
          put_track st name (set_track e (notify_publish_done (te_track e) status_code (match phrase with Some p => Common.phrase p | None => [] end)))
  end.

(** ** SUBSCRIBE_OK of a publisher *)

(** The SUBSCRIBE_OK to a subscriber that waited, when its subscription is still there. *)
Definition answer_ok (name : FullTrackName) (params : list MessageParameter) (id : SubscriptionId) (st : Requests) : Requests :=
  match tracks (table st) !! name with
  | None => st
  | Some e =>
      match get_subscription e id with
      | None => st
      | Some s =>
          let subscribe_ok := mkSubscribeOk (track_alias s) params (properties_for_ok (subscription_state s) (track_properties (te_track e))) in
          let '(st, delivered) := send_response st id (AN_Ok subscribe_ok) in
          if delivered then put_out st [OUT_Fill id] else st
      end
  end.

Definition handle_subscribe_ok_message (st : Requests) (publisher request_id : Z) (msg : SubscribeOk) : outcome TerminationCode Requests :=
  match relay_pending_requests st !! request_id with
  | None => Ok st
  | Some sub_request =>
      if has_unsupported_mandatory (sok_track_properties msg)
      then Ok (handle_subscribe_error_message st request_id REC_UnsupportedExtension None)
      else
        let name := Subscribe_get_full_track_name (original_subscribe_request sub_request) in
        match tracks (table st) !! name with
        | None => Ok st
        | Some e =>
            if bool_decide (origin (upstream (te_track e)) = TO_CacheOnly) then Ok st
            else
              let '(tm, added) := add_track_alias (table st) publisher (sok_track_alias msg) name in
              if negb added then Err TC_DuplicateTrackAlias
              else
                let st := with_table st tm in
                let '(t, confirmed_now) := confirm (te_track e) publisher (sok_track_alias msg) (sok_parameters msg) (sok_track_properties msg) in
                let '(u, _) := upstream_subscribe_answered (upstream t) in
                let e := set_track e (with_upstream t u) in
                let st := put_track st name e in
                if negb confirmed_now then Ok st
                else
                  let params := downstream_subscribe_ok (sok_parameters msg) (Tracks.largest_object (te_track e)) in
                  let st := answer_ok name params (requested_by sub_request, original_request_id sub_request) st in
                  let st := put_track st name (set_pending e []) in
                  Ok (fold_left (fun st id => answer_ok name params id st) (pending_subscribers e) st)
        end
  end.

(** ** The exchange with a publisher *)

Inductive upstream_message : Type :=
| UM_SubscribeOk (m : SubscribeOk)
| UM_RequestError (m : RequestError)
| UM_PublishDone (m : PublishDone)
| UM_RequestUpdate
| UM_Other
| UM_Closed.

(** [forward_subscribe_upstream]: the exchange has ended. *)
Definition end_exchange (st : Requests) (request_id : Z) : Requests :=
  with_exchanges (with_pending_requests st (delete request_id (relay_pending_requests st))) (delete request_id (exchanges st)).
Definition set_exchange (st : Requests) (request_id : Z) (x : Exchange) : Requests :=
  with_exchanges st (<[request_id := x]> (exchanges st)).

(** The stream has been opened and the SUBSCRIBE sent, or that failed. *)
Definition exchange_opened (st : Requests) (request_id : Z) (x : Exchange) (sent malformed : bool) : Requests :=
  if negb sent
  then end_exchange (end_upstream_subscription st request_id (x_publisher x) (x_name x) REC_InternalError None PDS_InternalError) request_id
  else
    match tracks (table st) !! x_name x with
    | None => end_exchange st request_id
    | Some e =>
        let st := set_exchange st request_id (set_phase XP_Waiting x) in
        let u := upstream (te_track e) in
        let u := with_requests u (register (gone st) (upstream_requests u) request_id (x_publisher x) URK_Subscribe) in
        let reason := if malformed then Some URC_MalformedTrack
                      else if Nat.eqb (subscriber_count (manager (te_track e))) 0 then Some URC_Cancelled else None in
        let u := match reason with Some r => cancel_upstream_request (gone st) u request_id r | None => u end in
        put_track st (x_name x) (set_track e (with_upstream (te_track e) u))
    end.

Definition exchange_timed_out (st : Requests) (request_id : Z) (x : Exchange) : Requests :=
  end_exchange (end_upstream_subscription st request_id (x_publisher x) (x_name x) REC_Timeout None PDS_InternalError) request_id.

(** The wait for the publisher's streams is left out. *)
Definition upstream_publish_done (st : Requests) (x : Exchange) (m : PublishDone) : Requests :=
  match tracks (table st) !! x_name x with
  | None => st
  | Some e =>
      let '(t, still_served) := remove_publisher_quietly (te_track e) (x_publisher x) in
      let e := set_track e t in
      let st := put_track st (x_name x) e in
      if still_served then st
      else
        let st := remove_from_subscriber_switching_sets st (x_name x) e in
        put_track st (x_name x) (set_track e (notify_publish_done (te_track e) (pd_status_code m) (phrase (pd_reason_phrase m))))
  end.

Definition exchange_message (st : Requests) (request_id : Z) (x : Exchange) (msg : upstream_message) : Requests :=
  let st := set_exchange st request_id (set_phase XP_Answered x) in
  let failed code phrase status := end_exchange (end_upstream_subscription st request_id (x_publisher x) (x_name x) code phrase status) request_id in
  match msg with
  | UM_SubscribeOk m =>
      match handle_subscribe_ok_message st (x_publisher x) request_id m with
      | Ok st => st
      | _ => put_out (failed REC_InternalError None PDS_InternalError) [OUT_CloseSession (x_publisher x)]
      end
  | UM_RequestError m => failed (re_error_code m) (Some (re_reason_phrase m)) (publish_done_status_for (re_error_code m))
  | UM_PublishDone m => end_exchange (upstream_publish_done st x m) request_id
  | UM_RequestUpdate => put_out (failed REC_InternalError None PDS_TrackEnded) [OUT_CloseSession (x_publisher x)]
  | UM_Other => failed REC_InternalError None PDS_InternalError
  | UM_Closed => failed REC_InternalError None PDS_TrackEnded
  end.

(** The exchange sees its signal, and resets the stream. *)
Definition exchange_cancelled (st : Requests) (request_id : Z) (x : Exchange) : Requests :=
  end_exchange
    match tracks (table st) !! x_name x with
    | None => st
    | Some e =>
        if bool_decide (x_phase x = XP_Answered)
        then fst (fst (remove_upstream_publisher st (x_name x) e (x_publisher x)))
        else put_track st (x_name x) (set_track e (with_upstream (te_track e) (fst (upstream_subscribe_answered (upstream (te_track e))))))
    end request_id.

(** ** SUBSCRIBE *)

Record switch_request := mkSwitchRequest { sw_suspending : Z; sw_mode : SwitchMode; sw_done : bool }.

(** [Err]: the switch cannot be made. *)
Definition plan_switch (st : Requests) (connection_id activating_request_id : Z) (activating : FullTrackName)
    (parameters : list MessageParameter) : outcome unit (option switch_request) :=
  match find_map (fun p => match p with MP_SwitchFrom r m d => Some (r, m, d) | _ => None end) parameters with
  | None => Ok None
  | Some (request_id, mode, done) =>
      if existsb (fun p => match p with MP_Forward _ => true | _ => false end) parameters then Err ()
      else if request_id =? activating_request_id then Err ()
      else
        match find_subscription_by_request_id (table st) connection_id request_id with
        | None => Err ()
        | Some suspending => if bool_decide (suspending = activating) then Err () else Ok (Some (mkSwitchRequest request_id mode done))
        end
  end.

Definition find_assignment (parameters : list MessageParameter) : option (Z * Z * Z * Z * Z * Z) :=
  find_map (fun p => match p with
    | MP_SwitchingSetAssignment s a t w v r => Some (s, a, t, w, v, r)
    | _ => None end) parameters.

(** [ensure_upstream_forwarding] of [publish_handler.rs]. *)
Definition ensure_upstream_forwarding (st : Requests) (name : FullTrackName) : Requests :=
  match tracks (table st) !! name with
  | None => st
  | Some e =>
      let u := upstream (te_track e) in
      let is_forwarding id := match get_subscription e id with Some s => forward (subscription_state s) | None => false end in
      if negb (bool_decide (origin u = TO_Publish)) then st
      else if negb (has_forwarding_subscriber is_forwarding (te_track e)) then st
      else if upstream_forward u then st
      else
        let u' := mkUpstream (origin u) (status u) (publisher_aliases u) (stream_progress u) (upstream_requests u)
                    (pending_upstream_subscribe_count u) true in
        let st := put_track st name (set_track e (with_upstream (te_track e) u')) in
        fold_left (fun st connection_id =>
          match get_publish_request_id (table st) name connection_id with
          | None => st
          | Some request_id =>
              let st := with_next_id st (wrap64 (relay_next_request_id st + 2)) in
              if bool_decide ((connection_id, request_id) ∈ response_senders st) then put_out st [OUT_Forward (connection_id, request_id)] else st
          end) (map fst (map_to_list (publisher_aliases u))) st
  end.

(** The SUBSCRIBE to one of the publishers, on an exchange of its own. *)
Definition subscribe_upstream (name : FullTrackName) (req : SubscribeRequest) (st : Requests) (publisher : Z) : Requests :=
  let request_id := relay_next_request_id st in
  let st := with_next_id st (wrap64 (request_id + 2)) in
  let st := with_pending_requests st (<[request_id := req]> (relay_pending_requests st)) in
  set_exchange st request_id (mkExchange name publisher XP_Opening None).

Definition set_subscription (e : TrackEntry) (id : SubscriptionId) (s : Subscription) : TrackEntry :=
  match sm_subscriptions (manager (te_track e)) !! id with
  | Some n => mkEntry (te_track e) (<[n := s]> (te_subscriptions e)) (pending_subscribers e)
  | None => e
  end.

(** [reject_subscription]. *)
Definition reject_subscription (st : Requests) (name : FullTrackName) (id : SubscriptionId) : Requests :=
  match tracks (table st) !! name with
  | Some e => put_track st name (set_track e (with_manager (te_track e) (fst (sm_remove_subscription (manager (te_track e)) id))))
  | None => st
  end.

Record AppConfig := mkAppConfig {
  max_filter_ranges : Z;
  max_rendezvous_timeout : Z;
  dedup_retained_groups : nat;
  track_alias_mode : TrackAliasMode;
  max_publish_streams : Z;
  max_upstream_fetch_gaps : Z
}.

(** A refusal that does not get out is a panic of the handler, which ends the task of its
    request stream; what it has changed stays ([Err]). *)
Definition refuse (st : Requests) (id : SubscriptionId) (reached : bool) (code : RequestErrorCode) : outcome Requests Requests :=
  if reached then Ok (answer_now st id (AN_Error code None)) else Err st.

Definition ssts_of (st : Requests) (connection_id : Z) : SstsState :=
  default (mkSstsState [] SwitchingSetManager_new ∅) (ssts st !! connection_id).

(** The switching set that a SUBSCRIBE asks for. *)
Definition assign_switching_set (st : Requests) (name : FullTrackName) (relay_track_id : Z) (id : SubscriptionId)
    (parameters : list MessageParameter) : outcome unit (option SstsState) :=
  match find_assignment parameters with
  | None => Ok None
  | Some (switching_set_id, algorithm_id, threshold, weight, activate, rank) =>
      let s := ssts_of st (fst id) in
      match validate_assignment s algorithm_id with
      | Ok _ =>
          match assign (switching_sets s) name relay_track_id (snd id) switching_set_id algorithm_id threshold weight activate rank with
          | Ok sets => Ok (Some (mkSstsState (negotiated_algorithms s) sets (group_decisions s)))
          | _ => Err ()
          end
      | _ => Err ()
      end
  end.

(** The track, joined under the lock of the handover; also tells whether this request
    has to ask the publishers. *)
Definition join_track `{Target} (config : AppConfig) (st : Requests) (connection_id : Z) (sub : Subscribe)
    : panics (Requests * bool * option Subscription) :=
  let name := Subscribe_get_full_track_name sub in
  let '(tm, e, is_creator) := get_or_create_track (table st) name
    (fun relay_track_id => Track_new relay_track_id (dedup_retained_groups config) TS_Pending TO_Subscribe) in
  let st := with_table st tm in
  let '(u, taken_over) := take_over (upstream (te_track e)) TO_Subscribe TS_Pending in
  let t := with_upstream (te_track e) u in
  let '(alias, next) := pick_track_alias (track_alias_mode config) (t_relay_track_id t) (default 0 (next_track_alias st !! connection_id)) in
  let st := with_next_alias st (<[connection_id := next]> (next_track_alias st)) in
  let? joined := Tracks.add_subscription t connection_id (SO_Subscribe sub) alias in
  match joined with
  | None => Ok (put_track st name (set_track e t), is_creator || taken_over, None)
  | Some (t, s, _) =>
      Ok (put_track st name (mkEntry t (te_subscriptions e ++ [s]) (pending_subscribers e)), is_creator || taken_over, Some s)
  end.

(** What the switching set makes of a subscription that has joined. *)
Definition settle_switching_set (st : Requests) (name : FullTrackName) (id : SubscriptionId) (s : Subscription) (assigned : option SstsState) : Requests :=
  match assigned, tracks (table st) !! name with
  | Some s', Some e =>
      put_track (with_ssts st (<[fst id := s']> (ssts st))) name (set_subscription e id (with_state s (set_forward (subscription_state s) true)))
  | _, _ => st
  end.

(** The SUBSCRIBE that asks the publishers, or what the track's status tells. *)
Definition serve_subscription (st : Requests) (id : SubscriptionId) (sub : Subscribe) (is_creator switching : bool)
    (publishers : list Z) (reached : bool) : Requests :=
  let name := Subscribe_get_full_track_name sub in
  match tracks (table st) !! name with
  | None => st
  | Some e =>
      let t := te_track e in
      if is_creator then
        let u := upstream t in
        let u := mkUpstream (origin u) (status u) (publisher_aliases u) (stream_progress u) (upstream_requests u)
                   (Z.of_nat (length publishers)) (upstream_forward u) in
        let st := put_track st name (set_track e (with_upstream t u)) in
        fold_left (subscribe_upstream name (mkSubscribeRequest (snd id) (fst id) sub)) publishers st
      else
        match status (upstream t) with
        | TS_Confirmed upstream_parameters =>
            match get_subscription e id with
            | None => st
            | Some s =>
                let params := downstream_subscribe_ok upstream_parameters (Tracks.largest_object t) in
                let subscribe_ok := mkSubscribeOk (track_alias s) params
                  (properties_for_ok (subscription_state s) (track_properties t)) in
                if reached then put_out (answer_now st id (AN_Ok subscribe_ok)) (if switching then [] else [OUT_Fill id]) else st
            end
        | TS_Pending => put_track st name (set_pending e (pending_subscribers e ++ [id]))
        | TS_Rejected code phrase => if reached then answer_now st id (AN_Error code (Some phrase)) else st
        end
  end.
(** Whether it is answered on the spot. *)
Definition answers_at_once (st : Requests) (name : FullTrackName) (is_creator : bool) : bool :=
  negb is_creator &&
  match tracks (table st) !! name with
  | Some e => match status (upstream (te_track e)) with TS_Pending => false | _ => true end
  | None => false
  end.

(** [publishers]: what [wait_for_publishers] gave; [reached]: whether the subscriber's stream
    takes what is written to it.  When an answer that is due at once does not get out, the
    session is closed. *)
Definition handle_subscribe_message `{Target} (config : AppConfig) (st : Requests) (connection_id : Z) (sub : Subscribe)
    (publishers : list Z) (reached : bool) : outcome Requests Requests :=
  let name := Subscribe_get_full_track_name sub in
  let id := (connection_id, sub_request_id sub) in
  match object_filter (sub_parameters sub) (max_filter_ranges config) with
  | Panic => Panic
  | Diverge => Diverge
  | Err _ => refuse st id reached REC_InvalidFilter
  | Ok _ =>
      match plan_switch st connection_id (sub_request_id sub) name (sub_parameters sub) with
      | Ok switch_plan =>
          if is_some (reserved_namespace_rejection (sub_track_namespace sub) (sub_track_name sub)) then refuse st id reached REC_DoesNotExist
          else
            match publishers with
            | [] =>
                let code := if rendezvous_timeout (sub_parameters sub) (max_rendezvous_timeout config) =? 0 then REC_DoesNotExist else REC_Timeout in
                Ok (if reached then answer_now st id (AN_Error code None) else st)
            | _ =>
                let? joined := lift_panics (join_track config st connection_id sub) in
                let '(st, is_creator, subscription) := joined in
                match subscription with
                | None => refuse st id reached REC_InternalError
                | Some s =>
                    match assign_switching_set st name (relay_track_id s) id (sub_parameters sub) with
                    | Ok assigned =>
                        let st := settle_switching_set st name id s assigned in
                        let lost := answers_at_once st name is_creator && negb reached in
                        let st := serve_subscription st id sub is_creator (is_some switch_plan) publishers reached in
                        if lost then Ok (with_senders (put_out st [OUT_CloseSession connection_id]) (response_senders st ∖ {[id]}))
                        else
                        let st := ensure_upstream_forwarding st name in
                        let st := match switch_plan with
                                  | Some w =>
                                      put_out st [OUT_Switch id (sw_suspending w) (sw_mode w) (sw_done w) (location_filter_of (sub_parameters sub))
                                                    (tracks (table st) !! name ≫= fun e => Tracks.largest_object (te_track e)); OUT_Fill id]
                                  | None => st
                                  end in
                        Ok (with_subscribe_requests st (<[id := mkSubscribeRequest (sub_request_id sub) connection_id sub]> (subscribe_requests st)))
                    | _ => refuse (reject_subscription st name id) id reached REC_UnsupportedExtension
                    end
                end
            end
      | _ => refuse st id reached REC_InvalidSwitch
      end
  end.

(** * The end of a SUBSCRIBE's request stream *)

Definition cancel_subscription (st : Requests) (id : SubscriptionId) : Requests :=
  match subscribe_requests st !! id with
  | None => st
  | Some request =>
      let name := Subscribe_get_full_track_name (original_subscribe_request request) in
      let release_in s := mkSstsState (negotiated_algorithms s) (release (switching_sets s) name (snd id)) (group_decisions s) in
      let st := with_ssts st (alter release_in (fst id) (ssts st)) in
      let forgotten st := with_subscribe_requests st (delete id (subscribe_requests st)) in
      match tracks (table st) !! name with
      | None => forgotten st
      | Some e =>
          if negb (sm_exists (manager (te_track e)) id) then forgotten st
          else
            let '(t, cleanup, _) := remove_subscriber (gone st) (te_track e) id in
            let st := put_track st name (set_track e t) in
            forgotten (with_table st (clean_up (table st) name cleanup))
      end
  end.

(** * Steps *)

Inductive request_op : Type :=
| RO_Subscribe (connection_id : Z) (sub : Subscribe) (publishers : list Z) (reached : bool)
| RO_Opened (request_id : Z) (sent malformed : bool)
| RO_TimedOut (request_id : Z)
| RO_Message (request_id : Z) (msg : upstream_message)
| RO_Cancelled (request_id : Z)
| RO_Closed (id : SubscriptionId).

(** What the task of an exchange does is one thing after the other: a signal comes before
    a message, and the deadline is for the first answer only. *)
Definition with_exchange (st : Requests) (request_id : Z) (can : Exchange -> bool) (f : Exchange -> Requests) : panics Requests :=
  Ok (match exchanges st !! request_id with Some x => if can x then f x else st | None => st end).
Definition is_opening (x : Exchange) : bool := bool_decide (x_phase x = XP_Opening).
Definition can_time_out (x : Exchange) : bool := bool_decide (x_phase x = XP_Waiting) && negb (is_some (x_signal x)).
Definition can_receive (x : Exchange) : bool := negb (is_opening x) && negb (is_some (x_signal x)).
Definition can_cancel (x : Exchange) : bool := negb (is_opening x) && is_some (x_signal x).

(** The relay knows a request stream from when it is accepted until it closes, or until
    the task that serves it has panicked: its sender is then still in the client's map, but
    the receiver is gone. *)
Definition request_accepted (st : Requests) (id : SubscriptionId) : Requests := with_senders st ({[id]} ∪ response_senders st).
Definition task_gone (st : Requests) (id : SubscriptionId) : Requests := with_senders st (response_senders st ∖ {[id]}).
Definition request_step `{Target} (config : AppConfig) (st : Requests) (op : request_op) : panics Requests :=
  match op with
  | RO_Subscribe c sub publishers reached =>
      let id := (c, sub_request_id sub) in
      match handle_subscribe_message config (request_accepted st id) c sub publishers reached with
      | Ok st => Ok st
      | Err st => Ok (task_gone st id)
      | Panic => Panic
      | Diverge => Diverge
      end
  | RO_Opened r sent malformed => with_exchange st r is_opening (fun x => exchange_opened st r x sent malformed)
  | RO_TimedOut r => with_exchange st r can_time_out (exchange_timed_out st r)
  | RO_Message r msg => with_exchange st r can_receive (fun x => exchange_message st r x msg)
  | RO_Cancelled r => with_exchange st r can_cancel (exchange_cancelled st r)
  | RO_Closed id => Ok (let st := cancel_subscription st id in with_senders st (response_senders st ∖ {[id]}))
  end.
(** Whether a handler panics. *)
Definition handler_panics `{Target} (config : AppConfig) (st : Requests) (op : request_op) : bool :=
  match op with
  | RO_Subscribe c sub publishers reached =>
      match handle_subscribe_message config (request_accepted st (c, sub_request_id sub)) c sub publishers reached with Ok _ => false | _ => true end
  | _ => false
  end.
Definition run_requests `{Target} (config : AppConfig) (st : Requests) (ops : list request_op) : panics Requests :=
  for_each ops (request_step config) st.
Definition Requests_new (ssts : gmap Z SstsState) : Requests := mkRequests TrackTable_new ∅ ∅ ∅ ∅ ssts ∅ 1 [].
