(* ===== verification/RequestTables.v ===== *)
(** The tables of the relay's tracks agree with each other, whatever requests come.

    The maps of a track's subscribers tell the same, each track is found under the
    aliases its publishers chose and under no other's, and no two tracks share their
    number. *)
From stdpp Require Import gmap.
From S2P Require Import Prelude Varint Common Codes TrackName LocationFilter RangeFilter Properties MessageParameter CombinedFilter.
From S2P Require Import Control Subgroup Datagram FetchObject ObjectForms DataStream SeenObjects TrackCache SwitchingSet Controller.
From S2P Require Import Streams Subscription Forwarding Tracks Parameters TrackTable Requests.

(** * Subscribers *)

Record manager_ok (m : SubscriptionManager) : Prop := {
  mo_senders : subscriber_senders m = sm_subscriptions m;
  mo_ids : forall id, sm_exists m id = is_some (sm_subscriptions m !! id);
  mo_filled : forall c s, subscriber_request_ids m !! c = Some s -> s <> ∅;
  mo_bound : forall id n, sm_subscriptions m !! id = Some n -> (n < length (channels m))%nat;
  mo_inj : forall i j n, sm_subscriptions m !! i = Some n -> sm_subscriptions m !! j = Some n -> i = j
}.

Lemma manager_new_ok : manager_ok SubscriptionManager_new.
Proof. split; try done. Qed.

Lemma sm_add_ok m id m' n : manager_ok m -> sm_add_subscription m id = Some (m', n) ->
  manager_ok m' /\ n = length (channels m) /\ length (channels m') = S (length (channels m)) /\
  sm_subscriptions m' = <[id := n]> (sm_subscriptions m) /\ sm_subscriptions m !! id = None.
Proof.
  intros [Hs Hi Hf Hb Hj]. unfold sm_add_subscription. destruct (sm_subscriptions m !! id) as [k|] eqn:E; [done|].
  intros [= <- <-]. split_and!; try done; [|simpl; rewrite length_app; simpl; lia]. split; simpl.
  - by rewrite Hs.
  - intros [c r]. specialize (Hi (c, r)). unfold sm_exists in *. simpl in *. destruct id as [c' r']. simpl in *.
    destruct (decide (c' = c)) as [->|Hc].
    + rewrite lookup_insert_eq. destruct (decide (r' = r)) as [->|Hr].
      * rewrite lookup_insert_eq. simpl. apply bool_decide_eq_true. set_solver.
      * rewrite lookup_insert_ne by congruence. rewrite <- Hi. destruct (subscriber_request_ids m !! c) as [s|]; simpl.
        -- apply bool_decide_ext. set_solver.
        -- apply bool_decide_eq_false. set_solver.
    + by rewrite !lookup_insert_ne by congruence.
  - intros c s. destruct (decide (fst id = c)) as [<-|Hc]; [rewrite lookup_insert_eq|rewrite lookup_insert_ne by done; apply Hf].
    intros [= <-]. set_solver.
  - intros i k. rewrite length_app. simpl. destruct (decide (id = i)) as [<-|Hne]; [rewrite lookup_insert_eq|rewrite lookup_insert_ne by done].
    + intros [= <-]. lia.
    + intros H%Hb. lia.
  - intros i j k. destruct (decide (id = i)) as [<-|Hi'], (decide (id = j)) as [<-|Hj']; try done;
      rewrite ?lookup_insert_eq, ?lookup_insert_ne by done; try apply Hj; intros H1 H2; simplify_eq.
    + apply Hb in H2. lia.
    + apply Hb in H1. lia.
Qed.

Lemma drop_request_id_at ids id c :
  drop_request_id ids id !! c =
    if decide (fst id = c) then ids !! c ≫= fun s => if bool_decide (s ∖ {[snd id]} = ∅) then None else Some (s ∖ {[snd id]})
    else ids !! c.
Proof.
  unfold drop_request_id. destruct (decide (fst id = c)) as [<-|Hc].
  - destruct (ids !! fst id) as [s|] eqn:E; [|done]. simpl. case_bool_decide; [apply lookup_delete_eq|apply lookup_insert_eq].
  - destruct (ids !! fst id) as [s|]; [|done]. case_bool_decide; [by apply lookup_delete_ne|by apply lookup_insert_ne].
Qed.

Lemma sm_remove_ok m id : manager_ok m ->
  manager_ok (fst (sm_remove_subscription m id)) /\
  sm_subscriptions (fst (sm_remove_subscription m id)) = delete id (sm_subscriptions m) /\
  channels (fst (sm_remove_subscription m id)) = channels m.
Proof.
  intros [Hs Hi Hf Hb Hj]. split; [|done]. split; simpl.
  - by rewrite Hs.
  - intros [c r]. specialize (Hi (c, r)). unfold sm_exists in *. destruct id as [c' r']. simpl in *. rewrite drop_request_id_at. simpl.
    destruct (decide (c' = c)) as [->|Hc]; [|by rewrite lookup_delete_ne by congruence].
    destruct (decide (r' = r)) as [->|Hr].
    + rewrite lookup_delete_eq. destruct (subscriber_request_ids m !! c) as [s|]; simpl; [|done].
      destruct (bool_decide (s ∖ {[r]} = ∅)); [done|]. apply bool_decide_eq_false. set_solver.
    + rewrite lookup_delete_ne by congruence. rewrite <- Hi. destruct (subscriber_request_ids m !! c) as [s|]; simpl; [|done].
      destruct (bool_decide (s ∖ {[r']} = ∅)) eqn:Hd; [|apply bool_decide_ext; set_solver].
      apply bool_decide_eq_true in Hd. symmetry. apply bool_decide_eq_false. set_solver.
  - intros c s. rewrite drop_request_id_at. case_decide; [|apply Hf].
    destruct (subscriber_request_ids m !! c) as [s0|]; simpl; [|done]. case_bool_decide; [done|]. by intros [= <-].
  - intros i k [_ H]%lookup_delete_Some. by apply Hb in H.
  - intros i j k [_ H1]%lookup_delete_Some [_ H2]%lookup_delete_Some. by eapply Hj.
Qed.

Lemma detach_ok m : manager_ok m -> manager_ok (fst (detach_all m)).
Proof. intros _. split; try done. Qed.

Lemma send_event_ok m event : manager_ok m ->
  manager_ok (send_event_to_subscribers m event) /\ length (channels (send_event_to_subscribers m event)) = length (channels m).
Proof.
  intros [Hs Hi Hf Hb Hj]. split; [|simpl; apply length_imap]. split; try done. simpl. intros id n H. rewrite length_imap. by eapply Hb.
Qed.

(** * Entries *)

Record entry_ok (e : TrackEntry) : Prop := {
  eo_manager : manager_ok (manager (te_track e));
  eo_length : length (te_subscriptions e) = length (channels (manager (te_track e)));
  eo_of_track : Forall (fun s => relay_track_id s = t_relay_track_id (te_track e)) (te_subscriptions e)
}.
Definition aliases_of (e : TrackEntry) : gmap Z Z := publisher_aliases (upstream (te_track e)).
Definition signals_of (e : TrackEntry) : list (Z * UpstreamRequestCancellation) := signals (upstream_requests (upstream (te_track e))).
Definition held (e : TrackEntry) : gmap SubscriptionId nat := sm_subscriptions (manager (te_track e)).

Lemma get_subscription_held e id : entry_ok e -> is_some (get_subscription e id) = is_some (held e !! id).
Proof.
  intros [Hm Hl _]. unfold get_subscription, held. destruct (sm_subscriptions _ !! id) as [n|] eqn:E; [|done].
  apply (mo_bound _ Hm) in E. rewrite <- Hl in E. apply lookup_lt_is_Some in E as [s Hs]. by rewrite Hs.
Qed.

(** What the operations of a track leave as it was. *)
Record same_entry (e0 e : TrackEntry) : Prop := {
  se_ok : entry_ok e;
  se_id : t_relay_track_id (te_track e) = t_relay_track_id (te_track e0);
  se_aliases : aliases_of e ⊆ aliases_of e0
}.

Lemma same_entry_refl e : entry_ok e -> same_entry e e.
Proof. by split. Qed.

Lemma same_upstream e u : entry_ok e -> publisher_aliases u ⊆ aliases_of e -> same_entry e (set_track e (with_upstream (te_track e) u)).
Proof. intros [] H. by split; [split|..]. Qed.

Lemma same_pending e l : entry_ok e -> same_entry e (set_pending e l).
Proof. intros []. by split; [split|..]. Qed.

Lemma same_trans e0 e1 e2 : same_entry e0 e1 -> same_entry e1 e2 -> same_entry e0 e2.
Proof. intros [] []. split; [done|congruence|by etransitivity]. Qed.

Lemma same_manager e m : entry_ok e -> manager_ok m -> length (channels m) = length (channels (manager (te_track e))) ->
  same_entry e (set_track e (with_manager (te_track e) m)).
Proof. intros [] Hm Hl. split; [split|done..]; [done| |done]. simpl. congruence. Qed.

(** * Tables *)

Record tables_ok (tm : TrackTable) : Prop := {
  tk_entries : forall name e, tracks tm !! name = Some e -> entry_ok e;
  tk_quiet : forall name e, tracks tm !! name = Some e -> signals_of e = [];
  tk_routed : forall name e c a, tracks tm !! name = Some e -> aliases_of e !! c = Some a -> track_aliases tm !! (c, a) = Some name;
  tk_numbered : forall name e, tracks tm !! name = Some e -> 0 <= t_relay_track_id (te_track e) < next_relay_track_id tm;
  tk_apart : forall n1 n2 e1 e2, tracks tm !! n1 = Some e1 -> tracks tm !! n2 = Some e2 ->
    t_relay_track_id (te_track e1) = t_relay_track_id (te_track e2) -> n1 = n2;
  tk_next : 0 <= next_relay_track_id tm
}.

Lemma tables_new_ok : tables_ok TrackTable_new.
Proof. by split. Qed.

Lemma put_entry_ok tm name e0 e : tables_ok tm -> tracks tm !! name = Some e0 -> same_entry e0 e -> signals_of e = [] ->
  tables_ok (put_entry tm name e).
Proof.
  intros [He Hq Hr Hn Ha Hx] H0 [Ho Hid Hal] Hsig. split; simpl; [..|done].
  - intros n x. rewrite lookup_insert_Some. intros [[<- <-]|[_ H]]; [done|by eapply He].
  - intros n x. rewrite lookup_insert_Some. intros [[<- <-]|[_ H]]; [done|by eapply Hq].
  - intros n x c a. rewrite lookup_insert_Some. intros [[<- <-]|[_ H]]; [|by eapply Hr].
    intros H. eapply Hr; [exact H0|]. by eapply lookup_weaken.
  - intros n x. rewrite lookup_insert_Some. intros [[<- <-]|[_ H]]; [rewrite Hid; by eapply Hn|by eapply Hn].
  - intros n1 n2 x1 x2. rewrite !lookup_insert_Some. intros [[<- <-]|[_ H1]] [[<- <-]|[_ H2]] E; [done|..].
    + eapply Ha; [exact H0|exact H2|congruence].
    + eapply Ha; [exact H1|exact H0|congruence].
    + by eapply Ha.
Qed.

(** No publisher of a track leads to it by this alias. *)
Definition unrouted (tm : TrackTable) (c a : Z) : Prop :=
  forall name e, tracks tm !! name = Some e -> aliases_of e !! c <> Some a.

Lemma remove_alias_tracks tm c a : tracks (remove_publisher_alias tm c a) = tracks tm.
Proof. unfold remove_publisher_alias. by destruct (track_aliases tm !! (c, a)). Qed.

Lemma remove_alias_ok tm c a : tables_ok tm -> unrouted tm c a -> tables_ok (remove_publisher_alias tm c a).
Proof.
  intros [He Hq Hr Hn Ha Hx] Hu. unfold remove_publisher_alias. destruct (track_aliases tm !! (c, a)); [|done].
  split; simpl; try done. intros n e c' a' H1 H2. rewrite lookup_delete_ne; [by eapply Hr|].
  intros [= -> ->]. by apply (Hu n e).
Qed.

Lemma remove_aliases_ok l tm : tables_ok tm -> Forall (fun x : Z * Z => unrouted tm (fst x) (snd x)) l ->
  tables_ok (fold_left (fun tm (a : Z * Z) => remove_publisher_alias tm (fst a) (snd a)) l tm).
Proof.
  revert tm. induction l as [|[c a] l IH]; intros tm Ht Hu; [done|]. simpl. apply Forall_cons in Hu as [Hu Hl]. apply IH.
  - by apply remove_alias_ok.
  - eapply Forall_impl; [exact Hl|]. intros x H n e. rewrite remove_alias_tracks. apply H.
Qed.

Lemma unrouted_put tm name e0 e c a : tables_ok tm -> tracks tm !! name = Some e0 -> aliases_of e0 !! c = Some a ->
  aliases_of e !! c = None -> unrouted (put_entry tm name e) c a.
Proof.
  intros [He Hq Hr Hn Ha Hx] H0 Ha0 Hnone n x. simpl. rewrite lookup_insert_Some. intros [[<- <-]|[Hne H]]; [congruence|].
  intros Hx'. assert (track_aliases tm !! (c, a) = Some name) by (by eapply Hr).
  assert (track_aliases tm !! (c, a) = Some n) by (by eapply Hr). congruence.
Qed.

Lemma fold_delete_lookup {A} (l : list (Z * Z)) (m : gmap (Z * Z) A) k :
  fold_left (fun m (a : Z * Z) => delete a m) l m !! k = if bool_decide (k ∈ l) then None else m !! k.
Proof.
  revert m. induction l as [|x l IH]; intros m; [by rewrite bool_decide_eq_false_2 by apply not_elem_of_nil|].
  change (fold_left (fun m (a : Z * Z) => delete a m) l (delete x m) !! k = if bool_decide (k ∈ x :: l) then None else m !! k). rewrite IH. destruct (decide (k ∈ l)) as [Hl|Hl].
  - rewrite !bool_decide_eq_true_2; [done|by right|done].
  - rewrite (bool_decide_eq_false_2 (k ∈ l)) by done. destruct (decide (k = x)) as [->|Hne].
    + rewrite lookup_delete_eq, bool_decide_eq_true_2; [done|by left].
    + rewrite lookup_delete_ne by done. rewrite bool_decide_eq_false_2; [done|]. rewrite elem_of_cons. intuition.
Qed.

Lemma remove_track_ok tm name : tables_ok tm -> tables_ok (remove_track tm name).
Proof.
  intros [He Hq Hr Hn Ha Hx]. unfold remove_track. destruct (tracks tm !! name) as [e0|] eqn:E0; [|by split].
  split; simpl; try done; try (intros n e [_ H]%lookup_delete_Some; by eauto).
  - intros n e c a [Hne H]%lookup_delete_Some Hal. rewrite fold_delete_lookup, bool_decide_eq_false_2; [by eapply Hr|].
    intros Hin. apply elem_of_map_to_list in Hin.
    assert (track_aliases tm !! (c, a) = Some name) by (by eapply Hr).
    assert (track_aliases tm !! (c, a) = Some n) by (by eapply Hr). congruence.
  - intros n1 n2 e1 e2 [_ H1]%lookup_delete_Some [_ H2]%lookup_delete_Some. by eapply Ha.
Qed.

(** * Operations of a track *)

Lemma cancel_of_kind_upstream gone u kind reason : publisher_aliases (cancel_upstream_requests_of_kind gone u kind reason) = publisher_aliases u.
Proof. done. Qed.

Lemma become_cache_only_cases gone t : exists cl t', become_cache_only gone t = (t', cl) /\
  t_relay_track_id t' = t_relay_track_id t /\ manager t' = manager t /\
  ((cl = CL_RemoveTrack /\ t' = t) \/
   (cl = CL_RemoveAliases (map_to_list (publisher_aliases (upstream t))) /\ publisher_aliases (upstream t') = ∅ /\
    origin (upstream t') = TO_CacheOnly /\ status (upstream t') = TS_Pending)).
Proof.
  unfold become_cache_only. destruct (is_empty (cache (content t))); eexists _, _; split_and!; try done; [by left|by right].
Qed.

(** What a track that has let go of its publishers, or has not, leaves to be done. *)
Definition cleanup_fits (e0 e : TrackEntry) (cl : Cleanup) : Prop :=
  match cl with CL_RemoveAliases l => l = map_to_list (aliases_of e0) /\ aliases_of e = ∅ | _ => True end.

Lemma retire_same gone e : entry_ok e ->
  let '(t, cl, _) := retire gone (te_track e) in same_entry e (set_track e t) /\ cleanup_fits e (set_track e t) cl.
Proof.
  intros [Hm Hl Hf]. unfold retire. destruct (become_cache_only_cases gone (te_track e)) as (cl & t' & -> & Hid & Hman & H).
  destruct H as [[-> ->]|(-> & Hal & _)].
  - split; [|done]. by split.
  - simpl. split; [|by split]. split; [split; simpl| |].
    + apply detach_ok. by rewrite Hman.
    + by rewrite Hman.
    + by rewrite Hid.
    + done.
    + unfold aliases_of. simpl. rewrite Hal. apply map_empty_subseteq.
Qed.

Lemma remove_subscriber_same gone e id : entry_ok e ->
  let '(t, cl, _) := remove_subscriber gone (te_track e) id in same_entry e (set_track e t) /\ cleanup_fits e (set_track e t) cl.
Proof.
  intros [Hm Hl Hf]. unfold remove_subscriber. destruct (sm_remove_subscription (manager (te_track e)) id) as [m c] eqn:E.
  destruct (sm_remove_ok _ id Hm) as (Hm' & Hs & Hc). rewrite E in Hm', Hs, Hc. simpl in *.
  assert (Hsame : forall u, publisher_aliases u ⊆ aliases_of e ->
    same_entry e (set_track e (with_upstream (with_manager (te_track e) m) u))).
  { intros u Hu. split; [split; simpl|done|done]; [done|congruence|done]. }
  destruct (negb _); [split; [|done]; split; [split; simpl|done|done]; [done|congruence|done]|].
  destruct (negb _); [split; [by apply Hsame|done]|].
  match goal with |- context [become_cache_only gone ?t] => destruct (become_cache_only_cases gone t) as (cl & t' & -> & Hid & Hman & H) end.
  simpl in *. destruct H as [[-> ->]|(-> & Hal & _)].
  - split; [by apply Hsame|done].
  - split; [|by split]. split; [split; simpl|done|].
    + by rewrite Hman.
    + rewrite Hman. congruence.
    + by rewrite Hid.
    + unfold aliases_of. simpl. rewrite Hal. apply map_empty_subseteq.
Qed.

Lemma clean_up_ok tm name e0 e cl : tables_ok tm -> tracks tm !! name = Some e0 -> same_entry e0 e -> signals_of e = [] ->
  cleanup_fits e0 e cl -> tables_ok (clean_up (put_entry tm name e) name cl).
Proof.
  intros Ht H0 Hs Hq Hc. pose proof (put_entry_ok _ _ _ _ Ht H0 Hs Hq) as Hp. destruct cl as [|l|]; simpl in *; [done| |by apply remove_track_ok].
  destruct Hc as [-> Hal]. apply remove_aliases_ok; [done|]. apply Forall_forall. intros [c a] Hin%elem_of_map_to_list. simpl.
  eapply unrouted_put; [done..|]. by rewrite Hal.
Qed.

Lemma put_entry_next tm name e : next_relay_track_id (put_entry tm name e) = next_relay_track_id tm.
Proof. done. Qed.
Lemma remove_alias_next tm c a : next_relay_track_id (remove_publisher_alias tm c a) = next_relay_track_id tm.
Proof. unfold remove_publisher_alias. by destruct (track_aliases tm !! (c, a)). Qed.
Lemma clean_up_next tm name cl : next_relay_track_id (clean_up tm name cl) = next_relay_track_id tm.
Proof.
  destruct cl as [|l|]; simpl; [done| |].
  - revert tm. induction l as [|x l IH]; intros tm; [done|]. simpl. rewrite IH. apply remove_alias_next.
  - unfold remove_track. by destruct (tracks tm !! name).
Qed.

Lemma notify_same e code reason : entry_ok e -> same_entry e (set_track e (notify_publish_done (te_track e) code reason)).
Proof. intros H. pose proof H as [Hm _ _]. apply (send_event_ok _ (TE_PublisherDisconnected code reason)) in Hm as [Hm' Hl]. by apply same_manager. Qed.

Lemma take_publisher_same e c : entry_ok e ->
  let '(t, _) := remove_publisher_quietly (te_track e) c in
  same_entry e (set_track e t) /\ aliases_of (set_track e t) = delete c (aliases_of e).
Proof. intros H. simpl. split; [|done]. apply same_upstream; [done|]. simpl. apply delete_subseteq. Qed.

Lemma answered_same e : entry_ok e -> same_entry e (set_track e (with_upstream (te_track e) (fst (upstream_subscribe_answered (upstream (te_track e)))))).
Proof. intros H. apply same_upstream; [done|]. unfold upstream_subscribe_answered. by destruct (0 <? _). Qed.

(** * Handlers *)

Definition quiet (e : TrackEntry) : TrackEntry := set_track e (no_signals (te_track e)).

(** The entry of a track, but for the signals that it has sent. *)
Definition holds_entry (st : Requests) (name : FullTrackName) (e : TrackEntry) : Prop :=
  tables_ok (table st) /\ tracks (table st) !! name = Some (quiet e) /\ entry_ok e.

Lemma quiet_id e : signals_of e = [] -> quiet e = e.
Proof.
  unfold signals_of. destruct e as [[id c [o s pa sp [reg sig] n f] m ps] subs pend]. simpl. by intros ->.
Qed.

Lemma holds_entry_at st name e : tables_ok (table st) -> tracks (table st) !! name = Some e -> holds_entry st name e.
Proof. intros Ht H. split; [done|]. rewrite quiet_id by (by eapply tk_quiet). split; [done|by eapply tk_entries]. Qed.

Lemma quiet_same e0 e : same_entry e0 e -> same_entry (quiet e0) (quiet e).
Proof. intros [[] Hid Hal]. by split; [split|..]. Qed.

Lemma put_track_holds st name e0 e : holds_entry st name e0 -> same_entry e0 e -> holds_entry (put_track st name e) name e.
Proof.
  intros (Ht & H0 & _) Hs. split_and!; [|apply lookup_insert_eq|apply Hs].
  change (tables_ok (put_entry (table st) name (quiet e))). eapply put_entry_ok; [done..|by apply quiet_same|done].
Qed.

Lemma with_table_holds st st' name e : table st' = table st -> holds_entry st name e -> holds_entry st' name e.
Proof. unfold holds_entry. by intros ->. Qed.

Definition tables_kept (st st' : Requests) : Prop :=
  tables_ok (table st) -> tables_ok (table st') /\ next_relay_track_id (table st') = next_relay_track_id (table st).

Lemma tables_same st st' : table st' = table st -> tables_kept st st'.
Proof. unfold tables_kept. by intros ->. Qed.
Lemma tables_trans st1 st2 st3 : tables_kept st1 st2 -> tables_kept st2 st3 -> tables_kept st1 st3.
Proof. intros H1 H2 H. apply H1 in H as [H E]. apply H2 in H as [H E']. split; [done|congruence]. Qed.

Lemma send_response_table st id a : table (fst (send_response st id a)) = table st.
Proof. unfold send_response. by case_bool_decide. Qed.
Lemma answer_all_table a l st : table (answer_all a l st) = table st.
Proof. revert st. induction l as [|id l IH]; intros st; [done|]. simpl. rewrite IH. apply send_response_table. Qed.
Lemma answer_ok_table name params id st : table (answer_ok name params id st) = table st.
Proof.
  unfold answer_ok. destruct (tracks (table st) !! name) as [e|]; [|done]. destruct (get_subscription e id); [|done].
  destruct (send_response st id _) as [st1 d] eqn:E. pose proof (send_response_table st id) as H. specialize (H (AN_Ok (mkSubscribeOk (track_alias s) params (properties_for_ok (subscription_state s) (track_properties (te_track e)))))).
  rewrite E in H. by destruct d.
Qed.
Lemma answer_ok_all_table name params l st :
  table (fold_left (fun st id => answer_ok name params id st) l st) = table st.
Proof. revert st. induction l as [|id l IH]; intros st; [done|]. simpl. rewrite IH. apply answer_ok_table. Qed.

Lemma put_track_kept st name e : holds_entry (put_track st name e) name e ->
  tables_ok (table (put_track st name e)) /\ next_relay_track_id (table (put_track st name e)) = next_relay_track_id (table st).
Proof. intros H. split; [apply H|done]. Qed.

Lemma retire_in_kept st name : tables_kept st (retire_in st name).
Proof.
  intros Ht. unfold retire_in. destruct (tracks (table st) !! name) as [e|] eqn:E; [|done].
  pose proof (tk_entries _ Ht _ _ E) as He. pose proof (retire_same (gone st) e He) as H. destruct (retire _ _) as [[t cl] ids].
  destruct H as [Hs Hc]. simpl. split; [|by rewrite clean_up_next].
  eapply (clean_up_ok _ _ e (quiet (set_track e t))); [done..| |done|exact Hc].
  rewrite <- (quiet_id e) by (by eapply tk_quiet). by apply quiet_same.
Qed.

Lemma reject_same e code phrase : entry_ok e -> same_entry e (set_track e (reject (te_track e) code phrase)).
Proof. intros H. by apply same_upstream. Qed.

Lemma error_message_kept st request_id code phrase : tables_kept st (handle_subscribe_error_message st request_id code phrase).
Proof.
  intros Ht. unfold handle_subscribe_error_message. destruct (relay_pending_requests st !! request_id) as [req|]; [|done].
  set (st1 := with_pending_requests st _). set (name := Subscribe_get_full_track_name _). set (creator := (requested_by req, _)).
  change (table st) with (table st1) in *. clearbody st1. destruct (tracks (table st1) !! name) as [e|] eqn:E.
  2: { rewrite send_response_table. done. }
  case_bool_decide; [done|]. apply (holds_entry_at _ _ _ Ht) in E. pose proof (proj2 (proj2 E)) as He.
  set (e1 := set_track e _). pose proof (put_track_holds st1 name e e1 E (reject_same _ _ _ He)) as H1.
  set (st2 := fst (send_response _ creator _)).
  assert (H2 : holds_entry st2 name e1) by (eapply with_table_holds; [apply send_response_table|exact H1]).
  pose proof (put_track_holds st2 name e1 (set_pending e1 []) H2 (same_pending e1 [] (proj2 (proj2 H1)))) as H3.
  set (st3 := put_track st2 _ _) in *. set (a := AN_Error _ _) in *.
  set (st4 := answer_all a _ st3). assert (E4 : table st4 = table st3) by apply answer_all_table.
  destruct (retire_in_kept st4 name) as [H5 E5]; [rewrite E4; apply H3|]. split; [done|]. rewrite E5, E4.
  change (next_relay_track_id (table st3)) with (next_relay_track_id (table st2)). unfold st2. by rewrite send_response_table.
Qed.

Lemma aliases_quiet e : aliases_of (quiet e) = aliases_of e.
Proof. done. Qed.

Lemma remove_upstream_publisher_holds st name e c : holds_entry st name e ->
  let '(st', e', _) := remove_upstream_publisher st name e c in
  holds_entry st' name e' /\ next_relay_track_id (table st') = next_relay_track_id (table st) /\ same_entry e e' /\
  held e' = held e /\ te_subscriptions e' = te_subscriptions e.
Proof.
  intros H. unfold remove_upstream_publisher. pose proof (take_publisher_same e c (proj2 (proj2 H))) as Hs.
  destruct (remove_publisher_quietly (te_track e) c) as [t still] eqn:Er. destruct Hs as [Hs Hal].
  pose proof (put_track_holds st name e _ H Hs) as H1.
  assert (Hh : held (set_track e t) = held e) by (unfold remove_publisher_quietly, take_publisher in Er; by injection Er as <- <-).
  fold (aliases_of e). destruct (aliases_of e !! c) as [a|] eqn:Ea; [|done].
  split_and!; [|simpl; by rewrite remove_alias_next|done..]. destruct H1 as (H1 & E1 & He1). split_and!; [| |done].
  - apply remove_alias_ok; [exact H1|]. apply (unrouted_put _ _ (quiet e)); [apply H|apply H|done|].
    change (aliases_of (set_track e t) !! c = None). rewrite Hal. apply lookup_delete_eq.
  - simpl. rewrite remove_alias_tracks. exact E1.
Qed.

Lemma end_upstream_kept st request_id c name code phrase status :
  tables_kept st (end_upstream_subscription st request_id c name code phrase status).
Proof.
  intros Ht. unfold end_upstream_subscription. destruct (tracks (table st) !! name) as [e|] eqn:E; [|by apply error_message_kept].
  apply (holds_entry_at _ _ _ Ht) in E. pose proof (answered_same e (proj2 (proj2 E))) as Hs.
  destruct (upstream_subscribe_answered (upstream (te_track e))) as [u remaining]. simpl fst in Hs.
  set (e1 := set_track e _) in *. pose proof (put_track_holds st name e e1 E Hs) as H1.
  assert (En : next_relay_track_id (table (put_track st name e1)) = next_relay_track_id (table st)) by done.
  set (st1 := put_track st name e1) in *. clearbody st1. rewrite <- En. clear En.
  destruct (negb _).
  - destruct (0 <? remaining); [split; [apply H1|done]|]. apply error_message_kept, H1.
  - pose proof (remove_upstream_publisher_holds st1 name e1 c H1) as H2.
    destruct (remove_upstream_publisher st1 name e1 c) as [[st2 e2] still]. destruct H2 as (H2 & En & _).
    rewrite <- En. destruct still; [split; [apply H2|done]|].
    set (st3 := remove_from_subscriber_switching_sets st2 name e2). assert (H3 : holds_entry st3 name e2) by (by apply (with_table_holds st2)).
    eapply (put_track_kept st3), put_track_holds; [exact H3|apply notify_same, H2].
Qed.

Lemma add_alias_ok tm c a name : tables_ok tm ->
  tables_ok (fst (add_track_alias tm c a name)) /\ tracks (fst (add_track_alias tm c a name)) = tracks tm /\
  next_relay_track_id (fst (add_track_alias tm c a name)) = next_relay_track_id tm /\
  (snd (add_track_alias tm c a name) = true -> track_aliases (fst (add_track_alias tm c a name)) !! (c, a) = Some name).
Proof.
  intros [He Hq Hr Hn Ha Hx]. unfold add_track_alias. destruct (track_aliases tm !! (c, a)) as [n|] eqn:E; simpl.
  - split_and!; [by split|done..|]. rewrite bool_decide_eq_true. by intros ->.
  - split_and!; [split; try done|done..|]; simpl; [|intros; apply lookup_insert_eq].
    intros n e c' a' H1 H2. rewrite lookup_insert_ne; [by eapply Hr|]. intros [= <- <-].
    specialize (Hr _ _ _ _ H1 H2). congruence.
Qed.

Lemma put_routed tm name e0 e : tables_ok tm -> tracks tm !! name = Some e0 -> entry_ok e -> signals_of e = [] ->
  t_relay_track_id (te_track e) = t_relay_track_id (te_track e0) ->
  (forall c a, aliases_of e !! c = Some a -> track_aliases tm !! (c, a) = Some name) -> tables_ok (put_entry tm name e).
Proof.
  intros [He Hq Hr Hn Ha Hx] H0 Ho Hsig Hid Hal. split; simpl; [..|done].
  - intros n x. rewrite lookup_insert_Some. intros [[<- <-]|[_ H]]; [done|by eapply He].
  - intros n x. rewrite lookup_insert_Some. intros [[<- <-]|[_ H]]; [done|by eapply Hq].
  - intros n x c a. rewrite lookup_insert_Some. intros [[<- <-]|[_ H]]; [apply Hal|by eapply Hr].
  - intros n x. rewrite lookup_insert_Some. intros [[<- <-]|[_ H]]; [rewrite Hid|]; by eapply Hn.
  - intros n1 n2 x1 x2. rewrite !lookup_insert_Some. intros [[<- <-]|[_ H1]] [[<- <-]|[_ H2]] E; [done|..].
    + eapply Ha; [exact H0|exact H2|congruence].
    + eapply Ha; [exact H1|exact H0|congruence].
    + by eapply Ha.
Qed.

Lemma answered_aliases u : publisher_aliases (fst (upstream_subscribe_answered u)) = publisher_aliases u.
Proof. unfold upstream_subscribe_answered. by destruct (0 <? _). Qed.

(** What a publisher's SUBSCRIBE_OK makes of the track. *)
Lemma confirm_entry e c a params props : entry_ok e ->
  let '(t, now) := confirm (te_track e) c a params props in
  let e' := set_track e (with_upstream t (fst (upstream_subscribe_answered (upstream t)))) in
  entry_ok e' /\ t_relay_track_id (te_track e') = t_relay_track_id (te_track e) /\ aliases_of e' = <[c := a]> (aliases_of e) /\
  held e' = held e /\ pending_subscribers e' = pending_subscribers e.
Proof.
  intros [Hm Hl Hf]. unfold confirm. cbn zeta. destruct (status _); cbv zeta; (split_and!; [by split|done| |done|done]); unfold aliases_of; cbn [te_track set_track with_upstream upstream];
    by rewrite answered_aliases.
Qed.

Lemma ok_message_kept st publisher request_id msg :
  match handle_subscribe_ok_message st publisher request_id msg with Ok st' => tables_kept st st' | _ => True end.
Proof.
  unfold handle_subscribe_ok_message. destruct (relay_pending_requests st !! request_id) as [req|]; [|by apply tables_same].
  destruct (has_unsupported_mandatory _); [apply error_message_kept|]. set (name := Subscribe_get_full_track_name _).
  destruct (tracks (table st) !! name) as [e|] eqn:E; [|by apply tables_same]. destruct (bool_decide _); [by apply tables_same|].
  destruct (add_track_alias (table st) publisher (sok_track_alias msg) name) as [tm added] eqn:Et.
  destruct added; simpl; [|done].
  assert (H : tables_ok (table st) -> tables_ok tm /\ tracks tm = tracks (table st) /\
    next_relay_track_id tm = next_relay_track_id (table st) /\ track_aliases tm !! (publisher, sok_track_alias msg) = Some name).
  { intros Ht. destruct (add_alias_ok (table st) publisher (sok_track_alias msg) name Ht) as (?&?&?&?). rewrite Et in *. by split_and!; auto. }
  pose proof (confirm_entry e publisher (sok_track_alias msg) (sok_parameters msg) (sok_track_properties msg)) as Hc.
  destruct (confirm _ _ _ _ _) as [t now]. simpl in Hc. destruct (upstream_subscribe_answered (upstream t)) as [u n]. simpl in Hc.
  set (e1 := set_track e (with_upstream t u)) in *.
  assert (Hk : tables_kept st (put_track (with_table st tm) name e1)).
  { intros Ht. destruct (H Ht) as (Htm & Etr & En & Eal). destruct (Hc (tk_entries _ Ht _ _ E)) as ([] & Hid & Ha & _). split; [|exact En].
    apply (put_routed tm name e); simpl; [done|by rewrite Etr|by split|done|exact Hid|].
    intros c a. change (aliases_of (quiet e1) !! c = Some a -> track_aliases tm !! (c, a) = Some name). rewrite aliases_quiet, Ha, lookup_insert_Some.
    intros [[<- <-]|[_ Hca]]; [done|]. pose proof (tk_routed _ Htm name e) as Hr. rewrite Etr in Hr. by eapply Hr. }
  destruct now; simpl; [|exact Hk]. eapply tables_trans; [exact Hk|].
  set (st1 := put_track (with_table st tm) name e1) in *.
  set (params := downstream_subscribe_ok _ _). set (st2 := answer_ok name params _ st1).
  assert (E2 : table st2 = table st1) by apply answer_ok_table. eapply tables_trans; [|apply tables_same, answer_ok_all_table].
  intros Ht. assert (tracks (table st1) !! name = Some (quiet e1)) as E1 by apply lookup_insert_eq.
  pose proof (tk_entries _ Ht _ _ E1) as He1.
  assert (Hh : holds_entry st2 name e1) by (unfold holds_entry; rewrite E2; split_and!; [done..|by destruct He1]).
  split; [|simpl; by rewrite E2]. eapply put_track_holds; [exact Hh|]. by apply same_pending, Hh.
Qed.

Lemma entry_put_kept st name e0 e : tracks (table st) !! name = Some e0 -> (entry_ok e0 -> same_entry e0 e) ->
  tables_kept st (put_track st name e).
Proof.
  intros E Hs Ht. eapply put_track_kept, put_track_holds; [by eapply holds_entry_at|]. by apply Hs, (tk_entries _ Ht _ _ E).
Qed.

Lemma opened_kept st r x sent malformed : tables_kept st (exchange_opened st r x sent malformed).
Proof.
  unfold exchange_opened. destruct (negb sent).
  - eapply tables_trans; [apply end_upstream_kept|by apply tables_same].
  - destruct (tracks (table st) !! x_name x) as [e|] eqn:E; [|by apply tables_same].
    eapply tables_trans; [by apply (tables_same st (set_exchange st r (set_phase XP_Waiting x)))|]. eapply entry_put_kept; [exact E|].
    intros He. apply same_upstream; [done|]. destruct malformed; [done|]. by destruct (Nat.eqb _ _).
Qed.

Lemma timed_out_kept st r x : tables_kept st (exchange_timed_out st r x).
Proof. eapply tables_trans; [apply end_upstream_kept|by apply tables_same]. Qed.

Lemma publish_done_kept st x m : tables_kept st (upstream_publish_done st x m).
Proof.
  unfold upstream_publish_done. destruct (tracks (table st) !! x_name x) as [e|] eqn:E; [|by apply tables_same].
  intros Ht. apply (holds_entry_at _ _ _ Ht) in E. pose proof (take_publisher_same e (x_publisher x) (proj2 (proj2 E))) as Hs.
  destruct (remove_publisher_quietly _ _) as [t still]. destruct Hs as [Hs _]. pose proof (put_track_holds _ _ _ _ E Hs) as H1.
  destruct still; [split; [apply H1|done]|].
  set (st1 := put_track _ _ _) in *. set (st2 := remove_from_subscriber_switching_sets _ _ _).
  assert (H2 : holds_entry st2 (x_name x) (set_track e t)) by (by apply (with_table_holds st1)).
  eapply (put_track_kept st2), put_track_holds; [exact H2|apply notify_same, H2].
Qed.

Lemma message_kept st r x msg : tables_kept st (exchange_message st r x msg).
Proof.
  unfold exchange_message. set (st1 := set_exchange _ _ _). eapply (tables_trans st st1); [by apply tables_same|].
  assert (Hf : forall code phrase status st', st' = end_exchange (end_upstream_subscription st1 r (x_publisher x) (x_name x) code phrase status) r ->
    tables_kept st1 st') by (intros ???? ->; eapply tables_trans; [apply end_upstream_kept|by apply tables_same]).
  destruct msg as [m|m|m| | |]; try (by eapply Hf).
  - pose proof (ok_message_kept st1 (x_publisher x) r m) as H. destruct (handle_subscribe_ok_message _ _ _ _); [exact H|..];
      (eapply tables_trans; [by eapply Hf|by apply tables_same]).
  - eapply tables_trans; [apply publish_done_kept|by apply tables_same].
  - eapply tables_trans; [by eapply Hf|by apply tables_same].
Qed.

Lemma cancelled_kept st r x : tables_kept st (exchange_cancelled st r x).
Proof.
  unfold exchange_cancelled. eapply tables_trans; [|by apply tables_same].
  destruct (tracks (table st) !! x_name x) as [e|] eqn:E; [|by apply tables_same]. case_bool_decide as Hp.
  - intros Ht. pose proof (holds_entry_at _ _ _ Ht E) as H1. pose proof (remove_upstream_publisher_holds st (x_name x) e (x_publisher x) H1) as H.
    destruct (remove_upstream_publisher _ _ _ _) as [[st' e'] still]. simpl. destruct H as (H & En & _). split; [apply H|exact En].
  - eapply entry_put_kept; [exact E|apply answered_same].
Qed.

Lemma cancel_subscription_kept st id : tables_kept st (cancel_subscription st id).
Proof.
  unfold cancel_subscription. destruct (subscribe_requests st !! id) as [req|]; [|by apply tables_same].
  set (name := Subscribe_get_full_track_name _). set (st1 := with_ssts st _). eapply (tables_trans st st1); [by apply tables_same|].
  clearbody st1. destruct (tracks (table st1) !! name) as [e|] eqn:E; [|by apply tables_same].
  destruct (negb _); [by apply tables_same|]. intros Ht. pose proof (tk_entries _ Ht _ _ E) as He.
  pose proof (remove_subscriber_same (gone st1) e id He) as H. destruct (remove_subscriber _ _ _) as [[t cl] c]. destruct H as [Hs Hc].
  simpl. split; [|by rewrite clean_up_next]. eapply (clean_up_ok _ _ e (quiet (set_track e t))); [done..| |done|exact Hc].
  rewrite <- (quiet_id e) by (by eapply tk_quiet). by apply quiet_same.
Qed.

(** * SUBSCRIBE *)

Lemma create_track_ok tm name dedup status origin : tables_ok tm -> next_relay_track_id tm + 1 < U64 ->
  let '(tm', e, created) := get_or_create_track tm name (fun n => Track_new n dedup status origin) in
  tables_ok tm' /\ tracks tm' !! name = Some e /\ next_relay_track_id tm' <= next_relay_track_id tm + 1.
Proof.
  intros Ht Hb. unfold get_or_create_track. destruct (tracks tm !! name) as [e|] eqn:E; [split_and!; [done..|lia]|].
  pose proof Ht as [He Hq Hr Hn Ha Hx]. simpl. rewrite lookup_insert_eq.
  assert (Ew : wrap64 (next_relay_track_id tm + 1) = next_relay_track_id tm + 1) by (apply Z.mod_small; lia).
  rewrite Ew. split_and!; [|done|lia]. split; simpl; [..|lia].
  - intros n x. rewrite lookup_insert_Some. intros [[<- <-]|[_ H]]; [|by eapply He]. split; simpl; [apply manager_new_ok|done|done].
  - intros n x. rewrite lookup_insert_Some. intros [[<- <-]|[_ H]]; [done|by eapply Hq].
  - intros n x c a. rewrite lookup_insert_Some. intros [[<- <-]|[_ H]]; [done|by eapply Hr].
  - intros n x. rewrite lookup_insert_Some. intros [[<- <-]|[_ H]]; [simpl; lia|]. apply Hn in H. lia.
  - intros n1 n2 x1 x2. rewrite !lookup_insert_Some. intros [[<- <-]|[_ H1]] [[<- <-]|[_ H2]] E'; [done|..]; simpl in E'.
    + apply Hn in H2. lia.
    + apply Hn in H1. lia.
    + by eapply Ha.
Qed.

Lemma create_ok tm name dedup : tables_ok tm -> next_relay_track_id tm + 1 < U64 ->
  let '(tm', e, created) := get_or_create_track tm name (fun n => Track_new n dedup TS_Pending TO_Subscribe) in
  tables_ok tm' /\ tracks tm' !! name = Some e /\ next_relay_track_id tm' <= next_relay_track_id tm + 1.
Proof. apply create_track_ok. Qed.

Lemma take_over_aliases u o s : publisher_aliases (fst (take_over u o s)) = publisher_aliases u.
Proof. unfold take_over. by case_bool_decide. Qed.

(** A subscription joins the others of the track. *)
Lemma add_subscription_entry `{Target} e u c o alias t s n : entry_ok e -> publisher_aliases u = aliases_of e ->
  Tracks.add_subscription (with_upstream (te_track e) u) c o alias = Ok (Some (t, s, n)) ->
  same_entry e (mkEntry t (te_subscriptions e ++ [s]) (pending_subscribers e)) /\
  sm_subscriptions (manager t) = <[(c, origin_request_id o) := n]> (held e) /\ held e !! (c, origin_request_id o) = None /\
  n = length (te_subscriptions e) /\ upstream t = u /\ relay_track_id s = t_relay_track_id (te_track e).
Proof.
  intros [Hm Hl Hf] Hu. unfold Tracks.add_subscription. intros (s0 & _ & E)%obind_Ok_inv.
  destruct (sm_add_subscription _ _) as [[m k]|] eqn:Em; [|done]. injection E as <- <- <-.
  destruct (sm_add_ok _ _ _ _ Hm Em) as (Hm' & -> & Hl' & Hs' & Hfresh). split_and!; try done. split; [split|done|]; simpl.
  - done.
  - rewrite length_app, Hl, Hl'. simpl. lia.
  - apply Forall_app. split; [done|]. by constructor.
  - unfold aliases_of. simpl. by rewrite Hu.
Qed.

Definition room (st : Requests) : Prop := next_relay_track_id (table st) + 1 < U64.
(** Kept by a request that may create a track. *)
Definition tables_grown (st st' : Requests) : Prop :=
  tables_ok (table st) -> room st ->
  tables_ok (table st') /\ next_relay_track_id (table st') <= next_relay_track_id (table st) + 1.
Lemma grown_kept st1 st2 st3 : tables_grown st1 st2 -> tables_kept st2 st3 -> tables_grown st1 st3.
Proof. intros H1 H2 H Hr. destruct (H1 H Hr) as [H3 E]. apply H2 in H3 as [H3 E']. split; [done|lia]. Qed.
Lemma grown_same st st' : table st' = table st -> tables_grown st st'.
Proof. intros E H _. rewrite E. split; [done|lia]. Qed.

Lemma join_track_kept `{Target} config st c sub st' creator s : join_track config st c sub = Ok (st', creator, s) -> tables_grown st st'.
Proof.
  unfold join_track. intros Hj Ht Hr. set (name := Subscribe_get_full_track_name sub) in *.
  pose proof (create_ok (table st) name (dedup_retained_groups config) Ht Hr) as Hc.
  destruct (get_or_create_track _ _ _) as [[tm e] created]. destruct Hc as (Htm & Ee & En).
  pose proof (tk_entries _ Htm _ _ Ee) as He.
  pose proof (take_over_aliases (upstream (te_track e)) TO_Subscribe TS_Pending) as Hu.
  destruct (take_over _ _ _) as [u taken]. destruct (pick_track_alias _ _ _) as [alias next].
  apply obind_Ok_inv in Hj as (joined & Ej & Hj).
  assert (Hput : forall stx ex, table stx = tm -> same_entry e ex -> tables_ok (table (put_track stx name ex)) /\
    next_relay_track_id (table (put_track stx name ex)) <= next_relay_track_id (table st) + 1).
  { intros stx ex Ex Hs. destruct (put_track_kept stx name ex) as [H1 H2].
    - eapply put_track_holds; [|exact Hs]. split; [by rewrite Ex|]. split; [rewrite Ex, quiet_id; [done|by eapply tk_quiet]|done].
    - split; [done|]. rewrite H2, Ex. lia. }
  destruct joined as [[[t s0] n]|]; injection Hj as <- _ _; apply Hput; try done.
  - by apply (add_subscription_entry e u) in Ej as [Hs _].
  - apply same_upstream; [done|]. simpl in Hu. by rewrite Hu.
Qed.

Lemma set_subscription_same e id s : entry_ok e -> relay_track_id s = t_relay_track_id (te_track e) -> same_entry e (set_subscription e id s).
Proof.
  intros [Hm Hl Hf] Hs. unfold set_subscription. destruct (sm_subscriptions _ !! id) as [n|]; [|by split].
  split; [split|done|done]; simpl; [done|by rewrite length_insert|]. by apply Forall_insert.
Qed.

Lemma subscribe_upstream_table name req l st : table (fold_left (subscribe_upstream name req) l st) = table st.
Proof. revert st. induction l as [|p l IH]; intros st; [done|]. simpl. by rewrite IH. Qed.

Lemma serve_kept st id sub creator switching publishers reached :
  tables_kept st (serve_subscription st id sub creator switching publishers reached).
Proof.
  unfold serve_subscription. set (name := Subscribe_get_full_track_name sub).
  destruct (tracks (table st) !! name) as [e|] eqn:E; [|by apply tables_same]. destruct creator.
  - eapply tables_trans; [|apply tables_same, subscribe_upstream_table]. eapply entry_put_kept; [exact E|]. intros He. by apply same_upstream.
  - destruct (status _).
    + eapply entry_put_kept; [exact E|]. intros He. by apply same_pending.
    + destruct (get_subscription e id), reached; by apply tables_same.
    + destruct reached; by apply tables_same.
Qed.

Lemma forwarding_table st name l : table (fold_left (fun st connection_id =>
    match get_publish_request_id (table st) name connection_id with
    | None => st
    | Some request_id =>
        let st := with_next_id st (wrap64 (relay_next_request_id st + 2)) in
        if bool_decide ((connection_id, request_id) ∈ response_senders st) then put_out st [OUT_Forward (connection_id, request_id)] else st
    end) l st) = table st.
Proof.
  revert st. induction l as [|c l IH]; intros st; [done|]. simpl. rewrite IH. destruct (get_publish_request_id _ _ _); [|done].
  by case_bool_decide.
Qed.

Lemma ensure_forwarding_kept st name : tables_kept st (ensure_upstream_forwarding st name).
Proof.
  unfold ensure_upstream_forwarding. destruct (tracks (table st) !! name) as [e|] eqn:E; [|by apply tables_same].
  destruct (negb (bool_decide (origin (upstream (te_track e)) = TO_Publish))); [by apply tables_same|].
  destruct (negb _); [by apply tables_same|]. destruct (upstream_forward _); [by apply tables_same|].
  eapply tables_trans; [|apply tables_same, forwarding_table]. eapply entry_put_kept; [exact E|]. intros He. by apply same_upstream.
Qed.

Lemma reject_subscription_kept st name id : tables_kept st (reject_subscription st name id).
Proof.
  unfold reject_subscription. destruct (tracks (table st) !! name) as [e|] eqn:E; [|by apply tables_same].
  eapply entry_put_kept; [exact E|]. intros He. destruct (sm_remove_ok _ id (eo_manager _ He)) as (Hm & Hs & Hc).
  apply same_manager; [done|done|by rewrite Hc].
Qed.

(** ** The whole of a SUBSCRIBE *)

Lemma obind_returns {E A B} (r : outcome E A) (k : A -> outcome E B) :
  returns r -> (forall a, r = Ok a -> returns (k a)) -> returns (obind r k).
Proof. destruct r; simpl; auto. Qed.

Lemma validate_returns f kind : returns (RangeFilter.validate f kind).
Proof.
  unfold RangeFilter.validate. apply obind_returns.
  - destruct (has_property_type kind), (property_type f); try done. by destruct (negb _).
  - intros _ _. apply obind_returns; [apply RangeFilter_ranges_returns|]. intros rs _. by destruct (if bool_decide _ then _ else _).
Qed.

Lemma for_objects_returns params : returns (for_objects params).
Proof.
  unfold for_objects. apply obind_returns; [|intros f _; by destruct (has_track_filters f)].
  unfold CombinedFilter_new. generalize CombinedFilter_default ([] : list filter_key).
  induction params as [|p l IH]; intros filter seen; [done|]. simpl. destruct p as [ | | | | | | | | | | | | |? [f|]| | | | ]; try apply IH.
  case_bool_decide; [done|]. apply obind_returns; [apply validate_returns|]. intros. apply IH.
Qed.

Lemma check_param_limit_returns limit : forall p s, returns (check_param_limit limit p s).
Proof.
  fix F 1. intros [ | | | | | | | | | | | |ps|? ?| | | | ] s; try exact I. simpl. apply obind_returns; [|intros r _; by destruct (_ && _)].
  generalize (false, 0). induction ps as [|p l IH]; intros acc; [exact I|]. apply obind_returns; [apply F|]. intros. apply IH.
Qed.

Lemma object_filter_returns params limit : returns (object_filter params limit).
Proof.
  unfold object_filter. apply obind_returns.
  - unfold check_filter_range_limit. apply obind_returns; [|intros r _; by destruct (_ && _)].
    generalize (false, 0). induction params as [|p l IH]; intros s; [done|]. apply obind_returns; [apply check_param_limit_returns|]. intros. apply IH.
  - intros _ _. apply obind_returns; [|intros; apply for_objects_returns].
    induction params as [|p l IH]; [done|]. simpl. destruct p; try apply IH. apply obind_returns; [apply for_objects_returns|]. intros. apply IH.
Qed.

Lemma object_filter_state sub limit F : object_filter (sub_parameters sub) limit = Ok F ->
  exists s, SubscriptionState_from (SO_Subscribe sub) = Ok s.
Proof.
  unfold object_filter. intros (_ & _ & (_ & _ & E)%obind_Ok_inv)%obind_Ok_inv. unfold SubscriptionState_from. rewrite E. eauto.
Qed.

Lemma join_track_returns `{Target} config st c sub F limit : object_filter (sub_parameters sub) limit = Ok F ->
  exists st' creator s, join_track config st c sub = Ok (st', creator, s).
Proof.
  intros [s Es]%object_filter_state. unfold join_track. destruct (get_or_create_track _ _ _) as [[tm e] created].
  destruct (take_over _ _ _) as [u taken]. destruct (pick_track_alias _ _ _) as [alias next]. unfold Tracks.add_subscription. rewrite Es. simpl.
  destruct (sm_add_subscription _ _) as [[m n]|]; simpl; eauto.
Qed.

Lemma settle_kept st name id s assigned e : tracks (table st) !! name = Some e -> get_subscription e id = Some s ->
  tables_kept st (settle_switching_set st name id s assigned).
Proof.
  intros E Hs. unfold settle_switching_set. destruct assigned as [s'|]; [|by apply tables_same]. rewrite E.
  set (st1 := with_ssts st _). eapply (tables_trans st st1); [by apply tables_same|]. eapply entry_put_kept; [exact E|].
  intros He. apply set_subscription_same; [done|]. simpl. unfold get_subscription in Hs. destruct (sm_subscriptions _ !! id); [|done].
  by apply (proj1 (Forall_lookup _ _) (eo_of_track _ He)) in Hs.
Qed.

Lemma get_subscription_quiet e id : get_subscription (quiet e) id = get_subscription e id.
Proof. done. Qed.

(** The subscription that a join gives is the one the track has. *)
Lemma join_track_found `{Target} config st c sub st' creator s : join_track config st c sub = Ok (st', creator, Some s) ->
  tables_ok (table st) -> room st ->
  exists e, tracks (table st') !! Subscribe_get_full_track_name sub = Some e /\ get_subscription e (c, sub_request_id sub) = Some s.
Proof.
  unfold join_track. intros Hj Ht Hr. pose proof (create_ok (table st) (Subscribe_get_full_track_name sub) (dedup_retained_groups config) Ht Hr) as Hc.
  destruct (get_or_create_track _ _ _) as [[tm e] created]. destruct Hc as (Htm & Ee & En).
  pose proof (tk_entries _ Htm _ _ Ee) as He. pose proof (take_over_aliases (upstream (te_track e)) TO_Subscribe TS_Pending) as Hu.
  destruct (take_over _ _ _) as [u taken]. destruct (pick_track_alias _ _ _) as [alias next].
  apply obind_Ok_inv in Hj as ([[[t s0] n]|] & Ej & Hj); [|done]. injection Hj as <- _ <-.
  apply (add_subscription_entry e u) in Ej as (Hs & Hsub & Hfr & -> & _ & _); [|done|done]. eexists. split; [apply lookup_insert_eq|].
  unfold get_subscription. cbn [te_track te_subscriptions set_track no_signals with_upstream manager]. rewrite Hsub, lookup_insert_eq.
  by rewrite lookup_app_r, Nat.sub_diag by done.
Qed.

(** A handler returns, or panics when its refusal does not get out. *)
Definition handler_ends (st : Requests) (reached : bool) (r : outcome Requests Requests) : Prop :=
  exists st', (r = Ok st' \/ reached = false /\ r = Err st') /\ tables_grown st st'.

Lemma refuse_ends st st1 id reached code : tables_grown st st1 -> handler_ends st reached (refuse st1 id reached code).
Proof.
  intros Hg. destruct reached; [|exists st1; split; [by right|done]]. eexists. split; [by left|].
  eapply grown_kept; [exact Hg|by apply tables_same].
Qed.

Lemma subscribe_grown `{Target} config st c sub publishers reached :
  tables_ok (table st) -> room st -> handler_ends st reached (handle_subscribe_message config st c sub publishers reached).
Proof.
  intros Ht Hr. unfold handle_subscribe_message. set (name := Subscribe_get_full_track_name sub). set (id := (c, _)).
  assert (Hid : tables_grown st st) by by apply grown_same.
  assert (Hok : forall st', tables_grown st st' -> handler_ends st reached (Ok st')) by (intros st' Hg; exists st'; split; [by left|done]).
  pose proof (object_filter_returns (sub_parameters sub) (max_filter_ranges config)) as Hf.
  destruct (object_filter _ _) as [F|e| |] eqn:EF; try done; [|by apply refuse_ends].
  destruct (plan_switch _ _ _ _ _) as [plan|e| |]; try by apply refuse_ends.
  destruct (is_some (reserved_namespace_rejection _ _)); [by apply refuse_ends|].
  destruct publishers as [|p publishers]; [apply Hok; destruct reached; by apply grown_same|].
  destruct (join_track_returns config st c sub F _ EF) as (st1 & creator & s & Ej). rewrite Ej. cbn [lift_panics obind].
  pose proof (join_track_kept _ _ _ _ _ _ _ Ej) as Hg. destruct s as [s|]; [|by apply refuse_ends].
  destruct (join_track_found _ _ _ _ _ _ _ Ej Ht Hr) as (e & Ee & Hs).
  destruct (assign_switching_set _ _ _ _ _) as [assigned|?| |].
  2-4: apply refuse_ends; eapply grown_kept; [exact Hg|apply reject_subscription_kept].
  set (lost := _ && _). set (st2 := serve_subscription _ _ _ _ _ _ _).
  assert (H2 : tables_grown st st2).
  { eapply grown_kept; [exact Hg|]. eapply tables_trans; [eapply settle_kept; [exact Ee|exact Hs]|apply serve_kept]. }
  destruct lost; apply Hok; (eapply grown_kept; [exact H2|]); [by apply tables_same|].
  eapply tables_trans; [apply ensure_forwarding_kept|]. by apply tables_same; destruct plan.
Qed.

Lemma only_unreached_panics `{Target} config st op : tables_ok (table st) -> room st -> handler_panics config st op = true ->
  exists c sub publishers, op = RO_Subscribe c sub publishers false.
Proof.
  intros Ht Hr. destruct op as [c sub ps reached| | | | |]; simpl; try done.
  destruct (subscribe_grown config (request_accepted st (c, sub_request_id sub)) c sub ps reached Ht Hr) as (st' & [->|[-> ->]] & _); [done|]. intros _. eauto.
Qed.

Lemma request_step_tables `{Target} config st op : tables_ok (table st) -> room st ->
  exists st', request_step config st op = Ok st' /\ tables_ok (table st') /\
    next_relay_track_id (table st') <= next_relay_track_id (table st) + 1.
Proof.
  intros Ht Hr. assert (Hk : forall st', tables_kept st st' -> tables_ok (table st') /\ next_relay_track_id (table st') <= next_relay_track_id (table st) + 1).
  { intros st' H1. destruct (H1 Ht) as [H2 H3]. split; [done|lia]. }
  destruct op as [c sub ps reached|r sent mal|r|r msg|r|id]; simpl; unfold with_exchange.
  1: { destruct (subscribe_grown config (request_accepted st (c, sub_request_id sub)) c sub ps reached Ht Hr) as (st' & [->|[_ ->]] & Hg);
       (eexists; split; [reflexivity|by apply Hg]). }
  all: eexists; split; [reflexivity|]; apply Hk; try (destruct (exchanges st !! r) as [x|]; [destruct (_ x); [|by apply tables_same]|by apply tables_same]).
  - apply opened_kept.
  - apply timed_out_kept.
  - apply message_kept.
  - apply cancelled_kept.
  - apply cancel_subscription_kept.
Qed.

(** Whatever SUBSCRIBEs, answers, timeouts, cancellations and closed streams come,
    in whatever order, none makes the relay panic, and its tables go on agreeing: the maps
    of each track's subscribers tell the same and lead to its subscriptions, each alias
    that a publisher of the track chose leads back to the track, nothing is left
    unsignalled, and no two tracks share their number. *)
Theorem request_tables_agree `{Target} config st ops :
  tables_ok (table st) -> next_relay_track_id (table st) + Z.of_nat (length ops) < U64 ->
  exists st', run_requests config st ops = Ok st' /\ tables_ok (table st').
Proof.
  revert st. induction ops as [|op ops IH]; intros st Ht Hb; [by exists st|]. simpl length in Hb.
  destruct (request_step_tables config st op Ht) as (st1 & E1 & Ht1 & Hn); [unfold room; lia|].
  destruct (IH st1 Ht1) as (st' & E & H'); [lia|]. exists st'. split; [|done]. unfold run_requests. simpl. by rewrite E1.
Qed.
