(* ===== verification/RequestAnswers.v ===== *)
(** Every SUBSCRIBE is answered, and only once.

    What holds between two steps is said track by track ([local]); a step works on one
    track, and leaves what holds of the others ([untouched]). *)
From stdpp Require Import gmap.
From S2P Require Import Prelude Varint Common Codes TrackName LocationFilter RangeFilter Properties MessageParameter CombinedFilter.
From S2P Require Import Control Subgroup Datagram FetchObject ObjectForms DataStream SeenObjects TrackCache SwitchingSet Controller.
From S2P Require Import Streams Subscription Forwarding Tracks Parameters TrackTable Requests RequestTables.

(** * Answers *)

Definition answers (o : list output) : list SubscriptionId :=
  omap (fun x => match x with OUT_Answer id _ => Some id | _ => None end) o.
Definition answered (st : Requests) : list SubscriptionId := answers (outputs st).

Definition name_of (req : SubscribeRequest) : FullTrackName := Subscribe_get_full_track_name (original_subscribe_request req).
Definition creator_of (req : SubscribeRequest) : SubscriptionId := (requested_by req, original_request_id req).

(** * What holds of a track *)

Definition of_name (n : FullTrackName) (m : gmap Z Exchange) : gmap Z Exchange := filter (fun x => x_name (snd x) = n) m.

(** The requests that a track waits for to be answered are those of its exchanges. *)
Definition awaits (st : Requests) (n : FullTrackName) (ex : option Z) (count : Z) (creator : SubscriptionId) : Prop :=
  0 < count /\ Z.of_nat (size (of_name n (exchanges st))) = count /\
  forall r x, exchanges st !! r = Some x -> x_name x = n ->
    (ex = Some r \/ x_phase x <> XP_Answered) /\ x_signal x = None /\
    exists req, relay_pending_requests st !! r = Some req /\ name_of req = n /\ creator_of req = creator.

Definition waiting_ok (used : list SubscriptionId) (st : Requests) (e : TrackEntry) (l : list SubscriptionId) : Prop :=
  NoDup l /\ forall id, id ∈ l -> id ∈ used /\ (id ∈ response_senders st -> is_Some (held e !! id) /\ id ∉ answered st).

(** [ex]: the exchange that has its answer, which is being dealt with. *)
Definition track_ok (used : list SubscriptionId) (ex : option Z) (st : Requests) (n : FullTrackName) (e : TrackEntry) : Prop :=
  match origin (upstream (te_track e)), status (upstream (te_track e)) with
  | TO_CacheOnly, TS_Pending =>
      held e = ∅ /\ NoDup (pending_subscribers e) /\
      forall id, id ∈ pending_subscribers e -> id ∈ used /\ id ∉ response_senders st
  | TO_Subscribe, TS_Confirmed _ =>
      held e <> ∅ /\ pending_subscribers e = [] /\ forall id, is_Some (held e !! id) -> id ∈ answered st
  | TO_Subscribe, TS_Pending =>
      held e <> ∅ /\ exists creator,
        waiting_ok used st e (creator :: pending_subscribers e) /\
        (forall id, is_Some (held e !! id) -> id ∈ creator :: pending_subscribers e) /\
        awaits st n ex (pending_upstream_subscribe_count (upstream (te_track e))) creator
  | _, _ => False
  end.

Ltac track_cases e := destruct (origin (upstream (te_track e))) eqn:?, (status (upstream (te_track e))) eqn:?; try done.

Definition registered_in (e : TrackEntry) : list UpstreamRequest := registered (upstream_requests (upstream (te_track e))).

Record entry_local (used : list SubscriptionId) (ex : option Z) (st : Requests) (n : FullTrackName) (e : TrackEntry) : Prop := {
  el_track : track_ok used ex st n e;
  el_held : forall id, is_Some (held e !! id) ->
    id ∈ used /\ id ∈ response_senders st /\ exists req, subscribe_requests st !! id = Some req /\ name_of req = n;
  el_registered : forall ur, ur ∈ registered_in e -> ur_request_id ur < relay_next_request_id st /\
    forall x, exchanges st !! ur_request_id ur = Some x -> x_name x = n
}.

Record local (used : list SubscriptionId) (ex : option Z) (st : Requests) (n : FullTrackName) : Prop := {
  lo_entry : forall e, tracks (table st) !! n = Some e -> entry_local used ex st n e;
  lo_exchange : forall r x, exchanges st !! r = Some x -> x_name x = n ->
    r < relay_next_request_id st /\ exists req, relay_pending_requests st !! r = Some req /\ name_of req = n;
  lo_pending : forall r req, relay_pending_requests st !! r = Some req -> name_of req = n ->
    (exists x, exchanges st !! r = Some x /\ x_name x = n) /\ creator_of req ∈ used /\
    (creator_of req ∈ response_senders st ->
      exists e, tracks (table st) !! n = Some e /\ origin (upstream (te_track e)) = TO_Subscribe /\ is_Some (held e !! creator_of req))
}.

(** * What a step leaves alone *)

Record untouched (used : list SubscriptionId) (m : FullTrackName) (st st' : Requests) : Prop := {
  un_track : tracks (table st') !! m = tracks (table st) !! m;
  un_exchange : forall r x, x_name x = m -> exchanges st' !! r = Some x <-> exchanges st !! r = Some x;
  un_pending : forall r req, name_of req = m -> relay_pending_requests st' !! r = Some req <-> relay_pending_requests st !! r = Some req;
  un_next : relay_next_request_id st <= relay_next_request_id st';
  un_new : forall r x, exchanges st' !! r = Some x -> exchanges st !! r = None -> relay_next_request_id st <= r;
  un_senders : forall id, id ∈ response_senders st' -> id ∈ response_senders st \/ id ∉ used;
  un_kept : forall id req, id ∈ response_senders st -> subscribe_requests st !! id = Some req -> name_of req = m ->
    id ∈ response_senders st' /\ subscribe_requests st' !! id = Some req;
  un_requests : forall id req, subscribe_requests st' !! id = Some req -> subscribe_requests st !! id = Some req;
  un_answers : exists l, answered st' = answered st ++ l /\ forall id, id ∈ l -> id ∈ used ->
    id ∈ response_senders st /\ forall req, subscribe_requests st !! id = Some req -> name_of req <> m
}.

Lemma untouched_refl used m st : untouched used m st st.
Proof.
  split; try done; eauto; [by intros r x ->|]. exists []. rewrite app_nil_r. split; [done|]. intros id H. by apply not_elem_of_nil in H.
Qed.

Lemma untouched_trans used m st1 st2 st3 : untouched used m st1 st2 -> untouched used m st2 st3 -> untouched used m st1 st3.
Proof.
  intros [T1 E1 P1 N1 W1 S1 K1 Q1 A1] [T2 E2 P2 N2 W2 S2 K2 Q2 A2]. split.
  - congruence.
  - intros r x Hx. by rewrite E2, E1.
  - intros r x Hx. by rewrite P2, P1.
  - lia.
  - intros r x H3 H1. destruct (exchanges st2 !! r) as [y|] eqn:H2; [by eapply W1|]. specialize (W2 _ _ H3 H2). lia.
  - intros id [H|H]%S2; [by apply S1|by right].
  - intros id req H1 H2 H3. destruct (K1 _ _ H1 H2 H3). by apply K2.
  - intros id req H%Q2. by apply Q1.
  - destruct A1 as (l1 & Ea1 & A1), A2 as (l2 & Ea2 & A2). exists (l1 ++ l2). rewrite Ea2, Ea1, app_assoc. split; [done|].
    intros id [H|H]%elem_of_app Hu; [by apply A1|]. destruct (A2 id H Hu) as [Hs Hr].
    destruct (S1 id Hs) as [Hs1|]; [|done]. split; [done|]. intros req Hq Hm. destruct (K1 _ _ Hs1 Hq Hm) as [_ Hq2]. by apply (Hr req).
Qed.

Lemma of_name_same used m st st' : untouched used m st st' -> of_name m (exchanges st') = of_name m (exchanges st).
Proof.
  intros [_ E _ _ _ _ _ _ _]. unfold of_name. apply map_eq. intros r. apply option_eq. intros x.
  rewrite !map_lookup_filter_Some. simpl. split; intros [H Hx]; split; try done; by apply (E r x).
Qed.

Lemma untouched_new_answer used ex m st st' e id : untouched used m st st' -> entry_local used ex st m e ->
  is_Some (held e !! id) -> id ∉ answered st -> id ∉ answered st'.
Proof.
  intros U [_ Hh _] H Hn. destruct (un_answers _ _ _ _ U) as (l & -> & A). rewrite elem_of_app. intros [|Hl]; [done|].
  destruct (Hh id H) as (Hu & Hs & req & Hr & Hm). destruct (A id Hl Hu) as [_ HA]. by apply (HA req).
Qed.

Lemma track_ok_untouched used ex m st st' e : untouched used m st st' -> entry_local used ex st m e -> track_ok used ex st' m e.
Proof.
  intros U L. pose proof (el_track _ _ _ _ _ L) as T. pose proof U as [U1 U2 U3 U4 U5 U6 U7 _ U8]. unfold track_ok in *.
  track_cases e.
  - destruct T as (Hne & creator & [Hnd Hw] & Hc & Ha). split; [done|]. exists creator. split_and!; [split; [done|]|done|].
    + intros id Hid. destruct (Hw id Hid) as [Hu Hs]. split; [done|]. intros Hs'. destruct (U6 id Hs') as [Hs0|]; [|done].
      destruct (Hs Hs0) as [Hh Hn]. split; [done|]. by eapply untouched_new_answer.
    + destruct Ha as (Hpos & Hsz & Hx). split_and!; [done|by rewrite (of_name_same used m st st')|].
      intros r x Hr Hm. apply (U2 r x Hm) in Hr. destruct (Hx r x Hr Hm) as (Hp & Hsig & req & Hq & Hn & Hcr). split_and!; [done..|].
      exists req. split_and!; [by apply U3|done|done].
  - destruct T as (Hne & Hp & Ha). split_and!; [done..|]. intros id Hid. destruct U8 as (l & -> & _). apply elem_of_app. left. by apply Ha.
  - destruct T as (Hne & Hnd & Ha). split_and!; [done..|]. intros id Hid. destruct (Ha id Hid) as [Hu Hs]. split; [done|].
    intros [|]%U6; done.
Qed.

Lemma entry_untouched used ex m st st' e : untouched used m st st' -> entry_local used ex st m e -> entry_local used ex st' m e.
Proof.
  intros U L. split; [by eapply track_ok_untouched|..]; destruct L as [T H R], U as [U1 U2 U3 U4 U5 U6 U7 _ U8].
  - intros id Hid. destruct (H id Hid) as (Hu & Hs & req & Hq & Hn). split; [done|]. destruct (U7 id req Hs Hq Hn). eauto.
  - intros ur Hur. destruct (R ur Hur) as [Hlt Hx]. split; [lia|]. intros x Ex.
    destruct (exchanges st !! ur_request_id ur) as [y|] eqn:Ey.
    + specialize (Hx y eq_refl). apply (U2 _ y Hx) in Ey. congruence.
    + specialize (U5 _ _ Ex Ey). lia.
Qed.

(** What holds of a track goes on holding when it is left alone. *)
Lemma local_untouched used ex m st st' : untouched used m st st' -> local used ex st m -> local used ex st' m.
Proof.
  intros U L. pose proof U as [U1 U2 U3 U4 U5 U6 U7 _ U8]. destruct L as [Le Lx Lp]. split.
  - intros e. rewrite U1. intros He. eapply entry_untouched; [done|by apply Le].
  - intros r x Hr Hm. apply (U2 r x Hm) in Hr. destruct (Lx r x Hr Hm) as (Hlt & req & Hq & Hn). split; [lia|]. exists req.
    split; [by apply U3|done].
  - intros r req Hr Hm. apply (U3 r req Hm) in Hr. destruct (Lp r req Hr Hm) as ((x & Hx & Hxn) & Hu & Hc).
    split_and!; [exists x; split; [by apply U2|done]|done|]. intros [Hs|]%U6; [|done]. rewrite U1. by apply Hc.
Qed.

Lemma local_used used used' ex st m : (forall id, id ∈ used -> id ∈ used') -> local used ex st m -> local used' ex st m.
Proof.
  intros Hsub [Le Lx Lp]. split; [|done|].
  - intros e He. destruct (Le e He) as [T H R]. split; [|intros id Hid; destruct (H id Hid) as (?&?&?); auto|done].
    unfold track_ok in *. track_cases e.
    + destruct T as (Hne & c & [Hnd Hw] & Hc & Ha). split; [done|]. exists c. split_and!; [split; [done|]|done|done].
      intros id Hid. destruct (Hw id Hid). auto.
    + destruct T as (Hne & Hnd & Ha). split_and!; [done..|]. intros id Hid. destruct (Ha id Hid). auto.
  - intros r req Hr Hm. destruct (Lp r req Hr Hm) as (?&?&?). auto.
Qed.


(** ** Small steps *)

Definition focus (used : list SubscriptionId) (n : FullTrackName) (st st' : Requests) : Prop := forall m, m <> n -> untouched used m st st'.

Lemma focus_refl used n st : focus used n st st.
Proof. intros m _. apply untouched_refl. Qed.
Lemma focus_trans used n st1 st2 st3 : focus used n st1 st2 -> focus used n st2 st3 -> focus used n st1 st3.
Proof. intros H1 H2 m Hm. eapply untouched_trans; eauto. Qed.

Lemma untouched_same used m st st' : tracks (table st') !! m = tracks (table st) !! m -> exchanges st' = exchanges st ->
  relay_pending_requests st' = relay_pending_requests st -> relay_next_request_id st' = relay_next_request_id st ->
  response_senders st' = response_senders st -> subscribe_requests st' = subscribe_requests st -> outputs st' = outputs st ->
  untouched used m st st'.
Proof.
  intros H1 H2 H3 H4 H5 H6 H7. split; rewrite ?H2, ?H3, ?H4, ?H5, ?H6; try done; eauto; [by intros r x ->|].
  exists []. unfold answered. rewrite H7, app_nil_r. split; [done|]. intros id H. by apply not_elem_of_nil in H.
Qed.

Lemma signalled_lookup st t r :
  match exchanges (signalled st t) !! r, exchanges st !! r with
  | Some x', Some x => x_name x' = x_name x /\ x_publisher x' = x_publisher x /\ x_phase x' = x_phase x /\
      (r ∉ map fst (signals (upstream_requests (upstream t))) -> x' = x)
  | None, None => True
  | _, _ => False
  end.
Proof.
  simpl. generalize (signals (upstream_requests (upstream t))). intros l. generalize (exchanges st). clear st t.
  induction l as [|[k reason] l IH]; intros m; simpl; [by destruct (m !! r)|]. specialize (IH (alter (set_signal reason) k m)).
  destruct (decide (k = r)) as [->|Hk].
  - rewrite lookup_alter_eq in IH. destruct (fold_left _ _ _ !! r) as [x'|], (m !! r) as [x|]; simpl in *; try done.
    destruct IH as (?&?&?&?). split_and!; try done. intros Hin. exfalso. apply Hin. by left.
  - rewrite lookup_alter_ne in IH by done. destruct (fold_left _ _ _ !! r) as [x'|], (m !! r) as [x|]; simpl in *; try done.
    destruct IH as (?&?&?&Hx). split_and!; try done. intros Hnin. apply Hx. intros Hin. apply Hnin. by right.
Qed.

(** The signals are for the track's own exchanges. *)
Definition own_signals (st : Requests) (n : FullTrackName) (e : TrackEntry) : Prop :=
  forall s x, s ∈ signals_of e -> exchanges st !! fst s = Some x -> x_name x = n.

Lemma untouched_signalled used m n st e : m <> n -> own_signals st n e -> untouched used m st (signalled st (te_track e)).
Proof.
  intros Hm Hs. split; try done; eauto.
  - intros r x Hx. pose proof (signalled_lookup st (te_track e) r) as H.
    destruct (exchanges (signalled st (te_track e)) !! r) as [x'|], (exchanges st !! r) as [y|] eqn:Ey; try done.
    destruct H as (Hn & _ & _ & Hsame). destruct (decide (r ∈ map fst (signals_of e))) as [Hin|Hin]; [|by rewrite (Hsame Hin)].
    apply list_elem_of_fmap in Hin as (s & -> & Hin). specialize (Hs s y Hin Ey). split; intros [= ->]; congruence.
  - intros r x H1 H2. pose proof (signalled_lookup st (te_track e) r) as H. by rewrite H1, H2 in H.
  - exists []. rewrite app_nil_r. split; [done|]. intros id H. by apply not_elem_of_nil in H.
Qed.

Lemma focus_put used n st e : own_signals st n e -> focus used n st (put_track st n e).
Proof.
  intros Hs m Hm. eapply untouched_trans; [by eapply untouched_signalled|]. apply untouched_same; try done. simpl. by rewrite lookup_insert_ne.
Qed.

Lemma focus_table used n st tm : (forall m, m <> n -> tracks tm !! m = tracks (table st) !! m) -> focus used n st (with_table st tm).
Proof. intros H m Hm. apply untouched_same; try done. by apply H. Qed.

Lemma focus_end used n st r :
  (forall x, exchanges st !! r = Some x -> x_name x = n) -> (forall req, relay_pending_requests st !! r = Some req -> name_of req = n) ->
  focus used n st (end_exchange st r).
Proof.
  intros Hx Hp m Hm. split; try done; eauto; simpl.
  - intros k x Hk. rewrite lookup_delete_Some. split; [by intros [_ ?]|]. intros H. split; [|done]. intros <-. apply Hx in H. congruence.
  - intros k req Hk. rewrite lookup_delete_Some. split; [by intros [_ ?]|]. intros H. split; [|done]. intros <-. apply Hp in H. congruence.
  - intros k x [_ H]%lookup_delete_Some. by rewrite H.
  - exists []. rewrite app_nil_r. split; [done|]. intros id H. by apply not_elem_of_nil in H.
Qed.

Lemma focus_pending used n st r : (forall req, relay_pending_requests st !! r = Some req -> name_of req = n) ->
  focus used n st (with_pending_requests st (delete r (relay_pending_requests st))).
Proof.
  intros Hp m Hm. split; try done; eauto; simpl; [|by intros k x ->|].
  - intros k req Hk. rewrite lookup_delete_Some. split; [by intros [_ ?]|]. intros H. split; [|done]. intros <-. apply Hp in H. congruence.
  - exists []. rewrite app_nil_r. split; [done|]. intros id H. by apply not_elem_of_nil in H.
Qed.

(** Answers to subscribers of the track. *)
Lemma focus_out used n st o :
  (forall id, id ∈ answers o -> id ∈ used -> id ∈ response_senders st /\ exists req, subscribe_requests st !! id = Some req /\ name_of req = n) ->
  focus used n st (put_out st o).
Proof.
  intros Ho m Hm. split; try done; eauto; [intros r x ??; simpl in *; congruence|]. exists (answers o). split; [by unfold answered, answers; simpl; rewrite omap_app|].
  intros id Hid Hu. destruct (Ho id Hid Hu) as (Hs & req & Hq & Hn). split; [done|]. intros req' Hq'. congruence.
Qed.

Lemma put_out_nil st : put_out st [] = st.
Proof. destruct st. unfold put_out. simpl. by rewrite app_nil_r. Qed.
Lemma put_out_app st o o' : put_out (put_out st o) o' = put_out st (o ++ o').
Proof. unfold put_out. simpl. by rewrite app_assoc. Qed.

Lemma send_response_out st id a :
  fst (send_response st id a) = put_out st (if bool_decide (id ∈ response_senders st) then [OUT_Answer id a] else []).
Proof. unfold send_response. case_bool_decide; [done|]. by rewrite put_out_nil. Qed.

Definition told (st : Requests) (a : answer) (l : list SubscriptionId) : list output :=
  flat_map (fun id => if bool_decide (id ∈ response_senders st) then [OUT_Answer id a] else []) l.

Lemma answer_all_out a l st : answer_all a l st = put_out st (told st a l).
Proof.
  revert st. induction l as [|id l IH]; intros st; [by rewrite put_out_nil|].
  change (answer_all a (id :: l) st) with (answer_all a l (fst (send_response st id a))). rewrite send_response_out, IH, put_out_app. done.
Qed.

Lemma answers_told st a l : answers (told st a l) = filter (fun id => id ∈ response_senders st) l.
Proof.
  induction l as [|id l IH]; [done|]. simpl. unfold answers in *. rewrite omap_app, IH, filter_cons. case_bool_decide; by case_decide.
Qed.

(** The SUBSCRIBE_OKs to those that wait. *)
Definition welcomed (st : Requests) (name : FullTrackName) (params : list MessageParameter) (l : list SubscriptionId) : list output :=
  flat_map (fun id => match tracks (table st) !! name with
    | Some e => match get_subscription e id with
                | Some s => if bool_decide (id ∈ response_senders st) then
                    [OUT_Answer id (AN_Ok (mkSubscribeOk (track_alias s) params (properties_for_ok (subscription_state s) (track_properties (te_track e)))));
                     OUT_Fill id] else []
                | None => [] end
    | None => [] end) l.

Lemma answer_ok_out name params id st : answer_ok name params id st = put_out st (welcomed st name params [id]).
Proof.
  unfold answer_ok, welcomed. simpl. rewrite app_nil_r. destruct (tracks (table st) !! name) as [e|]; [|by rewrite put_out_nil].
  destruct (get_subscription e id) as [s|]; [|by rewrite put_out_nil]. unfold send_response. case_bool_decide; [|by rewrite put_out_nil].
  by rewrite put_out_app.
Qed.
Lemma answer_ok_all_out name params l st :
  fold_left (fun st id => answer_ok name params id st) l st = put_out st (welcomed st name params l).
Proof.
  revert st. induction l as [|id l IH]; intros st; [by rewrite put_out_nil|]. simpl. rewrite IH, answer_ok_out, put_out_app. f_equal.
  unfold welcomed. simpl. by rewrite app_nil_r.
Qed.
Lemma answers_welcomed st name params l e : tracks (table st) !! name = Some e -> entry_ok e ->
  answers (welcomed st name params l) = filter (fun id => id ∈ response_senders st /\ is_Some (held e !! id)) l.
Proof.
  intros E He. induction l as [|id l IH]; [done|]. simpl. unfold answers in *. rewrite omap_app, IH, filter_cons, E.
  pose proof (get_subscription_held e id He) as Hh. destruct (get_subscription e id) as [s|].
  - case_bool_decide as Hs; case_decide as Hd; try done; exfalso.
    + apply Hd. split; [done|]. by destruct (held e !! id).
    + by destruct Hd.
  - case_decide as Hd; [|done]. exfalso. destruct Hd as [_ [? Hd]]. by rewrite Hd in Hh.
Qed.

(** * One track *)

(** The same but for what its publishers and its objects are. *)
Record like (e e' : TrackEntry) : Prop := {
  li_origin : origin (upstream (te_track e')) = origin (upstream (te_track e));
  li_status : status (upstream (te_track e')) = status (upstream (te_track e));
  li_held : held e' = held e;
  li_pending : pending_subscribers e' = pending_subscribers e;
  li_registered : registered_in e' = registered_in e;
  li_quiet : signals_of e = [] -> signals_of e' = []
}.
Definition count_of (e : TrackEntry) : Z := pending_upstream_subscribe_count (upstream (te_track e)).

Lemma like_refl e : like e e.
Proof. by split. Qed.
Lemma like_trans e1 e2 e3 : like e1 e2 -> like e2 e3 -> like e1 e3.
Proof. intros [] []. split; try congruence. auto. Qed.

Lemma track_ok_like used ex st n e e' : like e e' ->
  (origin (upstream (te_track e)) = TO_Subscribe -> status (upstream (te_track e)) = TS_Pending -> count_of e' = count_of e) ->
  track_ok used ex st n e -> track_ok used ex st n e'.
Proof.
  unfold track_ok, waiting_ok, count_of. intros [-> -> -> -> _ _] Hc. track_cases e. by rewrite Hc.
Qed.

(** [st'] is [st] but for the entry of the track, what is not modelled further of the
    connections, and the pending request [r]. *)
Record tabled (n : FullTrackName) (r : Z) (st st' : Requests) (e' : TrackEntry) : Prop := {
  ta_tracks : tracks (table st') = <[n := e']> (tracks (table st));
  ta_exchanges : exchanges st' = exchanges st;
  ta_pending : forall k, k <> r -> relay_pending_requests st' !! k = relay_pending_requests st !! k;
  ta_self : forall req, relay_pending_requests st' !! r = Some req -> relay_pending_requests st !! r = Some req;
  ta_next : relay_next_request_id st' = relay_next_request_id st;
  ta_senders : response_senders st' = response_senders st;
  ta_requests : subscribe_requests st' = subscribe_requests st;
  ta_outputs : outputs st' = outputs st
}.

Lemma tabled_trans n r st1 st2 st3 e2 e3 : tabled n r st1 st2 e2 -> tabled n r st2 st3 e3 -> tabled n r st1 st3 e3.
Proof.
  intros [T1 E1 P1 Q1 N1 S1 R1 O1] [T2 E2 P2 Q2 N2 S2 R2 O2]. split; try congruence.
  - rewrite T2, T1. apply insert_insert_eq.
  - intros k Hk. by rewrite P2, P1.
  - intros req Hk. by apply Q1, Q2.
Qed.

Lemma put_track_quiet st n e : signals_of e = [] -> put_track st n e = with_table st (put_entry (table st) n e).
Proof.
  intros H. unfold put_track. change (set_track e (no_signals (te_track e))) with (quiet e). rewrite quiet_id by done.
  unfold signalled. fold (signals_of e). rewrite H. by destruct st.
Qed.

Lemma tabled_put n r st e : signals_of e = [] -> tabled n r st (put_track st n e) e.
Proof. intros H. rewrite put_track_quiet by done. by split. Qed.

Lemma tabled_same n r st st' e : tracks (table st) !! n = Some e -> table st' = table st -> exchanges st' = exchanges st ->
  (forall k, k <> r -> relay_pending_requests st' !! k = relay_pending_requests st !! k) ->
  (forall req, relay_pending_requests st' !! r = Some req -> relay_pending_requests st !! r = Some req) ->
  relay_next_request_id st' = relay_next_request_id st -> response_senders st' = response_senders st ->
  subscribe_requests st' = subscribe_requests st -> outputs st' = outputs st -> tabled n r st st' e.
Proof. intros He Ht. split; try done. by rewrite Ht, insert_id. Qed.

Lemma publisher_like e c : let '(t, _) := remove_publisher_quietly (te_track e) c in like e (set_track e t).
Proof. by split. Qed.
Lemma notify_like e code reason : like e (set_track e (notify_publish_done (te_track e) code reason)).
Proof. by split. Qed.
Lemma answered_like e : like e (set_track e (with_upstream (te_track e) (fst (upstream_subscribe_answered (upstream (te_track e)))))).
Proof. unfold upstream_subscribe_answered. destruct (0 <? _); by split. Qed.

Lemma remove_publisher_tabled n r st e c : signals_of e = [] ->
  let '(st', e', _) := remove_upstream_publisher st n e c in tabled n r st st' e' /\ like e e' /\ signals_of e' = [].
Proof.
  intros Hq. unfold remove_upstream_publisher. pose proof (publisher_like e c) as Hl. destruct (remove_publisher_quietly _ _) as [t still].
  pose proof (li_quiet _ _ Hl Hq) as Hq'. pose proof (tabled_put n r st _ Hq') as Ht. split_and!; [|done|done].
  destruct (publisher_aliases _ !! c) as [a|]; [|done]. destruct Ht. split; try done. simpl. by rewrite remove_alias_tracks.
Qed.

(** A publisher that fails after it accepted ends what it served. *)
Lemma failed_tabled n r st e c code reason : signals_of e = [] ->
  exists e', tabled n r st
    (let '(st, e, still_served) := remove_upstream_publisher st n e c in
     if still_served then st
     else
       let st := remove_from_subscriber_switching_sets st n e in
       put_track st n (set_track e (notify_publish_done (te_track e) code reason))) e' /\ like e e' /\ signals_of e' = [].
Proof.
  intros Hq. pose proof (remove_publisher_tabled n r st e c Hq) as H. destruct (remove_upstream_publisher st n e c) as [[st2 e2] still].
  destruct H as (Ht & Hl & Hq2). destruct still; [by exists e2|].
  eexists. split_and!; [|eapply like_trans; [exact Hl|apply notify_like]|exact Hq2].
  eapply tabled_trans; [exact Ht|]. eapply tabled_trans; [|by apply tabled_put].
  apply (tabled_same n r st2 _ e2); try done. rewrite (ta_tracks _ _ _ _ _ Ht). apply lookup_insert_eq.
Qed.

(** ** The end of an exchange *)

Lemma focus_tabled used n r st st' e' : tabled n r st st' e' ->
  (forall req, relay_pending_requests st !! r = Some req -> name_of req = n) -> focus used n st st'.
Proof.
  intros [T E P Q N S R O] H m Hm. split; rewrite ?E, ?N, ?S, ?R; try done; eauto.
  - rewrite T. by apply lookup_insert_ne.
  - intros k req Hk. destruct (decide (k = r)) as [->|Hne]; [|by rewrite P].
    split; intros Hq; [apply Q in Hq|]; apply H in Hq; congruence.
  - intros k x ??; congruence.
  - exists []. unfold answered. rewrite O, app_nil_r. split; [done|]. intros id Hid. by apply not_elem_of_nil in Hid.
Qed.

(** What is left to see when the exchange [r] is over. *)
Lemma local_ended used ex r st st' n :
  local used ex st n -> ex = None \/ ex = Some r ->
  (forall k, match exchanges st' !! k, exchanges st !! k with
             | Some x', Some x => k <> r /\ x_name x' = x_name x
             | None, Some x => k = r
             | None, None => True
             | Some _, None => False
             end) ->
  (forall k, relay_pending_requests st' !! k = if decide (k = r) then None else relay_pending_requests st !! k) ->
  relay_next_request_id st' = relay_next_request_id st -> response_senders st' = response_senders st ->
  subscribe_requests st' = subscribe_requests st ->
  (forall e', tracks (table st') !! n = Some e' -> exists e, tracks (table st) !! n = Some e /\
     track_ok used None st' n e' /\ held e' ⊆ held e /\ (forall ur, ur ∈ registered_in e' -> ur ∈ registered_in e)) ->
  (forall k req e, relay_pending_requests st !! k = Some req -> name_of req = n -> k <> r -> creator_of req ∈ response_senders st ->
     tracks (table st) !! n = Some e -> origin (upstream (te_track e)) = TO_Subscribe -> is_Some (held e !! creator_of req) ->
     exists e', tracks (table st') !! n = Some e' /\ origin (upstream (te_track e')) = TO_Subscribe /\ is_Some (held e' !! creator_of req)) ->
  local used None st' n.
Proof.
  intros [Le Lx Lp] Hex Hx Hp Hn Hs Hr Ht Hc. split.
  - intros e' He'. destruct (Ht e' He') as (e & He & Hok & Hheld & Hreg). destruct (Le e He) as [_ Hh HR]. split; [done|..].
    + intros id [v Hid]. rewrite Hs, Hr. apply Hh. exists v. by eapply lookup_weaken.
    + intros ur Hur. destruct (HR ur (Hreg ur Hur)) as [Hlt HRx]. rewrite Hn. split; [done|]. intros x Ex. specialize (Hx (ur_request_id ur)).
      rewrite Ex in Hx. destruct (exchanges st !! ur_request_id ur) as [y|] eqn:Ey; [|done]. destruct Hx as [_ ->]. by apply HRx.
  - intros k x Ek Hxn. specialize (Hx k). rewrite Ek in Hx. destruct (exchanges st !! k) as [y|] eqn:Ey; [|done]. destruct Hx as [Hk Hy].
    rewrite Hn, Hp, decide_False by done. apply (Lx k y Ey). congruence.
  - intros k req Ek Hkn. rewrite Hp in Ek. destruct (decide (k = r)) as [|Hk]; [done|]. destruct (Lp k req Ek Hkn) as ((x & Ex & Hxn) & Hu & Hcr).
    split_and!; [|done|].
    + specialize (Hx k). rewrite Ex in Hx. destruct (exchanges st' !! k) as [x'|]; [|done]. exists x'. split; [done|]. destruct Hx. congruence.
    + rewrite Hs. intros Hsend. destruct (Hcr Hsend) as (e & He & Ho & Hh). by eapply Hc.
Qed.

(** A step on the track [n]. *)
Definition advance (used : list SubscriptionId) (n : FullTrackName) (st st' : Requests) : Prop :=
  focus used n st st' /\ local used None st' n /\
  exists l, answered st' = answered st ++ l /\ NoDup l /\ forall id, id ∈ l -> id ∉ answered st /\ id ∈ used.

Lemma no_answers st st' (used : list SubscriptionId) : outputs st' = outputs st -> exists l, answered st' = answered st ++ l /\ NoDup l /\ forall id, id ∈ l -> id ∉ answered st /\ id ∈ used.
Proof.
  intros E. exists []. unfold answered. rewrite E, app_nil_r. split_and!; [done|constructor|]. intros id H. by apply not_elem_of_nil in H.
Qed.

Lemma ended_tabled used ex r st st1 n e e' x : local used ex st n -> ex = None \/ ex = Some r ->
  exchanges st !! r = Some x -> x_name x = n -> tracks (table st) !! n = Some e -> tabled n r st st1 e' ->
  origin (upstream (te_track e')) = origin (upstream (te_track e)) -> held e' = held e -> registered_in e' = registered_in e ->
  track_ok used None (end_exchange st1 r) n e' -> advance used n st (end_exchange st1 r).
Proof.
  intros L Hex Hx Hxn He Ht Ho Hh Hr Hok. destruct (lo_exchange _ _ _ _ L r x Hx Hxn) as (_ & req & Hq & Hqn).
  pose proof Ht as [T E P Q N S R O]. split_and!.
  - eapply focus_trans; [eapply focus_tabled; [exact Ht|]|apply focus_end].
    + intros ? ?. congruence.
    + rewrite E. intros ? ?. congruence.
    + intros req' H%Q. congruence.
  - eapply (local_ended used ex r st); [exact L|done|..]; simpl; try done.
    + intros k. rewrite E. destruct (decide (k = r)) as [->|Hk]; [rewrite lookup_delete_eq, Hx; done|rewrite lookup_delete_ne by done].
      by destruct (exchanges st !! k).
    + intros k. case_decide as Hk; [by rewrite Hk, lookup_delete_eq|]. by rewrite lookup_delete_ne, P.
    + rewrite T, lookup_insert_eq. intros e1 [= <-]. exists e. rewrite Hh, Hr. by split_and!.
    + rewrite T, lookup_insert_eq. intros k req' e1 _ _ _ _ He1 ? ?. assert (e1 = e) as -> by congruence. exists e'. by rewrite Ho, Hh.
  - apply no_answers. by simpl.
Qed.

(** The track waits for its publishers. *)
Definition is_waiting (e : TrackEntry) : bool :=
  match origin (upstream (te_track e)), status (upstream (te_track e)) with TO_Subscribe, TS_Pending => true | _, _ => false end.
Lemma is_waiting_true e : is_waiting e = true -> origin (upstream (te_track e)) = TO_Subscribe /\ status (upstream (te_track e)) = TS_Pending.
Proof. unfold is_waiting. track_cases e. Qed.

Lemma track_ok_settled used ex r st st1 n e e' : tabled n r st st1 e' -> like e e' ->
  is_waiting e = false ->
  track_ok used ex st n e -> track_ok used None (end_exchange st1 r) n e'.
Proof.
  intros [T E P Q N S R O] [L1 L2 L3 L4 _ _] Hs. unfold track_ok, is_waiting in *. rewrite L1, L2, L3, L4. simpl. unfold answered. simpl. rewrite S, O.
  track_cases e.
Qed.

Lemma size_of_delete r n (m : gmap Z Exchange) x : m !! r = Some x -> x_name x = n ->
  Z.of_nat (size (of_name n (delete r m))) = Z.of_nat (size (of_name n m)) - 1.
Proof.
  intros Hr Hn. assert (E : of_name n m = <[r := x]> (of_name n (delete r m))).
  { unfold of_name. rewrite map_filter_delete. rewrite insert_delete_eq, insert_id; [done|]. by apply map_lookup_filter_Some. }
  rewrite E, map_size_insert_None; [lia|]. unfold of_name. rewrite map_filter_delete. apply lookup_delete_eq.
Qed.

(** ** Letting go of the publishers *)

Lemma cancel_matching_of gone u f reason :
  (forall s, s ∈ signals (cancel_matching gone u f reason) -> s ∈ signals u \/ exists ur, ur ∈ registered u /\ fst s = ur_request_id ur) /\
  (forall ur, ur ∈ registered (cancel_matching gone u f reason) -> ur ∈ registered u).
Proof.
  unfold cancel_matching. set (acc0 := mkUpstreamRequests [] (signals u)).
  assert (H : forall l acc, (forall s, s ∈ signals (fold_left (fun acc r => if gone (ur_request_id r) then acc
      else if f r then mkUpstreamRequests (registered acc) (signals acc ++ [(ur_request_id r, reason)])
      else mkUpstreamRequests (registered acc ++ [r]) (signals acc)) l acc) -> s ∈ signals acc \/ exists ur, ur ∈ l /\ fst s = ur_request_id ur) /\
    (forall ur, ur ∈ registered (fold_left (fun acc r => if gone (ur_request_id r) then acc
      else if f r then mkUpstreamRequests (registered acc) (signals acc ++ [(ur_request_id r, reason)])
      else mkUpstreamRequests (registered acc ++ [r]) (signals acc)) l acc) -> ur ∈ registered acc \/ ur ∈ l)).
  { induction l as [|r l IH]; intros acc; simpl; [split; auto|]. destruct (IH (if gone (ur_request_id r) then acc
      else if f r then mkUpstreamRequests (registered acc) (signals acc ++ [(ur_request_id r, reason)])
      else mkUpstreamRequests (registered acc ++ [r]) (signals acc))) as [IHs IHr]. split.
    - intros s [Hs|(ur & Hu & Hf)]%IHs; [|right; exists ur; split; [by right|done]].
      destruct (gone _); [by left|]. destruct (f r); simpl in Hs; [|by left].
      apply elem_of_app in Hs as [Hs| ->%list_elem_of_singleton]; [by left|]. right. exists r. split; [by left|done].
    - intros ur [Hu|Hu]%IHr; [|right; by right]. destruct (gone _); [by left|]. destruct (f r); [by left|]. simpl in Hu.
      apply elem_of_app in Hu as [Hu| ->%list_elem_of_singleton]; [by left|right; by left]. }
  destruct (H (registered u) acc0) as [H1 H2]. split; [exact H1|]. intros ur [Hu|Hu]%H2; [|done]. by apply not_elem_of_nil in Hu.
Qed.

(** The signals and the requests of an entry come from those that were registered. *)
Definition from_registered (e e' : TrackEntry) : Prop :=
  (forall s, s ∈ signals_of e' -> exists ur, ur ∈ registered_in e /\ fst s = ur_request_id ur) /\
  (forall ur, ur ∈ registered_in e' -> ur ∈ registered_in e).

Lemma from_registered_refl e : signals_of e = [] -> from_registered e e.
Proof. intros Hq. split; [|done]. intros s. rewrite Hq. by intros ?%not_elem_of_nil. Qed.

Lemma cancel_from gone e0 e kind reason : from_registered e0 e ->
  from_registered e0 (set_track e (with_upstream (te_track e) (cancel_upstream_requests_of_kind gone (upstream (te_track e)) kind reason))).
Proof.
  intros [Hs Hr]. split.
  - intros s [H|(ur & H & E)]%(proj1 (cancel_matching_of _ _ _ _)); [by apply Hs|]. exists ur. split; [by apply Hr|done].
  - intros ur H%(proj2 (cancel_matching_of _ _ _ _)). by apply Hr.
Qed.

Lemma become_cache_only_entry gone e0 e : from_registered e0 e ->
  let '(t, cl) := become_cache_only gone (te_track e) in
  from_registered e0 (set_track e t) /\
  ((cl = CL_RemoveTrack /\ t = te_track e) \/
   (exists l, cl = CL_RemoveAliases l /\ origin (upstream t) = TO_CacheOnly /\ status (upstream t) = TS_Pending /\ manager t = manager (te_track e))).
Proof.
  intros Hf. unfold become_cache_only. destruct (is_empty _).
  - split; [|by left]. exact Hf.
  - split; [|right; eexists; by split_and!]. exact (cancel_from gone e0 e URK_Subscribe URC_Cancelled Hf).
Qed.

Lemma clean_up_tracks tm n cl : tracks (clean_up tm n cl) = match cl with CL_RemoveTrack => delete n (tracks tm) | _ => tracks tm end.
Proof.
  destruct cl as [|l|]; simpl; [done| |].
  - revert tm. induction l as [|a l IH]; intros tm; [done|]. simpl. rewrite IH. apply remove_alias_tracks.
  - unfold remove_track. destruct (tracks tm !! n) eqn:E; [done|]. simpl. by rewrite delete_id.
Qed.

Definition same_but_signals (m m' : gmap Z Exchange) : Prop :=
  forall r, match m' !! r, m !! r with Some x', Some x => x_name x' = x_name x /\ x_phase x' = x_phase x | None, None => True | _, _ => False end.

(** The track is put back, with its signals sent, and cleaned up. *)
Lemma put_cleaned used st n e e' cl : from_registered e e' ->
  (forall ur x, ur ∈ registered_in e -> exchanges st !! ur_request_id ur = Some x -> x_name x = n) ->
  let st1 := put_track st n e' in let st' := with_table st1 (clean_up (table st1) n cl) in
  focus used n st st' /\ same_but_signals (exchanges st) (exchanges st') /\
  tracks (table st') !! n = match cl with CL_RemoveTrack => None | _ => Some (quiet e') end.
Proof.
  intros [Hs Hr] Ho st1 st'. assert (Hown : own_signals st n e').
  { intros s x Hin Hx. destruct (Hs s Hin) as (ur & Hu & E). apply (Ho ur x Hu). by rewrite <- E. }
  split_and!.
  - eapply focus_trans; [apply (focus_put used n st e' Hown)|]. apply focus_table. intros m Hm. rewrite clean_up_tracks.
    destruct cl; [done..|]. by rewrite lookup_delete_ne.
  - intros r. pose proof (signalled_lookup st (te_track e') r) as H. change (exchanges st') with (exchanges (signalled st (te_track e'))).
    destruct (exchanges (signalled _ _) !! r), (exchanges st !! r); try done. by destruct H as (?&_&?&_).
  - simpl. rewrite clean_up_tracks. destruct cl; simpl; [by rewrite lookup_insert_eq..|]. apply lookup_delete_eq.
Qed.

Lemma retire_in_spec used st n e : tracks (table st) !! n = Some e -> signals_of e = [] ->
  (forall ur x, ur ∈ registered_in e -> exchanges st !! ur_request_id ur = Some x -> x_name x = n) ->
  let st' := retire_in st n in
  focus used n st st' /\ same_but_signals (exchanges st) (exchanges st') /\
  (forall e', tracks (table st') !! n = Some e' -> origin (upstream (te_track e')) = TO_CacheOnly /\ status (upstream (te_track e')) = TS_Pending /\
     held e' = ∅ /\ pending_subscribers e' = pending_subscribers e /\ forall ur, ur ∈ registered_in e' -> ur ∈ registered_in e) /\
  relay_pending_requests st' = relay_pending_requests st /\ relay_next_request_id st' = relay_next_request_id st /\
  response_senders st' = response_senders st /\ subscribe_requests st' = subscribe_requests st /\ outputs st' = outputs st.
Proof.
  intros He Hq Ho. unfold retire_in. rewrite He. unfold retire. pose proof (become_cache_only_entry (gone st) e e (from_registered_refl e Hq)) as H.
  destruct (become_cache_only _ _) as [t cl]. destruct H as [Hf Hc].
  destruct Hc as [[-> ->]|(l & -> & Hor & Hst & Hman)]; simpl.
  - destruct (put_cleaned used st n e (set_track e (te_track e)) CL_RemoveTrack Hf Ho) as (F & S & T).
    split_and!; try done. intros e' He'. pose proof (eq_trans (eq_sym He') T) as E. done.
  - set (t' := with_manager t (fst (detach_all (manager t)))). assert (Hf' : from_registered e (set_track e t')) by exact Hf.
    destruct (put_cleaned used st n e (set_track e t') (CL_RemoveAliases l) Hf' Ho) as (F & S & T).
    split_and!; try done. intros e' He'. pose proof (eq_trans (eq_sym He') T) as E. injection E as ->. split_and!; try done. apply Hf.
Qed.

Lemma told_same st st' a l : response_senders st' = response_senders st -> told st' a l = told st a l.
Proof. unfold told. by intros ->. Qed.

(** A REQUEST_ERROR for all of the track's requests. *)
Lemma error_message_rejects st r n e req code phrase :
  relay_pending_requests st !! r = Some req -> name_of req = n -> tracks (table st) !! n = Some e -> signals_of e = [] ->
  origin (upstream (te_track e)) <> TO_CacheOnly ->
  exists st5 e3, tabled n r st st5 e3 /\ relay_pending_requests st5 = delete r (relay_pending_requests st) /\
    signals_of e3 = [] /\ pending_subscribers e3 = [] /\ registered_in e3 = registered_in e /\
    handle_subscribe_error_message st r code phrase =
      retire_in (put_out st5 (told st (AN_Error code phrase) (creator_of req :: pending_subscribers e))) n.
Proof.
  intros Hq Hn He Hs Ho. unfold handle_subscribe_error_message. rewrite Hq. fold (name_of req). rewrite Hn. cbn [table with_pending_requests].
  rewrite He, bool_decide_eq_false_2 by done. set (e2 := set_track e _). set (e3 := set_pending e2 []). set (a := AN_Error code phrase).
  set (st2 := with_pending_requests st _). assert (Hs3 : signals_of e3 = []) by done.
  exists (with_table (with_table st2 (put_entry (table st2) n e2)) (put_entry (put_entry (table st2) n e2) n e3)), e3.
  split_and!; try done.
  - split; simpl; try done; [apply insert_insert_eq| |].
    + intros k Hk. by rewrite lookup_delete_ne.
    + intros req'. rewrite lookup_delete_eq. done.
  - rewrite (put_track_quiet st2 n e2) by done. fold (creator_of req). rewrite send_response_out.
    rewrite (put_track_quiet _ n e3) by done. rewrite answer_all_out.
    change (pending_subscribers e2) with (pending_subscribers e). unfold put_out, with_table, told. simpl. by rewrite <- app_assoc.
Qed.

(** What those that wait are told is new, and is theirs. *)
Lemma told_new used ex st n e a l : entry_local used ex st n e -> waiting_ok used st e l ->
  let o := answers (told st a l) in
  NoDup o /\ forall id, id ∈ o -> id ∉ answered st /\ id ∈ used /\ id ∈ response_senders st /\
    exists req, subscribe_requests st !! id = Some req /\ name_of req = n.
Proof.
  intros L [Hnd Hw]. simpl. rewrite answers_told. split; [by apply NoDup_filter|].
  intros id [Hs Hid]%list_elem_of_filter. destruct (Hw id Hid) as [Hu H]. destruct (H Hs) as [Hh Hn].
  destruct (el_held _ _ _ _ _ L id Hh) as (_ & _ & Hr). by split_and!.
Qed.

(** The last answer that was missing is a refusal: all are refused, and the track is let go of. *)
Lemma refused_advance used ex r st n e e1 req x code phrase :
  local used ex st n -> ex = None \/ ex = Some r -> exchanges st !! r = Some x -> x_name x = n ->
  relay_pending_requests st !! r = Some req -> name_of req = n -> tracks (table st) !! n = Some e ->
  waiting_ok used st e (creator_of req :: pending_subscribers e) ->
  (forall k y, exchanges st !! k = Some y -> x_name y = n -> k = r) ->
  signals_of e1 = [] -> origin (upstream (te_track e1)) <> TO_CacheOnly -> pending_subscribers e1 = pending_subscribers e ->
  registered_in e1 = registered_in e ->
  advance used n st (end_exchange (handle_subscribe_error_message (put_track st n e1) r code phrase) r).
Proof.
  intros L Hex Hx Hxn Hq Hqn He Hw Honly Hs1 Ho1 Hp1 Hr1. pose proof (lo_entry _ _ _ _ L e He) as Le.
  rewrite put_track_quiet by done. set (st1 := with_table st _).
  destruct (error_message_rejects st1 r n e1 req code phrase) as (st5 & e3 & Ht & Hp5 & Hs3 & Hpe3 & Hr3 & ->); try done.
  { apply lookup_insert_eq. }
  rewrite Hp1. set (a := AN_Error code phrase). set (l := creator_of req :: pending_subscribers e) in *.
  assert (Hto : told st1 a l = told st a l) by (by apply told_same). rewrite Hto.
  destruct (told_new used ex st n e a l Le Hw) as [Hnd Hnew].
  assert (Ht0 : tabled n r st st5 e3).
  { eapply tabled_trans; [|exact Ht]. by split. }
  pose proof Ht0 as [T E P Q N S R O]. set (st6 := put_out st5 (told st a l)).
  destruct (retire_in_spec used st6 n e3) as (F7 & X7 & T7 & P7 & N7 & S7 & R7 & O7); [simpl; rewrite T; apply lookup_insert_eq|done| |].
  { intros ur y Hur. simpl. rewrite E. rewrite Hr3, Hr1 in Hur. by apply (el_registered _ _ _ _ _ Le ur Hur). }
  set (st7 := retire_in st6 n) in *. assert (Ea : answered st7 = answered st ++ answers (told st a l)).
  { unfold answered. rewrite O7. simpl. unfold answers. by rewrite omap_app, O. }
  split_and!.
  - eapply focus_trans; [eapply focus_tabled; [exact Ht0|]; intros; congruence|].
    eapply focus_trans; [apply (focus_out used n st5 (told st a l))|].
    { intros id Hid _. rewrite S, R. destruct (Hnew id Hid) as (_ & _ & ? & ?). done. }
    eapply focus_trans; [exact F7|]. apply focus_end.
    + intros y Hy. specialize (X7 r). rewrite Hy in X7. simpl in X7. rewrite E, Hx in X7. destruct X7; congruence.
    + rewrite P7. simpl. rewrite Hp5. simpl. intros req'. by rewrite lookup_delete_eq.
  - assert (Hk : forall k y, exchanges st7 !! k = Some y -> x_name y = n -> k = r).
    { intros k y Hy Hyn. specialize (X7 k). rewrite Hy in X7. simpl in X7. rewrite E in X7. destruct (exchanges st !! k) eqn:Ek; [|done].
      apply (Honly k e0); [done|]. destruct X7; congruence. }
    eapply (local_ended used ex r st); [exact L|done|..]; simpl.
    + intros k. specialize (X7 k). simpl in X7. rewrite E in X7. destruct (decide (k = r)) as [->|Hk'].
      * rewrite lookup_delete_eq, Hx. done.
      * rewrite lookup_delete_ne by done. destruct (exchanges st7 !! k), (exchanges st !! k); try done. by destruct X7.
    + intros k. rewrite P7. simpl. rewrite Hp5. simpl. case_decide as Hk'; [by rewrite Hk', lookup_delete_eq|]. by rewrite !lookup_delete_ne.
    + rewrite N7. simpl. done.
    + rewrite S7. simpl. done.
    + rewrite R7. simpl. done.
    + intros e' He'. destruct (T7 e' He') as (Ho' & Hst' & Hh' & Hp' & Hr'). exists e. split_and!; [done| | |].
      * unfold track_ok. rewrite Ho', Hst', Hh', Hp', Hpe3. split_and!; [done|constructor|]. intros id H. by apply not_elem_of_nil in H.
      * rewrite Hh'. apply map_empty_subseteq.
      * intros ur Hur. apply Hr' in Hur. by rewrite Hr3, Hr1 in Hur.
    + intros k req' e0 Hk' Hkn Hne. exfalso. apply Hne. destruct (lo_pending _ _ _ _ L k req' Hk' Hkn) as ((y & Hy & Hyn) & _). by apply (Honly k y).
  - exists (answers (told st a l)). split_and!; [exact Ea|done|]. intros id Hid. destruct (Hnew id Hid) as (?&?&_). done.
Qed.

Lemma size_one r n (m : gmap Z Exchange) x : Z.of_nat (size (of_name n m)) = 1 -> m !! r = Some x -> x_name x = n ->
  forall k y, m !! k = Some y -> x_name y = n -> k = r.
Proof.
  intros Hs Hr Hn k y Hk Hy. destruct (decide (k = r)) as [|Hne]; [done|]. exfalso.
  assert (E : of_name n (delete r m) = ∅) by (apply map_size_empty_inv; pose proof (size_of_delete r n m x Hr Hn); lia).
  assert (H : of_name n (delete r m) !! k = Some y) by (unfold of_name; apply map_lookup_filter_Some; split; [by rewrite lookup_delete_ne|done]).
  by rewrite E in H.
Qed.

(** One publisher fewer to wait for. *)
Lemma track_ok_declined used ex r st st1 n e e1 x : tabled n r st st1 e1 -> like e e1 -> ex = None \/ ex = Some r ->
  exchanges st !! r = Some x -> x_name x = n -> count_of e1 = count_of e - 1 -> is_waiting e = true -> 1 < count_of e ->
  track_ok used ex st n e -> track_ok used None (end_exchange st1 r) n e1.
Proof.
  intros [T E P Q N S R O] [L1 L2 L3 L4 _ _] Hex Hx Hxn Hc1 [Ho Hst]%is_waiting_true Hgt. unfold track_ok. rewrite L1, L2, Ho, Hst.
  intros (Hne & creator & [Hnd Hw] & Hc & Hpos & Hsz & Hax). fold (count_of e) (count_of e1) in *. rewrite L3, L4. split; [done|].
  exists creator. split_and!; [split; [done|]|done|].
  - simpl. rewrite S. unfold answered. simpl. rewrite L3, O. exact Hw.
  - simpl. split_and!; [lia|simpl; rewrite E; rewrite (size_of_delete r n _ x) by done; lia|].
    simpl. rewrite E. intros k y [Hk Hy]%lookup_delete_Some Hyn. destruct (Hax k y Hy Hyn) as (Hp & Hsig & req' & Hq1 & Hq2 & Hq3).
    split_and!; [right; destruct Hp as [Hp|]; [|done]; destruct Hex; congruence|done|]. exists req'. by rewrite lookup_delete_ne, P.
Qed.

(** A publisher declines a track that is gone: nobody waits for it. *)
Lemma declined_untracked used ex r st n code phrase x : local used ex st n -> ex = None \/ ex = Some r ->
  exchanges st !! r = Some x -> x_name x = n -> tracks (table st) !! n = None ->
  advance used n st (end_exchange (handle_subscribe_error_message st r code phrase) r).
Proof.
  intros L Hex Hx Hxn He. destruct (lo_exchange _ _ _ _ L r x Hx Hxn) as (_ & req & Hq & Hqn).
  unfold handle_subscribe_error_message. rewrite Hq. cbn [table with_pending_requests]. fold (name_of req). rewrite Hqn, He.
  rewrite send_response_out. rewrite bool_decide_eq_false_2.
  2: { intros Hs. destruct (lo_pending _ _ _ _ L r req Hq Hqn) as (_ & _ & Hc). destruct (Hc Hs) as (e & He' & _). congruence. }
  rewrite put_out_nil. split_and!.
  + eapply focus_trans; [apply (focus_pending used n st r); intros ? Hr; congruence|].
    apply focus_end; cbn [exchanges relay_pending_requests with_pending_requests]; [intros ? Hr; congruence|]. intros req'. by rewrite lookup_delete_eq.
  + eapply (local_ended used ex r st); [exact L|done|..]; simpl; try done.
    * intros k. destruct (decide (k = r)) as [->|Hk]; [by rewrite lookup_delete_eq, Hx|]. rewrite lookup_delete_ne by done. by destruct (exchanges st !! k).
    * intros k. case_decide as Hk; [by rewrite Hk, lookup_delete_eq|]. by rewrite !lookup_delete_ne.
    * intros e' He'. congruence.
    * intros. congruence.
  + by apply no_answers.
Qed.

(** A publisher declines, fails or does not answer, and its exchange is over. *)
Lemma declined used ex r st n c code phrase status x : tables_ok (table st) -> local used ex st n -> ex = None \/ ex = Some r ->
  exchanges st !! r = Some x -> x_name x = n ->
  advance used n st (end_exchange (end_upstream_subscription st r c n code phrase status) r).
Proof.
  intros Ht L Hex Hx Hxn. destruct (lo_exchange _ _ _ _ L r x Hx Hxn) as (_ & req & Hq & Hqn).
  unfold end_upstream_subscription. destruct (tracks (table st) !! n) as [e|] eqn:He.
  - pose proof (tk_quiet _ Ht _ _ He) as Hs. pose proof (lo_entry _ _ _ _ L e He) as Le. pose proof (el_track _ _ _ _ _ Le) as T.
    pose proof (answered_like e) as Hl. destruct (upstream_subscribe_answered (upstream (te_track e))) as [u remaining] eqn:Eu. simpl fst in Hl.
    set (e1 := set_track e (with_upstream (te_track e) u)) in *. pose proof (li_quiet _ _ Hl Hs) as Hs1.
    destruct (is_waiting e) eqn:Hnot.
    + apply is_waiting_true in Hnot as [Ho Hst]. unfold track_ok in T. rewrite Ho, Hst in T. rewrite Hst. simpl. destruct T as (Hne & creator & Hw & Hc & Hpos & Hsz & Hax).
      fold (count_of e) in *. assert (E0 : 0 <? count_of e = true) by lia.
      unfold upstream_subscribe_answered in Eu. fold (count_of e) in Eu. rewrite E0 in Eu. injection Eu as <- <-.
      destruct (Hax r x Hx Hxn) as (_ & _ & req' & Hq' & _ & Hcr). assert (req' = req) as -> by congruence.
      destruct (0 <? count_of e - 1) eqn:E1.
      * eapply (ended_tabled used ex r st _ n e e1 x); try done; [by apply tabled_put|].
        eapply (track_ok_declined used ex r st _ n e e1 x); try done; [by apply tabled_put|unfold is_waiting; by rewrite Ho, Hst|lia|].
        unfold track_ok. rewrite Ho, Hst. split; [done|]. by exists creator.
      * eapply (refused_advance used ex r st n e e1 req x); try done; [by rewrite Hcr| |simpl; by rewrite Ho].
        apply (size_one r n _ x); [lia|done..].
    + destruct (match Tracks.status (upstream (te_track e)) with TS_Confirmed _ => true | _ => false end) eqn:Ec; simpl.
      * destruct (failed_tabled n r (put_track st n e1) e1 c status (match phrase with Some p => Common.phrase p | None => [] end) Hs1) as (e' & Ht' & Hl' & Hs').
        pose proof (tabled_trans _ _ _ _ _ _ _ (tabled_put n r st e1 Hs1) Ht') as Htt. pose proof (like_trans _ _ _ Hl Hl') as Hll.
        eapply (ended_tabled used ex r st _ n e e' x); [done..|exact Htt|apply Hll|apply Hll|apply Hll|].
        eapply track_ok_settled; [exact Htt|exact Hll|exact Hnot|exact T].
      * assert (Hco : origin (upstream (te_track e)) = TO_CacheOnly).
        { unfold track_ok, is_waiting in *. track_cases e. }
        destruct (0 <? remaining).
        -- eapply (ended_tabled used ex r st _ n e e1 x); [done..|by apply tabled_put|apply Hl|apply Hl|apply Hl|].
           eapply track_ok_settled; [by apply tabled_put|exact Hl|exact Hnot|exact T].
        -- rewrite put_track_quiet by done. unfold handle_subscribe_error_message. cbn [relay_pending_requests with_table]. rewrite Hq.
           cbn [table with_pending_requests with_table]. fold (name_of req). rewrite Hqn.
           assert (Hl1 : tracks (put_entry (table st) n e1) !! n = Some e1) by apply lookup_insert_eq. rewrite Hl1.
           rewrite bool_decide_eq_true_2 by (rewrite <- Hco; apply Hl).
           assert (Ht' : tabled n r st (with_pending_requests (with_table st (put_entry (table st) n e1)) (delete r (relay_pending_requests st))) e1).
           { split; try done; simpl; [intros k Hk; by rewrite lookup_delete_ne|]. intros req'. by rewrite lookup_delete_eq. }
           eapply (ended_tabled used ex r st _ n e e1 x); [done..|exact Ht'|apply Hl|apply Hl|apply Hl|].
           eapply track_ok_settled; [exact Ht'|exact Hl|exact Hnot|exact T].
  - by apply (declined_untracked used ex r st n code phrase x).
Qed.

(** ** Steps of an exchange *)

Lemma ended_untracked used ex r st n x : local used ex st n -> ex = None \/ ex = Some r -> exchanges st !! r = Some x -> x_name x = n ->
  tracks (table st) !! n = None -> advance used n st (end_exchange st r).
Proof.
  intros L Hex Hx Hxn He. destruct (lo_exchange _ _ _ _ L r x Hx Hxn) as (_ & req & Hq & Hqn). split_and!.
  - apply focus_end; intros ? Hr; congruence.
  - eapply (local_ended used ex r st); [exact L|done|..]; simpl; try done.
    + intros k. destruct (decide (k = r)) as [->|Hk]; [by rewrite lookup_delete_eq, Hx|]. rewrite lookup_delete_ne by done. by destruct (exchanges st !! k).
    + intros k. case_decide as Hk; [by rewrite Hk, lookup_delete_eq|]. by rewrite lookup_delete_ne.
    + intros e' He'. congruence.
    + intros. congruence.
  - by apply no_answers.
Qed.

(** A step that keeps the track and its exchanges, but for their phases and signals. *)
Lemma local_kept used ex ex' st st' n : local used ex st n ->
  (forall k, match exchanges st' !! k, exchanges st !! k with Some x', Some x => x_name x' = x_name x | None, None => True | _, _ => False end) ->
  relay_pending_requests st' = relay_pending_requests st -> relay_next_request_id st' = relay_next_request_id st ->
  response_senders st' = response_senders st -> subscribe_requests st' = subscribe_requests st ->
  match tracks (table st') !! n, tracks (table st) !! n with
  | Some e', Some e => origin (upstream (te_track e')) = origin (upstream (te_track e)) /\ held e' = held e /\ track_ok used ex' st' n e' /\
      forall ur, ur ∈ registered_in e' -> ur ∈ registered_in e \/ exists x, exchanges st !! ur_request_id ur = Some x /\ x_name x = n
  | None, None => True
  | _, _ => False
  end -> local used ex' st' n.
Proof.
  intros [Le Lx Lp] Hx Hp Hn Hs Hr Ht. split.
  - intros e' He'. rewrite He' in Ht. destruct (tracks (table st) !! n) as [e|] eqn:He; [|done]. destruct Ht as (Ho & Hh & Hok & Hreg).
    destruct (Le e eq_refl) as [_ Hhe HR]. split; [done|by rewrite Hh, Hs, Hr|]. intros ur Hur. rewrite Hn.
    specialize (Hx (ur_request_id ur)). destruct (Hreg ur Hur) as [Hin|(x & Hx1 & Hx2)].
    + destruct (HR ur Hin) as [Hlt HRx]. split; [done|]. intros x' Ex'. rewrite Ex' in Hx. destruct (exchanges st !! _) as [x|]; [|done].
      rewrite Hx. by apply HRx.
    + destruct (Lx _ _ Hx1 Hx2) as [Hlt _]. split; [done|]. intros x' Ex'. rewrite Ex', Hx1 in Hx. congruence.
  - intros k x' Ek Hxn. specialize (Hx k). rewrite Ek in Hx. destruct (exchanges st !! k) as [x|] eqn:Ek'; [|done]. rewrite Hn, Hp.
    apply (Lx k x); [done|congruence].
  - intros k req. rewrite Hp. intros Hk Hkn. destruct (Lp k req Hk Hkn) as ((x & Ex & Hxn) & Hu & Hc). split_and!; [|done|].
    + specialize (Hx k). rewrite Ex in Hx. destruct (exchanges st' !! k) as [x'|]; [|done]. exists x'. split; [done|congruence].
    + rewrite Hs. intros Hsend. destruct (Hc Hsend) as (e & He & Ho & Hh). rewrite He in Ht. destruct (tracks (table st') !! n) as [e'|]; [|done].
      destruct Ht as (Ho' & Hh' & _). exists e'. rewrite Ho', Hh'. done.
Qed.

Lemma size_of_names n (m m' : gmap Z Exchange) :
  (forall k, match m' !! k, m !! k with Some x', Some x => x_name x' = x_name x | None, None => True | _, _ => False end) ->
  size (of_name n m') = size (of_name n m).
Proof.
  intros H. rewrite <- !size_dom. f_equal. apply set_eq. intros k. rewrite !elem_of_dom. unfold of_name, is_Some. specialize (H k).
  split; intros [x Hx]; apply map_lookup_filter_Some in Hx as [Hx Hn]; simpl in Hn; rewrite Hx in H;
    [destruct (m !! k) as [y|] eqn:Ey|destruct (m' !! k) as [y|] eqn:Ey]; try done;
    exists y; apply map_lookup_filter_Some; split; try done; simpl; congruence.
Qed.

(** The same state of the subscriptions. *)
Record looks (e e' : TrackEntry) : Prop := {
  lk_origin : origin (upstream (te_track e')) = origin (upstream (te_track e));
  lk_status : status (upstream (te_track e')) = status (upstream (te_track e));
  lk_held : held e' = held e;
  lk_pending : pending_subscribers e' = pending_subscribers e
}.

(** What a track needs of its exchanges. *)
Lemma track_ok_exchanges used ex ex' st st' n e e' : looks e e' -> (is_waiting e = true -> count_of e' = count_of e) -> track_ok used ex st n e ->
  (forall k, match exchanges st' !! k, exchanges st !! k with Some x', Some x => x_name x' = x_name x | None, None => True | _, _ => False end) ->
  (is_waiting e = true -> forall k x', exchanges st' !! k = Some x' -> x_name x' = n -> (ex' = Some k \/ x_phase x' <> XP_Answered) /\ x_signal x' = None) ->
  relay_pending_requests st' = relay_pending_requests st -> response_senders st' = response_senders st -> outputs st' = outputs st ->
  track_ok used ex' st' n e'.
Proof.
  intros [L1 L2 L3 L4] Hc0 T Hx Hph Hp Hs Ho. unfold track_ok, is_waiting, waiting_ok, answered, count_of in *. rewrite L1, L2, L3, L4, Hs, Ho.
  track_cases e. destruct T as (Hne & creator & Hw & Hc & Hpos & Hsz & Hax). split; [done|]. exists creator. split; [exact Hw|]. split; [exact Hc|].
  unfold awaits. rewrite Hc0 by done. split_and!; [done|by rewrite (size_of_names n (exchanges st) (exchanges st') Hx)|]. intros k x' Hk Hn. destruct (Hph eq_refl k x' Hk Hn). split_and!; [done..|].
  specialize (Hx k). rewrite Hk in Hx. destruct (exchanges st !! k) as [x|] eqn:Ek; [|done]. rewrite Hp. apply (Hax k x Ek). congruence.
Qed.

Lemma focus_set used n st r x x' : exchanges st !! r = Some x -> x_name x = n -> x_name x' = n -> focus used n st (set_exchange st r x').
Proof.
  intros Hx Hn Hn' m Hm. split; try done; eauto; simpl.
  - intros k y Hy. rewrite lookup_insert_Some. destruct (decide (r = k)) as [->|Hk]; [|split; [intros [[]|[]]; done|by right]].
    split; [intros [[_ ->]|[]]; congruence|]. intros Hk. congruence.
  - intros k y. rewrite lookup_insert_Some. intros [[<- <-]|[_ H]]; congruence.
  - exists []. rewrite app_nil_r. split; [done|]. intros id H. by apply not_elem_of_nil in H.
Qed.

Lemma insert_names r x x' (m : gmap Z Exchange) : m !! r = Some x -> x_name x' = x_name x ->
  forall k, match <[r := x']> m !! k, m !! k with Some x', Some x => x_name x' = x_name x | None, None => True | _, _ => False end.
Proof.
  intros Hx Hn k. destruct (decide (r = k)) as [<-|Hk]; [by rewrite lookup_insert_eq, Hx|]. rewrite lookup_insert_ne by done. by destruct (m !! k).
Qed.

(** The exchange moves on. *)
Lemma set_phase_local used ex st r x p n : local used None st n -> exchanges st !! r = Some x -> x_name x = n ->
  ex = Some r \/ (ex = None /\ p <> XP_Answered) -> local used ex (set_exchange st r (set_phase p x)) n.
Proof.
  intros L Hx Hxn Hex. eapply local_kept; [exact L|..]; try done; simpl; [by apply (insert_names r x)|].
  destruct (tracks (table st) !! n) as [e|] eqn:He; [|done]. split_and!; [done..| |by left].
  eapply track_ok_exchanges; [by split|done|apply (lo_entry _ _ _ _ L e He)|..]; try done; simpl; [by apply (insert_names r x)|].
  intros [Ho Hst]%is_waiting_true k x' Hk Hkn. pose proof (el_track _ _ _ _ _ (lo_entry _ _ _ _ L e He)) as T. unfold track_ok in T.
  rewrite Ho, Hst in T. destruct T as (_ & creator & _ & _ & _ & _ & Hax). apply lookup_insert_Some in Hk as [[<- <-]|[Hne Hk]].
  - destruct (Hax r x Hx Hxn) as (_ & Hsig & _). split; [|done]. simpl. destruct Hex as [|[]]; [by left|by right].
  - destruct (Hax k x' Hk Hkn) as ([|] & Hsig & _); [done|]. split; [by right|done].
Qed.

Lemma waiting_exchange used st n e r x : local used None st n -> tracks (table st) !! n = Some e -> is_waiting e = true ->
  exchanges st !! r = Some x -> x_name x = n -> x_phase x <> XP_Answered /\ x_signal x = None.
Proof.
  intros L He [Ho Hst]%is_waiting_true Hx Hn. pose proof (el_track _ _ _ _ _ (lo_entry _ _ _ _ L e He)) as T. unfold track_ok in T.
  rewrite Ho, Hst in T. destruct T as (_ & c & _ & _ & _ & _ & Hax). by destruct (Hax r x Hx Hn) as ([|] & ? & _).
Qed.

Lemma register_entry st e r c :
  let u := with_requests (upstream (te_track e)) (register (gone st) (upstream_requests (upstream (te_track e))) r c URK_Subscribe) in
  forall ur, ur ∈ registered (upstream_requests u) -> ur ∈ registered_in e \/ ur_request_id ur = r.
Proof.
  intros u ur Hur. unfold u in Hur. simpl in Hur. apply elem_of_app in Hur as [Hur| ->%list_elem_of_singleton]; [left|by right].
  apply list_elem_of_In in Hur. apply filter_In in Hur as [Hur _]. apply filter_In in Hur as [Hur _]. by apply list_elem_of_In.
Qed.

Lemma opened_advance used r st x : tables_ok (table st) -> local used None st (x_name x) -> exchanges st !! r = Some x -> is_opening x = true ->
  forall sent, advance used (x_name x) st (exchange_opened st r x sent false).
Proof.
  intros Ht L Hx Hop sent. unfold exchange_opened. destruct sent; cbn [negb].
  2: { eapply declined; [done|exact L|by left|done|done]. }
  destruct (tracks (table st) !! x_name x) as [e|] eqn:He; [|by eapply ended_untracked; [exact L|by left|..]].
  pose proof (tk_quiet _ Ht _ _ He) as Hq. pose proof (lo_entry _ _ _ _ L e He) as Le.
  set (n := x_name x) in *. set (st1 := set_exchange st r (set_phase XP_Waiting x)).
  set (u := with_requests _ _). set (u' := match _ with Some _ => _ | None => _ end). set (e1 := set_track e (with_upstream (te_track e) u')).
  assert (Hreg : forall ur, ur ∈ registered (upstream_requests u) -> ur ∈ registered_in e \/ ur_request_id ur = r) by apply register_entry.
  assert (Hu : origin u' = origin (upstream (te_track e)) /\ status u' = status (upstream (te_track e)) /\
    pending_upstream_subscribe_count u' = count_of e) by (unfold u'; by destruct (Nat.eqb _ 0)).
  destruct Hu as (Ho & Hst & Hc).
  assert (Hsig : forall s, s ∈ signals_of e1 -> held e = ∅ /\ exists ur, ur ∈ registered (upstream_requests u) /\ fst s = ur_request_id ur).
  { intros s. unfold signals_of, e1, u'. simpl. destruct (Nat.eqb_spec (subscriber_count (manager (te_track e))) 0) as [E0|E0].
    - intros Hs%(proj1 (cancel_matching_of _ _ _ _)). split; [by apply map_size_empty_inv|]. destruct Hs as [Hs|Hs]; [|exact Hs].
      simpl in Hs. fold (signals_of e) in Hs. rewrite Hq in Hs. by apply not_elem_of_nil in Hs.
    - simpl. fold (signals_of e). rewrite Hq. by intros ?%not_elem_of_nil. }
  assert (Hr' : forall ur, ur ∈ registered_in e1 -> ur ∈ registered_in e \/ ur_request_id ur = r).
  { intros ur Hur. apply Hreg. unfold registered_in, e1, u' in Hur. simpl in Hur. destruct (Nat.eqb _ 0); [|exact Hur].
    by apply (proj2 (cancel_matching_of _ _ _ _)) in Hur. }
  assert (Hown : own_signals st1 n e1).
  { intros s y Hs Hy. destruct (Hsig s Hs) as (_ & ur & Hur & E). simpl in Hy. rewrite E in Hy.
    apply lookup_insert_Some in Hy as [[_ Hy]|[Hne Hy]]; [by rewrite <- Hy|]. destruct (Hreg ur Hur) as [Hin|]; [|congruence].
    destruct (el_registered _ _ _ _ _ Le ur Hin) as [_ Hx']. by apply Hx'. }
  assert (L1 : local used None st1 n) by (apply set_phase_local; [done..|by right]).
  split_and!; [eapply focus_trans; [by apply (focus_set used n st r x (set_phase XP_Waiting x))|by apply focus_put]| |by apply no_answers].
  assert (Hxs : forall k, match exchanges (put_track st1 n e1) !! k, exchanges st1 !! k with Some x', Some x => x_name x' = x_name x | None, None => True | _, _ => False end).
  { intros k. pose proof (signalled_lookup st1 (te_track e1) k) as H. simpl in *. destruct (fold_left _ _ _ !! k), (<[r := _]> (exchanges st) !! k); try done. by destruct H. }
  eapply local_kept; [exact L1|exact Hxs|done..|]. simpl. rewrite lookup_insert_eq, He. split_and!; [exact Ho|done| |].
  - eapply (track_ok_exchanges used None None st1 _ n e (quiet e1)); [by split|by intros|apply (lo_entry _ _ _ _ L1 e He)|exact Hxs| |done..].
    intros Hw k y Hk Hyn. pose proof (signalled_lookup st1 (te_track e1) k) as H.
    change (exchanges (signalled st1 (te_track e1)) !! k = Some y) in Hk. rewrite Hk in H.
    destruct (exchanges st1 !! k) as [y0|] eqn:Ek; [|done]. destruct H as (Hn0 & _ & _ & Hsame).
    assert (Hnil : signals_of e1 = []).
    { destruct (signals_of e1) as [|s l] eqn:Es; [done|]. destruct (Hsig s) as [Hemp _]; [by left|]. pose proof (el_track _ _ _ _ _ Le) as T.
      apply is_waiting_true in Hw as [Ho' Hst']. unfold track_ok in T. rewrite Ho', Hst' in T. by destruct T. }
    fold (signals_of e1) in Hsame. rewrite Hnil in Hsame. rewrite Hsame by (by apply not_elem_of_nil). split; [right|].
    all: eapply (waiting_exchange used st1 n e k y0); [exact L1|exact He|exact Hw|exact Ek|congruence].
  - intros ur Hur. destruct (Hr' ur Hur) as [|Hid]; [by left|right]. exists (set_phase XP_Waiting x). by rewrite Hid, lookup_insert_eq.
Qed.

Lemma advance_from used n st st1 st2 : focus used n st st1 -> outputs st1 = outputs st -> advance used n st1 st2 -> advance used n st st2.
Proof.
  intros F Eo (F' & L & l & A & Hnd & Hl). unfold answered in *. rewrite Eo in *. split_and!; [by eapply focus_trans|done|by exists l].
Qed.

Lemma local_outputs used ex n st o : answers o = [] -> local used ex st n -> local used ex (put_out st o) n.
Proof.
  intros Ho [Le Lx Lp]. split; [|exact Lx|exact Lp]. intros e He. destruct (Le e He) as [T Hh HR]. split; [|exact Hh|exact HR].
  assert (E : answered (put_out st o) = answered st) by (unfold answered, answers; simpl; rewrite omap_app; fold (answers o); by rewrite Ho, app_nil_r).
  unfold track_ok, waiting_ok in *. rewrite E. exact T.
Qed.

Lemma advance_out used n st st' o : answers o = [] -> advance used n st st' -> advance used n st (put_out st' o).
Proof.
  intros Ho (F & L & l & A & Hl). split_and!.
  - eapply focus_trans; [exact F|]. apply focus_out. rewrite Ho. intros id H. by apply not_elem_of_nil in H.
  - by apply local_outputs.
  - exists l. split; [|done]. rewrite <- A. unfold answered, answers. simpl. rewrite omap_app. fold (answers o). by rewrite Ho, app_nil_r.
Qed.

(** Only a track that waits tells the exchanges apart. *)
Lemma local_unwait used ex st n : local used ex st n -> (forall e, tracks (table st) !! n = Some e -> is_waiting e = false) -> local used None st n.
Proof.
  intros [Le Lx Lp] Hw. split; [|exact Lx|exact Lp]. intros e He. destruct (Le e He) as [T Hh HR]. split; [|exact Hh|exact HR].
  specialize (Hw e He). unfold track_ok, is_waiting in *. track_cases e.
Qed.

(** Those that wait are told that the track is there. *)
Lemma welcomed_answers used ex st n e st1 e1 name params l :
  entry_local used ex st n e -> waiting_ok used st e l ->
  (forall id, is_Some (held e !! id) -> id ∈ l) ->
  tracks (table st1) !! name = Some e1 -> entry_ok e1 -> held e1 = held e -> response_senders st1 = response_senders st ->
  let o := answers (welcomed st1 name params l) in
  NoDup o /\ (forall id, is_Some (held e !! id) -> id ∈ o) /\ forall id, id ∈ o -> id ∉ answered st /\ id ∈ used /\ id ∈ response_senders st /\
    exists req, subscribe_requests st !! id = Some req /\ name_of req = n.
Proof.
  intros L [Hnd Hw] Hall E1 Hok Hh Hs. simpl. rewrite (answers_welcomed _ _ _ _ e1) by done. rewrite Hh, Hs.
  pose proof (el_held _ _ _ _ _ L) as Hheld.
  split_and!; [by apply NoDup_filter| |].
  - intros id Hid. apply list_elem_of_filter. split; [|by apply Hall]. split; [|done]. by destruct (Hheld id Hid) as (_ & ? & _).
  - intros id [[Hsend Hhe] Hid]%list_elem_of_filter. destruct (Hw id Hid) as [Hu H]. destruct (H Hsend) as [_ Hn].
    destruct (Hheld id Hhe) as (_ & _ & Hr). by split_and!.
Qed.

Lemma welcomed_same st st' name params l e e' : tracks (table st) !! name = Some e -> tracks (table st') !! name = Some e' ->
  (forall id, get_subscription e' id = get_subscription e id) -> track_properties (te_track e') = track_properties (te_track e) ->
  response_senders st' = response_senders st -> welcomed st' name params l = welcomed st name params l.
Proof.
  intros E E' Hg Hp Hs. unfold welcomed. rewrite E, E'. apply flat_map_ext. intros id. by rewrite Hg, Hp, Hs.
Qed.

(** The SUBSCRIBE_OK that makes the track: all that wait are told. *)
Lemma confirmed_advance used ex r st n e e1 tm x params : tables_ok (table st) -> local used ex st n ->
  exchanges st !! r = Some x -> x_name x = n -> tracks (table st) !! n = Some e -> is_waiting e = true ->
  tracks tm = tracks (table st) -> entry_ok e1 -> signals_of e1 = [] -> held e1 = held e -> registered_in e1 = registered_in e ->
  pending_subscribers e1 = pending_subscribers e -> origin (upstream (te_track e1)) = TO_Subscribe ->
  (exists ps, status (upstream (te_track e1)) = TS_Confirmed ps) -> forall req, relay_pending_requests st !! r = Some req ->
  advance used n st
    (let st := put_track (with_table st tm) n e1 in
     let st := answer_ok n params (creator_of req) st in
     let st := put_track st n (set_pending e1 []) in
     fold_left (fun st id => answer_ok n params id st) (pending_subscribers e1) st).
Proof.
  intros Ht L Hx Hxn He Hw Htm Hok Hs1 Hh1 Hr1 Hp1 Ho1 [ps Hst1] req Hq. pose proof (lo_entry _ _ _ _ L e He) as Le.
  pose proof (el_track _ _ _ _ _ Le) as T. unfold track_ok in T. apply is_waiting_true in Hw as [Ho Hst]. rewrite Ho, Hst in T.
  destruct T as (Hne & creator & Hwait & Hall & _ & _ & Hax). destruct (Hax r x Hx Hxn) as (_ & _ & req' & Hq' & _ & Hcr).
  assert (req' = req) as -> by congruence. subst creator.
  set (e2 := set_pending e1 []). set (st1 := with_table st (put_entry tm n e1)). set (st2 := with_table st (put_entry (put_entry tm n e1) n e2)).
  set (l := creator_of req :: pending_subscribers e).
  assert (E1 : tracks (table st1) !! n = Some e1) by apply lookup_insert_eq.
  assert (E2 : tracks (table st2) !! n = Some e2) by apply lookup_insert_eq.
  match goal with |- advance _ _ _ ?s => assert (Efin : s = put_out st2 (welcomed st2 n params l)) end.
  { cbv zeta. rewrite answer_ok_all_out, answer_ok_out. rewrite (put_track_quiet _ n e1) by done.
    change (with_table (with_table st tm) _) with st1. rewrite (put_track_quiet _ n (set_pending e1 [])) by done. fold e2.
    change (with_table (put_out st1 (welcomed st1 n params [creator_of req])) _) with (put_out st2 (welcomed st1 n params [creator_of req])).
    rewrite put_out_app, Hp1. f_equal. rewrite (welcomed_same st2 st1 n params _ e2 e1) by done.
    unfold welcomed, l. simpl. by rewrite app_nil_r. }
  rewrite Efin. clear Efin.
  destruct (welcomed_answers used ex st n e st2 e2 n params l Le Hwait Hall E2) as (Hnd & Hheld & Hnew); [by destruct Hok|done|done|].
  assert (Ht2 : tabled n r st st2 e2) by (split; try done; simpl; by rewrite Htm, insert_insert_eq).
  assert (Ea : answered (put_out st2 (welcomed st2 n params l)) = answered st ++ answers (welcomed st2 n params l)).
  { unfold answered, answers. simpl. by rewrite omap_app. }
  split_and!.
  - destruct (lo_exchange _ _ _ _ L r x Hx Hxn) as (_ & req' & Hq1 & Hq2). eapply focus_trans; [eapply focus_tabled; [exact Ht2|]; intros; congruence|].
    apply focus_out. intros id Hid _. by destruct (Hnew id Hid) as (_ & _ & ? & ?).
  - eapply local_kept; [exact L|..]; try done; [intros k; simpl; by destruct (exchanges st !! k)|].
    cbn [table put_out]. rewrite E2, He. split_and!; [by rewrite Ho|exact Hh1| |].
    + unfold track_ok. cbn [te_track e2 set_pending]. rewrite Ho1, Hst1. change (held e2) with (held e1). rewrite Hh1. split_and!; [done..|].
      intros id Hid. rewrite Ea. apply elem_of_app. right. by apply Hheld.
    + intros ur Hur. left. by rewrite <- Hr1.
  - exists (answers (welcomed st2 n params l)). split_and!; [exact Ea|done|]. intros id Hid. by destruct (Hnew id Hid) as (? & ? & _).
Qed.

Lemma set_exchange_tables st r x : table (set_exchange st r x) = table st.
Proof. done. Qed.

(** A SUBSCRIBE_OK. *)
Lemma accepted_advance used r st x m : tables_ok (table st) -> local used None st (x_name x) -> exchanges st !! r = Some x ->
  has_unsupported_mandatory (sok_track_properties m) = false ->
  advance used (x_name x) st (exchange_message st r x (UM_SubscribeOk m)).
Proof.
  intros Ht L Hx Hun. set (n := x_name x) in *. unfold exchange_message. set (x1 := set_phase XP_Answered x). set (st1 := set_exchange st r x1).
  assert (L1 : local used (Some r) st1 n) by (apply set_phase_local; [done..|by left]).
  assert (Hx1 : exchanges st1 !! r = Some x1) by apply lookup_insert_eq.
  assert (F1 : focus used n st st1) by (by apply (focus_set used n st r x x1)).
  assert (Hidle : (forall e, tracks (table st1) !! n = Some e -> is_waiting e = false) -> advance used n st st1).
  { intros Hw. split_and!; [done|by eapply local_unwait|by apply no_answers]. }
  destruct (lo_exchange _ _ _ _ L r x Hx eq_refl) as (_ & req & Hq & Hqn). unfold handle_subscribe_ok_message.
  change (relay_pending_requests st1) with (relay_pending_requests st). rewrite Hq, Hun. fold (name_of req). rewrite Hqn.
  change (table st1) with (table st) in *. destruct (tracks (table st) !! n) as [e|] eqn:He; [|by apply Hidle].
  pose proof (tk_quiet _ Ht _ _ He) as Hs. pose proof (lo_entry _ _ _ _ L1 e He) as Le. pose proof (el_track _ _ _ _ _ Le) as T.
  case_bool_decide as Hco.
  { apply Hidle. intros e' [= <-]. unfold is_waiting. by rewrite Hco. }
  destruct (add_alias_ok (table st) (x_publisher x) (sok_track_alias m) n Ht) as (_ & Etr & _ & _).
  destruct (add_track_alias (table st) (x_publisher x) (sok_track_alias m) n) as [tm added]. simpl in Etr. destruct added; cbn [negb].
  2: { apply advance_out; [done|]. eapply (advance_from used n st st1); [exact F1|done|].
       by apply (declined used (Some r) r st1 n _ _ _ _ x1); [exact Ht|exact L1|right|..]. }
  pose proof (confirm_entry e (x_publisher x) (sok_track_alias m) (sok_parameters m) (sok_track_properties m) (tk_entries _ Ht _ _ He)) as Hc.
  assert (Ho : origin (upstream (te_track e)) = TO_Subscribe) by (unfold track_ok in T; track_cases e).
  unfold confirm in *. cbn zeta in *. change (status (add_publisher _ _ _)) with (status (upstream (te_track e))) in *.
  destruct (status (upstream (te_track e))) as [|ps|code ph] eqn:Hst; [..|unfold track_ok in T; by rewrite Ho, Hst in T].
  - destruct (upstream_subscribe_answered _) as [u k] eqn:Eu. destruct Hc as (Hok & Hid & _ & Hh & Hp). cbn [fst negb] in *.
    assert (Hu : origin u = TO_Subscribe /\ (exists ps, status u = TS_Confirmed ps) /\ signals (upstream_requests u) = signals_of e /\
      registered (upstream_requests u) = registered_in e).
    { unfold upstream_subscribe_answered in Eu. destruct (0 <? _) in Eu; injection Eu as <- _; simpl; rewrite Ho; split_and!; eauto. }
    destruct Hu as (Hu1 & Hu2 & Hu3 & Hu4). eapply (advance_from used n st st1); [exact F1|done|].
    eapply (confirmed_advance used (Some r) r st1 n e _ tm x1); try done; [unfold is_waiting; by rewrite Ho, Hst|].
    change (signals (upstream_requests u) = []). by rewrite Hu3.
  - destruct (upstream_subscribe_answered _) as [u k] eqn:Eu. destruct Hc as (Hok & Hid & _ & Hh & Hp). cbn [fst negb] in *.
    set (e1 := set_track e _) in *.
    assert (Hu : origin u = TO_Subscribe /\ status u = TS_Confirmed ps /\ signals (upstream_requests u) = signals_of e /\
      registered (upstream_requests u) = registered_in e).
    { unfold upstream_subscribe_answered in Eu. destruct (0 <? _) in Eu; injection Eu as <- _; simpl; rewrite Ho, Hst; by split_and!. }
    destruct Hu as (Hu1 & Hu2 & Hu3 & Hu4). assert (Hs1 : signals_of e1 = []) by (change (signals (upstream_requests u) = []); by rewrite Hu3).
    assert (Ht' : tabled n r st1 (put_track (with_table st1 tm) n e1) e1).
    { rewrite put_track_quiet by done. split; try done. simpl. by rewrite Etr. }
    split_and!; [|eapply local_kept; [exact L|..]; try done|by apply no_answers].
    + eapply focus_trans; [exact F1|]. eapply focus_tabled; [exact Ht'|]. intros req' Hq'. change (relay_pending_requests st !! r = Some req') in Hq'. congruence.
    + intros k'. rewrite (ta_exchanges _ _ _ _ _ Ht'). by apply (insert_names r x).
    + rewrite (ta_tracks _ _ _ _ _ Ht'), lookup_insert_eq, He. split_and!; [rewrite Ho; exact Hu1|exact Hh| |intros ur Hur; left; rewrite <- Hu4; exact Hur].
      unfold track_ok in *. rewrite Ho, Hst in T. change (origin (upstream (te_track e1))) with (origin u). change (status (upstream (te_track e1))) with (status u).
      rewrite Hu1, Hu2. change (held e1) with (held e) in *. rewrite Hp. exact T.
Qed.

Lemma publish_done_tabled n r st x e m : tracks (table st) !! n = Some e -> signals_of e = [] -> x_name x = n ->
  exists e', tabled n r st (upstream_publish_done st x m) e' /\ like e e'.
Proof.
  intros He Hq Hn. unfold upstream_publish_done. rewrite Hn, He. pose proof (publisher_like e (x_publisher x)) as Hl.
  destruct (remove_publisher_quietly _ _) as [t still]. pose proof (li_quiet _ _ Hl Hq) as Hq'. set (e1 := set_track e t) in *.
  destruct still; [exists e1; split; [by apply tabled_put|done]|]. eexists. split; [|eapply like_trans; [exact Hl|apply notify_like]].
  eapply tabled_trans; [by apply tabled_put|]. eapply tabled_trans; [|by apply tabled_put].
  apply (tabled_same n r (put_track st n e1) _ e1); try done. rewrite put_track_quiet by done. apply lookup_insert_eq.
Qed.

(** The end of an exchange that the track does not wait for. *)
Lemma ended_settled used ex r st st1 n e e' x : local used ex st n -> ex = None \/ ex = Some r ->
  exchanges st !! r = Some x -> x_name x = n -> tracks (table st) !! n = Some e -> is_waiting e = false ->
  tabled n r st st1 e' -> like e e' -> advance used n st (end_exchange st1 r).
Proof.
  intros L Hex Hx Hxn He Hw Ht Hl. eapply (ended_tabled used ex r st st1 n e e' x); [done..|apply Hl|apply Hl|apply Hl|].
  eapply track_ok_settled; [exact Ht|exact Hl|exact Hw|]. apply (lo_entry _ _ _ _ L e He).
Qed.

Lemma message_advance used r st x msg : tables_ok (table st) -> local used None st (x_name x) -> exchanges st !! r = Some x ->
  match msg with
  | UM_SubscribeOk m => has_unsupported_mandatory (sok_track_properties m) = false
  | UM_PublishDone _ => x_phase x = XP_Answered
  | _ => True
  end -> advance used (x_name x) st (exchange_message st r x msg).
Proof.
  intros Ht L Hx Hm. set (n := x_name x) in *. set (x1 := set_phase XP_Answered x). set (st1 := set_exchange st r x1).
  assert (L1 : local used (Some r) st1 n) by (apply set_phase_local; [done..|by left]).
  assert (Hx1 : exchanges st1 !! r = Some x1) by apply lookup_insert_eq.
  assert (F1 : focus used n st st1) by (by apply (focus_set used n st r x x1)).
  assert (Hf : forall code phrase status, advance used n st (end_exchange (end_upstream_subscription st1 r (x_publisher x1) n code phrase status) r)).
  { intros. eapply (advance_from used n st st1); [exact F1|done|]. by apply (declined used (Some r) r st1 n _ _ _ _ x1); [exact Ht|exact L1|right|..]. }
  destruct msg as [m|m|m| | |]; [by apply accepted_advance|apply Hf| |apply advance_out; [done|]; apply Hf|apply Hf|apply Hf].
  eapply (advance_from used n st st1); [exact F1|done|]. unfold exchange_message. fold x1 st1.
  destruct (tracks (table st1) !! n) as [e|] eqn:He.
  - destruct (publish_done_tabled n r st1 x e m He (tk_quiet _ Ht _ _ He) eq_refl) as (e' & Ht' & Hl).
    eapply (ended_settled used (Some r) r st1 _ n e e' x1); [exact L1|by right|exact Hx1|done|exact He| |exact Ht'|exact Hl].
    destruct (is_waiting e) eqn:Hw; [|done]. by destruct (waiting_exchange used st n e r x L He Hw Hx eq_refl).
  - unfold upstream_publish_done. fold n. rewrite He. by apply (ended_untracked used (Some r) r st1 n x1); [exact L1|right|..].
Qed.

Lemma cancelled_advance used r st x : tables_ok (table st) -> local used None st (x_name x) -> exchanges st !! r = Some x ->
  can_cancel x = true -> advance used (x_name x) st (exchange_cancelled st r x).
Proof.
  intros Ht L Hx [_ Hsig]%andb_true_iff. unfold exchange_cancelled. set (n := x_name x) in *.
  destruct (tracks (table st) !! n) as [e|] eqn:He; [|by apply (ended_untracked used None r st n x); [exact L|left|..]].
  pose proof (tk_quiet _ Ht _ _ He) as Hq.
  assert (Hw : is_waiting e = false).
  { destruct (is_waiting e) eqn:Hw; [|done]. destruct (waiting_exchange used st n e r x L He Hw Hx eq_refl) as [_ E]. by rewrite E in Hsig. }
  case_bool_decide.
  - pose proof (remove_publisher_tabled n r st e (x_publisher x) Hq) as H'. destruct (remove_upstream_publisher _ _ _ _) as [[st' e'] still].
    destruct H' as (Ht' & Hl & _). by eapply (ended_settled used None r st _ n e e' x); [exact L|left|..].
  - pose proof (answered_like e) as Hl. eapply (ended_settled used None r st _ n e _ x); [exact L|by left|exact Hx|done|exact He|exact Hw| |exact Hl].
    apply tabled_put. by apply (li_quiet _ _ Hl).
Qed.

(** ** A request stream closes *)

Definition forget (st : Requests) (id : SubscriptionId) : Requests :=
  with_senders (with_subscribe_requests st (delete id (subscribe_requests st))) (response_senders st ∖ {[id]}).

Lemma focus_forget used n st id req : subscribe_requests st !! id = Some req -> name_of req = n -> focus used n st (forget st id).
Proof.
  intros Hr Hn m Hm. split; try done; simpl; [by intros r x ->|set_solver| | |].
  2: { by intros k q [_ H]%lookup_delete_Some. }
  - intros id' req' Hs Hr' Hn'. assert (id' <> id) by (intros ->; congruence). split; [set_solver|]. by rewrite lookup_delete_ne.
  - exists []. unfold answered. simpl. rewrite app_nil_r. split; [done|]. intros k H. by apply not_elem_of_nil in H.
Qed.

Lemma local_left used (st st' : Requests) (n : FullTrackName) (id : SubscriptionId) : local used None st n ->
  same_but_signals (exchanges st) (exchanges st') -> relay_pending_requests st' = relay_pending_requests st ->
  relay_next_request_id st' = relay_next_request_id st -> response_senders st' = response_senders st ∖ {[id]} ->
  subscribe_requests st' = delete id (subscribe_requests st) ->
  (forall e', tracks (table st') !! n = Some e' -> exists e, tracks (table st) !! n = Some e /\
     track_ok used None st' n e' /\ held e' ⊆ delete id (held e) /\ (forall ur, ur ∈ registered_in e' -> ur ∈ registered_in e)) ->
  (forall (e : TrackEntry) (id' : SubscriptionId), tracks (table st) !! n = Some e -> origin (upstream (te_track e)) = TO_Subscribe -> id' <> id -> is_Some (held e !! id') ->
     exists e', tracks (table st') !! n = Some e' /\ origin (upstream (te_track e')) = TO_Subscribe /\ is_Some (held e' !! id')) ->
  local used None st' n.
Proof.
  intros [Le Lx Lp] Hx Hp Hn Hs Hr Ht Hc. split.
  - intros e' He'. destruct (Ht e' He') as (e & He & Hok & Hheld & Hreg). destruct (Le e He) as [_ Hh HR]. split; [done|..].
    + intros id' [v Hid]. assert (delete id (held e) !! id' = Some v) as Hd by (by eapply lookup_weaken).
      apply lookup_delete_Some in Hd as [Hne Hd]. destruct (Hh id' (mk_is_Some _ _ Hd)) as (Hu & Hsend & req & Hq & Hqn).
      rewrite Hs, Hr. split_and!; [done|set_solver|]. exists req. by rewrite lookup_delete_ne.
    + intros ur Hur. destruct (HR ur (Hreg ur Hur)) as [Hlt HRx]. rewrite Hn. split; [done|]. intros x Ex. specialize (Hx (ur_request_id ur)).
      rewrite Ex in Hx. destruct (exchanges st !! ur_request_id ur) as [y|] eqn:Ey; [|done]. destruct Hx as [-> _]. by apply HRx.
  - intros k x Ek Hxn. specialize (Hx k). rewrite Ek in Hx. destruct (exchanges st !! k) as [y|] eqn:Ey; [|done]. destruct Hx as [Hy _].
    rewrite Hn, Hp. apply (Lx k y Ey). congruence.
  - intros k req. rewrite Hp. intros Ek Hkn. destruct (Lp k req Ek Hkn) as ((x & Ex & Hxn) & Hu & Hcr). split_and!; [|done|].
    + specialize (Hx k). rewrite Ex in Hx. destruct (exchanges st' !! k) as [x'|]; [|done]. exists x'. split; [done|]. destruct Hx. congruence.
    + rewrite Hs. intros [Hsend Hne]%elem_of_difference. destruct (Hcr Hsend) as (e & He & Ho & Hh). eapply Hc; [done..|set_solver|done].
Qed.

(** The track when one of its subscribers has left. *)
Lemma remove_subscriber_entry used st gone n e id : entry_local used None st n e -> signals_of e = [] -> is_Some (held e !! id) ->
  let '(t, cl, _) := remove_subscriber gone (te_track e) id in let e' := set_track e t in
  from_registered e e' /\ held e' = delete id (held e) /\
  match cl with
  | CL_RemoveTrack => delete id (held e) = ∅
  | _ => (held e' = ∅ /\ origin (upstream t) = TO_CacheOnly /\ status (upstream t) = TS_Pending) \/
         (held e' <> ∅ /\ cl = CL_Nothing /\ upstream t = upstream (te_track e))
  end.
Proof.
  intros L Hq Hid. unfold remove_subscriber. set (m := fst (sm_remove_subscription (manager (te_track e)) id)).
  assert (Em : sm_remove_subscription (manager (te_track e)) id = (m, sm_subscriptions (manager (te_track e)) !! id)) by done. rewrite Em.
  assert (Hm : sm_subscriptions m = delete id (held e)) by done. cbn zeta.
  destruct (Nat.eqb_spec (subscriber_count m) 0) as [E0|E0]; cbn [negb].
  2: { assert (Hne : held (set_track e (with_manager (te_track e) m)) <> ∅).
       { intros E. apply E0. unfold subscriber_count. change (sm_subscriptions m) with (held (set_track e (with_manager (te_track e) m))).
         by rewrite E. }
       split_and!; [by apply (from_registered_refl e)|done|by right]. }
  assert (Hemp : delete id (held e) = ∅) by (rewrite <- Hm; by apply map_size_empty_inv).
  set (t1 := with_upstream (with_manager (te_track e) m) _). assert (Hf : from_registered e (set_track e t1)).
  { apply (cancel_from gone e (set_track e (with_manager (te_track e) m)) URK_Subscribe URC_Cancelled). by apply (from_registered_refl e). }
  assert (Ho : origin (upstream t1) = TO_Subscribe).
  { pose proof (el_track _ _ _ _ _ L) as T. change (origin (upstream t1)) with (origin (upstream (te_track e))). unfold track_ok in T. track_cases e.
    destruct T as (Hh & _). rewrite Hh in Hid. by destruct Hid. }
  rewrite Ho. cbn [bool_decide negb]. pose proof (become_cache_only_entry gone e (set_track e t1) Hf) as H. cbn [te_track set_track] in H.
  destruct (become_cache_only gone t1) as [t cl]. destruct H as [Hf' [[-> ->]|(l & -> & Hor & Hst & Hman)]].
  - split_and!; [exact Hf'|done|done].
  - assert (Hh : held (set_track e t) = ∅) by (unfold held; cbn [te_track set_track]; rewrite Hman; exact Hemp).
    split_and!; [exact Hf'|by rewrite Hh|by left].
Qed.

Lemma sm_exists_held e id : entry_ok e -> sm_exists (manager (te_track e)) id = is_some (held e !! id).
Proof. intros [Hm _ _]. apply (mo_ids _ Hm). Qed.

(** Those that wait or are held, when one of them has left. *)
Lemma track_ok_left used st st' n e e' id : entry_local used None st n e -> is_Some (held e !! id) ->
  held e' = delete id (held e) -> pending_subscribers e' = pending_subscribers e -> held e' <> ∅ ->
  upstream (te_track e') = upstream (te_track e) -> exchanges st' = exchanges st -> relay_pending_requests st' = relay_pending_requests st ->
  response_senders st' = response_senders st ∖ {[id]} -> outputs st' = outputs st -> track_ok used None st' n e'.
Proof.
  intros L Hid Hh Hp Hne Hu Hx Hq Hs Ho. pose proof (el_track _ _ _ _ _ L) as T. unfold track_ok, awaits, waiting_ok, answered in *.
  rewrite Hu, Hp, Hx, Hq, Hs, Ho, Hh in *. track_cases e.
  - destruct T as (_ & creator & [Hnd Hw] & Hc & Ha). split; [done|]. exists creator. split; [split; [done|]|split; [|exact Ha]].
    + intros w Hin. destruct (Hw w Hin) as [Hus Hse]. split; [done|]. intros [Hsend Hnw]%elem_of_difference. destruct (Hse Hsend) as [Hhw Hna].
      split; [|done]. rewrite lookup_delete_ne by set_solver. done.
    + intros w [v Hv]. apply lookup_delete_Some in Hv as [_ Hv]. by apply Hc.
  - destruct T as (_ & Hpe & Ha). split_and!; [done..|]. intros w [v Hv]. apply lookup_delete_Some in Hv as [_ Hv]. by apply Ha.
  - destruct T as (Hemp & _). rewrite Hemp in Hid. by destruct Hid.
Qed.

Lemma track_ok_emptied used st st' n e e' id : entry_local used None st n e -> delete id (held e) = ∅ -> is_Some (held e !! id) ->
  held e' = ∅ -> pending_subscribers e' = pending_subscribers e -> origin (upstream (te_track e')) = TO_CacheOnly ->
  status (upstream (te_track e')) = TS_Pending -> response_senders st' = response_senders st ∖ {[id]} -> track_ok used None st' n e'.
Proof.
  intros L Hd Hid Hh Hp Ho Hst Hs. pose proof (el_track _ _ _ _ _ L) as T. unfold track_ok, waiting_ok in *. rewrite Ho, Hst, Hh, Hp, Hs. split; [done|].
  track_cases e.
  - destruct T as (_ & creator & [[_ Hnd]%NoDup_cons Hw] & _). split; [done|]. intros w Hin. destruct (Hw w) as [Hus Hse]; [by right|].
    split; [done|]. intros [Hsend Hnw]%elem_of_difference. destruct (Hse Hsend) as [[v Hv] _].
    assert (delete id (held e) !! w = Some v) as E by (rewrite lookup_delete_ne by set_solver; done). by rewrite Hd in E.
  - destruct T as (_ & -> & _). split; [constructor|]. intros w H. by apply not_elem_of_nil in H.
  - destruct T as (Hemp & _). rewrite Hemp in Hid. by destruct Hid.
Qed.


Lemma untouched_ssts used m st x : untouched used m st (with_ssts st x).
Proof. by apply untouched_same. Qed.

Lemma local_ssts used ex st n x : local used ex st n -> local used ex (with_ssts st x) n.
Proof. apply local_untouched, untouched_ssts. Qed.

(** The track of a subscriber that leaves. *)
Lemma closed_local used st id req : tables_ok (table st) -> local used None st (name_of req) -> subscribe_requests st !! id = Some req ->
  let st' := match tracks (table st) !! name_of req with
             | None => st
             | Some e =>
                 if negb (sm_exists (manager (te_track e)) id) then st
                 else
                   let '(t, cleanup, _) := remove_subscriber (gone st) (te_track e) id in
                   let st := put_track st (name_of req) (set_track e t) in
                   with_table st (clean_up (table st) (name_of req) cleanup)
             end in
  focus used (name_of req) st (forget st' id) /\ local used None (forget st' id) (name_of req) /\ outputs st' = outputs st.
Proof.
  intros Ht L Hr st'. set (n := name_of req) in *.
  assert (Hstay : (forall e, tracks (table st) !! n = Some e -> held e !! id = None) -> local used None (forget st id) n).
  { intros Hno. eapply local_left; [exact L|..]; try done.
    - intros k. simpl. by destruct (exchanges st !! k).
    - intros e He. exists e. specialize (Hno e He). split_and!; [done| |by rewrite delete_id|done].
      pose proof (el_track _ _ _ _ _ (lo_entry _ _ _ _ L e He)) as T. unfold track_ok, awaits, waiting_ok, answered in *. simpl. track_cases e.
      + destruct T as (Hne & c & [Hnd Hw] & Hrest). split; [done|]. exists c. split; [split; [done|]|done]. intros w Hin. destruct (Hw w Hin) as [? Hs].
        split; [done|]. intros [? _]%elem_of_difference. auto.
      + destruct T as (Hh & Hnd & Hw). split_and!; [done..|]. intros w Hin. destruct (Hw w Hin) as [? Hs]. split; [done|]. set_solver.
    - intros e id' He Ho Hne Hh. by exists e. }
  pose proof (focus_forget used n st id req Hr eq_refl) as F0. subst st'. destruct (tracks (table st) !! n) as [e|] eqn:He; [|by split_and!; [|apply Hstay|]].
  pose proof (lo_entry _ _ _ _ L e He) as Le. rewrite sm_exists_held by (by eapply tk_entries). destruct (held e !! id) as [v|] eqn:Hid; cbn [is_some negb].
  2: { split_and!; [done| |done]. apply Hstay. intros e' [= <-]. done. }
  assert (Hid' : is_Some (held e !! id)) by (by exists v). pose proof (tk_quiet _ Ht _ _ He) as Hq.
  pose proof (remove_subscriber_entry used st (gone st) n e id Le Hq Hid') as H. destruct (remove_subscriber _ _ _) as [[t cl] ch].
  set (e' := set_track e t) in *. cbv zeta in H. destruct H as (Hf & Hh & Hc).
  assert (Hreg : forall ur x, ur ∈ registered_in e -> exchanges st !! ur_request_id ur = Some x -> x_name x = n).
  { intros ur x Hur. destruct (el_registered _ _ _ _ _ Le ur Hur) as [_ HR]. apply HR. }
  destruct (put_cleaned used st n e e' cl Hf Hreg) as (F & X & T). cbv zeta in *.
  set (st1 := with_table (put_track st n e') (clean_up (table (put_track st n e')) n cl)) in *.
  change (if negb (is_some (Some v)) then st else st1) with st1.
  split_and!; [eapply focus_trans; [exact F|]; by apply (focus_forget used n st1 id req)| |done].
  eapply local_left; [exact L|exact X|done..| |].
  - intros e2. change (table (forget st1 id)) with (table st1). rewrite T. exists e. destruct cl as [|l|]; [..|done]; injection H as <-;
      (split_and!; [done| |rewrite <- Hh; done|apply Hf]).
    1,2: destruct Hc as [(He1 & Ho & Hst)|(Hne & Ecl & Hu)]; [by apply (track_ok_emptied used st _ n e (quiet e') id); try done; rewrite <- Hh|try done].
    assert (Hq' : signals_of e' = []) by (unfold signals_of; cbn [e' te_track set_track]; by rewrite Hu). rewrite (quiet_id e') by done.
    apply (track_ok_left used st _ n e e' id); try done. unfold st1. by rewrite put_track_quiet.
  - intros e2 id' He2 Ho Hne [w Hw]. change (table (forget st1 id)) with (table st1). rewrite T. assert (e2 = e) as -> by congruence.
    assert (Hd : delete id (held e) !! id' = Some w) by (by rewrite lookup_delete_ne).
    assert (Hw' : is_Some (held (quiet e') !! id')) by (exists w; change (held (quiet e')) with (held e'); by rewrite Hh).
    destruct cl as [|l|]; [..|by rewrite Hc in Hd]; (destruct Hc as [(He1 & _)|(_ & Ecl & Hu)]; [by rewrite <- Hh, He1 in Hd|try done]).
    exists (quiet e'). split_and!; [done| |done]. simpl. rewrite Hu. done.
Qed.

(** ** A SUBSCRIBE *)

Definition fresh_entry (config : AppConfig) (n : Z) : TrackEntry :=
  mkEntry (Track_new n (dedup_retained_groups config) TS_Pending TO_Subscribe) [] [].
(** The track as a SUBSCRIBE finds it, or makes it. *)
Definition entry_for (config : AppConfig) (st : Requests) (n : FullTrackName) : TrackEntry :=
  default (fresh_entry config (next_relay_track_id (table st))) (tracks (table st) !! n).
(** This SUBSCRIBE has to ask the publishers. *)
Definition asks (st : Requests) (n : FullTrackName) : bool :=
  match tracks (table st) !! n with Some e => bool_decide (origin (upstream (te_track e)) = TO_CacheOnly) | None => true end.

Lemma get_or_create_entry config st n :
  let '(tm, e, created) := get_or_create_track (table st) n (fun k => Track_new k (dedup_retained_groups config) TS_Pending TO_Subscribe) in
  e = entry_for config st n /\ tracks tm = <[n := e]> (tracks (table st)) /\ created = negb (is_some (tracks (table st) !! n)).
Proof.
  unfold get_or_create_track, entry_for. destruct (tracks (table st) !! n) as [e|] eqn:E; simpl; [|done]. by rewrite insert_id.
Qed.

Lemma entry_for_ok config st n : tables_ok (table st) -> entry_ok (entry_for config st n) /\ signals_of (entry_for config st n) = [].
Proof.
  intros Ht. unfold entry_for. destruct (tracks (table st) !! n) as [e|] eqn:E; simpl; [split; [by eapply tk_entries|by eapply tk_quiet]|].
  split; [|done]. split; [apply manager_new_ok|done|done].
Qed.

Lemma join_track_spec `{Target} config st c sub st1 creator s : let n := Subscribe_get_full_track_name sub in let id := (c, sub_request_id sub) in
  join_track config st c sub = Ok (st1, creator, s) -> tables_ok (table st) -> held (entry_for config st n) !! id = None ->
  let e0 := entry_for config st n in
  exists s0 e1 k, s = Some s0 /\ (forall r, tabled n r st st1 e1) /\ relay_pending_requests st1 = relay_pending_requests st /\
    held e1 = <[id := k]> (held e0) /\ pending_subscribers e1 = pending_subscribers e0 /\ registered_in e1 = registered_in e0 /\ signals_of e1 = [] /\
    creator = asks st n /\
    (if creator then origin (upstream (te_track e1)) = TO_Subscribe /\ status (upstream (te_track e1)) = TS_Pending
     else upstream (te_track e1) = upstream (te_track e0)).
Proof.
  intros n id Hj Ht Hfree e0. unfold join_track in Hj. fold n in Hj. pose proof (get_or_create_entry config st n) as Hg.
  destruct (get_or_create_track _ _ _) as [[tm e] created]. destruct Hg as (-> & Htr & Hcr). fold e0 in Hj, Htr.
  destruct (entry_for_ok config st n Ht) as [He Hq]. fold e0 in He, Hq.
  pose proof (take_over_aliases (upstream (te_track e0)) TO_Subscribe TS_Pending) as Hal.
  destruct (take_over _ _ _) as [u taken] eqn:Eu. simpl in Hal. destruct (pick_track_alias _ _ _) as [alias next].
  apply obind_Ok_inv in Hj as ([[[t s0] k]|] & Ej & Hj).
  2: { exfalso. unfold Tracks.add_subscription in Ej. apply obind_Ok_inv in Ej as (s0 & _ & Ej). unfold sm_add_subscription in Ej.
       change (sm_subscriptions (manager (te_track e0)) !! (c, sub_request_id sub) = None) in Hfree. simpl in Ej. by rewrite Hfree in Ej. }
  injection Hj as <- <- <-. apply (add_subscription_entry e0 u) in Ej as (_ & Hsub & _ & _ & Hup & _); [|done|done]. simpl origin_request_id in Hsub.
  set (e1 := mkEntry t (te_subscriptions e0 ++ [s0]) (pending_subscribers e0)).
  assert (Hu : upstream_requests u = upstream_requests (upstream (te_track e0)) /\ (created || taken) = asks st n /\
    if created || taken then origin u = TO_Subscribe /\ status u = TS_Pending else u = upstream (te_track e0)).
  { unfold take_over in Eu. unfold asks. subst created e0. unfold entry_for in *. destruct (tracks (table st) !! n) as [e|] eqn:En; simpl in *.
    - case_bool_decide; injection Eu as <- <-; by split_and!.
    - injection Eu as <- <-. by split_and!. }
  destruct Hu as (Hreq & Hcre & Hu). rewrite Hcre in *.
  assert (Hq1 : signals_of e1 = []) by (unfold signals_of; cbn [te_track e1]; by rewrite Hup, Hreq).
  exists s0, e1, k. rewrite put_track_quiet by done. split_and!; try done.
  - intros r. split; try done. simpl. by rewrite Htr, insert_insert_eq.
  - unfold registered_in. cbn [te_track e1]. by rewrite Hup, Hreq.
  - cbn [te_track e1]. rewrite Hup. exact Hu.
Qed.

(** The exchanges of a SUBSCRIBE that asks the publishers. *)
Record asked (n : FullTrackName) (req : SubscribeRequest) (count : nat) (st st' : Requests) : Prop := {
  as_next : relay_next_request_id st' = relay_next_request_id st + 2 * Z.of_nat count;
  as_old : forall r, r < relay_next_request_id st ->
    exchanges st' !! r = exchanges st !! r /\ relay_pending_requests st' !! r = relay_pending_requests st !! r;
  as_new : forall r, relay_next_request_id st <= r ->
    match exchanges st' !! r, relay_pending_requests st' !! r with
    | Some x, Some q => r < relay_next_request_id st' /\ x_name x = n /\ x_phase x = XP_Opening /\ x_signal x = None /\ q = req
    | None, None => True
    | _, _ => False
    end;
  as_size : size (of_name n (exchanges st')) = (size (of_name n (exchanges st)) + count)%nat
}.

Lemma subscribe_upstream_asked n req publishers st : 0 <= relay_next_request_id st ->
  relay_next_request_id st + 2 * Z.of_nat (length publishers) < U64 ->
  (forall r, relay_next_request_id st <= r -> exchanges st !! r = None /\ relay_pending_requests st !! r = None) ->
  asked n req (length publishers) st (fold_left (subscribe_upstream n req) publishers st).
Proof.
  revert st. induction publishers as [|p l IH]; intros st H0 Hb Hnew.
  { simpl. split; try done; try lia. intros r Hr. destruct (Hnew r Hr) as [-> ->]. done. }
  simpl length in *. set (st1 := subscribe_upstream n req st p). set (r0 := relay_next_request_id st) in *.
  assert (En : relay_next_request_id st1 = r0 + 2) by (simpl; fold r0; apply Z.mod_small; lia).
  assert (Ex : exchanges st1 = <[r0 := mkExchange n p XP_Opening None]> (exchanges st)) by done.
  assert (Ep : relay_pending_requests st1 = <[r0 := req]> (relay_pending_requests st)) by done.
  destruct (IH st1) as [N Old New Sz]; [lia|lia| |].
  { intros r Hr. rewrite Ex, Ep, !lookup_insert_ne by lia. apply Hnew. lia. }
  change (fold_left (subscribe_upstream n req) (p :: l) st) with (fold_left (subscribe_upstream n req) l st1). split; try done.
  - lia.
  - fold r0. intros r Hr. destruct (Old r) as [-> ->]; [lia|]. by rewrite Ex, Ep, !lookup_insert_ne by lia.
  - fold r0. intros r Hr. destruct (decide (r0 + 2 <= r)) as [Hge|Hlt]; [apply New; lia|]. destruct (Old r) as [-> ->]; [lia|].
    rewrite Ex, Ep. destruct (decide (r0 = r)) as [<-|Hne]; [rewrite !lookup_insert_eq; split_and!; try done; lia|].
    rewrite !lookup_insert_ne by done. destruct (Hnew r Hr) as [-> ->]. done.
  - rewrite Sz, Ex. unfold of_name. rewrite map_filter_insert_True by done. rewrite map_size_insert_None; [lia|].
    apply map_lookup_filter_None. left. by apply (Hnew r0).
Qed.

Lemma subscribe_upstream_same n req publishers st : let st' := fold_left (subscribe_upstream n req) publishers st in
  table st' = table st /\ response_senders st' = response_senders st /\ subscribe_requests st' = subscribe_requests st /\ outputs st' = outputs st.
Proof. revert st. induction publishers as [|p l IH]; intros st; [done|]. simpl. destruct (IH (subscribe_upstream n req st p)) as (->&->&->&->). done. Qed.

(** What the requests in a state are numbered with. *)
Lemma numbered used st : (forall n, local used None st n) ->
  forall r, relay_next_request_id st <= r -> exchanges st !! r = None /\ relay_pending_requests st !! r = None.
Proof.
  intros L r Hr. assert (Hx : exchanges st !! r = None).
  { destruct (exchanges st !! r) as [x|] eqn:E; [|done]. destruct (lo_exchange _ _ _ _ (L (x_name x)) r x E eq_refl). lia. }
  split; [done|]. destruct (relay_pending_requests st !! r) as [q|] eqn:E; [|done].
  destruct (lo_pending _ _ _ _ (L (name_of q)) r q E eq_refl) as ((x & Ex & _) & _). congruence.
Qed.

(** A subscriber more for the track. *)
Lemma local_joined used st st' n e0 e' id k req : local used None st n -> id ∉ used -> name_of req = n ->
  tracks (table st) !! n = Some e0 -> tracks (table st') !! n = Some e' -> held e' = <[id := k]> (held e0) ->
  registered_in e' = registered_in e0 -> origin (upstream (te_track e')) = origin (upstream (te_track e0)) ->
  exchanges st' = exchanges st -> relay_pending_requests st' = relay_pending_requests st ->
  relay_next_request_id st' = relay_next_request_id st -> response_senders st' = {[id]} ∪ response_senders st ->
  subscribe_requests st' = <[id := req]> (subscribe_requests st) -> track_ok (id :: used) None st' n e' -> local (id :: used) None st' n.
Proof.
  intros [Le Lx Lp] Hfresh Hqn He He' Hh Hreg Ho Hx Hp Hn Hs Hr Hok. destruct (Le e0 He) as [_ Hhe HR]. split.
  - rewrite He'. intros e1 [= <-]. split; [done| |].
    + intros id' [v Hid]. rewrite Hh in Hid. rewrite Hs, Hr. apply lookup_insert_Some in Hid as [[<- _]|[Hne Hid]].
      * split_and!; [by left|set_solver|]. exists req. by rewrite lookup_insert_eq.
      * destruct (Hhe id' (mk_is_Some _ _ Hid)) as (Hu & Hse & q & Hq & Hq'). split_and!; [by right|set_solver|]. exists q. by rewrite lookup_insert_ne.
    + rewrite Hreg, Hn, Hx. exact HR.
  - rewrite Hx, Hp, Hn. exact Lx.
  - intros r q. rewrite Hx, Hp. intros Hrq Hqn'. destruct (Lp r q Hrq Hqn') as (Hex & Hu & Hc). split_and!; [done|by right|].
    rewrite Hs. intros [Hid%elem_of_singleton|Hse]%elem_of_union; [by rewrite Hid in Hu|]. destruct (Hc Hse) as (e1 & He1 & Ho1 & Hh1). exists e'.
    assert (e1 = e0) as -> by congruence. split_and!; [done|congruence|]. rewrite Hh. destruct Hh1 as [v Hv].
    destruct (decide (id = creator_of q)) as [<-|Hne]; [by rewrite lookup_insert_eq|rewrite lookup_insert_ne by done; by exists v].
Qed.

Lemma of_name_empty n (m : gmap Z Exchange) : (forall r x, m !! r = Some x -> x_name x <> n) -> size (of_name n m) = 0%nat.
Proof.
  intros H. assert (of_name n m = ∅) as ->; [|apply map_size_empty].
  unfold of_name. apply map_empty. intros r. apply map_lookup_filter_None. destruct (m !! r) as [x|] eqn:E; [right|by left].
  intros y [= <-]. by apply (H r x).
Qed.

(** A track that waits for the publishers it has just asked. *)
Lemma local_asked used st st' n e0 e' id k req count : (forall m, local used None st m) -> id ∉ used -> answered st' = answered st ->
  (forall id', id' ∈ answered st -> id' ∈ used) -> name_of req = n -> creator_of req = id ->
  asked n req count st st' -> (0 < count)%nat -> (forall r x, exchanges st !! r = Some x -> x_name x <> n) ->
  (tracks (table st) !! n = Some e0 /\ origin (upstream (te_track e0)) = TO_CacheOnly \/
   held e0 = ∅ /\ pending_subscribers e0 = [] /\ registered_in e0 = []) ->
  tracks (table st') !! n = Some e' -> held e' = <[id := k]> (held e0) -> pending_subscribers e' = pending_subscribers e0 ->
  registered_in e' = registered_in e0 -> origin (upstream (te_track e')) = TO_Subscribe -> status (upstream (te_track e')) = TS_Pending ->
  count_of e' = Z.of_nat count -> response_senders st' = {[id]} ∪ response_senders st ->
  subscribe_requests st' = <[id := req]> (subscribe_requests st) -> local (id :: used) None st' n.
Proof.
  intros L Hfresh Hans Hau Hqn Hcr [N Old New Sz] Hpos Hnone Hold He' Hh Hp Hreg Ho Hst Hc Hs Hr. rewrite (of_name_empty n (exchanges st) Hnone) in Sz.
  assert (H0 : held e0 = ∅ /\ NoDup (pending_subscribers e0) /\ (forall w, w ∈ pending_subscribers e0 -> w ∈ used /\ w ∉ response_senders st) /\
    forall ur, ur ∈ registered_in e0 -> ur_request_id ur < relay_next_request_id st /\ exchanges st !! ur_request_id ur = None).
  { destruct Hold as [[He Hco]|(-> & -> & ->)]; [|split_and!; [done|constructor|by intros w ?%not_elem_of_nil|by intros w ?%not_elem_of_nil]].
    destruct (lo_entry _ _ _ _ (L n) e0 He) as [T _ HR]. unfold track_ok in T. rewrite Hco in T. destruct (status (upstream (te_track e0))); try done.
    destruct T as (? & ? & ?). split_and!; try done. intros ur Hur. destruct (HR ur Hur) as [Hlt HRx]. split; [done|].
    destruct (exchanges st !! ur_request_id ur) as [x|] eqn:Ex; [|done]. exfalso. by apply (Hnone _ x Ex), HRx. }
  destruct H0 as (Hh0 & Hnd0 & Hw0 & Hr0). rewrite Hh0 in Hh.
  assert (Hheld : forall id', is_Some (held e' !! id') -> id' = id).
  { intros id' [v Hv]. rewrite Hh in Hv. by apply lookup_insert_Some in Hv as [[<- _]|[_ Hv]]. }
  assert (Hnew : forall r x, exchanges st' !! r = Some x -> x_name x = n -> relay_next_request_id st <= r).
  { intros r x Hx Hxn. destruct (decide (relay_next_request_id st <= r)); [done|]. destruct (Old r) as [E _]; [lia|]. rewrite E in Hx. by apply Hnone in Hx. }
  split.
  - rewrite He'. intros e1 [= <-]. split.
    + unfold track_ok. rewrite Ho, Hst, Hp. split; [rewrite Hh; apply insert_non_empty|]. exists id. split; [split|split; [|split_and!]].
      * apply NoDup_cons. split; [|done]. intros Hin. by destruct (Hw0 id Hin).
      * rewrite Hs, Hans. intros w [->|Hw]%elem_of_cons.
        -- split; [by left|]. intros _. split; [rewrite Hh, lookup_insert_eq; eauto|auto].
        -- destruct (Hw0 w Hw) as [Hu Hns]. split; [by right|]. intros Hin. exfalso. assert (w <> id) by congruence. set_solver.
      * intros id' ->%Hheld. by left.
      * fold (count_of e'). lia.
      * fold (count_of e'). lia.
      * intros r x Hx Hxn. specialize (New r (Hnew r x Hx Hxn)). rewrite Hx in New. destruct (relay_pending_requests st' !! r) as [q|]; [|done].
        destruct New as (_ & _ & Hph & Hsig & ->). split_and!; [right; by rewrite Hph|done|by exists req].
    + intros id' ->%Hheld. split_and!; [by left|rewrite Hs; set_solver|]. exists req. by rewrite Hr, lookup_insert_eq.
    + rewrite Hreg. intros ur Hur. destruct (Hr0 ur Hur) as [Hlt Hno]. split; [lia|]. destruct (Old _ Hlt) as [-> _]. by rewrite Hno.
  - intros r x Hx Hxn. specialize (New r (Hnew r x Hx Hxn)). rewrite Hx in New. destruct (relay_pending_requests st' !! r) as [q|]; [|done].
    destruct New as (Hlt & _ & _ & _ & ->). split; [done|by exists req].
  - intros r q Hq Hqn'. destruct (decide (relay_next_request_id st <= r)) as [Hge|Hlt].
    + specialize (New r Hge). rewrite Hq in New. destruct (exchanges st' !! r) as [x|]; [|done]. destruct New as (_ & Hxn & _ & _ & ->).
      rewrite Hcr. split_and!; [by exists x|by left|]. intros _. exists e'. split_and!; [done..|]. rewrite Hh, lookup_insert_eq. eauto.
    + destruct (Old r) as [_ E]; [lia|]. rewrite E in Hq. destruct (lo_pending _ _ _ _ (L n) r q Hq Hqn') as ((x & Hx & Hxn) & _). by apply Hnone in Hx.
Qed.

(** ** The steps that the theorem is about *)

(** What it is not about: a SUBSCRIBE whose own stream is gone before its answer, which
    costs its session, or its handler; a publisher that answers with a property nobody may ignore, that
    ends what it has not begun or whose track is malformed; a SUBSCRIBE that asks the
    publishers while they are still being asked for the track's last subscribers, or that
    its switching set refuses then. *)
Definition op_ok (used : list SubscriptionId) (st : Requests) (op : request_op) : Prop :=
  match op with
  | RO_Subscribe c sub publishers reached =>
      let n := Subscribe_get_full_track_name sub in
      reached = true /\ (c, sub_request_id sub) ∉ used /\ relay_next_request_id st + 2 * Z.of_nat (length publishers) < U64 /\
      (asks st n = true -> map_Forall (fun _ x => x_name x <> n) (exchanges st) /\
         is_ok (assign_switching_set st n 0 (c, sub_request_id sub) (sub_parameters sub)) = true)
  | RO_Opened _ _ malformed => malformed = false
  | RO_Message _ (UM_SubscribeOk m) => has_unsupported_mandatory (sok_track_properties m) = false
  | RO_Message r (UM_PublishDone _) => match exchanges st !! r with Some x => x_phase x = XP_Answered | None => True end
  | _ => True
  end.
#[export] Instance op_ok_dec used st op : Decision (op_ok used st op).
Proof.
  destruct op as [c sub ps reached|r sent malformed|r|r msg|r|id]; simpl; try apply _. destruct msg as [m|m|m| | |]; try apply _.
  destruct (exchanges st !! r); apply _.
Defined.
Definition used_after (op : request_op) (used : list SubscriptionId) : list SubscriptionId :=
  match op with RO_Subscribe c sub _ _ => (c, sub_request_id sub) :: used | _ => used end.

Record state_ok (used : list SubscriptionId) (st : Requests) : Prop := {
  so_tables : tables_ok (table st);
  so_next : 0 <= relay_next_request_id st;
  so_once : NoDup (answered st);
  so_answered : forall id, id ∈ answered st -> id ∈ used;
  so_requests : forall id req, subscribe_requests st !! id = Some req -> id ∈ used;
  so_local : forall n, local used None st n
}.

Lemma assign_is_ok st st' n r r' id ps : ssts st' = ssts st ->
  is_ok (assign_switching_set st' n r' id ps) = is_ok (assign_switching_set st n r id ps).
Proof.
  intros E. unfold assign_switching_set, ssts_of. rewrite E. destruct (find_assignment ps) as [[[[[[s a] t] w] v] k]|]; [|done].
  destruct (validate_assignment _ a); [|done..]. unfold assign.
  destruct (track_to_set _ !! n) as [x|]; [by destruct (negb _)|done].
Qed.

Lemma join_track_ssts `{Target} config st c sub st1 creator s : join_track config st c sub = Ok (st1, creator, s) -> ssts st1 = ssts st.
Proof.
  unfold join_track. destruct (get_or_create_track _ _ _) as [[tm e] created]. destruct (take_over _ _ _) as [u taken].
  destruct (pick_track_alias _ _ _) as [alias next]. intros ([[[t s0] k]|] & _ & [= <- _ _])%obind_Ok_inv; done.
Qed.

Lemma settle_tabled st n id s assigned e : tracks (table st) !! n = Some e -> signals_of e = [] ->
  exists e2, (forall r, tabled n r st (settle_switching_set st n id s assigned) e2) /\
    relay_pending_requests (settle_switching_set st n id s assigned) = relay_pending_requests st /\
    te_track e2 = te_track e /\ pending_subscribers e2 = pending_subscribers e.
Proof.
  intros He Hq. unfold settle_switching_set. destruct assigned as [s'|]; rewrite ?He.
  - set (e2 := set_subscription e id _). exists e2. assert (Ht : te_track e2 = te_track e) by (unfold e2, set_subscription; by destruct (_ !! id)).
    rewrite put_track_quiet by (unfold signals_of; by rewrite Ht). split_and!; try done. unfold e2, set_subscription. by destruct (_ !! id).
  - exists e. split_and!; try done. intros r. by apply tabled_same.
Qed.

Lemma ensure_forwarding_same st n e : tracks (table st) !! n = Some e -> origin (upstream (te_track e)) <> TO_Publish ->
  ensure_upstream_forwarding st n = st.
Proof. intros He Ho. unfold ensure_upstream_forwarding. rewrite He. by rewrite bool_decide_eq_false_2. Qed.

Lemma focus_asked used n req count st st' : asked n req count st st' -> table st' = table st -> response_senders st' = response_senders st ->
  subscribe_requests st' = subscribe_requests st -> outputs st' = outputs st -> name_of req = n ->
  (forall r, relay_next_request_id st <= r -> exchanges st !! r = None /\ relay_pending_requests st !! r = None) -> focus used n st st'.
Proof.
  intros [N Old New _] Ht Hs Hr Ho Hq Hnum m Hm. split; rewrite ?Ht, ?Hs, ?Hr; try done; eauto; [| |lia| |].
  - intros r x Hx. destruct (decide (relay_next_request_id st <= r)) as [Hge|Hlt]; [|by destruct (Old r) as [-> _]; [lia|]].
    destruct (Hnum r Hge) as [-> _]. specialize (New r Hge). split; [|done]. intros E. rewrite E in New.
    destruct (relay_pending_requests st' !! r); [|done]. destruct New as (_ & Hn & _). congruence.
  - intros r q Hx. destruct (decide (relay_next_request_id st <= r)) as [Hge|Hlt]; [|by destruct (Old r) as [_ ->]; [lia|]].
    destruct (Hnum r Hge) as [_ ->]. specialize (New r Hge). split; [|done]. intros E. rewrite E in New.
    destruct (exchanges st' !! r); [|done]. destruct New as (_ & _ & _ & _ & ->). congruence.
  - intros r x Hx Hnone. destruct (decide (relay_next_request_id st <= r)) as [Hge|Hlt]; [done|]. destruct (Old r) as [E _]; [lia|]. congruence.
  - exists []. unfold answered. rewrite Ho, app_nil_r. split; [done|]. intros id H. by apply not_elem_of_nil in H.
Qed.

Lemma local_request used ex st n id req : id ∉ used -> local used ex st n ->
  local used ex (with_subscribe_requests st (<[id := req]> (subscribe_requests st))) n.
Proof.
  intros Hf [Le Lx Lp]. split; [|exact Lx|exact Lp]. intros e He. destruct (Le e He) as [T Hh HR]. split; [exact T| |exact HR].
  intros id' Hid. destruct (Hh id' Hid) as (Hu & Hs & q & Hq & Hn). split_and!; [done..|]. exists q. simpl. rewrite lookup_insert_ne; [done|].
  by intros ->.
Qed.

Lemma untouched_senders used m st id : id ∉ used -> untouched used m st (with_senders st ({[id]} ∪ response_senders st)).
Proof.
  intros Hf. split; try done; simpl; [by intros r x ->|..].
  - intros id' [->%elem_of_singleton|H]%elem_of_union; [by right|by left].
  - intros id' req Hs Hr _. split; [set_solver|done].
  - exists []. rewrite app_nil_r. split; [done|]. intros k H. by apply not_elem_of_nil in H.
Qed.

(** What a SUBSCRIBE makes of the state. *)
Record subscribed (used : list SubscriptionId) (id : SubscriptionId) (n : FullTrackName) (st st' : Requests) : Prop := {
  sb_others : forall m, m <> n -> local used None st' m;
  sb_local : local (id :: used) None st' n;
  sb_next : 0 <= relay_next_request_id st';
  sb_answered : answered st' = answered st \/ answered st' = answered st ++ [id];
  sb_requests : forall id' req, subscribe_requests st' !! id' = Some req -> id' = id \/ is_Some (subscribe_requests st !! id')
}.

Lemma answered_put st o : answered (put_out st o) = answered st ++ answers o.
Proof. unfold answered, answers. simpl. by rewrite omap_app. Qed.

Lemma untouched_answer used m st id a rest : id ∉ used -> answers rest = [] -> untouched used m st (put_out st (OUT_Answer id a :: rest)).
Proof.
  intros Hf Hrest. split; try done; eauto; [intros r x ??; simpl in *; congruence|]. exists [id].
  rewrite answered_put. change (answers (OUT_Answer id a :: rest)) with (id :: answers rest). rewrite Hrest. split; [done|]. intros k ->%list_elem_of_singleton. done.
Qed.

(** Refused, with all else as it was. *)
Lemma refused_subscribed used id n st st1 code : id ∉ used -> (forall m, local used None st m) -> 0 <= relay_next_request_id st ->
  focus used n st st1 -> local used None st1 n -> relay_next_request_id st1 = relay_next_request_id st -> outputs st1 = outputs st ->
  subscribe_requests st1 = subscribe_requests st -> subscribed used id n st (put_out st1 [OUT_Answer id (AN_Error code None)]).
Proof.
  intros Hf L H0 F L1 Hn Ho Hr. split.
  - intros m Hm. eapply local_untouched; [|apply L]. eapply untouched_trans; [by apply F|by apply untouched_answer].
  - eapply local_used; [intros w Hw; by right|]. eapply local_untouched; [by apply untouched_answer|exact L1].
  - simpl. by rewrite Hn.
  - right. rewrite answered_put. unfold answered. by rewrite Ho.
  - intros id' req. simpl. rewrite Hr. intros H. right. eauto.
Qed.

Lemma focus_joined used n st st1 e1 : (forall m, local used None st m) -> (forall r, tabled n r st st1 e1) -> focus used n st st1.
Proof.
  intros L Ht. eapply (focus_tabled used n (relay_next_request_id st)); [apply Ht|]. intros req Hq.
  destruct (numbered used st L (relay_next_request_id st)) as [_ E]; [lia|]. congruence.
Qed.

(** A subscription that its switching set refuses. *)
Lemma rejected_subscribed used id n st st1 e0 e1 k code : (forall m, local used None st m) -> id ∉ used -> 0 <= relay_next_request_id st ->
  (forall r, tabled n r st st1 e1) -> relay_pending_requests st1 = relay_pending_requests st -> tracks (table st) !! n = Some e0 ->
  held e0 !! id = None -> held e1 = <[id := k]> (held e0) -> pending_subscribers e1 = pending_subscribers e0 -> signals_of e1 = [] ->
  upstream (te_track e1) = upstream (te_track e0) ->
  subscribed used id n st (put_out (reject_subscription st1 n id) [OUT_Answer id (AN_Error code None)]).
Proof.
  intros L Hf H0 Ht Hp He0 Hno Hh Hpe Hq Hu. pose proof (Ht 0) as T1. assert (He1 : tracks (table st1) !! n = Some e1).
  { rewrite (ta_tracks _ _ _ _ _ T1). apply lookup_insert_eq. }
  set (e2 := set_track e1 (with_manager (te_track e1) (fst (sm_remove_subscription (manager (te_track e1)) id)))).
  assert (Er : reject_subscription st1 n id = with_table st1 (put_entry (table st1) n e2)).
  { unfold reject_subscription. rewrite He1. by apply put_track_quiet. }
  assert (T2 : forall r, tabled n r st (reject_subscription st1 n id) e2).
  { intros r. eapply tabled_trans; [apply Ht|]. rewrite Er. by split. }
  assert (Hh2 : held e2 = held e0) by (change (held e2) with (delete id (held e1)); rewrite Hh; by apply delete_insert_id).
  pose proof (T2 0) as [T X _ _ N S R O]. apply refused_subscribed; try done; [by eapply focus_joined|]. rewrite Er in *.
  eapply local_kept; [exact (L n)|intros r; rewrite X; by destruct (exchanges st !! r)|exact Hp|exact N|exact S|exact R|].
  rewrite T, lookup_insert_eq, He0. simpl. rewrite Hu. split_and!; [done|exact Hh2| |].
  - eapply (track_ok_exchanges used None None st _ n e0 e2); [split; simpl; [by rewrite Hu|by rewrite Hu|exact Hh2|exact Hpe]|..].
    + intros _. unfold count_of. simpl. by rewrite Hu.
    + apply (lo_entry _ _ _ _ (L n) e0 He0).
    + intros r. rewrite X. by destruct (exchanges st !! r).
    + intros Hw r x. rewrite X. intros Hx Hn. destruct (waiting_exchange used st n e0 r x (L n) He0 Hw Hx Hn). split; [by right|done].
    + exact Hp.
    + exact S.
    + exact O.
  - intros ur Hur. left. unfold registered_in in *. simpl in Hur. by rewrite Hu in Hur.
Qed.

(** Up to the note of the request itself. *)
Record served (used : list SubscriptionId) (id : SubscriptionId) (n : FullTrackName) (req : SubscribeRequest) (st st' : Requests) : Prop := {
  sv_others : focus used n st st';
  sv_local : local (id :: used) None (with_subscribe_requests st' (<[id := req]> (subscribe_requests st'))) n;
  sv_next : 0 <= relay_next_request_id st';
  sv_answered : answered st' = answered st \/ answered st' = answered st ++ [id];
  sv_requests : subscribe_requests st' = subscribe_requests st;
  sv_track : exists e, tracks (table st') !! n = Some e /\ origin (upstream (te_track e)) <> TO_Publish
}.

Lemma sender_in (id : SubscriptionId) (s : gset SubscriptionId) : id ∈ s -> s = {[id]} ∪ s.
Proof. set_solver. Qed.

Lemma asked_like n req count st0 st st' : asked n req count st st' -> exchanges st = exchanges st0 ->
  relay_pending_requests st = relay_pending_requests st0 -> relay_next_request_id st = relay_next_request_id st0 -> asked n req count st0 st'.
Proof. intros [N Old New Sz] Hx Hp Hn. split; rewrite <- ?Hn, <- ?Hx, <- ?Hp; done. Qed.

Lemma creator_served used st st2 id sub switching publishers e0 e2 k :
  let n := Subscribe_get_full_track_name sub in let req := mkSubscribeRequest (snd id) (fst id) sub in
  (forall m, local used None st m) -> id ∉ used -> id ∈ response_senders st -> (forall w, w ∈ answered st -> w ∈ used) ->
  0 <= relay_next_request_id st -> relay_next_request_id st + 2 * Z.of_nat (length publishers) < U64 -> publishers <> [] ->
  (forall r x, exchanges st !! r = Some x -> x_name x <> n) ->
  (tracks (table st) !! n = Some e0 /\ origin (upstream (te_track e0)) = TO_CacheOnly \/
   held e0 = ∅ /\ pending_subscribers e0 = [] /\ registered_in e0 = []) ->
  (forall r, tabled n r st st2 e2) -> relay_pending_requests st2 = relay_pending_requests st ->
  held e2 = <[id := k]> (held e0) -> pending_subscribers e2 = pending_subscribers e0 -> registered_in e2 = registered_in e0 -> signals_of e2 = [] ->
  origin (upstream (te_track e2)) = TO_Subscribe -> status (upstream (te_track e2)) = TS_Pending ->
  served used id n req st (serve_subscription st2 id sub true switching publishers true).
Proof.
  intros n req L Hf Hin Hau H0 Hb Hne Hnone Hold Ht Hp Hh Hpe Hr Hq Ho Hst. unfold serve_subscription. fold n req.
  pose proof (Ht 0) as T2. assert (He2 : tracks (table st2) !! n = Some e2) by (rewrite (ta_tracks _ _ _ _ _ T2); apply lookup_insert_eq).
  rewrite He2. set (e3 := set_track e2 _). rewrite (put_track_quiet st2 n e3) by exact Hq.
  set (stA := with_table st2 (put_entry (table st2) n e3)). set (st3 := fold_left _ _ _).
  destruct T2 as [T X _ _ N S R O]. pose proof (numbered used st L) as Hnum.
  assert (HnumA : forall r, relay_next_request_id stA <= r -> exchanges stA !! r = None /\ relay_pending_requests stA !! r = None).
  { intros r. simpl. rewrite X, Hp, N. apply Hnum. }
  destruct (subscribe_upstream_same n req publishers stA) as (E1 & E2 & E3 & E4). fold st3 in E1, E2, E3, E4. simpl in E2, E3, E4.
  assert (HasA : asked n req (length publishers) stA st3) by (apply subscribe_upstream_asked; [simpl; lia|simpl; lia|exact HnumA]).
  assert (Has : asked n req (length publishers) st st3) by (by eapply asked_like).
  assert (Htr : tracks (table st3) !! n = Some e3) by (rewrite E1; apply lookup_insert_eq).
  assert (Ea : answered st3 = answered st) by (unfold answered; by rewrite E4, O).
  split.
  - eapply focus_trans; [by eapply focus_joined|]. eapply focus_trans; [|by apply (focus_asked used n req (length publishers) stA st3)].
    apply focus_table. intros m Hm. simpl. by rewrite lookup_insert_ne.
  - eapply (local_asked used st _ n e0 e3 id k req (length publishers)); try done.
    + destruct id as [c r]. done.
    + by destruct Has.
    + destruct publishers; [done|simpl; lia].
    + simpl. rewrite E2, S. by apply sender_in.
    + simpl. by rewrite E3, R.
  - rewrite (as_next _ _ _ _ _ Has). lia.
  - by left.
  - by rewrite E3, R.
  - exists e3. split; [done|]. simpl. by rewrite Ho.
Qed.

(** Those who join a track that is there, or on its way. *)
Lemma joiner_served used st st2 id sub switching publishers e0 e2 k :
  let n := Subscribe_get_full_track_name sub in let req := mkSubscribeRequest (snd id) (fst id) sub in
  (forall m, local used None st m) -> id ∉ used -> id ∈ response_senders st -> (forall w, w ∈ answered st -> w ∈ used) ->
  0 <= relay_next_request_id st -> tracks (table st) !! n = Some e0 -> origin (upstream (te_track e0)) <> TO_CacheOnly ->
  (forall r, tabled n r st st2 e2) -> relay_pending_requests st2 = relay_pending_requests st -> entry_ok e2 ->
  held e2 = <[id := k]> (held e0) -> pending_subscribers e2 = pending_subscribers e0 -> registered_in e2 = registered_in e0 -> signals_of e2 = [] ->
  upstream (te_track e2) = upstream (te_track e0) ->
  served used id n req st (serve_subscription st2 id sub false switching publishers true).
Proof.
  intros n req L Hf Hin Hau H0 He0 Hco Ht Hp Hok Hh Hpe Hr Hq Hu. unfold serve_subscription. fold n.
  pose proof (Ht 0) as T2. assert (He2 : tracks (table st2) !! n = Some e2) by (rewrite (ta_tracks _ _ _ _ _ T2); apply lookup_insert_eq).
  destruct T2 as [T X _ _ N S R O]. rewrite He2, Hu. pose proof (focus_joined used n st st2 e2 L Ht) as F2.
  pose proof (el_track _ _ _ _ _ (lo_entry _ _ _ _ (L n) e0 He0)) as Tk. unfold track_ok in Tk.
  assert (Ho : origin (upstream (te_track e0)) = TO_Subscribe) by (track_cases e0). rewrite Ho in Tk.
  assert (Hne : <[id := k]> (held e0) <> ∅) by apply insert_non_empty.
  destruct (status (upstream (te_track e0))) as [|ps|] eqn:Hst; [..|done].
  - destruct Tk as (_ & creator & [Hnd Hw] & Hc & Ha). set (e3 := set_pending e2 _). rewrite (put_track_quiet st2 n e3) by exact Hq.
    assert (Hlist : forall w, w ∈ creator :: pending_subscribers e2 ++ [id] <-> w ∈ creator :: pending_subscribers e0 \/ w = id).
    { intros w. rewrite Hpe, !elem_of_cons, elem_of_app, list_elem_of_singleton. tauto. }
    split; try done; [| | |left; unfold answered; simpl; by rewrite O|].
    + eapply focus_trans; [exact F2|]. apply focus_table. intros m Hm. simpl. by rewrite lookup_insert_ne.
    + eapply (local_joined used st _ n e0 e3 id k req); try done; [simpl; apply lookup_insert_eq|simpl; by rewrite Hu|simpl; by rewrite S; apply sender_in|simpl; by rewrite R|].
      unfold track_ok. simpl. rewrite Hu, Ho, Hst. change (held e3) with (held e2). rewrite Hh. split; [done|]. exists creator.
      split; [split|split; [|]].
      * rewrite Hpe. change (creator :: pending_subscribers e0 ++ [id]) with ((creator :: pending_subscribers e0) ++ [id]).
        apply NoDup_app. split; [done|]. split; [|apply NoDup_singleton]. intros w Hin'. rewrite list_elem_of_singleton. intros ->. by destruct (Hw id Hin').
      * intros w Hin'. apply Hlist in Hin' as [Hin'| ->].
        -- destruct (Hw w Hin') as [Hus Hse]. split; [by right|]. simpl. rewrite S. unfold answered. simpl. rewrite O. intros Hs.
           destruct (Hse Hs) as [Hhe Hna]. split; [|exact Hna]. change (held e3) with (held e2). rewrite Hh. apply lookup_insert_is_Some'. by right.
        -- split; [by left|]. intros _. unfold answered. simpl. rewrite O. split; [|by intros ?%Hau].
           change (held e3) with (held e2). rewrite Hh, lookup_insert_eq. eauto.
      * intros w Hhe. apply Hlist. apply lookup_insert_is_Some' in Hhe as [<-|Hhe]; [by right|left; by apply Hc].
      * destruct Ha as (Hpos & Hsz & Hax). unfold awaits. simpl. rewrite X, Hp. by split_and!.
    + simpl. by rewrite N.
    + exists e3. split; [apply lookup_insert_eq|]. simpl. by rewrite Hu, Ho.
  - destruct Tk as (_ & Hpe0 & Ha).
    assert (Hg : is_some (get_subscription e2 id) = true) by (by rewrite get_subscription_held, Hh, lookup_insert_eq).
    destruct (get_subscription e2 id) as [s|]; [|done]. unfold answer_now. rewrite put_out_app. cbn [app]. set (o := OUT_Answer _ _ :: _).
    assert (Eo : answers o = [id]) by (unfold o; by destruct switching).
    assert (Ea : answered (put_out st2 o) = answered st ++ [id]) by (rewrite answered_put, Eo; unfold answered; by rewrite O).
    split; [| | |by right|done|].
    + intros m Hm. eapply untouched_trans; [by apply F2|]. apply untouched_answer; [done|]. by destruct switching.
    + eapply (local_joined used st _ n e0 e2 id k req); try done; [by rewrite Hu|simpl; rewrite S; by apply sender_in|simpl; by rewrite R|].
      unfold track_ok. rewrite Hu, Ho, Hst, Hh, Hpe. split_and!; [done..|]. intros w Hhe.
      change (w ∈ answered (put_out st2 o)). rewrite Ea, elem_of_app. apply lookup_insert_is_Some' in Hhe as [<-|Hhe]; [right; by left|left; by apply Ha].
    + simpl. by rewrite N.
    + exists e2. split; [done|]. by rewrite Hu, Ho.
Qed.

Lemma served_subscribed used st st3 id n req o : (forall m, local used None st m) -> id ∉ used -> answers o = [] ->
  served used id n req st st3 ->
  subscribed used id n st (with_subscribe_requests (put_out (ensure_upstream_forwarding st3 n) o) (<[id := req]> (subscribe_requests (put_out (ensure_upstream_forwarding st3 n) o)))).
Proof.
  intros Lst Hf Ho [F L N A R (e & He & Hor)]. rewrite (ensure_forwarding_same st3 n e He Hor). cbn [subscribe_requests put_out].
  assert (Ea : answered (with_subscribe_requests (put_out st3 o) (<[id := req]> (subscribe_requests st3))) = answered st3).
  { change (answered (put_out st3 o) = answered st3). by rewrite answered_put, Ho, app_nil_r. }
  split.
  - intros m Hm. apply (local_request used None (put_out st3 o)); [done|]. apply local_outputs; [done|]. by eapply local_untouched; [apply F|apply Lst].
  - exact (local_outputs _ _ _ _ o Ho L).
  - exact N.
  - by rewrite Ea.
  - intros id' q. simpl. rewrite R. intros [[<- _]|[_ Hq]]%lookup_insert_Some; [by left|right; by exists q].
Qed.

Lemma same_track_facts e e' : te_track e' = te_track e ->
  held e' = held e /\ registered_in e' = registered_in e /\ signals_of e' = signals_of e /\ upstream (te_track e') = upstream (te_track e).
Proof. intros E. unfold held, registered_in, signals_of. by rewrite E. Qed.

Lemma handle_subscribed `{Target} config used st c sub publishers st' : let n := Subscribe_get_full_track_name sub in let id := (c, sub_request_id sub) in
  handle_subscribe_message config st c sub publishers true = Ok st' -> tables_ok (table st) -> room st -> (forall m, local used None st m) ->
  id ∉ used -> id ∈ response_senders st -> (forall w, w ∈ answered st -> w ∈ used) ->
  0 <= relay_next_request_id st -> relay_next_request_id st + 2 * Z.of_nat (length publishers) < U64 ->
  (asks st n = true -> (forall r x, exchanges st !! r = Some x -> x_name x <> n) /\ is_ok (assign_switching_set st n 0 id (sub_parameters sub)) = true) ->
  subscribed used id n st st'.
Proof.
  intros n id Hrun Ht Hroom L Hf Hin Hau H0 Hb Hasks. unfold handle_subscribe_message in Hrun. fold n id in Hrun.
  assert (Href : forall code, refuse st id true code = Ok st' -> subscribed used id n st st').
  { intros code [= <-]. eapply refused_subscribed; try done; apply focus_refl. }
  destruct (object_filter _ _) as [Fi|?| |]; try done; [|by eapply Href].
  destruct (plan_switch _ _ _ _ _) as [plan|?| |]; try by eapply Href.
  destruct (is_some (reserved_namespace_rejection _ _)); [by eapply Href|].
  destruct publishers as [|p0 ps]; [by apply (Href (if rendezvous_timeout (sub_parameters sub) (max_rendezvous_timeout config) =? 0 then REC_DoesNotExist else REC_Timeout))|]. set (publishers := p0 :: ps) in *.
  apply obind_Ok_inv in Hrun as ([[st1 creator] s] & Ej & Hrun). apply lift_panics_Ok in Ej.
  assert (Hfree : held (entry_for config st n) !! id = None).
  { unfold entry_for. destruct (tracks (table st) !! n) as [e|] eqn:E; [|done]. simpl. destruct (held e !! id) as [v|] eqn:Ev; [|done].
    exfalso. destruct (el_held _ _ _ _ _ (lo_entry _ _ _ _ (L n) e E) id (mk_is_Some _ _ Ev)) as (? & _). done. }
  pose proof (join_track_ssts _ _ _ _ _ _ _ Ej) as Hss. pose proof (join_track_kept _ _ _ _ _ _ _ Ej Ht Hroom) as [Ht1 _].
  destruct (join_track_spec config st c sub st1 creator s Ej Ht Hfree) as (s0 & e1 & k & -> & T1 & Hp1 & Hh1 & Hpe1 & Hr1 & Hq1 & Hcr & Hu1).
  fold n id in Hcr, T1, Hh1, Hpe1, Hr1, Hu1.
  assert (He1 : tracks (table st1) !! n = Some e1) by (rewrite (ta_tracks _ _ _ _ _ (T1 0)); apply lookup_insert_eq).
  set (e0 := entry_for config st n) in *.
  assert (Hold : creator = false -> tracks (table st) !! n = Some e0 /\ origin (upstream (te_track e0)) <> TO_CacheOnly).
  { intros ->. unfold asks in Hcr. unfold e0, entry_for. destruct (tracks (table st) !! n) as [e|] eqn:E; [|done]. simpl. split; [done|].
    symmetry in Hcr. by apply bool_decide_eq_false in Hcr. }
  destruct (assign_switching_set _ _ _ _ _) as [assigned|?| |] eqn:Eas.
  2-4: assert (creator = false) as -> by (destruct creator; [|done]; destruct Hasks as [_ Hok]; [done|]; rewrite <- (assign_is_ok st st1 n 0 (relay_track_id s0) id _ Hss), Eas in Hok; done);
    destruct Hold as [He0 _]; [done|]; injection Hrun as <-; by eapply (rejected_subscribed used id n st st1 e0 e1 k).
  destruct (settle_tabled st1 n id s0 assigned e1 He1 Hq1) as (e2 & T2 & Hp2 & Hte2 & Hpe2). set (st2 := settle_switching_set st1 n id s0 assigned) in *.
  destruct (same_track_facts e1 e2 Hte2) as (Fh & Fr & Fs & Fu).
  assert (T12 : forall r, tabled n r st st2 e2) by (intros r; eapply tabled_trans; [apply T1|apply T2]).
  assert (Hsv : served used id n (mkSubscribeRequest (snd id) (fst id) sub) st (serve_subscription st2 id sub creator (is_some plan) publishers true)).
  { destruct creator.
    - destruct Hu1 as [Ho1 Hst1]. destruct Hasks as [Hnone _]; [done|]. eapply (creator_served used st st2 id sub _ publishers e0 e2 k); try done; try congruence.
      + unfold asks in Hcr. unfold e0, entry_for. fold n. destruct (tracks (table st) !! n) as [e|] eqn:E; [left|by right]. split; [done|]. by apply eq_sym, bool_decide_eq_true in Hcr.
    - destruct Hold as [He0 Hno]; [done|]. eapply (joiner_served used st st2 id sub _ publishers e0 e2 k); try done; try congruence.
      + destruct (join_track_found _ _ _ _ _ _ _ Ej Ht Hroom) as (e & Ee & Hs). fold n in Ee. assert (e = e1) as -> by congruence.
        destruct (settle_kept st1 n id s0 assigned e1 He1 Hs Ht1) as [Ht2 _]. fold st2 in Ht2.
        assert (Hlk : tracks (table st2) !! n = Some e2) by (rewrite (ta_tracks _ _ _ _ _ (T2 0)); apply lookup_insert_eq).
        exact (tk_entries _ Ht2 n e2 Hlk).
      }
  rewrite andb_false_r in Hrun. injection Hrun as <-. destruct plan as [w|].
  - by apply served_subscribed.
  - rewrite <- (put_out_nil (ensure_upstream_forwarding _ n)). by apply served_subscribed.
Qed.

(** ** The theorem *)

Lemma another_name (n : FullTrackName) : exists m, m <> n.
Proof. exists (mkFullTrackName (ftn_namespace n) (0 :: ftn_name n)). destruct n as [ns l]. intros [= E]. apply (f_equal length) in E. simpl in E. lia. Qed.

Lemma advance_state used n st st' : state_ok used st -> tables_ok (table st') -> advance used n st st' -> state_ok used st'.
Proof.
  intros [Ht H0 Hon Ha Hr L] Ht' (F & Ln & l & El & Hnd & Hl). destruct (another_name n) as [m Hm]. pose proof (F m Hm) as U. split; [done|..].
  - pose proof (un_next _ _ _ _ U). lia.
  - rewrite El. apply NoDup_app. split_and!; [done| |done]. intros id Hin Hin'. by destruct (Hl id Hin').
  - rewrite El. intros id [H|H]%elem_of_app; [by apply Ha|]. by destruct (Hl id H).
  - intros id req H%(un_requests _ _ _ _ U). by eapply Hr.
  - intros k. destruct (decide (k = n)) as [->|Hk]; [done|]. by eapply local_untouched; [apply F|apply L].
Qed.

Lemma subscribed_state used st0 st st' id n : state_ok used st0 -> id ∉ used -> outputs st = outputs st0 -> subscribe_requests st = subscribe_requests st0 ->
  tables_ok (table st') -> subscribed used id n st st' -> state_ok (id :: used) st'.
Proof.
  intros [Ht H0 Hon Ha Hr L] Hf Eo Er Ht' [So Sl Sn Sa Sr]. unfold answered in Sa. rewrite Eo in Sa. fold (answered st') (answered st0) in Sa. split; [done|done|..].
  - destruct Sa as [-> | ->]; [done|]. apply NoDup_app. split_and!; [done| |apply NoDup_singleton].
    intros w Hw ->%list_elem_of_singleton. by apply Hf, Ha.
  - destruct Sa as [-> | ->]; [intros w Hw; right; by apply Ha|]. intros w [Hw|Hw]%elem_of_app; [right; by apply Ha|].
    apply list_elem_of_singleton in Hw as ->. by left.
  - intros w q [->|[q' Hq]]%Sr; [by left|]. rewrite Er in Hq. right. by eapply Hr.
  - intros k. destruct (decide (k = n)) as [->|Hk]; [done|]. eapply local_used; [intros w Hw; by right|by apply So].
Qed.

Definition closing_name (st : Requests) (id : SubscriptionId) : FullTrackName :=
  match subscribe_requests st !! id with Some req => name_of req | None => mkFullTrackName [] [] end.

Lemma closed_advance used st id : tables_ok (table st) -> (forall m, local used None st m) ->
  advance used (closing_name st id) st
    (let st := cancel_subscription st id in with_senders st (response_senders st ∖ {[id]})).
Proof.
  intros Ht L. unfold closing_name, cancel_subscription. destruct (subscribe_requests st !! id) as [req|] eqn:Er; cbv zeta.
  - set (st1 := with_ssts st _). destruct (closed_local used st1 id req Ht) as (F & Ln & Eo); [by apply local_ssts|exact Er|]. cbv zeta in F, Ln, Eo.
    match type of F with focus _ _ _ (forget ?X _) => set (st2 := X) in * end.
    match goal with |- advance _ _ _ ?s => assert (E : s = forget st2 id) end.
    { unfold st2. fold (name_of req). destruct (tracks (table st1) !! name_of req) as [e|]; [|done]. destruct (negb _); [done|].
      by destruct (remove_subscriber _ _ _) as [[t cl] ch]. }
    rewrite E. split_and!; [|exact Ln|by apply no_answers]. eapply focus_trans; [|exact F]. intros m _. apply untouched_ssts.
  - set (st' := with_senders st _). assert (U : forall m, untouched used m st st').
    { intros m. split; try done; simpl; [by intros r x ->|set_solver| |].
      - intros id' q Hs Hq _. split; [|done]. assert (id' <> id) by (intros ->; congruence). set_solver.
      - exists []. rewrite app_nil_r. split; [done|]. intros k H. by apply not_elem_of_nil in H. }
    split_and!; [intros m _; apply U|by eapply local_untouched|by apply no_answers].
Qed.

Lemma state_step `{Target} config used st op st' : state_ok used st -> op_ok used st op -> room st -> request_step config st op = Ok st' ->
  state_ok (used_after op used) st'.
Proof.
  intros S Hop Hroom Hrun. pose proof (so_tables _ _ S) as Ht. destruct (request_step_tables config st op Ht Hroom) as (st1 & E1 & Ht' & _).
  assert (st1 = st') as -> by congruence. clear E1. pose proof (so_local _ _ S) as L.
  assert (Hx : forall r can f, with_exchange st r can f = Ok st' ->
    (forall x, exchanges st !! r = Some x -> can x = true -> advance used (x_name x) st (f x)) -> state_ok used st').
  { intros r can f. unfold with_exchange. intros [= <-] Hadv. destruct (exchanges st !! r) as [x|] eqn:E; [|done].
    destruct (can x) eqn:Ec; [|done]. eapply advance_state; [done|done|by apply Hadv]. }
  destruct op as [c sub ps reached|r sent mal|r|r msg|r|id]; simpl in Hrun, Hop |- *.
  - destruct Hop as (-> & Hf & Hb & Hasks). set (id := (c, sub_request_id sub)) in *. unfold request_accepted in Hrun. set (st0 := with_senders st _) in *.
    assert (Hrun' : handle_subscribe_message config st0 c sub ps true = Ok st').
    { destruct (subscribe_grown config st0 c sub ps true Ht Hroom) as (st1 & [E|[? _]] & _); [|done]. rewrite E in Hrun |- *. by injection Hrun as <-. }
    eapply (subscribed_state used st st0 st' id); [done|done|done|done|done|]. eapply (handle_subscribed config used st0); [exact Hrun'|exact Ht|exact Hroom| |exact Hf| |apply S|apply S|exact Hb|exact Hasks].
    + intros m. eapply local_untouched; [by apply untouched_senders|apply L].
    + simpl. set_solver.
  - subst mal. eapply Hx; [exact Hrun|]. intros x E Ec. by apply opened_advance.
  - eapply Hx; [exact Hrun|]. intros x E Ec. eapply (declined used None); [done|apply L|by left|done|done].
  - eapply Hx; [exact Hrun|]. intros x E Ec. apply message_advance; [done|apply L|done|]. destruct msg; try done. by rewrite E in Hop.
  - eapply Hx; [exact Hrun|]. intros x E Ec. by apply cancelled_advance.
  - injection Hrun as <-. eapply advance_state; [done|done|]. by apply closed_advance.
Qed.

(** The steps of a run are allowed, each in its state. *)
Fixpoint allowed `{Target} (config : AppConfig) (used : list SubscriptionId) (st : Requests) (ops : list request_op) : bool :=
  match ops with
  | [] => true
  | op :: ops =>
      bool_decide (op_ok used st op) &&
      match request_step config st op with Ok st' => allowed config (used_after op used) st' ops | _ => true end
  end.

Lemma state_run `{Target} config ops : forall used st, state_ok used st -> next_relay_track_id (table st) + Z.of_nat (length ops) < U64 ->
  allowed config used st ops = true -> exists used' st', run_requests config st ops = Ok st' /\ state_ok used' st'.
Proof.
  induction ops as [|op ops IH]; intros used st S Hb Hal; [by exists used, st|]. simpl length in Hb.
  cbn [allowed] in Hal. apply andb_true_iff in Hal as [Hop%bool_decide_eq_true Hal].
  destruct (request_step_tables config st op (so_tables _ _ S)) as (st1 & E1 & _ & Hn); [unfold room; lia|].
  rewrite E1 in Hal. destruct (IH (used_after op used) st1) as (used' & st' & E & S'); [eapply state_step; [done|done|unfold room; lia|done]|lia|done|].
  exists used', st'. split; [|done]. unfold run_requests. simpl. by rewrite E1.
Qed.

Lemma state_new sets : state_ok [] (Requests_new sets).
Proof.
  split; [apply tables_new_ok|done|constructor|..|intros n; by split].
  - intros id H. by apply not_elem_of_nil in H.
  - done.
Qed.

(** C10: a SUBSCRIBE is answered, and only once, in every run of allowed operations.
    SUBSCRIBEs, the publishers' answers, failures and timeouts, cancellations and closed
    request streams may follow on each other in any order, as long as ([op_ok]) each
    SUBSCRIBE has a request ID of its own and its stream takes its answer; one that asks the
    publishers finds no exchange of its track open from before, and its switching set
    accepts it; the relay's request IDs do not run out; the publisher's track is not known
    to be malformed when it is asked; no SUBSCRIBE_OK has an unsupported mandatory property;
    and no PUBLISH_DONE comes before the answer.  Then no request stream gets a second
    answer, and a subscription that is held has got its own unless an exchange of its track
    is still waiting for its publisher.  What happens in the runs left out is at the end of
    [RequestScenarios]. *)
Theorem subscribes_answered `{Target} config sets ops :
  Z.of_nat (length ops) < U64 -> allowed config [] (Requests_new sets) ops = true ->
  exists st, run_requests config (Requests_new sets) ops = Ok st /\
    NoDup (answered st) /\
    forall name e id, tracks (table st) !! name = Some e -> is_Some (sm_subscriptions (manager (te_track e)) !! id) ->
      id ∈ answered st \/ exists r x, exchanges st !! r = Some x /\ x_name x = name /\ x_phase x <> XP_Answered.
Proof.
  intros Hb Hal. destruct (state_run config ops [] (Requests_new sets) (state_new sets)) as (used & st & E & S); [simpl; lia|done|].
  exists st. split_and!; [done|apply S|]. intros name e id He Hid. pose proof (so_local _ _ S name) as L.
  pose proof (el_track _ _ _ _ _ (lo_entry _ _ _ _ L e He)) as T. unfold track_ok in T. track_cases e.
  - right. destruct T as (_ & creator & _ & _ & Hpos & Hsz & Hax).
    destruct (map_choose (of_name name (exchanges st))) as (r & x & Hx).
    { intros Em. rewrite Em, map_size_empty in Hsz. simpl in Hsz. lia. }
    apply map_lookup_filter_Some in Hx as [Hx Hn]. exists r, x. destruct (Hax r x Hx Hn) as ([|] & _); done.
  - left. destruct T as (_ & _ & Ha). by apply Ha.
  - destruct T as (Hemp & _). unfold held in Hemp. rewrite Hemp in Hid. by destruct Hid.
Qed.
