(* ===== verification/RequestScenarios.v ===== *)
(** SUBSCRIBEs and answers, step by step: runs that the theorems are about, and what
    happens in the runs that they leave out. *)
From stdpp Require Import gmap.
From S2P Require Import Prelude Varint Pair Common Codes TrackName LocationFilter RangeFilter Properties MessageParameter CombinedFilter.
From S2P Require Import Control Subgroup Datagram FetchObject ObjectForms DataStream SeenObjects TrackCache SwitchingSet Controller.
From S2P Require Import Streams Subscription Forwarding Tracks Parameters TrackTable Requests RequestTables RequestAnswers.

(** Subscribers 1 and 2, publishers 8 and 9. *)
Definition a_name : FullTrackName := mkFullTrackName [[100]] [1].
Definition b_name : FullTrackName := mkFullTrackName [[100]] [2].
Definition a_config : AppConfig := mkAppConfig 16 10000 8 TAM_PerTrack 0 10.
Definition a_subscribe (name : FullTrackName) (request_id : Z) (parameters : list MessageParameter) : Subscribe :=
  mkSubscribe request_id (ftn_namespace name) (ftn_name name) parameters.
Definition a_phrase : ReasonPhrase := mkReasonPhrase [110; 111].
Definition a_refusal : upstream_message := UM_RequestError (RequestError_new REC_DoesNotExist 0 a_phrase).
Definition an_ok (alias : Z) (properties : list TrackProperty) : upstream_message := UM_SubscribeOk (mkSubscribeOk alias [] properties).
Definition a_mandatory : TrackProperty := TP_UnknownMandatory (Pair.KvVarInt 0x4000 1).
Definition a_done : upstream_message := UM_PublishDone (mkPublishDone PDS_TrackEnded 0 a_phrase).
Definition a_start : Requests := Requests_new ∅.
Definition after (ops : list request_op) : Requests :=
  match @run_requests debug_build a_config a_start ops with Ok st => st | _ => a_start end.

(** The subscriptions of a track, and its exchanges. *)
Definition holders (st : Requests) (name : FullTrackName) : list SubscriptionId :=
  match tracks (table st) !! name with Some e => map fst (map_to_list (held e)) | None => [] end.
Definition exchanges_of (st : Requests) (name : FullTrackName) : list Z := map fst (map_to_list (of_name name (exchanges st))).

(** Two subscribers, two publishers: one refuses, the other accepts, a third subscriber
    comes later, and all leave. *)
Definition two_and_two : list request_op :=
  [RO_Subscribe 1 (a_subscribe a_name 0 []) [8; 9] true; RO_Subscribe 2 (a_subscribe a_name 0 []) [8; 9] true;
   RO_Opened 1 true false; RO_Opened 3 true false; RO_Message 1 a_refusal; RO_Message 3 (an_ok 70 []);
   RO_Subscribe 1 (a_subscribe a_name 2 []) [9] true; RO_Closed (1, 0); RO_Message 3 a_done].

Example two_and_two_allowed : @allowed debug_build a_config [] a_start two_and_two = true.
Proof. vm_compute. reflexivity. Qed.
(** The theorems at this run. *)
Lemma request_tables_agree_witness :
  tables_ok (table a_start) /\ exists st, @run_requests debug_build a_config a_start two_and_two = Ok st /\ tables_ok (table st).
Proof.
  assert (H : tables_ok (table a_start)) by apply tables_new_ok. split; [exact H|].
  apply (@request_tables_agree debug_build a_config a_start two_and_two H). vm_compute. reflexivity.
Defined.
Lemma subscribes_answered_witness :
  @allowed debug_build a_config [] a_start two_and_two = true /\
  exists st, @run_requests debug_build a_config a_start two_and_two = Ok st /\ NoDup (answered st) /\
    forall name e id, tracks (table st) !! name = Some e -> is_Some (sm_subscriptions (manager (te_track e)) !! id) ->
      id ∈ answered st \/ exists r x, exchanges st !! r = Some x /\ x_name x = name /\ x_phase x <> XP_Answered.
Proof.
  assert (H : @allowed debug_build a_config [] a_start two_and_two = true) by (vm_compute; reflexivity). split; [exact H|].
  apply (@subscribes_answered debug_build a_config ∅ two_and_two); [vm_compute; reflexivity|exact H].
Defined.

Example two_and_two_answered : answered (after two_and_two) = [(1, 0); (2, 0); (1, 2)] /\ holders (after two_and_two) a_name = [(2, 0); (1, 2)].
Proof. vm_compute. split; reflexivity. Qed.

(** Nobody accepts: each gets one refusal. *)
Definition refused_by_all : list request_op :=
  [RO_Subscribe 1 (a_subscribe a_name 0 []) [8; 9] true; RO_Subscribe 2 (a_subscribe a_name 0 []) [8; 9] true;
   RO_Opened 1 true false; RO_TimedOut 1; RO_Opened 3 false false].
Example refused_by_all_answered :
  @allowed debug_build a_config [] a_start refused_by_all = true /\ answered (after refused_by_all) = [(1, 0); (2, 0)] /\
  tracks (table (after refused_by_all)) = ∅.
Proof. vm_compute. split_and!; reflexivity. Qed.

(** * What is left out *)

(** A property that nobody may ignore refuses the track for both publishers, and the
    other's refusal is a second answer. *)
Definition unsupported_then_refused : list request_op :=
  [RO_Subscribe 1 (a_subscribe a_name 0 []) [8; 9] true; RO_Opened 1 true false; RO_Opened 3 true false;
   RO_Message 1 (an_ok 70 [a_mandatory]); RO_Message 3 a_refusal].
Example answered_twice : answered (after unsupported_then_refused) = [(1, 0); (1, 0)].
Proof. vm_compute. reflexivity. Qed.

(** The first SUBSCRIBE is refused for its switching set, before a publisher was asked:
    the next one waits for an answer that nobody will send. *)
Definition creator_refused : list request_op :=
  [RO_Subscribe 1 (a_subscribe a_name 0 [MP_SwitchingSetAssignment 1 1 100 1 1 1]) [8] true; RO_Subscribe 2 (a_subscribe a_name 0 []) [8] true].
Example left_waiting_for_nobody :
  answered (after creator_refused) = [(1, 0)] /\ holders (after creator_refused) a_name = [(2, 0)] /\ exchanges_of (after creator_refused) a_name = [].
Proof. vm_compute. split_and!; reflexivity. Qed.

(** A publisher whose track has become malformed is not asked, and not counted out with
    an answer. *)
Definition malformed_meanwhile : list request_op :=
  [RO_Subscribe 1 (a_subscribe a_name 0 []) [8] true; RO_Opened 1 true true; RO_Cancelled 1].
Example left_waiting_for_the_malformed :
  answered (after malformed_meanwhile) = [] /\ holders (after malformed_meanwhile) a_name = [(1, 0)] /\
  exchanges_of (after malformed_meanwhile) a_name = [].
Proof. vm_compute. split_and!; reflexivity. Qed.

(** PUBLISH_DONE in place of an answer. *)
Definition done_unanswered : list request_op :=
  [RO_Subscribe 1 (a_subscribe a_name 0 []) [8] true; RO_Opened 1 true false; RO_Message 1 a_done].
Example left_waiting_for_the_done :
  answered (after done_unanswered) = [] /\ holders (after done_unanswered) a_name = [(1, 0)] /\ exchanges_of (after done_unanswered) a_name = [].
Proof. vm_compute. split_and!; reflexivity. Qed.

(** A subscriber that is gone when its SUBSCRIBE is refused: the handler panics. *)
Example refused_unheard :
  let op := RO_Subscribe 1 (a_subscribe a_name 0 [MP_SwitchingSetAssignment 1 1 100 1 1 1]) [8] in
  @handler_panics debug_build a_config a_start (op false) = true /\ @handler_panics debug_build a_config a_start (op true) = false /\
  answered (after [op false]) = [] /\ holders (after [op false]) a_name = [].
Proof. vm_compute. auto. Qed.

(** One that is gone when it is accepted has its session closed, and its subscription stays
    until the session is torn down. *)
Definition accepted_unheard : list request_op :=
  [RO_Subscribe 1 (a_subscribe a_name 0 []) [8] true; RO_Opened 1 true false; RO_Message 1 (an_ok 70 []); RO_Subscribe 2 (a_subscribe a_name 0 []) [8] false].
Example held_unheard :
  answered (after accepted_unheard) = [(1, 0)] /\ holders (after accepted_unheard) a_name = [(2, 0); (1, 0)] /\
  last (outputs (after accepted_unheard)) = Some (OUT_CloseSession 2) /\ subscribe_requests (after accepted_unheard) !! (2, 0) = None.
Proof. vm_compute. split_and!; reflexivity. Qed.

(** PUBLISH_DONE leaves the publisher's alias behind: with it for another track the
    publisher's session is closed. *)
Definition alias_again : list request_op :=
  [RO_Subscribe 1 (a_subscribe a_name 0 []) [8] true; RO_Opened 1 true false; RO_Message 1 (an_ok 70 []); RO_Message 1 a_done;
   RO_Subscribe 1 (a_subscribe b_name 2 []) [8] true; RO_Opened 3 true false; RO_Message 3 (an_ok 70 [])].
Example alias_left_behind :
  last (outputs (after alias_again)) = Some (OUT_CloseSession 8) /\ answered (after alias_again) = [(1, 0); (1, 2)].
Proof. vm_compute. split; reflexivity. Qed.

(** The exchange of subscribers who have left accepts for those who came since, and the
    one who asks now gets no answer. *)
Definition the_old_exchange : list request_op :=
  [RO_Subscribe 1 (a_subscribe a_name 0 []) [8] true; RO_Closed (1, 0); RO_Subscribe 2 (a_subscribe a_name 0 []) [8] true;
   RO_Opened 1 true false; RO_Message 1 (an_ok 70 []); RO_Opened 3 true false; RO_Message 3 (an_ok 70 [])].
Example left_waiting_for_the_old :
  answered (after the_old_exchange) = [] /\ holders (after the_old_exchange) a_name = [(2, 0)] /\
  is_some (exchanges (after the_old_exchange) !! 3) = true /\
  forallb (fun x : Z * Exchange => bool_decide (x_phase (snd x) = XP_Answered)) (map_to_list (exchanges (after the_old_exchange))) = true.
Proof. vm_compute. split_and!; reflexivity. Qed.
