(* ===== verification/Publishing.v ===== *)
(** PUBLISH requests ([apps/relay/src/server/message_handlers/publish_handler.rs]), and
    what else changes the relay's tracks from outside: updates of subscriptions
    ([subscribe_handler.rs]), SUBSCRIBE_TRACKS ([subscribe_tracks_handler.rs]) and the
    end of a session ([session.rs]).

    A publisher's PUBLISH makes a track or joins one; a track that is made is pushed to
    the subscribers of its namespace, each with a PUBLISH of the relay's own on a request
    stream of its own (a push).  Each handler is one step, as in [Requests]. *)
From stdpp Require Import gmap.
From S2P Require Import Prelude Varint Common Codes TrackName LocationFilter RangeFilter Properties MessageParameter CombinedFilter.
From S2P Require Import Control Subgroup Datagram FetchObject ObjectForms DataStream SeenObjects TrackCache SwitchingSet Controller Namespaces.
From S2P Require Import Streams Subscription Forwarding Tracks Parameters TrackTable Requests.

(** A PUBLISH that the relay sends. [pu_open]: its stream has been opened. *)
Record Push := mkPush {
  pu_track : FullTrackName;
  pu_publish : Publish;
  pu_open : bool
}.

Inductive published_output : Type :=
| PUB_Ok (id : SubscriptionId)
| PUB_Error (id : SubscriptionId) (code : RequestErrorCode)
| PUB_Done (id : SubscriptionId) (code : PublishDoneStatusCode) (stream_count : Z)
| PUB_Publish (id : SubscriptionId) (m : Publish)
| PUB_Skipped (id : SubscriptionId) (m : PublishSkipped)
| PUB_Update (id : SubscriptionId) (m : RequestUpdate)
| PUB_Fill (id : SubscriptionId)
| PUB_Switch (id : SubscriptionId) (w : switch_request) (filter : option LocationFilter) (largest : option Location)
| PUB_CloseSession (connection : Z) (code : TerminationCode).

(** [clients]: the connections the relay serves.  [published_tracks] and
    [publish_requests] are of all connections, by request. *)
Record Publishing := mkPublishing {
  requests : Requests;
  registry : Namespaces;
  clients : gset Z;
  published_tracks : gmap SubscriptionId FullTrackName;
  publish_requests : gmap SubscriptionId Publish;
  pushes : gmap SubscriptionId Push;
  sent : list published_output
}.
Definition Publishing_new (ssts : gmap Z SstsState) (clients : gset Z) : Publishing :=
  mkPublishing (Requests_new ssts) Namespaces_new clients ∅ ∅ ∅ [].

Definition with_requests_of (s : Publishing) (st : Requests) : Publishing :=
  mkPublishing st (registry s) (clients s) (published_tracks s) (publish_requests s) (pushes s) (sent s).
Definition with_registry (s : Publishing) (r : Namespaces) : Publishing :=
  mkPublishing (requests s) r (clients s) (published_tracks s) (publish_requests s) (pushes s) (sent s).
Definition with_clients (s : Publishing) (c : gset Z) : Publishing :=
  mkPublishing (requests s) (registry s) c (published_tracks s) (publish_requests s) (pushes s) (sent s).
Definition with_published (s : Publishing) (m : gmap SubscriptionId FullTrackName) (r : gmap SubscriptionId Publish) : Publishing :=
  mkPublishing (requests s) (registry s) (clients s) m r (pushes s) (sent s).
Definition with_pushes (s : Publishing) (m : gmap SubscriptionId Push) : Publishing :=
  mkPublishing (requests s) (registry s) (clients s) (published_tracks s) (publish_requests s) m (sent s).
Definition send_out (s : Publishing) (o : list published_output) : Publishing :=
  mkPublishing (requests s) (registry s) (clients s) (published_tracks s) (publish_requests s) (pushes s) (sent s ++ o).
Definition on_requests (s : Publishing) (f : Requests -> Requests) : Publishing := with_requests_of s (f (requests s)).
Definition entry_of (s : Publishing) (name : FullTrackName) : option TrackEntry := tracks (table (requests s)) !! name.

(** ** Publishers of a track ([client_manager.rs]) *)

(** Those that publish the track and those that announced a namespace it is in, without
    those whose track is malformed; what a client announced and what is malformed other
    handlers keep. *)
Definition get_publishers_for_track (announced : Z -> list Tuple) (malformed : Z -> bool) (s : Publishing) (name : FullTrackName) : list Z :=
  List.filter (fun c =>
      negb (malformed c) &&
      (existsb (fun x : SubscriptionId * FullTrackName => (fst (fst x) =? c) && bool_decide (snd x = name)) (map_to_list (published_tracks s)) ||
       existsb (starts_with (ftn_namespace name)) (announced c)))
    (merge_sort Z.le (elements (clients s))).

(** The subscribers of a kind whose prefix matches, with the parameters they asked with. *)
Definition get_namespace_subscribers (r : Namespaces) (target_namespace : Tuple) (kind : SubscribeKind)
    : list (Z * list MessageParameter) :=
  flat_map (fun kv : Tuple * list NamespaceSubscriber =>
      if starts_with target_namespace (fst kv)
      then map (fun x => (nss_connection_id x, nss_parameters x)) (List.filter (fun x => bool_decide (nss_kind x = kind)) (snd kv))
      else [])
    (map_to_list (namespace_subscribers r)).

Definition is_published_by (e : TrackEntry) (connection_id : Z) : bool :=
  is_some (publisher_aliases (upstream (te_track e)) !! connection_id).

(** ** Pushing a track *)

(** The filters of the sets that the track passed, and the fill asked for, are kept with
    the subscription. *)
Definition with_push_parameters (range_filters subscribe_tracks : list MessageParameter) (s : SubscriptionState) : SubscriptionState :=
  let s := match range_filters with
           | [] => s
           | _ => set_parameters s (subscribe_parameters s ++ range_filters)
                    (match for_objects range_filters with Ok f => f | _ => CombinedFilter_default end)
           end in
  match List.find (fun p => match p with MP_FillParameters _ => true | _ => false end) subscribe_tracks with
  | Some fill => set_parameters s (subscribe_parameters s ++ [fill]) (range_filter s)
  | None => s
  end.

(** The PUBLISH for one subscriber. *)
Definition downstream_of (publish : Publish) (request_id alias : Z) (subscribe_tracks : list MessageParameter) (observed : option Location) : Publish :=
  mkPublish request_id (pub_track_namespace publish) (pub_track_name publish) alias
    (downstream_publish (pub_parameters publish) subscribe_tracks observed)
    (if include_properties subscribe_tracks then pub_track_properties publish else []).

Definition on_subscription (e : TrackEntry) (id : SubscriptionId) (f : SubscriptionState -> SubscriptionState) : TrackEntry :=
  match get_subscription e id with
  | Some sub => set_subscription e id (with_state sub (f (subscription_state sub)))
  | None => e
  end.

(** Also tells whether the track passed the subscriber's filters. *)
Definition push_track_to_subscriber `{Target} (config : AppConfig) (s : Publishing) (subscriber : Z) (name : FullTrackName)
    (publish : Publish) (subscribe_tracks : list MessageParameter) : panics (Publishing * bool) :=
  match filters_for_track subscribe_tracks (pub_track_properties publish), entry_of s name with
  | Some range_filters, Some e =>
      let st := requests s in
      let id := (subscriber, relay_next_request_id st) in
      let st := with_next_id st (wrap64 (snd id + 2)) in
      let t := te_track e in
      let '(alias, next) := pick_track_alias (track_alias_mode config) (t_relay_track_id t) (default 0 (next_track_alias st !! subscriber)) in
      let st := with_next_alias st (<[subscriber := next]> (next_track_alias st)) in
      let downstream := downstream_of publish (snd id) alias subscribe_tracks (Tracks.largest_object t) in
      let? added := Tracks.add_subscription t subscriber (SO_Publish downstream) alias in
      let e := match added with Some (t, sub, _) => mkEntry t (te_subscriptions e ++ [sub]) (pending_subscribers e) | None => e end in
      let e := on_subscription e id (with_push_parameters range_filters subscribe_tracks) in
      let st := ensure_upstream_forwarding (put_track st name e) name in
      Ok (with_pushes (with_requests_of s st) (<[id := mkPush name downstream false]> (pushes s)), true)
  | _, _ => Ok (s, false)
  end.

(** ** PUBLISH *)

(** What the publisher declares. *)
Definition publisher_forwards (m : Publish) : bool :=
  match get_param_or (pub_parameters m) MPT_Forward (MP_Forward true) with MP_Forward true => true | _ => false end.
Definition raise_forward (u : Upstream) : Upstream :=
  mkUpstream (origin u) (status u) (publisher_aliases u) (stream_progress u) (upstream_requests u)
    (pending_upstream_subscribe_count u) true.
Definition Publish_get_full_track_name (m : Publish) : FullTrackName := mkFullTrackName (pub_track_namespace m) (pub_track_name m).

(** The track is taken or made, and the publisher put down with it.  Also tells whether
    this PUBLISH made the track; [None] when the alias is another track's. *)
Definition join_publisher (config : AppConfig) (s : Publishing) (connection_id : Z) (m : Publish) : Publishing * option bool :=
  let name := Publish_get_full_track_name m in
  let confirmed := TS_Confirmed [] in
  let '(tm, e, created) := get_or_create_track (table (requests s)) name
    (fun relay_track_id => Track_new relay_track_id (dedup_retained_groups config) confirmed TO_Publish) in
  let '(u, taken_over) := take_over (upstream (te_track e)) TO_Publish confirmed in
  let created := created || taken_over in
  let '(tm, added) := add_track_alias tm connection_id (pub_track_alias m) name in
  if negb added then (on_requests s (fun st => put_track (with_table st tm) name (set_track e (with_upstream (te_track e) u))), None)
  else
    let u := add_publisher u connection_id (pub_track_alias m) in
    let u := if publisher_forwards m then raise_forward u else u in
    let t := with_upstream (te_track e) u in
    let t := if created then with_properties t (pub_track_properties m) else t in
    let tm := add_publish_message tm name connection_id m in
    let s := on_requests s (fun st => put_track (with_table st tm) name (set_track e t)) in
    let id := (connection_id, pub_request_id m) in
    (with_published s (<[id := name]> (published_tracks s)) (<[id := m]> (publish_requests s)), Some created).

Definition has_subscription_of (s : Publishing) (name : FullTrackName) (connection_id : Z) : bool :=
  match entry_of s name with Some e => has_any_subscription (manager (te_track e)) connection_id | None => false end.

(** One of the subscribers that the track concerns. *)
Definition push_new `{Target} (config : AppConfig) (publisher : Z) (m : Publish) (s : Publishing) (x : Z * list MessageParameter) : panics Publishing :=
  let name := Publish_get_full_track_name m in
  if (fst x =? publisher) || has_subscription_of s name (fst x) then Ok s
  else let? pushed := push_track_to_subscriber config s (fst x) name m (snd x) in Ok (fst pushed).

Definition handle_publish `{Target} (config : AppConfig) (s : Publishing) (connection_id : Z) (m : Publish) : panics Publishing :=
  let id := (connection_id, pub_request_id m) in
  let name := Publish_get_full_track_name m in
  let tm := table (requests s) in
  if has_unsupported_mandatory (pub_track_properties m) then Ok (send_out s [PUB_Error id REC_UnsupportedExtension])
  else if is_some (reserved_namespace_rejection (pub_track_namespace m) (pub_track_name m)) then Ok (send_out s [PUB_Error id REC_DoesNotExist])
  else
    let is_same_track := match get_track_by_alias tm connection_id (pub_track_alias m) with
                         | Some _ => bool_decide (track_aliases tm !! (connection_id, pub_track_alias m) = Some name)
                         | None => false
                         end in
    let close s := Ok (send_out s [PUB_CloseSession connection_id TC_DuplicateTrackAlias]) in
    if has_track_alias tm connection_id (pub_track_alias m) && negb is_same_track then close s
    else
      match join_publisher config s connection_id m with
      | (s, None) => close s
      | (s, Some created) =>
          let? s := if created : bool
                    then for_each (get_namespace_subscribers (registry s) (pub_track_namespace m) Kind_Tracks) (push_new config connection_id m) s
                    else Ok s in
          Ok (on_requests (send_out s [PUB_Ok id]) (fun st => ensure_upstream_forwarding st name))
      end.

(** ** The end of a PUBLISH *)

(** The publisher leaves the track; also tells whether the track is no longer served. *)
Definition leave_track (st : Requests) (name : FullTrackName) (connection_id : Z) : Requests * bool :=
  match tracks (table st) !! name with
  | None => (st, false)
  | Some e =>
      let '(t, removal) := remove_publisher (te_track e) connection_id in
      let st := put_track st name (set_track e t) in
      match removal with
      | None => (st, false)
      | Some (alias, still_served) => (with_table st (remove_publisher_alias (table st) connection_id alias), negb still_served)
      end
  end.

Definition cleanup_published_track (s : Publishing) (id : SubscriptionId) : Publishing :=
  match published_tracks s !! id with
  | None => s
  | Some name =>
      on_requests s (fun st =>
        let '(st, over) := leave_track st name (fst id) in
        if over : bool then
          match tracks (table st) !! name with
          | Some e => retire_in (remove_from_subscriber_switching_sets st name e) name
          | None => st
          end
        else st)
  end.

(** PUBLISH_DONE, once the publisher's streams have ended. *)
Definition handle_publish_done (s : Publishing) (id : SubscriptionId) : Publishing :=
  let s := cleanup_published_track s id in
  with_published s (published_tracks s) (delete id (publish_requests s)).

(** ** REQUEST_UPDATE of a PUBLISH *)

Definition forward_update (parameters : list MessageParameter) (s : Publishing) (id : SubscriptionId) : Publishing :=
  let st := requests s in
  let request_id := relay_next_request_id st in
  let s := with_requests_of s (with_next_id st (wrap64 (request_id + 2))) in
  if bool_decide (id ∈ response_senders st) then send_out s [PUB_Update id (mkRequestUpdate request_id parameters)] else s.

Definition handle_publish_update (s : Publishing) (id : SubscriptionId) (parameters : list MessageParameter) : Publishing :=
  match publish_requests s !! id with
  | None => send_out s [PUB_CloseSession (fst id) TC_ProtocolViolation]
  | Some m =>
      let m := with_pub_parameters m (apply_message_parameter_update (pub_parameters m) parameters) in
      let s := with_published s (published_tracks s) (<[id := m]> (publish_requests s)) in
      match get_track_name_by_publisher (table (requests s)) (fst id) (snd id) with
      | None => send_out s [PUB_CloseSession (fst id) TC_ProtocolViolation]
      | Some name =>
          match entry_of s name with
          | None => send_out s [PUB_CloseSession (fst id) TC_InternalError]
          | Some e =>
              let s := on_requests s (fun st => with_table st (update_publish_message_parameters (table st) name (fst id) parameters)) in
              let s := fold_left (forward_update parameters) (map fst (map_to_list (sm_subscriptions (manager (te_track e))))) s in
              send_out s [PUB_Ok id]
          end
      end
  end.

(** ** The life of a push *)

(** [end_pushed_subscription]. *)
Definition end_pushed_subscription (st : Requests) (name : FullTrackName) (id : SubscriptionId) : Requests :=
  let st := reject_subscription st name id in
  let release_in s := mkSstsState (negotiated_algorithms s) (release (switching_sets s) name (snd id)) (group_decisions s) in
  with_ssts st (alter release_in (fst id) (ssts st)).

Definition forget_push (s : Publishing) (id : SubscriptionId) : Publishing :=
  with_pushes (on_requests s (fun st => with_senders st (response_senders st ∖ {[id]}))) (delete id (pushes s)).

(** The stream has been opened and the PUBLISH written, or that failed. *)
Definition push_opened (s : Publishing) (id : SubscriptionId) (p : Push) (ok : bool) : Publishing :=
  if negb ok then forget_push s id
  else
    let s := with_pushes s (<[id := mkPush (pu_track p) (pu_publish p) true]> (pushes s)) in
    let s := on_requests s (fun st => with_senders st ({[id]} ∪ response_senders st)) in
    send_out s ([PUB_Publish id (pu_publish p)] ++
            match entry_of s (pu_track p) ≫= fun e => get_subscription e id with Some _ => [PUB_Fill id] | None => [] end).

(** A switching set named in the PUBLISH_OK; one that is not valid is ignored. *)
Definition register_ssts_assignment_from_publish_ok (st : Requests) (id : SubscriptionId) (p : Push) (parameters : list MessageParameter) : Requests :=
  match find_assignment parameters with
  | None => st
  | Some _ =>
      match assign_switching_set st (pu_track p) (pub_track_alias (pu_publish p)) id parameters with
      | Ok (Some s') =>
          let st := with_ssts st (<[fst id := s']> (ssts st)) in
          match tracks (table st) !! pu_track p with
          | Some e => put_track st (pu_track p) (on_subscription e id (fun s => set_forward s true))
          | None => st
          end
      | _ => st
      end
  end.

(** The part of an update that concerns the state of the subscription. *)
Definition update_held (st : Requests) (name : FullTrackName) (id : SubscriptionId) (parameters : list MessageParameter)
    : panics (option Requests) :=
  match tracks (table st) !! name with
  | None => Ok None
  | Some e =>
      match get_subscription e id with
      | None => Ok None
      | Some sub =>
          let? updated := update_state (subscription_state sub) parameters in
          Ok (Some (put_track st name (set_subscription e id (with_state sub (fst (fst updated))))))
      end
  end.

Definition location_filter_in (parameters : list MessageParameter) : option LocationFilter :=
  find_map (fun p => match p with MP_LocationFilter filter => Some filter | _ => None end) parameters.
Definition asks_for_a_fill (parameters : list MessageParameter) : bool :=
  existsb (fun p => match p with MP_FillParameters _ => true | _ => false end) parameters.
Definition largest_of (st : Requests) (name : FullTrackName) : option Location :=
  tracks (table st) !! name ≫= fun e => Tracks.largest_object (te_track e).
Definition change_held (st : Requests) (name : FullTrackName) (id : SubscriptionId) (f : SubscriptionState -> SubscriptionState) : Requests :=
  match tracks (table st) !! name with Some e => put_track st name (on_subscription e id f) | None => st end.

(** An update of a subscription that its track has let go of is left out. *)
Definition apply_pushed_update (config : AppConfig) (s : Publishing) (id : SubscriptionId) (p : Push) (parameters : list MessageParameter)
    : panics Publishing :=
  let name := pu_track p in
  match entry_of s name ≫= fun e => get_subscription e id with
  | None => Ok s
  | Some sub =>
      match updated_filter (subscribe_parameters (subscription_state sub)) parameters (max_filter_ranges config) with
      | Panic => Panic
      | Diverge => Diverge
      | Err _ => Ok (send_out s [PUB_Error id REC_InvalidFilter])
      | Ok _ =>
          let? updated := update_held (requests s) name id parameters in
          match updated with
          | None => Ok (send_out s [PUB_Error id REC_InternalError])
          | Some st =>
              let st := ensure_upstream_forwarding st name in
              let st := if is_some (location_filter_in parameters)
                        then change_held st name id (fun s => resolve_live_start s (largest_of st name)) else st in
              Ok (send_out (with_requests_of s st) ([PUB_Ok id] ++ if asks_for_a_fill parameters then [PUB_Fill id] else []))
          end
      end
  end.

Inductive push_message : Type :=
| PM_RequestOk (parameters : list MessageParameter)
| PM_RequestUpdate (parameters : list MessageParameter)
| PM_RequestError
| PM_Other
| PM_Closed.

Definition push_received (config : AppConfig) (s : Publishing) (id : SubscriptionId) (p : Push) (msg : push_message) : panics Publishing :=
  let name := pu_track p in
  match msg with
  | PM_RequestOk parameters =>
      Ok (on_requests s (fun st => ensure_upstream_forwarding (register_ssts_assignment_from_publish_ok st id p parameters) name))
  | PM_RequestUpdate parameters => apply_pushed_update config s id p parameters
  | PM_RequestError | PM_Closed => Ok (forget_push (on_requests s (fun st => end_pushed_subscription st name id)) id)
  | PM_Other => Ok s
  end.

(** ** REQUEST_UPDATE of a SUBSCRIBE ([subscribe_handler.rs]) *)

(** Refuses the update, and ends the subscription. *)
Definition fail_update (s : Publishing) (name : FullTrackName) (id : SubscriptionId) (code : RequestErrorCode) : Publishing :=
  let stream_count := match entry_of s name ≫= fun e => get_subscription e id with Some sub => opened_stream_count sub | None => 0 end in
  on_requests (send_out s [PUB_Error id code; PUB_Done id PDS_UpdateFailed stream_count]) (fun st => reject_subscription st name id).

Definition with_sub_parameters (r : SubscribeRequest) (ps : list MessageParameter) : SubscribeRequest :=
  let m := original_subscribe_request r in
  mkSubscribeRequest (original_request_id r) (requested_by r)
    (mkSubscribe (sub_request_id m) (sub_track_namespace m) (sub_track_name m) ps).

(** What an update makes of the switching set of the track. *)
Definition update_switching_set (st : Requests) (connection_id : Z) (name : FullTrackName) (parameters : list MessageParameter) : Requests :=
  match find_assignment parameters with
  | None => st
  | Some (_, algorithm_id, threshold, weight, activate, rank) =>
      let update s :=
        match update_assignment (switching_sets s) name (Some algorithm_id) (Some threshold) (Some weight) (Some activate) (Some rank) with
        | Ok (sets, _) => mkSstsState (negotiated_algorithms s) sets (group_decisions s)
        | _ => s
        end in
      with_ssts st (alter update connection_id (ssts st))
  end.

(** The switch that an update asks for starts here with the subscription it activates;
    what it does to the suspended one is [Forwarding.begin_switch]. *)
Definition handle_request_update (config : AppConfig) (s : Publishing) (id : SubscriptionId) (parameters : list MessageParameter) : panics Publishing :=
  match subscribe_requests (requests s) !! id with
  | None => Ok (send_out s [PUB_CloseSession (fst id) TC_ProtocolViolation])
  | Some request =>
      let m := original_subscribe_request request in
      let name := Subscribe_get_full_track_name m in
      match updated_filter (sub_parameters m) parameters (max_filter_ranges config) with
      | Panic => Panic
      | Diverge => Diverge
      | Err _ => Ok (fail_update s name id REC_InvalidFilter)
      | Ok _ =>
          match plan_switch (requests s) (fst id) (snd id) name parameters with
          | Ok switch_plan =>
              let st := requests s in
              let updated := with_sub_parameters request (apply_message_parameter_update (sub_parameters m) parameters) in
              let st := with_subscribe_requests st (<[id := updated]> (subscribe_requests st)) in
              let st := update_switching_set st (fst id) name parameters in
              match tracks (table st) !! name with
              | None => Ok (send_out (with_requests_of s st) [PUB_CloseSession (fst id) TC_ProtocolViolation])
              | Some _ =>
                  let? result := update_held st name id parameters in
                  match result with
                  | None => Ok (send_out (with_requests_of s st) [PUB_Error id REC_DoesNotExist])
                  | Some st =>
                      let st := ensure_upstream_forwarding st name in
                      let filter := location_filter_in parameters in
                      let largest := largest_of st name in
                      let '(st, switched) :=
                        match switch_plan with
                        | Some w => (change_held st name id (fun s => activate s filter largest), [PUB_Switch id w filter largest])
                        | None => (if is_some filter then change_held st name id (fun s => resolve_live_start s largest) else st, [])
                        end in
                      Ok (send_out (with_requests_of s st)
                            ([PUB_Ok id] ++ switched ++ if asks_for_a_fill parameters then [PUB_Fill id] else []))
                  end
              end
          | _ => Ok (send_out s [PUB_Error id REC_InvalidSwitch])
          end
      end
  end.

(** ** SUBSCRIBE_TRACKS ([subscribe_tracks_handler.rs]) *)

(** The tracks that are there already. *)
Fixpoint push_matched `{Target} (config : AppConfig) (s : Publishing) (connection_id : Z) (m : SubscribeTracks) (published : Z)
    (matched : list (FullTrackName * option Publish)) : panics Publishing :=
  match matched with
  | [] => Ok s
  | (name, original) :: rest =>
      let already_served := match entry_of s name with Some e => is_published_by e connection_id | None => false end ||
                            has_subscription_of s name connection_id in
      match original with
      | Some publish =>
          if already_served then push_matched config s connection_id m published rest
          else if (0 <? max_publish_streams config) && (max_publish_streams config <=? published) then
            let suffix := default (ftn_namespace name) (Tuple_suffix (ftn_namespace name) (st_track_namespace_prefix m)) in
            Ok (send_out s [PUB_Skipped (connection_id, st_request_id m) (mkPublishSkipped suffix (ftn_name name))])
          else
            let? pushed := push_track_to_subscriber config s connection_id name publish (st_parameters m) in
            push_matched config (fst pushed) connection_id m (if snd pushed : bool then published + 1 else published) rest
      | None => push_matched config s connection_id m published rest
      end
  end.

(** The part of the handler before the pushes is [Namespaces.handle_subscribe_tracks]. *)
Definition handle_subscribe_tracks_message `{Target} (config : AppConfig) (s : Publishing) (connection_id : Z) (m : SubscribeTracks) : panics Publishing :=
  let? r := handle_subscribe_tracks (registry s) connection_id (max_filter_ranges config) m in
  let s := with_registry s r in
  match last (log r) with
  | Some (_, W_RequestOk) =>
      push_matched config s connection_id m 0
        (map (fun x : FullTrackName * TrackEntry * option Publish => (fst (fst x), snd x))
           (get_tracks_and_publishes_by_namespace_prefix (table (requests s)) (st_track_namespace_prefix m)))
  | _ => Ok s
  end.

(** ** TRACK_STATUS ([track_status_handler.rs]) *)

Inductive status_answer : Type :=
| SA_Ok (m : RequestOk)
| SA_Error (code : RequestErrorCode)
| SA_Forward (publisher : Z).

Definition handle_track_status (tm : TrackTable) (publishers : list Z) (m : Control.TrackStatus) : status_answer :=
  let ask := match publishers with [] => SA_Error REC_DoesNotExist | publisher :: _ => SA_Forward publisher end in
  match get_track tm (TrackStatus_get_full_track_name m) with
  | Some e =>
      if bool_decide (origin (upstream (te_track e)) = TO_CacheOnly) then ask
      else SA_Ok (mkRequestOk [MP_LargestObject (largest_location (content (te_track e)))]
                    (if include_properties (ts_parameters m) then track_properties (te_track e) else []))
  | None => ask
  end.

(** ** The end of a session ([session.rs]) *)

(** The publisher leaves every track; those that nobody serves any more are retired. *)
Definition leave_all_tracks (st : Requests) (connection_id : Z) : Requests :=
  let '(st, over) := fold_left (fun (acc : Requests * list FullTrackName) name =>
      let '(st, gone) := leave_track (fst acc) name connection_id in
      (st, if gone : bool then snd acc ++ [name] else snd acc))
    (map fst (map_to_list (tracks (table st)))) (st, []) in
  fold_left retire_in over st.

(** [Track::remove_subscriptions]. *)
Definition remove_subscriptions (connection_id : Z) (st : Requests) (name : FullTrackName) : Requests :=
  match tracks (table st) !! name with
  | Some e => put_track st name (set_track e (with_manager (te_track e) (sm_remove_subscriptions (manager (te_track e)) connection_id)))
  | None => st
  end.

Definition handle_connection_close (s : Publishing) (connection_id : Z) : Publishing :=
  let s := on_requests s (fun st => leave_all_tracks st connection_id) in
  let s := with_registry s (close_connection (registry s) connection_id) in
  let s := with_clients s (clients s ∖ {[connection_id]}) in
  on_requests s (fun st => fold_left (remove_subscriptions connection_id) (map fst (map_to_list (tracks (table st)))) st).

(** * Steps *)

Inductive publishing_op : Type :=
| PO_Request (op : request_op)
| PO_Publish (connection_id : Z) (m : Publish)
| PO_PublishDone (id : SubscriptionId)
| PO_PublishUpdate (id : SubscriptionId) (parameters : list MessageParameter)
| PO_PushOpened (id : SubscriptionId) (ok : bool)
| PO_PushMessage (id : SubscriptionId) (msg : push_message)
| PO_Update (id : SubscriptionId) (parameters : list MessageParameter)
| PO_SubscribeTracks (connection_id : Z) (m : SubscribeTracks)
| PO_Namespaces (ev : event)
| PO_Connected (connection_id : Z)
| PO_SessionClosed (connection_id : Z).

(** The tracks with a PUBLISH, which the handlers of namespaces see. *)
Definition published_names (tm : TrackTable) : list FullTrackName :=
  map fst (List.filter (fun x : FullTrackName * TrackEntry => is_some (publishes tm !! fst x)) (map_to_list (tracks tm))).

Definition publishing_step `{Target} (config : AppConfig) (s : Publishing) (op : publishing_op) : panics Publishing :=
  match op with
  | PO_Request op => let? st := request_step config (requests s) op in Ok (with_requests_of s st)
  | PO_Publish c m =>
      handle_publish config (on_requests s (fun st => with_senders st ({[(c, pub_request_id m)]} ∪ response_senders st))) c m
  | PO_PublishDone id => Ok (handle_publish_done s id)
  | PO_PublishUpdate id parameters => Ok (handle_publish_update s id parameters)
  | PO_PushOpened id ok =>
      Ok match pushes s !! id with Some p => if pu_open p then s else push_opened s id p ok | None => s end
  | PO_PushMessage id msg =>
      match pushes s !! id with Some p => if pu_open p then push_received config s id p msg else Ok s | None => Ok s end
  | PO_Update id parameters => handle_request_update config s id parameters
  | PO_SubscribeTracks c m => handle_subscribe_tracks_message config s c m
  | PO_Namespaces ev =>
      let? r := handle_event (max_filter_ranges config) (set_published (registry s) (published_names (table (requests s)))) ev in
      Ok (with_registry s r)
  | PO_Connected c => Ok (with_clients s ({[c]} ∪ clients s))
  | PO_SessionClosed c => Ok (handle_connection_close s c)
  end.
Definition run_publishing `{Target} (config : AppConfig) (s : Publishing) (ops : list publishing_op) : panics Publishing :=
  for_each ops (publishing_step config) s.

(** Whether the task that serves [op] panics; the relay goes on without it. *)
Definition step_panics `{Target} (config : AppConfig) (s : Publishing) (op : publishing_op) : bool :=
  match op with
  | PO_Request op => handler_panics config (requests s) op
  | _ => match publishing_step config s op with Ok _ => false | _ => true end
  end.
(** The operations of a run whose tasks panic, in order. *)
Fixpoint panicking `{Target} (config : AppConfig) (s : Publishing) (ops : list publishing_op) : list publishing_op :=
  match ops with
  | [] => []
  | op :: ops =>
      (if step_panics config s op then [op] else []) ++
      match publishing_step config s op with Ok s => panicking config s ops | _ => [] end
  end.
(** A SUBSCRIBE whose stream no longer takes what is written to it. *)
Definition unheard_subscribe (op : publishing_op) : Prop :=
  match op with PO_Request (RO_Subscribe _ _ _ reached) => reached = false | _ => False end.
