(* ===== verification/PublishingTables.v ===== *)
(** The relay's tables go on agreeing under PUBLISH, SUBSCRIBE_TRACKS, updates and the
    ends of sessions too. *)
From stdpp Require Import gmap.
From S2P Require Import Prelude Varint Common Codes TrackName LocationFilter RangeFilter Properties MessageParameter CombinedFilter.
From S2P Require Import Control Subgroup Datagram FetchObject ObjectForms DataStream SeenObjects TrackCache SwitchingSet Controller Namespaces.
From S2P Require Import Streams Subscription Forwarding Tracks Parameters TrackTable Requests RequestTables Publishing.

(** * What keeps the tables *)

Definition publishing_kept (s s' : Publishing) : Prop := tables_kept (requests s) (requests s').
Definition publishing_grown (s s' : Publishing) : Prop := tables_grown (requests s) (requests s').

Lemma publishing_same s s' : table (requests s') = table (requests s) -> publishing_kept s s'.
Proof. apply tables_same. Qed.
Lemma publishing_trans s1 s2 s3 : publishing_kept s1 s2 -> publishing_kept s2 s3 -> publishing_kept s1 s3.
Proof. apply tables_trans. Qed.
Lemma kept_grown s s' : publishing_kept s s' -> publishing_grown s s'.
Proof. intros H Ht _. destruct (H Ht) as [H1 H2]. split; [done|lia]. Qed.

Lemma fold_kept {A} (f : Requests -> A -> Requests) l st : (forall st x, tables_kept st (f st x)) -> tables_kept st (fold_left f l st).
Proof. intros Hf. revert st. induction l as [|x l IH]; intros st; [by apply tables_same|]. simpl. eapply tables_trans; [apply Hf|apply IH]. Qed.

Lemma with_publishes_ok tm m : tables_ok tm -> tables_ok (with_publishes tm m).
Proof. intros [He Hq Hr Hn Ha Hx]. by split. Qed.
Lemma publishes_kept st m : tables_kept st (with_table st (with_publishes (table st) m)).
Proof. intros Ht. split; [by apply with_publishes_ok|done]. Qed.

Lemma held_of_track e id sub : entry_ok e -> get_subscription e id = Some sub -> relay_track_id sub = t_relay_track_id (te_track e).
Proof.
  intros He. unfold get_subscription. destruct (sm_subscriptions _ !! id); [|done].
  intros H. by apply (proj1 (Forall_lookup _ _) (eo_of_track _ He)) in H.
Qed.
Lemma on_subscription_same e id f : entry_ok e -> same_entry e (on_subscription e id f).
Proof.
  intros He. unfold on_subscription. destruct (get_subscription e id) as [sub|] eqn:E; [|by apply same_entry_refl].
  apply set_subscription_same; [done|]. exact (held_of_track e id sub He E).
Qed.
Lemma change_held_kept st name id f : tables_kept st (change_held st name id f).
Proof.
  unfold change_held. destruct (tracks (table st) !! name) as [e|] eqn:E; [|by apply tables_same].
  eapply entry_put_kept; [exact E|]. apply on_subscription_same.
Qed.

(** ** Pushes *)

Lemma publish_state m : exists s, SubscriptionState_from (SO_Publish m) = Ok s.
Proof. unfold SubscriptionState_from. eauto. Qed.

(** What became of the request: the state goes on from [s] to some [s']. *)
Definition goes_on (R : Publishing -> Publishing -> Prop) (s : Publishing) (r : panics Publishing) : Prop :=
  exists s', r = Ok s' /\ R s s'.

Lemma push_kept `{Target} config s c name publish params :
  exists s' b, push_track_to_subscriber config s c name publish params = Ok (s', b) /\ publishing_kept s s'.
Proof.
  unfold push_track_to_subscriber. destruct (filters_for_track _ _) as [range_filters|]; [|do 2 eexists; split; [done|by apply publishing_same]].
  unfold entry_of. destruct (tracks (table (requests s)) !! name) as [e|] eqn:Ee; [|do 2 eexists; split; [done|by apply publishing_same]].
  destruct (pick_track_alias _ _ _) as [alias next]. set (st1 := with_next_alias _ _). set (d := downstream_of _ _ _ _ _).
  assert (Hadd : exists r, Tracks.add_subscription (te_track e) c (SO_Publish d) alias = Ok r).
  { unfold Tracks.add_subscription. destruct (publish_state d) as [x Hx].
    rewrite Hx. simpl. destruct (sm_add_subscription _ _) as [[]|]; eauto. }
  destruct Hadd as [r Er]. rewrite Er. simpl. do 2 eexists. split; [reflexivity|].
  eapply (tables_trans _ st1); [by apply tables_same|]. eapply tables_trans; [|apply ensure_forwarding_kept].
  eapply entry_put_kept; [exact Ee|]. intros He. destruct r as [[[t sub] n]|]; [|by apply on_subscription_same].
  destruct (add_subscription_entry e (upstream (te_track e)) c (SO_Publish d) alias t sub n He eq_refl) as [Hs _].
  { destruct (te_track e). exact Er. }
  eapply same_trans; [exact Hs|]. apply on_subscription_same, Hs.
Qed.

Lemma push_new_kept `{Target} config c m s x : goes_on publishing_kept s (push_new config c m s x).
Proof.
  unfold push_new. destruct (_ || _); [eexists; split; [done|by apply publishing_same]|].
  destruct (push_kept config s (fst x) (Publish_get_full_track_name m) m (snd x)) as (s' & b & -> & Hk). by exists s'.
Qed.

Lemma for_each_kept {A} (f : Publishing -> A -> panics Publishing) l s : (forall s x, goes_on publishing_kept s (f s x)) ->
  goes_on publishing_kept s (for_each l f s).
Proof.
  intros Hf. revert s. induction l as [|x l IH]; intros s; [eexists; split; [done|by apply publishing_same]|].
  simpl. destruct (Hf s x) as (s1 & -> & H1). destruct (IH s1) as (s2 & E2 & H2). exists s2. split; [done|by eapply publishing_trans].
Qed.

(** ** PUBLISH *)

Lemma add_alias_same tm c a name : has_track_alias tm c a = false \/ track_aliases tm !! (c, a) = Some name ->
  snd (add_track_alias tm c a name) = true.
Proof.
  unfold has_track_alias, add_track_alias. destruct (track_aliases tm !! (c, a)) as [n|]; [|done]. intros [?|[= ->]]; [done|].
  by apply bool_decide_eq_true.
Qed.

Lemma join_publisher_grown config s c m : publishing_grown s (fst (join_publisher config s c m)).
Proof.
  unfold join_publisher. intros Ht Hr. set (name := Publish_get_full_track_name m).
  pose proof (create_track_ok (table (requests s)) name (dedup_retained_groups config) (TS_Confirmed []) TO_Publish Ht Hr) as Hc.
  destruct (get_or_create_track _ _ _) as [[tm e] created]. destruct Hc as (Htm & Ee & En).
  pose proof (tk_entries _ Htm _ _ Ee) as He. pose proof (tk_quiet _ Htm _ _ Ee) as Hq.
  pose proof (take_over_aliases (upstream (te_track e)) TO_Publish (TS_Confirmed [])) as Hu.
  destruct (take_over _ _ _) as [u taken]. simpl in Hu.
  destruct (add_alias_ok tm c (pub_track_alias m) name Htm) as (Htm2 & Et2 & En2 & Ha).
  destruct (add_track_alias tm c (pub_track_alias m) name) as [tm2 added]. simpl in *. rewrite <- Et2 in Ee.
  destruct added; simpl; split; try lia.
  - set (t := if created || taken then _ else _). set (e' := set_track e (no_signals t)).
    change (tables_ok (with_publishes (put_entry tm2 name e') (publishes (add_publish_message tm2 name c m)))). apply with_publishes_ok.
    eapply put_routed; [exact Htm2|exact Ee| | | |].
    + destruct He. subst e' t. by destruct (created || taken); split.
    + done.
    + subst e' t. by destruct (created || taken).
    + intros c' a'. assert (aliases_of e' = <[c := pub_track_alias m]> (aliases_of e)) as ->.
      { subst e' t. unfold aliases_of. rewrite <- Hu. by destruct (created || taken), (publisher_forwards m). }
      rewrite lookup_insert_Some. intros [[<- <-]|[_ Hal]]; [by apply Ha|]. by eapply (tk_routed _ Htm2).
  - set (e' := set_track e _). change (tables_ok (put_entry tm2 name (set_track e' (no_signals (te_track e'))))).
    eapply put_entry_ok; [exact Htm2|exact Ee| |done]. rewrite <- (quiet_id e) by done. apply quiet_same, same_upstream; [done|].
    simpl. by rewrite Hu.
Qed.

Lemma handle_publish_grown `{Target} config s c m : goes_on publishing_grown s (handle_publish config s c m).
Proof.
  assert (Hsame : forall s' o, table (requests s') = table (requests s) -> goes_on publishing_grown s (Ok (send_out s' o))).
  { intros s' o E. eexists. split; [done|]. by apply grown_same. }
  unfold handle_publish. destruct (has_unsupported_mandatory _); [by apply Hsame|]. destruct (is_some _); [by apply Hsame|].
  destruct (has_track_alias _ _ _ && _); [by apply Hsame|].
  pose proof (join_publisher_grown config s c m) as Hg. destruct (join_publisher config s c m) as [s1 [created|]]; simpl in Hg.
  2: { eexists. split; [done|]. exact Hg. }
  set (rest := if created then _ else _).
  assert (Hrest : goes_on publishing_kept s1 rest) by (subst rest; destruct created; [apply for_each_kept; intros; apply push_new_kept|eexists; split; [done|by apply publishing_same]]).
  destruct Hrest as (s2 & -> & Hk). eexists. split; [reflexivity|]. eapply grown_kept; [exact Hg|]. eapply tables_trans; [exact Hk|].
  apply ensure_forwarding_kept.
Qed.

(** ** Publishers that leave *)

Lemma leave_track_kept st name c : tables_kept st (fst (leave_track st name c)).
Proof.
  intros Ht. unfold leave_track. destruct (tracks (table st) !! name) as [e|] eqn:E; [|done]. apply (holds_entry_at _ _ _ Ht) in E.
  pose proof (take_publisher_same e c (proj2 (proj2 E))) as Hs. unfold remove_publisher_quietly in Hs. unfold remove_publisher.
  unfold take_publisher in *. destruct Hs as [Hs Hal]. fold (aliases_of e) in *. simpl in Hs, Hal.
  destruct (aliases_of e !! c) as [a|] eqn:Ea.
  - set (still := negb _).
    match goal with |- context [if still then with_upstream (te_track e) ?u' else _] => set (u := u') end.
    match goal with |- context [put_track st name (set_track e ?t')] => set (t := t') end.
    assert (Hs2 : same_entry e (set_track e t)).
    { assert (same_entry e (set_track e (with_upstream (te_track e) u))) as Hu by (apply same_upstream; [apply E|by apply delete_subseteq]).
      subst t. destruct still; [exact Hu|]. eapply same_trans; [exact Hu|].
      exact (notify_same (set_track e (with_upstream (te_track e) u)) PDS_TrackEnded PUBLISHER_DISCONNECTED (se_ok _ _ Hu)). }
    pose proof (put_track_holds st name e _ E Hs2) as H1. split; [|simpl; by rewrite remove_alias_next].
    apply remove_alias_ok; [apply H1|]. apply (unrouted_put _ _ (quiet e)); [apply E|apply E|done|].
    assert (aliases_of (set_track e t) = delete c (aliases_of e)) as H2 by (subst t; by destruct still).
    change (aliases_of (set_track e t) !! c = None). rewrite H2. apply lookup_delete_eq.
  - eapply (put_track_kept st name), put_track_holds; [exact E|]. apply same_upstream; [apply E|]. by apply delete_subseteq.
Qed.

Lemma cleanup_kept s id : publishing_kept s (cleanup_published_track s id).
Proof.
  unfold cleanup_published_track. destruct (published_tracks s !! id) as [name|]; [|by apply publishing_same].
  unfold publishing_kept, on_requests. simpl. pose proof (leave_track_kept (requests s) name (fst id)) as Hk.
  destruct (leave_track _ _ _) as [st over]. simpl in *. destruct over; [|done]. destruct (tracks (table st) !! name) as [e|]; [|done].
  eapply tables_trans; [exact Hk|]. eapply tables_trans; [|apply retire_in_kept]. by apply tables_same.
Qed.

Lemma publish_update_kept s id parameters : publishing_kept s (handle_publish_update s id parameters).
Proof.
  unfold handle_publish_update. destruct (publish_requests s !! id) as [m|]; [|by apply publishing_same].
  destruct (get_track_name_by_publisher _ _ _) as [name|]; [|by apply publishing_same]. destruct (entry_of _ name) as [e|]; [|by apply publishing_same].
  set (s1 := on_requests _ _). eapply (publishing_trans s s1); [apply publishes_kept|]. generalize (map fst (map_to_list (sm_subscriptions (manager (te_track e))))).
  intros l. clearbody s1. apply publishing_same. simpl. clear. revert s1. induction l as [|x l IH]; intros s1; [done|]. simpl. rewrite IH.
  unfold forward_update. by case_bool_decide.
Qed.

(** ** Pushed subscriptions *)

Lemma forget_push_kept s id : publishing_kept s (forget_push s id).
Proof. by apply publishing_same. Qed.

Lemma end_pushed_kept st name id : tables_kept st (end_pushed_subscription st name id).
Proof. unfold end_pushed_subscription. eapply tables_trans; [apply reject_subscription_kept|by apply tables_same]. Qed.

Lemma register_assignment_kept st id p parameters : tables_kept st (register_ssts_assignment_from_publish_ok st id p parameters).
Proof.
  unfold register_ssts_assignment_from_publish_ok. destruct (find_assignment parameters); [|by apply tables_same].
  destruct (assign_switching_set _ _ _ _ _) as [[s'|]| | |]; try by apply tables_same.
  set (st1 := with_ssts _ _). change (tables_kept st (match tracks (table st1) !! pu_track p with
    | Some e => put_track st1 (pu_track p) (on_subscription e id (fun s => set_forward s true)) | None => st1 end)).
  eapply (tables_trans _ st1); [by apply tables_same|]. apply (change_held_kept st1 (pu_track p) id).
Qed.

Lemma update_state_returns s parameters : exists r, update_state s parameters = Ok r.
Proof.
  unfold update_state. set (s1 := match find_map _ _ with Some _ => _ | None => _ end). destruct (fold_left _ _ _) as [[s2 t] f].
  pose proof (for_objects_returns (apply_message_parameter_update (subscribe_parameters s2) parameters)) as Hf. destruct (for_objects _); try done; eauto.
Qed.

Lemma update_held_kept st name id parameters :
  exists r, update_held st name id parameters = Ok r /\ forall st', r = Some st' -> tables_kept st st'.
Proof.
  unfold update_held. destruct (tracks (table st) !! name) as [e|] eqn:E; [|by eexists]. destruct (get_subscription e id) as [sub|] eqn:Es; [|by eexists].
  destruct (update_state_returns (subscription_state sub) parameters) as [r ->]. eexists. split; [done|]. intros st' [= <-].
  eapply entry_put_kept; [exact E|]. intros He. apply set_subscription_same; [done|]. exact (held_of_track e id sub He Es).
Qed.

Lemma limit_checked params limit : returns (check_filter_range_limit params limit).
Proof.
  pose proof (object_filter_returns params limit) as H. unfold object_filter in H. by destruct (check_filter_range_limit params limit).
Qed.
Lemma updated_filter_returns current update limit : returns (updated_filter current update limit).
Proof. unfold updated_filter. apply obind_returns; [apply limit_checked|]. intros. apply object_filter_returns. Qed.

Lemma pushed_update_kept config s id p parameters : goes_on publishing_kept s (apply_pushed_update config s id p parameters).
Proof.
  assert (Hsame : forall o, goes_on publishing_kept s (Ok (send_out s o))) by (intros; eexists; split; [done|by apply publishing_same]).
  unfold apply_pushed_update. destruct (_ ≫= _) as [sub|]; [|eexists; split; [done|by apply publishing_same]].
  pose proof (updated_filter_returns (subscribe_parameters (subscription_state sub)) parameters (max_filter_ranges config)) as Hf.
  destruct (updated_filter _ _ _); try done. destruct (update_held_kept (requests s) (pu_track p) id parameters) as (r & -> & Hr). simpl.
  destruct r as [st|]; [|apply Hsame]. eexists. split; [done|]. unfold publishing_kept. simpl.
  eapply tables_trans; [by apply Hr|]. eapply tables_trans; [apply ensure_forwarding_kept|].
  destruct (is_some _); [apply change_held_kept|by apply tables_same].
Qed.

Lemma push_received_kept config s id p msg : goes_on publishing_kept s (push_received config s id p msg).
Proof.
  destruct msg as [ps|ps| | |]; simpl; [|apply pushed_update_kept|..]; (eexists; split; [done|]); try by apply publishing_same.
  - eapply tables_trans; [apply register_assignment_kept|apply ensure_forwarding_kept].
  - eapply publishing_trans; [|apply forget_push_kept]. apply end_pushed_kept.
  - eapply publishing_trans; [|apply forget_push_kept]. apply end_pushed_kept.
Qed.

(** ** Updates *)

Lemma request_update_kept config s id parameters : goes_on publishing_kept s (handle_request_update config s id parameters).
Proof.
  assert (Hsame : forall s' o, table (requests s') = table (requests s) -> goes_on publishing_kept s (Ok (send_out s' o))).
  { intros. eexists. split; [done|]. by apply publishing_same. }
  unfold handle_request_update. destruct (subscribe_requests (requests s) !! id) as [request|]; [|by apply Hsame].
  set (m := original_subscribe_request request). set (name := Subscribe_get_full_track_name m).
  pose proof (updated_filter_returns (sub_parameters m) parameters (max_filter_ranges config)) as Hf. destruct (updated_filter _ _ _); try done.
  2: { eexists. split; [done|]. apply reject_subscription_kept. }
  destruct (plan_switch _ _ _ _ _) as [plan| | |]; try by apply Hsame.
  set (st := update_switching_set _ _ _ _). assert (Et : table st = table (requests s)) by (subst st; unfold update_switching_set; by destruct (find_assignment parameters) as [[[[[[]]]]]|]).
  destruct (tracks (table st) !! name); [|by apply Hsame]. destruct (update_held_kept st name id parameters) as (r & -> & Hr). simpl.
  destruct r as [st1|]; [|by apply Hsame]. specialize (Hr st1 eq_refl).
  assert (H1 : tables_kept (requests s) (ensure_upstream_forwarding st1 name)).
  { eapply tables_trans; [by apply (tables_same _ st)|]. eapply tables_trans; [exact Hr|apply ensure_forwarding_kept]. }
  destruct plan as [w|]; (eexists; split; [done|]); (eapply tables_trans; [exact H1|]); [apply change_held_kept|].
  destruct (is_some _); [apply change_held_kept|by apply tables_same].
Qed.

(** ** SUBSCRIBE_TRACKS *)

Lemma push_matched_kept `{Target} config s c m published matched : goes_on publishing_kept s (push_matched config s c m published matched).
Proof.
  revert s published. induction matched as [|[name original] matched IH]; intros s published; simpl; [eexists; split; [done|by apply publishing_same]|].
  destruct original as [publish|]; [|apply IH]. destruct (_ || _); [apply IH|].
  destruct (_ && _); [eexists; split; [done|by apply publishing_same]|].
  destruct (push_kept config s c name publish (st_parameters m)) as (s1 & b & -> & Hk). simpl.
  destruct (IH s1 (if b then published + 1 else published)) as (s2 & E2 & H2). exists s2. split; [done|]. by eapply publishing_trans.
Qed.

Lemma tracks_filter_returns params limit : returns (tracks_filter params limit).
Proof.
  pose proof (object_filter_returns params limit) as H. unfold object_filter in H. unfold tracks_filter.
  destruct (check_filter_range_limit params limit); try done. simpl in *. destruct (check_fills params); try done. simpl in *.
  unfold for_objects in H. by destruct (CombinedFilter_new params).
Qed.

Lemma handle_event_returns limit r ev : exists r', handle_event limit r ev = Ok r'.
Proof.
  destruct ev; simpl; eauto.
  - unfold handle_subscribe_tracks. destruct (oversized_namespace_error _); [eauto|].
    pose proof (tracks_filter_returns (st_parameters m) limit) as H. destruct (tracks_filter _ _); try done; [|eauto].
    destruct (find_overlapping_namespace_subscription _ _ _ _ _); eauto.
  - unfold handle_prefix_update. destruct (target_subscription r t) as [[prefix kind]|]; [|eauto].
    set (rejection := match requested_prefix update with Some _ => _ | None => _ end). destruct rejection; [eauto|].
    unfold update_filters_rejection.
    assert (Hr : forall cur, returns (updated_tracks_filter cur update limit)).
    { intros cur. unfold updated_tracks_filter. apply obind_returns; [apply limit_checked|]. intros. apply tracks_filter_returns. }
    assert (Hx : returns match kind with
      | Kind_Tracks => let? _ := updated_tracks_filter (match inbound_requests r !! t with Some (PR_SubscribeTracks m) => st_parameters m | _ => [] end) update limit in Ok tt
      | Kind_Namespace => check_filter_range_limit update 0 end).
    { destruct kind; [apply limit_checked|]. by apply obind_returns. }
    destruct kind; match type of Hx with returns ?x => destruct x; try done; eauto end.
Qed.
Lemma subscribe_tracks_kept `{Target} config s c m : goes_on publishing_kept s (handle_subscribe_tracks_message config s c m).
Proof.
  unfold handle_subscribe_tracks_message.
  destruct (handle_event_returns (max_filter_ranges config) (registry s) (E_SubscribeTracks c m)) as [r Er]. simpl in Er. rewrite Er. simpl.
  assert (Hsame : goes_on publishing_kept s (Ok (with_registry s r))) by (eexists; split; [done|by apply publishing_same]).
  destruct (last (log r)) as [[? []]|]; try exact Hsame.
  match goal with |- goes_on _ _ (push_matched _ ?s1 _ _ _ ?l) => destruct (push_matched_kept config s1 c m 0 l) as (s2 & E2 & H2) end.
  by exists s2.
Qed.

(** ** The end of a session *)

Lemma sm_remove_all_ok m c : manager_ok m -> manager_ok (sm_remove_subscriptions m c) /\ channels (sm_remove_subscriptions m c) = channels m.
Proof.
  unfold sm_remove_subscriptions. generalize (elements (default ∅ (subscriber_request_ids m !! c))). intros l. revert m.
  induction l as [|r l IH]; intros m Hm; [done|]. simpl. destruct (sm_remove_ok m (c, r) Hm) as (Hm' & _ & Hc).
  destruct (IH _ Hm') as [H1 H2]. split; [exact H1|]. by etransitivity; [exact H2|].
Qed.

Lemma leave_all_kept st c : tables_kept st (leave_all_tracks st c).
Proof.
  unfold leave_all_tracks. set (f := fun (acc : Requests * list FullTrackName) name => _).
  assert (Hf : forall l st over, tables_kept st (fst (fold_left f l (st, over)))).
  { induction l as [|name l IH]; intros st1 over; [by apply tables_same|]. simpl. pose proof (leave_track_kept st1 name c) as Hk.
    assert (Ef : exists over', f (st1, over) name = (fst (leave_track st1 name c), over')) by (subst f; simpl; destruct (leave_track st1 name c); by eexists).
    destruct Ef as [over' ->]. eapply tables_trans; [exact Hk|apply IH]. }
  specialize (Hf (map fst (map_to_list (tracks (table st)))) st []). destruct (fold_left f _ _) as [st1 over]. simpl in *.
  eapply tables_trans; [exact Hf|]. apply fold_kept, retire_in_kept.
Qed.

Lemma connection_close_kept s c : publishing_kept s (handle_connection_close s c).
Proof.
  unfold handle_connection_close, publishing_kept. simpl. eapply tables_trans; [apply leave_all_kept|]. apply fold_kept. clear. intros st name.
  unfold remove_subscriptions. destruct (tracks (table st) !! name) as [e|] eqn:E; [|by apply tables_same].
  eapply entry_put_kept; [exact E|]. intros He. destruct (sm_remove_all_ok _ c (eo_manager _ He)) as [Hm Hc].
  apply same_manager; [done|done|by rewrite Hc].
Qed.

(** * Runs *)

Lemma publishing_step_tables `{Target} config s op : tables_ok (table (requests s)) -> room (requests s) ->
  exists s', publishing_step config s op = Ok s' /\ tables_ok (table (requests s')) /\
    next_relay_track_id (table (requests s')) <= next_relay_track_id (table (requests s)) + 1.
Proof.
  intros Ht Hr. assert (Hg : forall r, goes_on publishing_grown s r -> exists s', r = Ok s' /\ tables_ok (table (requests s')) /\
    next_relay_track_id (table (requests s')) <= next_relay_track_id (table (requests s)) + 1).
  { intros r (s' & E & K). exists s'. split; [done|]. by apply K. }
  assert (Hk : forall r, goes_on publishing_kept s r -> goes_on publishing_grown s r) by (intros r (s' & E & K); exists s'; split; [done|by apply kept_grown]).
  assert (Hone : forall s', publishing_kept s s' -> goes_on publishing_grown s (Ok s')) by (intros s' K; apply Hk; by exists s').
  assert (Hid : publishing_kept s s) by (by apply publishing_same).
  destruct op as [op|c m|id|id ps|id ok|id msg|id ps|c m|ev|c|c]; simpl.
  - destruct (request_step_tables config (requests s) op Ht Hr) as (st & -> & H1 & H2). by eexists.
  - apply Hg. match goal with |- goes_on _ _ (handle_publish _ ?s1 _ _) => destruct (handle_publish_grown config s1 c m) as (s' & -> & K) end.
    exists s'. split; [done|exact K].
  - apply Hg, Hone. eapply publishing_trans; [apply (cleanup_kept s id)|by apply publishing_same].
  - apply Hg, Hone, publish_update_kept.
  - apply Hg, Hone. destruct (pushes s !! id) as [p|]; [|done]. destruct (pu_open p); [done|]. unfold push_opened.
    destruct (negb ok); [apply forget_push_kept|by apply publishing_same].
  - apply Hg. destruct (pushes s !! id) as [p|]; [|by apply Hone]. destruct (pu_open p); [apply Hk, push_received_kept|by apply Hone].
  - apply Hg, Hk, request_update_kept.
  - apply Hg, Hk, subscribe_tracks_kept.
  - destruct (handle_event_returns (max_filter_ranges config) (set_published (registry s) (published_names (table (requests s)))) ev) as [r ->].
    by apply Hg, Hone.
  - by apply Hg, Hone.
  - apply Hg, Hone, connection_close_kept.
Qed.

Lemma step_panics_unheard `{Target} config s op : tables_ok (table (requests s)) -> room (requests s) ->
  step_panics config s op = true -> unheard_subscribe op.
Proof.
  intros Ht Hr. destruct (publishing_step_tables config s op Ht Hr) as (s' & E & _).
  unfold step_panics. destruct op; [|by rewrite E..].
  intros Hp. by destruct (only_unreached_panics config _ _ Ht Hr Hp) as (c & sub & ps & ->).
Qed.

(** C13: whatever SUBSCRIBEs, PUBLISHes, updates, answers, timeouts, prefix subscriptions
    and ends of streams and sessions come, in whatever order, and whether or not the
    subscribers still take their answers, the relay serves them all, and its tables go on
    agreeing: the maps of each track's subscribers tell the same and lead to its
    subscriptions, each alias that a publisher of the track chose leads back to the track,
    nothing is left unsignalled, and no two tracks share their number.  A task panics for no
    other request than a SUBSCRIBE whose subscriber no longer takes what is written to it
    (its refusal is written with [unwrap]); the others go on. *)
Theorem relay_tables_agree `{Target} config s ops :
  tables_ok (table (requests s)) -> next_relay_track_id (table (requests s)) + Z.of_nat (length ops) < U64 ->
  Forall unheard_subscribe (panicking config s ops) /\
  exists s', run_publishing config s ops = Ok s' /\ tables_ok (table (requests s')).
Proof.
  revert s. induction ops as [|op ops IH]; intros s Ht Hb; [split; [done|by exists s]|]. simpl length in Hb.
  assert (Hr : room (requests s)) by (unfold room; lia). pose proof (step_panics_unheard config s op Ht Hr) as Hp.
  destruct (publishing_step_tables config s op Ht Hr) as (s1 & E1 & Ht1 & Hn).
  destruct (IH s1 Ht1) as (Hf & s' & E & H'); [lia|]. split.
  - simpl. rewrite E1. apply Forall_app. split; [|exact Hf]. destruct (step_panics config s op); [|done]. by apply Forall_singleton, Hp.
  - exists s'. split; [|done]. unfold run_publishing. simpl. by rewrite E1.
Qed.
