(* ===== verification/RequestsCalm.v ===== *)
(** What the handlers of requests make of the tracks that publishers feed.

    A step is calm when it makes no more tracks wanted and no more publishers wait; the
    steps that are not end by asking the publishers ([ensure_upstream_forwarding]). *)
From stdpp Require Import gmap.
From S2P Require Import Prelude Varint Common Codes TrackName LocationFilter RangeFilter Properties MessageParameter CombinedFilter.
From S2P Require Import Control Subgroup Datagram FetchObject ObjectForms DataStream SeenObjects TrackCache SwitchingSet Controller Namespaces.
From S2P Require Import Streams Subscription Forwarding Tracks Parameters TrackTable Requests RequestTables Publishing.

(** * Wanted tracks *)

Definition origin_of (e : TrackEntry) : TrackOrigin := origin (upstream (te_track e)).
Definition raised (e : TrackEntry) : bool := upstream_forward (upstream (te_track e)).
(** Somebody wants Objects of the track. *)
Definition is_wanted (e : TrackEntry) : Prop :=
  exists id sub, get_subscription e id = Some sub /\ forward (subscription_state sub) = true.
Definition has_published (st : Requests) (name : FullTrackName) (c : Z) (p : Publish) : Prop :=
  publishes (table st) !! name ≫= (fun m => m !! c) = Some p.
Definition is_told (st : Requests) (c : Z) (p : Publish) : Prop :=
  publisher_forwards p = true \/ OUT_Forward (c, pub_request_id p) ∈ outputs st.

(** A track that nobody feeds is as a new one. *)
Definition at_rest (e : TrackEntry) : Prop := origin_of e = TO_CacheOnly -> raised e = false /\ aliases_of e = ∅.

(** [loud]: the track that may be wanted without its publishers having been asked. *)
Definition wanted_asked (loud : option FullTrackName) (st : Requests) : Prop :=
  forall name e, tracks (table st) !! name = Some e ->
    at_rest e /\ (loud <> Some name -> origin_of e = TO_Publish -> is_wanted e -> raised e = true).
Definition asked_told (st : Requests) : Prop :=
  forall name e c p, tracks (table st) !! name = Some e -> origin_of e = TO_Publish -> raised e = true -> is_Some (aliases_of e !! c) ->
    has_published st name c p -> (c, pub_request_id p) ∈ response_senders st -> is_told st c p.

Lemma wanted_iff e :
  has_forwarding_subscriber (fun id => match get_subscription e id with Some s => forward (subscription_state s) | None => false end) (te_track e) = true
  <-> is_wanted e.
Proof.
  unfold has_forwarding_subscriber, is_wanted. rewrite existsb_exists. split.
  - intros ([id n] & _ & H). simpl in H. destruct (get_subscription e id) as [sub|] eqn:E; [|done]. by exists id, sub.
  - intros (id & sub & E & H). pose proof E as E'. unfold get_subscription in E'. destruct (sm_subscriptions _ !! id) as [n|] eqn:En; [|done].
    exists (id, n). split; [|simpl; by rewrite E]. apply list_elem_of_In. by apply elem_of_map_to_list.
Qed.

(** * Calm steps *)

Record calm_entry (loud : bool) (e e' : TrackEntry) : Prop := {
  ce_rest : at_rest e -> at_rest e';
  ce_origin : origin_of e' = TO_Publish -> origin_of e = TO_Publish;
  ce_raised : origin_of e' = TO_Publish -> raised e' = raised e;
  ce_wanted : origin_of e' = TO_Publish -> loud = false -> is_wanted e' -> is_wanted e;
  ce_aliases : origin_of e' = TO_Publish -> forall c, is_Some (aliases_of e' !! c) -> is_Some (aliases_of e !! c)
}.
Definition is_new (e : TrackEntry) : Prop := at_rest e /\ origin_of e <> TO_Publish.

Record calm (loud : option FullTrackName) (st st' : Requests) : Prop := {
  cs_tracks : forall name e', tracks (table st') !! name = Some e' ->
    is_new e' \/ exists e, tracks (table st) !! name = Some e /\ calm_entry (bool_decide (loud = Some name)) e e';
  cs_publishes : forall name c p', has_published st' name c p' ->
    exists p, has_published st name c p /\ pub_request_id p' = pub_request_id p /\ publisher_forwards p' = publisher_forwards p;
  cs_senders : response_senders st' ⊆ response_senders st;
  cs_outputs : forall o, o ∈ outputs st -> o ∈ outputs st';
  cs_next : Z.odd (relay_next_request_id st) = true -> Z.odd (relay_next_request_id st') = true
}.

Lemma calm_entry_refl loud e : calm_entry loud e e.
Proof. by split. Qed.
Lemma calm_entry_trans loud e1 e2 e3 : calm_entry loud e1 e2 -> calm_entry loud e2 e3 -> calm_entry loud e1 e3.
Proof. intros [A1 B1 C1 D1 E1] [A2 B2 C2 D2 E2]. split; auto. intros H. rewrite (C2 H). auto. Qed.
Lemma calm_entry_new loud e e' : calm_entry loud e e' -> is_new e -> is_new e'.
Proof. intros [A B C D E] [H1 H2]. split; auto. Qed.

Lemma calm_refl loud st : calm loud st st.
Proof. split; try done; [|by eauto]. intros name e' H. right. exists e'. split; [done|apply calm_entry_refl]. Qed.
Lemma calm_trans loud st1 st2 st3 : calm loud st1 st2 -> calm loud st2 st3 -> calm loud st1 st3.
Proof.
  intros [A1 B1 C1 D1 E1] [A2 B2 C2 D2 E2]. split; [..|set_solver|auto|auto].
  - intros name e3 H3. destruct (A2 name e3 H3) as [Hn|(e2 & H2 & K2)]; [by left|]. destruct (A1 name e2 H2) as [Hn|(e1 & H1 & K1)].
    + left. by eapply calm_entry_new.
    + right. exists e1. split; [done|by eapply calm_entry_trans].
  - intros name c p3 H3. destruct (B2 _ _ _ H3) as (p2 & H2 & R2 & F2). destruct (B1 _ _ _ H2) as (p1 & H1 & R1 & F1).
    exists p1. split; [done|]. split; congruence.
Qed.
Lemma calm_entry_loud loud e e' : calm_entry false e e' -> calm_entry loud e e'.
Proof. intros []. split; auto. Qed.
Lemma calm_loud loud st st' : calm None st st' -> calm loud st st'.
Proof.
  intros [A B C D E]. split; auto. intros name e' H. destruct (A name e' H) as [Hn|(e & H1 & K)]; [by left|].
  right. exists e. split; [done|]. by apply calm_entry_loud.
Qed.

Lemma calm_wanted loud st st' : calm loud st st' -> wanted_asked loud st -> wanted_asked loud st'.
Proof.
  intros [A _ _ _ _] W name e' H. destruct (A name e' H) as [[Hr Hn]|(e & H1 & [R O F Wn _])]; [by split|].
  destruct (W name e H1) as [W1 W2]. split; [auto|]. intros Hl Ho Hw. rewrite F by done. apply W2; auto. apply Wn; auto.
  by apply bool_decide_eq_false.
Qed.
Lemma calm_told loud st st' : calm loud st st' -> asked_told st -> asked_told st'.
Proof.
  intros [A B C D _] T name e' c p' H Ho Hf Ha Hp Hs. destruct (A name e' H) as [[Hr Hn]|(e & H1 & [R O F Wn Al])]; [done|].
  destruct (B _ _ _ Hp) as (p & Hp1 & Er & Ef). unfold is_told. rewrite Er, Ef in *. rewrite F in Hf by done.
  destruct (T name e c p H1 (O Ho) Hf (Al Ho c Ha) Hp1 (C _ Hs)) as [?|?]; [by left|right; auto].
Qed.

(** Steps that leave the tracks alone. *)
Lemma calm_same loud st st' : table st' = table st -> response_senders st' ⊆ response_senders st ->
  (forall o, o ∈ outputs st -> o ∈ outputs st') -> relay_next_request_id st' = relay_next_request_id st -> calm loud st st'.
Proof.
  intros Et Es Eo En. split; [|unfold has_published; rewrite Et; by eauto|done|done|by rewrite En]. intros name e' H. rewrite Et in H. right.
  exists e'. split; [done|apply calm_entry_refl].
Qed.
Ltac calm_same := apply calm_same; [done|done|intros; first [done|by apply elem_of_app; left]|done].

Lemma quiet_calm loud e e' : calm_entry loud e e' -> calm_entry loud e (quiet e').
Proof. intros [A B C D E]. by split. Qed.
Lemma calm_put loud st name e e' : tracks (table st) !! name = Some e -> calm_entry (bool_decide (loud = Some name)) e e' ->
  calm loud st (put_track st name e').
Proof.
  intros He Hc. split; try done; [|by eauto]. intros n x. change (tracks (table (put_track st name e'))) with (<[name := quiet e']> (tracks (table st))).
  rewrite lookup_insert_Some. intros [[<- <-]|[_ H]]; right; [exists e; split; [done|by apply quiet_calm]|exists x; split; [done|apply calm_entry_refl]].
Qed.

(** Less is held, by fewer publishers. *)
Lemma calm_shrink loud e e' : origin_of e' = origin_of e -> raised e' = raised e -> te_subscriptions e' = te_subscriptions e ->
  held e' ⊆ held e -> (forall c, is_Some (aliases_of e' !! c) -> is_Some (aliases_of e !! c)) -> calm_entry loud e e'.
Proof.
  intros Eo Er Es Hh Ha. split; try done.
  - unfold at_rest. rewrite Eo, Er. intros H [H1 H2]%H. split; [done|]. apply map_empty. intros c. apply eq_None_not_Some. intros Hc%Ha.
    rewrite H2 in Hc. by destruct Hc.
  - by rewrite Eo.
  - intros _ _ (id & sub & Hg & Hf). exists id, sub. split; [|done]. unfold get_subscription in *. rewrite Es in Hg. fold (held e) (held e') in *.
    destruct (held e' !! id) as [n|] eqn:En; [|done]. by rewrite (lookup_weaken _ _ _ _ En Hh).
Qed.

(** ** Tables *)

Lemma calm_table loud st tm : (forall name e, tracks tm !! name = Some e -> tracks (table st) !! name = Some e) ->
  (forall name c p, publishes tm !! name ≫= (fun m => m !! c) = Some p -> has_published st name c p) -> calm loud st (with_table st tm).
Proof.
  intros Ht Hp. split; try done; [|intros name c p H; exists p; split; [by apply Hp|done]]. intros name e H. right. exists e.
  split; [by apply Ht|apply calm_entry_refl].
Qed.
Lemma remove_alias_publishes tm c a name c' p :
  publishes (remove_publisher_alias tm c a) !! name ≫= (fun m => m !! c') = Some p -> publishes tm !! name ≫= (fun m => m !! c') = Some p.
Proof.
  unfold remove_publisher_alias. destruct (track_aliases tm !! (c, a)) as [n|]; [|done]. simpl.
  destruct (decide (n = name)) as [->|Hn]; [rewrite lookup_alter_eq|by rewrite lookup_alter_ne].
  destruct (publishes tm !! name) as [m|]; [|done]. simpl. by intros [_ H]%lookup_delete_Some.
Qed.
Lemma calm_remove_alias loud st c a : calm loud st (with_table st (remove_publisher_alias (table st) c a)).
Proof. apply calm_table; [by intros; rewrite <- (remove_alias_tracks _ c a)|]. intros name c' p. apply remove_alias_publishes. Qed.
Lemma calm_clean_up loud st name cl : calm loud st (with_table st (clean_up (table st) name cl)).
Proof.
  destruct cl as [|l|]; simpl.
  - calm_same.
  - assert (forall tm, (forall n e, tracks tm !! n = Some e -> tracks (table st) !! n = Some e) ->
      (forall n c p, publishes tm !! n ≫= (fun m => m !! c) = Some p -> has_published st n c p) ->
      calm loud st (with_table st (fold_left (fun tm (a : Z * Z) => remove_publisher_alias tm (fst a) (snd a)) l tm))) as H; [|by apply H].
    induction l as [|x l IH]; intros tm H1 H2; [by apply calm_table|]. simpl. apply IH.
    + intros n e. rewrite remove_alias_tracks. apply H1.
    + intros n c p H%remove_alias_publishes. by apply H2.
  - apply calm_table; unfold remove_track; simpl.
    + intros n e. destruct (tracks (table st) !! name); simpl; [|done]. by intros [_ H]%lookup_delete_Some.
    + intros n c p. unfold has_published. destruct (tracks (table st) !! name); simpl;
        (destruct (decide (name = n)) as [->|Hn]; [by rewrite lookup_delete_eq|by rewrite lookup_delete_ne]).
Qed.

(** * The handlers of requests *)

Lemma calm_put_quiet loud st name e e' : tracks (table st) !! name = Some (quiet e) -> calm_entry (bool_decide (loud = Some name)) e e' ->
  calm loud st (put_track st name e').
Proof. intros He [A B C D E]. eapply calm_put; [exact He|]. by split. Qed.
Lemma put_track_at st name e : tracks (table (put_track st name e)) !! name = Some (quiet e).
Proof. apply lookup_insert_eq. Qed.

Lemma calm_fold {A} loud (f : Requests -> A -> Requests) l st : (forall st x, calm loud st (f st x)) -> calm loud st (fold_left f l st).
Proof. intros Hf. revert st. induction l as [|x l IH]; intros st; [apply calm_refl|]. simpl. eapply calm_trans; [apply Hf|apply IH]. Qed.

Lemma send_response_calm loud st id a : calm loud st (fst (send_response st id a)).
Proof. unfold send_response. case_bool_decide; simpl; [calm_same|apply calm_refl]. Qed.
Lemma answer_all_calm loud a l st : calm loud st (answer_all a l st).
Proof. apply calm_fold. intros. apply send_response_calm. Qed.
Lemma answer_ok_calm loud name params id st : calm loud st (answer_ok name params id st).
Proof.
  unfold answer_ok. destruct (tracks (table st) !! name) as [e|]; [|apply calm_refl]. destruct (get_subscription e id); [|apply calm_refl].
  match goal with |- context [send_response st id ?a] => pose proof (send_response_calm loud st id a) as H; destruct (send_response st id a) as [st1 d] end.
  simpl in H. destruct d; [|done]. eapply calm_trans; [exact H|calm_same].
Qed.
Lemma remove_sets_calm loud st name e : calm loud st (remove_from_subscriber_switching_sets st name e).
Proof. calm_same. Qed.

Lemma taken_calm loud e c : calm_entry loud e (set_track e (fst (remove_publisher_quietly (te_track e) c))).
Proof.
  unfold remove_publisher_quietly, take_publisher. simpl. apply calm_shrink; try done. intros c'. unfold aliases_of. simpl.
  intros [a [_ H]%lookup_delete_Some]. by exists a.
Qed.
Lemma notify_calm loud e code reason : calm_entry loud e (set_track e (notify_publish_done (te_track e) code reason)).
Proof. by apply calm_shrink. Qed.
Lemma answered_calm loud e : calm_entry loud e (set_track e (with_upstream (te_track e) (fst (upstream_subscribe_answered (upstream (te_track e)))))).
Proof. apply calm_shrink; try done; unfold origin_of, raised, aliases_of; simpl; unfold upstream_subscribe_answered; by destruct (0 <? _). Qed.

Lemma remove_upstream_calm loud st name e c : tracks (table st) !! name = Some (quiet e) ->
  let '(st', e', _) := remove_upstream_publisher st name e c in
  calm loud st st' /\ tracks (table st') !! name = Some (quiet e').
Proof.
  intros He. unfold remove_upstream_publisher. pose proof (taken_calm (bool_decide (loud = Some name)) e c) as Ht.
  destruct (remove_publisher_quietly (te_track e) c) as [t still]. simpl in Ht.
  assert (H1 : calm loud st (put_track st name (set_track e t))) by (by eapply calm_put_quiet).
  destruct (publisher_aliases _ !! c) as [a|]; [|split; [done|apply put_track_at]]. split.
  - eapply calm_trans; [exact H1|apply calm_remove_alias].
  - simpl. rewrite remove_alias_tracks. apply put_track_at.
Qed.

Lemma new_calm loud e e' : is_new e' -> calm_entry loud e e'.
Proof. intros [H1 H2]. by split. Qed.

Lemma retired_calm loud gone e : calm_entry loud e (set_track e (fst (fst (retire gone (te_track e))))).
Proof.
  unfold retire, become_cache_only. destruct (is_empty _); simpl; [destruct e; by apply calm_shrink|]. apply new_calm. split; [by split|done].
Qed.
Lemma retire_calm loud st name : calm loud st (retire_in st name).
Proof.
  unfold retire_in. destruct (tracks (table st) !! name) as [e|] eqn:E; [|apply calm_refl].
  pose proof (retired_calm (bool_decide (loud = Some name)) (gone st) e) as H. destruct (retire _ _) as [[t cl] ids]. simpl in H.
  eapply calm_trans; [by eapply calm_put|apply calm_clean_up].
Qed.

(** The status and the subscribers that wait matter to nobody here. *)
Lemma aside_calm loud e u l : origin u = origin_of e -> upstream_forward u = raised e -> publisher_aliases u = aliases_of e ->
  calm_entry loud e (set_pending (set_track e (with_upstream (te_track e) u)) l).
Proof. intros Ho Hr Ha. apply calm_shrink; try done. intros c. change (is_Some (publisher_aliases u !! c) -> is_Some (aliases_of e !! c)). by rewrite Ha. Qed.

Lemma error_message_calm loud st request_id code phrase : calm loud st (handle_subscribe_error_message st request_id code phrase).
Proof.
  unfold handle_subscribe_error_message. destruct (relay_pending_requests st !! request_id) as [req|]; [|apply calm_refl].
  set (st1 := with_pending_requests st _). eapply (calm_trans loud st st1); [calm_same|]. clearbody st1.
  set (name := Subscribe_get_full_track_name _). destruct (tracks (table st1) !! name) as [e|] eqn:E; [|apply send_response_calm].
  case_bool_decide; [calm_same|].
  set (e1 := set_track e (reject _ _ _)). eapply (calm_trans _ _ (put_track st1 name e1)); [eapply calm_put; [exact E|by apply calm_shrink]|].
  set (st2 := fst (send_response _ _ _)). eapply (calm_trans _ _ st2); [apply send_response_calm|].
  assert (E2 : tracks (table st2) !! name = Some (quiet e1)) by (subst st2; rewrite send_response_table; apply put_track_at). clearbody st2.
  eapply calm_trans; [eapply calm_put_quiet; [exact E2|]; by apply (calm_shrink _ e1 (set_pending e1 []))|].
  eapply calm_trans; [apply answer_all_calm|apply retire_calm].
Qed.

Lemma end_upstream_calm loud st request_id c name code phrase status :
  calm loud st (end_upstream_subscription st request_id c name code phrase status).
Proof.
  unfold end_upstream_subscription. destruct (tracks (table st) !! name) as [e|] eqn:E; [|apply error_message_calm].
  pose proof (answered_calm (bool_decide (loud = Some name)) e) as Ha. destruct (upstream_subscribe_answered _) as [u remaining]. simpl in Ha.
  set (e1 := set_track e _) in *. eapply (calm_trans _ _ (put_track st name e1)); [by eapply calm_put|].
  destruct (negb _); [destruct (0 <? remaining); [apply calm_refl|apply error_message_calm]|].
  pose proof (remove_upstream_calm loud (put_track st name e1) name e1 c (put_track_at _ _ _)) as H.
  destruct (remove_upstream_publisher _ name e1 c) as [[st2 e2] still]. destruct H as [H2 E2]. destruct still; [exact H2|].
  eapply calm_trans; [exact H2|]. eapply calm_trans; [apply remove_sets_calm|]. eapply calm_put_quiet; [exact E2|apply notify_calm].
Qed.

(** A SUBSCRIBE_OK, unless publishers have made the track their own since. *)
Definition published_since (st : Requests) (request_id : Z) : bool :=
  match relay_pending_requests st !! request_id with
  | Some r =>
      match tracks (table st) !! Subscribe_get_full_track_name (original_subscribe_request r) with
      | Some e => bool_decide (origin_of e = TO_Publish)
      | None => false
      end
  | None => false
  end.
Lemma ok_message_calm loud st publisher request_id msg st' : published_since st request_id = false ->
  handle_subscribe_ok_message st publisher request_id msg = Ok st' -> calm loud st st'.
Proof.
  unfold handle_subscribe_ok_message, published_since. destruct (relay_pending_requests st !! request_id) as [req|]; [|intros _ [= <-]; apply calm_refl].
  set (name := Subscribe_get_full_track_name _). destruct (has_unsupported_mandatory _); [intros _ [= <-]; apply error_message_calm|].
  destruct (tracks (table st) !! name) as [e|] eqn:E; [|intros _ [= <-]; apply calm_refl]. intros Ho%bool_decide_eq_false.
  case_bool_decide as Hc; [intros [= <-]; apply calm_refl|].
  destruct (add_track_alias _ _ _ _) as [tm added] eqn:Ea. destruct (negb added); [done|].
  set (st1 := with_table st tm). assert (H1 : calm loud st st1).
  { apply calm_table; unfold add_track_alias in Ea; destruct (track_aliases (table st) !! _); injection Ea as <- _; by unfold has_published. }
  assert (E1 : tracks (table st1) !! name = Some e) by (subst st1; unfold add_track_alias in Ea; destruct (track_aliases (table st) !! _); by injection Ea as <- _).
  clearbody st1. destruct (confirm _ _ _ _ _) as [t now] eqn:Et. destruct (upstream_subscribe_answered (upstream t)) as [u remaining] eqn:Eu.
  set (e1 := set_track e (with_upstream t u)).
  assert (Eo : origin_of e1 = origin_of e).
  { unfold e1, origin_of. simpl. unfold upstream_subscribe_answered in Eu. unfold confirm in Et.
    destruct (status _); injection Et as <- _; destruct (0 <? _); by injection Eu as <- _. }
  assert (Hn : is_new e1) by (split; [unfold at_rest|]; by rewrite Eo). clearbody e1.
  assert (H2 : calm loud st (put_track st1 name e1)) by (eapply calm_trans; [exact H1|]; eapply calm_put; [exact E1|by apply new_calm]).
  destruct (negb now); [by intros [= <-]|]. intros [= <-]. eapply calm_trans; [exact H2|].
  set (st3 := answer_ok _ _ _ _). assert (E3 : tracks (table st3) !! name = Some (quiet e1)) by (subst st3; rewrite answer_ok_table; apply put_track_at).
  eapply (calm_trans _ _ st3); [apply answer_ok_calm|]. clearbody st3.
  eapply calm_trans; [eapply calm_put_quiet; [exact E3|]; by apply (calm_shrink _ e1 (set_pending e1 []))|].
  apply calm_fold. intros. apply answer_ok_calm.
Qed.

Lemma end_exchange_calm loud st r : calm loud st (end_exchange st r).
Proof. calm_same. Qed.
Lemma ended_calm loud st request_id c name code phrase status r :
  calm loud st (end_exchange (end_upstream_subscription st request_id c name code phrase status) r).
Proof. eapply calm_trans; [apply end_upstream_calm|apply end_exchange_calm]. Qed.

Lemma opened_calm loud st r x sent malformed : calm loud st (exchange_opened st r x sent malformed).
Proof.
  unfold exchange_opened. destruct (negb sent); [apply ended_calm|]. destruct (tracks (table st) !! x_name x) as [e|] eqn:E; [|calm_same].
  set (st1 := set_exchange st r _). eapply (calm_trans _ _ st1); [calm_same|]. eapply calm_put; [exact E|].
  destruct malformed; [by apply calm_shrink|]. destruct (Nat.eqb _ 0); by apply calm_shrink.
Qed.
Lemma publish_done_calm loud st x m : calm loud st (upstream_publish_done st x m).
Proof.
  unfold upstream_publish_done. destruct (tracks (table st) !! x_name x) as [e|] eqn:E; [|apply calm_refl].
  pose proof (taken_calm (bool_decide (loud = Some (x_name x))) e (x_publisher x)) as H. destruct (remove_publisher_quietly _ _) as [t still]. simpl in H.
  set (e1 := set_track e t) in *. eapply (calm_trans _ _ (put_track st (x_name x) e1)); [by eapply calm_put|]. destruct still; [apply calm_refl|].
  eapply calm_trans; [apply remove_sets_calm|]. eapply (calm_put_quiet _ _ _ e1); [apply put_track_at|apply notify_calm].
Qed.
Lemma message_calm loud st r x msg : (match msg with UM_SubscribeOk _ => published_since st r | _ => false end) = false ->
  calm loud st (exchange_message st r x msg).
Proof.
  intros Hp. unfold exchange_message. set (st1 := set_exchange st r _). eapply (calm_trans loud st st1); [calm_same|].
  destruct msg; try apply ended_calm.
  - assert (Hp1 : published_since st1 r = false) by done.
    destruct (handle_subscribe_ok_message st1 (x_publisher x) r m) as [st2| | |] eqn:E;
      [by eapply ok_message_calm|..]; (eapply calm_trans; [apply ended_calm|calm_same]).
  - eapply calm_trans; [apply publish_done_calm|apply end_exchange_calm].
  - eapply calm_trans; [apply ended_calm|calm_same].
Qed.
Lemma cancelled_calm loud st r x : calm loud st (exchange_cancelled st r x).
Proof.
  unfold exchange_cancelled. eapply calm_trans; [|apply end_exchange_calm]. destruct (tracks (table st) !! x_name x) as [e|] eqn:E; [|apply calm_refl].
  case_bool_decide.
  - unfold remove_upstream_publisher. pose proof (taken_calm (bool_decide (loud = Some (x_name x))) e (x_publisher x)) as H1.
    destruct (remove_publisher_quietly _ _) as [t still]. simpl in H1. assert (calm loud st (put_track st (x_name x) (set_track e t))) by (by eapply calm_put).
    destruct (publisher_aliases _ !! _); [|done]. eapply calm_trans; [done|apply calm_remove_alias].
  - eapply calm_put; [exact E|apply answered_calm].
Qed.

Lemma held_left m id : sm_subscriptions (fst (sm_remove_subscription m id)) ⊆ sm_subscriptions m.
Proof. apply delete_subseteq. Qed.
Lemma left_calm loud gone e id : calm_entry loud e (set_track e (fst (fst (remove_subscriber gone (te_track e) id)))).
Proof.
  unfold remove_subscriber. destruct (sm_remove_subscription (manager (te_track e)) id) as [m c] eqn:E.
  assert (Hm : sm_subscriptions m ⊆ held e) by (unfold held; pose proof (held_left (manager (te_track e)) id) as H; by rewrite E in H).
  destruct (negb (Nat.eqb _ 0)); [by apply calm_shrink|]. destruct (negb (bool_decide _)); [by apply calm_shrink|].
  match goal with |- context [become_cache_only gone ?t] => destruct (become_cache_only gone t) as [t' cl] eqn:Eb end. simpl.
  unfold become_cache_only in Eb. destruct (is_empty _); injection Eb as <- <-; [by apply calm_shrink|]. apply new_calm. split; [by split|done].
Qed.
Lemma cancel_subscription_calm loud st id : calm loud st (cancel_subscription st id).
Proof.
  unfold cancel_subscription. destruct (subscribe_requests st !! id) as [req|]; [|apply calm_refl].
  set (name := Subscribe_get_full_track_name _). set (st1 := with_ssts st _). eapply (calm_trans loud st st1); [calm_same|].
  destruct (tracks (table st1) !! name) as [e|] eqn:E; [|calm_same]. destruct (negb _); [calm_same|].
  pose proof (left_calm (bool_decide (loud = Some name)) (gone st1) e id) as H. destruct (remove_subscriber _ _ _) as [[t cl] c]. simpl in H.
  eapply calm_trans; [by eapply calm_put|]. eapply calm_trans; [apply calm_clean_up|]. calm_same.
Qed.
Lemma rejected_calm loud st name id : calm loud st (reject_subscription st name id).
Proof.
  unfold reject_subscription. destruct (tracks (table st) !! name) as [e|] eqn:E; [|apply calm_refl]. eapply calm_put; [exact E|].
  apply calm_shrink; try done. apply held_left.
Qed.

(** * Asking the publishers *)

Lemma odd_next n : Z.odd n = true -> Z.odd (wrap64 (n + 2)) = true.
Proof.
  intros H. unfold wrap64. rewrite <- Z.bit0_odd in *. change U64 with (2 ^ 64). rewrite <- Z.land_ones, Z.land_spec, Z.bit0_odd by lia.
  rewrite Z.odd_add. rewrite Z.bit0_odd in H. rewrite H. done.
Qed.

Record state_inv (loud : option FullTrackName) (used : list SubscriptionId) (st : Requests) : Prop := {
  si_wanted : wanted_asked loud st;
  si_told : asked_told st;
  si_used : forall name c p, has_published st name c p -> (c, pub_request_id p) ∈ used /\ Z.even (pub_request_id p) = true;
  si_next : Z.odd (relay_next_request_id st) = true
}.

Lemma calm_inv loud used st st' : calm loud st st' -> state_inv loud used st -> state_inv loud used st'.
Proof.
  intros Hc [W T U N]. split.
  - by eapply calm_wanted.
  - by eapply calm_told.
  - intros name c p' Hp. destruct (cs_publishes _ _ _ Hc _ _ _ Hp) as (p & Hp1 & -> & _). by eapply U.
  - by apply (cs_next _ _ _ Hc).
Qed.
Lemma inv_loud loud used st : state_inv None used st -> state_inv loud used st.
Proof. intros [W T U N]. split; try done. intros name e H. destruct (W name e H) as [H1 H2]. split; [done|]. intros _. by apply H2. Qed.
Lemma inv_used loud used used' st : used ⊆ used' -> state_inv loud used st -> state_inv loud used' st.
Proof. intros Hs [W T U N]. split; try done. intros name c p Hp. destruct (U _ _ _ Hp). split; [by apply Hs|done]. Qed.
Lemma inv_sender loud used st id : (forall name c p, has_published st name c p -> id <> (c, pub_request_id p)) ->
  state_inv loud used st -> state_inv loud used (with_senders st ({[id]} ∪ response_senders st)).
Proof.
  intros Hid [W T U N]. split; try done. intros name e c p He Ho Hr Ha Hp Hs. eapply (T name e c p); try done.
  simpl in Hs. apply elem_of_union in Hs as [Hs%elem_of_singleton|Hs]; [|done]. by destruct (Hid name c p Hp).
Qed.

Lemma forwarding_asks name l st : let st' := fold_left (fun st connection_id =>
    match get_publish_request_id (table st) name connection_id with
    | None => st
    | Some request_id =>
        let st := with_next_id st (wrap64 (relay_next_request_id st + 2)) in
        if bool_decide ((connection_id, request_id) ∈ response_senders st) then put_out st [OUT_Forward (connection_id, request_id)] else st
    end) l st in
  response_senders st' = response_senders st /\ (forall o, o ∈ outputs st -> o ∈ outputs st') /\
  (Z.odd (relay_next_request_id st) = true -> Z.odd (relay_next_request_id st') = true) /\
  forall c r, c ∈ l -> get_publish_request_id (table st) name c = Some r -> (c, r) ∈ response_senders st -> OUT_Forward (c, r) ∈ outputs st'.
Proof.
  simpl. revert st. induction l as [|c l IH]; intros st; [split_and!; try done; intros c r H; by apply elem_of_nil in H|]. simpl.
  set (st1 := match get_publish_request_id (table st) name c with None => st | Some _ => _ end).
  assert (E : table st1 = table st /\ response_senders st1 = response_senders st /\ (forall o, o ∈ outputs st -> o ∈ outputs st1) /\
    (Z.odd (relay_next_request_id st) = true -> Z.odd (relay_next_request_id st1) = true) /\
    forall r, get_publish_request_id (table st) name c = Some r -> (c, r) ∈ response_senders st -> OUT_Forward (c, r) ∈ outputs st1).
  { subst st1. destruct (get_publish_request_id _ _ _) as [r|]; [|by split_and!]. case_bool_decide; split_and!; try done.
    - intros o Ho. by apply elem_of_app; left.
    - apply odd_next.
    - intros r' [= <-] _. apply elem_of_app. right. by left.
    - apply odd_next.
    - by intros r' [= <-]. }
  destruct E as (Et & Es & Eo & En & Ec). clearbody st1. destruct (IH st1) as (H1 & H2 & H3 & H4). split_and!; [congruence|auto|auto|].
  intros c' r [-> | Hl]%elem_of_cons Hr Hs; [apply H2; by apply Ec|]. apply H4; [done|by rewrite Et|by rewrite Es].
Qed.

Lemma ensure_asks used st name : state_inv (Some name) used st -> state_inv None used (ensure_upstream_forwarding st name).
Proof.
  intros [W T U N]. unfold ensure_upstream_forwarding.
  assert (Hkeep : (forall e, tracks (table st) !! name = Some e -> origin_of e = TO_Publish -> is_wanted e -> raised e = true) -> state_inv None used st).
  { intros H. split; try done. intros n e He. destruct (W n e He) as [W1 W2]. split; [done|]. intros _. destruct (decide (n = name)) as [->|Hn]; [by apply H|].
    apply W2. congruence. }
  destruct (tracks (table st) !! name) as [e|] eqn:E; [|by apply Hkeep].
  case_bool_decide as Ho; [|apply Hkeep; by intros ? [= <-]]. simpl.
  destruct (has_forwarding_subscriber _ _) eqn:Ew; [|apply Hkeep; intros ? [= <-] _ Hw%wanted_iff; by rewrite Ew in Hw].
  destruct (upstream_forward _) eqn:Er; [apply Hkeep; by intros ? [= <-]|]. simpl.
  set (e1 := set_track e (with_upstream (te_track e) (mkUpstream _ _ _ _ _ _ _))). set (st1 := put_track st name e1).
  set (l := map fst (map_to_list (publisher_aliases (upstream (te_track e))))).
  pose proof (forwarding_table st1 name l) as Et. destruct (forwarding_asks name l st1) as (Es & Eo & En & Ef).
  set (st2 := fold_left _ _ _) in *. assert (H1 : tracks (table st1) = <[name := quiet e1]> (tracks (table st))) by done. split.
  - intros n x. rewrite Et, H1, lookup_insert_Some. intros [[<- <-]|[Hn Hx]].
    + split; [|done]. unfold at_rest. intros Hc. change (origin_of (quiet e1)) with (origin_of e) in Hc. unfold origin_of in Hc. congruence.
    + destruct (W n x Hx) as [W1 W2]. split; [done|]. intros _. apply W2. congruence.
  - intros n x c p. rewrite Et, H1, lookup_insert_Some. unfold has_published. rewrite Et. change (publishes (table st1)) with (publishes (table st)).
    rewrite Es. intros [[<- <-]|[Hn Hx]] Hox Hrx Hal Hp Hs.
    + right. apply Ef; [|unfold get_publish_request_id; change (publishes (table st1)) with (publishes (table st)); by rewrite Hp|done].
      destruct Hal as [a Ha]. apply list_elem_of_fmap. exists (c, a). split; [done|]. by apply elem_of_map_to_list.
    + destruct (T n x c p Hx Hox Hrx Hal Hp Hs) as [?|Hd]; [by left|right]. by apply Eo.
  - intros n c p. unfold has_published. rewrite Et. apply U.
  - auto.
Qed.

(** * SUBSCRIBE *)

Lemma grown_calm e e' : origin_of e' = origin_of e -> raised e' = raised e -> aliases_of e' = aliases_of e -> calm_entry true e e'.
Proof. intros Ho Hr Ha. split; [|congruence|done|done|by rewrite Ha]. unfold at_rest. by rewrite Ho, Hr, Ha. Qed.

(** The entry that a handler finds or makes. *)
Lemma created_calm loud st name f tm e created : get_or_create_track (table st) name f = (tm, e, created) ->
  (forall n, is_new (mkEntry (f n) [] [])) ->
  calm loud st (with_table st tm) /\ tracks tm !! name = Some e /\ (created = true -> is_new e).
Proof.
  unfold get_or_create_track. intros H Hf. destruct (tracks (table st) !! name) as [x|] eqn:E; simpl in H.
  - injection H as <- <- <-. split_and!; [calm_same|done|done].
  - injection H as <- <- <-. split_and!; [|apply lookup_insert_eq|by intros]. split; try done; [|by eauto]. intros n x. simpl.
    rewrite lookup_insert_Some. intros [[<- <-]|[_ H]]; [by left|right; exists x; split; [done|apply calm_entry_refl]].
Qed.
Lemma taken_over_calm loud e o s : o <> TO_Publish -> o <> TO_CacheOnly ->
  calm_entry loud e (set_track e (with_upstream (te_track e) (fst (take_over (upstream (te_track e)) o s)))).
Proof.
  intros H1 H2. unfold take_over. case_bool_decide; simpl; [|by apply calm_shrink]. apply new_calm. by split.
Qed.

Lemma joined_entry e u c o alias t s n `{Target} : Tracks.add_subscription (with_upstream (te_track e) u) c o alias = Ok (Some (t, s, n)) ->
  upstream t = u.
Proof.
  unfold Tracks.add_subscription. intros (s0 & _ & E)%obind_Ok_inv. destruct (sm_add_subscription _ _) as [[m k]|]; [|done]. by injection E as <- _ _.
Qed.
Lemma join_track_calm `{Target} config st c sub st' creator s : join_track config st c sub = Ok (st', creator, s) ->
  calm (Some (Subscribe_get_full_track_name sub)) st st'.
Proof.
  unfold join_track. set (name := Subscribe_get_full_track_name sub). destruct (get_or_create_track _ _ _) as [[tm e] created] eqn:Ec.
  destruct (created_calm (Some name) _ _ _ _ _ _ Ec) as (H1 & Ee & _); [by intros; split|].
  pose proof (taken_over_calm true e TO_Subscribe TS_Pending) as Ht. destruct (take_over _ _ _) as [u taken]. simpl in Ht. specialize (Ht ltac:(done) ltac:(done)).
  destruct (pick_track_alias _ _ _) as [alias next]. intros (joined & Ej & Hj)%obind_Ok_inv.
  set (st1 := with_next_alias _ _) in *. assert (H2 : calm (Some name) st st1) by (eapply calm_trans; [exact H1|calm_same]).
  assert (E1 : tracks (table st1) !! name = Some e) by done. clearbody st1.
  destruct joined as [[[t s0] n]|]; injection Hj as <- _ _; (eapply calm_trans; [exact H2|]); (eapply calm_put; [exact E1|]);
    rewrite bool_decide_eq_true_2 by done; [|done]. apply joined_entry in Ej. eapply calm_entry_trans; [exact Ht|].
  apply grown_calm; unfold origin_of, raised, aliases_of; simpl; by rewrite Ej.
Qed.
(** One that joined and is refused after all. *)
Lemma join_refused_calm `{Target} config st c sub st' creator s : tables_ok (table st) -> room st ->
  join_track config st c sub = Ok (st', creator, Some s) ->
  calm None st (reject_subscription st' (Subscribe_get_full_track_name sub) (c, sub_request_id sub)).
Proof.
  intros Ht Hr. unfold join_track. set (name := Subscribe_get_full_track_name sub).
  pose proof (create_ok (table st) name (dedup_retained_groups config) Ht Hr) as Hc.
  destruct (get_or_create_track _ _ _) as [[tm e] created] eqn:Ec. destruct Hc as (Htm & Ee & _).
  destruct (created_calm None _ _ _ _ _ _ Ec) as (H1 & _ & _); [by intros; split|].
  pose proof (taken_over_calm false e TO_Subscribe TS_Pending) as Hk. pose proof (take_over_aliases (upstream (te_track e)) TO_Subscribe TS_Pending) as Hu.
  destruct (take_over _ _ _) as [u taken]. simpl in Hk, Hu. specialize (Hk ltac:(done) ltac:(done)).
  destruct (pick_track_alias _ _ _) as [alias next]. intros ([[[t s0] n]|] & Ej & Hj)%obind_Ok_inv; [|done]. injection Hj as <- _ <-.
  apply (add_subscription_entry e u) in Ej as (Hs & Hsub & Hfr & -> & Eu & _); [|by eapply tk_entries|done].
  unfold reject_subscription. rewrite put_track_at. set (st1 := with_next_alias _ _).
  assert (H2 : calm None st st1) by (eapply calm_trans; [exact H1|calm_same]). eapply calm_trans; [exact H2|].
  assert (E1 : tracks (table st1) !! name = Some e) by done. clearbody st1. clear H1 H2.
  set (ex := mkEntry t _ _). set (e2 := set_track (quiet ex) _).
  assert (Hce : calm_entry false e e2).
  { eapply calm_entry_trans; [exact Hk|]. split; unfold at_rest, origin_of, raised, aliases_of; simpl; rewrite ?Eu; try done.
    intros _ _ (id & sb & Hg & Hf). exists id, sb. split; [|done]. revert Hg. unfold get_subscription. simpl. rewrite Hsub.
    rewrite delete_insert_id by done. fold (held e). destruct (held e !! id) as [k|] eqn:Ek; [|done].
    pose proof (tk_entries _ Htm _ _ Ee) as [Hm Hl _]. apply (mo_bound _ Hm) in Ek. rewrite lookup_app_l by lia. done. }
  split; try done; [|by eauto]. intros m x Hx. right. change (tracks (table (put_track (put_track st1 name ex) name e2)) !! m = Some x) in Hx.
  change (tracks (table (put_track (put_track st1 name ex) name e2))) with (<[name := quiet e2]> (<[name := quiet ex]> (tracks (table st1)))) in Hx.
  rewrite insert_insert_eq, lookup_insert_Some in Hx. destruct Hx as [[<- <-]|[_ Hx]]; [|exists x; split; [done|apply calm_entry_refl]].
  exists e. split; [done|]. apply quiet_calm. exact Hce.
Qed.

Lemma set_subscription_calm e id s : calm_entry true e (set_subscription e id s).
Proof. unfold set_subscription. destruct (sm_subscriptions _ !! id); [by apply grown_calm|apply calm_entry_refl]. Qed.
Lemma settle_calm st name id s assigned : calm (Some name) st (settle_switching_set st name id s assigned).
Proof.
  unfold settle_switching_set. destruct assigned as [s'|]; [|apply calm_refl]. destruct (tracks (table st) !! name) as [e|] eqn:E; [|apply calm_refl].
  eapply (calm_trans _ _ (with_ssts st (<[id.1:=s']> (ssts st)))); [calm_same|]. eapply calm_put; [exact E|].
  rewrite bool_decide_eq_true_2 by done. apply set_subscription_calm.
Qed.
Lemma asked_calm loud name req l st : calm loud st (fold_left (subscribe_upstream name req) l st).
Proof. apply calm_fold. clear. intros st p. split; try done; [|by eauto|apply odd_next]. intros n e H. right. exists e. split; [done|apply calm_entry_refl]. Qed.
Lemma put_out_calm loud st o : calm loud st (put_out st o).
Proof. calm_same. Qed.
Lemma serve_calm loud st id sub creator switching publishers reached :
  calm loud st (serve_subscription st id sub creator switching publishers reached).
Proof.
  unfold serve_subscription. set (name := Subscribe_get_full_track_name sub). destruct (tracks (table st) !! name) as [e|] eqn:E; [|apply calm_refl].
  destruct creator; [eapply calm_trans; [|apply asked_calm]; eapply calm_put; [exact E|by apply calm_shrink]|].
  destruct (status _).
  - eapply calm_put; [exact E|by apply calm_shrink].
  - destruct (get_subscription e id); [|apply calm_refl]. destruct reached; [|apply calm_refl]. unfold answer_now. eapply calm_trans; apply put_out_calm.
  - destruct reached; [calm_same|apply calm_refl].
Qed.

Lemma subscribe_inv `{Target} config used st c sub publishers st' : tables_ok (table st) -> room st ->
  state_inv None used st -> handle_subscribe_message config st c sub publishers true = Ok st' -> state_inv None used st'.
Proof.
  intros Ht Hr Hi. unfold handle_subscribe_message. set (name := Subscribe_get_full_track_name sub). set (id := (c, _)).
  assert (Href : forall st1 code st', calm None st st1 -> refuse st1 id true code = Ok st' -> state_inv None used st').
  { intros st1 code st2 H1 [= <-]. eapply calm_inv; [|exact Hi]. eapply calm_trans; [exact H1|calm_same]. }
  pose proof (calm_refl None st) as Hrefl.
  destruct (object_filter _ _); try done; [|by eapply Href]. destruct (plan_switch _ _ _ _ _) as [plan| | |]; try by eapply Href.
  destruct (is_some (reserved_namespace_rejection _ _)); [by eapply Href|].
  destruct publishers as [|p publishers]; [intros [= <-]; eapply calm_inv; [|exact Hi]; calm_same|].
  intros ([[st1 creator] s] & Ej%lift_panics_Ok & H1)%obind_Ok_inv.
  pose proof (join_track_calm _ _ _ _ _ _ _ Ej) as Hj. destruct s as [s|].
  2: { revert H1. apply Href. unfold join_track in Ej. destruct (get_or_create_track _ _ _) as [[tm e] created] eqn:Ec.
    destruct (created_calm None _ _ _ _ _ _ Ec) as (Hc & Ee & _); [by intros; split|].
    pose proof (taken_over_calm false e TO_Subscribe TS_Pending) as Hk. destruct (take_over _ _ _) as [u taken]. simpl in Hk. specialize (Hk ltac:(done) ltac:(done)).
    destruct (pick_track_alias _ _ _) as [alias next]. apply obind_Ok_inv in Ej as ([[[? ?] ?]|] & _ & Ej); [done|]. injection Ej as <- _.
    set (stx := with_next_alias _ _). eapply (calm_trans _ _ stx); [eapply calm_trans; [exact Hc|calm_same]|]. eapply calm_put; [exact Ee|exact Hk]. }
  destruct (assign_switching_set _ _ _ _ _) as [assigned| | |]; try (revert H1; apply Href; by eapply join_refused_calm).
  rewrite andb_false_r in H1. injection H1 as <-. assert (Hd : forall st2, calm None st2 (with_subscribe_requests st2 (<[id := mkSubscribeRequest (sub_request_id sub) c sub]> (subscribe_requests st2)))) by (intros; calm_same).
  eapply calm_inv; [apply Hd|]. clear Hd. set (st2 := serve_subscription _ _ _ _ _ _ _).
  assert (H2 : state_inv None used (ensure_upstream_forwarding st2 name)).
  { apply ensure_asks. eapply calm_inv; [|by apply inv_loud]. eapply calm_trans; [exact Hj|]. eapply calm_trans; [apply settle_calm|apply serve_calm]. }
  destruct plan; [|exact H2]. eapply calm_inv; [apply put_out_calm|exact H2].
Qed.

(** ** A request *)

(** The requests that are left out: an answer for a track that publishers have made their
    own since, a request under an ID that the connection has used, and one whose stream is
    gone before its answer. *)
Definition usual_request (used : list SubscriptionId) (st : Requests) (op : request_op) : bool :=
  match op with
  | RO_Subscribe c sub _ reached => reached && bool_decide ((c, sub_request_id sub) ∉ used)
  | RO_Message r (UM_SubscribeOk _) => negb (published_since st r)
  | _ => true
  end.
Definition used_by_request (op : request_op) : list SubscriptionId :=
  match op with RO_Subscribe c sub _ _ => [(c, sub_request_id sub)] | _ => [] end.

Lemma request_inv `{Target} config used st op st' : tables_ok (table st) -> room st -> usual_request used st op = true ->
  state_inv None used st -> request_step config st op = Ok st' -> state_inv None (used_by_request op ++ used) st'.
Proof.
  intros Ht Hr Hu Hi. assert (Hc : forall st', calm None st st' -> state_inv None used st') by (intros st1 H1; by eapply calm_inv).
  destruct op as [c sub ps reached|r sent mal|r|r msg|r|id]; simpl; unfold with_exchange.
  { simpl in Hu. apply andb_true_iff in Hu as [Hre Hu%bool_decide_eq_true]. destruct reached; [|done]. intros E.
    assert (E' : handle_subscribe_message config (request_accepted st (c, sub_request_id sub)) c sub ps true = Ok st').
    { destruct (subscribe_grown config (request_accepted st (c, sub_request_id sub)) c sub ps true Ht Hr) as (st1 & [E1|[? _]] & _); [|done].
      rewrite E1 in E |- *. by injection E as <-. }
    eapply (subscribe_inv config); [| | |exact E']; [exact Ht|exact Hr|]. apply inv_sender.
    - intros name c' p Hp Heq. apply Hu. rewrite Heq. by eapply (si_used _ _ _ Hi).
    - eapply inv_used; [|exact Hi]. set_solver. }
  all: intros [= <-]; apply Hc; try (destruct (exchanges st !! r) as [x|]; [destruct (_ x); [|apply calm_refl]|apply calm_refl]).
  - apply opened_calm.
  - apply ended_calm.
  - apply message_calm. simpl in Hu. destruct msg; try done. by apply negb_true_iff.
  - apply cancelled_calm.
  - eapply calm_trans; [apply cancel_subscription_calm|]. apply calm_same; try done. set_solver.
Qed.
