(* ===== verification/PublishersTold.v ===== *)
(** A publisher that declared FORWARD=0 is told to send once somebody wants its track:
    the handlers of PUBLISH, of pushes, of updates and of the ends of sessions, and runs. *)
From stdpp Require Import gmap.
From S2P Require Import Prelude Varint Common Codes TrackName LocationFilter RangeFilter Properties MessageParameter CombinedFilter.
From S2P Require Import Control Subgroup Datagram FetchObject ObjectForms DataStream SeenObjects TrackCache SwitchingSet Controller Namespaces.
From S2P Require Import Streams Subscription Forwarding Tracks Parameters TrackTable Requests RequestTables Publishing PublishingTables RequestsCalm.

(** * PUBLISH *)

Lemma filter_publisher (m : Publish) : publisher_forwards m = true \/ publisher_forwards m = false.
Proof. destruct (publisher_forwards m); auto. Qed.

(** A PUBLISH that joins a track declares what the track's publishers have been asked
    for: the relay does not ask one that comes later, nor the first when a second one
    sends without being asked. *)
Definition joins_alike (st : Requests) (m : Publish) : bool :=
  match tracks (table st) !! Publish_get_full_track_name m with
  | Some e => bool_decide (origin_of e = TO_CacheOnly) || negb (bool_decide (origin_of e = TO_Publish)) || eqb (publisher_forwards m) (raised e)
  | None => true
  end.

Lemma join_publisher_inv config used s c m s' created : tables_ok (table (requests s)) -> room (requests s) ->
  joins_alike (requests s) m = true -> (c, pub_request_id m) ∈ used -> Z.even (pub_request_id m) = true ->
  state_inv None used (requests s) -> join_publisher config s c m = (s', Some created) ->
  state_inv (Some (Publish_get_full_track_name m)) used (requests s').
Proof.
  intros Ht Hr Hj Hus Hev Hi. unfold join_publisher. set (name := Publish_get_full_track_name m) in *.
  destruct (get_or_create_track _ _ _) as [[tm e] cr] eqn:Ec.
  assert (He : at_rest e /\ tracks tm !! name = Some e /\ publishes tm = publishes (table (requests s)) /\
    (forall n x, n <> name -> tracks tm !! n = Some x -> tracks (table (requests s)) !! n = Some x) /\
    (tracks (table (requests s)) !! name = Some e \/ (raised e = false /\ aliases_of e = ∅))).
  { unfold get_or_create_track in Ec. destruct (tracks (table (requests s)) !! name) as [x|] eqn:E; simpl in Ec; injection Ec as <- <- _.
    - split_and!; try done; [by eapply (si_wanted _ _ _ Hi)|by left].
    - split_and!; [by intros|apply lookup_insert_eq|done| |by right]. intros n y Hn. simpl. by rewrite lookup_insert_ne. }
  destruct He as (Hrest & Ee & Ep & Hothers & Hold). destruct (take_over _ _ _) as [u taken] eqn:Et.
  destruct (add_track_alias tm c (pub_track_alias m) name) as [tm2 added] eqn:Ea.
  assert (E2 : tracks tm2 = tracks tm /\ publishes tm2 = publishes tm) by (unfold add_track_alias in Ea; destruct (track_aliases tm !! _); by injection Ea as <- _).
  destruct E2 as [E2 E2']. destruct added; simpl; [|done]. intros [= <- <-]. set (t := if cr || taken then _ else _).
  set (e1 := set_track e t). simpl. set (st1 := put_track _ _ _).
  assert (Eo : origin_of e1 = origin u) by (unfold e1, t, origin_of; by destruct (cr || taken), (publisher_forwards m)).
  assert (Eal : aliases_of e1 = <[c := pub_track_alias m]> (publisher_aliases u)) by (unfold e1, t, aliases_of; by destruct (cr || taken), (publisher_forwards m)).
  assert (Era : raised e1 = publisher_forwards m || upstream_forward u) by (unfold e1, t, raised; by destruct (cr || taken), (publisher_forwards m)).
  assert (Hp : forall n c' p, has_published st1 n c' p -> (n = name /\ c' = c /\ p = m) \/ ((n, c') <> (name, c) /\ has_published (requests s) n c' p)).
  { intros n c' p. unfold has_published. subst st1. simpl. rewrite E2', Ep. destruct (decide (n = name)) as [->|Hn].
    - rewrite lookup_insert_eq. simpl. destruct (decide (c' = c)) as [->|Hc]; [rewrite lookup_insert_eq; intros [= <-]; by left|].
      rewrite lookup_insert_ne by done. right. split; [congruence|]. by destruct (publishes (table (requests s)) !! name).
    - rewrite lookup_insert_ne by done. right. split; [congruence|done]. }
  assert (H1 : forall n x, tracks (table st1) !! n = Some x -> (n = name /\ x = quiet e1) \/ (n <> name /\ tracks (table (requests s)) !! n = Some x)).
  { intros n x. subst st1. simpl. rewrite E2, lookup_insert_Some. intros [[<- <-]|[Hn Hx]]; [by left|right]. split; [congruence|]. eapply Hothers; [congruence|done]. }
  destruct Hi as [W T U N]. split.
  - intros n x [[-> ->]|[Hn Hx]]%H1; [|destruct (W n x Hx) as [W1 W2]; split; [done|intros _; by apply W2]].
    split; [|done]. change (at_rest e1). intros Hc. rewrite Eo in Hc. unfold take_over in Et. case_bool_decide; injection Et as <- _; [done|].
    unfold at_rest, origin_of in Hrest. congruence.
  - intros n x c' p [[-> ->]|[Hn Hx]]%H1 Hox Hrx Hal Hpub Hs.
    2: { destruct (Hp _ _ _ Hpub) as [(-> & _)|[_ Hpub']]; [done|]. by eapply (T n x c' p). }
    destruct (Hp _ _ _ Hpub) as [(_ & -> & ->)|[Hne Hpub']].
    + change (raised e1 = true) in Hrx. rewrite Era in Hrx. apply orb_true_iff in Hrx as [?|Hru]; [by left|].
      unfold take_over in Et. case_bool_decide as Hco; injection Et as <- _; [change (raised e = true) in Hru; destruct (Hrest Hco); congruence|].
      change (raised e = true) in Hru. destruct Hold as [Hold|[Hf _]]; [|congruence]. unfold joins_alike in Hj. fold name in Hj. rewrite Hold in Hj.
      change (origin_of e1 = TO_Publish) in Hox. rewrite Eo in Hox. unfold origin_of in *. rewrite bool_decide_eq_false_2, bool_decide_eq_true_2 in Hj by done. simpl in Hj.
      apply eqb_prop in Hj. left. congruence.
    + change (is_Some (aliases_of e1 !! c')) in Hal. rewrite Eal, lookup_insert_ne in Hal by congruence.
      change (raised e1 = true) in Hrx. rewrite Era in Hrx. change (origin_of e1 = TO_Publish) in Hox. rewrite Eo in Hox.
      unfold take_over in Et. case_bool_decide as Hco; injection Et as <- _; simpl in *.
      { destruct (Hrest Hco) as [_ Hemp]. change (is_Some (aliases_of e !! c')) in Hal. rewrite Hemp in Hal. by destruct Hal. }
      change (is_Some (aliases_of e !! c')) in Hal. change (publisher_forwards m || raised e = true) in Hrx.
      destruct Hold as [Hold|[_ Hemp]]; [|rewrite Hemp in Hal; by destruct Hal]. unfold joins_alike in Hj. fold name in Hj. rewrite Hold in Hj.
      unfold origin_of in Hj. rewrite bool_decide_eq_false_2, bool_decide_eq_true_2 in Hj by done. simpl in Hj. apply eqb_prop in Hj.
      rewrite Hj, orb_diag in Hrx. by eapply (T name e c' p).
  - intros n c' p [(-> & -> & ->)|[_ Hpub]]%Hp; [done|]. by eapply U.
  - exact N.
Qed.

(** ** Pushes *)

Definition odd_pushes (s : Publishing) : Prop := forall id, is_Some (pushes s !! id) -> Z.odd (snd id) = true.

Lemma push_inv `{Target} config used s c name publish params s' b : state_inv (Some name) used (requests s) -> odd_pushes s ->
  push_track_to_subscriber config s c name publish params = Ok (s', b) ->
  odd_pushes s' /\ registry s' = registry s /\ (requests s' = requests s \/ state_inv None used (requests s')).
Proof.
  intros Hi Ho. unfold push_track_to_subscriber. destruct (filters_for_track _ _) as [fs|]; [|intros [= <- <-]; auto].
  unfold entry_of. destruct (tracks (table (requests s)) !! name) as [e|] eqn:E; [|intros [= <- <-]; auto].
  destruct (pick_track_alias _ _ _) as [alias next]. set (d := downstream_of _ _ _ _ _).
  set (st0 := with_next_id _ _). set (st1 := with_next_alias _ _). intros (added & Ea & H1)%obind_Ok_inv.
  injection H1 as <- <-. cbn [pushes registry requests with_pushes with_requests_of]. split_and!; [|done|right].
  - intros id [p Hp]. simpl in Hp. apply lookup_insert_Some in Hp as [[<- _]|[_ Hp]]; [apply Hi|apply Ho; by eexists].
  - apply ensure_asks. eapply calm_inv; [|exact Hi]. eapply (calm_trans _ _ st1).
    + split; try done; [|by eauto|apply odd_next]. intros n x Hx. right. exists x. split; [done|apply calm_entry_refl].
    + eapply calm_put; [exact E|]. rewrite bool_decide_eq_true_2 by done. set (e1 := match added with Some _ => _ | None => e end).
      assert (H1 : calm_entry true e e1).
      { subst e1. destruct added as [[[t sub] n]|]; [|apply calm_entry_refl].
        assert (upstream t = upstream (te_track e)) as Et.
        { apply (joined_entry e (upstream (te_track e)) c (SO_Publish d) alias t sub n). by destruct (te_track e). }
        apply grown_calm; unfold origin_of, raised, aliases_of; simpl; by rewrite Et. }
      eapply calm_entry_trans; [exact H1|]. unfold on_subscription. destruct (get_subscription e1 _); [apply set_subscription_calm|apply calm_entry_refl].
Qed.

Lemma push_new_inv `{Target} config used c m s x s' : state_inv (Some (Publish_get_full_track_name m)) used (requests s) -> odd_pushes s ->
  push_new config c m s x = Ok s' -> odd_pushes s' /\ state_inv (Some (Publish_get_full_track_name m)) used (requests s').
Proof.
  intros Hi Ho. unfold push_new. destruct (_ || _); [by intros [= <-]|]. intros ([s1 b] & Ep & [= <-])%obind_Ok_inv.
  destruct (push_inv _ _ _ _ _ _ _ _ _ Hi Ho Ep) as (H1 & _ & [->|H2]); [done|]. split; [done|]. by apply inv_loud.
Qed.
Lemma push_all_inv `{Target} config used c m l s s' : state_inv (Some (Publish_get_full_track_name m)) used (requests s) -> odd_pushes s ->
  for_each l (push_new config c m) s = Ok s' -> odd_pushes s' /\ state_inv (Some (Publish_get_full_track_name m)) used (requests s').
Proof.
  revert s. induction l as [|x l IH]; intros s Hi Ho; simpl; [by intros [= <-]|]. intros H1. destruct (push_new config c m s x) as [s1| | |] eqn:E; try done.
  destruct (push_new_inv _ _ _ _ _ _ _ Hi Ho E) as [H2 H3]. by apply (IH s1).
Qed.

Lemma join_publisher_pushes config s c m : pushes (fst (join_publisher config s c m)) = pushes s.
Proof. unfold join_publisher. destruct (get_or_create_track _ _ _) as [[tm e] cr]. destruct (take_over _ _ _). destruct (add_track_alias _ _ _ _) as [? []]; done. Qed.

Lemma publish_inv `{Target} config used s c m s' : tables_ok (table (requests s)) -> room (requests s) -> joins_alike (requests s) m = true ->
  (c, pub_request_id m) ∈ used -> Z.even (pub_request_id m) = true -> state_inv None used (requests s) -> odd_pushes s ->
  handle_publish config s c m = Ok s' -> state_inv None used (requests s') /\ odd_pushes s'.
Proof.
  intros Ht Hr Hj Hu Hev Hi Ho. unfold handle_publish. destruct (has_unsupported_mandatory _); [by intros [= <-]|]. destruct (is_some _); [by intros [= <-]|].
  destruct (has_track_alias _ _ _ && _) eqn:Ea; [by intros [= <-]|].
  pose proof (join_publisher_pushes config s c m) as Ep. destruct (join_publisher config s c m) as [s1 [created|]] eqn:Ej; simpl in Ep.
  - pose proof (join_publisher_inv _ _ _ _ _ _ _ Ht Hr Hj Hu Hev Hi Ej) as H1. assert (Ho1 : odd_pushes s1) by (intros id; rewrite Ep; apply Ho).
    intros (s2 & E2 & [= <-])%obind_Ok_inv. simpl.
    assert (odd_pushes s2 /\ state_inv (Some (Publish_get_full_track_name m)) used (requests s2)) as [H2 H3].
    { destruct created; [by eapply push_all_inv|by injection E2 as <-]. }
    split; [by apply ensure_asks|exact H2].
  - exfalso. unfold join_publisher in Ej.
    set (name := Publish_get_full_track_name m) in *. destruct (get_or_create_track _ _ _) as [[tm e] cr] eqn:Ec. destruct (take_over _ _ _) as [u taken].
    pose proof (add_alias_same tm c (pub_track_alias m) name) as Hadd. destruct (add_track_alias tm c _ name) as [tm2 []]; [by injection Ej|].
    simpl in Hadd. discriminate Hadd. clear Hadd Ej.
    assert (Eal : track_aliases tm = track_aliases (table (requests s))).
    { unfold get_or_create_track in Ec. destruct (tracks (table (requests s)) !! name); by injection Ec as <- _ _. }
    unfold has_track_alias in *. rewrite Eal. destruct (track_aliases (table (requests s)) !! _) eqn:El; [|by left]. right. simpl in Ea.
    unfold get_track_by_alias in Ea. rewrite El in Ea. destruct (tracks (table (requests s)) !! f); [|done]. simpl in Ea.
    apply negb_false_iff, bool_decide_eq_true in Ea. done.
Qed.

(** ** Ends and updates *)

Lemma leave_track_calm loud st name c : calm loud st (fst (leave_track st name c)).
Proof.
  unfold leave_track. destruct (tracks (table st) !! name) as [e|] eqn:E; [|apply calm_refl].
  assert (Hc : calm_entry (bool_decide (loud = Some name)) e (set_track e (fst (remove_publisher (te_track e) c)))).
  { unfold remove_publisher, take_publisher. destruct (publisher_aliases _ !! c); simpl.
    - destruct (negb _); apply calm_shrink; try done; intros c'; unfold aliases_of; simpl; intros [a' [_ H']%lookup_delete_Some]; by exists a'.
    - apply calm_shrink; try done. intros c'; unfold aliases_of; simpl; intros [a' [_ H']%lookup_delete_Some]; by exists a'. }
  destruct (remove_publisher (te_track e) c) as [t removal]. simpl in Hc.
  assert (H1 : calm loud st (put_track st name (set_track e t))) by (by eapply calm_put).
  destruct removal as [[a still]|]; [|exact H1]. simpl. eapply calm_trans; [exact H1|apply calm_remove_alias].
Qed.
Lemma cleanup_calm loud s id : calm loud (requests s) (requests (cleanup_published_track s id)).
Proof.
  unfold cleanup_published_track. destruct (published_tracks s !! id) as [name|]; [|apply calm_refl]. simpl.
  pose proof (leave_track_calm loud (requests s) name (fst id)) as H. destruct (leave_track _ _ _) as [st over]. simpl in *.
  destruct over; [|done]. destruct (tracks (table st) !! name) as [e|]; [|done].
  eapply calm_trans; [exact H|]. eapply calm_trans; [apply remove_sets_calm|apply retire_calm].
Qed.

Lemma forward_update_calm loud parameters l s : calm loud (requests s) (requests (fold_left (forward_update parameters) l s)) /\
  pushes (fold_left (forward_update parameters) l s) = pushes s.
Proof.
  revert s. induction l as [|id l IH]; intros s; [split; [apply calm_refl|done]|]. simpl. destruct (IH (forward_update parameters s id)) as [H1 H2].
  split; [eapply calm_trans; [|exact H1]|rewrite H2]; unfold forward_update; case_bool_decide; try done; simpl;
    (split; try done; [|by eauto|apply odd_next]; intros n x Hx; right; exists x; split; [done|apply calm_entry_refl]).
Qed.

Definition says_forward (parameters : list MessageParameter) : bool :=
  existsb (fun p => MessageParameter.type_value p =? MPT MPT_Forward) parameters.
Lemma find_head {A} (f : A -> bool) l : List.find f l = head (List.filter f l).
Proof. induction l as [|x l IH]; [done|]. simpl. by destruct (f x). Qed.
Lemma update_forwards m parameters : says_forward parameters = false ->
  publisher_forwards (with_pub_parameters m (apply_message_parameter_update (pub_parameters m) parameters)) = publisher_forwards m.
Proof.
  intros H. unfold publisher_forwards, get_param_or, get_param. rewrite !find_head.
  change (pub_parameters (with_pub_parameters m ?x)) with x.
  pose proof (apply_update_type (MPT MPT_Forward) (pub_parameters m) parameters) as E. unfold says_forward in H. rewrite H in E.
  unfold of_type in E. by rewrite E.
Qed.

Lemma publish_update_calm loud s id parameters : says_forward parameters = false ->
  calm loud (requests s) (requests (handle_publish_update s id parameters)) /\ pushes (handle_publish_update s id parameters) = pushes s.
Proof.
  intros Hs. unfold handle_publish_update. destruct (publish_requests s !! id) as [m|]; [|split; [apply calm_refl|done]].
  destruct (get_track_name_by_publisher _ _ _) as [name|]; [|split; [apply calm_refl|done]]. destruct (entry_of _ name) as [e|]; [|split; [apply calm_refl|done]].
  set (s1 := on_requests _ _). destruct (forward_update_calm loud parameters (map fst (map_to_list (sm_subscriptions (manager (te_track e))))) s1) as [H1 H2].
  split; [|exact H2]. eapply calm_trans; [|exact H1]. subst s1. simpl. split; try done.
  - intros n x Hx. right. exists x. split; [done|apply calm_entry_refl].
  - intros n c p. unfold has_published. simpl. unfold update_publish_message_parameters. simpl.
    destruct (decide (n = name)) as [->|Hn]; [rewrite lookup_alter_eq|rewrite lookup_alter_ne by done; by eauto].
    destruct (publishes _ !! name) as [ps|]; simpl; [|done]. destruct (decide (c = fst id)) as [->|Hc]; [rewrite lookup_alter_eq|rewrite lookup_alter_ne by done; by eauto].
    destruct (ps !! fst id) as [q|]; simpl; [|done]. intros [= <-]. exists q. split_and!; [done|done|by apply update_forwards].
Qed.

(** ** Subscriptions that change *)

Lemma change_held_calm st name id f : calm (Some name) st (change_held st name id f).
Proof.
  unfold change_held. destruct (tracks (table st) !! name) as [e|] eqn:E; [|apply calm_refl]. eapply calm_put; [exact E|].
  rewrite bool_decide_eq_true_2 by done. unfold on_subscription. destruct (get_subscription e id); [apply set_subscription_calm|apply calm_entry_refl].
Qed.
(** Where a subscription starts does not matter. *)
Lemma start_calm st name id largest : calm None st (change_held st name id (fun s => resolve_live_start s largest)).
Proof.
  unfold change_held. destruct (tracks (table st) !! name) as [e|] eqn:E; [|apply calm_refl]. eapply calm_put; [exact E|]. simpl.
  unfold on_subscription. destruct (get_subscription e id) as [sub|] eqn:Es; [|apply calm_entry_refl].
  unfold set_subscription. unfold get_subscription in Es. destruct (sm_subscriptions _ !! id) as [n|] eqn:En; [|done].
  split; try done. intros _ _ (i & sb & Hg & Hf). unfold get_subscription in Hg. simpl in Hg.
  destruct (sm_subscriptions (manager (te_track e)) !! i) as [k|] eqn:Ek; [|done].
  destruct (decide (k = n)) as [->|Hk].
  - exists id, sub. unfold get_subscription. rewrite En. split; [done|]. rewrite list_lookup_insert_eq in Hg by (by eapply lookup_lt_Some).
    injection Hg as <-. simpl in Hf. unfold resolve_live_start in Hf. by destruct (live_start_location _ _).
  - exists i, sb. unfold get_subscription. rewrite Ek. split; [|done]. by rewrite list_lookup_insert_ne in Hg.
Qed.
Lemma update_held_calm st name id parameters st' : update_held st name id parameters = Ok (Some st') -> calm (Some name) st st'.
Proof.
  unfold update_held. destruct (tracks (table st) !! name) as [e|] eqn:E; [|done]. destruct (get_subscription e id) as [sub|]; [|done].
  intros (r & _ & [= <-])%obind_Ok_inv. eapply calm_put; [exact E|]. rewrite bool_decide_eq_true_2 by done. apply set_subscription_calm.
Qed.
Lemma register_calm st id p parameters : calm (Some (pu_track p)) st (register_ssts_assignment_from_publish_ok st id p parameters).
Proof.
  unfold register_ssts_assignment_from_publish_ok. destruct (find_assignment parameters); [|apply calm_refl].
  destruct (assign_switching_set _ _ _ _ _) as [[s'|]| | |]; try apply calm_refl. set (st1 := with_ssts _ _).
  eapply (calm_trans _ _ st1); [calm_same|]. apply (change_held_calm st1 (pu_track p) id).
Qed.

Lemma request_pushes s st : odd_pushes s -> odd_pushes (with_requests_of s st).
Proof. done. Qed.
Lemma forgotten_push s id : odd_pushes s -> odd_pushes (forget_push s id).
Proof. intros Ho i [p Hp]. simpl in Hp. apply lookup_delete_Some in Hp as [_ Hp]. apply Ho. by eexists. Qed.
Lemma forget_push_calm loud s id : calm loud (requests s) (requests (forget_push s id)).
Proof. apply calm_same; try done. simpl. set_solver. Qed.

Lemma pushed_update_inv config used s id p parameters s' : state_inv None used (requests s) -> odd_pushes s ->
  apply_pushed_update config s id p parameters = Ok s' -> state_inv None used (requests s') /\ odd_pushes s'.
Proof.
  intros Hi Ho. unfold apply_pushed_update. destruct (_ ≫= _) as [sub|]; [|by intros [= <-]]. destruct (updated_filter _ _ _); try done; [|by intros [= <-]].
  intros ([st|] & Eu & [= <-])%obind_Ok_inv; [|done]. split; [|done]. simpl.
  assert (H1 : state_inv None used (ensure_upstream_forwarding st (pu_track p))).
  { apply ensure_asks. eapply calm_inv; [by eapply update_held_calm|]. by apply inv_loud. }
  destruct (is_some _); [|exact H1]. eapply calm_inv; [apply start_calm|exact H1].
Qed.
Lemma push_received_inv config used s id p msg s' : state_inv None used (requests s) -> odd_pushes s ->
  push_received config s id p msg = Ok s' -> state_inv None used (requests s') /\ odd_pushes s'.
Proof.
  intros Hi Ho. assert (Hend : state_inv None used (requests (forget_push (on_requests s (fun st => end_pushed_subscription st (pu_track p) id)) id))).
  { eapply calm_inv; [apply forget_push_calm|]. eapply calm_inv; [|exact Hi]. simpl. unfold end_pushed_subscription.
    eapply (calm_trans _ _ (reject_subscription (requests s) (pu_track p) id)); [apply rejected_calm|calm_same]. }
  destruct msg as [ps|ps| | |]; simpl; [|by apply pushed_update_inv|..]; intros [= <-]; split; try done; try (by apply forgotten_push).
  apply ensure_asks. eapply calm_inv; [apply register_calm|]. by apply inv_loud.
Qed.

(** Updates that carry SWITCH_FROM are left out: the publishers are asked before the
    switch makes the subscription forward. *)
Definition switches (parameters : list MessageParameter) : bool :=
  existsb (fun p => match p with MP_SwitchFrom _ _ _ => true | _ => false end) parameters.
Lemma no_switch st c r name parameters : switches parameters = false -> plan_switch st c r name parameters = Ok None.
Proof.
  intros H. unfold plan_switch. assert (find_map (fun p => match p with MP_SwitchFrom r m d => Some (r, m, d) | _ => None end) parameters = None) as ->; [|done].
  induction parameters as [|p l IH]; [done|]. simpl in H. apply orb_false_iff in H as [Hp Hl]. specialize (IH Hl). by destruct p.
Qed.

Lemma request_update_inv config used s id parameters s' : switches parameters = false -> state_inv None used (requests s) ->
  handle_request_update config s id parameters = Ok s' -> state_inv None used (requests s') /\ pushes s' = pushes s.
Proof.
  intros Hw Hi. unfold handle_request_update. destruct (subscribe_requests (requests s) !! id) as [request|]; [|by intros [= <-]].
  set (m := original_subscribe_request request). set (name := Subscribe_get_full_track_name m).
  destruct (updated_filter _ _ _); try done.
  2: { intros [= <-]. split; [|done]. eapply calm_inv; [apply rejected_calm|exact Hi]. }
  rewrite no_switch by done. set (st := update_switching_set _ _ _ _).
  assert (H1 : state_inv None used st).
  { eapply calm_inv; [|exact Hi]. apply calm_same; subst st; unfold update_switching_set; by destruct (find_assignment parameters) as [[[[[[]]]]]|]. }
  clearbody st. destruct (tracks (table st) !! name); [|by intros [= <-]]. intros ([st1|] & Eu & [= <-])%obind_Ok_inv; [|done]. split; [|done]. simpl.
  assert (H2 : state_inv None used (ensure_upstream_forwarding st1 name)).
  { apply ensure_asks. eapply calm_inv; [by eapply update_held_calm|]. by apply inv_loud. }
  destruct (is_some _); [|exact H2]. eapply calm_inv; [apply start_calm|exact H2].
Qed.

Lemma push_matched_inv `{Target} config used s c m published matched s' : state_inv None used (requests s) -> odd_pushes s ->
  push_matched config s c m published matched = Ok s' -> state_inv None used (requests s') /\ odd_pushes s'.
Proof.
  revert s published. induction matched as [|[name original] matched IH]; intros s published Hi Ho; simpl; [by intros [= <-]|].
  destruct original as [publish|]; [|by apply IH]. destruct (_ || _); [by apply IH|]. destruct (_ && _); [by intros [= <-]|].
  intros ([s1 b] & Ep & H1)%obind_Ok_inv. destruct (push_inv _ _ _ _ _ _ _ _ _ (inv_loud (Some name) _ _ Hi) Ho Ep) as (Ho1 & _ & H2).
  revert H1. apply IH; [|done]. simpl. by destruct H2 as [->|H2].
Qed.

Lemma sm_all_left m c : sm_subscriptions (sm_remove_subscriptions m c) ⊆ sm_subscriptions m.
Proof.
  unfold sm_remove_subscriptions. generalize (elements (default ∅ (subscriber_request_ids m !! c))). intros l. revert m.
  induction l as [|r l IH]; intros m; [done|]. simpl. etransitivity; [apply IH|apply held_left].
Qed.
Lemma close_calm loud s c : calm loud (requests s) (requests (handle_connection_close s c)).
Proof.
  unfold handle_connection_close. simpl. eapply (calm_trans _ _ (leave_all_tracks (requests s) c)).
  - unfold leave_all_tracks. set (f := fun (acc : Requests * list FullTrackName) name => _).
    assert (Hf : forall l st over, calm loud st (fst (fold_left f l (st, over)))).
    { induction l as [|name l IH]; intros st1 over; [apply calm_refl|]. simpl. pose proof (leave_track_calm loud st1 name c) as Hk.
      assert (Ef : exists over', f (st1, over) name = (fst (leave_track st1 name c), over')) by (subst f; simpl; destruct (leave_track st1 name c); by eexists).
      destruct Ef as [over' ->]. eapply calm_trans; [exact Hk|apply IH]. }
    specialize (Hf (map fst (map_to_list (tracks (table (requests s))))) (requests s) []). destruct (fold_left f _ _) as [st1 over]. simpl in *.
    eapply calm_trans; [exact Hf|]. apply calm_fold. intros. apply retire_calm.
  - apply calm_fold. clear. intros st name. unfold remove_subscriptions. destruct (tracks (table st) !! name) as [e|] eqn:E; [|apply calm_refl].
    eapply calm_put; [exact E|]. apply calm_shrink; try done. apply sm_all_left.
Qed.

(** * Runs *)

(** What the theorem leaves out: what [usual_request], [joins_alike], [says_forward] and
    [switches] say, and a PUBLISH under an ID that is not the client's to use. *)
Definition usual (used : list SubscriptionId) (s : Publishing) (op : publishing_op) : bool :=
  match op with
  | PO_Request op => usual_request used (requests s) op
  | PO_Publish c m => bool_decide ((c, pub_request_id m) ∉ used) && Z.even (pub_request_id m) && joins_alike (requests s) m
  | PO_PublishUpdate _ parameters => negb (says_forward parameters)
  | PO_Update _ parameters => negb (switches parameters)
  | _ => true
  end.
Definition used_by (op : publishing_op) : list SubscriptionId :=
  match op with PO_Request op => used_by_request op | PO_Publish c m => [(c, pub_request_id m)] | _ => [] end.
Fixpoint usual_run `{Target} (config : AppConfig) (used : list SubscriptionId) (s : Publishing) (ops : list publishing_op) : bool :=
  match ops with
  | [] => true
  | op :: ops =>
      usual used s op && match publishing_step config s op with Ok s' => usual_run config (used_by op ++ used) s' ops | _ => false end
  end.

Lemma step_inv `{Target} config used s op s' : tables_ok (table (requests s)) -> room (requests s) -> usual used s op = true ->
  state_inv None used (requests s) -> odd_pushes s -> publishing_step config s op = Ok s' ->
  state_inv None (used_by op ++ used) (requests s') /\ odd_pushes s'.
Proof.
  intros Ht Hr Hu Hi Ho. assert (Hc : forall s', calm None (requests s) (requests s') -> odd_pushes s' -> state_inv None used (requests s') /\ odd_pushes s').
  { intros s1 H1 H2. split; [|done]. eapply calm_inv; [exact H1|]. eapply inv_used; [|exact Hi]. set_solver. }
  destruct op as [op|c m|id|id ps|id ok|id msg|id ps|c m|ev|c|c]; simpl in Hu |- *.
  - intros (st & E & [= <-])%obind_Ok_inv. split; [|done]. simpl. by eapply request_inv.
  - apply andb_true_iff in Hu as [[Hn Hev]%andb_true_iff Hj]. apply bool_decide_eq_true in Hn. intros E.
    eapply publish_inv; [| | | | | | |exact E]; [exact Ht|exact Hr|exact Hj|by left|exact Hev| |exact Ho].
    simpl. apply inv_sender; [|eapply inv_used; [|exact Hi]; set_solver]. intros name c' p Hp Heq. apply Hn. rewrite Heq. by eapply (si_used _ _ _ Hi).
  - intros [= <-]. apply Hc; [apply cleanup_calm|]. intros i. simpl. unfold cleanup_published_track. destruct (published_tracks s !! id); apply Ho.
  - intros [= <-]. apply negb_true_iff in Hu. destruct (publish_update_calm None s id ps Hu) as [H1 H2]. apply Hc; [done|]. intros i. rewrite H2. apply Ho.
  - intros [= <-]. destruct (pushes s !! id) as [p|] eqn:Ep; [|done]. destruct (pu_open p); [done|]. unfold push_opened. destruct ok; simpl.
    + split; [|intros i [q Hq]; simpl in Hq; apply lookup_insert_Some in Hq as [[<- _]|[_ Hq]]; apply Ho; by eexists].
      apply inv_sender; [|done]. intros name c p' Hp ->. assert (Z.odd (pub_request_id p') = true) as Hodd by (apply (Ho (c, pub_request_id p')); by eexists).
      destruct (si_used _ _ _ Hi _ _ _ Hp) as [_ Hev]. rewrite <- Z.negb_odd, Hodd in Hev. done.
    + split; [|by apply forgotten_push]. eapply calm_inv; [apply forget_push_calm|done].
  - destruct (pushes s !! id) as [p|]; [|by intros [= <-]]. destruct (pu_open p); [|by intros [= <-]]. by apply push_received_inv.
  - apply negb_true_iff in Hu. intros E. destruct (request_update_inv _ _ _ _ _ _ Hu Hi E) as [H1 H2]. split; [done|]. intros i. rewrite H2. apply Ho.
  - unfold handle_subscribe_tracks_message. intros (r & _ & H1)%obind_Ok_inv. destruct (last (log r)) as [[? []]|]; try (by injection H1 as <-).
    revert H1. by apply push_matched_inv.
  - intros (r & _ & [= <-])%obind_Ok_inv. done.
  - by intros [= <-].
  - intros [= <-]. apply Hc; [|done]. apply close_calm.
Qed.

Lemma run_inv `{Target} config ops used s : tables_ok (table (requests s)) -> next_relay_track_id (table (requests s)) + Z.of_nat (length ops) < U64 ->
  state_inv None used (requests s) -> odd_pushes s -> usual_run config used s ops = true ->
  exists used' s', run_publishing config s ops = Ok s' /\ state_inv None used' (requests s').
Proof.
  revert used s. induction ops as [|op ops IH]; intros used s Ht Hb Hi Ho Hu; [by exists used, s|]. simpl in Hu. apply andb_true_iff in Hu as [Hu Hrest].
  simpl length in Hb. assert (Hr : room (requests s)) by (unfold room; lia).
  destruct (publishing_step_tables config s op Ht Hr) as (s1 & E1 & Ht1 & Hn). rewrite E1 in Hrest.
  destruct (step_inv config used s op s1 Ht Hr Hu Hi Ho E1) as [Hi1 Ho1].
  destruct (IH (used_by op ++ used) s1 Ht1) as (used' & s' & E & H'); [lia|done..|]. exists used', s'. split; [|done].
  unfold run_publishing in *. simpl. by rewrite E1.
Qed.

(** C11: a publisher that waits to be told is told once somebody wants its track, in every
    usual run.  PUBLISHes, SUBSCRIBEs, SUBSCRIBE_TRACKS, their updates and answers, and ends
    of requests and sessions may follow on each other in any order, as long as ([usual]) no
    connection uses a request ID twice, and a PUBLISH's is even; each SUBSCRIBE's stream
    takes its answer; a PUBLISH that joins a published track declares the Forward State that
    the track's publishers have been asked for; no update of a PUBLISH carries a Forward
    State; no update of a SUBSCRIBE asks for a switch; and no SUBSCRIBE_OK comes for a track
    that was published since it was asked for.  Then, when a subscription of a published
    track has Forward State 1, each of the track's publishers whose PUBLISH request is open
    declared that it sends, or has been sent the update that asks it to.  What happens in
    the runs left out is at the end of [PublishScenarios]. *)
Theorem publishers_told `{Target} config sets connections ops :
  Z.of_nat (length ops) < U64 -> usual_run config [] (Publishing_new sets connections) ops = true ->
  exists s, run_publishing config (Publishing_new sets connections) ops = Ok s /\
    forall name e c p, entry_of s name = Some e -> origin_of e = TO_Publish -> is_wanted e -> is_Some (aliases_of e !! c) ->
      has_published (requests s) name c p -> (c, pub_request_id p) ∈ response_senders (requests s) ->
      publisher_forwards p = true \/ OUT_Forward (c, pub_request_id p) ∈ outputs (requests s).
Proof.
  intros Hb Hu. destruct (run_inv config ops [] (Publishing_new sets connections)) as (used & s & E & [W T _ _]); [apply tables_new_ok|done| |by intros ? []|done|].
  { split; try done; by intros. }
  exists s. split; [done|]. intros name e c p He Ho Hw Ha Hp Hs. destruct (W name e He) as [_ Hr]. exact (T name e c p He Ho (Hr ltac:(done) Ho Hw) Ha Hp Hs).
Qed.
