(* ===== verification/NewTracks.v ===== *)
(** A track that a PUBLISH makes is pushed to the subscribers it concerns, and to nobody
    else. *)
From stdpp Require Import gmap.
From S2P Require Import Prelude Varint Common Codes TrackName LocationFilter RangeFilter Properties MessageParameter CombinedFilter.
From S2P Require Import Control Subgroup Datagram FetchObject ObjectForms DataStream SeenObjects TrackCache SwitchingSet Controller Namespaces.
From S2P Require Import Streams Subscription Forwarding Tracks Parameters TrackTable Requests RequestTables Publishing PublishingTables.

(** * One push *)

(** Asking the publishers changes nothing of the subscribers and the objects. *)
Lemma ensure_entry st name e : tracks (table st) !! name = Some e ->
  exists e', tracks (table (ensure_upstream_forwarding st name)) !! name = Some e' /\ manager (te_track e') = manager (te_track e) /\
    content (te_track e') = content (te_track e) /\ te_subscriptions e' = te_subscriptions e.
Proof.
  intros E. unfold ensure_upstream_forwarding. rewrite E. destruct (negb (bool_decide _)); [by exists e|]. destruct (negb _); [by exists e|].
  destruct (upstream_forward _); [by exists e|]. rewrite forwarding_table. eexists. split; [apply lookup_insert_eq|done].
Qed.

Lemma has_any_held m c : manager_ok m -> has_any_subscription m c = true <-> exists r, is_Some (sm_subscriptions m !! (c, r)).
Proof.
  intros Hm. unfold has_any_subscription. destruct (subscriber_request_ids m !! c) as [s|] eqn:E.
  - pose proof (mo_filled _ Hm c s E) as Hs. rewrite bool_decide_eq_false_2 by done. split; [|done]. intros _.
    apply set_choose_L in Hs as [r Hr]. exists r. pose proof (mo_ids _ Hm (c, r)) as Hi. unfold sm_exists in Hi. simpl in Hi.
    rewrite E, bool_decide_eq_true_2 in Hi by done. destruct (sm_subscriptions m !! (c, r)); [by eexists|done].
  - split; [done|]. intros [r [n Hn]]. pose proof (mo_ids _ Hm (c, r)) as Hi. unfold sm_exists in Hi. simpl in Hi. by rewrite E, Hn in Hi.
Qed.

Definition chosen (m : Publish) (c : Z) (subscribers : list (Z * list MessageParameter)) : list (Z * list MessageParameter) :=
  List.filter (fun x => negb (fst x =? c) && is_some (filters_for_track (snd x) (pub_track_properties m))) subscribers.

(** The push of a track to a subscriber. *)
Definition pushed_as (m : Publish) (x : Z * list MessageParameter) (y : SubscriptionId * Push) : Prop :=
  fst (fst y) = fst x /\ exists alias,
    snd y = mkPush (Publish_get_full_track_name m) (downstream_of m (snd (fst y)) alias (snd x) None) false.

Lemma push_spec `{Target} config s c name m params e fs : tables_ok (table (requests s)) -> entry_of s name = Some e ->
  filters_for_track params (pub_track_properties m) = Some fs -> (forall r, held e !! (c, r) = None) ->
  exists s' e' r alias n, push_track_to_subscriber config s c name m params = Ok (s', true) /\ entry_of s' name = Some e' /\
    pushes s' = <[(c, r) := mkPush name (downstream_of m r alias params (Tracks.largest_object (te_track e))) false]> (pushes s) /\
    held e' = <[(c, r) := n]> (held e) /\ content (te_track e') = content (te_track e) /\ tables_ok (table (requests s')) /\
    registry s' = registry s /\ sent s' = sent s.
Proof.
  intros Ht E Ef Hh. pose proof (tk_entries _ Ht _ _ E) as He.
  destruct (push_kept config s c name m params) as (s1 & b & Ep & Hk). rewrite Ep. pose proof (Hk Ht) as [Ht1 _]. revert Ep.
  unfold push_track_to_subscriber. rewrite Ef, E. destruct (pick_track_alias _ _ _) as [alias next]. set (d := downstream_of _ _ _ _ _).
  set (st1 := with_next_alias _ _). intros (added & Ea & Hs)%obind_Ok_inv. injection Hs as Es <-.
  set (id := (c, _)) in *. assert (Hadd : exists t sub n, added = Some (t, sub, n)).
  { unfold Tracks.add_subscription in Ea. apply obind_Ok_inv in Ea as (s0 & _ & Ea). unfold sm_add_subscription in Ea.
    change (origin_request_id (SO_Publish d)) with (snd id) in Ea. specialize (Hh (snd id)). unfold held in Hh. rewrite Hh in Ea. injection Ea as <-. eauto. }
  destruct Hadd as (t & sub & n & ->). assert (Ec : content t = content (te_track e)).
  { unfold Tracks.add_subscription in Ea. apply obind_Ok_inv in Ea as (s0 & _ & Ea). destruct (sm_add_subscription _ _) as [[]|]; [|done]. by injection Ea as <- _ _. }
  destruct (add_subscription_entry e (upstream (te_track e)) c (SO_Publish d) alias t sub n He eq_refl) as (_ & Hsub & _); [by destruct (te_track e)|].
  set (e1 := on_subscription (mkEntry t (te_subscriptions e ++ [sub]) (pending_subscribers e)) id (with_push_parameters fs params)) in *. assert (H1 : manager (te_track e1) = manager t /\ content (te_track e1) = content t).
  { subst e1. unfold on_subscription. destruct (get_subscription _ _); [|done]. unfold set_subscription. by destruct (sm_subscriptions _ !! _). }
  destruct H1 as [Hm1 Hc1]. destruct (ensure_entry (put_track st1 name e1) name (quiet e1) (lookup_insert_eq _ _ _)) as (e' & E' & Hm & Hc & _).
  exists s1, e', (snd id), alias, n. split_and!; [done|by rewrite <- Es|by rewrite <- Es| | |done|by rewrite <- Es|by rewrite <- Es].
  - unfold held. rewrite Hm. change (sm_subscriptions (manager (te_track e1)) = <[id := n]> (held e)). by rewrite Hm1.
  - rewrite Hc. change (content (te_track e1) = content (te_track e)). congruence.
Qed.

(** * All pushes *)

(** After some of the subscribers. *)
Record pushing (m : Publish) (c : Z) (s0 : Publishing) (seen : list (Z * list MessageParameter)) (s : Publishing) : Prop := {
  pg_tables : tables_ok (table (requests s));
  pg_registry : registry s = registry s0;
  pg_sent : sent s = sent s0;
  pg_pushes : exists l e, Forall2 (pushed_as m) (chosen m c seen) l /\ pushes s = list_to_map l ∪ pushes s0 /\
    entry_of s (Publish_get_full_track_name m) = Some e /\ Tracks.largest_object (te_track e) = None /\
    forall id, is_Some (held e !! id) <-> id ∈ map fst l
}.

Lemma chosen_snoc m c seen x : chosen m c (seen ++ [x]) =
  chosen m c seen ++ (if negb (fst x =? c) && is_some (filters_for_track (snd x) (pub_track_properties m)) then [x] else []).
Proof. unfold chosen. rewrite List.filter_app. simpl. by destruct (_ && _). Qed.
Lemma chosen_In m c seen x : x ∈ chosen m c seen -> x ∈ seen.
Proof. unfold chosen. rewrite !list_elem_of_In, filter_In. by intros []. Qed.
Lemma pushed_connections m xs l : Forall2 (pushed_as m) xs l -> map fst (map fst l) = map fst xs.
Proof. induction 1 as [|x y xs l [E _] _ IH]; [done|]. simpl. by rewrite E, IH. Qed.

Lemma push_new_step `{Target} config m c s0 seen x s : fst x ∉ map fst seen -> pushing m c s0 seen s ->
  exists s', push_new config c m s x = Ok s' /\ pushing m c s0 (seen ++ [x]) s'.
Proof.
  intros Hx [Ht Hr Hs (l & e & Hl & Hp & E & Hlo & Hh)]. set (name := Publish_get_full_track_name m) in *.
  assert (Hnone : forall r, (fst x, r) ∉ map fst l).
  { intros r Hin. apply Hx. assert (fst x ∈ map fst (map fst l)) as Hc by (apply list_elem_of_fmap; by exists (fst x, r)).
    rewrite (pushed_connections _ _ _ Hl) in Hc. apply list_elem_of_fmap in Hc as (y & Hy & Hin'). apply list_elem_of_fmap. exists y.
    split; [done|]. by eapply chosen_In. }
  assert (Hany : has_subscription_of s name (fst x) = false).
  { unfold has_subscription_of. rewrite E. apply not_true_iff_false. rewrite has_any_held by (eapply eo_manager, tk_entries; [exact Ht|exact E]).
    intros [r Hr']. apply Hh in Hr'. by apply (Hnone r). }
  unfold push_new. fold name. rewrite Hany, orb_false_r.
  assert (Hskip : (if negb (fst x =? c) && is_some (filters_for_track (snd x) (pub_track_properties m)) then [x] else []) = [] -> pushing m c s0 (seen ++ [x]) s).
  { intros Hc. split; try done. exists l, e. by rewrite chosen_snoc, Hc, app_nil_r. }
  destruct (fst x =? c) eqn:Ec; [exists s; split; [done|by apply Hskip]|].
  destruct (filters_for_track (snd x) (pub_track_properties m)) as [fs|] eqn:Ef.
  - destruct (push_spec config s (fst x) name m (snd x) e fs Ht E Ef) as (s' & e' & r & alias & n & Ep & E' & Hp' & Hh' & Hc' & Ht' & Hr' & Hs').
    { intros r. apply eq_None_not_Some. intros Hr'%Hh. by apply (Hnone r). }
    rewrite Ep. simpl. exists s'. split; [done|]. split; [done|congruence|congruence|].
    exists (l ++ [((fst x, r), mkPush name (downstream_of m r alias (snd x) None) false)]), e'. split_and!; [| |done| |].
    + rewrite chosen_snoc, Ec, Ef. simpl. apply Forall2_app; [done|]. constructor; [|done]. split; [done|]. by exists alias.
    + rewrite Hp', Hp, Hlo, list_to_map_app. simpl. rewrite insert_empty, insert_union_singleton_l, !(assoc_L _). f_equal.
      apply map_union_comm. apply map_disjoint_singleton_l_2. apply not_elem_of_list_to_map_1. apply Hnone.
    + unfold Tracks.largest_object. rewrite Hc'. exact Hlo.
    + intros id. rewrite Hh', map_app, elem_of_app. simpl. rewrite lookup_insert_is_Some, list_elem_of_singleton, Hh. split.
      * intros [->|[_ ?]]; auto.
      * intros [?| ->]; [|by left]. destruct (decide ((fst x, r) = id)); auto.
  - unfold push_track_to_subscriber. rewrite Ef. simpl. exists s. split; [done|]. by apply Hskip.
Qed.

Lemma push_all_new `{Target} config m c s0 subscribers s seen : NoDup (map fst (seen ++ subscribers)) -> pushing m c s0 seen s ->
  exists s', for_each subscribers (push_new config c m) s = Ok s' /\ pushing m c s0 (seen ++ subscribers) s'.
Proof.
  revert s seen. induction subscribers as [|x l IH]; intros s seen Hn Hp; [exists s; by rewrite app_nil_r|].
  rewrite map_app in Hn. simpl in Hn. destruct (push_new_step config m c s0 seen x s) as (s1 & E1 & H1); [|done|].
  { apply NoDup_app in Hn as (_ & Hn & _). intros Hin. apply (Hn _ Hin). by left. }
  simpl. rewrite E1. destruct (IH s1 (seen ++ [x])) as (s' & E & H'); [|done|].
  { by rewrite <- app_assoc, map_app. }
  exists s'. split; [done|]. by rewrite <- app_assoc in H'.
Qed.

Lemma join_new config s c m : entry_of s (Publish_get_full_track_name m) = None -> has_track_alias (table (requests s)) c (pub_track_alias m) = false ->
  exists s1 e1, join_publisher config s c m = (s1, Some true) /\ entry_of s1 (Publish_get_full_track_name m) = Some e1 /\ held e1 = ∅ /\
    Tracks.largest_object (te_track e1) = None /\ pushes s1 = pushes s /\ registry s1 = registry s /\ sent s1 = sent s.
Proof.
  unfold entry_of, join_publisher, get_or_create_track. intros En Hal. rewrite En. simpl. unfold add_track_alias, has_track_alias in *. simpl.
  destruct (track_aliases (table (requests s)) !! (c, pub_track_alias m)); [done|]. simpl. do 2 eexists. split; [reflexivity|].
  split; [apply lookup_insert_eq|]. by destruct (publisher_forwards m).
Qed.

(** * The theorem *)

(** C12: a PUBLISH that makes a track is answered with PUBLISH_OK, and the track is pushed
    to exactly the subscribers of its namespace whose track filters it passes, once each
    and never back to its publisher.  Each gets a PUBLISH of its own, under a request ID
    and alias of the relay's, with parameters and properties as it asked for them, and a
    subscription; the track has no other subscriptions. *)
Theorem new_track_pushed `{Target} config s c m :
  tables_ok (table (requests s)) -> room (requests s) -> entry_of s (Publish_get_full_track_name m) = None ->
  has_unsupported_mandatory (pub_track_properties m) = false ->
  reserved_namespace_rejection (pub_track_namespace m) (pub_track_name m) = None ->
  has_track_alias (table (requests s)) c (pub_track_alias m) = false ->
  NoDup (map fst (get_namespace_subscribers (registry s) (pub_track_namespace m) Kind_Tracks)) ->
  exists s' l e, handle_publish config s c m = Ok s' /\ sent s' = sent s ++ [PUB_Ok (c, pub_request_id m)] /\
    Forall2 (pushed_as m) (chosen m c (get_namespace_subscribers (registry s) (pub_track_namespace m) Kind_Tracks)) l /\
    pushes s' = list_to_map l ∪ pushes s /\ entry_of s' (Publish_get_full_track_name m) = Some e /\
    forall id, is_Some (held e !! id) <-> id ∈ map fst l.
Proof.
  intros Ht Hr En Hm Hres Hal Hnd. unfold handle_publish. rewrite Hm, Hres, Hal. simpl.
  pose proof (join_publisher_grown config s c m Ht Hr) as [Ht1 _].
  destruct (join_new config s c m En Hal) as (s1 & e1 & Ej & E1 & Hh1 & Hlo & Hp1 & Hr1 & Hs1). rewrite Ej in *. simpl in Ht1. rewrite <- Hr1 in Hnd |- *.
  assert (Hp : pushing m c s1 [] s1).
  { split; [exact Ht1|done|done|]. exists [], e1. split_and!; [constructor|symmetry; apply (left_id_L ∅ (∪))|done|done|].
    intros id. rewrite Hh1, lookup_empty, list_elem_of_In. simpl. split; [|done]. by intros []. }
  destruct (push_all_new config m c s1 _ s1 [] Hnd Hp) as (s2 & E2 & [Ht2 Hr2 Hs2 (l & e & Hl & Hpu & Ee & _ & Hh)]).
  rewrite E2. simpl. destruct (ensure_entry (requests s2) _ e Ee) as (e' & Ee' & Hman & _).
  eexists _, l, e'. split; [reflexivity|]. split_and!; [simpl; congruence|done|simpl; congruence|done|]. intros id. rewrite <- Hh. unfold held. by rewrite Hman.
Qed.
