(* ===== verification/PublishScenarios.v ===== *)
(** PUBLISH, step by step: runs that the theorems are about, and what happens in the runs
    that they leave out. *)
From stdpp Require Import gmap.
From S2P Require Import Prelude Varint Pair Common Codes TrackName LocationFilter RangeFilter Properties MessageParameter CombinedFilter.
From S2P Require Import Control Subgroup Datagram FetchObject ObjectForms DataStream SeenObjects TrackCache SwitchingSet Controller Namespaces.
From S2P Require Import Streams Subscription Forwarding Tracks Parameters TrackTable Requests RequestTables Publishing PublishingTables RequestsCalm PublishersTold NewTracks.

(** Subscribers 1 to 3, publishers 8 and 9. *)
Definition p_config : AppConfig := mkAppConfig 16 10000 8 TAM_PerTrack 0 10.
Definition p_start : Publishing := Publishing_new ∅ {[1; 2; 3; 8; 9]}.
Definition after_with (config : AppConfig) (ops : list publishing_op) : Publishing :=
  match @run_publishing debug_build config p_start ops with Ok s => s | _ => p_start end.
Definition p_after : list publishing_op -> Publishing := after_with p_config.
Definition p_name : FullTrackName := mkFullTrackName [[100]] [1].
Definition q_name : FullTrackName := mkFullTrackName [[100]] [2].
Definition a_publish (name : FullTrackName) (request_id alias : Z) (parameters : list MessageParameter) : Publish :=
  mkPublish request_id (ftn_namespace name) (ftn_name name) alias parameters [].
Definition a_request (name : FullTrackName) (request_id : Z) (parameters : list MessageParameter) : Subscribe :=
  mkSubscribe request_id (ftn_namespace name) (ftn_name name) parameters.
Definition subscribers_of (s : Publishing) (name : FullTrackName) : list SubscriptionId :=
  match entry_of s name with Some e => map fst (map_to_list (held e)) | None => [] end.
Definition asked (s : Publishing) : list output :=
  List.filter (fun o => match o with OUT_Forward _ => true | _ => false end) (outputs (requests s)).
Definition closed (s : Publishing) : list published_output :=
  List.filter (fun o => match o with PUB_CloseSession _ _ => true | _ => false end) (sent s).

(** Two prefix subscriptions: one wants the tracks' Objects, the other does not yet. *)
Definition two_prefixes : list publishing_op :=
  [PO_SubscribeTracks 1 (mkSubscribeTracks 0 [[100]] []); PO_SubscribeTracks 2 (mkSubscribeTracks 0 [] [MP_Forward false]);
   PO_SubscribeTracks 8 (mkSubscribeTracks 2 [[100]] [])].
(** A publisher that waits to be told, a subscriber that comes on its own, and the end. *)
Definition published_and_done : list publishing_op :=
  two_prefixes ++
  [PO_Publish 8 (a_publish p_name 0 5 [MP_Forward false]); PO_PushOpened (1, 1) true; PO_PushMessage (1, 1) (PM_RequestOk []);
   PO_PushOpened (2, 5) true; PO_PushMessage (2, 5) (PM_RequestUpdate [MP_Forward true]); PO_Request (RO_Subscribe 3 (a_request p_name 0 []) [8] true);
   PO_Update (3, 0) [MP_Forward false]; PO_PushMessage (1, 1) PM_Closed; PO_PublishDone (8, 0)].

Example two_prefixes_quiet : requests (p_after two_prefixes) = Requests_new ∅.
Proof. vm_compute. reflexivity. Qed.
Example published_and_done_usual : @usual_run debug_build p_config [] p_start published_and_done = true.
Proof. vm_compute. reflexivity. Qed.
(** The publisher gets the subscription that it made itself no PUBLISH for. *)
Example pushed_to_both : subscribers_of (p_after (take 4 published_and_done)) p_name = [(1, 1); (2, 5)] /\ asked (p_after (take 4 published_and_done)) = [OUT_Forward (8, 0)].
Proof. vm_compute. split; reflexivity. Qed.

(** The theorems at these runs. *)
Lemma relay_tables_agree_witness :
  tables_ok (table (requests p_start)) /\ Forall unheard_subscribe (@panicking debug_build p_config p_start published_and_done) /\
  exists s, @run_publishing debug_build p_config p_start published_and_done = Ok s /\ tables_ok (table (requests s)).
Proof.
  assert (H : tables_ok (table (requests p_start))) by apply tables_new_ok. split; [exact H|].
  apply (@relay_tables_agree debug_build p_config p_start published_and_done H). vm_compute. reflexivity.
Defined.
(** One that does panic: its SUBSCRIBE would put a track in a switching set that it may not. *)
Example refused_unheard_panics :
  let op reached := PO_Request (RO_Subscribe 1 (a_request p_name 0 [MP_SwitchingSetAssignment 1 1 100 1 1 1]) [8] reached) in
  @panicking debug_build p_config p_start [op false] = [op false] /\ @panicking debug_build p_config p_start [op true] = [].
Proof. vm_compute. auto. Qed.
Lemma publishers_told_witness :
  @usual_run debug_build p_config [] p_start published_and_done = true /\
  exists s, @run_publishing debug_build p_config p_start published_and_done = Ok s /\
    forall name e c p, entry_of s name = Some e -> origin_of e = TO_Publish -> is_wanted e -> is_Some (aliases_of e !! c) ->
      has_published (requests s) name c p -> (c, pub_request_id p) ∈ response_senders (requests s) ->
      publisher_forwards p = true \/ OUT_Forward (c, pub_request_id p) ∈ outputs (requests s).
Proof.
  assert (H : @usual_run debug_build p_config [] p_start published_and_done = true) by (vm_compute; reflexivity). split; [exact H|].
  apply (@publishers_told debug_build p_config ∅ {[1; 2; 3; 8; 9]} published_and_done); [vm_compute; reflexivity|exact H].
Defined.
Lemma new_track_pushed_witness :
  let s := p_after two_prefixes in let m := a_publish p_name 0 5 [MP_Forward false] in
  map fst (chosen m 8 (get_namespace_subscribers (registry s) (pub_track_namespace m) Kind_Tracks)) = [1; 2] /\
  exists s' l e, @handle_publish debug_build p_config s 8 m = Ok s' /\ sent s' = sent s ++ [PUB_Ok (8, pub_request_id m)] /\
    Forall2 (pushed_as m) (chosen m 8 (get_namespace_subscribers (registry s) (pub_track_namespace m) Kind_Tracks)) l /\
    pushes s' = list_to_map l ∪ pushes s /\ entry_of s' (Publish_get_full_track_name m) = Some e /\
    forall id, is_Some (held e !! id) <-> id ∈ map fst l.
Proof.
  intros s m. split; [vm_compute; reflexivity|]. assert (Hq : requests s = Requests_new ∅) by (vm_compute; reflexivity).
  apply (@new_track_pushed debug_build p_config s 8 m).
  - rewrite Hq. apply tables_new_ok.
  - rewrite Hq. vm_compute. reflexivity.
  - vm_compute. reflexivity.
  - vm_compute. reflexivity.
  - vm_compute. reflexivity.
  - vm_compute. reflexivity.
  - apply (bool_decide_eq_true_1 _). vm_compute. reflexivity.
Defined.

(** * What is left out *)

(** A second publisher that waits to be told is not told: the relay has asked before. *)
Definition second_waits : list publishing_op :=
  [PO_Publish 8 (a_publish p_name 0 5 []); PO_Request (RO_Subscribe 1 (a_request p_name 0 []) [8] true); PO_Publish 9 (a_publish p_name 0 6 [MP_Forward false])].
Example second_publisher_not_told : asked (p_after second_waits) = [].
Proof. vm_compute. reflexivity. Qed.
(** Nor is the first, when the second one sends without being asked. *)
Definition first_waits : list publishing_op :=
  [PO_Publish 8 (a_publish p_name 0 5 [MP_Forward false]); PO_Publish 9 (a_publish p_name 0 6 []); PO_Request (RO_Subscribe 1 (a_request p_name 0 []) [8; 9] true)].
Example first_publisher_not_told : asked (p_after first_waits) = [].
Proof. vm_compute. reflexivity. Qed.
(** Nor is one that publishes a track the relay has subscribed to. *)
Definition subscribed_first : list publishing_op :=
  [PO_Request (RO_Subscribe 1 (a_request p_name 0 []) [8] true); PO_Request (RO_Opened 1 true false);
   PO_Request (RO_Message 1 (UM_SubscribeOk (mkSubscribeOk 70 [] []))); PO_Publish 9 (a_publish p_name 0 6 [MP_Forward false])].
Example publisher_of_subscribed_not_told : asked (p_after subscribed_first) = [].
Proof. vm_compute. reflexivity. Qed.

(** A switch in an update makes the subscription forward after the publishers would have
    been asked. *)
Definition switched_on : list publishing_op :=
  [PO_Publish 8 (a_publish p_name 0 5 []); PO_Publish 8 (a_publish q_name 2 6 [MP_Forward false]);
   PO_Request (RO_Subscribe 1 (a_request p_name 0 []) [8] true); PO_Request (RO_Subscribe 1 (a_request q_name 2 [MP_Forward false]) [8] true);
   PO_Update (1, 2) [MP_SwitchFrom 0 SM_Soft false]].
Example switch_not_told :
  asked (p_after switched_on) = [] /\
  match entry_of (p_after switched_on) q_name ≫= fun e => get_subscription e (1, 2) with Some sub => forward (subscription_state sub) | None => false end = true.
Proof. vm_compute. split; reflexivity. Qed.

(** A publisher that is done with its track is still asked for it. *)
Definition done_with_it : list publishing_op := [PO_Publish 8 (a_publish p_name 0 5 []); PO_PublishDone (8, 0)].
Example done_but_listed :
  entry_of (p_after done_with_it) p_name = None /\ get_publishers_for_track (fun _ => []) (fun _ => false) (p_after done_with_it) p_name = [8].
Proof. vm_compute. split; reflexivity. Qed.

(** The alias of an earlier PUBLISH for the same track stays behind; with it for another
    track the session is closed. *)
Definition published_again : list publishing_op :=
  [PO_Publish 8 (a_publish p_name 0 5 []); PO_Publish 8 (a_publish p_name 2 6 []); PO_PublishDone (8, 0); PO_PublishDone (8, 2);
   PO_Publish 8 (a_publish q_name 4 5 [])].
Example first_alias_left : closed (p_after published_again) = [PUB_CloseSession 8 TC_DuplicateTrackAlias].
Proof. vm_compute. reflexivity. Qed.

(** With an alias per subscription, a switching set in PUBLISH_OK is put down under the
    alias instead of the track's number. *)
Definition r_name : FullTrackName := mkFullTrackName [[200]] [1].
Definition set_in_publish_ok : list publishing_op :=
  [PO_SubscribeTracks 1 (mkSubscribeTracks 0 [[100]] []); PO_Publish 8 (a_publish r_name 0 4 []); PO_Publish 8 (a_publish p_name 2 5 []);
   PO_PushOpened (1, 1) true; PO_PushMessage (1, 1) (PM_RequestOk [MP_SwitchingSetAssignment 1 1 100 1 1 1])].
Definition with_ssts_run (ops : list publishing_op) : Publishing :=
  match @run_publishing debug_build (mkAppConfig 16 10000 8 TAM_PerSubscription 0 10)
          (Publishing_new {[1 := mkSstsState [1] SwitchingSetManager_new ∅]} {[1; 8]}) ops with Ok s => s | _ => p_start end.
Example set_under_the_alias :
  let s := with_ssts_run set_in_publish_ok in
  relay_track_to_set (switching_sets (ssts_of (requests s) 1)) = {[0 := 1]} /\
  option_map (fun e => t_relay_track_id (te_track e)) (entry_of s p_name) = Some 1.
Proof. vm_compute. split; reflexivity. Qed.

(** A publisher's session that ends leaves its tracks in the switching sets, as PUBLISH_DONE
    does not. *)
Definition in_a_set : list publishing_op :=
  [PO_Publish 8 (a_publish p_name 0 5 []); PO_Request (RO_Subscribe 1 (a_request p_name 0 [MP_SwitchingSetAssignment 1 1 100 1 1 1]) [8] true)].
Example set_left_by_session :
  size (relay_track_to_set (switching_sets (ssts_of (requests (with_ssts_run (in_a_set ++ [PO_PublishDone (8, 0)]))) 1))) = 0%nat /\
  size (relay_track_to_set (switching_sets (ssts_of (requests (with_ssts_run (in_a_set ++ [PO_SessionClosed 8]))) 1))) = 1%nat.
Proof. vm_compute. split; reflexivity. Qed.

(** When the end of the session comes before the end of its requests, nobody cancels the
    upstream subscription; the other way round it is cancelled.  So with an update that
    fails. *)
Definition subscribed : list publishing_op :=
  [PO_Request (RO_Subscribe 1 (a_request p_name 0 []) [8] true); PO_Request (RO_Opened 1 true false);
   PO_Request (RO_Message 1 (UM_SubscribeOk (mkSubscribeOk 70 [] [])))].
Definition signal_after (ops : list publishing_op) : option (option UpstreamRequestCancellation) :=
  option_map x_signal (exchanges (requests (p_after (subscribed ++ ops))) !! 1).
Example upstream_left_behind :
  signal_after [PO_Request (RO_Closed (1, 0))] = Some (Some URC_Cancelled) /\
  signal_after [PO_SessionClosed 1; PO_Request (RO_Closed (1, 0))] = Some None /\
  signal_after [PO_Update (1, 0) (repeat (MP_RangeFilter RFK_ObjectId (Some (mkRangeFilter 0 None []))) 20); PO_Request (RO_Closed (1, 0))] = Some None.
Proof. vm_compute. split_and!; reflexivity. Qed.

(** A track without Objects has the Largest Object {0, 0} for TRACK_STATUS, and none for
    SUBSCRIBE. *)
Example status_of_an_empty_track :
  let s := p_after [PO_Publish 8 (a_publish p_name 0 5 []); PO_Request (RO_Subscribe 1 (a_request p_name 0 []) [8] true)] in
  handle_track_status (table (requests s)) [8] (mkTrackStatus 0 [[100]] [1] []) = SA_Ok (mkRequestOk [MP_LargestObject (mkLocation 0 0)] []) /\
  existsb (fun o => match o with OUT_Answer _ (AN_Ok ok) => bool_decide (sok_parameters ok = []) | _ => false end) (outputs (requests s)) = true.
Proof. vm_compute. split; reflexivity. Qed.
