(* ===== verification/RequestStreams.v ===== *)
(** Request streams: what may open one, who serves it, and what may follow
    ([apps/relay/src/server/request_stream.rs], [message_handlers/mod.rs]). *)
From stdpp Require Import base.
From S2P Require Import Prelude Common Codes Control Namespaces.

Inductive RequestStreamKind : Type := RSK_Subscribe | RSK_Fetch | RSK_PublishNamespace | RSK_PrefixSubscription | RSK_Publish | RSK_TrackStatus.
#[export] Instance RequestStreamKind_eq_dec : EqDecision RequestStreamKind.
Proof. solve_decision. Defined.

Definition RequestStreamKind_of (msg : ControlMessage) : option RequestStreamKind :=
  match msg with
  | CM_Subscribe _ => Some RSK_Subscribe
  | CM_Fetch _ => Some RSK_Fetch
  | CM_PublishNamespace _ => Some RSK_PublishNamespace
  | CM_SubscribeNamespace _ | CM_SubscribeTracks _ => Some RSK_PrefixSubscription
  | CM_Publish _ => Some RSK_Publish
  | CM_TrackStatus _ => Some RSK_TrackStatus
  | _ => None
  end.

(** What becomes of a stream by its first message. *)
Inductive acceptance : Type :=
| AC_Serve (kind : RequestStreamKind) (request_id : Z)
| AC_Refuse (code : RequestErrorCode)
| AC_Reset (code : StreamResetCode)
| AC_CloseSession (code : TerminationCode).

Definition dispatch (msg : ControlMessage) : acceptance :=
  match RequestStreamKind_of msg, ControlMessage_request_id msg with
  | Some kind, Some request_id => AC_Serve kind request_id
  | _, _ => AC_CloseSession TC_ProtocolViolation
  end.
(** [active]: the request streams being served. *)
Definition accept (draining : bool) (active max_active_requests : Z) (msg : ControlMessage) : acceptance :=
  if negb (is_first (ControlMessage_get_type msg)) then AC_CloseSession TC_ProtocolViolation
  else if draining then AC_Refuse REC_GoingAway
  else if (0 <? max_active_requests) && (max_active_requests <=? active) then AC_Reset SRC_ExcessiveLoad
  else dispatch msg.

(** Who handles a message. *)
Inductive route : Type :=
| RT_PublishNamespace
| RT_Subscribe
| RT_TrackStatus
| RT_Fetch
| RT_Publish
| RT_PrefixSubscription
| RT_NotSupported
| RT_Nothing.

Definition determine_route (req : option PendingRequest) : route :=
  match req with
  | Some (PR_Fetch _) => RT_Fetch
  | Some (PR_Publish _) => RT_Publish
  | Some (PR_PublishNamespace _) => RT_PublishNamespace
  | Some (PR_Subscribe _) => RT_Subscribe
  | Some (PR_SubscribeNamespace _) | Some (PR_SubscribeTracks _) => RT_PrefixSubscription
  | Some (PR_RequestUpdate _) | None => RT_NotSupported
  end.

(** [MessageHandler::handle]; [opening_request_id] is of the request that opened the
    stream, [None] on the control stream, and [Err] closes the session. *)
Definition handle_message (inbound_requests : Z -> option PendingRequest) (msg : ControlMessage) (opening_request_id : option Z)
    : outcome TerminationCode route :=
  match msg with
  | CM_PublishNamespace _ => Ok RT_PublishNamespace
  | CM_SubscribeNamespace _ => Err TC_ProtocolViolation
  | CM_Subscribe _ => Ok RT_Subscribe
  | CM_TrackStatus _ => Ok RT_TrackStatus
  | CM_Fetch _ => Ok RT_Fetch
  | CM_Publish _ | CM_PublishDone _ => Ok RT_Publish
  | CM_RequestOk _ | CM_RequestError _ => match opening_request_id with Some _ => Ok RT_Nothing | None => Err TC_ProtocolViolation end
  | CM_SubscribeOk _ | CM_FetchOk _ => Err TC_ProtocolViolation
  | CM_RequestUpdate _ =>
      match opening_request_id with
      | Some target => Ok (determine_route (inbound_requests target))
      | None => Err TC_ProtocolViolation
      end
  | _ => Ok RT_Nothing
  end.
(** [MessageHandler::handle_prefix_subscription]. *)
Definition handle_prefix_subscription (msg : ControlMessage) : outcome TerminationCode route :=
  match msg with
  | CM_SubscribeNamespace _ | CM_SubscribeTracks _ => Ok RT_PrefixSubscription
  | _ => Err TC_ProtocolViolation
  end.

Definition rejected_follow_up (kind : RequestStreamKind) (msg : ControlMessage) : bool :=
  let is_update := match msg with CM_RequestUpdate _ => true | _ => false end in
  match kind with
  | RSK_PrefixSubscription => negb is_update
  | RSK_TrackStatus => is_update
  | _ => false
  end.
Definition handle_follow_up (inbound_requests : Z -> option PendingRequest) (kind : RequestStreamKind) (request_id : Z) (msg : ControlMessage)
    : outcome TerminationCode route :=
  if rejected_follow_up kind msg then Err TC_ProtocolViolation else handle_message inbound_requests msg (Some request_id).

(** Who serves the request that opened a stream. *)
Definition serve_stream (inbound_requests : Z -> option PendingRequest) (kind : RequestStreamKind) (request_id : Z) (msg : ControlMessage)
    : outcome TerminationCode route :=
  match kind with
  | RSK_PrefixSubscription => handle_prefix_subscription msg
  | _ => handle_message inbound_requests msg (Some request_id)
  end.
Definition route_of (kind : RequestStreamKind) : route :=
  match kind with
  | RSK_Subscribe => RT_Subscribe
  | RSK_Fetch => RT_Fetch
  | RSK_PublishNamespace => RT_PublishNamespace
  | RSK_PrefixSubscription => RT_PrefixSubscription
  | RSK_Publish => RT_Publish
  | RSK_TrackStatus => RT_TrackStatus
  end.

(** What the end of a stream cancels. *)
Definition cancels (kind : RequestStreamKind) : bool :=
  match kind with RSK_Publish | RSK_TrackStatus => false | _ => true end.

(** * Lemmas *)

(** A message that may open a stream has a kind and a Request ID, and no other has. *)
Lemma first_dispatched msg : is_first (ControlMessage_get_type msg) = true <-> exists kind id, dispatch msg = AC_Serve kind id.
Proof. destruct msg; (split; [intros [=]; do 2 eexists; reflexivity|intros (kind & id & [=]); reflexivity]) || (split; [discriminate|by intros (? & ? & [=])]). Qed.
(** A stream that is served is served by the handler of its request, whatever else the
    connection has asked for. *)
Lemma accepted_served draining active max msg kind id inbound : accept draining active max msg = AC_Serve kind id ->
  ControlMessage_request_id msg = Some id /\ serve_stream inbound kind id msg = Ok (route_of kind).
Proof.
  unfold accept. destruct (negb _); [done|]. destruct draining; [done|]. destruct (_ && _); [done|]. unfold dispatch.
  by destruct msg; intros [= <- <-].
Qed.
(** Under load the relay keeps to its limit, one stream at a time. *)
Lemma accept_bounded draining active max msg kind id : 0 < max -> accept draining active max msg = AC_Serve kind id -> active < max.
Proof.
  intros Hm. unfold accept. destruct (negb _); [done|]. destruct draining; [done|]. destruct (0 <? max) eqn:E; [|lia]. simpl.
  destruct (max <=? active) eqn:E'; [done|]. lia.
Qed.
(** A second SUBSCRIBE on a SUBSCRIBE's stream is served like the first; the stream's end
    cancels the first only. *)
Example second_request_follows sub inbound : handle_follow_up inbound RSK_Subscribe 0 (CM_Subscribe sub) = Ok RT_Subscribe.
Proof. reflexivity. Qed.
(** A publisher that closes its PUBLISH without PUBLISH_DONE stays a publisher of the track. *)
Example publish_closed_quietly : cancels RSK_Publish = false.
Proof. reflexivity. Qed.
