(* ===== verification/Fills.v ===== *)
(** The fills of a subscription: the fetch streams that FILL_PARAMETERS asks for
    ([apps/relay/src/server/fill.rs], with the map of their cancel senders in
    [subscription.rs] and of their streams in [client.rs]).

    What a fill covers is in [CombinedFilter], how its Objects are found in
    [FetchDelivery]; here is what the fills of one subscription share. *)
From stdpp Require Import gmap.
From S2P Require Import Prelude Varint Pair Common Codes TrackName LocationFilter RangeFilter Properties MessageParameter CombinedFilter.
From S2P Require Import Control Subgroup Datagram FetchObject ObjectForms DataStream SeenObjects TrackCache.
From S2P Require Import Streams Subscription Forwarding Tracks FetchRange FetchDelivery.

(** A fill that is delivered: the request that names it, its range and order, what it has
    written, the context of the next entry, and the signal to stop. *)
Record FillTask := mkFillTask {
  fl_request_id : Z;
  fl_range : Location * Location;
  fl_group_order : GroupOrder;
  fl_filter : CombinedFilter;
  fl_written : list FetchObject;
  fl_context : option FetchObjectContext;
  fl_stop : FetchStop
}.
Definition fl_set_stop (reason : FetchStop) (f : FillTask) : FillTask :=
  mkFillTask (fl_request_id f) (fl_range f) (fl_group_order f) (fl_filter f) (fl_written f) (fl_context f) reason.
Definition fl_wrote (entry : FetchObject) (f : FillTask) : FillTask :=
  mkFillTask (fl_request_id f) (fl_range f) (fl_group_order f) (fl_filter f) (fl_written f ++ [entry])
    (Some (next_context entry (fl_context f))) (fl_stop f).

(** [fill_streams]: the cancel senders, each with the fill that listens.  [send_streams]: the
    client's open fetch streams of this track, by the request that names them, with their
    bytes; [closed_streams] those that were finished or reset. *)
Record Fills := mkFills {
  fill_streams : gmap Z nat;
  fill_tasks : gmap nat FillTask;
  send_streams : gmap Z bytes;
  closed_streams : list (Z * bytes);
  opened_count : Z;
  next_fill : nat
}.
Definition Fills_new : Fills := mkFills ∅ ∅ ∅ [] 0 0.

(** The range, the order and the filter of the fill that is asked for, if there is anything
    to fill. *)
Definition fill_asked_for (state : SubscriptionState) (largest : option Location) : option ((Location * Location) * GroupOrder * CombinedFilter) :=
  match fill_parameters (subscribe_parameters state) with
  | None => None
  | Some fill =>
      let '(_, group_order) := fill_overrides fill (subscriber_priority state) (group_order state) in
      if negb (forward state) then None
      else
        match fill_fetch_range (fill_filter fill (location_filter state)) largest with
        | None => None
        | Some range => Some (range, group_order, fill_range_filter (subscribe_parameters state) fill)
        end
  end.
Definition open_fill_fetch_stream (s : Fills) (state : SubscriptionState) (largest : option Location) (request_id : Z) : Fills :=
  match fill_asked_for state largest with
  | None => s
  | Some (range, group_order, filter) =>
      let f := mkFillTask request_id range group_order filter [] None FS_Running in
      mkFills (<[request_id := next_fill s]> (fill_streams s)) (<[next_fill s := f]> (fill_tasks s)) (send_streams s) (closed_streams s)
        (opened_count s) (S (next_fill s))
  end.

(** The task is over: its sender goes, under the request's name. *)
Definition unregister_fill_stream (s : Fills) (n : nat) (f : FillTask) : Fills :=
  mkFills (delete (fl_request_id f) (fill_streams s)) (delete n (fill_tasks s)) (send_streams s) (closed_streams s) (opened_count s) (next_fill s).

Section WithTarget.
Context `{Target}.

(** An entry goes out; the stream is opened with the first.  One that cannot be encoded
    ends the task, and the stream stays as it is. *)
Definition fill_writes (s : Fills) (n : nat) (f : FillTask) (entry : FetchObject) : panics Fills :=
  let? header := match FetchHeader_serialize (mkFetchHeader (fl_request_id f)) with Ok b => Ok b | _ => Panic end in
  match FetchObject_serialize entry (fl_context f) (fl_group_order f) with
  | Ok b =>
      let out := default header (send_streams s !! fl_request_id f) in
      Ok (mkFills (fill_streams s) (<[n := fl_wrote entry f]> (fill_tasks s)) (<[fl_request_id f := out ++ b]> (send_streams s))
            (closed_streams s) (opened_count s) (next_fill s))
  | Err _ => Ok (unregister_fill_stream s n f)
  | Panic => Panic
  | Diverge => Diverge
  end.

(** The delivery has ended, by itself or because it was stopped; a stream it wrote to is
    closed, and counts.  One that has written nothing opens a stream for its end, unless it
    was cancelled. *)
Definition fill_ends (s : Fills) (n : nat) (f : FillTask) : panics Fills :=
  let? header := match FetchHeader_serialize (mkFetchHeader (fl_request_id f)) with Ok b => Ok b | _ => Panic end in
  let opened := match fl_written f, fl_stop f with [], (FS_Cancelled | FS_UpdateFailed) => false | _, _ => true end in
  let s := unregister_fill_stream s n f in
  let out := match fl_written f with [] => Some (default header (send_streams s !! fl_request_id f)) | _ => send_streams s !! fl_request_id f end in
  Ok (if opened then
        mkFills (fill_streams s) (fill_tasks s) (delete (fl_request_id f) (send_streams s))
          (closed_streams s ++ match out with Some out => [(fl_request_id f, out)] | None => [] end) (opened_count s + 1) (next_fill s)
      else s).

(** [stop_fill_streams]. *)
Definition stop_all (s : Fills) (reason : FetchStop) : Fills :=
  mkFills ∅ (fold_left (fun m (n : nat) => alter (fl_set_stop reason) n m) (map snd (map_to_list (fill_streams s))) (fill_tasks s))
    (send_streams s) (closed_streams s) (opened_count s) (next_fill s).

Inductive fill_op : Type :=
| FL_Open (state : SubscriptionState) (largest : option Location) (request_id : Z)
| FL_Write (n : nat) (entry : FetchObject)
| FL_End (n : nat)
| FL_Stop (reason : FetchStop).

(** A stopped fill writes no more. *)
Definition fill_stream_step (s : Fills) (op : fill_op) : panics Fills :=
  match op with
  | FL_Open state largest request_id => Ok (open_fill_fetch_stream s state largest request_id)
  | FL_Write n entry =>
      match fill_tasks s !! n with Some f => if is_running (fl_stop f) then fill_writes s n f entry else Ok s | None => Ok s end
  | FL_End n => match fill_tasks s !! n with Some f => fill_ends s n f | None => Ok s end
  | FL_Stop reason => Ok (stop_all s reason)
  end.
Definition run_fills (s : Fills) (ops : list fill_op) : panics Fills := for_each ops fill_stream_step s.

(** * Fills of different requests *)

(** No fill is opened for a request that has one under way, or a stream left over, and
    what is written can be encoded. *)
Definition on_its_own (s : Fills) (op : fill_op) : Prop :=
  match op with
  | FL_Open _ _ request_id => is_u64 request_id /\ send_streams s !! request_id = None /\
      forall n f, fill_tasks s !! n = Some f -> fl_request_id f <> request_id
  | FL_Write n entry => forall f, fill_tasks s !! n = Some f -> exists b, FetchObject_serialize entry (fl_context f) (fl_group_order f) = Ok b
  | FL_End _ => True
  | FL_Stop reason => reason <> FS_Running
  end.
Fixpoint run_apart (s : Fills) (ops : list fill_op) : Prop :=
  match ops with
  | [] => True
  | op :: ops => on_its_own s op /\ match fill_stream_step s op with Ok s' => run_apart s' ops | _ => False end
  end.

(** The bytes of one fill's stream. *)
Definition own_stream (request_id : Z) (order : GroupOrder) (entries : list FetchObject) (out : bytes) : Prop :=
  exists header body, FetchHeader_serialize (mkFetchHeader request_id) = Ok header /\ write_entries order None entries = Ok body /\ out = header ++ body.
Definition context_after (entries : list FetchObject) : option FetchObjectContext :=
  fold_left (fun prev e => Some (next_context e prev)) entries None.

Record fills_kept (s : Fills) : Prop := {
  fi_fresh : forall n f, fill_tasks s !! n = Some f -> (n < next_fill s)%nat;
  fi_names : forall n f, fill_tasks s !! n = Some f -> is_u64 (fl_request_id f) /\ fl_context f = context_after (fl_written f);
  fi_apart : forall n m f g, fill_tasks s !! n = Some f -> fill_tasks s !! m = Some g -> fl_request_id f = fl_request_id g -> n = m;
  fi_senders : forall n f, fill_tasks s !! n = Some f -> fl_stop f = FS_Running -> fill_streams s !! fl_request_id f = Some n;
  fi_streams : forall n f, fill_tasks s !! n = Some f ->
    match send_streams s !! fl_request_id f with
    | Some out => own_stream (fl_request_id f) (fl_group_order f) (fl_written f) out /\ fl_written f <> []
    | None => fl_written f = []
    end;
  fi_closed : forall request_id out, (request_id, out) ∈ closed_streams s -> exists order entries, own_stream request_id order entries out
}.

Lemma fill_entries_snoc order prev es e body b : write_entries order prev es = Ok body ->
  FetchObject_serialize e (fold_left (fun prev e => Some (next_context e prev)) es prev) order = Ok b ->
  write_entries order prev (es ++ [e]) = Ok (body ++ b).
Proof.
  revert prev body. induction es as [|x es IH]; intros prev body; simpl.
  - intros [= <-] ->. simpl. by rewrite app_nil_r.
  - destruct (FetchObject_serialize x prev order) as [b0|?| |]; try done. simpl. destruct (write_entries _ _ es) as [r|?| |] eqn:E; try done.
    intros [= <-] Hb. simpl. rewrite (IH _ _ E Hb). simpl. by rewrite app_assoc.
Qed.

Lemma stopped_tasks reason l (m : gmap nat FillTask) n f' : fold_left (fun m (n : nat) => alter (fl_set_stop reason) n m) l m !! n = Some f' ->
  exists f, m !! n = Some f /\ fl_request_id f' = fl_request_id f /\ fl_group_order f' = fl_group_order f /\ fl_written f' = fl_written f /\
    fl_context f' = fl_context f /\ (fl_stop f' = reason \/ fl_stop f' = fl_stop f /\ n ∉ l).
Proof.
  revert m. induction l as [|x l IH]; intros m; simpl.
  { intros E. exists f'. split_and!; try done. right. split; [done|apply not_elem_of_nil]. }
  intros (f & E & E1 & E2 & E3 & E4 & E5)%IH. rewrite lookup_alter in E. destruct (decide (x = n)) as [->|Hne].
  - destruct (m !! n) as [f0|]; [|done]. injection E as <-. exists f0. split_and!; try done. left. by destruct E5 as [|[-> _]].
  - exists f. split_and!; try done. destruct E5 as [|[? ?]]; [by left|]. right. split; [done|]. by apply not_elem_of_cons.
Qed.

(** Stopping reaches every fill that is under way. *)
Lemma stop_all_stops s reason n f : fills_kept s -> fill_tasks (stop_all s reason) !! n = Some f -> reason <> FS_Running -> fl_stop f <> FS_Running.
Proof.
  intros Hs E Hr. destruct (stopped_tasks _ _ _ _ _ E) as (f0 & E0 & Er & _ & _ & _ & [->|[-> Hn]]); [done|]. intros Hrun.
  apply Hn, list_elem_of_fmap. exists (fl_request_id f0, n). split; [done|]. apply elem_of_map_to_list. by apply (fi_senders s Hs).
Qed.

Lemma open_kept s state largest rid : fills_kept s -> is_u64 rid -> send_streams s !! rid = None ->
  (forall n f, fill_tasks s !! n = Some f -> fl_request_id f <> rid) -> fills_kept (open_fill_fetch_stream s state largest rid).
Proof.
  intros Hok Hu Hs Hno. unfold open_fill_fetch_stream. destruct (fill_asked_for _ _) as [[[range order] filter]|]; [|done].
  destruct Hok as [H1 H2 H3 H4 H5 H6].
  assert (Hnew : forall n f, fill_tasks s !! n = Some f -> n <> next_fill s) by (intros n f E%H1; lia).
  split; simpl; [| | | | |done].
  - intros n f [[<- _]|[_ E]]%lookup_insert_Some; [lia|]. apply H1 in E. lia.
  - intros n f [[_ <-]|[_ E]]%lookup_insert_Some; [done|]. eauto.
  - intros n m f g [[<- <-]|[Hn E]]%lookup_insert_Some [[<- <-]|[Hm E']]%lookup_insert_Some Er; simpl in *; try done; [|by destruct (Hno n f E)|eauto].
    symmetry in Er. by destruct (Hno m g E').
  - intros n f [[<- <-]|[Hn E]]%lookup_insert_Some; [intros _; apply lookup_insert_eq|]. intros Hr. rewrite lookup_insert_ne; [by apply H4|].
    apply not_eq_sym. eauto.
  - intros n f [[<- <-]|[Hn E]]%lookup_insert_Some; [simpl; by rewrite Hs|]. by apply (H5 n).
Qed.

Lemma unregister_kept s n f : fills_kept s -> fill_tasks s !! n = Some f -> fills_kept (unregister_fill_stream s n f).
Proof.
  intros [H1 H2 H3 H4 H5 H6] E. split; simpl; [| | | | |done].
  - intros m g [_ Eg]%lookup_delete_Some. eauto.
  - intros m g [_ Eg]%lookup_delete_Some. eauto.
  - intros m k g h [_ Eg]%lookup_delete_Some [_ Eh]%lookup_delete_Some. eauto.
  - intros m g [Hn Eg]%lookup_delete_Some Hr. rewrite lookup_delete_ne; [by apply H4|]. intros Er. apply Hn. eauto.
  - intros m g [_ Eg]%lookup_delete_Some. by apply (H5 m).
Qed.

Lemma write_kept s n f entry b : fills_kept s -> fill_tasks s !! n = Some f -> FetchObject_serialize entry (fl_context f) (fl_group_order f) = Ok b ->
  exists s', fill_writes s n f entry = Ok s' /\ fills_kept s'.
Proof.
  intros [H1 H2 H3 H4 H5 H6] E Eb. unfold fill_writes. destruct (H2 n f E) as [Hu Hc].
  destruct (FetchHeader_transmits (mkFetchHeader (fl_request_id f)) Hu) as (header & Eh & _). rewrite Eh. simpl. rewrite Eb.
  eexists. split; [done|]. split; simpl; [| | | | |done].
  - intros m g [[<- _]|[_ Eg]]%lookup_insert_Some; eauto.
  - intros m g [[<- <-]|[_ Eg]]%lookup_insert_Some; [|eauto]. simpl. split; [done|]. unfold context_after. rewrite fold_left_app. simpl.
    by rewrite Hc.
  - intros m k g h [[<- <-]|[Hm Eg]]%lookup_insert_Some [[<- <-]|[Hk Eh']]%lookup_insert_Some; simpl; intros Er; eauto.
  - intros m g [[<- <-]|[_ Eg]]%lookup_insert_Some; simpl; eauto.
  - intros m g [[<- <-]|[Hm Eg]]%lookup_insert_Some; simpl.
    + rewrite lookup_insert_eq. split; [|by destruct (fl_written f)]. pose proof (H5 n f E) as Hs.
      destruct (send_streams s !! fl_request_id f) as [out|]; simpl.
      * destruct Hs as [(h & body & Eh1 & Ebody & ->) _]. exists h, (body ++ b). split_and!; [done| |by rewrite app_assoc].
        apply fill_entries_snoc; [done|]. unfold context_after in Hc. by rewrite <- Hc.
      * exists header, b. rewrite Hs in *. split_and!; try done. simpl. unfold context_after in Hc. simpl in Hc. rewrite Hc in Eb. rewrite Eb. simpl. by rewrite app_nil_r.
    + rewrite lookup_insert_ne; [by apply (H5 m)|]. intros Er. apply Hm. eauto.
Qed.

Lemma ends_kept s n f : fills_kept s -> fill_tasks s !! n = Some f -> exists s', fill_ends s n f = Ok s' /\ fills_kept s'.
Proof.
  intros Hok E. unfold fill_ends. destruct (fi_names s Hok n f E) as [Hu _].
  destruct (FetchHeader_transmits (mkFetchHeader (fl_request_id f)) Hu) as (header & Eh & _). rewrite Eh. cbn [obind].
  pose proof (unregister_kept s n f Hok E) as Hun. pose proof (fi_streams s Hok n f E) as Hs. set (opened := match fl_written f with [] => _ | _ => _ end).
  eexists. split; [reflexivity|]. destruct opened; [|done]. destruct Hun as [U1 U2 U3 U4 U5 U6]. split; simpl in *; try done.
  - intros m g Eg. pose proof (U5 m g Eg) as Hg. apply lookup_delete_Some in Eg as [Hn Eg]. rewrite lookup_delete_ne; [done|].
    intros Er. apply Hn. by eapply (fi_apart s Hok).
  - intros rid o [Hin|Hin]%elem_of_app; [by apply U6|].
    destruct (send_streams s !! fl_request_id f) as [out|].
    + destruct Hs as [Hown Hne]. destruct (fl_written f) as [|e l] eqn:Ew; [done|]. apply list_elem_of_singleton in Hin. injection Hin as -> ->.
      exists (fl_group_order f), (e :: l). exact Hown.
    + rewrite Hs in Hin. apply list_elem_of_singleton in Hin. injection Hin as -> ->. exists (fl_group_order f), [], header, []. by rewrite app_nil_r.
Qed.

Lemma stop_kept s reason : fills_kept s -> reason <> FS_Running -> fills_kept (stop_all s reason).
Proof.
  intros Hok Hr. pose proof (stop_all_stops s reason) as Hstop. destruct Hok as [H1 H2 H3 H4 H5 H6].
  split; [| | | | |done].
  - intros n f' (f & E & _)%stopped_tasks. simpl. eauto.
  - intros n f' (f & E & -> & _ & -> & -> & _)%stopped_tasks. eauto.
  - intros n m f' g' (f & E & -> & _)%stopped_tasks (g & E' & -> & _)%stopped_tasks. eauto.
  - intros n f' E Hrun. exfalso. by eapply (Hstop n f').
  - intros n f' (f & E & Er & Eo & Ew & _)%stopped_tasks. simpl. rewrite Er, Eo, Ew. by apply (H5 n).
Qed.

(** Whatever fills of different requests do, none of them disturbs another: each that is
    under way is stopped when the subscription's fills are, and each closed stream carries
    the entries of one fill, written one after the other. *)
Theorem fills_apart ops : run_apart Fills_new ops ->
  exists s, run_fills Fills_new ops = Ok s /\
    (forall reason n f, fill_tasks (stop_all s reason) !! n = Some f -> reason <> FS_Running -> fl_stop f <> FS_Running) /\
    (forall request_id out, (request_id, out) ∈ closed_streams s -> exists order entries, own_stream request_id order entries out).
Proof.
  assert (Hnew : fills_kept Fills_new) by (split; try done; by intros ? ? ?%elem_of_nil).
  assert (Hgen : forall s, fills_kept s -> run_apart s ops -> exists s', run_fills s ops = Ok s' /\ fills_kept s').
  { clear Hnew. induction ops as [|op ops IH]; intros s Hok; [by exists s|]. intros [Ha Hrest]. unfold run_fills in *. simpl.
    assert (exists s1, fill_stream_step s op = Ok s1 /\ fills_kept s1) as (s1 & E & H1).
    { destruct op as [state largest rid|n entry|n|reason]; simpl in *.
      - destruct Ha as (Hu & Hs & Hno). eexists. split; [done|]. by apply open_kept.
      - destruct (fill_tasks s !! n) as [f|] eqn:En; [|by exists s]. destruct (is_running (fl_stop f)); [|by exists s].
        destruct (Ha f eq_refl) as [b Eb]. by eapply write_kept.
      - destruct (fill_tasks s !! n) as [f|] eqn:En; [by apply ends_kept|by exists s].
      - eexists. split; [done|]. by apply stop_kept. }
    rewrite E in Hrest |- *. by apply IH. }
  intros (s & E & Hok)%Hgen; [|done]. exists s. split; [done|]. split; [|by apply (fi_closed s Hok)].
  intros reason n f. by apply stop_all_stops.
Qed.
End WithTarget.

(** * A second fill of the same request

    A REQUEST_UPDATE that asks for a fill names it after the SUBSCRIBE, as the SUBSCRIBE's
    own fill is named. *)
Definition filling_subscribe : Subscribe := mkSubscribe 4 [[100]] [1] [MP_FillParameters [MP_LocationFilter (LF_AbsoluteStart (mkLocation 1 0))]].
Definition filling_state : option SubscriptionState := match SubscriptionState_from (SO_Subscribe filling_subscribe) with Ok s => Some s | _ => None end.
Definition entry_at (g o : Z) : FetchObject := FO_Object (mkFetchObjectPayload g 0 o 128 OFP_Subgroup None [7]).
Definition two_fills (more : list fill_op) : option Fills :=
  match filling_state with
  | Some state =>
      match @run_fills debug_build Fills_new
        ([FL_Open state (Some (mkLocation 3 4)) 4; FL_Write 0 (entry_at 1 0); FL_Write 0 (entry_at 3 0);
          FL_Open state (Some (mkLocation 3 4)) 4; FL_Write 1 (entry_at 1 0)] ++ more) with
      | Ok s => Some s
      | _ => None
      end
  | None => None
  end.

(** The first fill goes on when the subscription's fills are stopped: its sender was
    replaced. *)
Example first_fill_not_stopped :
  (fun s => map (fun x => (fst x, fl_stop (snd x))) (map_to_list (fill_tasks s))) <$> two_fills [FL_Stop FS_Cancelled] =
    Some [(1%nat, FS_Cancelled); (0%nat, FS_Running)].
Proof. vm_compute. reflexivity. Qed.

Fixpoint read_entries (n : nat) (prev : option FetchObjectContext) (bs : bytes) : list Location :=
  match n with
  | O => []
  | S n =>
      match @FetchObject_deserialize debug_build prev GO_Ascending bs with
      | (Ok e, rest) =>
          match e with FO_Object p => mkLocation (fp_group_id p) (fp_object_id p) | FO_EndOfRange _ g o => mkLocation g o end ::
          read_entries n (Some (next_context e prev)) rest
      | _ => []
      end
  end.
(** Both write to one stream, each as if it were alone: the second fill's {1, 0} is read as
    {5, 0}, and then the first one's {3, 1} as {5, 1}. *)
Example fills_share_a_stream :
  (fun s => (fun out => read_entries 4 None (drop 2 out)) <$> send_streams s !! 4) <$> two_fills [FL_Write 0 (entry_at 3 1)] =
    Some (Some [mkLocation 1 0; mkLocation 3 0; mkLocation 5 0; mkLocation 5 1]).
Proof. vm_compute. reflexivity. Qed.
