(* ===== verification/FetchRequests.v ===== *)
(** FETCH requests up to their delivery
    ([apps/relay/src/server/message_handlers/fetch_handler.rs], [handle], [cancel_fetch]
    and what sends a FETCH upstream).

    A handler may wait twice: for a fill that is in flight already, and for the publisher's
    answer.  In between others go on, so each stretch from one wait to the next is a step
    (opening the stream of a request upstream goes with asking).  The task that holds the
    upstream request stream is on its own, and so are the deliveries ([serve_fetch_stream]),
    of FETCHes and of the fills of SUBSCRIBEs: what they do about their gaps is here, each
    claim of groups and each request upstream; which groups a gap has, and what is written,
    is [FetchDelivery], so that here a gap is any groups.  A FETCH holds on to its track,
    so tracks stay; upstream SUBSCRIBEs are those of [Requests].  The text of the errors
    that the relay words itself is left out, save two. *)
From stdpp Require Import gmap.
From S2P Require Import Prelude Varint Common Codes TrackName LocationFilter RangeFilter Properties MessageParameter CombinedFilter.
From S2P Require Import Control Subgroup Datagram FetchObject ObjectForms DataStream SeenObjects TrackCache SwitchingSet Controller Namespaces.
From S2P Require Import Streams Subscription Forwarding Tracks FetchRange FetchDelivery Parameters TrackTable Requests.
From S2P Require Fills.

(** * State *)

#[export] Instance FetchStop_eq_dec : EqDecision FetchStop.
Proof. solve_decision. Defined.

Inductive UpstreamFetchResponse : Type :=
| UFR_Accepted (end_location : Location) (end_of_track : bool)
| UFR_Rejected (err : RequestError)
| UFR_Failed
| UFR_MalformedTrack.

(** What asking settled; the resolved range names the upstream request. *)
Inductive UpstreamRange : Type :=
| URG_Resolved (pending : Z) (end_location : Location) (end_of_track : bool)
| URG_Rejected (err : RequestError)
| URG_Unanswered
| URG_MalformedTrack.

(** What is delivered, and where it comes from: [fd_pending] is the upstream request that
    is under way for it. *)
Record fetch_delivery := mkDelivery {
  fd_start_location : Location;
  fd_end_location : Location;
  fd_group_order : GroupOrder;
  fd_pending : option Z;
  fd_filter : CombinedFilter
}.

(** Waiting for another FETCH; waiting for the publisher, with what lies in the channel
    of the answer ([Some None]: closed without one); delivering, with the signal to stop. *)
Inductive FetchPhase : Type :=
| FPH_Filling
| FPH_Asking (relay_request_id : Z) (largest : option Location) (response : option (option UpstreamFetchResponse))
| FPH_Delivering (d : fetch_delivery) (stop : FetchStop).
Record FetchTask := mkFetchTask {
  ft_fetch : Fetch;
  ft_filter : CombinedFilter;
  ft_claim : option nat;
  ft_phase : FetchPhase
}.
Definition set_fetch_phase (t : FetchTask) (p : FetchPhase) : FetchTask := mkFetchTask (ft_fetch t) (ft_filter t) (ft_claim t) p.
Definition set_claim (t : FetchTask) (c : option nat) : FetchTask := mkFetchTask (ft_fetch t) (ft_filter t) c (ft_phase t).
Definition fetch_track (t : FetchTask) : FullTrackName := Fetch_get_full_track_name (ft_fetch t).

(** Who delivers: a FETCH, or a fill, by its number. *)
Definition GapReader : Type := SubscriptionId + nat.
(** Who claims groups and asks upstream: the handler of a FETCH, or a delivery at a gap. *)
Definition Asker : Type := SubscriptionId + GapReader.

(** Between gaps; waiting for a fill in flight; at a gap that is asked for upstream; at one
    that is told to be unknown. *)
Inductive GapPhase : Type := GP_Walking | GP_Waiting | GP_Asked (relay_request_id : Z) | GP_Unknown.
#[export] Instance GapPhase_eq_dec : EqDecision GapPhase.
Proof. solve_decision. Defined.
(** The loop of a delivery: its gaps so far, the group it last waited at, and the claim it
    holds at a gap. *)
Record DeliveryLoop := mkDeliveryLoop {
  dl_track : FullTrackName;
  dl_delivery : fetch_delivery;
  dl_gap_count : Z;
  dl_waited : option Z;
  dl_claim : option nat;
  dl_phase : GapPhase
}.
Definition DeliveryLoop_new (name : FullTrackName) (d : fetch_delivery) : DeliveryLoop := mkDeliveryLoop name d 0 None None GP_Walking.
Definition loop_waits (l : DeliveryLoop) (g : Z) : DeliveryLoop :=
  mkDeliveryLoop (dl_track l) (dl_delivery l) (dl_gap_count l) (Some g) None GP_Waiting.
Definition loop_counted (l : DeliveryLoop) : DeliveryLoop :=
  mkDeliveryLoop (dl_track l) (dl_delivery l) (dl_gap_count l + 1) (dl_waited l) (dl_claim l) (dl_phase l).
Definition loop_at (l : DeliveryLoop) (claim : option nat) (p : GapPhase) : DeliveryLoop :=
  mkDeliveryLoop (dl_track l) (dl_delivery l) (dl_gap_count l) (dl_waited l) claim p.

(** The task of an upstream request: no answer yet, accepted, or past that. *)
Inductive UpstreamPhase : Type := UP_Waiting | UP_Accepted | UP_Parked.
#[export] Instance UpstreamPhase_eq_dec : EqDecision UpstreamPhase.
Proof. solve_decision. Defined.
Record UpstreamFetch := mkUpstreamFetch {
  uf_for : Asker;
  uf_track : FullTrackName;
  uf_publisher : Z;
  uf_phase : UpstreamPhase;
  uf_signal : option UpstreamRequestCancellation
}.
Definition uf_set_phase (u : UpstreamFetch) (p : UpstreamPhase) : UpstreamFetch :=
  mkUpstreamFetch (uf_for u) (uf_track u) (uf_publisher u) p (uf_signal u).
Definition uf_set_signal (reason : UpstreamRequestCancellation) (u : UpstreamFetch) : UpstreamFetch :=
  mkUpstreamFetch (uf_for u) (uf_track u) (uf_publisher u) (uf_phase u) (Some reason).

Inductive fetch_output : Type :=
| FEO_Ok (id : SubscriptionId) (m : FetchOk)
| FEO_Error (id : SubscriptionId) (code : RequestErrorCode) (phrase : option ReasonPhrase)
| FEO_Close (id : SubscriptionId) (code : TerminationCode)
| FEO_Ask (publisher : Z) (m : Fetch)
| FEO_ClosePublisher (publisher : Z) (code : TerminationCode).

(** [inbound_fetches] and [fetch_cancel_senders] are the clients' maps; a sender is there
    with its value, and with whether the delivery listens to it. *)
Record Fetches := mkFetches {
  fe_table : TrackTable;
  inbound_fetches : gmap SubscriptionId Fetch;
  fetch_cancel_senders : gmap SubscriptionId (FetchStop * bool);
  fetch_tasks : gmap SubscriptionId FetchTask;
  upstream_fetches : gmap Z UpstreamFetch;
  fe_next_request_id : Z;
  fe_sent : list fetch_output;
  deliveries : gmap GapReader DeliveryLoop;
  fe_next_fill : nat
}.
Definition Fetches_new (tm : TrackTable) : Fetches := mkFetches tm ∅ ∅ ∅ ∅ 1 [] ∅ 0.

Definition with_fe_table (s : Fetches) (tm : TrackTable) : Fetches :=
  mkFetches tm (inbound_fetches s) (fetch_cancel_senders s) (fetch_tasks s) (upstream_fetches s) (fe_next_request_id s) (fe_sent s) (deliveries s) (fe_next_fill s).
Definition with_inbound (s : Fetches) (m : gmap SubscriptionId Fetch) : Fetches :=
  mkFetches (fe_table s) m (fetch_cancel_senders s) (fetch_tasks s) (upstream_fetches s) (fe_next_request_id s) (fe_sent s) (deliveries s) (fe_next_fill s).
Definition with_cancel_senders (s : Fetches) (m : gmap SubscriptionId (FetchStop * bool)) : Fetches :=
  mkFetches (fe_table s) (inbound_fetches s) m (fetch_tasks s) (upstream_fetches s) (fe_next_request_id s) (fe_sent s) (deliveries s) (fe_next_fill s).
Definition with_fetch_tasks (s : Fetches) (m : gmap SubscriptionId FetchTask) : Fetches :=
  mkFetches (fe_table s) (inbound_fetches s) (fetch_cancel_senders s) m (upstream_fetches s) (fe_next_request_id s) (fe_sent s) (deliveries s) (fe_next_fill s).
Definition with_upstream_fetches (s : Fetches) (m : gmap Z UpstreamFetch) : Fetches :=
  mkFetches (fe_table s) (inbound_fetches s) (fetch_cancel_senders s) (fetch_tasks s) m (fe_next_request_id s) (fe_sent s) (deliveries s) (fe_next_fill s).
Definition with_fe_next (s : Fetches) (n : Z) : Fetches :=
  mkFetches (fe_table s) (inbound_fetches s) (fetch_cancel_senders s) (fetch_tasks s) (upstream_fetches s) n (fe_sent s) (deliveries s) (fe_next_fill s).
Definition put_sent (s : Fetches) (o : list fetch_output) : Fetches :=
  mkFetches (fe_table s) (inbound_fetches s) (fetch_cancel_senders s) (fetch_tasks s) (upstream_fetches s) (fe_next_request_id s) (fe_sent s ++ o) (deliveries s) (fe_next_fill s).
Definition with_deliveries (s : Fetches) (m : gmap GapReader DeliveryLoop) : Fetches :=
  mkFetches (fe_table s) (inbound_fetches s) (fetch_cancel_senders s) (fetch_tasks s) (upstream_fetches s) (fe_next_request_id s) (fe_sent s) m (fe_next_fill s).
Definition with_next_fill (s : Fetches) (n : nat) : Fetches :=
  mkFetches (fe_table s) (inbound_fetches s) (fetch_cancel_senders s) (fetch_tasks s) (upstream_fetches s) (fe_next_request_id s) (fe_sent s) (deliveries s) n.
Definition put_delivery (s : Fetches) (r : GapReader) (l : DeliveryLoop) : Fetches := with_deliveries s (<[r := l]> (deliveries s)).
Definition put_task (s : Fetches) (id : SubscriptionId) (t : FetchTask) : Fetches := with_fetch_tasks s (<[id := t]> (fetch_tasks s)).

(** ** Tracks *)

Definition on_fetch_track (s : Fetches) (name : FullTrackName) (f : Track -> Track) : Fetches :=
  with_fe_table s (with_tracks (fe_table s) (alter (fun e => set_track e (f (te_track e))) name (tracks (fe_table s)))).
Definition on_cache (s : Fetches) (name : FullTrackName) (f : TrackCache -> TrackCache) : Fetches :=
  on_fetch_track s name (fun t => set_cache t (f (cache (content t)))).
Definition track_of (s : Fetches) (name : FullTrackName) : option Track := te_track <$> tracks (fe_table s) !! name.
Definition largest_known (s : Fetches) (name : FullTrackName) : option Location := track_of s name ≫= Tracks.largest_object.

(** Which requests have no task any more, and the signals that reach those that have. *)
Definition fetch_gone (s : Fetches) (request_id : Z) : bool := negb (is_some (upstream_fetches s !! request_id)).
Definition pass_signals (s : Fetches) (name : FullTrackName) : Fetches :=
  match track_of s name with
  | Some t =>
      let s := with_upstream_fetches s (fold_left (fun m (x : Z * UpstreamRequestCancellation) => alter (uf_set_signal (snd x)) (fst x) m)
                 (signals (upstream_requests (upstream t))) (upstream_fetches s)) in
      on_fetch_track s name no_signals
  | None => s
  end.

(** * Asking upstream *)

(** What the handler finds: the publishers of the track, whether the request stream opens,
    whether the publisher's track is known to be malformed, and whether what is written
    upstream and downstream gets out. *)
Record fetch_env := mkEnv {
  env_publishers : list Z;
  env_opens : bool;
  env_malformed : bool;
  env_sends : bool;
  env_answers : bool
}.

Definition send_upstream_fetch_for_range (env : fetch_env) (s : Fetches) (asker : Asker) (name : FullTrackName)
    (filter : LocationFilter) (group_order : GroupOrder) : Fetches * option Z :=
  match env_publishers env with
  | [] => (s, None)
  | publisher :: _ =>
      let relay_request_id := fe_next_request_id s in
      let s := with_fe_next s (wrap64 (relay_request_id + 2)) in
      let m := Fetch_new_with_location_filter relay_request_id (ftn_namespace name) (ftn_name name) filter
                 (upstream_fetch (upstream_order group_order)) in
      if negb (env_opens env) then (s, None)
      else if negb (env_sends env) then (s, None)
      else
        let u := mkUpstreamFetch asker name publisher UP_Waiting None in
        let s := on_fetch_track s name (fun t => with_upstream t (with_requests (upstream t)
                   (register (fetch_gone s) (upstream_requests (upstream t)) relay_request_id publisher URK_Fetch))) in
        let s := with_upstream_fetches s (<[relay_request_id := u]> (upstream_fetches s)) in
        let s := if env_malformed env
                 then pass_signals (on_fetch_track s name (fun t =>
                        with_upstream t (cancel_upstream_request (fetch_gone s) (upstream t) relay_request_id URC_MalformedTrack))) name
                 else s in
        (put_sent s [FEO_Ask publisher m], Some relay_request_id)
  end.

(** What the answer makes of the range, and of the Largest Object that is known. *)
Definition range_answered (relay_request_id : Z) (response : option UpstreamFetchResponse) (largest : option Location)
    : UpstreamRange * option Location :=
  match response with
  | None => (URG_Unanswered, largest)
  | Some (UFR_Accepted end_location end_of_track) =>
      let largest := match largest with
                     | Some known => if Location_ltb known end_location then Some end_location else Some known
                     | None => Some end_location
                     end in
      (URG_Resolved relay_request_id end_location end_of_track, largest)
  | Some (UFR_Rejected err) =>
      (if bool_decide (re_error_code err = REC_Redirect) then URG_Unanswered else URG_Rejected err, largest)
  | Some UFR_Failed => (URG_Unanswered, largest)
  | Some UFR_MalformedTrack => (URG_MalformedTrack, largest)
  end.

(** * The handler *)

(** The claim is dropped. *)
Definition release_claim (s : Fetches) (name : FullTrackName) (claim : option nat) : Fetches :=
  match claim with
  | Some claim => on_cache s name (fun c => drop_claim c claim)
  | None => s
  end.
Definition drop_fetch (s : Fetches) (id : SubscriptionId) (t : FetchTask) : Fetches :=
  with_fetch_tasks (release_claim s (fetch_track t) (ft_claim t)) (delete id (fetch_tasks s)).

(** [send_request_error], and the handler returns. *)
Definition send_request_error (s : Fetches) (id : SubscriptionId) (code : RequestErrorCode) (phrase : option ReasonPhrase) : Fetches :=
  let s := with_inbound s (delete id (inbound_fetches s)) in
  let s := with_cancel_senders s (delete id (fetch_cancel_senders s)) in
  put_sent s [FEO_Error id code phrase].
Definition fail_fetch (s : Fetches) (id : SubscriptionId) (t : FetchTask) (code : RequestErrorCode) (phrase : option ReasonPhrase) : Fetches :=
  send_request_error (drop_fetch s id t) id code phrase.

Definition upstream_end_of (range : UpstreamRange) : option Location :=
  match range with URG_Resolved _ end_location _ => Some end_location | _ => None end.

(** The range that is served, or the error. *)
Definition range_to_serve (filter : LocationFilter) (largest : option Location) (range : UpstreamRange)
    (cached_last : Z -> option Z) (publishers : list Z) : outcome (RequestErrorCode * ReasonPhrase) (Location * Location) :=
  match resolve_fetch_range filter largest with
  | Ok (start, end_) =>
      let upstream_end := upstream_end_of range in
      let cached_last := if (object end_ =? U64_MAX) && negb (is_some upstream_end) then cached_last (group end_) else None in
      Ok (start, concrete_end_location end_ upstream_end cached_last)
  | Err FRE_ProtocolViolation => Panic
  | Err FRE_InvalidRange =>
      let rejection := match range with URG_Rejected err => Some err | _ => None end in
      empty_range_outcome filter rejection (negb (is_some rejection) && match publishers with [] => false | _ => true end)
  | Panic => Panic
  | Diverge => Diverge
  end.

Definition pending_of (range : UpstreamRange) : option Z :=
  match range with URG_Resolved relay_request_id _ _ => Some relay_request_id | _ => None end.

(** The FETCH is answered, and delivered; unless its track turned out malformed, or the
    answer cannot be written. *)
Definition answer_fetch (env : fetch_env) (s : Fetches) (id : SubscriptionId) (t : FetchTask) (range : UpstreamRange)
    (start_location end_location : Location) : Fetches :=
  let stop := match fetch_cancel_senders s !! id with Some (stop, _) => stop | None => FS_Running end in
  let s := with_cancel_senders s (<[id := (stop, true)]> (fetch_cancel_senders s)) in
  if bool_decide (stop = FS_MalformedTrack) then fail_fetch s id t REC_MalformedTrack (Some (mkReasonPhrase MALFORMED_TRACK))
  else if negb (env_answers env) then
    put_sent (with_cancel_senders (drop_fetch s id t) (delete id (fetch_cancel_senders s))) [FEO_Close id TC_InternalError]
  else
    let properties := if include_properties (fetch_parameters (ft_fetch t))
                      then match track_of s (fetch_track t) with Some track => track_properties track | None => [] end else [] in
    let end_of_track := match range with
                        | URG_Resolved _ e end_of_track => end_of_track && bool_decide (e = end_location)
                        | _ => false
                        end in
    let d := mkDelivery start_location end_location (Fetch_group_order (ft_fetch t)) (pending_of range) (ft_filter t) in
    let s := put_delivery s (inl id) (DeliveryLoop_new (fetch_track t) d) in
    put_sent (put_task s id (set_fetch_phase t (FPH_Delivering d stop))) [FEO_Ok id (mkFetchOk end_of_track end_location [] properties)].

(** What is known now of what was asked.  Without an upstream request of its own, the
    delivery does without the claim. *)
Definition settle_fetch (env : fetch_env) (s : Fetches) (id : SubscriptionId) (t : FetchTask) (largest : option Location)
    (range : UpstreamRange) : panics Fetches :=
  let cached_last g := track_of s (fetch_track t) ≫= fun track => last_cached_object_id (cache (content track)) g in
  match range with
  | URG_MalformedTrack => Ok (fail_fetch s id t REC_MalformedTrack (Some (mkReasonPhrase MALFORMED_TRACK)))
  | _ =>
      match range_to_serve (Fetch_get_location_filter (ft_fetch t)) largest range cached_last (env_publishers env) with
      | Ok (start_location, end_location) =>
          let '(s, t) := if is_some (pending_of range) then (s, t) else (release_claim s (fetch_track t) (ft_claim t), set_claim t None) in
          Ok (answer_fetch env s id t range start_location end_location)
      | Err (code, phrase) => Ok (fail_fetch s id t code (Some phrase))
      | Panic => Panic
      | Diverge => Diverge
      end
  end.

(** The publisher is asked, unless what is held answers. *)
Definition ask_or_settle (env : fetch_env) (s : Fetches) (id : SubscriptionId) (t : FetchTask) (largest : option Location)
    (answered_locally : bool) : panics Fetches :=
  if answered_locally then settle_fetch env s id t largest URG_Unanswered
  else
    let '(s, asked) := send_upstream_fetch_for_range env s (inl id) (fetch_track t) (Fetch_get_location_filter (ft_fetch t))
                         (Fetch_group_order (ft_fetch t)) in
    match asked with
    | Some relay_request_id => Ok (put_task s id (set_fetch_phase t (FPH_Asking relay_request_id largest None)))
    | None => settle_fetch env s id t largest URG_Unanswered
    end.

(** A claim, when the groups are free. *)
Definition take_claim (s : Fetches) (name : FullTrackName) (first last : Z) : Fetches * option nat :=
  match track_of s name with
  | Some track =>
      match claim_fill (cache (content track)) first last with
      | (tc, inl claim) => (on_cache s name (fun _ => tc), Some claim)
      | (_, inr _) => (s, None)
      end
  | None => (s, None)
  end.

Definition handle_fetch (config : AppConfig) (env : fetch_env) (s : Fetches) (id : SubscriptionId) (fetch : Fetch) : panics Fetches :=
  let name := Fetch_get_full_track_name fetch in
  let location_filter := Fetch_get_location_filter fetch in
  if is_some (reserved_namespace_rejection (fetch_track_namespace fetch) (fetch_track_name fetch))
  then Ok (send_request_error s id REC_DoesNotExist None)
  else
    match object_filter (fetch_parameters fetch) (max_filter_ranges config) with
    | Panic => Panic
    | Diverge => Diverge
    | Err _ => Ok (send_request_error s id REC_InvalidFilter None)
    | Ok filter =>
        match resolve_fetch_range location_filter None with
        | Err FRE_ProtocolViolation => Ok (put_sent s [FEO_Close id TC_ProtocolViolation])
        | _ =>
            if negb (is_some (get_track (fe_table s) name)) && match env_publishers env with [] => true | _ => false end
            then Ok (send_request_error s id REC_DoesNotExist None)
            else
              let '(tm, _, _) := get_or_create_track (fe_table s) name
                (fun relay_track_id => Track_new relay_track_id (dedup_retained_groups config) TS_Pending TO_CacheOnly) in
              let s := with_inbound (with_fe_table s tm) (<[id := fetch]> (inbound_fetches s)) in
              let t := mkFetchTask fetch filter None FPH_Filling in
              let largest := largest_known s name in
              let answered_locally := match end_location location_filter with
                                      | Some requested_end => local_state_answers largest requested_end
                                      | None => false
                                      end in
              match end_location location_filter, groups_to_claim location_filter with
              | Some _, Some (first, last) =>
                  if answered_locally then ask_or_settle env s id t largest true
                  else
                    match take_claim s name first last with
                    | (s, Some claim) => ask_or_settle env s id (set_claim t (Some claim)) largest false
                    | (s, None) => Ok (put_task s id t)
                    end
              | _, _ => ask_or_settle env s id t largest answered_locally
              end
        end
    end.

(** The fill in flight is done, or has been waited for long enough. *)
Definition fill_waited (env : fetch_env) (s : Fetches) (id : SubscriptionId) (t : FetchTask) : panics Fetches :=
  let filter := Fetch_get_location_filter (ft_fetch t) in
  match end_location filter, groups_to_claim filter with
  | Some requested_end, Some (first, last) =>
      let largest := largest_known s (fetch_track t) in
      let '(s, claim) := take_claim s (fetch_track t) first last in
      ask_or_settle env s id (set_claim t claim) largest (local_state_answers largest requested_end)
  | _, _ => Ok s
  end.

(** * Stopping *)

Definition stop_task (stop : FetchStop) (t : FetchTask) : FetchTask :=
  match ft_phase t with FPH_Delivering d _ => set_fetch_phase t (FPH_Delivering d stop) | _ => t end.
(** The sender is used for the last time. *)
Definition stop_fetch (s : Fetches) (id : SubscriptionId) (stop : FetchStop) : Fetches :=
  match fetch_cancel_senders s !! id with
  | Some (_, listened) =>
      let s := with_cancel_senders s (delete id (fetch_cancel_senders s)) in
      if listened : bool then with_fetch_tasks s (alter (stop_task stop) id (fetch_tasks s)) else s
  | None => s
  end.
Definition update_fetch (s : Fetches) (id : SubscriptionId) : Fetches := stop_fetch s id FS_UpdateFailed.
Definition cancel_fetch (s : Fetches) (id : SubscriptionId) : Fetches :=
  stop_fetch (with_inbound s (delete id (inbound_fetches s))) id FS_Cancelled.

Definition cancel_downstream_fetch (s : Fetches) (id : SubscriptionId) : Fetches :=
  let listened := match fetch_cancel_senders s !! id with Some (_, listened) => listened | None => false end in
  let s := with_cancel_senders s (<[id := (FS_MalformedTrack, listened)]> (fetch_cancel_senders s)) in
  if listened : bool then with_fetch_tasks s (alter (stop_task FS_MalformedTrack) id (fetch_tasks s)) else s.
Definition cancel_downstream_fetches (s : Fetches) (name : FullTrackName) : Fetches :=
  fold_left cancel_downstream_fetch
    (map fst (List.filter (fun x : SubscriptionId * Fetch => bool_decide (Fetch_get_full_track_name (snd x) = name)) (map_to_list (inbound_fetches s)))) s.

(** The track's publisher broke its rules; what becomes of the track itself is
    [FetchDelivery.handle_malformed_upstream_fetch]. *)
Definition malformed_fetch (s : Fetches) (name : FullTrackName) (publisher : Z) : Fetches :=
  let s := cancel_downstream_fetches s name in
  pass_signals (on_fetch_track s name (handle_malformed_upstream_fetch (fetch_gone s) publisher)) name.

(** * Deliveries *)

Definition is_filling_gap (l : DeliveryLoop) : bool := match dl_phase l with GP_Asked _ | GP_Unknown => true | _ => false end.

(** A gap is filled, with the claim or without one: the publisher is asked for what the
    delivery wants of it, unless there were too many gaps. *)
Definition fill_delivery_gap (config : AppConfig) (env : fetch_env) (s : Fetches) (r : GapReader) (l : DeliveryLoop) (claim : option nat)
    (gap_start gap_end : Z) : Fetches :=
  if max_upstream_fetch_gaps config <=? dl_gap_count l then put_delivery s r (loop_at l claim GP_Unknown)
  else
    let d := dl_delivery l in
    let start_location := delivered_start (fd_start_location d) (fd_end_location d) (fd_group_order d) in
    let '(first, last) := requested_part gap_start gap_end start_location (fd_end_location d) in
    let '(s, asked) := send_upstream_fetch_for_range env s (inr r) (dl_track l) (range_filter first last) (fd_group_order d) in
    put_delivery s r (loop_at (loop_counted l) claim match asked with Some relay_request_id => GP_Asked relay_request_id | None => GP_Unknown end).

(** The delivery comes, at [group], to groups that the cache does not account for.  What it
    has an upstream request of its own for, it claims and asks for no more. *)
Definition delivery_gap (config : AppConfig) (env : fetch_env) (s : Fetches) (r : GapReader) (l : DeliveryLoop) (group gap_start gap_end : Z) : Fetches :=
  if is_some (fd_pending (dl_delivery l)) then s
  else
    match take_claim s (dl_track l) gap_start gap_end with
    | (s, Some claim) => fill_delivery_gap config env s r l (Some claim) gap_start gap_end
    | (s, None) =>
        if bool_decide (dl_waited l = Some group) then fill_delivery_gap config env s r l None gap_start gap_end
        else put_delivery s r (loop_waits l group)
    end.
(** The claim is dropped with the turn. *)
Definition gap_done (s : Fetches) (r : GapReader) (l : DeliveryLoop) : Fetches :=
  put_delivery (release_claim s (dl_track l) (dl_claim l)) r (loop_at l None GP_Walking).
Definition drop_delivery (s : Fetches) (r : GapReader) : Fetches :=
  match deliveries s !! r with
  | Some l => with_deliveries (release_claim s (dl_track l) (dl_claim l)) (delete r (deliveries s))
  | None => s
  end.

(** What a subscription asks for with FILL_PARAMETERS ([fill.rs]). *)
Definition open_fill (s : Fetches) (name : FullTrackName) (state : SubscriptionState) : Fetches :=
  match track_of s name ≫= fun track => Fills.fill_asked_for state (Tracks.largest_object track) with
  | Some ((start_location, end_location), order, filter) =>
      let l := DeliveryLoop_new name (mkDelivery start_location end_location order None filter) in
      put_delivery (with_next_fill s (S (fe_next_fill s))) (inr (fe_next_fill s)) l
  | None => s
  end.

(** The delivery of a FETCH has ended. *)
Definition end_delivery (s : Fetches) (id : SubscriptionId) (t : FetchTask) : Fetches :=
  let s := drop_fetch (drop_delivery s (inl id)) id t in
  let s := with_inbound s (delete id (inbound_fetches s)) in
  with_cancel_senders s (delete id (fetch_cancel_senders s)).

(** * The upstream request *)

Definition put_response (relay_request_id : Z) (r : option UpstreamFetchResponse) (t : FetchTask) : FetchTask :=
  match ft_phase t with
  | FPH_Asking asked largest None => if asked =? relay_request_id then set_fetch_phase t (FPH_Asking asked largest (Some r)) else t
  | _ => t
  end.
(** A delivery does not wait for the answer, only for what follows it. *)
Definition respond (s : Fetches) (relay_request_id : Z) (u : UpstreamFetch) (r : option UpstreamFetchResponse) : Fetches :=
  match uf_for u with
  | inl id => with_fetch_tasks s (alter (put_response relay_request_id r) id (fetch_tasks s))
  | inr _ => s
  end.
Definition set_upstream (s : Fetches) (relay_request_id : Z) (u : UpstreamFetch) : Fetches :=
  with_upstream_fetches s (<[relay_request_id := u]> (upstream_fetches s)).

Inductive fetch_message : Type :=
| FM_FetchOk (ok : FetchOk)
| FM_RequestError (err : RequestError)
| FM_RequestUpdate
| FM_Other
| FM_Closed.

(** A message on the upstream request stream. *)
Definition upstream_fetch_message (s : Fetches) (relay_request_id : Z) (u : UpstreamFetch) (msg : fetch_message) : Fetches :=
  let close := [FEO_ClosePublisher (uf_publisher u) TC_ProtocolViolation] in
  match uf_phase u with
  | UP_Waiting =>
      match msg with
      | FM_FetchOk ok =>
          respond (set_upstream s relay_request_id (uf_set_phase u UP_Accepted)) relay_request_id u
            (Some (UFR_Accepted (fok_end_location ok) (fok_end_of_track ok)))
      | FM_RequestError err => respond (set_upstream s relay_request_id (uf_set_phase u UP_Parked)) relay_request_id u (Some (UFR_Rejected err))
      | FM_RequestUpdate =>
          put_sent (respond (set_upstream s relay_request_id (uf_set_phase u UP_Parked)) relay_request_id u (Some UFR_Failed)) close
      | FM_Other | FM_Closed => respond (set_upstream s relay_request_id (uf_set_phase u UP_Parked)) relay_request_id u None
      end
  | UP_Accepted =>
      put_sent (set_upstream s relay_request_id (uf_set_phase u UP_Parked)) (match msg with FM_RequestUpdate => close | _ => [] end)
  | UP_Parked => s
  end.

(** The task ends: the request is forgotten. *)
Definition forget_upstream_fetch (s : Fetches) (relay_request_id : Z) (u : UpstreamFetch) : Fetches :=
  let s := with_upstream_fetches s (delete relay_request_id (upstream_fetches s)) in
  on_fetch_track s (uf_track u) (fun t => with_upstream t (with_requests (upstream t) (unregister (upstream_requests (upstream t)) relay_request_id))).

Definition upstream_fetch_cancelled (s : Fetches) (relay_request_id : Z) (u : UpstreamFetch) (reason : UpstreamRequestCancellation) : Fetches :=
  let s := match uf_phase u with
           | UP_Waiting => respond s relay_request_id u (Some match reason with URC_MalformedTrack => UFR_MalformedTrack | URC_Cancelled => UFR_Failed end)
           | _ => s
           end in
  forget_upstream_fetch s relay_request_id u.

(** Whether someone still reads the Objects: the handler, or the delivery. *)
Definition reads (relay_request_id : Z) (t : FetchTask) : bool :=
  match ft_phase t with
  | FPH_Filling => false
  | FPH_Asking asked _ _ => asked =? relay_request_id
  | FPH_Delivering d _ => bool_decide (fd_pending d = Some relay_request_id)
  end.
Definition has_reader (s : Fetches) (relay_request_id : Z) (u : UpstreamFetch) : bool :=
  match uf_for u with
  | inl id => match fetch_tasks s !! id with Some t => reads relay_request_id t | None => false end
  | inr r => match deliveries s !! r with Some l => bool_decide (dl_phase l = GP_Asked relay_request_id) | None => false end
  end.

(** * Steps *)

Inductive fetch_op : Type :=
| FOP_Fetch (id : SubscriptionId) (env : fetch_env) (m : Fetch)
| FOP_FillWaited (id : SubscriptionId) (env : fetch_env)
| FOP_Answered (id : SubscriptionId) (env : fetch_env)
| FOP_TimedOut (id : SubscriptionId) (env : fetch_env)
| FOP_UpstreamMessage (relay_request_id : Z) (msg : fetch_message)
| FOP_UpstreamCancelled (relay_request_id : Z)
| FOP_UpstreamDone (relay_request_id : Z)
| FOP_Update (id : SubscriptionId)
| FOP_Cancel (id : SubscriptionId)
| FOP_Delivered (id : SubscriptionId)
| FOP_OpenFill (name : FullTrackName) (state : SubscriptionState)
| FOP_Gap (r : GapReader) (env : fetch_env) (group gap_start gap_end : Z)
| FOP_GapWaited (r : GapReader)
| FOP_GapDone (r : GapReader)
| FOP_Filled (n : nat)
| FOP_Malformed (name : FullTrackName) (publisher : Z)
| FOP_Kept (name : FullTrackName) (object : Object)
| FOP_Absent (name : FullTrackName) (from to : Location)
| FOP_Evicted (name : FullTrackName) (group : Z).

Definition evict (g : Z) (c : TrackCache) : TrackCache := mkTrackCache (delete g (groups c)) (absent c) (fills c) (next_lock c).
Definition is_delivering (t : FetchTask) : bool := match ft_phase t with FPH_Delivering _ _ => true | _ => false end.

(** Follow-ups on a request stream are read once the handler has returned. *)
Definition handler_returned (s : Fetches) (id : SubscriptionId) : bool :=
  match fetch_tasks s !! id with Some t => is_delivering t | None => true end.

(** What a look at the cancel signal finds; the fills' signals are [Fills]'. *)
Definition reader_stop (s : Fetches) (r : GapReader) : FetchStop :=
  match r with
  | inl id => match fetch_tasks s !! id with Some t => match ft_phase t with FPH_Delivering _ stop => stop | _ => FS_Running end | None => FS_Running end
  | inr _ => FS_Running
  end.

Definition fetch_step (config : AppConfig) (s : Fetches) (op : fetch_op) : panics Fetches :=
  match op with
  | FOP_Fetch id env m => handle_fetch config env s id m
  | FOP_FillWaited id env =>
      match fetch_tasks s !! id with
      | Some t => match ft_phase t with FPH_Filling => fill_waited env s id t | _ => Ok s end
      | None => Ok s
      end
  | FOP_Answered id env =>
      match fetch_tasks s !! id with
      | Some t =>
          match ft_phase t with
          | FPH_Asking asked largest (Some response) =>
              let '(range, largest) := range_answered asked response largest in settle_fetch env s id t largest range
          | _ => Ok s
          end
      | None => Ok s
      end
  | FOP_TimedOut id env =>
      match fetch_tasks s !! id with
      | Some t => match ft_phase t with FPH_Asking _ largest None => settle_fetch env s id t largest URG_Unanswered | _ => Ok s end
      | None => Ok s
      end
  | FOP_UpstreamMessage request_id msg =>
      Ok match upstream_fetches s !! request_id with
         | Some u => if is_some (uf_signal u) then s else upstream_fetch_message s request_id u msg
         | None => s
         end
  | FOP_UpstreamCancelled request_id =>
      Ok match upstream_fetches s !! request_id with
         | Some u => match uf_signal u with Some reason => upstream_fetch_cancelled s request_id u reason | None => s end
         | None => s
         end
  | FOP_UpstreamDone request_id =>
      Ok match upstream_fetches s !! request_id with
         | Some u => if has_reader s request_id u then s else forget_upstream_fetch s request_id u
         | None => s
         end
  | FOP_Update id => Ok (if handler_returned s id then update_fetch s id else s)
  | FOP_Cancel id => Ok (if handler_returned s id then cancel_fetch s id else s)
  | FOP_Delivered id =>
      Ok match fetch_tasks s !! id with Some t => if is_delivering t then end_delivery s id t else s | None => s end
  | FOP_OpenFill name state => Ok (open_fill s name state)
  | FOP_Gap r env group gap_start gap_end =>
      Ok match deliveries s !! r with
         | Some l =>
             match dl_phase l, reader_stop s r with
             | GP_Walking, FS_Running => delivery_gap config env s r l group gap_start gap_end
             | _, _ => s
             end
         | None => s
         end
  | FOP_GapWaited r =>
      Ok match deliveries s !! r with
         | Some l => match dl_phase l with GP_Waiting => put_delivery s r (loop_at l None GP_Walking) | _ => s end
         | None => s
         end
  | FOP_GapDone r =>
      Ok match deliveries s !! r with Some l => if is_filling_gap l then gap_done s r l else s | None => s end
  | FOP_Filled n => Ok (drop_delivery s (inr n))
  | FOP_Malformed name publisher => Ok (malformed_fetch s name publisher)
  | FOP_Kept name object => Ok (on_fetch_track s name (fun t => cache_fetched_object t object))
  | FOP_Absent name from to => Ok (on_cache s name (fun c => mark_absent c from to))
  | FOP_Evicted name group => Ok (on_cache s name (evict group))
  end.
Definition run_fetches (config : AppConfig) (s : Fetches) (ops : list fetch_op) : panics Fetches := for_each ops (fetch_step config) s.
