(* ===== verification/FetchesAnswered.v ===== *)
(** Each FETCH is answered once, and what it holds meanwhile is accounted for. *)
From stdpp Require Import gmap.
From S2P Require Import Prelude Varint Common Codes TrackName LocationFilter RangeFilter Properties MessageParameter CombinedFilter.
From S2P Require Import Control Subgroup Datagram FetchObject ObjectForms DataStream SeenObjects TrackCache SwitchingSet Controller Namespaces.
From S2P Require Import Streams Subscription Forwarding Tracks FetchRange FetchDelivery Parameters TrackTable Requests RequestTables.
From S2P Require Import FetchRequests.

(** * What is looked at *)

(** The fills in flight for a track, with the number of the next. *)
Definition fills_of (s : Fetches) (name : FullTrackName) : option (list Fill * nat) :=
  (fun t => (fills (cache (content t)), next_lock (cache (content t)))) <$> track_of s name.
(** What handlers, with the deliveries they become, and deliveries at gaps claim. *)
Definition claim_of (s : Fetches) (h : Asker) : option (FullTrackName * option nat) :=
  match h with
  | inl id => (fun t => (fetch_track t, ft_claim t)) <$> fetch_tasks s !! id
  | inr r => (fun l => (dl_track l, dl_claim l)) <$> deliveries s !! r
  end.
Definition registered_of (s : Fetches) (name : FullTrackName) : list UpstreamRequest :=
  match track_of s name with Some t => registered (upstream_requests (upstream t)) | None => [] end.
(** The upstream request whose answer a handler waits for. *)
Definition asked_by (t : FetchTask) : option Z := match ft_phase t with FPH_Asking rid _ None => Some rid | _ => None end.
Definition asks (s : Fetches) (id : SubscriptionId) : option Z := fetch_tasks s !! id ≫= asked_by.
Definition is_answer_to (id : SubscriptionId) (o : fetch_output) : bool :=
  match o with FEO_Ok id' _ | FEO_Error id' _ _ | FEO_Close id' _ => bool_decide (id' = id) | _ => false end.
Definition answers_of (s : Fetches) (id : SubscriptionId) : list fetch_output := List.filter (is_answer_to id) (fe_sent s).

(** A task that has asked a publisher, whose answer or Objects it awaits. *)
Definition has_asked (t : FetchTask) : bool :=
  match ft_phase t with FPH_Filling => false | FPH_Asking _ _ _ => true | FPH_Delivering d _ => is_some (fd_pending d) end.
Definition delivery_of (t : FetchTask) : option fetch_delivery := match ft_phase t with FPH_Delivering d _ => Some d | _ => None end.
(** Whether groups are being filled: the publisher has been asked, or it is not going to be
    and the subscriber is told so. *)
Definition is_filling (s : Fetches) (h : Asker) : Prop :=
  match h with
  | inl id => exists t, fetch_tasks s !! id = Some t /\ has_asked t = true
  | inr r => exists l, deliveries s !! r = Some l /\ is_filling_gap l = true
  end.
Definition goes_forward (m : Fetch) : Prop := resolve_fetch_range (Fetch_get_location_filter m) None <> Err FRE_ProtocolViolation.
Definition task_ok (t : FetchTask) : Prop := goes_forward (ft_fetch t) /\ (is_Some (ft_claim t) -> has_asked t = true).

(** * Invariants *)

(** The claims and the fills in flight are the same. *)
Record claims_ok (s : Fetches) : Prop := {
  cl_fresh : forall name l n f, fills_of s name = Some (l, n) -> f ∈ l -> (busy f < n)%nat;
  cl_owned : forall name l n f, fills_of s name = Some (l, n) -> f ∈ l -> exists h, claim_of s h = Some (name, Some (busy f));
  cl_held : forall h name c, claim_of s h = Some (name, Some c) -> exists l n f, fills_of s name = Some (l, n) /\ f ∈ l /\ busy f = c;
  cl_inj : forall h h' name c, claim_of s h = Some (name, Some c) -> claim_of s h' = Some (name, Some c) -> h = h'
}.

Record upstream_ok (s : Fetches) : Prop := {
  up_next : forall rid u, upstream_fetches s !! rid = Some u -> rid < fe_next_request_id s;
  up_registered : forall name r, r ∈ registered_of s name -> exists u, upstream_fetches s !! ur_request_id r = Some u /\ uf_track u = name;
  up_asked : forall id rid, asks s id = Some rid -> exists u, upstream_fetches s !! rid = Some u /\ uf_for u = inl id /\ uf_phase u = UP_Waiting
}.

Definition answered_ok (started : list SubscriptionId) (s : Fetches) (id : SubscriptionId) : Prop :=
  match fetch_tasks s !! id with
  | Some t => id ∈ started /\ if is_delivering t then exists m, answers_of s id = [FEO_Ok id m] else answers_of s id = []
  | None => if bool_decide (id ∈ started) then exists a, answers_of s id = [a] else answers_of s id = []
  end.

(** A delivery that is under way: at a gap it has no upstream request of its own, and only
    there does it claim; one of a FETCH is what its task delivers. *)
Definition delivery_ok (s : Fetches) (r : GapReader) (l : DeliveryLoop) : Prop :=
  (dl_phase l <> GP_Walking -> fd_pending (dl_delivery l) = None) /\ (is_Some (dl_claim l) -> is_filling_gap l = true) /\
  match r with
  | inl id => exists t, fetch_tasks s !! id = Some t /\ delivery_of t = Some (dl_delivery l) /\ fetch_track t = dl_track l
  | inr n => (n < fe_next_fill s)%nat
  end.
Definition deliveries_ok (s : Fetches) : Prop := forall r l, deliveries s !! r = Some l -> delivery_ok s r l.

(** [hand]: the request whose handler is at work. *)
Record fetches_ok (hand : option SubscriptionId) (started : list SubscriptionId) (s : Fetches) : Prop := {
  fo_claims : claims_ok s;
  fo_upstream : upstream_ok s;
  fo_answered : forall id, answered_ok started s id;
  fo_tasks : forall id t, hand <> Some id -> fetch_tasks s !! id = Some t -> task_ok t;
  fo_deliveries : deliveries_ok s
}.

(** ** What they depend on *)

Lemma claims_same s s' : (forall name, fills_of s' name = fills_of s name) -> (forall h, claim_of s' h = claim_of s h) ->
  claims_ok s -> claims_ok s'.
Proof. intros Hf Hc [H1 H2 H3 H4]. split; intros *; rewrite ?Hf, ?Hc; eauto; setoid_rewrite Hc || setoid_rewrite Hf; eauto. Qed.

Lemma upstream_less s s' : upstream_fetches s' = upstream_fetches s -> fe_next_request_id s <= fe_next_request_id s' ->
  (forall name r, r ∈ registered_of s' name -> r ∈ registered_of s name) ->
  (forall id rid, asks s' id = Some rid -> asks s id = Some rid) -> upstream_ok s -> upstream_ok s'.
Proof.
  intros Hu Hn Hr Ha [H1 H2 H3]. split; intros *; rewrite ?Hu; intros H; [specialize (H1 _ _ H); lia|eauto..].
Qed.

Lemma deliveries_same s s' : deliveries s' = deliveries s -> (fe_next_fill s <= fe_next_fill s')%nat ->
  (forall id t d, fetch_tasks s !! id = Some t -> delivery_of t = Some d ->
     exists t', fetch_tasks s' !! id = Some t' /\ delivery_of t' = Some d /\ fetch_track t' = fetch_track t) ->
  deliveries_ok s -> deliveries_ok s'.
Proof.
  intros Hd Hn Ht Hok r l E. rewrite Hd in E. destruct (Hok r l E) as (H1 & H2 & H3). split; [done|]. split; [done|].
  destruct r as [id|n]; [|lia]. destruct H3 as (t & Et & Ed & En). destruct (Ht id t _ Et Ed) as (t' & Et' & Ed' & En').
  exists t'. split_and!; try done. by rewrite En'.
Qed.

Lemma answers_same started s s' id : fe_sent s' = fe_sent s -> is_delivering <$> fetch_tasks s' !! id = is_delivering <$> fetch_tasks s !! id ->
  answered_ok started s id -> answered_ok started s' id.
Proof.
  unfold answered_ok, answers_of. intros ->. destruct (fetch_tasks s' !! id), (fetch_tasks s !! id); simpl; intros [=]; try done. by rewrite H0.
Qed.

Lemma track_of_on s name f n : track_of (on_fetch_track s name f) n = if decide (n = name) then f <$> track_of s n else track_of s n.
Proof.
  unfold track_of, on_fetch_track. simpl. destruct (decide (n = name)) as [->|Hn].
  - rewrite lookup_alter_eq. by destruct (tracks (fe_table s) !! name).
  - by rewrite lookup_alter_ne.
Qed.

(** What happens to a track's content, other than to its fills. *)
Definition quiet (f : Track -> Track) : Prop := forall t,
  fills (cache (content (f t))) = fills (cache (content t)) /\ next_lock (cache (content (f t))) = next_lock (cache (content t)) /\
  forall r, r ∈ registered (upstream_requests (upstream (f t))) -> r ∈ registered (upstream_requests (upstream t)).

Lemma on_track_ok hand started s name f : quiet f -> fetches_ok hand started s -> fetches_ok hand started (on_fetch_track s name f).
Proof.
  intros Hq [Hc Hu Ha Ht Hdl]. split.
  - apply (claims_same s); try done. intros n. unfold fills_of. rewrite track_of_on. destruct (decide _); [|done].
    destruct (track_of s n) as [t|]; [|done]. simpl. by destruct (Hq t) as (-> & -> & _).
  - apply (upstream_less s); try done. intros n r. unfold registered_of. rewrite track_of_on. destruct (decide _); [|done].
    destruct (track_of s n) as [t|]; [|done]. apply Hq.
  - done.
  - done.
  - done.
Qed.

(** Tasks that differ in what does not matter. *)
Definition like (t t' : FetchTask) : Prop :=
  ft_fetch t' = ft_fetch t /\ ft_claim t' = ft_claim t /\ is_delivering t' = is_delivering t /\ has_asked t' = has_asked t /\
  delivery_of t' = delivery_of t /\ forall rid, asked_by t' = Some rid -> asked_by t = Some rid.

Lemma task_like_refl t : like t t.
Proof. done. Qed.

Lemma tasks_like_ok hand started s m : (forall id, option_Forall2 like (fetch_tasks s !! id) (m !! id)) ->
  fetches_ok hand started s -> fetches_ok hand started (with_fetch_tasks s m).
Proof.
  intros Hl [Hc Hu Ha Ht Hdl]. split.
  - apply (claims_same s); try done. intros [id|r]; [|done]. unfold claim_of. simpl. destruct (Hl id) as [t t' (E1 & E2 & _)|]; [|done].
    simpl. unfold fetch_track. by rewrite E1, E2.
  - apply (upstream_less s); try done. intros id rid. unfold asks. simpl. destruct (Hl id) as [t t' (_ & _ & _ & _ & _ & E)|]; [apply E|done].
  - intros id. apply (answers_same _ s); [done| |done]. simpl. destruct (Hl id) as [t t' (_ & _ & E & _)|]; [|done]. simpl. by rewrite E.
  - intros id t' Hh E. simpl in E. pose proof (Hl id) as H. rewrite E in H. inversion H as [t t0 (E1 & E2 & _ & E3 & _) Et|]. subst.
    destruct (Ht id t Hh (eq_sym Et)) as [Hf Hcl]. unfold task_ok. by rewrite E1, E2, E3.
  - apply (deliveries_same s); try done. intros id t d Et Ed. pose proof (Hl id) as H. rewrite Et in H.
    inversion H as [t0 t' (E1 & _ & _ & _ & E4 & _) Ex Et'|]. subst. exists t'. split; [done|]. unfold fetch_track. by rewrite E4, E1.
Qed.

Lemma alter_like (f : FetchTask -> FetchTask) (m : gmap SubscriptionId FetchTask) (id id' : SubscriptionId) : (forall t, like t (f t)) -> option_Forall2 like (m !! id') (alter f id m !! id').
Proof.
  intros Hf. rewrite lookup_alter. destruct (decide _) as [->|]; destruct (m !! id'); constructor; auto using task_like_refl.
Qed.

Lemma stop_like stop t : like t (stop_task stop t).
Proof. unfold stop_task. destruct t as [f F c [| |d st]]; try apply task_like_refl. done. Qed.

Lemma response_like rid r t : like t (put_response rid r t).
Proof.
  unfold put_response. destruct t as [f F c [|asked l [x|]|d st]]; try apply task_like_refl. simpl. destruct (asked =? rid); [|apply task_like_refl].
  by split_and!.
Qed.

(** Senders, requests and upstream messages do not matter to them. *)
Lemma maps_ok hand started s inbound senders : fetches_ok hand started s ->
  fetches_ok hand started (with_cancel_senders (with_inbound s inbound) senders).
Proof.
  intros [Hc Hu Ha Ht Hdl]. split; [by apply (claims_same s)|by apply (upstream_less s); try done; lia|done..].
Qed.
Lemma inbound_ok hand started s inbound : fetches_ok hand started s -> fetches_ok hand started (with_inbound s inbound).
Proof. intros H. exact (maps_ok _ _ _ inbound (fetch_cancel_senders s) H). Qed.
Lemma senders_ok hand started s senders : fetches_ok hand started s -> fetches_ok hand started (with_cancel_senders s senders).
Proof. intros H. pose proof (maps_ok _ _ _ (inbound_fetches s) senders H) as H'. by destruct s. Qed.
Lemma sent_ok hand started s o : (forall id, is_answer_to id o = false) -> fetches_ok hand started s -> fetches_ok hand started (put_sent s [o]).
Proof.
  intros Ho [Hc Hu Ha Ht Hdl]. split; [by apply (claims_same s)|by apply (upstream_less s); try done; lia| |done..].
  intros id. specialize (Ha id). unfold answered_ok, answers_of in *. simpl. rewrite List.filter_app. simpl. rewrite Ho, app_nil_r. exact Ha.
Qed.

(** * Claims *)

Lemma fills_of_on_cache s name f n : fills_of (on_cache s name f) n =
  if decide (n = name) then (fun t => (fills (f (cache (content t))), next_lock (f (cache (content t))))) <$> track_of s n else fills_of s n.
Proof. unfold fills_of, on_cache. rewrite track_of_on. destruct (decide _); [|done]. by destruct (track_of s n). Qed.
Lemma registered_of_on_cache s name f n : registered_of (on_cache s name f) n = registered_of s n.
Proof. unfold registered_of, on_cache. rewrite track_of_on. destruct (decide _); [|done]. by destruct (track_of s n). Qed.

Lemma fills_released s name claim n : fills_of (release_claim s name claim) n =
  match claim with
  | Some c => if decide (n = name) then (fun x => (List.filter (fun f => negb (Nat.eqb (busy f) c)) (fst x), snd x)) <$> fills_of s n
              else fills_of s n
  | None => fills_of s n
  end.
Proof.
  unfold release_claim. destruct claim as [c|]; [|done]. rewrite fills_of_on_cache. destruct (decide _); [|done].
  unfold fills_of. by destruct (track_of s n).
Qed.
Lemma registered_released s name claim n : registered_of (release_claim s name claim) n = registered_of s n.
Proof. unfold release_claim. destruct claim; [apply registered_of_on_cache|done]. Qed.
(** Only the track changes. *)
Lemma released_rest s name claim : exists tm, release_claim s name claim = with_fe_table s tm.
Proof. unfold release_claim. destruct claim; [by eexists|exists (fe_table s); by destruct s]. Qed.

Lemma claims_released s s' h name claim : claims_ok s -> claim_of s h = Some (name, claim) ->
  (forall n, fills_of s' n = fills_of (release_claim s name claim) n) -> (forall h', h' <> h -> claim_of s' h' = claim_of s h') ->
  (forall name c, claim_of s' h <> Some (name, Some c)) -> claims_ok s'.
Proof.
  intros [H1 H2 H3 H4] Ecl Hf Hc Hid.
  assert (Hin : forall n l k f, fills_of s' n = Some (l, k) -> f ∈ l ->
            exists l0, fills_of s n = Some (l0, k) /\ f ∈ l0 /\ Some (n, Some (busy f)) <> claim_of s h).
  { intros n l k f. rewrite Hf, fills_released, Ecl. destruct claim as [c|]; [|by eauto].
    destruct (decide _) as [->|Hn]; [|intros E ?; exists l; split_and!; try done; congruence].
    destruct (fills_of s name) as [[l0 n0]|]; [|done]. intros [= <- <-] [Hin Hb]%in_filter. exists l0. split_and!; try done.
    apply negb_true_iff, Nat.eqb_neq in Hb. congruence. }
  split.
  - intros n l k f E Hl. destruct (Hin _ _ _ _ E Hl) as (l0 & E0 & Hl0 & _). eauto.
  - intros n l k f E Hl. destruct (Hin _ _ _ _ E Hl) as (l0 & E0 & Hl0 & Hne). destruct (H2 _ _ _ _ E0 Hl0) as [h' Hh'].
    exists h'. rewrite Hc; [done|]. intros ->. congruence.
  - intros h' n c E. destruct (decide (h' = h)) as [->|Hne]; [by apply Hid in E|]. rewrite (Hc _ Hne) in E.
    destruct (H3 _ _ _ E) as (l & k & f & El & Hl & <-). rewrite Hf, fills_released. destruct claim as [c|]; [|by eauto].
    destruct (decide _) as [->|Hn]; [|by eauto]. rewrite El. simpl. do 2 eexists. exists f. split_and!; try done. apply in_filter. split; [done|].
    apply negb_true_iff, Nat.eqb_neq. intros <-. apply Hne. eapply H4; [exact E|exact Ecl].
  - intros i j n c Ei Ej. destruct (decide (i = h)) as [->|Hi]; [by apply Hid in Ei|].
    destruct (decide (j = h)) as [->|Hj]; [by apply Hid in Ej|]. rewrite Hc in Ei, Ej by done. eauto.
Qed.

Lemma take_claim_takes s name first last s' c : take_claim s name first last = (s', Some c) -> exists track,
  track_of s name = Some track /\ c = next_lock (cache (content track)) /\
  (forall n, fills_of s' n = if decide (n = name) then Some (fills (cache (content track)) ++ [mkFill first last c], S c) else fills_of s n) /\
  (forall n, registered_of s' n = registered_of s n) /\ exists tm, s' = with_fe_table s tm.
Proof.
  unfold take_claim. destruct (track_of s name) as [track|] eqn:Etr; [|done].
  unfold claim_fill. destruct (List.find _ _); [done|]. intros [= <- <-]. exists track. split_and!; try done.
  - intros n. rewrite fills_of_on_cache. destruct (decide _) as [->|]; [|done]. by rewrite Etr.
  - intros n. apply registered_of_on_cache.
  - by eexists.
Qed.

Lemma claims_taken s h name first last s1 c s' : claims_ok s -> take_claim s name first last = (s1, Some c) ->
  (forall n c, claim_of s h <> Some (n, Some c)) -> (forall n, fills_of s' n = fills_of s1 n) ->
  (forall h', claim_of s' h' = if decide (h' = h) then Some (name, Some c) else claim_of s h') -> claims_ok s'.
Proof.
  intros [H1 H2 H3 H4] (track & Etr & Ek & Ef' & _)%take_claim_takes Hno Hf Ecl. set (k := next_lock _) in Ek. subst c.
  assert (Ef : fills_of s name = Some (fills (cache (content track)), k)) by (unfold fills_of; by rewrite Etr).
  assert (Hlt : forall h' c, claim_of s h' = Some (name, Some c) -> (c < k)%nat).
  { intros h' c (l & n & f & El & Hl & <-)%H3. rewrite Ef in El. simplify_eq. eauto. }
  assert (Hold : forall n l m f, fills_of s n = Some (l, m) -> f ∈ l -> exists h', claim_of s' h' = Some (n, Some (busy f))).
  { intros n l m f E Hl. destruct (H2 _ _ _ _ E Hl) as [h' Eh]. exists h'. rewrite Ecl. destruct (decide _) as [->|]; [by apply Hno in Eh|done]. }
  split.
  - intros n l m f. rewrite Hf, Ef'. destruct (decide _) as [->|]; [|by apply H1].
    intros [= <- <-] [Hl|Hl]%elem_of_app; [specialize (H1 _ _ _ _ Ef Hl); lia|]. apply list_elem_of_singleton in Hl as ->. simpl. lia.
  - intros n l m f. rewrite Hf, Ef'. destruct (decide _) as [->|]; [|apply Hold]. intros [= <- <-] [Hl|Hl]%elem_of_app; [by eapply Hold|].
    apply list_elem_of_singleton in Hl as ->. exists h. rewrite Ecl. by rewrite decide_True.
  - intros h' n c. rewrite Ecl. setoid_rewrite Hf. setoid_rewrite Ef'. destruct (decide _) as [->|_].
    + intros [= <- <-]. rewrite decide_True by done. do 2 eexists. exists (mkFill first last k). split_and!; [done| |done]. apply in_last.
    + intros (l & m & f & El & Hl & <-)%H3. destruct (decide _) as [->|_]; [|by exists l, m, f]. rewrite Ef in El. injection El as <- <-.
      do 2 eexists. exists f. split_and!; [done| |done]. by apply in_snoc.
  - intros i j n c. rewrite !Ecl. destruct (decide (i = h)) as [->|Hi], (decide (j = h)) as [->|Hj]; try done; [| |by apply H4].
    + intros [= <- <-] H%Hlt. lia.
    + intros H [= <- <-]. apply Hlt in H. lia.
Qed.

Lemma claims_alike s s' : (forall name, fills_of s' name = fills_of s name) ->
  (forall h name c, claim_of s' h = Some (name, Some c) <-> claim_of s h = Some (name, Some c)) -> claims_ok s -> claims_ok s'.
Proof.
  intros Hf Hc [H1 H2 H3 H4]. split.
  - intros name l n f. rewrite Hf. apply H1.
  - intros name l n f. rewrite Hf. intros E Hl. destruct (H2 _ _ _ _ E Hl) as [h Hh]. exists h. by apply Hc.
  - intros h name c E%Hc. setoid_rewrite Hf. by apply (H3 h).
  - intros h h' name c E%Hc E'%Hc. by eapply H4.
Qed.

(** ** Deliveries *)

Lemma not_delivering t : is_delivering t = false -> delivery_of t = None.
Proof. unfold is_delivering, delivery_of. by destruct (ft_phase t). Qed.
Lemma no_delivery s id t : deliveries_ok s -> fetch_tasks s !! id = Some t -> is_delivering t = false -> deliveries s !! inl id = None.
Proof.
  intros Hd Et Hn. destruct (deliveries s !! inl id) as [l|] eqn:E; [|done]. destruct (Hd _ _ E) as (_ & _ & t' & Et' & Ed & _).
  rewrite Et in Et'. injection Et' as <-. by rewrite (not_delivering t Hn) in Ed.
Qed.
(** What becomes of a task that does not deliver is all the same to the deliveries. *)
Lemma deliveries_put s s' id t : deliveries_ok s -> fetch_tasks s !! id = Some t -> is_delivering t = false ->
  deliveries s' = deliveries s -> fe_next_fill s' = fe_next_fill s -> (forall i, i <> id -> fetch_tasks s' !! i = fetch_tasks s !! i) -> deliveries_ok s'.
Proof.
  intros Hok Et Hd Edl En El. apply (deliveries_same s); [done|lia| |done]. intros i t' d Ei Edv. exists t'. split; [|done].
  rewrite El; [done|]. intros ->. rewrite Et in Ei. injection Ei as <-. by rewrite (not_delivering t Hd) in Edv.
Qed.
Lemma new_delivery_ok hand started s r l : deliveries s !! r = None -> dl_claim l = None -> delivery_ok s r l ->
  fetches_ok hand started s -> fetches_ok hand started (put_delivery s r l).
Proof.
  intros Enone Ecl Hl [Hc Hu Ha Ht Hdl]. split; try done.
  - apply (claims_alike s); try done. intros [id|r'] name c; [done|]. simpl. destruct (decide (r' = r)) as [->|Hne].
    + rewrite lookup_insert_eq, Enone. simpl. by rewrite Ecl.
    + by rewrite lookup_insert_ne.
  - by apply (upstream_less s); try done; lia.
  - intros r' l'. simpl. intros [[<- <-]|[_ E]]%lookup_insert_Some; [exact Hl|exact (Hdl r' l' E)].
Qed.

(** * The handler at work *)

Lemma answers_put s o id : answers_of (put_sent s [o]) id = answers_of s id ++ if is_answer_to id o then [o] else [].
Proof. unfold answers_of. simpl. rewrite List.filter_app. simpl. by destruct (is_answer_to id o). Qed.
Lemma answer_to_other id id' o : is_answer_to id o = true -> id' <> id -> is_answer_to id' o = false.
Proof. destruct o; simpl; try done; intros ->%bool_decide_eq_true Hne; by apply bool_decide_eq_false. Qed.

Lemma asks_delete s s' id id' rid : (forall i, fetch_tasks s' !! i = if decide (i = id) then None else fetch_tasks s !! i) ->
  asks s' id' = Some rid -> asks s id' = Some rid.
Proof. intros Hd. unfold asks. rewrite Hd. by destruct (decide _). Qed.

Lemma drop_tasks s id t i : fetch_tasks (drop_fetch s id t) !! i = if decide (i = id) then None else fetch_tasks s !! i.
Proof.
  unfold drop_fetch, release_claim. destruct (ft_claim t); simpl; (destruct (decide _) as [->|]; [apply lookup_delete_eq|by apply lookup_delete_ne]).
Qed.
Lemma drop_deliveries s id t : deliveries (drop_fetch s id t) = deliveries s /\ fe_next_fill (drop_fetch s id t) = fe_next_fill s.
Proof. unfold drop_fetch, release_claim. by destruct (ft_claim t). Qed.
Lemma drop_sent s id t : fe_sent (drop_fetch s id t) = fe_sent s.
Proof. unfold drop_fetch, release_claim. by destruct (ft_claim t). Qed.

Lemma drop_claims s id t : claims_ok s -> fetch_tasks s !! id = Some t -> claims_ok (drop_fetch s id t).
Proof.
  intros Hc Et. apply (claims_released s _ (inl id) (fetch_track t) (ft_claim t) Hc); [simpl; by rewrite Et|done|..].
  - intros [i|r] Hne; unfold claim_of; [|by destruct (drop_deliveries s id t) as [-> _]]. rewrite drop_tasks, decide_False; [done|congruence].
  - intros name c. unfold claim_of. by rewrite drop_tasks, decide_True.
Qed.
Lemma drop_upstream s id t : upstream_ok s -> upstream_ok (drop_fetch s id t).
Proof.
  intros Hu. apply (upstream_less s); try done.
  - unfold drop_fetch, release_claim. by destruct (ft_claim t).
  - unfold drop_fetch, release_claim. destruct (ft_claim t); simpl; lia.
  - intros name r. unfold drop_fetch. change (registered_of (with_fetch_tasks ?x _)) with (registered_of x). by rewrite registered_released.
  - intros id' rid. apply (asks_delete _ _ id), drop_tasks.
Qed.

(** The handler ends with an answer. *)
Lemma drop_keeps_deliveries s id t : deliveries_ok s -> fetch_tasks s !! id = Some t -> is_delivering t = false -> deliveries_ok (drop_fetch s id t).
Proof.
  intros Hd Et Hn. apply (deliveries_put s _ id t); try done; [apply drop_deliveries..|].
  intros i Hi. by rewrite drop_tasks, decide_False.
Qed.
Lemma finish_ok started s id t a : fetches_ok (Some id) started s -> fetch_tasks s !! id = Some t -> is_delivering t = false ->
  is_answer_to id a = true -> fetches_ok None started (put_sent (drop_fetch s id t) [a]).
Proof.
  intros [Hc Hu Ha Ht Hdl] Et Hd Hans. split.
  - apply (claims_same (drop_fetch s id t)); try done. by apply drop_claims.
  - apply (upstream_less (drop_fetch s id t)); try done. by apply drop_upstream.
  - intros id'. unfold answered_ok. rewrite answers_put. change (fetch_tasks (put_sent ?x _)) with (fetch_tasks x). rewrite drop_tasks.
    specialize (Ha id'). unfold answered_ok in Ha. unfold answers_of in *. rewrite drop_sent. destruct (decide (id' = id)) as [->|Hne].
    + rewrite Et, Hd in Ha. destruct Ha as [Hin ->]. rewrite bool_decide_true by done. rewrite Hans. by exists a.
    + rewrite (answer_to_other id id' a), app_nil_r by done. exact Ha.
  - intros id' t' _. change (fetch_tasks (put_sent ?x _)) with (fetch_tasks x). rewrite drop_tasks.
    destruct (decide _); [done|]. apply Ht. congruence.
  - exact (drop_keeps_deliveries s id t Hdl Et Hd).
Qed.
Lemma fail_ok started s id t code phrase : fetches_ok (Some id) started s -> fetch_tasks s !! id = Some t -> is_delivering t = false ->
  fetches_ok None started (fail_fetch s id t code phrase).
Proof.
  intros Hok Et Hd. unfold fail_fetch, send_request_error.
  change (fetches_ok None started (with_cancel_senders (with_inbound (put_sent (drop_fetch s id t) [FEO_Error id code phrase])
    (delete id (inbound_fetches (drop_fetch s id t)))) (delete id (fetch_cancel_senders (drop_fetch s id t))))).
  apply maps_ok, finish_ok; try done. simpl. by apply bool_decide_eq_true.
Qed.

(** The task goes on, as the handler or as the delivery. *)
Lemma go_on_ok started s id t t' o : fetches_ok (Some id) started s -> fetch_tasks s !! id = Some t -> is_delivering t = false ->
  ft_fetch t' = ft_fetch t -> ft_claim t' = ft_claim t -> task_ok t' ->
  (forall rid, asked_by t' = Some rid -> exists u, upstream_fetches s !! rid = Some u /\ uf_for u = inl id /\ uf_phase u = UP_Waiting) ->
  match o with Some m => is_delivering t' = true | None => is_delivering t' = false end ->
  fetches_ok None started (put_sent (put_task s id t') match o with Some m => [FEO_Ok id m] | None => [] end).
Proof.
  intros [Hc Hu Ha Ht Hdl] Et Hd Hm Hcl Hok Hask Ho.
  assert (El : forall i, (<[id := t']> (fetch_tasks s)) !! i = if decide (i = id) then Some t' else fetch_tasks s !! i).
  { intros i. destruct (decide _) as [->|]; [apply lookup_insert_eq|by apply lookup_insert_ne]. }
  split.
  - apply (claims_same s); try done. intros [i|r]; [|done]. simpl. rewrite El. destruct (decide _) as [->|]; [|done].
    rewrite Et. simpl. unfold fetch_track. by rewrite Hm, Hcl.
  - destruct Hu as [H1 H2 H3]. split; [done..|]. intros i rid. unfold asks. simpl. rewrite El. destruct (decide _) as [->|]; [apply Hask|apply H3].
  - intros i. specialize (Ha i). unfold answered_ok, answers_of in *. simpl. rewrite El, List.filter_app.
    destruct (decide (i = id)) as [->|Hne].
    + rewrite Et, Hd in Ha. destruct Ha as [Hin ->]. split; [done|]. destruct o as [m|]; rewrite Ho; [|done]. simpl. rewrite bool_decide_true by done. by exists m.
    + assert (E : List.filter (is_answer_to i) match o with Some m => [FEO_Ok id m] | None => [] end = []).
      { destruct o; [|done]. simpl. by rewrite bool_decide_false by congruence. }
      rewrite E, app_nil_r. exact Ha.
  - intros i x _ E. change (<[id := t']> (fetch_tasks s) !! i = Some x) in E. rewrite El in E. destruct (decide _) as [->|]; [congruence|].
    apply (Ht i); [congruence|done].
  - apply (deliveries_put s _ id t); try done. intros i Hi. simpl. by rewrite El, decide_False.
Qed.

(** What is in the handler's hand may be put down first. *)
Lemma put_put s id t t' : put_task (put_task s id t) id t' = put_task s id t'.
Proof. unfold put_task. simpl. unfold with_fetch_tasks. simpl. by rewrite insert_insert_eq. Qed.
Lemma release_put s id name claim t' : release_claim (put_task s id t') name claim = put_task (release_claim s name claim) id t'.
Proof. by destruct claim. Qed.
Lemma drop_put s id t t' : drop_fetch (put_task s id t') id t = drop_fetch s id t.
Proof. unfold drop_fetch. rewrite release_put. unfold with_fetch_tasks, release_claim. destruct (ft_claim t); simpl; by rewrite delete_insert_eq. Qed.
Lemma answer_put env s id t t' range a b : answer_fetch env (put_task s id t') id t range a b = answer_fetch env s id t range a b.
Proof.
  unfold answer_fetch. change (fetch_cancel_senders (put_task s id t')) with (fetch_cancel_senders s).
  set (stop := match _ with Some _ => _ | None => _ end).
  change (with_cancel_senders (put_task s id t') (<[id := (stop, true)]> (fetch_cancel_senders s)))
    with (put_task (with_cancel_senders s (<[id := (stop, true)]> (fetch_cancel_senders s))) id t').
  unfold fail_fetch. rewrite drop_put. destruct (bool_decide _); [done|]. destruct (env_answers env); simpl; [|done].
  change (put_delivery (put_task ?x id t') ?r ?l) with (put_task (put_delivery x r l) id t'). by rewrite put_put.
Qed.
Lemma settle_put env s id t t' largest range : settle_fetch env (put_task s id t') id t largest range = settle_fetch env s id t largest range.
Proof.
  unfold settle_fetch, fail_fetch. rewrite drop_put. change (track_of (put_task s id t')) with (track_of s).
  destruct range; try done; destruct (range_to_serve _ _ _ _ _) as [[a b]|[code phrase]| |]; try done; simpl; f_equal;
    rewrite ?release_put; apply answer_put.
Qed.
Lemma signals_put s name id t' : pass_signals (put_task s id t') name = put_task (pass_signals s name) id t'.
Proof. unfold pass_signals. change (track_of (put_task s id t') name) with (track_of s name). by destruct (track_of s name). Qed.
Lemma send_put env s id t' a name f o : send_upstream_fetch_for_range env (put_task s id t') a name f o =
  (put_task (fst (send_upstream_fetch_for_range env s a name f o)) id t', snd (send_upstream_fetch_for_range env s a name f o)).
Proof.
  unfold send_upstream_fetch_for_range. destruct (env_publishers env) as [|p ps]; [done|]. destruct (env_opens env), (env_sends env); try done.
  destruct (env_malformed env); [|done]. simpl. f_equal. set (s1 := with_upstream_fetches _ _).
  set (f1 := fun t => with_upstream t (cancel_upstream_request _ _ _ _)).
  change (with_upstream_fetches (on_fetch_track _ _ _) _) with (put_task (with_upstream_fetches
    (on_fetch_track (with_fe_next s (wrap64 (fe_next_request_id s + 2))) name (fun t => with_upstream t (with_requests (upstream t)
       (register (fetch_gone s) (upstream_requests (upstream t)) (fe_next_request_id s) p URK_Fetch))))
    (<[fe_next_request_id s := mkUpstreamFetch a name p UP_Waiting None]> (upstream_fetches s))) id t') in (value of s1).
  subst s1. change (on_fetch_track (put_task ?x id t') name ?f) with (put_task (on_fetch_track x name f) id t').
  by rewrite signals_put.
Qed.
Lemma ask_put env s id t t' largest local : ask_or_settle env (put_task s id t') id t largest local = ask_or_settle env s id t largest local.
Proof.
  unfold ask_or_settle. destruct local; [apply settle_put|]. rewrite send_put. destruct (send_upstream_fetch_for_range _ _ _ _ _ _) as [s1 [rid|]]; cbn [fst snd].
  - by rewrite put_put.
  - apply settle_put.
Qed.

(** ** What is found there *)

Lemma serve_returns filter largest range cached publishers : resolve_fetch_range filter None <> Err FRE_ProtocolViolation ->
  returns (range_to_serve filter largest range cached publishers).
Proof.
  unfold range_to_serve, resolve_fetch_range. intros Hf. destruct (match start_location filter None with Some _ => _ | None => _ end); [done|].
  destruct (fetch_range filter largest) as [[a b]|]; [done|]. unfold empty_range_outcome.
  destruct range; try done; simpl; repeat case_match; done.
Qed.

Lemma unclaim_ok hand started s id t : fetches_ok (Some id) started s -> fetch_tasks s !! id = Some t -> hand = Some id ->
  is_delivering t = false ->
  fetches_ok hand started (put_task (release_claim s (fetch_track t) (ft_claim t)) id (set_claim t None)).
Proof.
  intros [Hc Hu Ha Ht Hdl] Et -> Hd. set (s' := put_task _ _ _).
  assert (El : forall i, fetch_tasks s' !! i = if decide (i = id) then Some (set_claim t None) else fetch_tasks s !! i).
  { intros i. unfold s', release_claim. destruct (ft_claim t); simpl; (destruct (decide _) as [->|]; [apply lookup_insert_eq|by apply lookup_insert_ne]). }
  split.
  - apply (claims_released s s' (inl id) (fetch_track t) (ft_claim t) Hc); [simpl; by rewrite Et|done|..].
    + intros [i|r] Hne; [simpl; rewrite El, decide_False; [done|congruence]|]. unfold s', release_claim. by destruct (ft_claim t).
    + intros name c. simpl. by rewrite El, decide_True.
  - apply (upstream_less s); try done.
    + unfold s', release_claim. by destruct (ft_claim t).
    + unfold s', release_claim. destruct (ft_claim t); simpl; lia.
    + intros name r. change (registered_of s' name) with (registered_of (release_claim s (fetch_track t) (ft_claim t)) name). by rewrite registered_released.
    + intros i rid. unfold asks. rewrite El. destruct (decide _) as [->|]; [by rewrite Et|done].
  - intros i. apply (answers_same _ s); [|rewrite El; destruct (decide _) as [->|]; [by rewrite Et|done]|done].
    unfold s', release_claim. by destruct (ft_claim t).
  - intros i x Hi. rewrite El. destruct (decide _) as [->|]; [done|]. apply Ht. congruence.
  - apply (deliveries_put s s' id t); try done; [by unfold s', release_claim; destruct (ft_claim t)..|].
    intros i Hi. by rewrite El, decide_False.
Qed.

(** The range is known: whatever happens, the handler ends with an answer. *)
Lemma answer_ok env started s id t range a b : fetches_ok (Some id) started s -> fetch_tasks s !! id = Some t -> is_delivering t = false ->
  goes_forward (ft_fetch t) -> (is_Some (ft_claim t) -> is_some (pending_of range) = true) ->
  fetches_ok None started (answer_fetch env s id t range a b).
Proof.
  intros Hok Et Hd Hf Hc. unfold answer_fetch. set (stop := match _ with Some _ => _ | None => _ end).
  set (s1 := with_cancel_senders s _). assert (Hok1 : fetches_ok (Some id) started s1) by by apply senders_ok.
  destruct (bool_decide _); [by apply fail_ok|]. destruct (env_answers env); simpl.
  - set (d := mkDelivery _ _ _ _ _). set (t' := set_fetch_phase t _). set (m := mkFetchOk _ _ _ _).
    apply (new_delivery_ok None started (put_sent (put_task s1 id t') [FEO_Ok id m])); [|done|split_and!; try done; [by intros []|]|].
    + apply (no_delivery s id t); [apply Hok|done..].
    + exists t'. split; [apply lookup_insert_eq|done].
    + by apply (go_on_ok started s1 id t t' (Some m)).
  - apply (senders_ok None started (put_sent (drop_fetch s1 id t) [FEO_Close id TC_InternalError])). apply finish_ok; try done.
    simpl. by apply bool_decide_eq_true.
Qed.

Lemma settle_ok env started s id t largest range : fetches_ok (Some id) started s -> fetch_tasks s !! id = Some t -> is_delivering t = false ->
  goes_forward (ft_fetch t) -> exists s', settle_fetch env s id t largest range = Ok s' /\ fetches_ok None started s'.
Proof.
  intros Hok Et Hd Hf. unfold settle_fetch. set (cached := fun g : Z => track_of s (fetch_track t) ≫= _).
  assert (Hgo : exists s', match range_to_serve (Fetch_get_location_filter (ft_fetch t)) largest range cached (env_publishers env) with
      | Ok (a, b) => let '(s, t) := if is_some (pending_of range) then (s, t) else (release_claim s (fetch_track t) (ft_claim t), set_claim t None) in
                     Ok (answer_fetch env s id t range a b)
      | Err (code, phrase) => Ok (fail_fetch s id t code (Some phrase)) | Panic => Panic | Diverge => Diverge end = (Ok s' : panics Fetches) /\
      fetches_ok None started s').
  { pose proof (serve_returns _ largest range cached (env_publishers env) Hf) as Hr.
    destruct (range_to_serve _ _ _ _ _) as [[a b]|[code phrase]| |]; try done.
    - destruct (is_some (pending_of range)) eqn:Ep; eexists; (split; [reflexivity|]).
      + by apply answer_ok.
      + rewrite <- (answer_put _ _ _ _ (set_claim t None)). apply answer_ok; try done; [by apply unclaim_ok| |by intros []]. apply lookup_insert_eq.
    - eexists. split; [done|]. by apply fail_ok. }
  destruct range; try exact Hgo. eexists. split; [done|]. by apply fail_ok.
Qed.

(** ** Asking *)

Lemma cancelled_registered gone u p reason r : r ∈ registered (cancel_matching gone u p reason) -> r ∈ registered u.
Proof.
  unfold cancel_matching. assert (H : forall l acc, r ∈ registered (fold_left (fun acc r =>
      if gone (ur_request_id r) then acc
      else if p r then mkUpstreamRequests (registered acc) (signals acc ++ [(ur_request_id r, reason)])
      else mkUpstreamRequests (registered acc ++ [r]) (signals acc)) l acc) -> r ∈ registered acc \/ r ∈ l).
  { induction l as [|x l IH]; intros acc; [by left|]. simpl. intros [H|H]%IH; [|right; by right].
    destruct (gone (ur_request_id x)); [by left|]. destruct (p x); [by left|]. simpl in H.
    apply elem_of_app in H as [H|H]; [by left|]. apply list_elem_of_singleton in H as ->. right. by left. }
  intros [[]%elem_of_nil|]%H; done.
Qed.

Lemma no_signals_quiet : quiet no_signals.
Proof. intros t. by split_and!. Qed.

Lemma signalled_like (l : list (Z * UpstreamRequestCancellation)) (m : gmap Z UpstreamFetch) rid :
  let m' := fold_left (fun m (x : Z * UpstreamRequestCancellation) => alter (uf_set_signal (snd x)) (fst x) m) l m in
  option_Forall2 (fun u u' => uf_for u' = uf_for u /\ uf_track u' = uf_track u /\ uf_phase u' = uf_phase u) (m !! rid) (m' !! rid).
Proof.
  revert m. induction l as [|x l IH]; intros m; simpl; [destruct (m !! rid); by constructor|].
  specialize (IH (alter (uf_set_signal (snd x)) (fst x) m)). simpl in IH. rewrite lookup_alter in IH. destruct (decide _) as [->|]; [|done].
  destruct (m !! rid); simpl in IH; [|done]. inversion IH; subst. by constructor.
Qed.

Lemma upstream_like_ok hand started s m : (forall rid, option_Forall2 (fun u u' => uf_for u' = uf_for u /\ uf_track u' = uf_track u /\ uf_phase u' = uf_phase u)
    (upstream_fetches s !! rid) (m !! rid)) -> fetches_ok hand started s -> fetches_ok hand started (with_upstream_fetches s m).
Proof.
  intros Hl [Hc [H1 H2 H3] Ha Ht Hdl]. split; [by apply (claims_same s)| |done..].
  assert (Hto : forall rid u, upstream_fetches s !! rid = Some u -> exists u', m !! rid = Some u' /\ uf_for u' = uf_for u /\ uf_track u' = uf_track u /\ uf_phase u' = uf_phase u).
  { intros rid u E. specialize (Hl rid). rewrite E in Hl. inversion Hl; subst. eauto. }
  split; simpl.
  - intros rid u E. specialize (Hl rid). rewrite E in Hl. inversion Hl; subst. eauto.
  - intros name r (u & (u' & E' & E1 & E2 & E3)%Hto & <-)%H2. eauto.
  - intros id rid (u & (u' & E' & E1 & E2 & E3)%Hto & Ef & <-)%H3. rewrite <- E1 in Ef. eauto.
Qed.

Lemma signals_ok hand started s name : fetches_ok hand started s -> fetches_ok hand started (pass_signals s name).
Proof.
  intros H. unfold pass_signals. destruct (track_of s name); [|done]. apply on_track_ok; [apply no_signals_quiet|].
  apply upstream_like_ok; [|done]. intros rid. apply signalled_like.
Qed.

Lemma signals_live s name rid u : upstream_fetches s !! rid = Some u ->
  exists u', upstream_fetches (pass_signals s name) !! rid = Some u' /\ uf_for u' = uf_for u /\ uf_phase u' = uf_phase u /\ uf_track u' = uf_track u /\
    fetch_tasks (pass_signals s name) = fetch_tasks s /\ fe_next_request_id (pass_signals s name) = fe_next_request_id s.
Proof.
  intros E. unfold pass_signals. destruct (track_of s name) as [t|]; [|by exists u].
  pose proof (signalled_like (signals (upstream_requests (upstream t))) (upstream_fetches s) rid) as Hl. cbv zeta in Hl. rewrite E in Hl.
  inversion Hl as [x u' (E1 & E2 & E3) Ex Eu|]. subst x. by exists u'.
Qed.

Lemma signals_fills s name n : fills_of (pass_signals s name) n = fills_of s n.
Proof.
  unfold pass_signals. destruct (track_of s name) as [t|]; [|done]. unfold fills_of. rewrite track_of_on. destruct (decide _); [|done].
  change (track_of (with_upstream_fetches s _)) with (track_of s). by destruct (track_of s n).
Qed.

Lemma cancel_quiet gone rid reason : quiet (fun t => with_upstream t (cancel_upstream_request gone (upstream t) rid reason)).
Proof. intros t. split_and!; [done..|]. intros r. apply cancelled_registered. Qed.

Lemma registered_upstream_ok hand started s a name publisher : fetches_ok hand started s -> fe_next_request_id s + 2 < U64 ->
  0 <= fe_next_request_id s ->
  let n := fe_next_request_id s in
  let s1 := on_fetch_track (with_fe_next s (wrap64 (n + 2))) name (fun t => with_upstream t (with_requests (upstream t)
              (register (fetch_gone s) (upstream_requests (upstream t)) n publisher URK_Fetch))) in
  fetches_ok hand started (with_upstream_fetches s1 (<[n := mkUpstreamFetch a name publisher UP_Waiting None]> (upstream_fetches s))).
Proof.
  intros [Hc [H1 H2 H3] Ha Ht Hdl] Hb H0 n s1. set (s2 := with_upstream_fetches _ _).
  assert (Hfresh : forall rid u, upstream_fetches s !! rid = Some u -> rid <> n) by (intros rid u H%H1; unfold n; lia).
  assert (En : fe_next_request_id s2 = n + 2) by (apply Z.mod_small; unfold n; lia).
  assert (Hold : forall rid u, upstream_fetches s !! rid = Some u -> upstream_fetches s2 !! rid = Some u).
  { intros rid u E. simpl. rewrite lookup_insert_ne; [done|]. apply not_eq_sym. eauto. }
  split.
  - apply (claims_same s); try done. intros m. change (fills_of s2 m) with (fills_of s1 m). unfold fills_of, s1. rewrite track_of_on.
    destruct (decide _); [|done]. change (track_of (with_fe_next s _)) with (track_of s). by destruct (track_of s m).
  - split.
    + intros rid u. rewrite En. simpl. intros [[<- _]|[_ E]]%lookup_insert_Some; [lia|]. apply H1 in E. unfold n. lia.
    + intros m r. change (registered_of s2 m) with (registered_of s1 m). unfold registered_of, s1. rewrite track_of_on.
      change (track_of (with_fe_next s _)) with (track_of s). specialize (H2 m). unfold registered_of in H2.
      destruct (decide _) as [->|]; (destruct (track_of s _) as [t|]; [|by intros ?%elem_of_nil]); [|intros (u & E & Eu)%H2; eauto].
      simpl. intros [Hr|Hr]%elem_of_app.
      * apply in_filter in Hr as [Hr _]. apply in_filter in Hr as [Hr _]. destruct (H2 r Hr) as (u & E & Eu). eauto.
      * apply list_elem_of_singleton in Hr as ->. exists (mkUpstreamFetch a name publisher UP_Waiting None). split; [apply lookup_insert_eq|done].
    + intros i rid. change (asks s2 i) with (asks s i). intros (u & E & Eu)%H3. eauto.
  - done.
  - done.
  - done.
Qed.

Lemma task_asking_ok t rid largest : goes_forward (ft_fetch t) -> task_ok (set_fetch_phase t (FPH_Asking rid largest None)).
Proof. by split. Qed.

Lemma settle_next env s id t largest range s' : settle_fetch env s id t largest range = Ok s' -> fe_next_request_id s' = fe_next_request_id s.
Proof.
  assert (Hr : forall s name claim, fe_next_request_id (release_claim s name claim) = fe_next_request_id s) by (by intros ? ? []).
  assert (Hd : forall s t, fe_next_request_id (drop_fetch s id t) = fe_next_request_id s) by (intros; unfold drop_fetch; simpl; apply Hr).
  assert (Ha : forall s t a b, fe_next_request_id (answer_fetch env s id t range a b) = fe_next_request_id s).
  { intros s0 t0 a b. unfold answer_fetch. destruct (bool_decide _); [unfold fail_fetch, send_request_error; simpl; apply (Hd (with_cancel_senders s0 _) t0)|].
    destruct (env_answers env); [done|]. simpl. apply (Hd (with_cancel_senders s0 _) t0). }
  unfold settle_fetch, fail_fetch, send_request_error.
  destruct range; try (destruct (range_to_serve _ _ _ _ _) as [[a b]|[code phrase]| |]; try done; [destruct (is_some _)|]);
    intros [= <-]; rewrite ?Ha; simpl; auto.
Qed.

(** The publisher is asked, or nothing changes that matters. *)
Lemma sends_ok hand started env s a name f o : fetches_ok hand started s -> 0 <= fe_next_request_id s -> fe_next_request_id s + 2 < U64 ->
  let '(s', asked) := send_upstream_fetch_for_range env s a name f o in
  fetches_ok hand started s' /\ fetch_tasks s' = fetch_tasks s /\ deliveries s' = deliveries s /\ fe_next_fill s' = fe_next_fill s /\
  (forall n, fills_of s' n = fills_of s n) /\
  fe_next_request_id s <= fe_next_request_id s' <= fe_next_request_id s + 2 /\
  match asked with
  | Some rid => (exists u, upstream_fetches s' !! rid = Some u /\ uf_for u = a /\ uf_phase u = UP_Waiting) /\
      exists p m, FEO_Ask p m ∈ fe_sent s' /\ fetch_request_id m = rid
  | None => True
  end.
Proof.
  intros Hok H0 Hb. unfold send_upstream_fetch_for_range. destruct (env_publishers env) as [|p ps]; [by split_and!; try done; lia|].
  assert (En : wrap64 (fe_next_request_id s + 2) = fe_next_request_id s + 2) by (apply Z.mod_small; lia).
  assert (Hnext : fetches_ok hand started (with_fe_next s (wrap64 (fe_next_request_id s + 2)))).
  { rewrite En. destruct Hok as [Hc Hu Ha Ht Hdl]. split; [by apply (claims_same s)| |done..]. apply (upstream_less s); try done. simpl. lia. }
  destruct (env_opens env); simpl; [|by split_and!; try done; lia]. destruct (env_sends env); simpl; [|by split_and!; try done; lia].
  pose proof (registered_upstream_ok hand started s a name p Hok Hb H0) as Hreg. simpl in Hreg. set (s1 := with_upstream_fetches _ _) in *.
  set (s2 := if env_malformed env then _ else s1).
  assert (Hfill : forall n, fills_of s1 n = fills_of s n).
  { intros n. change (fills_of s1 n) with (fills_of (on_fetch_track (with_fe_next s (wrap64 (fe_next_request_id s + 2))) name
      (fun t => with_upstream t (with_requests (upstream t) (register (fetch_gone s) (upstream_requests (upstream t)) (fe_next_request_id s) p URK_Fetch)))) n).
    unfold fills_of. rewrite track_of_on. destruct (decide _); [|done]. change (track_of (with_fe_next s _)) with (track_of s). by destruct (track_of s n). }
  assert (H2 : fetches_ok hand started s2 /\ (fetch_tasks s2 = fetch_tasks s /\ deliveries s2 = deliveries s /\ fe_next_fill s2 = fe_next_fill s) /\
            (forall n, fills_of s2 n = fills_of s n) /\ fe_next_request_id s2 = wrap64 (fe_next_request_id s + 2) /\
            exists u, upstream_fetches s2 !! fe_next_request_id s = Some u /\ uf_for u = a /\ uf_phase u = UP_Waiting).
  { assert (E1 : upstream_fetches s1 !! fe_next_request_id s = Some (mkUpstreamFetch a name p UP_Waiting None)) by apply lookup_insert_eq.
    unfold s2. destruct (env_malformed env); [|by split_and!; eauto].
    set (g := fun t => with_upstream t _). split; [by apply signals_ok, on_track_ok; [apply cancel_quiet|]|].
    destruct (signals_live (on_fetch_track s1 name g) name _ _ E1) as (u & Eu & E2 & E3 & E4 & E5 & E6).
    split; [rewrite E5; unfold pass_signals; by destruct (track_of _ name)|]. split; [|split; [by rewrite E6|by exists u]].
    intros n. rewrite signals_fills. rewrite <- Hfill. unfold fills_of. rewrite track_of_on. destruct (decide _); [|done]. by destruct (track_of s1 n). }
  clearbody s2. destruct H2 as (H2 & (Et2 & Ed2 & Ef2) & Hf2 & En2 & Hu2). rewrite <- En2 in En. split_and!; try done.
  - by apply sent_ok.
  - simpl. lia.
  - simpl. lia.
  - do 2 eexists. split; [apply elem_of_app; right; by apply list_elem_of_singleton|done].
Qed.

Lemma ask_ok env started s id t largest local : fetches_ok (Some id) started s -> fetch_tasks s !! id = Some t -> is_delivering t = false ->
  goes_forward (ft_fetch t) -> 0 <= fe_next_request_id s -> fe_next_request_id s + 2 < U64 ->
  exists s', ask_or_settle env s id t largest local = Ok s' /\ fetches_ok None started s' /\
    fe_next_request_id s <= fe_next_request_id s' <= fe_next_request_id s + 2.
Proof.
  intros Hok Et Hd Hf H0 Hb. unfold ask_or_settle.
  assert (Hsettle : forall s, fetches_ok (Some id) started s -> fetch_tasks s !! id = Some t ->
            exists s', settle_fetch env s id t largest URG_Unanswered = Ok s' /\ fetches_ok None started s' /\ fe_next_request_id s' = fe_next_request_id s).
  { intros s0 Hok0 Et0. destruct (settle_ok env started s0 id t largest URG_Unanswered) as (s' & E & H'); try done. eauto using settle_next. }
  destruct local; [destruct (Hsettle s) as (s' & E & H' & En); try done; exists s'; split_and!; try done; lia|].
  pose proof (sends_ok (Some id) started env s (inl id) (fetch_track t) (Fetch_get_location_filter (ft_fetch t)) (Fetch_group_order (ft_fetch t)) Hok H0 Hb) as Hs.
  destruct (send_upstream_fetch_for_range _ _ _ _ _ _) as [s2 [rid|]]; destruct Hs as (H2 & Et2 & _ & _ & _ & Hn & Hu).
  2: { destruct (Hsettle s2) as (s' & E & H' & En); [done|by rewrite Et2|]. exists s'. split_and!; try done; lia. }
  eexists. split; [reflexivity|]. split; [|exact Hn].
  pose proof (go_on_ok started s2 id t (set_fetch_phase t (FPH_Asking rid largest None)) None H2) as Hgo.
  rewrite Et2 in Hgo. specialize (Hgo Et Hd eq_refl eq_refl (task_asking_ok t _ largest Hf)).
  assert (Hend : forall x : Fetches, put_sent x [] = x) by (intros [? ? ? ? ? ? o]; unfold put_sent; simpl; by rewrite app_nil_r).
  rewrite Hend in Hgo. apply Hgo; [|done]. intros rid' [= <-]. apply Hu.
Qed.

(** ** Beginning *)

Lemma hand_any hand started s : fetches_ok None started s -> fetches_ok hand started s.
Proof. intros [Hc Hu Ha Ht Hdl]. split; try done. intros. by apply (Ht id). Qed.

Lemma fresh_id started s id : fetches_ok None started s -> id ∉ started -> fetch_tasks s !! id = None /\ answers_of s id = [].
Proof.
  intros [_ _ Ha _ _] Hn. specialize (Ha id). unfold answered_ok in Ha. destruct (fetch_tasks s !! id); [by destruct Ha|].
  by rewrite bool_decide_false in Ha.
Qed.

Lemma answered_more started s id id' : id' <> id -> answered_ok started s id' -> answered_ok (id :: started) s id'.
Proof.
  intros Hne. unfold answered_ok. destruct (fetch_tasks s !! id'); [intros [Hin H]; split; [by right|done]|].
  rewrite (bool_decide_ext (id' ∈ id :: started) (id' ∈ started)); [done|]. rewrite elem_of_cons. tauto.
Qed.

(** Refused at once. *)
Lemma refused_ok started s id a : fetches_ok None started s -> id ∉ started -> is_answer_to id a = true ->
  fetches_ok None (id :: started) (put_sent s [a]).
Proof.
  intros Hok Hn Ha. destruct (fresh_id _ _ _ Hok Hn) as [Et Ean]. destruct Hok as [Hc Hu Hans Ht Hdl].
  split; [by apply (claims_same s)|by apply (upstream_less s); try done; lia| |done..].
  intros id'. destruct (decide (id' = id)) as [->|Hne].
  - unfold answered_ok. change (fetch_tasks (put_sent s [a])) with (fetch_tasks s). rewrite Et, bool_decide_true by by left.
    rewrite answers_put, Ean, Ha. by exists a.
  - apply answered_more; [done|]. specialize (Hans id'). unfold answered_ok in *. rewrite answers_put, (answer_to_other id id' a), app_nil_r by done.
    exact Hans.
Qed.
Lemma request_error_ok started s id code phrase : fetches_ok None started s -> id ∉ started ->
  fetches_ok None (id :: started) (send_request_error s id code phrase).
Proof.
  intros Hok Hn. unfold send_request_error.
  apply (maps_ok None (id :: started) (put_sent s [FEO_Error id code phrase])), refused_ok; try done. simpl. by apply bool_decide_eq_true.
Qed.

Lemma begin_ok started s id t : fetches_ok None started s -> id ∉ started -> ft_claim t = None -> asked_by t = None -> is_delivering t = false ->
  fetches_ok (Some id) (id :: started) (put_task s id t).
Proof.
  intros Hok Hn Hcl Has Hd. destruct (fresh_id _ _ _ Hok Hn) as [Et Ean]. destruct Hok as [Hc Hu Hans Ht Hdl].
  assert (El : forall i, fetch_tasks (put_task s id t) !! i = if decide (i = id) then Some t else fetch_tasks s !! i).
  { intros i. simpl. destruct (decide _) as [->|]; [apply lookup_insert_eq|by apply lookup_insert_ne]. }
  split.
  - apply (claims_alike s); try done. intros [i|r] name c; [|done]. unfold claim_of. rewrite El. destruct (decide _) as [->|]; [|done].
    rewrite Et. simpl. rewrite Hcl. by split.
  - apply (upstream_less s); try done. intros i rid. unfold asks. rewrite El. destruct (decide _) as [->|]; [|done]. simpl. by rewrite Has.
  - intros i. destruct (decide (i = id)) as [->|Hne].
    + unfold answered_ok. rewrite El, decide_True, Hd by done. split; [by left|exact Ean].
    + apply answered_more; [done|]. specialize (Hans i). unfold answered_ok in *. by rewrite El, decide_False.
  - intros i x Hi. rewrite El. destruct (decide _) as [->|]; [done|]. by apply Ht.
  - apply (deliveries_same s); try done. intros i t' d Ei Ed. exists t'. split; [|done]. rewrite El, decide_False; [done|congruence].
Qed.

Lemma created_ok hand started s name new : fills (cache (content new)) = [] -> registered (upstream_requests (upstream new)) = [] ->
  track_of s name = None -> fetches_ok hand started s ->
  forall tm, (forall n, te_track <$> tracks tm !! n = if decide (n = name) then Some new else track_of s n) ->
  fetches_ok hand started (with_fe_table s tm).
Proof.
  intros Hf Hr Hnone [[H1 H2 H3 H4] Hu Ha Ht Hdl] tm Htm. set (s' := with_fe_table s tm).
  assert (Ef : forall n l k f, fills_of s' n = Some (l, k) -> f ∈ l -> fills_of s n = Some (l, k)).
  { intros n l k f. unfold fills_of, track_of at 1. simpl. rewrite Htm. destruct (decide _) as [->|]; [|done].
    simpl. rewrite Hf. intros [= <- <-] []%elem_of_nil. }
  split.
  - split.
    + intros n l k f E Hl. eauto.
    + intros n l k f E Hl. eauto.
    + intros i n c (l & k & f & El & Hl & Hb)%H3. exists l, k, f. split_and!; try done. unfold fills_of, track_of at 1. simpl. rewrite Htm.
      destruct (decide _) as [->|]; [|done]. unfold fills_of in El. by rewrite Hnone in El.
    + exact H4.
  - apply (upstream_less s); try done. intros n r. unfold registered_of, track_of at 1. simpl. rewrite Htm.
    destruct (decide _) as [->|]; [|done]. rewrite Hr. by intros ?%elem_of_nil.
  - done.
  - done.
  - done.
Qed.

Lemma taken_ok started s id t first last s' c : fetches_ok (Some id) started s -> fetch_tasks s !! id = Some t -> is_delivering t = false -> ft_claim t = None ->
  take_claim s (fetch_track t) first last = (s', Some c) -> fetches_ok (Some id) started (put_task s' id (set_claim t (Some c))) /\
  fe_next_request_id s' = fe_next_request_id s.
Proof.
  intros [Hc Hu Ha Ht Hdl] Et Hd Ecl E. destruct (take_claim_takes _ _ _ _ _ _ E) as (track & Etr & Ek & Hf & Hr & tm & ->).
  split; [|done]. set (s' := put_task _ _ _).
  assert (El : forall i, fetch_tasks s' !! i = if decide (i = id) then Some (set_claim t (Some c)) else fetch_tasks s !! i).
  { intros i. simpl. destruct (decide _) as [->|]; [by rewrite lookup_insert_eq|by rewrite lookup_insert_ne]. }
  split.
  - apply (claims_taken s (inl id) (fetch_track t) first last _ c s' Hc E); [|done|].
    + intros n x. simpl. rewrite Et. simpl. congruence.
    + intros [i|r]; unfold claim_of; [|by rewrite decide_False]. rewrite El. destruct (decide (i = id)) as [->|Hne]; [by rewrite decide_True|].
      by rewrite decide_False by congruence.
  - apply (upstream_less s); try done.
    + intros n r. change (registered_of s' n) with (registered_of (with_fe_table s tm) n). by rewrite Hr.
    + intros i rid. unfold asks. rewrite El. destruct (decide _) as [->|]; [by rewrite Et|done].
  - intros i. apply (answers_same _ s); [done| |done]. rewrite El. destruct (decide _) as [->|]; [by rewrite Et|done].
  - intros i x Hi. rewrite El. destruct (decide _) as [->|]; [done|]. apply Ht. congruence.
  - apply (deliveries_put s _ id t); try done. intros i Hi. by rewrite El, decide_False.
Qed.
Lemma not_taken s name first last s' : take_claim s name first last = (s', None) -> s' = s.
Proof.
  unfold take_claim. destruct (track_of s name); [|congruence]. destruct (claim_fill _ _ _) as [tc [k|k]]; congruence.
Qed.
Lemma take_put s id name t' first last : take_claim (put_task s id t') name first last = (put_task (fst (take_claim s name first last)) id t', snd (take_claim s name first last)).
Proof.
  unfold take_claim. change (track_of (put_task s id t')) with (track_of s). destruct (track_of s _); [|done].
  by destruct (claim_fill _ _ _) as [tc [k|k]].
Qed.

(** ** The whole handler *)

Definition stepped (started : list SubscriptionId) (s : Fetches) (r : panics Fetches) : Prop :=
  exists s', r = Ok s' /\ fetches_ok None started s' /\ fe_next_request_id s <= fe_next_request_id s' <= fe_next_request_id s + 2.

Lemma handle_fetch_ok config env started s id m : fetches_ok None started s -> id ∉ started ->
  0 <= fe_next_request_id s -> fe_next_request_id s + 2 < U64 ->
  stepped (id :: started) s (handle_fetch config env s id m).
Proof.
  intros Hok Hn H0 Hb. unfold handle_fetch.
  assert (Href : forall code phrase, stepped (id :: started) s (Ok (send_request_error s id code phrase))).
  { intros. eexists. split; [done|]. split; [by apply request_error_ok|]. simpl. lia. }
  destruct (is_some (reserved_namespace_rejection _ _)); [apply Href|].
  pose proof (object_filter_returns (fetch_parameters m) (max_filter_ranges config)) as Hf.
  destruct (object_filter _ _) as [F|e| |]; try done. 
  assert (resolve_fetch_range (Fetch_get_location_filter m) None = Err FRE_ProtocolViolation \/ goes_forward m) as [E|Hfw].
  { unfold goes_forward. destruct (resolve_fetch_range _ _) as [?|[]| |]; auto. }
  { rewrite E. eexists. split; [done|]. split; [apply refused_ok; try done; simpl; by apply bool_decide_eq_true|simpl; lia]. }
  set (go := if _ && _ then _ else _). assert (Hgo : stepped (id :: started) s go).
  2: { destruct (resolve_fetch_range _ _) as [?|[]| |] eqn:E; try exact Hgo. by destruct Hfw. }
  subst go. destruct (_ && _); [apply Href|].
  set (name := Fetch_get_full_track_name m). unfold get_or_create_track.
  set (created := match tracks (fe_table s) !! name with Some _ => _ | None => _ end).
  assert (Hcr : exists tm e b, created = (tm, e, b) /\ fetches_ok None started (with_fe_table s tm)).
  { unfold created. destruct (tracks (fe_table s) !! name) as [e|] eqn:E; [by exists (fe_table s), e, false; destruct s|].
    simpl. do 3 eexists. split; [reflexivity|]. apply (created_ok None started s name (Track_new (next_relay_track_id (fe_table s)) (dedup_retained_groups config) TS_Pending TO_CacheOnly)); [done|done|unfold track_of; by rewrite E|done|].
    intros n. simpl. destruct (decide _) as [->|]; [by rewrite lookup_insert_eq|by rewrite lookup_insert_ne]. }
  destruct Hcr as (tm & e & b & -> & Hok1). set (s1 := with_inbound _ _). assert (Hok2 : fetches_ok None started s1) by by apply inbound_ok.
  set (t := mkFetchTask m F None FPH_Filling). pose proof (begin_ok started s1 id t Hok2 Hn eq_refl eq_refl eq_refl) as Hb1.
  assert (Et : forall x t', fetch_tasks (put_task x id t') !! id = Some t') by (intros; apply lookup_insert_eq).
  assert (Hask : forall largest local, stepped (id :: started) s (ask_or_settle env s1 id t largest local)).
  { intros largest local. rewrite <- (ask_put env s1 id t t). exact (ask_ok env (id :: started) (put_task s1 id t) id t largest local Hb1 (Et _ _) eq_refl Hfw H0 Hb). }
  destruct (end_location _) as [requested_end|]; [|apply Hask]. destruct (groups_to_claim _) as [[first last]|]; [|apply Hask].
  destruct (local_state_answers _ _); [apply Hask|]. pose proof (take_put s1 id name t first last) as Htp.
  destruct (take_claim s1 name first last) as [s2 [c|]] eqn:E2; simpl in Htp.
  - destruct (taken_ok _ _ _ _ _ _ _ _ Hb1 (Et _ _) eq_refl eq_refl Htp) as [H3 En]. rewrite put_put in H3.
    rewrite <- (ask_put env s2 id _ (set_claim t (Some c))).
    change (fe_next_request_id s2 = fe_next_request_id s) in En.
    destruct (ask_ok env (id :: started) (put_task s2 id (set_claim t (Some c))) id (set_claim t (Some c)) (largest_known s1 name) false H3 (Et s2 _) eq_refl Hfw)
      as (s' & E & H' & Hnx); [simpl; lia|simpl; lia|].
    exists s'. split_and!; try done; simpl in *; lia.
  - apply not_taken in E2 as ->. eexists. split; [done|]. split; [|simpl; lia]. destruct Hb1 as [Hc Hu Ha Ht Hdl]. split; try done.
    intros i x _ Hx. destruct (decide (i = id)) as [->|Hne]; [|apply (Ht i); [congruence|done]]. rewrite Et in Hx. injection Hx as <-. split; [done|]. by intros [].
Qed.

(** * The other steps *)

Lemma waited_ok env started s id t : fetches_ok None started s -> fetch_tasks s !! id = Some t -> ft_phase t = FPH_Filling ->
  0 <= fe_next_request_id s -> fe_next_request_id s + 2 < U64 -> stepped started s (fill_waited env s id t).
Proof.
  intros Hok Et Ep H0 Hb. destruct (fo_tasks _ _ _ Hok id t ltac:(done) Et) as [Hf Hcl].
  assert (Ecl : ft_claim t = None).
  { destruct (ft_claim t) as [c|]; [|done]. unfold has_asked in Hcl. rewrite Ep in Hcl. by specialize (Hcl ltac:(by eexists)). }
  assert (Hd : is_delivering t = false) by (unfold is_delivering; by rewrite Ep). unfold fill_waited.
  assert (Hskip : stepped started s (Ok s)) by (exists s; split_and!; try done; lia).
  destruct (end_location _) as [requested_end|]; [|done]. destruct (groups_to_claim _) as [[first last]|]; [|done].
  destruct (take_claim s (fetch_track t) first last) as [s1 [c|]] eqn:E.
  - destruct (taken_ok started s id t first last s1 c) as [H1 En]; try done; [by apply hand_any|]. rewrite <- (ask_put env s1 id _ (set_claim t (Some c))).
    destruct (ask_ok env started (put_task s1 id (set_claim t (Some c))) id (set_claim t (Some c)) (largest_known s (fetch_track t))
      (local_state_answers (largest_known s (fetch_track t)) requested_end) H1 (lookup_insert_eq _ _ _) Hd Hf) as (s' & E' & H' & Hn);
      [simpl; lia|simpl; lia|]. exists s'. split_and!; try done; simpl in *; lia.
  - apply not_taken in E as ->. destruct t as [m F cl p]. simpl in Ecl. subst cl. simpl in *.
    destruct (ask_ok env started s id (mkFetchTask m F None p) (largest_known s (fetch_track (mkFetchTask m F None p)))
      (local_state_answers (largest_known s (fetch_track (mkFetchTask m F None p))) requested_end)) as (s' & E' & H' & Hn); try done; [by apply hand_any|].
    by exists s'.
Qed.

Lemma resumed_ok env started s id t largest range : fetches_ok None started s -> fetch_tasks s !! id = Some t -> is_delivering t = false ->
  stepped started s (settle_fetch env s id t largest range).
Proof.
  intros Hok Et Hd. destruct (fo_tasks _ _ _ Hok id t ltac:(done) Et) as [Hf _].
  destruct (settle_ok env started s id t largest range (hand_any _ _ _ Hok) Et Hd Hf) as (s' & E & H'). exists s'. split_and!; try done.
  all: rewrite (settle_next _ _ _ _ _ _ _ E); lia.
Qed.

Lemma respond_rest s rid u r : upstream_fetches (respond s rid u r) = upstream_fetches s /\ fe_next_request_id (respond s rid u r) = fe_next_request_id s.
Proof. unfold respond. by destruct (uf_for u). Qed.
Lemma respond_swap s rid rid' u u' r : respond (set_upstream s rid' u') rid u r = set_upstream (respond s rid u r) rid' u'.
Proof. unfold respond. by destruct (uf_for u). Qed.
Lemma respond_ok hand started s rid u r : fetches_ok hand started s -> upstream_fetches s !! rid = Some u ->
  fetches_ok hand started (respond s rid u r) /\ forall id, asks (respond s rid u r) id <> Some rid.
Proof.
  intros Hok Eu. assert (Hold : forall id, asks s id = Some rid -> uf_for u = inl id).
  { intros id (u' & E & H & _)%(up_asked _ (fo_upstream _ _ _ Hok)). congruence. }
  unfold respond. destruct (uf_for u) as [to|reader]; [|split; [done|]; by intros id ?%Hold].
  split; [apply tasks_like_ok; [|done]; intros; apply alter_like; intros; apply response_like|].
  intros id. unfold asks. simpl. rewrite lookup_alter. specialize (Hold id). unfold asks in Hold.
  destruct (decide _) as [->|Hne]; [|intros H; apply Hold in H; congruence].
  destruct (fetch_tasks s !! id) as [t|]; [|done]. simpl. unfold put_response, asked_by.
  destruct (ft_phase t) as [|asked l [x|]|d st] eqn:Ep; rewrite ?Ep; try done.
  destruct (asked =? rid) eqn:Ea; [done|]. rewrite Ep. intros [= ->]. by rewrite Z.eqb_refl in Ea.
Qed.

Lemma set_upstream_ok hand started s rid u p : fetches_ok hand started s -> upstream_fetches s !! rid = Some u ->
  (forall id, asks s id <> Some rid) -> fetches_ok hand started (set_upstream s rid (uf_set_phase u p)).
Proof.
  intros [Hc [H1 H2 H3] Ha Ht Hdl] Eu Hno. split; [by apply (claims_same s)| |done..]. split; simpl.
  - intros rid' u' [[<- <-]|[_ E]]%lookup_insert_Some; eauto.
  - intros name r (u' & E & Et)%H2. destruct (decide (ur_request_id r = rid)) as [Er|Hne].
    + rewrite Er in *. rewrite lookup_insert_eq. eexists. split; [done|]. simpl. congruence.
    + rewrite lookup_insert_ne by done. eauto.
  - intros id rid' H. assert (rid' <> rid) by (intros ->; by apply Hno in H). apply H3 in H as (u' & E & Hu). rewrite lookup_insert_ne by done. eauto.
Qed.

Lemma forget_ok hand started s rid u : fetches_ok hand started s -> upstream_fetches s !! rid = Some u ->
  (forall id, asks s id <> Some rid) -> fetches_ok hand started (forget_upstream_fetch s rid u).
Proof.
  intros [Hc [H1 H2 H3] Ha Ht Hdl] Eu Hno. unfold forget_upstream_fetch. set (f := fun t => with_upstream t _).
  split; [|split| | |]; try done.
  - apply (claims_same s); try done. intros n. unfold fills_of. rewrite track_of_on. destruct (decide _); [|done].
    change (track_of (with_upstream_fetches s _)) with (track_of s). by destruct (track_of s n).
  - simpl. intros rid' u' [_ E]%lookup_delete_Some. eauto.
  - intros n r. unfold registered_of. rewrite track_of_on. change (track_of (with_upstream_fetches s _)) with (track_of s).
    specialize (H2 n). unfold registered_of in H2. simpl. intros Hr.
    assert (exists u', upstream_fetches s !! ur_request_id r = Some u' /\ uf_track u' = n /\ ur_request_id r <> rid) as (u' & E & Et & Hne).
    { destruct (decide (n = uf_track u)) as [->|Hn]; (destruct (track_of s _) as [t|]; [|by apply elem_of_nil in Hr]).
      - simpl in Hr. apply in_filter in Hr as [Hr Hb]. apply negb_true_iff, Z.eqb_neq in Hb. destruct (H2 r Hr) as (u' & E & Et). eauto.
      - destruct (H2 r Hr) as (u' & E & Et). exists u'. split_and!; try done. intros Er. rewrite Er in *. congruence. }
    exists u'. by rewrite lookup_delete_ne.
  - intros id rid' H. assert (rid' <> rid) by (intros ->; by apply Hno in H). apply H3 in H as (u' & E & Hu). simpl. rewrite lookup_delete_ne by done. eauto.
Qed.

Lemma message_ok hand started s rid u msg : fetches_ok hand started s -> upstream_fetches s !! rid = Some u ->
  fetches_ok hand started (upstream_fetch_message s rid u msg).
Proof.
  intros Hok Eu. assert (Hr : forall r p, fetches_ok hand started (respond (set_upstream s rid (uf_set_phase u p)) rid u r)).
  { intros r p. rewrite respond_swap. destruct (respond_ok hand started s rid u r Hok Eu) as [H1 H2]. apply set_upstream_ok; try done. by rewrite (proj1 (respond_rest s rid u r)). }
  unfold upstream_fetch_message. destruct (uf_phase u) eqn:Ep; [| |done].
  - destruct msg; try apply Hr. apply sent_ok; [done|apply Hr].
  - assert (H : fetches_ok hand started (set_upstream s rid (uf_set_phase u UP_Parked))).
    { apply set_upstream_ok; try done. intros id (u' & E & _ & Hp)%(up_asked _ (fo_upstream _ _ _ Hok)). congruence. }
    assert (Hend : put_sent (set_upstream s rid (uf_set_phase u UP_Parked)) [] = set_upstream s rid (uf_set_phase u UP_Parked)).
    { unfold put_sent. simpl. by rewrite app_nil_r. }
    destruct msg; rewrite ?Hend; try done. by apply sent_ok.
Qed.

Lemma cancelled_ok hand started s rid u reason : fetches_ok hand started s -> upstream_fetches s !! rid = Some u ->
  fetches_ok hand started (upstream_fetch_cancelled s rid u reason).
Proof.
  intros Hok Eu. unfold upstream_fetch_cancelled.
  assert (Hno : uf_phase u <> UP_Waiting -> forall id, asks s id <> Some rid).
  { intros Hp id (u' & E & _ & Hw)%(up_asked _ (fo_upstream _ _ _ Hok)). congruence. }
  destruct (uf_phase u) eqn:Ep; [|by apply forget_ok; auto..].
  destruct (respond_ok hand started s rid u (Some match reason with URC_MalformedTrack => UFR_MalformedTrack | URC_Cancelled => UFR_Failed end) Hok Eu) as [H1 H2].
  apply forget_ok; try done. by rewrite (proj1 (respond_rest s rid u _)).
Qed.

Lemma done_ok hand started s rid u : fetches_ok hand started s -> upstream_fetches s !! rid = Some u -> has_reader s rid u = false ->
  fetches_ok hand started (forget_upstream_fetch s rid u).
Proof.
  intros Hok Eu Hr. apply forget_ok; try done. intros id Ha. pose proof (up_asked _ (fo_upstream _ _ _ Hok) _ _ Ha) as (u' & E & Hf & _).
  rewrite Eu in E. injection E as <-. unfold has_reader in Hr. rewrite Hf in Hr. unfold asks in Ha. destruct (fetch_tasks s !! id) as [t|]; [|done].
  simpl in Ha. unfold asked_by in Ha. unfold reads in Hr. destruct (ft_phase t) as [|asked l [x|]|d st]; try done.
  injection Ha as ->. by rewrite Z.eqb_refl in Hr.
Qed.

Lemma stop_ok hand started s id stop : fetches_ok hand started s -> fetches_ok hand started (stop_fetch s id stop).
Proof.
  intros Hok. unfold stop_fetch. destruct (fetch_cancel_senders s !! id) as [[v [|]]|]; [|by apply senders_ok|done].
  apply (tasks_like_ok hand started (with_cancel_senders s _)); [|by apply senders_ok]. intros. apply alter_like. intros. apply stop_like.
Qed.

Lemma malformed_quiet gone publisher : quiet (handle_malformed_upstream_fetch gone publisher).
Proof.
  intros t. unfold handle_malformed_upstream_fetch. set (t1 := with_upstream t _).
  assert (H1 : quiet (fun t => fst (remove_publisher_quietly t publisher))).
  { intros x. unfold remove_publisher_quietly, take_publisher. repeat case_match; simplify_eq; by split_and!. }
  specialize (H1 t1). cbn beta in H1. destruct (remove_publisher_quietly t1 publisher) as [t2 b]. cbn [fst] in H1. destruct H1 as (E1 & E2 & Hr).
  split; [exact E1|]. split; [exact E2|]. intros r H%Hr. simpl in H. unfold cancel_for_malformed_publisher in H.
  by do 3 apply cancelled_registered in H.
Qed.

Lemma malformed_ok hand started s name publisher : fetches_ok hand started s -> fetches_ok hand started (malformed_fetch s name publisher).
Proof.
  intros Hok. unfold malformed_fetch. apply signals_ok, on_track_ok; [apply malformed_quiet|]. unfold cancel_downstream_fetches.
  generalize (map fst (List.filter (fun x : SubscriptionId * Fetch => bool_decide (Fetch_get_full_track_name (snd x) = name)) (map_to_list (inbound_fetches s)))).
  intros l. revert s Hok. induction l as [|id l IH]; intros s Hok; [done|]. simpl. apply IH. unfold cancel_downstream_fetch.
  set (listened := match _ with Some _ => _ | None => _ end). destruct listened; [|by apply senders_ok].
  apply (tasks_like_ok hand started (with_cancel_senders s _)); [|by apply senders_ok]. intros. apply alter_like. intros. apply stop_like.
Qed.

(** ** Deliveries *)

Lemma redeliver_ok hand started s r l l' : deliveries s !! r = Some l -> dl_track l' = dl_track l -> dl_delivery l' = dl_delivery l ->
  dl_claim l' = dl_claim l -> (dl_phase l' <> GP_Walking -> fd_pending (dl_delivery l) = None) -> (is_Some (dl_claim l) -> is_filling_gap l' = true) ->
  fetches_ok hand started s -> fetches_ok hand started (put_delivery s r l').
Proof.
  intros E Etr Ed Ecl Hp Hf [Hc Hu Ha Ht Hdl]. split; try done.
  - apply (claims_same s); try done. intros [id|r']; [done|]. simpl. destruct (decide (r' = r)) as [->|Hne]; [|by rewrite lookup_insert_ne].
    rewrite lookup_insert_eq, E. simpl. by rewrite Etr, Ecl.
  - by apply (upstream_less s); try done; lia.
  - intros r' l0. simpl. intros [[<- <-]|[_ E']]%lookup_insert_Some; [|exact (Hdl r' l0 E')].
    destruct (Hdl r l E) as (_ & _ & H3). unfold delivery_ok. rewrite Etr, Ed, Ecl. by split_and!.
Qed.

(** Groups are claimed at a gap. *)
Lemma gap_taken_ok hand started s r l first last s1 c : fetches_ok hand started s -> deliveries s !! r = Some l -> dl_claim l = None ->
  fd_pending (dl_delivery l) = None -> take_claim s (dl_track l) first last = (s1, Some c) ->
  fetches_ok hand started (put_delivery s1 r (loop_at l (Some c) GP_Unknown)) /\ fe_next_request_id s1 = fe_next_request_id s.
Proof.
  intros [Hc Hu Ha Ht Hdl] El Ecl Hp E. destruct (take_claim_takes _ _ _ _ _ _ E) as (track & Etr & Ek & Hf & Hr & tm & ->).
  split; [|done]. set (s' := put_delivery _ _ _). split; try done.
  - apply (claims_taken s (inr r) (dl_track l) first last _ c s' Hc E); [|done|].
    + intros n x. simpl. rewrite El. simpl. congruence.
    + intros [i|r']; unfold claim_of; [by rewrite decide_False|]. simpl. destruct (decide (r' = r)) as [->|Hne].
      * by rewrite lookup_insert_eq, decide_True.
      * rewrite lookup_insert_ne, decide_False by congruence. done.
  - apply (upstream_less s); try done. intros n x. change (registered_of s' n) with (registered_of (with_fe_table s tm) n). by rewrite Hr.
  - intros r' l0. simpl. intros [[<- <-]|[_ E']]%lookup_insert_Some; [|exact (Hdl r' l0 E')].
    destruct (Hdl r l El) as (_ & _ & H3). by split_and!.
Qed.

Lemma put_delivery_twice s r l l' : put_delivery (put_delivery s r l) r l' = put_delivery s r l'.
Proof. unfold put_delivery. simpl. unfold with_deliveries. simpl. by rewrite insert_insert_eq. Qed.
Lemma signals_delivery s name r l : pass_signals (put_delivery s r l) name = put_delivery (pass_signals s name) r l.
Proof. unfold pass_signals. change (track_of (put_delivery s r l) name) with (track_of s name). by destruct (track_of s name). Qed.
Lemma send_delivery env s r l a name f o : send_upstream_fetch_for_range env (put_delivery s r l) a name f o =
  (put_delivery (fst (send_upstream_fetch_for_range env s a name f o)) r l, snd (send_upstream_fetch_for_range env s a name f o)).
Proof.
  unfold send_upstream_fetch_for_range. destruct (env_publishers env) as [|p ps]; [done|]. destruct (env_opens env), (env_sends env); try done.
  destruct (env_malformed env); [|done]. simpl. f_equal. set (s1 := with_upstream_fetches _ _).
  set (f1 := fun t => with_upstream t (cancel_upstream_request _ _ _ _)).
  match goal with |- _ = put_delivery (put_sent (pass_signals (on_fetch_track ?y _ _) _) _) _ _ => change s1 with (put_delivery y r l) end.
  clearbody s1. change (on_fetch_track (put_delivery ?x r l) name ?f) with (put_delivery (on_fetch_track x name f) r l).
  by rewrite signals_delivery.
Qed.

(** The gap is filled, once the claim is settled. *)
Lemma fill_gap_ok config env started s r l claim a b : fetches_ok None started (put_delivery s r (loop_at l claim GP_Unknown)) ->
  0 <= fe_next_request_id s -> fe_next_request_id s + 2 < U64 -> stepped started s (Ok (fill_delivery_gap config env s r l claim a b)).
Proof.
  intros Hok H0 Hb. unfold fill_delivery_gap. destruct (_ <=? _); [eexists; split; [done|]; split; [done|simpl; lia]|].
  destruct (requested_part _ _ _ _) as [first last]. set (s1 := put_delivery s r (loop_at l claim GP_Unknown)) in *.
  pose proof (sends_ok None started env s1 (inr r) (dl_track l) (range_filter first last) (fd_group_order (dl_delivery l)) Hok H0 Hb) as Hs.
  unfold s1 in Hs at 1. rewrite send_delivery in Hs. destruct (send_upstream_fetch_for_range _ s _ _ _ _) as [s2 asked]. simpl in Hs.
  destruct Hs as (H2 & _ & _ & _ & _ & Hn & _). eexists. split; [reflexivity|]. split; [|exact Hn].
  rewrite <- (put_delivery_twice s2 r (loop_at l claim GP_Unknown)).
  apply (redeliver_ok _ _ _ r (loop_at l claim GP_Unknown)); try done; [apply lookup_insert_eq| |by destruct asked].
  intros _. apply (fo_deliveries _ _ _ H2 r (loop_at l claim GP_Unknown)); [apply lookup_insert_eq|done].
Qed.

Lemma gap_ok config env started s r l g a b : fetches_ok None started s -> deliveries s !! r = Some l -> dl_phase l = GP_Walking ->
  0 <= fe_next_request_id s -> fe_next_request_id s + 2 < U64 -> stepped started s (Ok (delivery_gap config env s r l g a b)).
Proof.
  intros Hok El Ep H0 Hb. unfold delivery_gap. destruct (fd_pending (dl_delivery l)) as [x|] eqn:Epend; [exists s; split; [done|]; split; [done|lia]|].
  assert (Ecl : dl_claim l = None).
  { destruct (fo_deliveries _ _ _ Hok r l El) as (_ & H & _). destruct (dl_claim l) as [c|]; [|done].
    unfold is_filling_gap in H. rewrite Ep in H. by specialize (H ltac:(by eexists)). }
  simpl. destruct (take_claim s (dl_track l) a b) as [s1 [c|]] eqn:E.
  - destruct (gap_taken_ok None started s r l a b s1 c Hok El Ecl Epend E) as [H1 En].
    destruct (fill_gap_ok config env started s1 r l (Some c) a b H1) as (s' & E' & H' & Hn); [lia..|]. injection E' as <-.
    eexists. split; [done|]. split; [done|lia].
  - apply not_taken in E as ->. case_bool_decide.
    + apply fill_gap_ok; try done. by apply (redeliver_ok _ _ _ r l); try done; rewrite ?Ecl; try intros [].
    + eexists. split; [done|]. split; [|simpl; lia]. by apply (redeliver_ok _ _ _ r l); try done; rewrite ?Ecl; try intros [].
Qed.

(** What a delivery claims is let go of. *)
Lemma release_gap_ok hand started s r l m : fetches_ok hand started s -> deliveries s !! r = Some l ->
  (forall r', r' <> r -> m !! r' = deliveries s !! r') ->
  (forall l', m !! r = Some l' -> dl_claim l' = None /\ delivery_ok s r l') ->
  fetches_ok hand started (with_deliveries (release_claim s (dl_track l) (dl_claim l)) m).
Proof.
  intros [Hc Hu Ha Ht Hdl] El Hm Hr. destruct (released_rest s (dl_track l) (dl_claim l)) as [tm Etm]. rewrite Etm. set (s' := with_deliveries _ _).
  split; try done.
  - apply (claims_released s s' (inr r) (dl_track l) (dl_claim l) Hc); [simpl; by rewrite El|..].
    + intros n. change (fills_of s' n) with (fills_of (with_fe_table s tm) n). by rewrite Etm.
    + intros [i|r'] Hne; [done|]. simpl. by rewrite Hm by congruence.
    + intros n c. simpl. destruct (m !! r) as [l'|] eqn:E; [|done]. destruct (Hr l' eq_refl) as [H _]. simpl. by rewrite H.
  - apply (upstream_less s); try done. intros n x. change (registered_of s' n) with (registered_of (with_fe_table s tm) n).
    rewrite <- Etm. by rewrite registered_released.
  - intros r' l' E. destruct (decide (r' = r)) as [->|Hne]; [by apply Hr|]. simpl in E. rewrite Hm in E by done. exact (Hdl r' l' E).
Qed.
Lemma gap_done_ok hand started s r l : fetches_ok hand started s -> deliveries s !! r = Some l -> fetches_ok hand started (gap_done s r l).
Proof.
  intros Hok El. unfold gap_done, put_delivery. destruct (released_rest s (dl_track l) (dl_claim l)) as [tm Etm].
  assert (Ed : deliveries (release_claim s (dl_track l) (dl_claim l)) = deliveries s) by by rewrite Etm. rewrite Ed.
  apply (release_gap_ok hand started s r l); try done.
  - intros r' Hne. by rewrite lookup_insert_ne.
  - intros l'. rewrite lookup_insert_eq. intros [= <-]. split; [done|]. destruct (fo_deliveries _ _ _ Hok r l El) as (_ & _ & H3).
    split_and!; [done|by intros []|exact H3].
Qed.
Lemma drop_delivery_ok hand started s r : fetches_ok hand started s -> fetches_ok hand started (drop_delivery s r) /\
  fetch_tasks (drop_delivery s r) = fetch_tasks s /\ deliveries (drop_delivery s r) !! r = None /\
  fe_next_request_id (drop_delivery s r) = fe_next_request_id s.
Proof.
  intros Hok. unfold drop_delivery. destruct (deliveries s !! r) as [l|] eqn:El; [|done]. split.
  - apply (release_gap_ok hand started s r l); try done; [intros r' Hne; by rewrite lookup_delete_ne|intros l'; by rewrite lookup_delete_eq].
  - destruct (released_rest s (dl_track l) (dl_claim l)) as [tm ->]. split_and!; try done. simpl. apply lookup_delete_eq.
Qed.

Lemma open_fill_ok hand started s name state : fetches_ok hand started s -> fetches_ok hand started (open_fill s name state).
Proof.
  intros Hok. unfold open_fill. destruct (_ ≫= _) as [[[[a b] order] filter]|]; [|done].
  assert (H1 : fetches_ok hand started (with_next_fill s (S (fe_next_fill s)))).
  { destruct Hok as [Hc Hu Ha Ht Hdl]. split; [by apply (claims_same s)|by apply (upstream_less s); try done; lia|done..|].
    apply (deliveries_same s); [done|simpl; lia|by eauto|done]. }
  apply new_delivery_ok; try done; [|split_and!; [done|by intros []|simpl; lia]].
  destruct (deliveries _ !! _) as [l|] eqn:E; [|done]. destruct (fo_deliveries _ _ _ Hok _ _ E) as (_ & _ & H). simpl in H. lia.
Qed.

Lemma delivered_ok started s id t : fetches_ok None started s -> fetch_tasks s !! id = Some t -> is_delivering t = true ->
  fetches_ok None started (end_delivery s id t).
Proof.
  intros Hok0 Et0 Hd. unfold end_delivery. destruct (drop_delivery_ok None started s (inl id) Hok0) as (Hok & Eq & Enone & _).
  set (s1 := drop_delivery s (inl id)) in *. assert (Et : fetch_tasks s1 !! id = Some t) by by rewrite Eq. clearbody s1.
  apply (maps_ok None started (drop_fetch s1 id t)). destruct Hok as [Hc Hu Ha Ht Hdl].
  split; [by apply drop_claims|by apply drop_upstream|..].
  - intros i. specialize (Ha i). unfold answered_ok, answers_of in *. rewrite drop_tasks, drop_sent. destruct (decide _) as [->|]; [|done].
    rewrite Et, Hd in Ha. destruct Ha as [Hin [m Em]]. rewrite bool_decide_true by done. by exists (FEO_Ok id m).
  - intros i x _. rewrite drop_tasks. destruct (decide _); [done|]. by apply Ht.
  - destruct (drop_deliveries s1 id t) as [Ed En]. intros r l E. rewrite Ed in E. destruct (Hdl r l E) as (H1 & H2 & H3).
    split; [done|]. split; [done|]. destruct r as [i|n]; [|by rewrite En]. destruct H3 as (t' & Et' & H3). exists t'. split; [|done].
    rewrite drop_tasks, decide_False; [done|]. intros ->. by rewrite Enone in E.
Qed.

Lemma kept_quiet o : quiet (fun t => cache_fetched_object t o).
Proof. intros t. unfold cache_fetched_object. by destruct (try_into_fetch o). Qed.
Lemma cache_quiet f : (forall c, fills (f c) = fills c /\ next_lock (f c) = next_lock c) -> quiet (fun t => set_cache t (f (cache (content t)))).
Proof. intros Hf t. simpl. destruct (Hf (cache (content t))) as [-> ->]. by split_and!. Qed.

Definition fetched (op : fetch_op) : list SubscriptionId := match op with FOP_Fetch id _ _ => [id] | _ => [] end.

Lemma fetch_step_ok config started s op : fetches_ok None started s -> (forall id, id ∈ fetched op -> id ∉ started) ->
  0 <= fe_next_request_id s -> fe_next_request_id s + 2 < U64 -> stepped (fetched op ++ started) s (fetch_step config s op).
Proof.
  intros Hok Hn H0 Hb.
  assert (Hsame : forall s', fetches_ok None started s' -> fe_next_request_id s' = fe_next_request_id s -> stepped started s (Ok s')).
  { intros s' H' E. exists s'. split_and!; try done; lia. }
  pose proof (Hsame s Hok eq_refl) as Hskip.
  destruct op as [id env m|id env|id env|id env|rid msg|rid|rid|id|id|id|name state|r env g a b|r|r|n|name p|name o|name a b|name g]; cbn [fetch_step fetched app].
  - apply handle_fetch_ok; try done. apply Hn. by left.
  - destruct (fetch_tasks s !! id) as [t|] eqn:Et; [|done]. destruct (ft_phase t) eqn:Ep; [|done..]. by apply waited_ok.
  - destruct (fetch_tasks s !! id) as [t|] eqn:Et; [|done]. destruct (ft_phase t) as [|asked l [x|]|d st] eqn:Ep; try done.
    destruct (range_answered asked x l) as [range l']. apply resumed_ok; try done. unfold is_delivering. by rewrite Ep.
  - destruct (fetch_tasks s !! id) as [t|] eqn:Et; [|done]. destruct (ft_phase t) as [|asked l [x|]|d st] eqn:Ep; try done.
    apply resumed_ok; try done. unfold is_delivering. by rewrite Ep.
  - destruct (upstream_fetches s !! rid) as [u|] eqn:Eu; [|done]. destruct (is_some _); [done|]. apply Hsame; [by apply message_ok|].
    unfold upstream_fetch_message. destruct (uf_phase u), msg; simpl; by rewrite ?(proj2 (respond_rest _ _ _ _)).
  - destruct (upstream_fetches s !! rid) as [u|] eqn:Eu; [|done]. destruct (uf_signal u); [|done]. apply Hsame; [by apply cancelled_ok|].
    unfold upstream_fetch_cancelled. destruct (uf_phase u); simpl; by rewrite ?(proj2 (respond_rest _ _ _ _)).
  - destruct (upstream_fetches s !! rid) as [u|] eqn:Eu; [|done]. destruct (has_reader s rid u) eqn:Er; [done|]. apply Hsame; [by apply done_ok|done].
  - apply Hsame; [destruct (handler_returned s id); [by apply stop_ok|done]|]. destruct (handler_returned s id); [|done]. unfold update_fetch, stop_fetch. by repeat case_match.
  - apply Hsame; [destruct (handler_returned s id); [by apply stop_ok, inbound_ok|done]|]. destruct (handler_returned s id); [|done]. unfold cancel_fetch, stop_fetch. by repeat case_match.
  - destruct (fetch_tasks s !! id) as [t|] eqn:Et; [|done]. destruct (is_delivering t) eqn:Ed; [|done]. apply Hsame; [by apply delivered_ok|].
    unfold end_delivery. pose proof (drop_delivery_ok None started s (inl id) Hok) as (_ & _ & _ & <-). unfold drop_fetch, release_claim. by destruct (ft_claim t).
  - apply Hsame; [by apply open_fill_ok|]. unfold open_fill. by destruct (_ ≫= _) as [[[[? ?] ?] ?]|].
  - destruct (deliveries s !! r) as [l|] eqn:El; [|done]. destruct (dl_phase l) eqn:Ep; try done. destruct (reader_stop s r); try done. by apply gap_ok.
  - destruct (deliveries s !! r) as [l|] eqn:El; [|done]. destruct (dl_phase l) eqn:Ep; try done. apply Hsame; [|done].
    destruct (fo_deliveries _ _ _ Hok r l El) as (_ & H & _). unfold is_filling_gap in H. rewrite Ep in H.
    destruct (dl_claim l) as [c|] eqn:Ecl; [by specialize (H ltac:(by eexists))|]. apply (redeliver_ok _ _ _ r l); try done. by rewrite Ecl; intros [].
  - destruct (deliveries s !! r) as [l|] eqn:El; [|done]. destruct (is_filling_gap l); [|done]. apply Hsame; [by apply gap_done_ok|].
    unfold gap_done. by destruct (released_rest s (dl_track l) (dl_claim l)) as [tm ->].
  - destruct (drop_delivery_ok None started s (inr n) Hok) as (H & _ & _ & En). by apply Hsame.
  - apply Hsame; [by apply malformed_ok|]. unfold malformed_fetch, pass_signals. assert (Hm : fe_next_request_id (cancel_downstream_fetches s name) = fe_next_request_id s).
    { unfold cancel_downstream_fetches. clear Hsame Hskip Hok. generalize (map fst (List.filter (fun x : SubscriptionId * Fetch => bool_decide (Fetch_get_full_track_name (snd x) = name)) (map_to_list (inbound_fetches s)))).
      intros l. clear H0 Hb. revert s. induction l as [|i l IH]; intros s; [done|]. simpl. rewrite IH. unfold cancel_downstream_fetch. by repeat case_match. }
    destruct (track_of _ name); exact Hm.
  - apply Hsame; [|done]. apply on_track_ok; [apply kept_quiet|done].
  - apply Hsame; [|done]. apply on_track_ok; [|done]. apply (cache_quiet (fun c => mark_absent c a b)). intros c. unfold mark_absent. by destruct (Location_leb a b).
  - apply Hsame; [|done]. apply on_track_ok; [|done]. by apply (cache_quiet (evict g)).
Qed.

(** * The theorem *)

(** Nothing is under way. *)
Definition no_fetches (tm : TrackTable) : Prop := forall name e, tracks tm !! name = Some e ->
  fills (cache (content (te_track e))) = [] /\ registered (upstream_requests (upstream (te_track e))) = [].

Lemma new_fetches_ok tm : no_fetches tm -> fetches_ok None [] (Fetches_new tm).
Proof.
  intros Hn. assert (Hf : forall name l n f, fills_of (Fetches_new tm) name = Some (l, n) -> f ∈ l -> False).
  { intros name l n f. unfold fills_of, track_of. simpl. destruct (tracks tm !! name) as [e|] eqn:E; [|done]. simpl.
    destruct (Hn _ _ E) as [-> _]. intros [= <- <-]. apply not_elem_of_nil. }
  split; [split|split| | |]; try done; try (by intros [] ? ? ?).
  - intros name l n f E Hl. by destruct (Hf _ _ _ _ E Hl).
  - intros name l n f E Hl. by destruct (Hf _ _ _ _ E Hl).
  - intros name r. unfold registered_of, track_of. simpl. destruct (tracks tm !! name) as [e|] eqn:E; simpl; [|by intros ?%elem_of_nil].
    destruct (Hn _ _ E) as [_ ->]. by intros ?%elem_of_nil.
Qed.

Lemma run_fetches_ok config ops started s : fetches_ok None started s -> NoDup (flat_map fetched ops) ->
  (forall id, id ∈ flat_map fetched ops -> id ∉ started) -> 0 <= fe_next_request_id s ->
  fe_next_request_id s + 2 * Z.of_nat (length ops) < U64 ->
  exists started' s', run_fetches config s ops = Ok s' /\ fetches_ok None started' s' /\
    forall id, id ∈ started' <-> id ∈ flat_map fetched ops \/ id ∈ started.
Proof.
  revert started s. induction ops as [|op ops IH]; intros started s Hok Hd Hn H0 Hb.
  - exists started, s. split_and!; try done. intros id. simpl. rewrite elem_of_nil. tauto.
  - simpl in Hd, Hn, Hb. apply NoDup_app in Hd as (Hd1 & Hd2 & Hd3).
    destruct (fetch_step_ok config started s op Hok) as (s1 & E & H1 & Hn1); [|lia..|].
    { intros id Hid. apply Hn, elem_of_app. by left. }
    destruct (IH (fetched op ++ started) s1 H1 Hd3) as (started' & s' & E' & H' & Hin); [|lia..|].
    { intros id Hid [Hf|Hs]%elem_of_app; [by apply (Hd2 id)|]. apply (Hn id); [|done]. apply elem_of_app. by right. }
    exists started', s'. unfold run_fetches in *. simpl. rewrite E. split_and!; try done.
    intros id. rewrite Hin, !elem_of_app. tauto.
Qed.

(** C9: each FETCH is answered once, and what is held is let go of.  However FETCHes, the
    fills of SUBSCRIBEs, updates, ends of request streams, answers of publishers, timeouts,
    Objects and malformed tracks follow on each other: the relay does not panic; a FETCH
    gets one answer, unless its handler waits.  Whoever waits for a fill in flight claims
    nothing, be it a handler, or a delivery at a gap (of a FETCH, whose own claim is gone
    too, or of a SUBSCRIBE's fill); and each fill in flight, which is what can be waited
    for, has one holder, which waits for none: a FETCH that has asked its publisher, or a
    delivery at a gap that it has asked for or tells its subscriber to be unknown.  So no
    two wait for each other.  A handler that waits for the publisher has a request open
    that still owes the answer, and each upstream FETCH that a track has on its list is one
    that can be cancelled. *)
Theorem fetches_answered config tm ops :
  no_fetches tm -> NoDup (flat_map fetched ops) -> 1 + 2 * Z.of_nat (length ops) < U64 ->
  exists s, run_fetches config (Fetches_new tm) ops = Ok s /\
    (forall id, id ∈ flat_map fetched ops ->
       match fetch_tasks s !! id with
       | None => exists a, answers_of s id = [a]
       | Some t =>
           match ft_phase t with
           | FPH_Filling => answers_of s id = [] /\ ft_claim t = None
           | FPH_Asking rid _ response => answers_of s id = [] /\
               (response = None -> exists u, upstream_fetches s !! rid = Some u /\ uf_for u = inl id /\ uf_phase u = UP_Waiting)
           | FPH_Delivering _ _ => exists m, answers_of s id = [FEO_Ok id m]
           end
       end) /\
    (forall r l, deliveries s !! r = Some l -> dl_phase l = GP_Waiting \/ dl_phase l = GP_Walking -> dl_claim l = None) /\
    (forall id l, deliveries s !! inl id = Some l -> dl_phase l = GP_Waiting -> claim_of s (inl id) = Some (dl_track l, None)) /\
    (forall name t f, track_of s name = Some t -> f ∈ fills (cache (content t)) ->
       exists h, claim_of s h = Some (name, Some (busy f)) /\ is_filling s h /\
         forall h', claim_of s h' = Some (name, Some (busy f)) -> h' = h) /\
    (forall name t r, track_of s name = Some t -> r ∈ registered (upstream_requests (upstream t)) ->
       exists u, upstream_fetches s !! ur_request_id r = Some u /\ uf_track u = name).
Proof.
  intros Hn Hd Hb. destruct (run_fetches_ok config ops [] (Fetches_new tm)) as (started & s & E & [Hc Hu Ha Ht Hdl] & Hin);
    [by apply new_fetches_ok|done|by intros id _ ?%elem_of_nil|done|exact Hb|].
  exists s. split; [done|]. split_and!.
  - intros id Hid. assert (Hs : id ∈ started) by (apply Hin; by left). specialize (Ha id). unfold answered_ok in Ha.
    destruct (fetch_tasks s !! id) as [t|] eqn:Et; [|by rewrite bool_decide_true in Ha]. destruct Ha as [_ Ha].
    destruct (Ht id t ltac:(done) Et) as [_ Hcl]. pose proof (up_asked _ Hu id) as Hask. unfold asks in Hask. rewrite Et in Hask. simpl in Hask.
    unfold is_delivering in Ha. unfold has_asked in Hcl. unfold asked_by in Hask. destruct (ft_phase t) as [|rid l r|d st]; [..|done].
    + split; [done|]. destruct (ft_claim t) as [c|]; [|done]. by specialize (Hcl ltac:(by eexists)).
    + split; [done|]. intros ->. by apply Hask.
  - intros r l El Hp. destruct (Hdl r l El) as (_ & H & _). unfold is_filling_gap in H. destruct (dl_claim l) as [c|]; [|done].
    specialize (H ltac:(by eexists)). by destruct Hp as [Hp|Hp]; rewrite Hp in H.
  - intros id l El Hp. destruct (Hdl (inl id) l El) as (Hpend & _ & t & Et & Ed & <-). simpl. rewrite Et. simpl. f_equal. f_equal.
    destruct (Ht id t ltac:(done) Et) as [_ Hcl]. destruct (ft_claim t) as [c|]; [|done]. specialize (Hcl ltac:(by eexists)).
    unfold has_asked in Hcl. unfold delivery_of in Ed. destruct (ft_phase t) as [| |d st]; try done. injection Ed as ->.
    by rewrite Hpend in Hcl by by rewrite Hp.
  - intros name t f Et Hf. destruct (cl_owned _ Hc name (fills (cache (content t))) (next_lock (cache (content t))) f) as [h Hh];
      [unfold fills_of; by rewrite Et|done|]. exists h. split; [done|]. split; [|intros h' Hh'; by apply (cl_inj _ Hc h' h name (busy f))].
    destruct h as [id|r]; simpl in *.
    + destruct (fetch_tasks s !! id) as [task|] eqn:Ek; [|done]. injection Hh as Ename Ecl. exists task. split; [done|].
      apply (Ht id); [done..|]. by rewrite Ecl.
    + destruct (deliveries s !! r) as [l|] eqn:El; [|done]. injection Hh as Ename Ecl. exists l. split; [done|].
      apply (Hdl r l El). by rewrite Ecl.
  - intros name t r Et Hr. apply (up_registered _ Hu). unfold registered_of. by rewrite Et.
Qed.
