(* ===== verification/FetchAnswers.v ===== *)
(** What a publisher answers to a FETCH is what the subscriber is told. *)
From stdpp Require Import gmap.
From S2P Require Import Prelude Varint Common Codes TrackName LocationFilter RangeFilter Properties MessageParameter CombinedFilter.
From S2P Require Import Control Subgroup Datagram FetchObject ObjectForms DataStream SeenObjects TrackCache SwitchingSet Controller Namespaces.
From S2P Require Import Streams Subscription Forwarding Tracks FetchRange FetchDelivery Parameters TrackTable Requests FetchRequests.

(** * The order of Locations *)

Lemma ltb_not_leb a b : Location_ltb a b = negb (Location_leb b a).
Proof.
  unfold Location_ltb, Location_leb. destruct (Z.ltb_spec (group a) (group b)), (Z.ltb_spec (group b) (group a)), (Z.eqb_spec (group a) (group b)),
    (Z.eqb_spec (group b) (group a)), (Z.ltb_spec (object a) (object b)), (Z.leb_spec (object b) (object a)); try lia; done.
Qed.
Lemma leb_antisym a b : Location_leb a b = true -> Location_leb b a = true -> a = b.
Proof.
  destruct a as [ga oa], b as [gb ob]. unfold Location_leb. simpl. rewrite !orb_true_iff, !andb_true_iff, !Z.ltb_lt, !Z.eqb_eq, !Z.leb_le.
  intros. f_equal; lia.
Qed.
Lemma leb_trans a b c : Location_leb a b = true -> Location_leb b c = true -> Location_leb a c = true.
Proof. unfold Location_leb. rewrite !orb_true_iff, !andb_true_iff, !Z.ltb_lt, !Z.eqb_eq, !Z.leb_le. lia. Qed.
Lemma leb_refl a : Location_leb a a = true.
Proof. unfold Location_leb. by rewrite Z.eqb_refl, Z.leb_refl, orb_true_r. Qed.

(** Of two Locations the later. *)
Lemma later_is (known : option Location) e : exists l,
  match known with Some known => if Location_ltb known e then Some e else Some known | None => Some e end = Some l /\
  Location_leb e l = true /\ (l = e \/ known = Some l).
Proof.
  destruct known as [k|]; [|exists e; auto using leb_refl]. rewrite ltb_not_leb. destruct (Location_leb e k) eqn:E; simpl; [exists k|exists e]; auto using leb_refl.
Qed.

(** * The publisher's side *)

(** [x]: the last Location of the range, [e]: the End Location that a publisher whose
    Largest Object is [largest] gives for it.  They differ when the range ends with a group
    that is over: then it is the last Object of that group. *)
Definition end_told (largest x e : Location) : Prop :=
  e = x \/ (x <> largest /\ object x = U64_MAX /\ group e = group x /\ Location_leb e x = true).

Lemma end_told_le largest x e : end_told largest x e -> Location_leb e x = true.
Proof. intros [->|(_ & _ & _ & H)]; [apply leb_refl|done]. Qed.

(** A filter with an end starts where it says. *)
Lemma start_fixed filter a b e : end_location filter = Some e -> start_location filter a = start_location filter b.
Proof. by destruct filter. Qed.

(** What the relay knows, at most what the publisher has, makes no difference. *)
Lemma range_passed_on filter P start x e known : fetch_range filter (Some P) = Some (start, x) -> end_told P x e -> Location_leb start e = true ->
  (forall l, known = Some l -> Location_leb l P = true /\ (Location_leb l x = true -> Location_leb l e = true)) ->
  exists l x', match known with Some known => if Location_ltb known e then Some e else Some known | None => Some e end = Some l /\
    fetch_range filter (Some l) = Some (start, x') /\ concrete_end_location x' (Some e) None = e.
Proof.
  intros HP He Hs Hk. destruct (later_is known e) as (l & -> & Hl & Hcase). exists l.
  pose proof (end_told_le _ _ _ He) as Hex.
  assert (HlP : Location_leb x P = true -> Location_leb l P = true).
  { intros HxP. destruct Hcase as [->|E]; [by eapply leb_trans|]. by destruct (Hk l E). }
  assert (Hle : Location_leb l x = true -> l = e).
  { intros Hlx. destruct Hcase as [->|E]; [done|]. destruct (Hk l E) as [_ H]. apply leb_antisym; auto. }
  assert (Hc : concrete_end_location e (Some e) None = e).
  { unfold concrete_end_location. destruct (object e =? U64_MAX); [|done]. simpl. by rewrite ltb_not_leb, leb_refl. }
  unfold fetch_range in *. destruct (end_location filter) as [en|] eqn:Een.
  - rewrite (start_fixed filter (Some l) (Some P) en Een). set (st := match start_location filter (Some P) with Some s => s | None => _ end) in *.
    rewrite ltb_not_leb in HP. destruct (Location_leb P en) eqn:EP; simpl in HP.
    + (* up to the Largest Object *)
      destruct (Location_leb st P) eqn:Est; [|done]. injection HP as <- <-. destruct He as [->|[Hne _]]; [|done].
      rewrite (Hle (HlP (leb_refl P))). exists P. rewrite ltb_not_leb, EP. simpl. by rewrite Est.
    + destruct (Location_leb st en) eqn:Est; [|done]. injection HP as <- <-. rewrite ltb_not_leb. destruct (Location_leb l en) eqn:El; simpl.
      * rewrite (Hle eq_refl). exists e. by rewrite Hs.
      * exists en. rewrite Est. split_and!; try done. destruct He as [->|(_ & Ho & _ & _)]; [done|].
        unfold concrete_end_location. rewrite Ho, Z.eqb_refl. simpl. rewrite ltb_not_leb. destruct (Location_leb en e) eqn:Ee; simpl; [|done].
        by apply leb_antisym.
  - destruct (Location_leb _ P) eqn:Est; [|done]. injection HP as <- <-. destruct He as [->|[Hne _]]; [|done].
    rewrite (Hle (HlP (leb_refl P))). exists P. by rewrite Est.
Qed.

(** C8: the relay passes the publisher's answer on.  A FETCH that waits for a publisher
    whose Largest Object is at least what the relay has seen, and that answers with
    FETCH_OK for the range that the subscriber's filter means to it, is answered with the
    publisher's End Location and End Of Track, and the delivery covers the range the
    publisher will send, from the response that is under way. *)
Theorem publisher_answer_passed_on config s id env t rid known P start x e end_of_track :
  fetch_tasks s !! id = Some t -> ft_phase t = FPH_Asking rid known (Some (Some (UFR_Accepted e end_of_track))) ->
  env_answers env = true -> fetch_cancel_senders s !! id = None ->
  fetch_range (Fetch_get_location_filter (ft_fetch t)) (Some P) = Some (start, x) -> end_told P x e -> Location_leb start e = true ->
  (forall l, known = Some l -> Location_leb l P = true /\ (Location_leb l x = true -> Location_leb l e = true)) ->
  (forall st, start_location (Fetch_get_location_filter (ft_fetch t)) None = Some st ->
     forall en, end_location (Fetch_get_location_filter (ft_fetch t)) = Some en -> Location_leb st en = true) ->
  exists s' properties, fetch_step config s (FOP_Answered id env) = Ok s' /\
    fe_sent s' = fe_sent s ++ [FEO_Ok id (mkFetchOk end_of_track e [] properties)] /\
    fetch_tasks s' !! id = Some (set_fetch_phase t (FPH_Delivering (mkDelivery start e (Fetch_group_order (ft_fetch t)) (Some rid) (ft_filter t)) FS_Running)).
Proof.
  intros Et Ep Hans Hno HP He Hs Hk Hfw. destruct (range_passed_on _ _ _ _ _ _ HP He Hs Hk) as (l & x' & El & Er & Ec).
  unfold fetch_step. rewrite Et, Ep. cbn [range_answered]. rewrite El. unfold settle_fetch, range_to_serve, resolve_fetch_range.
  assert (Hb : match start_location (Fetch_get_location_filter (ft_fetch t)) None, end_location (Fetch_get_location_filter (ft_fetch t)) with
               | Some st, Some en => Location_ltb en st | _, _ => false end = false).
  { destruct (start_location _ None) as [st|]; [|done]. destruct (end_location _) as [en|]; [|done]. rewrite ltb_not_leb. by rewrite (Hfw st eq_refl en eq_refl). }
  rewrite Hb, Er. cbn [upstream_end_of is_some negb]. rewrite andb_false_r, Ec. change (is_some (pending_of (URG_Resolved rid e end_of_track))) with true. cbv iota beta. unfold answer_fetch. rewrite Hno.
  rewrite bool_decide_false by done. rewrite Hans. cbn [negb]. do 2 eexists. split; [reflexivity|]. split.
  - simpl. rewrite bool_decide_true by done. by rewrite andb_true_r.
  - apply lookup_insert_eq.
Qed.
