(* ===== verification/FetchScenarios.v ===== *)
(** FETCH requests, step by step: runs that the theorems are about, and what happens in
    the runs that the findings are about. *)
From stdpp Require Import gmap.
From S2P Require Import Prelude Varint Pair Common Codes TrackName LocationFilter RangeFilter Properties MessageParameter CombinedFilter.
From S2P Require Import Control Subgroup Datagram FetchObject ObjectForms DataStream SeenObjects TrackCache SwitchingSet Controller Namespaces.
From S2P Require Import Streams Subscription Forwarding Tracks FetchRange FetchDelivery Parameters TrackTable Requests FetchRequests.
From S2P Require Import FetchesAnswered FetchAnswers.

(** Subscribers 1 and 2, publisher 8. *)
Definition f_config : AppConfig := mkAppConfig 16 10000 8 TAM_PerTrack 0 10.
Definition f_name : FullTrackName := mkFullTrackName [[100]] [1].
Definition f_env : fetch_env := mkEnv [8] true false true true.
Definition a_fetch (request_id : Z) (filter : LocationFilter) : Fetch :=
  Fetch_new_with_location_filter request_id (ftn_namespace f_name) (ftn_name f_name) filter [].
Definition an_object (g o : Z) : Object := mkObject 3 (mkLocation g o) 128 OFP_Subgroup (Some 0) OS_Normal None (Some [1; 2]).
Definition f_run (ops : list fetch_op) : Fetches :=
  match run_fetches f_config (Fetches_new TrackTable_new) ops with Ok s => s | _ => Fetches_new TrackTable_new end.
Definition errors_of (s : Fetches) : list fetch_output :=
  List.filter (fun o => match o with FEO_Error _ _ _ | FEO_Close _ _ | FEO_ClosePublisher _ _ => true | _ => false end) (fe_sent s).

(** Groups 1 to 3 are asked for twice: the second FETCH waits for the first, which the
    publisher answers; the second asks for itself then, and its publisher does not answer. *)
Definition two_fetches : list fetch_op :=
  [FOP_Fetch (1, 0) f_env (a_fetch 0 (LF_AbsoluteRange (mkLocation 1 0) (mkLocation 3 4)));
   FOP_Fetch (2, 0) f_env (a_fetch 0 (LF_AbsoluteStartGroupEnd (mkLocation 2 0) 5));
   FOP_UpstreamMessage 1 (FM_FetchOk (mkFetchOk false (mkLocation 3 4) [] []));
   FOP_Answered (1, 0) f_env; FOP_Kept f_name (an_object 3 4); FOP_Delivered (1, 0); FOP_UpstreamDone 1;
   FOP_FillWaited (2, 0) f_env; FOP_UpstreamMessage 3 FM_Closed; FOP_Answered (2, 0) f_env].

(** Who waits for whom. *)
Example second_waits : map (fun id => ft_phase <$> fetch_tasks (f_run (take 2 two_fetches)) !! id) [(1, 0); (2, 0)] =
  [Some (FPH_Asking 1 None None); Some FPH_Filling].
Proof. vm_compute. reflexivity. Qed.
(** The second is served up to the Largest Object that the first brought in; the claims
    are gone, and so are the requests. *)
Example both_answered :
  map (answers_of (f_run two_fetches)) [(1, 0); (2, 0)] =
    [[FEO_Ok (1, 0) (mkFetchOk false (mkLocation 3 4) [] [])]; [FEO_Ok (2, 0) (mkFetchOk false (mkLocation 3 4) [] [])]] /\
  fills_of (f_run two_fetches) f_name = Some ([], 2%nat) /\
  upstream_fetches (f_run (two_fetches ++ [FOP_UpstreamDone 3])) = ∅ /\ registered_of (f_run (two_fetches ++ [FOP_UpstreamDone 3])) f_name = [].
Proof. vm_compute. auto. Qed.

Lemma no_fetches_new : no_fetches TrackTable_new.
Proof. intros name e H. simpl in H. by rewrite lookup_empty in H. Qed.

(** A subscription's fill comes to a gap of groups 1 and 2, and asks for them.  A FETCH of
    group 2, answered from what is known, comes to the same gap, and waits for the fill; and
    a FETCH of groups 2 to 5 has its handler wait for it.  When the fill is done with the gap,
    both go on: the delivery first, which claims group 2 and asks for it; the handler, which
    waits but once, asks without a claim. *)
Definition a_filling_state : option SubscriptionState :=
  match SubscriptionState_from (SO_Subscribe (mkSubscribe 4 (ftn_namespace f_name) (ftn_name f_name)
          [MP_FillParameters [MP_LocationFilter (LF_AbsoluteStart (mkLocation 1 0))]])) with Ok s => Some s | _ => None end.
Definition opened_fill : list fetch_op := match a_filling_state with Some state => [FOP_OpenFill f_name state] | None => [] end.
Definition fill_and_fetches : list fetch_op :=
  take 7 two_fetches ++ opened_fill ++
  [FOP_Gap (inr 0%nat) f_env 1 1 2;
   FOP_Fetch (3, 0) f_env (a_fetch 0 (LF_AbsoluteRange (mkLocation 2 0) (mkLocation 2 9))); FOP_Gap (inl (3, 0)) f_env 2 2 2;
   FOP_Fetch (4, 0) f_env (a_fetch 0 (LF_AbsoluteRange (mkLocation 2 0) (mkLocation 5 0)))] ++
  [FOP_GapDone (inr 0%nat); FOP_GapWaited (inl (3, 0)); FOP_Gap (inl (3, 0)) f_env 2 2 2; FOP_FillWaited (4, 0) f_env] ++
  [FOP_Filled 0; FOP_GapDone (inl (3, 0)); FOP_Delivered (3, 0)].

Example waiting_for_the_fill :
  let s := f_run (take 12 fill_and_fetches) in
  map (fun r => (fun l => (dl_claim l, dl_phase l)) <$> deliveries s !! r) [inr 0%nat; inl (3, 0)] =
    [Some (Some 1%nat, GP_Asked 3); Some (None, GP_Waiting)] /\
  (fun t => (ft_claim t, ft_phase t)) <$> fetch_tasks s !! (4, 0) = Some (None, FPH_Filling) /\
  fills_of s f_name = Some ([mkFill 1 2 1], 2%nat).
Proof. vm_compute. auto. Qed.
Example then_the_delivery :
  let s := f_run (take 16 fill_and_fetches) in
  map (fun r => (fun l => (dl_claim l, dl_phase l)) <$> deliveries s !! r) [inr 0%nat; inl (3, 0)] =
    [Some (None, GP_Walking); Some (Some 2%nat, GP_Asked 5)] /\
  (fun t => (ft_claim t, ft_phase t)) <$> fetch_tasks s !! (4, 0) = Some (None, FPH_Asking 7 (Some (mkLocation 3 4)) None) /\
  fills_of s f_name = Some ([mkFill 2 2 2], 3%nat) /\ fills_of (f_run fill_and_fetches) f_name = Some ([], 3%nat) /\
  deliveries (f_run fill_and_fetches) = ∅.
Proof. vm_compute. auto. Qed.

Lemma fetches_answered_witness :
  no_fetches TrackTable_new /\ exists s, run_fetches f_config (Fetches_new TrackTable_new) fill_and_fetches = Ok s /\
    (forall id, id ∈ flat_map fetched fill_and_fetches -> fetch_tasks s !! id = None -> exists a, answers_of s id = [a]) /\
    forall name t f, track_of s name = Some t -> f ∈ fills (cache (content t)) -> exists h, claim_of s h = Some (name, Some (busy f)) /\ is_filling s h.
Proof.
  split; [exact no_fetches_new|].
  destruct (fetches_answered f_config TrackTable_new fill_and_fetches no_fetches_new) as (s & E & H & _ & _ & Hf & _);
    [vm_compute; repeat constructor; set_solver|vm_compute; reflexivity|].
  exists s. split; [exact E|]. split.
  - intros id Hid En. specialize (H id Hid). by rewrite En in H.
  - intros name t f Et Hin. destruct (Hf name t f Et Hin) as (h & H1 & H2 & _). exists h. split; assumption.
Defined.

(** The publisher's Largest Object is {3, 4}, and the request ends with it. *)
Lemma publisher_answer_passed_on_witness :
  exists s' properties, fetch_step f_config (f_run (take 3 two_fetches)) (FOP_Answered (1, 0) f_env) = Ok s' /\
    fe_sent s' = fe_sent (f_run (take 3 two_fetches)) ++ [FEO_Ok (1, 0) (mkFetchOk false (mkLocation 3 4) [] properties)].
Proof.
  destruct (fetch_tasks (f_run (take 3 two_fetches)) !! (1, 0)) as [t|] eqn:Et; [|vm_compute in Et; discriminate].
  assert (Ht : t = default t (fetch_tasks (f_run (take 3 two_fetches)) !! (1, 0))) by (rewrite Et; reflexivity).
  vm_compute in Ht. subst t.
  edestruct (publisher_answer_passed_on f_config (f_run (take 3 two_fetches)) (1, 0) f_env _ 1 None (mkLocation 3 4) (mkLocation 1 0)
    (mkLocation 3 4) (mkLocation 3 4) false Et) as (s' & properties & E & Eo & _);
    [reflexivity|reflexivity|vm_compute; reflexivity|vm_compute; reflexivity|by left|reflexivity|discriminate| |].
  - intros st Hst en Hen. vm_compute in Hst, Hen. injection Hst as <-. injection Hen as <-. reflexivity.
  - exists s', properties. split; assumption.
Defined.

(** * What the findings are about *)

(** The relay has seen group 7, and of group 3 it holds one Object, as after a FETCH of
    that Object alone.  A FETCH of group 3 is answered as if the group ended there: nothing
    is asked of the publisher, who may have more. *)
Definition one_object_of_the_group (filter : LocationFilter) : list fetch_op :=
  [FOP_Fetch (2, 0) (mkEnv [8] false false true true) (a_fetch 0 (LF_AbsoluteRange (mkLocation 3 0) (mkLocation 3 0)));
   FOP_Kept f_name (an_object 3 0); FOP_Kept f_name (an_object 7 0); FOP_Fetch (1, 0) f_env (a_fetch 0 filter)].
Definition group_3 : LocationFilter := LF_AbsoluteStartGroupEnd (mkLocation 3 0) 3.
Example group_cut_short :
  let s := f_run (one_object_of_the_group group_3) in
  answers_of s (1, 0) = [FEO_Ok (1, 0) (mkFetchOk false (mkLocation 3 0) [] [])] /\ upstream_fetches s = ∅.
Proof. vm_compute. auto. Qed.

(** When the request starts after what is held of its group, FETCH_OK ends before it. *)
Example end_before_start :
  let s := f_run (one_object_of_the_group (LF_AbsoluteStartGroupEnd (mkLocation 3 5) 3)) in
  (fun t => match ft_phase t with FPH_Delivering d _ => Some (fd_start_location d, fd_end_location d) | _ => None end) <$> fetch_tasks s !! (1, 0) =
    Some (Some (mkLocation 3 5, mkLocation 3 0)) /\
  answers_of s (1, 0) = [FEO_Ok (1, 0) (mkFetchOk false (mkLocation 3 0) [] [])].
Proof. vm_compute. auto. Qed.

(** A subscriber that gives up its FETCH while the publisher is asked loses its session:
    FETCH_OK cannot be written. *)
Example given_up_closes_session :
  let s := f_run (take 3 two_fetches ++ [FOP_Answered (1, 0) (mkEnv [8] true false true false)]) in
  errors_of s = [FEO_Close (1, 0) TC_InternalError] /\ is_some (inbound_fetches s !! (1, 0)) = true.
Proof. vm_compute. auto. Qed.

(** A REQUEST_UPDATE of a FETCH stops the delivery, and gets no answer. *)
Example update_not_answered :
  let s := f_run (take 4 two_fetches ++ [FOP_Update (1, 0)]) in
  fe_sent s = fe_sent (f_run (take 4 two_fetches)) /\
  (fun t => match ft_phase t with FPH_Delivering _ stop => Some stop | _ => None end) <$> fetch_tasks s !! (1, 0) = Some (Some FS_UpdateFailed).
Proof. vm_compute. auto. Qed.

(** A FETCH without an end claims nothing: two of them ask for the same groups. *)
Example open_ended_asks_twice :
  length (List.filter (fun o => match o with FEO_Ask _ _ => true | _ => false end)
    (fe_sent (f_run [FOP_Fetch (1, 0) f_env (a_fetch 0 (LF_AbsoluteStart (mkLocation 1 0)));
                     FOP_Fetch (2, 0) f_env (a_fetch 0 (LF_AbsoluteStart (mkLocation 1 0)))]))) = 2%nat.
Proof. vm_compute. reflexivity. Qed.
